(* ===== verification/_CoqProject ===== *)
-Q . S2P
Prelude.v
GoText.v
GoJSON.v
Crypto.v
Amounts.v
Envelope.v
PilotLimits.v
Policy.v
Reservation.v
Journal.v
Intent.v
Lifecycle.v
LifecycleFacts.v
LifecycleRun.v
LifecycleTheorems.v
Receipt.v
Nonces.v
SignerVerifier.v
AttemptJournal.v
AttemptTheorems.v
Executor.v
ExecutorTheorems.v
Recon.v
ReconEscrow.v
ReconEngine.v
ReconEscrowOps.v
ReconTheorems.v
ReconRestart.v
ReconEscrowTheorems.v
GovAction.v
GovActionTheorems.v
Workflow.v
WorkflowTheorems.v
Authority.v
SafeTx.v
Relay.v
RelayTheorems.v
RelayDemo.v
SellerQuote.v
Directory.v
DirectoryTheorems.v
DirectoryReader.v
QuoteIntake.v
DirectoryDemo.v
Leadership.v
LeadershipTheorems.v
LeadershipDemo.v
Keeper.v
KeeperStore.v
KeeperService.v
KeeperTheorems.v
KeeperRelay.v
KeeperDemo.v
CanonicalJSON.v
CanonicalTheorems.v
EventStore.v
EventTheorems.v
EventRuns.v
EventDemo.v
Url.v
UrlTheorems.v
PurchaseSpec.v
PurchaseTheorems.v
PurchaseDemo.v
Adaptation.v
Intake.v
IntakeTheorems.v
IntakeDemo.v
TxRetry.v
Settlement.v
SettlementStore.v
SettlementTheorems.v
SettlementRuns.v
SettlementDemo.v
Commitment.v
ExecStore.v
Orchestration.v
OrchestrationTheorems.v
OrchestrationDemo.v
