(* ===== verification/Prelude.v ===== *)
(** * FlowOps: a verification library

    FlowOps lets software agents spend an organisation's money under policy. This library is
    a shallow embedding of its Go services in Rocq, with the theorems that make them correct.
    A Go package is one or more files here; its structs are records, its tables and maps are
    finite maps or lists, its functions are executable definitions under the names of the
    source, and what is outside the process is an argument.

    ** The program

    The control plane ([internal/controlplane]) takes payment intents, decides them by policy
    ([internal/policy]) or by an approver, and issues signed authorization envelopes
    ([pkg/envelope]) under deployment-wide limits ([pkg/pilotlimits]). The customer's own signer
    ([pkg/referencesigner]) checks an envelope again, claims its nonce and broadcasts one
    transaction. Reconciliation ([internal/reconciliation]) follows what was broadcast on the
    chain and keeps the ledger.

    The ASCP services buy from sellers through an escrow contract. A seller's quote
    ([pkg/sellerquote]) is checked against a published directory ([pkg/directoryproof],
    [pkg/directoryrelease], [internal/directoryreader]); intake ([internal/ascpintake]) stores
    it with the purchase specification ([pkg/purchasespec]), possibly under an adaptation grant
    ([internal/ascpadaptation]); orchestration ([internal/ascporchestration]) evaluates the
    policy, waits for an approval where one is needed and authorizes the execution
    ([internal/ascpexecauth], [internal/ascpcapacity]) for a commitment
    ([pkg/executioncommitment]); the keeper ([internal/ascpkeeper]) relays the transactions,
    settlement ([internal/ascpsettlement]) records their outcome, and every step is an event in
    a hash chain ([internal/ascpevents]). Privileged changes go through dual-control workflows
    ([internal/ascpworkflow]) and a relay to the customer's Safe ([internal/ascpgovernancerelay],
    [pkg/governanceworkflow], [pkg/safegovernance]). Leadership ([internal/ascpleadership])
    admits the effects of one region at a time.

    ** The files

    Shared: this file (results, integers at their width, time, tactics, hints and generic
    lemmas), [GoText] and [GoJSON] (the parts of Go's standard library the code uses, with
    times and Base64), [Crypto] (the primitives), [Amounts] (decimal amounts), [TxRetry]
    (serializable transactions with retries).

    - Control plane: [Envelope], [PilotLimits], [Policy], [Reservation], [Journal] (both
      journals), [Intent], [Lifecycle]; [LifecycleFacts], [LifecycleRun] and [LifecycleTheorems]
      for the invariant, the payloads and runs, and the properties.
    - Signer: [Receipt], [Nonces], [SignerVerifier], [AttemptJournal], [AttemptTheorems],
      [Executor], [ExecutorTheorems].
    - Reconciliation: [Recon], [ReconEscrow], [ReconEngine], [ReconEscrowOps], [ReconTheorems],
      [ReconRestart], [ReconEscrowTheorems].
    - Governance: [GovAction], [GovActionTheorems], [Workflow], [WorkflowTheorems],
      [Authority], [SafeTx], [Relay], [RelayTheorems], [RelayDemo].
    - Directory and quotes: [SellerQuote], [Directory], [DirectoryTheorems],
      [DirectoryReader], [QuoteIntake], [DirectoryDemo].
    - Leadership: [Leadership], [LeadershipTheorems], [LeadershipDemo].
    - Keeper: [Keeper], [KeeperStore], [KeeperService], [KeeperTheorems], [KeeperRelay],
      [KeeperDemo].
    - Events: [CanonicalJSON], [CanonicalTheorems], [EventStore], [EventTheorems], [EventRuns],
      [EventDemo].
    - Purchases: [Url], [UrlTheorems], [PurchaseSpec], [PurchaseTheorems], [PurchaseDemo],
      [Adaptation], [Intake], [IntakeTheorems], [IntakeDemo].
    - Settlement: [Settlement], [SettlementStore], [SettlementTheorems], [SettlementRuns],
      [SettlementDemo].
    - Orchestration: [Commitment], [ExecStore], [Orchestration], [OrchestrationTheorems],
      [OrchestrationDemo].

    The files named [...Demo] hold runs on concrete data, with which the theorems' hypotheses
    are shown to hold.

    ** How the code is modelled

    - A Go error is the text of its sentinel ([res]); [try] and [check] are the early returns.
    - Integers are [Z]; where the code can leave the range of its type the wrap-around is
      written out ([uint64], [int64]). Amounts are decimal strings, as in the code.
    - A database transaction is one step over the tables, with the keys, CHECK constraints and
      triggers of the migrations that the code relies on. A call is a sequence of such steps;
      what other clients commit between two of them is an argument ([..._others], [between],
      [te_others]), and so is whether a commit is lost or its answer is ([commit_outcome]).
    - A file is its bytes or lines, and every write has the outcomes an operating system can
      give it: complete, refused, or torn. A restart reads what the file then holds.
    - Clocks, random identifiers and the answers of observers, wallets and remote signers are
      arguments of the operation that reads them: the theorems hold for all of them.

    ** Parameters

    Code that is not in the repository is a class, with the documented behaviour that is
    relied on as a second class of laws: [Crypto] and [CryptoLaws] (SHA-256, Keccak-256,
    Ed25519), [SafeLib] and [SafeLibLaws] (secp256k1 recovery, calldata of a Safe), [Abi]
    and [AbiLaws] (go-ethereum's ABI encoder), [EthLib] (its decoding of transactions),
    [Unicode], [UnicodeUpper] and [UpperLaws] (case mapping beyond ASCII), [HostNames] and
    [HostLaws] (authorities, IP addresses and IDNA), [OriginCheck] (origins of sellers),
    [ExternalStores] and [ExternalLaws] (the remote stores of checkpoints). Collision
    resistance is never assumed: a theorem that needs it says that its conclusion holds or
    that texts which were hashed for the data at hand collide, and where the size of a digest
    is a law, so that some collision always exists, it names these texts ([collide_in]). Each
    law class has an instance in the library.

    Interfaces between components of the program are classes too, and clients are proved
    against them: [PayloadJSON], [EventJournal] with [EventJournalLaws] (instances for the file
    and the PostgreSQL journal), [NonceStore] with [NonceStoreLaws], [WorkflowStore] with
    [StoreLaws].

    ** The theorems

    - Control plane: an authorization is only issued for an intent that was approved, under
      the digest that was approved; a restart recovers the state under a clock that does not
      go back; the exposure of the pilot stays within its limits in every interleaving of
      operations, failures, reported outcomes and restarts.
    - Signer: over every run with crashes, torn writes and restarts an authorization is
      broadcast at most once, and only after it was verified and its nonce was claimed.
    - Reconciliation: chain freezes end only by the recorded manual release; an execution
      is settled only with proof from a quorum and its entry in the ledger; the ledger balances; a restart agrees with the
      process before it; escrow positions follow the contract's own state machine.
    - Governance: nothing is executed without a second person; completion needs the authority
      quorum; the relay broadcasts only what was prepared from the calldata of authorized Safe
      transactions; a payload hash binds its action.
    - Directory: every compiled leaf verifies; an accepted quote was published.
    - Leadership: running effects belong to the epoch; a promotion seals the old one; a drain
      can always finish.
    - Keeper: one nonce per job; only the recorded transaction of a job is broadcast, with call
      data that was verified for the job, inside the fence where there is one.
    - Events: a verified recovery is the published history; appended chains verify; what was
      published is recovered; canonical JSON has one text per value and decodes to it.
    - Purchases: canonical URLs are stable; a specification's hash binds the request; nonces,
      idempotency keys and grants are used once, and a repeated request is answered with the
      operation it made.
    - Orchestration: an authorization rests on the decision made for its intent, by the
      policy on the stored specification and the spend at that moment or by the approval of
      exactly its review; budgets are not exceeded; and the time an authorization
      has after its evaluation is bounded.
    - Settlement: books, reservation and state of an operation agree; a sealed receipt has its
      quorum; a reorg of the lock after settlement is refused by the ledger's key, and one
      stuck attempt ends the worker's cycles.

    ** Fuel

    Recursion that is not structural is given fuel that is shown to be enough or that bounds
    the data it runs over: the JSON decoder [2 * length + 2] ([decode_fuel_enough]), the loop
    that builds a Merkle tree the number of its leaves ([merkle_terminates]), the dot segments of
    a path its length ([dot_segments_resolved] compares them with a structural definition), the
    binary search for a seller the length of the list. Transactions are tried three times, as
    in the code; the wait of a drain takes the ticks of its timer.

    ** Not modelled

    Servers, clients and processes (HTTP, MCP, Unix sockets, JSON-RPC, timers and the commands
    under [cmd]): their answers are arguments. The PostgreSQL stores of workflows and of the
    governance relay (their in-memory stores are modelled against the same interface), the
    bearer instruments ([internal/ascpbearer]), the seller rails ([internal/ascprails]), the
    verifier of deliveries ([internal/ascpverifier]), asset health ([internal/ascpassethealth]),
    the decoding of chain logs, the offline tooling of directory releases, release and readiness
    checks, the x402 adapter, and everything that is not Go. Contexts and cancellation are left
    out, except where a cancelled context changes what was written. *)
From stdpp Require Import base gmap strings list fin_maps.
From Stdlib Require Import ZArith Lia.

Open Scope Z_scope.

(** ** Results

    A Go function returning [(T, error)] is a function into [res T]: the value
    on a nil error, the error otherwise. An [error] is the text of the
    innermost sentinel or message; the text that [fmt.Errorf] prefixes around
    a wrapped error is not kept, so [errors.Is] is equality. *)

Abbreviation error := string (only parsing).

Inductive res (A : Type) : Type :=
| Ok (a : A)
| Err (e : error).
Arguments Ok {A} _.
Arguments Err {A} _.

#[export] Instance res_eq_dec {A} `{EqDecision A} : EqDecision (res A).
Proof. solve_decision. Defined.

Definition is_ok {A} (r : res A) : bool :=
  match r with Ok _ => true | Err _ => false end.

(** A function returning only [error]: [None] is nil. *)
Definition of_err (e : option error) : res unit :=
  match e with None => Ok tt | Some m => Err m end.

Declare Scope go_scope.
Delimit Scope go_scope with go.
Open Scope go_scope.

(** [try x := e in k]: run [e], return its error early. *)
Notation "'try' x ':=' e 'in' k" :=
  (match e with Ok x => k | Err err => Err err end)
  (at level 10, x pattern, k at level 200) : go_scope.

(** [check b else m ;; k]: return the error [m] unless the guard [b] holds. *)
Notation "'check' b 'else' m ';;' k" :=
  (if b then k else Err m)
  (at level 10, b at level 100, m at level 9, k at level 200) : go_scope.

(** The success of a guarded body, as a proposition. *)
Lemma check_ok_iff {A} (b : bool) m (k : res A) x :
  (if b then k else Err m) = Ok x <-> b = true /\ k = Ok x.
Proof. destruct b; naive_solver. Qed.

Lemma try_ok_iff {A B} (e : res A) (k : A -> res B) y :
  (match e with Ok x => k x | Err m => Err m end) = Ok y <->
  exists x, e = Ok x /\ k x = Ok y.
Proof. destruct e; naive_solver. Qed.

Lemma try_unit_iff {B} (e : res unit) (k : res B) y :
  (match e with Ok _ => k | Err m => Err m end) = Ok y <-> e = Ok tt /\ k = Ok y.
Proof. destruct e as [[]|]; naive_solver. Qed.

Lemma ok_tt_iff : @Ok unit tt = Ok tt <-> True.
Proof. done. Qed.

(** A [for] loop over a slice with early return. *)
Fixpoint fold_res {S A} (f : S -> A -> res S) (s : S) (l : list A) : res S :=
  match l with
  | [] => Ok s
  | x :: l => try s' := f s x in fold_res f s' l
  end.

Lemma fold_res_cons {S A} (f : S -> A -> res S) s x l :
  fold_res f s (x :: l) = try s' := f s x in fold_res f s' l.
Proof. done. Qed.

Lemma fold_res_snoc {S A} (f : S -> A -> res S) l : forall s x,
  fold_res f s (l ++ [x]) = try s' := fold_res f s l in f s' x.
Proof.
  induction l as [|y l IH]; intros s x; cbn.
  - by destruct (f s x).
  - destruct (f s y); [apply IH|done].
Qed.

(** One element that every state rejects fails the whole loop. *)
Lemma fold_res_rejects {S A} (f : S -> A -> res S) x l :
  x ∈ l -> (forall s, is_ok (f s x) = false) -> forall s, is_ok (fold_res f s l) = false.
Proof.
  intros Hin Hx. induction l as [|y l IH]; intros s; [by apply elem_of_nil in Hin|]. rewrite fold_res_cons.
  apply elem_of_cons in Hin as [<-|Hin]; [specialize (Hx s); by destruct (f s x)|].
  destruct (f s y); [by apply IH|done].
Qed.

(** The loops that only collect a set, checking each element on the way. *)
Lemma fold_res_set {A B} `{Countable B} (g : A -> res B) (l : list A) : forall (s : gset B) r,
  fold_res (fun s x => try y := g x in Ok ({[y]} ∪ s)) s l = Ok r <->
  Forall (fun x => is_ok (g x) = true) l /\
  r = list_to_set (omap (fun x => match g x with Ok y => Some y | Err _ => None end) l) ∪ s.
Proof.
  induction l as [|x l IH]; intros s r; cbn [fold_res omap list_omap list_to_set].
  { split; [intros [= <-]; split; [constructor|set_solver]|]. intros [_ ->]. f_equal. set_solver. }
  rewrite Forall_cons. destruct (g x) as [y|m] eqn:Eg; [|split; [done|naive_solver]].
  rewrite IH. cbn. split.
  - intros [Hl ->]. split; [done|set_solver].
  - intros [[_ Hl] ->]. split; [done|set_solver].
Qed.

(** The loops that only check each element. *)
Lemma fold_res_check {A} (g : A -> res unit) (l : list A) :
  fold_res (fun _ x => g x) tt l = Ok tt <-> Forall (fun x => g x = Ok tt) l.
Proof.
  induction l as [|x l IH]; cbn [fold_res].
  { split; [constructor|done]. }
  rewrite Forall_cons. destruct (g x) as [[]|m] eqn:Eg; [rewrite IH|]; naive_solver.
Qed.

Arguments fold_res : simpl never.

(** A [Forall] over a concrete list, by evaluation. *)
Lemma forallb_Forall {A} (f : A -> bool) l : forallb f l = true -> Forall (fun x => f x = true) l.
Proof.
  induction l as [|x l IH]; cbn; [constructor|]. intros [Hx Hl]%andb_true_iff. constructor; auto.
Qed.

(** ** Machine integers *)

Definition MaxInt64 : Z := 2 ^ 63 - 1.
Definition MinInt64 : Z := - 2 ^ 63.
Definition MaxUint64 : Z := 2 ^ 64 - 1.

(** Two's-complement wrap-around of [int64] and [uint64]. *)
Definition int64 (z : Z) : Z := (z + 2 ^ 63) mod 2 ^ 64 - 2 ^ 63.
Definition uint64 (z : Z) : Z := z mod 2 ^ 64.

Definition is_int64 (z : Z) : Prop := MinInt64 <= z <= MaxInt64.
Definition is_uint64 (z : Z) : Prop := 0 <= z <= MaxUint64.

(** [big.Int.BitLen() > 256] for a non-negative or negative integer. *)
Definition fits256 (z : Z) : bool := Z.abs z <? 2 ^ 256.

Lemma int64_id z : is_int64 z -> int64 z = z.
Proof.
  unfold is_int64, int64, MinInt64, MaxInt64. intros H.
  rewrite Z.mod_small; lia.
Qed.

Lemma int64_range z : is_int64 (int64 z).
Proof.
  unfold is_int64, int64, MinInt64, MaxInt64.
  pose proof (Z.mod_pos_bound (z + 2 ^ 63) (2 ^ 64) ltac:(lia)). lia.
Qed.

Lemma uint64_id z : is_uint64 z -> uint64 z = z.
Proof. unfold is_uint64, uint64, MaxUint64. intros. apply Z.mod_small. lia. Qed.

(** ** Time

    A [time.Time] is the number of nanoseconds since 1 January of year 1, UTC,
    which is how the runtime counts; the zero [Time] is [0]. A
    [time.Duration] is an [int64] count of nanoseconds. *)

Abbreviation time := Z (only parsing).
Abbreviation duration := Z (only parsing).

Definition Nanosecond : duration := 1.
Definition Second : duration := 1000000000.
Definition Minute : duration := 60 * Second.
Definition Hour : duration := 60 * Minute.

(** Seconds between year 1 and the Unix epoch. *)
Definition unixToInternal : Z := 62135596800.

(** [time.Unix(s, 0)]: the addition is an [int64] one. *)
Definition time_of_unix (s : Z) : time := int64 (s + unixToInternal) * Second.

(** [t.Unix()]. *)
Definition Unix (t : time) : Z := int64 (t / Second - unixToInternal).

(** [t.Add(d)]: the seconds saturate. *)
Definition time_add (t : time) (d : duration) : time :=
  let s := (t + d) / Second in
  if MaxInt64 <? s then MaxInt64 * Second + (t + d) mod Second
  else if s <? - MaxInt64 then - MaxInt64 * Second + (t + d) mod Second
  else t + d.

(** [t.Sub(u)] saturates at the ends of [Duration]. *)
Definition time_sub (t u : time) : duration :=
  Z.max MinInt64 (Z.min MaxInt64 (t - u)).

Definition time_before (t u : time) : bool := t <? u.
Definition time_after (t u : time) : bool := u <? t.
Definition time_IsZero (t : time) : bool := t =? 0.

(** [t.Year() == u.Year() && t.YearDay() == u.YearDay()] in UTC: the two
    instants fall on the same day counted from year 1. *)
Definition same_utc_day (t u : time) : bool :=
  t / (24 * Hour) =? u / (24 * Hour).

(** A clock reading whose Unix seconds need no wrap-around: every instant of
    the years 1 to 292 billion. *)
Definition sane_time (t : time) : Prop := 0 <= t / Second <= MaxInt64.

Lemma Unix_sane t : sane_time t -> Unix t = t / Second - unixToInternal.
Proof.
  intros H. unfold Unix. apply int64_id.
  unfold sane_time, is_int64, MinInt64, MaxInt64, unixToInternal in *. lia.
Qed.

(** Unix seconds for which [time.Unix] does not wrap. *)
Definition sane_unix (s : Z) : Prop := MinInt64 <= s <= MaxInt64 - unixToInternal.

Lemma time_of_unix_sane s :
  sane_unix s -> time_of_unix s = (s + unixToInternal) * Second.
Proof.
  intros H. unfold time_of_unix. rewrite int64_id; [done|].
  unfold sane_unix, is_int64, MinInt64, MaxInt64, unixToInternal in *. lia.
Qed.

(** The bridge between nanosecond comparisons and second-granular journals:
    [now.Before(time.Unix(s,0))] is [now.Unix() < s]. *)
Lemma before_unix t s :
  sane_time t -> sane_unix s ->
  time_before t (time_of_unix s) = (Unix t <? s).
Proof.
  intros Ht Hs. unfold time_before.
  rewrite (Unix_sane _ Ht), (time_of_unix_sane _ Hs).
  pose proof (Z.div_mod t Second ltac:(unfold Second; lia)) as Hd.
  pose proof (Z.mod_pos_bound t Second ltac:(unfold Second; lia)) as Hm.
  unfold Second in *.
  destruct (Z.ltb_spec t ((s + unixToInternal) * 1000000000));
    destruct (Z.ltb_spec (t / 1000000000 - unixToInternal) s); lia.
Qed.

(** The Unix seconds that [Unix] gives for such a reading. *)
Definition unix_ok (s : Z) : Prop := - unixToInternal <= s <= MaxInt64 - unixToInternal.

Lemma unix_ok_sane s : unix_ok s -> sane_unix s.
Proof. unfold unix_ok, sane_unix, MinInt64, MaxInt64, unixToInternal. lia. Qed.

Lemma Unix_ok t : sane_time t -> unix_ok (Unix t).
Proof. intros Ht. rewrite (Unix_sane _ Ht). unfold sane_time, unix_ok in *. lia. Qed.

Lemma Unix_int64 t : is_int64 (Unix t).
Proof. apply int64_range. Qed.

Lemma Unix_mono t u : sane_time t -> sane_time u -> t <= u -> Unix t <= Unix u.
Proof.
  intros Ht Hu Htu. rewrite (Unix_sane _ Ht), (Unix_sane _ Hu).
  pose proof (Z.div_le_mono t u Second ltac:(unfold Second; lia) Htu). lia.
Qed.

Lemma time_of_unix_ok s : unix_ok s -> sane_time (time_of_unix s) /\ Unix (time_of_unix s) = s.
Proof.
  intros Hs. assert (Hsane : sane_time (time_of_unix s)).
  { unfold sane_time. rewrite (time_of_unix_sane _ (unix_ok_sane _ Hs)).
    rewrite Z.div_mul by (unfold Second; lia). unfold unix_ok in Hs. lia. }
  split; [done|]. rewrite (Unix_sane _ Hsane), (time_of_unix_sane _ (unix_ok_sane _ Hs)).
  rewrite Z.div_mul by (unfold Second; lia). lia.
Qed.

Lemma time_add_sane t d : sane_time t -> 0 <= d -> sane_time (time_add t d).
Proof.
  unfold sane_time, time_add. intros Ht Hd.
  assert (0 <= (t + d) / Second).
  { transitivity (t / Second); [lia|]. apply Z.div_le_mono; [unfold Second|]; lia. }
  destruct (Z.ltb_spec MaxInt64 ((t + d) / Second)).
  - rewrite Z.div_add_l by (unfold Second; lia).
    rewrite (Z.div_small ((t + d) mod Second)) by (apply Z.mod_pos_bound; unfold Second; lia).
    unfold MaxInt64. lia.
  - destruct (Z.ltb_spec ((t + d) / Second) (- MaxInt64)); [unfold MaxInt64 in *; lia|lia].
Qed.

(** An instant before a deadline given in Unix seconds: a deadline so far out
    that [time.Unix] wraps is never ahead of a clock reading. *)
Lemma before_unix_inv t s :
  sane_time t -> is_int64 s -> time_before t (time_of_unix s) = true -> unix_ok s /\ Unix t < s.
Proof.
  intros Ht Hs Hb.
  assert (Hok : unix_ok s).
  { unfold time_before, time_of_unix, int64, unix_ok, is_int64, sane_time, MinInt64, MaxInt64, unixToInternal, Second in *.
    apply Z.ltb_lt in Hb.
    assert (0 <= t) by (destruct (Z.le_gt_cases 0 t); [done|]; pose proof (Z.div_lt_upper_bound t 1000000000 0 ltac:(lia) ltac:(lia)); lia).
    destruct (Z.le_gt_cases (s + 62135596800) (2 ^ 63 - 1)) as [Hle|Hgt].
    - rewrite Z.mod_small in Hb by lia. lia.
    - rewrite <-(Z.mod_unique (s + 62135596800 + 2 ^ 63) (2 ^ 64) 1 (s + 62135596800 - 2 ^ 63)) in Hb by lia. lia. }
  split; [done|]. rewrite before_unix in Hb by (done || by apply unix_ok_sane). by apply Z.ltb_lt.
Qed.

(** ** Sums over maps

    The Go code totals amounts by ranging over a map; the order of the
    iteration is not observable in a sum. *)

Definition map_sum {K A} `{Countable K} (f : K -> A -> Z) (m : gmap K A) : Z :=
  map_fold (fun k x acc => f k x + acc) 0 m.

Section MapSum.
Context {K A : Type} `{Countable K}.
Implicit Types (f g : K -> A -> Z) (m : gmap K A).

Lemma map_sum_empty f : map_sum f ∅ = 0.
Proof. unfold map_sum. apply map_fold_empty. Qed.

Lemma map_sum_insert_new f m k x :
  m !! k = None -> map_sum f (<[k:=x]> m) = f k x + map_sum f m.
Proof.
  intros Hk. unfold map_sum.
  rewrite (map_fold_insert_L (fun k x acc => f k x + acc)); [done| |done].
  intros. lia.
Qed.

Lemma map_sum_delete f m k x :
  m !! k = Some x -> map_sum f m = f k x + map_sum f (delete k m).
Proof.
  intros Hk. rewrite <-(insert_delete_id m k x Hk) at 1.
  apply map_sum_insert_new, lookup_delete_eq.
Qed.

Lemma map_sum_insert_upd f m k x y :
  m !! k = Some x -> map_sum f (<[k:=y]> m) = map_sum f m - f k x + f k y.
Proof.
  intros Hk. rewrite (map_sum_delete f m k x Hk).
  rewrite <-insert_delete_eq, map_sum_insert_new by apply lookup_delete_eq. lia.
Qed.

Lemma map_sum_ext f g m :
  (forall k x, m !! k = Some x -> f k x = g k x) -> map_sum f m = map_sum g m.
Proof.
  induction m as [|k x m Hk IH] using map_ind; intros Hfg.
  - by rewrite !map_sum_empty.
  - rewrite !map_sum_insert_new by done.
    rewrite (Hfg k x), IH; [done| |apply lookup_insert_eq].
    intros k' x' Hk'. apply Hfg. rewrite lookup_insert_ne; [done|congruence].
Qed.

Lemma map_sum_le f g m :
  (forall k x, m !! k = Some x -> f k x <= g k x) -> map_sum f m <= map_sum g m.
Proof.
  induction m as [|k x m Hk IH] using map_ind; intros Hfg.
  - by rewrite !map_sum_empty.
  - rewrite !map_sum_insert_new by done.
    assert (f k x <= g k x) by (apply Hfg, lookup_insert_eq).
    assert (map_sum f m <= map_sum g m); [|lia].
    apply IH. intros k' x' Hk'. apply Hfg. rewrite lookup_insert_ne; [done|congruence].
Qed.

Lemma map_sum_nonneg f m :
  (forall k x, m !! k = Some x -> 0 <= f k x) -> 0 <= map_sum f m.
Proof.
  intros Hf. transitivity (map_sum (fun _ _ => 0) m); [|by apply map_sum_le].
  clear Hf. induction m as [|k x m Hk IH] using map_ind.
  - by rewrite map_sum_empty.
  - rewrite map_sum_insert_new by done. lia.
Qed.

Lemma map_sum_member f m k x :
  (forall k x, m !! k = Some x -> 0 <= f k x) -> m !! k = Some x -> f k x <= map_sum f m.
Proof.
  intros Hf Hk. rewrite (map_sum_delete f m k x Hk).
  assert (0 <= map_sum f (delete k m)); [|lia].
  apply map_sum_nonneg. intros k' x' [_ Hk']%lookup_delete_Some. eauto.
Qed.

(** Two maps with the same keys, compared entry by entry. *)
Lemma map_sum_pointwise f m : forall m',
  (forall k, match m !! k, m' !! k with
             | Some x, Some y => f k y <= f k x
             | None, None => True
             | _, _ => False
             end) ->
  map_sum f m' <= map_sum f m.
Proof.
  induction m as [|k x m Hk IH] using map_ind; intros m' Hp.
  - assert (m' = ∅) as ->; [|done]. apply map_eq. intros k. specialize (Hp k).
    rewrite lookup_empty in *. by destruct (m' !! k).
  - pose proof (Hp k) as Hpk. rewrite lookup_insert_eq in Hpk.
    destruct (m' !! k) as [y|] eqn:Hy; [|done].
    rewrite (map_sum_delete f m' k y Hy), map_sum_insert_new by done.
    assert (map_sum f (delete k m') <= map_sum f m); [|lia]. apply IH. intros j.
    specialize (Hp j). destruct (decide (j = k)) as [->|Hne].
    + by rewrite Hk, lookup_delete_eq.
    + rewrite lookup_insert_ne in Hp by done. by rewrite lookup_delete_ne.
Qed.
End MapSum.

(** ** Pointers

    A non-nil Go pointer to a value that no code writes through: the address
    the allocator gave it and the value it points to. [==] on pointers
    compares the addresses only. *)

Record ptr (A : Type) : Type := mkptr { addr : N; deref : A }.
Arguments mkptr {A} _ _.
Arguments addr {A} _.
Arguments deref {A} _.

Definition ptr_eqb {A} (p q : option (ptr A)) : bool :=
  match p, q with
  | None, None => true
  | Some p, Some q => (addr p =? addr q)%N
  | _, _ => false
  end.

(** ** Automation *)

Create HintDb go discriminated.
Create Rewrite HintDb go_bool.

Create Rewrite HintDb go_ok.
#[export] Hint Rewrite @check_ok_iff @try_unit_iff ok_tt_iff : go_ok.

#[export] Hint Rewrite andb_true_iff andb_false_iff orb_true_iff orb_false_iff
  negb_true_iff negb_false_iff Z.leb_le Z.leb_gt Z.ltb_lt Z.ltb_ge Z.eqb_eq
  Z.eqb_neq bool_decide_eq_true bool_decide_eq_false Nat.leb_le Nat.leb_gt
  Nat.ltb_lt Nat.ltb_ge Nat.eqb_eq Nat.eqb_neq N.eqb_eq N.eqb_neq : go_bool.

(** Turn boolean guards into propositions. *)
Ltac to_prop := autorewrite with go_bool in *.

(** [e = Ok tt] for a validator: the conjunction of its guards. *)
Ltac ok_prop := autorewrite with go_ok go_bool in *.

(** One step of following the control flow of a function body recorded in a
    hypothesis: split on the guard, the error test or the lookup the code
    tests next, and drop the branches that contradict the outcome. *)
Ltac go_step :=
  match goal with
  | H : Err _ = Ok _ |- _ => discriminate H
  | H : Ok _ = Err _ |- _ => discriminate H
  | H : Some _ = None |- _ => discriminate H
  | H : None = Some _ |- _ => discriminate H
  | H : true = false |- _ => discriminate H
  | H : false = true |- _ => discriminate H
  | H : Ok _ = Ok _ |- _ => injection H; clear H; intros; subst
  | H : Some _ = Some _ |- _ => injection H; clear H; intros; subst
  | H : (_, _) = (_, _) |- _ => injection H; clear H; intros; subst
  | H : (match (if ?b then _ else _) with _ => _ end) = _ |- _ => destruct b eqn:?
  | H : (if ?b then _ else _) = _ |- _ => destruct b eqn:?
  | H : (match ?x with Ok _ => _ | Err _ => _ end) = _ |- _ => destruct x eqn:?
  | H : (match ?x with Some _ => _ | None => _ end) = _ |- _ => destruct x eqn:?
  | H : (let '(_, _) := ?x in _) = _ |- _ => destruct x eqn:?
  end.

Ltac go_inv := repeat (go_step; simpl in *; try done).

(** The same for a goal: case on the test the goal is stuck on. *)
Ltac go_split :=
  repeat match goal with
  | |- context [match ?x with Ok _ => _ | Err _ => _ end] => destruct x eqn:?
  | |- context [if ?b then _ else _] => destruct b eqn:?
  | |- context [match ?x with Some _ => _ | None => _ end] => destruct x eqn:?
  end; simpl in *; try done.
