(* ===== verification/GoText.v ===== *)
(** * Text: the parts of [strings], [regexp], [math/big] and [encoding/hex]
    that FlowOps uses

    A Go string is a sequence of bytes, here [string] (a sequence of 8-bit
    [ascii] codes). The file holds the patterns the packages compile
    ([^[a-zA-Z0-9][a-zA-Z0-9._:-]{0,127}$], [^0x[0-9a-f]{40}$],
    [^0x[0-9a-f]{64}$]), [strings.TrimSpace], [strings.ToLower],
    [strings.ContainsAny], [big.Int.SetString(_, 10)], [big.Int.String] and the
    two directions of [encoding/hex], with the round trips the components
    rely on. *)
From stdpp Require Import base gmap strings list fin_maps.
From Stdlib Require Import ZArith Lia Ascii.
From S2P Require Import Prelude.

Open Scope Z_scope.

(** ** Characters *)

Definition code (c : ascii) : Z := Z.of_N (Ascii.N_of_ascii c).
Definition char_of (z : Z) : ascii := Ascii.ascii_of_N (Z.to_N z).

Definition between (lo hi z : Z) : bool := (lo <=? z) && (z <=? hi).

Definition is_digit (c : ascii) : bool := between 48 57 (code c).
Definition is_lower_hex (c : ascii) : bool := is_digit c || between 97 102 (code c).
Definition is_alnum (c : ascii) : bool :=
  is_digit c || between 65 90 (code c) || between 97 122 (code c).
(** [[a-zA-Z0-9._:-]] *)
Definition is_idch (c : ascii) : bool :=
  is_alnum c || (code c =? 46) || (code c =? 95) || (code c =? 58) || (code c =? 45).
Definition is_ascii (c : ascii) : bool := code c <? 128.

Fixpoint str_all (p : ascii -> bool) (s : string) : bool :=
  match s with
  | EmptyString => true
  | String c s => p c && str_all p s
  end.

Definition str_len (s : string) : Z := Z.of_nat (String.length s).

(** ** Patterns *)

(** [regexp.MustCompile(`^[a-zA-Z0-9][a-zA-Z0-9._:-]{0,127}$`).MatchString] *)
Definition identifier_pattern (s : string) : bool :=
  match s with
  | EmptyString => false
  | String c r => is_alnum c && str_all is_idch r && (str_len r <=? 127)
  end.

(** [regexp.MustCompile(`^0x[0-9a-f]{n}$`).MatchString] *)
Definition hex_pattern (n : Z) (s : string) : bool :=
  match s with
  | String c0 (String c1 r) =>
      (code c0 =? 48) && (code c1 =? 120) && str_all is_lower_hex r && (str_len r =? n)
  | _ => false
  end.

Definition address_pattern : string -> bool := hex_pattern 40.
Definition hash_pattern : string -> bool := hex_pattern 64.

(** [strings.Repeat] *)
Fixpoint str_repeat (s : string) (n : nat) : string :=
  match n with O => "" | S n => s +:+ str_repeat s n end.

(** ["0x"+strings.Repeat("0", 64)] and ["0x"+strings.Repeat("0", 40)] *)
Definition zero_hash : string := "0x" +:+ str_repeat "0" 64.
Definition zero_address : string := "0x" +:+ str_repeat "0" 40.

(** ** Case and space *)

(** [strings.Map(unicode.ToLower, s)] for a string with a byte above 127: the
    tables of the Unicode standard are a parameter. *)
Class Unicode := { unicode_lower : string -> string }.

Definition ascii_lower (c : ascii) : ascii :=
  if between 65 90 (code c) then char_of (code c + 32) else c.

Fixpoint str_map (f : ascii -> ascii) (s : string) : string :=
  match s with
  | EmptyString => EmptyString
  | String c s => String (f c) (str_map f s)
  end.

(** [strings.ToLower] *)
Definition ToLower `{Unicode} (s : string) : string :=
  if str_all is_ascii s then str_map ascii_lower s else unicode_lower s.

Definition space1 (a : ascii) : bool := between 9 13 (code a) || (code a =? 32).
(** U+0085 and U+00A0 *)
Definition space2 (a b : ascii) : bool :=
  (code a =? 194) && ((code b =? 133) || (code b =? 160)).
(** U+1680, U+2000 to U+200A, U+2028, U+2029, U+202F, U+205F, U+3000 *)
Definition space3 (a b c : ascii) : bool :=
  ((code a =? 225) && (code b =? 154) && (code c =? 128)) ||
  ((code a =? 226) && (code b =? 128) &&
     (between 128 138 (code c) || (code c =? 168) || (code c =? 169) || (code c =? 175))) ||
  ((code a =? 226) && (code b =? 129) && (code c =? 159)) ||
  ((code a =? 227) && (code b =? 128) && (code c =? 128)).

Section Trim.
Variable p2 : ascii -> ascii -> bool.
Variable p3 : ascii -> ascii -> ascii -> bool.
Fixpoint trim_front (l : list ascii) : list ascii :=
  match l with
  | [] => []
  | a :: l1 =>
      if space1 a then trim_front l1 else
      match l1 with
      | [] => l
      | b :: l2 =>
          if p2 a b then trim_front l2 else
          match l2 with
          | [] => l
          | c :: l3 => if p3 a b c then trim_front l3 else l
          end
      end
  end.
End Trim.

(** [strings.TrimSpace] *)
Definition TrimSpace (s : string) : string :=
  let front := trim_front space2 space3 (String.list_ascii_of_string s) in
  String.string_of_list_ascii
    (rev (trim_front (fun a b => space2 b a) (fun a b c => space3 c b a) (rev front))).

(** [strings.ContainsAny(s, "\r\n\t")] *)
Definition contains_crlftab (s : string) : bool :=
  negb (str_all (fun c => negb ((code c =? 13) || (code c =? 10) || (code c =? 9))) s).

(** ** Decimal integers *)

Definition digit_val (c : ascii) : Z := code c - 48.

Fixpoint parse_digits (s : string) (acc : Z) : option Z :=
  match s with
  | EmptyString => Some acc
  | String c s => if is_digit c then parse_digits s (10 * acc + digit_val c) else None
  end.

(** [new(big.Int).SetString(s, 10)]: an optional sign and at least one digit. *)
Definition SetString10 (s : string) : option Z :=
  match s with
  | EmptyString => None
  | String c r =>
      if code c =? 45 then
        match r with EmptyString => None | _ => option_map Z.opp (parse_digits r 0) end
      else if code c =? 43 then
        match r with EmptyString => None | _ => parse_digits r 0 end
      else parse_digits s 0
  end.

Fixpoint dec_digits (fuel : nat) (n : Z) (acc : string) : string :=
  match fuel with
  | O => acc
  | S fuel =>
      let acc := String (char_of (48 + n mod 10)) acc in
      if n <? 10 then acc else dec_digits fuel (n / 10) acc
  end.

(** [big.Int.String], [strconv.FormatInt(_, 10)] *)
Definition dec_string (n : Z) : string :=
  if n <? 0 then "-" +:+ dec_digits (S (Z.to_nat (Z.log2 (- n)))) (- n) ""
  else dec_digits (S (Z.to_nat (Z.log2 n))) n "".

(** ** Hexadecimal *)

Definition nibble (c : ascii) : option Z :=
  if is_digit c then Some (code c - 48)
  else if between 97 102 (code c) then Some (code c - 87)
  else if between 65 70 (code c) then Some (code c - 55)
  else None.

Definition hex_char (v : Z) : ascii :=
  if v <? 10 then char_of (48 + v) else char_of (87 + v).

(** [hex.DecodeString] *)
Fixpoint hex_decode (s : string) : option string :=
  match s with
  | EmptyString => Some EmptyString
  | String a (String b r) =>
      match nibble a, nibble b, hex_decode r with
      | Some x, Some y, Some t => Some (String (char_of (16 * x + y)) t)
      | _, _, _ => None
      end
  | String _ EmptyString => None
  end.

(** [hex.EncodeToString] *)
Fixpoint hex_encode (s : string) : string :=
  match s with
  | EmptyString => EmptyString
  | String c r =>
      String (hex_char (code c / 16)) (String (hex_char (code c mod 16)) (hex_encode r))
  end.

(** The lower-case text of [common.Hash.Hex] and of [common.Address.Hex] *)
Definition hex_hash (raw : string) : string := "0x" +:+ hex_encode raw.

(** [strings.HasPrefix(s, "0x")] and [strings.TrimPrefix(s, "0x")] *)
Definition has_0x (s : string) : bool :=
  match s with
  | String c0 (String c1 _) => (code c0 =? 48) && (code c1 =? 120)
  | _ => false
  end.
Definition trim_0x (s : string) : string :=
  match s with
  | String _ (String _ r) => if has_0x s then r else s
  | _ => s
  end.

(** ** Facts: characters *)

Lemma code_range c : 0 <= code c < 256.
Proof. destruct c as [[] [] [] [] [] [] [] []]; vm_compute; split; congruence. Qed.

Lemma char_of_code c : char_of (code c) = c.
Proof. unfold char_of, code. rewrite N2Z.id. apply Ascii.ascii_N_embedding. Qed.

Lemma code_char_of z : 0 <= z < 256 -> code (char_of z) = z.
Proof.
  intros H. unfold code, char_of. rewrite Ascii.N_ascii_embedding; lia.
Qed.

Lemma code_inj c d : code c = code d -> c = d.
Proof. intros H. by rewrite <-(char_of_code c), H, char_of_code. Qed.

Lemma digit_code c : is_digit c = true <-> 48 <= code c <= 57.
Proof. unfold is_digit, between. to_prop. lia. Qed.

Lemma str_app_cons c s t : String c s +:+ t = String c (s +:+ t).
Proof. done. Qed.

Lemma str_app_nil_l t : "" +:+ t = t.
Proof. done. Qed.

Lemma str_all_app p s t : str_all p (s +:+ t) = str_all p s && str_all p t.
Proof. 
  induction s as [|c s IH]; [done|]. rewrite str_app_cons. cbn.
  by rewrite IH, andb_assoc.
Qed.

Lemma str_all_impl (p q : ascii -> bool) s :
  (forall c, p c = true -> q c = true) -> str_all p s = true -> str_all q s = true.
Proof.
  intros Hpq. induction s as [|c s IH]; [done|]. cbn. to_prop.
  intros [Hc Hs]. split; [by apply Hpq | by apply IH].
Qed.

(** ** Facts: decimal round trip *)

Lemma parse_digits_dec_digits fuel : forall n acc,
  0 <= n < 10 ^ Z.of_nat fuel -> (0 < fuel)%nat ->
  parse_digits (dec_digits fuel n acc) 0 = parse_digits acc n.
Proof.
  induction fuel as [|fuel IH]; intros n acc Hn Hf; [lia|].
  pose proof (Z.mod_pos_bound n 10 ltac:(lia)) as Hm.
  pose proof (Z.div_mod n 10 ltac:(lia)) as Hd.
  assert (Hc : code (char_of (48 + n mod 10)) = 48 + n mod 10)
    by (apply code_char_of; lia).
  assert (Hdig : is_digit (char_of (48 + n mod 10)) = true)
    by (apply digit_code; rewrite Hc; lia).
  cbn [dec_digits]. destruct (n <? 10) eqn:Hlt; to_prop.
  - cbn [parse_digits]. rewrite Hdig. unfold digit_val. rewrite Hc.
    f_equal. rewrite Z.mod_small by lia. lia.
  - rewrite Nat2Z.inj_succ, Z.pow_succ_r in Hn by lia.
    rewrite IH.
    + cbn [parse_digits]. rewrite Hdig. unfold digit_val. rewrite Hc. f_equal. lia.
    + split; [apply Z.div_pos; lia|]. apply Z.div_lt_upper_bound; lia.
    + destruct fuel; [|lia]. cbn in Hn. lia.
Qed.

Lemma log2_fuel n : 0 <= n -> n < 10 ^ Z.of_nat (S (Z.to_nat (Z.log2 n))).
Proof.
  intros Hn. destruct (Z.eq_dec n 0) as [->|Hz]; [done|].
  pose proof (Z.log2_nonneg n).
  rewrite Nat2Z.inj_succ, Z2Nat.id by lia.
  eapply Z.lt_le_trans; [apply (proj2 (Z.log2_spec n ltac:(lia)))|].
  apply Z.pow_le_mono_l. lia.
Qed.

Lemma dec_digits_cons fuel : forall n acc, (0 < fuel)%nat ->
  exists c r, dec_digits fuel n acc = String c r /\ (0 <= n -> is_digit c = true).
Proof.
  induction fuel as [|fuel IH]; intros n acc Hf; [lia|]. cbn [dec_digits].
  assert (Hdig : is_digit (char_of (48 + n mod 10)) = true).
  { pose proof (Z.mod_pos_bound n 10 ltac:(lia)).
    apply digit_code. rewrite code_char_of; lia. }
  destruct (n <? 10) eqn:Hlt; [by eexists _, _|].
  destruct fuel as [|fuel]; [by eexists _, _|].
  destruct (IH (n / 10) (String (char_of (48 + n mod 10)) acc)) as (c & r & E & Hc); [lia|].
  exists c, r. split; [done|]. intros. apply Hc. apply Z.div_pos; lia.
Qed.

(** Printing and parsing back an atomic amount is the identity. *)
Lemma SetString10_dec_string n : 0 <= n -> SetString10 (dec_string n) = Some n.
Proof.
  intros Hn. unfold dec_string. destruct (Z.ltb_spec n 0); [lia|].
  destruct (dec_digits_cons (S (Z.to_nat (Z.log2 n))) n "" ltac:(lia)) as (c & r & E & Hc).
  pose proof (parse_digits_dec_digits _ n "" (conj Hn (log2_fuel n Hn)) ltac:(lia)) as Hp.
  rewrite E in *. specialize (Hc Hn). apply digit_code in Hc.
  unfold SetString10. destruct (Z.eqb_spec (code c) 45); [lia|].
  destruct (Z.eqb_spec (code c) 43); [lia|]. done.
Qed.

Lemma parse_digits_nonneg s : forall acc n,
  0 <= acc -> parse_digits s acc = Some n -> 0 <= n.
Proof.
  induction s as [|c s IH]; cbn; intros acc n Ha Hp; [congruence|].
  destruct (is_digit c) eqn:Hd; [|discriminate]. apply digit_code in Hd.
  eapply IH; [|done]. unfold digit_val. lia.
Qed.

Lemma parse_digits_all s : forall acc,
  str_all is_digit s = true -> is_Some (parse_digits s acc).
Proof.
  induction s as [|c s IH]; cbn; intros acc; [eauto|].
  destruct (is_digit c); [apply IH | done].
Qed.

Lemma SetString10_digits s :
  s <> "" -> str_all is_digit s = true -> SetString10 s = parse_digits s 0.
Proof.
  destruct s as [|c r]; [done|]. intros _ H. cbn in H. unfold SetString10.
  destruct (is_digit c) eqn:Hd; [|done]. apply digit_code in Hd.
  destruct (Z.eqb_spec (code c) 45); [lia|]. by destruct (Z.eqb_spec (code c) 43); [lia|].
Qed.

(** ** Facts: hexadecimal round trip *)

Lemma nibble_hex_char v : 0 <= v < 16 -> nibble (hex_char v) = Some v.
Proof.
  intros H. unfold hex_char, nibble, is_digit, between.
  destruct (Z.ltb_spec v 10); rewrite !code_char_of by lia.
  - destruct (Z.leb_spec 48 (48 + v)); [|lia].
    destruct (Z.leb_spec (48 + v) 57); [|lia]. simpl. f_equal. lia.
  - destruct (Z.leb_spec (87 + v) 57); [lia|]. rewrite andb_false_r.
    destruct (Z.leb_spec 97 (87 + v)); [|lia].
    destruct (Z.leb_spec (87 + v) 102); [|lia]. simpl. f_equal. lia.
Qed.

Lemma hex_decode_encode s : hex_decode (hex_encode s) = Some s.
Proof.
  induction s as [|c s IH]; [done|].
  pose proof (code_range c) as Hc. cbn [hex_encode hex_decode].
  pose proof (Z.mod_pos_bound (code c) 16 ltac:(lia)).
  assert (0 <= code c / 16 < 16)
    by (split; [apply Z.div_pos; lia | apply Z.div_lt_upper_bound; lia]).
  rewrite !nibble_hex_char, IH by lia. rewrite <-Z.div_mod by lia.
  by rewrite char_of_code.
Qed.

Lemma hex_char_nibble c :
  is_lower_hex c = true -> exists v, nibble c = Some v /\ 0 <= v < 16 /\ hex_char v = c.
Proof.
  destruct c as [[] [] [] [] [] [] [] []]; intros H; vm_compute in H; try discriminate H;
    (eexists; split; [vm_compute; reflexivity|]); (split; [lia|]); reflexivity.
Qed.

Lemma string_ind2 (P : string -> Prop) :
  P "" -> (forall a, P (String a "")) ->
  (forall a b r, P r -> P (String a (String b r))) -> forall s, P s.
Proof.
  intros H0 H1 H2. fix IH 1. intros [|a [|b r]]; [done|apply H1|apply H2, IH].
Qed.

Lemma hex_decode_inj s t b :
  str_all is_lower_hex s = true -> str_all is_lower_hex t = true ->
  hex_decode s = Some b -> hex_decode t = Some b -> s = t.
Proof.
  intros Hs Ht Ds Dt.
  enough (Henc : forall u, str_all is_lower_hex u = true -> hex_decode u = Some b ->
                 u = hex_encode b) by by rewrite (Henc s), (Henc t).
  clear s t Hs Ht Ds Dt. intros u. revert b.
  induction u as [|a|a c r IH] using string_ind2; intros b Hu Hd; [by inversion Hd|done|].
  cbn in Hu. to_prop. destruct Hu as (Ha & Hc & Hr).
  destruct (hex_char_nibble _ Ha) as (x & Nx & Rx & Ex).
  destruct (hex_char_nibble _ Hc) as (y & Ny & Ry & Ey).
  cbn in Hd. rewrite Nx, Ny in Hd. destruct (hex_decode r) as [t|] eqn:Er; [|done].
  injection Hd as <-. cbn [hex_encode]. rewrite code_char_of by lia.
  replace ((16 * x + y) / 16) with x by (apply (Z.div_unique _ 16 x y); lia).
  replace ((16 * x + y) mod 16) with y by (apply (Z.mod_unique _ 16 x y); lia).
  rewrite Ex, Ey. f_equal. f_equal. by apply IH.
Qed.

Lemma hex_char_lower v : 0 <= v < 16 -> is_lower_hex (hex_char v) = true.
Proof.
  intros Hv. assert (v = 0 \/ v = 1 \/ v = 2 \/ v = 3 \/ v = 4 \/ v = 5 \/ v = 6 \/ v = 7 \/ v = 8 \/ v = 9 \/ v = 10 \/ v = 11 \/
    v = 12 \/ v = 13 \/ v = 14 \/ v = 15) as Hc by lia. repeat destruct Hc as [->|Hc]; try reflexivity. by subst.
Qed.

Lemma hex_encode_lower s : str_all is_lower_hex (hex_encode s) = true.
Proof.
  induction s as [|c s IH]; [done|]. cbn [hex_encode str_all]. pose proof (code_range c).
  rewrite !hex_char_lower, IH; [done| |]; (split; [apply Z.div_pos || apply Z.mod_pos_bound; lia|]).
  - apply Z.mod_pos_bound. lia.
  - apply Z.div_lt_upper_bound; lia.
Qed.

Lemma hex_encode_length s : String.length (hex_encode s) = (2 * String.length s)%nat.
Proof. induction s as [|c s IH]; [done|]. cbn [hex_encode String.length]. rewrite IH. lia. Qed.

Lemma hex_encode_inj a b : hex_encode a = hex_encode b -> a = b.
Proof. intros E. pose proof (hex_decode_encode a) as Ha. rewrite E, hex_decode_encode in Ha. congruence. Qed.
