(* ===== verification/GoJSON.v ===== *)
(** * JSON: what [encoding/json] writes for the structs FlowOps signs and hashes; times and Base64

    [json.Marshal] of a struct writes its fields in declaration order; strings
    are escaped by the rules of the standard encoder with HTML escaping on.
    A byte that is not part of a valid UTF-8 sequence is written as the
    six-character escape of U+FFFD, so decoding the output gives the string
    back only when it was valid UTF-8; [utf8_coerce] is what it gives
    otherwise. *)
From stdpp Require Import base gmap strings list fin_maps.
From Stdlib Require Import ZArith Lia Ascii.
From S2P Require Import Prelude GoText.

Open Scope Z_scope.

(** ** UTF-8 *)

(** The sequences [utf8.DecodeRune] splits a byte string into; [RBad] is one
    byte it reports as [RuneError] of width 1. *)
Inductive rune :=
| R1 (a : ascii)
| R2 (a b : ascii)
| R3 (a b c : ascii)
| R4 (a b c d : ascii)
| RBad (a : ascii).

Definition cont (c : ascii) : bool := between 128 191 (code c).
Definition seq2 (a b : ascii) : bool := between 194 223 (code a) && cont b.
Definition seq3 (a b c : ascii) : bool :=
  cont c &&
  (((code a =? 224) && between 160 191 (code b)) ||
   ((between 225 236 (code a) || between 238 239 (code a)) && cont b) ||
   ((code a =? 237) && between 128 159 (code b))).
Definition seq4 (a b c d : ascii) : bool :=
  cont c && cont d &&
  (((code a =? 240) && between 144 191 (code b)) ||
   (between 241 243 (code a) && cont b) ||
   ((code a =? 244) && between 128 143 (code b))).

Fixpoint runes (l : list ascii) : list rune :=
  match l with
  | [] => []
  | a :: l1 =>
      if is_ascii a then R1 a :: runes l1 else
      match l1 with
      | [] => [RBad a]
      | b :: l2 =>
          if seq2 a b then R2 a b :: runes l2 else
          match l2 with
          | [] => RBad a :: runes l1
          | c :: l3 =>
              if seq3 a b c then R3 a b c :: runes l3 else
              match l3 with
              | [] => RBad a :: runes l1
              | d :: l4 => if seq4 a b c d then R4 a b c d :: runes l4
                           else RBad a :: runes l1
              end
          end
      end
  end.

Definition str_of (l : list ascii) : string := String.string_of_list_ascii l.
Definition chars (s : string) : list ascii := String.list_ascii_of_string s.

Definition rune_bytes (r : rune) : list ascii :=
  match r with
  | R1 a => [a]
  | R2 a b => [a; b]
  | R3 a b c => [a; b; c]
  | R4 a b c d => [a; b; c; d]
  | RBad _ => [char_of 239; char_of 191; char_of 189]
  end.

Definition rune_ok (r : rune) : bool := match r with RBad _ => false | _ => true end.

(** [utf8.ValidString] *)
Definition valid_utf8 (s : string) : bool := forallb rune_ok (runes (chars s)).

(** What [json.Unmarshal] of [json.Marshal s] yields. *)
Definition utf8_coerce (s : string) : string :=
  str_of (concat (map rune_bytes (runes (chars s)))).

(** ** Encoding *)

Definition quote : string := String (char_of 34) "".
Definition backslash : string := String (char_of 92) "".

Definition hex2 (z : Z) : string :=
  String (hex_char (z / 16)) (String (hex_char (z mod 16)) "").

Definition escape_rune (r : rune) : string :=
  match r with
  | R1 a =>
      let z := code a in
      if z =? 34 then backslash +:+ quote
      else if z =? 92 then backslash +:+ backslash
      else if z =? 8 then backslash +:+ "b"
      else if z =? 12 then backslash +:+ "f"
      else if z =? 10 then backslash +:+ "n"
      else if z =? 13 then backslash +:+ "r"
      else if z =? 9 then backslash +:+ "t"
      else if (z <? 32) || (z =? 60) || (z =? 62) || (z =? 38)
      then backslash +:+ "u00" +:+ hex2 z
      else String a ""
  | R3 a b c =>
      if (code a =? 226) && (code b =? 128) && (code c =? 168) then backslash +:+ "u2028"
      else if (code a =? 226) && (code b =? 128) && (code c =? 169) then backslash +:+ "u2029"
      else str_of [a; b; c]
  | RBad _ => backslash +:+ "ufffd"
  | _ => str_of (rune_bytes r)
  end.

Fixpoint str_concat (l : list string) : string :=
  match l with [] => "" | s :: l => s +:+ str_concat l end.

Definition json_string (s : string) : string :=
  quote +:+ str_concat (map escape_rune (runes (chars s))) +:+ quote.

Definition json_int (z : Z) : string := dec_string z.
Definition json_bool (b : bool) : string := if b then "true" else "false".

Fixpoint json_members (fields : list (string * option string)) (first : bool) : string :=
  match fields with
  | [] => ""
  | (_, None) :: fields => json_members fields first
  | (name, Some v) :: fields =>
      (if first then "" else ",") +:+ quote +:+ name +:+ quote +:+ ":" +:+ v
        +:+ json_members fields false
  end.

(** A struct: its fields in order, [None] for one that [omitempty] leaves out. *)
Definition json_object (fields : list (string * option string)) : string :=
  "{" +:+ json_members fields true +:+ "}".

(** [omitempty] *)
Definition omit_zero (z : Z) : option string := if z =? 0 then None else Some (json_int z).
Definition omit_empty (s : string) : option string := if bool_decide (s = "") then None else Some (json_string s).

Fixpoint json_elements (l : list string) : string :=
  match l with
  | [] => ""
  | [v] => v
  | v :: l => v +:+ "," +:+ json_elements l
  end.
Definition json_array (l : list string) : string := "[" +:+ json_elements l +:+ "]".

(** ** Facts *)

Lemma str_of_chars s : str_of (chars s) = s.
Proof. apply String.string_of_list_ascii_of_string. Qed.

Lemma chars_str_of l : chars (str_of l) = l.
Proof. apply String.list_ascii_of_string_of_list_ascii. Qed.

Lemma runes_bytes_valid l :
  forallb rune_ok (runes l) = true -> concat (map rune_bytes (runes l)) = l.
Proof.
  remember (length l) as n eqn:Hn. revert l Hn.
  induction n as [n IH] using lt_wf_ind. intros l -> Hok.
  destruct l as [|a l1]; [done|]. cbn [runes] in *.
  destruct (is_ascii a).
  { cbn in *. f_equal. eapply IH; [|done|done]. lia. }
  destruct l1 as [|b l2]; [done|]. destruct (seq2 a b).
  { cbn in *. do 2 f_equal. eapply IH; [|done|done]. lia. }
  destruct l2 as [|c l3]; [done|]. destruct (seq3 a b c).
  { cbn in *. do 3 f_equal. eapply IH; [|done|done]. lia. }
  destruct l3 as [|d l4]; [done|]. destruct (seq4 a b c d); [|done].
  cbn in *. do 4 f_equal. eapply IH; [|done|done]. lia.
Qed.

(** A valid UTF-8 string survives the JSON round trip. *)
Lemma utf8_coerce_valid s : valid_utf8 s = true -> utf8_coerce s = s.
Proof.
  intros H. unfold utf8_coerce. rewrite runes_bytes_valid by done. apply str_of_chars.
Qed.

Lemma runes_ascii l : forallb is_ascii l = true -> runes l = map R1 l.
Proof.
  induction l as [|a l IH]; [done|]. cbn [forallb runes map]. intros [-> H]%andb_true_iff.
  by rewrite IH.
Qed.

Lemma str_all_chars p s : str_all p s = forallb p (chars s).
Proof. induction s as [|c s IH]; [done|]. cbn. by rewrite IH. Qed.

Lemma valid_utf8_ascii s : str_all is_ascii s = true -> valid_utf8 s = true.
Proof.
  intros H. unfold valid_utf8. rewrite runes_ascii by by rewrite <-str_all_chars.
  induction (chars s); [done|]. done.
Qed.

(** ** The encoder is unambiguous

    [unescape] reads one rune back from the body of a JSON string; it is the
    inverse of [escape_rune] and stops at a bare quote. From it, an encoded
    string determines both the string and where it ends, so an object with
    known member names determines its values. *)

Definition unhex (a b : ascii) : option Z :=
  match nibble a, nibble b with
  | Some x, Some y => Some (16 * x + y)
  | _, _ => None
  end.

Definition unescape_u (a b c d : ascii) : option rune :=
  match unhex a b, unhex c d with
  | Some 0, Some z => Some (R1 (char_of z))
  | Some 32, Some 40 => Some (R3 (char_of 226) (char_of 128) (char_of 168))
  | Some 32, Some 41 => Some (R3 (char_of 226) (char_of 128) (char_of 169))
  | _, _ => None
  end.

Definition unescape_short (e : Z) : option rune :=
  if e =? 98 then Some (R1 (char_of 8))
  else if e =? 102 then Some (R1 (char_of 12))
  else if e =? 110 then Some (R1 (char_of 10))
  else if e =? 114 then Some (R1 (char_of 13))
  else if e =? 116 then Some (R1 (char_of 9))
  else if (e =? 34) || (e =? 92) then Some (R1 (char_of e))
  else None.

Definition unescape (l : list ascii) : option (rune * list ascii) :=
  match l with
  | [] => None
  | a :: l1 =>
      if code a =? 34 then None
      else if code a =? 92 then
        match l1 with
        | e :: l2 =>
            if code e =? 117 then
              match l2 with
              | x :: y :: z :: w :: l3 => option_map (fun r => (r, l3)) (unescape_u x y z w)
              | _ => None
              end
            else option_map (fun r => (r, l2)) (unescape_short (code e))
        | [] => None
        end
      else if is_ascii a then Some (R1 a, l1)
      else match l1 with
           | b :: l2 =>
               if seq2 a b then Some (R2 a b, l2) else
               match l2 with
               | c :: l3 =>
                   if seq3 a b c then Some (R3 a b c, l3) else
                   match l3 with
                   | d :: l4 => Some (R4 a b c d, l4)
                   | [] => None
                   end
               | [] => None
               end
           | [] => None
           end
  end.

(** The runes that [runes] produces from valid UTF-8. *)
Definition rune_wf (r : rune) : bool :=
  match r with
  | R1 a => is_ascii a
  | R2 a b => negb (is_ascii a) && seq2 a b
  | R3 a b c => negb (is_ascii a) && negb (seq2 a b) && seq3 a b c
  | R4 a b c d => negb (is_ascii a) && negb (seq2 a b) && negb (seq3 a b c) && seq4 a b c d
  | RBad _ => false
  end.

Lemma runes_wf l : forallb rune_ok (runes l) = true -> forallb rune_wf (runes l) = true.
Proof.
  remember (length l) as n eqn:Hn. revert l Hn.
  induction n as [n IH] using lt_wf_ind. intros l -> Hok.
  destruct l as [|a l1]; [done|]. cbn [runes] in *.
  destruct (is_ascii a) eqn:Ea.
  { cbn in *. rewrite Ea. eapply IH; [|done|done]. lia. }
  destruct l1 as [|b l2]; [done|]. destruct (seq2 a b) eqn:E2.
  { cbn in *. rewrite Ea, E2. eapply IH; [|done|done]. lia. }
  destruct l2 as [|c l3]; [done|]. destruct (seq3 a b c) eqn:E3.
  { cbn in *. rewrite Ea, E2, E3. eapply IH; [|done|done]. lia. }
  destruct l3 as [|d l4]; [done|]. destruct (seq4 a b c d) eqn:E4; [|done].
  cbn in *. rewrite Ea, E2, E3, E4. eapply IH; [|done|done]. lia.
Qed.

Lemma unescape_high a l :
  is_ascii a = false ->
  unescape (a :: l) =
    match l with
    | b :: l2 =>
        if seq2 a b then Some (R2 a b, l2) else
        match l2 with
        | c :: l3 =>
            if seq3 a b c then Some (R3 a b c, l3) else
            match l3 with d :: l4 => Some (R4 a b c d, l4) | [] => None end
        | [] => None
        end
    | [] => None
    end.
Proof.
  intros Ha. cbn [unescape]. rewrite Ha. unfold is_ascii in Ha. apply Z.ltb_ge in Ha.
  destruct (Z.eqb_spec (code a) 34); [lia|]. by destruct (Z.eqb_spec (code a) 92); [lia|].
Qed.

Lemma unescape_escape r X :
  rune_wf r = true -> unescape (chars (escape_rune r) ++ X) = Some (r, X).
Proof.
  destruct r as [a|a b|a b c|a b c d|a]; intros Hw; [| | | |done].
  - destruct a as [[] [] [] [] [] [] [] []]; try done.
  - cbn in Hw. to_prop. destruct Hw as [Ha H2]. cbn [escape_rune rune_bytes].
    rewrite chars_str_of. cbn [app]. by rewrite unescape_high, H2.
  - cbn in Hw. to_prop. destruct Hw as [[Ha H2] H3]. cbn [escape_rune].
    destruct ((code a =? 226) && (code b =? 128) && (code c =? 168)) eqn:E1.
    { to_prop. destruct E1 as [[Ea Eb] Ec].
      rewrite <-(char_of_code a), <-(char_of_code b), <-(char_of_code c), Ea, Eb, Ec. done. }
    destruct ((code a =? 226) && (code b =? 128) && (code c =? 169)) eqn:E2.
    { to_prop. destruct E2 as [[Ea Eb] Ec].
      rewrite <-(char_of_code a), <-(char_of_code b), <-(char_of_code c), Ea, Eb, Ec. done. }
    rewrite chars_str_of. cbn [app]. by rewrite unescape_high, H2, H3.
  - cbn in Hw. to_prop. destruct Hw as [[[Ha H2] H3] H4]. cbn [escape_rune rune_bytes].
    rewrite chars_str_of. cbn [app]. by rewrite unescape_high, H2, H3.
Qed.

Lemma chars_app s t : chars (s +:+ t) = chars s ++ chars t.
Proof. induction s as [|c s IH]; [done|]. rewrite str_app_cons. unfold chars in *. cbn. by rewrite IH. Qed.

Lemma chars_inj s t : chars s = chars t -> s = t.
Proof. intros E. by rewrite <-(str_of_chars s), E, str_of_chars. Qed.

Lemma str_app_assoc a b c : (a +:+ b) +:+ c = a +:+ (b +:+ c).
Proof. apply chars_inj. by rewrite !chars_app, app_assoc. Qed.

Lemma escape_body_inj rs : forall rs' X X',
  forallb rune_wf rs = true -> forallb rune_wf rs' = true ->
  str_concat (map escape_rune rs) +:+ (quote +:+ X) =
  str_concat (map escape_rune rs') +:+ (quote +:+ X') -> rs = rs' /\ X = X'.
Proof.
  induction rs as [|r rs IH]; intros [|r' rs'] X X'; cbn [map str_concat forallb];
    rewrite ?str_app_assoc; intros Hw Hw' E; to_prop.
  - split; [done|]. by injection E.
  - destruct Hw' as [Hr' _]. apply (f_equal (fun s => unescape (chars s))) in E.
    rewrite (chars_app (escape_rune r')), unescape_escape in E by done. discriminate E.
  - destruct Hw as [Hr _]. apply (f_equal (fun s => unescape (chars s))) in E.
    rewrite (chars_app (escape_rune r)), unescape_escape in E by done. discriminate E.
  - destruct Hw as [Hr Hrs], Hw' as [Hr' Hrs'].
    apply (f_equal (fun s => unescape (chars s))) in E.
    rewrite (chars_app (escape_rune r)), (chars_app (escape_rune r')) in E.
    rewrite !unescape_escape in E by done. injection E as -> E%chars_inj.
    by destruct (IH _ _ _ Hrs Hrs' E) as [-> ->].
Qed.

(** An encoded string determines the string and the text that follows it. *)
Lemma json_string_inj s t X Y :
  valid_utf8 s = true -> valid_utf8 t = true ->
  json_string s +:+ X = json_string t +:+ Y -> s = t /\ X = Y.
Proof.
  unfold valid_utf8, json_string. intros Hs Ht E.
  rewrite !str_app_assoc in E. injection E as E. rewrite !str_app_nil_l in E.
  apply escape_body_inj in E as [E ->]; [|by apply runes_wf|by apply runes_wf].
  split; [|done]. apply chars_inj.
  by rewrite <-(runes_bytes_valid (chars s)), <-(runes_bytes_valid (chars t)), E.
Qed.

(** A position at which a number has ended. *)
Definition number_ends (s : string) : bool :=
  match s with String c _ => negb (is_digit c) | EmptyString => true end.

Lemma digits_split s : forall t X Y,
  str_all is_digit s = true -> str_all is_digit t = true ->
  number_ends X = true -> number_ends Y = true ->
  s +:+ X = t +:+ Y -> s = t /\ X = Y.
Proof.
  induction s as [|c s IH]; intros [|d t] X Y; cbn [str_all]; intros Hs Ht HX HY E;
    rewrite ?str_app_nil_l, ?str_app_cons in E; to_prop.
  - done.
  - subst X. cbn in HX. to_prop. destruct Ht. congruence.
  - subst Y. cbn in HY. to_prop. destruct Hs. congruence.
  - injection E as <- E. destruct Hs, Ht. by destruct (IH t X Y) as [-> ->].
Qed.

Lemma dec_digits_all fuel : forall n acc,
  0 <= n -> str_all is_digit acc = true -> str_all is_digit (dec_digits fuel n acc) = true.
Proof.
  induction fuel as [|fuel IH]; intros n acc Hn Ha; [done|]. cbn [dec_digits].
  pose proof (Z.mod_pos_bound n 10 ltac:(lia)).
  assert (str_all is_digit (String (char_of (48 + n mod 10)) acc) = true).
  { cbn. rewrite Ha, andb_true_r. apply digit_code. rewrite code_char_of; lia. }
  destruct (n <? 10); [done|]. apply IH; [apply Z.div_pos; lia|done].
Qed.

Lemma dec_string_all n : 0 <= n -> str_all is_digit (dec_string n) = true.
Proof.
  intros Hn. unfold dec_string. destruct (Z.ltb_spec n 0); [lia|]. by apply dec_digits_all.
Qed.

Lemma dec_string_inj x y : 0 <= x -> 0 <= y -> dec_string x = dec_string y -> x = y.
Proof.
  intros Hx Hy E. apply (f_equal SetString10) in E.
  rewrite !SetString10_dec_string in E by done. congruence.
Qed.

(** An encoded natural number determines the number and what follows it. *)
Lemma json_int_inj x y X Y :
  0 <= x -> 0 <= y -> number_ends X = true -> number_ends Y = true ->
  json_int x +:+ X = json_int y +:+ Y -> x = y /\ X = Y.
Proof.
  intros Hx Hy HX HY E. unfold json_int in E.
  apply digits_split in E as [E ->]; [|by apply dec_string_all|by apply dec_string_all|done|done].
  split; [|done]. by apply dec_string_inj.
Qed.

(** ** Objects *)

Lemma str_app_inv_head a b c : a +:+ b = a +:+ c -> b = c.
Proof. induction a as [|x a IH]; [done|]. rewrite !str_app_cons. intros [= E]. auto. Qed.

(** The members after the first, and the closing brace. *)
Definition json_tail (fields : list (string * option string)) : string :=
  json_members fields false +:+ "}".

Lemma json_tail_ends fields : number_ends (json_tail fields) = true.
Proof.
  unfold json_tail. induction fields as [|[name [v|]] fields IH]; [done|done|done].
Qed.

Lemma json_object_head name v fields :
  json_object ((name, Some v) :: fields) =
  ("{" +:+ quote +:+ name +:+ quote +:+ ":") +:+ (v +:+ json_tail fields).
Proof.
  unfold json_object, json_tail. cbn [json_members].
  by rewrite !str_app_nil_l, !str_app_assoc.
Qed.

Lemma json_tail_some name v fields :
  json_tail ((name, Some v) :: fields) =
  ("," +:+ quote +:+ name +:+ quote +:+ ":") +:+ (v +:+ json_tail fields).
Proof. unfold json_tail. cbn [json_members]. by rewrite !str_app_assoc. Qed.

Lemma json_object_peel name v w fs gs :
  json_object ((name, Some v) :: fs) = json_object ((name, Some w) :: gs) ->
  v +:+ json_tail fs = w +:+ json_tail gs.
Proof. rewrite !json_object_head. apply str_app_inv_head. Qed.

Lemma json_tail_peel name v w fs gs :
  json_tail ((name, Some v) :: fs) = json_tail ((name, Some w) :: gs) ->
  v +:+ json_tail fs = w +:+ json_tail gs.
Proof. rewrite !json_tail_some. apply str_app_inv_head. Qed.

(** Peel one member from both sides of an equation between objects. *)
Ltac json_peel_name E :=
  first [apply json_object_peel in E | apply json_tail_peel in E].
Ltac json_peel_string E :=
  json_peel_name E; apply json_string_inj in E as [? E]; [|assumption|assumption].
Ltac json_peel_int E :=
  json_peel_name E;
  apply json_int_inj in E as [? E]; [|assumption|assumption|apply json_tail_ends|apply json_tail_ends].

(** ** Texts in the validated alphabets are ASCII *)

Lemma is_ascii_of (p : ascii -> bool) s :
  (forall c, p c = true -> code c < 128) -> str_all p s = true -> valid_utf8 s = true.
Proof.
  intros Hp Hs. apply valid_utf8_ascii. revert Hs. apply str_all_impl.
  intros c Hc. apply Z.ltb_lt. auto.
Qed.

Lemma digits_utf8 s : str_all is_digit s = true -> valid_utf8 s = true.
Proof. apply is_ascii_of. intros c ?%digit_code. lia. Qed.

Lemma is_idch_ascii c : is_idch c = true -> code c < 128.
Proof. destruct c as [[] [] [] [] [] [] [] []]; intros H; vm_compute in H |- *; done. Qed.

Lemma is_alnum_idch c : is_alnum c = true -> is_idch c = true.
Proof. unfold is_idch. by intros ->. Qed.

Lemma identifier_utf8 s : identifier_pattern s = true -> valid_utf8 s = true.
Proof.
  destruct s as [|c r]; [done|]. unfold identifier_pattern. to_prop. intros [[Hc Hr] _].
  apply (is_ascii_of is_idch); [apply is_idch_ascii|]. cbn. by rewrite (is_alnum_idch c Hc), Hr.
Qed.

Lemma hex_pattern_utf8 n s : hex_pattern n s = true -> valid_utf8 s = true.
Proof.
  destruct s as [|c0 [|c1 r]]; unfold hex_pattern; try done. to_prop. intros [[[H0 H1] Hr] _].
  apply valid_utf8_ascii. cbn. unfold is_ascii at 1 2. rewrite H0, H1. cbn.
  revert Hr. apply str_all_impl. intros c Hc. unfold is_ascii. apply Z.ltb_lt.
  destruct c as [[] [] [] [] [] [] [] []]; vm_compute in Hc |- *; done.
Qed.

(** ** Printable texts *)

Lemma str_app_nil_r s : s +:+ "" = s.
Proof. induction s as [|c s IH]; [done|]. by rewrite str_app_cons, IH. Qed.

Definition printable (c : ascii) : bool := between 33 126 (code c).

Lemma printable_trim s : str_all printable s = true -> TrimSpace s = s.
Proof.
  assert (Hid : forall p2 p3 l, forallb printable l = true -> (forall a b, printable a = true -> printable b = true -> p2 a b = false) ->
    (forall a b c, printable a = true -> printable b = true -> printable c = true -> p3 a b c = false) -> trim_front p2 p3 l = l).
  { intros p2 p3 [|a l] Hl H2 H3; [done|]. cbn in Hl. apply andb_true_iff in Hl as [Ha Hl]. cbn. assert (space1 a = false) as ->.
    { unfold space1, printable, between in *. apply not_true_iff_false. intros E. to_prop. lia. }
    destruct l as [|b l]; [done|]. cbn in Hl. apply andb_true_iff in Hl as [Hb Hl]. rewrite H2 by done. destruct l as [|c l]; [done|]. cbn in Hl.
    apply andb_true_iff in Hl as [Hc Hl]. by rewrite H3. }
  assert (H2 : forall a b, printable a = true -> printable b = true -> space2 a b = false).
  { intros a b Ha Hb. unfold space2, printable, between in *. apply not_true_iff_false. intros E. to_prop. lia. }
  assert (H3 : forall a b c, printable a = true -> printable b = true -> printable c = true -> space3 a b c = false).
  { intros a b c Ha Hb Hc. unfold space3, printable, between in *. apply not_true_iff_false. intros E. to_prop. lia. }
  intros Hs. rewrite str_all_chars in Hs. unfold TrimSpace. fold (chars s). rewrite (Hid space2 space3 (chars s)) by done. rewrite Hid.
  - rewrite rev_involutive. apply str_of_chars.
  - rewrite forallb_forall in *. intros c Hc. apply Hs. by apply in_rev.
  - intros a b Ha Hb. by apply H2.
  - intros a b c Ha Hb Hc. by apply H3.
Qed.

(** ** Times and Base64

    [time.Time] as [encoding/json] writes it (RFC 3339 with nanoseconds, UTC),
    and [base64.StdEncoding] with its round trip. *)

(** ** Calendar *)

(** Year, month and day of the day [d] counted from 1 January of year 1, in the
    proleptic Gregorian calendar: shifted to 1 March of year 0 so that the leap
    day ends the year. *)
Definition civil (d : Z) : Z * Z * Z :=
  let z := d + 306 in
  let era := z / 146097 in
  let doe := z mod 146097 in
  let yoe := (doe - doe / 1460 + doe / 36524 - doe / 146096) / 365 in
  let doy := doe - (365 * yoe + yoe / 4 - yoe / 100) in
  let mp := (5 * doy + 2) / 153 in
  let day := doy - (153 * mp + 2) / 5 + 1 in
  let month := if mp <? 10 then mp + 3 else mp - 9 in
  let year := yoe + era * 400 + (if month <=? 2 then 1 else 0) in
  (year, month, day).

(** Zero-padded decimal. *)
Definition pad_int (width : nat) (n : Z) : string :=
  let s := dec_string n in str_repeat "0" (width - String.length s) +:+ s.

(** The fraction of a second: nothing when zero, else without trailing zeros. *)
Fixpoint strip_zeros (l : list ascii) : list ascii :=
  match l with
  | c :: l => if code c =? 48 then strip_zeros l else c :: l
  | [] => []
  end.
Definition fraction (nanos : Z) : string :=
  if nanos =? 0 then "" else "." +:+ str_of (rev (strip_zeros (rev (chars (pad_int 9 nanos))))).

(** [t.UTC().MarshalJSON()]: an error outside the years 0 to 9999. *)
Definition json_time (t : time) : option string :=
  let secs := t / Second in
  let '(year, month, day) := civil (secs / 86400) in
  let sod := secs mod 86400 in
  if (year <? 0) || (9999 <? year) then None else
  Some (quote +:+ pad_int 4 year +:+ "-" +:+ pad_int 2 month +:+ "-" +:+ pad_int 2 day +:+ "T" +:+
        pad_int 2 (sod / 3600) +:+ ":" +:+ pad_int 2 (sod / 60 mod 60) +:+ ":" +:+ pad_int 2 (sod mod 60) +:+
        fraction (t mod Second) +:+ "Z" +:+ quote).

Example json_time_example :
  json_time (time_of_unix 1709164800 + 500000000) = Some (quote +:+ "2024-02-29T00:00:00.5Z" +:+ quote).
Proof. vm_compute. reflexivity. Qed.

(** ** Base64 *)

Definition b64_char (v : Z) : ascii :=
  if v <? 26 then char_of (65 + v)
  else if v <? 52 then char_of (97 + v - 26)
  else if v <? 62 then char_of (48 + v - 52)
  else if v =? 62 then char_of 43 else char_of 47.

Definition b64_val (c : ascii) : option Z :=
  let z := code c in
  if between 65 90 z then Some (z - 65)
  else if between 97 122 z then Some (z - 97 + 26)
  else if between 48 57 z then Some (z - 48 + 52)
  else if z =? 43 then Some 62
  else if z =? 47 then Some 63
  else None.

(** [base64.StdEncoding.EncodeToString] *)
Fixpoint b64_encode (s : string) : string :=
  match s with
  | EmptyString => EmptyString
  | String a EmptyString =>
      String (b64_char (code a / 4)) (String (b64_char (code a mod 4 * 16)) "==")
  | String a (String b EmptyString) =>
      String (b64_char (code a / 4)) (String (b64_char (code a mod 4 * 16 + code b / 16))
        (String (b64_char (code b mod 16 * 4)) "="))
  | String a (String b (String c r)) =>
      String (b64_char (code a / 4)) (String (b64_char (code a mod 4 * 16 + code b / 16))
        (String (b64_char (code b mod 16 * 4 + code c / 64)) (String (b64_char (code c mod 64)) (b64_encode r))))
  end.

(** [base64.StdEncoding.DecodeString] on text without line breaks: padding only
    at the end. *)
Fixpoint b64_decode (s : string) : option string :=
  match s with
  | EmptyString => Some EmptyString
  | String c0 (String c1 (String c2 (String c3 r))) =>
      match b64_val c0, b64_val c1 with
      | Some x, Some y =>
          let b0 := char_of (x * 4 + y / 16) in
          match b64_val c2, b64_val c3 with
          | Some z, Some w =>
              match b64_decode r with
              | Some t => Some (String b0 (String (char_of (y mod 16 * 16 + z / 4)) (String (char_of (z mod 4 * 64 + w)) t)))
              | None => None
              end
          | Some z, None =>
              if (code c3 =? 61) && bool_decide (r = "")
              then Some (String b0 (String (char_of (y mod 16 * 16 + z / 4)) "")) else None
          | None, _ =>
              if (code c2 =? 61) && (code c3 =? 61) && bool_decide (r = "")
              then Some (String b0 "") else None
          end
      | _, _ => None
      end
  | _ => None
  end.

Lemma b64_val_char v : 0 <= v < 64 -> b64_val (b64_char v) = Some v.
Proof.
  intros Hv. assert (Hin : In v (map Z.of_nat (seq 0 64))).
  { apply in_map_iff. exists (Z.to_nat v). split; [lia|]. apply in_seq. lia. }
  cbn in Hin. repeat destruct Hin as [<-|Hin]; try (vm_compute; reflexivity). done.
Qed.

Lemma string_ind3 (P : string -> Prop) :
  P "" -> (forall a, P (String a "")) -> (forall a b, P (String a (String b ""))) ->
  (forall a b c r, P r -> P (String a (String b (String c r)))) -> forall s, P s.
Proof.
  intros H0 H1 H2 H3. fix IH 1. intros [|a [|b [|c r]]]; [done|apply H1|apply H2|apply H3, IH].
Qed.

Lemma char_of_eq z c : z = code c -> char_of z = c.
Proof. intros ->. apply char_of_code. Qed.

(** Decoding inverts encoding. *)
Lemma b64_decode_encode s : b64_decode (b64_encode s) = Some s.
Proof.
  induction s as [|a|a b|a b c r IH] using string_ind3; [done|..]; cbn [b64_encode b64_decode];
    pose proof (code_range a) as Ra.
  - rewrite !b64_val_char by (split; [|Z.to_euclidean_division_equations]; Z.to_euclidean_division_equations; lia).
    change (b64_val "=") with (@None Z). cbn. do 2 f_equal. apply char_of_eq. Z.to_euclidean_division_equations. lia.
  - pose proof (code_range b) as Rb.
    rewrite !b64_val_char by (Z.to_euclidean_division_equations; lia).
    change (b64_val "=") with (@None Z). cbn. f_equal. f_equal; [apply char_of_eq; Z.to_euclidean_division_equations; lia|].
    f_equal. apply char_of_eq. Z.to_euclidean_division_equations. lia.
  - pose proof (code_range b) as Rb. pose proof (code_range c) as Rc.
    rewrite !b64_val_char by (Z.to_euclidean_division_equations; lia). rewrite IH. f_equal.
    f_equal; [apply char_of_eq; Z.to_euclidean_division_equations; lia|].
    f_equal; [apply char_of_eq; Z.to_euclidean_division_equations; lia|].
    f_equal. apply char_of_eq. Z.to_euclidean_division_equations. lia.
Qed.

Lemma b64_utf8 s : valid_utf8 (b64_encode s) = true.
Proof.
  apply (is_ascii_of is_ascii); [intros c; unfold is_ascii; by intros ?%Z.ltb_lt|].
  assert (Hc : forall v, is_ascii (b64_char v) = true).
  { intros v. unfold b64_char, is_ascii. apply Z.ltb_lt.
    destruct (Z.ltb_spec v 26); [destruct (Z.le_gt_cases 0 (65 + v))|].
    - rewrite code_char_of; lia.
    - unfold code, char_of. destruct (65 + v) eqn:Ev; try lia. done.
    - destruct (Z.ltb_spec v 52); [rewrite code_char_of; lia|].
      destruct (Z.ltb_spec v 62); [rewrite code_char_of; lia|]. by destruct (v =? 62). }
  induction s as [|a|a b|a b c r IH] using string_ind3; cbn [b64_encode str_all]; rewrite ?Hc; try done.
Qed.
