(* ===== verification/Crypto.v ===== *)
(** * Cryptographic primitives

    SHA-256, Keccak-256 and Ed25519 enter as operations of a class, so every
    theorem holds for whatever they compute; [CryptoLaws] states what their
    documentation promises and the proofs that need it ask for it. The toy
    instances evaluate the witnesses. Digests and keys are byte strings. *)
From stdpp Require Import base gmap strings list fin_maps.
From Stdlib Require Import ZArith Lia Ascii.
From S2P Require Import Prelude GoText.

Open Scope Z_scope.

Class Crypto := {
  sha256 : string -> string;
  keccak256 : string -> string;
  ed25519_sign : string -> string -> string;
  ed25519_verify : string -> string -> string -> bool;
  ed25519_public : string -> string;
}.

(** [ed25519.PublicKeySize], [PrivateKeySize], [SignatureSize] *)
Definition PublicKeySize : Z := 32.
Definition PrivateKeySize : Z := 64.
Definition SignatureSize : Z := 64.

Class CryptoLaws `{Crypto} := {
  sha256_size m : str_len (sha256 m) = 32;
  keccak256_size m : str_len (keccak256 m) = 32;
  sign_size k m : str_len (ed25519_sign k m) = SignatureSize;
  sign_verify k m : str_len k = PrivateKeySize ->
    ed25519_verify (ed25519_public k) m (ed25519_sign k m) = true;
  public_size k : str_len k = PrivateKeySize -> str_len (ed25519_public k) = PublicKeySize;
}.

(** ** Collisions

    Digests are shorter than what is hashed, so that some texts collide says
    nothing. The theorems about what a hash binds name the texts: two lists that were
    hashed, and a collision of one text of each. *)

Section Collisions.
Context `{Crypto}.

Definition collide_in (xs ys : list string) : Prop :=
  exists x y, x ∈ xs /\ y ∈ ys /\ x <> y /\ keccak256 x = keccak256 y.

Lemma keccak_eq_in xs ys x y : x ∈ xs -> y ∈ ys -> keccak256 x = keccak256 y -> x = y \/ collide_in xs ys.
Proof. intros Hx Hy E. destruct (decide (x = y)); [by left|right]. by exists x, y. Qed.

Lemma collide_in_mono xs xs' ys ys' : collide_in xs ys -> xs ⊆ xs' -> ys ⊆ ys' -> collide_in xs' ys'.
Proof. intros (x & y & Hx & Hy & Hne & E) Sx Sy. exists x, y. auto. Qed.

Lemma collide_in_sym xs ys : collide_in xs ys -> collide_in ys xs.
Proof. intros (x & y & Hx & Hy & Hne & E). exists y, x. split_and!; auto. Qed.
End Collisions.

(** Membership in a list of texts that is written out. *)
Ltac listed := rewrite ?elem_of_app, ?elem_of_cons; tauto.

(** ** Toy instances *)

Fixpoint pad (n : nat) (s : string) : string :=
  match n, s with
  | O, _ => ""
  | S n, EmptyString => String "000"%char (pad n "")
  | S n, String c s => String c (pad n s)
  end.

Lemma pad_len n : forall s, str_len (pad n s) = Z.of_nat n.
Proof.
  induction n as [|n IH]; intros s; [done|].
  destruct s as [|c s]; [specialize (IH "") | specialize (IH s)];
    unfold str_len in *; cbn [pad String.length]; lia.
Qed.

(** A checksum that moves with every byte, enough to tell the concrete inputs
    of the witnesses apart. *)
Fixpoint mix (s : string) (acc : Z) : Z :=
  match s with
  | EmptyString => acc
  | String c s => mix s ((acc * 257 + code c + 1) mod 16777213)
  end.

Fixpoint bytes_of (n : nat) (z : Z) : string :=
  match n with O => "" | S n => String (char_of (z mod 256)) (bytes_of n (z / 256)) end.

Definition ToyCrypto : Crypto := {|
  sha256 m := pad 32 (bytes_of 4 (mix m 1));
  keccak256 m := pad 32 (bytes_of 4 (mix m 2));
  ed25519_sign k m := pad 64 (bytes_of 4 (mix (pad 32 k +:+ m) 3));
  ed25519_verify p m s := bool_decide (s = pad 64 (bytes_of 4 (mix (p +:+ m) 3)));
  ed25519_public k := pad 32 k;
|}.

Lemma ToyCryptoLaws : @CryptoLaws ToyCrypto.
Proof.
  split; intros; cbn [sha256 keccak256 ed25519_sign ed25519_public ed25519_verify ToyCrypto];
    rewrite ?pad_len; try done.
  by apply bool_decide_eq_true.
Qed.

Definition ToyUnicode : Unicode := {| unicode_lower := fun s => s |}.
