(* ===== verification/Amounts.v ===== *)
(** * Canonical decimal amounts

    Money crosses every boundary of FlowOps as a decimal string with no sign
    and no redundant leading zero. This file shows that the canonical form is
    unique: the strings the parsers accept are exactly the ones that
    [big.Int.String] prints. *)
From stdpp Require Import base gmap strings list fin_maps.
From Stdlib Require Import ZArith Lia Ascii.
From S2P Require Import Prelude GoText GoJSON.

Open Scope Z_scope.

(** [len(value) > 1 && value[0] == '0'] *)
Definition redundant_zero (v : string) : bool :=
  match v with
  | String c (String _ _) => code c =? 48
  | _ => false
  end.

Definition canonical_decimal (v : string) : bool :=
  negb (bool_decide (v = "")) && negb (redundant_zero v) && str_all is_digit v.

(** ** Bounds on the value of a digit string *)

Lemma parse_digits_bounds s : forall acc n,
  0 <= acc -> parse_digits s acc = Some n ->
  acc * 10 ^ str_len s <= n < (acc + 1) * 10 ^ str_len s.
Proof.
  unfold str_len. induction s as [|c s IH]; cbn [parse_digits]; intros acc n Ha Hp.
  { injection Hp as <-. cbn. lia. }
  destruct (is_digit c) eqn:Hd; [|done]. apply digit_code in Hd.
  assert (0 <= 10 * acc + digit_val c) by (unfold digit_val; lia).
  specialize (IH _ _ H Hp). unfold digit_val in IH. cbn [String.length].
  rewrite Nat2Z.inj_succ, Z.pow_succ_r by lia.
  pose proof (Z.pow_pos_nonneg 10 (Z.of_nat (String.length s)) ltac:(lia) ltac:(lia)). nia.
Qed.

Lemma parse_digits_same_len s : forall t a b n,
  0 <= a -> 0 <= b -> String.length s = String.length t ->
  parse_digits s a = Some n -> parse_digits t b = Some n -> a = b /\ s = t.
Proof.
  induction s as [|c s IH]; intros [|d t] a b n Ha Hb Hl Hs Ht; try done.
  { cbn in *. split; [congruence|done]. }
  cbn [parse_digits] in *. destruct (is_digit c) eqn:Hc; [|done].
  destruct (is_digit d) eqn:Hd; [|done]. apply digit_code in Hc, Hd.
  cbn [String.length] in Hl. unfold digit_val in *.
  destruct (IH t (10 * a + (code c - 48)) (10 * b + (code d - 48)) n) as [E ->];
    [lia|lia|lia|done|done|].
  assert (code c = code d) by lia. split; [lia|]. by rewrite (code_inj c d).
Qed.

(** The leading digit of a canonical decimal longer than one digit is not
    zero, so the value has as many digits as the string. *)
Lemma canonical_len v n :
  canonical_decimal v = true -> parse_digits v 0 = Some n -> 0 < n ->
  10 ^ (str_len v - 1) <= n < 10 ^ str_len v.
Proof.
  unfold canonical_decimal. intros Hc Hp Hn. to_prop. destruct Hc as [[Hne Hz] Hd].
  destruct v as [|c r]; [done|]. cbn [str_all] in Hd. to_prop. destruct Hd as [Hd _].
  cbn [parse_digits] in Hp. rewrite Hd in Hp. apply digit_code in Hd.
  assert (H1 : 1 <= digit_val c).
  { unfold digit_val. destruct r; cbn in Hz; to_prop; [|lia].
    cbn in Hp. injection Hp as <-. unfold digit_val in Hn. lia. }
  apply parse_digits_bounds in Hp; [|lia].
  unfold str_len in *. cbn [String.length]. rewrite Nat2Z.inj_succ.
  replace (Z.succ (Z.of_nat (String.length r)) - 1) with (Z.of_nat (String.length r)) by lia.
  rewrite Z.pow_succ_r by lia. unfold digit_val in *.
  pose proof (Z.pow_pos_nonneg 10 (Z.of_nat (String.length r)) ltac:(lia) ltac:(lia)). nia.
Qed.

Lemma canonical_zero v :
  canonical_decimal v = true -> parse_digits v 0 = Some 0 -> v = "0".
Proof.
  unfold canonical_decimal. intros Hc Hp. to_prop. destruct Hc as [[Hne Hz] Hd].
  destruct v as [|c r]; [done|]. cbn [str_all] in Hd. to_prop. destruct Hd as [Hd _].
  cbn [parse_digits] in Hp. rewrite Hd in Hp. apply digit_code in Hd.
  destruct r as [|c' r].
  - cbn in Hp. injection Hp as Hp. unfold digit_val in Hp. f_equal. apply code_inj. change (code "0") with 48. lia.
  - cbn in Hz. to_prop. apply parse_digits_bounds in Hp; [|unfold digit_val; lia].
    unfold digit_val in Hp.
    pose proof (Z.pow_pos_nonneg 10 (str_len (String c' r)) ltac:(lia) ltac:(unfold str_len; lia)). nia.
Qed.

Lemma canonical_unique v w n :
  canonical_decimal v = true -> canonical_decimal w = true ->
  parse_digits v 0 = Some n -> parse_digits w 0 = Some n -> v = w.
Proof.
  intros Hv Hw Pv Pw. destruct (Z.eq_dec n 0) as [->|Hn].
  { by rewrite (canonical_zero v Hv Pv), (canonical_zero w Hw Pw). }
  assert (0 < n) by (pose proof (parse_digits_nonneg v 0 n ltac:(lia) Pv); lia).
  pose proof (canonical_len v n Hv Pv H). pose proof (canonical_len w n Hw Pw H).
  assert (Hl : str_len v = str_len w).
  { destruct (Z.lt_trichotomy (str_len v) (str_len w)) as [Hlt|[?|Hlt]]; [|done|]; exfalso.
    - assert (10 ^ str_len v <= 10 ^ (str_len w - 1)) by (apply Z.pow_le_mono_r; lia). lia.
    - assert (10 ^ str_len w <= 10 ^ (str_len v - 1)) by (apply Z.pow_le_mono_r; lia). lia. }
  unfold str_len in Hl. apply (parse_digits_same_len v w 0 0 n); try done; lia.
Qed.

(** ** Printing is canonical *)

Lemma dec_digits_head fuel : forall n acc,
  0 < n < 10 ^ Z.of_nat fuel ->
  exists c r, dec_digits fuel n acc = String c r /\ code c <> 48.
Proof.
  induction fuel as [|fuel IH]; intros n acc Hn; [cbn in Hn; lia|]. cbn [dec_digits].
  destruct (Z.ltb_spec n 10).
  - eexists _, _. split; [done|]. rewrite Z.mod_small, code_char_of by lia. lia.
  - apply IH. rewrite Nat2Z.inj_succ, Z.pow_succ_r in Hn by lia. split.
    + apply Z.div_str_pos. lia.
    + apply Z.div_lt_upper_bound; lia.
Qed.

Lemma dec_string_canonical n : 0 <= n -> canonical_decimal (dec_string n) = true.
Proof.
  intros Hn. destruct (Z.eq_dec n 0) as [->|Hz]; [done|].
  unfold canonical_decimal. rewrite dec_string_all, andb_true_r by done.
  unfold dec_string. destruct (Z.ltb_spec n 0); [lia|].
  destruct (dec_digits_head (S (Z.to_nat (Z.log2 n))) n "") as (c & r & -> & Hc).
  { split; [lia|]. by apply log2_fuel. }
  apply Z.eqb_neq in Hc. destruct r; cbn [redundant_zero]; by rewrite ?Hc.
Qed.

Lemma canonical_decimal_iff v n :
  canonical_decimal v = true /\ SetString10 v = Some n <-> 0 <= n /\ v = dec_string n.
Proof.
  split.
  - intros [Hc Hs]. pose proof Hc as Hc'. unfold canonical_decimal in Hc'. to_prop.
    destruct Hc' as [[Hne _] Hd]. rewrite SetString10_digits in Hs by done.
    assert (Hn : 0 <= n) by (eapply parse_digits_nonneg; [|done]; lia).
    split; [done|]. eapply canonical_unique; [done|by apply dec_string_canonical|done|].
    pose proof (SetString10_dec_string n Hn) as E.
    rewrite SetString10_digits in E; [done| |by apply dec_string_all].
    intros E0. by rewrite E0 in E.
  - intros [Hn ->]. split; [by apply dec_string_canonical|by apply SetString10_dec_string].
Qed.

(** ** Parsing a [uint256] amount *)

(** The value of a canonical decimal below 2^256. *)
Definition amount (v : string) (n : Z) : Prop := v = dec_string n /\ 0 <= n < 2 ^ 256.

Lemma amount_inj v n m : amount v n -> amount v m -> n = m.
Proof. intros [-> ?] [E ?]. apply dec_string_inj in E; lia. Qed.

Lemma amount_dec n : 0 <= n < 2 ^ 256 -> amount (dec_string n) n.
Proof. done. Qed.

Lemma amount_value v n : amount v n -> SetString10 v = Some n.
Proof. intros [-> ?]. apply SetString10_dec_string. lia. Qed.

(** The body every [parseNonNegative] of the repository shares. *)
Lemma nonneg_guards v n :
  (v <> "" /\ redundant_zero v = false /\ str_all is_digit v = true /\
   SetString10 v = Some n /\ 0 <= n /\ fits256 n = true) <-> amount v n.
Proof.
  unfold amount, fits256. split.
  - intros (Hne & Hz & Hd & Hs & Hn & Hf). to_prop.
    destruct (proj1 (canonical_decimal_iff v n)) as [? ?]; [|split; [done|lia]].
    split; [|done]. unfold canonical_decimal. rewrite Hz, Hd, bool_decide_eq_false_2; done.
  - intros [-> ?]. destruct (proj2 (canonical_decimal_iff (dec_string n) n)) as [Hc Hs]; [split; [lia|done]|].
    unfold canonical_decimal in Hc. to_prop. destruct Hc as [[? ?] ?].
    repeat split; try done; lia.
Qed.
