(* ===== verification/Envelope.v ===== *)
(** * The signed authorization envelope ([pkg/envelope/envelope.go])

    [Authorization] is the complete authority FlowOps grants: validation, the
    canonical JSON bytes, the domain-separated digest, the Ed25519 signature and
    its verification, and the derivation of the escrow call ID. [Escrow] is a
    pointer in the source and compares by address, so it is a [ptr] here. *)
From stdpp Require Import base gmap strings list fin_maps.
From Stdlib Require Import ZArith Lia Ascii.
From S2P Require Import Prelude GoText GoJSON Crypto.

Open Scope Z_scope.

(** ** Data *)

Definition Envelope_Version : string := "flowops.authorization.v1".
Definition newline : string := String "010"%char "".
Definition domainPrefix : string := "flowops:authorization:v1" +:+ newline.

(** [type Rail string]: any string, with three named values. *)
Abbreviation Rail := string (only parsing).
Definition RailX402 : Rail := "x402".
Definition RailDirect : Rail := "direct_usdc".
Definition RailEscrow : Rail := "escrow".

Definition supported_rail (r : Rail) : bool :=
  bool_decide (r = RailX402) || bool_decide (r = RailDirect) || bool_decide (r = RailEscrow).

Definition ValidIdentifier (value : string) : bool := identifier_pattern value.
Definition noncePattern (value : string) : bool := hash_pattern value.
Definition addressPattern (value : string) : bool := address_pattern value.

Record EscrowTerms := mkEscrowTerms {
  t_Contract : string;
  t_Buyer : string;
  t_Provider : string;
  t_CallID : string;
  t_TaskDigest : string;
  t_RequestDigest : string;
  t_AcknowledgeBy : Z;
  t_DeliverBy : Z;
  t_ReleaseWindow : Z;
}.

Record Authorization := mkAuthorization {
  a_Version : string;
  a_AuthorizationID : string;
  a_OrganizationID : string;
  a_CustomerID : string;
  a_AgentID : string;
  a_TaskID : string;
  a_ActionID : string;
  a_Rail : Rail;
  a_ChainID : Z;
  a_Recipient : string;
  a_Asset : string;
  a_AmountAtomic : string;
  a_Resource : string;
  a_PolicyVersion : string;
  a_Nonce : string;
  a_IssuedAt : Z;
  a_ExpiresAt : Z;
  a_Escrow : option (ptr EscrowTerms);
}.

Record SignedAuthorization := mkSignedAuthorization {
  s_Authorization : Authorization;
  s_KeyID : string;
  s_Signature : string;
}.

#[export] Instance EscrowTerms_eq_dec : EqDecision EscrowTerms.
Proof. solve_decision. Defined.

(** The value of the pointer, if any. *)
Definition escrow_of (a : Authorization) : option EscrowTerms :=
  option_map deref (a_Escrow a).

(** [left == right] on [Authorization] structs: every field by value, the
    [Escrow] pointer by address. *)
Definition Authorization_eqb (x y : Authorization) : bool :=
  bool_decide (a_Version x = a_Version y) &&
  bool_decide (a_AuthorizationID x = a_AuthorizationID y) &&
  bool_decide (a_OrganizationID x = a_OrganizationID y) &&
  bool_decide (a_CustomerID x = a_CustomerID y) &&
  bool_decide (a_AgentID x = a_AgentID y) &&
  bool_decide (a_TaskID x = a_TaskID y) &&
  bool_decide (a_ActionID x = a_ActionID y) &&
  bool_decide (a_Rail x = a_Rail y) &&
  (a_ChainID x =? a_ChainID y) &&
  bool_decide (a_Recipient x = a_Recipient y) &&
  bool_decide (a_Asset x = a_Asset y) &&
  bool_decide (a_AmountAtomic x = a_AmountAtomic y) &&
  bool_decide (a_Resource x = a_Resource y) &&
  bool_decide (a_PolicyVersion x = a_PolicyVersion y) &&
  bool_decide (a_Nonce x = a_Nonce y) &&
  (a_IssuedAt x =? a_IssuedAt y) && (a_ExpiresAt x =? a_ExpiresAt y) &&
  ptr_eqb (a_Escrow x) (a_Escrow y).

Definition SignedAuthorization_eqb (x y : SignedAuthorization) : bool :=
  Authorization_eqb (s_Authorization x) (s_Authorization y) &&
  bool_decide (s_KeyID x = s_KeyID y) && bool_decide (s_Signature x = s_Signature y).

(** ** Addresses and amounts *)

(** The shape of an EVM address after trimming and lower-casing. *)
Definition NormalizeAddress `{Unicode} (value : string) : res string :=
  let normalized := ToLower (TrimSpace value) in
  check addressPattern normalized else "address must be a 20-byte EVM hex value" ;;
  Ok normalized.

Definition validateAtomicAmount (value : string) : res unit :=
  match value with
  | EmptyString => Err "must be a canonical positive base-10 integer without leading zeroes"
  | String c _ =>
      check negb (code c =? 48)
        else "must be a canonical positive base-10 integer without leading zeroes" ;;
      check str_all is_digit value else "must contain decimal digits only" ;;
      match SetString10 value with
      | None => Err "must be positive"
      | Some n =>
          check 0 <? n else "must be positive" ;;
          check fits256 n else "exceeds uint256" ;;
          Ok tt
      end
  end.

Section Envelope.
Context `{Crypto}.

(** ** The escrow call ID *)

(** The big-endian [n]-byte representation of [z]. *)
Fixpoint be_bytes (n : nat) (z : Z) : string :=
  match n with
  | O => ""
  | S n => be_bytes n (z / 256) +:+ String (char_of (z mod 256)) ""
  end.

Definition hex_bytes (value : string) : string :=
  default "" (hex_decode (trim_0x value)).

Definition address_word (address : string) : string :=
  str_repeat (String "000"%char "") 12 +:+ hex_bytes address.

(** The six 32-byte words that are hashed. *)
Definition callid_words (chainID : Z) (contract buyer taskDigest requestDigest : string) : string :=
  keccak256 "FLOWOPS_CALL_ESCROW_V1" +:+ be_bytes 32 chainID +:+
  address_word contract +:+ address_word buyer +:+
  hex_bytes taskDigest +:+ hex_bytes requestDigest.

Definition callid_inputs_ok (chainID : Z) (contract buyer taskDigest requestDigest : string) : bool :=
  negb (chainID =? 0) && addressPattern contract && addressPattern buyer &&
  noncePattern taskDigest && noncePattern requestDigest.

Definition DeriveEscrowCallID (chainID : Z) (contract buyer taskDigest requestDigest : string) : res string :=
  check callid_inputs_ok chainID contract buyer taskDigest requestDigest
    else "call ID inputs are invalid" ;;
  Ok ("0x" +:+ hex_encode (keccak256 (callid_words chainID contract buyer taskDigest requestDigest))).

(** ** Validation *)

(** [math.MaxInt64] bounds both deadlines, 30 days the release window. *)
Definition EscrowTerms_Validate (t : EscrowTerms) (chainID : Z) (recipient : string) : res unit :=
  check (chainID =? 8453) || (chainID =? 84532)
    else "escrow terms support Base mainnet or Base Sepolia only" ;;
  check forallb addressPattern [t_Contract t; t_Buyer t; t_Provider t]
    else "must be a lowercase 20-byte EVM address" ;;
  check bool_decide (t_Provider t = recipient)
    else "provider must equal the approved recipient" ;;
  check negb (bool_decide (t_Buyer t = t_Provider t))
    else "buyer and provider must differ" ;;
  check forallb (fun v => noncePattern v && negb (bool_decide (v = zero_hash)))
      [t_CallID t; t_TaskDigest t; t_RequestDigest t]
    else "must be a canonical non-zero 32-byte hash" ;;
  check negb ((t_AcknowledgeBy t =? 0) || (MaxInt64 <? t_AcknowledgeBy t) ||
      (t_DeliverBy t <=? t_AcknowledgeBy t) || (MaxInt64 <? t_DeliverBy t) ||
      (t_ReleaseWindow t =? 0) || (30 * 24 * 60 * 60 <? t_ReleaseWindow t))
    else "deadlines or release window are invalid" ;;
  match DeriveEscrowCallID chainID (t_Contract t) (t_Buyer t) (t_TaskDigest t) (t_RequestDigest t) with
  | Err _ => Err "callId does not bind the approved chain, contract, buyer, task, and request"
  | Ok want =>
      check bool_decide (want = t_CallID t)
        else "callId does not bind the approved chain, contract, buyer, task, and request" ;;
      Ok tt
  end.

Definition Authorization_Validate (a : Authorization) : res unit :=
  check bool_decide (a_Version a = Envelope_Version) else "version" ;;
  check forallb ValidIdentifier
      [a_AuthorizationID a; a_OrganizationID a; a_CustomerID a; a_AgentID a;
       a_TaskID a; a_ActionID a; a_PolicyVersion a]
    else "must match the identifier pattern" ;;
  check supported_rail (a_Rail a) else "rail: unsupported value" ;;
  try _ :=
    (if bool_decide (a_Rail a = RailEscrow) then
       match escrow_of a with
       | None => Err "escrow: exact escrow terms are required"
       | Some t => EscrowTerms_Validate t (a_ChainID a) (a_Recipient a)
       end
     else match a_Escrow a with
          | Some _ => Err "escrow: terms are forbidden on non-escrow rails"
          | None => Ok tt
          end) in
  check negb (a_ChainID a =? 0) else "chainId: must be positive" ;;
  check addressPattern (a_Recipient a) else "recipient: must be a lowercase 20-byte EVM address" ;;
  check addressPattern (a_Asset a) else "asset: must be a lowercase 20-byte EVM address" ;;
  try _ := validateAtomicAmount (a_AmountAtomic a) in
  check negb (bool_decide (TrimSpace (a_Resource a) = "")) && (str_len (a_Resource a) <=? 2048)
    else "resource: must contain 1 to 2048 non-whitespace characters" ;;
  check noncePattern (a_Nonce a) else "nonce: must be a lowercase 32-byte hex value" ;;
  check 0 <? a_IssuedAt a else "issuedAt: must be a positive Unix timestamp" ;;
  check a_IssuedAt a <? a_ExpiresAt a else "expiresAt: must be after issuedAt" ;;
  match escrow_of a with
  | None => Ok tt
  | Some t =>
      check (a_IssuedAt a <? int64 (t_AcknowledgeBy t)) && (a_ExpiresAt a <=? int64 (t_AcknowledgeBy t))
        else "escrow: authorization must be issued before and expire no later than acknowledgeBy" ;;
      Ok tt
  end.

(** ** Canonical bytes, digest and signature *)

Definition json_EscrowTerms (t : EscrowTerms) : string :=
  json_object [
    ("contract", Some (json_string (t_Contract t)));
    ("buyer", Some (json_string (t_Buyer t)));
    ("provider", Some (json_string (t_Provider t)));
    ("callId", Some (json_string (t_CallID t)));
    ("taskDigest", Some (json_string (t_TaskDigest t)));
    ("requestDigest", Some (json_string (t_RequestDigest t)));
    ("acknowledgeBy", Some (json_int (t_AcknowledgeBy t)));
    ("deliverBy", Some (json_int (t_DeliverBy t)));
    ("releaseWindowSeconds", Some (json_int (t_ReleaseWindow t)))].

Definition json_Authorization (a : Authorization) : string :=
  json_object [
    ("version", Some (json_string (a_Version a)));
    ("authorizationId", Some (json_string (a_AuthorizationID a)));
    ("organizationId", Some (json_string (a_OrganizationID a)));
    ("customerId", Some (json_string (a_CustomerID a)));
    ("agentId", Some (json_string (a_AgentID a)));
    ("taskId", Some (json_string (a_TaskID a)));
    ("actionId", Some (json_string (a_ActionID a)));
    ("rail", Some (json_string (a_Rail a)));
    ("chainId", Some (json_int (a_ChainID a)));
    ("recipient", Some (json_string (a_Recipient a)));
    ("asset", Some (json_string (a_Asset a)));
    ("amountAtomic", Some (json_string (a_AmountAtomic a)));
    ("resource", Some (json_string (a_Resource a)));
    ("policyVersion", Some (json_string (a_PolicyVersion a)));
    ("nonce", Some (json_string (a_Nonce a)));
    ("issuedAt", Some (json_int (a_IssuedAt a)));
    ("expiresAt", Some (json_int (a_ExpiresAt a)));
    ("escrow", option_map json_EscrowTerms (escrow_of a))].

Definition CanonicalBytes (a : Authorization) : res string :=
  try _ := Authorization_Validate a in Ok (json_Authorization a).

Definition Authorization_Digest (a : Authorization) : res string :=
  try canonical := CanonicalBytes a in Ok (sha256 (domainPrefix +:+ canonical)).

Definition Sign (a : Authorization) (keyID privateKey : string) : res SignedAuthorization :=
  check ValidIdentifier keyID else "keyId: invalid identifier" ;;
  check str_len privateKey =? PrivateKeySize else "private key: invalid Ed25519 length" ;;
  try digest := Authorization_Digest a in
  Ok {| s_Authorization := a; s_KeyID := keyID;
        s_Signature := "0x" +:+ hex_encode (ed25519_sign privateKey digest) |}.

Definition Verify (s : SignedAuthorization) (publicKey : string) : res unit :=
  check ValidIdentifier (s_KeyID s) else "keyId: invalid identifier" ;;
  check str_len publicKey =? PublicKeySize else "public key: invalid Ed25519 length" ;;
  check has_0x (s_Signature s) else "signature: must use 0x-prefixed lowercase hex" ;;
  match hex_decode (trim_0x (s_Signature s)) with
  | None => Err "signature: invalid canonical Ed25519 encoding"
  | Some raw =>
      check (str_len raw =? SignatureSize) && bool_decide (s_Signature s = "0x" +:+ hex_encode raw)
        else "signature: invalid canonical Ed25519 encoding" ;;
      try digest := Authorization_Digest (s_Authorization s) in
      check ed25519_verify publicKey digest raw else "signature: verification failed" ;;
      Ok tt
  end.

(** [ExecutionID]: one reconciliation execution per authorization. *)
Definition ExecutionID (authorizationID : string) : string :=
  "exec_" +:+ hex_encode (sha256 ("flowops:execution:v1" +:+ newline +:+ authorizationID)).

End Envelope.

(** ** Strings of equal length *)

Lemma str_app_inj a b c d :
  String.length a = String.length b -> a +:+ c = b +:+ d -> a = b /\ c = d.
Proof.
  revert b. induction a as [|x a IH]; intros [|y b]; cbn; intros Hl He; try done.
  rewrite !str_app_cons in He. injection He as -> He.
  destruct (IH b ltac:(lia) He) as [-> ->]. done.
Qed.

Lemma str_app_len a b : String.length (a +:+ b) = (String.length a + String.length b)%nat.
Proof. induction a as [|x a IH]; [done|]. rewrite str_app_cons. cbn. by rewrite IH. Qed.

Lemma be_bytes_len n z : String.length (be_bytes n z) = n.
Proof. revert z. induction n as [|n IH]; intros z; [done|]. cbn [be_bytes]. rewrite str_app_len, IH. cbn. lia. Qed.

Lemma be_bytes_inj n : forall x y,
  0 <= x < 256 ^ Z.of_nat n -> 0 <= y < 256 ^ Z.of_nat n ->
  be_bytes n x = be_bytes n y -> x = y.
Proof.
  induction n as [|n IH]; intros x y Hx Hy He; [cbn in *; lia|].
  cbn [be_bytes] in He. rewrite Nat2Z.inj_succ, Z.pow_succ_r in Hx, Hy by lia.
  apply str_app_inj in He as [Hq Hr]; [|by rewrite !be_bytes_len].
  injection Hr as Hr. apply (f_equal code) in Hr.
  pose proof (Z.mod_pos_bound x 256 ltac:(lia)). pose proof (Z.mod_pos_bound y 256 ltac:(lia)).
  rewrite !code_char_of in Hr by lia.
  assert (x / 256 = y / 256).
  { apply IH; [| |done]; (split; [apply Z.div_pos; lia|apply Z.div_lt_upper_bound; lia]). }
  rewrite (Z.div_mod x 256), (Z.div_mod y 256) by lia. congruence.
Qed.

(** A [0x]-prefixed pattern of [2 * n] hex digits decodes to [n] bytes, and
    the bytes determine the string. *)
Lemma hex_decode_total s :
  str_all is_lower_hex s = true -> Nat.even (String.length s) = true ->
  exists b, hex_decode s = Some b /\ String.length s = (2 * String.length b)%nat.
Proof.
  induction s as [|a|a c r IH] using string_ind2; intros Hs He; [by exists ""|done|].
  cbn in Hs. to_prop. destruct Hs as (Ha & Hc & Hr). cbn in He.
  destruct (IH Hr He) as (b & Hb & Hl).
  destruct (hex_char_nibble _ Ha) as (x & Nx & _). destruct (hex_char_nibble _ Hc) as (y & Ny & _).
  cbn [hex_decode]. rewrite Nx, Ny, Hb. eexists. split; [done|]. cbn [String.length]. lia.
Qed.

Lemma hex_pattern_inv n s :
  hex_pattern n s = true ->
  exists r, s = String "0" (String "x" r) /\ str_all is_lower_hex r = true /\ str_len r = n.
Proof.
  destruct s as [|c0 [|c1 r]]; cbn; intros H; try done. to_prop.
  destruct H as [[[H0 H1] Hr] Hn]. exists r. split; [|done].
  f_equal; [apply code_inj; by rewrite H0|]. f_equal. apply code_inj. by rewrite H1.
Qed.

Lemma hex_bytes_0x r : hex_bytes (String "0" (String "x" r)) = default "" (hex_decode r).
Proof. done. Qed.

Lemma hex_bytes_len m s :
  hex_pattern (2 * Z.of_nat m) s = true -> String.length (hex_bytes s) = m.
Proof.
  intros (r & -> & Hr & Hn)%hex_pattern_inv. unfold str_len in *. rewrite hex_bytes_0x.
  destruct (hex_decode_total r Hr) as (b & -> & Hl); [|cbn; lia].
  replace (String.length r) with (2 * m)%nat by lia. apply Nat.even_mul.
Qed.

Lemma hex_bytes_inj m s t :
  hex_pattern (2 * Z.of_nat m) s = true -> hex_pattern (2 * Z.of_nat m) t = true ->
  hex_bytes s = hex_bytes t -> s = t.
Proof.
  intros (r & -> & Hr & Hn)%hex_pattern_inv (u & -> & Hu & Hm)%hex_pattern_inv.
  unfold str_len in *. rewrite !hex_bytes_0x.
  destruct (hex_decode_total r Hr) as (b & Eb & _).
  { replace (String.length r) with (2 * m)%nat by lia. apply Nat.even_mul. }
  destruct (hex_decode_total u Hu) as (b' & Eb' & _).
  { replace (String.length u) with (2 * m)%nat by lia. apply Nat.even_mul. }
  rewrite Eb, Eb'. cbn. intros <-. do 2 f_equal. by eapply hex_decode_inj.
Qed.

Lemma address_word_inj s t :
  addressPattern s = true -> addressPattern t = true ->
  address_word s = address_word t -> s = t.
Proof.
  intros Hs Ht He. unfold address_word in He. apply str_app_inj in He as [_ He]; [|done].
  by apply (hex_bytes_inj 20).
Qed.

Lemma address_word_len s : addressPattern s = true -> String.length (address_word s) = 32%nat.
Proof. intros Hs. unfold address_word. rewrite str_app_len, (hex_bytes_len 20) by done. done. Qed.

(** ** What validation accepts *)

Definition id_list (a : Authorization) : list string :=
  [a_AuthorizationID a; a_OrganizationID a; a_CustomerID a; a_AgentID a;
   a_TaskID a; a_ActionID a; a_PolicyVersion a].

Section EnvelopeSpec.
Context `{Crypto}.

(** A decimal with a redundant leading zero, or zero itself. *)
Definition leading_zero (v : string) : bool :=
  match v with String c _ => code c =? 48 | EmptyString => false end.

(** Escrow terms that are fit to be signed for [chainID] and [recipient]. *)
Record escrow_ok (t : EscrowTerms) (chainID : Z) (recipient : string) : Prop := {
  eo_chain : chainID = 8453 \/ chainID = 84532;
  eo_contract : addressPattern (t_Contract t) = true;
  eo_buyer : addressPattern (t_Buyer t) = true;
  eo_provider : addressPattern recipient = true /\ t_Provider t = recipient;
  eo_parties : t_Buyer t <> recipient;
  eo_hashes : Forall (fun v => noncePattern v = true /\ v <> zero_hash)
                [t_CallID t; t_TaskDigest t; t_RequestDigest t];
  eo_deadlines : t_AcknowledgeBy t <> 0 /\ t_AcknowledgeBy t < t_DeliverBy t <= MaxInt64;
  eo_window : t_ReleaseWindow t <> 0 /\ t_ReleaseWindow t <= 30 * 24 * 60 * 60;
  eo_callid : t_CallID t = "0x" +:+ hex_encode (keccak256
                (callid_words chainID (t_Contract t) (t_Buyer t) (t_TaskDigest t) (t_RequestDigest t)));
}.

(** An authorization that is fit to be signed. *)
Record authorization_ok (a : Authorization) : Prop := {
  ao_version : a_Version a = Envelope_Version;
  ao_ids : Forall (fun v => ValidIdentifier v = true) (id_list a);
  ao_rail : (a_Rail a = RailEscrow /\ exists t, escrow_of a = Some t /\ escrow_ok t (a_ChainID a) (a_Recipient a)) \/
            ((a_Rail a = RailX402 \/ a_Rail a = RailDirect) /\ a_Escrow a = None);
  ao_chain : a_ChainID a <> 0;
  ao_recipient : addressPattern (a_Recipient a) = true;
  ao_asset : addressPattern (a_Asset a) = true;
  ao_amount : exists n, SetString10 (a_AmountAtomic a) = Some n /\ 0 < n < 2 ^ 256 /\
                str_all is_digit (a_AmountAtomic a) = true /\
                leading_zero (a_AmountAtomic a) = false;
  ao_resource : TrimSpace (a_Resource a) <> "" /\ str_len (a_Resource a) <= 2048;
  ao_nonce : noncePattern (a_Nonce a) = true;
  ao_window : 0 < a_IssuedAt a < a_ExpiresAt a;
  ao_escrow_window : forall t, escrow_of a = Some t ->
                a_IssuedAt a < t_AcknowledgeBy t /\ a_ExpiresAt a <= t_AcknowledgeBy t;
}.

Lemma EscrowTerms_Validate_iff t chainID recipient :
  EscrowTerms_Validate t chainID recipient = Ok tt <-> escrow_ok t chainID recipient.
Proof.
  unfold EscrowTerms_Validate, DeriveEscrowCallID. cbn [forallb]. split.
  - intros Hv. go_inv. to_prop. destruct_and!. subst recipient.
    constructor; try done; try lia. repeat constructor; done.
  - intros [? ? ? [? Hpr] ? Hh [? ?] [? ?] Hid]. rewrite !Forall_cons in Hh. subst recipient.
    destruct Hh as ([] & [] & [] & _).
    assert (callid_inputs_ok chainID (t_Contract t) (t_Buyer t) (t_TaskDigest t) (t_RequestDigest t) = true) as ->.
    { unfold callid_inputs_ok. to_prop. repeat split; try done. lia. }
    ok_prop. repeat split; auto; lia.
Qed.

Lemma validateAtomicAmount_iff v :
  validateAtomicAmount v = Ok tt <->
  exists n, SetString10 v = Some n /\ 0 < n < 2 ^ 256 /\
            str_all is_digit v = true /\ leading_zero v = false.
Proof.
  unfold validateAtomicAmount, fits256, leading_zero. destruct v as [|c r].
  { split; [done|]. by intros (n & ? & _). }
  destruct (SetString10 (String c r)) as [n|].
  - ok_prop. split.
    + intros (? & ? & ? & ? & _). exists n. split_and!; try done; lia.
    + intros (m & [= <-] & ? & ? & ?). repeat split; try done; lia.
  - ok_prop. split; [by intros (_ & _ & ?)|]. by intros (m & ? & _).
Qed.

(** The validator accepts exactly the authorizations fit to be signed. The
    side condition bounds [AcknowledgeBy], a [uint64] field. *)
Lemma Authorization_Validate_iff a :
  (forall t, escrow_of a = Some t -> 0 <= t_AcknowledgeBy t) ->
  Authorization_Validate a = Ok tt <-> authorization_ok a.
Proof.
  intros Hu. unfold Authorization_Validate, supported_rail. cbn [forallb].
  rewrite !check_ok_iff, try_unit_iff, !check_ok_iff, try_unit_iff, !check_ok_iff, validateAtomicAmount_iff.
  split.
  - intros (Hv & Hids & Hr & He & Hc & Hrec & Has & Ham & Hres & Hno & Hi & Hx & Hw).
    to_prop. destruct_and!.
    assert (Hrail : (a_Rail a = RailEscrow /\ exists t, escrow_of a = Some t /\ escrow_ok t (a_ChainID a) (a_Recipient a)) \/
            ((a_Rail a = RailX402 \/ a_Rail a = RailDirect) /\ a_Escrow a = None)).
    { destruct (bool_decide_reflect (a_Rail a = RailEscrow)) as [E|E].
      - left. split; [done|]. destruct (escrow_of a) as [t|]; [|done].
        exists t. split; [done|]. by apply EscrowTerms_Validate_iff.
      - right. destruct (a_Escrow a); [done|]. split; [|done]. naive_solver. }
    constructor; try done.
    + repeat constructor; done.
    + intros t Et. rewrite Et in Hw. ok_prop.
      destruct Hrail as [(_ & t' & Et' & Hok)|(_ & En)];
        [|unfold escrow_of in Et; by rewrite En in Et].
      rewrite Et in Et'. injection Et' as <-. destruct Hok. specialize (Hu t Et).
      rewrite int64_id in Hw; [naive_solver|].
      unfold is_int64, MinInt64. lia.
  - intros [Hv Hids Hrail Hc Hrec Has Ham Hres Hno [Hi Hx] Hw].
    unfold id_list in Hids. rewrite !Forall_cons in Hids. destruct_and!.
    to_prop. repeat split; try done.
    + naive_solver.
    + destruct Hrail as [(E & t & Et & Hok)|(E & En)].
      * rewrite bool_decide_eq_true_2, Et by done. by apply EscrowTerms_Validate_iff.
      * rewrite En, bool_decide_eq_false_2; [done|]. by destruct E as [-> | ->].
    + destruct (escrow_of a) as [t|] eqn:Et; [|done]. specialize (Hw t eq_refl).
      destruct Hrail as [(_ & t' & Et' & Hok)|(_ & En)];
        [|unfold escrow_of in Et; by rewrite En in Et].
      injection Et' as <-. destruct Hok. specialize (Hu t eq_refl).
      rewrite int64_id; [|unfold is_int64, MinInt64; lia]. ok_prop. naive_solver.
Qed.
End EnvelopeSpec.

(** ** The signed bytes determine the authority *)

(** The fields have the ranges of their Go types. *)
Definition terms_typed (t : EscrowTerms) : Prop :=
  is_uint64 (t_AcknowledgeBy t) /\ is_uint64 (t_DeliverBy t) /\ is_uint64 (t_ReleaseWindow t).

Definition authorization_typed (a : Authorization) : Prop :=
  is_uint64 (a_ChainID a) /\ is_int64 (a_IssuedAt a) /\ is_int64 (a_ExpiresAt a) /\
  forall t, escrow_of a = Some t -> terms_typed t.

(** Equal in every field; the escrow terms by value. *)
Definition same_authority (a b : Authorization) : Prop :=
  a_Version a = a_Version b /\ id_list a = id_list b /\ a_Rail a = a_Rail b /\
  a_ChainID a = a_ChainID b /\ a_Recipient a = a_Recipient b /\ a_Asset a = a_Asset b /\
  a_AmountAtomic a = a_AmountAtomic b /\ a_Resource a = a_Resource b /\
  a_Nonce a = a_Nonce b /\ a_IssuedAt a = a_IssuedAt b /\ a_ExpiresAt a = a_ExpiresAt b /\
  escrow_of a = escrow_of b.

Lemma rails_distinct : RailEscrow <> RailX402 /\ RailEscrow <> RailDirect.
Proof. done. Qed.

Section EnvelopeTheorems.
Context `{CryptoLaws}.

Lemma escrow_ok_text t chainID recipient :
  escrow_ok t chainID recipient ->
  Forall (fun v => valid_utf8 v = true)
    [t_Contract t; t_Buyer t; t_Provider t; t_CallID t; t_TaskDigest t; t_RequestDigest t].
Proof.
  intros [_ ? ? [? ->] _ Hh _ _ _]. rewrite !Forall_cons in Hh.
  destruct Hh as ([? _] & [? _] & [? _] & _).
  repeat constructor; by eapply hex_pattern_utf8.
Qed.

Lemma json_EscrowTerms_inj t u c r c' r' :
  escrow_ok t c r -> escrow_ok u c' r' -> terms_typed t -> terms_typed u ->
  json_EscrowTerms t = json_EscrowTerms u -> t = u.
Proof.
  intros Ht%escrow_ok_text Hu%escrow_ok_text (Ta & Td & Tr) (Ua & Ud & Ur) E.
  rewrite !Forall_cons in Ht, Hu. destruct_and!.
  destruct Ta as [Ta _], Td as [Td _], Tr as [Tr _], Ua as [Ua _], Ud as [Ud _], Ur as [Ur _].
  unfold json_EscrowTerms in E.
  do 6 json_peel_string E. do 3 json_peel_int E.
  destruct t, u; cbn in *; congruence.
Qed.

Lemma authorization_ok_text a :
  authorization_ok a ->
  Forall (fun v => valid_utf8 v = true)
    (id_list a ++ [a_Version a; a_Rail a; a_Recipient a; a_Asset a; a_AmountAtomic a; a_Nonce a]).
Proof.
  intros [Hv Hids Hrail _ Hr Ha (n & _ & _ & Hd & _) _ Hn _ _]. apply Forall_app. split.
  - eapply Forall_impl; [exact Hids|]. intros v. apply identifier_utf8.
  - repeat constructor.
    + by rewrite Hv.
    + by destruct Hrail as [[-> _]|[[-> | ->] _]].
    + by eapply hex_pattern_utf8.
    + by eapply hex_pattern_utf8.
    + by apply digits_utf8.
    + by eapply hex_pattern_utf8.
Qed.

Lemma json_tail_escrow_inj a b :
  authorization_ok a -> authorization_ok b -> authorization_typed a -> authorization_typed b ->
  a_Rail a = a_Rail b ->
  json_tail [("escrow", option_map json_EscrowTerms (escrow_of a))] =
  json_tail [("escrow", option_map json_EscrowTerms (escrow_of b))] ->
  escrow_of a = escrow_of b.
Proof.
  intros Ha Hb (_ & _ & _ & Ta) (_ & _ & _ & Tb) Hrail E.
  destruct (ao_rail _ Ha) as [(Ra & t & Et & Ht)|(Ra & Na)];
    destruct (ao_rail _ Hb) as [(Rb & u & Eu & Hu)|(Rb & Nb)].
  - rewrite Et, Eu in *. cbn [option_map] in E. json_peel_name E. f_equal.
    eapply json_EscrowTerms_inj; [exact Ht|exact Hu|auto|auto|].
    apply chars_inj, (app_inv_tail (chars "}")).
    apply (f_equal chars) in E. by rewrite !chars_app in E.
  - destruct rails_distinct, Rb; congruence.
  - destruct rails_distinct, Ra; congruence.
  - unfold escrow_of. by rewrite Na, Nb.
Qed.

Lemma json_Authorization_inj a b :
  authorization_ok a -> authorization_ok b -> authorization_typed a -> authorization_typed b ->
  valid_utf8 (a_Resource a) = true -> valid_utf8 (a_Resource b) = true ->
  json_Authorization a = json_Authorization b -> same_authority a b.
Proof.
  intros Ha Hb Ta Tb Ra Rb E.
  pose proof (authorization_ok_text _ Ha) as Va. pose proof (authorization_ok_text _ Hb) as Vb.
  unfold id_list in Va, Vb. cbn [app] in Va, Vb. rewrite !Forall_cons in Va, Vb. destruct_and!.
  assert (Ca : 0 <= a_ChainID a) by (destruct Ta as [[? _] _]; done).
  assert (Cb : 0 <= a_ChainID b) by (destruct Tb as [[? _] _]; done).
  assert (0 <= a_IssuedAt a /\ 0 <= a_ExpiresAt a) as [? ?] by (destruct (ao_window _ Ha); lia).
  assert (0 <= a_IssuedAt b /\ 0 <= a_ExpiresAt b) as [? ?] by (destruct (ao_window _ Hb); lia).
  unfold json_Authorization in E.
  do 8 json_peel_string E. json_peel_int E. do 6 json_peel_string E. do 2 json_peel_int E.
  apply json_tail_escrow_inj in E; [|done..].
  unfold same_authority, id_list. repeat split; congruence.
Qed.

Lemma callid_words_inj c1 k1 b1 t1 r1 c2 k2 b2 t2 r2 :
  callid_inputs_ok c1 k1 b1 t1 r1 = true -> callid_inputs_ok c2 k2 b2 t2 r2 = true ->
  is_uint64 c1 -> is_uint64 c2 ->
  callid_words c1 k1 b1 t1 r1 = callid_words c2 k2 b2 t2 r2 ->
  (c1, k1, b1, t1, r1) = (c2, k2, b2, t2, r2).
Proof.
  unfold callid_inputs_ok, callid_words. intros H1 H2 [? Hc1] [? Hc2] E. to_prop. destruct_and!.
  unfold MaxUint64 in *. apply str_app_inv_head in E.
  apply str_app_inj in E as [Ec E]; [|by rewrite !be_bytes_len].
  apply be_bytes_inj in Ec; [|lia|lia].
  apply str_app_inj in E as [Ek E]; [|by rewrite !address_word_len].
  apply str_app_inj in E as [Eb E]; [|by rewrite !address_word_len].
  apply str_app_inj in E as [Et Er]; [|by rewrite !(hex_bytes_len 32)].
  apply address_word_inj in Ek, Eb; [|done..]. apply (hex_bytes_inj 32) in Et, Er; [|done..].
  congruence.
Qed.

Lemma Authorization_Digest_ok a d :
  Authorization_Digest a = Ok d <->
  Authorization_Validate a = Ok tt /\ d = sha256 (domainPrefix +:+ json_Authorization a).
Proof.
  unfold Authorization_Digest, CanonicalBytes.
  destruct (Authorization_Validate a) as [[]|]; naive_solver.
Qed.

Lemma has_0x_prefix r : has_0x ("0x" +:+ r) = true.
Proof. done. Qed.
Lemma trim_0x_prefix r : trim_0x ("0x" +:+ r) = r.
Proof. done. Qed.

Lemma Verify_ok_iff s pub :
  Verify s pub = Ok tt <->
  ValidIdentifier (s_KeyID s) = true /\ str_len pub = PublicKeySize /\
  Authorization_Validate (s_Authorization s) = Ok tt /\
  exists raw, s_Signature s = "0x" +:+ hex_encode raw /\ str_len raw = SignatureSize /\
    ed25519_verify pub (sha256 (domainPrefix +:+ json_Authorization (s_Authorization s))) raw = true.
Proof.
  unfold Verify. rewrite !check_ok_iff. split.
  - intros (Hk & Hp & Hx & Hv). destruct (hex_decode _) as [raw|]; [|done].
    rewrite check_ok_iff, try_ok_iff in Hv. destruct Hv as (Hr & d & Hd%Authorization_Digest_ok & Hv).
    to_prop. destruct Hd as [Hval ->]. rewrite check_ok_iff in Hv. destruct Hr. repeat split; try done.
    exists raw. repeat split; [done..|]. by destruct Hv.
  - intros (Hk & Hp & Hval & raw & Hs & Hl & Hver). rewrite Hs, has_0x_prefix, trim_0x_prefix, hex_decode_encode.
    repeat split; [done|by apply Z.eqb_eq|].
    rewrite check_ok_iff, try_ok_iff. split; [by rewrite Hl, bool_decide_eq_true_2|].
    eexists. split; [by apply Authorization_Digest_ok|]. by rewrite Hver.
Qed.

Lemma Sign_Verify a keyID privateKey s :
  Sign a keyID privateKey = Ok s ->
  s_Authorization s = a /\ Verify s (ed25519_public privateKey) = Ok tt.
Proof.
  unfold Sign. rewrite !check_ok_iff, try_ok_iff.
  intros (Hk & Hl & d & Hd%Authorization_Digest_ok & [= <-]). split; [done|]. to_prop.
  destruct Hd as [Hv ->]. apply Verify_ok_iff. cbn.
  repeat split; [done|by apply public_size|done|].
  eexists. split; [done|]. split; [apply sign_size|by apply sign_verify].
Qed.

(** ** Properties *)

(** whatever [Sign] returns, [Verify] accepts under the matching public key,
    and the signed value is the authorization that was asked for. *)
Theorem sign_then_verify a keyID privateKey s :
  Sign a keyID privateKey = Ok s ->
  s_Authorization s = a /\ Verify s (ed25519_public privateKey) = Ok tt.
Proof. apply Sign_Verify. Qed.

(** [Verify] accepts exactly a valid authorization under a canonical
    lowercase [0x] encoding of a 64-byte signature that Ed25519 accepts over the
    domain-separated SHA-256 of the canonical JSON. *)
Theorem verify_exact s publicKey :
  authorization_typed (s_Authorization s) ->
  Verify s publicKey = Ok tt <->
  ValidIdentifier (s_KeyID s) = true /\ str_len publicKey = PublicKeySize /\
  authorization_ok (s_Authorization s) /\
  exists raw, s_Signature s = "0x" +:+ hex_encode raw /\ str_len raw = SignatureSize /\
    ed25519_verify publicKey
      (sha256 (domainPrefix +:+ json_Authorization (s_Authorization s))) raw = true.
Proof.
  intros (_ & _ & _ & Ht). rewrite Verify_ok_iff, Authorization_Validate_iff; [done|].
  intros t Et. destruct (Ht t Et) as [[? _] _]. done.
Qed.

(** the bytes that are signed determine the authority: two valid
    authorizations with equal canonical bytes agree in every field, the escrow
    terms included. *)
Theorem canonical_bytes_injective a b bytes :
  authorization_typed a -> authorization_typed b ->
  valid_utf8 (a_Resource a) = true -> valid_utf8 (a_Resource b) = true ->
  CanonicalBytes a = Ok bytes -> CanonicalBytes b = Ok bytes -> same_authority a b.
Proof.
  intros Ta Tb Ra Rb. unfold CanonicalBytes. rewrite !try_unit_iff.
  intros [Va [= Ea]] [Vb [= Eb]].
  apply json_Authorization_inj; try done; [| |congruence].
  - apply Authorization_Validate_iff; [|done]. intros t Et. by destruct Ta as (_ & _ & _ & Ht), (Ht t Et) as [[? _] _].
  - apply Authorization_Validate_iff; [|done]. intros t Et. by destruct Tb as (_ & _ & _ & Ht), (Ht t Et) as [[? _] _].
Qed.

(** a call ID binds its chain, contract, buyer, task and request: equal call
    IDs come from equal inputs, unless Keccak-256 collides. *)
Theorem callid_binds_inputs c1 k1 b1 t1 r1 c2 k2 b2 t2 r2 callID :
  is_uint64 c1 -> is_uint64 c2 ->
  DeriveEscrowCallID c1 k1 b1 t1 r1 = Ok callID ->
  DeriveEscrowCallID c2 k2 b2 t2 r2 = Ok callID ->
  (c1, k1, b1, t1, r1) = (c2, k2, b2, t2, r2) \/
  exists x y, x <> y /\ keccak256 x = keccak256 y.
Proof.
  intros U1 U2. unfold DeriveEscrowCallID. rewrite !check_ok_iff. intros [I1 [= E1]] [I2 [= E2]].
  rewrite <-E2 in E1. apply str_app_inv_head, (f_equal hex_decode) in E1.
  rewrite !hex_decode_encode in E1. injection E1 as E.
  destruct (decide (callid_words c1 k1 b1 t1 r1 = callid_words c2 k2 b2 t2 r2)) as [Hw|Hw].
  - left. by apply callid_words_inj.
  - right. eauto.
Qed.
End EnvelopeTheorems.

(** ** Witnesses *)

Section EnvelopeWitnesses.
#[local] Existing Instance ToyCrypto.
#[local] Existing Instance ToyCryptoLaws.

Definition demo_buyer : string := "0x" +:+ str_repeat "b" 40.
Definition demo_provider : string := "0x" +:+ str_repeat "c" 40.
Definition demo_contract : string := "0x" +:+ str_repeat "e" 40.
Definition demo_asset : string := "0x" +:+ str_repeat "a" 40.
Definition demo_hash (c : string) : string := "0x" +:+ str_repeat c 64.

Definition demo_terms : EscrowTerms := {|
  t_Contract := demo_contract; t_Buyer := demo_buyer; t_Provider := demo_provider;
  t_CallID := match DeriveEscrowCallID 8453 demo_contract demo_buyer (demo_hash "1") (demo_hash "2") with
              | Ok id => id | Err _ => "" end;
  t_TaskDigest := demo_hash "1"; t_RequestDigest := demo_hash "2";
  t_AcknowledgeBy := 1700001000; t_DeliverBy := 1700002000; t_ReleaseWindow := 3600 |}.

Definition demo_authorization : Authorization := {|
  a_Version := Envelope_Version; a_AuthorizationID := "auth_1"; a_OrganizationID := "org_1";
  a_CustomerID := "cust_1"; a_AgentID := "agent_1"; a_TaskID := "task_1"; a_ActionID := "act_1";
  a_Rail := RailEscrow; a_ChainID := 8453; a_Recipient := demo_provider; a_Asset := demo_asset;
  a_AmountAtomic := "1000"; a_Resource := "https://seller.example/quote";
  a_PolicyVersion := "policy_1"; a_Nonce := demo_hash "3";
  a_IssuedAt := 1700000000; a_ExpiresAt := 1700000300;
  a_Escrow := Some (mkptr 1 demo_terms) |}.

Definition demo_key : string := pad 64 "key".

Definition demo_signed : SignedAuthorization :=
  match Sign demo_authorization "key_1" demo_key with
  | Ok s => s
  | Err _ => {| s_Authorization := demo_authorization; s_KeyID := ""; s_Signature := "" |}
  end.

Lemma demo_authorization_typed : authorization_typed demo_authorization.
Proof.
  unfold authorization_typed, terms_typed, is_uint64, is_int64.
  split; [|split; [|split]]; [vm_compute; split; congruence..|].
  intros t Ht. change (Some demo_terms = Some t) in Ht. apply (inj Some) in Ht as <-.
  repeat split; vm_compute; congruence.
Qed.

Lemma sign_then_verify_witness :
  s_Authorization demo_signed = demo_authorization /\
  Verify demo_signed (ed25519_public demo_key) = Ok tt.
Proof. apply (sign_then_verify _ "key_1"). vm_compute. reflexivity. Defined.

Lemma verify_exact_witness :
  authorization_ok (s_Authorization demo_signed).
Proof.
  apply (verify_exact demo_signed (ed25519_public demo_key)); [|vm_compute; reflexivity].
  assert (s_Authorization demo_signed = demo_authorization) as -> by (vm_compute; reflexivity).
  exact demo_authorization_typed.
Defined.

Lemma canonical_bytes_injective_witness :
  same_authority demo_authorization demo_authorization.
Proof.
  apply (canonical_bytes_injective demo_authorization demo_authorization
    (json_Authorization demo_authorization));
    first [exact demo_authorization_typed|vm_compute; reflexivity].
Defined.

Lemma callid_binds_inputs_witness :
  (8453, demo_contract, demo_buyer, demo_hash "1", demo_hash "2") =
  (8453, demo_contract, demo_buyer, demo_hash "1", demo_hash "2") \/
  exists x y, x <> y /\ keccak256 x = keccak256 y.
Proof.
  apply (callid_binds_inputs _ _ _ _ _ _ _ _ _ _ (t_CallID demo_terms));
    first [split; vm_compute; congruence|vm_compute; reflexivity].
Defined.
End EnvelopeWitnesses.
