(* ===== verification/PilotLimits.v ===== *)
(** * Deployment-wide pilot limits ([pkg/pilotlimits/limits.go])

    [Compile] parses the two limits; [Check] refuses an action that crosses
    either ceiling. A [*Limits] may be nil, here [None]. *)
From stdpp Require Import base gmap strings list fin_maps.
From Stdlib Require Import ZArith Lia Ascii.
From S2P Require Import Prelude GoText GoJSON Amounts.

Open Scope Z_scope.

Definition ErrPerActionExceeded : error := "pilot per-action limit exceeded".
Definition ErrOutstandingExceeded : error := "pilot outstanding limit exceeded".

Definition BaseMainnetMaxPerActionAtomic : string := "1000000".
Definition BaseMainnetMaxOutstandingAtomic : string := "10000000".

Record PilotConfig := mkPilotConfig {
  pc_MaxPerActionAtomic : string;
  pc_MaxOutstandingAtomic : string;
}.

Record Limits := mkLimits {
  l_maxPerAction : option Z;
  l_maxOutstanding : option Z;
}.

Definition pilot_parseNonNegative (name value : string) : res Z :=
  check negb (bool_decide (value = "")) else (name +:+ " is required") ;;
  check negb (redundant_zero value) else (name +:+ " has a leading zero") ;;
  check str_all is_digit value else (name +:+ " must contain decimal digits only") ;;
  match SetString10 value with
  | None => Err (name +:+ " is outside uint256")
  | Some n =>
      check negb (n <? 0) && fits256 n else (name +:+ " is outside uint256") ;;
      Ok n
  end.

Definition pilot_parsePositive (name value : string) : res Z :=
  try n := pilot_parseNonNegative name value in
  check negb (n =? 0) else (name +:+ " must be positive") ;;
  Ok n.

Definition pilot_Compile (cfg : PilotConfig) : res Limits :=
  try perAction := pilot_parsePositive "pilot per-action limit" (pc_MaxPerActionAtomic cfg) in
  try outstanding := pilot_parsePositive "pilot outstanding limit" (pc_MaxOutstandingAtomic cfg) in
  check perAction <=? outstanding
    else "pilot per-action limit cannot exceed outstanding limit" ;;
  Ok {| l_maxPerAction := Some perAction; l_maxOutstanding := Some outstanding |}.

Definition pilot_Check (l : option Limits) (amountAtomic outstandingAtomic : string) : res unit :=
  match l with
  | Some {| l_maxPerAction := Some maxPerAction; l_maxOutstanding := Some maxOutstanding |} =>
      try amount := pilot_parsePositive "amount" amountAtomic in
      try outstanding := pilot_parseNonNegative "outstanding amount" outstandingAtomic in
      check amount <=? maxPerAction else ErrPerActionExceeded ;;
      let projected := outstanding + amount in
      check fits256 projected && (projected <=? maxOutstanding) else ErrOutstandingExceeded ;;
      Ok tt
  | _ => Err "pilot limits are unavailable"
  end.

Definition MaxPerActionAtomic (l : option Limits) : string :=
  match l with
  | Some {| l_maxPerAction := Some n |} => dec_string n
  | _ => ""
  end.

Definition MaxOutstandingAtomic (l : option Limits) : string :=
  match l with
  | Some {| l_maxOutstanding := Some n |} => dec_string n
  | _ => ""
  end.

Definition RequireInitialBaseMainnetProfile (l : option Limits) : res unit :=
  check negb (bool_decide (l = None)) &&
        bool_decide (MaxPerActionAtomic l = BaseMainnetMaxPerActionAtomic) &&
        bool_decide (MaxOutstandingAtomic l = BaseMainnetMaxOutstandingAtomic)
    else "pilot limits do not match the initial Base mainnet profile" ;;
  Ok tt.

(** ** Facts *)

Lemma pilot_parseNonNegative_iff name v n :
  pilot_parseNonNegative name v = Ok n <-> amount v n.
Proof.
  rewrite <-nonneg_guards. unfold pilot_parseNonNegative.
  rewrite !check_ok_iff. to_prop.
  destruct (SetString10 v) as [m|]; [rewrite check_ok_iff; to_prop|]; naive_solver.
Qed.

#[local] Opaque pilot_parseNonNegative.

Lemma pilot_parsePositive_iff name v n :
  pilot_parsePositive name v = Ok n <-> amount v n /\ 0 < n.
Proof.
  unfold pilot_parsePositive. rewrite try_ok_iff. setoid_rewrite pilot_parseNonNegative_iff.
  setoid_rewrite check_ok_iff. split.
  - intros (m & Hm & Hz & [= ->]). to_prop. split; [done|]. destruct Hm as [_ ?]. lia.
  - intros [Hn ?]. exists n. to_prop. split; [done|]. split; [lia|done].
Qed.

#[local] Opaque pilot_parsePositive.

(** Compiled limits carry both ceilings, ordered. *)
Record limits_ok (l : Limits) (perAction outstanding : Z) : Prop := {
  lo_perAction : l_maxPerAction l = Some perAction;
  lo_outstanding : l_maxOutstanding l = Some outstanding;
  lo_order : 0 < perAction <= outstanding;
  lo_uint256 : outstanding < 2 ^ 256;
}.

Lemma pilot_Compile_iff cfg l :
  pilot_Compile cfg = Ok l <->
  exists p o, amount (pc_MaxPerActionAtomic cfg) p /\ amount (pc_MaxOutstandingAtomic cfg) o /\
              limits_ok l p o.
Proof.
  unfold pilot_Compile. rewrite try_ok_iff. setoid_rewrite try_ok_iff.
  setoid_rewrite pilot_parsePositive_iff. setoid_rewrite check_ok_iff. split.
  - intros (p & [Hp ?] & o & [Ho ?] & Hle & [= <-]). to_prop. exists p, o.
    split; [done|]. split; [done|]. destruct Ho. split; cbn; try done; lia.
  - intros (p & o & Hp & Ho & [E1 E2 Hl _]). exists p. split; [split; [done|lia]|].
    exists o. split; [split; [done|lia]|]. to_prop. split; [lia|]. destruct l; cbn in *; congruence.
Qed.

Lemma pilot_Check_iff l p o amt out :
  limits_ok l p o ->
  pilot_Check (Some l) amt out = Ok tt <->
  exists a x, amount amt a /\ amount out x /\ 0 < a <= p /\ x + a <= o.
Proof.
  intros [E1 E2 Hl Hu]. destruct l as [mp mo]; cbn in E1, E2. subst. cbn [pilot_Check].
  rewrite try_ok_iff. setoid_rewrite try_ok_iff. setoid_rewrite pilot_parsePositive_iff.
  setoid_rewrite pilot_parseNonNegative_iff. setoid_rewrite check_ok_iff. setoid_rewrite check_ok_iff. unfold fits256. to_prop. split.
  - intros (a & [Ha ?] & x & Hx & ? & ? & _). to_prop. exists a, x.
    split; [done|]. split; [done|]. lia.
  - intros (a & x & Ha & Hx & ? & ?). exists a. split; [split; [done|lia]|]. exists x.
    split; [done|]. destruct Ha, Hx. to_prop. repeat split; lia.
Qed.

(** compiled limits accept an action exactly when its canonical amount is
    positive and within the per-action ceiling, and the projected exposure is
    within the outstanding ceiling. *)
Theorem pilot_limits_exact cfg l amountAtomic outstandingAtomic :
  pilot_Compile cfg = Ok l ->
  pilot_Check (Some l) amountAtomic outstandingAtomic = Ok tt <->
  exists perAction outstanding a x,
    amount (pc_MaxPerActionAtomic cfg) perAction /\ amount (pc_MaxOutstandingAtomic cfg) outstanding /\
    amount amountAtomic a /\ amount outstandingAtomic x /\
    0 < a <= perAction /\ x + a <= outstanding.
Proof.
  intros (p & o & Hp & Ho & Hok)%pilot_Compile_iff. rewrite (pilot_Check_iff l p o) by done. split.
  - intros (a & x & ?). by exists p, o, a, x.
  - intros (p' & o' & a & x & Hp' & Ho' & ? & ? & ? & ?). exists a, x.
    rewrite (amount_inj _ _ _ Hp Hp'), (amount_inj _ _ _ Ho Ho'). done.
Qed.

#[local] Transparent pilot_parsePositive pilot_parseNonNegative.

Definition demo_pilot : PilotConfig :=
  {| pc_MaxPerActionAtomic := BaseMainnetMaxPerActionAtomic;
     pc_MaxOutstandingAtomic := BaseMainnetMaxOutstandingAtomic |}.
Definition demo_limits : Limits :=
  {| l_maxPerAction := Some 1000000; l_maxOutstanding := Some 10000000 |}.

Lemma pilot_limits_exact_witness :
  pilot_Check (Some demo_limits) "1000000" "9000000" = Ok tt.
Proof.
  apply (pilot_limits_exact demo_pilot demo_limits); [vm_compute; reflexivity|].
  exists 1000000, 10000000, 1000000, 9000000. unfold amount.
  repeat split; try lia; vm_compute; reflexivity.
Defined.
