(* ===== verification/Policy.v ===== *)
(** * The policy engine ([internal/policy/policy.go])

    [Compile] turns a configuration into an engine; [Evaluate] is the pure
    decision on an intent and a spend snapshot. [Outcome] and [Reason] are
    string types in the source and here. The maps used as sets are [gset]s. *)
From stdpp Require Import base gmap strings list fin_maps.
From Stdlib Require Import ZArith Lia Ascii.
From S2P Require Import Prelude GoText GoJSON Amounts Crypto Envelope.

Open Scope Z_scope.

Abbreviation Outcome := string (only parsing).
Definition Deny : Outcome := "DENY".
Definition RequireApproval : Outcome := "REQUIRE_APPROVAL".
Definition AutoApprove : Outcome := "AUTO_APPROVE".

Abbreviation Reason := string (only parsing).
Definition ReasonAllowed : Reason := "ALLOWED".
Definition ReasonPolicyDisabled : Reason := "POLICY_DISABLED".
Definition ReasonUnsupportedChain : Reason := "UNSUPPORTED_CHAIN".
Definition ReasonUnsupportedRail : Reason := "UNSUPPORTED_RAIL".
Definition ReasonAssetNotAllowed : Reason := "ASSET_NOT_ALLOWED".
Definition ReasonRecipientNotAllowed : Reason := "RECIPIENT_NOT_ALLOWED".
Definition ReasonBlockedCategory : Reason := "BLOCKED_CATEGORY".
Definition ReasonInvalidAmount : Reason := "INVALID_AMOUNT".
Definition ReasonPerActionLimit : Reason := "PER_ACTION_LIMIT_EXCEEDED".
Definition ReasonTaskBudget : Reason := "TASK_BUDGET_EXCEEDED".
Definition ReasonDailyBudget : Reason := "DAILY_BUDGET_EXCEEDED".
Definition ReasonHumanApprovalThreshold : Reason := "HUMAN_APPROVAL_THRESHOLD".
Definition ReasonRailRequiresApproval : Reason := "RAIL_REQUIRES_APPROVAL".
Definition ReasonPilotPerActionLimit : Reason := "PILOT_PER_ACTION_LIMIT_EXCEEDED".
Definition ReasonPilotOutstandingLimit : Reason := "PILOT_OUTSTANDING_LIMIT_EXCEEDED".

Record PolicyConfig := mkPolicyConfig {
  cfg_Version : string;
  cfg_Enabled : bool;
  cfg_AllowedChainIDs : list Z;
  cfg_AllowedRails : list Rail;
  cfg_AllowedAssets : list string;
  cfg_AllowedRecipients : list string;
  cfg_BlockedCategories : list string;
  cfg_ApprovalRequiredRails : list Rail;
  cfg_PerActionLimitAtomic : string;
  cfg_AutoApproveThresholdAtomic : string;
  cfg_TaskBudgetAtomic : string;
  cfg_DailyBudgetAtomic : string;
  cfg_CategoryDailyBudgetAtomic : string;
  cfg_LifetimeBudgetAtomic : string;
  cfg_OrganizationDailyBudgetAtomic : string;
}.

Record PolicyIntent := mkPolicyIntent {
  p_OrganizationID : string;
  p_CustomerID : string;
  p_AgentID : string;
  p_TaskID : string;
  p_ActionID : string;
  p_Rail : Rail;
  p_ChainID : Z;
  p_Recipient : string;
  p_Asset : string;
  p_AmountAtomic : string;
  p_Resource : string;
  p_Category : string;
}.

Record SpendSnapshot := mkSpendSnapshot {
  sp_TaskSpentAtomic : string;
  sp_TaskReservedAtomic : string;
  sp_DailySpentAtomic : string;
  sp_DailyReservedAtomic : string;
}.

Record Decision := mkDecision {
  d_Outcome : Outcome;
  d_Reason : Reason;
  d_PolicyVersion : string;
}.

#[export] Instance Decision_eq_dec : EqDecision Decision.
Proof. solve_decision. Defined.

Record Engine := mkEngine {
  e_version : string;
  e_enabled : bool;
  e_chains : gset Z;
  e_rails : gset string;
  e_assets : gset string;
  e_recipients : gset string;
  e_blockedCategories : gset string;
  e_approvalRequiredRails : gset string;
  e_perActionLimit : Z;
  e_autoApproveThreshold : Z;
  e_taskBudget : Z;
  e_dailyBudget : Z;
}.

(** ** Parsing *)

Definition policy_parseNonNegative (name value : string) : res Z :=
  check negb (bool_decide (value = "")) else (name +:+ " is required") ;;
  check negb (redundant_zero value) else (name +:+ " has a leading zero") ;;
  check str_all is_digit value else (name +:+ " must contain decimal digits only") ;;
  match SetString10 value with
  | None => Err (name +:+ " is outside uint256")
  | Some n =>
      check negb (n <? 0) && fits256 n else (name +:+ " is outside uint256") ;;
      Ok n
  end.

Definition policy_parsePositive (name value : string) : res Z :=
  try n := policy_parseNonNegative name value in
  check negb (n <=? 0) else (name +:+ " must be positive") ;;
  Ok n.

(** [projectedTotal(amount, values...)]: [None] when [ok] is false. *)
Fixpoint projectedTotal (total : Z) (values : list string) : option Z :=
  match values with
  | [] => Some total
  | value :: values =>
      match policy_parseNonNegative "spend snapshot" value with
      | Err _ => None
      | Ok n => if fits256 (total + n) then projectedTotal (total + n) values else None
      end
  end.

Section Policy.
Context `{Unicode}.

Definition canonicalAddress (value : string) : res string :=
  try normalized := NormalizeAddress value in
  check bool_decide (value = normalized) else "address is not in canonical lowercase form" ;;
  Ok normalized.

(** One of the three optional budgets, checked against the per-action limit. *)
Definition optional_budget (perAction : Z) (budget : string * string) : res unit :=
  let '(name, value) := budget in
  if bool_decide (value = "") then Ok tt else
  try limit := policy_parsePositive name value in
  check perAction <=? limit else ("per-action limit cannot exceed " +:+ name) ;;
  Ok tt.

Definition allowed_chain (chainID : Z) : res Z :=
  check negb (chainID =? 0) else "allowed chain ID cannot be zero" ;; Ok chainID.
Definition allowed_rail (rail : Rail) : res string :=
  check supported_rail rail else "unsupported configured rail" ;; Ok rail.
Definition approval_rail (rails : gset string) (rail : Rail) : res string :=
  check bool_decide (rail ∈ rails) else "approval-required rail is not allowed" ;; Ok rail.
Definition blocked_category (category : string) : res string :=
  let category := TrimSpace (ToLower category) in
  check negb (bool_decide (category = "")) else "blocked category cannot be empty" ;; Ok category.

(** [for _, x := range xs { check x; set[x] = struct{}{} }] *)
Definition collect {A B} `{Countable B} (g : A -> res B) (l : list A) : res (gset B) :=
  fold_res (fun s x => try y := g x in Ok ({[y]} ∪ s)) ∅ l.

Definition policy_Compile (cfg : PolicyConfig) : res Engine :=
  check negb (bool_decide (TrimSpace (cfg_Version cfg) = "")) else "policy version is required" ;;
  try perAction := policy_parsePositive "per-action limit" (cfg_PerActionLimitAtomic cfg) in
  try autoApprove := policy_parseNonNegative "auto-approve threshold" (cfg_AutoApproveThresholdAtomic cfg) in
  try taskBudget := policy_parsePositive "task budget" (cfg_TaskBudgetAtomic cfg) in
  try dailyBudget := policy_parsePositive "daily budget" (cfg_DailyBudgetAtomic cfg) in
  check autoApprove <=? perAction else "auto-approve threshold cannot exceed per-action limit" ;;
  check perAction <=? taskBudget else "per-action limit cannot exceed task budget" ;;
  check taskBudget <=? dailyBudget else "task budget cannot exceed daily budget" ;;
  try _ := fold_res (fun _ b => optional_budget perAction b) tt
    [("category daily budget", cfg_CategoryDailyBudgetAtomic cfg);
     ("lifetime budget", cfg_LifetimeBudgetAtomic cfg);
     ("organization daily budget", cfg_OrganizationDailyBudgetAtomic cfg)] in
  try chains := collect allowed_chain (cfg_AllowedChainIDs cfg) in
  try rails := collect allowed_rail (cfg_AllowedRails cfg) in
  try approvalRequiredRails := collect (approval_rail rails) (cfg_ApprovalRequiredRails cfg) in
  try assets := collect canonicalAddress (cfg_AllowedAssets cfg) in
  try recipients := collect canonicalAddress (cfg_AllowedRecipients cfg) in
  try blockedCategories := collect blocked_category (cfg_BlockedCategories cfg) in
  check negb (bool_decide (chains = ∅)) && negb (bool_decide (rails = ∅)) &&
        negb (bool_decide (assets = ∅)) && negb (bool_decide (recipients = ∅))
    else "policy must allow at least one chain, rail, asset, and recipient" ;;
  Ok {| e_version := cfg_Version cfg; e_enabled := cfg_Enabled cfg;
        e_chains := chains; e_rails := rails; e_assets := assets; e_recipients := recipients;
        e_blockedCategories := blockedCategories; e_approvalRequiredRails := approvalRequiredRails;
        e_perActionLimit := perAction; e_autoApproveThreshold := autoApprove;
        e_taskBudget := taskBudget; e_dailyBudget := dailyBudget |}.

Definition Evaluate (e : Engine) (intent : PolicyIntent) (spend : SpendSnapshot) : Decision :=
  let decision outcome reason :=
    {| d_Outcome := outcome; d_Reason := reason; d_PolicyVersion := e_version e |} in
  if negb (e_enabled e) then decision Deny ReasonPolicyDisabled else
  if negb (bool_decide (p_ChainID intent ∈ e_chains e)) then decision Deny ReasonUnsupportedChain else
  if negb (bool_decide (p_Rail intent ∈ e_rails e)) then decision Deny ReasonUnsupportedRail else
  match canonicalAddress (p_Asset intent) with
  | Err _ => decision Deny ReasonAssetNotAllowed
  | Ok asset =>
  if negb (bool_decide (asset ∈ e_assets e)) then decision Deny ReasonAssetNotAllowed else
  match canonicalAddress (p_Recipient intent) with
  | Err _ => decision Deny ReasonRecipientNotAllowed
  | Ok recipient =>
  if negb (bool_decide (recipient ∈ e_recipients e)) then decision Deny ReasonRecipientNotAllowed else
  if bool_decide (TrimSpace (ToLower (p_Category intent)) ∈ e_blockedCategories e)
  then decision Deny ReasonBlockedCategory else
  match policy_parsePositive "amount" (p_AmountAtomic intent) with
  | Err _ => decision Deny ReasonInvalidAmount
  | Ok amount =>
  if e_perActionLimit e <? amount then decision Deny ReasonPerActionLimit else
  match projectedTotal amount [sp_TaskSpentAtomic spend; sp_TaskReservedAtomic spend] with
  | None => decision Deny ReasonInvalidAmount
  | Some taskTotal =>
  if e_taskBudget e <? taskTotal then decision Deny ReasonTaskBudget else
  match projectedTotal amount [sp_DailySpentAtomic spend; sp_DailyReservedAtomic spend] with
  | None => decision Deny ReasonInvalidAmount
  | Some dailyTotal =>
  if e_dailyBudget e <? dailyTotal then decision Deny ReasonDailyBudget else
  if bool_decide (p_Rail intent ∈ e_approvalRequiredRails e)
  then decision RequireApproval ReasonRailRequiresApproval else
  if e_autoApproveThreshold e <? amount
  then decision RequireApproval ReasonHumanApprovalThreshold else
  decision AutoApprove ReasonAllowed
  end end end end end.
End Policy.

(** ** Facts *)

Lemma policy_parseNonNegative_iff name v n :
  policy_parseNonNegative name v = Ok n <-> amount v n.
Proof.
  rewrite <-nonneg_guards. unfold policy_parseNonNegative. rewrite !check_ok_iff. to_prop.
  destruct (SetString10 v) as [m|]; [rewrite check_ok_iff; to_prop|]; naive_solver.
Qed.

#[local] Opaque policy_parseNonNegative.

Lemma policy_parsePositive_iff name v n :
  policy_parsePositive name v = Ok n <-> amount v n /\ 0 < n.
Proof.
  unfold policy_parsePositive. rewrite try_ok_iff. setoid_rewrite policy_parseNonNegative_iff.
  setoid_rewrite check_ok_iff. split.
  - intros (m & Hm & Hz & [= ->]). to_prop. done.
  - intros [Hn ?]. exists n. to_prop. done.
Qed.

#[local] Opaque policy_parsePositive.

Lemma projectedTotal_iff a x y t :
  0 <= a ->
  projectedTotal a [x; y] = Some t <->
  exists m n, amount x m /\ amount y n /\ t = a + m + n /\ t < 2 ^ 256.
Proof.
  intros Ha. unfold projectedTotal, fits256. split.
  - intros Hp. destruct (policy_parseNonNegative _ x) as [m|] eqn:Ex; [|done].
    destruct (Z.ltb_spec (Z.abs (a + m)) (2 ^ 256)); [|done].
    destruct (policy_parseNonNegative _ y) as [n|] eqn:Ey; [|done].
    destruct (Z.ltb_spec (Z.abs (a + m + n)) (2 ^ 256)); [|done]. injection Hp as <-.
    apply policy_parseNonNegative_iff in Ex, Ey. exists m, n. split; [done|]. split; [done|]. lia.
  - intros (m & n & Hm & Hn & -> & Ht). destruct (Hm) as [_ Rm], (Hn) as [_ Rn].
    rewrite (proj2 (policy_parseNonNegative_iff _ x m) Hm), (proj2 (policy_parseNonNegative_iff _ y n) Hn).
    destruct (Z.ltb_spec (Z.abs (a + m)) (2 ^ 256)); [|lia].
    by destruct (Z.ltb_spec (Z.abs (a + m + n)) (2 ^ 256)); [|lia].
Qed.

#[local] Opaque projectedTotal.

(** A loop that checks elements and keeps them as they are. *)
Lemma collect_id {A} `{Countable A} (g : A -> res A) l s :
  (forall x y, g x = Ok y -> y = x) -> collect g l = Ok s ->
  Forall (fun x => is_ok (g x) = true) l /\ forall x, x ∈ s <-> x ∈ l.
Proof.
  intros Hg [Hl ->]%fold_res_set. split; [done|]. intros x.
  rewrite elem_of_union, elem_of_list_to_set, list_elem_of_omap, elem_of_empty.
  rewrite Forall_forall in Hl. split.
  - intros [(y & Hy & E)|[]]. destruct (g y) eqn:Ey; [|done]. injection E as ->. by rewrite (Hg _ _ Ey).
  - intros Hx. left. exists x. split; [done|]. specialize (Hl x Hx).
    destruct (g x) as [y|] eqn:Ex; [|done]. by rewrite (Hg _ _ Ex).
Qed.

Section PolicyFacts.
Context `{Unicode}.

Lemma canonicalAddress_id v w : canonicalAddress v = Ok w -> w = v.
Proof. unfold canonicalAddress. rewrite try_ok_iff. setoid_rewrite check_ok_iff. intros (x & _ & E & [= ->]). by to_prop. Qed.

Lemma blocked_category_collect l s :
  collect blocked_category l = Ok s ->
  forall c, c ∈ s <-> c ∈ map (fun x => TrimSpace (ToLower x)) l.
Proof.
  intros [Hl ->]%fold_res_set c.
  rewrite elem_of_union, elem_of_list_to_set, list_elem_of_omap, elem_of_empty, list_elem_of_fmap.
  rewrite Forall_forall in Hl. split.
  - intros [(y & Hy & E)|[]]. exists y. unfold blocked_category in E. split; [|done].
    by destruct (negb _); simplify_eq.
  - intros (y & -> & Hy). left. exists y. split; [done|]. specialize (Hl y Hy).
    unfold blocked_category in *. by destruct (negb _).
Qed.

(** What the engine knows of its configuration. *)
Record engine_of (cfg : PolicyConfig) (e : Engine) : Prop := {
  eng_version : e_version e = cfg_Version cfg;
  eng_enabled : e_enabled e = cfg_Enabled cfg;
  eng_chains c : c ∈ e_chains e <-> c ∈ cfg_AllowedChainIDs cfg;
  eng_rails r : r ∈ e_rails e <-> r ∈ cfg_AllowedRails cfg;
  eng_assets a : a ∈ e_assets e <-> a ∈ cfg_AllowedAssets cfg;
  eng_assets_ok : Forall (fun a => is_ok (canonicalAddress a) = true) (cfg_AllowedAssets cfg);
  eng_recipients a : a ∈ e_recipients e <-> a ∈ cfg_AllowedRecipients cfg;
  eng_recipients_ok : Forall (fun a => is_ok (canonicalAddress a) = true) (cfg_AllowedRecipients cfg);
  eng_blocked c : c ∈ e_blockedCategories e <->
                  c ∈ map (fun x => TrimSpace (ToLower x)) (cfg_BlockedCategories cfg);
  eng_approval r : r ∈ e_approvalRequiredRails e <-> r ∈ cfg_ApprovalRequiredRails cfg;
  eng_approval_sub r : r ∈ cfg_ApprovalRequiredRails cfg -> r ∈ cfg_AllowedRails cfg;
  eng_perAction : amount (cfg_PerActionLimitAtomic cfg) (e_perActionLimit e);
  eng_auto : amount (cfg_AutoApproveThresholdAtomic cfg) (e_autoApproveThreshold e);
  eng_task : amount (cfg_TaskBudgetAtomic cfg) (e_taskBudget e);
  eng_daily : amount (cfg_DailyBudgetAtomic cfg) (e_dailyBudget e);
  eng_order : e_autoApproveThreshold e <= e_perActionLimit e <= e_taskBudget e /\
              0 < e_perActionLimit e /\ e_taskBudget e <= e_dailyBudget e;
}.

Lemma policy_Compile_engine cfg e : policy_Compile cfg = Ok e -> engine_of cfg e.
Proof.
  unfold policy_Compile. intros Hc. go_inv.
  repeat match goal with
  | E : policy_parsePositive _ _ = Ok _ |- _ => apply policy_parsePositive_iff in E as [? ?]
  | E : policy_parseNonNegative _ _ = Ok _ |- _ => apply policy_parseNonNegative_iff in E
  | E : collect canonicalAddress _ = Ok _ |- _ =>
      apply collect_id in E as [? ?]; [|by apply canonicalAddress_id]
  | E : collect blocked_category _ = Ok _ |- _ =>
      pose proof (blocked_category_collect _ _ E); clear E
  | E : collect _ _ = Ok _ |- _ =>
      apply collect_id in E as [? ?];
        [|unfold allowed_chain, allowed_rail, approval_rail; intros ? ?;
          rewrite check_ok_iff; by intros [_ [= ->]]]
  end.
  to_prop. constructor; cbn; try done; try lia.
  intros r Hr.
  match goal with Hf : Forall (fun x => is_ok (approval_rail _ x) = true) _ |- _ =>
    rewrite Forall_forall in Hf; specialize (Hf r Hr); unfold approval_rail in Hf end.
  case_bool_decide; [|done]. naive_solver.
Qed.

(** ** The declarative policy *)

(** The intent is inside every boundary of the configuration. *)
Record permitted (cfg : PolicyConfig) (i : PolicyIntent) (s : SpendSnapshot) (a : Z) : Prop := {
  pm_enabled : cfg_Enabled cfg = true;
  pm_chain : p_ChainID i ∈ cfg_AllowedChainIDs cfg;
  pm_rail : p_Rail i ∈ cfg_AllowedRails cfg;
  pm_asset : p_Asset i ∈ cfg_AllowedAssets cfg;
  pm_recipient : p_Recipient i ∈ cfg_AllowedRecipients cfg;
  pm_category : TrimSpace (ToLower (p_Category i)) ∉
                map (fun x => TrimSpace (ToLower x)) (cfg_BlockedCategories cfg);
  pm_amount : amount (p_AmountAtomic i) a /\ 0 < a;
  pm_perAction : exists limit, amount (cfg_PerActionLimitAtomic cfg) limit /\ a <= limit;
  pm_task : exists spent reserved budget,
    amount (sp_TaskSpentAtomic s) spent /\ amount (sp_TaskReservedAtomic s) reserved /\
    amount (cfg_TaskBudgetAtomic cfg) budget /\ a + spent + reserved <= budget;
  pm_daily : exists spent reserved budget,
    amount (sp_DailySpentAtomic s) spent /\ amount (sp_DailyReservedAtomic s) reserved /\
    amount (cfg_DailyBudgetAtomic cfg) budget /\ a + spent + reserved <= budget;
}.

Lemma outcomes_distinct : Deny <> RequireApproval /\ Deny <> AutoApprove /\ RequireApproval <> AutoApprove.
Proof. done. Qed.

(** A projected total within a budget. *)
Lemma projected_budget a x y budget bound :
  0 <= a -> amount budget bound ->
  (exists t, projectedTotal a [x; y] = Some t /\ t <= bound) <->
  exists m n b, amount x m /\ amount y n /\ amount budget b /\ a + m + n <= b.
Proof.
  intros Ha Hb. setoid_rewrite projectedTotal_iff; [|done]. split.
  - intros (t & (m & n & Hm & Hn & -> & Ht) & Hle). exists m, n, bound. done.
  - intros (m & n & b & Hm & Hn & Hb' & Hle). rewrite (amount_inj _ _ _ Hb' Hb) in Hle.
    exists (a + m + n). split; [|done]. exists m, n. destruct Hb as [_ ?].
    do 3 (split; [done|]). lia.
Qed.

(** The decision after every denial test has passed. *)
Definition approving (e : Engine) (i : PolicyIntent) (a : Z) : Decision :=
  {| d_Outcome := if bool_decide (p_Rail i ∈ e_approvalRequiredRails e) then RequireApproval
                  else if e_autoApproveThreshold e <? a then RequireApproval else AutoApprove;
     d_Reason := if bool_decide (p_Rail i ∈ e_approvalRequiredRails e) then ReasonRailRequiresApproval
                 else if e_autoApproveThreshold e <? a then ReasonHumanApprovalThreshold else ReasonAllowed;
     d_PolicyVersion := e_version e |}.

Lemma Evaluate_permitted cfg e i s a :
  engine_of cfg e -> permitted cfg i s a -> Evaluate e i s = approving e i a.
Proof.
  intros He [Hen Hch Hra Has Hre Hca [Ham Hpos] (l & Hl & Hle) Ht Hd]. unfold Evaluate, approving.
  rewrite (eng_enabled _ _ He), Hen. cbn [negb].
  rewrite bool_decide_eq_true_2 by (by apply (eng_chains _ _ He)).
  rewrite bool_decide_eq_true_2 by (by apply (eng_rails _ _ He)). cbn [negb].
  pose proof (eng_assets_ok _ _ He) as Hao. rewrite Forall_forall in Hao. specialize (Hao _ Has).
  destruct (canonicalAddress (p_Asset i)) as [asset|] eqn:Ea; [|done].
  rewrite (canonicalAddress_id _ _ Ea), bool_decide_eq_true_2 by (by apply (eng_assets _ _ He)).
  pose proof (eng_recipients_ok _ _ He) as Hro. rewrite Forall_forall in Hro. specialize (Hro _ Hre).
  destruct (canonicalAddress (p_Recipient i)) as [recipient|] eqn:Er; [|done]. cbn [negb].
  rewrite (canonicalAddress_id _ _ Er), bool_decide_eq_true_2 by (by apply (eng_recipients _ _ He)).
  cbn [negb]. rewrite bool_decide_eq_false_2 by (by rewrite (eng_blocked _ _ He)).
  rewrite (proj2 (policy_parsePositive_iff _ _ a) (conj Ham Hpos)).
  rewrite (amount_inj _ _ _ (eng_perAction _ _ He) Hl). destruct (Z.ltb_spec l a); [lia|].
  apply (projected_budget a _ _ _ _ ltac:(lia) (eng_task _ _ He)) in Ht as (t & -> & Ht).
  destruct (Z.ltb_spec (e_taskBudget e) t); [lia|].
  apply (projected_budget a _ _ _ _ ltac:(lia) (eng_daily _ _ He)) in Hd as (d & -> & Hd).
  destruct (Z.ltb_spec (e_dailyBudget e) d); [lia|].
  case_bool_decide; [done|]. by destruct (_ <? a).
Qed.

Lemma Evaluate_not_denied cfg e i s :
  engine_of cfg e -> d_Outcome (Evaluate e i s) <> Deny -> exists a, permitted cfg i s a.
Proof.
  intros He. unfold Evaluate.
  destruct (e_enabled e) eqn:Hen; [cbn [negb]|done].
  case_bool_decide as Hch; [cbn [negb]|done]. case_bool_decide as Hra; [cbn [negb]|done].
  destruct (canonicalAddress (p_Asset i)) as [asset|] eqn:Ea; [|done].
  case_bool_decide as Has; [cbn [negb]|done].
  destruct (canonicalAddress (p_Recipient i)) as [recipient|] eqn:Er; [|done].
  case_bool_decide as Hre; [cbn [negb]|done]. case_bool_decide as Hca; [done|].
  destruct (policy_parsePositive _ _) as [a|] eqn:Ham; [|done].
  destruct (Z.ltb_spec (e_perActionLimit e) a); [done|].
  destruct (projectedTotal a _) as [t|] eqn:Ht; [|done].
  destruct (Z.ltb_spec (e_taskBudget e) t); [done|].
  destruct (projectedTotal a [sp_DailySpentAtomic s; _]) as [d|] eqn:Hd; [|done].
  destruct (Z.ltb_spec (e_dailyBudget e) d); [done|]. intros _. exists a.
  apply policy_parsePositive_iff in Ham as [Ham Hpos].
  apply canonicalAddress_id in Ea as ->. apply canonicalAddress_id in Er as ->.
  destruct He as [_ Een Ec Erl Eas _ Er _ Eb _ _ Ep _ Et Ed _].
  constructor; [congruence|by apply Ec|by apply Erl|by apply Eas|by apply Er|by rewrite <-Eb|done|eauto| |].
  - eapply projected_budget; [lia|done|eauto].
  - eapply projected_budget; [lia|done|eauto].
Qed.

(** a compiled policy lets an intent through exactly when it lies inside
    every configured boundary (chain, rail, asset, recipient, category,
    per-action limit, and the task and daily budgets with what is already
    spent and reserved), and approves it without a human exactly when, in
    addition, its rail needs no approval and its amount is within the
    auto-approval threshold. *)
Theorem policy_decision_exact cfg e i s :
  policy_Compile cfg = Ok e ->
  (d_Outcome (Evaluate e i s) <> Deny <-> exists a, permitted cfg i s a) /\
  (d_Outcome (Evaluate e i s) = AutoApprove <->
   exists a t, permitted cfg i s a /\ p_Rail i ∉ cfg_ApprovalRequiredRails cfg /\
               amount (cfg_AutoApproveThresholdAtomic cfg) t /\ a <= t).
Proof.
  intros He%policy_Compile_engine. destruct outcomes_distinct as (D1 & D2 & D3). split; split.
  - by apply Evaluate_not_denied.
  - intros [a Ha]. rewrite (Evaluate_permitted _ _ _ _ _ He Ha). cbn.
    case_bool_decide; [done|]. by destruct (_ <? a).
  - intros Ho. destruct (Evaluate_not_denied _ _ i s He) as [a Ha]; [congruence|].
    rewrite (Evaluate_permitted _ _ _ _ _ He Ha) in Ho. cbn in Ho.
    case_bool_decide as Hr; [done|]. destruct (Z.ltb_spec (e_autoApproveThreshold e) a); [done|].
    exists a, (e_autoApproveThreshold e). split; [done|]. rewrite <-(eng_approval _ _ He).
    split; [done|]. split; [apply (eng_auto _ _ He)|done].
  - intros (a & t & Ha & Hr & Ht & Hle). rewrite (Evaluate_permitted _ _ _ _ _ He Ha). cbn.
    rewrite bool_decide_eq_false_2 by (by rewrite (eng_approval _ _ He)).
    rewrite <-(amount_inj _ _ _ (eng_auto _ _ He) Ht) in Hle. by destruct (Z.ltb_spec (e_autoApproveThreshold e) a); [lia|].
Qed.
End PolicyFacts.

(** ** Witness *)

Section PolicyWitness.
#[local] Existing Instance ToyUnicode.

Definition demo_policy : PolicyConfig := {|
  cfg_Version := "policy_1"; cfg_Enabled := true; cfg_AllowedChainIDs := [8453];
  cfg_AllowedRails := [RailX402; RailDirect; RailEscrow]; cfg_AllowedAssets := [demo_asset];
  cfg_AllowedRecipients := [demo_provider]; cfg_BlockedCategories := ["gambling"];
  cfg_ApprovalRequiredRails := [RailDirect]; cfg_PerActionLimitAtomic := "5000";
  cfg_AutoApproveThresholdAtomic := "1000"; cfg_TaskBudgetAtomic := "10000";
  cfg_DailyBudgetAtomic := "20000"; cfg_CategoryDailyBudgetAtomic := "";
  cfg_LifetimeBudgetAtomic := "900000"; cfg_OrganizationDailyBudgetAtomic := "" |}.

Definition demo_policy_intent : PolicyIntent := {|
  p_OrganizationID := "org_1"; p_CustomerID := "cust_1"; p_AgentID := "agent_1";
  p_TaskID := "task_1"; p_ActionID := "act_1"; p_Rail := RailEscrow; p_ChainID := 8453;
  p_Recipient := demo_provider; p_Asset := demo_asset; p_AmountAtomic := "1000";
  p_Resource := "https://seller.example/quote"; p_Category := "Data" |}.

Definition demo_spend : SpendSnapshot := {|
  sp_TaskSpentAtomic := "3000"; sp_TaskReservedAtomic := "6000";
  sp_DailySpentAtomic := "3000"; sp_DailyReservedAtomic := "6000" |}.

Definition demo_engine : Engine :=
  match policy_Compile demo_policy with
  | Ok e => e
  | Err _ => mkEngine "" false ∅ ∅ ∅ ∅ ∅ ∅ 0 0 0 0
  end.

Lemma policy_decision_exact_witness :
  exists a, permitted demo_policy demo_policy_intent demo_spend a.
Proof.
  apply (policy_decision_exact demo_policy demo_engine); vm_compute; [reflexivity|discriminate].
Defined.
End PolicyWitness.
