(* ===== verification/Reservation.v ===== *)
(** * Budget reservations ([internal/ascpreservation/reservation.go])

    The store maps an operation to its reservation; [Reserve] claims budget in
    every dimension of a request, [Transition] moves one reservation along its
    state machine. The mutex makes each call one atomic step. *)
From stdpp Require Import base gmap strings list fin_maps.
From Stdlib Require Import ZArith Lia Ascii.
From S2P Require Import Prelude GoText GoJSON Amounts.

Open Scope Z_scope.

Abbreviation RState := string (only parsing).
Definition Reserved : RState := "RESERVED".
Definition AuthorizationLive : RState := "AUTHORIZATION_LIVE".
Definition CommittedSafe : RState := "COMMITTED_SAFE".
Definition CommittedFinalized : RState := "COMMITTED_FINALIZED".
Definition Consumed : RState := "CONSUMED_ON_RELEASE".
Definition Restored : RState := "RESTORED_ON_REFUND".
Definition Released : RState := "RELEASED".
Definition ReleasedAfterExpiry : RState := "RELEASED_AFTER_EXPIRY_PROOF".
Definition ReorgedBack : RState := "REORGED_BACK".

Definition ErrBudgetExceeded : error := "budget reservation exceeds a dimension limit".
Definition ErrTransition : error := "invalid reservation state transition".
Definition ErrDuplicate : error := "reservation already exists for operation".

Record Dimension := mkDimension {
  dim_ID : string;
  dim_Limit : string;
  dim_Refundable : bool;
}.

Record ReserveRequest := mkReserveRequest {
  rq_ReservationID : string;
  rq_OperationID : string;
  rq_Amount : string;
  rq_Dimensions : list Dimension;
  rq_ExpiresAt : time;
}.

Record Reservation := mkReservation {
  rv_Request : ReserveRequest;
  rv_State : RState;
  rv_CreatedAt : time;
}.

Abbreviation Store := (gmap string Reservation) (only parsing).
Definition NewStore : Store := ∅.

(** [number]: a positive integer of at most 256 bits; [None] when [ok] is
    false. A sign ["+"] passes, a leading zero does not. *)
Definition number (v : string) : option Z :=
  match v with
  | EmptyString => None
  | String c _ =>
      if code c =? 48 then None else
      match SetString10 v with
      | None => None
      | Some n => if (0 <? n) && fits256 n then Some n else None
      end
  end.

Fixpoint includes (ds : list Dimension) (id : string) : bool :=
  match ds with
  | [] => false
  | d :: ds => if bool_decide (dim_ID d = id) then true else includes ds id
  end.

(** The states whose amount counts against a dimension. *)
Definition counted (s : RState) : bool :=
  bool_decide (s = Reserved) || bool_decide (s = AuthorizationLive) ||
  bool_decide (s = CommittedSafe) || bool_decide (s = CommittedFinalized) ||
  bool_decide (s = Consumed).

(** What one stored reservation takes from the dimension [id]. *)
Definition usage (id : string) (current : Reservation) : Z :=
  if counted (rv_State current) && includes (rq_Dimensions (rv_Request current)) id
  then default 0 (number (rq_Amount (rv_Request current))) else 0.

(** The loop over the store inside [Reserve]: what the dimension has in use. *)
Definition used (s : Store) (id : string) : Z := map_sum (fun _ r => usage id r) s.

(** One iteration of the loop over the request's dimensions. *)
Definition check_dimension (s : Store) (amount : Z) (d : Dimension) : res unit :=
  match number (dim_Limit d) with
  | None => Err ErrBudgetExceeded
  | Some limit =>
      check negb (bool_decide (dim_ID d = "")) && (amount <=? limit) else ErrBudgetExceeded ;;
      check amount <=? limit - used s (dim_ID d) else ErrBudgetExceeded ;;
      Ok tt
  end.

(** The new store and the reservation returned, or the error. *)
Definition Reserve (s : Store) (request : ReserveRequest) (now : time) : res (Store * Reservation) :=
  match number (rq_Amount request) with
  | None => Err ErrTransition
  | Some amount =>
      check negb (bool_decide (rq_OperationID request = "")) &&
            negb (bool_decide (rq_ReservationID request = "")) &&
            negb (bool_decide (rq_Dimensions request = [])) &&
            time_after (rq_ExpiresAt request) now
        else ErrTransition ;;
      check bool_decide (s !! rq_OperationID request = None) else ErrDuplicate ;;
      try _ := fold_res (fun _ d => check_dimension s amount d) tt (rq_Dimensions request) in
      let r := {| rv_Request := request; rv_State := Reserved; rv_CreatedAt := now |} in
      Ok (<[rq_OperationID request := r]> s, r)
  end.

Definition allowed (from to : RState) (now expiry : time) : bool :=
  if bool_decide (from = Reserved) then
    bool_decide (to = AuthorizationLive) ||
    bool_decide (to = Released) && negb (time_before now expiry)
  else if bool_decide (from = AuthorizationLive) then
    bool_decide (to = CommittedSafe) || bool_decide (to = ReleasedAfterExpiry)
  else if bool_decide (from = CommittedSafe) then
    bool_decide (to = CommittedFinalized) || bool_decide (to = ReorgedBack)
  else if bool_decide (from = CommittedFinalized) then
    bool_decide (to = Consumed) || bool_decide (to = Restored) || bool_decide (to = ReorgedBack)
  else if bool_decide (from = ReorgedBack) then
    bool_decide (to = AuthorizationLive) || bool_decide (to = Reserved)
  else false.

Definition set_state (r : Reservation) (target : RState) : Reservation :=
  {| rv_Request := rv_Request r; rv_State := target; rv_CreatedAt := rv_CreatedAt r |}.

Definition Transition (s : Store) (operation : string) (target : RState) (now : time)
    : res (Store * Reservation) :=
  match s !! operation with
  | None => Err ErrTransition
  | Some r =>
      check allowed (rv_State r) target now (rq_ExpiresAt (rv_Request r)) else ErrTransition ;;
      Ok (<[operation := set_state r target]> s, set_state r target)
  end.

(** ** Facts *)

Lemma number_pos v n : number v = Some n -> 0 < n < 2 ^ 256.
Proof.
  unfold number, fits256. destruct v as [|c r]; [done|]. destruct (code c =? 48); [done|].
  destruct (SetString10 _) as [m|]; [|done]. destruct (0 <? m) eqn:E0; [|done].
  destruct (Z.abs m <? 2 ^ 256) eqn:E1; [|done]. intros [= <-]. to_prop. lia.
Qed.

Lemma usage_nonneg id r : 0 <= usage id r.
Proof.
  unfold usage. destruct (_ && _); [|done].
  destruct (number _) as [n|] eqn:E; [|done]. apply number_pos in E. cbn. lia.
Qed.

Lemma used_nonneg s id : 0 <= used s id.
Proof. apply map_sum_nonneg. intros. apply usage_nonneg. Qed.

Lemma includes_In ds id : includes ds id = true <-> exists d, d ∈ ds /\ dim_ID d = id.
Proof.
  induction ds as [|d ds IH]; cbn [includes].
  - split; [done|]. intros (d & Hd & _). by apply elem_of_nil in Hd.
  - case_bool_decide as E.
    + split; [|done]. intros _. exists d. split; [constructor|done].
    + rewrite IH. split.
      * intros (d' & Hd' & Ei). exists d'. split; [by constructor|done].
      * intros (d' & [->|Hd']%elem_of_cons & Ei); [done|eauto].
Qed.

Lemma check_dimension_iff s a d :
  check_dimension s a d = Ok tt <->
  dim_ID d <> "" /\ exists limit, number (dim_Limit d) = Some limit /\ a + used s (dim_ID d) <= limit.
Proof.
  unfold check_dimension. pose proof (used_nonneg s (dim_ID d)).
  destruct (number (dim_Limit d)) as [limit|]; [|naive_solver].
  rewrite !check_ok_iff. to_prop. split.
  - intros ([? ?] & ? & _). split; [done|]. exists limit. split; [done|lia].
  - intros (? & l & [= <-] & ?). repeat split; [done|lia|lia].
Qed.

(** The request a successful [Reserve] admits, and the store it leaves. *)
Record admitted (s : Store) (q : ReserveRequest) (now : time) (a : Z) : Prop := {
  ad_amount : number (rq_Amount q) = Some a;
  ad_operation : rq_OperationID q <> "";
  ad_reservation : rq_ReservationID q <> "";
  ad_dimensions : rq_Dimensions q <> [];
  ad_expiry : now < rq_ExpiresAt q;
  ad_fresh : s !! rq_OperationID q = None;
  ad_budget : Forall (fun d => dim_ID d <> "" /\ exists limit,
                number (dim_Limit d) = Some limit /\ a + used s (dim_ID d) <= limit) (rq_Dimensions q);
}.

Lemma Reserve_iff s q now s' r :
  Reserve s q now = Ok (s', r) <->
  (exists a, admitted s q now a) /\
  r = {| rv_Request := q; rv_State := Reserved; rv_CreatedAt := now |} /\
  s' = <[rq_OperationID q := r]> s.
Proof.
  unfold Reserve. destruct (number (rq_Amount q)) as [a|] eqn:Ea.
  2:{ split; [done|]. intros [(a & [? _ _ _ _ _ _]) _]. congruence. }
  rewrite !check_ok_iff, try_unit_iff, fold_res_check. to_prop. unfold time_after. split.
  - intros ((((? & ?) & ?) & ?) & Hf & Hd & [= <- <-]). to_prop. split; [|done]. exists a.
    constructor; try done. eapply Forall_impl; [exact Hd|]. intros d. apply check_dimension_iff.
  - intros [(a' & [Ea' ? ? ? ? ? Hb]) [-> ->]]. assert (a' = a) as -> by congruence. to_prop.
    repeat split; try done. eapply Forall_impl; [exact Hb|]. intros d. apply check_dimension_iff.
Qed.

Lemma Transition_iff s op target now s' r :
  Transition s op target now = Ok (s', r) <->
  exists r0, s !! op = Some r0 /\
    allowed (rv_State r0) target now (rq_ExpiresAt (rv_Request r0)) = true /\
    r = set_state r0 target /\ s' = <[op := r]> s.
Proof.
  unfold Transition. destruct (s !! op) as [r0|]; [|naive_solver].
  rewrite check_ok_iff. naive_solver.
Qed.

(** ** The state machine as a step relation *)

Section Steps.
(** The limit of each dimension, the same in every request. *)
Context (lim : string -> Z).

(** [reentry] allows the transitions out of [ReorgedBack]. *)
Inductive rstep (reentry : bool) : Store -> Store -> Prop :=
| step_reserve s q now s' r :
    Reserve s q now = Ok (s', r) ->
    Forall (fun d => number (dim_Limit d) = Some (lim (dim_ID d))) (rq_Dimensions q) ->
    rstep reentry s s'
| step_transition s op target now s' r :
    Transition s op target now = Ok (s', r) ->
    (reentry = false -> forall r0, s !! op = Some r0 -> rv_State r0 <> ReorgedBack) ->
    rstep reentry s s'.

(** Leaving the counted states, or moving between them, never adds usage. *)
Lemma allowed_counted from to now expiry :
  from <> ReorgedBack -> allowed from to now expiry = true -> counted to = true -> counted from = true.
Proof.
  intros Hf. unfold allowed. repeat (case_bool_decide; [subst; done|]). done.
Qed.

Lemma usage_transition id r target now :
  rv_State r <> ReorgedBack ->
  allowed (rv_State r) target now (rq_ExpiresAt (rv_Request r)) = true ->
  usage id (set_state r target) <= usage id r.
Proof.
  intros Hr Ha. unfold usage. cbn [set_state rv_State rv_Request].
  destruct (counted target) eqn:Et; [by rewrite (allowed_counted _ _ _ _ Hr Ha Et)|].
  apply (usage_nonneg id r).
Qed.

Definition within_limits (s : Store) : Prop := forall id, used s id <= lim id.

Lemma rstep_within s s' : within_limits s -> rstep false s s' -> within_limits s'.
Proof.
  intros Hw Hs id. specialize (Hw id).
  destruct Hs as [s q now s' r Hr Hl|s op target now s' r Ht Hn].
  - apply Reserve_iff in Hr as [(a & [Ea _ _ _ _ Hf Hb]) [-> ->]].
    unfold used. rewrite map_sum_insert_new by done. fold (used s id).
    unfold usage. cbn [rv_State rv_Request]. change (counted Reserved) with true. cbn [andb].
    destruct (includes (rq_Dimensions q) id) eqn:Ei; [|lia].
    apply includes_In in Ei as (d & Hd & <-). rewrite Forall_forall in Hb, Hl.
    destruct (Hb d Hd) as (_ & limit & El & Hle). rewrite (Hl d Hd) in El.
    injection El as <-. rewrite Ea. cbn. lia.
  - apply Transition_iff in Ht as (r0 & Hlk & Ha & -> & ->).
    unfold used. rewrite (map_sum_insert_upd _ _ _ r0) by done. fold (used s id).
    pose proof (usage_transition id r0 target now (Hn eq_refl r0 Hlk) Ha). lia.
Qed.
End Steps.

(** The states nothing leads out of. *)
Definition terminal (s : RState) : bool :=
  bool_decide (s = Consumed) || bool_decide (s = Restored) ||
  bool_decide (s = Released) || bool_decide (s = ReleasedAfterExpiry).

Lemma terminal_not_allowed from to now expiry :
  terminal from = true -> allowed from to now expiry = false.
Proof. unfold terminal. repeat (case_bool_decide; [subst; done|]). done. Qed.

(** What later steps may do to a stored reservation: nothing to its request,
    and nothing at all once its state is terminal. *)
Lemma rstep_keeps lim b s s' op r :
  rstep lim b s s' -> s !! op = Some r ->
  exists r', s' !! op = Some r' /\ rv_Request r' = rv_Request r /\ rv_CreatedAt r' = rv_CreatedAt r /\
             (terminal (rv_State r) = true -> r' = r).
Proof.
  intros Hs Hop. destruct Hs as [s q now s' r' Hr _|s op' target now s' r' Ht _].
  - apply Reserve_iff in Hr as [(a & [_ _ _ _ _ Hf _]) [_ ->]]. exists r.
    rewrite lookup_insert_ne by congruence. done.
  - apply Transition_iff in Ht as (r0 & Hlk & Ha & -> & ->).
    destruct (decide (op = op')) as [->|Hne]; [|exists r; by rewrite lookup_insert_ne].
    rewrite lookup_insert_eq. assert (r0 = r) as -> by congruence. eexists. repeat split.
    intros Ht. by rewrite terminal_not_allowed in Ha.
Qed.

(** ** Properties *)

(** [Reserve] admits a request exactly when it is well formed, its operation
    is new, and its amount fits beside what every one of its dimensions already
    has in use; it then stores it as [Reserved] and changes nothing else. *)
Theorem reserve_exact s q now s' r :
  Reserve s q now = Ok (s', r) <->
  (exists a, admitted s q now a) /\
  r = {| rv_Request := q; rv_State := Reserved; rv_CreatedAt := now |} /\
  s' = <[rq_OperationID q := r]> s.
Proof. apply Reserve_iff. Qed.

(** along every sequence of reservations and transitions that never leaves
    [ReorgedBack], no dimension is ever used beyond its limit. *)
Theorem reservation_budget_invariant lim s :
  (forall id, 0 <= lim id) -> rtc (rstep lim false) NewStore s ->
  forall id, used s id <= lim id.
Proof.
  intros Hlim Hs. change (within_limits lim s).
  assert (H0 : within_limits lim NewStore).
  { intros id. unfold used, NewStore. rewrite map_sum_empty. apply Hlim. }
  induction Hs as [s|s1 s2 s3 Hstep _ IH]; [done|]. apply IH. by eapply rstep_within.
Qed.

(** along every sequence of steps, a stored reservation keeps its request
    and creation time, and one that reached a terminal state keeps everything. *)
Theorem reservation_history lim s s' op r :
  rtc (rstep lim true) s s' -> s !! op = Some r ->
  exists r', s' !! op = Some r' /\ rv_Request r' = rv_Request r /\ rv_CreatedAt r' = rv_CreatedAt r /\
             (terminal (rv_State r) = true -> r' = r).
Proof.
  intros Hs. revert r. induction Hs as [s|s1 s2 s3 Hstep _ IH]; intros r Hop; [eauto|].
  destruct (rstep_keeps _ _ _ _ _ _ Hstep Hop) as (r1 & H1 & Eq1 & Ec1 & Et1).
  destruct (IH r1 H1) as (r2 & H2 & Eq2 & Ec2 & Et2). exists r2.
  repeat split; [done|congruence|congruence|]. intros Ht. rewrite Et2, Et1; auto.
  by rewrite Et1.
Qed.

(** ** Runs *)

Inductive rop :=
| OpReserve (q : ReserveRequest)
| OpTransition (op : string) (target : RState).

(** Run operations at one instant, stopping at the first error. *)
Definition run_op (now : time) (s : Store) (o : rop) : res Store :=
  match o with
  | OpReserve q => try p := Reserve s q now in Ok p.1
  | OpTransition op target => try p := Transition s op target now in Ok p.1
  end.

Definition demo_now : time := time_of_unix 1800000000.
Definition demo_request (id amount : string) (ds : list Dimension) : ReserveRequest :=
  {| rq_ReservationID := "r" +:+ id; rq_OperationID := id; rq_Amount := amount;
     rq_Dimensions := ds; rq_ExpiresAt := demo_now + 15 * Minute |}.
Definition task10 : Dimension := {| dim_ID := "task"; dim_Limit := "10"; dim_Refundable := true |}.
Definition lifetime10 : Dimension := {| dim_ID := "lifetime"; dim_Limit := "10"; dim_Refundable := false |}.

Definition run (ops : list rop) : res Store := fold_res (run_op demo_now) NewStore ops.

(** leaving [ReorgedBack] re-enters a counted state without a budget check:
    two operations of 10 fill a dimension of limit 10 twice over. *)
Theorem reorg_reentry_overspends :
  exists s, run [OpReserve (demo_request "o1" "10" [task10]);
                 OpTransition "o1" AuthorizationLive; OpTransition "o1" CommittedSafe;
                 OpTransition "o1" ReorgedBack;
                 OpReserve (demo_request "o2" "10" [task10]);
                 OpTransition "o1" AuthorizationLive] = Ok s /\
            number (dim_Limit task10) = Some 10 /\ used s "task" = 20.
Proof. eexists. split; [vm_compute; reflexivity|]. split; vm_compute; reflexivity. Qed.

(** A refund frees the budget of every dimension of the reservation, also
    of one that is not marked refundable. *)
Theorem refund_frees_nonrefundable :
  exists s, run [OpReserve (demo_request "o1" "10" [lifetime10]);
                 OpTransition "o1" AuthorizationLive; OpTransition "o1" CommittedSafe;
                 OpTransition "o1" CommittedFinalized; OpTransition "o1" Restored;
                 OpReserve (demo_request "o2" "10" [lifetime10])] = Ok s /\
            dim_Refundable lifetime10 = false /\ used s "lifetime" = 10.
Proof. eexists. split; [vm_compute; reflexivity|]. split; vm_compute; reflexivity. Qed.

(** ** Witnesses *)

Definition demo_lim (id : string) : Z := 10.
Definition demo_store : Store :=
  <["o1" := {| rv_Request := demo_request "o1" "7" [task10]; rv_State := Reserved; rv_CreatedAt := demo_now |}]> ∅.

Lemma demo_store_reachable b : rtc (rstep demo_lim b) NewStore demo_store.
Proof.
  eapply rtc_l; [|apply rtc_refl].
  apply (step_reserve demo_lim b NewStore (demo_request "o1" "7" [task10]) demo_now demo_store
    {| rv_Request := demo_request "o1" "7" [task10]; rv_State := Reserved; rv_CreatedAt := demo_now |}).
  - vm_compute. reflexivity.
  - repeat constructor.
Qed.

Lemma reservation_budget_invariant_witness : used demo_store "task" <= 10.
Proof.
  apply (reservation_budget_invariant demo_lim demo_store); [unfold demo_lim; lia|].
  apply demo_store_reachable.
Defined.

Lemma reservation_history_witness :
  exists r', demo_store !! "o1" = Some r' /\ rq_Amount (rv_Request r') = "7".
Proof.
  destruct (reservation_history demo_lim demo_store demo_store "o1"
    {| rv_Request := demo_request "o1" "7" [task10]; rv_State := Reserved; rv_CreatedAt := demo_now |})
    as (r' & H & E & _); [apply rtc_refl|vm_compute; reflexivity|].
  exists r'. split; [exact H|]. rewrite E. reflexivity.
Defined.
