(* ===== verification/Journal.v ===== *)
(** * The hash-chained event journal ([internal/controlplane/journal.go] and
    [postgres_journal.go])

    Two implementations of the same append-only stream: a locked file of JSON
    lines, and a PostgreSQL table. [EventJournal] is the interface the
    lifecycle is written against; the two instances are at the end of the file.

    A payload is kept as the Go value that was marshalled; [payload_json] is its
    text. The file is a sequence of lines; a line the process wrote is the event
    it encodes, a failed write may leave a fragment. What the operating system
    and the database answer is an argument of the operation. *)
From stdpp Require Import base gmap strings list fin_maps.
From Stdlib Require Import ZArith Lia Ascii.
From S2P Require Import Prelude GoText GoJSON Crypto.

Open Scope Z_scope.

(** ** Events *)

Definition journalVersion : Z := 1.

Record Event (P : Type) := mkEvent {
  ev_Version : Z;
  ev_Sequence : Z;
  ev_At : Z;
  ev_Kind : string;
  ev_RequestID : string;
  ev_PreviousHash : string;
  ev_Payload : P;
  ev_Hash : string;
}.
Arguments mkEvent {P} _ _ _ _ _ _ _ _.
Arguments ev_Version {P} _.
Arguments ev_Sequence {P} _.
Arguments ev_At {P} _.
Arguments ev_Kind {P} _.
Arguments ev_RequestID {P} _.
Arguments ev_PreviousHash {P} _.
Arguments ev_Payload {P} _.
Arguments ev_Hash {P} _.

(** The JSON text of a payload: a struct, so never empty. *)
Class PayloadJSON (P : Type) := {
  payload_json : P -> string;
  payload_json_struct p : exists body, payload_json p = "{" +:+ body;
}.

Section Journal.
Context `{Crypto} {P : Type} `{PayloadJSON P}.
Implicit Types (e : Event P) (es : list (Event P)).

(** The members of [eventHashInput], in declaration order. *)
Definition hash_members e : list (string * option string) :=
  [("version", Some (json_int (ev_Version e)));
   ("sequence", Some (json_int (ev_Sequence e)));
   ("at", Some (json_int (ev_At e)));
   ("kind", Some (json_string (ev_Kind e)));
   ("requestId", Some (json_string (ev_RequestID e)));
   ("previousHash", Some (json_string (ev_PreviousHash e)));
   ("payload", Some (payload_json (ev_Payload e)))].

Definition hashEvent e : string := hex_encode (sha256 (json_object (hash_members e))).

Definition json_event e : string :=
  json_object (hash_members e ++ [("hash", Some (json_string (ev_Hash e)))]).

Definition validateEvent e (expectedSequence : Z) (previousHash : string) : res unit :=
  check ev_Version e =? journalVersion else "version is unsupported" ;;
  check ev_Sequence e =? expectedSequence else "unexpected sequence" ;;
  check (0 <? ev_At e) && negb (bool_decide (ev_Kind e = "")) &&
        negb (bool_decide (ev_RequestID e = "")) &&
        negb (bool_decide (payload_json (ev_Payload e) = ""))
    else "required event field is empty" ;;
  check bool_decide (ev_PreviousHash e = previousHash)
    else "previous hash does not match journal chain" ;;
  check bool_decide (ev_Hash e = hashEvent e) else "event hash does not match content" ;;
  Ok tt.

(** The event [Append] builds after the head [(sequence, lastHash)]. *)
Definition new_event (sequence : Z) (lastHash : string) (at_ : time) (kind requestID : string)
    (payload : P) : Event P :=
  let draft hash := {| ev_Version := journalVersion; ev_Sequence := sequence; ev_At := Unix at_;
    ev_Kind := kind; ev_RequestID := requestID; ev_PreviousHash := lastHash;
    ev_Payload := payload; ev_Hash := hash |} in
  draft (hashEvent (draft "")).

(** ** The file *)

(** A line of the file: an event with its newline, an event whose newline is
    missing (only ever last), or a fragment that is no JSON event. *)
Inductive line :=
| Line (e : Event P)
| Unterminated (e : Event P)
| Fragment.

(** What a write of one line left in the file when it did not succeed. *)
Inductive residue := LeftNothing | LeftFragment | LeftUnterminated | LeftLine.

Inductive write_io :=
| WriteFails (m : error) (remains : residue)
| ShortWrite (remains : residue)
| SyncFails (m : error)
| Written.

(** A write continues the last line unless it was terminated. *)
Definition write_at_end (file : list line) (l : line) : list line :=
  match last file with
  | None | Some (Line _) => file ++ [l]
  | Some _ => removelast file ++ [Fragment]
  end.

Definition write_residue (file : list line) e (remains : residue) : list line :=
  match remains with
  | LeftNothing => file
  | LeftFragment => write_at_end file Fragment
  | LeftUnterminated => write_at_end file (Unterminated e)
  | LeftLine => write_at_end file (Line e)
  end.

Record Journal := mkJournal {
  j_open : bool;
  j_file : list line;
  j_events : list (Event P);
  j_lastHash : string;
  j_fault : option error;
}.

(** [json.Unmarshal] of a line that encodes [e]: strings come back as valid
    UTF-8, the raw payload as it was. *)
Definition unmarshal_event e : Event P :=
  {| ev_Version := ev_Version e; ev_Sequence := ev_Sequence e; ev_At := ev_At e;
     ev_Kind := utf8_coerce (ev_Kind e); ev_RequestID := utf8_coerce (ev_RequestID e);
     ev_PreviousHash := utf8_coerce (ev_PreviousHash e); ev_Payload := ev_Payload e;
     ev_Hash := utf8_coerce (ev_Hash e) |}.

(** [scanner.Buffer(..., 4*1024*1024)]: a longer line stops the scanner. *)
Definition maxToken : Z := 4 * 1024 * 1024.
Definition fits_scanner e : bool := str_len (json_event e) + 1 <=? maxToken.

Definition replay_line (st : list (Event P) * string) (l : line) : res (list (Event P) * string) :=
  let '(events, lastHash) := st in
  match l with
  | Fragment => Err "journal line is invalid JSON"
  | Line e | Unterminated e =>
      check fits_scanner e else "read journal: token too long" ;;
      let event := unmarshal_event e in
      try _ := validateEvent event (Z.of_nat (length events) + 1) lastHash in
      Ok (events ++ [event], ev_Hash event)
  end.

Definition journal_replay (file : list line) : res (list (Event P) * string) :=
  fold_res replay_line ([], "") file.

(** [io]: the failure of opening, locking or seeking the file, if any. *)
Definition OpenJournal (path : string) (io : option error) (file : list line) : res Journal :=
  check negb (bool_decide (TrimSpace path = "")) else "journal path is required" ;;
  match io with
  | Some m => Err m
  | None =>
      try st := journal_replay file in
      Ok {| j_open := true; j_file := file; j_events := st.1; j_lastHash := st.2; j_fault := None |}
  end.

Definition set_fault (j : Journal) (file : list line) (m : error) : Journal :=
  {| j_open := j_open j; j_file := file; j_events := j_events j;
     j_lastHash := j_lastHash j; j_fault := Some m |}.

Definition Journal_Append (j : Journal) (ctx : option error) (io : write_io)
    (at_ : time) (kind requestID : string) (payload : P) : Journal * res (Event P) :=
  match ctx with
  | Some m => (j, Err m)
  | None =>
  if bool_decide (kind = "") || bool_decide (requestID = "") || contains_crlftab (kind +:+ requestID)
  then (j, Err "event kind or request ID is invalid") else
  if negb (j_open j) then (j, Err "journal is closed") else
  match j_fault j with
  | Some m => (j, Err m)
  | None =>
  let event := new_event (Z.of_nat (length (j_events j)) + 1) (j_lastHash j) at_ kind requestID payload in
  match validateEvent event (ev_Sequence event) (j_lastHash j) with
  | Err m => (j, Err m)
  | Ok _ =>
  match io with
  | WriteFails m remains => (set_fault j (write_residue (j_file j) event remains) m, Err m)
  | ShortWrite remains =>
      (set_fault j (write_residue (j_file j) event remains) "short write", Err "append event: short write")
  | SyncFails m => (set_fault j (write_at_end (j_file j) (Line event)) m, Err m)
  | Written =>
      ({| j_open := true; j_file := write_at_end (j_file j) (Line event);
          j_events := j_events j ++ [event]; j_lastHash := ev_Hash event; j_fault := None |}, Ok event)
  end end end end.

Definition Journal_Events (j : Journal) : list (Event P) := j_events j.

Definition Journal_Close (j : Journal) : Journal :=
  {| j_open := false; j_file := j_file j; j_events := j_events j;
     j_lastHash := j_lastHash j; j_fault := j_fault j |}.

(** ** The PostgreSQL table *)

(** One process: what it loaded and appended, and its fault. The table itself
    is shared between processes. *)
Record PostgresJournal := mkPostgresJournal {
  pg_events : list (Event P);
  pg_lastHash : string;
  pg_fault : option error;
}.

Definition ErrJournalStale : error := "control-plane journal changed in another process".

(** The serializable transaction: it fails before the head is read, on the
    insert, or on commit (with the row committed or not), or succeeds. *)
Inductive tx_io :=
| TxFails (m : error)
| InsertFails (m : error)
| CommitFails (m : error) (applied : bool)
| Committed.

(** The row [ORDER BY sequence DESC LIMIT 1]; [(0, "")] when there is none. *)
Definition table_head (table : list (Event P)) : Z * string :=
  match last table with
  | None => (0, "")
  | Some e => (ev_Sequence e, ev_Hash e)
  end.

Definition scan_row (st : list (Event P) * string) e : res (list (Event P) * string) :=
  let '(events, lastHash) := st in
  let event := mkEvent journalVersion (ev_Sequence e) (ev_At e) (ev_Kind e) (ev_RequestID e)
                 (ev_PreviousHash e) (ev_Payload e) (ev_Hash e) in
  try _ := validateEvent event (Z.of_nat (length events) + 1) lastHash in
  Ok (events ++ [event], ev_Hash event).

Definition OpenPostgresJournal (io : option error) (table : list (Event P)) : res PostgresJournal :=
  match io with
  | Some m => Err m
  | None =>
      try st := fold_res scan_row ([], "") table in
      Ok {| pg_events := st.1; pg_lastHash := st.2; pg_fault := None |}
  end.

Definition pg_set_fault (j : PostgresJournal) (m : error) : PostgresJournal :=
  {| pg_events := pg_events j; pg_lastHash := pg_lastHash j; pg_fault := Some m |}.

Definition PostgresJournal_Append (table : list (Event P)) (j : PostgresJournal)
    (ctx : option error) (io : tx_io) (at_ : time) (kind requestID : string) (payload : P)
    : list (Event P) * PostgresJournal * res (Event P) :=
  match ctx with
  | Some m => (table, j, Err m)
  | None =>
  if bool_decide (kind = "") || bool_decide (requestID = "")
  then (table, j, Err "event kind and request ID are required") else
  match pg_fault j with
  | Some m => (table, j, Err m)
  | None =>
  match io with
  | TxFails m => (table, j, Err m)
  | _ =>
  let '(databaseSequence, databaseHash) := table_head table in
  if negb ((databaseSequence =? Z.of_nat (length (pg_events j))) &&
           bool_decide (databaseHash = pg_lastHash j))
  then (table, pg_set_fault j ErrJournalStale, Err ErrJournalStale) else
  let event := new_event (databaseSequence + 1) databaseHash at_ kind requestID payload in
  match validateEvent event (ev_Sequence event) databaseHash with
  | Err m => (table, j, Err m)
  | Ok _ =>
  match io with
  | TxFails m | InsertFails m => (table, j, Err m)
  | CommitFails m applied =>
      (if applied then table ++ [event] else table, pg_set_fault j m, Err m)
  | Committed =>
      (table ++ [event],
       {| pg_events := pg_events j ++ [event]; pg_lastHash := ev_Hash event; pg_fault := None |},
       Ok event)
  end end end end end.

End Journal.

Arguments line P : clear implicits.
Arguments Journal P : clear implicits.
Arguments PostgresJournal P : clear implicits.

(** ** The interface *)

(** [E] is what the environment answers to one append. *)
Class EventJournal (J E P : Type) := {
  ej_Append : J -> option error -> E -> time -> string -> string -> P -> J * res (Event P);
  ej_Events : J -> list (Event P);
}.

(** What the lifecycle relies on: a successful append adds exactly the event it
    returns, carrying what was asked for; a failed one adds nothing to the
    stream this process sees. *)
Class EventJournalLaws (J E P : Type) `{EventJournal J E P} := {
  append_ok j ctx env at_ kind requestID payload j' e :
    ej_Append j ctx env at_ kind requestID payload = (j', Ok e) ->
    ej_Events j' = ej_Events j ++ [e] /\ ev_Kind e = kind /\ ev_RequestID e = requestID /\
    ev_Payload e = payload /\ ev_At e = Unix at_ /\ 0 < ev_At e /\ requestID <> "";
  append_err j ctx env at_ kind requestID payload j' m :
    ej_Append j ctx env at_ kind requestID payload = (j', Err m) -> ej_Events j' = ej_Events j;
}.

#[export] Instance FileEventJournal `{Crypto} {P} `{PayloadJSON P} :
  EventJournal (Journal P) write_io P :=
  {| ej_Append := Journal_Append; ej_Events := Journal_Events |}.

(** The table and this process's view of it. *)
#[export] Instance PostgresEventJournal `{Crypto} {P} `{PayloadJSON P} :
  EventJournal (list (Event P) * PostgresJournal P) tx_io P :=
  {| ej_Append := fun j ctx io at_ kind requestID payload =>
       PostgresJournal_Append j.1 j.2 ctx io at_ kind requestID payload;
     ej_Events := fun j => pg_events j.2 |}.

(** ** Chains *)

Section Chain.
Context `{Crypto} {P : Type} `{PayloadJSON P}.
Implicit Types (e : Event P) (es : list (Event P)).

(** The streams whose every event is valid after its predecessors, and the
    hash they end in. *)
Inductive chain : list (Event P) -> string -> Prop :=
| chain_nil : chain [] ""
| chain_snoc es h e :
    chain es h -> validateEvent e (Z.of_nat (length es) + 1) h = Ok tt -> chain (es ++ [e]) (ev_Hash e).

Lemma validateEvent_iff e n h :
  validateEvent e n h = Ok tt <->
  ev_Version e = journalVersion /\ ev_Sequence e = n /\ 0 < ev_At e /\ ev_Kind e <> "" /\
  ev_RequestID e <> "" /\ ev_PreviousHash e = h /\ ev_Hash e = hashEvent e.
Proof.
  unfold validateEvent. ok_prop.
  assert (payload_json (ev_Payload e) <> "").
  { destruct (payload_json_struct (ev_Payload e)) as [body ->]. by rewrite str_app_cons. }
  split; intros; destruct_and!; repeat split; done.
Qed.

Lemma new_event_valid n h at_ kind requestID payload e :
  e = new_event n h at_ kind requestID payload ->
  validateEvent e (ev_Sequence e) h = Ok tt <-> 0 < Unix at_ /\ kind <> "" /\ requestID <> "".
Proof. intros ->. rewrite validateEvent_iff. cbn. split; [tauto|]. intros (? & ? & ?). repeat split; done. Qed.

Lemma chain_valid_head es h e :
  chain (es ++ [e]) h -> h = ev_Hash e.
Proof.
  intros Hc. inversion Hc as [E|es' h' e' Hc' Hv E]; [by destruct es|].
  by apply app_inj_tail in E as [_ ->].
Qed.

Lemma chain_snoc_inv es e h :
  chain (es ++ [e]) h ->
  exists h', chain es h' /\ validateEvent e (Z.of_nat (length es) + 1) h' = Ok tt /\ h = ev_Hash e.
Proof.
  intros Hc. inversion Hc as [E|es' h' e' Hc' Hv E]; [by destruct es|].
  apply app_inj_tail in E as [-> ->]. eauto.
Qed.

(** The head a chain ends in is the head of the table. *)
Lemma chain_head es h : chain es h -> table_head es = (Z.of_nat (length es), h).
Proof.
  unfold table_head. destruct 1 as [|es h e Hc Hv]; [done|]. rewrite last_snoc.
  apply validateEvent_iff in Hv. destruct_and!. rewrite length_app. cbn. f_equal. lia.
Qed.

Lemma chain_fun es h h' : chain es h -> chain es h' -> h = h'.
Proof. intros C1%chain_head C2%chain_head. congruence. Qed.

(** ** Reading a stream back *)

Definition text_ok e : bool := valid_utf8 (ev_Kind e) && valid_utf8 (ev_RequestID e).

Lemma hex_encode_utf8 s : valid_utf8 (hex_encode s) = true.
Proof.
  apply (is_ascii_of is_lower_hex).
  { intros c Hc. destruct c as [[] [] [] [] [] [] [] []]; vm_compute in Hc |- *; done. }
  induction s as [|c s IH]; [done|]. cbn [hex_encode str_all]. rewrite IH, !andb_true_r.
  pose proof (code_range c). destruct c as [[] [] [] [] [] [] [] []]; vm_compute; done.
Qed.

Lemma chain_last_utf8 es h : chain es h -> valid_utf8 h = true.
Proof.
  destruct 1 as [|es h e _ Hv]; [done|]. apply validateEvent_iff in Hv. destruct_and!.
  match goal with E : ev_Hash e = _ |- _ => rewrite E end. apply hex_encode_utf8.
Qed.

Lemma unmarshal_event_id e n h :
  valid_utf8 h = true -> text_ok e = true -> validateEvent e n h = Ok tt -> unmarshal_event e = e.
Proof.
  unfold text_ok. intros Hh Ht Hv%validateEvent_iff. destruct_and!. to_prop. destruct Ht.
  assert (valid_utf8 (ev_Hash e) = true).
  { match goal with E : ev_Hash e = _ |- _ => rewrite E end. apply hex_encode_utf8. }
  assert (valid_utf8 (ev_PreviousHash e) = true) by congruence.
  unfold unmarshal_event. rewrite !utf8_coerce_valid by done. by destruct e.
Qed.

Lemma replay_line_ok es h e :
  valid_utf8 h = true -> text_ok e = true -> fits_scanner e = true ->
  validateEvent e (Z.of_nat (length es) + 1) h = Ok tt ->
  replay_line (es, h) (Line e) = Ok (es ++ [e], ev_Hash e).
Proof.
  intros Hh Ht Hs Hv. unfold replay_line. rewrite Hs.
  by rewrite (unmarshal_event_id e _ h Hh Ht Hv), Hv.
Qed.

Lemma chain_replay es h :
  chain es h -> Forall (fun e => text_ok e = true /\ fits_scanner e = true) es ->
  journal_replay (map Line es) = Ok (es, h).
Proof.
  unfold journal_replay. induction 1 as [|es h e Hc IH Hv]; intros Hf; [done|].
  apply Forall_app in Hf as [Hf He]. apply Forall_cons in He as [[Ht Hs] _].
  rewrite map_app. cbn [map]. rewrite fold_res_snoc, IH by done.
  apply replay_line_ok; [by eapply chain_last_utf8|done..].
Qed.

Lemma replay_line_inv es h l es' h' :
  replay_line (es, h) l = Ok (es', h') ->
  exists e, validateEvent e (Z.of_nat (length es) + 1) h = Ok tt /\ es' = es ++ [e] /\ h' = ev_Hash e.
Proof.
  unfold replay_line. destruct l as [e|e|]; [| |done]; rewrite check_ok_iff, try_unit_iff;
    intros (_ & Hv & E); exists (unmarshal_event e); split; try exact Hv; split; congruence.
Qed.

Lemma replay_chain file es h : journal_replay file = Ok (es, h) -> chain es h.
Proof.
  unfold journal_replay. revert es h. induction file as [|l file IH] using rev_ind; intros es h Hr.
  { injection Hr as <- <-. constructor. }
  rewrite fold_res_snoc in Hr. destruct (fold_res _ _ file) as [[es0 h0]|]; [|done].
  apply replay_line_inv in Hr as (e & Hv & -> & ->). eapply chain_snoc; [by apply IH|done].
Qed.

(** ** The file journal *)

(** The stream in memory is a chain; without a fault it is what the file holds. *)
Record journal_inv (j : Journal P) : Prop := {
  ji_chain : chain (j_events j) (j_lastHash j);
  ji_file : j_fault j = None -> j_file j = map Line (j_events j);
}.

Lemma write_at_end_lines es l : write_at_end (map Line es) l = map Line es ++ [l].
Proof.
  unfold write_at_end. induction es as [|e es _] using rev_ind; [done|].
  rewrite map_app. cbn [map]. by rewrite last_snoc.
Qed.

Lemma Journal_Append_spec j ctx io at_ kind requestID payload j' r :
  Journal_Append j ctx io at_ kind requestID payload = (j', r) ->
  let e := new_event (Z.of_nat (length (j_events j)) + 1) (j_lastHash j) at_ kind requestID payload in
  (exists m, r = Err m /\ j_events j' = j_events j /\ j_lastHash j' = j_lastHash j /\
             (j' = j \/ j_fault j' <> None)) \/
  (r = Ok e /\ validateEvent e (Z.of_nat (length (j_events j)) + 1) (j_lastHash j) = Ok tt /\
   j_fault j = None /\ j_events j' = j_events j ++ [e] /\ j_lastHash j' = ev_Hash e /\
   j_file j' = write_at_end (j_file j) (Line e) /\ j_fault j' = None /\ ctx = None /\ io = Written).
Proof.
  unfold Journal_Append. intros Ha. cbn zeta.
  destruct ctx; [injection Ha as <- <-; left; eauto 10|].
  destruct (_ || _); [injection Ha as <- <-; left; eauto 10|].
  destruct (negb _); [injection Ha as <- <-; left; eauto 10|].
  destruct (j_fault j) eqn:Ef; [injection Ha as <- <-; left; eauto 10|].
  destruct (validateEvent _ _ _) as [[]|] eqn:Hv; [|injection Ha as <- <-; left; eauto 10].
  destruct io; injection Ha as <- <-;
    [left; eexists; repeat split; right; done..|].
  right. repeat split; try done.
Qed.

Lemma Journal_Append_inv j ctx io at_ kind requestID payload j' r :
  journal_inv j -> Journal_Append j ctx io at_ kind requestID payload = (j', r) -> journal_inv j'.
Proof.
  intros [Hc Hf] Ha.
  destruct (Journal_Append_spec _ _ _ _ _ _ _ _ _ Ha)
    as [(m & _ & Ee & El & [->|Hfa])|(_ & Hv & Hnf & Ee & El & Efi & _)]; [done| |].
  - split; [by rewrite Ee, El|done].
  - split.
    + rewrite Ee, El. by eapply chain_snoc.
    + intros _. rewrite Efi, Ee, (Hf Hnf), write_at_end_lines, map_app. done.
Qed.

(** A journal opened on an empty file and used through [Append]. *)
Inductive journal_run : Journal P -> Prop :=
| run_open path j : OpenJournal path None [] = Ok j -> journal_run j
| run_append j ctx io at_ kind requestID payload j' r :
    journal_run j -> valid_utf8 kind = true -> valid_utf8 requestID = true ->
    Journal_Append j ctx io at_ kind requestID payload = (j', r) -> journal_run j'.

Lemma OpenJournal_ok path file j :
  OpenJournal path None file = Ok j <->
  TrimSpace path <> "" /\ exists es h, journal_replay file = Ok (es, h) /\
  j = {| j_open := true; j_file := file; j_events := es; j_lastHash := h; j_fault := None |}.
Proof.
  unfold OpenJournal. rewrite check_ok_iff, try_ok_iff. to_prop. split.
  - intros (Hp & [es h] & Hr & [= <-]). eauto.
  - intros (Hp & es & h & Hr & ->). split; [done|]. by exists (es, h).
Qed.

Lemma journal_run_inv j :
  journal_run j -> journal_inv j /\ Forall (fun e => text_ok e = true) (j_events j).
Proof.
  induction 1 as [path j Ho|j ctx io at_ kind requestID payload j' r _ [Hi Ht] Hk Hr Ha].
  - apply OpenJournal_ok in Ho as (_ & es & h & [= <- <-] & ->). split; [|constructor].
    split; [constructor|done].
  - split; [by eapply Journal_Append_inv|].
    destruct (Journal_Append_spec _ _ _ _ _ _ _ _ _ Ha)
      as [(m & _ & Ee & _)|(_ & _ & _ & Ee & _)]; rewrite Ee; [done|].
    apply Forall_app. split; [done|]. repeat constructor.
    change (valid_utf8 kind && valid_utf8 requestID = true). by rewrite Hk, Hr.
Qed.

(** The fields that are hashed, and the hash. *)
Definition event_text e : Z * Z * Z * string * string * string * string * string :=
  (ev_Version e, ev_Sequence e, ev_At e, ev_Kind e, ev_RequestID e, ev_PreviousHash e,
   payload_json (ev_Payload e), ev_Hash e).

Lemma hash_members_inj e e' n h n' h' :
  validateEvent e n h = Ok tt -> validateEvent e' n' h' = Ok tt ->
  0 <= n -> 0 <= n' -> valid_utf8 h = true -> valid_utf8 h' = true ->
  text_ok e = true -> text_ok e' = true ->
  json_object (hash_members e) = json_object (hash_members e') -> event_text e = event_text e'.
Proof.
  intros V V' Hn Hn' Hh Hh' [? ?]%andb_true_iff [? ?]%andb_true_iff E.
  apply validateEvent_iff in V, V'. destruct_and!.
  assert (0 <= ev_Version e) by (unfold journalVersion in *; lia).
  assert (0 <= ev_Version e') by (unfold journalVersion in *; lia).
  assert (0 <= ev_Sequence e) by lia. assert (0 <= ev_Sequence e') by lia.
  assert (0 <= ev_At e) by lia. assert (0 <= ev_At e') by lia.
  assert (valid_utf8 (ev_PreviousHash e) = true) by congruence.
  assert (valid_utf8 (ev_PreviousHash e') = true) by congruence.
  pose proof E as E'. unfold hash_members in E'.
  do 3 json_peel_int E'. do 3 json_peel_string E'. json_peel_name E'.
  assert (payload_json (ev_Payload e) = payload_json (ev_Payload e')).
  { apply chars_inj, (app_inv_tail (chars (json_tail []))).
    by rewrite <-!chars_app, E'. }
  assert (ev_Hash e = ev_Hash e') by (unfold hashEvent in *; congruence).
  unfold event_text. congruence.
Qed.

Lemma chain_hash_nonempty `{!CryptoLaws} es e : ~ chain (es ++ [e]) "".
Proof.
  intros (h & _ & Hv & E)%chain_snoc_inv. apply validateEvent_iff in Hv. destruct_and!.
  assert (E2 : hex_encode (sha256 (json_object (hash_members e))) = "") by (unfold hashEvent in *; congruence).
  pose proof (sha256_size (json_object (hash_members e))) as Hs.
  by destruct (sha256 _).
Qed.

(** Two accepted streams that end in the same hash. *)
Lemma chain_binding `{!CryptoLaws} es1 h : chain es1 h -> forall es2, chain es2 h ->
  Forall (fun e => text_ok e = true) es1 -> Forall (fun e => text_ok e = true) es2 ->
  map event_text es1 = map event_text es2 \/ exists x y, x <> y /\ sha256 x = sha256 y.
Proof.
  induction 1 as [|es h e Hc IH Hv]; intros es2 C2 T1 T2;
    (destruct es2 as [|e2 es2 _] using rev_ind; [|]).
  { by left. }
  { by apply chain_hash_nonempty in C2. }
  { assert (C1 : chain (es ++ [e]) (ev_Hash e)) by by eapply chain_snoc.
    assert (E : ev_Hash e = "") by (by apply (chain_fun []); [|constructor]).
    rewrite E in C1. by apply chain_hash_nonempty in C1. }
  apply chain_snoc_inv in C2 as (h2 & C2 & V2 & Eh).
  apply Forall_app in T1 as [T1 Te]. apply Forall_cons in Te as [Te _].
  apply Forall_app in T2 as [T2 Te2]. apply Forall_cons in Te2 as [Te2 _].
  destruct (decide (json_object (hash_members e) = json_object (hash_members e2))) as [Ej|Ej].
  2:{ right. do 2 eexists. split; [exact Ej|].
      apply validateEvent_iff in Hv, V2. destruct_and!. unfold hashEvent in *.
      assert (hex_encode (sha256 (json_object (hash_members e))) =
              hex_encode (sha256 (json_object (hash_members e2)))) as E2 by congruence.
      apply (f_equal hex_decode) in E2. rewrite !hex_decode_encode in E2. congruence. }
  eapply hash_members_inj in Ej; [|exact Hv|exact V2|lia|lia|by eapply chain_last_utf8|by eapply chain_last_utf8|done|done].
  assert (h2 = h) as ->.
  { apply validateEvent_iff in Hv, V2. destruct_and!. unfold event_text in Ej. congruence. }
  destruct (IH es2) as [Em|?]; [done|done|done| |by right].
  left. rewrite !map_app. cbn [map]. by rewrite Em, Ej.
Qed.

(** ** The shared table *)

(** One append against a table that is a chain. *)
Lemma pg_Append_spec table j ctx io at_ kind requestID payload table' j' r h :
  chain table h ->
  PostgresJournal_Append table j ctx io at_ kind requestID payload = (table', j', r) ->
  let e := new_event (Z.of_nat (length table) + 1) h at_ kind requestID payload in
  (exists m, r = Err m /\ pg_events j' = pg_events j /\ pg_lastHash j' = pg_lastHash j /\
     (table' = table \/
      table' = table ++ [e] /\ validateEvent e (Z.of_nat (length table) + 1) h = Ok tt /\ pg_fault j' <> None)) \/
  (r = Ok e /\ validateEvent e (Z.of_nat (length table) + 1) h = Ok tt /\ table' = table ++ [e] /\
   length (pg_events j) = length table /\ pg_lastHash j = h /\
   pg_events j' = pg_events j ++ [e] /\ pg_lastHash j' = ev_Hash e).
Proof.
  intros Hc. unfold PostgresJournal_Append. rewrite (chain_head _ _ Hc). intros Ha. cbn zeta.
  destruct ctx; [injection Ha as <- <- <-; left; eauto 10|].
  destruct (_ || _); [injection Ha as <- <- <-; left; eauto 10|].
  destruct (pg_fault j); [injection Ha as <- <- <-; left; eauto 10|].
  destruct ((_ =? _) && _) eqn:Eh; cbn [negb] in Ha.
  2:{ left. destruct io; injection Ha as <- <- <-; eauto 10. }
  destruct (validateEvent _ _ _) as [[]|] eqn:Hv.
  2:{ left. destruct io; injection Ha as <- <- <-; eauto 10. }
  to_prop. destruct Eh as [El Eh].
  destruct io as [m|m|m applied|]; injection Ha as <- <- <-; [left; eauto 10|left; eauto 10| |].
  - left. eexists. do 3 (split; [done|]). destruct applied; [right|by left]. done.
  - right. repeat split; try done. lia.
Qed.

(** Any number of processes over one table, each opening and appending at any
    time. *)
Inductive pg_run : list (Event P) -> gmap nat (PostgresJournal P) -> Prop :=
| pg_init : pg_run [] ∅
| pg_open table ps i j :
    pg_run table ps -> OpenPostgresJournal None table = Ok j -> pg_run table (<[i := j]> ps)
| pg_append table ps i j ctx io at_ kind requestID payload table' j' r :
    pg_run table ps -> ps !! i = Some j ->
    PostgresJournal_Append table j ctx io at_ kind requestID payload = (table', j', r) ->
    pg_run table' (<[i := j']> ps).

Lemma scan_row_ok es h e :
  validateEvent e (Z.of_nat (length es) + 1) h = Ok tt -> scan_row (es, h) e = Ok (es ++ [e], ev_Hash e).
Proof.
  intros Hv. unfold scan_row. pose proof Hv as Hv'. apply validateEvent_iff in Hv' as [Ev _].
  rewrite <-Ev. destruct e as [ver seq at_ kind req prev pl hash]; cbn in *. by rewrite Hv.
Qed.

Lemma chain_scan es h : chain es h -> fold_res scan_row ([], "") es = Ok (es, h).
Proof.
  induction 1 as [|es h e Hc IH Hv]; [done|]. rewrite fold_res_snoc, IH. by apply scan_row_ok.
Qed.

(** What a process has loaded and appended is a prefix of the table. *)
Definition pg_view_ok (table : list (Event P)) (j : PostgresJournal P) : Prop :=
  chain (pg_events j) (pg_lastHash j) /\ pg_events j `prefix_of` table.

Lemma pg_view_extend table e j : pg_view_ok table j -> pg_view_ok (table ++ [e]) j.
Proof. intros [? ?]. split; [done|]. by apply prefix_app_r. Qed.

Lemma prefix_same_length {A} (l k : list A) : l `prefix_of` k -> length l = length k -> l = k.
Proof. intros [r ->] Hl. rewrite length_app in Hl. destruct r; [by rewrite app_nil_r|cbn in Hl; lia]. Qed.

Lemma pg_run_inv table ps :
  pg_run table ps -> (exists h, chain table h) /\ map_Forall (fun _ j => pg_view_ok table j) ps.
Proof.
  induction 1 as [|table ps i j _ [[h Hc] Hv] Ho|table ps i j ctx io at_ kind requestID payload table' j' r _ [[h Hc] Hv] Hi Ha].
  - split; [eexists; constructor|apply map_Forall_empty].
  - split; [eauto|]. unfold OpenPostgresJournal in Ho. rewrite (chain_scan _ _ Hc) in Ho.
    injection Ho as <-. apply map_Forall_insert_2; [|done]. by split.
  - pose proof (Hv i j Hi) as Hj. simpl in Hj. destruct (Hj) as [Hcj Hpj].
    destruct (pg_Append_spec _ _ _ _ _ _ _ _ _ _ _ _ Hc Ha)
      as [(m & _ & Ee & El & [->|(-> & Hval & _)])|(_ & Hval & -> & Hlen & El & Ee & El')].
    + split; [eauto|]. apply map_Forall_insert_2; [|done]. unfold pg_view_ok. by rewrite Ee, El.
    + split; [eexists; by eapply chain_snoc|]. apply map_Forall_insert_2.
      * apply pg_view_extend. unfold pg_view_ok. by rewrite Ee, El.
      * eapply map_Forall_impl; [exact Hv|]. intros. by apply pg_view_extend.
    + split; [eexists; by eapply chain_snoc|]. apply map_Forall_insert_2.
      * unfold pg_view_ok. rewrite Ee, El', (prefix_same_length _ _ Hpj Hlen).
        split; [by eapply chain_snoc|done].
      * eapply map_Forall_impl; [exact Hv|]. intros. by apply pg_view_extend.
Qed.

(** ** Properties *)

(** a journal used through [Append] and reopened gives back the very stream
    it held in memory, as long as no write faulted and every line fits the
    scanner. *)
Theorem journal_reopen_roundtrip j path :
  journal_run j -> j_fault j = None -> Forall (fun e => fits_scanner e = true) (j_events j) ->
  TrimSpace path <> "" ->
  OpenJournal path None (j_file j) =
    Ok {| j_open := true; j_file := j_file j; j_events := j_events j;
          j_lastHash := j_lastHash j; j_fault := None |}.
Proof.
  intros [[Hc Hf] Ht]%journal_run_inv Hnf Hs Hp. apply OpenJournal_ok. split; [done|].
  exists (j_events j), (j_lastHash j). split; [|done]. rewrite Hf by done.
  apply chain_replay; [done|]. rewrite Forall_forall in *. auto.
Qed.

(** the last hash commits to the whole history: two journals that replay to
    streams ending in the same hash hold the same events in the same order,
    unless SHA-256 collides. *)
Theorem journal_history_binding `{!CryptoLaws} file1 file2 es1 es2 h :
  journal_replay file1 = Ok (es1, h) -> journal_replay file2 = Ok (es2, h) ->
  Forall (fun e => text_ok e = true) es1 -> Forall (fun e => text_ok e = true) es2 ->
  map event_text es1 = map event_text es2 \/ exists x y, x <> y /\ sha256 x = sha256 y.
Proof. intros C1%replay_chain C2%replay_chain. by eapply chain_binding. Qed.

(** whatever processes share the control-event table and however their opens
    and appends interleave and fail, the table is one valid hash chain and every
    process has loaded a prefix of it; a stale process can append nothing. *)
Theorem postgres_journal_single_stream table ps :
  pg_run table ps ->
  (exists h, chain table h) /\
  forall i j, ps !! i = Some j ->
    (exists later, table = pg_events j ++ later) /\
    (forall ctx io at_ kind requestID payload table' j' r,
       pg_events j <> table ->
       PostgresJournal_Append table j ctx io at_ kind requestID payload = (table', j', r) ->
       table' = table /\ is_ok r = false).
Proof.
  intros [[h Hc] Hv]%pg_run_inv. split; [eauto|]. intros i j Hi.
  destruct (Hv i j Hi) as [Hcj Hpj]. split; [done|].
  intros ctx io at_ kind requestID payload table' j' r Hne Ha.
  assert (Hl : Z.of_nat (length table) =? Z.of_nat (length (pg_events j)) = false).
  { apply Z.eqb_neq. intros E. apply Hne, prefix_same_length; [done|lia]. }
  unfold PostgresJournal_Append in Ha. rewrite (chain_head _ _ Hc), Hl in Ha. cbn [andb negb] in Ha.
  destruct ctx; [by injection Ha as <- <- <-|]. destruct (_ || _); [by injection Ha as <- <- <-|].
  destruct (pg_fault j); [by injection Ha as <- <- <-|]. by destruct io; injection Ha as <- <- <-.
Qed.
End Chain.

#[export] Instance FileEventJournalLaws `{Crypto} {P} `{PayloadJSON P} :
  EventJournalLaws (Journal P) write_io P.
Proof.
  split; intros * Ha; cbn in Ha; apply Journal_Append_spec in Ha; cbn zeta in Ha;
    destruct Ha as [(? & E & ? & ? & ?)|(E & Hv & ? & ? & ?)]; try done.
  injection E as ->. apply validateEvent_iff in Hv. cbn in Hv. cbn. naive_solver.
Qed.

#[export] Instance PostgresEventJournalLaws `{Crypto} {P} `{PayloadJSON P} :
  EventJournalLaws (list (Event P) * PostgresJournal P) tx_io P.
Proof.
  split; intros [table j] ctx io at_ kind requestID payload [table' j']; cbn;
    unfold PostgresJournal_Append; destruct (table_head table) as [n h];
    destruct ctx; try naive_solver; destruct (_ || _) eqn:Eb; try naive_solver;
    destruct (pg_fault j); try naive_solver;
    destruct io as [m|m|m applied|]; try naive_solver;
    destruct (negb _); try naive_solver; destruct (validateEvent _ _ _) as [[]|] eqn:Hv; try naive_solver.
  intros e [= _ <- <-]. apply validateEvent_iff in Hv. cbn in *. naive_solver.
Qed.

(** ** A newline that is lost *)

Section JournalWitnesses.
#[local] Existing Instance ToyCrypto.
#[local] Existing Instance ToyCryptoLaws.

(** A payload with one string field. *)
#[local] Instance NotePayload : PayloadJSON string.
Proof.
  refine {| payload_json := fun s => json_object [("note", Some (json_string s))] |}.
  intros p. unfold json_object. eexists. reflexivity.
Defined.

Definition demo_at : time := time_of_unix 1700000000.
Definition demo_append (j : Journal string) (io : write_io) (note : string) : Journal string * res (Event string) :=
  Journal_Append j None io demo_at "note.added" "req_1" note.
Definition demo_open (file : list (line string)) : res (Journal string) :=
  OpenJournal "/var/lib/flowops/journal" None file.

(** When a write fails with only its newline missing, the journal reopens
    and acknowledges the next append as durable, and can then never be opened
    again: the two events share one line. *)
Theorem lost_newline_bricks_journal :
  exists j0 j2,
    demo_open [] = Ok j0 /\
    is_ok (demo_append j0 (ShortWrite LeftUnterminated) "a").2 = false /\
    demo_open (j_file (demo_append j0 (ShortWrite LeftUnterminated) "a").1) = Ok j2 /\
    is_ok (demo_append j2 Written "b").2 = true /\
    is_ok (demo_open (j_file (demo_append j2 Written "b").1)) = false.
Proof.
  set (e := new_event 1 "" demo_at "note.added" "req_1" "a").
  exists (mkJournal true [] [] "" None), (mkJournal true [Unterminated e] [e] (ev_Hash e) None).
  split_and!; vm_compute; reflexivity.
Qed.

Definition demo_j0 : Journal string := mkJournal true [] [] "" None.
Definition demo_j1 : Journal string := (demo_append demo_j0 Written "a").1.
Definition demo_journal : Journal string := (demo_append demo_j1 Written "b").1.

Lemma demo_journal_run : journal_run demo_journal.
Proof.
  apply (run_append demo_j1 None Written demo_at "note.added" "req_1" "b" _ (demo_append demo_j1 Written "b").2);
    [|reflexivity..|apply surjective_pairing].
  apply (run_append demo_j0 None Written demo_at "note.added" "req_1" "a" _ (demo_append demo_j0 Written "a").2);
    [|reflexivity..|apply surjective_pairing].
  by apply (run_open "/var/lib/flowops/journal").
Qed.

Lemma journal_reopen_roundtrip_witness :
  is_ok (OpenJournal "j" None (j_file demo_journal)) = true.
Proof.
  rewrite (journal_reopen_roundtrip demo_journal "j" demo_journal_run); [reflexivity|vm_compute; reflexivity| |discriminate].
  apply forallb_Forall. vm_compute. reflexivity.
Defined.

Lemma journal_history_binding_witness :
  map event_text (j_events demo_journal) = map event_text (j_events demo_journal) \/
  exists x y, x <> y /\ sha256 x = sha256 y.
Proof.
  apply (journal_history_binding (j_file demo_journal) (j_file demo_journal) (j_events demo_journal)
    (j_events demo_journal) (j_lastHash demo_journal)); [vm_compute; reflexivity..| |];
    (apply forallb_Forall; vm_compute; reflexivity).
Defined.

Definition demo_table : list (Event string) := (PostgresJournal_Append [] (mkPostgresJournal [] "" None) None Committed demo_at "note.added" "req_1" "a").1.1.

Lemma demo_pg_run :
  pg_run demo_table (<[0%nat := mkPostgresJournal demo_table (table_head demo_table).2 None]>
                     (<[1%nat := mkPostgresJournal [] "" None]> (<[0%nat := mkPostgresJournal [] "" None]> ∅))).
Proof.
  eapply (pg_append [] _ 0%nat (mkPostgresJournal [] "" None) None Committed demo_at "note.added" "req_1" "a");
    [|vm_compute; reflexivity..].
  apply pg_open; [|reflexivity]. apply pg_open; [|reflexivity]. apply pg_init.
Qed.

Lemma postgres_journal_single_stream_witness :
  exists h, chain demo_table h.
Proof. exact (proj1 (postgres_journal_single_stream _ _ demo_pg_run)). Defined.
End JournalWitnesses.
