(* ===== verification/Intent.v ===== *)
(** * Payment intents and lifecycle records ([internal/controlplane/types.go])

    The records the control plane keeps, their validation, and the digests an
    approval is bound to. Pointers to escrow terms are cloned at every boundary
    of the package and only ever compared by value, so an intent holds the terms
    themselves. *)
From stdpp Require Import base gmap strings list fin_maps.
From Stdlib Require Import ZArith Lia Ascii.
From S2P Require Import Prelude GoText GoJSON Amounts Crypto Envelope Policy Journal.

Open Scope Z_scope.

Definition intentDomain : string := "flowops:payment-intent:v1" +:+ newline.
Definition approvalDomain : string := "flowops:approval-request:v1" +:+ newline.

Definition idPattern (value : string) : bool := identifier_pattern value.

Abbreviation LState := string (only parsing).
Definition StateDenied : LState := "DENIED".
Definition StatePendingApproval : LState := "PENDING_APPROVAL".
Definition StateApproved : LState := "APPROVED".
Definition StateRejected : LState := "REJECTED".
Definition StateIssued : LState := "ISSUED".
Definition StateExpired : LState := "EXPIRED".

Record PaymentIntent := mkPaymentIntent {
  i_IntentID : string;
  i_OrganizationID : string;
  i_CustomerID : string;
  i_AgentID : string;
  i_TaskID : string;
  i_ActionID : string;
  i_Rail : Rail;
  i_ChainID : Z;
  i_Recipient : string;
  i_Asset : string;
  i_AmountAtomic : string;
  i_Resource : string;
  i_Category : string;
  i_Purpose : string;
  i_Escrow : option EscrowTerms;
}.

Abbreviation ApprovalAction := string (only parsing).
Definition Approve : ApprovalAction := "APPROVE".
Definition Reject : ApprovalAction := "REJECT".

Record Approval := mkApproval {
  ap_Action : ApprovalAction;
  ap_Actor : string;
  ap_Note : string;
  ap_RequestDigest : string;
  ap_DecidedAt : Z;
}.

(** [type Record struct] *)
Record LRecord := mkLRecord {
  r_RequestID : string;
  r_Intent : PaymentIntent;
  r_IntentDigest : string;
  r_RequestDigest : string;
  r_Decision : Decision;
  r_State : LState;
  r_SubmittedAt : Z;
  r_ApprovalExpiresAt : Z;
  r_Approval : option Approval;
  r_Authorization : option Authorization;
}.

(** ** Validation and digests *)

Definition canonicalPositiveInteger (value : string) : bool :=
  match value with
  | EmptyString => false
  | String c _ => negb (code c =? 48) && str_all is_digit value
  end.

Definition canonical_address `{Unicode} (value : string) : bool :=
  match NormalizeAddress value with
  | Ok normalized => bool_decide (normalized = value)
  | Err _ => false
  end.

(** [strings.TrimSpace(v) == "" || len(v) > max] is refused. *)
Definition text_field (max : Z) (v : string) : bool :=
  negb (bool_decide (TrimSpace v = "")) && (str_len v <=? max).

Definition PaymentIntent_Validate `{Crypto} `{Unicode} (i : PaymentIntent) : res unit :=
  check forallb idPattern
      [i_IntentID i; i_OrganizationID i; i_CustomerID i; i_AgentID i; i_TaskID i; i_ActionID i]
    else "identifier is invalid" ;;
  check supported_rail (i_Rail i) else "rail is unsupported" ;;
  try _ :=
    (if bool_decide (i_Rail i = RailEscrow) then
       match i_Escrow i with
       | None => Err "escrow terms are required for the escrow rail"
       | Some t => EscrowTerms_Validate t (i_ChainID i) (i_Recipient i)
       end
     else match i_Escrow i with
          | Some _ => Err "escrow terms are forbidden on non-escrow rails"
          | None => Ok tt
          end) in
  check negb (i_ChainID i =? 0) else "chainId must be positive" ;;
  check canonical_address (i_Recipient i) && canonical_address (i_Asset i)
    else "must be a canonical lowercase EVM address" ;;
  check canonicalPositiveInteger (i_AmountAtomic i)
    else "amountAtomic must be a canonical positive integer" ;;
  check text_field 2048 (i_Resource i)
    else "resource must contain 1 to 2048 non-whitespace characters" ;;
  check text_field 128 (i_Category i)
    else "category must contain 1 to 128 non-whitespace characters" ;;
  check text_field 1024 (i_Purpose i)
    else "purpose must contain 1 to 1024 non-whitespace characters" ;;
  Ok tt.

Definition json_PaymentIntent (i : PaymentIntent) : string :=
  json_object [
    ("intentId", Some (json_string (i_IntentID i)));
    ("organizationId", Some (json_string (i_OrganizationID i)));
    ("customerId", Some (json_string (i_CustomerID i)));
    ("agentId", Some (json_string (i_AgentID i)));
    ("taskId", Some (json_string (i_TaskID i)));
    ("actionId", Some (json_string (i_ActionID i)));
    ("rail", Some (json_string (i_Rail i)));
    ("chainId", Some (json_int (i_ChainID i)));
    ("recipient", Some (json_string (i_Recipient i)));
    ("asset", Some (json_string (i_Asset i)));
    ("amountAtomic", Some (json_string (i_AmountAtomic i)));
    ("resource", Some (json_string (i_Resource i)));
    ("category", Some (json_string (i_Category i)));
    ("purpose", Some (json_string (i_Purpose i)));
    ("escrow", option_map json_EscrowTerms (i_Escrow i))].

Definition intent_digest_of `{Crypto} (i : PaymentIntent) : string :=
  "0x" +:+ hex_encode (sha256 (intentDomain +:+ json_PaymentIntent i)).

Definition PaymentIntent_Digest `{Crypto} `{Unicode} (i : PaymentIntent) : res string :=
  try _ := PaymentIntent_Validate i in Ok (intent_digest_of i).

Definition requestDigest `{Crypto} (requestID intentDigest : string) (decision : Decision) (expiresAt : Z) : string :=
  "0x" +:+ hex_encode (sha256 (approvalDomain +:+ json_object [
    ("requestId", Some (json_string requestID));
    ("intentDigest", Some (json_string intentDigest));
    ("policyVersion", Some (json_string (d_PolicyVersion decision)));
    ("policyOutcome", Some (json_string (d_Outcome decision)));
    ("policyReason", Some (json_string (d_Reason decision)));
    ("approvalExpiresAt", Some (json_int expiresAt))])).

Definition decisionState (decision : Decision) : res LState :=
  if bool_decide (d_Outcome decision = Deny) then Ok StateDenied
  else if bool_decide (d_Outcome decision = RequireApproval) then Ok StatePendingApproval
  else if bool_decide (d_Outcome decision = AutoApprove) then Ok StateApproved
  else Err "unsupported policy outcome".

(** ** Payloads and their JSON *)

(** The four payload structs. *)
Inductive LPayload :=
| submittedPayload (record : LRecord)
| approvalPayload (approval : Approval)
| issuedPayload (authorization : Authorization)
| expiredPayload (reason : string).

Definition json_Decision (d : Decision) : string :=
  json_object [("outcome", Some (json_string (d_Outcome d)));
               ("reason", Some (json_string (d_Reason d)));
               ("policyVersion", Some (json_string (d_PolicyVersion d)))].

Definition json_Approval (a : Approval) : string :=
  json_object [
    ("action", Some (json_string (ap_Action a)));
    ("actor", Some (json_string (ap_Actor a)));
    ("note", if bool_decide (ap_Note a = "") then None else Some (json_string (ap_Note a)));
    ("requestDigest", Some (json_string (ap_RequestDigest a)));
    ("decidedAt", Some (json_int (ap_DecidedAt a)))].

Definition json_LRecord (r : LRecord) : string :=
  json_object [
    ("requestId", Some (json_string (r_RequestID r)));
    ("intent", Some (json_PaymentIntent (r_Intent r)));
    ("intentDigest", Some (json_string (r_IntentDigest r)));
    ("requestDigest", Some (json_string (r_RequestDigest r)));
    ("decision", Some (json_Decision (r_Decision r)));
    ("state", Some (json_string (r_State r)));
    ("submittedAt", Some (json_int (r_SubmittedAt r)));
    ("approvalExpiresAt", Some (json_int (r_ApprovalExpiresAt r)));
    ("approval", option_map json_Approval (r_Approval r));
    ("authorization", option_map json_Authorization (r_Authorization r))].

Definition json_LPayload (p : LPayload) : string :=
  match p with
  | submittedPayload r => json_object [("record", Some (json_LRecord r))]
  | approvalPayload a => json_object [("approval", Some (json_Approval a))]
  | issuedPayload a => json_object [("authorization", Some (json_Authorization a))]
  | expiredPayload reason => json_object [("reason", Some (json_string reason))]
  end.

#[export] Instance LPayloadJSON : PayloadJSON LPayload.
Proof.
  refine {| payload_json := json_LPayload |}.
  intros []; unfold json_LPayload, json_object; eexists; reflexivity.
Defined.

(** ** Decoding

    [json.Unmarshal] of a text that [json.Marshal] wrote: every string comes back
    as valid UTF-8, everything else as it was. *)

Definition decode_EscrowTerms (t : EscrowTerms) : EscrowTerms :=
  {| t_Contract := utf8_coerce (t_Contract t); t_Buyer := utf8_coerce (t_Buyer t);
     t_Provider := utf8_coerce (t_Provider t); t_CallID := utf8_coerce (t_CallID t);
     t_TaskDigest := utf8_coerce (t_TaskDigest t); t_RequestDigest := utf8_coerce (t_RequestDigest t);
     t_AcknowledgeBy := t_AcknowledgeBy t; t_DeliverBy := t_DeliverBy t;
     t_ReleaseWindow := t_ReleaseWindow t |}.

Definition decode_PaymentIntent (i : PaymentIntent) : PaymentIntent :=
  {| i_IntentID := utf8_coerce (i_IntentID i); i_OrganizationID := utf8_coerce (i_OrganizationID i);
     i_CustomerID := utf8_coerce (i_CustomerID i); i_AgentID := utf8_coerce (i_AgentID i);
     i_TaskID := utf8_coerce (i_TaskID i); i_ActionID := utf8_coerce (i_ActionID i);
     i_Rail := utf8_coerce (i_Rail i); i_ChainID := i_ChainID i;
     i_Recipient := utf8_coerce (i_Recipient i); i_Asset := utf8_coerce (i_Asset i);
     i_AmountAtomic := utf8_coerce (i_AmountAtomic i); i_Resource := utf8_coerce (i_Resource i);
     i_Category := utf8_coerce (i_Category i); i_Purpose := utf8_coerce (i_Purpose i);
     i_Escrow := option_map decode_EscrowTerms (i_Escrow i) |}.

Definition decode_Authorization (a : Authorization) : Authorization :=
  {| a_Version := utf8_coerce (a_Version a); a_AuthorizationID := utf8_coerce (a_AuthorizationID a);
     a_OrganizationID := utf8_coerce (a_OrganizationID a); a_CustomerID := utf8_coerce (a_CustomerID a);
     a_AgentID := utf8_coerce (a_AgentID a); a_TaskID := utf8_coerce (a_TaskID a);
     a_ActionID := utf8_coerce (a_ActionID a); a_Rail := utf8_coerce (a_Rail a);
     a_ChainID := a_ChainID a; a_Recipient := utf8_coerce (a_Recipient a);
     a_Asset := utf8_coerce (a_Asset a); a_AmountAtomic := utf8_coerce (a_AmountAtomic a);
     a_Resource := utf8_coerce (a_Resource a); a_PolicyVersion := utf8_coerce (a_PolicyVersion a);
     a_Nonce := utf8_coerce (a_Nonce a); a_IssuedAt := a_IssuedAt a; a_ExpiresAt := a_ExpiresAt a;
     a_Escrow := option_map (fun p => mkptr (addr p) (decode_EscrowTerms (deref p))) (a_Escrow a) |}.

Definition decode_Decision (d : Decision) : Decision :=
  {| d_Outcome := utf8_coerce (d_Outcome d); d_Reason := utf8_coerce (d_Reason d);
     d_PolicyVersion := utf8_coerce (d_PolicyVersion d) |}.

Definition decode_Approval (a : Approval) : Approval :=
  {| ap_Action := utf8_coerce (ap_Action a); ap_Actor := utf8_coerce (ap_Actor a);
     ap_Note := utf8_coerce (ap_Note a); ap_RequestDigest := utf8_coerce (ap_RequestDigest a);
     ap_DecidedAt := ap_DecidedAt a |}.

Definition decode_LRecord (r : LRecord) : LRecord :=
  {| r_RequestID := utf8_coerce (r_RequestID r); r_Intent := decode_PaymentIntent (r_Intent r);
     r_IntentDigest := utf8_coerce (r_IntentDigest r); r_RequestDigest := utf8_coerce (r_RequestDigest r);
     r_Decision := decode_Decision (r_Decision r); r_State := utf8_coerce (r_State r);
     r_SubmittedAt := r_SubmittedAt r; r_ApprovalExpiresAt := r_ApprovalExpiresAt r;
     r_Approval := option_map decode_Approval (r_Approval r);
     r_Authorization := option_map decode_Authorization (r_Authorization r) |}.

(** [decodePayload(event, &payload)] for each target struct. Members that the
    target does not have are ignored and missing ones leave the zero value, so
    the text of another payload decodes to a zero struct. *)
Definition zero_intent : PaymentIntent := mkPaymentIntent "" "" "" "" "" "" "" 0 "" "" "" "" "" "" None.
Definition zero_record : LRecord := mkLRecord "" zero_intent "" "" (mkDecision "" "" "") "" 0 0 None None.
Definition zero_approval : Approval := mkApproval "" "" "" "" 0.
Definition zero_authorization : Authorization :=
  mkAuthorization "" "" "" "" "" "" "" "" 0 "" "" "" "" "" "" 0 0 None.

Definition decode_submitted (p : LPayload) : LRecord :=
  match p with submittedPayload r => decode_LRecord r | _ => zero_record end.
Definition decode_approval (p : LPayload) : Approval :=
  match p with approvalPayload a => decode_Approval a | _ => zero_approval end.
Definition decode_issued (p : LPayload) : Authorization :=
  match p with issuedPayload a => decode_Authorization a | _ => zero_authorization end.
Definition decode_expired (p : LPayload) : string :=
  match p with expiredPayload reason => utf8_coerce reason | _ => "" end.
