(* ===== verification/Lifecycle.v ===== *)
(** * The authorization lifecycle ([internal/controlplane/lifecycle.go])

    The state is four maps rebuilt by applying the journal's events. An
    operation reads what the outside answers from an [Env] (the clock, the
    gates, the policy provider, the identifier sources, the canonical outcomes,
    the journal's device), appends at most one event per request and applies
    it. The mutex makes each operation one atomic step. *)
From stdpp Require Import base gmap strings list fin_maps sorting.
From Stdlib Require Import ZArith Lia Ascii.
From S2P Require Import Prelude GoText GoJSON Amounts Crypto Envelope PilotLimits Policy Journal Intent.

Open Scope Z_scope.

Definition eventIntentSubmitted : string := "intent.submitted".
Definition eventApprovalDecided : string := "approval.decided".
Definition eventAuthorizationIssued : string := "authorization.issued".
Definition eventIntentExpired : string := "intent.expired".

Definition ErrUnknownRequest : error := "unknown request".
Definition ErrIdempotencyConflict : error := "intent ID already names different content".
Definition ErrNotPendingApproval : error := "request is not pending approval".
Definition ErrNotApproved : error := "request is not approved".
Definition ErrApprovalDigest : error := "approval request digest mismatch".
Definition ErrApprovalExpired : error := "approval window expired".
Definition ErrPolicyChanged : error := "active policy version changed".

Abbreviation CanonicalExecutionState := string (only parsing).
Definition CanonicalExecutionSettled : CanonicalExecutionState := "SETTLED".
Definition CanonicalExecutionReverted : CanonicalExecutionState := "REVERTED".
Definition CanonicalExecutionDropped : CanonicalExecutionState := "DROPPED".

Record FinalizedExecution := mkFinalizedExecution {
  f_ExecutionID : string;
  f_OrganizationID : string;
  f_AgentID : string;
  f_TaskID : string;
  f_ChainID : Z;
  f_Asset : string;
  f_Recipient : string;
  f_AmountAtomic : string;
  f_State : CanonicalExecutionState;
  f_FinalizedAt : Z;
}.

(** One reading of [ExecutionOutcomeSource] and of the clock, per execution;
    [None] for the function when no source is configured. *)
Record Outcomes := mkOutcomes {
  oc_source : option (string -> option FinalizedExecution);
  oc_clock : string -> time;
}.

(** [WithAuthorizationLock]: the gate refuses without running [issue], or runs
    it and returns its error, or an error of its own afterwards. *)
Inductive lock_io :=
| LockRefused (m : error)
| LockRun (after : option error).

(** What the outside answers to one operation. *)
Record Env (E : Type) := mkEnv {
  env_ctx : option error;
  env_now : time;
  env_freeze : string -> string -> string -> option error;
  env_lock : option (string -> string -> string -> lock_io);
  env_chain : Z -> option error;
  env_strictChain : option (Authorization -> option error);
  env_evaluate : PaymentIntent -> SpendSnapshot -> res Decision;
  env_activeVersion : string -> string -> res string;
  env_spend : Outcomes;
  env_pilot : Outcomes;
  env_requestID : res string;
  env_authorizationID : res string;
  env_nonce : res string;
  env_alloc : N;
  env_journal : string -> E;
}.
Arguments env_ctx {E} _.
Arguments env_now {E} _.
Arguments env_freeze {E} _ _ _ _.
Arguments env_lock {E} _.
Arguments env_chain {E} _ _.
Arguments env_strictChain {E} _.
Arguments env_evaluate {E} _ _ _.
Arguments env_activeVersion {E} _ _ _.
Arguments env_spend {E} _.
Arguments env_pilot {E} _.
Arguments env_requestID {E} _.
Arguments env_authorizationID {E} _.
Arguments env_nonce {E} _.
Arguments env_alloc {E} _.
Arguments env_journal {E} _ _.

(** The configuration a [Lifecycle] keeps. *)
Record LConfig := mkLConfig {
  lc_approvalTTL : duration;
  lc_authorizationTTL : duration;
  lc_envelopeKeyID : string;
  lc_envelopePrivateKey : string;
  lc_pilotLimits : option Limits;
}.

(** The maps of the [Lifecycle] struct. *)
Record LMaps := mkLMaps {
  records : gmap string LRecord;
  requestByIntent : gmap string string;
  requestByAuthorization : gmap string string;
  requestByNonce : gmap string string;
}.

Definition empty_maps : LMaps := mkLMaps ∅ ∅ ∅ ∅.

(** ** Reading the state *)

Definition reservationActive (state : LState) : bool :=
  bool_decide (state = StatePendingApproval) || bool_decide (state = StateApproved) ||
  bool_decide (state = StateIssued).

Definition scopedIntentKey (organizationID intentID : string) : string :=
  organizationID +:+ String (char_of 0) "" +:+ intentID.

Definition eventBefore (at_ boundary : Z) : bool := at_ <? boundary.

Definition toPolicyIntent (i : PaymentIntent) : PolicyIntent :=
  {| p_OrganizationID := i_OrganizationID i; p_CustomerID := i_CustomerID i; p_AgentID := i_AgentID i;
     p_TaskID := i_TaskID i; p_ActionID := i_ActionID i; p_Rail := i_Rail i; p_ChainID := i_ChainID i;
     p_Recipient := i_Recipient i; p_Asset := i_Asset i; p_AmountAtomic := i_AmountAtomic i;
     p_Resource := i_Resource i; p_Category := i_Category i |}.

Section Lifecycle.
Context `{Crypto} `{Unicode}.

Definition finalizedExecution (oc : Outcomes) (r : LRecord) : option FinalizedExecution :=
  match bool_decide (r_State r = StateIssued), r_Authorization r, oc_source oc with
  | true, Some a, Some source =>
      if negb (bool_decide (a_Rail a = RailDirect) || bool_decide (a_Rail a = RailX402)) then None else
      match source (ExecutionID (a_AuthorizationID a)) with
      | None => None
      | Some f =>
          if (bool_decide (f_State f = CanonicalExecutionSettled) ||
              bool_decide (f_State f = CanonicalExecutionReverted) ||
              bool_decide (f_State f = CanonicalExecutionDropped)) &&
             bool_decide (f_ExecutionID f = ExecutionID (a_AuthorizationID a)) &&
             bool_decide (f_OrganizationID f = a_OrganizationID a) &&
             bool_decide (f_AgentID f = a_AgentID a) && bool_decide (f_TaskID f = a_TaskID a) &&
             (f_ChainID f =? a_ChainID a) && bool_decide (f_Asset f = a_Asset a) &&
             bool_decide (f_Recipient f = a_Recipient a) &&
             bool_decide (f_AmountAtomic f = a_AmountAtomic a) &&
             (a_IssuedAt a <=? f_FinalizedAt f) &&
             (f_FinalizedAt f <=? Unix (oc_clock oc (ExecutionID (a_AuthorizationID a))))
          then Some f else None
      end
  | _, _, _ => None
  end.

Definition same_customer (r : LRecord) (i : PaymentIntent) : bool :=
  bool_decide (i_OrganizationID (r_Intent r) = i_OrganizationID i) &&
  bool_decide (i_CustomerID (r_Intent r) = i_CustomerID i).

(** [new(big.Int).SetString(amount, 10)], skipped when it does not parse. *)
Definition record_amount (r : LRecord) : Z := default 0 (SetString10 (i_AmountAtomic (r_Intent r))).

Definition same_task (r : LRecord) (i : PaymentIntent) : bool :=
  bool_decide (i_TaskID (r_Intent r) = i_TaskID i).

(** What one record adds to the reserved totals: active and not finalized. *)
Definition reserved_amount (oc : Outcomes) (i : PaymentIntent) (r : LRecord) : Z :=
  if same_customer r i && reservationActive (r_State r) &&
     bool_decide (finalizedExecution oc r = None)
  then record_amount r else 0.

(** What one record adds to the spent totals: finalized as settled. *)
Definition settled (oc : Outcomes) (r : LRecord) : bool :=
  match finalizedExecution oc r with
  | Some f => bool_decide (f_State f = CanonicalExecutionSettled)
  | None => false
  end.

Definition settled_today (oc : Outcomes) (now : time) (r : LRecord) : bool :=
  match finalizedExecution oc r with
  | Some f => bool_decide (f_State f = CanonicalExecutionSettled) &&
              same_utc_day (time_of_unix (f_FinalizedAt f)) now
  | None => false
  end.

Definition taskReserved (m : LMaps) (oc : Outcomes) (i : PaymentIntent) : Z :=
  map_sum (fun _ r => if same_task r i then reserved_amount oc i r else 0) (records m).
Definition dailyReserved (m : LMaps) (oc : Outcomes) (i : PaymentIntent) : Z :=
  map_sum (fun _ r => reserved_amount oc i r) (records m).
Definition taskSpent (m : LMaps) (oc : Outcomes) (i : PaymentIntent) : Z :=
  map_sum (fun _ r => if same_customer r i && settled oc r && same_task r i then record_amount r else 0)
    (records m).
Definition dailySpent (m : LMaps) (oc : Outcomes) (i : PaymentIntent) (now : time) : Z :=
  map_sum (fun _ r => if same_customer r i && settled_today oc now r then record_amount r else 0)
    (records m).

Definition spendSnapshot (m : LMaps) (oc : Outcomes) (i : PaymentIntent) (now : time) : SpendSnapshot :=
  {| sp_TaskSpentAtomic := dec_string (taskSpent m oc i);
     sp_TaskReservedAtomic := dec_string (taskReserved m oc i);
     sp_DailySpentAtomic := dec_string (dailySpent m oc i now);
     sp_DailyReservedAtomic := dec_string (dailyReserved m oc i) |}.

Definition pilotOutstanding (m : LMaps) (oc : Outcomes) (i : PaymentIntent) : string :=
  dec_string (map_sum (fun _ r => reserved_amount oc i r) (records m)).

(** ** Applying events *)

Definition authorizationMatches (r : LRecord) (a : Authorization) : res unit :=
  try _ := Authorization_Validate a in
  let i := r_Intent r in
  check bool_decide (a_OrganizationID a = i_OrganizationID i) &&
        bool_decide (a_CustomerID a = i_CustomerID i) && bool_decide (a_AgentID a = i_AgentID i) &&
        bool_decide (a_TaskID a = i_TaskID i) && bool_decide (a_ActionID a = i_ActionID i) &&
        bool_decide (a_Rail a = i_Rail i) && (a_ChainID a =? i_ChainID i) &&
        bool_decide (a_Recipient a = i_Recipient i) && bool_decide (a_Asset a = i_Asset i) &&
        bool_decide (a_AmountAtomic a = i_AmountAtomic i) && bool_decide (a_Resource a = i_Resource i) &&
        bool_decide (escrow_of a = i_Escrow i) &&
        bool_decide (a_PolicyVersion a = d_PolicyVersion (r_Decision r)) &&
        (r_SubmittedAt r <=? a_IssuedAt a) && (a_ExpiresAt a <=? r_ApprovalExpiresAt r)
    else "authorization does not match approved intent" ;;
  Ok tt.

Definition set_record (m : LMaps) (requestID : string) (r : LRecord) : LMaps :=
  {| records := <[requestID := r]> (records m); requestByIntent := requestByIntent m;
     requestByAuthorization := requestByAuthorization m; requestByNonce := requestByNonce m |}.

Definition with_state (r : LRecord) (state : LState) (approval : option Approval)
    (authorization : option Authorization) : LRecord :=
  {| r_RequestID := r_RequestID r; r_Intent := r_Intent r; r_IntentDigest := r_IntentDigest r;
     r_RequestDigest := r_RequestDigest r; r_Decision := r_Decision r; r_State := state;
     r_SubmittedAt := r_SubmittedAt r; r_ApprovalExpiresAt := r_ApprovalExpiresAt r;
     r_Approval := approval; r_Authorization := authorization |}.

Definition apply_submitted (m : LMaps) (e : Event LPayload) : res LMaps :=
  let record := decode_submitted (ev_Payload e) in
  check bool_decide (ev_RequestID e = r_RequestID record) && (ev_At e =? r_SubmittedAt record)
    else "submitted event identity or time mismatch" ;;
  check bool_decide (records m !! r_RequestID record = None) else "duplicate request ID" ;;
  let intentKey := scopedIntentKey (i_OrganizationID (r_Intent record)) (i_IntentID (r_Intent record)) in
  check bool_decide (requestByIntent m !! intentKey = None) else "duplicate intent ID" ;;
  match PaymentIntent_Digest (r_Intent record) with
  | Err _ => Err "intent digest mismatch"
  | Ok intentDigest =>
      check bool_decide (intentDigest = r_IntentDigest record) else "intent digest mismatch" ;;
      check bool_decide (requestDigest (r_RequestID record) (r_IntentDigest record) (r_Decision record)
                           (r_ApprovalExpiresAt record) = r_RequestDigest record)
        else "request digest mismatch" ;;
      match decisionState (r_Decision record) with
      | Err _ => Err "submitted state does not match decision"
      | Ok state =>
          match r_Approval record, r_Authorization record with
          | None, None =>
              check bool_decide (state = r_State record) else "submitted state does not match decision" ;;
              Ok {| records := <[r_RequestID record := record]> (records m);
                    requestByIntent := <[intentKey := r_RequestID record]> (requestByIntent m);
                    requestByAuthorization := requestByAuthorization m;
                    requestByNonce := requestByNonce m |}
          | _, _ => Err "submitted state does not match decision"
          end
      end
  end.

Definition apply_approval (m : LMaps) (e : Event LPayload) : res LMaps :=
  let approval := decode_approval (ev_Payload e) in
  match records m !! ev_RequestID e with
  | None => Err "approval event is invalid for current request"
  | Some record =>
      check bool_decide (r_State record = StatePendingApproval) &&
            bool_decide (ap_RequestDigest approval = r_RequestDigest record) &&
            (ap_DecidedAt approval =? ev_At e) &&
            eventBefore (ev_At e) (r_ApprovalExpiresAt record) &&
            idPattern (ap_Actor approval) && (str_len (ap_Note approval) <=? 2048)
        else "approval event is invalid for current request" ;;
      try state :=
        (if bool_decide (ap_Action approval = Approve) then Ok StateApproved
         else if bool_decide (ap_Action approval = Reject) then Ok StateRejected
         else Err "approval action is invalid") in
      Ok (set_record m (ev_RequestID e)
            (with_state record state (Some approval) (r_Authorization record)))
  end.

Definition apply_issued (m : LMaps) (e : Event LPayload) : res LMaps :=
  let authorization := decode_issued (ev_Payload e) in
  match records m !! ev_RequestID e with
  | None => Err "issuance event is invalid for current request"
  | Some record =>
      check bool_decide (r_State record = StateApproved) && (a_IssuedAt authorization =? ev_At e) &&
            eventBefore (ev_At e) (r_ApprovalExpiresAt record)
        else "issuance event is invalid for current request" ;;
      try _ := authorizationMatches record authorization in
      check bool_decide (requestByAuthorization m !! a_AuthorizationID authorization = None)
        else "duplicate authorization ID" ;;
      check bool_decide (requestByNonce m !! a_Nonce authorization = None)
        else "duplicate authorization nonce" ;;
      Ok {| records := <[ev_RequestID e := with_state record StateIssued (r_Approval record) (Some authorization)]> (records m);
            requestByIntent := requestByIntent m;
            requestByAuthorization := <[a_AuthorizationID authorization := ev_RequestID e]> (requestByAuthorization m);
            requestByNonce := <[a_Nonce authorization := ev_RequestID e]> (requestByNonce m) |}
  end.

Definition apply_expired (m : LMaps) (e : Event LPayload) : res LMaps :=
  let reason := decode_expired (ev_Payload e) in
  check negb (bool_decide (TrimSpace reason = "")) else "expiry event is invalid" ;;
  match records m !! ev_RequestID e with
  | None => Err "expiry event is invalid for current request"
  | Some record =>
      check (bool_decide (r_State record = StatePendingApproval) ||
             bool_decide (r_State record = StateApproved)) &&
            negb (ev_At e <? r_ApprovalExpiresAt record)
        else "expiry event is invalid for current request" ;;
      Ok (set_record m (ev_RequestID e)
            (with_state record StateExpired (r_Approval record) (r_Authorization record)))
  end.

Definition applyEvent (m : LMaps) (e : Event LPayload) : res LMaps :=
  if bool_decide (ev_Kind e = eventIntentSubmitted) then apply_submitted m e
  else if bool_decide (ev_Kind e = eventApprovalDecided) then apply_approval m e
  else if bool_decide (ev_Kind e = eventAuthorizationIssued) then apply_issued m e
  else if bool_decide (ev_Kind e = eventIntentExpired) then apply_expired m e
  else Err "unknown event kind".
End Lifecycle.

(** ** Operations *)

Record Lifecycle (J : Type) := mkLifecycle {
  l_journal : J;
  l_maps : LMaps;
}.
Arguments mkLifecycle {J} _ _.
Arguments l_journal {J} _.
Arguments l_maps {J} _.

Section Operations.
Context `{Crypto} `{Unicode} {J E : Type} `{EventJournal J E LPayload} (cfg : LConfig).
Implicit Types (l : Lifecycle J) (env : Env E).

(** [New]: the guards on the configuration, then the replay of the journal. The
    presence of the collaborators is a matter of the types here. *)
Definition New (journal : J) : res (Lifecycle J) :=
  match lc_pilotLimits cfg with
  | None => Err "policy provider, journal, freeze gate, chain gate, and pilot limits are required"
  | Some _ =>
      check (0 <? lc_approvalTTL cfg) && (0 <? lc_authorizationTTL cfg) &&
            (lc_authorizationTTL cfg <=? lc_approvalTTL cfg)
        else "authorization TTL must be positive and no longer than approval TTL" ;;
      check idPattern (lc_envelopeKeyID cfg) && (str_len (lc_envelopePrivateKey cfg) =? PrivateKeySize)
        else "envelope signing identity is invalid" ;;
      try m := fold_res applyEvent empty_maps (ej_Events journal) in
      Ok (mkLifecycle journal m)
  end.

(** [l.journal.Append(...)] followed by [l.applyEvent(event)]. *)
Definition append_apply l env (kind requestID : string) (payload : LPayload) : Lifecycle J * res unit :=
  match ej_Append (l_journal l) (env_ctx env) (env_journal env requestID) (env_now env) kind requestID payload with
  | (journal, Err m) => (mkLifecycle journal (l_maps l), Err m)
  | (journal, Ok event) =>
      match applyEvent (l_maps l) event with
      | Err m => (mkLifecycle journal (l_maps l), Err m)
      | Ok m => (mkLifecycle journal m, Ok tt)
      end
  end.

(** [l.records[requestID]]: the zero value when absent. *)
Definition get_record l (requestID : string) : LRecord := default zero_record (records (l_maps l) !! requestID).

(** The pilot limits overrule an approving decision. *)
Definition limited_decision l env (intent : PaymentIntent) (decision : Decision) : res Decision :=
  if bool_decide (d_Outcome decision = Deny) then Ok decision else
  match pilot_Check (lc_pilotLimits cfg) (i_AmountAtomic intent)
          (pilotOutstanding (l_maps l) (env_pilot env) intent) with
  | Ok _ => Ok decision
  | Err limitErr =>
      if bool_decide (limitErr = ErrPerActionExceeded) then
        Ok {| d_Outcome := Deny; d_Reason := ReasonPilotPerActionLimit; d_PolicyVersion := d_PolicyVersion decision |}
      else if bool_decide (limitErr = ErrOutstandingExceeded) then
        Ok {| d_Outcome := Deny; d_Reason := ReasonPilotOutstandingLimit; d_PolicyVersion := d_PolicyVersion decision |}
      else Err limitErr
  end.

(** The record [Submit] is about to append, or the reason it refuses. *)
Definition submit_record l env (intent : PaymentIntent) (intentDigest : string) : res LRecord :=
  try _ := of_err (env_freeze env (i_OrganizationID intent) (i_TaskID intent) (i_AgentID intent)) in
  let now := env_now env in
  try evaluated := env_evaluate env intent (spendSnapshot (l_maps l) (env_spend env) intent now) in
  check idPattern (d_PolicyVersion evaluated) else "policy returned an invalid version identifier" ;;
  try decision := limited_decision l env intent evaluated in
  try state := decisionState decision in
  try requestID := env_requestID env in
  check idPattern requestID else "generated request ID is invalid" ;;
  check bool_decide (records (l_maps l) !! requestID = None) else "generated request ID already exists" ;;
  let expiresAt := Unix (time_add now (lc_approvalTTL cfg)) in
  Ok {| r_RequestID := requestID; r_Intent := intent; r_IntentDigest := intentDigest;
        r_RequestDigest := requestDigest requestID intentDigest decision expiresAt;
        r_Decision := decision; r_State := state; r_SubmittedAt := Unix now;
        r_ApprovalExpiresAt := expiresAt; r_Approval := None; r_Authorization := None |}.

Definition Submit l env (intent : PaymentIntent) : Lifecycle J * res LRecord :=
  match PaymentIntent_Digest intent with
  | Err m => (l, Err m)
  | Ok intentDigest =>
  match requestByIntent (l_maps l) !! scopedIntentKey (i_OrganizationID intent) (i_IntentID intent) with
  | Some requestID =>
      let existing := get_record l requestID in
      if bool_decide (r_IntentDigest existing = intentDigest) then (l, Ok existing)
      else (l, Err ErrIdempotencyConflict)
  | None =>
  match submit_record l env intent intentDigest with
  | Err m => (l, Err m)
  | Ok record =>
      match append_apply l env eventIntentSubmitted (r_RequestID record) (submittedPayload record) with
      | (l', Err m) => (l', Err m)
      | (l', Ok _) => (l', Ok (get_record l' (r_RequestID record)))
      end
  end end end.

Definition expireLocked l env (record : LRecord) (reason : string) : Lifecycle J * res unit :=
  append_apply l env eventIntentExpired (r_RequestID record) (expiredPayload reason).

Definition Decide l env (requestID requestDigest : string) (action : ApprovalAction) (actor note : string)
    : Lifecycle J * res LRecord :=
  if negb (bool_decide (action = Approve) || bool_decide (action = Reject))
  then (l, Err "approval action is invalid") else
  if negb (idPattern actor) || (2048 <? str_len note)
  then (l, Err "approval actor or note is invalid") else
  match records (l_maps l) !! requestID with
  | None => (l, Err ErrUnknownRequest)
  | Some record =>
  if negb (bool_decide (r_State record = StatePendingApproval)) then (l, Err ErrNotPendingApproval) else
  if negb (bool_decide (requestDigest = r_RequestDigest record)) then (l, Err ErrApprovalDigest) else
  let now := env_now env in
  if negb (time_before now (time_of_unix (r_ApprovalExpiresAt record))) then
    match expireLocked l env record "approval window elapsed before decision" with
    | (l', Err m) => (l', Err m)
    | (l', Ok _) => (l', Err ErrApprovalExpired)
    end
  else
    let approval := {| ap_Action := action; ap_Actor := actor; ap_Note := note;
                       ap_RequestDigest := requestDigest; ap_DecidedAt := Unix now |} in
    match append_apply l env eventApprovalDecided requestID (approvalPayload approval) with
    | (l', Err m) => (l', Err m)
    | (l', Ok _) => (l', Ok (get_record l' requestID))
    end
  end.

Definition checkChain env (record : LRecord) : option error :=
  match r_Authorization record, env_strictChain env with
  | Some authorization, Some strict => strict authorization
  | _, _ => env_chain env (i_ChainID (r_Intent record))
  end.

(** The earlier of the authorization TTL, the approval window and the escrow
    acknowledgement deadline. *)
Definition issue_expiry (now : time) (record : LRecord) : res time :=
  let expiresAt := time_add now (lc_authorizationTTL cfg) in
  let approvalExpiry := time_of_unix (r_ApprovalExpiresAt record) in
  let expiresAt := if time_after expiresAt approvalExpiry then approvalExpiry else expiresAt in
  match i_Escrow (r_Intent record) with
  | None => Ok expiresAt
  | Some t =>
      let acknowledgeBy := time_of_unix (int64 (t_AcknowledgeBy t)) in
      check time_before now acknowledgeBy
        else "escrow acknowledgement deadline elapsed before authorization issuance" ;;
      Ok (if time_after expiresAt acknowledgeBy then acknowledgeBy else expiresAt)
  end.

Definition authorization_for env (record : LRecord) (authorizationID nonce : string) (expiresAt : time) : Authorization :=
  let i := r_Intent record in
  {| a_Version := Envelope_Version; a_AuthorizationID := authorizationID;
     a_OrganizationID := i_OrganizationID i; a_CustomerID := i_CustomerID i; a_AgentID := i_AgentID i;
     a_TaskID := i_TaskID i; a_ActionID := i_ActionID i; a_Rail := i_Rail i; a_ChainID := i_ChainID i;
     a_Recipient := i_Recipient i; a_Asset := i_Asset i; a_AmountAtomic := i_AmountAtomic i;
     a_Resource := i_Resource i; a_PolicyVersion := d_PolicyVersion (r_Decision record);
     a_Nonce := nonce; a_IssuedAt := Unix (env_now env); a_ExpiresAt := Unix expiresAt;
     a_Escrow := option_map (mkptr (env_alloc env)) (i_Escrow i) |}.

(** What [issueLocked] signs, up to the append. *)
Definition issue_signed l env (record : LRecord) : res SignedAuthorization :=
  let i := r_Intent record in
  try active := env_activeVersion env (i_OrganizationID i) (i_AgentID i) in
  check bool_decide (active = d_PolicyVersion (r_Decision record)) else ErrPolicyChanged ;;
  try _ := of_err (checkChain env record) in
  try authorizationID := env_authorizationID env in
  try nonce := env_nonce env in
  try expiresAt := issue_expiry (env_now env) record in
  let authorization := authorization_for env record authorizationID nonce expiresAt in
  try signed := Sign authorization (lc_envelopeKeyID cfg) (lc_envelopePrivateKey cfg) in
  check bool_decide (requestByAuthorization (l_maps l) !! a_AuthorizationID authorization = None)
    else "generated authorization ID already exists" ;;
  check bool_decide (requestByNonce (l_maps l) !! a_Nonce authorization = None)
    else "generated nonce already exists" ;;
  Ok signed.

Definition issueLocked l env (record : LRecord) : Lifecycle J * res SignedAuthorization :=
  match issue_signed l env record with
  | Err m => (l, Err m)
  | Ok signed =>
      match append_apply l env eventAuthorizationIssued (r_RequestID record)
              (issuedPayload (s_Authorization signed)) with
      | (l', Err m) => (l', Err m)
      | (l', Ok _) => (l', Ok signed)
      end
  end.

(** [Issue] for a request that has no authorization yet. *)
Definition issue_new l env (record : LRecord) : Lifecycle J * res SignedAuthorization :=
  if negb (bool_decide (r_State record = StateApproved)) then (l, Err ErrNotApproved) else
  if negb (time_before (env_now env) (time_of_unix (r_ApprovalExpiresAt record))) then
    match expireLocked l env record "approval window elapsed before issuance" with
    | (l', Err m) => (l', Err m)
    | (l', Ok _) => (l', Err ErrApprovalExpired)
    end
  else
  let i := r_Intent record in
  match env_lock env with
  | Some gate =>
      match gate (i_OrganizationID i) (i_TaskID i) (i_AgentID i) with
      | LockRefused m => (l, Err m)
      | LockRun after =>
          match issueLocked l env record with
          | (l', Err m) => (l', Err m)
          | (l', Ok signed) => (l', match after with Some m => Err m | None => Ok signed end)
          end
      end
  | None =>
      match env_freeze env (i_OrganizationID i) (i_TaskID i) (i_AgentID i) with
      | Some m => (l, Err m)
      | None => issueLocked l env record
      end
  end.

Definition Issue l env (requestID : string) : Lifecycle J * res SignedAuthorization :=
  match records (l_maps l) !! requestID with
  | None => (l, Err ErrUnknownRequest)
  | Some record =>
      match bool_decide (r_State record = StateIssued), r_Authorization record with
      | true, Some authorization =>
          match checkChain env record with
          | Some m => (l, Err m)
          | None => (l, Sign authorization (lc_envelopeKeyID cfg) (lc_envelopePrivateKey cfg))
          end
      | _, _ => issue_new l env record
      end
  end.

(** The requests whose window has elapsed, in the order of [sort.Strings]. *)
Definition sweepable (now : time) (record : LRecord) : bool :=
  (bool_decide (r_State record = StatePendingApproval) || bool_decide (r_State record = StateApproved)) &&
  negb (time_before now (time_of_unix (r_ApprovalExpiresAt record))).

Definition str_le (a b : string) : Prop := String.leb a b = true.
#[local] Instance str_le_dec : RelDecision str_le.
Proof. intros a b. unfold str_le. apply _. Defined.

Definition sweep_ids (m : LMaps) (now : time) : list string :=
  merge_sort str_le (map fst (filter (fun p : string * LRecord => sweepable now p.2 = true) (map_to_list (records m)))).

Fixpoint sweep_loop l env (requestIDs : list string) (completed : Z) : Lifecycle J * Z * option error :=
  match requestIDs with
  | [] => (l, completed, None)
  | requestID :: requestIDs =>
      match expireLocked l env (get_record l requestID) "approval window elapsed during sweep" with
      | (l', Err m) => (l', completed, Some m)
      | (l', Ok _) => sweep_loop l' env requestIDs (completed + 1)
      end
  end.

Definition SweepExpired l env : Lifecycle J * Z * option error :=
  sweep_loop l env (sweep_ids (l_maps l) (env_now env)) 0.

(** ** Queries *)

Definition Get l (requestID : string) : option LRecord := records (l_maps l) !! requestID.

Definition GetByAuthorization l (authorizationID : string) : option LRecord :=
  match requestByAuthorization (l_maps l) !! authorizationID with
  | None => None
  | Some requestID => records (l_maps l) !! requestID
  end.

Definition record_le (a b : LRecord) : Prop := str_le (r_RequestID a) (r_RequestID b).
#[local] Instance record_le_dec : RelDecision record_le.
Proof. intros a b. unfold record_le. apply _. Defined.

Definition PendingApprovals l : list LRecord :=
  merge_sort record_le
    (filter (fun r => bool_decide (r_State r = StatePendingApproval) = true)
       (map snd (map_to_list (records (l_maps l))))).
End Operations.
