(* ===== verification/LifecycleFacts.v ===== *)
(** * The lifecycle's invariant

    What every state that [applyEvent] can build satisfies: each record is in a
    state its decision, approval and authorization justify, and the three
    indexes agree with the records. *)
From stdpp Require Import base gmap strings list fin_maps sorting.
From Stdlib Require Import ZArith Lia Ascii.
From S2P Require Import Prelude GoText GoJSON Amounts Crypto Envelope PilotLimits Policy Journal Intent Lifecycle.

Open Scope Z_scope.

Section Facts.
Context `{Crypto} `{Unicode}.
Implicit Types (m : LMaps) (r : LRecord) (e : Event LPayload).

(** ** The invariant *)

(** An approval that a reviewer gave for exactly this request, in time. *)
Definition approval_for r (action : ApprovalAction) (ap : Approval) : Prop :=
  ap_Action ap = action /\ ap_RequestDigest ap = r_RequestDigest r /\
  ap_DecidedAt ap < r_ApprovalExpiresAt r /\ idPattern (ap_Actor ap) = true.

(** The request may be issued: the policy approved it, or a reviewer did. *)
Definition approved r : Prop :=
  (d_Outcome (r_Decision r) = AutoApprove /\ r_Approval r = None) \/
  (d_Outcome (r_Decision r) = RequireApproval /\ exists ap, r_Approval r = Some ap /\ approval_for r Approve ap).

(** The state a record is in, and what it rests on. *)
Inductive justified r : Prop :=
| just_denied : r_State r = StateDenied -> d_Outcome (r_Decision r) = Deny ->
    r_Approval r = None -> r_Authorization r = None -> justified r
| just_pending : r_State r = StatePendingApproval -> d_Outcome (r_Decision r) = RequireApproval ->
    r_Approval r = None -> r_Authorization r = None -> justified r
| just_approved : r_State r = StateApproved -> approved r -> r_Authorization r = None -> justified r
| just_rejected ap : r_State r = StateRejected -> d_Outcome (r_Decision r) = RequireApproval ->
    r_Approval r = Some ap -> approval_for r Reject ap -> r_Authorization r = None -> justified r
| just_issued a : r_State r = StateIssued -> approved r -> r_Authorization r = Some a ->
    authorizationMatches r a = Ok tt -> a_IssuedAt a < r_ApprovalExpiresAt r -> justified r
| just_expired : r_State r = StateExpired ->
    (d_Outcome (r_Decision r) = RequireApproval /\ r_Approval r = None \/ approved r) ->
    r_Authorization r = None -> justified r.

Record record_ok (id : string) r : Prop := {
  ro_id : r_RequestID r = id;
  ro_digest : PaymentIntent_Digest (r_Intent r) = Ok (r_IntentDigest r);
  ro_request : requestDigest (r_RequestID r) (r_IntentDigest r) (r_Decision r) (r_ApprovalExpiresAt r) = r_RequestDigest r;
  ro_state : justified r;
}.

Definition record_key r : string := scopedIntentKey (i_OrganizationID (r_Intent r)) (i_IntentID (r_Intent r)).

Record maps_ok m : Prop := {
  mo_records : map_Forall record_ok (records m);
  mo_intent key id : requestByIntent m !! key = Some id <-> exists r, records m !! id = Some r /\ record_key r = key;
  mo_auth aid id : requestByAuthorization m !! aid = Some id <->
    exists r a, records m !! id = Some r /\ r_Authorization r = Some a /\ a_AuthorizationID a = aid;
  mo_nonce nonce id : requestByNonce m !! nonce = Some id <->
    exists r a, records m !! id = Some r /\ r_Authorization r = Some a /\ a_Nonce a = nonce;
}.

Lemma empty_maps_ok : maps_ok empty_maps.
Proof.
  split; [apply map_Forall_empty|..]; intros *; cbn; rewrite lookup_empty;
    (split; [done|]); [intros (r & E & _)|intros (r & a & E & _)..]; by rewrite lookup_empty in E.
Qed.

(** ** What one event does *)

(** The fields that no event changes. *)
Definition same_request r r' : Prop :=
  r_RequestID r' = r_RequestID r /\ r_Intent r' = r_Intent r /\ r_IntentDigest r' = r_IntentDigest r /\
  r_RequestDigest r' = r_RequestDigest r /\ r_Decision r' = r_Decision r /\
  r_SubmittedAt r' = r_SubmittedAt r /\ r_ApprovalExpiresAt r' = r_ApprovalExpiresAt r.

(** The moves of one record. *)
Inductive moves e : LRecord -> LRecord -> Prop :=
| move_decided r ap state :
    r_State r = StatePendingApproval -> ap = decode_approval (ev_Payload e) ->
    (ap_Action ap = Approve /\ state = StateApproved \/ ap_Action ap = Reject /\ state = StateRejected) ->
    approval_for r (ap_Action ap) ap -> ap_DecidedAt ap = ev_At e ->
    moves e r (with_state r state (Some ap) (r_Authorization r))
| move_issued r a :
    r_State r = StateApproved -> a = decode_issued (ev_Payload e) ->
    authorizationMatches r a = Ok tt -> a_IssuedAt a = ev_At e -> ev_At e < r_ApprovalExpiresAt r ->
    moves e r (with_state r StateIssued (r_Approval r) (Some a))
| move_expired r :
    r_State r = StatePendingApproval \/ r_State r = StateApproved -> r_ApprovalExpiresAt r <= ev_At e ->
    moves e r (with_state r StateExpired (r_Approval r) (r_Authorization r)).

Lemma apply_submitted_ok m e m' :
  apply_submitted m e = Ok m' ->
  exists r, r = decode_submitted (ev_Payload e) /\ r_RequestID r = ev_RequestID e /\
    ev_At e = r_SubmittedAt r /\
    records m !! r_RequestID r = None /\ requestByIntent m !! record_key r = None /\
    record_ok (r_RequestID r) r /\ r_Approval r = None /\ r_Authorization r = None /\
    m' = {| records := <[r_RequestID r := r]> (records m);
            requestByIntent := <[record_key r := r_RequestID r]> (requestByIntent m);
            requestByAuthorization := requestByAuthorization m; requestByNonce := requestByNonce m |}.
Proof.
  unfold apply_submitted. generalize (decode_submitted (ev_Payload e)). intros r.
  rewrite !check_ok_iff. intros (Hid & Hf & Hk & Hd).
  destruct (PaymentIntent_Digest (r_Intent r)) as [d|] eqn:Ed; [|done].
  rewrite !check_ok_iff in Hd. destruct Hd as (Hdi & Hrq & Hst).
  destruct (decisionState (r_Decision r)) as [st|] eqn:Es; [|done].
  destruct (r_Approval r) eqn:Eap; [done|]. destruct (r_Authorization r) eqn:Eau; [done|].
  rewrite check_ok_iff in Hst. destruct Hst as [Hst [= <-]]. to_prop. destruct Hid. subst d st.
  exists r. do 5 (split; [done|]). split; [|done]. split; [done|done|done|].
  unfold decisionState in Es. repeat case_bool_decide; try done; injection Es as Es.
  - by apply just_denied.
  - by apply just_pending.
  - apply just_approved; [done| |done]. by left.
Qed.

Lemma apply_move m e m' :
  applyEvent m e = Ok m' -> ev_Kind e <> eventIntentSubmitted ->
  exists r r', records m !! ev_RequestID e = Some r /\ moves e r r' /\
    records m' = <[ev_RequestID e := r']> (records m) /\ requestByIntent m' = requestByIntent m /\
    (r_Authorization r' = r_Authorization r /\ requestByAuthorization m' = requestByAuthorization m /\
     requestByNonce m' = requestByNonce m \/
     exists a, r_State r = StateApproved /\ r_Authorization r' = Some a /\
       requestByAuthorization m !! a_AuthorizationID a = None /\ requestByNonce m !! a_Nonce a = None /\
       requestByAuthorization m' = <[a_AuthorizationID a := ev_RequestID e]> (requestByAuthorization m) /\
       requestByNonce m' = <[a_Nonce a := ev_RequestID e]> (requestByNonce m)).
Proof.
  unfold applyEvent. intros Ha Hk. rewrite bool_decide_eq_false_2 in Ha by done.
  case_bool_decide; [|case_bool_decide; [|case_bool_decide; [|done]]].
  - unfold apply_approval in Ha. destruct (records m !! ev_RequestID e) as [r|]; [|done].
    rewrite check_ok_iff, try_ok_iff in Ha. destruct Ha as (Hc & st & Hst & [= <-]).
    unfold eventBefore in Hc. to_prop. destruct_and!. exists r.
    exists (with_state r st (Some (decode_approval (ev_Payload e))) (r_Authorization r)). split; [done|].
    split; [eapply move_decided; [done|done| |split_and!; [done|done|lia|done]|done]|].
    + repeat case_bool_decide; try done; injection Hst as <-; auto.
    + split; [done|]. split; [done|]. by left.
  - unfold apply_issued in Ha. destruct (records m !! ev_RequestID e) as [r|]; [|done].
    rewrite check_ok_iff, try_unit_iff, !check_ok_iff in Ha.
    destruct Ha as (Hc & Hm & Hna & Hnn & [= <-]). unfold eventBefore in Hc. to_prop. destruct_and!.
    exists r. eexists. split; [done|]. split; [by eapply move_issued|].
    split; [done|]. split; [done|]. right. by eexists.
  - unfold apply_expired in Ha. rewrite check_ok_iff in Ha. destruct Ha as [_ Ha].
    destruct (records m !! ev_RequestID e) as [r|]; [|done].
    rewrite check_ok_iff in Ha. destruct Ha as (Hc & [= <-]). to_prop. destruct Hc as [Hst Hx].
    exists r. eexists. split; [done|]. split; [by eapply move_expired|]. split; [done|]. split; [done|]. by left.
Qed.

Lemma moves_same e r r' : moves e r r' -> same_request r r'.
Proof. by destruct 1. Qed.

Lemma authorizationMatches_same r r' a : same_request r r' -> authorizationMatches r' a = authorizationMatches r a.
Proof. intros (E1 & E2 & E3 & E4 & E5 & E6 & E7). unfold authorizationMatches. by rewrite E2, E5, E6, E7. Qed.

Lemma approved_same r r' : same_request r r' -> r_Approval r' = r_Approval r -> approved r -> approved r'.
Proof.
  intros (E1 & E2 & E3 & E4 & E5 & E6 & E7) E8. unfold approved, approval_for.
  by rewrite E4, E5, E7, E8.
Qed.

Ltac state_absurd :=
  match goal with
  | H1 : r_State ?r = _, H2 : r_State ?r = _ |- _ => rewrite H1 in H2; discriminate H2
  end.

Lemma moves_justified e r r' : justified r -> moves e r r' -> justified r'.
Proof.
  intros Hj Hm. pose proof (moves_same _ _ _ Hm) as Hs.
  destruct Hm as [r ap st Hst Hap Hact Hfor _|r a Hst Ha Hmat Hiss Hlt|r Hst Hx].
  - destruct Hj as [| ? Ho Hn Ha | | | |]; try state_absurd. destruct Hact as [[Ea ->]|[Ea ->]].
    + apply just_approved; [done| |done]. right. split; [done|]. exists ap. split; [done|].
      by rewrite Ea in Hfor.
    + rewrite Ea in Hfor. by apply (just_rejected _ ap).
  - destruct Hj as [| |? Hok Hn| | |]; try state_absurd.
    apply (just_issued _ a); [done|by eapply approved_same|done|done|cbn; lia].
  - apply just_expired; [done| |].
    + destruct Hst as [Hst|Hst]; destruct Hj; try state_absurd; [by left|right].
      by eapply approved_same.
    + cbn. destruct Hst as [Hst|Hst]; destruct Hj; try state_absurd; done.
Qed.

Lemma record_ok_moves e id r r' : record_ok id r -> moves e r r' -> record_ok id r'.
Proof.
  intros [Hi Hd Hq Hj] Hm. pose proof (moves_justified _ _ _ Hj Hm) as Hj'.
  apply moves_same in Hm as (E1 & E2 & E3 & E4 & E5 & E6 & E7).
  split; [congruence| | |done].
  - by rewrite E2, E3.
  - by rewrite E1, E3, E4, E5, E7.
Qed.

(** A record with an authorization is issued and keeps it. *)
Lemma justified_auth r a : justified r -> r_Authorization r = Some a ->
  r_State r = StateIssued /\ approved r /\ authorizationMatches r a = Ok tt /\ a_IssuedAt a < r_ApprovalExpiresAt r.
Proof. destruct 1; intros E; try congruence. assert (a0 = a) as -> by congruence. done. Qed.

Lemma justified_unissued r : justified r -> r_State r <> StateIssued -> r_Authorization r = None.
Proof. destruct 1; intros Hs; done. Qed.

Lemma moves_key e r r' : moves e r r' -> record_key r' = record_key r.
Proof. intros (_ & E & _)%moves_same. unfold record_key. by rewrite E. Qed.

Lemma moves_unissued e r r' : justified r -> moves e r r' -> r_Authorization r = None.
Proof.
  intros Hj Hm. apply justified_unissued; [done|].
  destruct Hm as [? ? ? Hs|? ? Hs|? [Hs|Hs]]; rewrite Hs; done.
Qed.

(** An index stays in step when one record is replaced by one with the same key. *)
Lemma index_same_key {K} (f : LRecord -> option K) (idx : K -> option string) m id r r' :
  records m !! id = Some r -> f r' = f r ->
  (forall k i, idx k = Some i <-> exists x, records m !! i = Some x /\ f x = Some k) ->
  forall k i, idx k = Some i <-> exists x, <[id := r']> (records m) !! i = Some x /\ f x = Some k.
Proof.
  intros Hr Hf Hidx k i. rewrite Hidx. split; intros (x & Hx & Ek).
  - destruct (decide (i = id)) as [->|Hne].
    + exists r'. rewrite lookup_insert_eq. split; [done|]. congruence.
    + exists x. by rewrite lookup_insert_ne.
  - apply lookup_insert_Some in Hx as [[<- <-]|[Hne Hx]]; [exists r; split; [done|congruence]|eauto].
Qed.

(** An index gains one entry when a record gains a key. *)
Lemma index_new_key (f : LRecord -> option string) (idx : gmap string string) m id r' key :
  (forall r, records m !! id = Some r -> f r = None) -> f r' = Some key -> idx !! key = None ->
  (forall k i, idx !! k = Some i <-> exists x, records m !! i = Some x /\ f x = Some k) ->
  forall k i, <[key := id]> idx !! k = Some i <-> exists x, <[id := r']> (records m) !! i = Some x /\ f x = Some k.
Proof.
  intros Hr Hf Hn Hidx k i. split.
  - intros [[<- <-]|[Hne Hk]]%lookup_insert_Some.
    + exists r'. by rewrite lookup_insert_eq.
    + apply Hidx in Hk as (x & Hx & Ek). exists x. split; [|done].
      rewrite lookup_insert_ne; [done|]. intros ->. rewrite (Hr x Hx) in Ek. done.
  - intros (x & Hx & Ek). apply lookup_insert_Some in Hx as [[<- <-]|[Hne Hx]].
    + assert (k = key) as -> by congruence. apply lookup_insert_eq.
    + assert (idx !! k = Some i) as Hk by (apply Hidx; eauto).
      rewrite lookup_insert_ne; [done|]. intros ->. congruence.
Qed.

Definition auth_id r : option string := option_map a_AuthorizationID (r_Authorization r).
Definition auth_nonce r : option string := option_map a_Nonce (r_Authorization r).

(** The indexes, through the key functions. *)
Lemma maps_ok_alt m :
  maps_ok m <->
  map_Forall record_ok (records m) /\
  (forall k i, requestByIntent m !! k = Some i <-> exists x, records m !! i = Some x /\ Some (record_key x) = Some k) /\
  (forall k i, requestByAuthorization m !! k = Some i <-> exists x, records m !! i = Some x /\ auth_id x = Some k) /\
  (forall k i, requestByNonce m !! k = Some i <-> exists x, records m !! i = Some x /\ auth_nonce x = Some k).
Proof.
  assert (Ha : forall (f : Authorization -> string) k i,
    (exists x, records m !! i = Some x /\ option_map f (r_Authorization x) = Some k) <->
    exists r a, records m !! i = Some r /\ r_Authorization r = Some a /\ f a = k).
  { intros f k i. split.
    - intros (x & Hx & E). destruct (r_Authorization x) as [a|] eqn:Ea; [|done]. exists x, a. naive_solver.
    - intros (r & a & Hr & Er & Ef). exists r. split; [done|]. rewrite Er. cbn. congruence. }
  unfold auth_id, auth_nonce. split.
  - intros [H1 H2 H3 H4]. split_and!; [done|..]; intros k i.
    + rewrite H2. naive_solver.
    + by rewrite H3, Ha.
    + by rewrite H4, Ha.
  - intros (H1 & H2 & H3 & H4). split; [done|..]; intros k i.
    + rewrite H2. naive_solver.
    + by rewrite H3, Ha.
    + by rewrite H4, Ha.
Qed.

Lemma maps_ok_submitted m e m' : maps_ok m -> apply_submitted m e = Ok m' -> maps_ok m'.
Proof.
  intros (Hr & Hi & Ha & Hn)%maps_ok_alt (r & _ & _ & _ & Hf & Hk & Hok & Hap & Hau & ->)%apply_submitted_ok.
  apply maps_ok_alt. cbn [records requestByIntent requestByAuthorization requestByNonce].
  assert (Hidx : forall f (idx : gmap string string), f r = None ->
    (forall k i, idx !! k = Some i <-> exists x, records m !! i = Some x /\ f x = Some k) ->
    forall k i, idx !! k = Some i <-> exists x, <[r_RequestID r := r]> (records m) !! i = Some x /\ f x = Some k).
  { intros f idx Hfr Hx k i. rewrite Hx. split; intros (x & Hl & E); exists x; (split; [|done]).
    - rewrite lookup_insert_ne; [done|]. intros <-. congruence.
    - apply lookup_insert_Some in Hl as [[_ <-]|[_ ?]]; [congruence|done]. }
  split_and!.
  - by apply map_Forall_insert_2.
  - apply (index_new_key (fun x => Some (record_key x))); try done. congruence.
  - apply Hidx; [unfold auth_id; by rewrite Hau|done].
  - apply Hidx; [unfold auth_nonce; by rewrite Hau|done].
Qed.

Lemma maps_ok_move m e m' :
  maps_ok m -> applyEvent m e = Ok m' -> ev_Kind e <> eventIntentSubmitted -> maps_ok m'.
Proof.
  intros (Hr & Hi & Ha & Hn)%maps_ok_alt Hap Hk.
  destruct (apply_move _ _ _ Hap Hk) as (r & r' & Hl & Hm & Er & Ei & Hau).
  pose proof (Hr _ _ Hl) as Hok.
  assert (Hnone : r_Authorization r = None) by (by eapply moves_unissued; [apply Hok|]).
  apply maps_ok_alt. rewrite Er, Ei. split_and!.
  - apply map_Forall_insert_2; [|done]. by eapply record_ok_moves.
  - intros k i. apply (index_same_key (fun x => Some (record_key x)) (fun k => requestByIntent m !! k) m _ r);
      [done|by rewrite (moves_key _ _ _ Hm)|done].
  - destruct Hau as [(E & -> & _)|(a & _ & E & Hna & _ & -> & _)].
    + intros k i. apply (index_same_key auth_id (fun k => requestByAuthorization m !! k) m _ r); [done|unfold auth_id; by rewrite E|done].
    + apply (index_new_key auth_id); [|unfold auth_id; by rewrite E|done|done].
      intros x Hx. assert (x = r) as -> by congruence. unfold auth_id. by rewrite Hnone.
  - destruct Hau as [(E & _ & ->)|(a & _ & E & _ & Hnn & _ & ->)].
    + intros k i. apply (index_same_key auth_nonce (fun k => requestByNonce m !! k) m _ r); [done|unfold auth_nonce; by rewrite E|done].
    + apply (index_new_key auth_nonce); [|unfold auth_nonce; by rewrite E|done|done].
      intros x Hx. assert (x = r) as -> by congruence. unfold auth_nonce. by rewrite Hnone.
Qed.

Lemma applyEvent_ok m e m' : maps_ok m -> applyEvent m e = Ok m' -> maps_ok m'.
Proof.
  intros Hm Ha. destruct (decide (ev_Kind e = eventIntentSubmitted)) as [Ek|Ek].
  - unfold applyEvent in Ha. rewrite bool_decide_eq_true_2 in Ha by done. by eapply maps_ok_submitted.
  - by eapply maps_ok_move.
Qed.

(** ** Replaying a stream *)

Definition replay (es : list (Event LPayload)) : res LMaps := fold_res applyEvent empty_maps es.

Lemma fold_apply_ok es : forall m m', maps_ok m -> fold_res applyEvent m es = Ok m' -> maps_ok m'.
Proof.
  induction es as [|e es IH]; intros m m' Hm Hf; unfold fold_res in Hf; fold (@fold_res LMaps (Event LPayload)) in Hf.
  { by injection Hf as <-. }
  destruct (applyEvent m e) as [m1|] eqn:E; [|done]. eapply IH; [|done]. by eapply applyEvent_ok.
Qed.

Lemma replay_ok es m : replay es = Ok m -> maps_ok m.
Proof. apply fold_apply_ok, empty_maps_ok. Qed.
End Facts.
