(* ===== verification/LifecycleRun.v ===== *)
(** * Running the lifecycle, and the payloads it writes

    First, that payloads survive the journal; then that every event an operation appends is
    one that replay accepts.

    ** Payloads survive the journal

    Marshalling and decoding a payload gives it back when its strings are valid
    UTF-8. Most are constrained to ASCII by validation; the free-text fields
    (resource, category, purpose, note, policy reason) are the ones a caller
    has to keep valid. *)
From stdpp Require Import base gmap strings list fin_maps sorting.
From Stdlib Require Import ZArith Lia Ascii.
From S2P Require Import Prelude GoText GoJSON Amounts Crypto Envelope PilotLimits Policy Journal Intent Lifecycle LifecycleFacts.

Open Scope Z_scope.

Section Text.
Context `{Crypto} `{Unicode}.

Definition intent_text (i : PaymentIntent) : bool :=
  valid_utf8 (i_Resource i) && valid_utf8 (i_Category i) && valid_utf8 (i_Purpose i).

Lemma rail_utf8 rail : supported_rail rail = true -> valid_utf8 rail = true.
Proof. unfold supported_rail. repeat (case_bool_decide; [by subst|]). done. Qed.

Lemma canonical_address_pattern v : canonical_address v = true -> addressPattern v = true.
Proof.
  unfold canonical_address, NormalizeAddress. generalize (ToLower (TrimSpace v)). intros w.
  destruct (addressPattern w) eqn:E; [|done]. intros Hw. to_prop. by subst.
Qed.

Lemma decode_EscrowTerms_id t c r : escrow_ok t c r -> decode_EscrowTerms t = t.
Proof.
  intros Ht%escrow_ok_text. rewrite !Forall_cons in Ht. destruct_and!.
  unfold decode_EscrowTerms. rewrite !utf8_coerce_valid by done. by destruct t.
Qed.

Lemma canonicalPositiveInteger_digits v : canonicalPositiveInteger v = true -> str_all is_digit v = true.
Proof. destruct v; [done|]. unfold canonicalPositiveInteger. intros [_ ?]%andb_true_iff. done. Qed.

(** The texts of a valid intent. *)
Lemma valid_intent_text i :
  PaymentIntent_Validate i = Ok tt ->
  Forall (fun v => valid_utf8 v = true)
    [i_IntentID i; i_OrganizationID i; i_CustomerID i; i_AgentID i; i_TaskID i; i_ActionID i;
     i_Rail i; i_Recipient i; i_Asset i; i_AmountAtomic i] /\
  option_map decode_EscrowTerms (i_Escrow i) = i_Escrow i.
Proof.
  unfold PaymentIntent_Validate. rewrite !check_ok_iff, try_unit_iff, !check_ok_iff.
  cbn [forallb]. intros (Hids & Hr & He & Hc & Ha & Hn & _). to_prop. destruct_and!. split.
  - repeat (apply Forall_cons; split; [|]); try (by apply identifier_utf8); [| | | |constructor].
    + by apply rail_utf8.
    + by eapply hex_pattern_utf8, canonical_address_pattern.
    + by eapply hex_pattern_utf8, canonical_address_pattern.
    + by apply digits_utf8, canonicalPositiveInteger_digits.
  - destruct (bool_decide (i_Rail i = RailEscrow)); destruct (i_Escrow i) as [t|]; try done.
    cbn. f_equal. apply EscrowTerms_Validate_iff in He. by eapply decode_EscrowTerms_id.
Qed.

Lemma decode_PaymentIntent_id i :
  PaymentIntent_Validate i = Ok tt -> intent_text i = true -> decode_PaymentIntent i = i.
Proof.
  intros [Hv He]%valid_intent_text Ht. unfold intent_text in Ht. to_prop.
  rewrite !Forall_cons in Hv. destruct_and!.
  unfold decode_PaymentIntent. rewrite !utf8_coerce_valid, He by done. by destruct i.
Qed.

Lemma decode_Authorization_id a :
  Authorization_Validate a = Ok tt -> authorization_typed a -> valid_utf8 (a_Resource a) = true ->
  decode_Authorization a = a.
Proof.
  intros Hv (_ & _ & _ & Ht) Hres.
  assert (Hok : authorization_ok a).
  { apply Authorization_Validate_iff; [|done]. intros t Et. by destruct (Ht t Et) as [[? _] _]. }
  pose proof (authorization_ok_text _ Hok) as Hx. unfold id_list in Hx. cbn [app] in Hx.
  rewrite !Forall_cons in Hx. destruct_and!.
  unfold decode_Authorization. rewrite !utf8_coerce_valid by done.
  assert (option_map (fun p => mkptr (addr p) (decode_EscrowTerms (deref p))) (a_Escrow a) = a_Escrow a) as ->;
    [|by destruct a].
  destruct (ao_rail _ Hok) as [(_ & t & Et & Hto)|(_ & ->)]; [|done].
  unfold escrow_of in Et. destruct (a_Escrow a) as [[ad te]|]; [|done]. cbn in *. injection Et as ->.
  by rewrite (decode_EscrowTerms_id _ _ _ Hto).
Qed.

Lemma utf8_0xhex s : valid_utf8 ("0x" +:+ hex_encode s) = true.
Proof.
  apply (is_ascii_of is_ascii); [intros c; unfold is_ascii; by intros ?%Z.ltb_lt|].
  rewrite str_all_app. apply andb_true_iff. split; [done|].
  induction s as [|c s IH]; [done|]. cbn [hex_encode str_all]. rewrite IH, !andb_true_r.
  destruct c as [[] [] [] [] [] [] [] []]; vm_compute; done.
Qed.

Lemma requestDigest_utf8 id d dec x : valid_utf8 (requestDigest id d dec x) = true.
Proof. apply utf8_0xhex. Qed.

Lemma decisionState_utf8 d st :
  decisionState d = Ok st -> valid_utf8 (d_Outcome d) = true /\ valid_utf8 st = true.
Proof.
  unfold decisionState. repeat case_bool_decide; intros [= <-] || intros Hx; try done; split; try done;
    match goal with E : d_Outcome d = _ |- _ => by rewrite E end.
Qed.

(** A record as [Submit] builds it. *)
Lemma decode_submitted_id r :
  PaymentIntent_Digest (r_Intent r) = Ok (r_IntentDigest r) -> intent_text (r_Intent r) = true ->
  idPattern (r_RequestID r) = true -> idPattern (d_PolicyVersion (r_Decision r)) = true ->
  valid_utf8 (d_Reason (r_Decision r)) = true -> decisionState (r_Decision r) = Ok (r_State r) ->
  valid_utf8 (r_RequestDigest r) = true -> r_Approval r = None -> r_Authorization r = None ->
  decode_LRecord r = r.
Proof.
  intros Hd Ht Hid Hpv Hre Hst Hrq Hap Hau. unfold PaymentIntent_Digest in Hd.
  rewrite try_unit_iff in Hd. destruct Hd as [Hv [= Hd]].
  destruct (decisionState_utf8 _ _ Hst) as [Ho Hs].
  unfold decode_LRecord, decode_Decision. rewrite (decode_PaymentIntent_id _ Hv Ht), Hap, Hau.
  rewrite !utf8_coerce_valid; try done; try (by apply identifier_utf8).
  - cbn. destruct r as [? ? ? ? []]; cbn in *. by subst.
  - rewrite <-Hd. apply utf8_0xhex.
Qed.
End Text.

(** ** Running the lifecycle

    Every event an operation appends is one that [applyEvent] accepts, under the
    conditions stated here: a clock that has not gone back behind a submission,
    and free text that is valid UTF-8. Then the maps in memory are always what
    [New] would rebuild from the journal. *)

Section Apply.
Context `{Crypto} `{Unicode}.

(** ** Events that are accepted *)

Lemma applyEvent_submit m e r :
  ev_Kind e = eventIntentSubmitted -> ev_RequestID e = r_RequestID r ->
  ev_Payload e = submittedPayload r -> ev_At e = r_SubmittedAt r -> decode_LRecord r = r ->
  records m !! r_RequestID r = None -> requestByIntent m !! record_key r = None ->
  PaymentIntent_Digest (r_Intent r) = Ok (r_IntentDigest r) ->
  requestDigest (r_RequestID r) (r_IntentDigest r) (r_Decision r) (r_ApprovalExpiresAt r) = r_RequestDigest r ->
  decisionState (r_Decision r) = Ok (r_State r) -> r_Approval r = None -> r_Authorization r = None ->
  applyEvent m e = Ok {| records := <[r_RequestID r := r]> (records m);
                         requestByIntent := <[record_key r := r_RequestID r]> (requestByIntent m);
                         requestByAuthorization := requestByAuthorization m;
                         requestByNonce := requestByNonce m |}.
Proof.
  intros Hk Hid Hp Hat Hdec Hn Hi Hd Hq Hs Hap Hau. unfold applyEvent, apply_submitted.
  rewrite bool_decide_eq_true_2, Hp by done. cbn [decode_submitted]. rewrite Hdec.
  fold (record_key r). rewrite Hid, Hat, Hd, Hs, Hap, Hau, Hn, Hi, Hq.
  rewrite Z.eqb_refl, !bool_decide_eq_true_2 by done. done.
Qed.

Lemma applyEvent_approval m e r ap st :
  ev_Kind e = eventApprovalDecided -> ev_Payload e = approvalPayload ap -> decode_Approval ap = ap ->
  records m !! ev_RequestID e = Some r -> r_State r = StatePendingApproval ->
  ap_RequestDigest ap = r_RequestDigest r -> ap_DecidedAt ap = ev_At e ->
  ev_At e < r_ApprovalExpiresAt r -> idPattern (ap_Actor ap) = true -> str_len (ap_Note ap) <= 2048 ->
  (ap_Action ap = Approve /\ st = StateApproved \/ ap_Action ap = Reject /\ st = StateRejected) ->
  applyEvent m e = Ok (set_record m (ev_RequestID e) (with_state r st (Some ap) (r_Authorization r))).
Proof.
  intros Hk Hp Hdec Hr Hs Hq Hat Hlt Hac Hno Hact. unfold applyEvent, apply_approval.
  rewrite Hk, bool_decide_eq_false_2, bool_decide_eq_true_2, Hp by done. cbn [decode_approval].
  rewrite Hdec, Hr, Hs, Hq, Hat, Hac. unfold eventBefore.
  rewrite (proj2 (Z.ltb_lt _ _) Hlt), (proj2 (Z.leb_le _ _) Hno), Z.eqb_refl, !bool_decide_eq_true_2 by done.
  cbn [andb]. destruct Hact as [[Ha ->]|[Ha ->]]; rewrite Ha;
    [by rewrite bool_decide_eq_true_2|by rewrite bool_decide_eq_false_2, bool_decide_eq_true_2].
Qed.

Lemma applyEvent_issued m e r a :
  ev_Kind e = eventAuthorizationIssued -> ev_Payload e = issuedPayload a -> decode_Authorization a = a ->
  records m !! ev_RequestID e = Some r -> r_State r = StateApproved -> a_IssuedAt a = ev_At e ->
  ev_At e < r_ApprovalExpiresAt r -> authorizationMatches r a = Ok tt ->
  requestByAuthorization m !! a_AuthorizationID a = None -> requestByNonce m !! a_Nonce a = None ->
  applyEvent m e = Ok {|
    records := <[ev_RequestID e := with_state r StateIssued (r_Approval r) (Some a)]> (records m);
    requestByIntent := requestByIntent m;
    requestByAuthorization := <[a_AuthorizationID a := ev_RequestID e]> (requestByAuthorization m);
    requestByNonce := <[a_Nonce a := ev_RequestID e]> (requestByNonce m) |}.
Proof.
  intros Hk Hp Hdec Hr Hs Hat Hlt Hm Ha Hn. unfold applyEvent, apply_issued.
  rewrite Hk, 2!bool_decide_eq_false_2, bool_decide_eq_true_2, Hp by done. cbn [decode_issued].
  rewrite Hdec, Hr, Hs, Hat, Hm, Ha, Hn. unfold eventBefore.
  by rewrite (proj2 (Z.ltb_lt _ _) Hlt), Z.eqb_refl, !bool_decide_eq_true_2.
Qed.

Lemma applyEvent_expired m e r reason :
  ev_Kind e = eventIntentExpired -> ev_Payload e = expiredPayload reason -> utf8_coerce reason = reason ->
  TrimSpace reason <> "" -> records m !! ev_RequestID e = Some r ->
  r_State r = StatePendingApproval \/ r_State r = StateApproved -> r_ApprovalExpiresAt r <= ev_At e ->
  applyEvent m e = Ok (set_record m (ev_RequestID e)
    (with_state r StateExpired (r_Approval r) (r_Authorization r))).
Proof.
  intros Hk Hp Hdec Ht Hr Hs Hle. unfold applyEvent, apply_expired.
  rewrite Hk, 3!bool_decide_eq_false_2, bool_decide_eq_true_2, Hp by done. cbn [decode_expired].
  rewrite Hdec, Hr, bool_decide_eq_false_2 by done. cbn [negb].
  rewrite (proj2 (Z.ltb_ge _ _) Hle). cbn [negb]. rewrite andb_true_r.
  by destruct Hs as [-> | ->].
Qed.

(** ** Sane records *)

(** The integers of an intent have the ranges of their Go types. *)
Definition intent_typed (i : PaymentIntent) : Prop :=
  is_uint64 (i_ChainID i) /\ forall t, i_Escrow i = Some t -> terms_typed t.

Definition record_sane (_ : string) (r : LRecord) : Prop :=
  unix_ok (r_ApprovalExpiresAt r) /\ intent_text (r_Intent r) = true /\ intent_typed (r_Intent r).

Definition maps_sane (m : LMaps) : Prop := map_Forall record_sane (records m).

Lemma record_sane_same id r r' : same_request r r' -> record_sane id r -> record_sane id r'.
Proof. intros (_ & E & _ & _ & _ & _ & Ex). unfold record_sane. by rewrite E, Ex. Qed.

Lemma moves_sane m e m' :
  maps_sane m -> applyEvent m e = Ok m' -> ev_Kind e <> eventIntentSubmitted -> maps_sane m'.
Proof.
  intros Hs Ha Hk. destruct (apply_move _ _ _ Ha Hk) as (r & r' & Hl & Hm & Er & _).
  unfold maps_sane. rewrite Er. apply map_Forall_insert_2; [|done].
  eapply record_sane_same; [by eapply moves_same|]. by apply (Hs _ _ Hl).
Qed.
End Apply.

Section Run.
Context `{CryptoLaws} `{Unicode} {J E : Type} `{EventJournalLaws J E LPayload} (cfg : LConfig).
Implicit Types (l : Lifecycle J) (env : Env E).

Abbreviation events l := (ej_Events (l_journal l)) (only parsing).

(** The maps are what the journal replays to, and are sane. *)
Record synced l : Prop := {
  sy_replay : replay (events l) = Ok (l_maps l);
  sy_sane : maps_sane (l_maps l);
}.

Lemma synced_ok l : synced l -> maps_ok (l_maps l).
Proof. intros [Hr _]. by eapply replay_ok. Qed.

(** The clock has not gone back behind a submission. *)
Definition clock_ok l env : Prop :=
  sane_time (env_now env) /\
  forall id r, records (l_maps l) !! id = Some r -> r_SubmittedAt r <= Unix (env_now env).

(** An append whose event is accepted keeps the state in step with the journal. *)
Lemma append_apply_synced l env kind requestID payload m' l' r :
  synced l ->
  (forall e, ev_Kind e = kind -> ev_RequestID e = requestID -> ev_Payload e = payload ->
             ev_At e = Unix (env_now env) -> applyEvent (l_maps l) e = Ok m') ->
  maps_sane m' ->
  append_apply l env kind requestID payload = (l', r) ->
  synced l' /\ (is_ok r = false /\ l_maps l' = l_maps l /\ events l' = events l \/
                r = Ok tt /\ l_maps l' = m' /\ exists e, events l' = events l ++ [e] /\ ev_Kind e = kind).
Proof.
  intros [Hr Hs] Hap Hs'. unfold append_apply.
  destruct (ej_Append _ _ _ _ _ _ _) as [journal [e|x]] eqn:Ea.
  - apply append_ok in Ea as (Ee & Hk & Hid & Hp & Hat & _). rewrite (Hap e) by done.
    intros [= <- <-]. cbn. split; [|right; split; [done|]; split; [done|]; eauto].
    split; [|done]. unfold replay. cbn. rewrite Ee, fold_res_snoc.
    unfold replay in Hr. rewrite Hr. by apply Hap.
  - apply append_err in Ea. intros [= <- <-]. cbn. rewrite Ea. split; [|by left].
    split; [|done]. cbn. by rewrite Ea.
Qed.

(** ** Submit *)

Lemma submit_record_ok l env i d r :
  submit_record cfg l env i d = Ok r ->
  r_Intent r = i /\ r_IntentDigest r = d /\ idPattern (r_RequestID r) = true /\
  idPattern (d_PolicyVersion (r_Decision r)) = true /\
  decisionState (r_Decision r) = Ok (r_State r) /\
  requestDigest (r_RequestID r) (r_IntentDigest r) (r_Decision r) (r_ApprovalExpiresAt r) = r_RequestDigest r /\
  records (l_maps l) !! r_RequestID r = None /\ r_SubmittedAt r = Unix (env_now env) /\
  r_ApprovalExpiresAt r = Unix (time_add (env_now env) (lc_approvalTTL cfg)) /\
  r_Approval r = None /\ r_Authorization r = None /\
  exists ev, env_evaluate env i (spendSnapshot (l_maps l) (env_spend env) i (env_now env)) = Ok ev /\
    limited_decision cfg l env i ev = Ok (r_Decision r).
Proof.
  unfold submit_record. rewrite try_unit_iff, try_ok_iff. intros (_ & ev & Hev & Hr).
  rewrite check_ok_iff, try_ok_iff in Hr. destruct Hr as (Hpv & dec & Hdec & Hr).
  rewrite try_ok_iff in Hr. destruct Hr as (st & Hst & Hr).
  rewrite try_ok_iff in Hr. destruct Hr as (id & Hid & Hr).
  rewrite !check_ok_iff in Hr. destruct Hr as (Hp & Hn & [= <-]). cbn. to_prop.
  assert (idPattern (d_PolicyVersion dec) = true).
  { unfold limited_decision in Hdec. case_bool_decide; [by injection Hdec as <-|].
    destruct (pilot_Check _ _ _); [by injection Hdec as <-|].
    repeat case_bool_decide; by simplify_eq. }
  repeat split; eauto.
Qed.

(** The reason text of a decision: the provider's or one of the two constants. *)
Lemma limited_decision_reason l env i ev dec :
  valid_utf8 (d_Reason ev) = true -> limited_decision cfg l env i ev = Ok dec -> valid_utf8 (d_Reason dec) = true.
Proof.
  intros Hv Hdec. unfold limited_decision in Hdec. case_bool_decide; [by injection Hdec as <-|].
  destruct (pilot_Check _ _ _); [by injection Hdec as <-|].
  repeat case_bool_decide; simplify_eq; done.
Qed.

(** The conditions on one submission. *)
Definition submit_sane l env (i : PaymentIntent) : Prop :=
  sane_time (env_now env) /\ 0 <= lc_approvalTTL cfg /\ intent_text i = true /\ intent_typed i /\
  forall s d, env_evaluate env i s = Ok d -> valid_utf8 (d_Reason d) = true.

(** The maps after a submission was recorded. *)
Definition submitted_maps (m : LMaps) (r : LRecord) : LMaps :=
  {| records := <[r_RequestID r := r]> (records m);
     requestByIntent := <[record_key r := r_RequestID r]> (requestByIntent m);
     requestByAuthorization := requestByAuthorization m; requestByNonce := requestByNonce m |}.

Lemma Submit_spec l env i l' res :
  synced l -> submit_sane l env i -> Submit cfg l env i = (l', res) ->
  synced l' /\
  (l_maps l' = l_maps l /\ events l' = events l /\
     (forall r, res = Ok r -> requestByIntent (l_maps l) !! record_key r = Some (r_RequestID r) /\ records (l_maps l) !! r_RequestID r = Some r) \/
   exists r d, PaymentIntent_Digest i = Ok d /\ submit_record cfg l env i d = Ok r /\ res = Ok r /\
     l_maps l' = submitted_maps (l_maps l) r /\ exists e, events l' = events l ++ [e]).
Proof.
  intros Hsy (Hnow & Httl & Htx & Hty & Hre). unfold Submit.
  destruct (PaymentIntent_Digest i) as [d|x] eqn:Ed; [|intros [= <- <-]; split; [done|]; by left].
  destruct (requestByIntent _ !! _) as [id|] eqn:Ei.
  { case_bool_decide as Hdg; intros [= <- <-]; (split; [done|]); left; (split; [done|]); (split; [done|]);
      intros r; [|done]. intros [= <-].
    destruct (synced_ok _ Hsy) as [Hr Hi _ _]. pose proof Ei as Ei'.
    apply Hi in Ei' as (r & Hl & Hkey). unfold get_record. rewrite Hl. cbn.
    rewrite (ro_id _ _ (Hr _ _ Hl)), Hkey. done. }
  destruct (submit_record cfg l env i d) as [r|x] eqn:Er; [|intros [= <- <-]; split; [done|]; by left].
  destruct (append_apply l env _ _ _) as [l1 r1] eqn:Ea.
  destruct (submit_record_ok _ _ _ _ _ Er)
    as (Hri & Hrd & Hrid & Hpv & Hst & Hrq & Hfr & Hat & Hexp & Hap & Hau & ev & Hev & Hlim).
  assert (Hdec : decode_LRecord r = r).
  { apply decode_submitted_id; try done; try congruence.
    - eapply limited_decision_reason; [by eapply Hre|done].
    - rewrite <-Hrq. apply requestDigest_utf8. }
  apply (append_apply_synced _ _ _ _ _ (submitted_maps (l_maps l) r)) in Ea as [Hsy' Hc]; [|done| |].
  - destruct Hc as [(Hno & Hm & He)|(-> & Hm & e & He & _)].
    + destruct r1; [done|]. intros [= <- <-]. split; [done|]. by left.
    + intros [= <- <-]. split; [done|]. right. exists r, d. do 2 (split; [done|]). split; [|eauto].
      unfold get_record. rewrite Hm. cbn. by rewrite lookup_insert_eq.
  - intros e Hk Hid Hp Hate. apply applyEvent_submit; try done; try congruence.
    unfold record_key. by rewrite Hri.
  - unfold maps_sane. cbn. apply map_Forall_insert_2; [|by apply sy_sane].
    split; [rewrite Hexp; by apply Unix_ok, time_add_sane|]. rewrite Hri. done.
Qed.

(** ** Decide and expiry *)

Lemma expired_maps_sane l id r : synced l -> records (l_maps l) !! id = Some r ->
  maps_sane (set_record (l_maps l) id (with_state r StateExpired (r_Approval r) (r_Authorization r))).
Proof.
  intros Hsy Hl. unfold maps_sane. cbn. apply map_Forall_insert_2; [|by apply sy_sane].
  apply (record_sane_same id r); [done|]. by apply (sy_sane _ Hsy).
Qed.

Lemma expireLocked_spec l env id r reason l' res :
  synced l -> sane_time (env_now env) -> records (l_maps l) !! id = Some r ->
  r_State r = StatePendingApproval \/ r_State r = StateApproved ->
  time_before (env_now env) (time_of_unix (r_ApprovalExpiresAt r)) = false ->
  str_all is_ascii reason = true -> TrimSpace reason <> "" ->
  expireLocked l env r reason = (l', res) ->
  synced l' /\
  (is_ok res = false /\ l_maps l' = l_maps l /\ events l' = events l \/
   res = Ok tt /\ l_maps l' = set_record (l_maps l) id (with_state r StateExpired (r_Approval r) (r_Authorization r)) /\
   exists e, events l' = events l ++ [e]).
Proof.
  intros Hsy Hnow Hl Hst Hexp Hasc Htr Hx.
  pose proof (ro_id _ _ (mo_records _ (synced_ok _ Hsy) _ _ Hl)) as Hid.
  pose proof (proj1 (sy_sane _ Hsy _ _ Hl)) as Hok.
  unfold expireLocked in Hx.
  apply (append_apply_synced _ _ _ _ _ (set_record (l_maps l) id (with_state r StateExpired (r_Approval r) (r_Authorization r))))
    in Hx as [Hsy' Hc]; [|done| |by apply expired_maps_sane].
  - split; [done|]. destruct Hc as [Hc|(? & ? & e & ? & ?)]; [by left|right; eauto].
  - intros e Hk Hide Hp Hat. rewrite Hid in Hide. rewrite <-Hide.
    apply (applyEvent_expired _ _ _ reason); try done; [by apply utf8_coerce_valid, valid_utf8_ascii|by rewrite Hide|].
    rewrite (before_unix _ _ Hnow (unix_ok_sane _ Hok)) in Hexp. to_prop. lia.
Qed.

Lemma decide_reason_ok :
  str_all is_ascii "approval window elapsed before decision" = true /\
  TrimSpace "approval window elapsed before decision" <> "" /\
  str_all is_ascii "approval window elapsed before issuance" = true /\
  TrimSpace "approval window elapsed before issuance" <> "" /\
  str_all is_ascii "approval window elapsed during sweep" = true /\
  TrimSpace "approval window elapsed during sweep" <> "".
Proof. by vm_compute. Qed.

(** The record and maps after a decision. *)
Definition decided_maps (m : LMaps) (id : string) (r : LRecord) (ap : Approval) : LMaps :=
  set_record m id (with_state r (if bool_decide (ap_Action ap = Approve) then StateApproved else StateRejected)
                     (Some ap) (r_Authorization r)).

Lemma Decide_spec l env id digest action actor note l' res :
  synced l -> sane_time (env_now env) -> valid_utf8 note = true ->
  Decide l env id digest action actor note = (l', res) ->
  synced l' /\
  (is_ok res = false /\ l_maps l' = l_maps l /\ events l' = events l \/
   (exists r, records (l_maps l) !! id = Some r /\ r_State r = StatePendingApproval /\ res = Err ErrApprovalExpired /\
      l_maps l' = set_record (l_maps l) id (with_state r StateExpired (r_Approval r) (r_Authorization r))) \/
   (exists r ap, records (l_maps l) !! id = Some r /\ r_State r = StatePendingApproval /\
      digest = r_RequestDigest r /\ Unix (env_now env) < r_ApprovalExpiresAt r /\
      ap = {| ap_Action := action; ap_Actor := actor; ap_Note := note; ap_RequestDigest := digest;
              ap_DecidedAt := Unix (env_now env) |} /\
      l_maps l' = decided_maps (l_maps l) id r ap /\ res = Ok (get_record l' id))).
Proof.
  intros Hsy Hnow Hnote. unfold Decide.
  destruct (bool_decide (action = Approve) || bool_decide (action = Reject)) eqn:Hact; cbn [negb];
    [|intros [= <- <-]; split; [done|by left]].
  destruct (idPattern actor) eqn:Hactor; cbn [negb orb]; [|intros [= <- <-]; split; [done|by left]].
  destruct (Z.ltb_spec 2048 (str_len note)); [intros [= <- <-]; split; [done|by left]|].
  destruct (records _ !! id) as [r|] eqn:Hl; [|intros [= <- <-]; split; [done|by left]].
  destruct (bool_decide_reflect (r_State r = StatePendingApproval)) as [Hst|]; cbn [negb];
    [|intros [= <- <-]; split; [done|by left]].
  destruct (bool_decide_reflect (digest = r_RequestDigest r)) as [Hdg|]; cbn [negb];
    [|intros [= <- <-]; split; [done|by left]].
  destruct decide_reason_ok as (Ha1 & Ht1 & _).
  pose proof (proj1 (sy_sane _ Hsy _ _ Hl)) as Hok.
  destruct (time_before _ _) eqn:Hb; cbn [negb].
  2:{ destruct (expireLocked _ _ _ _) as [l1 r1] eqn:Hx.
      apply (expireLocked_spec l env id r) in Hx as [Hsy' Hc]; [|done..|by left|done|done|done].
      destruct Hc as [(Hno & Hm & He)|(-> & Hm & _)].
      - destruct r1; [done|]. intros [= <- <-]. split; [done|by left].
      - intros [= <- <-]. split; [done|]. right. left. eauto. }
  rewrite (before_unix _ _ Hnow (unix_ok_sane _ Hok)) in Hb. apply Z.ltb_lt in Hb.
  destruct (append_apply _ _ _ _ _) as [l1 r1] eqn:Hx.
  set (ap := {| ap_Action := action; ap_Actor := actor; ap_Note := note; ap_RequestDigest := digest;
                ap_DecidedAt := Unix (env_now env) |}) in *.
  assert (Hdec : decode_Approval ap = ap).
  { unfold decode_Approval. subst ap. cbn [ap_Action ap_Actor ap_Note ap_RequestDigest ap_DecidedAt].
    rewrite !utf8_coerce_valid; [done| | | |].
    - rewrite Hdg, <-(ro_request _ _ (mo_records _ (synced_ok _ Hsy) _ _ Hl)). apply requestDigest_utf8.
    - done.
    - by apply identifier_utf8.
    - to_prop. by destruct Hact as [-> | ->]. }
  apply (append_apply_synced _ _ _ _ _ (decided_maps (l_maps l) id r ap)) in Hx as [Hsy' Hc]; [|done| |].
  - destruct Hc as [(Hno & Hm & He)|(-> & Hm & _)].
    + destruct r1; [done|]. intros [= <- <-]. split; [done|by left].
    + intros [= <- <-]. split; [done|]. right. right. exists r, ap. by repeat split.
  - intros e Hk Hide Hp Hat. unfold decided_maps. rewrite <-Hide.
    apply applyEvent_approval; try done; [by rewrite Hide|cbn; lia|].
    cbn [ap_Action ap]. to_prop. destruct Hact as [-> | ->].
    + left. by rewrite bool_decide_eq_true_2.
    + right. by rewrite bool_decide_eq_false_2.
  - unfold maps_sane. cbn. apply map_Forall_insert_2; [|by apply sy_sane].
    apply (record_sane_same id r); [done|]. by apply (sy_sane _ Hsy).
Qed.

(** ** Issue *)

Lemma time_after_min (a b : time) : (if time_after a b then b else a) = Z.min a b.
Proof. unfold time_after. destruct (Z.ltb_spec b a); lia. Qed.

(** The expiry is the earliest of the three bounds, each read in seconds. *)
Lemma issue_expiry_bounds env r x :
  sane_time (env_now env) -> unix_ok (r_ApprovalExpiresAt r) -> 0 <= lc_authorizationTTL cfg ->
  (forall t, i_Escrow (r_Intent r) = Some t -> is_int64 (int64 (t_AcknowledgeBy t))) ->
  issue_expiry cfg (env_now env) r = Ok x ->
  sane_time x /\ Unix x <= r_ApprovalExpiresAt r /\
  Unix x <= Unix (time_add (env_now env) (lc_authorizationTTL cfg)) /\
  (forall t, i_Escrow (r_Intent r) = Some t -> Unix x <= int64 (t_AcknowledgeBy t)).
Proof.
  intros Hnow Hexp Httl Hack. unfold issue_expiry. rewrite time_after_min.
  pose proof (time_add_sane _ _ Hnow Httl) as Hadd.
  destruct (time_of_unix_ok _ Hexp) as [Hes Heu].
  set (x0 := Z.min (time_add (env_now env) (lc_authorizationTTL cfg)) (time_of_unix (r_ApprovalExpiresAt r))).
  assert (Hx0 : sane_time x0) by (subst x0; destruct (Z.min_spec (time_add (env_now env) (lc_authorizationTTL cfg)) (time_of_unix (r_ApprovalExpiresAt r))) as [[_ ->]|[_ ->]]; done).
  assert (Hb1 : Unix x0 <= r_ApprovalExpiresAt r) by (rewrite <-Heu; apply Unix_mono; [done|done|lia]).
  assert (Hb2 : Unix x0 <= Unix (time_add (env_now env) (lc_authorizationTTL cfg)))
    by (apply Unix_mono; [done|done|lia]).
  clearbody x0. destruct (i_Escrow (r_Intent r)) as [t|]; [|intros [= <-]; done].
  rewrite check_ok_iff, time_after_min. intros [Hb [= <-]].
  apply before_unix_inv in Hb as [Hok Hlt]; [|done|by apply Hack].
  destruct (time_of_unix_ok _ Hok) as [Has Hau].
  assert (Hm : sane_time (Z.min x0 (time_of_unix (int64 (t_AcknowledgeBy t)))))
    by (destruct (Z.min_spec x0 (time_of_unix (int64 (t_AcknowledgeBy t)))) as [[_ ->]|[_ ->]]; done).
  assert (Unix (Z.min x0 (time_of_unix (int64 (t_AcknowledgeBy t)))) <= Unix x0) by (apply Unix_mono; [done|done|lia]).
  split; [done|]. split; [lia|]. split; [lia|]. intros t' [= <-]. rewrite <-Hau at 2.
  apply Unix_mono; [done|done|lia].
Qed.

Lemma Sign_validates a k p sgn : Sign a k p = Ok sgn -> s_Authorization sgn = a /\ Authorization_Validate a = Ok tt.
Proof.
  unfold Sign. rewrite !check_ok_iff, try_ok_iff.
  intros (_ & _ & d & Hd%Authorization_Digest_ok & [= <-]). split; [done|apply Hd].
Qed.

(** What [issueLocked] is about to record. *)
Record issuing l env (r : LRecord) (sgn : SignedAuthorization) : Prop := {
  is_auth : exists aid nonce x, s_Authorization sgn = authorization_for env r aid nonce x /\
              issue_expiry cfg (env_now env) r = Ok x;
  is_signed : Sign (s_Authorization sgn) (lc_envelopeKeyID cfg) (lc_envelopePrivateKey cfg) = Ok sgn;
  is_valid : Authorization_Validate (s_Authorization sgn) = Ok tt;
  is_active : env_activeVersion env (i_OrganizationID (r_Intent r)) (i_AgentID (r_Intent r)) =
              Ok (d_PolicyVersion (r_Decision r));
  is_chain : checkChain env r = None;
  is_fresh_id : requestByAuthorization (l_maps l) !! a_AuthorizationID (s_Authorization sgn) = None;
  is_fresh_nonce : requestByNonce (l_maps l) !! a_Nonce (s_Authorization sgn) = None;
}.

Lemma issue_signed_ok l env r sgn : issue_signed cfg l env r = Ok sgn -> issuing l env r sgn.
Proof.
  unfold issue_signed. rewrite try_ok_iff. intros (act & Hact & Hr).
  rewrite check_ok_iff, try_unit_iff, try_ok_iff in Hr. destruct Hr as (Hv & Hch & aid & Haid & Hr).
  rewrite try_ok_iff in Hr. destruct Hr as (nonce & Hno & Hr).
  rewrite try_ok_iff in Hr. destruct Hr as (x & Hx & Hr).
  rewrite try_ok_iff in Hr. destruct Hr as (sgn' & Hs & Hr).
  rewrite !check_ok_iff in Hr. destruct Hr as (Hfa & Hfn & [= ->]). to_prop. subst act.
  destruct (Sign_validates _ _ _ _ Hs) as [Es Hval]. rewrite <-Es in Hfa, Hfn, Hs, Hval.
  split; try done; [by exists aid, nonce, x|]. by destruct (checkChain env r).
Qed.

Definition issued_maps (m : LMaps) (id : string) (r : LRecord) (a : Authorization) : LMaps :=
  {| records := <[id := with_state r StateIssued (r_Approval r) (Some a)]> (records m);
     requestByIntent := requestByIntent m;
     requestByAuthorization := <[a_AuthorizationID a := id]> (requestByAuthorization m);
     requestByNonce := <[a_Nonce a := id]> (requestByNonce m) |}.

Lemma escrow_of_for env r aid nonce x : escrow_of (authorization_for env r aid nonce x) = i_Escrow (r_Intent r).
Proof. unfold escrow_of. cbn. by destruct (i_Escrow (r_Intent r)). Qed.

Lemma authorization_for_typed env r aid nonce x :
  intent_typed (r_Intent r) -> authorization_typed (authorization_for env r aid nonce x).
Proof.
  intros [Hc Ht]. split; [done|]. split; [apply Unix_int64|]. split; [apply Unix_int64|].
  intros t. rewrite escrow_of_for. apply Ht.
Qed.

(** The authorization of a request matches it, given the clock. *)
Lemma issuing_matches l env id r sgn :
  synced l -> clock_ok l env -> 0 <= lc_authorizationTTL cfg ->
  records (l_maps l) !! id = Some r -> issuing l env r sgn ->
  authorizationMatches r (s_Authorization sgn) = Ok tt /\
  decode_Authorization (s_Authorization sgn) = s_Authorization sgn /\
  a_IssuedAt (s_Authorization sgn) = Unix (env_now env) /\
  a_ExpiresAt (s_Authorization sgn) <= Unix (time_add (env_now env) (lc_authorizationTTL cfg)).
Proof.
  intros Hsy [Hnow Hsub] Httl Hl [(aid & nonce & x & Ea & Hx) _ Hval _ _ _ _].
  destruct (sy_sane _ Hsy _ _ Hl) as (Hexp & Htx & Hty).
  destruct (issue_expiry_bounds env r x) as (Hxs & Hx1 & Hx2 & _); try done.
  { intros t Ht. apply int64_range. }
  pose proof (authorization_for_typed env r aid nonce x Hty) as Htyped. rewrite <-Ea in Htyped.
  assert (Hres : valid_utf8 (a_Resource (s_Authorization sgn)) = true).
  { rewrite Ea. cbn. unfold intent_text in Htx. to_prop. apply Htx. }
  split; [|split; [by apply decode_Authorization_id|]; rewrite Ea; done].
  unfold authorizationMatches. rewrite Hval, Ea, escrow_of_for. cbn.
  rewrite Z.eqb_refl, !bool_decide_eq_true_2 by done.
  rewrite (proj2 (Z.leb_le _ _) (Hsub _ _ Hl)), (proj2 (Z.leb_le _ _) Hx1). done.
Qed.

Lemma issueLocked_spec l env id r l' res :
  synced l -> clock_ok l env -> 0 <= lc_authorizationTTL cfg ->
  records (l_maps l) !! id = Some r -> r_State r = StateApproved ->
  time_before (env_now env) (time_of_unix (r_ApprovalExpiresAt r)) = true ->
  issueLocked cfg l env r = (l', res) ->
  synced l' /\
  (is_ok res = false /\ l_maps l' = l_maps l /\ events l' = events l \/
   exists sgn, res = Ok sgn /\ issuing l env r sgn /\
     l_maps l' = issued_maps (l_maps l) id r (s_Authorization sgn) /\ exists e, events l' = events l ++ [e]).
Proof.
  intros Hsy Hck Httl Hl Hst Hb. unfold issueLocked.
  destruct (issue_signed cfg l env r) as [sgn|] eqn:Hs; [|intros [= <- <-]; split; [done|by left]].
  apply issue_signed_ok in Hs. destruct (issuing_matches _ _ _ _ _ Hsy Hck Httl Hl Hs) as (Hm & Hdec & Hat & _).
  pose proof (ro_id _ _ (mo_records _ (synced_ok _ Hsy) _ _ Hl)) as Hid.
  pose proof (proj1 (sy_sane _ Hsy _ _ Hl)) as Hok. pose proof (proj1 Hck) as Hnow.
  rewrite (before_unix _ _ Hnow (unix_ok_sane _ Hok)) in Hb. apply Z.ltb_lt in Hb.
  destruct (append_apply _ _ _ _ _) as [l1 r1] eqn:Hx.
  apply (append_apply_synced _ _ _ _ _ (issued_maps (l_maps l) id r (s_Authorization sgn))) in Hx as [Hsy' Hc]; [|done| |].
  - destruct Hc as [(Hno & Hmm & He)|(-> & Hmm & e & He & _)].
    + destruct r1; [done|]. intros [= <- <-]. split; [done|by left].
    + intros [= <- <-]. split; [done|]. right. eauto 10.
  - intros e Hk Hide Hp Hate. rewrite Hid in Hide. unfold issued_maps. rewrite <-Hide.
    apply applyEvent_issued; try done; [by rewrite Hide|congruence|lia|apply Hs|apply Hs].
  - unfold maps_sane. cbn. apply map_Forall_insert_2; [|by apply sy_sane].
    apply (record_sane_same id r); [done|]. by apply (sy_sane _ Hsy).
Qed.

(** The two ways [issue_new] changes the state. *)
Definition issue_outcome l env (id : string) l' (res : res SignedAuthorization) : Prop :=
  is_ok res = false /\ l_maps l' = l_maps l /\ events l' = events l \/
  (exists r, records (l_maps l) !! id = Some r /\ r_State r = StateApproved /\ res = Err ErrApprovalExpired /\
     l_maps l' = set_record (l_maps l) id (with_state r StateExpired (r_Approval r) (r_Authorization r))) \/
  (exists r sgn, records (l_maps l) !! id = Some r /\ r_State r = StateApproved /\
     Unix (env_now env) < r_ApprovalExpiresAt r /\ issuing l env r sgn /\
     l_maps l' = issued_maps (l_maps l) id r (s_Authorization sgn) /\ (res = Ok sgn \/ is_ok res = false)).

Lemma issue_new_spec l env id r l' res :
  synced l -> clock_ok l env -> 0 <= lc_authorizationTTL cfg -> records (l_maps l) !! id = Some r ->
  issue_new cfg l env r = (l', res) -> synced l' /\ issue_outcome l env id l' res.
Proof.
  intros Hsy Hck Httl Hl. unfold issue_new, issue_outcome.
  pose proof (proj1 (sy_sane _ Hsy _ _ Hl)) as Hok. pose proof (proj1 Hck) as Hnow.
  destruct (bool_decide_reflect (r_State r = StateApproved)) as [Hst|]; cbn [negb];
    [|intros [= <- <-]; split; [done|by left]].
  destruct decide_reason_ok as (_ & _ & Ha2 & Ht2 & _).
  destruct (time_before _ _) eqn:Hb; cbn [negb].
  2:{ destruct (expireLocked _ _ _ _) as [l1 r1] eqn:Hx.
      apply (expireLocked_spec l env id r) in Hx as [Hsy' Hc]; [|done..|by right|done|done|done].
      destruct Hc as [(Hno & Hm & He)|(-> & Hm & _)].
      - destruct r1; [done|]. intros [= <- <-]. split; [done|by left].
      - intros [= <- <-]. split; [done|]. right. left. eauto. }
  assert (Hlt : Unix (env_now env) < r_ApprovalExpiresAt r).
  { pose proof Hb as Hb'. rewrite (before_unix _ _ Hnow (unix_ok_sane _ Hok)) in Hb'. by apply Z.ltb_lt. }
  destruct (issueLocked cfg l env r) as [l1 r1] eqn:Hx.
  apply (issueLocked_spec l env id r) in Hx as [Hsy' Hc]; [|done..]. intros Hrest.
  assert (Hdone : l' = l /\ is_ok res = false \/ l' = l1 /\ (res = r1 \/ is_ok res = false)).
  { destruct (env_lock env) as [gate|].
    - destruct (gate _ _ _) as [m|after]; [injection Hrest as <- <-; by left|right].
      destruct r1; injection Hrest as <- <-; (split; [done|]); [|by right]. destruct after; [by right|by left].
    - destruct (env_freeze env _ _ _); injection Hrest as <- <-; [by left|right]. by split; [|left]. }
  destruct Hdone as [[-> Hno]|[-> Hres]]; [split; [done|by left]|].
  split; [done|]. destruct Hc as [(Hno & Hm & He)|(sgn & -> & Hiss & Hm & _)].
  - left. split_and!; [by destruct Hres as [->|]|done|done].
  - right. right. exists r, sgn. by split_and!.
Qed.

Lemma Issue_spec l env id l' res :
  synced l -> clock_ok l env -> 0 <= lc_authorizationTTL cfg ->
  Issue cfg l env id = (l', res) ->
  synced l' /\
  (l' = l /\ (exists r a, records (l_maps l) !! id = Some r /\ r_State r = StateIssued /\
     r_Authorization r = Some a /\ checkChain env r = None /\
     res = Sign a (lc_envelopeKeyID cfg) (lc_envelopePrivateKey cfg)) \/
   issue_outcome l env id l' res).
Proof.
  intros Hsy Hck Httl. unfold Issue.
  destruct (records _ !! id) as [r|] eqn:Hl; [|intros [= <- <-]; split; [done|]; right; by left].
  destruct (bool_decide_reflect (r_State r = StateIssued)) as [Hst|Hst].
  2:{ intros Hx. destruct (issue_new_spec l env id r l' res) as [? ?]; auto. }
  destruct (r_Authorization r) as [a|] eqn:Ha.
  2:{ intros Hx. destruct (issue_new_spec l env id r l' res) as [? ?]; auto. }
  destruct (checkChain env r) eqn:Hch; intros [= <- <-]; (split; [done|]); [right; by left|left].
  split; [done|]. by exists r, a.
Qed.

(** ** Sweep *)

Lemma sweep_loop_spec env ids : forall l n l' n' err,
  synced l -> sane_time (env_now env) -> NoDup ids ->
  Forall (fun id => exists r, records (l_maps l) !! id = Some r /\ sweepable (env_now env) r = true) ids ->
  sweep_loop l env ids n = (l', n', err) ->
  synced l' /\
  (forall id, id ∉ ids -> records (l_maps l') !! id = records (l_maps l) !! id) /\
  (forall id, records (l_maps l') !! id = records (l_maps l) !! id \/
     exists r, records (l_maps l) !! id = Some r /\ sweepable (env_now env) r = true /\
       records (l_maps l') !! id = Some (with_state r StateExpired (r_Approval r) (r_Authorization r))) /\
  (err = None -> n' = n + Z.of_nat (length ids) /\
    Forall (fun id => exists r, records (l_maps l) !! id = Some r /\
      records (l_maps l') !! id = Some (with_state r StateExpired (r_Approval r) (r_Authorization r))) ids).
Proof.
  induction ids as [|id ids IH]; intros l n l' n' err Hsy Hnow Hnd Hf; cbn [sweep_loop].
  { intros [= <- <- <-]. split; [done|]. split; [done|]. split; [by left|].
    intros _. split; [cbn; lia|constructor]. }
  apply NoDup_cons in Hnd as [Hni Hnd]. apply Forall_cons in Hf as [(r & Hl & Hsw) Hf].
  unfold get_record. rewrite Hl. change (default zero_record (Some r)) with r.
  destruct (expireLocked _ _ _ _) as [l1 r1] eqn:Hx.
  pose proof Hsw as Hsw'. unfold sweepable in Hsw. to_prop. destruct Hsw as [Hst Hb].
  destruct decide_reason_ok as (_ & _ & _ & _ & Ha3 & Ht3).
  apply (expireLocked_spec l env id r) in Hx as [Hsy1 Hc]; [|done..|by apply Z.ltb_ge|done|done].
  destruct Hc as [(Hno & Hm & He)|(-> & Hm & _)].
  { destruct r1; [done|]. intros [= <- <- <-]. rewrite Hm. split; [done|]. split; [done|]. split; [by left|done]. }
  intros Hs.
  assert (Hkeep : forall id', id' <> id -> records (l_maps l1) !! id' = records (l_maps l) !! id').
  { intros id' Hne. rewrite Hm. cbn. by rewrite lookup_insert_ne. }
  apply IH in Hs as (Hsy' & Hk & Hany & Hd); [|done|done|done|].
  - split; [done|]. split; [|split].
    + intros id' Hid'. rewrite not_elem_of_cons in Hid'. rewrite Hk by tauto. apply Hkeep. tauto.
    + intros id'. destruct (decide (id' = id)) as [->|Hne].
      * right. exists r. rewrite (Hk id Hni), Hm. cbn. rewrite lookup_insert_eq. done.
      * rewrite <-(Hkeep id' Hne). apply Hany.
    + intros Herr. destruct (Hd Herr) as [-> Hfi]. split; [cbn [length]; lia|]. constructor.
      * exists r. split; [done|]. rewrite (Hk id Hni), Hm. cbn. apply lookup_insert_eq.
      * rewrite Forall_forall in Hfi |- *. intros id' Hid'. destruct (Hfi id' Hid') as (r' & Hr' & Hx').
        exists r'. split; [|done]. rewrite <-Hr'. symmetry. apply Hkeep. by intros ->.
  - rewrite Forall_forall in Hf |- *. intros id' Hid'. destruct (Hf id' Hid') as (r' & Hr' & Hx').
    exists r'. split; [|done]. rewrite Hkeep; [done|]. by intros ->.
Qed.

Lemma sweep_ids_spec m now id :
  id ∈ sweep_ids m now <-> exists r, records m !! id = Some r /\ sweepable now r = true.
Proof.
  unfold sweep_ids. rewrite merge_sort_Permutation, list_elem_of_fmap. split.
  - intros ([k r] & -> & [Hs Hr]%list_elem_of_filter). cbn. exists r. by rewrite <-elem_of_map_to_list.
  - intros (r & Hr & Hs). exists (id, r). split; [done|]. apply list_elem_of_filter.
    split; [done|]. by apply elem_of_map_to_list.
Qed.

Lemma sweep_ids_NoDup m now : NoDup (sweep_ids m now).
Proof.
  unfold sweep_ids. rewrite merge_sort_Permutation.
  assert (Hl : NoDup (map_to_list (records m)).*1) by apply NoDup_fst_map_to_list.
  induction (map_to_list (records m)) as [|[k r] kvs IH]; [constructor|].
  cbn in Hl. apply NoDup_cons in Hl as [Hn Hl]. rewrite filter_cons. destruct (decide _); [|by apply IH].
  cbn. apply NoDup_cons. split; [|by apply IH]. intros Hi. apply Hn.
  apply list_elem_of_fmap in Hi as (p & -> & [_ Hp]%list_elem_of_filter). apply list_elem_of_fmap. eauto.
Qed.
End Run.
