(* ===== verification/LifecycleTheorems.v ===== *)
(** * Theorems about the authorization lifecycle

    The properties of [internal/controlplane] proved against the
    [EventJournal] interface, so they hold over the file journal and over the
    PostgreSQL journal alike. *)
From stdpp Require Import base gmap strings list fin_maps sorting.
From Stdlib Require Import ZArith Lia Ascii.
From S2P Require Import Prelude GoText GoJSON Amounts Crypto Envelope PilotLimits Policy Journal Intent Lifecycle LifecycleFacts LifecycleRun.

Open Scope Z_scope.

(** ** One authorization per request, and only for an approved one *)

(** The authority granted is the one that was asked for and approved. *)
Record governed `{Crypto} (r : LRecord) (a : Authorization) : Prop := {
  gv_approved : approved r;
  gv_valid : Authorization_Validate a = Ok tt;
  gv_subject : (a_OrganizationID a, a_CustomerID a, a_AgentID a, a_TaskID a, a_ActionID a) =
    (i_OrganizationID (r_Intent r), i_CustomerID (r_Intent r), i_AgentID (r_Intent r),
     i_TaskID (r_Intent r), i_ActionID (r_Intent r));
  gv_payment : (a_Rail a, a_ChainID a, a_Recipient a, a_Asset a, a_AmountAtomic a, a_Resource a) =
    (i_Rail (r_Intent r), i_ChainID (r_Intent r), i_Recipient (r_Intent r), i_Asset (r_Intent r),
     i_AmountAtomic (r_Intent r), i_Resource (r_Intent r));
  gv_escrow : escrow_of a = i_Escrow (r_Intent r);
  gv_policy : a_PolicyVersion a = d_PolicyVersion (r_Decision r);
  gv_window : r_SubmittedAt r <= a_IssuedAt a /\ a_IssuedAt a < a_ExpiresAt a /\
              a_ExpiresAt a <= r_ApprovalExpiresAt r;
}.

Section Governed.
Context `{Crypto} `{Unicode} {J E : Type} `{EventJournal J E LPayload} (cfg : LConfig).

Lemma validate_window a : Authorization_Validate a = Ok tt -> a_IssuedAt a < a_ExpiresAt a.
Proof. unfold Authorization_Validate. rewrite !check_ok_iff, try_unit_iff, !check_ok_iff, try_unit_iff, !check_ok_iff. intros Hv. destruct_and!. by to_prop. Qed.

Lemma matches_governed r a :
  approved r -> authorizationMatches r a = Ok tt -> governed r a.
Proof.
  intros Hap. unfold authorizationMatches. rewrite try_unit_iff, check_ok_iff. intros (Hv & Hm & _).
  pose proof (validate_window _ Hv). to_prop. destruct_and!. split; try done; congruence.
Qed.

Lemma New_ok journal l :
  New cfg journal = Ok l ->
  l_journal l = journal /\ replay (ej_Events journal) = Ok (l_maps l) /\
  0 < lc_authorizationTTL cfg <= lc_approvalTTL cfg.
Proof.
  unfold New. destruct (lc_pilotLimits cfg); [|done]. rewrite !check_ok_iff, try_ok_iff.
  intros (Httl & _ & m & Hm & [= <-]). to_prop. split; [done|]. split; [done|]. lia.
Qed.

(** C1: in every state the control plane can rebuild from a journal, an
    authorization exists only for a request the policy auto-approved or a
    reviewer approved in time by its exact digest; it repeats the approved
    intent in every field and lies inside the approval window. *)
Theorem authorization_only_when_approved journal l id r a :
  New cfg journal = Ok l -> records (l_maps l) !! id = Some r -> r_Authorization r = Some a ->
  r_State r = StateIssued /\ governed r a.
Proof.
  intros (_ & Hr & _)%New_ok Hl Ha. apply replay_ok in Hr as [Hok _ _ _].
  destruct (justified_auth r a (ro_state _ _ (Hok _ _ Hl)) Ha) as (Hs & Hap & Hm & _).
  split; [done|]. by apply matches_governed.
Qed.

(** authorization IDs and nonces are never shared: an authorization ID
    resolves to the one request that carries it, and two requests with the same
    authorization ID or the same nonce are the same request. *)
Theorem authorization_ids_unique journal l id r a id' r' a' :
  New cfg journal = Ok l ->
  records (l_maps l) !! id = Some r -> r_Authorization r = Some a ->
  records (l_maps l) !! id' = Some r' -> r_Authorization r' = Some a' ->
  GetByAuthorization l (a_AuthorizationID a) = Some r /\
  (a_AuthorizationID a = a_AuthorizationID a' \/ a_Nonce a = a_Nonce a' -> id = id').
Proof.
  intros (_ & Hr & _)%New_ok Hl Ha Hl' Ha'. apply replay_ok in Hr as [_ _ Hau Hno].
  assert (Hx1 : requestByAuthorization (l_maps l) !! a_AuthorizationID a = Some id) by (apply Hau; eauto).
  split; [unfold GetByAuthorization; by rewrite Hx1|]. intros [E1|E1].
  - assert (requestByAuthorization (l_maps l) !! a_AuthorizationID a = Some id') by (apply Hau; rewrite E1; eauto). congruence.
  - assert (Hx2 : requestByNonce (l_maps l) !! a_Nonce a = Some id) by (apply Hno; eauto).
    assert (requestByNonce (l_maps l) !! a_Nonce a = Some id') by (apply Hno; rewrite E1; eauto). congruence.
Qed.

(** ** History *)

Definition final_state (s : LState) : bool :=
  bool_decide (s = StateDenied) || bool_decide (s = StateRejected) ||
  bool_decide (s = StateIssued) || bool_decide (s = StateExpired).

Lemma moves_not_final e r r' : moves e r r' -> final_state (r_State r) = false.
Proof. destruct 1 as [? ? ? Hs|? ? Hs|? [Hs|Hs]]; rewrite Hs; done. Qed.

Lemma applyEvent_keeps m e m' id r :
  applyEvent m e = Ok m' -> records m !! id = Some r ->
  exists r', records m' !! id = Some r' /\ same_request r r' /\ (final_state (r_State r) = true -> r' = r).
Proof.
  intros Ha Hl. destruct (decide (ev_Kind e = eventIntentSubmitted)) as [Ek|Ek].
  - unfold applyEvent in Ha. rewrite bool_decide_eq_true_2 in Ha by done.
    apply apply_submitted_ok in Ha as (r0 & _ & _ & _ & Hf & _ & _ & _ & _ & ->). exists r. cbn.
    rewrite lookup_insert_ne by congruence. done.
  - destruct (apply_move _ _ _ Ha Ek) as (r0 & r1 & Hl0 & Hm & -> & _).
    destruct (decide (id = ev_RequestID e)) as [->|Hne]; [|exists r; by rewrite lookup_insert_ne].
    assert (r0 = r) as -> by congruence. exists r1. rewrite lookup_insert_eq. split; [done|].
    split; [by eapply moves_same|]. intros Hf. by rewrite (moves_not_final _ _ _ Hm) in Hf.
Qed.

Lemma fold_apply_keeps es : forall m m' id r,
  fold_res applyEvent m es = Ok m' -> records m !! id = Some r ->
  exists r', records m' !! id = Some r' /\ same_request r r' /\ (final_state (r_State r) = true -> r' = r).
Proof.
  induction es as [|e es IH]; intros m m' id r Hf Hl.
  { injection Hf as <-. exists r. by repeat split. }
  change (match applyEvent m e with Ok m1 => fold_res applyEvent m1 es | Err x => Err x end = Ok m') in Hf.
  destruct (applyEvent m e) as [m1|] eqn:Ha; [|done].
  destruct (applyEvent_keeps _ _ _ _ _ Ha Hl) as (r1 & Hl1 & Hs1 & Hf1).
  destruct (IH _ _ _ _ Hf Hl1) as (r2 & Hl2 & Hs2 & Hf2). exists r2. split; [done|]. split.
  - unfold same_request in *. destruct_and!. repeat split; congruence.
  - intros Hfin. rewrite Hf2, Hf1; [done|done|]. by rewrite Hf1.
Qed.

Lemma fold_res_app {S A} (f : S -> A -> res S) l1 : forall s l2,
  fold_res f s (l1 ++ l2) = try s1 := fold_res f s l1 in fold_res f s1 l2.
Proof.
  induction l1 as [|x l1 IH]; intros s l2; [done|].
  change (match f s x with Ok s1 => fold_res f s1 (l1 ++ l2) | Err m => Err m end =
          try s1 := match f s x with Ok s1 => fold_res f s1 l1 | Err m => Err m end in fold_res f s1 l2).
  destruct (f s x); [apply IH|done].
Qed.

(** the journal only ever adds: a request found after a prefix of the stream
    is found after the whole stream with the same content, decision and
    window, and a denied, rejected, issued or expired one is found unchanged. *)
Theorem history_is_monotone es later m m' id r :
  replay es = Ok m -> replay (es ++ later) = Ok m' -> records m !! id = Some r ->
  exists r', records m' !! id = Some r' /\ same_request r r' /\ (final_state (r_State r) = true -> r' = r).
Proof.
  unfold replay. intros Hp Hq Hl. rewrite fold_res_app, Hp in Hq. by eapply fold_apply_keeps.
Qed.
End Governed.

(** ** Runs *)

Inductive lop :=
| LSubmit (i : PaymentIntent)
| LDecide (id digest : string) (action : ApprovalAction) (actor note : string)
| LIssue (id : string)
| LSweep.

Section Runs.
Context `{CryptoLaws} `{Unicode} {J E : Type} `{EventJournalLaws J E LPayload} (cfg : LConfig).
Implicit Types (l : Lifecycle J) (env : Env E).

Definition lexec l env (op : lop) : Lifecycle J :=
  match op with
  | LSubmit i => (Submit cfg l env i).1
  | LDecide id digest action actor note => (Decide l env id digest action actor note).1
  | LIssue id => (Issue cfg l env id).1
  | LSweep => (SweepExpired l env).1.1
  end.

(** The text a caller hands in, and the clock. *)
Definition lop_sane l env (op : lop) : Prop :=
  clock_ok l env /\
  match op with
  | LSubmit i => submit_sane cfg l env i
  | LDecide _ _ _ _ note => valid_utf8 note = true
  | _ => True
  end.

(** A control plane started on an empty journal, its operations and restarts;
    [Q] restricts what the outside answers. *)
Inductive lrun (Q : Env E -> Prop) : Lifecycle J -> Prop :=
| lrun_new journal l : ej_Events journal = [] -> New cfg journal = Ok l -> lrun Q l
| lrun_op l env op : lrun Q l -> Q env -> lop_sane l env op -> lrun Q (lexec l env op)
| lrun_restart l l' : lrun Q l -> New cfg (l_journal l) = Ok l' -> lrun Q l'.

Definition any_env : Env E -> Prop := fun _ => True.

Definition config_ok : Prop :=
  exists limits, lc_pilotLimits cfg = Some limits /\ 0 < lc_authorizationTTL cfg <= lc_approvalTTL cfg /\
    idPattern (lc_envelopeKeyID cfg) = true /\ str_len (lc_envelopePrivateKey cfg) = PrivateKeySize.

Lemma New_iff journal l :
  New cfg journal = Ok l <-> config_ok /\ l_journal l = journal /\ replay (ej_Events journal) = Ok (l_maps l).
Proof.
  unfold New, config_ok. destruct (lc_pilotLimits cfg) as [limits|].
  2:{ split; [done|]. intros [(lm & Hlm & _) _]. done. }
  rewrite !check_ok_iff, try_ok_iff. to_prop. split.
  - intros (Httl & [Hid Hk] & m & Hm & [= <-]). split; [|done]. exists limits. repeat split; try done; lia.
  - intros [(lm & [= <-] & Httl & Hid & Hk) [<- Hr]]. repeat split; try done; try lia.
    exists (l_maps l). split; [done|]. by destruct l.
Qed.

Lemma sweep_synced l env : synced l -> sane_time (env_now env) -> synced (SweepExpired l env).1.1.
Proof.
  intros Hsy Hnow. unfold SweepExpired.
  destruct (sweep_loop l env (sweep_ids (l_maps l) (env_now env)) 0) as [[l' n'] err] eqn:Hs.
  apply sweep_loop_spec in Hs; [apply Hs|done|done|apply sweep_ids_NoDup|].
  apply Forall_forall. intros id. apply sweep_ids_spec.
Qed.

Lemma lexec_synced l env op : config_ok -> synced l -> lop_sane l env op -> synced (lexec l env op).
Proof.
  intros (lm & _ & Httl & _) Hsy [Hck Hop]. destruct op as [i|id digest action actor note|id|]; cbn.
  - destruct (Submit cfg l env i) as [l' r] eqn:Hx. by apply Submit_spec in Hx as [? _].
  - destruct (Decide l env id digest action actor note) as [l' r] eqn:Hx.
    apply Decide_spec in Hx as [? _]; [done|done|apply Hck|done].
  - destruct (Issue cfg l env id) as [l' r] eqn:Hx. apply Issue_spec in Hx as [? _]; [done|done|done|lia].
  - apply sweep_synced; [done|apply Hck].
Qed.

Lemma lrun_synced Q l : lrun Q l -> config_ok /\ synced l.
Proof.
  induction 1 as [journal l He Hn|l env op _ [Hc Hsy] _ Hop|l l' _ [Hc Hsy] Hn].
  - apply New_iff in Hn as (Hc & Hj & Hr). split; [done|]. rewrite He in Hr. injection Hr as Hr.
    split; [rewrite Hj, He; by rewrite <-Hr|]. rewrite <-Hr. apply map_Forall_empty.
  - split; [done|]. by apply lexec_synced.
  - apply New_iff in Hn as (_ & Hj & Hr). split; [done|]. destruct Hsy as [Hr0 Hs0].
    assert (l_maps l' = l_maps l) as Em by congruence.
    split; [by rewrite Hj, Em|by rewrite Em].
Qed.


(** [Submit] is idempotent: once an intent was accepted, submitting it again,
    whatever the outside answers, returns the same record and changes nothing. *)
Theorem submit_idempotent l env env' i l1 r :
  lrun any_env l -> lop_sane l env (LSubmit i) ->
  Submit cfg l env i = (l1, Ok r) -> Submit cfg l1 env' i = (l1, Ok r).
Proof.
  intros [Hc Hsy]%lrun_synced [_ Hop] Hs. pose proof Hs as Hs'.
  apply Submit_spec in Hs' as [Hsy1 Hcase]; [|done|done].
  assert (Hd : exists d, PaymentIntent_Digest i = Ok d).
  { unfold Submit in Hs. destruct (PaymentIntent_Digest i); [eauto|by injection Hs]. }
  destruct Hd as [d Hd]. unfold Submit in Hs |- *. rewrite Hd in Hs |- *.
  assert (Hfound : requestByIntent (l_maps l1) !! scopedIntentKey (i_OrganizationID i) (i_IntentID i) = Some (r_RequestID r) /\
                   records (l_maps l1) !! r_RequestID r = Some r /\ r_IntentDigest r = d).
  { destruct Hcase as [(Hm & _ & Hin)|(r0 & d0 & Hd0 & Hrec & [= <-] & Hm & _)].
    - destruct (Hin r eq_refl) as [_ Hl]. rewrite Hm.
      destruct (requestByIntent (l_maps l) !! _) as [id|] eqn:Ei.
      + case_bool_decide as Hdg; [|by injection Hs]. injection Hs as <- <-.
        pose proof Ei as Ei'. apply (mo_intent _ (synced_ok _ Hsy)) in Ei' as (r' & Hr' & _).
        unfold get_record in *. rewrite Hr' in *. cbn in *.
        by rewrite (ro_id _ _ (mo_records _ (synced_ok _ Hsy) _ _ Hr')).
      + destruct (submit_record cfg l env i d) as [r0|] eqn:Er; [|done].
        destruct (append_apply l env _ _ _) as [l2 [[]|]] eqn:Ea; [|done]. injection Hs as -> Hg.
        exfalso. pose proof (submit_record_ok cfg _ _ _ _ _ Er) as Hfr. destruct_and!.
        unfold get_record in Hg. rewrite Hm in Hg.
        match goal with Hn : records (l_maps l) !! r_RequestID r0 = None |- _ => rewrite Hn in Hg end.
        cbn in Hg. subst r. cbn in Hl.
        apply (mo_records _ (synced_ok _ Hsy)) in Hl as [_ Hdz _ _]. by vm_compute in Hdz.
    - assert (d0 = d) as -> by congruence. rewrite Hm. cbn.
      destruct (submit_record_ok cfg _ _ _ _ _ Hrec) as (Hri & Hrd & _).
      unfold record_key. rewrite Hri, !lookup_insert_eq. done. }
  destruct Hfound as (Hi & Hl & Hdg). rewrite Hi. unfold get_record. rewrite Hl. cbn.
  by rewrite bool_decide_eq_true_2.
Qed.

(** a sweep that reports no error expires exactly the pending and approved
    requests whose window has elapsed at the instant it reads the clock, counts
    them, and leaves every other request as it was. *)
Theorem sweep_complete l env l' n :
  lrun any_env l -> clock_ok l env -> SweepExpired l env = (l', n, None) ->
  n = Z.of_nat (length (sweep_ids (l_maps l) (env_now env))) /\
  forall id, records (l_maps l') !! id =
    match records (l_maps l) !! id with
    | Some r => if sweepable (env_now env) r
                then Some (with_state r StateExpired (r_Approval r) (r_Authorization r)) else Some r
    | None => None
    end.
Proof.
  intros [_ Hsy]%lrun_synced [Hnow _] Hs. unfold SweepExpired in Hs.
  apply sweep_loop_spec in Hs as (_ & Hkeep & _ & Hdone); [|done|done|apply sweep_ids_NoDup|].
  2:{ apply Forall_forall. intros id. apply sweep_ids_spec. }
  destruct (Hdone eq_refl) as [-> Hall]. split; [lia|]. intros id. rewrite Forall_forall in Hall.
  destruct (records (l_maps l) !! id) as [r|] eqn:Hl.
  - destruct (sweepable (env_now env) r) eqn:Hsw.
    + destruct (Hall id) as (r' & Hr' & Hx); [apply sweep_ids_spec; eauto|]. congruence.
    + rewrite Hkeep; [done|]. intros (r' & Hr' & Hsw')%sweep_ids_spec. congruence.
  - rewrite Hkeep; [done|]. intros (r' & Hr' & _)%sweep_ids_spec. congruence.
Qed.

(** ** Exposure *)

(** What a customer has outstanding: every pending, approved and issued request that
    the reading [oc] of the outcome source does not report final. *)
Definition exposure (oc : Outcomes) (m : LMaps) (i : PaymentIntent) : Z := map_sum (fun _ r => reserved_amount oc i r) (records m).

(** What the source reported final when the limits were checked, the reading [oc] still
    reports final. *)
Definition still_final (oc : Outcomes) (env : Env E) : Prop :=
  forall r, finalizedExecution (env_pilot env) r <> None -> finalizedExecution oc r <> None.

Lemma digits_nonneg v : str_all is_digit v = true -> 0 <= default 0 (SetString10 v).
Proof.
  intros Hd. destruct (decide (v = "")) as [->|Hne]; [done|]. rewrite SetString10_digits by done.
  destruct (parse_digits v 0) as [n|] eqn:Hp; [|done]. cbn. eapply parse_digits_nonneg; [|done]. lia.
Qed.

Lemma record_amount_nonneg id r : record_ok id r -> 0 <= record_amount r.
Proof.
  intros [_ Hd _ _]. unfold PaymentIntent_Digest in Hd. rewrite try_unit_iff in Hd. destruct Hd as [Hv _].
  unfold PaymentIntent_Validate in Hv. rewrite !check_ok_iff, try_unit_iff, !check_ok_iff in Hv.
  destruct_and!. by apply digits_nonneg, canonicalPositiveInteger_digits.
Qed.

Lemma not_issued_open oc r : r_State r <> StateIssued -> finalizedExecution oc r = None.
Proof. intros Hne. unfold finalizedExecution. by rewrite bool_decide_eq_false_2. Qed.

Lemma reserved_amount_bounds oc i id r : record_ok id r -> 0 <= reserved_amount oc i r <= record_amount r.
Proof. intros Hok%record_amount_nonneg. unfold reserved_amount. destruct (_ && _); lia. Qed.

Lemma reserved_amount_state oc i id r st ap au :
  record_ok id r -> reservationActive (r_State r) = true -> r_State r <> StateIssued ->
  reserved_amount oc i (with_state r st ap au) <= reserved_amount oc i r.
Proof.
  intros Hok Ha Hne. unfold reserved_amount. rewrite Ha, (not_issued_open oc r Hne), (bool_decide_eq_true_2 (None = None)) by done.
  change (same_customer (with_state r st ap au) i) with (same_customer r i).
  change (record_amount (with_state r st ap au)) with (record_amount r).
  pose proof (record_amount_nonneg _ _ Hok).
  destruct (same_customer r i); [|done]. cbn [andb]. destruct (_ && _); lia.
Qed.

Lemma exposure_set_record oc l id r st ap au i :
  synced l -> records (l_maps l) !! id = Some r -> reservationActive (r_State r) = true -> r_State r <> StateIssued ->
  exposure oc (set_record (l_maps l) id (with_state r st ap au)) i <= exposure oc (l_maps l) i.
Proof.
  intros Hsy Hl Ha Hne. unfold exposure. cbn. rewrite (map_sum_insert_upd _ _ _ r) by done.
  pose proof (reserved_amount_state oc i id r st ap au (mo_records _ (synced_ok _ Hsy) _ _ Hl) Ha Hne). lia.
Qed.

Lemma exposure_records oc m m' i : records m' = records m -> exposure oc m' i = exposure oc m i.
Proof. unfold exposure. by intros ->. Qed.

Lemma exposure_nonneg oc l i : synced l -> 0 <= exposure oc (l_maps l) i.
Proof. intros Hsy. apply map_sum_nonneg. intros id r Hl. by eapply reserved_amount_bounds, (mo_records _ (synced_ok _ Hsy)). Qed.

(** A later reading can only take requests out. *)
Lemma exposure_still_final oc env l i : synced l -> still_final oc env -> exposure oc (l_maps l) i <= exposure (env_pilot env) (l_maps l) i.
Proof.
  intros Hsy Hoc. apply map_sum_le. intros id r Hl.
  pose proof (record_amount_nonneg _ _ (mo_records _ (synced_ok _ Hsy) _ _ Hl)). specialize (Hoc r). unfold reserved_amount.
  destruct (same_customer r i && reservationActive (r_State r)); [cbn [andb]|done].
  repeat case_bool_decide; try lia. by destruct Hoc.
Qed.

(** Decisions, issues and sweeps never add exposure. *)
Lemma decide_exposure oc l env id digest action actor note i :
  synced l -> sane_time (env_now env) -> valid_utf8 note = true ->
  exposure oc (l_maps (Decide l env id digest action actor note).1) i <= exposure oc (l_maps l) i.
Proof.
  intros Hsy Hnow Hn. destruct (Decide _ _ _ _ _ _ _) as [l' res] eqn:Hx. cbn.
  apply Decide_spec in Hx as [_ [(_ & -> & _)|[(r & Hl & Hst & _ & ->)|(r & ap & Hl & Hst & _ & _ & _ & -> & _)]]];
    [lia| | |done..]; apply exposure_set_record; try done; by rewrite Hst.
Qed.

Lemma issue_exposure oc l env id i :
  synced l -> clock_ok l env -> 0 <= lc_authorizationTTL cfg ->
  exposure oc (l_maps (Issue cfg l env id).1) i <= exposure oc (l_maps l) i.
Proof.
  intros Hsy Hck Httl. destruct (Issue cfg l env id) as [l' res] eqn:Hx. cbn.
  apply Issue_spec in Hx as [_ [[-> _]|[(_ & -> & _)|[(r & Hl & Hst & _ & ->)|(r & sgn & Hl & Hst & _ & _ & -> & _)]]]];
    [lia|lia| | |done..].
  - apply exposure_set_record; try done; by rewrite Hst.
  - rewrite (exposure_records oc (set_record (l_maps l) id (with_state r StateIssued (r_Approval r) (Some (s_Authorization sgn))))) by done.
    apply exposure_set_record; try done; by rewrite Hst.
Qed.

Lemma sweep_exposure oc l env i :
  synced l -> sane_time (env_now env) ->
  exposure oc (l_maps (SweepExpired l env).1.1) i <= exposure oc (l_maps l) i.
Proof.
  intros Hsy Hnow. unfold SweepExpired.
  destruct (sweep_loop l env (sweep_ids (l_maps l) (env_now env)) 0) as [[l' n'] err] eqn:Hs. cbn.
  apply sweep_loop_spec in Hs as (_ & _ & Hany & _); [|done|done|apply sweep_ids_NoDup|].
  2:{ apply Forall_forall. intros id. apply sweep_ids_spec. }
  apply map_sum_pointwise. intros id. destruct (Hany id) as [->|(r & Hl & Hsw & ->)].
  - by destruct (records (l_maps l) !! id).
  - rewrite Hl. unfold sweepable in Hsw. to_prop.
    eapply reserved_amount_state; [by apply (mo_records _ (synced_ok _ Hsy))|..]; destruct Hsw as [[-> | ->] _]; done.
Qed.

(** A submission that is not denied was admitted by the pilot limits. *)
Lemma limited_decision_admits l env i ev dec limits :
  lc_pilotLimits cfg = Some limits -> limited_decision cfg l env i ev = Ok dec -> d_Outcome dec <> Deny ->
  dec = ev /\ pilot_Check (Some limits) (i_AmountAtomic i) (pilotOutstanding (l_maps l) (env_pilot env) i) = Ok tt.
Proof.
  intros Hlim Hd Hne. unfold limited_decision in Hd. rewrite Hlim in Hd.
  case_bool_decide; [by injection Hd as <-|].
  destruct (pilot_Check _ _ _) as [[]|x]; [by injection Hd as <-|].
  repeat case_bool_decide; try done; by injection Hd as <-.
Qed.

Lemma amount_dec_inv x n : 0 <= x -> amount (dec_string x) n -> x = n.
Proof. intros Hx [Ed ?]. apply dec_string_inj in Ed; lia. Qed.

Lemma submit_exposure oc l env i j limits p o :
  synced l -> submit_sane cfg l env i -> still_final oc env ->
  lc_pilotLimits cfg = Some limits -> limits_ok limits p o ->
  exposure oc (l_maps l) j <= o -> exposure oc (l_maps (Submit cfg l env i).1) j <= o.
Proof.
  intros Hsy Hop Hoc Hlim Hok Hle. destruct (Submit cfg l env i) as [l' res] eqn:Hx. cbn.
  apply Submit_spec in Hx as [_ [(-> & _)|(r & d & Hd & Hrec & _ & -> & _)]]; [done| |done|done].
  destruct (submit_record_ok cfg _ _ _ _ _ Hrec)
    as (Hri & _ & _ & _ & Hst & _ & Hfr & _ & _ & _ & _ & ev & _ & Hdec).
  unfold exposure. cbn. rewrite map_sum_insert_new by done. fold (exposure oc (l_maps l) j).
  unfold reserved_amount. destruct (same_customer r j) eqn:Hsc; [|cbn; lia].
  destruct (reservationActive (r_State r)) eqn:Hact; [cbn [andb]|cbn; lia].
  destruct (bool_decide (finalizedExecution oc r = None)); [|lia]. pose proof (exposure_still_final oc env l j Hsy Hoc) as Hmono.
  assert (Hne : d_Outcome (r_Decision r) <> Deny).
  { intros E1. unfold decisionState in Hst. rewrite E1, bool_decide_eq_true_2 in Hst by done.
    injection Hst as Hst. by rewrite <-Hst in Hact. }
  destruct (limited_decision_admits _ _ _ _ _ _ Hlim Hdec Hne) as [_ Hchk].
  apply (pilot_Check_iff limits p o) in Hchk as (a & x & Ha & Hxa & _ & Hsum); [|done].
  assert (Ex : exposure (env_pilot env) (l_maps l) j = x).
  { apply amount_dec_inv; [by apply exposure_nonneg|]. unfold pilotOutstanding in Hxa.
    unfold exposure. erewrite map_sum_ext; [exact Hxa|]. intros id r0 _. cbn beta.
    unfold reserved_amount, same_customer in *. rewrite Hri in Hsc. to_prop. destruct Hsc as [<- <-]. done. }
  unfold record_amount. rewrite Hri, (amount_value _ _ Ha). cbn. lia.
Qed.


(** ** Budgets *)

Lemma sum_amounts_nonneg l (f : LRecord -> bool) :
  synced l -> 0 <= map_sum (fun _ r => if f r then record_amount r else 0) (records (l_maps l)).
Proof.
  intros Hsy. apply map_sum_nonneg. intros id r Hl.
  pose proof (record_amount_nonneg _ _ (mo_records _ (synced_ok _ Hsy) _ _ Hl)). destruct (f r); lia.
Qed.

Lemma snapshot_nonneg l oc i now :
  synced l -> 0 <= taskSpent (l_maps l) oc i /\ 0 <= taskReserved (l_maps l) oc i /\
  0 <= dailySpent (l_maps l) oc i now /\ 0 <= dailyReserved (l_maps l) oc i.
Proof.
  intros Hsy. split; [by apply sum_amounts_nonneg|]. split; [|split; by apply sum_amounts_nonneg].
  unfold taskReserved, reserved_amount. apply map_sum_nonneg. intros id r Hl.
  pose proof (record_amount_nonneg _ _ (mo_records _ (synced_ok _ Hsy) _ _ Hl)).
  destruct (same_task r i); [|lia]. destruct (_ && _); lia.
Qed.

(** under a compiled policy, a new request that is not denied fits its task
    and daily budgets together with everything already settled and everything
    still reserved for the same customer, and is within the pilot limits. *)
Theorem submit_within_budgets pcfg e limits perAction outstanding l env i l' r :
  policy_Compile pcfg = Ok e ->
  (forall s, env_evaluate env i s = Ok (Evaluate e (toPolicyIntent i) s)) ->
  lc_pilotLimits cfg = Some limits -> limits_ok limits perAction outstanding ->
  lrun any_env l -> lop_sane l env (LSubmit i) ->
  Submit cfg l env i = (l', Ok r) -> records (l_maps l) !! r_RequestID r = None ->
  d_Outcome (r_Decision r) <> Deny ->
  let m := l_maps l in
  exists a taskBudget dailyBudget,
    amount (i_AmountAtomic i) a /\ amount (cfg_TaskBudgetAtomic pcfg) taskBudget /\
    amount (cfg_DailyBudgetAtomic pcfg) dailyBudget /\
    a + taskSpent m (env_spend env) i + taskReserved m (env_spend env) i <= taskBudget /\
    a + dailySpent m (env_spend env) i (env_now env) + dailyReserved m (env_spend env) i <= dailyBudget /\
    i_Recipient i ∈ cfg_AllowedRecipients pcfg /\ i_Asset i ∈ cfg_AllowedAssets pcfg /\
    a <= perAction.
Proof.
  intros Hpc Hev Hlim Hok [_ Hsy]%lrun_synced [_ Hop] Hs Hnew Hne m.
  apply Submit_spec in Hs as [_ [(_ & _ & Hin)|(r0 & d & Hd & Hrec & [= <-] & _)]]; [| |done|done].
  { destruct (Hin r eq_refl) as [_ Hx]. congruence. }
  destruct (submit_record_ok cfg _ _ _ _ _ Hrec) as (_ & _ & _ & _ & _ & _ & _ & _ & _ & _ & _ & ev & Hev0 & Hdec).
  destruct (limited_decision_admits _ _ _ _ _ _ Hlim Hdec Hne) as [Ed Hchk].
  rewrite Hev in Hev0. injection Hev0 as Hev0. rewrite Ed, <-Hev0 in Hne.
  apply policy_Compile_engine in Hpc. apply (Evaluate_not_denied _ _ _ _ Hpc) in Hne as [a Hp].
  apply (pilot_Check_iff limits perAction outstanding) in Hchk as (a' & x & Ha' & _ & Hle & _); [|done].
  destruct Hp as [_ _ _ Has Hre _ [Ha _] _ (ts & tr & tb & Hts & Htr & Htb & Htl) (ds & dr & db & Hds & Hdr & Hdb & Hdl)].
  destruct (snapshot_nonneg l (env_spend env) i (env_now env) Hsy) as (N1 & N2 & N3 & N4).
  apply amount_dec_inv in Hts, Htr, Hds, Hdr; [|done..]. cbn in *. subst ts tr ds dr.
  rewrite (amount_inj _ _ _ Ha' Ha) in Hle. exists a, tb, db. split_and!; try done; lia.
Qed.

(** ** Issuance *)

(** a successful [Issue] hands out an envelope that verifies under the
    control plane's public key, is the one authorization recorded for the
    request, and whose life ends no later than the approval window; a new one
    starts now, lasts at most the authorization TTL, and later calls return the
    very same envelope. *)
Theorem issue_exact l env id l' sgn :
  lrun any_env l -> clock_ok l env -> Issue cfg l env id = (l', Ok sgn) ->
  Verify sgn (ed25519_public (lc_envelopePrivateKey cfg)) = Ok tt /\
  exists r r', records (l_maps l) !! id = Some r /\ records (l_maps l') !! id = Some r' /\
    r_State r' = StateIssued /\ r_Authorization r' = Some (s_Authorization sgn) /\
    a_ExpiresAt (s_Authorization sgn) <= r_ApprovalExpiresAt r' /\
    (r_State r = StateApproved ->
       a_IssuedAt (s_Authorization sgn) = Unix (env_now env) /\
       a_ExpiresAt (s_Authorization sgn) <= Unix (time_add (env_now env) (lc_authorizationTTL cfg))) /\
    forall env', checkChain env' r' = None -> Issue cfg l' env' id = (l', Ok sgn).
Proof.
  intros [(lm & _ & Httl & _) Hsy]%lrun_synced Hck Hi.
  apply Issue_spec in Hi as [Hsy' Hc]; [|done|done|lia].
  assert (Hcase : exists r r', records (l_maps l) !! id = Some r /\ records (l_maps l') !! id = Some r' /\
    r_State r' = StateIssued /\ r_Authorization r' = Some (s_Authorization sgn) /\
    Sign (s_Authorization sgn) (lc_envelopeKeyID cfg) (lc_envelopePrivateKey cfg) = Ok sgn /\
    (r_State r = StateApproved -> issuing cfg l env r sgn)).
  { destruct Hc as [(-> & r & a & Hl & Hst & Ha & Hch & Hsg)|[(? & _)|[(r & _ & _ & ? & _)|(r & s0 & Hl & Hst & _ & Hiss & Hm & [[= <-]|?])]]]; try done.
    - destruct (Sign_validates _ _ _ _ (eq_sym Hsg)) as [Es _]. exists r, r. rewrite Es.
      split_and!; try done. intros Hx. by rewrite Hst in Hx.
    - eexists r, _. split; [done|]. split; [rewrite Hm; apply lookup_insert_eq|]. split_and!; try done. apply Hiss. }
  destruct Hcase as (r & r' & Hl & Hl' & Hst & Ha & Hsg & Hiss).
  split; [by apply (Sign_Verify _ _ _ _ Hsg)|]. exists r, r'. do 4 (split; [done|]). split_and!.
  - destruct (justified_auth r' _ (ro_state _ _ (mo_records _ (synced_ok _ Hsy') _ _ Hl')) Ha) as (_ & Hap & Hm & _).
    by destruct (gv_window _ _ (matches_governed r' _ Hap Hm)) as (_ & _ & ?).
  - intros Hx. specialize (Hiss Hx). destruct (issuing_matches cfg _ _ _ _ _ Hsy Hck ltac:(lia) Hl Hiss) as (_ & _ & ? & ?). done.
  - intros env' Hch. unfold Issue. rewrite Hl', Hst, Ha, Hch, Hsg.
    by rewrite bool_decide_eq_true_2.
Qed.
End Runs.

(** ** Concrete runs *)

Section LifecycleWitnesses.
#[local] Existing Instance ToyCrypto.
#[local] Existing Instance ToyCryptoLaws.
#[local] Existing Instance ToyUnicode.

Definition demo_lconfig : LConfig := {|
  lc_approvalTTL := 15 * Minute; lc_authorizationTTL := 5 * Minute;
  lc_envelopeKeyID := "key_1"; lc_envelopePrivateKey := demo_key;
  lc_pilotLimits := Some demo_limits |}.

Definition demo_purchase (rail : Rail) (purpose : string) : PaymentIntent := {|
  i_IntentID := "intent_1"; i_OrganizationID := "org_1"; i_CustomerID := "cust_1"; i_AgentID := "agent_1";
  i_TaskID := "task_1"; i_ActionID := "act_1"; i_Rail := rail; i_ChainID := 8453;
  i_Recipient := demo_provider; i_Asset := demo_asset; i_AmountAtomic := "1000";
  i_Resource := "https://seller.example/quote"; i_Category := "data"; i_Purpose := purpose; i_Escrow := None |}.

Definition demo_outcomes : Outcomes := {| oc_source := None; oc_clock := fun _ => 0 |}.

Definition demo_env (seconds : Z) : Env write_io := {|
  env_ctx := None; env_now := time_of_unix seconds; env_freeze := fun _ _ _ => None; env_lock := None;
  env_chain := fun _ => None; env_strictChain := None;
  env_evaluate := fun i s => Ok (Evaluate demo_engine (toPolicyIntent i) s);
  env_activeVersion := fun _ _ => Ok "policy_1";
  env_spend := demo_outcomes; env_pilot := demo_outcomes;
  env_requestID := Ok "req_1"; env_authorizationID := Ok "auth_1"; env_nonce := Ok (demo_hash "3");
  env_alloc := 1; env_journal := fun _ => Written |}.

Definition demo_l0 : Lifecycle (Journal LPayload) := mkLifecycle (mkJournal true [] [] "" None) empty_maps.
Definition demo_submit (seconds : Z) (purpose : string) : Lifecycle (Journal LPayload) * res LRecord :=
  Submit demo_lconfig demo_l0 (demo_env seconds) (demo_purchase RailX402 purpose).
Definition demo_l1 : Lifecycle (Journal LPayload) :=
  lexec demo_lconfig demo_l0 (demo_env 1700000000) (LSubmit (demo_purchase RailX402 "buy a quote")).
Definition demo_issue (seconds : Z) : Lifecycle (Journal LPayload) * res SignedAuthorization :=
  Issue demo_lconfig demo_l1 (demo_env seconds) "req_1".
Definition demo_l2 : Lifecycle (Journal LPayload) :=
  lexec demo_lconfig demo_l1 (demo_env 1700000060) (LIssue "req_1").

(** when the clock reads earlier at issuance than at submission, [Issue]
    makes its event durable and then rejects it: the file journal still opens,
    but the control plane can no longer be started on it. *)
Theorem clock_regression_poisons_journal :
  is_ok (demo_submit 1700000000 "buy a quote").2 = true /\
  is_ok (demo_issue 1699999995).2 = false /\
  length (Journal_Events (l_journal (demo_issue 1699999995).1)) = 2%nat /\
  is_ok (OpenJournal "journal" None (j_file (l_journal (demo_issue 1699999995).1))) = true /\
  is_ok (New demo_lconfig (l_journal (demo_issue 1699999995).1)) = false.
Proof. split_and!; vm_compute; reflexivity. Qed.

(** A purpose that is not valid UTF-8 passes validation, is made durable and
    is then rejected by its own digest; the control plane can no longer be
    started on the journal. *)
Theorem invalid_utf8_poisons_journal :
  let l := (demo_submit 1700000000 (String (char_of 255) "")).1 in
  is_ok (PaymentIntent_Validate (demo_purchase RailX402 (String (char_of 255) ""))) = true /\
  is_ok (demo_submit 1700000000 (String (char_of 255) "")).2 = false /\
  length (Journal_Events (l_journal l)) = 1%nat /\
  is_ok (New demo_lconfig (l_journal l)) = false.
Proof. split_and!; vm_compute; reflexivity. Qed.

(** *** Witnesses *)

Lemma demo_intent_typed rail purpose : intent_typed (demo_purchase rail purpose).
Proof. split; [vm_compute; split; congruence|done]. Qed.

Lemma demo_now_sane s : 0 <= s <= 2000000000 -> sane_time (env_now (demo_env s)).
Proof.
  intros Hs. assert (Hok : unix_ok s) by (unfold unix_ok, unixToInternal, MaxInt64; lia).
  apply (time_of_unix_ok _ Hok).
Qed.

Lemma demo_reasons i s d : env_evaluate (demo_env 1700000000) i s = Ok d -> valid_utf8 (d_Reason d) = true.
Proof.
  intros [= <-]. unfold Evaluate.
  repeat match goal with
  | |- context [if ?b then _ else _] => destruct b
  | |- context [match ?x with Ok _ => _ | Err _ => _ end] => destruct x
  | |- context [match ?x with Some _ => _ | None => _ end] => destruct x
  end; reflexivity.
Qed.

Definition no_outcomes : Env write_io -> Prop := fun env => oc_source (env_pilot env) = None.

Lemma demo_l0_run Q : lrun demo_lconfig Q demo_l0.
Proof. apply (lrun_new _ _ (mkJournal true [] [] "" None)); [reflexivity|]. vm_compute. reflexivity. Qed.

Lemma demo_submit_sane : lop_sane demo_lconfig demo_l0 (demo_env 1700000000) (LSubmit (demo_purchase RailX402 "buy a quote")).
Proof.
  split; [|split; [apply demo_now_sane; lia|]; split; [vm_compute; congruence|]; split; [vm_compute; reflexivity|];
           split; [apply demo_intent_typed|apply demo_reasons]].
  split; [apply demo_now_sane; lia|]. intros id r Hr.
  change ((∅ : gmap string LRecord) !! id = Some r) in Hr. by rewrite lookup_empty in Hr.
Qed.

Lemma demo_l1_run (Q : Env write_io -> Prop) : Q (demo_env 1700000000) -> lrun demo_lconfig Q demo_l1.
Proof.
  intros HQ. unfold demo_l1. apply lrun_op;
    [apply demo_l0_run|exact HQ|exact demo_submit_sane].
Qed.

(** The one record of the demonstration. *)
Definition demo_record : LRecord := get_record demo_l1 "req_1".

Lemma one_record {V} (m : gmap string V) k v id r : m = <[k := v]> ∅ -> m !! id = Some r -> id = k /\ r = v.
Proof. intros -> [[<- <-]|[_ Hr]]%lookup_insert_Some; [done|]. by rewrite lookup_empty in Hr. Qed.

Lemma demo_l1_records id r : records (l_maps demo_l1) !! id = Some r -> id = "req_1" /\ r = demo_record.
Proof. apply one_record. vm_compute. reflexivity. Qed.

Lemma demo_clock_ok s : 1700000000 <= s <= 2000000000 -> clock_ok demo_l1 (demo_env s).
Proof.
  intros Hs. split; [apply demo_now_sane; lia|]. intros id r [_ ->]%demo_l1_records.
  assert (Hok : unix_ok s) by (unfold unix_ok, unixToInternal, MaxInt64; lia).
  change (env_now (demo_env s)) with (time_of_unix s). rewrite (proj2 (time_of_unix_ok _ Hok)).
  assert (r_SubmittedAt demo_record = 1700000000) as -> by (vm_compute; reflexivity). lia.
Qed.

Lemma demo_l2_run : lrun demo_lconfig any_env demo_l2.
Proof.
  unfold demo_l2. apply lrun_op; [by apply demo_l1_run|done|].
  split; [apply demo_clock_ok; lia|done].
Qed.


Definition demo_issued : LRecord := get_record demo_l2 "req_1".
Definition demo_issued_auth : Authorization := default zero_authorization (r_Authorization demo_issued).

Lemma authorization_only_when_approved_witness : governed demo_issued demo_issued_auth.
Proof.
  apply (authorization_only_when_approved demo_lconfig (l_journal demo_l2) demo_l2 "req_1");
    vm_compute; reflexivity.
Defined.

Lemma authorization_ids_unique_witness : GetByAuthorization demo_l2 "auth_1" = Some demo_issued.
Proof.
  apply (authorization_ids_unique demo_lconfig (l_journal demo_l2) demo_l2
    "req_1" demo_issued demo_issued_auth "req_1" demo_issued demo_issued_auth); vm_compute; reflexivity.
Defined.

Lemma history_is_monotone_witness :
  exists r', records (l_maps demo_l2) !! "req_1" = Some r' /\ same_request demo_record r' /\
             (final_state (r_State demo_record) = true -> r' = demo_record).
Proof.
  apply (history_is_monotone (Journal_Events (l_journal demo_l1))
    (drop 1 (Journal_Events (l_journal demo_l2))) (l_maps demo_l1)); vm_compute; reflexivity.
Defined.

Lemma submit_idempotent_witness :
  Submit demo_lconfig demo_l1 (demo_env 5) (demo_purchase RailX402 "buy a quote") = (demo_l1, Ok demo_record).
Proof.
  apply (submit_idempotent demo_lconfig demo_l0 (demo_env 1700000000));
    [apply demo_l0_run|exact demo_submit_sane|vm_compute; reflexivity].
Defined.

Definition demo_l3 : Lifecycle (Journal LPayload) := (SweepExpired demo_l1 (demo_env 1700001000)).1.1.

Lemma sweep_complete_witness :
  1 = Z.of_nat (length (sweep_ids (l_maps demo_l1) (env_now (demo_env 1700001000)))).
Proof.
  apply (sweep_complete demo_lconfig demo_l1 (demo_env 1700001000) demo_l3);
    [by apply demo_l1_run|apply demo_clock_ok; lia|vm_compute; reflexivity].
Defined.

Lemma demo_limits_ok : limits_ok demo_limits 1000000 10000000.
Proof. split; [reflexivity|reflexivity|lia|lia]. Qed.

(** A source that reports the issued request settled. *)
Definition settled_outcomes : Outcomes := {|
  oc_source := Some (fun id => Some (mkFinalizedExecution id "org_1" "agent_1" "task_1" 8453 demo_asset demo_provider "1000" CanonicalExecutionSettled 1700000100));
  oc_clock := fun _ => time_of_unix 1700000200 |}.

Lemma demo_final (Q : Env write_io -> Prop) : (forall s, Q (demo_env s)) -> lrun demo_lconfig Q demo_l2.
Proof. intros HQ. unfold demo_l2. apply lrun_op; [apply demo_l1_run, HQ|apply HQ|]. split; [apply demo_clock_ok; lia|done]. Qed.


Lemma submit_within_budgets_witness : d_Outcome (r_Decision demo_record) = AutoApprove /\
  exists taskBudget, amount (cfg_TaskBudgetAtomic demo_policy) taskBudget.
Proof.
  split; [vm_compute; reflexivity|].
  destruct (submit_within_budgets demo_lconfig demo_policy demo_engine demo_limits 1000000 10000000
    demo_l0 (demo_env 1700000000) (demo_purchase RailX402 "buy a quote") demo_l1 demo_record)
    as (a & tb & db & _ & Htb & _); [vm_compute; reflexivity|reflexivity|reflexivity|exact demo_limits_ok|
      apply demo_l0_run|exact demo_submit_sane|vm_compute; reflexivity|vm_compute; reflexivity|
      vm_compute; discriminate|].
  exists tb. exact Htb.
Defined.

Definition demo_signed_again : SignedAuthorization :=
  match (demo_issue 1700000060).2 with Ok sgn => sgn | Err _ => demo_signed end.

Lemma issue_exact_witness : Verify demo_signed_again (ed25519_public demo_key) = Ok tt.
Proof.
  apply (issue_exact demo_lconfig demo_l1 (demo_env 1700000060) "req_1" demo_l2 demo_signed_again);
    [by apply demo_l1_run|apply demo_clock_ok; lia|vm_compute; reflexivity].
Defined.
End LifecycleWitnesses.
