(* ===== verification/Receipt.v ===== *)
(** * The signer's broadcast receipt ([pkg/broadcastreceipt/receipt.go])

    The customer signer's attestation that one authorized transaction was
    submitted: validation, the digest, and a signature that covers the receipt
    and the ID of the key that signs it. *)
From stdpp Require Import base gmap strings list fin_maps.
From Stdlib Require Import ZArith Lia Ascii.
From S2P Require Import Prelude GoText GoJSON Crypto Envelope.

Open Scope Z_scope.

(** ** Data *)

Definition Receipt_Version : string := "flowops.broadcast-receipt.v1".
Definition Receipt_domainPrefix : string := "flowops:broadcast-receipt:v1" +:+ newline.

(** [type Outcome string] *)
Abbreviation Outcome := string (only parsing).
Definition OutcomeSubmitted : Outcome := "SUBMITTED".
Definition OutcomeAmbiguous : Outcome := "AMBIGUOUS".

Record Receipt := mkReceipt {
  rc_Version : string;
  rc_OrganizationID : string;
  rc_CustomerID : string;
  rc_AuthorizationID : string;
  rc_AuthorizationDigest : string;
  rc_TransactionHash : string;
  rc_Sender : string;
  rc_Outcome : Outcome;
  rc_BroadcastAt : Z;
}.

Record SignedReceipt := mkSignedReceipt {
  sr_Receipt : Receipt;
  sr_KeyID : string;
  sr_Signature : string;
}.

#[export] Instance Receipt_eq_dec : EqDecision Receipt.
Proof. solve_decision. Defined.
#[export] Instance SignedReceipt_eq_dec : EqDecision SignedReceipt.
Proof. solve_decision. Defined.

(** ** Operations *)

Definition Receipt_Validate (r : Receipt) : res unit :=
  check bool_decide (rc_Version r = Receipt_Version) else "version" ;;
  check forallb identifier_pattern [rc_OrganizationID r; rc_CustomerID r; rc_AuthorizationID r]
    else "invalid identifier" ;;
  check hash_pattern (rc_AuthorizationDigest r) && hash_pattern (rc_TransactionHash r)
    else "authorizationDigest and transactionHash must be canonical lowercase 32-byte hashes" ;;
  check address_pattern (rc_Sender r) else "sender must be a canonical lowercase EVM address" ;;
  check bool_decide (rc_Outcome r = OutcomeSubmitted) || bool_decide (rc_Outcome r = OutcomeAmbiguous)
    else "outcome must be SUBMITTED or AMBIGUOUS" ;;
  check 0 <? rc_BroadcastAt r else "broadcastAt must be a positive Unix timestamp" ;;
  Ok tt.

Definition json_Receipt (r : Receipt) : string :=
  json_object [
    ("version", Some (json_string (rc_Version r)));
    ("organizationId", Some (json_string (rc_OrganizationID r)));
    ("customerId", Some (json_string (rc_CustomerID r)));
    ("authorizationId", Some (json_string (rc_AuthorizationID r)));
    ("authorizationDigest", Some (json_string (rc_AuthorizationDigest r)));
    ("transactionHash", Some (json_string (rc_TransactionHash r)));
    ("sender", Some (json_string (rc_Sender r)));
    ("outcome", Some (json_string (rc_Outcome r)));
    ("broadcastAt", Some (json_int (rc_BroadcastAt r)))].

Section Receipt.
Context `{Crypto}.

Definition Receipt_Digest (r : Receipt) : res string :=
  try _ := Receipt_Validate r in
  Ok (sha256 (Receipt_domainPrefix +:+ json_Receipt r)).

Definition signing_message (keyID receiptDigest : string) : string :=
  Receipt_domainPrefix +:+ keyID +:+ newline +:+ receiptDigest.

Definition signingDigest (r : Receipt) (keyID : string) : res string :=
  check identifier_pattern keyID else "keyId: invalid identifier" ;;
  try receiptDigest := Receipt_Digest r in
  Ok (sha256 (signing_message keyID receiptDigest)).

Definition Receipt_Sign (r : Receipt) (keyID privateKey : string) : res SignedReceipt :=
  check identifier_pattern keyID else "keyId: invalid identifier" ;;
  check str_len privateKey =? PrivateKeySize else "private key: invalid Ed25519 length" ;;
  try digest := signingDigest r keyID in
  Ok {| sr_Receipt := r; sr_KeyID := keyID;
        sr_Signature := "0x" +:+ hex_encode (ed25519_sign privateKey digest) |}.

Definition Receipt_Verify (s : SignedReceipt) (publicKey : string) : res unit :=
  check identifier_pattern (sr_KeyID s) else "keyId: invalid identifier" ;;
  check str_len publicKey =? PublicKeySize else "public key: invalid Ed25519 length" ;;
  check has_0x (sr_Signature s) else "signature: must use 0x-prefixed lowercase hex" ;;
  match hex_decode (trim_0x (sr_Signature s)) with
  | None => Err "signature: invalid canonical Ed25519 encoding"
  | Some raw =>
      check (str_len raw =? SignatureSize) && bool_decide (sr_Signature s = "0x" +:+ hex_encode raw)
        else "signature: invalid canonical Ed25519 encoding" ;;
      try digest := signingDigest (sr_Receipt s) (sr_KeyID s) in
      check ed25519_verify publicKey digest raw else "signature: verification failed" ;;
      Ok tt
  end.

(** ** Lemmas *)

Lemma signingDigest_ok r k d :
  signingDigest r k = Ok d <->
  identifier_pattern k = true /\ Receipt_Validate r = Ok tt /\
  d = sha256 (signing_message k (sha256 (Receipt_domainPrefix +:+ json_Receipt r))).
Proof.
  unfold signingDigest, Receipt_Digest.
  destruct (identifier_pattern k), (Receipt_Validate r) as [[]|]; naive_solver.
Qed.

Lemma Receipt_Verify_signing s pub :
  Receipt_Verify s pub = Ok tt -> exists d, signingDigest (sr_Receipt s) (sr_KeyID s) = Ok d.
Proof. unfold Receipt_Verify. intros Hv. go_inv. eauto. Qed.

Lemma Receipt_Verify_valid s pub :
  Receipt_Verify s pub = Ok tt -> Receipt_Validate (sr_Receipt s) = Ok tt.
Proof. intros (d & Hd)%Receipt_Verify_signing. by apply signingDigest_ok in Hd as (_ & ? & _). Qed.

Lemma Receipt_Sign_Verify `{!CryptoLaws} r k priv s :
  Receipt_Sign r k priv = Ok s ->
  sr_Receipt s = r /\ sr_KeyID s = k /\ Receipt_Verify s (ed25519_public priv) = Ok tt.
Proof.
  unfold Receipt_Sign. rewrite !check_ok_iff, try_ok_iff. intros (Hk & Hl & d & Hd & [= <-]).
  cbn. split_and!; [done..|]. to_prop. unfold Receipt_Verify. cbn [sr_KeyID sr_Signature sr_Receipt].
  rewrite Hk, public_size, has_0x_prefix, trim_0x_prefix, hex_decode_encode, sign_size by done.
  rewrite bool_decide_eq_true_2, Hd, sign_verify by done. done.
Qed.

Lemma signing_message_inj k1 d1 k2 d2 :
  String.length d1 = String.length d2 ->
  signing_message k1 d1 = signing_message k2 d2 -> k1 = k2 /\ d1 = d2.
Proof.
  unfold signing_message. intros Hl E%str_app_inv_head.
  assert (Hk : String.length k1 = String.length k2).
  { apply (f_equal String.length) in E. rewrite !str_app_len in E. lia. }
  apply str_app_inj in E as [-> E]; [|done]. by apply str_app_inv_head in E.
Qed.

Lemma json_Receipt_inj r s :
  Receipt_Validate r = Ok tt -> Receipt_Validate s = Ok tt ->
  json_Receipt r = json_Receipt s -> r = s.
Proof.
  assert (T : forall r, Receipt_Validate r = Ok tt ->
    Forall (fun v => valid_utf8 v = true)
      [rc_Version r; rc_OrganizationID r; rc_CustomerID r; rc_AuthorizationID r;
       rc_AuthorizationDigest r; rc_TransactionHash r; rc_Sender r; rc_Outcome r] /\ 0 <= rc_BroadcastAt r).
  { clear. intros r Hv. unfold Receipt_Validate in Hv. cbn [forallb] in Hv. ok_prop. destruct_and!.
    split; [|lia]. repeat constructor;
      first [by apply identifier_utf8|by eapply hex_pattern_utf8|idtac].
    - match goal with E : rc_Version r = _ |- _ => by rewrite E end.
    - match goal with E : rc_Outcome r = _ \/ _ |- _ => by destruct E as [-> | ->] end. }
  intros [Hr Br]%T [Hs Bs]%T E. clear T. rewrite !Forall_cons in Hr, Hs. destruct_and!.
  unfold json_Receipt in E. do 8 json_peel_string E. json_peel_int E.
  destruct r, s; cbn in *; congruence.
Qed.
End Receipt.

(** ** Properties *)

Section ReceiptTheorems.
Context `{CryptoLaws}.

(** a signed receipt verifies under its key, and what is signed binds the
    receipt and the key ID: two receipts signed to the same digest are the same
    receipt under the same key ID, unless SHA-256 collides. *)
Theorem receipt_signature_binds r1 k1 r2 k2 privateKey s d :
  Receipt_Sign r1 k1 privateKey = Ok s ->
  signingDigest r1 k1 = Ok d -> signingDigest r2 k2 = Ok d ->
  Receipt_Verify s (ed25519_public privateKey) = Ok tt /\ sr_Receipt s = r1 /\
  ((r1, k1) = (r2, k2) \/ exists x y, x <> y /\ sha256 x = sha256 y).
Proof.
  intros (Hr & _ & Hv)%Receipt_Sign_Verify (_ & V1 & E1)%signingDigest_ok (_ & V2 & E2)%signingDigest_ok.
  split; [done|]. split; [done|]. rewrite E1 in E2.
  set (m1 := Receipt_domainPrefix +:+ json_Receipt r1) in *.
  set (m2 := Receipt_domainPrefix +:+ json_Receipt r2) in *.
  destruct (decide (m1 = m2)) as [Em|Em].
  - apply str_app_inv_head, json_Receipt_inj in Em as ->; [|done..].
    destruct (decide (k1 = k2)) as [->|Hk]; [by left|]. right. do 2 eexists. split; [|exact E2].
    intros [? _]%signing_message_inj; done.
  - right. destruct (decide (sha256 m1 = sha256 m2)) as [Es|Es]; [eauto|].
    do 2 eexists. split; [|exact E2]. intros [_ ?]%signing_message_inj; [done|].
    pose proof (sha256_size m1). pose proof (sha256_size m2). unfold str_len in *. lia.
Qed.
End ReceiptTheorems.

(** ** Witness *)

Section ReceiptWitnesses.
#[local] Existing Instance ToyCrypto.
#[local] Existing Instance ToyCryptoLaws.

Definition demo_receipt : Receipt := {|
  rc_Version := Receipt_Version; rc_OrganizationID := "org_1"; rc_CustomerID := "cust_1";
  rc_AuthorizationID := "auth_1"; rc_AuthorizationDigest := demo_hash "4";
  rc_TransactionHash := demo_hash "5"; rc_Sender := demo_buyer;
  rc_Outcome := OutcomeSubmitted; rc_BroadcastAt := 1700000010 |}.

Definition demo_signed_receipt : SignedReceipt :=
  match Receipt_Sign demo_receipt "signer_1" demo_key with
  | Ok s => s
  | Err _ => {| sr_Receipt := demo_receipt; sr_KeyID := ""; sr_Signature := "" |}
  end.

Lemma receipt_signature_binds_witness :
  Receipt_Verify demo_signed_receipt (ed25519_public demo_key) = Ok tt /\
  sr_Receipt demo_signed_receipt = demo_receipt /\
  ((demo_receipt, "signer_1") = (demo_receipt, "signer_1") \/ exists x y, x <> y /\ sha256 x = sha256 y).
Proof.
  apply (receipt_signature_binds demo_receipt "signer_1" demo_receipt "signer_1" demo_key demo_signed_receipt
    (match signingDigest demo_receipt "signer_1" with Ok d => d | Err _ => "" end));
    vm_compute; reflexivity.
Defined.
End ReceiptWitnesses.
