(* ===== verification/Nonces.v ===== *)
(** * The signer's nonce journal ([pkg/referencesigner/nonces.go])

    An append-only file of [key TAB timestamp] lines and the set of claimed keys
    held in memory. The file is its bytes, because the scanner, the writer and a
    torn write meet at the level of bytes. [NonceStore] is the interface the
    verifier is written against. *)
From stdpp Require Import base gmap strings list fin_maps.
From Stdlib Require Import ZArith Lia Ascii.
From S2P Require Import Prelude GoText GoJSON Crypto Envelope.

Open Scope Z_scope.

(** ** [bufio.Scanner], [strings.Split], [strconv] *)

(** The lines of a byte stream; the last one need not be terminated. *)
Fixpoint split_lines (s : string) : list string :=
  match s with
  | EmptyString => []
  | String c r =>
      if code c =? 10 then "" :: split_lines r
      else match split_lines r with
           | [] => [String c ""]
           | l :: ls => String c l :: ls
           end
  end.

(** One trailing carriage return is not part of the line. *)
Fixpoint drop_cr (l : string) : string :=
  match l with
  | EmptyString => ""
  | String c EmptyString => if code c =? 13 then "" else l
  | String c r => String c (drop_cr r)
  end.

Definition MaxScanTokenSize : Z := 64 * 1024.

(** [strings.Split(s, "\t")] *)
Fixpoint split_tab (s : string) : list string :=
  match s with
  | EmptyString => [""]
  | String c r =>
      if code c =? 9 then "" :: split_tab r
      else match split_tab r with
           | [] => [String c ""]
           | p :: ps => String c p :: ps
           end
  end.

(** [strconv.ParseInt(s, 10, 64)] *)
Definition ParseInt64 (s : string) : option Z :=
  match SetString10 s with
  | Some n => if between MinInt64 MaxInt64 n then Some n else None
  | None => None
  end.

(** ** The store *)

Definition ErrNonceAlreadyClaimed : error := "nonce already claimed".
Definition tab : string := String "009"%char "".

Record FileNonceStore := mkFileNonceStore {
  n_open : bool;
  n_file : string;
  n_claimed : gset string;
}.

Definition nonce_replay_line (claimed : gset string) (raw : string) : res (gset string) :=
  check str_len raw + 1 <=? MaxScanTokenSize else "read nonce journal: token too long" ;;
  match split_tab (drop_cr raw) with
  | [key; at_] =>
      check negb (bool_decide (key = "")) else "nonce journal line is malformed" ;;
      match ParseInt64 at_ with
      | None => Err "nonce journal line has invalid timestamp"
      | Some _ =>
          check negb (bool_decide (key ∈ claimed)) else "nonce journal line duplicates a prior claim" ;;
          Ok ({[key]} ∪ claimed)
      end
  | _ => Err "nonce journal line is malformed"
  end.

Definition nonce_replay (file : string) : res (gset string) :=
  fold_res nonce_replay_line ∅ (split_lines file).

(** [io]: the failure of opening, syncing the directory, locking or seeking. *)
Definition OpenFileNonceStore (path : string) (io : option error) (file : string) : res FileNonceStore :=
  check negb (bool_decide (TrimSpace path = "")) else "nonce journal path is required" ;;
  match io with
  | Some m => Err m
  | None =>
      try claimed := nonce_replay file in
      Ok {| n_open := true; n_file := file; n_claimed := claimed |}
  end.

(** What the file system answers to the write and sync of one record: an error
    or a short count after some bytes reached the file, a failed sync, or
    success. *)
Inductive claim_io :=
| ClaimWriteFails (m : error) (written : nat)
| ClaimShortWrite (written : nat)
| ClaimSyncFails (m : error)
| ClaimDurable.

Definition claim_record (key : string) (claimedAt : time) : string :=
  key +:+ tab +:+ dec_string (Unix claimedAt) +:+ newline.

Definition store_with (s : FileNonceStore) (written : string) (claimed : gset string) : FileNonceStore :=
  {| n_open := n_open s; n_file := n_file s +:+ written; n_claimed := claimed |}.

Definition FileNonceStore_Claim (s : FileNonceStore) (ctx : option error) (io : claim_io)
    (key : string) (claimedAt : time) : FileNonceStore * res unit :=
  match ctx with
  | Some m => (s, Err m)
  | None =>
  if bool_decide (key = "") || contains_crlftab key then (s, Err "nonce claim key is invalid") else
  if bool_decide (key ∈ n_claimed s) then (s, Err ErrNonceAlreadyClaimed) else
  if negb (n_open s) then (s, Err "append nonce claim: invalid argument") else
  let record := claim_record key claimedAt in
  match io with
  | ClaimWriteFails m n => (store_with s (String.substring 0 n record) (n_claimed s), Err m)
  | ClaimShortWrite n =>
      (store_with s (String.substring 0 n record) (n_claimed s), Err "append nonce claim: short write")
  | ClaimSyncFails m => (store_with s record (n_claimed s), Err m)
  | ClaimDurable => (store_with s record ({[key]} ∪ n_claimed s), Ok tt)
  end end.

Definition FileNonceStore_Close (s : FileNonceStore) : FileNonceStore :=
  {| n_open := false; n_file := n_file s; n_claimed := n_claimed s |}.

(** ** The interface *)

Class NonceStore (N E : Type) := {
  ns_Claim : N -> option error -> E -> string -> time -> N * res unit;
  ns_spent : N -> gset string;
}.

(** A claim that succeeds spends a key that was not spent; one that fails
    spends nothing in this process. *)
Class NonceStoreLaws (N E : Type) `{NonceStore N E} := {
  claim_ok s ctx io key at_ s' :
    ns_Claim s ctx io key at_ = (s', Ok tt) ->
    key ∉ ns_spent s /\ ns_spent s' = {[key]} ∪ ns_spent s;
  claim_err s ctx io key at_ s' m :
    ns_Claim s ctx io key at_ = (s', Err m) -> ns_spent s' = ns_spent s;
}.

#[export] Instance FileNonces : NonceStore FileNonceStore claim_io :=
  {| ns_Claim := FileNonceStore_Claim; ns_spent := n_claimed |}.

#[export] Instance FileNoncesLaws : NonceStoreLaws FileNonceStore claim_io.
Proof.
  split; cbn [ns_Claim ns_spent FileNonces]; unfold FileNonceStore_Claim.
  - intros s ctx io key at_ s' Hc. go_inv. destruct io; simplify_eq. to_prop. done.
  - intros s ctx io key at_ s' m Hc. go_inv. destruct io; by simplify_eq.
Qed.

(** ** Runs across restarts *)

(** A claim, or the end of the process and a new one that opens the file. *)
Inductive nonce_op :=
| NClaim (ctx : option error) (io : claim_io) (key : string) (claimedAt : time)
| NRestart.

(** The keys whose claims were acknowledged, oldest first. The run stops when
    the store cannot be opened again. *)
Definition nonce_step (st : FileNonceStore * list string) (op : nonce_op) : res (FileNonceStore * list string) :=
  let '(s, acks) := st in
  match op with
  | NClaim ctx io key at_ =>
      let '(s', r) := FileNonceStore_Claim s ctx io key at_ in
      Ok (s', if is_ok r then acks ++ [key] else acks)
  | NRestart =>
      try s' := OpenFileNonceStore "nonces" None (n_file s) in Ok (s', acks)
  end.

Definition fresh_store : FileNonceStore := {| n_open := true; n_file := ""; n_claimed := ∅ |}.

Definition nonce_run (ops : list nonce_op) : res (FileNonceStore * list string) :=
  fold_res nonce_step (fresh_store, []) ops.

(** A write that failed left nothing or the whole record. *)
Definition io_whole (io : claim_io) : bool :=
  match io with
  | ClaimWriteFails _ n | ClaimShortWrite n => Nat.eqb n 0
  | ClaimSyncFails _ | ClaimDurable => true
  end.
Definition op_whole (op : nonce_op) : bool :=
  match op with
  | NClaim _ io key _ => io_whole io && (str_len key <=? 65000)
  | NRestart => true
  end.

(** No sync failed after a complete write. *)
Definition op_synced (op : nonce_op) : bool :=
  match op with NClaim _ (ClaimSyncFails _) _ _ => false | _ => true end.

(** ** Lines and fields *)

Definition no_nl (s : string) : bool := str_all (fun c => negb (code c =? 10)) s.

Lemma split_lines_app l s : no_nl l = true -> split_lines (l +:+ newline +:+ s) = l :: split_lines s.
Proof.
  induction l as [|c l IH]; intros Hl; [done|]. cbn in Hl. to_prop. destruct Hl as [Hc Hl].
  rewrite str_app_cons. cbn [split_lines]. destruct (Z.eqb_spec (code c) 10); [done|].
  by rewrite IH.
Qed.

Lemma drop_cr_id l : str_all (fun c => negb (code c =? 13)) l = true -> drop_cr l = l.
Proof.
  induction l as [|c l IH]; intros Hl; [done|]. cbn in Hl. to_prop. destruct Hl as [Hc Hl].
  cbn [drop_cr]. destruct l as [|d l]; [|by rewrite IH]. by destruct (Z.eqb_spec (code c) 13).
Qed.

Definition no_tab (s : string) : bool := str_all (fun c => negb (code c =? 9)) s.

Lemma split_tab_none s : no_tab s = true -> split_tab s = [s].
Proof.
  induction s as [|c s IH]; intros Hs; [done|]. cbn in Hs. to_prop. destruct Hs as [Hc Hs].
  cbn [split_tab]. rewrite (IH Hs). by destruct (Z.eqb_spec (code c) 9).
Qed.

Lemma split_tab_app k s : no_tab k = true -> no_tab s = true -> split_tab (k +:+ tab +:+ s) = [k; s].
Proof.
  intros Hk Hs. induction k as [|c k IH].
  - change (split_tab ("" +:+ tab +:+ s)) with ("" :: split_tab s). by rewrite split_tab_none.
  - cbn in Hk. to_prop. destruct Hk as [Hc Hk]. rewrite str_app_cons. cbn [split_tab].
    rewrite (IH Hk). by destruct (Z.eqb_spec (code c) 9).
Qed.

(** The text of an [int64]: digits and perhaps a minus sign. *)
Definition is_int_char (c : ascii) : bool := is_digit c || (code c =? 45).

Lemma dec_string_chars n : str_all is_int_char (dec_string n) = true.
Proof.
  assert (D : forall s, str_all is_digit s = true -> str_all is_int_char s = true).
  { intros s. apply str_all_impl. intros c Hc. unfold is_int_char. by rewrite Hc. }
  unfold dec_string. destruct (Z.ltb_spec n 0).
  - rewrite str_all_app. cbn [str_all]. rewrite D; [done|]. apply dec_digits_all; [lia|done].
  - apply D, dec_digits_all; [lia|done].
Qed.

Lemma int_char_range c : is_int_char c = true -> 45 <= code c.
Proof. unfold is_int_char, is_digit, between. to_prop. lia. Qed.

Lemma ParseInt64_dec n : is_int64 n -> ParseInt64 (dec_string n) = Some n.
Proof.
  intros Hn. unfold ParseInt64.
  assert (SetString10 (dec_string n) = Some n) as ->.
  { destruct (Z.ltb_spec n 0) as [Hlt|]; [|by apply SetString10_dec_string].
    pose proof (SetString10_dec_string (- n) ltac:(lia)) as Hp. unfold dec_string in *.
    destruct (Z.ltb_spec n 0); [|lia]. destruct (Z.ltb_spec (- n) 0); [lia|].
    destruct (dec_digits_cons (S (Z.to_nat (Z.log2 (- n)))) (- n) "" ltac:(lia)) as (c & r & E & Hc).
    rewrite E in *. specialize (Hc ltac:(lia)). apply digit_code in Hc.
    unfold SetString10 in Hp.
    destruct (Z.eqb_spec (code c) 45); [lia|]. destruct (Z.eqb_spec (code c) 43); [lia|].
    transitivity (option_map Z.opp (parse_digits (String c r) 0)); [done|].
    rewrite Hp. cbn [option_map]. f_equal. lia. }
  unfold between, is_int64 in *. destruct (Z.leb_spec MinInt64 n), (Z.leb_spec n MaxInt64); done || lia.
Qed.

Lemma dec_digits_len fuel : forall n acc,
  (String.length (dec_digits fuel n acc) <= fuel + String.length acc)%nat.
Proof.
  induction fuel as [|fuel IH]; intros n acc; cbn [dec_digits]; [lia|].
  destruct (n <? 10); [cbn; lia|]. etrans; [apply IH|]. cbn. lia.
Qed.

Lemma dec_string_len n : is_int64 n -> str_len (dec_string n) <= 66.
Proof.
  intros Hn. assert (L : forall m, 0 <= m <= 2 ^ 63 -> (Z.to_nat (Z.log2 m) <= 63)%nat).
  { intros m Hm. apply Nat2Z.inj_le. rewrite Z2Nat.id by apply Z.log2_nonneg.
    change (Z.of_nat 63) with (Z.log2 (2 ^ 63)). apply Z.log2_le_mono. lia. }
  unfold is_int64, MinInt64, MaxInt64 in Hn. unfold str_len, dec_string. destruct (Z.ltb_spec n 0).
  - rewrite str_app_len. pose proof (dec_digits_len (S (Z.to_nat (Z.log2 (- n)))) (- n) "").
    specialize (L (- n) ltac:(lia)). cbn in *. lia.
  - pose proof (dec_digits_len (S (Z.to_nat (Z.log2 n))) n "").
    specialize (L n ltac:(lia)). cbn in *. lia.
Qed.

(** ** The file of a store *)

(** The keys a line may carry. *)
Definition key_ok (key : string) : bool :=
  negb (bool_decide (key = "")) && negb (contains_crlftab key) && (str_len key <=? 65000).

Definition records (rs : list (string * time)) : string :=
  str_concat (map (fun r => claim_record r.1 r.2) rs).

Lemma key_ok_chars key :
  key_ok key = true ->
  no_tab key = true /\ no_nl key = true /\ str_all (fun c => negb (code c =? 13)) key = true.
Proof.
  unfold key_ok, contains_crlftab. rewrite negb_involutive. to_prop. intros [[_ Hk] _].
  unfold no_tab, no_nl. split_and!; (eapply str_all_impl; [|exact Hk]); intros c; to_prop; tauto.
Qed.

Lemma int_text_chars n :
  no_tab (dec_string n) = true /\ no_nl (dec_string n) = true /\
  str_all (fun c => negb (code c =? 13)) (dec_string n) = true.
Proof.
  pose proof (dec_string_chars n) as Hd. unfold no_tab, no_nl.
  split_and!; (eapply str_all_impl; [|exact Hd]); intros c Hc%int_char_range; to_prop; lia.
Qed.

(** The line of one claim reads back as that claim. *)
Lemma nonce_replay_record claimed key at_ :
  key_ok key = true ->
  nonce_replay_line claimed (key +:+ tab +:+ dec_string (Unix at_)) =
  if bool_decide (key ∈ claimed) then Err "nonce journal line duplicates a prior claim"
  else Ok ({[key]} ∪ claimed).
Proof.
  intros Hk. destruct (key_ok_chars _ Hk) as (K1 & _ & K3). destruct (int_text_chars (Unix at_)) as (D1 & _ & D3).
  pose proof (dec_string_len _ (Unix_int64 at_)) as Hl.
  unfold key_ok in Hk. to_prop. destruct Hk as [[Hne _] Hlen].
  unfold nonce_replay_line. rewrite drop_cr_id, split_tab_app by (try done; rewrite !str_all_app, K3, D3; done).
  rewrite ParseInt64_dec by apply Unix_int64. rewrite bool_decide_eq_false_2 by done. cbn [negb].
  unfold str_len in *. rewrite !str_app_len. cbn [tab String.length].
  destruct (Z.leb_spec (Z.of_nat (String.length key + (1 + String.length (dec_string (Unix at_)))) + 1) MaxScanTokenSize);
    [by destruct (bool_decide (key ∈ claimed))|unfold MaxScanTokenSize in *; lia].
Qed.

Lemma split_records rs :
  Forall (fun r => key_ok r.1 = true) rs ->
  split_lines (records rs) = map (fun r => r.1 +:+ tab +:+ dec_string (Unix r.2)) rs.
Proof.
  induction rs as [|[key at_] rs IH]; intros Hr; [done|]. rewrite Forall_cons in Hr. destruct Hr as [Hk Hr].
  unfold records, claim_record in *. cbn [map str_concat fst snd] in *.
  destruct (key_ok_chars _ Hk) as (_ & K & _). destruct (int_text_chars (Unix at_)) as (_ & D & _).
  rewrite <-(IH Hr), <-split_lines_app; [by rewrite !str_app_assoc|].
  unfold no_nl in *. rewrite !str_all_app, K, D. done.
Qed.

Lemma records_snoc rs r : records (rs ++ [r]) = records rs +:+ claim_record r.1 r.2.
Proof.
  unfold records. induction rs as [|x rs IH]; cbn [app map str_concat].
  - apply chars_inj. rewrite !chars_app. cbn. by rewrite app_nil_r.
  - by rewrite IH, str_app_assoc.
Qed.

(** Replaying a file of records succeeds exactly when no key repeats, and gives
    the keys. *)
Lemma nonce_replay_records rs :
  Forall (fun r => key_ok r.1 = true) rs ->
  forall claimed, nonce_replay (records rs) = Ok claimed <->
    NoDup rs.*1 /\ claimed = list_to_set rs.*1.
Proof.
  intros Hr. unfold nonce_replay. rewrite (split_records _ Hr).
  induction rs as [|[key at_] rs IH] using rev_ind; intros claimed.
  { cbn. rewrite NoDup_nil. unfold fold_res. naive_solver. }
  rewrite Forall_app, Forall_singleton in Hr. destruct Hr as [Hr Hk]. cbn [fst] in Hk.
  rewrite map_app. cbn [map fst snd]. rewrite fold_res_snoc, try_ok_iff.
  rewrite fmap_app, NoDup_app, list_to_set_app_L. cbn [fmap list_fmap fst list_to_set].
  setoid_rewrite (nonce_replay_record _ _ _ Hk). split.
  - intros (c & [Hnd ->]%IH & Hc); [|done]. destruct (bool_decide_reflect (key ∈ list_to_set (C:=gset string) rs.*1)) as [?|Hin]; [done|].
    injection Hc as <-. split; [|set_solver]. split_and!; [done| |by apply NoDup_singleton]. set_solver.
  - intros [(Hnd & Hdis & _) ->]. exists (list_to_set rs.*1). split; [by apply IH|].
    rewrite bool_decide_eq_false_2; [f_equal; set_solver|]. set_solver.
Qed.

(** ** The invariant of a run *)

Record run_ok (s : FileNonceStore) (acks : list string) (rs : list (string * time)) : Prop := {
  ro_open : n_open s = true;
  ro_file : n_file s = records rs;
  ro_keys : Forall (fun r => key_ok r.1 = true) rs;
  ro_acks : forall k, k ∈ acks -> k ∈ n_claimed s;
  ro_claimed : n_claimed s ⊆ list_to_set rs.*1;
  ro_once : NoDup acks;
}.

(** Every record of the file was acknowledged to someone. *)
Definition run_synced (s : FileNonceStore) (rs : list (string * time)) : Prop :=
  n_claimed s = list_to_set rs.*1 /\ NoDup rs.*1.

Lemma substring_none s : String.substring 0 0 s = "".
Proof. by destruct s. Qed.

Lemma store_with_nothing s : store_with s "" (n_claimed s) = s.
Proof.
  destruct s as [o f c]. unfold store_with. cbn. f_equal. apply chars_inj. rewrite chars_app. cbn. by rewrite app_nil_r.
Qed.

Lemma run_ok_append s acks rs key at_ :
  run_ok s acks rs -> key_ok key = true ->
  run_ok (store_with s (claim_record key at_) (n_claimed s)) acks (rs ++ [(key, at_)]).
Proof.
  intros [Ho Hf Hk Ha Hc Hn] Hok. split; cbn [n_open n_file n_claimed store_with]; try done.
  - by rewrite records_snoc, Hf.
  - rewrite Forall_app, Forall_singleton. done.
  - rewrite fmap_app, list_to_set_app_L. set_solver.
Qed.

Lemma run_ok_claim s acks rs key at_ :
  run_ok s acks rs -> key_ok key = true -> key ∉ n_claimed s ->
  run_ok (store_with s (claim_record key at_) ({[key]} ∪ n_claimed s)) (acks ++ [key]) (rs ++ [(key, at_)]).
Proof.
  intros [Ho Hf Hk Ha Hc Hn] Hok Hnew. split; cbn [n_open n_file n_claimed store_with]; try done.
  - by rewrite records_snoc, Hf.
  - rewrite Forall_app, Forall_singleton. done.
  - set_solver.
  - rewrite fmap_app, list_to_set_app_L. set_solver.
  - apply NoDup_app. split_and!; [done| |by apply NoDup_singleton].
    intros k Hk'%Ha Hin. apply list_elem_of_singleton in Hin as ->. done.
Qed.

(** One step of a run whose failed writes are whole. *)
Lemma nonce_step_ok s acks rs op st :
  run_ok s acks rs -> op_whole op = true -> nonce_step (s, acks) op = Ok st ->
  exists rs', run_ok st.1 st.2 rs' /\ (run_synced s rs -> op_synced op = true -> run_synced st.1 rs').
Proof.
  intros Hr Hw Hs. destruct op as [ctx io key at_|]; cbn [nonce_step op_whole] in *.
  - destruct (FileNonceStore_Claim s ctx io key at_) as [s' r] eqn:Ec. injection Hs as <-.
    cbn [fst snd]. unfold FileNonceStore_Claim in Ec. rewrite (ro_open _ _ _ Hr) in Ec. to_prop. destruct Hw as [Hio Hlen].
    destruct ctx as [m|]; [simplify_eq; by exists rs|].
    destruct (bool_decide (key = "") || contains_crlftab key) eqn:Hkey; [simplify_eq; by exists rs|].
    assert (Hok : key_ok key = true).
    { unfold key_ok. rewrite orb_false_iff in Hkey. destruct Hkey as [-> ->]. by to_prop. }
    destruct (bool_decide_reflect (key ∈ n_claimed s)) as [|Hnew]; [simplify_eq; by exists rs|].
    destruct io as [m n|n|m|]; cbn [negb io_whole] in *; simplify_eq; cbn [is_ok].
    + apply Nat.eqb_eq in Hio as ->. rewrite substring_none, store_with_nothing. by exists rs.
    + apply Nat.eqb_eq in Hio as ->. rewrite substring_none, store_with_nothing. by exists rs.
    + exists (rs ++ [(key, at_)]). split; [by apply run_ok_append|done].
    + exists (rs ++ [(key, at_)]). split; [by apply run_ok_claim|]. intros [Hsy Hnd] _. unfold run_synced.
      rewrite fmap_app, list_to_set_app_L. cbn [n_claimed store_with fmap list_fmap fst list_to_set]. rewrite Hsy.
      split; [set_solver|]. apply NoDup_app. split_and!; [done|set_solver|by apply NoDup_singleton].
  - destruct Hr as [Ho Hf Hk Ha Hc Hn]. unfold OpenFileNonceStore in Hs. cbn [negb] in Hs.
    rewrite bool_decide_eq_false_2 in Hs by done. cbn [negb] in Hs. rewrite Hf in Hs.
    destruct (nonce_replay (records rs)) as [c|] eqn:Er; [|done]. injection Hs as <-.
    apply (nonce_replay_records _ Hk) in Er as [Hnd ->]. exists rs. split; [|done].
    split; cbn [n_open n_file n_claimed fst snd]; try done. set_solver.
Qed.

Lemma nonce_reopen s acks rs :
  run_ok s acks rs -> run_synced s rs -> OpenFileNonceStore "nonces" None (n_file s) = Ok s.
Proof.
  intros [Ho Hf Hk _ _ _] [Hc Hn]. unfold OpenFileNonceStore. rewrite bool_decide_eq_false_2 by done. cbn [negb].
  rewrite Hf. destruct (nonce_replay (records rs)) as [c|m] eqn:Er.
  - apply (nonce_replay_records _ Hk) in Er as [_ ->]. destruct s as [o f cl]; cbn in *. by subst.
  - assert (nonce_replay (records rs) = Ok (list_to_set rs.*1)) as Eo by by apply nonce_replay_records. congruence.
Qed.

Lemma run_ok_fresh : run_ok fresh_store [] [] /\ run_synced fresh_store [].
Proof. split; [split; try done; try set_solver; constructor|]. split; [done|constructor]. Qed.

Lemma nonce_run_ok ops : forallb op_whole ops = true ->
  (forall st, nonce_run ops = Ok st -> exists rs, run_ok st.1 st.2 rs /\
     (forallb op_synced ops = true -> run_synced st.1 rs)) /\
  (forallb op_synced ops = true -> exists st, nonce_run ops = Ok st).
Proof.
  unfold nonce_run. induction ops as [|op ops IH] using rev_ind; intros Hw.
  { split; [|eauto]. intros st [= <-]. exists []. by destruct run_ok_fresh. }
  rewrite forallb_app in *. cbn [forallb] in *. rewrite andb_true_r in *. to_prop. destruct Hw as [Hws Hw].
  destruct (IH Hws) as [IH1 IH2]. rewrite fold_res_snoc. split.
  - intros st Hst. apply try_ok_iff in Hst as ([s acks] & Hrun & Hst).
    destruct (IH1 _ Hrun) as (rs & Hr & Hsy). cbn [fst snd] in *.
    destruct (nonce_step_ok _ _ _ _ _ Hr Hw Hst) as (rs' & Hr' & Hsy'). exists rs'. split; [done|].
    intros [Ho Hop]%andb_true_iff. auto.
  - intros [Ho Hop]. destruct (IH2 Ho) as ([s acks] & Hrun). rewrite Hrun.
    destruct (IH1 _ Hrun) as (rs & Hr & Hsy). destruct op as [ctx io key at_|]; cbn [nonce_step].
    + destruct (FileNonceStore_Claim s ctx io key at_). eauto.
    + pose proof (nonce_reopen _ _ _ Hr (Hsy Ho)) as Hre. cbn [fst] in Hre. rewrite Hre. eauto.
Qed.

(** ** Properties *)

(** when a failed write leaves either nothing or its whole record, no key is
    acknowledged twice, across any number of restarts, and the running store
    refuses every key it ever acknowledged. When moreover no sync fails after a
    complete write, the store always opens again, in the state it was left in. *)
Theorem nonce_single_use ops :
  forallb op_whole ops = true ->
  (forall s acks, nonce_run ops = Ok (s, acks) ->
     NoDup acks /\
     forall k io at_, k ∈ acks -> FileNonceStore_Claim s None io k at_ = (s, Err ErrNonceAlreadyClaimed)) /\
  (forallb op_synced ops = true ->
     exists s acks, nonce_run ops = Ok (s, acks) /\ OpenFileNonceStore "nonces" None (n_file s) = Ok s).
Proof.
  intros Hw. destruct (nonce_run_ok ops Hw) as [H1 H2]. split.
  - intros s acks Hrun. destruct (H1 _ Hrun) as (rs & Hr & _). cbn [fst snd] in Hr. split; [apply Hr|].
    intros k io at_ Hk%(ro_acks _ _ _ Hr). pose proof (ro_claimed _ _ _ Hr _ Hk) as Hin.
    apply elem_of_list_to_set, list_elem_of_fmap in Hin as ([k' t] & Ek & Hin). cbn [fst] in Ek. subst k'.
    pose proof (proj1 (Forall_forall _ _) (ro_keys _ _ _ Hr) _ Hin) as Hok. cbn [fst] in Hok.
    unfold key_ok in Hok. to_prop. destruct Hok as [[Hne Hch] _].
    unfold FileNonceStore_Claim. rewrite bool_decide_eq_false_2, Hch by done. cbn [orb].
    by rewrite bool_decide_eq_true_2.
  - intros Hsy. destruct (H2 Hsy) as ([s acks] & Hrun). exists s, acks. split; [done|].
    destruct (H1 _ Hrun) as (rs & Hr & Hs). by eapply nonce_reopen; [|apply Hs].
Qed.

Definition nonce_now : time := time_of_unix 1700000000.
Definition nonce_key (c : string) : string := str_repeat c 64.

Lemma nonce_single_use_witness :
  exists s acks, nonce_run [NClaim None ClaimDurable (nonce_key "a") nonce_now; NRestart;
                            NClaim None (ClaimWriteFails "disk full" 0) (nonce_key "b") nonce_now] = Ok (s, acks) /\
    OpenFileNonceStore "nonces" None (n_file s) = Ok s.
Proof.
  apply (nonce_single_use [NClaim None ClaimDurable (nonce_key "a") nonce_now; NRestart;
    NClaim None (ClaimWriteFails "disk full" 0) (nonce_key "b") nonce_now]); vm_compute; reflexivity.
Defined.

(** a torn write is not remembered as a fault. The next claim of the same
    process is written behind the torn text and acknowledged; after a restart the
    line reads as some other key, and the acknowledged key can be claimed again. *)
Theorem torn_write_forgets_next_claim :
  exists s, nonce_run
    [NClaim None (ClaimWriteFails "disk full" 3) (nonce_key "a") nonce_now;
     NClaim None ClaimDurable (nonce_key "b") nonce_now;
     NRestart;
     NClaim None ClaimDurable (nonce_key "b") nonce_now] = Ok (s, [nonce_key "b"; nonce_key "b"]).
Proof. eexists. vm_compute. reflexivity. Qed.

(** A sync that fails after a complete write is not remembered either: the
    retry of the same claim repeats the line, and the store does not open. *)
Lemma failed_sync_then_retry_bricks_store :
  nonce_run [NClaim None (ClaimSyncFails "io error") (nonce_key "a") nonce_now;
             NClaim None ClaimDurable (nonce_key "a") nonce_now; NRestart] =
  Err "nonce journal line duplicates a prior claim".
Proof. vm_compute. reflexivity. Qed.
