(* ===== verification/SignerVerifier.v ===== *)
(** * The customer-run verifier and its gates ([pkg/referencesigner]:
    [verifier.go], [chain_gate.go], [file_freeze.go])

    The enforcement boundary on the customer's side: an authorization is honoured
    only when it verifies under a trusted key, stays inside the local policy, the
    chain gate sees a healthy quorum, the freeze gate is silent, and its nonce is
    claimed for the first time. Gates are called through interfaces; what they
    answer is part of the environment of a call, and the two gates of the package
    are defined below as one such environment. *)
From stdpp Require Import base gmap strings list fin_maps sorting.
From Stdlib Require Import ZArith Lia Ascii.
From S2P Require Import Prelude GoText GoJSON Crypto Envelope Nonces.

Open Scope Z_scope.

(** ** Observations of the chain ([internal/reconciliation]) *)

Record Observation := mkObservation {
  o_Provider : string;
  o_ChainID : Z;
  o_HeadNumber : Z;
  o_HeadHash : string;
  o_HeadTime : time;
  o_AnchorNumber : Z;
  o_AnchorHash : string;
  o_AnchorTime : time;
  o_ObservedAt : time;
}.

Record SnapshotResult := mkSnapshotResult {
  sn_Observations : list Observation;
  sn_Failures : gmap string string;
}.

(** ** The quorum chain gate *)

Record QuorumChainGate := mkQuorumChainGate {
  g_chainID : Z;
  g_quorum : Z;
  g_maxHeadSkew : Z;
  g_stallThreshold : duration;
  g_maxFutureSkew : duration;
}.

(** [haveSource]: the snapshot source is not nil. *)
Definition NewQuorumChainGate (cfg : QuorumChainGate) (haveSource : bool) : res QuorumChainGate :=
  check (g_chainID cfg =? 8453) || (g_chainID cfg =? 84532)
    else "chain gate supports Base mainnet or Base Sepolia only" ;;
  check haveSource && (2 <=? g_quorum cfg) && (g_quorum cfg <=? 5) && (g_maxHeadSkew cfg <=? 32) &&
        (0 <? g_stallThreshold cfg) && (0 <=? g_maxFutureSkew cfg)
    else "chain gate configuration is invalid" ;;
  Ok cfg.

(** [sort.Slice] by provider. Go leaves the order of equal providers open; a
    list with equal providers is refused in any order. *)
Definition provider_le (x y : Observation) : Prop := String.leb (o_Provider x) (o_Provider y) = true.
#[export] Instance provider_le_dec x y : Decision (provider_le x y).
Proof. unfold provider_le. apply _. Defined.

(** The loop's state: the lowest and highest head and the providers seen. *)
Record head_scan := mkhead_scan { hs_min : Z; hs_max : Z; hs_providers : gset string }.

Definition evaluate_step (g : QuorumChainGate) (now : time) (anchorNumber : Z) (anchorHash : string)
    (st : head_scan) (o : Observation) : res head_scan :=
  check negb (bool_decide (o_Provider o = "")) && (o_ChainID o =? g_chainID g) &&
        (o_AnchorNumber o =? anchorNumber) && bool_decide (o_AnchorHash o = anchorHash) &&
        negb (bool_decide (o_AnchorHash o = ""))
    else "independent Base observers disagree on canonical state" ;;
  check negb (bool_decide (o_Provider o ∈ hs_providers st))
    else "independent Base observer identity is duplicated" ;;
  let minHead := if o_HeadNumber o <? hs_min st then o_HeadNumber o else hs_min st in
  let maxHead := if hs_max st <? o_HeadNumber o then o_HeadNumber o else hs_max st in
  check negb (time_after (o_HeadTime o) (time_add now (g_maxFutureSkew g))) &&
        (time_sub now (o_HeadTime o) <=? g_stallThreshold g)
    else "Base canonical head is stale or future-dated" ;;
  Ok {| hs_min := minHead; hs_max := maxHead; hs_providers := {[o_Provider o]} ∪ hs_providers st |}.

Definition gate_evaluate (g : QuorumChainGate) (now : time) (result : SnapshotResult) : res unit :=
  check g_quorum g <=? Z.of_nat (length (sn_Observations result))
    else "independent Base observer quorum unavailable" ;;
  match merge_sort provider_le (sn_Observations result) with
  | [] => Err "panic: index out of range"
  | first :: rest =>
      try st := fold_res (evaluate_step g now (o_AnchorNumber first) (o_AnchorHash first))
        {| hs_min := o_HeadNumber first; hs_max := o_HeadNumber first; hs_providers := ∅ |} (first :: rest) in
      check uint64 (hs_max st - hs_min st) <=? g_maxHeadSkew g
        else "independent Base observer heads exceed the allowed skew" ;;
      Ok tt
  end.

Definition QuorumChainGate_CheckChain (g : QuorumChainGate) (now : time) (result : SnapshotResult)
    (chainID : Z) : res unit :=
  check chainID =? g_chainID g else "authorization chain does not match the customer chain gate" ;;
  gate_evaluate g now result.

(** ** The freeze file *)

Definition freezeFileVersion : string := "flowops.freeze.v1".

Record freezeState := mkfreezeState {
  fz_Version : string;
  fz_OrganizationFrozen : bool;
  fz_FrozenAgents : list string;
  fz_FrozenTasks : list string;
}.

Definition validateUniqueIdentifiers (kind : string) (values : list string) : res unit :=
  try _ := fold_res (fun (seen : gset string) value =>
      check ValidIdentifier value else (kind +:+ " identifier is invalid") ;;
      check negb (bool_decide (value ∈ seen)) else (kind +:+ " identifier is duplicated") ;;
      Ok ({[value]} ∪ seen)) ∅ values in
  Ok tt.

(** [decoded]: the object in the file, or why it could not be opened, was not
    private, or is not one JSON object with known, distinct fields. *)
Definition freeze_read (decoded : res freezeState) : res freezeState :=
  try state := decoded in
  check bool_decide (fz_Version state = freezeFileVersion)
    else "customer freeze file version is unsupported" ;;
  try _ := validateUniqueIdentifiers "frozen agent" (fz_FrozenAgents state) in
  try _ := validateUniqueIdentifiers "frozen task" (fz_FrozenTasks state) in
  Ok state.

Definition CheckFrozen (ctx : option error) (decoded : res freezeState) (a : Authorization) : res unit :=
  match ctx with
  | Some m => Err m
  | None =>
      try state := freeze_read decoded in
      check negb (fz_OrganizationFrozen state) else "customer organization is frozen" ;;
      check negb (bool_decide (a_AgentID a ∈ fz_FrozenAgents state)) else "customer agent is frozen" ;;
      check negb (bool_decide (a_TaskID a ∈ fz_FrozenTasks state)) else "customer task is frozen" ;;
      Ok tt
  end.

(** ** The verifier *)

(** [type RefusalCode string] *)
Definition RefusalUnknownTrustKey : string := "UNKNOWN_TRUST_KEY".
Definition RefusalBadSignature : string := "BAD_SIGNATURE".
Definition RefusalIdentity : string := "IDENTITY_NOT_ALLOWED".
Definition RefusalNotYetValid : string := "NOT_YET_VALID".
Definition RefusalExpired : string := "EXPIRED".
Definition RefusalTTLTooLong : string := "TTL_TOO_LONG".
Definition RefusalChain : string := "CHAIN_NOT_ALLOWED".
Definition RefusalRail : string := "RAIL_NOT_ALLOWED".
Definition RefusalAsset : string := "ASSET_NOT_ALLOWED".
Definition RefusalRecipient : string := "RECIPIENT_NOT_ALLOWED".
Definition RefusalAmount : string := "AMOUNT_EXCEEDS_LOCAL_CAP".
Definition RefusalChainUnhealthy : string := "CHAIN_UNHEALTHY".
Definition RefusalFrozen : string := "FROZEN".
Definition RefusalReplay : string := "NONCE_ALREADY_CLAIMED".
Definition RefusalNonceStore : string := "NONCE_STORE_FAILURE".

(** [refuse]: a [Refusal] carries its code before the cause. *)
Definition refuse (code err : string) : error := code +:+ ": " +:+ err.

Record VerifierConfig := mkVerifierConfig {
  vc_OrganizationID : string;
  vc_CustomerID : string;
  vc_TrustKeys : gmap string string;
  vc_AllowedChainIDs : list Z;
  vc_AllowedRails : list Rail;
  vc_AllowedAssets : list string;
  vc_AllowedRecipients : list string;
  vc_MaxAmountAtomic : string;
  vc_MaxTTL : duration;
  vc_MaxFutureSkew : duration;
  vc_HaveGates : bool;
}.

Record Verifier := mkVerifier {
  v_organizationID : string;
  v_customerID : string;
  v_trustKeys : gmap string string;
  v_chains : gset Z;
  v_rails : gset Rail;
  v_assets : gset string;
  v_recipients : gset string;
  v_maxAmount : Z;
  v_maxTTL : duration;
  v_maxFutureSkew : duration;
}.

Record Authorized := mkAuthorized {
  az_Authorization : Authorization;
  az_Digest : string;
  az_KeyID : string;
  az_ClaimedAt : Z;
}.

Definition parsePositive (value : string) : res Z :=
  match value with
  | EmptyString => Err "must be a canonical positive integer"
  | String c _ =>
      check negb (code c =? 48) else "must be a canonical positive integer" ;;
      check str_all is_digit value else "must contain decimal digits only" ;;
      match SetString10 value with
      | None => Err "must fit uint256"
      | Some n => check (0 <? n) && fits256 n else "must fit uint256" ;; Ok n
      end
  end.

Section Verifier.
Context `{Unicode} `{Crypto}.

Definition canonicalAddress (value : string) : res string :=
  try normalized := NormalizeAddress value in
  check bool_decide (normalized = value) else "address is not canonical lowercase" ;;
  Ok normalized.

(** [New] *)
Definition NewVerifier (cfg : VerifierConfig) : res Verifier :=
  check ValidIdentifier (vc_OrganizationID cfg) && ValidIdentifier (vc_CustomerID cfg)
    else "local organization and customer identities are required" ;;
  check negb (bool_decide (vc_TrustKeys cfg = ∅)) else "at least one FlowOps trust key is required" ;;
  check vc_HaveGates cfg else "chain gate, freeze gate, and nonce store are required" ;;
  check 0 <? vc_MaxTTL cfg else "max TTL must be positive" ;;
  check 0 <=? vc_MaxFutureSkew cfg else "max future skew cannot be negative" ;;
  try maxAmount := parsePositive (vc_MaxAmountAtomic cfg) in
  check forallb (fun '(keyID, key) => negb (bool_decide (TrimSpace keyID = "")) && (str_len key =? PublicKeySize))
      (map_to_list (vc_TrustKeys cfg))
    else "trust key is invalid" ;;
  check forallb (fun c => negb (c =? 0)) (vc_AllowedChainIDs cfg) else "allowed chain ID cannot be zero" ;;
  try assets := fold_res (fun s x => try y := canonicalAddress x in Ok ({[y]} ∪ s)) ∅ (vc_AllowedAssets cfg) in
  try recipients := fold_res (fun s x => try y := canonicalAddress x in Ok ({[y]} ∪ s)) ∅ (vc_AllowedRecipients cfg) in
  check negb (bool_decide (vc_AllowedChainIDs cfg = [])) && negb (bool_decide (vc_AllowedRails cfg = [])) &&
        negb (bool_decide (assets = ∅)) && negb (bool_decide (recipients = ∅))
    else "signer must allow at least one chain, rail, asset, and recipient" ;;
  Ok {| v_organizationID := vc_OrganizationID cfg; v_customerID := vc_CustomerID cfg;
        v_trustKeys := vc_TrustKeys cfg; v_chains := list_to_set (vc_AllowedChainIDs cfg);
        v_rails := list_to_set (vc_AllowedRails cfg); v_assets := assets; v_recipients := recipients;
        v_maxAmount := maxAmount; v_maxTTL := vc_MaxTTL cfg; v_maxFutureSkew := vc_MaxFutureSkew cfg |}.

(** What one call of the verifier observes: the clock, and what the two gates
    answer for an authorization at that moment. *)
Record gate_env := mkgate_env {
  ge_now : time;
  ge_chain : Authorization -> res unit;
  ge_frozen : Authorization -> res unit;
}.

Definition checkAuthorization (v : Verifier) (env : gate_env) (a : Authorization) : res unit :=
  check bool_decide (a_OrganizationID a = v_organizationID v) && bool_decide (a_CustomerID a = v_customerID v)
    else (refuse RefusalIdentity "authorization is not bound to this customer signer") ;;
  let now := ge_now env in
  let issuedAt := time_of_unix (a_IssuedAt a) in
  let expiresAt := time_of_unix (a_ExpiresAt a) in
  check negb (time_after issuedAt (time_add now (v_maxFutureSkew v)))
    else (refuse RefusalNotYetValid "authorization issued in the future") ;;
  check time_before now expiresAt else (refuse RefusalExpired "authorization window elapsed") ;;
  check time_sub expiresAt issuedAt <=? v_maxTTL v
    else (refuse RefusalTTLTooLong "authorization window exceeds local maximum") ;;
  check bool_decide (a_ChainID a ∈ v_chains v) else (refuse RefusalChain "chain is not locally allowed") ;;
  check bool_decide (a_Rail a ∈ v_rails v) else (refuse RefusalRail "rail is not locally allowed") ;;
  check bool_decide (a_Asset a ∈ v_assets v) else (refuse RefusalAsset "asset is not locally allowed") ;;
  check bool_decide (a_Recipient a ∈ v_recipients v)
    else (refuse RefusalRecipient "recipient is not locally allowed") ;;
  match parsePositive (a_AmountAtomic a) with
  | Err _ => Err (refuse RefusalAmount "amount exceeds local cap")
  | Ok amount =>
      check amount <=? v_maxAmount v else (refuse RefusalAmount "amount exceeds local cap") ;;
      match ge_chain env a with
      | Err m => Err (refuse RefusalChainUnhealthy m)
      | Ok _ =>
          match ge_frozen env a with
          | Err m => Err (refuse RefusalFrozen m)
          | Ok _ => Ok tt
          end
      end
  end.

Definition CheckExecution (v : Verifier) (env : gate_env) (signed : SignedAuthorization) : res unit :=
  match v_trustKeys v !! s_KeyID signed with
  | None => Err (refuse RefusalUnknownTrustKey "authorization key is not trusted")
  | Some publicKey =>
      match Verify signed publicKey with
      | Err m => Err (refuse RefusalBadSignature m)
      | Ok _ => checkAuthorization v env (s_Authorization signed)
      end
  end.

Definition nul : string := String "000"%char "".

Definition claimKey (keyID : string) (a : Authorization) : string :=
  hex_encode (sha256 (keyID +:+ nul +:+ a_OrganizationID a +:+ nul +:+ a_CustomerID a +:+ nul +:+ a_Nonce a)).

(** [claimedAt]: the second reading of the clock; [io]: the answer to the claim. *)
Definition Authorize {N E} `{NonceStore N E} (v : Verifier) (nonces : N) (ctx : option error)
    (env : gate_env) (claimedAt : time) (io : E) (signed : SignedAuthorization) : N * res Authorized :=
  let a := s_Authorization signed in
  match CheckExecution v env signed with
  | Err m => (nonces, Err m)
  | Ok _ =>
  match Authorization_Digest a with
  | Err m => (nonces, Err (refuse RefusalBadSignature m))
  | Ok digest =>
      let '(nonces', claimed) := ns_Claim nonces ctx io (claimKey (s_KeyID signed) a) claimedAt in
      match claimed with
      | Err m =>
          (nonces', Err (if bool_decide (m = ErrNonceAlreadyClaimed) then refuse RefusalReplay m
                         else refuse RefusalNonceStore m))
      | Ok _ =>
          (nonces', Ok {| az_Authorization := a; az_Digest := "0x" +:+ hex_encode digest;
                          az_KeyID := s_KeyID signed; az_ClaimedAt := Unix claimedAt |})
      end
  end end.

(** The environment made of the package's two gates. *)
Definition local_env (g : QuorumChainGate) (ctx : option error) (now : time)
    (snapshot : SnapshotResult) (decoded : res freezeState) : gate_env := {|
  ge_now := now;
  ge_chain := fun a => QuorumChainGate_CheckChain g now snapshot (a_ChainID a);
  ge_frozen := CheckFrozen ctx decoded;
|}.
End Verifier.

(** ** What the quorum gate accepts *)

Section QuorumSpec.
Variables (g : QuorumChainGate) (now : time).

(** An observation that agrees with an anchor and is recent. *)
Definition observed_ok (anchorNumber : Z) (anchorHash : string) (o : Observation) : Prop :=
  o_Provider o <> "" /\ o_ChainID o = g_chainID g /\
  o_AnchorNumber o = anchorNumber /\ o_AnchorHash o = anchorHash /\
  now - g_stallThreshold g <= o_HeadTime o <= time_add now (g_maxFutureSkew g).

(** Enough distinct providers agree on one anchor, with recent heads that are
    close to each other. *)
Record quorum_ok (obs : list Observation) : Prop := {
  qo_count : g_quorum g <= Z.of_nat (length obs);
  qo_distinct : NoDup (map o_Provider obs);
  qo_agree : exists number hash, hash <> "" /\ Forall (observed_ok number hash) obs;
  qo_skew : forall o1 o2, o1 ∈ obs -> o2 ∈ obs -> o_HeadNumber o1 - o_HeadNumber o2 <= g_maxHeadSkew g;
}.

(** Configured the way the constructor demands, with a stall threshold below
    the largest duration, at which [Sub] saturates. *)
Definition gate_wf : Prop :=
  2 <= g_quorum g /\ 0 < g_stallThreshold g < MaxInt64.

Hypothesis Hg : gate_wf.

Lemma stall_iff t : (time_sub now t <=? g_stallThreshold g) = true <-> now - g_stallThreshold g <= t.
Proof. destruct Hg as [_ Hs]. unfold time_sub, MinInt64, MaxInt64 in *. to_prop. lia. Qed.

Lemma evaluate_scan number hash l : hash <> "" -> forall st st',
  fold_res (evaluate_step g now number hash) st l = Ok st' <->
  Forall (observed_ok number hash) l /\ NoDup (map o_Provider l) /\
  (forall o, o ∈ l -> o_Provider o ∉ hs_providers st) /\
  st' = {| hs_min := fold_left Z.min (map o_HeadNumber l) (hs_min st);
           hs_max := fold_left Z.max (map o_HeadNumber l) (hs_max st);
           hs_providers := list_to_set (map o_Provider l) ∪ hs_providers st |}.
Proof.
  intros Hh. induction l as [|o l IH]; intros st st'; cbn [map fold_left list_to_set].
  { unfold fold_res. rewrite Forall_nil, NoDup_nil. destruct st as [a b c]; cbn.
    rewrite (left_id_L ∅ (∪)). split; [intros [= <-]; split_and!; try done; set_solver|]. by intros (_ & _ & _ & ->). }
  rewrite fold_res_cons, try_ok_iff, Forall_cons, NoDup_cons. unfold evaluate_step at 1.
  assert (Hmin : (if o_HeadNumber o <? hs_min st then o_HeadNumber o else hs_min st) = Z.min (hs_min st) (o_HeadNumber o))
    by (destruct (Z.ltb_spec (o_HeadNumber o) (hs_min st)); lia).
  assert (Hmax : (if hs_max st <? o_HeadNumber o then o_HeadNumber o else hs_max st) = Z.max (hs_max st) (o_HeadNumber o))
    by (destruct (Z.ltb_spec (hs_max st) (o_HeadNumber o)); lia).
  rewrite Hmin, Hmax. unfold observed_ok at 1. split.
  - intros (s & Hs & Hl). rewrite !check_ok_iff in Hs. destruct Hs as (Ha & Hd & Ht & [= <-]).
    apply IH in Hl as (HF & HN & Hdis & ->). cbn [hs_min hs_max hs_providers] in *.
    rewrite andb_true_iff, stall_iff in Ht. unfold time_after in Ht. to_prop. destruct Ha as [[[[A1 A2] A3] A4] A5].
    split_and!; try done; try tauto.
    + intros (o' & E & Hin)%list_elem_of_fmap. apply (Hdis o' Hin). rewrite <-E. set_solver.
    + intros o' [->|Hin]%elem_of_cons; [done|]. specialize (Hdis o' Hin). set_solver.
    + f_equal. set_solver.
  - intros (((A1 & A2 & A3 & A4 & T1 & T2) & HF) & (Hni & HN) & Hdis & ->).
    eexists. rewrite !check_ok_iff. split.
    + split; [|split; [|split; [|reflexivity]]].
      * to_prop. repeat split; congruence.
      * apply negb_true_iff, bool_decide_eq_false_2, Hdis. left.
      * rewrite andb_true_iff, stall_iff. unfold time_after. to_prop. done.
    + apply IH. cbn [hs_min hs_max hs_providers]. split_and!; try done.
      * intros o' Hin. rewrite not_elem_of_union, not_elem_of_singleton. split; [|apply Hdis; by right].
        intros E. apply Hni. rewrite <-E. by apply list_elem_of_fmap_2.
      * f_equal. set_solver.
Qed.

Lemma fold_min_spec l : forall m, (forall x, x ∈ m :: l -> fold_left Z.min l m <= x) /\ fold_left Z.min l m ∈ m :: l.
Proof.
  induction l as [|y l IH]; intros m; cbn [fold_left].
  { split; [|left]. intros x Hx. apply list_elem_of_singleton in Hx. lia. }
  destruct (IH (Z.min m y)) as [Hle Hin]. split.
  - intros x Hx. rewrite !elem_of_cons in Hx. destruct Hx as [->|[->|Hx]].
    + specialize (Hle (Z.min m y) ltac:(left)). lia.
    + specialize (Hle (Z.min m y) ltac:(left)). lia.
    + apply Hle. by right.
  - rewrite elem_of_cons in Hin. rewrite !elem_of_cons. destruct Hin as [E|Hin]; [|tauto].
    rewrite E. destruct (Z.min_spec m y) as [[_ ->]|[_ ->]]; tauto.
Qed.

Lemma fold_max_spec l : forall m, (forall x, x ∈ m :: l -> x <= fold_left Z.max l m) /\ fold_left Z.max l m ∈ m :: l.
Proof.
  induction l as [|y l IH]; intros m; cbn [fold_left].
  { split; [|left]. intros x Hx. apply list_elem_of_singleton in Hx. lia. }
  destruct (IH (Z.max m y)) as [Hle Hin]. split.
  - intros x Hx. rewrite !elem_of_cons in Hx. destruct Hx as [->|[->|Hx]].
    + specialize (Hle (Z.max m y) ltac:(left)). lia.
    + specialize (Hle (Z.max m y) ltac:(left)). lia.
    + apply Hle. by right.
  - rewrite elem_of_cons in Hin. rewrite !elem_of_cons. destruct Hin as [E|Hin]; [|tauto].
    rewrite E. destruct (Z.max_spec m y) as [[_ ->]|[_ ->]]; tauto.
Qed.

(** The gap between the extreme heads bounds every gap. *)
Lemma head_gap (l : list Z) x k :
  x ∈ l -> (fold_left Z.max l x - fold_left Z.min l x <= k <-> forall a b, a ∈ l -> b ∈ l -> a - b <= k).
Proof.
  intros Hx. destruct (fold_min_spec l x) as [Hmin Imin], (fold_max_spec l x) as [Hmax Imax]. split.
  - intros Hk a b Ha Hb. specialize (Hmin b ltac:(by right)). specialize (Hmax a ltac:(by right)). lia.
  - intros Hall. rewrite elem_of_cons in Imin, Imax.
    apply Hall; [destruct Imax as [->|]|destruct Imin as [->|]]; done.
Qed.
End QuorumSpec.

Lemma quorum_ok_perm g now l l' : l ≡ₚ l' -> quorum_ok g now l -> quorum_ok g now l'.
Proof.
  intros Hp [Hc Hd (n & h & Hh & Ha) Hs]. split.
  - by rewrite <-Hp.
  - change (map o_Provider l') with (o_Provider <$> l'). rewrite <-Hp. done.
  - exists n, h. by rewrite <-Hp.
  - intros o1 o2. rewrite <-Hp. apply Hs.
Qed.

(** Heads are [uint64], so the difference of the extremes does not wrap. *)
Definition observations_typed (l : list Observation) : Prop :=
  Forall (fun o => is_uint64 (o_HeadNumber o)) l.

Lemma head_gap_uint64 g l first :
  observations_typed l -> first ∈ l ->
  (uint64 (fold_left Z.max (map o_HeadNumber l) (o_HeadNumber first) -
           fold_left Z.min (map o_HeadNumber l) (o_HeadNumber first)) <=? g_maxHeadSkew g) = true <->
  (forall o1 o2, o1 ∈ l -> o2 ∈ l -> o_HeadNumber o1 - o_HeadNumber o2 <= g_maxHeadSkew g).
Proof.
  intros Ht Hin. assert (Hm : o_HeadNumber first ∈ map o_HeadNumber l) by by apply list_elem_of_fmap_2.
  assert (Hr : forall x, x ∈ o_HeadNumber first :: map o_HeadNumber l -> is_uint64 x).
  { intros x [->|(o & -> & Ho)%list_elem_of_fmap]%elem_of_cons;
      apply (proj1 (Forall_forall _ _) Ht); done. }
  destruct (fold_min_spec (map o_HeadNumber l) (o_HeadNumber first)) as [Lmin Imin%Hr].
  destruct (fold_max_spec (map o_HeadNumber l) (o_HeadNumber first)) as [Lmax Imax%Hr].
  rewrite uint64_id, Z.leb_le, head_gap; [|done|].
  - split.
    + intros Ha o1 o2 H1 H2. apply Ha; by apply list_elem_of_fmap_2.
    + intros Ha a b (o1 & -> & H1)%list_elem_of_fmap (o2 & -> & H2)%list_elem_of_fmap. auto.
  - specialize (Lmin _ ltac:(left)). specialize (Lmax _ ltac:(left)). unfold is_uint64 in *. lia.
Qed.

Lemma gate_evaluate_iff g now result :
  gate_wf g -> observations_typed (sn_Observations result) ->
  gate_evaluate g now result = Ok tt <-> quorum_ok g now (sn_Observations result).
Proof.
  intros Hg Ht. unfold gate_evaluate. pose proof (merge_sort_Permutation provider_le (sn_Observations result)) as Hp.
  assert (Hts : observations_typed (merge_sort provider_le (sn_Observations result)))
    by (unfold observations_typed; by rewrite Hp).
  rewrite check_ok_iff, Z.leb_le.
  destruct (merge_sort provider_le (sn_Observations result)) as [|first rest] eqn:Em.
  { apply Permutation_nil_l in Hp. split; [by intros [_ ?]|]. intros [Hc _ _ _]. rewrite <-Hp in Hc.
    destruct Hg. cbn in Hc. lia. }
  rewrite try_ok_iff. split.
  - intros (Hc & st & Hst & Hskew). apply (quorum_ok_perm _ _ _ _ Hp). rewrite check_ok_iff in Hskew.
    assert (o_AnchorHash first <> "") as Hh.
    { intros E. rewrite fold_res_cons, try_ok_iff in Hst. destruct Hst as (? & Hst & _). unfold evaluate_step in Hst.
      rewrite check_ok_iff in Hst. destruct Hst as [Hst _]. to_prop. tauto. }
    apply evaluate_scan in Hst as (HF & HN & _ & ->); [|done..]. cbn [hs_min hs_max] in Hskew.
    split; [by rewrite Hp|done|eauto|]. apply (head_gap_uint64 g _ first); [done|left|apply Hskew].
  - intros Hq. pose proof (qo_count _ _ _ Hq). split; [done|].
    apply (quorum_ok_perm _ _ _ (first :: rest)) in Hq; [|by rewrite Hp].
    destruct Hq as [_ Hd (n & h & Hh & Ha) Hs].
    assert (o_AnchorNumber first = n /\ o_AnchorHash first = h) as [<- <-]
      by (rewrite Forall_cons in Ha; destruct Ha as [(_ & _ & ? & ? & _) _]; done).
    eexists. split; [apply evaluate_scan; [done|done|]; split_and!; [done|done|set_solver|reflexivity]|].
    cbn [hs_min hs_max]. rewrite check_ok_iff. split; [|done].
    apply head_gap_uint64; [done|left|done].
Qed.

(** ** What the verifier accepts *)

Section VerifierSpec.
Context `{Crypto}.

(** The policy of the local configuration, in Unix seconds and amounts. *)
Record locally_allowed (v : Verifier) (env : gate_env) (a : Authorization) : Prop := {
  la_org : a_OrganizationID a = v_organizationID v;
  la_customer : a_CustomerID a = v_customerID v;
  la_issued : a_IssuedAt a <= Unix (time_add (ge_now env) (v_maxFutureSkew v));
  la_expires : Unix (ge_now env) < a_ExpiresAt a /\ unix_ok (a_ExpiresAt a);
  la_ttl : (a_ExpiresAt a - a_IssuedAt a) * Second <= v_maxTTL v;
  la_chain : a_ChainID a ∈ v_chains v;
  la_rail : a_Rail a ∈ v_rails v;
  la_asset : a_Asset a ∈ v_assets v;
  la_recipient : a_Recipient a ∈ v_recipients v;
  la_amount : exists n, SetString10 (a_AmountAtomic a) = Some n /\ n <= v_maxAmount v;
  la_chain_gate : ge_chain env a = Ok tt;
  la_freeze_gate : ge_frozen env a = Ok tt;
}.

Lemma parsePositive_iff value n :
  parsePositive value = Ok n <->
  validateAtomicAmount value = Ok tt /\ SetString10 value = Some n.
Proof.
  unfold parsePositive, validateAtomicAmount. destruct value as [|c r]; [naive_solver|].
  destruct (SetString10 (String c r)) as [m|]; ok_prop; naive_solver.
Qed.

(** Configured within the ranges of a [time.Duration], below saturation. *)
Definition verifier_wf (v : Verifier) : Prop := 0 <= v_maxFutureSkew v /\ v_maxTTL v < MaxInt64.

Lemma checkAuthorization_iff v env a :
  verifier_wf v -> sane_time (ge_now env) -> authorization_typed a -> authorization_ok a ->
  checkAuthorization v env a = Ok tt <-> locally_allowed v env a.
Proof.
  intros [Hsk Httl] Hnow (_ & Hi & Hx & _) Hok.
  destruct (ao_window _ Hok) as [Hi0 Hix]. destruct (ao_amount _ Hok) as (n & En & Hn & Hd & Hz).
  assert (Hp : parsePositive (a_AmountAtomic a) = Ok n).
  { apply parsePositive_iff. split; [|done]. apply validateAtomicAmount_iff. eauto. }
  unfold checkAuthorization. rewrite Hp, !check_ok_iff.
  change (time_after (time_of_unix (a_IssuedAt a)) ?t) with (time_before t (time_of_unix (a_IssuedAt a))).
  assert (Hgates : match ge_chain env a with
      | Ok _ => match ge_frozen env a with Ok _ => Ok tt | Err m => Err (refuse RefusalFrozen m) end
      | Err m => Err (refuse RefusalChainUnhealthy m) end = Ok tt <->
      ge_chain env a = Ok tt /\ ge_frozen env a = Ok tt).
  { destruct (ge_chain env a) as [[]|], (ge_frozen env a) as [[]|]; naive_solver. }
  rewrite Hgates. pose proof (time_add_sane _ _ Hnow Hsk) as Hadd.
  assert (Hwin : unix_ok (a_ExpiresAt a) ->
    time_before (time_add (ge_now env) (v_maxFutureSkew v)) (time_of_unix (a_IssuedAt a)) =
      (Unix (time_add (ge_now env) (v_maxFutureSkew v)) <? a_IssuedAt a) /\
    ((time_sub (time_of_unix (a_ExpiresAt a)) (time_of_unix (a_IssuedAt a)) <=? v_maxTTL v) = true <->
     (a_ExpiresAt a - a_IssuedAt a) * Second <= v_maxTTL v)).
  { intros Hu. assert (Hui : unix_ok (a_IssuedAt a)) by (unfold unix_ok, unixToInternal in *; lia).
    split; [by apply before_unix, unix_ok_sane|].
    rewrite !time_of_unix_sane by by apply unix_ok_sane. unfold time_sub, MinInt64, MaxInt64, Second in *. to_prop. lia. }
  split.
  - intros (Hid & Hiss & Hexp & Ht & Hc & Hr & Ha & Hrc & Hm & Hg1 & Hg2).
    destruct (before_unix_inv _ _ Hnow Hx Hexp) as [Hu Hlt]. destruct (Hwin Hu) as [Ei Et].
    rewrite Ei in Hiss. apply Et in Ht. to_prop. destruct Hid. split; try done. eauto.
  - intros [Ho Hcu Hiss [Hexp Hu] Ht Hc Hr Ha Hrc (m & Em & Hm) Hg1 Hg2].
    destruct (Hwin Hu) as [Ei Et]. rewrite Ei, before_unix by (done || by apply unix_ok_sane).
    rewrite En in Em. injection Em as <-. to_prop. rewrite Et. split_and!; try done; lia.
Qed.

Lemma CheckExecution_iff v env s :
  verifier_wf v -> sane_time (ge_now env) -> authorization_typed (s_Authorization s) ->
  CheckExecution v env s = Ok tt <->
  exists publicKey, v_trustKeys v !! s_KeyID s = Some publicKey /\
    Verify s publicKey = Ok tt /\ locally_allowed v env (s_Authorization s).
Proof.
  intros Hv Hnow Ht. unfold CheckExecution.
  destruct (v_trustKeys v !! s_KeyID s) as [pub|]; [|split; [done|by intros (? & ? & _)]].
  destruct (Verify s pub) as [[]|m] eqn:Ev; [|split; [done|intros (? & [= <-] & Ev' & _); congruence]].
  assert (authorization_ok (s_Authorization s)) as Hok.
  { apply Verify_ok_iff in Ev as (_ & _ & Hval & _). apply Authorization_Validate_iff in Hval; [done|].
    intros t Et. destruct Ht as (_ & _ & _ & Htt). by destruct (Htt t Et) as [[? _] _]. }
  rewrite checkAuthorization_iff by done. split; [eauto|]. by intros (? & _ & _ & ?).
Qed.

Lemma CheckExecution_valid v env s : CheckExecution v env s = Ok tt -> Authorization_Validate (s_Authorization s) = Ok tt.
Proof.
  unfold CheckExecution. destruct (v_trustKeys v !! s_KeyID s) as [pub|]; [|done].
  destruct (Verify s pub) as [[]|m] eqn:Ev; [|done]. intros _. by apply Verify_ok_iff in Ev as (_ & _ & ? & _).
Qed.

(** ** Authorizing through a nonce store *)

Section Authorize.
Context {N E} `{NonceStoreLaws N E}.

Lemma Authorize_ok v nonces ctx env claimedAt io signed nonces' az :
  Authorize v nonces ctx env claimedAt io signed = (nonces', Ok az) ->
  CheckExecution v env signed = Ok tt /\
  az_Authorization az = s_Authorization signed /\ az_KeyID az = s_KeyID signed /\
  az_ClaimedAt az = Unix claimedAt /\
  (exists d, Authorization_Digest (s_Authorization signed) = Ok d /\ az_Digest az = "0x" +:+ hex_encode d) /\
  claimKey (az_KeyID az) (az_Authorization az) ∉ ns_spent nonces /\
  ns_spent nonces' = {[claimKey (az_KeyID az) (az_Authorization az)]} ∪ ns_spent nonces.
Proof.
  unfold Authorize. intros Ha. destruct (CheckExecution v env signed) as [[]|]; [|done].
  destruct (Authorization_Digest (s_Authorization signed)) as [d|]; [|done].
  destruct (ns_Claim nonces ctx io _ claimedAt) as [n' [[]|m]] eqn:Ec; [|done]. simplify_eq. cbn.
  apply claim_ok in Ec as [? ?]. split_and!; try done. eauto.
Qed.

Lemma Authorize_err v nonces ctx env claimedAt io signed nonces' m :
  Authorize v nonces ctx env claimedAt io signed = (nonces', Err m) -> ns_spent nonces' = ns_spent nonces.
Proof.
  unfold Authorize. intros Ha. destruct (CheckExecution v env signed) as [[]|]; [|by simplify_eq].
  destruct (Authorization_Digest (s_Authorization signed)) as [d|]; [|by simplify_eq].
  destruct (ns_Claim nonces ctx io _ claimedAt) as [n' [[]|m']] eqn:Ec; [done|]. simplify_eq.
  by eapply claim_err.
Qed.

(** One call, with what it observed. *)
Record authorize_call := mkauthorize_call {
  ac_ctx : option error;
  ac_env : gate_env;
  ac_claimedAt : time;
  ac_io : E;
  ac_signed : SignedAuthorization;
}.

(** A sequence of calls on one store: the capabilities that were handed out,
    each with the call that obtained it. *)
Fixpoint authorize_all (v : Verifier) (nonces : N) (calls : list authorize_call)
    : N * list (authorize_call * Authorized) :=
  match calls with
  | [] => (nonces, [])
  | c :: calls =>
      let '(nonces', r) := Authorize v nonces (ac_ctx c) (ac_env c) (ac_claimedAt c) (ac_io c) (ac_signed c) in
      let '(final, rest) := authorize_all v nonces' calls in
      (final, match r with Ok az => (c, az) :: rest | Err _ => rest end)
  end.

(** What a nonce is scoped to. *)
Definition nonce_identity (az : Authorized) : string * string * string * string :=
  (az_KeyID az, a_OrganizationID (az_Authorization az), a_CustomerID (az_Authorization az), a_Nonce (az_Authorization az)).

Definition identity_key (i : string * string * string * string) : string :=
  let '(k, o, c, n) := i in hex_encode (sha256 (k +:+ nul +:+ o +:+ nul +:+ c +:+ nul +:+ n)).

Lemma authorize_all_keys v calls : forall nonces final outs,
  authorize_all v nonces calls = (final, outs) ->
  NoDup (map (fun o => identity_key (nonce_identity o.2)) outs) /\
  (forall o, o ∈ outs -> identity_key (nonce_identity o.2) ∉ ns_spent nonces /\
     CheckExecution v (ac_env o.1) (ac_signed o.1) = Ok tt /\
     az_Authorization o.2 = s_Authorization (ac_signed o.1)).
Proof.
  induction calls as [|c calls IH]; intros nonces final outs; cbn [authorize_all].
  { intros [= <- <-]. split; [constructor|]. intros o. by rewrite elem_of_nil. }
  destruct (Authorize v nonces _ _ _ _ _) as [n' r] eqn:Ea.
  destruct (authorize_all v n' calls) as [fin rest] eqn:Er. intros [= <- <-].
  destruct (IH _ _ _ Er) as [Hnd Hall]. destruct r as [az|m].
  - apply Authorize_ok in Ea as (Hc & Haz & _ & _ & _ & Hfresh & Hspent). rewrite Hspent in Hall. split.
    + cbn [map snd]. apply NoDup_cons. split; [|done]. intros (o & Eo & Ho)%list_elem_of_fmap.
      destruct (Hall o Ho) as [Hns _]. rewrite <-Eo in Hns. apply Hns. set_solver.
    + intros o [->|Ho]%elem_of_cons; [done|]. destruct (Hall o Ho) as [Hns ?]. split; [set_solver|done].
  - apply Authorize_err in Ea. rewrite Ea in Hall. done.
Qed.
End Authorize.
End VerifierSpec.

(** ** Properties *)

(** the quorum gate opens for exactly the snapshots in which at least the
    quorum of distinct providers agree on one non-empty anchor of the right chain,
    every head is recent and not from the future, and no two heads are further
    apart than allowed; the order of the observations does not matter. *)
Theorem quorum_gate_exact g now result chainID :
  gate_wf g -> observations_typed (sn_Observations result) ->
  QuorumChainGate_CheckChain g now result chainID = Ok tt <->
  chainID = g_chainID g /\ quorum_ok g now (sn_Observations result).
Proof.
  intros Hg Ht. unfold QuorumChainGate_CheckChain. by rewrite check_ok_iff, gate_evaluate_iff, Z.eqb_eq.
Qed.

Section VerifierTheorems.
Context `{Crypto}.

(** [CheckExecution] accepts exactly the authorizations signed under a
    trusted key that the local policy allows now: this organization and customer,
    inside the validity window and the maximum lifetime, an allowed chain, rail,
    asset and recipient, an amount within the cap, and both gates open. *)
Theorem check_execution_exact v env s :
  verifier_wf v -> sane_time (ge_now env) -> authorization_typed (s_Authorization s) ->
  CheckExecution v env s = Ok tt <->
  exists publicKey, v_trustKeys v !! s_KeyID s = Some publicKey /\
    Verify s publicKey = Ok tt /\ locally_allowed v env (s_Authorization s).
Proof. apply CheckExecution_iff. Qed.

(** over any sequence of calls on one nonce store, every capability handed
    out was for an authorization that passed every check of its own call, and no
    two share the trust key, organization, customer and nonce. *)
Theorem authorize_once_per_nonce {N E} `{NonceStoreLaws N E} v nonces calls final outs :
  authorize_all v nonces calls = (final, outs) ->
  NoDup (map (fun o => nonce_identity o.2) outs) /\
  forall c az, (c, az) ∈ outs ->
    CheckExecution v (ac_env c) (ac_signed c) = Ok tt /\ az_Authorization az = s_Authorization (ac_signed c).
Proof.
  intros Ha. destruct (authorize_all_keys _ _ _ _ _ Ha) as [Hnd Hall]. split.
  - apply (NoDup_fmap_1 identity_key).
    change (identity_key <$> ?l) with (map identity_key l). by rewrite map_map.
  - intros c az Hin. by destruct (Hall _ Hin) as [_ ?].
Qed.
End VerifierTheorems.

(** ** Witnesses *)

Section VerifierWitnesses.
#[local] Existing Instance ToyCrypto.
#[local] Existing Instance ToyCryptoLaws.
#[local] Existing Instance ToyUnicode.

Definition demo_now : time := time_of_unix 1700000010.

Definition demo_gate : QuorumChainGate := {|
  g_chainID := 8453; g_quorum := 2; g_maxHeadSkew := 3;
  g_stallThreshold := 30 * Second; g_maxFutureSkew := 2 * Second |}.

Definition demo_observation (provider : string) (head : Z) : Observation := {|
  o_Provider := provider; o_ChainID := 8453; o_HeadNumber := head; o_HeadHash := demo_hash "7";
  o_HeadTime := demo_now - 5 * Second; o_AnchorNumber := 90; o_AnchorHash := demo_hash "8";
  o_AnchorTime := demo_now - 60 * Second; o_ObservedAt := demo_now |}.

Definition demo_snapshot : SnapshotResult := {|
  sn_Observations := [demo_observation "beta" 101; demo_observation "alpha" 100]; sn_Failures := ∅ |}.

Definition demo_freeze : res freezeState :=
  Ok {| fz_Version := freezeFileVersion; fz_OrganizationFrozen := false;
        fz_FrozenAgents := ["agent_9"]; fz_FrozenTasks := [] |}.

Definition demo_env : gate_env := local_env demo_gate None demo_now demo_snapshot demo_freeze.

Definition demo_config : VerifierConfig := {|
  vc_OrganizationID := "org_1"; vc_CustomerID := "cust_1";
  vc_TrustKeys := {["key_1" := ed25519_public demo_key]};
  vc_AllowedChainIDs := [8453]; vc_AllowedRails := [RailDirect; RailEscrow];
  vc_AllowedAssets := [demo_asset]; vc_AllowedRecipients := [demo_provider];
  vc_MaxAmountAtomic := "5000"; vc_MaxTTL := 600 * Second; vc_MaxFutureSkew := 5 * Second;
  vc_HaveGates := true |}.

Definition demo_verifier : Verifier :=
  match NewVerifier demo_config with
  | Ok v => v
  | Err _ => mkVerifier "" "" ∅ ∅ ∅ ∅ ∅ 0 0 0
  end.

Lemma quorum_gate_exact_witness :
  QuorumChainGate_CheckChain demo_gate demo_now demo_snapshot 8453 = Ok tt /\
  quorum_ok demo_gate demo_now (sn_Observations demo_snapshot).
Proof.
  assert (Hc : QuorumChainGate_CheckChain demo_gate demo_now demo_snapshot 8453 = Ok tt) by (vm_compute; reflexivity).
  split; [exact Hc|].
  apply (quorum_gate_exact demo_gate demo_now demo_snapshot 8453); [| |exact Hc].
  - split; vm_compute; [congruence|]. split; reflexivity.
  - repeat constructor; vm_compute; congruence.
Defined.

Lemma check_execution_exact_witness :
  exists publicKey, v_trustKeys demo_verifier !! s_KeyID demo_signed = Some publicKey /\
    Verify demo_signed publicKey = Ok tt /\ locally_allowed demo_verifier demo_env (s_Authorization demo_signed).
Proof.
  apply (check_execution_exact demo_verifier demo_env demo_signed).
  - split; vm_compute; [congruence|reflexivity].
  - split; vm_compute; congruence.
  - assert (s_Authorization demo_signed = demo_authorization) as -> by (vm_compute; reflexivity).
    exact demo_authorization_typed.
  - vm_compute. reflexivity.
Defined.

Definition demo_call : authorize_call :=
  {| ac_ctx := None; ac_env := demo_env; ac_claimedAt := demo_now; ac_io := ClaimDurable; ac_signed := demo_signed |}.

Definition demo_outs : list (authorize_call * Authorized) :=
  (authorize_all demo_verifier fresh_store [demo_call; demo_call]).2.

Lemma authorize_once_per_nonce_witness :
  length demo_outs = 1%nat /\ NoDup (map (fun o => nonce_identity o.2) demo_outs).
Proof.
  split; [vm_compute; reflexivity|].
  apply (authorize_once_per_nonce demo_verifier fresh_store [demo_call; demo_call]
    (authorize_all demo_verifier fresh_store [demo_call; demo_call]).1).
  unfold demo_outs. by destruct (authorize_all demo_verifier fresh_store [demo_call; demo_call]).
Defined.
End VerifierWitnesses.
