(* ===== verification/AttemptJournal.v ===== *)
(** * The signer's attempt journal ([pkg/referencesigner]: [executor_types.go],
    [attempt_journal.go])

    One attempt per authorization, driven through PREPARED, BROADCASTING,
    SUBMITTED or AMBIGUOUS, and REGISTERED; every transition is a line of a
    hash-chained file that is synced before it takes effect. The escrow terms
    of an authorization are a pointer: structs that hold it compare by address,
    and decoding a line allocates new ones. *)
From stdpp Require Import base gmap strings list fin_maps sorting.
From Stdlib Require Import ZArith Lia Ascii.
From S2P Require Import Prelude GoText GoJSON Crypto Envelope Receipt Nonces SignerVerifier.

Open Scope Z_scope.

(** ** Attempts *)

Definition maxRawTransactionBytes : Z := 256 * 1024.

(** [type AttemptState string] *)
Abbreviation AttemptState := string (only parsing).
Definition AttemptPrepared : AttemptState := "PREPARED".
Definition AttemptBroadcasting : AttemptState := "BROADCASTING".
Definition AttemptSubmitted : AttemptState := "SUBMITTED".
Definition AttemptAmbiguous : AttemptState := "AMBIGUOUS".
Definition AttemptRegistered : AttemptState := "REGISTERED".

Definition ErrAttemptConflict : error := "authorization already names a different signer attempt".
Definition ErrUnsupportedRail : error := "one-way executor supports direct_usdc or escrow funding only".
Definition ErrPreparedTransaction : error := "wallet returned an invalid prepared transaction".
Definition ErrRegistrationPending : error := "broadcast receipt registration is pending".
Definition ErrBroadcastAmbiguous : error := "transaction broadcast outcome is ambiguous".

Record PreparedTransaction := mkPreparedTransaction {
  pt_RawTransaction : string;
  pt_TransactionHash : string;
  pt_Sender : string;
}.

#[export] Instance PreparedTransaction_eq_dec : EqDecision PreparedTransaction.
Proof. solve_decision. Defined.

(** [Receipt] is a pointer that is only ever compared through [*]. *)
Record Attempt := mkAttempt {
  at_Authorization : SignedAuthorization;
  at_Authorized : Authorized;
  at_Prepared : PreparedTransaction;
  at_State : AttemptState;
  at_PreparedAt : Z;
  at_BroadcastAt : Z;
  at_Receipt : option SignedReceipt;
  at_ReceiptPublicKeyB64 : string;
  at_RegisteredAt : Z;
}.

Definition attempt_id (a : Attempt) : string := a_AuthorizationID (az_Authorization (at_Authorized a)).

(** [==] on [Authorized] structs. *)
Definition Authorized_eqb (x y : Authorized) : bool :=
  Authorization_eqb (az_Authorization x) (az_Authorization y) &&
  bool_decide (az_Digest x = az_Digest y) && bool_decide (az_KeyID x = az_KeyID y) &&
  (az_ClaimedAt x =? az_ClaimedAt y).

Section Attempts.
Context `{Unicode} `{Crypto}.

Definition prepared_validate (p : PreparedTransaction) : res unit :=
  check negb (str_len (pt_RawTransaction p) =? 0) && (str_len (pt_RawTransaction p) <=? maxRawTransactionBytes)
    else "raw transaction must contain 1 to 262144 bytes" ;;
  check hash_pattern (pt_TransactionHash p) else "transaction hash must be canonical lowercase hex" ;;
  try _ := canonicalAddress (pt_Sender p) in
  check bool_decide (pt_TransactionHash p = "0x" +:+ hex_encode (keccak256 (pt_RawTransaction p)))
    else "transaction hash does not match the signed transaction bytes" ;;
  Ok tt.

Definition attempt_validateReceipt (a : Attempt) : res unit :=
  match at_Receipt a with
  | None => Err "broadcast receipt is missing"
  | Some receipt =>
      check at_PreparedAt a <=? at_BroadcastAt a else "broadcast receipt is missing" ;;
      match b64_decode (at_ReceiptPublicKeyB64 a) with
      | None => Err "receipt public key is invalid"
      | Some publicKey =>
          check (str_len publicKey =? PublicKeySize) &&
                bool_decide (at_ReceiptPublicKeyB64 a = b64_encode publicKey)
            else "receipt public key is invalid" ;;
          try _ := Receipt_Verify receipt publicKey in
          let r := sr_Receipt receipt in
          let authorization := az_Authorization (at_Authorized a) in
          let wantOutcome :=
            if bool_decide (at_State a = AttemptAmbiguous) ||
               bool_decide (at_State a = AttemptRegistered) && bool_decide (rc_Outcome r = OutcomeAmbiguous)
            then OutcomeAmbiguous else OutcomeSubmitted in
          check bool_decide (rc_Outcome r = wantOutcome) &&
                bool_decide (rc_OrganizationID r = a_OrganizationID authorization) &&
                bool_decide (rc_CustomerID r = a_CustomerID authorization) &&
                bool_decide (rc_AuthorizationID r = a_AuthorizationID authorization) &&
                bool_decide (rc_AuthorizationDigest r = az_Digest (at_Authorized a)) &&
                bool_decide (rc_TransactionHash r = pt_TransactionHash (at_Prepared a)) &&
                bool_decide (rc_Sender r = pt_Sender (at_Prepared a)) &&
                (rc_BroadcastAt r =? at_BroadcastAt a)
            else "receipt does not match the durable signer attempt" ;;
          Ok tt
      end
  end.

(** The later-state evidence is absent. *)
Definition no_receipt (a : Attempt) : bool :=
  bool_decide (at_Receipt a = None) && bool_decide (at_ReceiptPublicKeyB64 a = "") && (at_RegisteredAt a =? 0).

Definition validate_state (a : Attempt) : res unit :=
  if bool_decide (at_State a = AttemptPrepared) then
    check (at_BroadcastAt a =? 0) && no_receipt a else "prepared attempt contains later-state evidence" ;; Ok tt
  else if bool_decide (at_State a = AttemptBroadcasting) then
    check (at_PreparedAt a <=? at_BroadcastAt a) && no_receipt a else "broadcasting attempt fields are invalid" ;; Ok tt
  else if bool_decide (at_State a = AttemptSubmitted) || bool_decide (at_State a = AttemptAmbiguous) ||
          bool_decide (at_State a = AttemptRegistered) then
    try _ := attempt_validateReceipt a in
    if bool_decide (at_State a = AttemptRegistered) then
      check at_BroadcastAt a <=? at_RegisteredAt a else "registration time is invalid" ;; Ok tt
    else
      check at_RegisteredAt a =? 0 else "unregistered attempt has a registration time" ;; Ok tt
  else Err "attempt state is invalid".

Definition attempt_validate (a : Attempt) : res unit :=
  let signed := at_Authorization a in
  let authorized := at_Authorized a in
  try _ := Authorization_Validate (s_Authorization signed) in
  check Authorization_eqb (s_Authorization signed) (az_Authorization authorized) &&
        bool_decide (s_KeyID signed = az_KeyID authorized)
    else "authorized capability does not match signed authorization" ;;
  match Authorization_Digest (s_Authorization signed) with
  | Err _ => Err "authorized digest does not match signed authorization"
  | Ok digest =>
      check bool_decide (az_Digest authorized = "0x" +:+ hex_encode digest)
        else "authorized digest does not match signed authorization" ;;
      check (0 <? az_ClaimedAt authorized) && (0 <? at_PreparedAt a) &&
            (az_ClaimedAt authorized <=? at_PreparedAt a)
        else "authorization claim or preparation time is invalid" ;;
      try _ := prepared_validate (at_Prepared a) in
      validate_state a
  end.

(** ** JSON *)

Definition json_SignedAuthorization (s : SignedAuthorization) : string :=
  json_object [
    ("authorization", Some (json_Authorization (s_Authorization s)));
    ("keyId", Some (json_string (s_KeyID s)));
    ("signature", Some (json_string (s_Signature s)))].

Definition json_Authorized (a : Authorized) : string :=
  json_object [
    ("authorization", Some (json_Authorization (az_Authorization a)));
    ("digest", Some (json_string (az_Digest a)));
    ("keyId", Some (json_string (az_KeyID a)));
    ("claimedAt", Some (json_int (az_ClaimedAt a)))].

Definition json_Prepared (p : PreparedTransaction) : string :=
  json_object [
    ("rawTransaction", Some (json_string (b64_encode (pt_RawTransaction p))));
    ("transactionHash", Some (json_string (pt_TransactionHash p)));
    ("sender", Some (json_string (pt_Sender p)))].

Definition json_SignedReceipt (s : SignedReceipt) : string :=
  json_object [
    ("receipt", Some (json_Receipt (sr_Receipt s)));
    ("keyId", Some (json_string (sr_KeyID s)));
    ("signature", Some (json_string (sr_Signature s)))].


Definition json_Attempt (a : Attempt) : string :=
  json_object [
    ("authorization", Some (json_SignedAuthorization (at_Authorization a)));
    ("authorized", Some (json_Authorized (at_Authorized a)));
    ("prepared", Some (json_Prepared (at_Prepared a)));
    ("state", Some (json_string (at_State a)));
    ("preparedAt", Some (json_int (at_PreparedAt a)));
    ("broadcastAt", omit_zero (at_BroadcastAt a));
    ("receipt", option_map json_SignedReceipt (at_Receipt a));
    ("receiptPublicKeyB64", omit_empty (at_ReceiptPublicKeyB64 a));
    ("registeredAt", omit_zero (at_RegisteredAt a))].

(** [json.Unmarshal]: strings come back as valid UTF-8, and non-nil escrow terms
    at the address [next] the allocator gives them. *)
Definition decode_terms (t : EscrowTerms) : EscrowTerms :=
  {| t_Contract := utf8_coerce (t_Contract t); t_Buyer := utf8_coerce (t_Buyer t);
     t_Provider := utf8_coerce (t_Provider t); t_CallID := utf8_coerce (t_CallID t);
     t_TaskDigest := utf8_coerce (t_TaskDigest t); t_RequestDigest := utf8_coerce (t_RequestDigest t);
     t_AcknowledgeBy := t_AcknowledgeBy t; t_DeliverBy := t_DeliverBy t; t_ReleaseWindow := t_ReleaseWindow t |}.

Definition decode_Authorization (next : N) (a : Authorization) : Authorization :=
  {| a_Version := utf8_coerce (a_Version a); a_AuthorizationID := utf8_coerce (a_AuthorizationID a);
     a_OrganizationID := utf8_coerce (a_OrganizationID a); a_CustomerID := utf8_coerce (a_CustomerID a);
     a_AgentID := utf8_coerce (a_AgentID a); a_TaskID := utf8_coerce (a_TaskID a);
     a_ActionID := utf8_coerce (a_ActionID a); a_Rail := utf8_coerce (a_Rail a); a_ChainID := a_ChainID a;
     a_Recipient := utf8_coerce (a_Recipient a); a_Asset := utf8_coerce (a_Asset a);
     a_AmountAtomic := utf8_coerce (a_AmountAtomic a); a_Resource := utf8_coerce (a_Resource a);
     a_PolicyVersion := utf8_coerce (a_PolicyVersion a); a_Nonce := utf8_coerce (a_Nonce a);
     a_IssuedAt := a_IssuedAt a; a_ExpiresAt := a_ExpiresAt a;
     a_Escrow := option_map (fun p => mkptr next (decode_terms (deref p))) (a_Escrow a) |}.

Definition decode_Receipt (s : SignedReceipt) : SignedReceipt :=
  let r := sr_Receipt s in
  {| sr_Receipt := {|
       rc_Version := utf8_coerce (rc_Version r); rc_OrganizationID := utf8_coerce (rc_OrganizationID r);
       rc_CustomerID := utf8_coerce (rc_CustomerID r); rc_AuthorizationID := utf8_coerce (rc_AuthorizationID r);
       rc_AuthorizationDigest := utf8_coerce (rc_AuthorizationDigest r);
       rc_TransactionHash := utf8_coerce (rc_TransactionHash r); rc_Sender := utf8_coerce (rc_Sender r);
       rc_Outcome := utf8_coerce (rc_Outcome r); rc_BroadcastAt := rc_BroadcastAt r |};
     sr_KeyID := utf8_coerce (sr_KeyID s); sr_Signature := utf8_coerce (sr_Signature s) |}.

(** The two authorizations of an attempt are decoded one after the other. *)
Definition decode_attempt (next : N) (a : Attempt) : Attempt :=
  {| at_Authorization := {|
       s_Authorization := decode_Authorization next (s_Authorization (at_Authorization a));
       s_KeyID := utf8_coerce (s_KeyID (at_Authorization a));
       s_Signature := utf8_coerce (s_Signature (at_Authorization a)) |};
     at_Authorized := {|
       az_Authorization := decode_Authorization (next + 1) (az_Authorization (at_Authorized a));
       az_Digest := utf8_coerce (az_Digest (at_Authorized a)); az_KeyID := utf8_coerce (az_KeyID (at_Authorized a));
       az_ClaimedAt := az_ClaimedAt (at_Authorized a) |};
     at_Prepared := {|
       pt_RawTransaction := pt_RawTransaction (at_Prepared a);
       pt_TransactionHash := utf8_coerce (pt_TransactionHash (at_Prepared a));
       pt_Sender := utf8_coerce (pt_Sender (at_Prepared a)) |};
     at_State := utf8_coerce (at_State a);
     at_PreparedAt := at_PreparedAt a; at_BroadcastAt := at_BroadcastAt a;
     at_Receipt := option_map decode_Receipt (at_Receipt a);
     at_ReceiptPublicKeyB64 := utf8_coerce (at_ReceiptPublicKeyB64 a);
     at_RegisteredAt := at_RegisteredAt a |}.
End Attempts.

(** ** The journal *)

Definition attemptJournalVersion : Z := 1.

Record attemptEvent := mkattemptEvent {
  ae_Version : Z;
  ae_Sequence : Z;
  ae_At : time;
  ae_AuthorizationID : string;
  ae_PreviousHash : string;
  ae_Payload : Attempt;
  ae_Hash : string;
}.

(** A line of the file: an event with its newline, an event without (only ever
    last), or a fragment that is no JSON event. *)
Inductive attempt_line :=
| ALine (e : attemptEvent)
| AUnterminated (e : attemptEvent)
| AFragment.

(** What is found in the file of a line whose write or sync did not succeed. *)
Inductive attempt_residue := ANothing | APart | AWholeLine | AWholeUnterminated.

Inductive attempt_io :=
| AWriteFails (m : error) (remains : attempt_residue)
| AShortWrite (remains : attempt_residue)
| ASyncFails (m : error) (remains : attempt_residue)
| AWritten.

Record AttemptJournal := mkAttemptJournal {
  aj_open : bool;
  aj_file : list attempt_line;
  aj_sequence : Z;
  aj_attempts : gmap string Attempt;
  aj_lastHash : string;
  aj_fault : option error;
}.

Definition residue_lines (e : attemptEvent) (remains : attempt_residue) : list attempt_line :=
  match remains with
  | ANothing => []
  | APart => [AFragment]
  | AWholeLine => [ALine e]
  | AWholeUnterminated => [AUnterminated e]
  end.

(** A write continues the last line unless that line was terminated. *)
Definition append_line (file : list attempt_line) (l : list attempt_line) : list attempt_line :=
  match last file, l with
  | Some (AUnterminated _), _ :: _ | Some AFragment, _ :: _ => removelast file ++ [AFragment]
  | _, _ => file ++ l
  end.

Section AttemptJournal.
Context `{Unicode} `{Crypto}.

Definition attempt_hash_members (e : attemptEvent) (at_json : string) : list (string * option string) :=
  [("version", Some (json_int (ae_Version e)));
   ("sequence", Some (json_int (ae_Sequence e)));
   ("at", Some at_json);
   ("authorizationId", Some (json_string (ae_AuthorizationID e)));
   ("previousHash", Some (json_string (ae_PreviousHash e)));
   ("payload", Some (json_Attempt (ae_Payload e)))].

(** [json.Marshal] refuses a time outside the years 0 to 9999. *)
Definition attemptEventHash (e : attemptEvent) : res string :=
  match json_time (ae_At e) with
  | None => Err "Time.MarshalJSON: year outside of range [0,9999]"
  | Some t => Ok (hex_encode (sha256 (json_object (attempt_hash_members e t))))
  end.

Definition json_attemptEvent (e : attemptEvent) : res string :=
  match json_time (ae_At e) with
  | None => Err "Time.MarshalJSON: year outside of range [0,9999]"
  | Some t => Ok (json_object (attempt_hash_members e t ++ [("hash", Some (json_string (ae_Hash e)))]))
  end.

Definition validateAttemptEvent (e : attemptEvent) (sequence : Z) (previousHash : string) : res unit :=
  check (ae_Version e =? attemptJournalVersion) && (ae_Sequence e =? sequence) && negb (time_IsZero (ae_At e)) &&
        ValidIdentifier (ae_AuthorizationID e) && negb (bool_decide (json_Attempt (ae_Payload e) = ""))
    else "attempt journal event fields are invalid" ;;
  check bool_decide (ae_PreviousHash e = previousHash) else "attempt journal hash chain is broken" ;;
  try want := attemptEventHash e in
  check bool_decide (ae_Hash e = want) else "attempt journal event hash does not match content" ;;
  Ok tt.

Definition sameAttemptIdentity (current next : Attempt) : bool :=
  SignedAuthorization_eqb (at_Authorization current) (at_Authorization next) &&
  Authorized_eqb (at_Authorized current) (at_Authorized next) &&
  (at_PreparedAt current =? at_PreparedAt next) &&
  bool_decide (pt_TransactionHash (at_Prepared current) = pt_TransactionHash (at_Prepared next)) &&
  bool_decide (pt_Sender (at_Prepared current) = pt_Sender (at_Prepared next)) &&
  bool_decide (pt_RawTransaction (at_Prepared current) = pt_RawTransaction (at_Prepared next)) &&
  ((at_BroadcastAt current =? 0) || (at_BroadcastAt current =? at_BroadcastAt next)) &&
  match at_Receipt current with
  | None => true
  | Some _ =>
      bool_decide (at_Receipt next = at_Receipt current) &&
      bool_decide (at_ReceiptPublicKeyB64 current = at_ReceiptPublicKeyB64 next)
  end.

Definition valid_transition (current next : AttemptState) : bool :=
  bool_decide (current = AttemptPrepared) && bool_decide (next = AttemptBroadcasting) ||
  bool_decide (current = AttemptBroadcasting) &&
    (bool_decide (next = AttemptSubmitted) || bool_decide (next = AttemptAmbiguous)) ||
  (bool_decide (current = AttemptSubmitted) || bool_decide (current = AttemptAmbiguous)) &&
    bool_decide (next = AttemptRegistered).

Definition validateTransition (attempts : gmap string Attempt) (authorizationID : string) (next : Attempt) : res unit :=
  match attempts !! authorizationID with
  | None =>
      check bool_decide (at_State next = AttemptPrepared) else "first signer attempt state must be PREPARED" ;; Ok tt
  | Some current =>
      check sameAttemptIdentity current next else ErrAttemptConflict ;;
      check valid_transition (at_State current) (at_State next) else "invalid signer attempt transition" ;;
      Ok tt
  end.

(** [apply] *)
Definition attempt_apply (attempts : gmap string Attempt) (authorizationID : string) (a : Attempt)
    : res (gmap string Attempt) :=
  try _ := attempt_validate a in
  check bool_decide (attempt_id a = authorizationID) else "attempt authorization ID does not match journal key" ;;
  try _ := validateTransition attempts authorizationID a in
  Ok (<[authorizationID := a]> attempts).

(** [scanner.Buffer(..., 2<<20)] *)
Definition attemptMaxToken : Z := 2 * 2 ^ 20.

Record replay_state := mkreplay_state {
  rp_sequence : Z;
  rp_lastHash : string;
  rp_attempts : gmap string Attempt;
}.

Definition unmarshal_attempt_event (e : attemptEvent) : attemptEvent :=
  {| ae_Version := ae_Version e; ae_Sequence := ae_Sequence e; ae_At := ae_At e;
     ae_AuthorizationID := utf8_coerce (ae_AuthorizationID e);
     ae_PreviousHash := utf8_coerce (ae_PreviousHash e); ae_Payload := ae_Payload e;
     ae_Hash := utf8_coerce (ae_Hash e) |}.

(** One line of [replay]. The payload stays raw in the event; decoding it
    allocates at [next], which depends on the line. *)
Definition replay_attempt (base : N) (st : replay_state) (l : attempt_line) : res replay_state :=
  match l with
  | AFragment => Err "signer attempt journal line is invalid JSON"
  | ALine e | AUnterminated e =>
      try text := json_attemptEvent e in
      check str_len text + 1 <=? attemptMaxToken else "read signer attempt journal: token too long" ;;
      check negb (rp_sequence st =? MaxUint64) else "signer attempt journal sequence exhausted" ;;
      let event := unmarshal_attempt_event e in
      try _ := validateAttemptEvent event (rp_sequence st + 1) (rp_lastHash st) in
      let attempt := decode_attempt (base + 2 * Z.to_N (rp_sequence st)) (ae_Payload event) in
      try attempts := attempt_apply (rp_attempts st) (ae_AuthorizationID event) attempt in
      Ok {| rp_sequence := ae_Sequence event; rp_lastHash := ae_Hash event; rp_attempts := attempts |}
  end.

Definition empty_replay : replay_state := {| rp_sequence := 0; rp_lastHash := ""; rp_attempts := ∅ |}.

(** [io]: the failure of opening, syncing the directory, locking or seeking;
    [base]: where the new process allocates. *)
Definition OpenAttemptJournal (path : string) (io : option error) (base : N) (file : list attempt_line)
    : res AttemptJournal :=
  check negb (bool_decide (TrimSpace path = "")) else "signer attempt journal path is required" ;;
  match io with
  | Some m => Err m
  | None =>
      try st := fold_res (replay_attempt base) empty_replay file in
      Ok {| aj_open := true; aj_file := file; aj_sequence := rp_sequence st;
            aj_attempts := rp_attempts st; aj_lastHash := rp_lastHash st; aj_fault := None |}
  end.

Definition attempt_fault (j : AttemptJournal) (file : list attempt_line) (m : error) : AttemptJournal :=
  {| aj_open := aj_open j; aj_file := file; aj_sequence := aj_sequence j;
     aj_attempts := aj_attempts j; aj_lastHash := aj_lastHash j; aj_fault := Some m |}.

(** The event [Append] writes after the head of the journal. *)
Definition new_attempt_event (j : AttemptJournal) (at_ : time) (a : Attempt) (hash : string) : attemptEvent :=
  {| ae_Version := attemptJournalVersion; ae_Sequence := aj_sequence j + 1; ae_At := at_;
     ae_AuthorizationID := attempt_id a; ae_PreviousHash := aj_lastHash j; ae_Payload := a; ae_Hash := hash |}.

Definition Attempt_Append (j : AttemptJournal) (ctx : option error) (io : attempt_io) (at_ : time) (a : Attempt)
    : AttemptJournal * res Attempt :=
  match ctx with
  | Some m => (j, Err m)
  | None =>
  match attempt_validate a with
  | Err m => (j, Err m)
  | Ok _ =>
  if negb (str_len (json_Attempt a) <=? 2 ^ 20) then (j, Err "signer attempt event exceeds 1 MiB") else
  if negb (aj_open j) then (j, Err "signer attempt journal is closed") else
  match aj_fault j with
  | Some m => (j, Err m)
  | None =>
  if aj_sequence j =? MaxUint64 then (j, Err "signer attempt journal sequence exhausted") else
  match validateTransition (aj_attempts j) (attempt_id a) a with
  | Err m => (j, Err m)
  | Ok _ =>
  match attemptEventHash (new_attempt_event j at_ a "") with
  | Err m => (j, Err m)
  | Ok hash =>
  let event := new_attempt_event j at_ a hash in
  match validateAttemptEvent event (ae_Sequence event) (aj_lastHash j) with
  | Err m => (j, Err m)
  | Ok _ =>
  match json_attemptEvent event with
  | Err m => (j, Err m)
  | Ok _ =>
  match io with
  | AWriteFails m remains => (attempt_fault j (append_line (aj_file j) (residue_lines event remains)) m, Err m)
  | AShortWrite remains =>
      (attempt_fault j (append_line (aj_file j) (residue_lines event remains)) "short write", Err "short write")
  | ASyncFails m remains => (attempt_fault j (append_line (aj_file j) (residue_lines event remains)) m, Err m)
  | AWritten =>
      let file := append_line (aj_file j) [ALine event] in
      match attempt_apply (aj_attempts j) (attempt_id a) a with
      | Err m => (attempt_fault j file m, Err m)
      | Ok attempts =>
          ({| aj_open := true; aj_file := file; aj_sequence := ae_Sequence event; aj_attempts := attempts;
              aj_lastHash := ae_Hash event; aj_fault := None |}, Ok a)
      end
  end end end end end end end end.

(** [Get] *)
Definition Attempt_Get (j : AttemptJournal) (authorizationID : string) : option Attempt :=
  aj_attempts j !! authorizationID.

(** [Attempts]: sorted by authorization ID. *)
Definition attempt_le (x y : Attempt) : Prop := String.leb (attempt_id x) (attempt_id y) = true.
#[export] Instance attempt_le_dec x y : Decision (attempt_le x y).
Proof. unfold attempt_le. apply _. Defined.

Definition Attempts (j : AttemptJournal) : list Attempt :=
  merge_sort attempt_le (map snd (map_to_list (aj_attempts j))).

Definition Attempt_Close (j : AttemptJournal) : AttemptJournal :=
  {| aj_open := false; aj_file := aj_file j; aj_sequence := aj_sequence j; aj_attempts := aj_attempts j;
     aj_lastHash := aj_lastHash j; aj_fault := aj_fault j |}.
End AttemptJournal.

(** ** Appending *)

Section AppendFacts.
Context `{Unicode} `{Crypto}.

Lemma attempt_apply_ok attempts id a attempts' :
  attempt_apply attempts id a = Ok attempts' <->
  attempt_validate a = Ok tt /\ attempt_id a = id /\ validateTransition attempts id a = Ok tt /\
  attempts' = <[id := a]> attempts.
Proof.
  unfold attempt_apply. rewrite try_unit_iff, check_ok_iff, try_unit_iff, bool_decide_eq_true.
  split; [intros (? & ? & ? & [= <-])|intros (? & ? & ? & ->)]; done.
Qed.

(** What a journal has to satisfy for [a] to be written. *)
Definition appendable (j : AttemptJournal) (at_ : time) (a : Attempt) (e : attemptEvent) : Prop :=
  attempt_validate a = Ok tt /\ str_len (json_Attempt a) <= 2 ^ 20 /\ aj_open j = true /\ aj_fault j = None /\
  aj_sequence j <> MaxUint64 /\ validateTransition (aj_attempts j) (attempt_id a) a = Ok tt /\
  (exists hash, e = new_attempt_event j at_ a hash) /\
  validateAttemptEvent e (aj_sequence j + 1) (aj_lastHash j) = Ok tt.

Definition appended (j : AttemptJournal) (a : Attempt) (e : attemptEvent) : AttemptJournal :=
  {| aj_open := true; aj_file := append_line (aj_file j) [ALine e]; aj_sequence := aj_sequence j + 1;
     aj_attempts := <[attempt_id a := a]> (aj_attempts j); aj_lastHash := ae_Hash e; aj_fault := None |}.

Definition io_remains (io : attempt_io) : option attempt_residue :=
  match io with
  | AWriteFails _ remains | AShortWrite remains | ASyncFails _ remains => Some remains
  | AWritten => None
  end.

(** The three ways an append can end: refused without a trace, written and
    taking effect, or failed in the file system and refusing all that follows. *)
Lemma Attempt_Append_cases j ctx io at_ a j' r :
  Attempt_Append j ctx io at_ a = (j', r) ->
  (j' = j /\ is_ok r = false) \/
  (exists e, appendable j at_ a e /\ r = Ok a /\ j' = appended j a e) \/
  (exists e m remains, io_remains io = Some remains /\ appendable j at_ a e /\ is_ok r = false /\
     j' = attempt_fault j (append_line (aj_file j) (residue_lines e remains)) m).
Proof.
  unfold Attempt_Append. intros Ha.
  destruct ctx; [simplify_eq; by left|].
  destruct (attempt_validate a) as [[]|] eqn:Ev; [|simplify_eq; by left].
  destruct (str_len (json_Attempt a) <=? 2 ^ 20) eqn:El; [cbn [negb] in Ha|cbn [negb] in Ha; simplify_eq; by left].
  destruct (aj_open j) eqn:Eo; [cbn [negb] in Ha|cbn [negb] in Ha; simplify_eq; by left].
  destruct (aj_fault j) eqn:Ef; [simplify_eq; by left|].
  destruct (Z.eqb_spec (aj_sequence j) MaxUint64) as [|Es]; [simplify_eq; by left|].
  destruct (validateTransition (aj_attempts j) (attempt_id a) a) as [[]|] eqn:Et; [|simplify_eq; by left].
  destruct (attemptEventHash _) as [hash|] eqn:Eh; [|simplify_eq; by left].
  set (e := new_attempt_event j at_ a hash) in *.
  destruct (validateAttemptEvent e _ _) as [[]|] eqn:Ee; [|simplify_eq; by left].
  destruct (json_attemptEvent e) as [text|] eqn:Ej; [|simplify_eq; by left].
  apply Z.leb_le in El.
  assert (Hap : appendable j at_ a e) by (split_and!; try done; by exists hash).
  assert (attempt_apply (aj_attempts j) (attempt_id a) a = Ok (<[attempt_id a := a]> (aj_attempts j))) as Eap
    by by apply attempt_apply_ok.
  rewrite Eap in Ha. cbn [negb] in Ha.
  destruct io as [m remains|remains|m remains|]; injection Ha as <- <-; right;
    [right; exists e, m, remains|right; exists e, "short write", remains|right; exists e, m, remains|left; exists e]; done.
Qed.

Lemma Attempt_Append_ok j ctx io at_ a j' b :
  Attempt_Append j ctx io at_ a = (j', Ok b) -> exists e, appendable j at_ a e /\ b = a /\ j' = appended j a e.
Proof.
  intros [[_ Hr]|[(e & Hap & [= ->] & ->)|(e & m & remains & _ & _ & Hr & _)]]%Attempt_Append_cases; try done. eauto.
Qed.

Lemma Attempt_Append_err j ctx io at_ a j' m :
  Attempt_Append j ctx io at_ a = (j', Err m) -> aj_attempts j' = aj_attempts j.
Proof.
  intros [[-> _]|[(e & _ & Hr & _)|(e & m' & remains & _ & _ & _ & ->)]]%Attempt_Append_cases; done.
Qed.

(** ** The states a file records *)

Definition line_event (l : attempt_line) : option attemptEvent :=
  match l with ALine e | AUnterminated e => Some e | AFragment => None end.

(** The state of the last line about [id], as a later process reads it. *)
Fixpoint file_state (rev_file : list attempt_line) (id : string) : option AttemptState :=
  match rev_file with
  | [] => None
  | l :: rest =>
      match line_event l with
      | Some e =>
          if bool_decide (utf8_coerce (ae_AuthorizationID e) = id)
          then Some (utf8_coerce (at_State (ae_Payload e))) else file_state rest id
      | None => file_state rest id
      end
  end.

Definition unreadable (file : list attempt_line) : Prop := AFragment ∈ file.

Lemma replay_attempt_ok base st l st' :
  replay_attempt base st l = Ok st' ->
  exists e, line_event l = Some e /\ rp_sequence st' = rp_sequence st + 1 /\
    attempt_apply (rp_attempts st) (utf8_coerce (ae_AuthorizationID e))
      (decode_attempt (base + 2 * Z.to_N (rp_sequence st)) (ae_Payload e)) = Ok (rp_attempts st').
Proof.
  unfold replay_attempt. destruct l as [e|e|]; [| |done]; intros Hr;
    (exists e; split; [done|]; rewrite try_ok_iff in Hr; destruct Hr as (text & _ & Hr);
     rewrite !check_ok_iff, try_unit_iff, try_ok_iff in Hr; destruct Hr as (_ & _ & Hv & atts & Ha & [= <-]);
     cbn [rp_attempts rp_sequence]; split; [|done]; unfold validateAttemptEvent in Hv;
     rewrite check_ok_iff in Hv; destruct Hv as [Hv _]; to_prop; tauto).
Qed.

(** Reading a file back gives every authorization the state of its last line. *)
Lemma replay_states base file : forall st,
  fold_res (replay_attempt base) empty_replay file = Ok st ->
  ~ unreadable file /\ forall id, option_map at_State (rp_attempts st !! id) = file_state (rev file) id.
Proof.
  induction file as [|l file IH] using rev_ind; intros st.
  { intros [= <-]. split; [apply not_elem_of_nil|]. intros id. cbn. by rewrite lookup_empty. }
  rewrite fold_res_snoc, try_ok_iff. intros (st1 & H1 & (e & El & _ & Ha)%replay_attempt_ok).
  destruct (IH _ H1) as [Hu Hs]. split.
  - unfold unreadable. rewrite elem_of_app, list_elem_of_singleton. intros [?|<-]; [done|]. by cbn in El.
  - intros id. rewrite rev_app_distr. cbn [rev app file_state]. rewrite El.
    apply attempt_apply_ok in Ha as (_ & _ & _ & ->).
    destruct (bool_decide_reflect (utf8_coerce (ae_AuthorizationID e) = id)) as [<-|Hne].
    + by rewrite lookup_insert_eq.
    + rewrite lookup_insert_ne by done. apply Hs.
Qed.

Lemma append_line_unreadable file l : unreadable file -> unreadable (append_line file l).
Proof.
  unfold unreadable, append_line. intros Hu.
  destruct (last file) as [[e|e|]|]; [set_solver| | |set_solver]; destruct l; set_solver.
Qed.

(** A write either follows the lines there are or spoils the file. *)
Lemma append_line_cases file l :
  append_line file l = file ++ l \/ unreadable (append_line file l).
Proof.
  unfold unreadable, append_line. destruct (last file) as [[e|e|]|]; [by left| | |by left]; destruct l; try (by left);
    right; set_solver.
Qed.

(** Everything before the written text is still there. *)
Lemma append_line_keeps file l e : ALine e ∈ file -> ALine e ∈ append_line file l.
Proof.
  intros Hin. assert (Hk : forall x, last file = Some x -> x <> ALine e -> ALine e ∈ removelast file).
  { intros x Hl Hx. destruct (last_Some file x) as [[f ->] _]; [done|].
    rewrite removelast_last. rewrite elem_of_app, list_elem_of_singleton in Hin. naive_solver. }
  unfold append_line. destruct (last file) as [[e'|e'|]|] eqn:El; [set_solver| | |set_solver]; destruct l;
    rewrite ?elem_of_app; left; try done; by eapply Hk.
Qed.

Lemma identifier_coerce id : ValidIdentifier id = true -> utf8_coerce id = id.
Proof. intros Hid. apply utf8_coerce_valid, identifier_utf8, Hid. Qed.

(** A validated attempt is in one of the five states. *)
Lemma validate_state_known a :
  attempt_validate a = Ok tt ->
  at_State a ∈ [AttemptPrepared; AttemptBroadcasting; AttemptSubmitted; AttemptAmbiguous; AttemptRegistered].
Proof.
  unfold attempt_validate. rewrite try_unit_iff, check_ok_iff. intros (_ & _ & Hv).
  destruct (Authorization_Digest _); [|done]. rewrite !check_ok_iff, try_unit_iff in Hv.
  destruct Hv as (_ & _ & _ & Hv). unfold validate_state in Hv. rewrite !elem_of_cons.
  repeat match type of Hv with
  | (if ?b then _ else _) = _ => destruct b eqn:?
  end; to_prop; try done; tauto.
Qed.

Lemma state_coerce a : attempt_validate a = Ok tt -> utf8_coerce (at_State a) = at_State a.
Proof.
  intros Hv%validate_state_known. apply utf8_coerce_valid. rewrite !elem_of_cons in Hv.
  repeat destruct Hv as [->|Hv]; try done. by apply elem_of_nil in Hv.
Qed.

Lemma appendable_event j at_ a e :
  appendable j at_ a e ->
  utf8_coerce (ae_AuthorizationID e) = attempt_id a /\ utf8_coerce (at_State (ae_Payload e)) = at_State a /\
  ae_Payload e = a.
Proof.
  intros (Hv & _ & _ & _ & _ & _ & (hash & ->) & He). cbn [new_attempt_event ae_AuthorizationID ae_Payload] in *.
  split; [|split; [by apply state_coerce|done]]. apply identifier_coerce.
  unfold validateAttemptEvent in He. rewrite check_ok_iff in He. destruct He as [He _]. to_prop.
  cbn in He. tauto.
Qed.
End AppendFacts.

(** ** Escrow attempts do not survive decoding *)

Section EscrowFacts.
Context `{Unicode} `{Crypto}.

Lemma validate_escrow a :
  attempt_validate a = Ok tt -> a_Rail (s_Authorization (at_Authorization a)) = RailEscrow ->
  is_Some (a_Escrow (s_Authorization (at_Authorization a))) /\ is_Some (a_Escrow (az_Authorization (at_Authorized a))).
Proof.
  unfold attempt_validate. rewrite try_unit_iff, check_ok_iff. intros (Hv & Heq & _) Hr.
  assert (Hs : is_Some (a_Escrow (s_Authorization (at_Authorization a)))).
  { unfold Authorization_Validate in Hv. rewrite !check_ok_iff, try_unit_iff in Hv.
    destruct Hv as (_ & _ & _ & He & _). rewrite bool_decide_eq_true_2 in He by done.
    unfold escrow_of in He. by destruct (a_Escrow _). }
  split; [done|]. apply andb_true_iff in Heq as [Heq _]. unfold Authorization_eqb in Heq.
  apply andb_true_iff in Heq as [_ Hp]. destruct Hs as [p Hp']. rewrite Hp' in Hp. by destruct (a_Escrow (az_Authorization _)).
Qed.

Lemma decoded_escrow_rejected next a :
  is_Some (a_Escrow (s_Authorization (at_Authorization a))) ->
  is_Some (a_Escrow (az_Authorization (at_Authorized a))) ->
  is_ok (attempt_validate (decode_attempt next a)) = false.
Proof.
  intros [p Hp] [q Hq]. unfold attempt_validate. destruct (Authorization_Validate _) as [[]|]; [|done].
  assert (Authorization_eqb (s_Authorization (at_Authorization (decode_attempt next a)))
            (az_Authorization (at_Authorized (decode_attempt next a))) = false) as Heq; [|by rewrite Heq].
  unfold Authorization_eqb. apply andb_false_iff. right.
  cbn [decode_attempt at_Authorization at_Authorized s_Authorization az_Authorization decode_Authorization a_Escrow].
  rewrite Hp, Hq. cbn. apply N.eqb_neq. lia.
Qed.

Lemma replay_escrow_rejected base e :
  is_Some (a_Escrow (s_Authorization (at_Authorization (ae_Payload e)))) ->
  is_Some (a_Escrow (az_Authorization (at_Authorized (ae_Payload e)))) ->
  forall st, is_ok (replay_attempt base st (ALine e)) = false.
Proof.
  intros H1 H2 st. destruct (replay_attempt base st (ALine e)) as [st'|] eqn:Er; [|done].
  apply replay_attempt_ok in Er as (e' & [= <-] & _ & (Hv & _)%attempt_apply_ok).
  pose proof (decoded_escrow_rejected (base + 2 * Z.to_N (rp_sequence st)) _ H1 H2) as Hd. by rewrite Hv in Hd.
Qed.

Lemma open_rejects path io base file l :
  l ∈ file -> (forall st, is_ok (replay_attempt base st l) = false) ->
  is_ok (OpenAttemptJournal path io base file) = false.
Proof.
  intros Hin Hl. unfold OpenAttemptJournal. destruct (bool_decide _); [done|]. destruct io; [done|]. cbn [negb].
  pose proof (fold_res_rejects (replay_attempt base) l file Hin Hl empty_replay) as Hf.
  by destruct (fold_res _ _ _).
Qed.

(** A file that ends in a complete line without its newline opens, and the next
    append runs into that line: the file does not open again. *)
Lemma append_after_lost_newline path io base j ctx io' at_ a j' e f :
  aj_file j = f ++ [AUnterminated e] -> Attempt_Append j ctx io' at_ a = (j', Ok a) ->
  is_ok (OpenAttemptJournal path io base (aj_file j')) = false.
Proof.
  intros Hf (e' & _ & _ & ->)%Attempt_Append_ok. cbn [appended aj_file].
  apply (open_rejects _ _ _ _ AFragment); [|done].
  unfold append_line. rewrite Hf, last_snoc. set_solver.
Qed.
End EscrowFacts.
