(* ===== verification/AttemptTheorems.v ===== *)
(** * Recovery of the attempt journal

    A line that fits the append limit fits the scanner; an attempt without escrow
    terms decodes to itself; so a journal whose failed writes leave no fragment
    opens again with every attempt it acknowledged. Escrow attempts are the
    exception: their file never opens again. *)
From stdpp Require Import base gmap strings list fin_maps sorting.
From Stdlib Require Import ZArith Lia Ascii.
From S2P Require Import Prelude GoText GoJSON Crypto Envelope Receipt Nonces SignerVerifier AttemptJournal.

Open Scope Z_scope.

(** ** The length of a line *)

Lemma json_string_len s : str_all is_ascii s = true -> str_len (json_string s) <= 2 + 6 * str_len s.
Proof.
  intros Hs. unfold json_string, str_len. rewrite !str_app_len. rewrite str_all_chars in Hs. rewrite (runes_ascii _ Hs).
  replace (String.length s) with (length (chars s)) by (rewrite <-(str_of_chars s) at 2; unfold chars, str_of; induction (String.list_ascii_of_string s); cbn; congruence).
  cbn [quote String.length]. clear Hs. induction (chars s) as [|c l IH]; cbn [map str_concat length]; [cbn; lia|].
  rewrite str_app_len. assert (String.length (escape_rune (R1 c)) <= 6)%nat; [|lia].
  unfold escape_rune. cbv zeta.
  repeat match goal with |- context [if ?b then _ else _] => destruct b end;
    unfold hex2; rewrite ?str_app_len; cbn [String.length backslash quote]; lia.
Qed.

Lemma str_repeat_len c n : String.length (str_repeat (String c "") n) = n.
Proof. induction n as [|n IH]; cbn [str_repeat]; [done|]. rewrite str_app_len, IH. done. Qed.

Lemma pad_int_len w n : is_int64 n -> str_len (pad_int w n) <= 66 + Z.of_nat w.
Proof.
  intros Hn%dec_string_len. unfold pad_int, str_len in *. rewrite str_app_len, str_repeat_len. lia.
Qed.

Lemma strip_zeros_len l : (length (strip_zeros l) <= length l)%nat.
Proof. induction l as [|c l IH]; cbn; [lia|]. destruct (code c =? 48); cbn; lia. Qed.

Lemma str_of_len l : String.length (str_of l) = length l.
Proof. unfold str_of. induction l as [|c l IH]; cbn; [done|]. by rewrite IH. Qed.

Lemma chars_len s : length (chars s) = String.length s.
Proof. rewrite <-(str_of_chars s) at 2. by rewrite str_of_len. Qed.

Lemma fraction_len n : is_int64 n -> str_len (fraction n) <= 76.
Proof.
  intros Hn%(pad_int_len 9). unfold fraction. destruct (n =? 0); [unfold str_len; cbn; lia|].
  unfold str_len in *. rewrite str_app_len, str_of_len, length_rev.
  pose proof (strip_zeros_len (rev (chars (pad_int 9 n)))) as Hl. rewrite length_rev, chars_len in Hl. cbn. lia.
Qed.

Lemma civil_bounds d year month day :
  civil d = (year, month, day) -> - 2000000 <= month <= 2000000 /\ - 2000000 <= day <= 2000000.
Proof.
  unfold civil. set (doe := (d + 306) mod 146097). intros [= _ <- <-].
  pose proof (Z.mod_pos_bound (d + 306) 146097 ltac:(lia)) as Hdoe. fold doe in Hdoe. clearbody doe.
  assert (Q : forall a b lo hi, 0 < b -> b * lo <= a -> a < b * (hi + 1) -> lo <= a / b <= hi).
  { intros a b lo hi Hb Hl Hh. split; [by apply Z.div_le_lower_bound|].
    assert (a / b < hi + 1); [by apply Z.div_lt_upper_bound|lia]. }
  set (yoe := (doe - doe / 1460 + doe / 36524 - doe / 146096) / 365).
  pose proof (Q doe 1460 0 101 ltac:(lia) ltac:(lia) ltac:(lia)).
  pose proof (Q doe 36524 0 5 ltac:(lia) ltac:(lia) ltac:(lia)).
  pose proof (Q doe 146096 0 5 ltac:(lia) ltac:(lia) ltac:(lia)).
  assert (- 1 <= yoe <= 500) by (apply Q; lia). clearbody yoe.
  pose proof (Q yoe 4 (- 1) 200 ltac:(lia) ltac:(lia) ltac:(lia)).
  pose proof (Q yoe 100 (- 1) 10 ltac:(lia) ltac:(lia) ltac:(lia)).
  set (doy := doe - (365 * yoe + yoe / 4 - yoe / 100)).
  assert (- 600000 <= doy <= 600000) by lia. clearbody doy.
  set (mp := (5 * doy + 2) / 153). assert (- 30000 <= mp <= 30000) by (apply Q; lia). clearbody mp.
  pose proof (Q (153 * mp + 2) 5 (- 1000000) 1000000 ltac:(lia) ltac:(lia) ltac:(lia)).
  split; [destruct (mp <? 10); lia|]. lia.
Qed.

Lemma json_time_len t s : json_time t = Some s -> str_len s <= 1000 /\ s <> "".
Proof.
  unfold json_time. destruct (civil (t / Second / 86400)) as [[year month] day] eqn:Ec.
  destruct ((year <? 0) || (9999 <? year)) eqn:Ey; [done|]. intros [= <-]. to_prop. destruct Ey as [Y0 Y1].
  apply civil_bounds in Ec as [Hm Hd].
  pose proof (Z.mod_pos_bound (t / Second) 86400 ltac:(lia)) as Hs.
  pose proof (Z.mod_pos_bound t Second ltac:(unfold Second; lia)) as Hn.
  set (sod := (t / Second) mod 86400) in *.
  assert (I : forall z, - 10000000000 <= z <= 10000000000 -> is_int64 z)
    by (unfold is_int64, MinInt64, MaxInt64; lia).
  pose proof (pad_int_len 4 year (I year ltac:(lia))). pose proof (pad_int_len 2 month (I month ltac:(lia))).
  pose proof (pad_int_len 2 day (I day ltac:(lia))).
  pose proof (pad_int_len 2 (sod / 3600) (I (sod / 3600) ltac:(Z.to_euclidean_division_equations; lia))).
  pose proof (pad_int_len 2 (sod / 60 mod 60) (I (sod / 60 mod 60) ltac:(Z.to_euclidean_division_equations; lia))).
  pose proof (pad_int_len 2 (sod mod 60) (I (sod mod 60) ltac:(Z.to_euclidean_division_equations; lia))).
  pose proof (fraction_len (t mod Second) (I (t mod Second) ltac:(unfold Second in *; lia))).
  split; [|done]. unfold str_len in *. rewrite !str_app_len. cbn [String.length quote]. lia.
Qed.

Lemma hex_encode_ascii s : str_all is_ascii (hex_encode s) = true.
Proof.
  assert (Hh : forall v, 0 <= v < 16 -> is_ascii (hex_char v) = true).
  { intros v Hv. unfold hex_char, is_ascii. destruct (v <? 10); rewrite code_char_of by lia; apply Z.ltb_lt; lia. }
  induction s as [|c s IH]; [done|]. cbn [hex_encode str_all]. pose proof (code_range c).
  rewrite !Hh, IH by (Z.to_euclidean_division_equations; lia). done.
Qed.

Lemma hex_encode_len s : str_len (hex_encode s) = 2 * str_len s.
Proof. unfold str_len. induction s as [|c s IH]; [done|]. cbn [hex_encode String.length]. lia. Qed.

(** ** Decoding an attempt without escrow terms *)

(** No escrow terms, and text in the fields no validator constrains. *)
Definition plain_attempt (a : Attempt) : Prop :=
  a_Escrow (s_Authorization (at_Authorization a)) = None /\
  valid_utf8 (a_Resource (s_Authorization (at_Authorization a))) = true /\
  valid_utf8 (s_KeyID (at_Authorization a)) = true /\ valid_utf8 (s_Signature (at_Authorization a)) = true.

(** A hash of the chain: empty at the start, hex afterwards. *)
Definition hash_text (h : string) : Prop := str_all is_ascii h = true /\ str_len h <= 64.

(** Where a next line starts on a line of its own. *)
Definition terminated (file : list attempt_line) : Prop :=
  match last file with None | Some (ALine _) => True | _ => False end.

Section Decoding.
Context `{Unicode} `{Crypto}.

Lemma Authorization_eqb_plain x y : Authorization_eqb x y = true -> a_Escrow x = None -> y = x.
Proof.
  unfold Authorization_eqb. intros He Hn. to_prop. destruct_and!. rewrite Hn in *.
  destruct x, y; cbn in *. subst. by destruct a_Escrow0.
Qed.

Lemma decode_Authorization_plain next a :
  Authorization_Validate a = Ok tt -> a_Escrow a = None -> valid_utf8 (a_Resource a) = true ->
  decode_Authorization next a = a.
Proof.
  intros Hv He Hr. apply Authorization_Validate_iff in Hv; [|unfold escrow_of; by rewrite He].
  pose proof (authorization_ok_text _ Hv) as Ht. unfold id_list in Ht. cbn [app] in Ht.
  rewrite !Forall_cons in Ht. destruct_and!. unfold decode_Authorization. rewrite !utf8_coerce_valid by done.
  rewrite He. destruct a; cbn in *. by subst.
Qed.

Lemma decode_Receipt_valid s pub : Receipt_Verify s pub = Ok tt -> decode_Receipt s = s.
Proof.
  intros Hv. pose proof (Receipt_Verify_valid _ _ Hv) as Hr. unfold Receipt_Verify in Hv.
  rewrite !check_ok_iff in Hv. destruct Hv as (Hk & _ & _ & Hv).
  destruct (hex_decode _) as [raw|] eqn:Eh; [|done]. rewrite check_ok_iff in Hv. destruct Hv as [Hsig _].
  apply andb_true_iff in Hsig as [_ Hsig%bool_decide_eq_true].
  unfold Receipt_Validate in Hr. cbn [forallb] in Hr. ok_prop. destruct_and!. unfold decode_Receipt.
  assert (valid_utf8 (rc_Outcome (sr_Receipt s)) = true) by (by match goal with E : _ = OutcomeSubmitted \/ _ |- _ => destruct E as [-> | ->] end).
  assert (valid_utf8 (rc_Version (sr_Receipt s)) = true) by (by match goal with E : rc_Version _ = _ |- _ => rewrite E end).
  assert (valid_utf8 (sr_Signature s) = true).
  { rewrite Hsig. apply valid_utf8_ascii. rewrite str_all_app. by rewrite hex_encode_ascii. }
  rewrite !utf8_coerce_valid by first [done|by apply identifier_utf8|by eapply hex_pattern_utf8].
  by destruct s as [[] ? ?].
Qed.

Lemma canonicalAddress_pattern v x : canonicalAddress v = Ok x -> addressPattern v = true.
Proof.
  unfold canonicalAddress, NormalizeAddress. intros Hc. go_inv. to_prop. congruence.
Qed.

Lemma receipt_text a :
  attempt_validate a = Ok tt ->
  option_map decode_Receipt (at_Receipt a) = at_Receipt a /\ valid_utf8 (at_ReceiptPublicKeyB64 a) = true.
Proof.
  unfold attempt_validate. rewrite try_unit_iff, check_ok_iff. intros (_ & _ & Hv).
  destruct (Authorization_Digest _); [|done]. rewrite !check_ok_iff, try_unit_iff in Hv.
  destruct Hv as (_ & _ & _ & Hv).
  assert (Hno : no_receipt a = true -> option_map decode_Receipt (at_Receipt a) = at_Receipt a /\ valid_utf8 (at_ReceiptPublicKeyB64 a) = true).
  { unfold no_receipt. to_prop. by intros [[-> ->] _]. }
  unfold validate_state in Hv. destruct (bool_decide (at_State a = AttemptPrepared)).
  { rewrite check_ok_iff in Hv. to_prop. tauto. }
  destruct (bool_decide (at_State a = AttemptBroadcasting)). { rewrite check_ok_iff in Hv. to_prop. tauto. }
  destruct (_ || _ || _); [|done]. rewrite try_unit_iff in Hv. destruct Hv as [Hv _].
  unfold attempt_validateReceipt in Hv. destruct (at_Receipt a) as [r|]; [|done].
  rewrite check_ok_iff in Hv. destruct Hv as [_ Hv]. destruct (b64_decode _) as [pub|]; [|done].
  rewrite check_ok_iff, try_unit_iff in Hv. destruct Hv as (Hb & Hr & _). apply andb_true_iff in Hb as [_ Hb%bool_decide_eq_true].
  split; [cbn; f_equal; by eapply decode_Receipt_valid|]. rewrite Hb. apply b64_utf8.
Qed.

Lemma decode_plain next a : attempt_validate a = Ok tt -> plain_attempt a -> decode_attempt next a = a.
Proof.
  intros Hv (He & Hr & Hk & Hs). destruct (receipt_text _ Hv) as [Rr Rk]. pose proof (state_coerce _ Hv) as Est.
  unfold attempt_validate in Hv. rewrite try_unit_iff, check_ok_iff in Hv. destruct Hv as (Hval & Heq & Hv).
  apply andb_true_iff in Heq as [Heq Hkey%bool_decide_eq_true]. apply Authorization_eqb_plain in Heq; [|done].
  destruct (Authorization_Digest _) as [d|]; [|done]. rewrite !check_ok_iff, try_unit_iff in Hv.
  destruct Hv as (Hd%bool_decide_eq_true & _ & Hp & _).
  unfold prepared_validate in Hp. rewrite !check_ok_iff, try_ok_iff in Hp. destruct Hp as (_ & Hh & x & Ha%canonicalAddress_pattern & _).
  unfold decode_attempt. rewrite Heq, Hd, Est, Rr, !decode_Authorization_plain by done.
  rewrite <-Hkey, (utf8_coerce_valid _ Hk), (utf8_coerce_valid _ Hs), (utf8_coerce_valid _ Rk).
  rewrite (utf8_coerce_valid (pt_TransactionHash _)), (utf8_coerce_valid (pt_Sender _)) by by eapply hex_pattern_utf8.
  rewrite (utf8_coerce_valid (_ +:+ _)) by (apply valid_utf8_ascii; rewrite str_all_app; by rewrite hex_encode_ascii).
  clear - Heq Hkey Hd. destruct a as [[] [] [] ? ? ? ? ? ?]. cbn in *. by subst.
Qed.
End Decoding.

(** ** Recovery *)

(** One append, with what the file system answers. *)
Record append_op := mkappend_op {
  op_ctx : option error;
  op_io : attempt_io;
  op_at : time;
  op_attempt : Attempt;
}.

(** A failed write left nothing or a complete event. *)
Definition io_unbroken (io : attempt_io) : bool :=
  match io_remains io with Some APart => false | _ => true end.

Definition fresh_journal : AttemptJournal :=
  {| aj_open := true; aj_file := []; aj_sequence := 0; aj_attempts := ∅; aj_lastHash := ""; aj_fault := None |}.

Section Recovery.
Context `{Unicode} `{CryptoLaws}.

Definition append_run (ops : list append_op) : AttemptJournal :=
  fold_left (fun j op => (Attempt_Append j (op_ctx op) (op_io op) (op_at op) (op_attempt op)).1) ops fresh_journal.

Lemma dec_uint64_len n : 0 <= n <= MaxUint64 -> str_len (dec_string n) <= 65.
Proof.
  intros Hn. unfold dec_string, str_len. destruct (Z.ltb_spec n 0); [lia|].
  pose proof (dec_digits_len (S (Z.to_nat (Z.log2 n))) n "") as Hl. cbn [String.length] in Hl.
  assert (Z.log2 n <= Z.log2 (2 ^ 64 - 1)) by (apply Z.log2_le_mono; unfold MaxUint64 in *; lia).
  change (Z.log2 (2 ^ 64 - 1)) with 63 in *. pose proof (Z.log2_nonneg n). lia.
Qed.

Lemma sha_hash_text m : hash_text (hex_encode (sha256 m)).
Proof. split; [apply hex_encode_ascii|]. rewrite hex_encode_len, sha256_size. lia. Qed.

Lemma identifier_ascii id : ValidIdentifier id = true -> str_all is_ascii id = true /\ str_len id <= 128.
Proof.
  unfold ValidIdentifier, identifier_pattern. destruct id as [|c r]; [done|]. to_prop. intros [[Hc Hr] Hl].
  split; [|unfold str_len in *; cbn [String.length]; lia]. cbn [str_all]. apply andb_true_iff. split.
  - unfold is_ascii. apply Z.ltb_lt, is_idch_ascii, is_alnum_idch, Hc.
  - eapply str_all_impl; [|exact Hr]. intros d Hd. unfold is_ascii. by apply Z.ltb_lt, is_idch_ascii.
Qed.

(** The event of an append is well formed, and so is its line. *)
Lemma appendable_line j at_ a e :
  appendable j at_ a e -> 0 <= aj_sequence j <= MaxUint64 -> hash_text (aj_lastHash j) ->
  hash_text (ae_Hash e) /\ unmarshal_attempt_event e = e /\
  exists text, json_attemptEvent e = Ok text /\ str_len text + 1 <= attemptMaxToken.
Proof.
  intros (_ & Hlen & _ & _ & Hseq & _ & (hash & ->) & He) Hs [Ha1 Hl1].
  unfold validateAttemptEvent in He. rewrite !check_ok_iff, try_ok_iff in He. destruct He as (Hf & _ & want & Hw & Hh).
  rewrite check_ok_iff in Hh. destruct Hh as [Hh%bool_decide_eq_true _]. cbn [new_attempt_event ae_Hash] in *. subst hash.
  to_prop. cbn [new_attempt_event ae_AuthorizationID] in Hf. destruct Hf as [[_ Hid] _].
  unfold attemptEventHash in Hw. destruct (json_time _) as [t|] eqn:Et; [|done]. cbn [new_attempt_event ae_At] in Et.
  injection Hw as Hw. assert (Hwt : hash_text want) by (rewrite <-Hw; apply sha_hash_text). clear Hw.
  split; [done|]. destruct Hwt as [Ha2 Hl2]. destruct (identifier_ascii _ Hid) as [Ia Il]. split.
  - unfold unmarshal_attempt_event, new_attempt_event.
    cbn [ae_Version ae_Sequence ae_At ae_AuthorizationID ae_PreviousHash ae_Payload ae_Hash]. by rewrite !utf8_coerce_valid by by apply valid_utf8_ascii.
  - unfold json_attemptEvent. cbn [new_attempt_event ae_At]. rewrite Et. eexists. split; [reflexivity|].
    destruct (json_time_len _ _ Et) as [Lt _].
    pose proof (json_string_len _ Ia). pose proof (json_string_len _ Ha1). pose proof (json_string_len _ Ha2).
    pose proof (dec_uint64_len (aj_sequence j + 1) ltac:(lia)).
    unfold json_object, attempt_hash_members, json_int.
    cbn [app json_members new_attempt_event ae_Version ae_Sequence ae_AuthorizationID ae_PreviousHash ae_Payload ae_Hash].
    unfold str_len in *. rewrite !str_app_len. cbn [String.length quote].
    change (String.length (dec_string attemptJournalVersion)) with 1%nat. unfold attemptMaxToken. lia.
Qed.

(** What the file of a journal reads back as. *)
Record recoverable (base : N) (j : AttemptJournal) (st : replay_state) : Prop := {
  rv_replay : fold_res (replay_attempt base) empty_replay (aj_file j) = Ok st;
  rv_running : aj_fault j = None ->
    aj_open j = true /\ terminated (aj_file j) /\ 0 <= aj_sequence j <= MaxUint64 /\ hash_text (aj_lastHash j) /\
    rp_sequence st = aj_sequence j /\ rp_lastHash st = aj_lastHash j /\ rp_attempts st = aj_attempts j;
  rv_faulted : rp_attempts st = aj_attempts j \/
    exists a, validateTransition (aj_attempts j) (attempt_id a) a = Ok tt /\
              rp_attempts st = <[attempt_id a := a]> (aj_attempts j);
}.

Lemma replay_appended base j at_ a e st :
  recoverable base j st -> plain_attempt a -> appendable j at_ a e ->
  forall l, line_event l = Some e ->
  replay_attempt base st l =
  Ok {| rp_sequence := aj_sequence j + 1; rp_lastHash := ae_Hash e; rp_attempts := <[attempt_id a := a]> (aj_attempts j) |}.
Proof.
  intros [_ Hrun _] Hplain Hap l Hl. pose proof Hap as (Hv & _ & _ & Hf & Hseq & Ht & (hash & Ee) & He).
  destruct (Hrun Hf) as (_ & _ & Hs & Hh & E1 & E2 & E3).
  destruct (appendable_line _ _ _ _ Hap Hs Hh) as (_ & Eu & text & Ej & Hlen).
  assert (Hgo : replay_attempt base st l = replay_attempt base st (ALine e)) by (destruct l; cbn in Hl; simplify_eq; reflexivity).
  rewrite Hgo. unfold replay_attempt. rewrite Ej, Eu, E1, E2, E3, He.
  apply Z.leb_le in Hlen. rewrite Hlen. destruct (Z.eqb_spec (aj_sequence j) MaxUint64); [done|]. cbn [negb].
  rewrite Ee. cbn [new_attempt_event ae_Payload ae_AuthorizationID ae_Sequence ae_Hash].
  rewrite decode_plain by done.
  assert (attempt_apply (aj_attempts j) (attempt_id a) a = Ok (<[attempt_id a := a]> (aj_attempts j))) as ->
    by by apply attempt_apply_ok.
  done.
Qed.

Lemma terminated_append file l : terminated file -> append_line file l = file ++ l.
Proof. unfold terminated, append_line. by destruct (last file) as [[]|]. Qed.

Lemma recoverable_step base j st op :
  recoverable base j st -> plain_attempt (op_attempt op) -> io_unbroken (op_io op) = true ->
  exists st', recoverable base (Attempt_Append j (op_ctx op) (op_io op) (op_at op) (op_attempt op)).1 st'.
Proof.
  intros Hr Hp Hio. destruct op as [ctx io at_ a]; cbn [op_ctx op_io op_at op_attempt] in *.
  destruct (Attempt_Append j ctx io at_ a) as [j' r] eqn:Ea. cbn [fst].
  apply Attempt_Append_cases in Ea as [[-> _]|[(e & Hap & _ & ->)|(e & m & remains & Hir & Hap & _ & ->)]]; [by exists st| |].
  all: pose proof Hap as (_ & _ & _ & Hf & Hseq & Ht & _).
  all: destruct (rv_running _ _ _ Hr Hf) as (Ho & Hterm & Hs & Hh & E1 & E2 & E3).
  all: pose proof (replay_appended _ _ _ _ _ _ Hr Hp Hap) as Hre.
  all: destruct (appendable_line _ _ _ _ Hap Hs Hh) as (Hhe & _).
  - eexists. split; cbn [appended aj_file aj_fault aj_open aj_sequence aj_lastHash aj_attempts].
    + rewrite terminated_append, fold_res_snoc, (rv_replay _ _ _ Hr) by done. by apply Hre.
    + intros _. split_and!; try done; [|lia|lia]. rewrite terminated_append by done. unfold terminated. by rewrite last_snoc.
    + by left.
  - assert (Hrem : remains = ANothing \/ exists l, residue_lines e remains = [l] /\ line_event l = Some e).
    { destruct io as [? []|[]|? []|]; cbn in Hio, Hir; simplify_eq; cbn; eauto. }
    destruct Hrem as [->|(l & El & Hle)].
    + exists st. split; cbn [attempt_fault aj_file aj_fault aj_attempts]; [|done|by left; rewrite E3].
      rewrite terminated_append by done. cbn. rewrite app_nil_r. apply Hr.
    + eexists. split; cbn [attempt_fault aj_file aj_fault aj_attempts].
      * rewrite terminated_append, El, fold_res_snoc, (rv_replay _ _ _ Hr) by done. by apply Hre.
      * done.
      * right. exists a. done.
Qed.
End Recovery.

(** ** Properties *)

Section AttemptProperties.
Context `{Unicode} `{CryptoLaws}.

Lemma recoverable_run base ops :
  Forall (fun op => plain_attempt (op_attempt op) /\ io_unbroken (op_io op) = true) ops ->
  exists st, recoverable base (append_run ops) st.
Proof.
  unfold append_run. induction ops as [|op ops IH] using rev_ind; intros Hall.
  { exists empty_replay. split; [done| |by left]. intros _. split_and!; done. }
  rewrite Forall_app, Forall_singleton in Hall. destruct Hall as (Hall & Hp & Hio).
  destruct (IH Hall) as [st Hst]. rewrite fold_left_app. by eapply recoverable_step.
Qed.

(** a journal of attempts without escrow terms always opens again, whatever
    writes failed, as long as none left a fragment: with exactly the attempts,
    sequence and head it had while it was running, and otherwise with them and at
    most the one valid transition whose write failed. *)
Theorem attempt_journal_recovers base ops :
  Forall (fun op => plain_attempt (op_attempt op) /\ io_unbroken (op_io op) = true) ops ->
  exists j', OpenAttemptJournal "attempts" None base (aj_file (append_run ops)) = Ok j' /\
    (aj_fault (append_run ops) = None -> j' = append_run ops) /\
    (aj_attempts j' = aj_attempts (append_run ops) \/
     exists a, validateTransition (aj_attempts (append_run ops)) (attempt_id a) a = Ok tt /\
       aj_attempts j' = <[attempt_id a := a]> (aj_attempts (append_run ops))).
Proof.
  intros Hall. destruct (recoverable_run base ops Hall) as (st & [Hre Hrun Hft]).
  unfold OpenAttemptJournal. rewrite bool_decide_eq_false_2 by done. cbn [negb]. rewrite Hre.
  eexists. split; [reflexivity|]. cbn [aj_attempts]. split; [|done]. intros Hf.
  destruct (Hrun Hf) as (Ho & _ & _ & _ & -> & -> & ->). destruct (append_run ops); cbn in *. by subst.
Qed.

(** as soon as one attempt on the escrow rail is acknowledged, the file of
    the journal can never be opened again: decoding gives the two copies of the
    terms two addresses, and the comparison of the copies fails. *)
Theorem escrow_attempt_blocks_restart j ctx io at_ a j' b path io' base :
  Attempt_Append j ctx io at_ a = (j', Ok b) ->
  a_Rail (s_Authorization (at_Authorization a)) = RailEscrow ->
  is_ok (OpenAttemptJournal path io' base (aj_file j')) = false.
Proof.
  intros (e & Hap & _ & ->)%Attempt_Append_ok Hr. cbn [appended aj_file].
  destruct (appendable_event _ _ _ _ Hap) as (_ & _ & Ep). destruct Hap as (Hv & _).
  destruct (validate_escrow _ Hv Hr) as [? ?].
  destruct (append_line_cases (aj_file j) [ALine e]) as [->|Hu].
  - apply (open_rejects _ _ _ _ (ALine e)); [set_solver|]. by apply replay_escrow_rejected; rewrite Ep.
  - by apply (open_rejects _ _ _ _ AFragment).
Qed.
End AttemptProperties.

(** ** Witnesses *)

Section AttemptWitnesses.
#[local] Existing Instance ToyCrypto.
#[local] Existing Instance ToyCryptoLaws.
#[local] Existing Instance ToyUnicode.

Definition direct_authorization : Authorization := {|
  a_Version := Envelope_Version; a_AuthorizationID := "auth_2"; a_OrganizationID := "org_1";
  a_CustomerID := "cust_1"; a_AgentID := "agent_1"; a_TaskID := "task_1"; a_ActionID := "act_2";
  a_Rail := RailDirect; a_ChainID := 8453; a_Recipient := demo_provider; a_Asset := demo_asset;
  a_AmountAtomic := "1000"; a_Resource := "https://seller.example/quote";
  a_PolicyVersion := "policy_1"; a_Nonce := demo_hash "6";
  a_IssuedAt := 1700000000; a_ExpiresAt := 1700000300; a_Escrow := None |}.

Definition direct_signed : SignedAuthorization :=
  match Sign direct_authorization "key_1" demo_key with
  | Ok s => s
  | Err _ => {| s_Authorization := direct_authorization; s_KeyID := ""; s_Signature := "" |}
  end.

Definition demo_prepared : PreparedTransaction := {|
  pt_RawTransaction := "raw"; pt_TransactionHash := "0x" +:+ hex_encode (keccak256 "raw"); pt_Sender := demo_buyer |}.

(** The attempt the executor prepares for a signed authorization. *)
Definition demo_attempt (s : SignedAuthorization) : Attempt := {|
  at_Authorization := s;
  at_Authorized := {|
    az_Authorization := s_Authorization s;
    az_Digest := "0x" +:+ hex_encode (match Authorization_Digest (s_Authorization s) with Ok d => d | Err _ => "" end);
    az_KeyID := s_KeyID s; az_ClaimedAt := 1700000010 |};
  at_Prepared := demo_prepared; at_State := AttemptPrepared; at_PreparedAt := 1700000011;
  at_BroadcastAt := 0; at_Receipt := None; at_ReceiptPublicKeyB64 := ""; at_RegisteredAt := 0 |}.

Definition demo_appends : list append_op :=
  [mkappend_op None AWritten demo_now (demo_attempt direct_signed);
   mkappend_op None (ASyncFails "io error" ANothing) demo_now
     (mkAttempt direct_signed (at_Authorized (demo_attempt direct_signed)) demo_prepared AttemptBroadcasting
        1700000011 1700000012 None "" 0)].

Lemma attempt_journal_recovers_witness :
  aj_sequence (append_run demo_appends) = 1 /\
  exists j', OpenAttemptJournal "attempts" None 100 (aj_file (append_run demo_appends)) = Ok j' /\
    (aj_fault (append_run demo_appends) = None -> j' = append_run demo_appends) /\
    (aj_attempts j' = aj_attempts (append_run demo_appends) \/
     exists a, validateTransition (aj_attempts (append_run demo_appends)) (attempt_id a) a = Ok tt /\
       aj_attempts j' = <[attempt_id a := a]> (aj_attempts (append_run demo_appends))).
Proof.
  split; [vm_compute; reflexivity|]. apply (attempt_journal_recovers 100 demo_appends).
  unfold demo_appends. repeat constructor; vm_compute; reflexivity.
Defined.

Definition escrow_append : AttemptJournal * res Attempt :=
  Attempt_Append fresh_journal None AWritten demo_now (demo_attempt demo_signed).

Lemma escrow_attempt_blocks_restart_witness :
  is_ok escrow_append.2 = true /\
  is_ok (OpenAttemptJournal "attempts" None 100 (aj_file escrow_append.1)) = false.
Proof.
  assert (E : is_ok escrow_append.2 = true) by (vm_compute; reflexivity).
  split; [exact E|].
  apply (escrow_attempt_blocks_restart fresh_journal None AWritten demo_now (demo_attempt demo_signed)
    escrow_append.1 (demo_attempt demo_signed) "attempts" None 100); [vm_compute; reflexivity|].
  vm_compute. reflexivity.
Defined.
End AttemptWitnesses.
