(* ===== verification/Executor.v ===== *)
(** * The one-way executor ([pkg/referencesigner/executor.go])

    [Execute] admits an authorization and drives its attempt; [ResumePending]
    picks up what a previous process left. Every network effect is an entry of a
    log of the world: [w_broadcasts] the calls of [WalletAdapter.Broadcast],
    [w_registrations] the calls of [RegistrationSink.Register].

    What the clock, the gates, the wallet, the file and the registration sink
    answer is an environment of the call. The death of the process is covered by
    the environments: a process that dies behaves, up to its death, like one whose
    next append fails and leaves what had reached the file; a restart opens the
    file again. *)
From stdpp Require Import base gmap strings list fin_maps sorting.
From Stdlib Require Import ZArith Lia Ascii.
From S2P Require Import Prelude GoText GoJSON Crypto Amounts Envelope PilotLimits Receipt Nonces.
From S2P Require Import SignerVerifier AttemptJournal.

Open Scope Z_scope.

(** ** State and environment *)

Record Executor := mkExecutor {
  x_verifier : Verifier;
  x_receiptKeyID : string;
  x_receiptPrivateKey : string;
  x_receiptPublicKey : string;
  x_pilotLimits : option Limits;
}.

Record world (N : Type) := mkworld {
  w_nonces : N;
  w_journal : AttemptJournal;
  w_broadcasts : list (gate_env * Attempt);
  w_registrations : list SignedReceipt;
}.
Arguments mkworld {N} _ _ _ _.
Arguments w_nonces {N} _.
Arguments w_journal {N} _.
Arguments w_broadcasts {N} _.
Arguments w_registrations {N} _.

Definition with_journal {N} (w : world N) (j : AttemptJournal) : world N :=
  mkworld (w_nonces w) j (w_broadcasts w) (w_registrations w).
Definition with_nonces {N} (w : world N) (n : N) : world N :=
  mkworld n (w_journal w) (w_broadcasts w) (w_registrations w).
Definition log_broadcast {N} (w : world N) (env : gate_env) (a : Attempt) : world N :=
  mkworld (w_nonces w) (w_journal w) (w_broadcasts w ++ [(env, a)]) (w_registrations w).
Definition log_registration {N} (w : world N) (r : SignedReceipt) : world N :=
  mkworld (w_nonces w) (w_journal w) (w_broadcasts w) (w_registrations w ++ [r]).

(** What one [advance] observes, in the order in which it asks. *)
Record advance_env := mkadvance_env {
  xe_ctx : option error;
  xe_gates : gate_env;
  xe_broadcastAt : time;
  xe_broadcastingAt : time;
  xe_broadcastingIO : attempt_io;
  xe_broadcast : option error;
  xe_outcomeAt : time;
  xe_outcomeIO : attempt_io;
  xe_register : option error;
  xe_registeredAt : time;
  xe_registrationAt : time;
  xe_registrationIO : attempt_io;
}.

(** What one [Execute] observes before it advances. *)
Record execute_env (E : Type) := mkexecute_env {
  ee_gates : gate_env;
  ee_claimedAt : time;
  ee_claimIO : E;
  ee_prepare : res PreparedTransaction;
  ee_preparedAt : time;
  ee_appendAt : time;
  ee_appendIO : attempt_io;
  ee_advance : advance_env;
}.
Arguments mkexecute_env {E} _ _ _ _ _ _ _ _.
Arguments ee_gates {E} _.
Arguments ee_claimedAt {E} _.
Arguments ee_claimIO {E} _.
Arguments ee_prepare {E} _.
Arguments ee_preparedAt {E} _.
Arguments ee_appendAt {E} _.
Arguments ee_appendIO {E} _.
Arguments ee_advance {E} _.

(** A Go [(Attempt, error)] pair: the zero [Attempt] is [None], nil is [None]. *)
Definition outcome : Type := option Attempt * option error.

Definition with_state (a : Attempt) (state : AttemptState) (broadcastAt : Z) : Attempt :=
  mkAttempt (at_Authorization a) (at_Authorized a) (at_Prepared a) state (at_PreparedAt a) broadcastAt
    (at_Receipt a) (at_ReceiptPublicKeyB64 a) (at_RegisteredAt a).

Definition with_receipt (a : Attempt) (state : AttemptState) (r : SignedReceipt) (publicKeyB64 : string) : Attempt :=
  mkAttempt (at_Authorization a) (at_Authorized a) (at_Prepared a) state (at_PreparedAt a) (at_BroadcastAt a)
    (Some r) publicKeyB64 (at_RegisteredAt a).

Definition with_registered (a : Attempt) (registeredAt : Z) : Attempt :=
  mkAttempt (at_Authorization a) (at_Authorized a) (at_Prepared a) AttemptRegistered (at_PreparedAt a)
    (at_BroadcastAt a) (at_Receipt a) (at_ReceiptPublicKeyB64 a) registeredAt.

Section Executor.
Context `{Unicode} `{Crypto} {N E : Type} `{NonceStore N E}.

(** [collaborators]: no interface, journal or limits is nil; [NewKeyFromSeed]
    is the library's. *)
Definition NewExecutor (NewKeyFromSeed : string -> string) (collaborators : bool) (verifier : Verifier)
    (receiptKeyID receiptPrivateKey : string) (limits : option Limits) : res Executor :=
  check collaborators && negb (bool_decide (limits = None))
    else "verifier, wallet, registration sink, attempt journal, and pilot limits are required" ;;
  check ValidIdentifier receiptKeyID && (str_len receiptPrivateKey =? PrivateKeySize)
    else "receipt attestation identity is invalid" ;;
  check bool_decide (receiptPrivateKey = NewKeyFromSeed (String.substring 0 32 receiptPrivateKey))
    else "receipt attestation private key is not canonical" ;;
  check str_len (ed25519_public receiptPrivateKey) =? PublicKeySize
    else "derive receipt attestation public key" ;;
  Ok {| x_verifier := verifier; x_receiptKeyID := receiptKeyID; x_receiptPrivateKey := receiptPrivateKey;
        x_receiptPublicKey := ed25519_public receiptPrivateKey; x_pilotLimits := limits |}.

Definition append (w : world N) (ctx : option error) (io : attempt_io) (at_ : time) (a : Attempt)
    : world N * res Attempt :=
  let '(j, r) := Attempt_Append (w_journal w) ctx io at_ a in (with_journal w j, r).

Definition register (w : world N) (env : advance_env) (a : Attempt) : world N * outcome :=
  match at_Receipt a with
  | None => (w, (None, Some "durable attempt has no receipt to register"))
  | Some receipt =>
      let w := log_registration w receipt in
      match xe_register env with
      | Some _ => (w, (Some a, Some ErrRegistrationPending))
      | None =>
          let registered := with_registered a (Unix (xe_registeredAt env)) in
          let '(w, persisted) := append w None (xe_registrationIO env) (xe_registrationAt env) registered in
          match persisted with
          | Err _ => (w, (Some a, Some ErrRegistrationPending))
          | Ok persisted =>
              if bool_decide (rc_Outcome (sr_Receipt receipt) = OutcomeAmbiguous)
              then (w, (Some persisted, Some ErrBroadcastAmbiguous))
              else (w, (Some persisted, None))
          end
      end
  end.

Definition receipt_for (a : Attempt) (result : Outcome) : Receipt :=
  let authorization := az_Authorization (at_Authorized a) in
  {| rc_Version := Receipt_Version; rc_OrganizationID := a_OrganizationID authorization;
     rc_CustomerID := a_CustomerID authorization; rc_AuthorizationID := a_AuthorizationID authorization;
     rc_AuthorizationDigest := az_Digest (at_Authorized a);
     rc_TransactionHash := pt_TransactionHash (at_Prepared a); rc_Sender := pt_Sender (at_Prepared a);
     rc_Outcome := result; rc_BroadcastAt := at_BroadcastAt a |}.

Definition persistOutcomeAndRegister (x : Executor) (w : world N) (env : advance_env) (a : Attempt)
    (state : AttemptState) (result : Outcome) : world N * outcome :=
  match Receipt_Sign (receipt_for a result) (x_receiptKeyID x) (x_receiptPrivateKey x) with
  | Err m => (w, (Some a, Some m))
  | Ok receipt =>
      let a := with_receipt a state receipt (b64_encode (x_receiptPublicKey x)) in
      let '(w, persisted) := append w None (xe_outcomeIO env) (xe_outcomeAt env) a in
      match persisted with
      | Err m => (w, (None, Some m))
      | Ok persisted => register w env persisted
      end
  end.

Definition advance (x : Executor) (w : world N) (env : advance_env) (a : Attempt) : world N * outcome :=
  if bool_decide (at_State a = AttemptPrepared) then
    match CheckExecution (x_verifier x) (xe_gates env) (at_Authorization a) with
    | Err m => (w, (Some a, Some m))
    | Ok _ =>
        let a := with_state a AttemptBroadcasting (Unix (xe_broadcastAt env)) in
        let '(w, persisted) := append w (xe_ctx env) (xe_broadcastingIO env) (xe_broadcastingAt env) a in
        match persisted with
        | Err m => (w, (None, Some m))
        | Ok a =>
            let w := log_broadcast w (xe_gates env) a in
            match xe_broadcast env with
            | None => persistOutcomeAndRegister x w env a AttemptSubmitted OutcomeSubmitted
            | Some _ => persistOutcomeAndRegister x w env a AttemptAmbiguous OutcomeAmbiguous
            end
        end
    end
  else if bool_decide (at_State a = AttemptBroadcasting) then
    persistOutcomeAndRegister x w env a AttemptAmbiguous OutcomeAmbiguous
  else if bool_decide (at_State a = AttemptSubmitted) || bool_decide (at_State a = AttemptAmbiguous) then
    register w env a
  else if bool_decide (at_State a = AttemptRegistered) then
    match at_Receipt a with
    | Some receipt =>
        if bool_decide (rc_Outcome (sr_Receipt receipt) = OutcomeAmbiguous)
        then (w, (Some a, Some ErrBroadcastAmbiguous)) else (w, (Some a, None))
    | None => (w, (Some a, None))
    end
  else (w, (None, Some "durable signer attempt has an unsupported state")).

(** The amount an attempt holds; text that is no number counts for nothing. *)
Definition attempt_amount (a : Attempt) : Z :=
  default 0 (SetString10 (a_AmountAtomic (az_Authorization (at_Authorized a)))).

Definition pilotOutstanding (j : AttemptJournal) : string :=
  dec_string (fold_left (fun total a => total + attempt_amount a) (Attempts j) 0).

Definition Execute (x : Executor) (w : world N) (env : execute_env E) (signed : SignedAuthorization)
    : world N * outcome :=
  let rail := a_Rail (s_Authorization signed) in
  if negb (bool_decide (rail = RailDirect)) && negb (bool_decide (rail = RailEscrow))
  then (w, (None, Some ErrUnsupportedRail)) else
  match Attempt_Get (w_journal w) (a_AuthorizationID (s_Authorization signed)) with
  | Some existing =>
      if SignedAuthorization_eqb (at_Authorization existing) signed
      then advance x w (ee_advance env) existing
      else (w, (None, Some ErrAttemptConflict))
  | None =>
      match pilot_Check (x_pilotLimits x) (a_AmountAtomic (s_Authorization signed)) (pilotOutstanding (w_journal w)) with
      | Err m => (w, (None, Some m))
      | Ok _ =>
          let '(nonces, authorized) := Authorize (x_verifier x) (w_nonces w) (xe_ctx (ee_advance env)) (ee_gates env)
                                         (ee_claimedAt env) (ee_claimIO env) signed in
          let w := with_nonces w nonces in
          match authorized with
          | Err m => (w, (None, Some m))
          | Ok authorized =>
              match ee_prepare env with
              | Err m => (w, (None, Some m))
              | Ok prepared =>
                  match prepared_validate prepared with
                  | Err _ => (w, (None, Some ErrPreparedTransaction))
                  | Ok _ =>
                      let a := {| at_Authorization := signed; at_Authorized := authorized; at_Prepared := prepared;
                                  at_State := AttemptPrepared; at_PreparedAt := Unix (ee_preparedAt env);
                                  at_BroadcastAt := 0; at_Receipt := None; at_ReceiptPublicKeyB64 := "";
                                  at_RegisteredAt := 0 |} in
                      let '(w, persisted) := append w (xe_ctx (ee_advance env)) (ee_appendIO env) (ee_appendAt env) a in
                      match persisted with
                      | Err m => (w, (None, Some m))
                      | Ok a => advance x w (ee_advance env) a
                      end
                  end
              end
          end
      end
  end.

(** [envs]: what the advance of each authorization observes. *)
Fixpoint resume_all (x : Executor) (w : world N) (envs : string -> advance_env) (attempts : list Attempt)
    : world N * list outcome :=
  match attempts with
  | [] => (w, [])
  | a :: attempts =>
      if bool_decide (at_State a = AttemptRegistered) then resume_all x w envs attempts
      else let '(w, result) := advance x w (envs (attempt_id a)) a in
           let '(w, results) := resume_all x w envs attempts in (w, result :: results)
  end.

Definition ResumePending (x : Executor) (w : world N) (envs : string -> advance_env) : world N * list outcome :=
  resume_all x w envs (Attempts (w_journal w)).

(** ** Runs across restarts *)

Inductive signer_op :=
| XExecute (env : execute_env E) (signed : SignedAuthorization)
| XResume (envs : string -> advance_env)
| XRestart (base : BinNums.N) (nonces : N).

Arguments XExecute _ _.
Arguments XResume _.
Arguments XRestart _ _.

Definition signer_step (x : Executor) (w : world N) (op : signer_op) : res (world N) :=
  match op with
  | XExecute env signed => Ok (Execute x w env signed).1
  | XResume envs => Ok (ResumePending x w envs).1
  | XRestart base nonces =>
      try j := OpenAttemptJournal "attempts" None base (aj_file (w_journal w)) in
      Ok (with_nonces (with_journal w j) nonces)
  end.

Definition fresh_world (nonces : N) : world N :=
  mkworld nonces {| aj_open := true; aj_file := []; aj_sequence := 0; aj_attempts := ∅; aj_lastHash := ""; aj_fault := None |} [] [].

Definition signer_run (x : Executor) (nonces : N) (ops : list signer_op) : res (world N) :=
  fold_res (signer_step x) (fresh_world nonces) ops.
End Executor.

Arguments signer_op N E : clear implicits.
