(* ===== verification/ExecutorTheorems.v ===== *)
(** * The executor broadcasts at most once

    [micro] is the system of single effects the executor is made of; every
    operation is a sequence of them, so an invariant is proved once per effect and
    holds for [Execute], [ResumePending] and any run with restarts. *)
From stdpp Require Import base gmap strings list fin_maps sorting.
From Stdlib Require Import ZArith Lia Ascii.
From S2P Require Import Prelude GoText GoJSON Crypto Amounts Envelope PilotLimits Receipt Nonces.
From S2P Require Import SignerVerifier AttemptJournal Executor.

Open Scope Z_scope.

(** ** The effects of the executor *)

Section Micro.
Context `{Unicode} `{Crypto} {N E : Type} `{NonceStore N E}.
Variable x : Executor.
Implicit Types (w : world N).

Inductive micro : world N -> world N -> Prop :=
| micro_admit w ctx io at_ a w' r :
    at_State a = AttemptPrepared -> aj_attempts (w_journal w) !! attempt_id a = None ->
    pilot_Check (x_pilotLimits x) (a_AmountAtomic (az_Authorization (at_Authorized a)))
      (pilotOutstanding (w_journal w)) = Ok tt ->
    append w ctx io at_ a = (w', r) -> micro w w'
| micro_broadcast w ctx io at_ gates a w' :
    CheckExecution (x_verifier x) gates (at_Authorization a) = Ok tt -> at_State a = AttemptBroadcasting ->
    append w ctx io at_ a = (w', Ok a) -> micro w (log_broadcast w' gates a)
| micro_append w ctx io at_ a w' r :
    at_State a <> AttemptPrepared -> (at_State a = AttemptBroadcasting -> is_ok r = false) ->
    append w ctx io at_ a = (w', r) -> micro w w'
| micro_register w r : micro w (log_registration w r)
| micro_nonces w n : micro w (with_nonces w n).

Lemma append_ok w ctx io at_ a (w' : world N) b : append w ctx io at_ a = (w', Ok b) -> b = a.
Proof.
  unfold append. destruct (Attempt_Append (w_journal w) ctx io at_ a) as [j r] eqn:Ea. intros [= <- ->].
  by apply Attempt_Append_ok in Ea as (e & _ & -> & _).
Qed.

Lemma register_micro w env a : rtc micro w (register w env a).1.
Proof.
  unfold register. destruct (at_Receipt a) as [r|]; [|apply rtc_refl].
  eapply rtc_l; [apply (micro_register w r)|]. destruct (xe_register env); [apply rtc_refl|].
  destruct (append _ _ _ _ _) as [w' p] eqn:Ea.
  eapply rtc_l; [eapply micro_append; [| |exact Ea]; done|].
  destruct p; [|apply rtc_refl]. destruct (bool_decide _); apply rtc_refl.
Qed.

Lemma persist_micro w env a state result :
  state = AttemptSubmitted \/ state = AttemptAmbiguous ->
  rtc micro w (persistOutcomeAndRegister x w env a state result).1.
Proof.
  intros Hs. unfold persistOutcomeAndRegister. destruct (Receipt_Sign _ _ _) as [r|]; [|apply rtc_refl].
  destruct (append _ _ _ _ _) as [w' p] eqn:Ea.
  eapply rtc_l.
  { eapply micro_append; [| |exact Ea]; cbn [with_receipt at_State]; destruct Hs as [-> | ->]; done. }
  destruct p; [apply register_micro|apply rtc_refl].
Qed.

Lemma advance_micro w env a : rtc micro w (advance x w env a).1.
Proof.
  unfold advance. destruct (bool_decide (at_State a = AttemptPrepared)).
  { destruct (CheckExecution _ _ _) as [[]|] eqn:Ec; [|apply rtc_refl].
    destruct (append _ _ _ _ _) as [w' p] eqn:Ea. destruct p as [b|m].
    - pose proof (append_ok _ _ _ _ _ _ _ Ea) as ->.
      eapply rtc_l; [eapply micro_broadcast; [| |exact Ea]; [exact Ec|done]|].
      destruct (xe_broadcast env); apply persist_micro; tauto.
    - eapply rtc_l; [eapply micro_append; [| |exact Ea]; done|]. apply rtc_refl. }
  destruct (bool_decide (at_State a = AttemptBroadcasting)); [apply persist_micro; tauto|].
  destruct (_ || _); [apply register_micro|].
  destruct (bool_decide _); [|apply rtc_refl]. destruct (at_Receipt a); [|apply rtc_refl].
  destruct (bool_decide _); apply rtc_refl.
Qed.

Lemma Execute_micro w env signed : rtc micro w (Execute x w env signed).1.
Proof.
  unfold Execute. destruct (_ && _); [apply rtc_refl|].
  destruct (Attempt_Get _ _) as [existing|] eqn:Eg.
  { destruct (SignedAuthorization_eqb _ _); [apply advance_micro|apply rtc_refl]. }
  destruct (pilot_Check _ _ _) as [[]|] eqn:Ep; [|apply rtc_refl].
  destruct (Authorize _ _ _ _ _ _ _) as [nonces authorized] eqn:Eau.
  eapply rtc_l; [apply (micro_nonces w nonces)|].
  destruct authorized as [az|]; [|apply rtc_refl]. destruct (ee_prepare env) as [prepared|]; [|apply rtc_refl].
  destruct (prepared_validate prepared); [|apply rtc_refl].
  assert (az_Authorization az = s_Authorization signed) as Haz.
  { unfold Authorize in Eau. destruct (CheckExecution _ _ _); [|done]. destruct (Authorization_Digest _); [|done].
    destruct (ns_Claim _ _ _ _ _) as [? []]; by simplify_eq. }
  destruct (append _ _ _ _ _) as [w' p] eqn:Ea. eapply rtc_l.
  { eapply micro_admit; [| | |exact Ea]; [done|..]; unfold attempt_id; cbn [at_Authorized with_nonces w_journal]; by rewrite Haz. }
  destruct p; [apply advance_micro|apply rtc_refl].
Qed.

Lemma resume_micro envs attempts : forall w, rtc micro w (resume_all x w envs attempts).1.
Proof.
  induction attempts as [|a l IH]; intros w; cbn [resume_all]; [apply rtc_refl|].
  destruct (bool_decide _); [apply IH|].
  destruct (advance x w _ a) as [w1 r] eqn:Ea. destruct (resume_all x w1 envs l) as [w2 rs] eqn:Er.
  etrans; [|specialize (IH w1); rewrite Er in IH; exact IH].
  pose proof (advance_micro w (envs (attempt_id a)) a) as Hm. by rewrite Ea in Hm.
Qed.

(** An invariant of the effects that survives opening the file again holds in
    every run. *)
Lemma run_invariant (I : world N -> Prop) nonces ops w :
  I (fresh_world nonces) ->
  (forall w w', I w -> micro w w' -> I w') ->
  (forall w base n j, I w -> OpenAttemptJournal "attempts" None base (aj_file (w_journal w)) = Ok j ->
     I (with_nonces (with_journal w j) n)) ->
  signer_run x nonces ops = Ok w -> I w.
Proof.
  intros Hinit Hmicro Hopen. unfold signer_run. revert w.
  assert (Hrtc : forall w w', rtc micro w w' -> I w -> I w') by (induction 1; eauto).
  induction ops as [|op ops IH] using rev_ind; intros w; [by intros [= <-]|].
  rewrite fold_res_snoc, try_ok_iff. intros (w1 & Hw%IH & Hs). destruct op as [env signed|envs|base n]; cbn [signer_step] in Hs.
  - injection Hs as <-. eapply Hrtc; [apply Execute_micro|done].
  - injection Hs as <-. eapply Hrtc; [apply resume_micro|done].
  - rewrite try_ok_iff in Hs. destruct Hs as (j & Hj & [= <-]). eauto.
Qed.
End Micro.

(** ** What has been broadcast is past PREPARED *)

Definition past (s : option AttemptState) : Prop := exists st, s = Some st /\ st <> AttemptPrepared.

Section Safety.
Context `{Unicode} `{Crypto}.

(** The recorded states of [id], in memory and in the file. *)
Definition past_prepared (j : AttemptJournal) (id : string) : Prop :=
  past (option_map at_State (aj_attempts j !! id)) /\
  (unreadable (aj_file j) \/ past (file_state (rev (aj_file j)) id)).

(** The line of [a] is in the file, unless the file is spoiled. *)
Definition recorded (j : AttemptJournal) (a : Attempt) : Prop :=
  unreadable (aj_file j) \/ exists e, ALine e ∈ aj_file j /\ ae_Payload e = a.

Lemma transition_not_prepared attempts id a :
  validateTransition attempts id a = Ok tt -> past (option_map at_State (attempts !! id)) -> at_State a <> AttemptPrepared.
Proof.
  unfold validateTransition, valid_transition. destruct (attempts !! id) as [cur|]; [|by intros _ (st & ? & _)].
  rewrite !check_ok_iff. intros (_ & Ht & _) _ E. rewrite E in Ht. to_prop. naive_solver.
Qed.

(** Writing the event of [a] keeps, or sets, the state recorded for an ID. *)
Lemma file_state_write j at_ a e l id :
  appendable j at_ a e -> (l = [] \/ l = [AFragment] \/ exists y, l = [y] /\ line_event y = Some e) ->
  at_State a <> AttemptPrepared \/ attempt_id a <> id ->
  unreadable (aj_file j) \/ past (file_state (rev (aj_file j)) id) ->
  unreadable (append_line (aj_file j) l) \/ past (file_state (rev (append_line (aj_file j) l)) id).
Proof.
  intros Hap Hl Hst [Hu|Hp]; [left; by apply append_line_unreadable|].
  destruct (append_line_cases (aj_file j) l) as [E|]; [rewrite E|by left].
  destruct Hl as [->|[->|(y & -> & Ey)]].
  - rewrite app_nil_r. by right.
  - left. unfold unreadable. set_solver.
  - right. rewrite rev_app_distr. cbn [rev app file_state]. rewrite Ey.
    destruct (appendable_event _ _ _ _ Hap) as (-> & -> & _).
    destruct (bool_decide_reflect (attempt_id a = id)) as [Eid|]; [|done]. exists (at_State a). naive_solver.
Qed.

Lemma residue_shape e remains :
  residue_lines e remains = [] \/ residue_lines e remains = [AFragment] \/
  exists y, residue_lines e remains = [y] /\ line_event y = Some e.
Proof. destruct remains; cbn; eauto 6. Qed.

Lemma append_keeps_past j ctx io at_ a j' r id :
  Attempt_Append j ctx io at_ a = (j', r) -> past_prepared j id -> past_prepared j' id.
Proof.
  intros Ha [Hm Hf]. apply Attempt_Append_cases in Ha as [[-> _]|[(e & Hap & _ & ->)|(e & m & remains & _ & Hap & _ & ->)]]; [done|..].
  all: pose proof Hap as (_ & _ & _ & _ & _ & Ht & _).
  all: assert (Hst : at_State a <> AttemptPrepared \/ attempt_id a <> id)
    by (destruct (decide (attempt_id a = id)) as [<-|]; [left; by eapply transition_not_prepared|by right]).
  - split; cbn [appended aj_attempts aj_file].
    + destruct (decide (attempt_id a = id)) as [E|Hne]; [|by rewrite lookup_insert_ne].
      rewrite <-E, lookup_insert_eq. exists (at_State a). naive_solver.
    + eapply file_state_write; [done| |done|done]. right; right. by exists (ALine e).
  - split; [done|]. cbn [attempt_fault aj_file]. eapply file_state_write; [done|apply residue_shape|done|done].
Qed.

Lemma append_keeps_recorded j ctx io at_ a j' r b :
  Attempt_Append j ctx io at_ a = (j', r) -> recorded j b -> recorded j' b.
Proof.
  intros Ha [Hu|(e0 & Hin & Hp)]; apply Attempt_Append_cases in Ha as
      [[-> _]|[(e & Hap & _ & ->)|(e & m & remains & _ & Hap & _ & ->)]];
    cbn [appended attempt_fault aj_file]; unfold recorded; cbn [aj_file appended attempt_fault];
    try (left; by apply append_line_unreadable); try (by left);
    right; exists e0; split; try done; by apply append_line_keeps.
Qed.

(** The transition that precedes a broadcast. *)
Lemma append_broadcasting j ctx io at_ a j' :
  Attempt_Append j ctx io at_ a = (j', Ok a) -> at_State a = AttemptBroadcasting ->
  option_map at_State (aj_attempts j !! attempt_id a) = Some AttemptPrepared /\
  past_prepared j' (attempt_id a) /\ recorded j' a /\ attempt_validate a = Ok tt.
Proof.
  intros (e & Hap & _ & ->)%Attempt_Append_ok Hs. pose proof Hap as (Hv & _ & _ & _ & _ & Ht & _).
  destruct (appendable_event _ _ _ _ Hap) as (Ei & Est & Ep). split_and!; [| | |done].
  - unfold validateTransition, valid_transition in Ht. rewrite Hs in Ht.
    destruct (aj_attempts j !! attempt_id a) as [cur|]; rewrite ?check_ok_iff in Ht; to_prop; cbn [option_map]; [|naive_solver].
    f_equal. naive_solver.
  - split; cbn [appended aj_attempts aj_file].
    + rewrite lookup_insert_eq. exists (at_State a). split; [done|]. by rewrite Hs.
    + destruct (append_line_cases (aj_file j) [ALine e]) as [->|]; [right|by left].
      rewrite rev_app_distr. cbn [rev app file_state line_event]. rewrite Ei, Est, bool_decide_eq_true_2 by done.
      exists (at_State a). by rewrite Hs.
  - unfold recorded. cbn [appended aj_file].
    destruct (append_line_cases (aj_file j) [ALine e]) as [->|]; [right|by left]. exists e. split; [set_solver|done].
Qed.

(** ** The invariant *)

Context {N E : Type} `{NonceStore N E}.
Variable x : Executor.
Implicit Types (w : world N).

Definition broadcast_ids w : list string := map (fun p => attempt_id p.2) (w_broadcasts w).

Record safe w : Prop := {
  sf_once : NoDup (broadcast_ids w);
  sf_past : forall id, id ∈ broadcast_ids w -> past_prepared (w_journal w) id;
  sf_checked : forall gates a, (gates, a) ∈ w_broadcasts w ->
    CheckExecution (x_verifier x) gates (at_Authorization a) = Ok tt /\
    attempt_validate a = Ok tt /\ at_State a = AttemptBroadcasting /\ recorded (w_journal w) a;
}.

Lemma safe_append w ctx io at_ a w' r : safe w -> append w ctx io at_ a = (w', r) -> safe w'.
Proof.
  intros [Ho Hp Hc] Ha. unfold append in Ha.
  destruct (Attempt_Append (w_journal w) ctx io at_ a) as [j' r'] eqn:Ej. injection Ha as <- <-.
  split; cbn [with_journal w_broadcasts w_journal broadcast_ids]; unfold broadcast_ids in *; cbn [with_journal w_broadcasts].
  - done.
  - intros id Hid%Hp. by eapply append_keeps_past.
  - intros gates b Hb. destruct (Hc gates b Hb) as (? & ? & ? & ?). split_and!; try done. by eapply append_keeps_recorded.
Qed.

Lemma safe_micro w w' : safe w -> micro x w w' -> safe w'.
Proof.
  intros Hs Hm. destruct Hm as [w ctx io at_ a w' r _ _ _ Ha|w ctx io at_ gates a w' Hck Hst Ha|w ctx io at_ a w' r _ _ Ha|w r|w n].
  - by eapply safe_append.
  - pose proof (safe_append _ _ _ _ _ _ _ Hs Ha) as [Ho Hp Hc]. unfold append in Ha.
    destruct (Attempt_Append (w_journal w) ctx io at_ a) as [j' r'] eqn:Ej. injection Ha as <- ->.
    destruct (append_broadcasting _ _ _ _ _ _ Ej Hst) as (Hprev & Hpast & Hrec & Hval).
    unfold broadcast_ids in *. cbn [with_journal w_broadcasts w_journal] in *.
    split; unfold broadcast_ids; cbn [log_broadcast with_journal w_broadcasts w_journal]; rewrite ?map_app; cbn [map snd].
    + apply NoDup_app. split_and!; [done| |by apply NoDup_singleton].
      intros id Hid Heq. apply list_elem_of_singleton in Heq as ->.
      destruct (sf_past _ Hs _ Hid) as [(st & Est & Hne) _]. congruence.
    + intros id [Hid|Hid]%elem_of_app; [by apply Hp|]. by apply list_elem_of_singleton in Hid as ->.
    + intros g b [Hb|Hb]%elem_of_app; [by apply Hc|]. apply list_elem_of_singleton in Hb. simplify_eq. done.
  - by eapply safe_append.
  - destruct Hs as [Ho Hp Hc]. by split.
  - destruct Hs as [Ho Hp Hc]. by split.
Qed.

Lemma safe_restart w base n j :
  safe w -> OpenAttemptJournal "attempts" None base (aj_file (w_journal w)) = Ok j ->
  safe (with_nonces (with_journal w j) n).
Proof.
  intros [Ho Hp Hc] Hj. unfold OpenAttemptJournal in Hj. rewrite bool_decide_eq_false_2 in Hj by done. cbn [negb] in Hj.
  destruct (fold_res _ _ _) as [st|] eqn:Ef; [|done]. injection Hj as <-.
  destruct (replay_states _ _ _ Ef) as [Hu Hst].
  split; unfold broadcast_ids in *; cbn [with_nonces with_journal w_broadcasts w_journal].
  - done.
  - intros id Hid. destruct (Hp id Hid) as [_ [?|Hpast]]; [done|]. split; cbn [aj_attempts aj_file]; [|by right].
    by rewrite Hst.
  - intros gates a Hin. destruct (Hc gates a Hin) as (? & ? & ? & [?|Hr]); [done|]. split_and!; try done. by right.
Qed.

Lemma safe_fresh nonces : safe (fresh_world nonces).
Proof. split; [constructor|..]; intros; set_solver. Qed.
End Safety.

(** ** Exposure *)

Section Exposure.
Context `{Unicode} `{Crypto}.

(** The amount each authorization holds: in memory, and as a later process
    reads it from the file. *)
Definition held (attempts : gmap string Attempt) : gmap string Z := attempt_amount <$> attempts.

Definition decoded_amount (a : Attempt) : Z :=
  default 0 (SetString10 (utf8_coerce (a_AmountAtomic (az_Authorization (at_Authorized a))))).

Fixpoint file_held (rev_file : list attempt_line) : gmap string Z :=
  match rev_file with
  | [] => ∅
  | l :: rest =>
      match line_event l with
      | Some e => <[utf8_coerce (ae_AuthorizationID e) := decoded_amount (ae_Payload e)]> (file_held rest)
      | None => file_held rest
      end
  end.

Definition total (m : gmap string Z) : Z := map_sum (fun _ v => v) m.

Lemma replay_held base file : forall st,
  fold_res (replay_attempt base) empty_replay file = Ok st -> held (rp_attempts st) = file_held (rev file).
Proof.
  induction file as [|l file IH] using rev_ind; intros st.
  { intros [= <-]. apply fmap_empty. }
  rewrite fold_res_snoc, try_ok_iff. intros (st1 & H1%IH & (e & El & _ & Ha)%replay_attempt_ok).
  apply attempt_apply_ok in Ha as (_ & _ & _ & ->). rewrite rev_app_distr. cbn [rev app file_held]. rewrite El, <-H1.
  unfold held. by rewrite fmap_insert.
Qed.

Lemma dec_string_eq t n : 0 <= n -> dec_string t = dec_string n -> t = n.
Proof.
  intros Hn E. destruct (Z.lt_ge_cases t 0) as [Ht|Ht]; [|by apply dec_string_inj].
  pose proof (dec_string_all n Hn) as Hd. rewrite <-E in Hd. unfold dec_string in Hd.
  destruct (Z.ltb_spec t 0); [|lia]. done.
Qed.

Lemma fold_amounts l : forall t, fold_left (fun t a => t + attempt_amount a) l t = t + foldr Z.add 0 (map attempt_amount l).
Proof. induction l as [|a l IH]; intros t; cbn; [lia|]. rewrite IH. lia. Qed.

Lemma sum_perm (l l' : list Z) : l ≡ₚ l' -> foldr Z.add 0 l = foldr Z.add 0 l'.
Proof. induction 1; cbn; lia. Qed.

Lemma map_sum_list (m : gmap string Attempt) :
  foldr Z.add 0 (map attempt_amount (map snd (map_to_list m))) = map_sum (fun _ a => attempt_amount a) m.
Proof.
  induction m as [|k a m Hk IH] using map_ind; [by rewrite map_to_list_empty, map_sum_empty|].
  rewrite map_sum_insert_new, <-IH by done.
  transitivity (foldr Z.add 0 (map attempt_amount (map snd ((k, a) :: map_to_list m)))); [|done].
  apply sum_perm. apply (fmap_Permutation attempt_amount), (fmap_Permutation snd). by apply map_to_list_insert.
Qed.

(** The sum over the sorted list is the total over the map. *)
Lemma pilotOutstanding_total j : pilotOutstanding j = dec_string (total (held (aj_attempts j))).
Proof.
  unfold pilotOutstanding. rewrite fold_amounts, Z.add_0_l. f_equal. unfold Attempts.
  transitivity (map_sum (fun _ a => attempt_amount a) (aj_attempts j)).
  - rewrite <-map_sum_list. apply sum_perm, (fmap_Permutation attempt_amount), merge_sort_Permutation.
  - unfold total, held, map_sum. by rewrite map_fold_fmap.
Qed.

Lemma validated_amount a : attempt_validate a = Ok tt -> decoded_amount a = attempt_amount a.
Proof.
  unfold attempt_validate. rewrite try_unit_iff, check_ok_iff. intros (Hv & He & _).
  unfold decoded_amount, attempt_amount. rewrite utf8_coerce_valid; [done|].
  unfold Authorization_eqb in He. to_prop. destruct_and!.
  assert (a_AmountAtomic (az_Authorization (at_Authorized a)) = a_AmountAtomic (s_Authorization (at_Authorization a))) as -> by done.
  unfold Authorization_Validate in Hv. rewrite !check_ok_iff, try_unit_iff, !check_ok_iff, try_unit_iff in Hv.
  destruct Hv as (_ & _ & _ & _ & _ & _ & _ & Ha & _). apply validateAtomicAmount_iff in Ha as (n & _ & _ & Hd & _).
  by apply digits_utf8.
Qed.

Lemma same_identity_amount cur next : sameAttemptIdentity cur next = true -> attempt_amount next = attempt_amount cur.
Proof.
  unfold sameAttemptIdentity, Authorized_eqb, Authorization_eqb, attempt_amount. intros Hs. to_prop. destruct_and!.
  match goal with E : a_AmountAtomic (az_Authorization (at_Authorized cur)) = _ |- _ => by rewrite E end.
Qed.

(** Writing [a] leaves the total unchanged or adds its amount. *)
Lemma total_write j at_ a e max :
  appendable j at_ a e -> total (held (aj_attempts j)) <= max ->
  (aj_attempts j !! attempt_id a = None -> total (held (aj_attempts j)) + attempt_amount a <= max) ->
  total (<[attempt_id a := attempt_amount a]> (held (aj_attempts j))) <= max.
Proof.
  intros (_ & _ & _ & _ & _ & Ht & _) Hmax Hnew. unfold total, held in *. unfold validateTransition in Ht.
  destruct (aj_attempts j !! attempt_id a) as [cur|] eqn:Ec.
  - rewrite !check_ok_iff in Ht. destruct Ht as (Hs%same_identity_amount & _ & _).
    rewrite insert_id; [done|]. rewrite lookup_fmap, Ec. cbn. by rewrite Hs.
  - rewrite map_sum_insert_new by (by rewrite lookup_fmap, Ec). specialize (Hnew eq_refl). lia.
Qed.

Context {N E : Type} `{NonceStore N E}.
Variables (x : Executor) (limits : Limits) (perAction outstanding : Z).
Hypothesis Hlimits : x_pilotLimits x = Some limits /\ limits_ok limits perAction outstanding.
Implicit Types (w : world N).

Record exposed (j : AttemptJournal) : Prop := {
  xp_memory : total (held (aj_attempts j)) <= outstanding;
  xp_file : unreadable (aj_file j) \/
    total (file_held (rev (aj_file j))) <= outstanding /\
    (aj_fault j = None -> file_held (rev (aj_file j)) = held (aj_attempts j));
}.

Lemma exposed_append j ctx io at_ a j' r :
  exposed j -> Attempt_Append j ctx io at_ a = (j', r) ->
  (at_State a = AttemptPrepared -> aj_attempts j !! attempt_id a = None ->
     total (held (aj_attempts j)) + attempt_amount a <= outstanding) ->
  exposed j'.
Proof.
  intros [Hm Hf] Ha Hroom.
  assert (Hgo : forall e y, appendable j at_ a e -> line_event y = Some e ->
    total (<[attempt_id a := attempt_amount a]> (held (aj_attempts j))) <= outstanding /\
    (unreadable (append_line (aj_file j) [y]) \/
     file_held (rev (append_line (aj_file j) [y])) = <[attempt_id a := attempt_amount a]> (held (aj_attempts j)))).
  { intros e y Hap Ey. pose proof Hap as (Hv & _ & _ & Hfault & _ & Ht & _). split.
    - eapply total_write; [done|done|]. intros Hn. apply Hroom; [|done].
      unfold validateTransition in Ht. rewrite Hn, check_ok_iff in Ht. destruct Ht as [Ht _]. by to_prop.
    - destruct (append_line_cases (aj_file j) [y]) as [->|]; [|by left].
      destruct Hf as [Hu|[_ Heq]]; [left; unfold unreadable in *; set_solver|right].
      rewrite rev_app_distr. cbn [rev app file_held]. rewrite Ey, (Heq Hfault).
      destruct (appendable_event _ _ _ _ Hap) as (-> & _ & ->). by rewrite validated_amount. }
  apply Attempt_Append_cases in Ha as [[-> _]|[(e & Hap & _ & ->)|(e & m & remains & _ & Hap & _ & ->)]]; [done|..].
  - destruct (Hgo e (ALine e) Hap eq_refl) as [Ht Hfile].
    assert (Hh : held (<[attempt_id a := a]> (aj_attempts j)) = <[attempt_id a := attempt_amount a]> (held (aj_attempts j)))
      by apply fmap_insert.
    split; cbn [appended aj_attempts aj_file aj_fault]; rewrite Hh; [done|].
    destruct Hfile as [?|E0]; [by left|right]. rewrite E0. done.
  - split; cbn [attempt_fault aj_attempts aj_file aj_fault]; [done|].
    destruct (residue_shape e remains) as [->|[->|(y & -> & Ey)]].
    + destruct Hf as [Hu|[Ht _]]; [left; by apply append_line_unreadable|].
      destruct (append_line_cases (aj_file j) []) as [->|]; [|by left]. rewrite app_nil_r. right. done.
    + left. destruct (append_line_cases (aj_file j) [AFragment]) as [->|]; [|done]. unfold unreadable. set_solver.
    + destruct (Hgo e y Hap Ey) as [Ht [?|E0]]; [by left|right]. by rewrite E0.
Qed.

Lemma exposed_micro w w' : exposed (w_journal w) -> micro x w w' -> exposed (w_journal w').
Proof.
  assert (Hap : forall w ctx io at_ a w' r, append w ctx io at_ a = (w', r) ->
    exists r', Attempt_Append (w_journal w) ctx io at_ a = (w_journal w', r')).
  { intros w0 ctx io at_ a w1 r. unfold append. destruct (Attempt_Append _ _ _ _ _) as [j r0]. intros [= <- _]. by exists r0. }
  intros Hx Hm. destruct Hm as [w ctx io at_ a w' r Hs Hn Hp Ha|w ctx io at_ gates a w' _ Hs Ha|w ctx io at_ a w' r Hs _ Ha|w r|w n];
    [..|done|done]; apply Hap in Ha as [r' Ha]; eapply exposed_append; try exact Ha; try done; intros Hs'.
  - intros _. destruct Hlimits as [El Hok]. rewrite El in Hp.
    apply (pilot_Check_iff _ perAction outstanding) in Hp as (v & t & Hv & Ht & _ & Hle); [|done].
    rewrite pilotOutstanding_total in Ht. destruct Ht as [Et Ht]. apply dec_string_eq in Et; [|lia].
    unfold attempt_amount. rewrite (amount_value _ _ Hv). cbn. lia.
  - rewrite Hs in Hs'. done.
Qed.

Lemma exposed_restart w base n j :
  exposed (w_journal w) -> OpenAttemptJournal "attempts" None base (aj_file (w_journal w)) = Ok j ->
  exposed (w_journal (with_nonces (with_journal w j) n)).
Proof.
  intros [_ Hf] Hj. unfold OpenAttemptJournal in Hj. rewrite bool_decide_eq_false_2 in Hj by done. cbn [negb] in Hj.
  destruct (fold_res _ _ _) as [st|] eqn:Ef; [|done]. injection Hj as <-.
  destruct (replay_states _ _ _ Ef) as [Hu _]. pose proof (replay_held _ _ _ Ef) as Hh.
  destruct Hf as [|[Ht _]]; [done|]. split; cbn [with_nonces with_journal w_journal aj_attempts aj_file aj_fault]; rewrite Hh; [done|]. by right.
Qed.

Lemma exposed_fresh nonces : exposed (w_journal (fresh_world (N:=N) nonces)).
Proof.
  destruct Hlimits as [_ [_ _ Ho _]].
  split; cbn; [|right; split; [|done]]; unfold total, held; rewrite ?fmap_empty, map_sum_empty; lia.
Qed.
End Exposure.

(** ** Properties *)

Section ExecutorProperties.
Context `{Unicode} `{Crypto} {N E : Type} `{NonceStore N E}.

(** C4: over any sequence of executions, resumptions and restarts, with any
    answers of the clock, the gates, the wallet, the registration sink, the nonce
    store and the file system, the wallet is asked to broadcast at most once per
    authorization. *)
Theorem broadcast_at_most_once (x : Executor) (nonces : N) ops w :
  signer_run x nonces ops = Ok w -> NoDup (broadcast_ids w).
Proof.
  intros Hr. apply (sf_once x w). revert Hr. apply (run_invariant x (safe x)).
  - apply safe_fresh.
  - apply safe_micro.
  - intros w' base n j. apply safe_restart.
Qed.

(** C5: whatever the wallet was asked to broadcast had passed every check of the
    verifier at that moment, is the validated attempt with the exact bytes of its
    hash, and had its BROADCASTING line in the file, which is still there unless
    the file no longer opens at all. *)
Theorem broadcast_only_authorized (x : Executor) (nonces : N) ops w gates a :
  signer_run x nonces ops = Ok w -> (gates, a) ∈ w_broadcasts w ->
  CheckExecution (x_verifier x) gates (at_Authorization a) = Ok tt /\
  pt_TransactionHash (at_Prepared a) = "0x" +:+ hex_encode (keccak256 (pt_RawTransaction (at_Prepared a))) /\
  at_State a = AttemptBroadcasting /\ recorded (w_journal w) a.
Proof.
  intros Hr Hin. assert (Hs : safe x w).
  { revert Hr. apply (run_invariant x (safe x)); [apply safe_fresh|apply safe_micro|].
    intros w' base n j. apply safe_restart. }
  destruct (sf_checked x w Hs gates a Hin) as (Hc & Hv & Hst & Hrec). split_and!; try done.
  unfold attempt_validate in Hv. rewrite try_unit_iff, check_ok_iff in Hv. destruct Hv as (_ & _ & Hv).
  destruct (Authorization_Digest _); [|done]. rewrite !check_ok_iff, try_unit_iff in Hv. destruct Hv as (_ & _ & Hp & _).
  unfold prepared_validate in Hp. rewrite !check_ok_iff, try_ok_iff in Hp. destruct Hp as (_ & _ & ? & _ & Hp).
  rewrite check_ok_iff in Hp. destruct Hp as [Hp _]. by to_prop.
Qed.

(** the amounts of all durable attempts together never exceed the
    outstanding limit, also after restarts and failed writes. *)
Theorem signer_exposure_bounded (x : Executor) (limits : Limits) perAction outstanding (nonces : N) ops w :
  x_pilotLimits x = Some limits -> limits_ok limits perAction outstanding ->
  signer_run x nonces ops = Ok w -> total (held (aj_attempts (w_journal w))) <= outstanding.
Proof.
  intros Hx Hl Hr. apply (xp_memory outstanding). revert Hr.
  apply (run_invariant x (fun w => exposed outstanding (w_journal w))).
  - by eapply exposed_fresh.
  - intros w1 w2. by eapply exposed_micro.
  - intros w1 base n j. apply exposed_restart.
Qed.
End ExecutorProperties.

(** ** Witnesses *)

Section ExecutorWitnesses.
#[local] Existing Instance ToyCrypto.
#[local] Existing Instance ToyCryptoLaws.
#[local] Existing Instance ToyUnicode.

Definition demo_executor : Executor :=
  match NewExecutor (fun _ => demo_key) true demo_verifier "signer_1" demo_key (Some demo_limits) with
  | Ok x => x
  | Err _ => mkExecutor demo_verifier "" "" "" None
  end.

(** Everything answers well, except that the line of the broadcast's outcome is
    not written. *)
Definition demo_advance (outcomeIO : attempt_io) : advance_env := {|
  xe_ctx := None; xe_gates := demo_env; xe_broadcastAt := demo_now + Second; xe_broadcastingAt := demo_now + Second;
  xe_broadcastingIO := AWritten; xe_broadcast := None; xe_outcomeAt := demo_now + Second; xe_outcomeIO := outcomeIO;
  xe_register := None; xe_registeredAt := demo_now + 2 * Second; xe_registrationAt := demo_now + 2 * Second;
  xe_registrationIO := AWritten |}.

Definition demo_direct : Authorization := {|
  a_Version := Envelope_Version; a_AuthorizationID := "auth_2"; a_OrganizationID := "org_1";
  a_CustomerID := "cust_1"; a_AgentID := "agent_1"; a_TaskID := "task_1"; a_ActionID := "act_2";
  a_Rail := RailDirect; a_ChainID := 8453; a_Recipient := demo_provider; a_Asset := demo_asset;
  a_AmountAtomic := "1000"; a_Resource := "https://seller.example/quote";
  a_PolicyVersion := "policy_1"; a_Nonce := demo_hash "6";
  a_IssuedAt := 1700000000; a_ExpiresAt := 1700000300; a_Escrow := None |}.

Definition demo_direct_signed : SignedAuthorization :=
  match Sign demo_direct "key_1" demo_key with
  | Ok s => s
  | Err _ => {| s_Authorization := demo_direct; s_KeyID := ""; s_Signature := "" |}
  end.

Definition demo_execute : execute_env claim_io := {|
  ee_gates := demo_env; ee_claimedAt := demo_now; ee_claimIO := ClaimDurable;
  ee_prepare := Ok {| pt_RawTransaction := "raw"; pt_TransactionHash := "0x" +:+ hex_encode (keccak256 "raw"); pt_Sender := demo_buyer |};
  ee_preparedAt := demo_now; ee_appendAt := demo_now; ee_appendIO := AWritten;
  ee_advance := demo_advance (AWriteFails "killed" ANothing) |}.

(** The process dies right after the broadcast; the next one resumes, and the
    authorization is presented again. *)
Definition demo_ops : list (signer_op FileNonceStore claim_io) :=
  [XExecute demo_execute demo_direct_signed; XRestart 100 fresh_store;
   XResume (fun _ => demo_advance AWritten); XExecute demo_execute demo_direct_signed].

Definition demo_world : world FileNonceStore :=
  match signer_run demo_executor fresh_store demo_ops with
  | Ok w => w
  | Err _ => fresh_world fresh_store
  end.

Definition demo_states : list AttemptState := map at_State (Attempts (w_journal demo_world)).

Lemma broadcast_at_most_once_witness :
  length (broadcast_ids demo_world) = 1%nat /\ demo_states = [AttemptRegistered] /\ NoDup (broadcast_ids demo_world).
Proof.
  split; [vm_compute; reflexivity|]. split; [vm_compute; reflexivity|].
  apply (broadcast_at_most_once demo_executor fresh_store demo_ops). unfold demo_world.
  assert (E : is_ok (signer_run demo_executor fresh_store demo_ops) = true) by (vm_compute; reflexivity).
  destruct (signer_run demo_executor fresh_store demo_ops); [reflexivity|discriminate E].
Defined.

Lemma signer_exposure_bounded_witness :
  total (held (aj_attempts (w_journal demo_world))) = 1000 /\
  total (held (aj_attempts (w_journal demo_world))) <= 10000000.
Proof.
  split; [vm_compute; reflexivity|].
  apply (signer_exposure_bounded demo_executor demo_limits 1000000 10000000 fresh_store demo_ops).
  - vm_compute. reflexivity.
  - split; cbn; try reflexivity; lia.
  - unfold demo_world.
    assert (E : is_ok (signer_run demo_executor fresh_store demo_ops) = true) by (vm_compute; reflexivity).
    destruct (signer_run demo_executor fresh_store demo_ops); [reflexivity|discriminate E].
Defined.

Lemma broadcast_only_authorized_witness :
  exists gates a, CheckExecution demo_verifier gates (at_Authorization a) = Ok tt /\
  pt_TransactionHash (at_Prepared a) = "0x" +:+ hex_encode (keccak256 (pt_RawTransaction (at_Prepared a))) /\
  at_State a = AttemptBroadcasting /\ recorded (w_journal demo_world) a.
Proof.
  assert (El : length (w_broadcasts demo_world) = 1%nat) by (vm_compute; reflexivity). revert El.
  destruct (w_broadcasts demo_world) as [|[gates a] rest] eqn:Eb; [discriminate|]. intros _.
  exists gates, a.
  apply (broadcast_only_authorized demo_executor fresh_store demo_ops demo_world gates a).
  - unfold demo_world.
    assert (E : is_ok (signer_run demo_executor fresh_store demo_ops) = true) by (vm_compute; reflexivity).
    destruct (signer_run demo_executor fresh_store demo_ops); [reflexivity|discriminate E].
  - rewrite Eb. left.
Defined.
End ExecutorWitnesses.
