(* ===== verification/Recon.v ===== *)
(** * Reconciliation: data, ledger and evidence
    ([internal/reconciliation/types.go] and the stateless parts of [engine.go])

    The chain-health states, the executions that were broadcast, the evidence of
    independent observers, and the double-entry ledger with its validation. *)
From stdpp Require Import base gmap strings list fin_maps sorting.
From Stdlib Require Import ZArith Lia Ascii.
From S2P Require Import Prelude GoText GoJSON Crypto Envelope Receipt SignerVerifier AttemptJournal.

Open Scope Z_scope.

(** ** Names *)

(** [type ChainState string] *)
Abbreviation ChainState := string (only parsing).
Definition StateHealthy : ChainState := "HEALTHY".
Definition StateSuspectedStall : ChainState := "SUSPECTED_STALL".
Definition StateHalted : ChainState := "HALTED".
Definition StateRecovering : ChainState := "RECOVERING".

(** [type ExecutionState string] *)
Abbreviation ExecutionState := string (only parsing).
Definition ExecutionBroadcast : ExecutionState := "BROADCAST".
Definition ExecutionPendingChainRecovery : ExecutionState := "PENDING_CHAIN_RECOVERY".
Definition ExecutionSettled : ExecutionState := "SETTLED".
Definition ExecutionReverted : ExecutionState := "REVERTED".
Definition ExecutionDropped : ExecutionState := "DROPPED".
Definition ExecutionQuarantined : ExecutionState := "QUARANTINED".

(** [type LedgerKind string] *)
Abbreviation LedgerKind := string (only parsing).
Definition LedgerReservation : LedgerKind := "RESERVATION".
Definition LedgerSettlement : LedgerKind := "SETTLEMENT".
Definition LedgerRefund : LedgerKind := "REFUND".
Definition LedgerFunding : LedgerKind := "FUNDING".
Definition LedgerCorrection : LedgerKind := "CORRECTION".
Definition LedgerSuspense : LedgerKind := "SUSPENSE".

Definition ErrChainUnavailable : error := "Base canonical state is not healthy".
Definition ErrConflict : error := "idempotency conflict".
Definition ErrUnknownExecution : error := "unknown execution".
Definition ErrUnsafeFinality : error := "canonical finality evidence is insufficient".
Definition ErrResumeBlocked : error := "autonomous resume is blocked".
Definition ErrInvalidOperator : error := "operator is invalid".
Definition ErrInvalidHaltReason : error := "halt reason is invalid".

(** ** Configuration *)

Record ReconConfig := mkReconConfig {
  cf_ChainID : Z;
  cf_EscrowContract : string;
  cf_EscrowAsset : string;
  cf_EscrowReleaseWindow : Z;
  cf_ObserverQuorum : Z;
  cf_HaltConfirmations : Z;
  cf_RecoveryObservations : Z;
  cf_MinConfirmations : Z;
  cf_ReorgLookback : Z;
  cf_MaxHeadSkew : Z;
  cf_StallThreshold : duration;
  cf_ObservationMaxAge : duration;
  cf_MaxFutureClockSkew : duration;
}.

Definition or_default (v d : Z) : Z := if v =? 0 then d else v.

(** [defaults] *)
Definition config_defaults (c : ReconConfig) : res ReconConfig :=
  check (cf_ChainID c =? 8453) || (cf_ChainID c =? 84532)
    else "reconciliation supports Base mainnet or Base Sepolia only" ;;
  let present := [negb (bool_decide (cf_EscrowContract c = "")); negb (bool_decide (cf_EscrowAsset c = ""));
                  negb (cf_EscrowReleaseWindow c =? 0)] in
  let escrowFields := length (filter (fun b => b = true) present) in
  check Nat.eqb escrowFields 0 || Nat.eqb escrowFields 3
    else "escrow deployment contract, asset, and release window must be configured together" ;;
  check negb (Nat.eqb escrowFields 3 &&
      (negb (address_pattern (cf_EscrowContract c)) || negb (address_pattern (cf_EscrowAsset c)) ||
       bool_decide (cf_EscrowContract c = cf_EscrowAsset c) || (30 * 24 * 60 * 60 <? cf_EscrowReleaseWindow c)))
    else "configured escrow deployment tuple is invalid" ;;
  let c := {|
    cf_ChainID := cf_ChainID c; cf_EscrowContract := cf_EscrowContract c; cf_EscrowAsset := cf_EscrowAsset c;
    cf_EscrowReleaseWindow := cf_EscrowReleaseWindow c;
    cf_ObserverQuorum := or_default (cf_ObserverQuorum c) 2;
    cf_HaltConfirmations := or_default (cf_HaltConfirmations c) 2;
    cf_RecoveryObservations := or_default (cf_RecoveryObservations c) 3;
    cf_MinConfirmations := or_default (cf_MinConfirmations c) 2;
    cf_ReorgLookback := or_default (cf_ReorgLookback c) 12;
    cf_MaxHeadSkew := or_default (cf_MaxHeadSkew c) 2;
    cf_StallThreshold := or_default (cf_StallThreshold c) (2 * Minute);
    cf_ObservationMaxAge := or_default (cf_ObservationMaxAge c) (30 * Second);
    cf_MaxFutureClockSkew := or_default (cf_MaxFutureClockSkew c) (15 * Second) |} in
  check (2 <=? cf_ObserverQuorum c) && (cf_ObserverQuorum c <=? 5) && (1 <=? cf_HaltConfirmations c) &&
        (1 <=? cf_RecoveryObservations c)
    else "observer and transition thresholds are invalid" ;;
  check (0 <? cf_StallThreshold c) && (0 <? cf_ObservationMaxAge c) && (0 <=? cf_MaxFutureClockSkew c)
    else "observation durations are invalid" ;;
  Ok c.

(** ** Records *)

Record Checkpoint := mkCheckpoint {
  ck_BlockNumber : Z;
  ck_BlockHash : string;
  ck_BlockTime : time;
  ck_ObservedAt : time;
  ck_Cursor : Z;
}.

Record ChainStatus := mkChainStatus {
  cs_ChainID : Z;
  cs_State : ChainState;
  cs_Reason : string;
  cs_LastTrusted : option Checkpoint;
  cs_RequiredObserverQuorum : Z;
  cs_RespondingObservers : Z;
  cs_LastObservationAt : time;
  cs_StateChangedAt : time;
  cs_ConsecutiveUnhealthy : Z;
  cs_ConsecutiveRecovery : Z;
  cs_AffectedExecutions : Z;
  cs_ReadyForManualResume : bool;
  cs_AuthorizationsPaused : bool;
  cs_BroadcastsPaused : bool;
  cs_FinalizationPaused : bool;
  cs_RefundRecognitionPaused : bool;
}.

Record ExpectedExecution := mkExpectedExecution {
  ex_ExecutionID : string;
  ex_OrganizationID : string;
  ex_AgentID : string;
  ex_TaskID : string;
  ex_IntentDigest : string;
  ex_TransactionHash : string;
  ex_ChainID : Z;
  ex_Sender : string;
  ex_Asset : string;
  ex_Recipient : string;
  ex_AmountAtomic : string;
}.

Record ReceiptEvidence := mkReceiptEvidence {
  rv_Provider : string;
  rv_ChainID : Z;
  rv_TransactionHash : string;
  rv_BlockNumber : Z;
  rv_BlockHash : string;
  rv_ConfirmedHead : Z;
  rv_Success : bool;
  rv_Sender : string;
  rv_Asset : string;
  rv_Recipient : string;
  rv_AmountAtomic : string;
}.

Record ReorgEvidence := mkReorgEvidence {
  rg_Provider : string;
  rg_ChainID : Z;
  rg_TransactionHash : string;
  rg_OriginalBlockNumber : Z;
  rg_OriginalBlockHash : string;
  rg_CanonicalBlockHash : string;
  rg_ObservedHead : Z;
}.

(** [BroadcastAttestation]; the claim of an x402 settlement carries the same
    proof and the facilitator's statement. *)
Record BroadcastAttestation := mkBroadcastAttestation {
  ba_SignedReceipt : SignedReceipt;
  ba_Authorization : Authorization;
  ba_PublicKeyB64 : string;
}.

Record X402SettlementClaim := mkX402SettlementClaim {
  xc_Authorization : Authorization;
  xc_SignedReceipt : SignedReceipt;
  xc_PublicKeyB64 : string;
  xc_Success : bool;
  xc_Payer : string;
  xc_Transaction : string;
  xc_Network : string;
  xc_Amount : string;
}.

(** [type TransactionRecoveryOutcome string] *)
Abbreviation TransactionRecoveryOutcome := string (only parsing).
Definition RecoveryOriginalPending : TransactionRecoveryOutcome := "ORIGINAL_PENDING".
Definition RecoveryDropped : TransactionRecoveryOutcome := "DROPPED_PROVEN".
Definition RecoveryExpectedReplacement : TransactionRecoveryOutcome := "EXPECTED_REPLACEMENT".
Definition RecoveryUnknownTransfer : TransactionRecoveryOutcome := "UNKNOWN_TRANSFER".

Record TransactionRecovery := mkTransactionRecovery {
  tr_Nonce : Z;
  tr_ScanFromBlock : Z;
  tr_Outcome : TransactionRecoveryOutcome;
  tr_ThroughBlock : Z;
  tr_ThroughBlockHash : string;
  tr_AccountNonce : Z;
  tr_ReplacementTransaction : string;
  tr_ReplacementRecipient : string;
  tr_ReplacementAmountAtomic : string;
  tr_ReplacementBlockNumber : Z;
  tr_ReplacementBlockHash : string;
  tr_EvidenceDigest : string;
  tr_ObservedAt : time;
}.

Record TransactionOutcomeEvidence := mkTransactionOutcomeEvidence {
  to_Provider : string;
  to_ChainID : Z;
  to_OriginalTransactionHash : string;
  to_Outcome : TransactionRecoveryOutcome;
  to_Nonce : Z;
  to_ThroughBlock : Z;
  to_ThroughBlockHash : string;
  to_AccountNonce : Z;
  to_ReplacementTransactionHash : string;
  to_ReplacementRecipient : string;
  to_ReplacementAmountAtomic : string;
  to_ReplacementBlockNumber : Z;
  to_ReplacementBlockHash : string;
}.

Record Execution := mkExecution {
  e_Expected : ExpectedExecution;
  e_State : ExecutionState;
  e_BroadcastAt : time;
  e_BroadcastAttestation : option BroadcastAttestation;
  e_X402SettlementClaim : option X402SettlementClaim;
  e_ResolvedAt : option time;
  e_BlockNumber : Z;
  e_BlockHash : string;
  e_Resolution : string;
  e_LedgerTransactionID : string;
  e_CorrectionTransactionID : string;
  e_ReorgEvidenceDigest : string;
  e_FinalityCheckedAt : option time;
  e_FinalityCheckedHead : Z;
  e_ResolvedTransactionHash : string;
  e_TransactionRecovery : option TransactionRecovery;
  e_RecoveryResolutionActor : string;
}.

Record Posting := mkPosting { po_Account : string; po_AmountAtomic : string }.

Record LedgerTransaction := mkLedgerTransaction {
  lt_TransactionID : string;
  lt_OrganizationID : string;
  lt_Kind : LedgerKind;
  lt_ReferenceID : string;
  lt_ReversesTransactionID : string;
  lt_Postings : list Posting;
  lt_RecordedAt : time;
}.

(** ** Amounts and the ledger *)

Definition positiveInteger (value : string) : res Z := parsePositive value.

Definition signedInteger (value : string) : res Z :=
  check negb (bool_decide (value = "") || bool_decide (value = "0") || bool_decide (value = "-0") ||
              match value with String c _ => code c =? 43 | EmptyString => false end)
    else "posting amount must be a canonical non-zero integer" ;;
  let digits := match value with
                | String c r => if code c =? 45 then r else value
                | EmptyString => value
                end in
  check negb (match digits with EmptyString => true | String c _ => code c =? 48 end)
    else "posting amount must be a canonical non-zero integer" ;;
  check str_all is_digit digits else "posting amount must contain decimal digits only" ;;
  match SetString10 value with
  | None => Err "posting amount exceeds supported range"
  | Some n => check negb (n =? 0) && fits256 n else "posting amount exceeds supported range" ;; Ok n
  end.

Definition ledger_kind_known (k : LedgerKind) : bool :=
  bool_decide (k ∈ [LedgerReservation; LedgerSettlement; LedgerRefund; LedgerFunding; LedgerCorrection; LedgerSuspense]).

Definition ledger_validate (t : LedgerTransaction) : res unit :=
  check forallb identifier_pattern [lt_TransactionID t; lt_OrganizationID t; lt_ReferenceID t]
    else "ledger identifiers are invalid" ;;
  check ledger_kind_known (lt_Kind t) else "ledger kind is invalid" ;;
  check Nat.leb 2 (length (lt_Postings t)) && Nat.leb (length (lt_Postings t)) 32
    else "ledger transaction must contain 2 to 32 postings" ;;
  try sum := fold_res (fun sum p =>
      check identifier_pattern (po_Account p) else "ledger account is invalid" ;;
      try amount := signedInteger (po_AmountAtomic p) in Ok (sum + amount)) 0 (lt_Postings t) in
  check sum =? 0 else "ledger postings do not balance to zero" ;;
  check negb (time_IsZero (lt_RecordedAt t)) else "ledger recordedAt is required" ;;
  Ok tt.

(** [new(big.Int).SetString(p.AmountAtomic, 10)], on validated text. *)
Definition posting_amount (p : Posting) : Z := default 0 (SetString10 (po_AmountAtomic p)).

(** Balances by organization and account. *)
Definition balances : Type := gmap string (gmap string Z).

Definition add_posting (accounts : gmap string Z) (p : Posting) : gmap string Z :=
  <[po_Account p := default 0 (accounts !! po_Account p) + posting_amount p]> accounts.

Definition apply_postings (b : balances) (t : LedgerTransaction) : balances :=
  <[lt_OrganizationID t := fold_left add_posting (lt_Postings t) (default ∅ (b !! lt_OrganizationID t))]> b.

Definition chainDependent (k : LedgerKind) : bool :=
  bool_decide (k = LedgerSettlement) || bool_decide (k = LedgerRefund) || bool_decide (k = LedgerFunding).

(** The postings of a transaction, per account, with a sign. *)
Definition posting_totals (sign : Z) (ps : list Posting) : gmap string Z :=
  fold_left (fun m p => <[po_Account p := default 0 (m !! po_Account p) + sign * posting_amount p]> m) ps ∅.

Definition validateCorrection (ledger : gmap string LedgerTransaction) (t : LedgerTransaction) : res unit :=
  check negb (bool_decide (lt_ReversesTransactionID t = ""))
    else "correction must identify the transaction it reverses" ;;
  match ledger !! lt_ReversesTransactionID t with
  | None => Err "correction target is unknown or belongs to another organization"
  | Some original =>
      check bool_decide (lt_OrganizationID original = lt_OrganizationID t)
        else "correction target is unknown or belongs to another organization" ;;
      check bool_decide (posting_totals (-1) (lt_Postings original) = posting_totals 1 (lt_Postings t))
        else "correction postings must exactly reverse the original transaction" ;;
      Ok tt
  end.

(** ** Executions and their proofs *)

Definition expected_validate (e : ExpectedExecution) (chainID : Z) : res unit :=
  check forallb identifier_pattern [ex_ExecutionID e; ex_OrganizationID e; ex_AgentID e; ex_TaskID e]
    else "identifier is invalid" ;;
  check hash_pattern (ex_IntentDigest e) && hash_pattern (ex_TransactionHash e)
    else "intent or transaction hash is invalid" ;;
  check ex_ChainID e =? chainID else "execution chain does not match the configured Base chain" ;;
  check forallb address_pattern [ex_Sender e; ex_Asset e; ex_Recipient e]
    else "must be a canonical lowercase EVM address" ;;
  try _ := positiveInteger (ex_AmountAtomic e) in
  Ok tt.

Definition json_Expected (e : ExpectedExecution) : string :=
  json_object [
    ("executionId", Some (json_string (ex_ExecutionID e)));
    ("organizationId", Some (json_string (ex_OrganizationID e)));
    ("agentId", Some (json_string (ex_AgentID e)));
    ("taskId", Some (json_string (ex_TaskID e)));
    ("intentDigest", Some (json_string (ex_IntentDigest e)));
    ("transactionHash", Some (json_string (ex_TransactionHash e)));
    ("chainId", Some (json_int (ex_ChainID e)));
    ("sender", Some (json_string (ex_Sender e)));
    ("asset", Some (json_string (ex_Asset e)));
    ("recipient", Some (json_string (ex_Recipient e)));
    ("amountAtomic", Some (json_string (ex_AmountAtomic e)))].

Definition json_Posting (p : Posting) : string :=
  json_object [("account", Some (json_string (po_Account p))); ("amountAtomic", Some (json_string (po_AmountAtomic p)))].

(** [json.Marshal] with its error dropped: empty when the time cannot be written. *)
Definition json_Ledger (t : LedgerTransaction) : string :=
  match json_time (lt_RecordedAt t) with
  | None => ""
  | Some recordedAt =>
      json_object [
        ("transactionId", Some (json_string (lt_TransactionID t)));
        ("organizationId", Some (json_string (lt_OrganizationID t)));
        ("kind", Some (json_string (lt_Kind t)));
        ("referenceId", Some (json_string (lt_ReferenceID t)));
        ("reversesTransactionId", omit_empty (lt_ReversesTransactionID t));
        ("postings", Some (json_array (map json_Posting (lt_Postings t))));
        ("recordedAt", Some recordedAt)]
  end.

Definition json_Claim (c : X402SettlementClaim) : string :=
  json_object [
    ("authorization", Some (json_Authorization (xc_Authorization c)));
    ("signedReceipt", Some (json_SignedReceipt (xc_SignedReceipt c)));
    ("publicKeyB64", Some (json_string (xc_PublicKeyB64 c)));
    ("success", Some (json_bool (xc_Success c)));
    ("payer", Some (json_string (xc_Payer c)));
    ("transaction", Some (json_string (xc_Transaction c)));
    ("network", Some (json_string (xc_Network c)));
    ("amount", omit_empty (xc_Amount c))].

(** [equalJSON] *)
Definition equal_expected (x y : ExpectedExecution) : bool := bool_decide (json_Expected x = json_Expected y).
Definition equal_ledger (x y : LedgerTransaction) : bool := bool_decide (json_Ledger x = json_Ledger y).
Definition equal_claim (x y : X402SettlementClaim) : bool := bool_decide (json_Claim x = json_Claim y).

Section Proofs.
Context `{Crypto}.

(** A canonical base64 Ed25519 public key. *)
Definition public_key_of (b64 : string) : option string :=
  match b64_decode b64 with
  | Some key => if (str_len key =? PublicKeySize) && bool_decide (b64 = b64_encode key) then Some key else None
  | None => None
  end.

(** The receipt's time lies in the window of the authorization. *)
Definition receipt_in_window (r : Receipt) (a : Authorization) : bool :=
  let broadcastAt := time_of_unix (rc_BroadcastAt r) in
  negb (time_before broadcastAt (time_of_unix (a_IssuedAt a))) && time_before broadcastAt (time_of_unix (a_ExpiresAt a)).

(** The receipt names this authorization by ID, digest, organization and customer. *)
Definition receipt_names (r : Receipt) (a : Authorization) (digest : string) : bool :=
  bool_decide (rc_AuthorizationID r = a_AuthorizationID a) &&
  bool_decide (rc_AuthorizationDigest r = "0x" +:+ hex_encode digest) &&
  bool_decide (rc_OrganizationID r = a_OrganizationID a) && bool_decide (rc_CustomerID r = a_CustomerID a).

(** The authorization grants exactly this execution. *)
Definition authorization_matches_expected (a : Authorization) (e : ExpectedExecution) : bool :=
  bool_decide (a_OrganizationID a = ex_OrganizationID e) && bool_decide (a_AgentID a = ex_AgentID e) &&
  bool_decide (a_TaskID a = ex_TaskID e) && (a_ChainID a =? ex_ChainID e) && bool_decide (a_Asset a = ex_Asset e) &&
  bool_decide (a_Recipient a = ex_Recipient e) && bool_decide (a_AmountAtomic a = ex_AmountAtomic e).

Definition attestation_validate (b : BroadcastAttestation) (e : ExpectedExecution) : res unit :=
  match public_key_of (ba_PublicKeyB64 b) with
  | None => Err "broadcast attestation public key is invalid"
  | Some publicKey =>
      try _ := Receipt_Verify (ba_SignedReceipt b) publicKey in
      let r := sr_Receipt (ba_SignedReceipt b) in
      let a := ba_Authorization b in
      try digest := Authorization_Digest a in
      check receipt_names r a digest else "broadcast receipt does not match its authorization" ;;
      check bool_decide (a_Rail a = RailDirect) else "broadcast attestation requires a direct_usdc authorization" ;;
      check receipt_in_window r a else "broadcast receipt time is outside its authorization window" ;;
      check bool_decide (rc_OrganizationID r = ex_OrganizationID e) &&
            bool_decide (rc_TransactionHash r = ex_TransactionHash e) && bool_decide (rc_Sender r = ex_Sender e) &&
            authorization_matches_expected a e
        else "broadcast attestation does not match expected execution" ;;
      Ok tt
  end.

Definition claim_validate (c : X402SettlementClaim) (e : ExpectedExecution) : res unit :=
  let a := xc_Authorization c in
  check xc_Success c else "x402 settlement claim must report success" ;;
  try _ := Authorization_Validate a in
  match public_key_of (xc_PublicKeyB64 c) with
  | None => Err "x402 settlement claim public key is invalid"
  | Some publicKey =>
      try _ := Receipt_Verify (xc_SignedReceipt c) publicKey in
      let r := sr_Receipt (xc_SignedReceipt c) in
      match Authorization_Digest a with
      | Err _ => Err "x402 settlement receipt does not match its authorization"
      | Ok digest =>
          check receipt_names r a digest else "x402 settlement receipt does not match its authorization" ;;
          check receipt_in_window r a else "x402 settlement receipt time is outside its authorization window" ;;
          let wantNetwork := if ex_ChainID e =? 84532 then "eip155:84532" else "eip155:8453" in
          check bool_decide (a_Rail a = RailX402) && match a_Escrow a with None => true | Some _ => false end &&
                bool_decide (ex_ExecutionID e = ExecutionID (a_AuthorizationID a)) &&
                bool_decide (xc_Network c = wantNetwork) && bool_decide (xc_Payer c = ex_Sender e) &&
                bool_decide (xc_Transaction c = ex_TransactionHash e) && bool_decide (rc_Sender r = ex_Sender e) &&
                bool_decide (rc_TransactionHash r = ex_TransactionHash e) &&
                (bool_decide (xc_Amount c = "") || bool_decide (xc_Amount c = ex_AmountAtomic e))
            else "x402 settlement claim does not match expected execution" ;;
          check authorization_matches_expected a e else "x402 authorization does not match expected execution" ;;
          Ok tt
      end
  end.
End Proofs.
