(* ===== verification/ReconEscrow.v ===== *)
(** * Escrow calls under reconciliation: data and rules
    ([internal/reconciliation/escrow.go], [escrow_durable.go], the attestation of
    [types.go] and the ledger IDs of [worker.go])

    A call follows one position of the CallEscrow contract through its
    transactions. Here are its records, the validation of intents, expected
    receipts and whole snapshots, and the ledger entries each transition books.
    The operations of the engine on calls are in [ReconEngine]. *)
From stdpp Require Import base gmap strings list fin_maps sorting.
From Stdlib Require Import ZArith Lia Ascii.
From S2P Require Import Prelude GoText GoJSON Crypto Envelope Receipt SignerVerifier AttemptJournal Recon.

Open Scope Z_scope.

(** ** Names *)

(** [type EscrowPositionState string] *)
Abbreviation EscrowPositionState := string (only parsing).
Definition EscrowPositionRegistered : EscrowPositionState := "REGISTERED".
Definition EscrowPositionFunded : EscrowPositionState := "FUNDED".
Definition EscrowPositionAcknowledged : EscrowPositionState := "ACKNOWLEDGED".
Definition EscrowPositionDelivered : EscrowPositionState := "DELIVERED".
Definition EscrowPositionReleased : EscrowPositionState := "RELEASED".
Definition EscrowPositionRefunded : EscrowPositionState := "REFUNDED".
Definition EscrowPositionQuarantined : EscrowPositionState := "QUARANTINED".

(** [type EscrowTransitionState string] *)
Abbreviation EscrowTransitionState := string (only parsing).
Definition EscrowTransitionBroadcast : EscrowTransitionState := "BROADCAST".
Definition EscrowTransitionPendingRecovery : EscrowTransitionState := "PENDING_CHAIN_RECOVERY".
Definition EscrowTransitionConfirmed : EscrowTransitionState := "CONFIRMED".
Definition EscrowTransitionReverted : EscrowTransitionState := "REVERTED".
Definition EscrowTransitionReorged : EscrowTransitionState := "REORGED".

(** [type EscrowAction string] *)
Abbreviation EscrowAction := string (only parsing).
Definition EscrowFund : EscrowAction := "FUND".
Definition EscrowAcknowledge : EscrowAction := "ACKNOWLEDGE".
Definition EscrowDeliver : EscrowAction := "DELIVER".
Definition EscrowRelease : EscrowAction := "RELEASE".
Definition EscrowRefund : EscrowAction := "REFUND".

Definition ErrEscrowTransition : error := "escrow transition is invalid".
Definition ErrEscrowDeployment : error := "escrow deployment is not admitted".
Definition ErrEscrowFinality : error := "escrow transition finality is unresolved".

(** ** Records *)

Record EscrowIntent := mkEscrowIntent {
  ei_OrganizationID : string;
  ei_CustomerID : string;
  ei_AgentID : string;
  ei_TaskID : string;
  ei_AuthorizationID : string;
  ei_IntentDigest : string;
  ei_ChainID : Z;
  ei_Contract : string;
  ei_Asset : string;
  ei_CallID : string;
  ei_Buyer : string;
  ei_Provider : string;
  ei_AmountAtomic : string;
  ei_TaskDigest : string;
  ei_RequestDigest : string;
  ei_AcknowledgeBy : Z;
  ei_DeliverBy : Z;
  ei_ReleaseWindow : Z;
}.

Record EscrowExpectedReceipt := mkEscrowExpectedReceipt {
  xr_Action : EscrowAction;
  xr_TransactionHash : string;
  xr_ChainID : Z;
  xr_Contract : string;
  xr_Asset : string;
  xr_CallID : string;
  xr_Buyer : string;
  xr_Provider : string;
  xr_AmountAtomic : string;
  xr_TaskDigest : string;
  xr_RequestDigest : string;
  xr_ResponseDigest : string;
  xr_EvidenceDigest : string;
  xr_AcknowledgeBy : Z;
  xr_DeliverBy : Z;
  xr_ReleaseWindow : Z;
  xr_BuyerAccepted : option bool;
  xr_RefundedFromState : Z;
}.

Record EscrowReceiptEvidence := mkEscrowReceiptEvidence {
  er_Provider : string;
  er_Action : EscrowAction;
  er_ChainID : Z;
  er_TransactionHash : string;
  er_BlockNumber : Z;
  er_BlockHash : string;
  er_ConfirmedHead : Z;
  er_Success : bool;
  er_CallID : string;
  er_DeliveredAt : Z;
  er_ReleasableAt : Z;
}.

Record EscrowTransitionCandidate := mkEscrowTransitionCandidate {
  tc_Action : EscrowAction;
  tc_TransactionHash : string;
  tc_ResponseDigest : string;
  tc_EvidenceDigest : string;
  tc_BuyerAccepted : option bool;
  tc_RefundedFromState : Z;
}.

(** [EscrowBroadcastAttestation] has the fields of [BroadcastAttestation]. *)
Definition EscrowBroadcastAttestation : Type := BroadcastAttestation.

Record EscrowTransition := mkEscrowTransition {
  et_Expected : EscrowExpectedReceipt;
  et_State : EscrowTransitionState;
  et_ReorgedFrom : EscrowTransitionState;
  et_RegisteredAt : time;
  et_BroadcastAttestation : option EscrowBroadcastAttestation;
  et_ResolvedAt : option time;
  et_BlockNumber : Z;
  et_BlockHash : string;
  et_Resolution : string;
  et_EvidenceDigest : string;
  et_LedgerTransactionID : string;
  et_CorrectionTransactionID : string;
  et_FinalityCheckedAt : option time;
  et_FinalityCheckedHead : Z;
}.

Record EscrowCall := mkEscrowCall {
  ec_Intent : EscrowIntent;
  ec_State : EscrowPositionState;
  ec_RegisteredAt : time;
  ec_Pending : option EscrowTransition;
  ec_Transitions : list EscrowTransition;
  ec_Resolution : string;
}.

Record escrowPayload := mkescrowPayload {
  ep_Call : EscrowCall;
  ep_Evidence : list EscrowReceiptEvidence;
  ep_Reorg : list ReorgEvidence;
  ep_Ledgers : list LedgerTransaction;
  ep_Status : option ChainStatus;
}.

(** *** Field updates *)

Definition set_pending (p : option EscrowTransition) (c : EscrowCall) : EscrowCall :=
  mkEscrowCall (ec_Intent c) (ec_State c) (ec_RegisteredAt c) p (ec_Transitions c) (ec_Resolution c).
Definition set_history (state : EscrowPositionState) (ts : list EscrowTransition) (c : EscrowCall) : EscrowCall :=
  mkEscrowCall (ec_Intent c) state (ec_RegisteredAt c) (ec_Pending c) ts (ec_Resolution c).
Definition set_call_resolution (r : string) (c : EscrowCall) : EscrowCall :=
  mkEscrowCall (ec_Intent c) (ec_State c) (ec_RegisteredAt c) (ec_Pending c) (ec_Transitions c) r.

Definition set_transition (state reorgedFrom : EscrowTransitionState) (resolution : string) (t : EscrowTransition) : EscrowTransition :=
  mkEscrowTransition (et_Expected t) state reorgedFrom (et_RegisteredAt t) (et_BroadcastAttestation t) (et_ResolvedAt t)
    (et_BlockNumber t) (et_BlockHash t) resolution (et_EvidenceDigest t) (et_LedgerTransactionID t)
    (et_CorrectionTransactionID t) (et_FinalityCheckedAt t) (et_FinalityCheckedHead t).
Definition set_evidence (resolvedAt : option time) (number : Z) (hash digest : string) (t : EscrowTransition) : EscrowTransition :=
  mkEscrowTransition (et_Expected t) (et_State t) (et_ReorgedFrom t) (et_RegisteredAt t) (et_BroadcastAttestation t) resolvedAt
    number hash (et_Resolution t) digest (et_LedgerTransactionID t)
    (et_CorrectionTransactionID t) (et_FinalityCheckedAt t) (et_FinalityCheckedHead t).
Definition set_bookings (ledgerID correctionID : string) (t : EscrowTransition) : EscrowTransition :=
  mkEscrowTransition (et_Expected t) (et_State t) (et_ReorgedFrom t) (et_RegisteredAt t) (et_BroadcastAttestation t) (et_ResolvedAt t)
    (et_BlockNumber t) (et_BlockHash t) (et_Resolution t) (et_EvidenceDigest t) ledgerID correctionID
    (et_FinalityCheckedAt t) (et_FinalityCheckedHead t).
Definition set_checked (checkedAt : option time) (head : Z) (t : EscrowTransition) : EscrowTransition :=
  mkEscrowTransition (et_Expected t) (et_State t) (et_ReorgedFrom t) (et_RegisteredAt t) (et_BroadcastAttestation t) (et_ResolvedAt t)
    (et_BlockNumber t) (et_BlockHash t) (et_Resolution t) (et_EvidenceDigest t) (et_LedgerTransactionID t)
    (et_CorrectionTransactionID t) checkedAt head.

(** ** JSON *)

Definition json_Intent (i : EscrowIntent) : string :=
  json_object [
    ("organizationId", Some (json_string (ei_OrganizationID i)));
    ("customerId", Some (json_string (ei_CustomerID i)));
    ("agentId", Some (json_string (ei_AgentID i)));
    ("taskId", Some (json_string (ei_TaskID i)));
    ("authorizationId", Some (json_string (ei_AuthorizationID i)));
    ("intentDigest", Some (json_string (ei_IntentDigest i)));
    ("chainId", Some (json_int (ei_ChainID i)));
    ("contract", Some (json_string (ei_Contract i)));
    ("asset", Some (json_string (ei_Asset i)));
    ("callId", Some (json_string (ei_CallID i)));
    ("buyer", Some (json_string (ei_Buyer i)));
    ("provider", Some (json_string (ei_Provider i)));
    ("amountAtomic", Some (json_string (ei_AmountAtomic i)));
    ("taskDigest", Some (json_string (ei_TaskDigest i)));
    ("requestDigest", Some (json_string (ei_RequestDigest i)));
    ("acknowledgeBy", Some (json_int (ei_AcknowledgeBy i)));
    ("deliverBy", Some (json_int (ei_DeliverBy i)));
    ("releaseWindowSeconds", Some (json_int (ei_ReleaseWindow i)))].

Definition json_ExpectedReceipt (x : EscrowExpectedReceipt) : string :=
  json_object [
    ("action", Some (json_string (xr_Action x)));
    ("transactionHash", Some (json_string (xr_TransactionHash x)));
    ("chainId", Some (json_int (xr_ChainID x)));
    ("contract", Some (json_string (xr_Contract x)));
    ("asset", Some (json_string (xr_Asset x)));
    ("callId", Some (json_string (xr_CallID x)));
    ("buyer", Some (json_string (xr_Buyer x)));
    ("provider", Some (json_string (xr_Provider x)));
    ("amountAtomic", Some (json_string (xr_AmountAtomic x)));
    ("taskDigest", Some (json_string (xr_TaskDigest x)));
    ("requestDigest", Some (json_string (xr_RequestDigest x)));
    ("responseDigest", omit_empty (xr_ResponseDigest x));
    ("evidenceDigest", omit_empty (xr_EvidenceDigest x));
    ("acknowledgeBy", Some (json_int (xr_AcknowledgeBy x)));
    ("deliverBy", Some (json_int (xr_DeliverBy x)));
    ("releaseWindowSeconds", Some (json_int (xr_ReleaseWindow x)));
    ("buyerAccepted", option_map json_bool (xr_BuyerAccepted x));
    ("refundedFromState", omit_zero (xr_RefundedFromState x))].

Definition json_Evidence (r : EscrowReceiptEvidence) : string :=
  json_object [
    ("provider", Some (json_string (er_Provider r)));
    ("action", Some (json_string (er_Action r)));
    ("chainId", Some (json_int (er_ChainID r)));
    ("transactionHash", Some (json_string (er_TransactionHash r)));
    ("blockNumber", Some (json_int (er_BlockNumber r)));
    ("blockHash", Some (json_string (er_BlockHash r)));
    ("confirmedHead", Some (json_int (er_ConfirmedHead r)));
    ("success", Some (json_bool (er_Success r)));
    ("callId", Some (json_string (er_CallID r)));
    ("deliveredAt", omit_zero (er_DeliveredAt r));
    ("releasableAt", omit_zero (er_ReleasableAt r))].

Definition json_Attestation (b : EscrowBroadcastAttestation) : string :=
  json_object [
    ("signedReceipt", Some (json_SignedReceipt (ba_SignedReceipt b)));
    ("authorization", Some (json_Authorization (ba_Authorization b)));
    ("publicKeyB64", Some (json_string (ba_PublicKeyB64 b)))].

(** A time a pointer may hold: the member, or that it cannot be written. *)
Definition json_opt_time (t : option time) : option (option string) :=
  match t with None => Some None | Some t => option_map Some (json_time t) end.

Definition json_Transition (t : EscrowTransition) : option string :=
  match json_time (et_RegisteredAt t), json_opt_time (et_ResolvedAt t), json_opt_time (et_FinalityCheckedAt t) with
  | Some registeredAt, Some resolvedAt, Some checkedAt =>
      Some (json_object [
        ("expected", Some (json_ExpectedReceipt (et_Expected t)));
        ("state", Some (json_string (et_State t)));
        ("reorgedFrom", omit_empty (et_ReorgedFrom t));
        ("registeredAt", Some registeredAt);
        ("broadcastAttestation", option_map json_Attestation (et_BroadcastAttestation t));
        ("resolvedAt", resolvedAt);
        ("blockNumber", omit_zero (et_BlockNumber t));
        ("blockHash", omit_empty (et_BlockHash t));
        ("resolution", omit_empty (et_Resolution t));
        ("evidenceDigest", omit_empty (et_EvidenceDigest t));
        ("ledgerTransactionId", omit_empty (et_LedgerTransactionID t));
        ("correctionTransactionId", omit_empty (et_CorrectionTransactionID t));
        ("finalityCheckedAt", checkedAt);
        ("finalityCheckedHead", omit_zero (et_FinalityCheckedHead t))])
  | _, _, _ => None
  end.

(** The history of a stored call is nil when it is empty: [cloneEscrowCall] appends
    to a nil slice. *)
Definition json_Transitions (l : list EscrowTransition) : option string :=
  match l with
  | [] => Some "null"
  | _ => option_map json_array (mapM json_Transition l)
  end.

Definition json_Call (c : EscrowCall) : option string :=
  match json_time (ec_RegisteredAt c), json_Transitions (ec_Transitions c),
        match ec_Pending c with None => Some None | Some p => option_map Some (json_Transition p) end with
  | Some registeredAt, Some transitions, Some pending =>
      Some (json_object [
        ("intent", Some (json_Intent (ec_Intent c)));
        ("state", Some (json_string (ec_State c)));
        ("registeredAt", Some registeredAt);
        ("pending", pending);
        ("transitions", Some transitions);
        ("resolution", omit_empty (ec_Resolution c))])
  | _, _, _ => None
  end.

(** [equalJSON]: what cannot be written compares as the empty text. *)
Definition equal_intent (x y : EscrowIntent) : bool := bool_decide (json_Intent x = json_Intent y).
Definition equal_expected_receipt (x y : EscrowExpectedReceipt) : bool :=
  bool_decide (json_ExpectedReceipt x = json_ExpectedReceipt y).
Definition equal_attestation (x y : EscrowBroadcastAttestation) : bool := bool_decide (json_Attestation x = json_Attestation y).
Definition equal_transition (x y : EscrowTransition) : bool :=
  bool_decide (default "" (json_Transition x) = default "" (json_Transition y)).
Definition equal_call (x y : EscrowCall) : bool := bool_decide (default "" (json_Call x) = default "" (json_Call y)).
Definition equal_opt_time (x y : option time) : bool :=
  bool_decide (match x with None => "null" | Some t => default "" (json_time t) end =
               match y with None => "null" | Some t => default "" (json_time t) end).

(** ** Validation *)

Section Escrow.
Context `{Crypto}.

Definition canonical_hash (value : string) : bool := hash_pattern value && negb (bool_decide (value = zero_hash)).

(** The deadlines of a call, in seconds. *)
Definition deadlines_ok (acknowledgeBy deliverBy releaseWindow : Z) : bool :=
  negb (acknowledgeBy =? 0) && (acknowledgeBy <=? MaxInt64) && (acknowledgeBy <? deliverBy) && (deliverBy <=? MaxInt64) &&
  negb (releaseWindow =? 0) && (releaseWindow <=? 30 * 24 * 60 * 60).

Definition EscrowIntent_Validate (i : EscrowIntent) : res unit :=
  check forallb identifier_pattern [ei_OrganizationID i; ei_CustomerID i; ei_AgentID i; ei_TaskID i; ei_AuthorizationID i]
    else "identifier is invalid" ;;
  check forallb canonical_hash [ei_IntentDigest i; ei_CallID i; ei_TaskDigest i; ei_RequestDigest i]
    else "must be a canonical non-zero hash" ;;
  check forallb address_pattern [ei_Contract i; ei_Asset i; ei_Buyer i; ei_Provider i]
    else "must be a canonical lowercase EVM address" ;;
  check negb (bool_decide (ei_Buyer i = ei_Provider i)) else "escrow buyer and provider must differ" ;;
  check (ei_ChainID i =? 8453) || (ei_ChainID i =? 84532) else "escrow intent supports Base mainnet or Base Sepolia only" ;;
  try _ := positiveInteger (ei_AmountAtomic i) in
  check deadlines_ok (ei_AcknowledgeBy i) (ei_DeliverBy i) (ei_ReleaseWindow i)
    else "escrow deadlines or release window are invalid" ;;
  match DeriveEscrowCallID (ei_ChainID i) (ei_Contract i) (ei_Buyer i) (ei_TaskDigest i) (ei_RequestDigest i) with
  | Ok want => check bool_decide (want = ei_CallID i) else "callId does not bind the immutable escrow intent" ;; Ok tt
  | Err _ => Err "callId does not bind the immutable escrow intent"
  end.

Definition none_accepted (x : EscrowExpectedReceipt) : bool := match xr_BuyerAccepted x with None => true | Some _ => false end.

(** The fields a transition's event carries. *)
Definition action_fields (x : EscrowExpectedReceipt) : res unit :=
  if bool_decide (xr_Action x = EscrowFund) || bool_decide (xr_Action x = EscrowAcknowledge) then
    check bool_decide (xr_ResponseDigest x = "") && bool_decide (xr_EvidenceDigest x = "") && none_accepted x &&
          (xr_RefundedFromState x =? 0)
      else "escrow action contains fields that are not emitted by that transition" ;; Ok tt
  else if bool_decide (xr_Action x = EscrowDeliver) then
    check canonical_hash (xr_ResponseDigest x) && canonical_hash (xr_EvidenceDigest x)
      else "delivery requires canonical non-zero response and evidence digests" ;;
    check none_accepted x && (xr_RefundedFromState x =? 0) else "delivery contains terminal-only fields" ;; Ok tt
  else if bool_decide (xr_Action x = EscrowRelease) then
    check negb (none_accepted x) && (xr_RefundedFromState x =? 0) && bool_decide (xr_ResponseDigest x = "") &&
          bool_decide (xr_EvidenceDigest x = "")
      else "release requires buyerAccepted and no refund or delivery-only fields" ;; Ok tt
  else if bool_decide (xr_Action x = EscrowRefund) then
    check (xr_RefundedFromState x =? 1) || (xr_RefundedFromState x =? 2)
      else "refund must expire from Funded (1) or Acknowledged (2)" ;;
    check none_accepted x && bool_decide (xr_ResponseDigest x = "") && bool_decide (xr_EvidenceDigest x = "")
      else "refund contains release or delivery-only fields" ;; Ok tt
  else Err "escrow action is unsupported".

Definition ExpectedReceipt_Validate (x : EscrowExpectedReceipt) : res unit :=
  check (xr_ChainID x =? 8453) || (xr_ChainID x =? 84532) else "escrow receipt supports Base mainnet or Base Sepolia only" ;;
  check forallb canonical_hash [xr_TransactionHash x; xr_CallID x; xr_TaskDigest x; xr_RequestDigest x]
    else "must be a canonical lowercase 32-byte hash" ;;
  check forallb address_pattern [xr_Contract x; xr_Asset x; xr_Buyer x; xr_Provider x]
    else "must be a canonical lowercase EVM address" ;;
  check negb (bool_decide (xr_Buyer x = xr_Provider x)) else "escrow buyer and provider must differ" ;;
  try _ := positiveInteger (xr_AmountAtomic x) in
  check deadlines_ok (xr_AcknowledgeBy x) (xr_DeliverBy x) (xr_ReleaseWindow x)
    else "escrow deadlines or release window are invalid" ;;
  try want := DeriveEscrowCallID (xr_ChainID x) (xr_Contract x) (xr_Buyer x) (xr_TaskDigest x) (xr_RequestDigest x) in
  check bool_decide (xr_CallID x = want) else "callId does not bind the expected chain, contract, buyer, task, and request" ;;
  action_fields x.

(** [EscrowBroadcastAttestation.validate] *)
Definition escrow_attestation_validate (b : EscrowBroadcastAttestation) (x : EscrowExpectedReceipt) : res unit :=
  match public_key_of (ba_PublicKeyB64 b) with
  | None => Err "escrow broadcast attestation public key is invalid"
  | Some publicKey =>
      try _ := Receipt_Verify (ba_SignedReceipt b) publicKey in
      let r := sr_Receipt (ba_SignedReceipt b) in
      let a := ba_Authorization b in
      try digest := Authorization_Digest a in
      check receipt_names r a digest else "escrow broadcast receipt does not match its authorization" ;;
      match a_Escrow a with
      | None => Err "escrow broadcast attestation requires an escrow funding authorization"
      | Some p =>
          check bool_decide (a_Rail a = RailEscrow) && bool_decide (xr_Action x = EscrowFund)
            else "escrow broadcast attestation requires an escrow funding authorization" ;;
          check receipt_in_window r a else "escrow broadcast receipt time is outside its authorization window" ;;
          let t := deref p in
          check bool_decide (rc_TransactionHash r = xr_TransactionHash x) && bool_decide (rc_Sender r = xr_Buyer x) &&
                (a_ChainID a =? xr_ChainID x) && bool_decide (a_Asset a = xr_Asset x) &&
                bool_decide (a_Recipient a = xr_Provider x) && bool_decide (a_AmountAtomic a = xr_AmountAtomic x) &&
                bool_decide (t_Contract t = xr_Contract x) && bool_decide (t_Buyer t = xr_Buyer x) &&
                bool_decide (t_Provider t = xr_Provider x) && bool_decide (t_CallID t = xr_CallID x) &&
                bool_decide (t_TaskDigest t = xr_TaskDigest x) && bool_decide (t_RequestDigest t = xr_RequestDigest x) &&
                (t_AcknowledgeBy t =? xr_AcknowledgeBy x) && (t_DeliverBy t =? xr_DeliverBy x) &&
                (t_ReleaseWindow t =? xr_ReleaseWindow x)
            else "escrow broadcast attestation does not match expected funding" ;;
          Ok tt
      end
  end.

(** [validateIntent] *)
Definition attestation_validateIntent (b : EscrowBroadcastAttestation) (i : EscrowIntent) : res unit :=
  let a := ba_Authorization b in
  check bool_decide (a_OrganizationID a = ei_OrganizationID i) && bool_decide (a_CustomerID a = ei_CustomerID i) &&
        bool_decide (a_AgentID a = ei_AgentID i) && bool_decide (a_TaskID a = ei_TaskID i) &&
        bool_decide (a_AuthorizationID a = ei_AuthorizationID i)
    else "escrow broadcast attestation does not match durable intent identity" ;;
  Ok tt.

(** ** The position's state machine *)

Definition nextEscrowState (action : EscrowAction) : EscrowPositionState :=
  if bool_decide (action = EscrowFund) then EscrowPositionFunded
  else if bool_decide (action = EscrowAcknowledge) then EscrowPositionAcknowledged
  else if bool_decide (action = EscrowDeliver) then EscrowPositionDelivered
  else if bool_decide (action = EscrowRelease) then EscrowPositionReleased
  else if bool_decide (action = EscrowRefund) then EscrowPositionRefunded
  else EscrowPositionQuarantined.

Definition escrowActionAllowed (state : EscrowPositionState) (action : EscrowAction) (refundedFrom : Z) : bool :=
  if bool_decide (state = EscrowPositionRegistered) then bool_decide (action = EscrowFund)
  else if bool_decide (state = EscrowPositionFunded) then
    bool_decide (action = EscrowAcknowledge) || bool_decide (action = EscrowRefund) && (refundedFrom =? 1)
  else if bool_decide (state = EscrowPositionAcknowledged) then
    bool_decide (action = EscrowDeliver) || bool_decide (action = EscrowRefund) && (refundedFrom =? 2)
  else if bool_decide (state = EscrowPositionDelivered) then bool_decide (action = EscrowRelease)
  else false.

Definition escrowCandidateMatchesExpected (c : EscrowTransitionCandidate) (x : EscrowExpectedReceipt) : bool :=
  bool_decide (tc_Action c = xr_Action x) && bool_decide (tc_TransactionHash c = xr_TransactionHash x) &&
  bool_decide (tc_ResponseDigest c = xr_ResponseDigest x) && bool_decide (tc_EvidenceDigest c = xr_EvidenceDigest x) &&
  bool_decide (tc_BuyerAccepted c = xr_BuyerAccepted x) && (tc_RefundedFromState c =? xr_RefundedFromState x).

Definition expected_of (i : EscrowIntent) (c : EscrowTransitionCandidate) : EscrowExpectedReceipt := {|
  xr_Action := tc_Action c; xr_TransactionHash := tc_TransactionHash c; xr_ChainID := ei_ChainID i;
  xr_Contract := ei_Contract i; xr_Asset := ei_Asset i; xr_CallID := ei_CallID i; xr_Buyer := ei_Buyer i;
  xr_Provider := ei_Provider i; xr_AmountAtomic := ei_AmountAtomic i; xr_TaskDigest := ei_TaskDigest i;
  xr_RequestDigest := ei_RequestDigest i; xr_ResponseDigest := tc_ResponseDigest c;
  xr_EvidenceDigest := tc_EvidenceDigest c; xr_AcknowledgeBy := ei_AcknowledgeBy i; xr_DeliverBy := ei_DeliverBy i;
  xr_ReleaseWindow := ei_ReleaseWindow i; xr_BuyerAccepted := tc_BuyerAccepted c;
  xr_RefundedFromState := tc_RefundedFromState c |}.

Definition expectedEscrowTransition (call : EscrowCall) (c : EscrowTransitionCandidate) : res EscrowExpectedReceipt :=
  check canonical_hash (tc_TransactionHash c) else ErrEscrowTransition ;;
  check escrowActionAllowed (ec_State call) (tc_Action c) (tc_RefundedFromState c) else ErrEscrowTransition ;;
  let expected := expected_of (ec_Intent call) c in
  match ExpectedReceipt_Validate expected with
  | Ok _ => Ok expected
  | Err _ => Err ErrEscrowTransition
  end.

Definition escrowExpectedMatchesIntent (x : EscrowExpectedReceipt) (i : EscrowIntent) : bool :=
  (xr_ChainID x =? ei_ChainID i) && bool_decide (xr_Contract x = ei_Contract i) && bool_decide (xr_Asset x = ei_Asset i) &&
  bool_decide (xr_CallID x = ei_CallID i) && bool_decide (xr_Buyer x = ei_Buyer i) &&
  bool_decide (xr_Provider x = ei_Provider i) && bool_decide (xr_AmountAtomic x = ei_AmountAtomic i) &&
  bool_decide (xr_TaskDigest x = ei_TaskDigest i) && bool_decide (xr_RequestDigest x = ei_RequestDigest i) &&
  (xr_AcknowledgeBy x =? ei_AcknowledgeBy i) && (xr_DeliverBy x =? ei_DeliverBy i) && (xr_ReleaseWindow x =? ei_ReleaseWindow i).

(** ** The ledger of a call *)

(** [derivedLedgerID]: every input is preceded by a zero byte. *)
Definition derivedLedgerID (prefix : string) (inputs : list string) : string :=
  prefix +:+ "_" +:+ hex_encode (sha256 (str_concat (map (fun i => String "000"%char i) inputs))).

(** [amount[0]] of an empty text panics; the amounts here are validated. *)
Definition negate_amount (amount : string) : string :=
  match amount with
  | String c r => if code c =? 45 then r else "-" +:+ amount
  | EmptyString => "-"
  end.

Definition escrow_postings (action : EscrowAction) (amount : string) : option (LedgerKind * list Posting) :=
  if bool_decide (action = EscrowFund) then
    Some (LedgerFunding, [mkPosting "escrow_locked" amount; mkPosting "pending_settlement" ("-" +:+ amount)])
  else if bool_decide (action = EscrowRelease) then
    Some (LedgerSettlement, [mkPosting "agent_service_expense" amount; mkPosting "escrow_locked" ("-" +:+ amount)])
  else if bool_decide (action = EscrowRefund) then
    Some (LedgerRefund, [mkPosting "pending_settlement" amount; mkPosting "escrow_locked" ("-" +:+ amount)])
  else None.

Definition escrowLedger (i : EscrowIntent) (t : EscrowTransition) (at_ : time) : option LedgerTransaction :=
  match escrow_postings (xr_Action (et_Expected t)) (ei_AmountAtomic i) with
  | None => None
  | Some (kind, postings) => Some {|
      lt_TransactionID := derivedLedgerID "escrow" [ei_CallID i; xr_Action (et_Expected t); et_BlockHash t];
      lt_OrganizationID := ei_OrganizationID i; lt_Kind := kind; lt_ReferenceID := ei_CallID i;
      lt_ReversesTransactionID := ""; lt_Postings := postings; lt_RecordedAt := at_ |}
  end.

Definition reverseEscrowLedger (i : EscrowIntent) (t : EscrowTransition) (original : LedgerTransaction) (canonicalHash : string)
    (at_ : time) : LedgerTransaction := {|
  lt_TransactionID := derivedLedgerID "escrow_correction"
    [ei_CallID i; xr_TransactionHash (et_Expected t); lt_TransactionID original; canonicalHash];
  lt_OrganizationID := ei_OrganizationID i; lt_Kind := LedgerCorrection; lt_ReferenceID := ei_CallID i;
  lt_ReversesTransactionID := lt_TransactionID original;
  lt_Postings := map (fun p => mkPosting (po_Account p) (negate_amount (po_AmountAtomic p))) (lt_Postings original);
  lt_RecordedAt := at_ |}.

Fixpoint inversePostings (original correction : list Posting) : bool :=
  match original, correction with
  | [], [] => true
  | p :: l, q :: r =>
      bool_decide (po_Account p = po_Account q) && bool_decide (po_AmountAtomic q = negate_amount (po_AmountAtomic p)) &&
      inversePostings l r
  | _, _ => false
  end.

(** ** A whole call *)

Definition known_position (s : EscrowPositionState) : bool :=
  bool_decide (s ∈ [EscrowPositionRegistered; EscrowPositionFunded; EscrowPositionAcknowledged; EscrowPositionDelivered;
                    EscrowPositionReleased; EscrowPositionRefunded; EscrowPositionQuarantined]).

(** What the loop of [validateSnapshot] carries along the history. *)
Record history_scan := mkhistory_scan {
  hc_state : EscrowPositionState;
  hc_reorged : bool;
  hc_removed : bool;
  hc_block : Z;
  hc_seen : gset string;
}.

Definition escrow_attested (t : EscrowTransition) (i : EscrowIntent) : bool :=
  match et_BroadcastAttestation t with
  | None => true
  | Some b => bool_decide (xr_Action (et_Expected t) = EscrowFund) && is_ok (escrow_attestation_validate b (et_Expected t)) &&
              is_ok (attestation_validateIntent b i)
  end.

Definition no_bookings (t : EscrowTransition) : bool :=
  bool_decide (et_LedgerTransactionID t = "") && bool_decide (et_CorrectionTransactionID t = "").

(** The switch over the state of a resolved transition. *)
Definition history_state (st : history_scan) (t : EscrowTransition) : res history_scan :=
  let next := nextEscrowState (xr_Action (et_Expected t)) in
  let keep s r d := mkhistory_scan s r d (hc_block st) (hc_seen st) in
  if bool_decide (et_State t = EscrowTransitionConfirmed) then
    check negb (hc_removed st) && bool_decide (et_ReorgedFrom t = "") else "confirmed escrow history follows a reorged dependency" ;;
    Ok (keep next (hc_reorged st) (hc_removed st))
  else if bool_decide (et_State t = EscrowTransitionReverted) then
    check negb (hc_removed st) && bool_decide (et_ReorgedFrom t = "") && no_bookings t
      else "reverted escrow transition contains ledger or dependency state" ;;
    Ok st
  else if bool_decide (et_State t = EscrowTransitionReorged) then
    if bool_decide (et_ReorgedFrom t = EscrowTransitionConfirmed) then Ok (keep next true true)
    else if bool_decide (et_ReorgedFrom t = EscrowTransitionReverted) then
      check no_bookings t else "reorged reverted transition contains ledger state" ;;
      Ok (keep (hc_state st) true (hc_removed st))
    else Err "reorged escrow transition lost its prior outcome"
  else Err "resolved escrow history contains a pending state".

Definition ledger_required (action : EscrowAction) : bool :=
  bool_decide (action = EscrowFund) || bool_decide (action = EscrowRelease) || bool_decide (action = EscrowRefund).

Definition bookings_ok (t : EscrowTransition) : res unit :=
  let confirmed := bool_decide (et_State t = EscrowTransitionConfirmed) in
  let reorged := bool_decide (et_State t = EscrowTransitionReorged) in
  let booked := negb (bool_decide (et_LedgerTransactionID t = "")) in
  let corrected := negb (bool_decide (et_CorrectionTransactionID t = "")) in
  check negb (confirmed && negb (Bool.eqb (ledger_required (xr_Action (et_Expected t))) booked))
    else "confirmed escrow transition ledger binding is invalid" ;;
  check negb (confirmed && corrected || reorged && booked && negb corrected || corrected && (negb reorged || negb booked))
    else "escrow correction binding is invalid" ;;
  Ok tt.

Definition chronology_ok (registeredAt : time) (t : EscrowTransition) : bool :=
  match et_ResolvedAt t with
  | None => false
  | Some resolvedAt =>
      negb (time_before (et_RegisteredAt t) registeredAt) && negb (time_before resolvedAt (et_RegisteredAt t)) &&
      match et_FinalityCheckedAt t with
      | None => et_FinalityCheckedHead t =? 0
      | Some checkedAt => negb (time_before checkedAt resolvedAt) && (et_BlockNumber t <=? et_FinalityCheckedHead t)
      end
  end.

Definition snapshot_transition (c : EscrowCall) (st : history_scan) (t : EscrowTransition) : res history_scan :=
  check is_ok (ExpectedReceipt_Validate (et_Expected t)) && negb (time_IsZero (et_RegisteredAt t))
    else "durable escrow transition is invalid" ;;
  check escrow_attested t (ec_Intent c) else "durable escrow broadcast attestation is invalid" ;;
  check escrowExpectedMatchesIntent (et_Expected t) (ec_Intent c) &&
        escrowActionAllowed (hc_state st) (xr_Action (et_Expected t)) (xr_RefundedFromState (et_Expected t))
    else "durable escrow transition does not follow its immutable call" ;;
  check negb (bool_decide (xr_TransactionHash (et_Expected t) ∈ hc_seen st)) else "durable escrow transition hash is duplicated" ;;
  try st := history_state st t in
  try _ := bookings_ok t in
  check match et_ResolvedAt t with Some _ => true | None => false end && negb (et_BlockNumber t =? 0) &&
        hash_pattern (et_BlockHash t) && hash_pattern (et_EvidenceDigest t)
    else "resolved escrow transition lacks canonical evidence" ;;
  check hc_block st <=? et_BlockNumber t else "escrow transition block chronology regressed" ;;
  check chronology_ok (ec_RegisteredAt c) t else "escrow transition chronology or finality binding is invalid" ;;
  Ok (mkhistory_scan (hc_state st) (hc_reorged st) (hc_removed st) (et_BlockNumber t)
        ({[xr_TransactionHash (et_Expected t)]} ∪ hc_seen st)).

Definition pending_unresolved (p : EscrowTransition) : bool :=
  match et_ResolvedAt p, et_FinalityCheckedAt p with None, None => true | _, _ => false end &&
  (et_BlockNumber p =? 0) && bool_decide (et_BlockHash p = "") && bool_decide (et_EvidenceDigest p = "") &&
  no_bookings p && (et_FinalityCheckedHead p =? 0).

Definition snapshot_pending (c : EscrowCall) (st : history_scan) (p : EscrowTransition) : res unit :=
  check is_ok (ExpectedReceipt_Validate (et_Expected p)) && negb (time_IsZero (et_RegisteredAt p)) &&
        bool_decide (et_ReorgedFrom p = "") &&
        (bool_decide (et_State p = EscrowTransitionBroadcast) || bool_decide (et_State p = EscrowTransitionPendingRecovery))
    else "durable pending escrow transition is invalid" ;;
  check escrow_attested p (ec_Intent c) else "durable pending escrow broadcast attestation is invalid" ;;
  check negb (bool_decide (xr_TransactionHash (et_Expected p) ∈ hc_seen st)) else "durable pending escrow transition hash is duplicated" ;;
  check negb (hc_reorged st) && escrowExpectedMatchesIntent (et_Expected p) (ec_Intent c) &&
        escrowActionAllowed (hc_state st) (xr_Action (et_Expected p)) (xr_RefundedFromState (et_Expected p))
    else "pending escrow transition does not follow its immutable call" ;;
  check negb (time_before (et_RegisteredAt p) (ec_RegisteredAt c)) && pending_unresolved p
    else "pending escrow transition contains invented resolution evidence" ;;
  Ok tt.

Definition empty_history : history_scan := mkhistory_scan EscrowPositionRegistered false false 0 ∅.

Definition validateSnapshot (c : EscrowCall) (chainID : Z) : res unit :=
  check is_ok (EscrowIntent_Validate (ec_Intent c)) && (ei_ChainID (ec_Intent c) =? chainID) && negb (time_IsZero (ec_RegisteredAt c))
    else "durable escrow call identity is invalid" ;;
  check known_position (ec_State c) else "durable escrow position state is invalid" ;;
  try st := fold_res (snapshot_transition c) empty_history (ec_Transitions c) in
  check negb (hc_reorged st) || bool_decide (ec_State c = EscrowPositionQuarantined)
    else "reorged escrow history is not quarantined" ;;
  check hc_reorged st || bool_decide (ec_State c = hc_state st)
    else "escrow position does not match its confirmed history" ;;
  match ec_Pending c with
  | None => Ok tt
  | Some p => snapshot_pending c st p
  end.

(** ** The bindings between a call and the ledger *)

Definition bind_addition (c : EscrowCall) (eventAt : time) (st : gmap string LedgerTransaction * gset string) (t : LedgerTransaction)
    : res (gmap string LedgerTransaction * gset string) :=
  let '(prospective, added) := st in
  check is_ok (ledger_validate t) && bool_decide (lt_OrganizationID t = ei_OrganizationID (ec_Intent c)) &&
        bool_decide (lt_ReferenceID t = ei_CallID (ec_Intent c)) && (lt_RecordedAt t =? eventAt)
    else "escrow event contains an invalid ledger transaction" ;;
  check match prospective !! lt_TransactionID t with Some prior => equal_ledger prior t | None => true end
    else "escrow event ledger transaction conflicts with durable state" ;;
  check negb (bool_decide (lt_TransactionID t ∈ added)) else "escrow event repeats a ledger transaction" ;;
  Ok (<[lt_TransactionID t := t]> prospective, {[lt_TransactionID t]} ∪ added).

Definition bind_ledger (i : EscrowIntent) (prospective : gmap string LedgerTransaction) (referenced : gset string) (t : EscrowTransition)
    : res (gset string) :=
  if bool_decide (et_LedgerTransactionID t = "") then Ok referenced else
  match prospective !! et_LedgerTransactionID t, et_ResolvedAt t with
  | Some ledger, Some resolvedAt =>
      check lt_RecordedAt ledger =? resolvedAt else "escrow transition references a missing ledger transaction" ;;
      check match escrowLedger i t (lt_RecordedAt ledger) with Some want => equal_ledger want ledger | None => false end
        else "escrow transition ledger does not match canonical call economics" ;;
      Ok ({[lt_TransactionID ledger]} ∪ referenced)
  | _, _ => Err "escrow transition references a missing ledger transaction"
  end.

Definition bind_correction (i : EscrowIntent) (prospective : gmap string LedgerTransaction) (referenced : gset string)
    (t : EscrowTransition) : res (gset string) :=
  if bool_decide (et_CorrectionTransactionID t = "") then Ok referenced else
  match prospective !! et_CorrectionTransactionID t, prospective !! et_LedgerTransactionID t with
  | Some correction, Some original =>
      check bool_decide (lt_Kind correction = LedgerCorrection) && bool_decide (lt_OrganizationID correction = ei_OrganizationID i) &&
            bool_decide (lt_ReferenceID correction = ei_CallID i) &&
            bool_decide (lt_ReversesTransactionID correction = lt_TransactionID original) &&
            inversePostings (lt_Postings original) (lt_Postings correction)
        else "escrow reorg correction does not exactly reverse its canonical ledger" ;;
      Ok ({[lt_TransactionID correction]} ∪ referenced)
  | _, _ => Err "escrow reorg correction does not exactly reverse its canonical ledger"
  end.

Definition bind_transition (i : EscrowIntent) (prospective : gmap string LedgerTransaction) (referenced : gset string)
    (t : EscrowTransition) : res (gset string) :=
  try referenced := bind_ledger i prospective referenced t in bind_correction i prospective referenced t.

Definition validateEscrowLedgerBindings (c : EscrowCall) (additions : list LedgerTransaction)
    (existing : gmap string LedgerTransaction) (eventAt : time) : res unit :=
  try st := fold_res (bind_addition c eventAt) (existing, ∅) additions in
  try referenced := fold_res (bind_transition (ec_Intent c) st.1) ∅ (ec_Transitions c) in
  check bool_decide (st.2 ⊆ referenced) else "escrow event contains an unreferenced ledger transaction" ;;
  Ok tt.

(** [digestEscrowEvidence] *)
Definition evidence_le (x y : EscrowReceiptEvidence) : Prop := String.leb (er_Provider x) (er_Provider y) = true.
#[export] Instance evidence_le_dec x y : Decision (evidence_le x y).
Proof. unfold evidence_le. apply _. Defined.

Definition digestEscrowEvidence (evidence : list EscrowReceiptEvidence) : string :=
  let canonical := merge_sort evidence_le evidence in
  "0x" +:+ hex_encode (sha256 (match canonical with [] => "null" | _ => json_array (map json_Evidence canonical) end)).
End Escrow.
