(* ===== verification/ReconEngine.v ===== *)
(** * The reconciliation engine ([internal/reconciliation/engine.go],
    [recovery.go], [escrow_durable.go])

    Chain health, the executions under reconciliation, the escrow calls and the
    ledger. An operation builds an event, appends it to the journal and applies it;
    a restart applies the whole stream. [RState] is the engine without its journal;
    [REngine] adds the durable stream and the journal's fault. The journal is the
    stream of events; whether an append is refused, fails with or without a trace,
    or succeeds is the environment's answer. *)
From stdpp Require Import base gmap strings list fin_maps sorting.
From Stdlib Require Import ZArith Lia Ascii.
From S2P Require Import Prelude GoText GoJSON Crypto Envelope Receipt SignerVerifier AttemptJournal Recon ReconEscrow.

Open Scope Z_scope.

(** ** State *)

Record RState := mkRState {
  rs_status : ChainStatus;
  rs_executions : gmap string Execution;
  rs_executionByHash : gmap string string;
  rs_escrowCalls : gmap string EscrowCall;
  rs_escrowByAuth : gmap string string;
  rs_escrowByHash : gmap string string;
  rs_ledger : gmap string LedgerTransaction;
  rs_balances : balances;
  rs_lastResumeOperator : string;
}.

(** *** Field updates *)

Definition with_status (s : RState) (c : ChainStatus) : RState :=
  mkRState c (rs_executions s) (rs_executionByHash s) (rs_escrowCalls s) (rs_escrowByAuth s) (rs_escrowByHash s)
    (rs_ledger s) (rs_balances s) (rs_lastResumeOperator s).
Definition with_executions (s : RState) (m : gmap string Execution) (h : gmap string string) : RState :=
  mkRState (rs_status s) m h (rs_escrowCalls s) (rs_escrowByAuth s) (rs_escrowByHash s) (rs_ledger s) (rs_balances s) (rs_lastResumeOperator s).
Definition with_escrow (s : RState) (m : gmap string EscrowCall) (byAuth byHash : gmap string string) : RState :=
  mkRState (rs_status s) (rs_executions s) (rs_executionByHash s) m byAuth byHash
    (rs_ledger s) (rs_balances s) (rs_lastResumeOperator s).
Definition with_ledger (s : RState) (l : gmap string LedgerTransaction) (b : balances) : RState :=
  mkRState (rs_status s) (rs_executions s) (rs_executionByHash s) (rs_escrowCalls s) (rs_escrowByAuth s) (rs_escrowByHash s)
    l b (rs_lastResumeOperator s).
Definition with_lastOperator (s : RState) (o : string) : RState :=
  mkRState (rs_status s) (rs_executions s) (rs_executionByHash s) (rs_escrowCalls s) (rs_escrowByAuth s) (rs_escrowByHash s)
    (rs_ledger s) (rs_balances s) o.

Definition set_outcome (state : ExecutionState) (resolution : string) (resolvedAt : option time) (e : Execution) : Execution :=
  mkExecution (e_Expected e) state (e_BroadcastAt e) (e_BroadcastAttestation e) (e_X402SettlementClaim e) resolvedAt
    (e_BlockNumber e) (e_BlockHash e) resolution (e_LedgerTransactionID e) (e_CorrectionTransactionID e)
    (e_ReorgEvidenceDigest e) (e_FinalityCheckedAt e) (e_FinalityCheckedHead e) (e_ResolvedTransactionHash e)
    (e_TransactionRecovery e) (e_RecoveryResolutionActor e).
Definition set_block (number : Z) (hash resolvedHash : string) (e : Execution) : Execution :=
  mkExecution (e_Expected e) (e_State e) (e_BroadcastAt e) (e_BroadcastAttestation e) (e_X402SettlementClaim e) (e_ResolvedAt e)
    number hash (e_Resolution e) (e_LedgerTransactionID e) (e_CorrectionTransactionID e)
    (e_ReorgEvidenceDigest e) (e_FinalityCheckedAt e) (e_FinalityCheckedHead e) resolvedHash
    (e_TransactionRecovery e) (e_RecoveryResolutionActor e).
Definition set_ledger (ledgerID correctionID reorgDigest : string) (e : Execution) : Execution :=
  mkExecution (e_Expected e) (e_State e) (e_BroadcastAt e) (e_BroadcastAttestation e) (e_X402SettlementClaim e) (e_ResolvedAt e)
    (e_BlockNumber e) (e_BlockHash e) (e_Resolution e) ledgerID correctionID reorgDigest
    (e_FinalityCheckedAt e) (e_FinalityCheckedHead e) (e_ResolvedTransactionHash e)
    (e_TransactionRecovery e) (e_RecoveryResolutionActor e).
Definition set_finality (checkedAt : option time) (head : Z) (e : Execution) : Execution :=
  mkExecution (e_Expected e) (e_State e) (e_BroadcastAt e) (e_BroadcastAttestation e) (e_X402SettlementClaim e) (e_ResolvedAt e)
    (e_BlockNumber e) (e_BlockHash e) (e_Resolution e) (e_LedgerTransactionID e) (e_CorrectionTransactionID e)
    (e_ReorgEvidenceDigest e) checkedAt head (e_ResolvedTransactionHash e)
    (e_TransactionRecovery e) (e_RecoveryResolutionActor e).
Definition set_proofs (attestation : option BroadcastAttestation) (claim : option X402SettlementClaim)
    (recovery : option TransactionRecovery) (resolvedHash actor : string) (e : Execution) : Execution :=
  mkExecution (e_Expected e) (e_State e) (e_BroadcastAt e) attestation claim (e_ResolvedAt e)
    (e_BlockNumber e) (e_BlockHash e) (e_Resolution e) (e_LedgerTransactionID e) (e_CorrectionTransactionID e)
    (e_ReorgEvidenceDigest e) (e_FinalityCheckedAt e) (e_FinalityCheckedHead e) resolvedHash recovery actor.

Definition new_execution (expected : ExpectedExecution) (state : ExecutionState) (broadcastAt : time)
    (attestation : option BroadcastAttestation) (claim : option X402SettlementClaim) : Execution :=
  mkExecution expected state broadcastAt attestation claim None 0 "" "" "" "" "" None 0 "" None "".

Definition resolvedTransactionHash (e : Execution) : string :=
  if bool_decide (e_ResolvedTransactionHash e = "") then ex_TransactionHash (e_Expected e) else e_ResolvedTransactionHash e.

(** *** Status updates *)

Definition setPauseFlags (c : ChainStatus) : ChainStatus :=
  let paused := negb (bool_decide (cs_State c = StateHealthy)) in
  mkChainStatus (cs_ChainID c) (cs_State c) (cs_Reason c) (cs_LastTrusted c) (cs_RequiredObserverQuorum c)
    (cs_RespondingObservers c) (cs_LastObservationAt c) (cs_StateChangedAt c) (cs_ConsecutiveUnhealthy c)
    (cs_ConsecutiveRecovery c) (cs_AffectedExecutions c) (cs_ReadyForManualResume c)
    paused paused (bool_decide (cs_State c = StateHalted) || bool_decide (cs_State c = StateSuspectedStall)) paused.

(** The state, its reason, when it began and the two streaks. *)
Definition set_state (state : ChainState) (reason : string) (changedAt : time) (unhealthy recovery : Z)
    (c : ChainStatus) : ChainStatus :=
  mkChainStatus (cs_ChainID c) state reason (cs_LastTrusted c) (cs_RequiredObserverQuorum c)
    (cs_RespondingObservers c) (cs_LastObservationAt c) changedAt unhealthy recovery (cs_AffectedExecutions c)
    (cs_ReadyForManualResume c) (cs_AuthorizationsPaused c) (cs_BroadcastsPaused c) (cs_FinalizationPaused c)
    (cs_RefundRecognitionPaused c).
Definition set_trusted (trusted : option Checkpoint) (c : ChainStatus) : ChainStatus :=
  mkChainStatus (cs_ChainID c) (cs_State c) (cs_Reason c) trusted (cs_RequiredObserverQuorum c)
    (cs_RespondingObservers c) (cs_LastObservationAt c) (cs_StateChangedAt c) (cs_ConsecutiveUnhealthy c)
    (cs_ConsecutiveRecovery c) (cs_AffectedExecutions c) (cs_ReadyForManualResume c) (cs_AuthorizationsPaused c)
    (cs_BroadcastsPaused c) (cs_FinalizationPaused c) (cs_RefundRecognitionPaused c).
Definition set_observed (quorum responding : Z) (observedAt : time) (c : ChainStatus) : ChainStatus :=
  mkChainStatus (cs_ChainID c) (cs_State c) (cs_Reason c) (cs_LastTrusted c) quorum responding observedAt
    (cs_StateChangedAt c) (cs_ConsecutiveUnhealthy c) (cs_ConsecutiveRecovery c) (cs_AffectedExecutions c)
    (cs_ReadyForManualResume c) (cs_AuthorizationsPaused c) (cs_BroadcastsPaused c) (cs_FinalizationPaused c)
    (cs_RefundRecognitionPaused c).
Definition set_counts (affected : Z) (ready : bool) (c : ChainStatus) : ChainStatus :=
  mkChainStatus (cs_ChainID c) (cs_State c) (cs_Reason c) (cs_LastTrusted c) (cs_RequiredObserverQuorum c)
    (cs_RespondingObservers c) (cs_LastObservationAt c) (cs_StateChangedAt c) (cs_ConsecutiveUnhealthy c)
    (cs_ConsecutiveRecovery c) affected ready (cs_AuthorizationsPaused c) (cs_BroadcastsPaused c)
    (cs_FinalizationPaused c) (cs_RefundRecognitionPaused c).
Definition set_chain (chainID : Z) (c : ChainStatus) : ChainStatus :=
  mkChainStatus chainID (cs_State c) (cs_Reason c) (cs_LastTrusted c) (cs_RequiredObserverQuorum c)
    (cs_RespondingObservers c) (cs_LastObservationAt c) (cs_StateChangedAt c) (cs_ConsecutiveUnhealthy c)
    (cs_ConsecutiveRecovery c) (cs_AffectedExecutions c) (cs_ReadyForManualResume c) (cs_AuthorizationsPaused c)
    (cs_BroadcastsPaused c) (cs_FinalizationPaused c) (cs_RefundRecognitionPaused c).

(** ** Freshness and counts *)

Section Engine.
Context `{Crypto}.
Variable cfg : ReconConfig.

Definition trustedFresh (c : ChainStatus) (now : time) : bool :=
  match cs_LastTrusted c with
  | None => false
  | Some t =>
      negb (time_before now (ck_ObservedAt t)) && negb (time_before now (ck_BlockTime t)) &&
      (time_sub now (ck_ObservedAt t) <=? cf_ObservationMaxAge cfg) &&
      (time_sub now (ck_BlockTime t) <=? cf_StallThreshold cfg)
  end.

Definition chainUsable (c : ChainStatus) (now : time) : bool :=
  bool_decide (cs_State c = StateHealthy) && trustedFresh c now.

Definition statusAt (c : ChainStatus) (now : time) : ChainStatus :=
  if bool_decide (cs_State c = StateHealthy) && negb (trustedFresh c now) then
    setPauseFlags (set_state StateSuspectedStall "observer heartbeat or trusted Base head expired"
      (match cs_LastTrusted c with
       | Some t => time_add (ck_ObservedAt t) (cf_ObservationMaxAge cfg)
       | None => cs_StateChangedAt c
       end) (cs_ConsecutiveUnhealthy c) (cs_ConsecutiveRecovery c) c)
  else c.

Definition unresolved (e : Execution) : bool :=
  bool_decide (e_State e = ExecutionBroadcast) || bool_decide (e_State e = ExecutionPendingChainRecovery).
Definition escrow_unresolved (c : EscrowCall) : bool :=
  match ec_Pending c with
  | Some p => bool_decide (et_State p = EscrowTransitionBroadcast) || bool_decide (et_State p = EscrowTransitionPendingRecovery)
  | None => false
  end.

Definition unresolvedCount (s : RState) : Z :=
  map_sum (fun _ e => if unresolved e then 1 else 0) (rs_executions s) +
  map_sum (fun _ c => if escrow_unresolved c then 1 else 0) (rs_escrowCalls s).

Definition recoveryReady (s : RState) (now : time) : bool :=
  bool_decide (cs_State (rs_status s) = StateRecovering) &&
  (cf_RecoveryObservations cfg <=? cs_ConsecutiveRecovery (rs_status s)) &&
  (unresolvedCount s =? 0) && trustedFresh (rs_status s) now.

Definition refreshAffected (now : time) (s : RState) : RState :=
  with_status s (set_counts (unresolvedCount s) (recoveryReady s now) (rs_status s)).

Definition park_call (c : EscrowCall) : EscrowCall :=
  match ec_Pending c with
  | Some p =>
      if bool_decide (et_State p = EscrowTransitionBroadcast)
      then set_pending (Some (set_transition EscrowTransitionPendingRecovery (et_ReorgedFrom p)
             "chain halt requires canonical escrow transition reconciliation" p)) c
      else c
  | None => c
  end.

Definition markBroadcastsPending (s : RState) : RState :=
  let s := with_executions s
    ((fun e => if bool_decide (e_State e = ExecutionBroadcast)
               then set_outcome ExecutionPendingChainRecovery "chain halt requires canonical outcome reconciliation" (e_ResolvedAt e) e
               else e) <$> rs_executions s) (rs_executionByHash s) in
  let s := with_escrow s (park_call <$> rs_escrowCalls s) (rs_escrowByAuth s) (rs_escrowByHash s) in
  with_status s (set_counts (unresolvedCount s) (cs_ReadyForManualResume (rs_status s)) (rs_status s)).

(** ** The gates the control plane asks *)

Definition Engine_CheckChain (s : RState) (now : time) (chainID : Z) : res unit :=
  check (chainID =? cf_ChainID cfg) && chainUsable (rs_status s) now else ErrChainUnavailable ;; Ok tt.

Definition CheckAuthorizationChain (s : RState) (now : time) (a : Authorization) : res unit :=
  check (a_ChainID a =? cf_ChainID cfg) && chainUsable (rs_status s) now else ErrChainUnavailable ;;
  check Unix (cs_StateChangedAt (rs_status s)) <=? a_IssuedAt a else ErrChainUnavailable ;;
  Ok tt.

(** ** Evidence *)

(** [healthy] with its checkpoint, or the reason it is not. *)
Definition snapshot_step (now : time) (first : Observation) (st : head_scan) (o : Observation) : res head_scan :=
  let latest := time_add now (cf_MaxFutureClockSkew cfg) in
  check identifier_pattern (o_Provider o) else "observer identity is invalid" ;;
  check negb (bool_decide (o_Provider o ∈ hs_providers st)) else "duplicate observer cannot contribute to quorum" ;;
  check (o_ChainID o =? cf_ChainID cfg) && hash_pattern (o_HeadHash o) && hash_pattern (o_AnchorHash o) &&
        (o_AnchorNumber o <=? o_HeadNumber o)
    else "observer returned invalid Base chain data" ;;
  check negb (time_IsZero (o_ObservedAt o)) && negb (time_IsZero (o_HeadTime o)) && negb (time_IsZero (o_AnchorTime o)) &&
        negb (time_after (o_ObservedAt o) latest) && negb (time_after (o_HeadTime o) latest) &&
        negb (time_after (o_AnchorTime o) latest)
    else "observer timestamps are invalid" ;;
  check time_sub now (o_ObservedAt o) <=? cf_ObservationMaxAge cfg
    else "observer result is stale even though the RPC may be reachable" ;;
  check time_sub now (o_HeadTime o) <=? cf_StallThreshold cfg
    else "Base head is not progressing within the configured threshold" ;;
  check (o_AnchorNumber o =? o_AnchorNumber first) && bool_decide (o_AnchorHash o = o_AnchorHash first)
    else "independent Base observers disagree on the canonical anchor" ;;
  Ok {| hs_min := if o_HeadNumber o <? hs_min st then o_HeadNumber o else hs_min st;
        hs_max := if hs_max st <? o_HeadNumber o then o_HeadNumber o else hs_max st;
        hs_providers := {[o_Provider o]} ∪ hs_providers st |}.

Definition evaluateSnapshot (c : ChainStatus) (now : time) (observations : list Observation) : res Checkpoint :=
  check cf_ObserverQuorum cfg <=? Z.of_nat (length observations)
    else "fewer than the required independent Base observers responded" ;;
  match observations with
  | [] => Err "panic: index out of range"
  | first :: rest =>
      try st := fold_res (snapshot_step now first)
        {| hs_min := o_HeadNumber first; hs_max := o_HeadNumber first; hs_providers := ∅ |} (first :: rest) in
      check uint64 (hs_max st - hs_min st) <=? cf_MaxHeadSkew cfg
        else "independent Base observer heads exceed the configured skew" ;;
      check match cs_LastTrusted c with
            | None => true
            | Some t =>
                negb ((o_AnchorNumber first <? ck_BlockNumber t) ||
                      (o_AnchorNumber first =? ck_BlockNumber t) && negb (bool_decide (o_AnchorHash first = ck_BlockHash t)))
            end
        else "canonical anchor regressed or conflicts with the last trusted checkpoint" ;;
      Ok {| ck_BlockNumber := o_AnchorNumber first; ck_BlockHash := o_AnchorHash first;
            ck_BlockTime := o_AnchorTime first; ck_ObservedAt := now; ck_Cursor := o_AnchorNumber first |}
  end.

Definition receipt_step (expected : ExpectedExecution) (canonical : ReceiptEvidence) (seen : gset string)
    (r : ReceiptEvidence) : res (gset string) :=
  check identifier_pattern (rv_Provider r) && negb (bool_decide (rv_Provider r ∈ seen)) else ErrUnsafeFinality ;;
  check (rv_ChainID r =? ex_ChainID expected) && bool_decide (rv_TransactionHash r = ex_TransactionHash expected) &&
        bool_decide (rv_Sender r = ex_Sender expected) && bool_decide (rv_Asset r = ex_Asset expected) &&
        bool_decide (rv_Recipient r = ex_Recipient expected) && bool_decide (rv_AmountAtomic r = ex_AmountAtomic expected)
    else ErrUnsafeFinality ;;
  check hash_pattern (rv_BlockHash r) && negb (rv_BlockNumber r =? 0) && (rv_BlockNumber r <=? rv_ConfirmedHead r) &&
        (cf_MinConfirmations cfg <=? uint64 (rv_ConfirmedHead r - rv_BlockNumber r + 1))
    else ErrUnsafeFinality ;;
  check (rv_BlockNumber r =? rv_BlockNumber canonical) && bool_decide (rv_BlockHash r = rv_BlockHash canonical) &&
        Bool.eqb (rv_Success r) (rv_Success canonical)
    else ErrUnsafeFinality ;;
  Ok ({[rv_Provider r]} ∪ seen).

(** The block is at or below the trusted checkpoint, and is it when it is at it. *)
Definition under_checkpoint (c : ChainStatus) (number : Z) (hash : string) : bool :=
  match cs_LastTrusted c with
  | None => false
  | Some t => negb ((ck_BlockNumber t <? number) || (number =? ck_BlockNumber t) && negb (bool_decide (hash = ck_BlockHash t)))
  end.

Definition validateReceiptQuorum (c : ChainStatus) (expected : ExpectedExecution) (evidence : list ReceiptEvidence)
    : res ReceiptEvidence :=
  check (cf_ObserverQuorum cfg <=? Z.of_nat (length evidence)) && (Z.of_nat (length evidence) <=? 5) else ErrUnsafeFinality ;;
  match evidence with
  | [] => Err "panic: index out of range"
  | canonical :: _ =>
      try _ := fold_res (receipt_step expected canonical) ∅ evidence in
      check under_checkpoint c (rv_BlockNumber canonical) (rv_BlockHash canonical) else ErrUnsafeFinality ;;
      Ok canonical
  end.

Definition reorg_step (e : Execution) (requireChanged : bool) (canonical : string) (st : gset string * Z)
    (o : ReorgEvidence) : res (gset string * Z) :=
  let '(seen, minimumHead) := st in
  check identifier_pattern (rg_Provider o) && negb (bool_decide (rg_Provider o ∈ seen)) else ErrUnsafeFinality ;;
  check (rg_ChainID o =? ex_ChainID (e_Expected e)) && bool_decide (rg_TransactionHash o = resolvedTransactionHash e) &&
        (rg_OriginalBlockNumber o =? e_BlockNumber e) && bool_decide (rg_OriginalBlockHash o = e_BlockHash e)
    else ErrUnsafeFinality ;;
  check hash_pattern (rg_CanonicalBlockHash o) && bool_decide (rg_CanonicalBlockHash o = canonical) else ErrUnsafeFinality ;;
  check (if requireChanged then negb (bool_decide (rg_CanonicalBlockHash o = e_BlockHash e))
         else bool_decide (rg_CanonicalBlockHash o = e_BlockHash e))
    else ErrUnsafeFinality ;;
  check (e_BlockNumber e <=? rg_ObservedHead o) && (cf_ReorgLookback cfg <=? uint64 (rg_ObservedHead o - e_BlockNumber e))
    else ErrUnsafeFinality ;;
  Ok ({[rg_Provider o]} ∪ seen, if rg_ObservedHead o <? minimumHead then rg_ObservedHead o else minimumHead).

(** The trusted checkpoint is deep enough over [number]. *)
Definition settled_below (c : ChainStatus) (number : Z) : bool :=
  match cs_LastTrusted c with
  | None => false
  | Some t => (number <=? ck_BlockNumber t) && (cf_ReorgLookback cfg <=? uint64 (ck_BlockNumber t - number))
  end.

(** The lowest head the observers reported. *)
Definition validateCanonicalBlockQuorum (c : ChainStatus) (e : Execution) (evidence : list ReorgEvidence)
    (requireChanged : bool) : res Z :=
  check cf_ObserverQuorum cfg <=? Z.of_nat (length evidence) else ErrUnsafeFinality ;;
  match evidence with
  | [] => Err "panic: index out of range"
  | first :: _ =>
      try st := fold_res (reorg_step e requireChanged (rg_CanonicalBlockHash first)) (∅, rg_ObservedHead first) evidence in
      check settled_below c (e_BlockNumber e) else ErrUnsafeFinality ;;
      Ok st.2
  end.

Definition reorg_le (x y : ReorgEvidence) : Prop := String.leb (rg_Provider x) (rg_Provider y) = true.
#[export] Instance reorg_le_dec x y : Decision (reorg_le x y).
Proof. unfold reorg_le. apply _. Defined.

Definition json_Reorg (o : ReorgEvidence) : string :=
  json_object [
    ("provider", Some (json_string (rg_Provider o)));
    ("chainId", Some (json_int (rg_ChainID o)));
    ("transactionHash", Some (json_string (rg_TransactionHash o)));
    ("originalBlockNumber", Some (json_int (rg_OriginalBlockNumber o)));
    ("originalBlockHash", Some (json_string (rg_OriginalBlockHash o)));
    ("canonicalBlockHash", Some (json_string (rg_CanonicalBlockHash o)));
    ("observedHead", Some (json_int (rg_ObservedHead o)))].

(** A nil slice is [null]. *)
Definition digestReorgEvidence (evidence : list ReorgEvidence) : string * list ReorgEvidence :=
  let canonical := merge_sort reorg_le evidence in
  ("0x" +:+ hex_encode (sha256 (match canonical with [] => "null" | _ => json_array (map json_Reorg canonical) end)), canonical).

(** *** Escrow evidence *)

Definition escrow_receipt_step (x : EscrowExpectedReceipt) (canonical : EscrowReceiptEvidence) (seen : gset string)
    (r : EscrowReceiptEvidence) : res (gset string) :=
  check identifier_pattern (er_Provider r) && negb (bool_decide (er_Provider r ∈ seen)) else ErrUnsafeFinality ;;
  check bool_decide (er_Action r = xr_Action x) && (er_ChainID r =? xr_ChainID x) &&
        bool_decide (er_TransactionHash r = xr_TransactionHash x) && bool_decide (er_CallID r = xr_CallID x) &&
        negb (er_BlockNumber r =? 0) && hash_pattern (er_BlockHash r) && (er_BlockNumber r <=? er_ConfirmedHead r) &&
        (cf_MinConfirmations cfg <=? uint64 (er_ConfirmedHead r - er_BlockNumber r + 1))
    else ErrUnsafeFinality ;;
  check (er_BlockNumber r =? er_BlockNumber canonical) && bool_decide (er_BlockHash r = er_BlockHash canonical) &&
        Bool.eqb (er_Success r) (er_Success canonical) && (er_DeliveredAt r =? er_DeliveredAt canonical) &&
        (er_ReleasableAt r =? er_ReleasableAt canonical)
    else ErrUnsafeFinality ;;
  Ok ({[er_Provider r]} ∪ seen).

(** The delivery times belong to a successful delivery, and to nothing else. *)
Definition delivery_times_ok (x : EscrowExpectedReceipt) (r : EscrowReceiptEvidence) : bool :=
  if er_Success r && bool_decide (xr_Action x = EscrowDeliver) then
    negb (er_DeliveredAt r =? 0) && (er_DeliveredAt r <=? 2 ^ 64 - 1 - xr_ReleaseWindow x) &&
    (er_ReleasableAt r =? uint64 (er_DeliveredAt r + xr_ReleaseWindow x))
  else (er_DeliveredAt r =? 0) && (er_ReleasableAt r =? 0).

Definition validateEscrowReceiptQuorum (c : ChainStatus) (x : EscrowExpectedReceipt) (evidence : list EscrowReceiptEvidence)
    : res EscrowReceiptEvidence :=
  check (cf_ObserverQuorum cfg <=? Z.of_nat (length evidence)) && (Z.of_nat (length evidence) <=? 5) else ErrUnsafeFinality ;;
  match evidence with
  | [] => Err "panic: index out of range"
  | canonical :: _ =>
      try _ := fold_res (escrow_receipt_step x canonical) ∅ evidence in
      check delivery_times_ok x canonical else ErrUnsafeFinality ;;
      check under_checkpoint c (er_BlockNumber canonical) (er_BlockHash canonical) else ErrUnsafeFinality ;;
      Ok canonical
  end.

(** The block of a transition, as an execution that only has a block. *)
Definition transition_execution (t : EscrowTransition) : Execution :=
  mkExecution (mkExpectedExecution "" "" "" "" "" (xr_TransactionHash (et_Expected t)) (xr_ChainID (et_Expected t)) "" "" "" "")
    "" 0 None None None (et_BlockNumber t) (et_BlockHash t) "" "" "" "" None 0 "" None "".

Definition validateEscrowCanonicalQuorum (c : ChainStatus) (t : EscrowTransition) (evidence : list ReorgEvidence)
    (requireChanged : bool) : res Z :=
  validateCanonicalBlockQuorum c (transition_execution t) evidence requireChanged.

(** ** Events *)

Definition eventChainStatus : string := "chain_status".
Definition eventExecutionBroadcast : string := "execution_broadcast".
Definition eventExecutionResolved : string := "execution_resolved".
Definition eventExecutionReorged : string := "execution_reorged".
Definition eventExecutionQuarantine : string := "execution_quarantine".
Definition eventLedgerPosted : string := "ledger_posted".
Definition eventEscrowIntent : string := "escrow_intent_registered".
Definition eventEscrowPending : string := "escrow_transition_pending".
Definition eventEscrowResolved : string := "escrow_transition_resolved".
Definition eventEscrowReorged : string := "escrow_transition_reorged".

(** The payloads; of the evidence that is only kept for audit, nothing. *)
Inductive rpayload :=
| PChain (status : ChainStatus) (operator : string) (markBroadcastsPending : bool)
| PExecution (execution : Execution) (ledger : option LedgerTransaction) (status : option ChainStatus)
| PLedger (transaction : LedgerTransaction)
| PEscrow (payload : escrowPayload).

Record revent := mkrevent { rve_At : time; rve_Kind : string; rve_Key : string; rve_Payload : rpayload }.

(** [json.Unmarshal] of a payload: free text comes back as valid UTF-8; the
    other text is identifiers, hex and constants. *)
Definition decode_status (c : ChainStatus) : ChainStatus :=
  set_state (cs_State c) (utf8_coerce (cs_Reason c)) (cs_StateChangedAt c) (cs_ConsecutiveUnhealthy c) (cs_ConsecutiveRecovery c) c.

Definition decode_attestation (b : BroadcastAttestation) : BroadcastAttestation :=
  {| ba_SignedReceipt := decode_Receipt (ba_SignedReceipt b); ba_Authorization := decode_Authorization 0 (ba_Authorization b);
     ba_PublicKeyB64 := ba_PublicKeyB64 b |}.

Definition decode_claim (c : X402SettlementClaim) : X402SettlementClaim :=
  {| xc_Authorization := decode_Authorization 0 (xc_Authorization c); xc_SignedReceipt := decode_Receipt (xc_SignedReceipt c);
     xc_PublicKeyB64 := xc_PublicKeyB64 c; xc_Success := xc_Success c; xc_Payer := xc_Payer c;
     xc_Transaction := xc_Transaction c; xc_Network := xc_Network c; xc_Amount := xc_Amount c |}.

Definition decode_execution (e : Execution) : Execution :=
  set_proofs (option_map decode_attestation (e_BroadcastAttestation e)) (option_map decode_claim (e_X402SettlementClaim e))
    (e_TransactionRecovery e) (e_ResolvedTransactionHash e) (e_RecoveryResolutionActor e)
    (set_outcome (e_State e) (utf8_coerce (e_Resolution e)) (e_ResolvedAt e) e).

Definition decode_transition (t : EscrowTransition) : EscrowTransition :=
  mkEscrowTransition (et_Expected t) (et_State t) (et_ReorgedFrom t) (et_RegisteredAt t)
    (option_map decode_attestation (et_BroadcastAttestation t)) (et_ResolvedAt t) (et_BlockNumber t) (et_BlockHash t)
    (et_Resolution t) (et_EvidenceDigest t) (et_LedgerTransactionID t) (et_CorrectionTransactionID t)
    (et_FinalityCheckedAt t) (et_FinalityCheckedHead t).

Definition decode_call (c : EscrowCall) : EscrowCall :=
  set_pending (option_map decode_transition (ec_Pending c)) (set_history (ec_State c) (map decode_transition (ec_Transitions c)) c).

Definition decode_escrow (p : escrowPayload) : escrowPayload :=
  mkescrowPayload (decode_call (ep_Call p)) (ep_Evidence p) (ep_Reorg p) (ep_Ledgers p) (option_map decode_status (ep_Status p)).

Definition decode_payload (p : rpayload) : rpayload :=
  match p with
  | PChain status operator mark => PChain (decode_status status) operator mark
  | PExecution e l status => PExecution (decode_execution e) l (option_map decode_status status)
  | PLedger t => PLedger t
  | PEscrow p => PEscrow (decode_escrow p)
  end.

(** ** Applying an event *)

Definition trackManualRelease (operator : string) (s : RState) : RState :=
  let c := rs_status s in
  let c := set_observed (or_default (cs_RequiredObserverQuorum c) (cf_ObserverQuorum cfg)) (cs_RespondingObservers c)
             (match cs_LastTrusted c with
              | Some t => if time_IsZero (cs_LastObservationAt c) then ck_ObservedAt t else cs_LastObservationAt c
              | None => cs_LastObservationAt c
              end) c in
  let s := with_status s c in
  if negb (bool_decide (cs_State c = StateHealthy)) then with_lastOperator s ""
  else if negb (bool_decide (operator = "")) then with_lastOperator s operator
  else s.

Definition applyLedger (s : RState) (t : LedgerTransaction) : RState :=
  with_ledger s (<[lt_TransactionID t := t]> (rs_ledger s)) (apply_postings (rs_balances s) t).

(** No replacement was observed. *)
Definition no_replacement (r : TransactionRecovery) : bool :=
  bool_decide (tr_ReplacementTransaction r = "") && bool_decide (tr_ReplacementRecipient r = "") &&
  bool_decide (tr_ReplacementAmountAtomic r = "") && (tr_ReplacementBlockNumber r =? 0) &&
  bool_decide (tr_ReplacementBlockHash r = "").

Definition recovery_validate (e : ExpectedExecution) (r : TransactionRecovery) : res unit :=
  check negb (tr_ScanFromBlock r =? 0) && (tr_ScanFromBlock r <=? tr_ThroughBlock r) && hash_pattern (tr_ThroughBlockHash r) &&
        hash_pattern (tr_EvidenceDigest r) && negb (time_IsZero (tr_ObservedAt r))
    else "execution transaction recovery evidence is invalid" ;;
  check bool_decide (tr_Outcome r = RecoveryOriginalPending) || (tr_Nonce r <? tr_AccountNonce r)
    else "terminal transaction recovery did not prove nonce consumption" ;;
  let replaced := hash_pattern (tr_ReplacementTransaction r) &&
                  negb (bool_decide (tr_ReplacementTransaction r = ex_TransactionHash e)) in
  let mined := negb (tr_ReplacementBlockNumber r =? 0) && (tr_ReplacementBlockNumber r <=? tr_ThroughBlock r) &&
               hash_pattern (tr_ReplacementBlockHash r) in
  if bool_decide (tr_Outcome r = RecoveryOriginalPending) then
    check tr_AccountNonce r <=? tr_Nonce r else "pending transaction recovery claims a consumed nonce" ;;
    check no_replacement r else "transaction recovery outcome contains unexpected replacement evidence" ;;
    Ok tt
  else if bool_decide (tr_Outcome r = RecoveryDropped) then
    check no_replacement r else "transaction recovery outcome contains unexpected replacement evidence" ;; Ok tt
  else if bool_decide (tr_Outcome r = RecoveryExpectedReplacement) then
    check replaced && bool_decide (tr_ReplacementRecipient r = ex_Recipient e) &&
          bool_decide (tr_ReplacementAmountAtomic r = ex_AmountAtomic e) && mined
      else "transaction recovery expected replacement evidence is invalid" ;;
    check is_ok (positiveInteger (tr_ReplacementAmountAtomic r)) else "transaction recovery replacement amount is invalid" ;;
    Ok tt
  else if bool_decide (tr_Outcome r = RecoveryUnknownTransfer) then
    check replaced && address_pattern (tr_ReplacementRecipient r) && mined
      else "transaction recovery replacement evidence is invalid" ;;
    check is_ok (positiveInteger (tr_ReplacementAmountAtomic r)) else "transaction recovery replacement amount is invalid" ;;
    check negb (bool_decide (tr_ReplacementRecipient r = ex_Recipient e) &&
                bool_decide (tr_ReplacementAmountAtomic r = ex_AmountAtomic e))
      else "unknown transaction recovery matches the expected transfer" ;;
    Ok tt
  else Err "transaction recovery outcome is invalid".

(** What [next] leaves out is taken over from the execution it replaces. *)
Definition inherit {A} (next current : option A) : option A := match next with Some _ => next | None => current end.
Definition inherit_text (next current : string) : string := if bool_decide (next = "") then current else next.

Definition preserveBroadcastAttestation (executions : gmap string Execution) (next : Execution) : res Execution :=
  let current := executions !! ex_ExecutionID (e_Expected next) in
  let attestation := inherit (e_BroadcastAttestation next) (c ← current; e_BroadcastAttestation c) in
  try _ := match attestation with Some b => attestation_validate b (e_Expected next) | None => Ok tt end in
  let claim := inherit (e_X402SettlementClaim next) (c ← current; e_X402SettlementClaim c) in
  try _ := match claim with Some c => claim_validate c (e_Expected next) | None => Ok tt end in
  check match attestation, claim with Some _, Some _ => false | _, _ => true end
    else "execution cannot carry both direct and x402 broadcast evidence" ;;
  let recovery := inherit (e_TransactionRecovery next) (c ← current; e_TransactionRecovery c) in
  let resolvedHash := inherit_text (e_ResolvedTransactionHash next) (default "" (e_ResolvedTransactionHash <$> current)) in
  let actor := inherit_text (e_RecoveryResolutionActor next) (default "" (e_RecoveryResolutionActor <$> current)) in
  try _ := match recovery with Some r => recovery_validate (e_Expected next) r | None => Ok tt end in
  check bool_decide (resolvedHash = "") || hash_pattern resolvedHash else "resolved transaction hash is invalid" ;;
  check bool_decide (actor = "") || identifier_pattern actor else "recovery resolution actor is invalid" ;;
  Ok (set_proofs attestation claim recovery resolvedHash actor next).

Definition apply_broadcast (s : RState) (kind key : string) (payload : Execution) : res RState :=
  try e := preserveBroadcastAttestation (rs_executions s) payload in
  let id := ex_ExecutionID (e_Expected e) in
  check bool_decide (key = id) else "execution event key does not match execution identity" ;;
  let current := rs_executions s !! key in
  check match current with
        | Some c => equal_expected (e_Expected c) (e_Expected e) && (e_BroadcastAt c =? e_BroadcastAt e)
        | None => true
        end
    else "execution event changed immutable broadcast identity" ;;
  check negb (bool_decide (kind = eventExecutionBroadcast)) || bool_decide (e_State e = ExecutionBroadcast) ||
        bool_decide (e_State e = ExecutionPendingChainRecovery)
    else "broadcast event contains a non-broadcast execution state" ;;
  check negb (bool_decide (kind = eventExecutionQuarantine)) ||
        match current with Some _ => bool_decide (e_State e = ExecutionQuarantined) | None => false end
    else "quarantine event does not transition an existing execution" ;;
  check match rs_escrowByHash s !! ex_TransactionHash (e_Expected e) with Some _ => false | None => true end
    else "execution transaction hash is already bound to an escrow transition" ;;
  Ok (with_executions s (<[id := e]> (rs_executions s)) (<[ex_TransactionHash (e_Expected e) := id]> (rs_executionByHash s))).

Definition apply_resolved (s : RState) (payload : Execution) (ledger : option LedgerTransaction)
    (status : option ChainStatus) : res RState :=
  try e := preserveBroadcastAttestation (rs_executions s) payload in
  let s := with_executions s (<[ex_ExecutionID (e_Expected e) := e]> (rs_executions s)) (rs_executionByHash s) in
  let s := match ledger with Some t => applyLedger s t | None => s end in
  Ok (match status with Some c => trackManualRelease "" (with_status s c) | None => s end).

(** *** Escrow events *)

(** The receipt of the pending transition [q] resolves it. *)
Definition evolve_resolved (c : ChainStatus) (eventAt : time) (current : EscrowCall) (q : EscrowTransition) (p : escrowPayload)
    : res unit :=
  let call := ep_Call p in
  check match ec_Pending call with None => true | Some _ => false end &&
        Nat.eqb (length (ec_Transitions call)) (length (ec_Transitions current) + 1) &&
        negb (Nat.eqb (length (ep_Evidence p)) 0) && Nat.eqb (length (ep_Reorg p)) 0
    else "escrow receipt resolution event shape is invalid" ;;
  match last (ec_Transitions call) with
  | None => Err "panic: index out of range"
  | Some resolved =>
      let prior := set_call_resolution (ec_Resolution current) (set_pending (ec_Pending current)
                     (set_history (ec_State current) (ec_Transitions current) call)) in
      check equal_call prior current && equal_expected_receipt (et_Expected resolved) (et_Expected q) &&
            (et_RegisteredAt resolved =? et_RegisteredAt q) && bool_decide (et_ResolvedAt resolved = Some eventAt)
        else "escrow receipt resolution changed immutable or unrelated state" ;;
      match validateEscrowReceiptQuorum c (et_Expected resolved) (ep_Evidence p) with
      | Err _ => Err "escrow resolved snapshot does not match its quorum evidence"
      | Ok canonical =>
          check (et_BlockNumber resolved =? er_BlockNumber canonical) && bool_decide (et_BlockHash resolved = er_BlockHash canonical) &&
                bool_decide (et_EvidenceDigest resolved = digestEscrowEvidence (ep_Evidence p)) &&
                Bool.eqb (er_Success canonical) (bool_decide (et_State resolved = EscrowTransitionConfirmed))
            else "escrow resolved snapshot does not match its quorum evidence" ;;
          Ok tt
      end
  end.

(** Walk over the two histories; the transition whose finality changed is put
    back in the copy. *)
Fixpoint evolve_finality (c : ChainStatus) (eventAt : time) (reorg : list ReorgEvidence) (changed : bool)
    (current next : list EscrowTransition) : res (bool * list EscrowTransition) :=
  match current, next with
  | before :: current, after :: next =>
      if equal_transition before after then
        try st := evolve_finality c eventAt reorg changed current next in Ok (st.1, after :: st.2)
      else
        let candidate := set_checked (et_FinalityCheckedAt before) (et_FinalityCheckedHead before) after in
        check negb changed && equal_transition candidate before &&
              match et_FinalityCheckedAt before with None => true | Some _ => false end &&
              bool_decide (et_FinalityCheckedAt after = Some eventAt)
          else "escrow finality event changed more than finality evidence" ;;
        match validateEscrowCanonicalQuorum c before reorg false with
        | Err _ => Err "escrow finality snapshot does not match quorum evidence"
        | Ok head =>
            check et_FinalityCheckedHead after =? head else "escrow finality snapshot does not match quorum evidence" ;;
            try st := evolve_finality c eventAt reorg true current next in Ok (st.1, before :: st.2)
        end
  | _, _ => Ok (changed, [])
  end.

(** A reorged transition keeps everything but its state, correction and text. *)
Definition reorged_from (before after : EscrowTransition) : bool :=
  bool_decide (et_State after = EscrowTransitionReorged) && bool_decide (et_ReorgedFrom after = et_State before) &&
  equal_expected_receipt (et_Expected after) (et_Expected before) && (et_RegisteredAt after =? et_RegisteredAt before) &&
  equal_opt_time (et_ResolvedAt after) (et_ResolvedAt before) && (et_BlockNumber after =? et_BlockNumber before) &&
  bool_decide (et_BlockHash after = et_BlockHash before) && bool_decide (et_EvidenceDigest after = et_EvidenceDigest before) &&
  equal_opt_time (et_FinalityCheckedAt after) (et_FinalityCheckedAt before) &&
  (et_FinalityCheckedHead after =? et_FinalityCheckedHead before) &&
  bool_decide (et_LedgerTransactionID after = et_LedgerTransactionID before).

(** The first transition that changed. *)
Fixpoint evolve_reorg (first : option EscrowTransition) (current next : list EscrowTransition) : res (option EscrowTransition) :=
  match current, next with
  | before :: current, after :: next =>
      match first with
      | None =>
          if equal_transition before after then evolve_reorg None current next
          else check reorged_from before after else "escrow reorg event altered immutable transition history" ;;
               evolve_reorg (Some before) current next
      | Some f =>
          if equal_transition before after then
            check negb (bool_decide (et_State f = EscrowTransitionConfirmed)) else "escrow reorg left a dependent transition live" ;;
            evolve_reorg first current next
          else
            check negb (bool_decide (et_State f = EscrowTransitionReverted))
              else "reorged reverted transition altered an independent suffix" ;;
            check reorged_from before after else "escrow reorg event altered immutable transition history" ;;
            evolve_reorg first current next
      end
  | _, _ => Ok first
  end.

Definition no_status (p : escrowPayload) : bool := match ep_Status p with None => true | Some _ => false end.
Definition no_extras (p : escrowPayload) : bool :=
  Nat.eqb (length (ep_Evidence p)) 0 && Nat.eqb (length (ep_Reorg p)) 0 && Nat.eqb (length (ep_Ledgers p)) 0 && no_status p.
Definition no_pending (c : EscrowCall) : bool := match ec_Pending c with None => true | Some _ => false end.

Definition validateEscrowEventEvolution (c : ChainStatus) (kind : string) (eventAt : time) (current : option EscrowCall)
    (p : escrowPayload) : res unit :=
  let call := ep_Call p in
  if bool_decide (kind = eventEscrowIntent) then
    check match current with None => true | Some _ => false end && no_extras p
      else "escrow intent event contains transition evidence" ;; Ok tt
  else if bool_decide (kind = eventEscrowPending) then
    match current with
    | None => Err "escrow pending event shape is invalid"
    | Some current =>
        check no_pending current && negb (no_pending call) && no_extras p else "escrow pending event shape is invalid" ;;
        check equal_call (set_pending None call) current else "escrow pending event changed state beyond one candidate" ;; Ok tt
    end
  else if bool_decide (kind = eventEscrowResolved) then
    match current with
    | None => Err "escrow resolved event identity is invalid"
    | Some current =>
        check no_status p else "escrow resolved event identity is invalid" ;;
        match ec_Pending current with
        | Some q => evolve_resolved c eventAt current q p
        | None =>
            check no_pending call && Nat.eqb (length (ec_Transitions call)) (length (ec_Transitions current)) &&
                  Nat.eqb (length (ep_Evidence p)) 0 && negb (Nat.eqb (length (ep_Reorg p)) 0) && Nat.eqb (length (ep_Ledgers p)) 0
              else "escrow finality event shape is invalid" ;;
            try st := evolve_finality c eventAt (ep_Reorg p) false (ec_Transitions current) (ec_Transitions call) in
            check st.1 && equal_call (set_history (ec_State call) st.2 call) current
              else "escrow finality event has no exact transition delta" ;; Ok tt
        end
    end
  else if bool_decide (kind = eventEscrowReorged) then
    match current, ep_Status p with
    | Some current, Some status =>
        check no_pending call && Nat.eqb (length (ep_Evidence p)) 0 && negb (Nat.eqb (length (ep_Reorg p)) 0) &&
              Nat.eqb (length (ec_Transitions call)) (length (ec_Transitions current))
          else "escrow reorg event shape is invalid" ;;
        try first := evolve_reorg None (ec_Transitions current) (ec_Transitions call) in
        match first with
        | None => Err "escrow reorg event has no transition delta"
        | Some f =>
            check is_ok (validateEscrowCanonicalQuorum c f (ep_Reorg p) true)
              else "escrow reorg snapshot does not match quorum evidence" ;;
            check bool_decide (ec_State call = EscrowPositionQuarantined) && bool_decide (cs_State status = StateRecovering) &&
                  (cs_StateChangedAt status =? eventAt)
              else "escrow reorg did not quarantine call and chain state" ;; Ok tt
        end
    | _, _ => Err "escrow reorg event shape is invalid"
    end
  else Err "unsupported escrow event evolution".

(** The deployment the engine was configured for. *)
Definition escrow_deployment (i : EscrowIntent) : bool :=
  negb (bool_decide (cf_EscrowContract cfg = "")) && bool_decide (ei_Contract i = cf_EscrowContract cfg) &&
  bool_decide (ei_Asset i = cf_EscrowAsset cfg) && (ei_ReleaseWindow i =? cf_EscrowReleaseWindow cfg).

(** A hash of a transition is this call's alone. *)
Definition hash_free (s : RState) (callID hash : string) : bool :=
  match rs_escrowByHash s !! hash with Some other => bool_decide (other = callID) | None => true end &&
  match rs_executionByHash s !! hash with Some _ => false | None => true end.

Definition call_hashes (c : EscrowCall) : list string :=
  map (fun t => xr_TransactionHash (et_Expected t)) (ec_Transitions c) ++
  match ec_Pending c with Some p => [xr_TransactionHash (et_Expected p)] | None => [] end.

(** The call is new, or is still the same call. *)
Definition escrow_identity (kind : string) (at_ : time) (current : option EscrowCall) (call : EscrowCall) : res unit :=
  if bool_decide (kind = eventEscrowIntent) then
    check match current with None => true | Some _ => false end && (ec_RegisteredAt call =? at_) && no_pending call &&
          Nat.eqb (length (ec_Transitions call)) 0
      else "escrow intent event does not create exactly one new call" ;; Ok tt
  else
    check match current with
          | Some current => equal_intent (ec_Intent current) (ec_Intent call) && (ec_RegisteredAt current =? ec_RegisteredAt call)
          | None => false
          end
      else "escrow event changed immutable call identity" ;; Ok tt.

Definition apply_escrow (s : RState) (kind key : string) (at_ : time) (p : escrowPayload) : res RState :=
  let call := ep_Call p in
  let i := ec_Intent call in
  let callID := ei_CallID i in
  check bool_decide (key = callID) else "escrow event key does not match call identity" ;;
  check escrow_deployment i else ErrEscrowDeployment ;;
  let current := rs_escrowCalls s !! callID in
  try _ := escrow_identity kind at_ current call in
  check match rs_escrowByAuth s !! ei_AuthorizationID i with Some other => bool_decide (other = callID) | None => true end
    else "escrow authorization is already bound to another call" ;;
  check forallb (hash_free s callID) (call_hashes call) else "escrow transaction hash is already bound" ;;
  try _ := validateSnapshot call (cf_ChainID cfg) in
  try _ := validateEscrowEventEvolution (rs_status s) kind at_ current p in
  try _ := validateEscrowLedgerBindings call (ep_Ledgers p) (rs_ledger s) at_ in
  let s := with_escrow s (<[callID := call]> (rs_escrowCalls s)) (<[ei_AuthorizationID i := callID]> (rs_escrowByAuth s))
             (fold_left (fun m h => <[h := callID]> m) (call_hashes call) (rs_escrowByHash s)) in
  let s := fold_left applyLedger (ep_Ledgers p) s in
  Ok (match ep_Status p with Some c => trackManualRelease "" (with_status s c) | None => s end).

(** The last check of [apply]: an absent chain ID is filled in, another chain's
    status is refused. (The engine has assigned the fields by then; no operation
    writes a status of another chain.) *)
Definition check_chain (s : RState) : res RState :=
  let c := rs_status s in
  if cs_ChainID c =? 0 then Ok (with_status s (set_chain (cf_ChainID cfg) c))
  else check cs_ChainID c =? cf_ChainID cfg
         else "reconciliation chain status does not match configured chain" ;;
       Ok s.

(** [apply]: a payload that does not have the shape of its kind does not
    unmarshal into it. *)
Definition apply (s : RState) (ev : revent) : res RState :=
  try s := match rve_Payload ev with
    | PChain status operator mark =>
        check bool_decide (rve_Kind ev = eventChainStatus) else "unsupported reconciliation event kind" ;;
        let s := trackManualRelease operator (with_status s status) in
        Ok (if bool_decide (cs_State (rs_status s) = StateHalted) || mark then markBroadcastsPending s else s)
    | PExecution e ledger status =>
        if bool_decide (rve_Kind ev = eventExecutionBroadcast) || bool_decide (rve_Kind ev = eventExecutionQuarantine)
        then apply_broadcast s (rve_Kind ev) (rve_Key ev) e
        else check bool_decide (rve_Kind ev = eventExecutionResolved) || bool_decide (rve_Kind ev = eventExecutionReorged)
               else "unsupported reconciliation event kind" ;;
             apply_resolved s e ledger status
    | PLedger t =>
        check bool_decide (rve_Kind ev = eventLedgerPosted) else "unsupported reconciliation event kind" ;;
        Ok (applyLedger s t)
    | PEscrow p =>
        check bool_decide (rve_Kind ev ∈ [eventEscrowIntent; eventEscrowPending; eventEscrowResolved; eventEscrowReorged])
          else "unsupported reconciliation event kind" ;;
        apply_escrow s (rve_Kind ev) (rve_Key ev) (rve_At ev) p
    end in
  check_chain s.

(** ** The engine and its journal *)

Record REngine := mkREngine {
  re_state : RState;
  re_stream : list revent;
  re_fault : option error;
}.

(** Refused before anything was written (a cancelled context, a time that cannot
    be marshalled, a closed journal); failed in the file, with or without the
    event in it; or durable. *)
Inductive rio :=
| RRefused (m : error)
| RFails (m : error) (written : bool)
| RWritten.

(** [journal.append] then [apply]. *)
Definition commit (g : REngine) (io : rio) (ev : revent) : REngine * res unit :=
  match re_fault g with
  | Some m => (g, Err m)
  | None =>
      match io with
      | RRefused m => (g, Err m)
      | RFails m written =>
          (mkREngine (re_state g) (if written then re_stream g ++ [ev] else re_stream g) (Some m), Err m)
      | RWritten =>
          let stream := re_stream g ++ [ev] in
          match apply (re_state g) (mkrevent (rve_At ev) (rve_Kind ev) (rve_Key ev) (decode_payload (rve_Payload ev))) with
          | Err m => (mkREngine (re_state g) stream None, Err m)
          | Ok s => (mkREngine s stream None, Ok tt)
          end
      end
  end.

Definition refresh (now : time) (g : REngine) : REngine :=
  mkREngine (refreshAffected now (re_state g)) (re_stream g) (re_fault g).

(** What an operation reads: the clock, in the order it is read, and the answer
    to its append. *)
Record renv := mkrenv { rn_check : time; rn_ready : time; rn_now : time; rn_refresh : time; rn_io : rio }.
End Engine.

(** ** Operations *)

Section Operations.
Context `{Crypto}.
Variable cfg : ReconConfig.

(** [Open]: [now] is the reading at construction, [refreshNow] the last one. *)
Definition initial_state (now : time) : RState :=
  mkRState (setPauseFlags (mkChainStatus (cf_ChainID cfg) StateSuspectedStall
      "startup requires fresh independent Base observations" None (cf_ObserverQuorum cfg) 0 0 now 0 0 0 false
      false false false false))
    ∅ ∅ ∅ ∅ ∅ ∅ ∅ "".

Definition replay_event (s : RState) (ev : revent) : res RState :=
  apply cfg s (mkrevent (rve_At ev) (rve_Kind ev) (rve_Key ev) (decode_payload (rve_Payload ev))).

Definition restart_status (now : time) (c : ChainStatus) : ChainStatus :=
  setPauseFlags (set_counts (cs_AffectedExecutions c) false
    (set_state (if bool_decide (cs_State c = StateHealthy) then StateSuspectedStall else cs_State c)
      "process restart requires a fresh independent Base stability window" now 0 0 c)).

(** The durable stream it leaves, and the engine unless it fails. *)
Definition Engine_Open (env : renv) (stream : list revent) : list revent * res REngine :=
  let now := rn_now env in
  match fold_res replay_event (initial_state now) stream with
  | Err m => (stream, Err m)
  | Ok s =>
  let g := mkREngine s stream None in
  if bool_decide (cs_State (rs_status s) = StateHealthy) || bool_decide (cs_State (rs_status s) = StateRecovering) then
    let '(g, r) := commit cfg g (rn_io env) (mkrevent now eventChainStatus "restart" (PChain (restart_status now (rs_status s)) "" true)) in
    (re_stream g, match r with Err m => Err m | Ok _ => Ok (refresh cfg (rn_refresh env) g) end)
  else (stream, Ok (refresh cfg (rn_refresh env) g))
  end.

(** The status after a healthy snapshot, before the checkpoint advances. *)
Definition observe_healthy (s : RState) (now : time) (c : ChainStatus) : ChainStatus :=
  let c :=
    if bool_decide (cs_State c = StateHealthy) then
      set_state (cs_State c) "independent Base observers agree on canonical progression" (cs_StateChangedAt c) 0 (cs_ConsecutiveRecovery c) c
    else if bool_decide (cs_State c = StateSuspectedStall) || bool_decide (cs_State c = StateHalted) then
      set_state StateRecovering "canonical progression resumed; reconciliation and manual release remain required" now 0 1 c
    else if bool_decide (cs_State c = StateRecovering) then
      set_state (cs_State c) "recovery observations agree; manual release remains required" (cs_StateChangedAt c)
        (cs_ConsecutiveUnhealthy c) (cs_ConsecutiveRecovery c + 1) c
    else c in
  if bool_decide (cs_State c = StateRecovering) && (cf_RecoveryObservations cfg <=? cs_ConsecutiveRecovery c) && (unresolvedCount s =? 0) then
    set_counts (cs_AffectedExecutions c) true
      (set_state (cs_State c) "recovery stability reached and all ambiguous executions resolved or quarantined"
         (cs_StateChangedAt c) (cs_ConsecutiveUnhealthy c) (cs_ConsecutiveRecovery c) c)
  else c.

Definition advance_trusted (k : Checkpoint) (c : ChainStatus) : ChainStatus :=
  match cs_LastTrusted c with
  | None => set_trusted (Some k) c
  | Some t =>
      if (ck_BlockNumber t <? ck_BlockNumber k) ||
         (ck_BlockNumber k =? ck_BlockNumber t) && bool_decide (ck_BlockHash k = ck_BlockHash t)
      then set_trusted (Some k) c else c
  end.

Definition observe_unhealthy (now : time) (reason : string) (c : ChainStatus) : ChainStatus :=
  if bool_decide (cs_State c = StateHealthy) then set_state StateSuspectedStall reason now 1 0 c
  else if bool_decide (cs_State c = StateSuspectedStall) then
    let unhealthy := cs_ConsecutiveUnhealthy c + 1 in
    if cf_HaltConfirmations cfg <=? unhealthy
    then set_state StateHalted reason now unhealthy (cs_ConsecutiveRecovery c) c
    else set_state (cs_State c) reason (cs_StateChangedAt c) unhealthy (cs_ConsecutiveRecovery c) c
  else if bool_decide (cs_State c = StateRecovering) then set_state StateHalted reason now 1 0 c
  else if bool_decide (cs_State c = StateHalted) then
    set_state (cs_State c) reason (cs_StateChangedAt c) (cs_ConsecutiveUnhealthy c + 1) (cs_ConsecutiveRecovery c) c
  else set_state (cs_State c) reason (cs_StateChangedAt c) (cs_ConsecutiveUnhealthy c) (cs_ConsecutiveRecovery c) c.

(** The status [Observe] commits. *)
Definition observed_status (s : RState) (now : time) (observations : list Observation) : ChainStatus :=
  let c := set_observed (cf_ObserverQuorum cfg) (Z.of_nat (length observations)) now (rs_status s) in
  let c := if bool_decide (cs_State c = StateHealthy) && negb (trustedFresh cfg (rs_status s) now)
           then set_state StateSuspectedStall "observer heartbeat or trusted Base head expired before this snapshot" now 1
                  (cs_ConsecutiveRecovery c) c
           else c in
  let c := set_counts (cs_AffectedExecutions c) false c in
  let c := match evaluateSnapshot cfg (rs_status s) now observations with
           | Ok checkpoint => advance_trusted checkpoint (observe_healthy s now c)
           | Err reason => observe_unhealthy now reason c
           end in
  let c := setPauseFlags c in
  set_counts (unresolvedCount s) (cs_ReadyForManualResume c) c.

(** [fmt.Sprintf("snapshot:%d", now.UnixNano())] *)
Definition snapshot_key (now : time) : string := "snapshot:" +:+ dec_string (int64 (now - unixToInternal * Second)).

Definition Observe (g : REngine) (env : renv) (observations : list Observation) : REngine * res ChainStatus :=
  let now := rn_now env in
  let status := observed_status (re_state g) now observations in
  let '(g, r) := commit cfg g (rn_io env) (mkrevent now eventChainStatus (snapshot_key now) (PChain status "" false)) in
  match r with
  | Err m => (g, Err m)
  | Ok _ => let g := refresh cfg (rn_refresh env) g in (g, Ok (rs_status (re_state g)))
  end.

Definition ForceHalt (g : REngine) (env : renv) (operator reason : string) : REngine * res ChainStatus :=
  if negb (identifier_pattern operator) then (g, Err ErrInvalidOperator) else
  if bool_decide (reason = "") || (1024 <? str_len reason) then (g, Err ErrInvalidHaltReason) else
  let now := rn_now env in
  let c := rs_status (re_state g) in
  let status := set_counts (unresolvedCount (re_state g)) false
    (setPauseFlags (set_counts (cs_AffectedExecutions c) false
      (set_state StateHalted ("manual halt: " +:+ reason) now (cs_ConsecutiveUnhealthy c) 0 c))) in
  let '(g, r) := commit cfg g (rn_io env) (mkrevent now eventChainStatus ("manual-halt:" +:+ operator) (PChain status operator false)) in
  match r with
  | Err m => (g, Err m)
  | Ok _ => let g := refresh cfg (rn_refresh env) g in (g, Ok (rs_status (re_state g)))
  end.

Definition Resume (g : REngine) (env : renv) (operator : string) : REngine * res ChainStatus :=
  if negb (identifier_pattern operator) then (g, Err ErrInvalidOperator) else
  let c := rs_status (re_state g) in
  if bool_decide (cs_State c = StateHealthy) && bool_decide (rs_lastResumeOperator (re_state g) = operator) &&
     chainUsable cfg c (rn_check env)
  then (g, Ok c) else
  if negb (recoveryReady cfg (re_state g) (rn_ready env)) then (g, Err ErrResumeBlocked) else
  let now := rn_now env in
  let status := setPauseFlags (set_counts (cs_AffectedExecutions c) false
    (set_state StateHealthy ("manual recovery release by " +:+ operator) now 0 (cs_ConsecutiveRecovery c) c)) in
  let '(g, r) := commit cfg g (rn_io env) (mkrevent now eventChainStatus ("manual-resume:" +:+ operator) (PChain status operator false)) in
  match r with
  | Err m => (g, Err m)
  | Ok _ => (g, Ok (rs_status (re_state g)))
  end.

(** The idempotency and hash-ownership rules of the three registrations:
    [None] when a new execution may be registered. [same] compares the proof of
    an existing one. *)
Definition registered_before (s : RState) (expected : ExpectedExecution) (same : Execution -> bool) : option (res Execution) :=
  match rs_executions s !! ex_ExecutionID expected with
  | Some existing =>
      Some (if equal_expected (e_Expected existing) expected && same existing then Ok existing else Err ErrConflict)
  | None =>
      match rs_executionByHash s !! ex_TransactionHash expected with
      | Some other => if negb (bool_decide (other = ex_ExecutionID expected)) then Some (Err ErrConflict)
                      else match rs_escrowByHash s !! ex_TransactionHash expected with Some _ => Some (Err ErrConflict) | None => None end
      | None => match rs_escrowByHash s !! ex_TransactionHash expected with Some _ => Some (Err ErrConflict) | None => None end
      end
  end.

Definition register_execution (g : REngine) (env : renv) (execution : Execution) : REngine * res Execution :=
  let '(g, r) := commit cfg g (rn_io env)
    (mkrevent (rn_now env) eventExecutionBroadcast (ex_ExecutionID (e_Expected execution)) (PExecution execution None None)) in
  match r with Err m => (g, Err m) | Ok _ => (g, Ok execution) end.

Definition RegisterBroadcast (g : REngine) (env : renv) (expected : ExpectedExecution) : REngine * res Execution :=
  match expected_validate expected (cf_ChainID cfg) with
  | Err m => (g, Err m)
  | Ok _ =>
  match registered_before (re_state g) expected (fun _ => true) with
  | Some r => (g, r)
  | None =>
      if negb (chainUsable cfg (rs_status (re_state g)) (rn_now env)) then (g, Err ErrChainUnavailable)
      else register_execution g env (new_execution expected ExecutionBroadcast (rn_now env) None None)
  end end.

(** The state of an execution whose transaction may already be out. *)
Definition arrival_state (g : REngine) (now : time) : ExecutionState :=
  if chainUsable cfg (rs_status (re_state g)) now then ExecutionBroadcast else ExecutionPendingChainRecovery.

Definition RegisterAttestedBroadcast (g : REngine) (env : renv) (expected : ExpectedExecution) (b : BroadcastAttestation)
    : REngine * res Execution :=
  match expected_validate expected (cf_ChainID cfg) with
  | Err m => (g, Err m)
  | Ok _ =>
  match attestation_validate b expected with
  | Err m => (g, Err m)
  | Ok _ =>
  match registered_before (re_state g) expected (fun _ => true) with
  | Some r => (g, r)
  | None =>
      register_execution g env (new_execution expected (arrival_state g (rn_now env))
        (time_of_unix (rc_BroadcastAt (sr_Receipt (ba_SignedReceipt b)))) (Some b) None)
  end end end.

Definition RegisterX402Settlement (g : REngine) (env : renv) (expected : ExpectedExecution) (c : X402SettlementClaim)
    : REngine * res Execution :=
  match expected_validate expected (cf_ChainID cfg) with
  | Err m => (g, Err m)
  | Ok _ =>
  match claim_validate c expected with
  | Err m => (g, Err m)
  | Ok _ =>
  match registered_before (re_state g) expected
          (fun existing => match e_X402SettlementClaim existing with Some c' => equal_claim c' c | None => false end) with
  | Some r => (g, r)
  | None => register_execution g env (new_execution expected (arrival_state g (rn_now env)) (rn_now env) None (Some c))
  end end end.

(** Commit an execution event and refresh the counts. *)
Definition commit_execution (g : REngine) (env : renv) (kind executionID : string) (e : Execution)
    (ledger : option LedgerTransaction) (status : option ChainStatus) : REngine * res Execution :=
  let '(g, r) := commit cfg g (rn_io env) (mkrevent (rn_now env) kind executionID (PExecution e ledger status)) in
  match r with Err m => (g, Err m) | Ok _ => (refresh cfg (rn_refresh env) g, Ok e) end.

Definition resolvedRequestMatches (s : RState) (e : Execution) (evidence : list ReceiptEvidence)
    (settlement : option LedgerTransaction) : bool :=
  match validateReceiptQuorum cfg (rs_status s) (e_Expected e) evidence with
  | Err _ => false
  | Ok canonical =>
      (rv_BlockNumber canonical =? e_BlockNumber e) && bool_decide (rv_BlockHash canonical = e_BlockHash e) &&
      if bool_decide (e_State e = ExecutionReverted) then
        negb (rv_Success canonical) && match settlement with None => true | Some _ => false end
      else rv_Success canonical &&
        match settlement with
        | None => false
        | Some t =>
            bool_decide (lt_TransactionID t = e_LedgerTransactionID e) &&
            match rs_ledger s !! lt_TransactionID t with Some stored => equal_ledger stored t | None => false end
        end
  end.

(** The settlement belongs to the execution and does not contradict the ledger. *)
Definition settlement_validate (s : RState) (executionID organizationID : string) (t : LedgerTransaction) : res unit :=
  check bool_decide (lt_Kind t = LedgerSettlement) && bool_decide (lt_ReferenceID t = executionID) &&
        bool_decide (lt_OrganizationID t = organizationID)
    else "settlement ledger transaction is not bound to the execution" ;;
  try _ := ledger_validate t in
  check match rs_ledger s !! lt_TransactionID t with Some existing => equal_ledger existing t | None => true end
    else ErrConflict ;;
  Ok tt.

Definition reconciled (s : RState) (now : time) (executionID : string) (e : Execution) (canonical : ReceiptEvidence)
    (settlement : option LedgerTransaction) : res (Execution * option LedgerTransaction) :=
  let base := set_finality None 0 (set_block (rv_BlockNumber canonical) (rv_BlockHash canonical)
                (ex_TransactionHash (e_Expected e)) e) in
  if rv_Success canonical then
    match settlement with
    | None => Err "settled receipt requires a balanced settlement transaction"
    | Some t =>
        try _ := settlement_validate s executionID (ex_OrganizationID (e_Expected e)) t in
        Ok (set_ledger (lt_TransactionID t) (e_CorrectionTransactionID e) (e_ReorgEvidenceDigest e)
              (set_outcome ExecutionSettled "canonical receipt success" (Some now) base), Some t)
    end
  else
    match settlement with
    | Some _ => Err "reverted receipt cannot post a settlement transaction"
    | None => Ok (set_outcome ExecutionReverted "canonical receipt reverted" (Some now) base, None)
    end.

Definition ReconcileReceipt (g : REngine) (env : renv) (executionID : string) (evidence : list ReceiptEvidence)
    (settlement : option LedgerTransaction) : REngine * res Execution :=
  let s := re_state g in
  match rs_executions s !! executionID with
  | None => (g, Err ErrUnknownExecution)
  | Some e =>
  if bool_decide (e_State e = ExecutionSettled) || bool_decide (e_State e = ExecutionReverted) then
    (g, if resolvedRequestMatches s e evidence settlement then Ok e else Err ErrConflict)
  else if bool_decide (e_State e = ExecutionQuarantined) then
    (g, Err "quarantined execution requires an explicit operator resolution workflow")
  else
  let now := rn_now env in
  let state := cs_State (rs_status s) in
  if bool_decide (state = StateHalted) || bool_decide (state = StateSuspectedStall) || negb (trustedFresh cfg (rs_status s) now)
  then (g, Err ErrChainUnavailable) else
  match validateReceiptQuorum cfg (rs_status s) (e_Expected e) evidence with
  | Err m => (g, Err m)
  | Ok canonical =>
  if negb (bool_decide (e_ReorgEvidenceDigest e = "")) && (rv_BlockNumber canonical =? e_BlockNumber e) &&
     bool_decide (rv_BlockHash canonical = e_BlockHash e)
  then (g, Err ErrUnsafeFinality) else
  match reconciled s now executionID e canonical settlement with
  | Err m => (g, Err m)
  | Ok (resolved, ledger) => commit_execution g env eventExecutionResolved executionID resolved ledger None
  end end end.

(** [organizationID] is empty for the unscoped [Quarantine]. *)
Definition quarantine (g : REngine) (env : renv) (organizationID executionID operator reason : string) : REngine * res Execution :=
  if negb (identifier_pattern operator) || bool_decide (reason = "") || (1024 <? str_len reason)
  then (g, Err "operator or quarantine reason is invalid") else
  match rs_executions (re_state g) !! executionID with
  | None => (g, Err ErrUnknownExecution)
  | Some e =>
      if negb (bool_decide (organizationID = "")) && negb (bool_decide (ex_OrganizationID (e_Expected e) = organizationID))
      then (g, Err ErrUnknownExecution) else
      if negb (unresolved e) then (g, Err "only unresolved executions can be quarantined") else
      commit_execution g env eventExecutionQuarantine executionID
        (set_outcome ExecutionQuarantined ("manual quarantine by " +:+ operator +:+ ": " +:+ reason) (Some (rn_now env)) e) None None
  end.

Definition QuarantineForOrganization (g : REngine) (env : renv) (organizationID executionID operator reason : string)
    : REngine * res Execution :=
  if negb (identifier_pattern organizationID) then (g, Err ErrUnknownExecution)
  else quarantine g env organizationID executionID operator reason.

(** The chain is recovering or healthy, with a fresh checkpoint. *)
Definition chain_observable (s : RState) (now : time) : bool :=
  (bool_decide (cs_State (rs_status s) = StateHealthy) || bool_decide (cs_State (rs_status s) = StateRecovering)) &&
  trustedFresh cfg (rs_status s) now.

(** A reopened execution sends the whole engine back into recovery. *)
Definition reopened_status (s : RState) (now : time) (reason : string) : ChainStatus :=
  let c := rs_status s in
  setPauseFlags (set_counts (unresolvedCount s + 1) false (set_state StateRecovering reason now (cs_ConsecutiveUnhealthy c) 0 c)).

Definition ReopenReorg (g : REngine) (env : renv) (executionID : string) (evidence : list ReorgEvidence)
    (correction : LedgerTransaction) : REngine * res Execution :=
  let s := re_state g in
  match rs_executions s !! executionID with
  | None => (g, Err ErrUnknownExecution)
  | Some e =>
  let '(reorgDigest, canonicalEvidence) := digestReorgEvidence evidence in
  if bool_decide (e_State e = ExecutionPendingChainRecovery) && negb (bool_decide (e_CorrectionTransactionID e = "")) then
    (g, match rs_ledger s !! e_CorrectionTransactionID e with
        | Some stored => if equal_ledger stored correction && bool_decide (e_ReorgEvidenceDigest e = reorgDigest)
                         then Ok e else Err ErrConflict
        | None => Err ErrConflict
        end)
  else if negb (bool_decide (e_State e = ExecutionSettled)) || bool_decide (e_LedgerTransactionID e = "") then
    (g, Err "only a settled execution can be reopened for reorg")
  else
  let now := rn_now env in
  if negb (chain_observable s now) then (g, Err ErrChainUnavailable) else
  match validateCanonicalBlockQuorum cfg (rs_status s) e canonicalEvidence true with
  | Err m => (g, Err m)
  | Ok _ =>
  if negb (bool_decide (lt_Kind correction = LedgerCorrection) &&
           bool_decide (lt_ReversesTransactionID correction = e_LedgerTransactionID e) &&
           bool_decide (lt_OrganizationID correction = ex_OrganizationID (e_Expected e)) &&
           bool_decide (lt_ReferenceID correction = executionID))
  then (g, Err "reorg correction is not bound to the settled execution") else
  match ledger_validate correction with
  | Err m => (g, Err m)
  | Ok _ =>
  match validateCorrection (rs_ledger s) correction with
  | Err m => (g, Err m)
  | Ok _ =>
  match rs_ledger s !! lt_TransactionID correction with
  | Some _ => (g, Err ErrConflict)
  | None =>
      let reopened := set_finality None 0 (set_ledger "" (lt_TransactionID correction) reorgDigest
        (set_outcome ExecutionPendingChainRecovery
           "canonical reorg removed the prior settlement block; outcome requires reconciliation" None e)) in
      commit_execution g env eventExecutionReorged executionID reopened (Some correction)
        (Some (reopened_status s now "canonical reorg evidence reopened a settled execution"))
  end end end end end.

Definition ReopenRevertedReorg (g : REngine) (env : renv) (executionID : string) (evidence : list ReorgEvidence)
    : REngine * res Execution :=
  let s := re_state g in
  match rs_executions s !! executionID with
  | None => (g, Err ErrUnknownExecution)
  | Some e =>
  let '(reorgDigest, canonicalEvidence) := digestReorgEvidence evidence in
  if bool_decide (e_State e = ExecutionPendingChainRecovery) && bool_decide (e_LedgerTransactionID e = "") &&
     bool_decide (e_CorrectionTransactionID e = "") && bool_decide (e_ReorgEvidenceDigest e = reorgDigest)
  then (g, Ok e)
  else if negb (bool_decide (e_State e = ExecutionReverted)) || negb (bool_decide (e_LedgerTransactionID e = "")) then
    (g, Err "only a reverted execution can be reopened without a ledger correction")
  else
  let now := rn_now env in
  if negb (chain_observable s now) then (g, Err ErrChainUnavailable) else
  match validateCanonicalBlockQuorum cfg (rs_status s) e canonicalEvidence true with
  | Err m => (g, Err m)
  | Ok _ =>
      let reopened := set_finality None 0 (set_ledger (e_LedgerTransactionID e) (e_CorrectionTransactionID e) reorgDigest
        (set_outcome ExecutionPendingChainRecovery
           "canonical reorg removed the prior reverted receipt; outcome requires reconciliation" None e)) in
      commit_execution g env eventExecutionReorged executionID reopened None
        (Some (reopened_status s now "canonical reorg evidence reopened a reverted execution"))
  end end.

Definition ConfirmFinality (g : REngine) (env : renv) (executionID : string) (evidence : list ReorgEvidence)
    : REngine * res Execution :=
  let s := re_state g in
  match rs_executions s !! executionID with
  | None => (g, Err ErrUnknownExecution)
  | Some e =>
  let settled := bool_decide (e_State e = ExecutionSettled) in
  let reverted := bool_decide (e_State e = ExecutionReverted) in
  if negb settled && negb reverted then
    (g, Err "only a settled or reverted execution can complete finality monitoring")
  else if settled && bool_decide (e_LedgerTransactionID e = "") || reverted && negb (bool_decide (e_LedgerTransactionID e = "")) then
    (g, Err "execution finality accounting binding is invalid")
  else
  match validateCanonicalBlockQuorum cfg (rs_status s) e evidence false with
  | Err m => (g, Err m)
  | Ok head =>
  match e_FinalityCheckedAt e with
  | Some _ => (g, if e_FinalityCheckedHead e =? head then Ok e else Err ErrConflict)
  | None =>
      let now := rn_now env in
      if negb (chain_observable s now) then (g, Err ErrChainUnavailable) else
      let confirmed := set_finality (Some now) head e in
      let '(g, r) := commit cfg g (rn_io env) (mkrevent now eventExecutionResolved executionID (PExecution confirmed None None)) in
      match r with Err m => (g, Err m) | Ok _ => (g, Ok confirmed) end
  end end end.

Definition Post (g : REngine) (env : renv) (t : LedgerTransaction) : REngine * res LedgerTransaction :=
  match ledger_validate t with
  | Err m => (g, Err m)
  | Ok _ =>
  match rs_ledger (re_state g) !! lt_TransactionID t with
  | Some existing => (g, if equal_ledger existing t then Ok existing else Err ErrConflict)
  | None =>
  if chainDependent (lt_Kind t) then (g, Err "chain-dependent ledger entries require canonical reconciliation evidence") else
  match (if bool_decide (lt_Kind t = LedgerCorrection) then validateCorrection (rs_ledger (re_state g)) t else Ok tt) with
  | Err m => (g, Err m)
  | Ok _ =>
      let '(g, r) := commit cfg g (rn_io env) (mkrevent (rn_now env) eventLedgerPosted (lt_TransactionID t) (PLedger t)) in
      match r with Err m => (g, Err m) | Ok _ => (g, Ok t) end
  end end end.

Definition Balance (g : REngine) (organizationID account : string) : string :=
  match rs_balances (re_state g) !! organizationID with
  | Some accounts => match accounts !! account with Some b => dec_string b | None => "0" end
  | None => "0"
  end.

(** ** Recovery of displaced transactions ([recovery.go]) *)

Definition outcome_le (x y : TransactionOutcomeEvidence) : Prop := String.leb (to_Provider x) (to_Provider y) = true.
#[export] Instance outcome_le_dec x y : Decision (outcome_le x y).
Proof. unfold outcome_le. apply _. Defined.

Definition outcome_step (e : Execution) (canonical : TransactionOutcomeEvidence) (seen : gset string)
    (o : TransactionOutcomeEvidence) : res (gset string) :=
  check identifier_pattern (to_Provider o) && negb (bool_decide (to_Provider o ∈ seen)) else ErrUnsafeFinality ;;
  check (to_ChainID o =? ex_ChainID (e_Expected e)) &&
        bool_decide (to_OriginalTransactionHash o = ex_TransactionHash (e_Expected e)) &&
        bool_decide (to_Outcome o = to_Outcome canonical) && (to_Nonce o =? to_Nonce canonical) &&
        (to_ThroughBlock o =? to_ThroughBlock canonical) && bool_decide (to_ThroughBlockHash o = to_ThroughBlockHash canonical) &&
        (to_AccountNonce o =? to_AccountNonce canonical) &&
        bool_decide (to_ReplacementTransactionHash o = to_ReplacementTransactionHash canonical) &&
        bool_decide (to_ReplacementRecipient o = to_ReplacementRecipient canonical) &&
        bool_decide (to_ReplacementAmountAtomic o = to_ReplacementAmountAtomic canonical) &&
        (to_ReplacementBlockNumber o =? to_ReplacementBlockNumber canonical) &&
        bool_decide (to_ReplacementBlockHash o = to_ReplacementBlockHash canonical) && hash_pattern (to_ThroughBlockHash o)
    else ErrUnsafeFinality ;;
  Ok ({[to_Provider o]} ∪ seen).

(** The evidence has the shape of its outcome. *)
Definition outcome_shape (e : Execution) (o : TransactionOutcomeEvidence) : bool :=
  let none := bool_decide (to_ReplacementTransactionHash o = "") && bool_decide (to_ReplacementRecipient o = "") &&
              bool_decide (to_ReplacementAmountAtomic o = "") && (to_ReplacementBlockNumber o =? 0) &&
              bool_decide (to_ReplacementBlockHash o = "") in
  let bound := match e_TransactionRecovery e with Some _ => true | None => false end in
  let consumed := to_Nonce o <? to_AccountNonce o in
  let replaced := hash_pattern (to_ReplacementTransactionHash o) &&
                  negb (bool_decide (to_ReplacementTransactionHash o = ex_TransactionHash (e_Expected e))) in
  let mined := negb (to_ReplacementBlockNumber o =? 0) && (to_ReplacementBlockNumber o <=? to_ThroughBlock o) &&
               hash_pattern (to_ReplacementBlockHash o) in
  let expected_transfer := bool_decide (to_ReplacementRecipient o = ex_Recipient (e_Expected e)) &&
                           bool_decide (to_ReplacementAmountAtomic o = ex_AmountAtomic (e_Expected e)) in
  if bool_decide (to_Outcome o = RecoveryOriginalPending) then (to_AccountNonce o <=? to_Nonce o) && none
  else if bool_decide (to_Outcome o = RecoveryDropped) then bound && consumed && none
  else if bool_decide (to_Outcome o = RecoveryExpectedReplacement) then bound && consumed && replaced && expected_transfer && mined
  else if bool_decide (to_Outcome o = RecoveryUnknownTransfer) then
    bound && consumed && replaced && address_pattern (to_ReplacementRecipient o) && mined &&
    is_ok (positiveInteger (to_ReplacementAmountAtomic o)) && negb expected_transfer
  else false.

Definition json_Outcome (o : TransactionOutcomeEvidence) : string :=
  json_object [
    ("provider", Some (json_string (to_Provider o)));
    ("chainId", Some (json_int (to_ChainID o)));
    ("originalTransactionHash", Some (json_string (to_OriginalTransactionHash o)));
    ("outcome", Some (json_string (to_Outcome o)));
    ("nonce", Some (json_int (to_Nonce o)));
    ("throughBlock", Some (json_int (to_ThroughBlock o)));
    ("throughBlockHash", Some (json_string (to_ThroughBlockHash o)));
    ("accountNonce", Some (json_int (to_AccountNonce o)));
    ("replacementTransactionHash", omit_empty (to_ReplacementTransactionHash o));
    ("replacementRecipient", omit_empty (to_ReplacementRecipient o));
    ("replacementAmountAtomic", omit_empty (to_ReplacementAmountAtomic o));
    ("replacementBlockNumber", omit_zero (to_ReplacementBlockNumber o));
    ("replacementBlockHash", omit_empty (to_ReplacementBlockHash o))].

Definition validateTransactionOutcomeQuorum (c : ChainStatus) (e : Execution) (evidence : list TransactionOutcomeEvidence)
    : res (TransactionOutcomeEvidence * string) :=
  check (cf_ObserverQuorum cfg <=? Z.of_nat (length evidence)) && (Z.of_nat (length evidence) <=? 5) &&
        match cs_LastTrusted c with Some _ => true | None => false end
    else ErrUnsafeFinality ;;
  match merge_sort outcome_le evidence with
  | [] => Err "panic: index out of range"
  | canonical :: rest =>
      try _ := fold_res (outcome_step e canonical) ∅ (canonical :: rest) in
      check settled_below cfg c (to_ThroughBlock canonical) else ErrUnsafeFinality ;;
      check outcome_shape e canonical else ErrUnsafeFinality ;;
      Ok (canonical, "0x" +:+ hex_encode (sha256 (json_array (map json_Outcome (canonical :: rest)))))
  end.

Definition recovery_of (o : TransactionOutcomeEvidence) (scanFrom : Z) (digest : string) (now : time) : TransactionRecovery :=
  {| tr_Nonce := to_Nonce o; tr_ScanFromBlock := scanFrom; tr_Outcome := to_Outcome o; tr_ThroughBlock := to_ThroughBlock o;
     tr_ThroughBlockHash := to_ThroughBlockHash o; tr_AccountNonce := to_AccountNonce o;
     tr_ReplacementTransaction := to_ReplacementTransactionHash o; tr_ReplacementRecipient := to_ReplacementRecipient o;
     tr_ReplacementAmountAtomic := to_ReplacementAmountAtomic o; tr_ReplacementBlockNumber := to_ReplacementBlockNumber o;
     tr_ReplacementBlockHash := to_ReplacementBlockHash o; tr_EvidenceDigest := digest; tr_ObservedAt := now |}.

Definition set_recovery (r : TransactionRecovery) (e : Execution) : Execution :=
  set_proofs (e_BroadcastAttestation e) (e_X402SettlementClaim e) (Some r) (e_ResolvedTransactionHash e) (e_RecoveryResolutionActor e) e.

Definition outcome_resolution (outcome : TransactionRecoveryOutcome) : string :=
  if bool_decide (outcome = RecoveryDropped) then
    "canonical nonce was consumed without an observed transfer of the governed asset; operator finalization required"
  else if bool_decide (outcome = RecoveryExpectedReplacement) then
    "canonical nonce was consumed by an exact-content replacement; operator receipt reconciliation required"
  else "canonical nonce was consumed by an unknown governed-asset transfer; independent accounting investigation required".

Definition RecordTransactionOutcome (g : REngine) (env : renv) (executionID : string)
    (evidence : list TransactionOutcomeEvidence) : REngine * res Execution :=
  let s := re_state g in
  match rs_executions s !! executionID with
  | None => (g, Err ErrUnknownExecution)
  | Some e =>
  match validateTransactionOutcomeQuorum (rs_status s) e evidence with
  | Err m => (g, Err m)
  | Ok (canonical, digest) =>
  let pending := bool_decide (to_Outcome canonical = RecoveryOriginalPending) in
  let repeated := match e_TransactionRecovery e with Some r => bool_decide (tr_EvidenceDigest r = digest) | None => false end in
  if repeated && (pending && unresolved e || negb pending && bool_decide (e_State e = ExecutionQuarantined)) then (g, Ok e) else
  if negb (unresolved e) then (g, Err "transaction recovery evidence can update only an unresolved execution") else
  let now := rn_now env in
  if pending then
    if match e_TransactionRecovery e with Some r => negb (tr_Nonce r =? to_Nonce canonical) | None => false end
    then (g, Err ErrConflict) else
    let scanFrom := match e_TransactionRecovery e with Some r => tr_ScanFromBlock r | None => to_ThroughBlock canonical end in
    let updated := set_recovery (recovery_of canonical scanFrom digest now) e in
    let '(g, r) := commit cfg g (rn_io env) (mkrevent now eventExecutionBroadcast executionID (PExecution updated None None)) in
    match r with Err m => (g, Err m) | Ok _ => (g, Ok updated) end
  else
    match e_TransactionRecovery e with
    | Some r =>
        if negb (tr_Nonce r =? to_Nonce canonical) || (tr_ScanFromBlock r =? 0)
        then (g, Err "terminal transaction outcome requires a previously bound pending nonce") else
        let updated := set_outcome ExecutionQuarantined (outcome_resolution (to_Outcome canonical)) (Some now)
                         (set_recovery (recovery_of canonical (tr_ScanFromBlock r) digest now) e) in
        commit_execution g env eventExecutionQuarantine executionID updated None None
    | None => (g, Err "terminal transaction outcome requires a previously bound pending nonce")
    end
  end end.

Definition ResolveProvenDropForOrganization (g : REngine) (env : renv) (organizationID executionID operator : string)
    : REngine * res Execution :=
  let s := re_state g in
  if negb (identifier_pattern organizationID) || negb (identifier_pattern operator) then (g, Err ErrInvalidOperator) else
  match rs_executions s !! executionID with
  | None => (g, Err ErrUnknownExecution)
  | Some e =>
  if negb (bool_decide (ex_OrganizationID (e_Expected e) = organizationID)) then (g, Err ErrUnknownExecution) else
  if bool_decide (e_State e = ExecutionDropped) then
    (g, if bool_decide (e_RecoveryResolutionActor e = operator) then Ok e else Err ErrConflict)
  else
  match e_TransactionRecovery e with
  | None => (g, Err "execution does not carry a proved dropped outcome")
  | Some r =>
  if negb (bool_decide (e_State e = ExecutionQuarantined) && bool_decide (tr_Outcome r = RecoveryDropped))
  then (g, Err "execution does not carry a proved dropped outcome") else
  let now := rn_now env in
  if negb (chainUsable cfg (rs_status s) now && settled_below cfg (rs_status s) (tr_ThroughBlock r))
  then (g, Err ErrChainUnavailable) else
  let head := match cs_LastTrusted (rs_status s) with Some t => ck_BlockNumber t | None => 0 end in
  let resolved := set_finality (Some now) head
    (set_block (tr_ThroughBlock r) (tr_ThroughBlockHash r) (ex_TransactionHash (e_Expected e))
      (set_outcome ExecutionDropped "operator finalized canonically displaced transaction with no governed-asset transfer" (Some now)
        (set_proofs (e_BroadcastAttestation e) (e_X402SettlementClaim e) (Some r) (e_ResolvedTransactionHash e) operator e))) in
  commit_execution g env eventExecutionResolved executionID resolved None None
  end end.

Definition with_hash (e : ExpectedExecution) (hash : string) : ExpectedExecution :=
  mkExpectedExecution (ex_ExecutionID e) (ex_OrganizationID e) (ex_AgentID e) (ex_TaskID e) (ex_IntentDigest e) hash
    (ex_ChainID e) (ex_Sender e) (ex_Asset e) (ex_Recipient e) (ex_AmountAtomic e).

Definition ReconcileProvenReplacementForOrganization (g : REngine) (env : renv) (organizationID executionID operator : string)
    (evidence : list ReceiptEvidence) (settlement : LedgerTransaction) : REngine * res Execution :=
  let s := re_state g in
  if negb (identifier_pattern organizationID) || negb (identifier_pattern operator) then (g, Err ErrInvalidOperator) else
  match rs_executions s !! executionID with
  | None => (g, Err ErrUnknownExecution)
  | Some e =>
  if negb (bool_decide (ex_OrganizationID (e_Expected e) = organizationID)) then (g, Err ErrUnknownExecution) else
  match e_TransactionRecovery e with
  | None => (g, Err "execution does not carry a proved exact-content replacement")
  | Some r =>
  if negb (bool_decide (e_State e = ExecutionQuarantined) && bool_decide (tr_Outcome r = RecoveryExpectedReplacement))
  then (g, Err "execution does not carry a proved exact-content replacement") else
  let now := rn_now env in
  if negb (chainUsable cfg (rs_status s) now) then (g, Err ErrChainUnavailable) else
  match validateReceiptQuorum cfg (rs_status s) (with_hash (e_Expected e) (tr_ReplacementTransaction r)) evidence with
  | Err _ => (g, Err ErrUnsafeFinality)
  | Ok canonical =>
  if negb (rv_Success canonical) then (g, Err ErrUnsafeFinality) else
  match settlement_validate s executionID organizationID settlement with
  | Err m => (g, Err m)
  | Ok _ =>
      let resolved := set_finality None 0
        (set_ledger (lt_TransactionID settlement) (e_CorrectionTransactionID e) (e_ReorgEvidenceDigest e)
          (set_block (rv_BlockNumber canonical) (rv_BlockHash canonical) (tr_ReplacementTransaction r)
            (set_outcome ExecutionSettled "operator reconciled canonically mined exact-content replacement" (Some now)
              (set_proofs (e_BroadcastAttestation e) (e_X402SettlementClaim e) (Some r) (e_ResolvedTransactionHash e) operator e)))) in
      commit_execution g env eventExecutionResolved executionID resolved (Some settlement) None
  end end end end.
End Operations.
