(* ===== verification/ReconEscrowOps.v ===== *)
(** * The engine's operations on escrow calls
    ([internal/reconciliation/escrow_durable.go])

    Registration of intents and candidate transactions, reconciliation of their
    receipts, finality and reorganizations. *)
From stdpp Require Import base gmap strings list fin_maps sorting.
From Stdlib Require Import ZArith Lia Ascii.
From S2P Require Import Prelude GoText GoJSON Crypto Envelope Receipt SignerVerifier AttemptJournal.
From S2P Require Import Recon ReconEscrow ReconEngine.

Open Scope Z_scope.

Section EscrowOperations.
Context `{Crypto}.
Variable cfg : ReconConfig.

Definition call_payload (call : EscrowCall) : escrowPayload := mkescrowPayload call [] [] [] None.

Definition escrow_event (now : time) (kind callID : string) (p : escrowPayload) : revent := mkrevent now kind callID (PEscrow p).

Definition new_call (i : EscrowIntent) (now : time) : EscrowCall := mkEscrowCall i EscrowPositionRegistered now None [] "".

Definition RegisterEscrowIntent (g : REngine) (env : renv) (i : EscrowIntent) : REngine * res EscrowCall :=
  let s := re_state g in
  match EscrowIntent_Validate i with
  | Err m => (g, Err m)
  | Ok _ =>
  if negb (ei_ChainID i =? cf_ChainID cfg) then (g, Err "escrow intent chain does not match configured Base chain") else
  if negb (escrow_deployment cfg i) then (g, Err ErrEscrowDeployment) else
  match rs_escrowCalls s !! ei_CallID i with
  | Some existing => (g, if equal_intent (ec_Intent existing) i then Ok existing else Err ErrConflict)
  | None =>
  if match rs_escrowByAuth s !! ei_AuthorizationID i with Some other => negb (bool_decide (other = ei_CallID i)) | None => false end
  then (g, Err ErrConflict) else
  let now := rn_now env in
  if negb (chainUsable cfg (rs_status s) now) then (g, Err ErrChainUnavailable) else
  if (Unix now <? 0) || (ei_AcknowledgeBy i <=? Unix now)
  then (g, Err "escrow intent acknowledgement deadline elapsed before durable registration") else
  let call := new_call i now in
  let '(g, r) := commit cfg g (rn_io env) (escrow_event now eventEscrowIntent (ei_CallID i) (call_payload call)) in
  match r with Err m => (g, Err m) | Ok _ => (g, Ok call) end
  end end.

(** The attestation, if given, is the recorded one. *)
Definition same_attestation (given stored : option EscrowBroadcastAttestation) : bool :=
  match given with
  | None => true
  | Some b => match stored with Some b' => equal_attestation b' b | None => false end
  end.

Definition has_hash (hash : string) (t : EscrowTransition) : bool := bool_decide (xr_TransactionHash (et_Expected t) = hash).

(** A resolved transition with the candidate's hash answers the request. *)
Definition repeated_candidate (call : EscrowCall) (c : EscrowTransitionCandidate) (b : option EscrowBroadcastAttestation)
    : option (res EscrowCall) :=
  match List.find (has_hash (tc_TransactionHash c)) (ec_Transitions call) with
  | None => None
  | Some t =>
      Some (if escrowCandidateMatchesExpected c (et_Expected t) &&
               match b with Some a => is_ok (escrow_attestation_validate a (et_Expected t)) | None => true end &&
               same_attestation b (et_BroadcastAttestation t)
            then Ok call else Err ErrConflict)
  end.

(** The last transition reverted and may still come back. *)
Definition revert_unsettled (call : EscrowCall) : bool :=
  match last (ec_Transitions call) with
  | Some t => bool_decide (et_State t = EscrowTransitionReverted) &&
              match et_FinalityCheckedAt t with None => true | Some _ => false end
  | None => false
  end.

Definition new_transition (s : RState) (now : time) (x : EscrowExpectedReceipt) (b : option EscrowBroadcastAttestation)
    : EscrowTransition :=
  let usable := chainUsable cfg (rs_status s) now in
  mkEscrowTransition x (if usable then EscrowTransitionBroadcast else EscrowTransitionPendingRecovery) "" now b None 0 ""
    (if usable then "awaiting canonical escrow receipt" else "registered during chain pause; canonical escrow outcome required")
    "" "" "" None 0.

Definition registerEscrowTransitionLocked (g : REngine) (env : renv) (organizationID callID : string)
    (c : EscrowTransitionCandidate) (b : option EscrowBroadcastAttestation) : REngine * res EscrowCall :=
  let s := re_state g in
  match rs_escrowCalls s !! callID with
  | None => (g, Err ErrUnknownExecution)
  | Some call =>
  if negb (bool_decide (ei_OrganizationID (ec_Intent call) = organizationID)) then (g, Err ErrUnknownExecution) else
  match repeated_candidate call c b with
  | Some r => (g, r)
  | None =>
  if revert_unsettled call then (g, Err ErrEscrowFinality) else
  match expectedEscrowTransition call c with
  | Err m => (g, Err m)
  | Ok expected =>
  match (match b with Some a => escrow_attestation_validate a expected | None => Ok tt end) with
  | Err m => (g, Err m)
  | Ok _ =>
  match ec_Pending call with
  | Some p =>
      (g, if equal_expected_receipt (et_Expected p) expected && same_attestation b (et_BroadcastAttestation p)
          then Ok call else Err ErrConflict)
  | None =>
  if negb (hash_free s callID (xr_TransactionHash expected)) then (g, Err ErrConflict) else
  let now := rn_now env in
  let call := set_pending (Some (new_transition s now expected b)) call in
  let '(g, r) := commit cfg g (rn_io env) (escrow_event now eventEscrowPending callID (call_payload call)) in
  match r with Err m => (g, Err m) | Ok _ => (refresh cfg (rn_refresh env) g, Ok call) end
  end end end end end.

Definition RegisterEscrowTransition (g : REngine) (env : renv) (organizationID callID : string) (c : EscrowTransitionCandidate)
    : REngine * res EscrowCall :=
  registerEscrowTransitionLocked g env organizationID callID c None.

(** [intentEnv] answers the registration of the intent, [env] that of the transition. *)
Definition RegisterAttestedEscrowBroadcast (g : REngine) (intentEnv env : renv) (i : EscrowIntent) (c : EscrowTransitionCandidate)
    (b : EscrowBroadcastAttestation) : REngine * res EscrowCall :=
  match EscrowIntent_Validate i with
  | Err m => (g, Err m)
  | Ok _ =>
  match attestation_validateIntent b i with
  | Err m => (g, Err m)
  | Ok _ =>
  match expectedEscrowTransition (new_call i 0) c with
  | Err m => (g, Err m)
  | Ok expected =>
  match escrow_attestation_validate b expected with
  | Err m => (g, Err m)
  | Ok _ =>
  if negb ((ei_ChainID i =? cf_ChainID cfg) && escrow_deployment cfg i) then (g, Err ErrEscrowDeployment) else
  match rs_escrowCalls (re_state g) !! ei_CallID i with
  | Some call =>
      if equal_intent (ec_Intent call) i
      then registerEscrowTransitionLocked g env (ei_OrganizationID i) (ei_CallID i) c (Some b)
      else (g, Err ErrConflict)
  | None =>
  if match rs_escrowByAuth (re_state g) !! ei_AuthorizationID i with
     | Some other => negb (bool_decide (other = ei_CallID i)) | None => false end
  then (g, Err ErrConflict) else
  let now := rn_now intentEnv in
  let '(g, r) := commit cfg g (rn_io intentEnv)
    (escrow_event now eventEscrowIntent (ei_CallID i) (call_payload (new_call i now))) in
  match r with
  | Err m => (g, Err m)
  | Ok _ => registerEscrowTransitionLocked g env (ei_OrganizationID i) (ei_CallID i) c (Some b)
  end
  end end end end end.

Definition resolved_transition (t : EscrowTransition) : bool :=
  bool_decide (et_State t = EscrowTransitionConfirmed) || bool_decide (et_State t = EscrowTransitionReverted).

(** Nothing is pending: the evidence of a resolved transition is confirmed again. *)
Definition repeated_receipt (s : RState) (call : EscrowCall) (evidence : list EscrowReceiptEvidence) : res EscrowCall :=
  match evidence with
  | [] => Err ErrUnknownExecution
  | first :: _ =>
      match List.find (fun t => has_hash (er_TransactionHash first) t && resolved_transition t) (ec_Transitions call) with
      | None => Err ErrUnknownExecution
      | Some t =>
          try canonical := validateEscrowReceiptQuorum cfg (rs_status s) (et_Expected t) evidence in
          check (er_BlockNumber canonical =? et_BlockNumber t) && bool_decide (er_BlockHash canonical = et_BlockHash t) &&
                Bool.eqb (er_Success canonical) (bool_decide (et_State t = EscrowTransitionConfirmed))
            else ErrConflict ;;
          Ok call
      end
  end.

(** The call once the receipt of its pending transition [p] is known. *)
Definition resolve_pending (s : RState) (now : time) (call : EscrowCall) (p : EscrowTransition) (canonical : EscrowReceiptEvidence)
    (evidence : list EscrowReceiptEvidence) : res (EscrowCall * list LedgerTransaction) :=
  let t := set_evidence (Some now) (er_BlockNumber canonical) (er_BlockHash canonical) (digestEscrowEvidence evidence) p in
  if er_Success canonical then
    let t := set_transition EscrowTransitionConfirmed (et_ReorgedFrom t) "canonical escrow transition confirmed" t in
    let state := nextEscrowState (xr_Action (et_Expected t)) in
    match escrowLedger (ec_Intent call) t now with
    | None => Ok (set_pending None (set_history state (ec_Transitions call ++ [t]) call), [])
    | Some ledger =>
        check match rs_ledger s !! lt_TransactionID ledger with Some existing => equal_ledger existing ledger | None => true end
          else ErrConflict ;;
        let t := set_bookings (lt_TransactionID ledger) (et_CorrectionTransactionID t) t in
        Ok (set_pending None (set_history state (ec_Transitions call ++ [t]) call), [ledger])
    end
  else
    let t := set_transition EscrowTransitionReverted (et_ReorgedFrom t) "canonical escrow transaction reverted; position unchanged" t in
    Ok (set_pending None (set_history (ec_State call) (ec_Transitions call ++ [t]) call), []).

Definition ReconcileEscrowTransition (g : REngine) (env : renv) (callID : string) (evidence : list EscrowReceiptEvidence)
    : REngine * res EscrowCall :=
  let s := re_state g in
  match rs_escrowCalls s !! callID with
  | None => (g, Err ErrUnknownExecution)
  | Some call =>
  let now := rn_now env in
  if cs_FinalizationPaused (rs_status s) || bool_decide (cs_State (rs_status s) = StateSuspectedStall) ||
     negb (trustedFresh cfg (rs_status s) now)
  then (g, Err ErrChainUnavailable) else
  match ec_Pending call with
  | None => (g, repeated_receipt s call evidence)
  | Some p =>
  match validateEscrowReceiptQuorum cfg (rs_status s) (et_Expected p) evidence with
  | Err m => (g, Err m)
  | Ok canonical =>
  if match last (ec_Transitions call) with Some t => er_BlockNumber canonical <? et_BlockNumber t | None => false end
  then (g, Err ErrUnsafeFinality) else
  match resolve_pending s now call p canonical evidence with
  | Err m => (g, Err m)
  | Ok (call, ledgers) =>
      let '(g, r) := commit cfg g (rn_io env)
        (escrow_event now eventEscrowResolved callID (mkescrowPayload call evidence [] ledgers None)) in
      match r with Err m => (g, Err m) | Ok _ => (refresh cfg (rn_refresh env) g, Ok call) end
  end end end end.

(** [escrowTransition]: the transition of the hash, what precedes it and what
    follows it. *)
Fixpoint find_transition (hash : string) (before ts : list EscrowTransition)
    : option (list EscrowTransition * EscrowTransition * list EscrowTransition) :=
  match ts with
  | [] => None
  | t :: ts => if has_hash hash t then Some (before, t, ts) else find_transition hash (before ++ [t]) ts
  end.

Definition finality_observable (s : RState) (now : time) : bool :=
  negb (cs_FinalizationPaused (rs_status s)) && trustedFresh cfg (rs_status s) now.

Definition ConfirmEscrowFinality (g : REngine) (env : renv) (callID transactionHash : string) (evidence : list ReorgEvidence)
    : REngine * res EscrowCall :=
  let s := re_state g in
  match rs_escrowCalls s !! callID with
  | None => (g, Err ErrUnknownExecution)
  | Some call =>
  match find_transition transactionHash [] (ec_Transitions call) with
  | None => (g, Err ErrUnknownExecution)
  | Some (before, t, after) =>
  if negb (resolved_transition t) then (g, Err "only a resolved escrow transition can reach finality") else
  match et_FinalityCheckedAt t with
  | Some _ => (g, if is_ok (validateEscrowCanonicalQuorum cfg (rs_status s) t evidence false) then Ok call else Err ErrConflict)
  | None =>
  let now := rn_now env in
  if negb (finality_observable s now) then (g, Err ErrChainUnavailable) else
  match validateEscrowCanonicalQuorum cfg (rs_status s) t evidence false with
  | Err m => (g, Err m)
  | Ok head =>
      let call := set_history (ec_State call) (before ++ set_checked (Some now) head t :: after) call in
      let '(g, r) := commit cfg g (rn_io env)
        (escrow_event now eventEscrowResolved callID (mkescrowPayload call [] evidence [] None)) in
      match r with Err m => (g, Err m) | Ok _ => (g, Ok call) end
  end end end end.

(** One transition a reorganization takes back, with its correction. *)
Definition reopen_item (s : RState) (i : EscrowIntent) (canonicalHash : string) (now : time) (t : EscrowTransition)
    : res (EscrowTransition * list LedgerTransaction) :=
  let reorged u := set_transition EscrowTransitionReorged (et_State u) "canonical reorg removed this transition or an earlier dependency" u in
  if negb (bool_decide (et_LedgerTransactionID t = "")) && bool_decide (et_CorrectionTransactionID t = "") then
    match rs_ledger s !! et_LedgerTransactionID t with
    | None => Err "escrow reorg target ledger transaction is missing"
    | Some original =>
        let correction := reverseEscrowLedger i t original canonicalHash now in
        try _ := ledger_validate correction in
        try _ := validateCorrection (rs_ledger s) correction in
        Ok (reorged (set_bookings (et_LedgerTransactionID t) (lt_TransactionID correction) t), [correction])
    end
  else Ok (reorged t, []).

Fixpoint reopen_items (s : RState) (i : EscrowIntent) (canonicalHash : string) (now : time) (ts : list EscrowTransition)
    : res (list EscrowTransition * list LedgerTransaction) :=
  match ts with
  | [] => Ok ([], [])
  | t :: ts =>
      try x := reopen_item s i canonicalHash now t in
      try r := reopen_items s i canonicalHash now ts in
      Ok (x.1 :: r.1, x.2 ++ r.2)
  end.

(** The chain goes back into recovery; the number of affected executions is kept. *)
Definition escrow_reorg_status (s : RState) (now : time) : ChainStatus :=
  let c := rs_status s in
  setPauseFlags (set_counts (cs_AffectedExecutions c) false
    (set_state StateRecovering "escrow transition reorg corrected; manual escrow resolution and chain release required" now
       (cs_ConsecutiveUnhealthy c) 0 c)).

Definition ReopenEscrowReorg (g : REngine) (env : renv) (callID transactionHash : string) (evidence : list ReorgEvidence)
    : REngine * res EscrowCall :=
  let s := re_state g in
  match rs_escrowCalls s !! callID with
  | None => (g, Err ErrUnknownExecution)
  | Some call =>
  match find_transition transactionHash [] (ec_Transitions call) with
  | None => (g, Err ErrUnknownExecution)
  | Some (before, t, after) =>
  if negb (resolved_transition t) then (g, Err "only a resolved escrow transition can be reopened") else
  let now := rn_now env in
  if negb (finality_observable s now) then (g, Err ErrChainUnavailable) else
  match validateEscrowCanonicalQuorum cfg (rs_status s) t evidence true with
  | Err m => (g, Err m)
  | Ok _ =>
  let canonicalHash := match evidence with first :: _ => rg_CanonicalBlockHash first | [] => "" end in
  let reverted := bool_decide (et_State t = EscrowTransitionReverted) in
  match reopen_items s (ec_Intent call) canonicalHash now (t :: if reverted then [] else after) with
  | Err m => (g, Err m)
  | Ok (items, ledgers) =>
      let call := set_call_resolution "canonical reorg requires explicit operator resolution"
        (set_pending None (set_history EscrowPositionQuarantined (before ++ items ++ (if reverted then after else [])) call)) in
      let '(g, r) := commit cfg g (rn_io env)
        (escrow_event now eventEscrowReorged callID (mkescrowPayload call [] evidence ledgers (Some (escrow_reorg_status s now)))) in
      match r with Err m => (g, Err m) | Ok _ => (refresh cfg (rn_refresh env) g, Ok call) end
  end end end end.
End EscrowOperations.
