(* ===== verification/ReconTheorems.v ===== *)
(** * Chain recovery, settlement evidence and the ledger

    [recon_run] is a life of the reconciliation engine: any operations in any
    order, appends that are refused, fail or succeed, and restarts on whatever the
    journal holds. [emits] says which events an operation can commit and under
    which guards; an invariant is proved once per event and holds in every run. *)
From stdpp Require Import base gmap strings list fin_maps sorting.
From Stdlib Require Import ZArith Lia Ascii.
From S2P Require Import Prelude GoText GoJSON Crypto Amounts Envelope Receipt SignerVerifier AttemptJournal.
From S2P Require Import Recon ReconEscrow ReconEngine ReconEscrowOps.

Open Scope Z_scope.

(** ** Runs *)

Inductive rop :=
| RObserve (env : renv) (observations : list Observation)
| RForceHalt (env : renv) (operator reason : string)
| RResume (env : renv) (operator : string)
| RRegister (env : renv) (expected : ExpectedExecution)
| RRegisterAttested (env : renv) (expected : ExpectedExecution) (b : BroadcastAttestation)
| RRegisterX402 (env : renv) (expected : ExpectedExecution) (c : X402SettlementClaim)
| RReconcile (env : renv) (executionID : string) (evidence : list ReceiptEvidence) (settlement : option LedgerTransaction)
| RQuarantine (env : renv) (organizationID executionID operator reason : string)
| RReopen (env : renv) (executionID : string) (evidence : list ReorgEvidence) (correction : LedgerTransaction)
| RReopenReverted (env : renv) (executionID : string) (evidence : list ReorgEvidence)
| RConfirm (env : renv) (executionID : string) (evidence : list ReorgEvidence)
| RPost (env : renv) (t : LedgerTransaction)
| ROutcome (env : renv) (executionID : string) (evidence : list TransactionOutcomeEvidence)
| RDrop (env : renv) (organizationID executionID operator : string)
| RReplace (env : renv) (organizationID executionID operator : string) (evidence : list ReceiptEvidence)
    (settlement : LedgerTransaction)
| REscrowIntent (env : renv) (i : EscrowIntent)
| REscrowAttested (intentEnv env : renv) (i : EscrowIntent) (c : EscrowTransitionCandidate) (b : EscrowBroadcastAttestation)
| REscrowTransition (env : renv) (organizationID callID : string) (c : EscrowTransitionCandidate)
| REscrowReceipt (env : renv) (callID : string) (evidence : list EscrowReceiptEvidence)
| REscrowFinality (env : renv) (callID transactionHash : string) (evidence : list ReorgEvidence)
| REscrowReorg (env : renv) (callID transactionHash : string) (evidence : list ReorgEvidence)
| ROpen (env : renv).

(** A process that serves, or only the journal on disk. *)
Inductive rsys :=
| Up (g : REngine)
| Down (stream : list revent).

Definition durable (y : rsys) : list revent := match y with Up g => re_stream g | Down stream => stream end.

Section Runs.
Context `{Crypto}.
Variable cfg : ReconConfig.

Definition operate (g : REngine) (op : rop) : REngine :=
  match op with
  | RObserve env observations => (Observe cfg g env observations).1
  | RForceHalt env operator reason => (ForceHalt cfg g env operator reason).1
  | RResume env operator => (Resume cfg g env operator).1
  | RRegister env expected => (RegisterBroadcast cfg g env expected).1
  | RRegisterAttested env expected b => (RegisterAttestedBroadcast cfg g env expected b).1
  | RRegisterX402 env expected c => (RegisterX402Settlement cfg g env expected c).1
  | RReconcile env id evidence settlement => (ReconcileReceipt cfg g env id evidence settlement).1
  | RQuarantine env org id operator reason => (QuarantineForOrganization cfg g env org id operator reason).1
  | RReopen env id evidence correction => (ReopenReorg cfg g env id evidence correction).1
  | RReopenReverted env id evidence => (ReopenRevertedReorg cfg g env id evidence).1
  | RConfirm env id evidence => (ConfirmFinality cfg g env id evidence).1
  | RPost env t => (Post cfg g env t).1
  | ROutcome env id evidence => (RecordTransactionOutcome cfg g env id evidence).1
  | RDrop env org id operator => (ResolveProvenDropForOrganization cfg g env org id operator).1
  | RReplace env org id operator evidence settlement =>
      (ReconcileProvenReplacementForOrganization cfg g env org id operator evidence settlement).1
  | REscrowIntent env i => (RegisterEscrowIntent cfg g env i).1
  | REscrowAttested intentEnv env i c b => (RegisterAttestedEscrowBroadcast cfg g intentEnv env i c b).1
  | REscrowTransition env org id c => (RegisterEscrowTransition cfg g env org id c).1
  | REscrowReceipt env id evidence => (ReconcileEscrowTransition cfg g env id evidence).1
  | REscrowFinality env id hash evidence => (ConfirmEscrowFinality cfg g env id hash evidence).1
  | REscrowReorg env id hash evidence => (ReopenEscrowReorg cfg g env id hash evidence).1
  | ROpen _ => g
  end.

(** [ROpen] may come at any moment: what the process held in memory is gone. *)
Definition recon_step (y : rsys) (op : rop) : rsys :=
  match op with
  | ROpen env => match Engine_Open cfg env (durable y) with (stream, Ok g) => Up g | (stream, Err _) => Down stream end
  | _ => match y with Up g => Up (operate g op) | Down stream => Down stream end
  end.

Definition recon_run (ops : list rop) : rsys := fold_left recon_step ops (Down []).

(** ** What the operations commit *)

Definition status_event (now : time) (key : string) (c : ChainStatus) (operator : string) (mark : bool) : revent :=
  mkrevent now eventChainStatus key (PChain c operator mark).

Inductive emits (s : RState) : rop -> revent -> Prop :=
| em_observe env obs now key :
    emits s (RObserve env obs) (status_event now key (observed_status cfg s (rn_now env) obs) "" false)
| em_halt env operator reason now key c :
    cs_State c = StateHalted -> emits s (RForceHalt env operator reason) (status_event now key c operator false)
| em_resume env operator now key c :
    identifier_pattern operator = true -> recoveryReady cfg s (rn_ready env) = true ->
    emits s (RResume env operator) (status_event now key c operator false)
| em_restart env now :
    emits s (ROpen env) (status_event now "restart" (restart_status now (rs_status s)) "" true)
| em_register op now expected state at_ b c :
    state = ExecutionBroadcast \/ state = ExecutionPendingChainRecovery -> hash_pattern (ex_TransactionHash expected) = true ->
    emits s op (mkrevent now eventExecutionBroadcast (ex_ExecutionID expected)
                  (PExecution (new_execution expected state at_ b c) None None))
| em_update op now kind key e e' :
    rs_executions s !! key = Some e -> e_Expected e' = e_Expected e -> e_State e' <> ExecutionSettled ->
    emits s op (mkrevent now kind key (PExecution e' None None))
| em_confirm op now key e at_ head :
    rs_executions s !! key = Some e ->
    emits s op (mkrevent now eventExecutionResolved key (PExecution (set_finality at_ head e) None None))
| em_reconcile env id evidence settlement e canonical resolved ledger :
    rs_executions s !! id = Some e -> trustedFresh cfg (rs_status s) (rn_now env) = true ->
    cs_State (rs_status s) <> StateHalted -> cs_State (rs_status s) <> StateSuspectedStall ->
    validateReceiptQuorum cfg (rs_status s) (e_Expected e) evidence = Ok canonical ->
    reconciled s (rn_now env) id e canonical settlement = Ok (resolved, ledger) ->
    emits s (RReconcile env id evidence settlement)
      (mkrevent (rn_now env) eventExecutionResolved id (PExecution resolved ledger None))
| em_reopen op now key e e' ledger c :
    rs_executions s !! key = Some e -> e_Expected e' = e_Expected e -> e_State e' <> ExecutionSettled ->
    cs_State c = StateRecovering -> cs_ConsecutiveRecovery c = 0 ->
    match ledger with Some t => ledger_validate t = Ok tt /\ rs_ledger s !! lt_TransactionID t = None | None => True end ->
    emits s op (mkrevent now eventExecutionReorged key (PExecution e' ledger (Some c)))
| em_post op now t :
    ledger_validate t = Ok tt -> rs_ledger s !! lt_TransactionID t = None ->
    emits s op (mkrevent now eventLedgerPosted (lt_TransactionID t) (PLedger t))
| em_replace env org id operator evidence t e r canonical e' :
    rs_executions s !! id = Some e -> e_TransactionRecovery e = Some r -> tr_Outcome r = RecoveryExpectedReplacement ->
    chainUsable cfg (rs_status s) (rn_now env) = true ->
    validateReceiptQuorum cfg (rs_status s) (with_hash (e_Expected e) (tr_ReplacementTransaction r)) evidence = Ok canonical ->
    rv_Success canonical = true -> settlement_validate s id org t = Ok tt -> ex_OrganizationID (e_Expected e) = org ->
    e_Expected e' = e_Expected e -> e_BlockNumber e' = rv_BlockNumber canonical -> e_BlockHash e' = rv_BlockHash canonical ->
    e_ResolvedTransactionHash e' = tr_ReplacementTransaction r -> e_LedgerTransactionID e' = lt_TransactionID t ->
    emits s (RReplace env org id operator evidence t)
      (mkrevent (rn_now env) eventExecutionResolved id (PExecution e' (Some t) None)).

(** An escrow event changes the status only to send the chain back into recovery. *)
Definition escrow_emitted (ev : revent) : Prop :=
  match rve_Payload ev with
  | PEscrow p => match ep_Status p with Some c => cs_State c = StateRecovering /\ cs_ConsecutiveRecovery c = 0 | None => True end
  | _ => False
  end.

Inductive escrow_steps (g : REngine) : REngine -> Prop :=
| es_done : escrow_steps g g
| es_commit io ev g1 r g2 : escrow_emitted ev -> commit cfg g io ev = (g1, r) -> escrow_steps g1 g2 -> escrow_steps g g2
| es_refresh now g2 : escrow_steps (refresh cfg now g) g2 -> escrow_steps g g2.

(** One commit, possibly none, and the counts possibly refreshed; the escrow
    operations commit up to two events. *)
Inductive performs (g : REngine) (op : rop) : REngine -> Prop :=
| pf_same : performs g op g
| pf_commit io ev g' r : emits (re_state g) op ev -> commit cfg g io ev = (g', r) -> performs g op g'
| pf_refresh io ev g' r now :
    emits (re_state g) op ev -> commit cfg g io ev = (g', r) -> performs g op (refresh cfg now g')
| pf_escrow g' : escrow_steps g g' -> performs g op g'.

Lemma commit_performs g env op kind key e ledger c :
  emits (re_state g) op (mkrevent (rn_now env) kind key (PExecution e ledger c)) ->
  performs g op (commit_execution cfg g env kind key e ledger c).1.
Proof.
  intros He. unfold commit_execution. destruct (commit _ _ _ _) as [g' r] eqn:Ec. destruct r; cbn [fst]; [eapply pf_refresh|eapply pf_commit]; eauto.
Qed.

Lemma register_performs g env op e :
  emits (re_state g) op (mkrevent (rn_now env) eventExecutionBroadcast (ex_ExecutionID (e_Expected e)) (PExecution e None None)) ->
  performs g op (register_execution cfg g env e).1.
Proof.
  intros He. unfold register_execution. destruct (commit _ _ _ _) as [g' r] eqn:Ec. destruct r; cbn [fst]; eapply pf_commit; eauto.
Qed.

Ltac committed := destruct (commit _ _ _ _) as [?g ?r] eqn:?Ec; destruct r; cbn [fst];
  first [eapply pf_refresh; [|eassumption] | eapply pf_commit; [|eassumption]].
(** A guard that ends the operation without a commit, or goes on. *)
Ltac gate := match goal with |- context [if ?b then _ else _] => destruct b eqn:? end; try (cbn [fst]; apply pf_same).

Lemma expected_validate_hash e chain : expected_validate e chain = Ok tt -> hash_pattern (ex_TransactionHash e) = true.
Proof. unfold expected_validate. intros Hv. ok_prop. destruct Hv as (_ & Hv). ok_prop. tauto. Qed.

Lemma arrival_cases g now : arrival_state cfg g now = ExecutionBroadcast \/ arrival_state cfg g now = ExecutionPendingChainRecovery.
Proof. unfold arrival_state. destruct (chainUsable _ _ _); tauto. Qed.

Lemma Observe_performs g env obs : performs g (RObserve env obs) (Observe cfg g env obs).1.
Proof. unfold Observe. committed; apply em_observe. Qed.

Lemma ForceHalt_performs g env operator reason : performs g (RForceHalt env operator reason) (ForceHalt cfg g env operator reason).1.
Proof. unfold ForceHalt. do 2 gate. committed; by apply em_halt. Qed.

Lemma Resume_performs g env operator : performs g (RResume env operator) (Resume cfg g env operator).1.
Proof. unfold Resume. do 3 gate. to_prop. committed; by apply em_resume. Qed.

Lemma Register_performs g env expected : performs g (RRegister env expected) (RegisterBroadcast cfg g env expected).1.
Proof.
  unfold RegisterBroadcast. destruct (expected_validate _ _) as [[]|] eqn:Ev; [|apply pf_same].
  apply expected_validate_hash in Ev. destruct (registered_before _ _ _); [apply pf_same|]. gate.
  apply register_performs, em_register; tauto.
Qed.

Lemma RegisterAttested_performs g env expected b :
  performs g (RRegisterAttested env expected b) (RegisterAttestedBroadcast cfg g env expected b).1.
Proof.
  unfold RegisterAttestedBroadcast. destruct (expected_validate _ _) as [[]|] eqn:Ev; [|apply pf_same].
  apply expected_validate_hash in Ev. destruct (attestation_validate _ _); [|apply pf_same].
  destruct (registered_before _ _ _); [apply pf_same|].
  apply register_performs, em_register; [apply arrival_cases|done].
Qed.

Lemma RegisterX402_performs g env expected c :
  performs g (RRegisterX402 env expected c) (RegisterX402Settlement cfg g env expected c).1.
Proof.
  unfold RegisterX402Settlement. destruct (expected_validate _ _) as [[]|] eqn:Ev; [|apply pf_same].
  apply expected_validate_hash in Ev. destruct (claim_validate _ _); [|apply pf_same].
  destruct (registered_before _ _ _); [apply pf_same|].
  apply register_performs, em_register; [apply arrival_cases|done].
Qed.

Lemma Reconcile_performs g env id evidence settlement :
  performs g (RReconcile env id evidence settlement) (ReconcileReceipt cfg g env id evidence settlement).1.
Proof.
  unfold ReconcileReceipt. destruct (_ !! id) as [e|] eqn:El; [|apply pf_same]. do 3 gate. to_prop.
  destruct (validateReceiptQuorum _ _ _ _) as [canonical|] eqn:Eq; [|apply pf_same]. gate.
  destruct (reconciled _ _ _ _ _ _) as [[resolved ledger]|] eqn:Er; [|apply pf_same].
  apply commit_performs. eapply em_reconcile; try eassumption; tauto.
Qed.

Lemma Quarantine_performs g env org id operator reason :
  performs g (RQuarantine env org id operator reason) (QuarantineForOrganization cfg g env org id operator reason).1.
Proof.
  unfold QuarantineForOrganization, quarantine. do 2 gate. destruct (_ !! id) as [e|] eqn:El; [|apply pf_same]. do 2 gate.
  apply commit_performs. by eapply em_update.
Qed.

Lemma Reopen_performs g env id evidence correction :
  performs g (RReopen env id evidence correction) (ReopenReorg cfg g env id evidence correction).1.
Proof.
  unfold ReopenReorg. destruct (_ !! id) as [e|] eqn:El; [|apply pf_same].
  destruct (digestReorgEvidence evidence) as [digest canonical]. do 3 gate.
  destruct (validateCanonicalBlockQuorum _ _ _ _ _); [|apply pf_same]. gate.
  destruct (ledger_validate correction) as [[]|] eqn:Ev; [|apply pf_same].
  destruct (validateCorrection _ _); [|apply pf_same]. destruct (_ !! lt_TransactionID _) eqn:Et; [apply pf_same|].
  apply commit_performs. by eapply em_reopen.
Qed.

Lemma ReopenReverted_performs g env id evidence :
  performs g (RReopenReverted env id evidence) (ReopenRevertedReorg cfg g env id evidence).1.
Proof.
  unfold ReopenRevertedReorg. destruct (_ !! id) as [e|] eqn:El; [|apply pf_same].
  destruct (digestReorgEvidence evidence) as [digest canonical]. do 3 gate.
  destruct (validateCanonicalBlockQuorum _ _ _ _ _); [|apply pf_same].
  apply commit_performs. by eapply em_reopen.
Qed.

Lemma Confirm_performs g env id evidence : performs g (RConfirm env id evidence) (ConfirmFinality cfg g env id evidence).1.
Proof.
  unfold ConfirmFinality. destruct (_ !! id) as [e|] eqn:El; [|apply pf_same]. do 2 gate.
  destruct (validateCanonicalBlockQuorum _ _ _ _ _); [|apply pf_same]. destruct (e_FinalityCheckedAt e); [apply pf_same|].
  gate. committed; by eapply em_confirm.
Qed.

Lemma Post_performs g env t : performs g (RPost env t) (Post cfg g env t).1.
Proof.
  unfold Post. destruct (ledger_validate t) as [[]|] eqn:Ev; [|apply pf_same].
  destruct (_ !! lt_TransactionID t) eqn:Et; [apply pf_same|]. gate.
  destruct (if bool_decide _ then _ else _); [|apply pf_same]. committed; by apply em_post.
Qed.

Lemma unresolved_open e : unresolved e = true -> e_State e <> ExecutionSettled.
Proof. unfold unresolved. intros Hu E. rewrite E in Hu. done. Qed.

Lemma Outcome_performs g env id evidence : performs g (ROutcome env id evidence) (RecordTransactionOutcome cfg g env id evidence).1.
Proof.
  unfold RecordTransactionOutcome. destruct (_ !! id) as [e|] eqn:El; [|apply pf_same].
  destruct (validateTransactionOutcomeQuorum _ _ _ _) as [[canonical digest]|]; [|apply pf_same]. cbv zeta. gate.
  destruct (unresolved e) eqn:Eu; [|apply pf_same]. apply unresolved_open in Eu. cbn [negb].
  destruct (bool_decide (to_Outcome canonical = _)).
  - gate. committed; by eapply em_update.
  - destruct (e_TransactionRecovery e) as [r|]; [|apply pf_same]. gate. apply commit_performs. by eapply em_update.
Qed.

Lemma Drop_performs g env org id operator :
  performs g (RDrop env org id operator) (ResolveProvenDropForOrganization cfg g env org id operator).1.
Proof.
  unfold ResolveProvenDropForOrganization. gate. destruct (_ !! id) as [e|] eqn:El; [|apply pf_same]. do 2 gate.
  destruct (e_TransactionRecovery e) as [r|]; [|apply pf_same]. do 2 gate. apply commit_performs. by eapply em_update.
Qed.

Lemma Replace_performs g env org id operator evidence t :
  performs g (RReplace env org id operator evidence t)
    (ReconcileProvenReplacementForOrganization cfg g env org id operator evidence t).1.
Proof.
  unfold ReconcileProvenReplacementForOrganization. gate. destruct (_ !! id) as [e|] eqn:El; [|apply pf_same]. gate.
  destruct (e_TransactionRecovery e) as [r|] eqn:Er; [|apply pf_same]. do 2 gate.
  destruct (validateReceiptQuorum _ _ _ _) as [canonical|] eqn:Eq; [|apply pf_same]. gate.
  destruct (settlement_validate _ _ _ _) as [[]|] eqn:Es; [|apply pf_same]. to_prop.
  apply commit_performs. eapply em_replace; try eassumption; tauto.
Qed.

Lemma escrow_commit g io now kind id p :
  escrow_emitted (escrow_event now kind id p) -> escrow_steps g (commit cfg g io (escrow_event now kind id p)).1.
Proof. intros He. destruct (commit _ _ _ _) as [g' r] eqn:Ec. eapply es_commit; [exact He|exact Ec|apply es_done]. Qed.

Lemma escrow_commit_then {A} g io now kind id p now' (k : A) :
  escrow_emitted (escrow_event now kind id p) ->
  escrow_steps g
    (let '(g, r) := commit cfg g io (escrow_event now kind id p) in
     match r with Err m => (g, Err m) | Ok _ => (refresh cfg now' g, Ok k) end).1.
Proof.
  intros He. destruct (commit _ _ _ _) as [g' r] eqn:Ec. eapply es_commit; [exact He|exact Ec|].
  destruct r; [eapply es_refresh|]; apply es_done.
Qed.

Lemma escrow_commit_last {A} g io now kind id p (k : A) :
  escrow_emitted (escrow_event now kind id p) ->
  escrow_steps g
    (let '(g, r) := commit cfg g io (escrow_event now kind id p) in
     match r with Err m => (g, Err m) | Ok _ => (g, Ok k) end).1.
Proof.
  intros He. destruct (commit _ _ _ _) as [g' r] eqn:Ec. eapply es_commit; [exact He|exact Ec|]. destruct r; apply es_done.
Qed.

Ltac stop := cbn [fst]; apply es_done.
Ltac egate := match goal with |- context [if ?b then _ else _] => destruct b eqn:? end; try stop.

Lemma Locked_steps g env org id c b : escrow_steps g (registerEscrowTransitionLocked cfg g env org id c b).1.
Proof.
  unfold registerEscrowTransitionLocked. destruct (_ !! id); [|stop]. egate. destruct (repeated_candidate _ _ _); [stop|]. egate.
  destruct (expectedEscrowTransition _ _); [|stop]. destruct (match b with Some _ => _ | None => _ end); [|stop].
  destruct (ec_Pending _); [stop|]. egate. by apply escrow_commit_then.
Qed.

Lemma Intent_steps g env i : escrow_steps g (RegisterEscrowIntent cfg g env i).1.
Proof.
  unfold RegisterEscrowIntent. destruct (EscrowIntent_Validate i); [|stop]. do 2 egate. destruct (_ !! ei_CallID i); [stop|].
  do 3 egate. by apply escrow_commit_last.
Qed.

Lemma Attested_steps g env1 env2 i c b : escrow_steps g (RegisterAttestedEscrowBroadcast cfg g env1 env2 i c b).1.
Proof.
  unfold RegisterAttestedEscrowBroadcast. destruct (EscrowIntent_Validate i); [|stop]. destruct (attestation_validateIntent _ _); [|stop].
  destruct (expectedEscrowTransition _ _); [|stop]. destruct (escrow_attestation_validate _ _); [|stop]. egate.
  destruct (_ !! ei_CallID i); [egate; apply Locked_steps|]. egate.
  destruct (commit _ _ _ _) as [g' r] eqn:Ec. eapply es_commit; [|exact Ec|]; [done|]. destruct r; [apply Locked_steps|stop].
Qed.

Lemma Receipt_steps g env id evidence : escrow_steps g (ReconcileEscrowTransition cfg g env id evidence).1.
Proof.
  unfold ReconcileEscrowTransition. destruct (_ !! id); [|stop]. egate. destruct (ec_Pending _); [|stop].
  destruct (validateEscrowReceiptQuorum _ _ _ _); [|stop]. egate. destruct (resolve_pending _ _ _ _ _ _) as [[call ledgers]|]; [|stop].
  by apply escrow_commit_then.
Qed.

Lemma Finality_steps g env id hash evidence : escrow_steps g (ConfirmEscrowFinality cfg g env id hash evidence).1.
Proof.
  unfold ConfirmEscrowFinality. destruct (_ !! id); [|stop]. destruct (find_transition _ _ _) as [[[before t] after]|]; [|stop]. egate.
  destruct (et_FinalityCheckedAt t); [stop|]. egate. destruct (validateEscrowCanonicalQuorum _ _ _ _ _); [|stop].
  by apply escrow_commit_last.
Qed.

Lemma Reorg_steps g env id hash evidence : escrow_steps g (ReopenEscrowReorg cfg g env id hash evidence).1.
Proof.
  unfold ReopenEscrowReorg. destruct (_ !! id); [|stop]. destruct (find_transition _ _ _) as [[[before t] after]|]; [|stop]. do 2 egate.
  destruct (validateEscrowCanonicalQuorum _ _ _ _ _); [|stop]. cbv zeta. destruct (reopen_items _ _ _ _ _) as [[items ledgers]|]; [|stop].
  by apply escrow_commit_then.
Qed.

Lemma operate_performs g op : performs g op (operate g op).
Proof.
  destruct op; cbn [operate].
  - apply Observe_performs.
  - apply ForceHalt_performs.
  - apply Resume_performs.
  - apply Register_performs.
  - apply RegisterAttested_performs.
  - apply RegisterX402_performs.
  - apply Reconcile_performs.
  - apply Quarantine_performs.
  - apply Reopen_performs.
  - apply ReopenReverted_performs.
  - apply Confirm_performs.
  - apply Post_performs.
  - apply Outcome_performs.
  - apply Drop_performs.
  - apply Replace_performs.
  - apply pf_escrow, Intent_steps.
  - apply pf_escrow, Attested_steps.
  - apply pf_escrow, Locked_steps.
  - apply pf_escrow, Receipt_steps.
  - apply pf_escrow, Finality_steps.
  - apply pf_escrow, Reorg_steps.
  - apply pf_same.
Qed.

(** ** Invariants of every run *)

Lemma recon_run_snoc ops op : recon_run (ops ++ [op]) = recon_step (recon_run ops) op.
Proof. apply fold_left_app. Qed.

Lemma commit_split g io ev g' r :
  commit cfg g io ev = (g', r) ->
  (re_stream g' = re_stream g \/ re_stream g' = re_stream g ++ [ev]) /\
  match r with Ok _ => replay_event cfg (re_state g) ev = Ok (re_state g') | Err _ => re_state g' = re_state g end.
Proof.
  unfold commit, replay_event. destruct (re_fault g); [intros [= <- <-]; auto|].
  destruct io as [m|m []|]; [intros [= <- <-]; auto..|].
  destruct (apply _ _ _); intros [= <- <-]; auto.
Qed.

(** [IS] of the state and [IE] of the durable events, both about the history. *)
Section Invariant.
Variable IS : list rop -> RState -> Prop.
Variable IE : list rop -> revent -> Prop.
Hypothesis IS_later : forall ops op s, IS ops s -> IS (ops ++ [op]) s.
Hypothesis IE_later : forall ops op ev, IE ops ev -> IE (ops ++ [op]) ev.
Hypothesis IS_initial : forall ops now, IS ops (initial_state cfg now).
Hypothesis IS_refresh : forall ops s now, IS ops s -> IS ops (refreshAffected cfg now s).
Hypothesis IS_apply : forall ops s ev s', IS ops s -> IE ops ev -> replay_event cfg s ev = Ok s' -> IS ops s'.
Hypothesis IE_restart : forall ops s now key, IS ops s -> IE ops (status_event now key (restart_status now (rs_status s)) "" true).
Hypothesis IE_emitted : forall ops op g ev,
  recon_run ops = Up g -> IS ops (re_state g) -> emits (re_state g) op ev -> IE (ops ++ [op]) ev.

Hypothesis IE_escrow : forall ops ev, escrow_emitted ev -> IE ops ev.

Definition holds (ops : list rop) (y : rsys) : Prop :=
  Forall (IE ops) (durable y) /\ match y with Up g => IS ops (re_state g) | Down _ => True end.

Lemma replay_holds ops now stream s :
  Forall (IE ops) stream -> fold_res (replay_event cfg) (initial_state cfg now) stream = Ok s -> IS ops s.
Proof.
  intros Hs. revert s. induction stream as [|ev l IH] using rev_ind; intros s; [intros [= <-]; apply IS_initial|].
  apply Forall_app in Hs as [Hl Hev]. rewrite Forall_singleton in Hev. rewrite fold_res_snoc, try_ok_iff. intros (s1 & H1 & H2).
  eapply IS_apply; [apply (IH Hl s1 H1)|exact Hev|exact H2].
Qed.

Lemma commit_holds ops g io ev g' r :
  holds ops (Up g) -> IE ops ev -> commit cfg g io ev = (g', r) -> holds ops (Up g').
Proof.
  intros [Hst Hs] Hev Hc. apply commit_split in Hc as [Hstream Hstate]. cbn in *. split; cbn.
  - destruct Hstream as [-> | ->]; [done|]. apply Forall_app. split; [done|by apply Forall_singleton].
  - destruct r; [eauto|by rewrite Hstate].
Qed.

Lemma refresh_holds ops g now : holds ops (Up g) -> holds ops (Up (refresh cfg now g)).
Proof. intros [Hst Hs]. split; [exact Hst|]. apply IS_refresh, Hs. Qed.

Lemma escrow_holds ops g g' : escrow_steps g g' -> holds ops (Up g) -> holds ops (Up g').
Proof.
  induction 1 as [g|g io ev g1 r g2 He Hc _ IH|g now g2 _ IH]; intros Hh; [done| |].
  - apply IH. eapply commit_holds; [exact Hh|by apply IE_escrow|exact Hc].
  - apply IH. by apply refresh_holds.
Qed.

Lemma performs_holds ops g op g' :
  recon_run ops = Up g -> holds ops (Up g) -> performs g op g' -> holds (ops ++ [op]) (Up g').
Proof.
  intros Hrun Hh Hp. assert (holds (ops ++ [op]) (Up g)) as Hl.
  { destruct Hh as [Hst Hs]. split; [eapply Forall_impl; [exact Hst|eauto]|]. by apply IS_later. }
  destruct Hh as [_ Hs]. destruct Hp; [done| | |by eapply escrow_holds]; [|apply refresh_holds]; (eapply commit_holds; [exact Hl|eapply IE_emitted; eassumption|eassumption]).
Qed.

Lemma open_holds ops env stream stream' r :
  Forall (IE ops) stream -> Engine_Open cfg env stream = (stream', r) ->
  match r with Ok g => holds ops (Up g) | Err _ => Forall (IE ops) stream' end.
Proof.
  intros Hst. unfold Engine_Open. destruct (fold_res _ _ stream) as [s|m] eqn:Es; [|by intros [= <- <-]].
  pose proof (replay_holds _ _ _ _ Hst Es) as Hs. cbv zeta. destruct (_ || _).
  - destruct (commit _ _ _ _) as [g' p] eqn:Ec.
    assert (holds ops (Up g')) as Hg by (eapply commit_holds; [|by apply IE_restart|exact Ec]; by split).
    destruct p; intros [= <- <-]; [by apply refresh_holds|apply Hg].
  - intros [= <- <-]. apply refresh_holds. by split.
Qed.

Theorem run_holds ops : holds ops (recon_run ops).
Proof.
  induction ops as [|op ops IH] using rev_ind; [split; [apply Forall_nil_2|done]|]. rewrite recon_run_snoc.
  destruct (recon_run ops) as [g|stream] eqn:Er; destruct op; cbn [recon_step];
    try (eapply performs_holds; [exact Er|exact IH|apply operate_performs]);
    try (destruct IH as [Hst _]; split; [eapply Forall_impl; [exact Hst|eauto]|done]).
  all: destruct (Engine_Open _ _ _) as [stream' r] eqn:Eo; apply (open_holds (ops ++ [ROpen env])) in Eo;
    [destruct r; [done|by split]|].
  all: destruct IH as [Hst _]; eapply Forall_impl; [exact Hst|eauto].
Qed.
End Invariant.
End Runs.

(** ** The ledger is double entry *)

Definition books (accounts : gmap string Z) : Z := map_sum (fun _ b => b) accounts.
Definition balance_of (b : balances) (org account : string) : Z := default 0 (default ∅ (b !! org) !! account).
Definition posted (account : string) (ps : list Posting) : Z :=
  foldr Z.add 0 (map (fun p => if bool_decide (po_Account p = account) then posting_amount p else 0) ps).

Lemma books_add accounts p : books (add_posting accounts p) = books accounts + posting_amount p.
Proof.
  unfold books, add_posting. destruct (accounts !! po_Account p) eqn:E; cbn [default].
  - rewrite (map_sum_insert_upd _ _ _ _ _ E). unfold id. lia.
  - rewrite map_sum_insert_new by done. lia.
Qed.

Lemma books_postings ps : forall accounts,
  books (fold_left add_posting ps accounts) = books accounts + foldr Z.add 0 (map posting_amount ps).
Proof. induction ps as [|p ps IH]; intros accounts; cbn; [lia|]. rewrite IH, books_add. lia. Qed.

Lemma signedInteger_amount p n : signedInteger (po_AmountAtomic p) = Ok n -> posting_amount p = n.
Proof.
  unfold signedInteger, posting_amount. cbv zeta. rewrite !check_ok_iff. intros (_ & _ & _ & Hn).
  destruct (SetString10 _) as [z|]; [|done]. rewrite check_ok_iff in Hn. destruct Hn as [_ [= ->]]. done.
Qed.

Lemma ledger_validate_sum t : ledger_validate t = Ok tt -> foldr Z.add 0 (map posting_amount (lt_Postings t)) = 0.
Proof.
  unfold ledger_validate. rewrite !check_ok_iff, try_ok_iff. intros (_ & _ & _ & total & Hf & Hr).
  rewrite check_ok_iff in Hr. destruct Hr as [Hz _]. apply Z.eqb_eq in Hz. subst total.
  enough (forall ps a b, fold_res (fun sum p =>
      check identifier_pattern (po_Account p) else "ledger account is invalid" ;;
      try amount := signedInteger (po_AmountAtomic p) in Ok (sum + amount)) a ps = Ok b ->
      b = a + foldr Z.add 0 (map posting_amount ps)) as Hgen by (apply Hgen in Hf; lia).
  clear. induction ps as [|p ps IH]; intros a b; [intros [= <-]; cbn; lia|].
  rewrite fold_res_cons, try_ok_iff. intros (c & Hc & Hr). rewrite check_ok_iff, try_ok_iff in Hc.
  destruct Hc as (_ & n & Hn & [= <-]). apply IH in Hr. apply signedInteger_amount in Hn. cbn. lia.
Qed.

Lemma postings_at ps account : forall accounts,
  default 0 (fold_left add_posting ps accounts !! account) = default 0 (accounts !! account) + posted account ps.
Proof.
  induction ps as [|p ps IH]; intros accounts; cbn; [lia|]. rewrite IH. unfold add_posting.
  destruct (decide (po_Account p = account)) as [->|Hne].
  - rewrite lookup_insert_eq, bool_decide_true by done. cbn. unfold posted. lia.
  - rewrite lookup_insert_ne, bool_decide_false by done. unfold posted. lia.
Qed.

Lemma totals_at sign ps account : default 0 (posting_totals sign ps !! account) = sign * posted account ps.
Proof.
  unfold posting_totals.
  enough (forall m : gmap string Z, default 0 (fold_left (fun m p =>
      <[po_Account p := default 0 (m !! po_Account p) + sign * posting_amount p]> m) ps m !! account) =
      default 0 (m !! account) + sign * posted account ps) as Hgen by (rewrite Hgen, lookup_empty; cbn; lia).
  induction ps as [|p ps IH]; intros m; cbn; [lia|]. rewrite IH. unfold posted.
  destruct (decide (po_Account p = account)) as [->|Hne].
  - rewrite lookup_insert_eq, bool_decide_true by done. cbn. lia.
  - rewrite lookup_insert_ne, bool_decide_false by done. lia.
Qed.

Lemma balance_apply b t org account :
  balance_of (apply_postings b t) org account =
  balance_of b org account + if bool_decide (lt_OrganizationID t = org) then posted account (lt_Postings t) else 0.
Proof.
  unfold balance_of, apply_postings, balances in *. destruct (decide (lt_OrganizationID t = org)) as [->|Hne].
  - rewrite lookup_insert_eq, bool_decide_true by done. cbn [default]. apply postings_at.
  - rewrite lookup_insert_ne, bool_decide_false by done. lia.
Qed.

Lemma correction_reverses ledger original t b org account :
  validateCorrection ledger t = Ok tt -> ledger !! lt_ReversesTransactionID t = Some original ->
  balance_of (apply_postings (apply_postings b original) t) org account = balance_of b org account.
Proof.
  unfold validateCorrection. rewrite check_ok_iff. intros [_ Hv] Hl. rewrite Hl in Hv. ok_prop.
  destruct Hv as (Horg & Htot & _). rewrite !balance_apply, Horg. destruct (bool_decide _); [|lia].
  pose proof (totals_at (-1) (lt_Postings original) account) as H1.
  pose proof (totals_at 1 (lt_Postings t) account) as H2. rewrite Htot in H1. lia.
Qed.

(** ** What an event changes *)

Section Effects.
Context `{Crypto}.
Variable cfg : ReconConfig.

(** The part of the status that decides who may proceed. *)
Definition phase (s : RState) : ChainState * Z := (cs_State (rs_status s), cs_ConsecutiveRecovery (rs_status s)).
Definition phase_of (c : ChainStatus) : ChainState * Z := (cs_State c, cs_ConsecutiveRecovery c).

(** [e'] is [e], or [e] waiting for the chain to recover. *)
Definition parked (e e' : Execution) : Prop :=
  e' = e \/ e_State e' = ExecutionPendingChainRecovery /\ e_Expected e' = e_Expected e /\
            e_TransactionRecovery e' = e_TransactionRecovery e.

Lemma parked_refl e : parked e e.
Proof. by left. Qed.

Lemma track_same operator s :
  phase (trackManualRelease cfg operator s) = phase s /\ rs_executions (trackManualRelease cfg operator s) = rs_executions s /\
  rs_balances (trackManualRelease cfg operator s) = rs_balances s.
Proof. unfold trackManualRelease. cbv zeta. destruct (negb _); [done|]. by destruct (negb _). Qed.

Lemma mark_same s :
  phase (markBroadcastsPending s) = phase s /\ rs_balances (markBroadcastsPending s) = rs_balances s /\
  (forall id e', rs_executions (markBroadcastsPending s) !! id = Some e' ->
     exists e, rs_executions s !! id = Some e /\ parked e e').
Proof.
  split_and!; [done..|]. intros id e'. cbn. rewrite lookup_fmap. destruct (rs_executions s !! id) as [e|]; [|done].
  cbn. intros [= <-]. exists e. split; [done|]. destruct (bool_decide _); [right|left]; done.
Qed.

Lemma check_chain_same s s' :
  check_chain cfg s = Ok s' ->
  phase s' = phase s /\ rs_executions s' = rs_executions s /\ rs_balances s' = rs_balances s.
Proof.
  unfold check_chain. destruct (_ =? 0); [by intros [= <-]|]. rewrite check_ok_iff. by intros [_ [= <-]].
Qed.

(** The execution of a payload once stored. *)
Definition stored (s : RState) (e e' : Execution) : Prop := preserveBroadcastAttestation (rs_executions s) (decode_execution e) = Ok e'.

Inductive effect (s s' : RState) : rpayload -> Prop :=
| ef_chain c operator mark :
    phase s' = phase_of c -> rs_balances s' = rs_balances s ->
    (forall id e', rs_executions s' !! id = Some e' -> exists e, rs_executions s !! id = Some e /\ parked e e') ->
    effect s s' (PChain c operator mark)
| ef_execution e e' ledger c :
    stored s e e' -> rs_executions s' = <[ex_ExecutionID (e_Expected e') := e']> (rs_executions s) ->
    phase s' = match c with Some c => phase_of c | None => phase s end ->
    rs_balances s' = match ledger with Some t => apply_postings (rs_balances s) t | None => rs_balances s end ->
    effect s s' (PExecution e ledger c)
| ef_noted e e' ledger c :
    stored s e e' -> rs_executions s' = <[ex_ExecutionID (e_Expected e') := e']> (rs_executions s) ->
    phase s' = phase s -> rs_balances s' = rs_balances s ->
    effect s s' (PExecution e ledger c)
| ef_ledger t :
    phase s' = phase s -> rs_executions s' = rs_executions s -> rs_balances s' = apply_postings (rs_balances s) t ->
    effect s s' (PLedger t)
| ef_escrow p :
    phase s' = match ep_Status p with Some c => phase_of c | None => phase s end -> rs_executions s' = rs_executions s ->
    Forall (fun t => ledger_validate t = Ok tt) (ep_Ledgers p) ->
    rs_balances s' = fold_left apply_postings (ep_Ledgers p) (rs_balances s) ->
    effect s s' (PEscrow p).

Lemma apply_broadcast_effect s s' kind key e ledger c :
  apply_broadcast s kind key (decode_execution e) = Ok s' -> effect s s' (PExecution e ledger c).
Proof.
  unfold apply_broadcast. rewrite try_ok_iff. intros (e' & Hp & Hr). cbv zeta in Hr. rewrite !check_ok_iff in Hr.
  destruct Hr as (_ & _ & _ & _ & _ & [= <-]). by eapply ef_noted.
Qed.

Lemma apply_resolved_effect s s' e ledger c :
  apply_resolved cfg s (decode_execution e) ledger (option_map decode_status c) = Ok s' -> effect s s' (PExecution e ledger c).
Proof.
  unfold apply_resolved. rewrite try_ok_iff. intros (e' & Hp & [= <-]). cbv zeta.
  destruct c as [c|]; cbn [option_map].
  - destruct (track_same "" (with_status (match ledger with Some t => applyLedger (with_executions s
      (<[ex_ExecutionID (e_Expected e') := e']> (rs_executions s)) (rs_executionByHash s)) t | None => with_executions s
      (<[ex_ExecutionID (e_Expected e') := e']> (rs_executions s)) (rs_executionByHash s) end) (decode_status c))) as (H1 & H2 & H3).
    eapply ef_execution; [exact Hp|rewrite H2; by destruct ledger|exact H1|rewrite H3; by destruct ledger].
  - eapply ef_execution; [exact Hp|by destruct ledger..].
Qed.

Lemma additions_valid c at_ l : forall st st',
  fold_res (bind_addition c at_) st l = Ok st' -> Forall (fun t => ledger_validate t = Ok tt) l.
Proof.
  induction l as [|t l IH]; intros st st'; [constructor|]. rewrite fold_res_cons, try_ok_iff. intros (st1 & H1 & H2).
  constructor; [|by eapply IH]. destruct st as [prospective added]. cbn [bind_addition] in H1. rewrite check_ok_iff in H1.
  destruct H1 as [Hv _]. to_prop. destruct Hv as (((Hv & _) & _) & _). by destruct (ledger_validate t) as [[]|].
Qed.

Lemma ledgers_same l : forall s,
  phase (fold_left applyLedger l s) = phase s /\ rs_executions (fold_left applyLedger l s) = rs_executions s /\
  rs_balances (fold_left applyLedger l s) = fold_left apply_postings l (rs_balances s).
Proof. induction l as [|t l IH]; intros s; [done|]. cbn [fold_left]. destruct (IH (applyLedger s t)) as (-> & -> & ->). done. Qed.

Lemma apply_escrow_effect s s' kind key at_ p :
  apply_escrow cfg s kind key at_ (decode_escrow p) = Ok s' -> effect s s' (PEscrow p).
Proof.
  unfold apply_escrow. cbv zeta. rewrite !check_ok_iff. intros (_ & _ & Hr). rewrite try_ok_iff in Hr. destruct Hr as (_ & _ & Hr).
  rewrite !check_ok_iff in Hr. destruct Hr as (_ & _ & Hr). rewrite try_ok_iff in Hr. destruct Hr as (_ & _ & Hr).
  rewrite try_ok_iff in Hr. destruct Hr as (_ & _ & Hr). rewrite try_ok_iff in Hr. destruct Hr as ([] & Hb & [= <-]).
  unfold validateEscrowLedgerBindings in Hb. rewrite try_ok_iff in Hb. destruct Hb as (st & Ha & _). apply additions_valid in Ha.
  cbn [decode_escrow ep_Ledgers ep_Status ep_Call] in *. set (s1 := with_escrow s _ _ _).
  destruct (ledgers_same (ep_Ledgers p) s1) as (L1 & L2 & L3). destruct (ep_Status p) as [c|] eqn:Ec; cbn [option_map].
  - destruct (track_same "" (with_status (fold_left applyLedger (ep_Ledgers p) s1) (decode_status c))) as (T1 & T2 & T3).
    apply ef_escrow; [rewrite Ec; by rewrite T1|by rewrite T2|done|by rewrite T3].
  - apply ef_escrow; [rewrite Ec; by rewrite L1|by rewrite L2|done|by rewrite L3].
Qed.

Lemma effect_check s s1 s' p : effect s s1 p -> check_chain cfg s1 = Ok s' -> effect s s' p.
Proof.
  intros He (H1 & H2 & H3)%check_chain_same.
  destruct He; [eapply ef_chain|eapply ef_execution|eapply ef_noted|eapply ef_ledger|eapply ef_escrow]; try eassumption;
    rewrite ?H1, ?H2, ?H3; assumption.
Qed.

Lemma replay_effect s ev s' : replay_event cfg s ev = Ok s' -> effect s s' (rve_Payload ev).
Proof.
  unfold replay_event, apply. cbn [rve_Payload rve_Kind rve_Key]. rewrite try_ok_iff. intros (s1 & H1 & H2).
  eapply effect_check; [clear H2|exact H2]. destruct (rve_Payload ev) as [c operator mark|e ledger c|t|p]; cbn [decode_payload] in H1.
  - rewrite check_ok_iff in H1. destruct H1 as [_ [= <-]].
    destruct (track_same operator (with_status s (decode_status c))) as (T1 & T2 & T3).
    set (s0 := trackManualRelease cfg operator _) in *. destruct (_ || _).
    + destruct (mark_same s0) as (M1 & M2 & M3). apply ef_chain; [by rewrite M1, T1|by rewrite M2, T3|].
      intros id e' Hl. apply M3 in Hl as (e & Hl & Hp). rewrite T2 in Hl. eauto.
    + apply ef_chain; [by rewrite T1|by rewrite T3|]. intros id e' Hl. rewrite T2 in Hl. eauto using parked_refl.
  - destruct (_ || _).
    + eapply apply_broadcast_effect, H1.
    + rewrite check_ok_iff in H1. destruct H1 as [_ H1]. by apply apply_resolved_effect.
  - rewrite check_ok_iff in H1. destruct H1 as [_ [= <-]]. by apply ef_ledger.
  - rewrite check_ok_iff in H1. destruct H1 as [_ H1]. by eapply apply_escrow_effect.
Qed.
End Effects.

(** *** The ledger theorem *)

Section Ledger.
Context `{Crypto}.
Variable cfg : ReconConfig.

Definition event_ledger (p : rpayload) : option LedgerTransaction :=
  match p with PExecution _ ledger _ => ledger | PLedger t => Some t | PChain _ _ _ | PEscrow _ => None end.

Definition balanced (s : RState) : Prop := forall org accounts, rs_balances s !! org = Some accounts -> books accounts = 0.
Definition balanced_event (ev : revent) : Prop :=
  match event_ledger (rve_Payload ev) with Some t => ledger_validate t = Ok tt | None => True end.

Lemma balanced_postings s t b :
  balanced s -> ledger_validate t = Ok tt -> b = apply_postings (rs_balances s) t ->
  forall org accounts, b !! org = Some accounts -> books accounts = 0.
Proof.
  intros Hb Hv -> org accounts. unfold apply_postings, balances in *.
  destruct (decide (lt_OrganizationID t = org)) as [<-|Hne]; [|rewrite lookup_insert_ne by done; apply Hb].
  rewrite lookup_insert_eq. intros [= <-]. rewrite books_postings, ledger_validate_sum by done.
  match goal with |- context [default ∅ ?x] => destruct x as [acc|] eqn:El end.
  { cbn. by rewrite (Hb _ _ El). }
  cbn. unfold books. by rewrite map_sum_empty.
Qed.

Lemma balanced_fold l : forall (s : RState) (b : balances),
  (forall org accounts, b !! org = Some accounts -> books accounts = 0) -> Forall (fun t => ledger_validate t = Ok tt) l ->
  forall org accounts, fold_left apply_postings l b !! org = Some accounts -> books accounts = 0.
Proof.
  induction l as [|t l IH]; intros s b Hb Hl; [done|]. inversion Hl; subst. cbn [fold_left]. apply (IH s); [|done].
  intros org accounts. eapply (balanced_postings (with_ledger s ∅ b)); done.
Qed.

Lemma balanced_replay s ev s' : balanced s -> balanced_event ev -> replay_event cfg s ev = Ok s' -> balanced s'.
Proof.
  intros Hb Hev He%replay_effect. unfold balanced_event, event_ledger in Hev. destruct He as [? ? ? _ HB _|? ? l ? _ _ _ HB|? ? ? ? _ _ _ HB|? _ _ HB|p _ _ Hl HB].
  - intros org accounts. rewrite HB. apply Hb.
  - destruct l; [intros org accounts; by eapply balanced_postings|]. intros org accounts. rewrite HB. apply Hb.
  - intros org accounts. rewrite HB. apply Hb.
  - intros org accounts. by eapply balanced_postings.
  - intros org accounts. rewrite HB. by apply (balanced_fold _ s).
Qed.

Lemma settlement_ledger s id org t : settlement_validate s id org t = Ok tt -> ledger_validate t = Ok tt.
Proof. unfold settlement_validate. rewrite check_ok_iff, try_unit_iff. tauto. Qed.

Lemma reconciled_ledger s now id e canonical settlement resolved t :
  reconciled s now id e canonical settlement = Ok (resolved, Some t) -> ledger_validate t = Ok tt.
Proof.
  unfold reconciled. cbv zeta. destruct (rv_Success canonical), settlement as [u|]; [|done..].
  rewrite try_ok_iff. intros ([] & Hs & [= _ <-]). by eapply settlement_ledger.
Qed.

Lemma emits_balanced s op ev : emits cfg s op ev -> balanced_event ev.
Proof.
  destruct 1; unfold balanced_event; cbn; try done.
  - destruct ledger; [|done]. by eapply reconciled_ledger.
  - destruct ledger; tauto.
  - by eapply settlement_ledger.
Qed.

Lemma run_balanced ops g : recon_run cfg ops = Up g -> balanced (re_state g).
Proof.
  intros Hr. pose proof (run_holds cfg (fun _ s => balanced s) (fun _ ev => balanced_event ev)) as Hh.
  assert (holds (fun _ s => balanced s) (fun _ ev => balanced_event ev) ops (recon_run cfg ops)) as [_ Hb]; [|by rewrite Hr in Hb].
  apply Hh; clear Hh; eauto using balanced_replay, emits_balanced.
  - by intros _ now org accounts.
  - by intros.
  - intros _ ev He. unfold escrow_emitted in He. unfold balanced_event. by destruct (rve_Payload ev).
Qed.

(** C8: the ledger is double entry in every life of the engine, whatever the
    journal does and however often the process restarts: the balances of an
    organization add up to zero; and a correction the engine accepts returns
    every balance to what it was before the transaction it reverses. *)
Theorem ledger_conserves ops g :
  recon_run cfg ops = Up g ->
  (forall org accounts, rs_balances (re_state g) !! org = Some accounts -> map_sum (fun _ b => b) accounts = 0) /\
  (forall original t b org account,
     validateCorrection (rs_ledger (re_state g)) t = Ok tt ->
     rs_ledger (re_state g) !! lt_ReversesTransactionID t = Some original ->
     balance_of (apply_postings (apply_postings b original) t) org account = balance_of b org account).
Proof. intros Hr. split; [apply (run_balanced _ _ Hr)|]. intros. by eapply correction_reverses. Qed.
End Ledger.

(** ** Recovery is released by hand *)

Section Release.
Context `{Crypto}.
Variable cfg : ReconConfig.

(** How many healthy snapshots were recorded since the last unhealthy one, manual
    halt or restart. *)
Definition stability_step (st : rsys * Z) (op : rop) : rsys * Z :=
  let '(y, n) := st in
  (recon_step cfg y op,
   match op, y with
   | RObserve env obs, Up g =>
       if is_ok (Observe cfg g env obs).2
       then if is_ok (evaluateSnapshot cfg (rs_status (re_state g)) (rn_now env) obs) then n + 1 else 0
       else n
   | RForceHalt env operator reason, Up g => if is_ok (ForceHalt cfg g env operator reason).2 then 0 else n
   | ROpen _, _ => 0
   | _, _ => n
   end).
Definition stability (ops : list rop) : Z := (fold_left stability_step ops (Down [], 0)).2.

Lemma stability_run ops : fold_left stability_step ops (Down [], 0) = (recon_run cfg ops, stability ops).
Proof.
  unfold stability. induction ops as [|op ops IH] using rev_ind; [done|].
  rewrite fold_left_app, recon_run_snoc. cbn. rewrite IH. done.
Qed.

Lemma stability_snoc ops op : stability (ops ++ [op]) = (stability_step (recon_run cfg ops, stability ops) op).2.
Proof. unfold stability at 1. rewrite fold_left_app. cbn [fold_left]. by rewrite stability_run. Qed.

Lemma stability_nonneg ops : 0 <= stability ops.
Proof.
  induction ops as [|op ops IH] using rev_ind; [done|]. rewrite stability_snoc. cbn.
  destruct op, (recon_run cfg ops); try (repeat destruct (is_ok _); lia).
Qed.

(** *** The phase an operation leaves *)

Lemma refresh_phase now g : phase (re_state (refresh cfg now g)) = phase (re_state g).
Proof. done. Qed.

Definition is_status_op (op : rop) : bool :=
  match op with RObserve _ _ | RForceHalt _ _ _ | RResume _ _ | ROpen _ => true | _ => false end.

Lemma emitted_phase s op ev s' :
  is_status_op op = false -> emits cfg s op ev -> replay_event cfg s ev = Ok s' ->
  phase s' = phase s \/ phase s' = (StateRecovering, 0).
Proof.
  intros Hop He Hr%replay_effect. destruct He; try discriminate Hop; inversion Hr; subst; auto.
  right. match goal with Hp : phase s' = _ |- _ => rewrite Hp end. unfold phase_of. congruence.
Qed.

Lemma escrow_commit_phase g io ev g1 r :
  escrow_emitted ev -> commit cfg g io ev = (g1, r) ->
  phase (re_state g1) = phase (re_state g) \/ phase (re_state g1) = (StateRecovering, 0).
Proof.
  intros He [_ Hs]%commit_split. destruct r; [|left; by rewrite Hs]. apply replay_effect in Hs. unfold escrow_emitted in He.
  destruct (rve_Payload ev) as [| | |p]; try done. inversion Hs as [| | | |? Hp _ _ _]; subst. rewrite Hp.
  destruct (ep_Status p) as [c|]; [right|by left]. destruct He as [E1 E2]. unfold phase_of. congruence.
Qed.

Lemma performs_phase g op g' :
  is_status_op op = false -> performs cfg g op g' ->
  phase (re_state g') = phase (re_state g) \/ phase (re_state g') = (StateRecovering, 0).
Proof.
  intros Hop Hp.
  assert (forall io ev g1 r, emits cfg (re_state g) op ev -> commit cfg g io ev = (g1, r) ->
            phase (re_state g1) = phase (re_state g) \/ phase (re_state g1) = (StateRecovering, 0)) as Hc.
  { intros io ev g1 r He [_ Hs]%commit_split. destruct r; [by eapply emitted_phase|left; by rewrite Hs]. }
  destruct Hp as [|io ev g' r He Hcm|io ev g' r now He Hcm|g' Hes]; [by left|by eapply Hc|rewrite refresh_phase; by eapply Hc|].
  clear Hc Hop. induction Hes as [g|g io ev g1 r g2 He Hcm _ IH|g now g2 _ IH]; [by left| |].
  - destruct IH as [IH|IH]; [|by right]. rewrite IH. by eapply escrow_commit_phase.
  - destruct IH as [IH|IH]; [|by right]. left. by rewrite IH, refresh_phase.
Qed.

(** A status operation that returns leaves the phase it committed. *)
Lemma status_phase g io now key c operator mark g' r :
  commit cfg g io (status_event now key c operator mark) = (g', r) ->
  phase (re_state g') = if is_ok r then phase_of c else phase (re_state g).
Proof.
  intros [_ Hs]%commit_split. destruct r; cbn [is_ok]; [|by rewrite Hs]. apply replay_effect in Hs. by inversion Hs.
Qed.

Lemma Observe_phase g env obs :
  phase (re_state (Observe cfg g env obs).1) =
  if is_ok (Observe cfg g env obs).2 then phase_of (observed_status cfg (re_state g) (rn_now env) obs) else phase (re_state g).
Proof.
  unfold Observe. destruct (commit _ _ _ _) as [g' r] eqn:Ec. apply status_phase in Ec.
  destruct r; cbn [fst snd is_ok] in *; [by rewrite refresh_phase|done].
Qed.

Lemma ForceHalt_phase g env operator reason :
  if is_ok (ForceHalt cfg g env operator reason).2
  then cs_State (rs_status (re_state (ForceHalt cfg g env operator reason).1)) = StateHalted
  else phase (re_state (ForceHalt cfg g env operator reason).1) = phase (re_state g).
Proof.
  unfold ForceHalt. destruct (negb _); [done|]. destruct (_ || _); [done|].
  destruct (commit _ _ _ _) as [g' r] eqn:Ec. apply status_phase in Ec.
  destruct r; cbn [fst snd is_ok] in *; [|done]. rewrite <-refresh_phase with (now := rn_refresh env) in Ec. by injection Ec.
Qed.

Lemma Resume_phase g env operator :
  phase (re_state (Resume cfg g env operator).1) = phase (re_state g) \/
  identifier_pattern operator = true /\ recoveryReady cfg (re_state g) (rn_ready env) = true /\
  cs_State (rs_status (re_state (Resume cfg g env operator).1)) = StateHealthy.
Proof.
  unfold Resume. destruct (negb _) eqn:Eo; [by left|]. destruct (_ && _); [by left|]. destruct (negb (recoveryReady _ _ _)) eqn:Er; [by left|].
  destruct (commit _ _ _ _) as [g' r] eqn:Ec. apply status_phase in Ec. to_prop.
  destruct r; cbn [fst snd is_ok] in *; [right|by left]. by injection Ec.
Qed.

Lemma advance_phase k c : phase_of (advance_trusted k c) = phase_of c.
Proof. unfold advance_trusted. destruct (cs_LastTrusted c); [|done]. by destruct (_ || _). Qed.

Lemma healthy_phase s now c :
  phase_of (observe_healthy cfg s now c) =
  if bool_decide (cs_State c = StateHealthy) then phase_of c
  else if bool_decide (cs_State c = StateSuspectedStall) || bool_decide (cs_State c = StateHalted) then (StateRecovering, 1)
  else if bool_decide (cs_State c = StateRecovering) then (StateRecovering, cs_ConsecutiveRecovery c + 1)
  else phase_of c.
Proof.
  unfold observe_healthy. cbv zeta.
  destruct (bool_decide (cs_State c = StateHealthy)); [|destruct (bool_decide (cs_State c = StateSuspectedStall) || bool_decide (cs_State c = StateHalted)); [|destruct (bool_decide (cs_State c = StateRecovering)) eqn:Er]];
    match goal with |- phase_of (if ?b then _ else _) = _ => destruct b end; try done; to_prop; unfold phase_of; cbn; by rewrite Er.
Qed.

Lemma unhealthy_state now reason c :
  cs_State (observe_unhealthy cfg now reason c) <> StateHealthy /\ cs_State (observe_unhealthy cfg now reason c) <> StateRecovering.
Proof.
  unfold observe_unhealthy. cbv zeta.
  destruct (bool_decide (cs_State c = StateHealthy)) eqn:E1; [done|].
  destruct (bool_decide (cs_State c = StateSuspectedStall)) eqn:E2.
  { to_prop. destruct (_ <=? _); cbn; [done|]. by rewrite E2. }
  destruct (bool_decide (cs_State c = StateRecovering)) eqn:E3; [done|].
  destruct (bool_decide (cs_State c = StateHalted)) eqn:E4; to_prop; cbn; [by rewrite E4|done].
Qed.

Lemma observed_phase s now obs :
  match evaluateSnapshot cfg (rs_status s) now obs with
  | Ok _ =>
      ((phase_of (observed_status cfg s now obs)).1 = StateHealthy -> cs_State (rs_status s) = StateHealthy) /\
      ((phase_of (observed_status cfg s now obs)).1 = StateRecovering ->
         (phase_of (observed_status cfg s now obs)).2 = 1 \/
         cs_State (rs_status s) = StateRecovering /\
         (phase_of (observed_status cfg s now obs)).2 = cs_ConsecutiveRecovery (rs_status s) + 1)
  | Err _ => cs_State (observed_status cfg s now obs) <> StateHealthy /\ cs_State (observed_status cfg s now obs) <> StateRecovering
  end.
Proof.
  unfold observed_status. cbv zeta. set (c := set_counts _ false _).
  assert (cs_State c = cs_State (rs_status s) \/ cs_State c = StateSuspectedStall) as Hc.
  { unfold c. cbn [set_counts cs_State]. destruct (_ && _); [by right|by left]. }
  assert (cs_ConsecutiveRecovery c = cs_ConsecutiveRecovery (rs_status s)) as Hn.
  { unfold c. cbn [set_counts cs_ConsecutiveRecovery]. by destruct (_ && _). }
  destruct (evaluateSnapshot _ _ _ _) as [k|reason]; [|apply unhealthy_state].
  change (phase_of (set_counts _ _ (setPauseFlags ?x))) with (phase_of x). rewrite advance_phase, healthy_phase, Hn.
  destruct (bool_decide (cs_State c = StateHealthy)) eqn:E1; to_prop.
  { unfold phase_of. rewrite E1. split; [|done]. intros _. destruct Hc as [<-|Hc]; [done|by rewrite Hc in E1]. }
  destruct (_ || _) eqn:E2; [split; [done|by left]|]. to_prop. destruct E2 as [E2 E3].
  destruct (bool_decide (cs_State c = StateRecovering)) eqn:E4; to_prop.
  - split; [done|]. intros _. right. split; [destruct Hc as [<-|Hc]; [done|by rewrite Hc in E4]|done].
  - unfold phase_of. by split.
Qed.

(** *** What a healthy engine has behind it *)

(** Since a manual release the chain was never seen unhealthy. *)
Definition released (ops : list rop) : Prop :=
  exists before env operator after g0,
    ops = before ++ RResume env operator :: after /\ recon_run cfg before = Up g0 /\ identifier_pattern operator = true /\
    recoveryReady cfg (re_state g0) (rn_ready env) = true /\ cf_RecoveryObservations cfg <= stability before /\
    forall mid rest, after = mid ++ rest ->
      exists g1, recon_run cfg (before ++ RResume env operator :: mid) = Up g1 /\ cs_State (rs_status (re_state g1)) = StateHealthy.

Lemma released_later ops op g :
  released ops -> recon_run cfg (ops ++ [op]) = Up g -> cs_State (rs_status (re_state g)) = StateHealthy -> released (ops ++ [op]).
Proof.
  intros (before & env & operator & after & g0 & -> & H1 & H2 & H3 & H4 & Hall) Hg Hs.
  exists before, env, operator, (after ++ [op]), g0. split_and!; try done; [by rewrite <-app_assoc|].
  intros mid rest Heq. destruct rest as [|x rest _] using rev_ind.
  - rewrite app_nil_r in Heq. subst mid. exists g. by rewrite <-app_assoc in Hg.
  - rewrite app_assoc in Heq. apply app_inj_tail in Heq as [-> _]. by apply (Hall mid rest).
Qed.

Definition supervised (ops : list rop) (g : REngine) : Prop :=
  (cs_State (rs_status (re_state g)) = StateRecovering -> cs_ConsecutiveRecovery (rs_status (re_state g)) <= stability ops) /\
  (cs_State (rs_status (re_state g)) = StateHealthy -> released ops).

Lemma supervised_other ops op g g' :
  is_status_op op = false -> recon_run cfg ops = Up g -> recon_run cfg (ops ++ [op]) = Up g' -> supervised ops g ->
  performs cfg g op g' -> supervised (ops ++ [op]) g'.
Proof.
  intros Hop Hr Hr' [S1 S2] Hp. assert (stability (ops ++ [op]) = stability ops) as Hst.
  { rewrite stability_snoc, Hr. by destruct op. }
  pose proof (stability_nonneg ops). apply performs_phase in Hp; [|done]. unfold phase in Hp.
  destruct Hp as [[= E1 E2]|[= E1 E2]]; split; rewrite ?E2, ?Hst; intros Hs.
  - apply S1. congruence.
  - eapply released_later; [apply S2; congruence|done|done].
  - lia.
  - rewrite E1 in Hs. done.
Qed.

Lemma phase_split s s' : phase s' = phase s ->
  cs_State (rs_status s') = cs_State (rs_status s) /\ cs_ConsecutiveRecovery (rs_status s') = cs_ConsecutiveRecovery (rs_status s).
Proof. by intros [= -> ->]. Qed.

Lemma supervised_same ops op g g' :
  recon_run cfg (ops ++ [op]) = Up g' -> stability (ops ++ [op]) = stability ops -> phase (re_state g') = phase (re_state g) ->
  supervised ops g -> supervised (ops ++ [op]) g'.
Proof.
  intros Hr' Hst [E1 E2]%phase_split [S1 S2]. split; rewrite ?E2, ?Hst; intros Hs.
  - apply S1. congruence.
  - eapply released_later; [apply S2; congruence|done|done].
Qed.

Lemma supervised_observe ops env obs g :
  recon_run cfg ops = Up g -> supervised ops g -> supervised (ops ++ [RObserve env obs]) (Observe cfg g env obs).1.
Proof.
  intros Hr Hsup. assert (recon_run cfg (ops ++ [RObserve env obs]) = Up (Observe cfg g env obs).1) as Hr'.
  { by rewrite recon_run_snoc, Hr. }
  pose proof (stability_snoc ops (RObserve env obs)) as Hst. rewrite Hr in Hst. cbn [stability_step snd] in Hst.
  pose proof (Observe_phase g env obs) as Hp. destruct (is_ok (Observe cfg g env obs).2).
  2: { by eapply supervised_same. }
  pose proof (observed_phase (re_state g) (rn_now env) obs) as Ho. destruct Hsup as [S1 S2]. pose proof (stability_nonneg ops).
  assert (cs_State (rs_status (re_state (Observe cfg g env obs).1)) = (phase_of (observed_status cfg (re_state g) (rn_now env) obs)).1) as E1
    by (by rewrite <-Hp).
  assert (cs_ConsecutiveRecovery (rs_status (re_state (Observe cfg g env obs).1)) = (phase_of (observed_status cfg (re_state g) (rn_now env) obs)).2)
    as E2 by (by rewrite <-Hp).
  destruct (evaluateSnapshot _ _ _ _) as [k|]; cbn [is_ok] in Hst.
  - destruct Ho as [Hh Hrec]. split; rewrite ?E1, ?E2, ?Hst.
    + intros [Hs|[Hs Hs2]]%Hrec; [rewrite Hs; lia|]. specialize (S1 Hs). rewrite Hs2. lia.
    + intros Hs. eapply released_later; [by apply S2, Hh|exact Hr'|congruence].
  - destruct Ho as [N1 N2]. split; rewrite E1; done.
Qed.

Lemma supervised_halt ops env operator reason g :
  recon_run cfg ops = Up g -> supervised ops g ->
  supervised (ops ++ [RForceHalt env operator reason]) (ForceHalt cfg g env operator reason).1.
Proof.
  intros Hr Hsup. pose proof (stability_snoc ops (RForceHalt env operator reason)) as Hst. rewrite Hr in Hst. cbn [stability_step snd] in Hst.
  pose proof (ForceHalt_phase g env operator reason) as Hp. destruct (is_ok _).
  - split; rewrite Hp; done.
  - eapply supervised_same; [by rewrite recon_run_snoc, Hr|done..].
Qed.

Lemma supervised_resume ops env operator g :
  recon_run cfg ops = Up g -> supervised ops g -> supervised (ops ++ [RResume env operator]) (Resume cfg g env operator).1.
Proof.
  intros Hr Hsup. assert (recon_run cfg (ops ++ [RResume env operator]) = Up (Resume cfg g env operator).1) as Hr'.
  { by rewrite recon_run_snoc, Hr. }
  destruct (Resume_phase g env operator) as [Hp|(Ho & Hready & Hs)].
  - eapply supervised_same; [done| |done..]. by rewrite stability_snoc.
  - split; [by rewrite Hs|]. intros _. exists ops, env, operator, [], g. split_and!; try done.
    + unfold recoveryReady in Hready. to_prop. destruct Hready as (((E1 & E2) & _) & _). apply Hsup in E1. lia.
    + intros mid rest Heq. symmetry in Heq. apply app_eq_nil in Heq as [-> ->]. eauto.
Qed.

Lemma open_phase env stream stream' g :
  Engine_Open cfg env stream = (stream', Ok g) ->
  cs_State (rs_status (re_state g)) <> StateHealthy /\
  (cs_State (rs_status (re_state g)) = StateRecovering -> cs_ConsecutiveRecovery (rs_status (re_state g)) = 0).
Proof.
  unfold Engine_Open. destruct (fold_res _ _ _) as [s|]; [|done]. cbv zeta. destruct (_ || _) eqn:Es.
  - destruct (commit _ _ _ _) as [g' r] eqn:Ec. apply status_phase in Ec. destruct r; [|done]. intros [= _ <-].
    injection Ec as E1 E2. cbn. rewrite E1, E2. split; [|done]. destruct (bool_decide _) eqn:Eh; [done|]. by to_prop.
  - intros [= _ <-]. cbn. to_prop. tauto.
Qed.

Lemma step_other y op g :
  is_status_op op = false -> recon_step cfg y op = Up g -> exists g0, y = Up g0 /\ g = operate cfg g0 op.
Proof. intros Hop. destruct y as [g0|]; destruct op; try discriminate Hop; cbn [recon_step]; intros [= <-]; eauto. Qed.

Lemma run_supervised ops g : recon_run cfg ops = Up g -> supervised ops g.
Proof.
  revert g. induction ops as [|op ops IH] using rev_ind; intros g Hr; [discriminate Hr|].
  pose proof Hr as Hr'. rewrite recon_run_snoc in Hr. destruct (is_status_op op) eqn:Eop.
  2: { apply step_other in Hr as (g0 & E0 & ->); [|exact Eop].
       eapply supervised_other; [exact Eop|exact E0|exact Hr'|exact (IH _ E0)|apply operate_performs]. }
  destruct op as [env obs|env operator reason|env operator| | | | | | | | | | | | | | | | | | |env]; try discriminate Eop; cbn [recon_step] in Hr.
  4: { destruct (Engine_Open _ _ _) as [stream' [g'|]] eqn:Eo; [|discriminate Hr]. injection Hr as ->.
       apply open_phase in Eo as [N1 N2]. split; [|done]. intros Hs. rewrite (N2 Hs). apply stability_nonneg. }
  all: destruct (recon_run cfg ops) as [g0|] eqn:E0; [|discriminate Hr]; specialize (IH _ eq_refl); injection Hr as <-.
  - apply supervised_observe; [exact E0|exact IH].
  - apply supervised_halt; [exact E0|exact IH].
  - apply supervised_resume; [exact E0|exact IH].
Qed.

(** C6: the gate that lets payments through opens only after a release by hand.
    Whenever [CheckChain] accepts, the history has a [Resume] by a named operator
    from RECOVERING, with no unresolved execution, a fresh trusted checkpoint and
    at least [RecoveryObservations] healthy snapshots recorded since the last
    unhealthy one, halt or restart; and from that release on the engine was
    HEALTHY after every operation, so no restart lies in between. *)
Theorem manual_release_only ops g now chainID :
  recon_run cfg ops = Up g -> Engine_CheckChain cfg (re_state g) now chainID = Ok tt ->
  chainID = cf_ChainID cfg /\ trustedFresh cfg (rs_status (re_state g)) now = true /\
  exists before env operator after g0,
    ops = before ++ RResume env operator :: after /\ recon_run cfg before = Up g0 /\ identifier_pattern operator = true /\
    cs_State (rs_status (re_state g0)) = StateRecovering /\ unresolvedCount (re_state g0) = 0 /\
    trustedFresh cfg (rs_status (re_state g0)) (rn_ready env) = true /\ cf_RecoveryObservations cfg <= stability before /\
    forall mid rest, after = mid ++ rest ->
      exists g1, recon_run cfg (before ++ RResume env operator :: mid) = Up g1 /\ cs_State (rs_status (re_state g1)) = StateHealthy.
Proof.
  intros Hr Hc. unfold Engine_CheckChain, chainUsable in Hc. ok_prop. destruct Hc as ((Hchain & Hstate & Hfresh) & _).
  split; [done|]. split; [done|]. destruct (run_supervised _ _ Hr) as [_ Hrel].
  destruct (Hrel Hstate) as (before & env & operator & after & g0 & -> & H1 & H2 & H3 & H4 & H5).
  exists before, env, operator, after, g0. unfold recoveryReady in H3. to_prop. naive_solver.
Qed.
End Release.

(** ** What a settlement stands on *)

(** [evidence] shows the transfer of [x] in the block: enough different observers,
    each naming the same block and the exact transfer, deep enough, at or below the
    trusted checkpoint of [c]. *)
Definition receipt_shows (cfg : ReconConfig) (x : ExpectedExecution) (number : Z) (hash : string) (r : ReceiptEvidence) : Prop :=
  rv_ChainID r = ex_ChainID x /\ rv_TransactionHash r = ex_TransactionHash x /\ rv_Sender r = ex_Sender x /\
  rv_Asset r = ex_Asset x /\ rv_Recipient r = ex_Recipient x /\ rv_AmountAtomic r = ex_AmountAtomic x /\
  rv_Success r = true /\ rv_BlockNumber r = number /\ rv_BlockHash r = hash /\
  number <= rv_ConfirmedHead r /\ cf_MinConfirmations cfg <= uint64 (rv_ConfirmedHead r - number + 1).

Definition receipts_prove (cfg : ReconConfig) (c : ChainStatus) (x : ExpectedExecution) (number : Z) (hash : string)
    (evidence : list ReceiptEvidence) : Prop :=
  cf_ObserverQuorum cfg <= Z.of_nat (length evidence) /\ NoDup (map rv_Provider evidence) /\
  Forall (receipt_shows cfg x number hash) evidence /\
  exists t, cs_LastTrusted c = Some t /\ number <= ck_BlockNumber t /\ (number = ck_BlockNumber t -> hash = ck_BlockHash t).

Section Settlement.
Context `{Crypto}.
Variable cfg : ReconConfig.

Lemma receipt_fold x canonical evidence : forall seen seen',
  fold_res (receipt_step cfg x canonical) seen evidence = Ok seen' -> rv_Success canonical = true ->
  Forall (receipt_shows cfg x (rv_BlockNumber canonical) (rv_BlockHash canonical)) evidence /\
  NoDup (map rv_Provider evidence) /\ forall r, r ∈ evidence -> rv_Provider r ∉ seen.
Proof.
  induction evidence as [|r l IH]; intros seen seen' Hf Hs.
  { split_and!; [constructor|constructor|]. intros r Hr. by apply elem_of_nil in Hr. }
  rewrite fold_res_cons, try_ok_iff in Hf. destruct Hf as (seen1 & H1 & H2). unfold receipt_step in H1. ok_prop.
  destruct H1 as ((_ & Hnew) & Hid & Hblock & Hsame & [= <-]).
  destruct (IH _ _ H2 Hs) as (IH1 & IH2 & IH3). split_and!.
  - constructor; [|done]. unfold receipt_shows. destruct Hsame as [[Hn Hh] Hsucc]. apply eqb_prop in Hsucc.
    rewrite <-Hn, <-Hh. rewrite Hsucc. tauto.
  - constructor; [|done]. intros (r' & Hp & Hr')%list_elem_of_fmap. apply (IH3 r') in Hr'. set_solver.
  - intros r' [->|Hr']%elem_of_cons; [done|]. apply IH3 in Hr'. set_solver.
Qed.

Lemma quorum_proves c x evidence canonical :
  validateReceiptQuorum cfg c x evidence = Ok canonical -> rv_Success canonical = true ->
  receipts_prove cfg c x (rv_BlockNumber canonical) (rv_BlockHash canonical) evidence.
Proof.
  unfold validateReceiptQuorum. rewrite check_ok_iff. intros [Hq Hv] Hs. destruct evidence as [|first rest]; [done|].
  rewrite try_ok_iff in Hv. destruct Hv as (seen & Hf & Hv). rewrite check_ok_iff in Hv. destruct Hv as [Hu [= <-]].
  to_prop. destruct (receipt_fold _ _ _ _ _ Hf Hs) as (F1 & F2 & _). split_and!; [tauto|done|done|].
  unfold under_checkpoint in Hu. destruct (cs_LastTrusted c) as [t|]; [|done]. exists t. to_prop.
  destruct Hu as [Hn Hh]. split_and!; [done|lia|]. intros E. destruct Hh as [Hh|Hh]; [by rewrite E in Hh|done].
Qed.

(** The two operations that settle an execution, with what they are given. *)
Inductive settles : rop -> time -> string -> list ReceiptEvidence -> LedgerTransaction -> Prop :=
| settles_receipt env id evidence t : settles (RReconcile env id evidence (Some t)) (rn_now env) id evidence t
| settles_replacement env org id operator evidence t : settles (RReplace env org id operator evidence t) (rn_now env) id evidence t.

(** The history settled [e] as it stands, with the settlement [t]. *)
Definition settled_with (ops : list rop) (e : Execution) (t : LedgerTransaction) : Prop :=
  exists before op after g0 now evidence,
    ops = before ++ op :: after /\ recon_run cfg before = Up g0 /\ settles op now (ex_ExecutionID (e_Expected e)) evidence t /\
    cs_State (rs_status (re_state g0)) <> StateHalted /\ cs_State (rs_status (re_state g0)) <> StateSuspectedStall /\
    trustedFresh cfg (rs_status (re_state g0)) now = true /\
    receipts_prove cfg (rs_status (re_state g0)) (with_hash (e_Expected e) (e_ResolvedTransactionHash e))
      (e_BlockNumber e) (e_BlockHash e) evidence /\
    ledger_validate t = Ok tt /\ lt_Kind t = LedgerSettlement /\ lt_ReferenceID t = ex_ExecutionID (e_Expected e) /\
    lt_OrganizationID t = ex_OrganizationID (e_Expected e) /\ lt_TransactionID t = e_LedgerTransactionID e.
Definition settled_by (ops : list rop) (e : Execution) : Prop := exists t, settled_with ops e t.

Lemma settled_with_later ops rest e t : settled_with ops e t -> settled_with (ops ++ rest) e t.
Proof.
  intros (before & op' & after & g0 & now & evidence & -> & Hrest).
  exists before, op', (after ++ rest), g0, now, evidence. split; [by rewrite <-app_assoc|done].
Qed.
Lemma settled_later ops rest e : settled_by ops e -> settled_by (ops ++ rest) e.
Proof. intros [t Ht]. exists t. by apply settled_with_later. Qed.

Definition well_hashed (e : Execution) : Prop := hash_pattern (ex_TransactionHash (e_Expected e)) = true.

Definition exec_ok (ops : list rop) (id : string) (e : Execution) : Prop :=
  ex_ExecutionID (e_Expected e) = id /\ well_hashed e /\
  (forall r, e_TransactionRecovery e = Some r -> recovery_validate (e_Expected e) r = Ok tt) /\
  (e_State e = ExecutionSettled -> e_ResolvedTransactionHash e <> "" /\ settled_by ops e).

Definition IS_settled (ops : list rop) (s : RState) : Prop := forall id e, rs_executions s !! id = Some e -> exec_ok ops id e.
Definition IE_settled (ops : list rop) (ev : revent) : Prop :=
  match rve_Payload ev with
  | PExecution e _ _ => well_hashed e /\ (e_State e = ExecutionSettled -> e_ResolvedTransactionHash e <> "" /\ settled_by ops e)
  | _ => True
  end.

Lemma hash_nonempty x : hash_pattern x = true -> x <> "".
Proof. by intros Hx ->. Qed.

Lemma stored_ok ops s e e' :
  stored s e e' -> well_hashed e -> (e_State e = ExecutionSettled -> e_ResolvedTransactionHash e <> "" /\ settled_by ops e) ->
  exec_ok ops (ex_ExecutionID (e_Expected e')) e'.
Proof.
  unfold stored, preserveBroadcastAttestation. cbv zeta. rewrite try_ok_iff. intros (_ & _ & Hp). rewrite try_ok_iff in Hp.
  destruct Hp as (_ & _ & Hp). rewrite check_ok_iff, try_ok_iff in Hp. destruct Hp as (_ & [] & Hrec & Hp).
  rewrite !check_ok_iff in Hp. destruct Hp as (_ & _ & [= <-]). intros Hh Hs. split_and!; [done|done| |].
  - intros r Hr. match type of Hrec with match ?x with _ => _ end = _ => change (x = Some r) in Hr; rewrite Hr in Hrec end. exact Hrec.
  - intros [Hne Hby]%Hs. assert (inherit_text (e_ResolvedTransactionHash e) (default ""
      (e_ResolvedTransactionHash <$> rs_executions s !! ex_ExecutionID (e_Expected e))) = e_ResolvedTransactionHash e) as Hi.
    { unfold inherit_text. by rewrite bool_decide_false. }
    split; [cbn; by rewrite Hi|]. unfold settled_by, settled_with. cbn [set_proofs e_ResolvedTransactionHash decode_execution set_outcome
      e_Expected e_BlockNumber e_BlockHash e_LedgerTransactionID]. rewrite Hi. exact Hby.
Qed.

Lemma settled_replay ops s ev s' :
  IS_settled ops s -> IE_settled ops ev -> replay_event cfg s ev = Ok s' -> IS_settled ops s'.
Proof.
  intros Hs Hev He%replay_effect. unfold IE_settled in Hev. destruct He as [? ? ? _ _ HE|e e' ? ? Hst HE _ _|e e' ? ? Hst HE _ _|? _ HE _|? _ HE _ _].
  - intros id e' (e & Hl & Hp)%HE. apply Hs in Hl. destruct Hp as [->|(E1 & E2 & E3)]; [done|].
    destruct Hl as (K1 & K2 & K3 & _). unfold exec_ok, well_hashed. rewrite E1, E2, E3. done.
  - destruct Hev as [Hw Hset]. intros id e1. rewrite HE, lookup_insert_Some. intros [[<- <-]|[_ Hl]]; [by eapply stored_ok|by apply Hs].
  - destruct Hev as [Hw Hset]. intros id e1. rewrite HE, lookup_insert_Some. intros [[<- <-]|[_ Hl]]; [by eapply stored_ok|by apply Hs].
  - intros id e. rewrite HE. apply Hs.
  - intros id e. rewrite HE. apply Hs.
Qed.

Lemma settlement_bound s id org t :
  settlement_validate s id org t = Ok tt ->
  ledger_validate t = Ok tt /\ lt_Kind t = LedgerSettlement /\ lt_ReferenceID t = id /\ lt_OrganizationID t = org.
Proof. unfold settlement_validate. intros Hv. ok_prop. tauto. Qed.

Lemma with_hash_same x : with_hash x (ex_TransactionHash x) = x.
Proof. by destruct x. Qed.

Lemma reconciled_settled s now id e canonical settlement resolved ledger :
  reconciled s now id e canonical settlement = Ok (resolved, ledger) ->
  e_Expected resolved = e_Expected e /\
  (e_State resolved = ExecutionSettled ->
     exists t, settlement = Some t /\ ledger = Some t /\ rv_Success canonical = true /\
       settlement_validate s id (ex_OrganizationID (e_Expected e)) t = Ok tt /\ e_LedgerTransactionID resolved = lt_TransactionID t /\
       e_ResolvedTransactionHash resolved = ex_TransactionHash (e_Expected e) /\
       e_BlockNumber resolved = rv_BlockNumber canonical /\ e_BlockHash resolved = rv_BlockHash canonical).
Proof.
  unfold reconciled. cbv zeta. destruct (rv_Success canonical), settlement as [t|]; [|done|done|].
  - rewrite try_ok_iff. intros ([] & Hv & [= <- <-]). split; [done|]. intros _. by exists t.
  - intros [= <- <-]. by split.
Qed.

Lemma replacement_hash x r :
  recovery_validate x r = Ok tt -> tr_Outcome r = RecoveryExpectedReplacement -> tr_ReplacementTransaction r <> "".
Proof.
  unfold recovery_validate. cbv zeta. intros Hv Ho. rewrite Ho in Hv. ok_prop.
  destruct Hv as (_ & _ & Hv). rewrite (bool_decide_false (_ = RecoveryOriginalPending)), (bool_decide_false (_ = RecoveryDropped)),
    bool_decide_true in Hv by done. ok_prop. apply hash_nonempty. tauto.
Qed.

(** The settlement an operation hands over is the one it settles with. *)
Lemma settlement_emitted ops op g ev e ledger c :
  recon_run cfg ops = Up g -> IS_settled ops (re_state g) -> emits cfg (re_state g) op ev ->
  rve_Payload ev = PExecution e ledger c -> e_State e = ExecutionSettled ->
  (exists t, ledger = Some t /\ rve_Kind ev = eventExecutionResolved /\ settled_with (ops ++ [op]) e t) \/
  (ledger = None /\ exists id e0 at_ head, rs_executions (re_state g) !! id = Some e0 /\ e = set_finality at_ head e0).
Proof.
  intros Hr Hs He Hp Hset. destruct He as [| | | |op now x state at_ b c0 Hst Hh|op now kind key e0 e' Hl Hx Hst|op now key e0 at_ head Hl
    |env id evidence settlement e0 canonical resolved ledger0 Hl Hf N1 N2 Hq Hrec|op now key e0 e' ledger0 c0 Hl Hx Hst _ _ _|
    |env org id operator evidence t e0 r canonical e' Hl Hrec Ho Hu Hq Hsucc Hv Horg Hx Hn Hh Hrh Hli]; cbn [status_event rve_Payload] in Hp; try discriminate Hp;
    injection Hp as <- <- <-; try done.
  - exfalso. cbn in Hset. by destruct Hst as [->| ->].
  - right. split; [done|]. by exists key, e0, at_, head.
  - left. destruct (Hs _ _ Hl) as (Hid & _). apply reconciled_settled in Hrec as [Hx Hx2].
    destruct (Hx2 Hset) as (t & -> & -> & Hsucc & Hv & Hli & Hrh & Hn & Hh). exists t. split; [done|]. split; [done|].
    apply settlement_bound in Hv as (V1 & V2 & V3 & V4).
    exists ops, (RReconcile env id evidence (Some t)), [], g, (rn_now env), evidence.
    rewrite Hx, Hrh, with_hash_same, Hn, Hh, Hid, Hli. split_and!; try done; [constructor|by apply quorum_proves].
  - left. exists t. split; [done|]. split; [done|]. destruct (Hs _ _ Hl) as (Hid & _). apply settlement_bound in Hv as (V1 & V2 & V3 & V4).
    unfold chainUsable in Hu. to_prop. destruct Hu as [Hhealthy Hf].
    exists ops, (RReplace env org id operator evidence t), [], g, (rn_now env), evidence.
    rewrite Hx, Hrh, Hn, Hh, Hid, Hli, Hhealthy. split_and!; try done; [constructor|by apply quorum_proves|congruence].
Qed.

Lemma settled_emitted ops op g ev :
  recon_run cfg ops = Up g -> IS_settled ops (re_state g) -> emits cfg (re_state g) op ev -> IE_settled (ops ++ [op]) ev.
Proof.
  intros Hr Hs He. unfold IE_settled. destruct (rve_Payload ev) as [|e ledger c| |] eqn:Ep; try done. split.
  - destruct He; cbn [status_event rve_Payload] in Ep; try discriminate Ep; injection Ep as <- <- <-; [done|..];
      match goal with Hl : rs_executions _ !! _ = Some _ |- _ => destruct (Hs _ _ Hl) as (_ & Hw & _) end; try exact Hw; unfold well_hashed.
    all: try (match goal with Hx : e_Expected _ = e_Expected _ |- _ => by rewrite Hx end).
    match goal with Hrec : reconciled _ _ _ _ _ _ = _ |- _ => apply reconciled_settled in Hrec as [-> _] end. exact Hw.
  - intros Hset. destruct (settlement_emitted _ _ _ _ _ _ _ Hr Hs He Ep Hset) as [(t & Hled & _ & Ht)|(Hled & id & e0 & at_ & head & Hl & ->)].
    + split; [|by exists t]. destruct He; cbn [status_event rve_Payload] in Ep; try discriminate Ep; injection Ep as <- <- <-; try done.
      * match goal with Hl : rs_executions _ !! _ = Some _ |- _ => destruct (Hs _ _ Hl) as (_ & Hw & _) end.
        match goal with Hrec : reconciled _ _ _ _ _ _ = _ |- _ => apply reconciled_settled in Hrec as [_ Hrec]; apply Hrec in Hset as (?&?&?&?&?&?&Hx&_) end; rewrite Hx.
        by apply hash_nonempty.
      * match goal with Hl : rs_executions _ !! _ = Some _ |- _ => destruct (Hs _ _ Hl) as (_ & _ & Hval & _) end.
        match goal with Hrh : e_ResolvedTransactionHash _ = _ |- _ => rewrite Hrh end. by eapply replacement_hash; [apply Hval|].
    + destruct (Hs _ _ Hl) as (_ & _ & _ & Hold). destruct (Hold Hset) as [Hne Hby]. split; [done|]. by apply settled_later.
Qed.

Lemma run_settled ops g : recon_run cfg ops = Up g -> IS_settled ops (re_state g).
Proof.
  intros Hr. assert (holds IS_settled IE_settled ops (recon_run cfg ops)) as [_ Hb]; [|by rewrite Hr in Hb].
  apply run_holds; eauto using settled_replay, settled_emitted.
  - intros o op s Hs id e (K1 & K2 & K3 & K4)%Hs. split_and!; try done. intros [Hne Hby]%K4. split; [done|]. by apply settled_later.
  - intros o op ev. unfold IE_settled. destruct (rve_Payload ev); try done. intros [Hw Hset]. split; [done|].
    intros [Hne Hby]%Hset. split; [done|]. by apply settled_later.
  - intros o now id e Hl. cbn in Hl. by rewrite lookup_empty in Hl.
  - by intros.
  - intros o ev He. unfold escrow_emitted in He. unfold IE_settled. by destruct (rve_Payload ev).
Qed.

End Settlement.

(** ** A life of the engine *)

Section Demo.
#[local] Existing Instance ToyCrypto.

Definition demo_raw : ReconConfig := mkReconConfig 8453 "" "" 0 0 0 0 0 0 0 0 0 0.
Definition demo_recon : ReconConfig := match config_defaults demo_raw with Ok c => c | Err _ => demo_raw end.
Definition demo_renv : renv := mkrenv demo_now demo_now demo_now demo_now RWritten.
Definition demo_torn : renv := mkrenv demo_now demo_now demo_now demo_now (RFails "sync failed" true).

Definition demo_expected : ExpectedExecution := {|
  ex_ExecutionID := "exec_1"; ex_OrganizationID := "org_1"; ex_AgentID := "agent_1"; ex_TaskID := "task_1";
  ex_IntentDigest := demo_hash "1"; ex_TransactionHash := demo_hash "2"; ex_ChainID := 8453;
  ex_Sender := demo_provider; ex_Asset := demo_asset; ex_Recipient := demo_provider; ex_AmountAtomic := "2500" |}.

Definition demo_receipt_evidence (provider : string) : ReceiptEvidence := {|
  rv_Provider := provider; rv_ChainID := 8453; rv_TransactionHash := demo_hash "2"; rv_BlockNumber := 80;
  rv_BlockHash := demo_hash "3"; rv_ConfirmedHead := 95; rv_Success := true; rv_Sender := demo_provider;
  rv_Asset := demo_asset; rv_Recipient := demo_provider; rv_AmountAtomic := "2500" |}.

Definition demo_settlement : LedgerTransaction := {|
  lt_TransactionID := "ledger_1"; lt_OrganizationID := "org_1"; lt_Kind := LedgerSettlement; lt_ReferenceID := "exec_1";
  lt_ReversesTransactionID := ""; lt_Postings := [mkPosting "spend" "2500"; mkPosting "treasury" "-2500"]; lt_RecordedAt := demo_now |}.
Definition demo_correction : LedgerTransaction := {|
  lt_TransactionID := "ledger_2"; lt_OrganizationID := "org_1"; lt_Kind := LedgerCorrection; lt_ReferenceID := "exec_1";
  lt_ReversesTransactionID := "ledger_1"; lt_Postings := [mkPosting "spend" "-2500"; mkPosting "treasury" "2500"]; lt_RecordedAt := demo_now |}.

Definition demo_observe : rop := RObserve demo_renv [demo_observation "beta" 101; demo_observation "alpha" 100].

(** A first process that loses its journal at an unlucky moment, and a second one
    that recovers, is released, and settles a payment. *)
Definition demo_before : list rop :=
  [ROpen demo_renv; demo_observe; RObserve demo_torn [demo_observation "beta" 101; demo_observation "alpha" 100];
   ROpen demo_renv; demo_observe; demo_observe; demo_observe; RResume demo_renv "operator_1"].
Definition demo_ops : list rop :=
  demo_before ++ [RRegister demo_renv demo_expected; demo_observe;
    RReconcile demo_renv "exec_1" [demo_receipt_evidence "alpha"; demo_receipt_evidence "beta"] (Some demo_settlement)].

Definition demo_life : REngine :=
  match recon_run demo_recon demo_ops with Up g => g | Down stream => mkREngine (initial_state demo_recon 0) stream None end.
Lemma demo_runs : recon_run demo_recon demo_ops = Up demo_life.
Proof. vm_compute. reflexivity. Qed.

Lemma manual_release_only_witness :
  Engine_CheckChain demo_recon (re_state demo_life) demo_now 8453 = Ok tt /\
  exists before env operator after, demo_ops = before ++ RResume env operator :: after /\
    cf_RecoveryObservations demo_recon <= stability demo_recon before.
Proof.
  assert (Hc : Engine_CheckChain demo_recon (re_state demo_life) demo_now 8453 = Ok tt) by (vm_compute; reflexivity).
  split; [exact Hc|].
  destruct (manual_release_only demo_recon demo_ops demo_life demo_now 8453 demo_runs Hc)
    as (_ & _ & before & env & operator & after & g0 & Heq & _ & _ & _ & _ & _ & Hst & _).
  exists before, env, operator, after. split; [exact Heq|exact Hst].
Defined.

Lemma ledger_conserves_witness :
  validateCorrection (rs_ledger (re_state demo_life)) demo_correction = Ok tt /\
  balance_of (rs_balances (re_state demo_life)) "org_1" "spend" = 2500 /\
  balance_of (apply_postings (apply_postings ∅ demo_settlement) demo_correction) "org_1" "spend" = balance_of ∅ "org_1" "spend".
Proof.
  assert (Hv : validateCorrection (rs_ledger (re_state demo_life)) demo_correction = Ok tt) by (vm_compute; reflexivity).
  split; [exact Hv|]. split; [vm_compute; reflexivity|].
  apply (proj2 (ledger_conserves demo_recon demo_ops demo_life demo_runs) demo_settlement demo_correction ∅ "org_1" "spend" Hv).
  vm_compute. reflexivity.
Defined.
End Demo.
