(* ===== verification/ReconRestart.v ===== *)
(** * Restarting the reconciliation engine

    What a restart reads from the journal is what the process held in memory, up
    to the counters that are refreshed without an event, or nothing: a stream that
    replay refuses. Two escrow operations can leave such a stream. *)
From stdpp Require Import base gmap strings list fin_maps sorting.
From Stdlib Require Import ZArith Lia Ascii.
From S2P Require Import Prelude GoText GoJSON Crypto Amounts Envelope Receipt SignerVerifier AttemptJournal.
From S2P Require Import Recon ReconEscrow ReconEngine ReconEscrowOps ReconTheorems.

Open Scope Z_scope.

(** ** States that differ in refreshed counters only *)

(** The number of affected executions, the readiness flag and when the state began
    are not part of what replay restores exactly. *)
Definition settle_status (c : ChainStatus) : ChainStatus :=
  set_counts 0 false (set_state (cs_State c) (cs_Reason c) 0 (cs_ConsecutiveUnhealthy c) (cs_ConsecutiveRecovery c) c).

Definition agree (s s' : RState) : Prop :=
  with_status s (settle_status (rs_status s)) = with_status s' (settle_status (rs_status s')).

#[export] Instance agree_equivalence : Equivalence agree.
Proof. split; unfold agree; [by intros ?|by intros ? ? ->|by intros ? ? ? -> ->]. Qed.

Definition agree_res (r r' : res RState) : Prop :=
  match r, r' with Ok s, Ok s' => agree s s' | Err _, Err _ => True | _, _ => False end.

(** Two agreeing states differ in their statuses. *)
Lemma agree_split s s' : agree s s' -> s' = with_status s (rs_status s') /\ settle_status (rs_status s) = settle_status (rs_status s').
Proof.
  intros E. split; [|exact (f_equal rs_status E)]. destruct s, s'. unfold agree, with_status in E. cbn in E.
  unfold with_status. cbn. congruence.
Qed.

Lemma agree_status s c : settle_status (rs_status s) = settle_status c -> agree s (with_status s c).
Proof. unfold agree. cbn. by intros ->. Qed.

Lemma settle_trusted c c' : settle_status c = settle_status c' -> cs_LastTrusted c = cs_LastTrusted c'.
Proof. by intros [=]. Qed.
Lemma settle_chain c c' : settle_status c = settle_status c' -> cs_ChainID c = cs_ChainID c'.
Proof. by intros [=]. Qed.

Section Restart.
Context `{Crypto}.
Variable cfg : ReconConfig.

Lemma refresh_agree now s : agree s (refreshAffected cfg now s).
Proof. by apply agree_status. Qed.

(** *** Evidence is judged against the trusted checkpoint alone *)

Lemma under_checkpoint_trusted c c' n h : cs_LastTrusted c = cs_LastTrusted c' -> under_checkpoint c n h = under_checkpoint c' n h.
Proof. unfold under_checkpoint. by intros ->. Qed.
Lemma settled_below_trusted c c' n : cs_LastTrusted c = cs_LastTrusted c' -> settled_below cfg c n = settled_below cfg c' n.
Proof. unfold settled_below. by intros ->. Qed.

Lemma receipt_quorum_trusted c c' x evidence : cs_LastTrusted c = cs_LastTrusted c' ->
  validateEscrowReceiptQuorum cfg c x evidence = validateEscrowReceiptQuorum cfg c' x evidence.
Proof.
  intros E. unfold validateEscrowReceiptQuorum. destruct evidence as [|e l]; [done|]. by rewrite (under_checkpoint_trusted c c' _ _ E).
Qed.

Lemma block_quorum_trusted c c' t evidence b : cs_LastTrusted c = cs_LastTrusted c' ->
  validateEscrowCanonicalQuorum cfg c t evidence b = validateEscrowCanonicalQuorum cfg c' t evidence b.
Proof.
  intros E. unfold validateEscrowCanonicalQuorum, validateCanonicalBlockQuorum. destruct evidence as [|e l]; [done|].
  by rewrite (settled_below_trusted c c' _ E).
Qed.

Lemma evolve_finality_trusted c c' at_ reorg current : cs_LastTrusted c = cs_LastTrusted c' ->
  forall next changed, evolve_finality cfg c at_ reorg changed current next = evolve_finality cfg c' at_ reorg changed current next.
Proof.
  intros E. induction current as [|x current IH]; intros [|y next] changed; try done. cbn [evolve_finality].
  by rewrite !IH, (block_quorum_trusted c c' _ _ _ E).
Qed.

Lemma evolution_trusted c c' kind at_ current p : cs_LastTrusted c = cs_LastTrusted c' ->
  validateEscrowEventEvolution cfg c kind at_ current p = validateEscrowEventEvolution cfg c' kind at_ current p.
Proof.
  intros E. unfold validateEscrowEventEvolution, evolve_resolved.
  destruct (bool_decide (kind = eventEscrowIntent)); [done|]. destruct (bool_decide (kind = eventEscrowPending)); [done|].
  destruct (bool_decide (kind = eventEscrowResolved)).
  - destruct current as [current|]; [|done]. destruct (ec_Pending current) as [q|].
    + destruct (last _); [|done]. by rewrite (receipt_quorum_trusted c c' _ _ E).
    + by rewrite (evolve_finality_trusted c c' _ _ _ E).
  - destruct (bool_decide (kind = eventEscrowReorged)); [|done]. destruct current, (ep_Status p); try done.
    destruct (evolve_reorg _ _ _) as [[f|]|]; try done. by rewrite (block_quorum_trusted c c' _ _ _ E).
Qed.

(** *** Events do the same to agreeing states *)

(** The result is the same, or the same but for a status no event touched. *)
Definition restated (s : RState) (c : ChainStatus) (r r' : res RState) : Prop :=
  r' = r \/ match r, r' with
            | Ok t, Ok t' => t' = with_status t c /\ rs_status t = rs_status s
            | Err _, Err _ => True
            | _, _ => False
            end.

Lemma broadcast_restated s c kind key e : restated s c (apply_broadcast s kind key e) (apply_broadcast (with_status s c) kind key e).
Proof.
  right. unfold apply_broadcast. cbn [with_status rs_executions rs_escrowByHash rs_executionByHash].
  destruct (preserveBroadcastAttestation _ _) as [x|]; [|done]. cbv zeta.
  do 5 (match goal with |- context [if ?b then _ else Err ?m] => destruct b; [|done] end). done.
Qed.

Lemma resolved_restated s c e ledger status :
  restated s c (apply_resolved cfg s e ledger status) (apply_resolved cfg (with_status s c) e ledger status).
Proof.
  unfold apply_resolved. cbn [with_status rs_executions rs_executionByHash].
  destruct (preserveBroadcastAttestation _ _) as [x|]; [|right; done]. cbv zeta. destruct status; [left|right]; by destruct ledger.
Qed.

Lemma ledgers_with_status l c : forall s, fold_left applyLedger l (with_status s c) = with_status (fold_left applyLedger l s) c.
Proof. induction l as [|t l IH]; intros s; [done|]. apply (IH (applyLedger s t)). Qed.
Lemma ledgers_status l : forall s, rs_status (fold_left applyLedger l s) = rs_status s.
Proof. induction l as [|t l IH]; intros s; [done|]. cbn [fold_left]. by rewrite IH. Qed.

Lemma escrow_restated s c kind key at_ p : cs_LastTrusted (rs_status s) = cs_LastTrusted c ->
  restated s c (apply_escrow cfg s kind key at_ p) (apply_escrow cfg (with_status s c) kind key at_ p).
Proof.
  intros E. unfold apply_escrow. cbv zeta. cbn [with_status rs_escrowCalls rs_escrowByAuth rs_escrowByHash rs_ledger rs_status].
  change (hash_free (with_status s c)) with (hash_free s).
  rewrite <-(evolution_trusted _ _ kind at_ (rs_escrowCalls s !! ei_CallID (ec_Intent (ep_Call p))) p E).
  do 2 (match goal with |- context [if ?b then _ else Err ?m] => destruct b; [|right; done] end).
  destruct (escrow_identity _ _ _ _); [|right; done].
  do 2 (match goal with |- context [if ?b then _ else Err ?m] => destruct b; [|right; done] end).
  destruct (validateSnapshot _ _); [|right; done]. destruct (validateEscrowEventEvolution _ _ _ _ _ _); [|right; done].
  destruct (validateEscrowLedgerBindings _ _ _ _); [|right; done].
  set (m := <[_ := ep_Call p]> _). set (ba := <[ei_AuthorizationID _ := _]> _). set (bh := fold_left _ (call_hashes _) _).
  change (with_escrow (with_status s c) m ba bh) with (with_status (with_escrow s m ba bh) c). rewrite ledgers_with_status.
  destruct (ep_Status p); [left; done|right]. split; [done|]. by rewrite ledgers_status.
Qed.

Lemma check_chain_agree s c r r' :
  restated s c r r' -> settle_status (rs_status s) = settle_status c ->
  agree_res (try t := r in check_chain cfg t) (try t := r' in check_chain cfg t).
Proof.
  intros [->|Hr] Hs.
  { destruct r as [t|]; [|done]. destruct (check_chain cfg t); cbn; [|done]. reflexivity. }
  destruct r as [t|], r' as [t'|]; try done. destruct Hr as [-> Ht]. rewrite <-Ht in Hs.
  unfold check_chain. cbn [with_status rs_status]. rewrite <-(settle_chain _ _ Hs). destruct (_ =? 0).
  - apply (f_equal (set_chain (cf_ChainID cfg))) in Hs. apply (f_equal (with_status t)) in Hs. exact Hs.
  - destruct (_ =? _); [|done]. by apply agree_status.
Qed.

Lemma replay_event_agree s s' ev : agree s s' -> agree_res (replay_event cfg s ev) (replay_event cfg s' ev).
Proof.
  intros [-> Hs]%agree_split. set (c := rs_status s') in *. clearbody c. clear s'.
  unfold replay_event, apply. cbn [rve_Payload rve_Kind rve_Key rve_At]. apply (check_chain_agree s c); [|exact Hs].
  destruct (decode_payload _) as [status operator mark|e ledger status|t|p].
  - destruct (bool_decide _); [left; done|right; done].
  - destruct (_ || _); [apply broadcast_restated|]. destruct (_ || _); [apply resolved_restated|right; done].
  - destruct (bool_decide _); [right|right]; done.
  - destruct (bool_decide _); [|right; done]. apply escrow_restated, settle_trusted, Hs.
Qed.

Definition replay (now : time) (stream : list revent) : res RState := fold_res (replay_event cfg) (initial_state cfg now) stream.

Lemma replay_snoc now stream ev : replay now (stream ++ [ev]) = try s := replay now stream in replay_event cfg s ev.
Proof. apply fold_res_snoc. Qed.

Lemma replay_now now now' stream : agree_res (replay now stream) (replay now' stream).
Proof.
  induction stream as [|ev l IH] using rev_ind; [reflexivity|]. rewrite !replay_snoc.
  destruct (replay now l), (replay now' l); try done. by apply replay_event_agree.
Qed.

(** *** Memory and journal *)

(** Replay gives back [s], or refuses. *)
Definition restores (stream : list revent) (s : RState) : Prop :=
  forall now, match replay now stream with Ok s' => agree s' s | Err _ => True end.

(** An event that some operation offers in the state [s]. *)
Definition offered (s : RState) (ev : revent) : Prop := (exists op, emits cfg s op ev) \/ escrow_emitted ev.

Section History.
Variable history : list rop.

(** What becomes of an execution was decided by an operation of the history. *)
Definition recorded (ev : revent) : Prop :=
  match rve_Payload ev with
  | PExecution _ _ _ => exists before op after g, history = before ++ op :: after /\ recon_run cfg before = Up g /\ emits cfg (re_state g) op ev
  | _ => True
  end.

(** The states the engine can be in: every event was offered where it is applied. *)
Inductive reach : RState -> Prop :=
| reach_initial now : reach (initial_state cfg now)
| reach_agree s s' : reach s -> agree s s' -> reach s'
| reach_event s ev s' : reach s -> recorded ev -> offered s ev -> replay_event cfg s ev = Ok s' -> reach s'.

(** [ev] was offered in a state that agrees with [s]. *)
Definition once_offered (s : RState) (ev : revent) : Prop := exists s0, reach s0 /\ agree s0 s /\ recorded ev /\ offered s0 ev.

(** At most the last event of the stream is not in memory, and only after the
    journal failed. *)
Definition recoverable (g : REngine) : Prop :=
  reach (re_state g) /\
  exists pre, restores pre (re_state g) /\
    match re_fault g with
    | None => re_stream g = pre
    | Some _ => re_stream g = pre \/ exists ev, once_offered (re_state g) ev /\ re_stream g = pre ++ [ev]
    end.

Lemma restores_snoc stream s ev s' : restores stream s -> replay_event cfg s ev = Ok s' -> restores (stream ++ [ev]) s'.
Proof.
  intros Hr He now. rewrite replay_snoc. specialize (Hr now). destruct (replay now stream) as [t|]; [|done].
  apply (replay_event_agree _ _ ev) in Hr. rewrite He in Hr. by destruct (replay_event cfg t ev).
Qed.

Lemma restores_refused stream s ev m : restores stream s -> replay_event cfg s ev = Err m ->
  forall now, is_ok (replay now (stream ++ [ev])) = false.
Proof.
  intros Hr He now. rewrite replay_snoc. specialize (Hr now). destruct (replay now stream) as [t|]; [|done].
  apply (replay_event_agree _ _ ev) in Hr. rewrite He in Hr. by destruct (replay_event cfg t ev).
Qed.

Lemma refused_restores stream s : (forall now, is_ok (replay now stream) = false) -> restores stream s.
Proof. intros Hr now. specialize (Hr now). by destruct (replay now stream). Qed.

Lemma commit_recoverable g io ev g' r :
  recoverable g -> recorded ev -> offered (re_state g) ev -> commit cfg g io ev = (g', r) -> recoverable g'.
Proof.
  intros (Hre & pre & Hr & Hst) Hrec Hev. unfold commit. destruct (re_fault g) as [m|] eqn:Ef.
  { intros [= <- <-]. split; [done|]. exists pre. by rewrite Ef. }
  destruct io as [m|m written|].
  - intros [= <- <-]. split; [done|]. exists pre. by rewrite Ef.
  - intros [= <- <-]. split; [done|]. exists pre. split; [done|]. cbn. rewrite Hst. destruct written; [right|by left].
    exists ev. split; [|done]. by exists (re_state g).
  - fold (replay_event cfg (re_state g) ev). destruct (replay_event cfg (re_state g) ev) as [s|m] eqn:Ea; intros [= <- <-];
      (split; [|exists (re_stream g ++ [ev]); (split; [|done]); rewrite Hst; cbn]).
    + by eapply reach_event.
    + by eapply restores_snoc.
    + done.
    + apply refused_restores. by eapply restores_refused.
Qed.

Lemma refresh_recoverable now g : recoverable g -> recoverable (refresh cfg now g).
Proof.
  intros (Hre & pre & Hr & Hst). split; [eapply reach_agree; [exact Hre|apply refresh_agree]|]. exists pre. split.
  - intros now'. specialize (Hr now'). destruct (replay now' pre); [|done]. cbn. etransitivity; [exact Hr|]. apply refresh_agree.
  - cbn. destruct (re_fault g); [|done]. destruct Hst as [->|(ev & (s0 & H0 & Ha & Hrec & Ho) & ->)]; [by left|]. right. exists ev.
    split; [|done]. exists s0. split_and!; [done| |done|done]. etransitivity; [exact Ha|apply refresh_agree].
Qed.

Lemma performs_recoverable g op g' : (forall ev, emits cfg (re_state g) op ev -> recorded ev) ->
  recoverable g -> performs cfg g op g' -> recoverable g'.
Proof.
  intros Hop Hg Hp. destruct Hp as [|io ev g' r He Hc|io ev g' r now He Hc|g' Hes]; [done| | |].
  - eapply commit_recoverable; [exact Hg|by apply Hop| |exact Hc]. left. eauto.
  - apply refresh_recoverable. eapply commit_recoverable; [exact Hg|by apply Hop| |exact Hc]. left. eauto.
  - clear Hop. induction Hes as [g|g io ev g1 r g2 He Hc _ IH|g now g2 _ IH]; [done| |].
    + apply IH. eapply commit_recoverable; [exact Hg| |by right|exact Hc]. unfold recorded. unfold escrow_emitted in He. by destruct (rve_Payload ev).
    + apply IH. by apply refresh_recoverable.
Qed.

(** What a restart finds: the state, or the state after the event memory missed. *)
Lemma recoverable_replay g now s : recoverable g -> replay now (re_stream g) = Ok s -> reach s.
Proof.
  intros (Hre & pre & Hr & Hst) Hs. specialize (Hr now).
  assert (Hpre : forall s0, replay now pre = Ok s0 -> reach s0).
  { intros s0 E. rewrite E in Hr. eapply reach_agree; [exact Hre|by symmetry]. }
  assert (Hcase : re_stream g = pre \/ exists ev, once_offered (re_state g) ev /\ re_stream g = pre ++ [ev])
    by (destruct (re_fault g); tauto).
  destruct Hcase as [E|(ev & (s0 & H0 & Ha & Hrec & Ho) & E)]; rewrite E in Hs; [by apply Hpre|].
  rewrite replay_snoc, try_ok_iff in Hs. destruct Hs as (s1 & H1 & H2). rewrite H1 in Hr.
  pose proof (replay_event_agree s0 s1 ev ltac:(etransitivity; [exact Ha|by symmetry])) as Hag. rewrite H2 in Hag.
  destruct (replay_event cfg s0 ev) as [s2|] eqn:E2; [|done]. eapply reach_agree; [by eapply reach_event|exact Hag].
Qed.

(** Whatever is on disk replays to a reachable state. *)
Definition sound (y : rsys) : Prop :=
  match y with Up g => recoverable g | Down stream => forall now s, replay now stream = Ok s -> reach s end.

Lemma sound_durable y : sound y -> forall now s, replay now (durable y) = Ok s -> reach s.
Proof. destruct y; [|done]. intros Hg now s. by apply recoverable_replay. Qed.

Lemma open_sound env stream stream' r :
  (forall now s, replay now stream = Ok s -> reach s) -> Engine_Open cfg env stream = (stream', r) ->
  sound (match r with Ok g => Up g | Err _ => Down stream' end).
Proof.
  intros Hd. unfold Engine_Open. fold (replay (rn_now env) stream). destruct (replay (rn_now env) stream) as [s|] eqn:Er; [|by intros [= <- <-]].
  cbv zeta. assert (recoverable (mkREngine s stream None)) as H0.
  { split; [by eapply Hd|]. exists stream. split; [|done]. intros now. pose proof (replay_now now (rn_now env) stream) as Ha. rewrite Er in Ha.
    by destruct (replay now stream). }
  destruct (_ || _); [|intros [= _ <-]; by apply refresh_recoverable].
  destruct (commit _ _ _ _) as [g' p] eqn:Ec. eapply commit_recoverable in Ec; [|exact H0|done|left; exists (ROpen env); apply em_restart].
  destruct p; intros [= <- <-]; [by apply refresh_recoverable|exact (sound_durable (Up g') Ec)].
Qed.

Lemma run_sound ops : forall rest, history = ops ++ rest -> sound (recon_run cfg ops).
Proof.
  induction ops as [|op ops IH] using rev_ind; intros rest Hh.
  { intros now s [= <-]. apply reach_initial. }
  rewrite <- app_assoc in Hh. specialize (IH _ Hh). rewrite recon_run_snoc. pose proof (sound_durable _ IH) as Hd.
  assert (Hrec : forall g ev, recon_run cfg ops = Up g -> emits cfg (re_state g) op ev -> recorded ev).
  { intros g ev Hg He. unfold recorded. destruct (rve_Payload ev); try done. by exists ops, op, rest, g. }
  destruct op; cbn [recon_step];
    try (destruct (recon_run cfg ops) as [g|]; [eapply performs_recoverable; [intros ev; by apply Hrec|exact IH|by apply operate_performs]|exact IH]).
  destruct (Engine_Open _ _ _) as [stream' r] eqn:Eo. apply open_sound in Eo; [|exact Hd]. by destruct r.
Qed.

End History.

Lemma run_recoverable ops g : recon_run cfg ops = Up g -> recoverable ops g.
Proof. intros Hr. pose proof (run_sound ops ops [] (eq_sym (app_nil_r ops))) as Hs. by rewrite Hr in Hs. Qed.

(** Every state of every process is reached by events offered where they apply. *)
Lemma run_reach ops g : recon_run cfg ops = Up g -> reach ops (re_state g).
Proof. intros Hr. by destruct (run_recoverable _ _ Hr). Qed.

(** Everything but the status and who released it. *)
Definition core (s : RState) :=
  (rs_executions s, rs_executionByHash s, (rs_escrowCalls s, rs_escrowByAuth s, rs_escrowByHash s), (rs_ledger s, rs_balances s)).

Lemma core_track operator s : core (trackManualRelease cfg operator s) = core s.
Proof. unfold trackManualRelease. cbv zeta. destruct (negb _); [done|]. by destruct (negb _). Qed.
Lemma core_check s s' : check_chain cfg s = Ok s' -> core s' = core s.
Proof. unfold check_chain. destruct (_ =? 0); [by intros [= <-]|]. rewrite check_ok_iff. by intros [_ [= <-]]. Qed.
Lemma core_mark s s' : core s = core s' -> core (markBroadcastsPending s) = core (markBroadcastsPending s').
Proof. intros [= H1 H2 H3 H4 H5 H6 H7]. unfold core, markBroadcastsPending. cbn. by rewrite H1, H2, H3, H4, H5, H6, H7. Qed.

Lemma core_restart s now key c operator s' :
  replay_event cfg s (status_event now key c operator true) = Ok s' -> core s' = core (markBroadcastsPending s).
Proof.
  unfold replay_event, apply, status_event. rewrite try_ok_iff. intros (s1 & H1 & ->%core_check).
  cbn [rve_Payload rve_Kind decode_payload] in H1. rewrite check_ok_iff, orb_true_r in H1. destruct H1 as [_ [= <-]].
  apply core_mark. by rewrite core_track.
Qed.

(** C9: a restart never diverges. Whatever happened before, when the journal of a
    working process opens again, the ledger, the balances and the hash and
    authorization indexes are those of the process, executions and escrow calls
    are too or are parked for the chain to recover, and the engine is not HEALTHY. *)
Theorem engine_restart_agrees ops g env stream g' :
  recon_run cfg ops = Up g -> re_fault g = None -> Engine_Open cfg env (re_stream g) = (stream, Ok g') ->
  let s := re_state g in let s' := re_state g' in
  rs_ledger s' = rs_ledger s /\ rs_balances s' = rs_balances s /\ rs_executionByHash s' = rs_executionByHash s /\
  rs_escrowByAuth s' = rs_escrowByAuth s /\ rs_escrowByHash s' = rs_escrowByHash s /\
  (rs_executions s' = rs_executions s /\ rs_escrowCalls s' = rs_escrowCalls s \/
   rs_executions s' = rs_executions (markBroadcastsPending s) /\ rs_escrowCalls s' = rs_escrowCalls (markBroadcastsPending s)) /\
  cs_State (rs_status s') <> StateHealthy.
Proof.
  intros Hr Hf Ho. destruct (open_phase _ _ _ _ _ Ho) as [Hn _]. apply run_recoverable in Hr as (_ & pre & Hpre & Hst).
  rewrite Hf in Hst. subst pre. unfold Engine_Open in Ho. fold (replay (rn_now env) (re_stream g)) in Ho.
  specialize (Hpre (rn_now env)). destruct (replay (rn_now env) (re_stream g)) as [s|]; [|done].
  apply agree_split in Hpre as [Hs _]. rewrite Hs. cbv zeta in *. destruct (_ || _).
  - destruct (commit _ _ _ _) as [g1 r] eqn:Ec. destruct r; [|done]. injection Ho as _ <-.
    apply commit_split in Ec as [_ Ha]. apply core_restart in Ha. cbn [refresh re_state refreshAffected with_status] in *.
    injection Ha as E1 E2 E3 E4 E5 E6 E7. split_and!; [exact E6|exact E7|exact E2|exact E4|exact E5|right; split; [exact E1|exact E3]|exact Hn].
  - injection Ho as _ <-. split_and!; try done. by left.
Qed.

(** ** Two ways to lose the journal *)

Lemma escrow_accepted s now kind id p s' :
  replay_event cfg s (escrow_event now kind id p) = Ok s' ->
  validateSnapshot (decode_call (ep_Call p)) (cf_ChainID cfg) = Ok tt /\
  validateEscrowEventEvolution cfg (rs_status s) kind now (rs_escrowCalls s !! id) (decode_escrow p) = Ok tt.
Proof.
  unfold replay_event, apply, escrow_event. cbn [rve_Payload rve_Kind rve_Key rve_At decode_payload]. rewrite try_ok_iff.
  intros (s1 & H1 & _). rewrite check_ok_iff in H1. destruct H1 as [_ H1]. unfold apply_escrow in H1. cbv zeta in H1.
  rewrite !check_ok_iff in H1. destruct H1 as (Hk & _ & H1). apply bool_decide_eq_true in Hk. rewrite <-Hk in H1.
  rewrite try_ok_iff in H1. destruct H1 as (_ & _ & H1). rewrite !check_ok_iff in H1. destruct H1 as (_ & _ & H1).
  rewrite try_ok_iff in H1. destruct H1 as ([] & Hsnap & H1). rewrite try_ok_iff in H1. destruct H1 as ([] & Hevo & _). done.
Qed.

(** An event that memory refuses once it is written is refused by every restart. *)
Lemma written_refused ops g io ev g' r :
  recon_run cfg ops = Up g -> is_ok (replay_event cfg (re_state g) ev) = false -> commit cfg g io ev = (g', r) -> io = RWritten ->
  re_stream g' <> re_stream g -> is_ok r = false /\ forall env, is_ok (Engine_Open cfg env (re_stream g')).2 = false.
Proof.
  intros Hr Hno Hc -> Hne. apply run_recoverable in Hr as (_ & pre & Hpre & Hst). unfold commit in Hc.
  destruct (re_fault g); [injection Hc as <- <-; done|]. subst pre. fold (replay_event cfg (re_state g) ev) in Hc.
  destruct (replay_event cfg (re_state g) ev) as [|m] eqn:Ea; [done|]. injection Hc as <- <-. split; [done|]. intros env.
  unfold Engine_Open. fold (replay (rn_now env) (re_stream g ++ [ev])). cbn [re_stream].
  pose proof (restores_refused _ _ _ _ Hpre Ea (rn_now env)) as Hx. fold (replay (rn_now env) (re_stream g ++ [ev])).
  by destruct (replay _ _).
Qed.

(** confirming the finality of one escrow transition while the next one is
    pending writes an event that the engine then refuses. The operation fails, and
    from then on the journal never opens again. *)
Theorem finality_with_pending_bricks_journal ops g env callID hash evidence call p :
  recon_run cfg ops = Up g -> rs_escrowCalls (re_state g) !! callID = Some call -> ec_Pending call = Some p ->
  rn_io env = RWritten -> re_stream (ConfirmEscrowFinality cfg g env callID hash evidence).1 <> re_stream g ->
  is_ok (ConfirmEscrowFinality cfg g env callID hash evidence).2 = false /\
  forall env', is_ok (Engine_Open cfg env' (re_stream (ConfirmEscrowFinality cfg g env callID hash evidence).1)).2 = false.
Proof.
  intros Hr Hl Hp Hio. unfold ConfirmEscrowFinality. rewrite Hl. destruct (find_transition _ _ _) as [[[before t] after]|]; [|done].
  destruct (negb _); [done|]. destruct (et_FinalityCheckedAt t); [done|]. destruct (negb _); [done|].
  destruct (validateEscrowCanonicalQuorum _ _ _ _ _) as [head|]; [|done]. cbv zeta.
  set (ev := escrow_event _ _ _ _). destruct (commit _ _ _ _) as [g' r] eqn:Ec. intros Hne.
  assert (is_ok (replay_event cfg (re_state g) ev) = false) as Hno.
  { destruct (replay_event cfg (re_state g) ev) as [s'|] eqn:Ea; [|done]. apply escrow_accepted in Ea as [_ Hev].
    rewrite Hl in Hev. unfold validateEscrowEventEvolution in Hev.
    rewrite (bool_decide_false (_ = eventEscrowIntent)), (bool_decide_false (_ = eventEscrowPending)), bool_decide_true in Hev by done.
    rewrite check_ok_iff, Hp in Hev. destruct Hev as [_ Hev]. unfold evolve_resolved in Hev. cbv zeta in Hev.
    rewrite check_ok_iff in Hev. destruct Hev as [Hev _].
    cbn [decode_escrow ep_Call decode_call set_pending ec_Pending set_history] in Hev. rewrite Hp in Hev. done. }
  destruct r as [[]|m]; cbn [fst snd] in *; eapply written_refused in Ec as [Hb1 Hb2]; eauto.
Qed.

Lemma reopened_state st i hash now t u ledgers : reopen_item st i hash now t = Ok (u, ledgers) ->
  et_State u = EscrowTransitionReorged /\ et_ReorgedFrom u = et_State t.
Proof.
  unfold reopen_item. cbv zeta. destruct (_ && _); [|by intros [= <- <-]]. destruct (_ !! _); [|done].
  rewrite try_ok_iff. intros ([] & _ & Hr). rewrite try_ok_iff in Hr. by destruct Hr as ([] & _ & [= <- <-]).
Qed.

Lemma reopened_member st i hash now ts : forall items ledgers u,
  reopen_items st i hash now ts = Ok (items, ledgers) -> u ∈ ts ->
  exists v, v ∈ items /\ et_State v = EscrowTransitionReorged /\ et_ReorgedFrom v = et_State u.
Proof.
  induction ts as [|t ts IH]; intros items ledgers u Hr Hu; [by apply elem_of_nil in Hu|]. cbn [reopen_items] in Hr.
  rewrite try_ok_iff in Hr. destruct Hr as ([v l] & Hv & Hr). rewrite try_ok_iff in Hr. destruct Hr as ([vs ls] & Hvs & [= <- <-]).
  apply elem_of_cons in Hu as [->|Hu].
  - exists v. split; [apply elem_of_cons; by left|]. by eapply reopened_state.
  - destruct (IH _ _ _ Hvs Hu) as (w & Hw & Hrest). exists w. split; [apply elem_of_cons; by right|done].
Qed.

(** A transition that was taken back twice is in no valid history. *)
Lemma twice_reorged_invalid c t st :
  et_State t = EscrowTransitionReorged -> et_ReorgedFrom t = EscrowTransitionReorged -> is_ok (snapshot_transition c st t) = false.
Proof.
  intros E1 E2. unfold snapshot_transition, history_state. rewrite E1, E2.
  do 4 (match goal with |- context [if ?b then _ else Err ?m] => destruct b; [|done] end). done.
Qed.

(** A reorganization that takes back a confirmed transition after it took back
    a reverted one further on writes an event that the engine then refuses, because
    the later transition has lost what it was before. The operation fails, and from
    then on the journal never opens again. *)
Theorem second_reorg_bricks_journal ops g env callID hash evidence call before t after u :
  recon_run cfg ops = Up g -> rs_escrowCalls (re_state g) !! callID = Some call ->
  find_transition hash [] (ec_Transitions call) = Some (before, t, after) -> et_State t = EscrowTransitionConfirmed ->
  u ∈ after -> et_State u = EscrowTransitionReorged ->
  rn_io env = RWritten -> re_stream (ReopenEscrowReorg cfg g env callID hash evidence).1 <> re_stream g ->
  is_ok (ReopenEscrowReorg cfg g env callID hash evidence).2 = false /\
  forall env', is_ok (Engine_Open cfg env' (re_stream (ReopenEscrowReorg cfg g env callID hash evidence).1)).2 = false.
Proof.
  intros Hr Hl Hfind Ht Hu Hus Hio. unfold ReopenEscrowReorg. rewrite Hl, Hfind, Ht.
  destruct (negb _); [done|]. destruct (negb _); [done|].
  destruct (validateEscrowCanonicalQuorum _ _ _ _ _) as [head|]; [|done]. cbv zeta.
  rewrite (bool_decide_false (EscrowTransitionConfirmed = EscrowTransitionReverted)) by done.
  destruct (reopen_items _ _ _ _ _) as [[items ledgers]|] eqn:Ei; [|done].
  set (ev := escrow_event _ _ _ _). destruct (commit _ _ _ _) as [g' r] eqn:Ec. intros Hne.
  assert (is_ok (replay_event cfg (re_state g) ev) = false) as Hno.
  { destruct (replay_event cfg (re_state g) ev) as [s'|] eqn:Ea; [|done]. apply escrow_accepted in Ea as [Hsnap _].
    destruct (reopened_member _ _ _ _ _ _ _ u Ei) as (v & Hv & V1 & V2); [apply elem_of_cons; by right|].
    unfold validateSnapshot in Hsnap. rewrite !check_ok_iff, try_ok_iff in Hsnap. destruct Hsnap as (_ & _ & st & Hfold & _).
    pose proof (fold_res_rejects (snapshot_transition (decode_call (ep_Call (mkescrowPayload
      (set_call_resolution "canonical reorg requires explicit operator resolution"
        (set_pending None (set_history EscrowPositionQuarantined (before ++ items ++ []) call))) [] evidence ledgers
        (Some (escrow_reorg_status (re_state g) (rn_now env))))))) (decode_transition v)
      (map decode_transition (before ++ items ++ []))) as Hrej.
    specialize (Hrej ltac:(apply list_elem_of_fmap_2; set_solver)).
    specialize (Hrej ltac:(intros st'; apply twice_reorged_invalid; cbn; [exact V1|by rewrite V2, Hus]) empty_history).
    cbn [decode_call ec_Transitions ep_Call set_call_resolution set_pending set_history] in Hfold, Hrej. by rewrite Hfold in Hrej. }
  destruct r as [[]|m]; cbn [fst snd refresh re_stream] in *; eapply written_refused in Ec as [Hb1 Hb2]; eauto.
Qed.
End Restart.

(** ** An escrow call in trouble *)

Section Demo.
#[local] Existing Instance ToyCrypto.

Definition demo_escrow_recon : ReconConfig :=
  let raw := mkReconConfig 8453 demo_contract demo_asset 3600 0 0 0 0 0 0 0 0 0 in
  match config_defaults raw with Ok c => c | Err _ => raw end.

Definition demo_intent : EscrowIntent := {|
  ei_OrganizationID := "org_1"; ei_CustomerID := "cust_1"; ei_AgentID := "agent_1"; ei_TaskID := "task_1";
  ei_AuthorizationID := "auth_1"; ei_IntentDigest := demo_hash "9"; ei_ChainID := 8453; ei_Contract := demo_contract;
  ei_Asset := demo_asset; ei_CallID := t_CallID demo_terms; ei_Buyer := demo_buyer; ei_Provider := demo_provider;
  ei_AmountAtomic := "1000"; ei_TaskDigest := demo_hash "1"; ei_RequestDigest := demo_hash "2";
  ei_AcknowledgeBy := 1700001000; ei_DeliverBy := 1700002000; ei_ReleaseWindow := 3600 |}.

Definition demo_candidate (action hash : string) : EscrowTransitionCandidate := mkEscrowTransitionCandidate action hash "" "" None 0.

Definition demo_escrow_evidence (action hash : string) (block : Z) (success : bool) (provider : string) : EscrowReceiptEvidence := {|
  er_Provider := provider; er_Action := action; er_ChainID := 8453; er_TransactionHash := hash; er_BlockNumber := block;
  er_BlockHash := demo_hash "3"; er_ConfirmedHead := 95; er_Success := success; er_CallID := ei_CallID demo_intent;
  er_DeliveredAt := 0; er_ReleasableAt := 0 |}.

Definition demo_canonical (tx : string) (block : Z) (canonical provider : string) : ReorgEvidence :=
  mkReorgEvidence provider 8453 tx block (demo_hash "3") canonical 95.

Definition demo_both {A} (f : string -> A) : list A := [f "alpha"; f "beta"].

(** The call is funded on chain, and its provider acknowledges it. *)
Definition demo_funded : list rop :=
  [ROpen demo_renv; demo_observe; demo_observe; demo_observe; RResume demo_renv "operator_1"; REscrowIntent demo_renv demo_intent;
   REscrowTransition demo_renv "org_1" (ei_CallID demo_intent) (demo_candidate EscrowFund (demo_hash "4"));
   REscrowReceipt demo_renv (ei_CallID demo_intent) (demo_both (demo_escrow_evidence EscrowFund (demo_hash "4") 60 true));
   REscrowTransition demo_renv "org_1" (ei_CallID demo_intent) (demo_candidate EscrowAcknowledge (demo_hash "5"))].

Definition demo_rewound : list rop := demo_funded ++
  [REscrowReceipt demo_renv (ei_CallID demo_intent) (demo_both (demo_escrow_evidence EscrowAcknowledge (demo_hash "5") 70 false));
   REscrowReorg demo_renv (ei_CallID demo_intent) (demo_hash "5") (demo_both (demo_canonical (demo_hash "5") 70 (demo_hash "6")))].

Definition engine_of (y : rsys) : REngine := match y with Up g => g | Down stream => mkREngine (initial_state demo_escrow_recon 0) stream None end.
Definition demo_pending : REngine := engine_of (recon_run demo_escrow_recon demo_funded).
Definition demo_twice : REngine := engine_of (recon_run demo_escrow_recon demo_rewound).
Definition demo_call (g : REngine) : EscrowCall :=
  default (new_call demo_intent 0) (rs_escrowCalls (re_state g) !! ei_CallID demo_intent).

Lemma demo_pending_runs : recon_run demo_escrow_recon demo_funded = Up demo_pending.
Proof. vm_compute. reflexivity. Qed.
Lemma demo_twice_runs : recon_run demo_escrow_recon demo_rewound = Up demo_twice.
Proof. vm_compute. reflexivity. Qed.

Lemma engine_restart_agrees_witness :
  re_fault demo_pending = None /\
  (let g := Engine_Open demo_escrow_recon demo_renv (re_stream demo_pending) in
   match g.2 with
   | Ok g' => rs_balances (re_state g') = rs_balances (re_state demo_pending) /\ cs_State (rs_status (re_state g')) <> StateHealthy
   | Err _ => False
   end).
Proof.
  assert (Hf : re_fault demo_pending = None) by (vm_compute; reflexivity). split; [exact Hf|]. cbv zeta.
  destruct (Engine_Open demo_escrow_recon demo_renv (re_stream demo_pending)) as [stream r] eqn:Eo.
  assert (Hk : is_ok (Engine_Open demo_escrow_recon demo_renv (re_stream demo_pending)).2 = true) by (vm_compute; reflexivity).
  rewrite Eo in Hk. cbn [snd] in *. destruct r as [g'|]; [|discriminate Hk].
  destruct (engine_restart_agrees demo_escrow_recon demo_funded demo_pending demo_renv stream g' demo_pending_runs Hf Eo)
    as (_ & Hb & _ & _ & _ & _ & Hn). split; [exact Hb|exact Hn].
Defined.

Lemma finality_with_pending_bricks_journal_witness :
  let g' := (ConfirmEscrowFinality demo_escrow_recon demo_pending demo_renv (ei_CallID demo_intent) (demo_hash "4")
               (demo_both (demo_canonical (demo_hash "4") 60 (demo_hash "3")))).1 in
  length (re_stream g') = 9%nat /\ forall env, is_ok (Engine_Open demo_escrow_recon env (re_stream g')).2 = false.
Proof.
  cbv zeta. set (evidence := demo_both _).
  assert (Hn : length (re_stream (ConfirmEscrowFinality demo_escrow_recon demo_pending demo_renv (ei_CallID demo_intent) (demo_hash "4")
    evidence).1) = 9%nat) by (vm_compute; reflexivity).
  split; [exact Hn|].
  assert (Hl : rs_escrowCalls (re_state demo_pending) !! ei_CallID demo_intent = Some (demo_call demo_pending)) by (vm_compute; reflexivity).
  assert (Hp : is_Some (ec_Pending (demo_call demo_pending))) by (vm_compute; eexists; reflexivity).
  destruct (ec_Pending (demo_call demo_pending)) as [p|] eqn:Ep; [|exfalso; by destruct Hp].
  assert (Hs : length (re_stream demo_pending) = 8%nat) by (vm_compute; reflexivity).
  refine (proj2 (finality_with_pending_bricks_journal demo_escrow_recon demo_funded demo_pending demo_renv (ei_CallID demo_intent)
    (demo_hash "4") evidence (demo_call demo_pending) p demo_pending_runs Hl Ep eq_refl _)).
  intros E. rewrite E, Hs in Hn. discriminate Hn.
Defined.

Lemma second_reorg_bricks_journal_witness :
  let g' := (ReopenEscrowReorg demo_escrow_recon demo_twice demo_renv (ei_CallID demo_intent) (demo_hash "4")
               (demo_both (demo_canonical (demo_hash "4") 60 (demo_hash "6")))).1 in
  length (re_stream g') = 11%nat /\ forall env, is_ok (Engine_Open demo_escrow_recon env (re_stream g')).2 = false.
Proof.
  cbv zeta. set (evidence := demo_both _).
  assert (Hn : length (re_stream (ReopenEscrowReorg demo_escrow_recon demo_twice demo_renv (ei_CallID demo_intent) (demo_hash "4")
    evidence).1) = 11%nat) by (vm_compute; reflexivity).
  split; [exact Hn|].
  assert (Hl : rs_escrowCalls (re_state demo_twice) !! ei_CallID demo_intent = Some (demo_call demo_twice)) by (vm_compute; reflexivity).
  assert (Hs : length (re_stream demo_twice) = 10%nat) by (vm_compute; reflexivity).
  assert (Hst : map et_State (ec_Transitions (demo_call demo_twice)) = [EscrowTransitionConfirmed; EscrowTransitionReorged])
    by (vm_compute; reflexivity).
  destruct (ec_Transitions (demo_call demo_twice)) as [|t [|u [|]]] eqn:Et; try discriminate Hst.
  assert (Hfind : find_transition (demo_hash "4") [] (ec_Transitions (demo_call demo_twice)) = Some ([], t, [u])).
  { assert (Ht : map (has_hash (demo_hash "4")) (ec_Transitions (demo_call demo_twice)) = [true; false]) by (vm_compute; reflexivity).
    rewrite Et in Ht |- *. injection Ht as Ht _. cbn [find_transition]. rewrite Ht. reflexivity. }
  injection Hst as Ht Hu.
  refine (proj2 (second_reorg_bricks_journal demo_escrow_recon demo_rewound demo_twice demo_renv (ei_CallID demo_intent)
    (demo_hash "4") evidence (demo_call demo_twice) [] t [u] u demo_twice_runs Hl Hfind Ht (list_elem_of_here _ _) Hu eq_refl _)).
  intros E. rewrite E, Hs in Hn. discriminate Hn.
Defined.
End Demo.
