(* ===== verification/ReconEscrowTheorems.v ===== *)
(** * Escrow calls follow their contract

    What the engine knows of an escrow position is a path of the CallEscrow
    contract, taken by confirmed transactions that carry the call's own terms, and
    the ledger holds exactly the money that the position still locks; and a settled
    execution has its proof and its entry in the same ledger. *)
From stdpp Require Import base gmap strings list fin_maps sorting.
From Stdlib Require Import ZArith Lia Ascii.
From S2P Require Import Prelude GoText GoJSON Crypto Amounts Envelope Receipt SignerVerifier AttemptJournal.
From S2P Require Import Recon ReconEscrow ReconEngine ReconEscrowOps ReconTheorems ReconRestart.

Open Scope Z_scope.

(** ** The contract *)

Inductive contract_step (x : EscrowExpectedReceipt) : EscrowPositionState -> EscrowPositionState -> Prop :=
| step_fund : xr_Action x = EscrowFund -> contract_step x EscrowPositionRegistered EscrowPositionFunded
| step_acknowledge : xr_Action x = EscrowAcknowledge -> contract_step x EscrowPositionFunded EscrowPositionAcknowledged
| step_deliver : xr_Action x = EscrowDeliver -> contract_step x EscrowPositionAcknowledged EscrowPositionDelivered
| step_release : xr_Action x = EscrowRelease -> contract_step x EscrowPositionDelivered EscrowPositionReleased
| step_refund_funded : xr_Action x = EscrowRefund -> xr_RefundedFromState x = 1 -> contract_step x EscrowPositionFunded EscrowPositionRefunded
| step_refund_acknowledged :
    xr_Action x = EscrowRefund -> xr_RefundedFromState x = 2 -> contract_step x EscrowPositionAcknowledged EscrowPositionRefunded.

Inductive contract_path : EscrowPositionState -> list EscrowExpectedReceipt -> EscrowPositionState -> Prop :=
| path_nil s : contract_path s [] s
| path_cons x l s s' s'' : contract_step x s s' -> contract_path s' l s'' -> contract_path s (x :: l) s''.

(** The expected receipts of the confirmed transitions. *)
Definition confirmed (ts : list EscrowTransition) : list EscrowExpectedReceipt :=
  map et_Expected (filter (fun t => et_State t = EscrowTransitionConfirmed) ts).

(** A reorganization took part of the history back. *)
Definition taken_back (ts : list EscrowTransition) : Prop := exists t, t ∈ ts /\ et_State t = EscrowTransitionReorged.

Section Contract.
Context `{Crypto}.

(** *** Snapshots *)

Lemma action_step s x : escrowActionAllowed s (xr_Action x) (xr_RefundedFromState x) = true ->
  contract_step x s (nextEscrowState (xr_Action x)).
Proof.
  unfold escrowActionAllowed.
  destruct (bool_decide_reflect (s = EscrowPositionRegistered)) as [->|_]; [intros Ha; to_prop; rewrite Ha; by apply step_fund|].
  destruct (bool_decide_reflect (s = EscrowPositionFunded)) as [->|_].
  { intros Ha. to_prop. destruct Ha as [Ha|[Ha Hr]]; rewrite Ha; [by apply step_acknowledge|by apply step_refund_funded]. }
  destruct (bool_decide_reflect (s = EscrowPositionAcknowledged)) as [->|_].
  { intros Ha. to_prop. destruct Ha as [Ha|[Ha Hr]]; rewrite Ha; [by apply step_deliver|by apply step_refund_acknowledged]. }
  destruct (bool_decide_reflect (s = EscrowPositionDelivered)) as [->|_]; [|done].
  intros Ha. to_prop. rewrite Ha. by apply step_release.
Qed.

(** What one transition of a valid history is, and what it does to the scan. *)
Lemma snapshot_step c st t st' : snapshot_transition c st t = Ok st' ->
  escrowExpectedMatchesIntent (et_Expected t) (ec_Intent c) = true /\ ExpectedReceipt_Validate (et_Expected t) = Ok tt /\
  xr_TransactionHash (et_Expected t) ∉ hc_seen st /\
  hc_seen st' = {[xr_TransactionHash (et_Expected t)]} ∪ hc_seen st /\
  (et_State t = EscrowTransitionConfirmed -> ledger_required (xr_Action (et_Expected t)) = true -> et_LedgerTransactionID t <> "") /\
  (hc_reorged st' = false -> hc_reorged st = false /\ et_State t <> EscrowTransitionReorged) /\
  (hc_reorged st' = true -> hc_reorged st = true \/ et_State t = EscrowTransitionReorged) /\
  (et_State t = EscrowTransitionConfirmed -> contract_step (et_Expected t) (hc_state st) (hc_state st')) /\
  (et_State t = EscrowTransitionReverted -> hc_state st' = hc_state st) /\
  et_State t ∈ [EscrowTransitionConfirmed; EscrowTransitionReverted; EscrowTransitionReorged].
Proof.
  unfold snapshot_transition. rewrite !check_ok_iff, try_ok_iff. intros (Hv & _ & Hm & Hs & st1 & H1 & Hrest).
  rewrite try_unit_iff in Hrest. destruct Hrest as [Hb Hrest]. rewrite !check_ok_iff in Hrest. destruct Hrest as (_ & _ & _ & [= <-]).
  cbn [hc_seen hc_reorged hc_state]. to_prop. destruct Hv as [Hv _]. destruct Hm as [Hm Ha]. apply action_step in Ha.
  assert (Hval : ExpectedReceipt_Validate (et_Expected t) = Ok tt) by (destruct (ExpectedReceipt_Validate _) as [[]|]; done).
  unfold bookings_ok in Hb. cbv zeta in Hb. rewrite !check_ok_iff in Hb. destruct Hb as [Hb _].
  unfold history_state in H1. cbv zeta in H1.
  destruct (bool_decide_reflect (et_State t = EscrowTransitionConfirmed)) as [Ec|Ec].
  { rewrite check_ok_iff in H1. destruct H1 as [_ [= <-]]. rewrite Ec. cbn in *. split_and!; try done; try tauto; [|set_solver].
    intros _ Hl He. rewrite Hl, He in Hb. done. }
  destruct (bool_decide_reflect (et_State t = EscrowTransitionReverted)) as [Er|Er].
  { rewrite check_ok_iff in H1. destruct H1 as [_ [= <-]]. rewrite Er. split_and!; try done; try tauto. set_solver. }
  destruct (bool_decide_reflect (et_State t = EscrowTransitionReorged)) as [Eo|Eo]; [|done]. rewrite Eo.
  destruct (bool_decide _); [injection H1 as <-|destruct (bool_decide _); [rewrite check_ok_iff in H1; destruct H1 as [_ [= <-]]|done]];
    cbn; split_and!; try done; try tauto; set_solver.
Qed.

(** A transition of the call: its terms are the intent's, and money that moved is
    booked. *)
Definition belongs (c : EscrowCall) (t : EscrowTransition) : Prop :=
  escrowExpectedMatchesIntent (et_Expected t) (ec_Intent c) = true /\ ExpectedReceipt_Validate (et_Expected t) = Ok tt /\
  (et_State t = EscrowTransitionConfirmed -> ledger_required (xr_Action (et_Expected t)) = true -> et_LedgerTransactionID t <> "").

Definition hashes (ts : list EscrowTransition) : list string := map (fun t => xr_TransactionHash (et_Expected t)) ts.

Lemma taken_back_cons t ts : taken_back (t :: ts) <-> et_State t = EscrowTransitionReorged \/ taken_back ts.
Proof.
  unfold taken_back. split.
  - intros (u & [->|Hu]%elem_of_cons & Hs); [by left|right; eauto].
  - intros [Ht|(u & Hu & Hs)]; [exists t|exists u]; (split; [apply elem_of_cons|done]); tauto.
Qed.

Lemma history_scan_path c ts : forall st st', fold_res (snapshot_transition c) st ts = Ok st' ->
  Forall (belongs c) ts /\
  (NoDup (hashes ts) /\ (forall h, h ∈ hashes ts -> h ∉ hc_seen st) /\ forall h, h ∈ hc_seen st' <-> h ∈ hashes ts \/ h ∈ hc_seen st) /\
  (hc_reorged st' = false ->
     hc_reorged st = false /\ ~ taken_back ts /\ contract_path (hc_state st) (confirmed ts) (hc_state st')) /\
  (hc_reorged st' = true -> hc_reorged st = true \/ taken_back ts).
Proof.
  induction ts as [|t ts IH]; intros st st'.
  { intros [= <-]. split_and!; [by apply Forall_nil|by apply NoDup_nil|by intros h ?%elem_of_nil|intros h; set_solver| |tauto].
    intros Hr. split_and!; [done|by intros (u & ?%elem_of_nil & _)|by apply path_nil]. }
  rewrite fold_res_cons, try_ok_iff. intros (st1 & H1 & H2).
  apply snapshot_step in H1 as (Hm & Hv & Hn & Hs & Hb & Hok & Hre & Hc & Hrv & Hst).
  destruct (IH _ _ H2) as (Hf & (Hd & Hfresh & Hseen) & Hfine & Hback). rewrite Hs in Hfresh, Hseen. split_and!.
  - by apply Forall_cons.
  - cbn. apply NoDup_cons. split; [|done]. intros Hin. specialize (Hfresh _ Hin). set_solver.
  - intros h. cbn. intros [->|Hin]%elem_of_cons; [done|]. specialize (Hfresh _ Hin). set_solver.
  - intros h. rewrite Hseen. cbn. set_solver.
  - intros E. destruct (Hfine E) as (E1 & Hnb & Hp). destruct (Hok E1) as [E0 Ho]. split_and!; [done| |].
    + rewrite taken_back_cons. tauto.
    + unfold confirmed in *. destruct (decide (et_State t = EscrowTransitionConfirmed)) as [Ec|Ec].
      * rewrite filter_cons_True by done. cbn. eapply path_cons; [by apply Hc|exact Hp].
      * rewrite filter_cons_False by done. enough (et_State t = EscrowTransitionReverted) as Er by (by rewrite <-Hrv).
        rewrite !elem_of_cons, elem_of_nil in Hst. tauto.
  - intros E. rewrite taken_back_cons. destruct (Hback E) as [E1|]; [|tauto]. destruct (Hre E1); tauto.
Qed.

(** What [validateSnapshot] accepts. *)
Definition proper_call (c : EscrowCall) : Prop :=
  EscrowIntent_Validate (ec_Intent c) = Ok tt /\ Forall (belongs c) (ec_Transitions c) /\ NoDup (call_hashes c) /\
  (~ taken_back (ec_Transitions c) -> contract_path EscrowPositionRegistered (confirmed (ec_Transitions c)) (ec_State c)) /\
  (taken_back (ec_Transitions c) -> ec_State c = EscrowPositionQuarantined /\ ec_Pending c = None) /\
  match ec_Pending c with
  | Some p => escrowExpectedMatchesIntent (et_Expected p) (ec_Intent c) = true /\ exists next, contract_step (et_Expected p) (ec_State c) next
  | None => True
  end.

Lemma snapshot_proper c chainID : validateSnapshot c chainID = Ok tt -> proper_call c.
Proof.
  unfold validateSnapshot. rewrite !check_ok_iff, try_ok_iff. intros (Hi & _ & st & Hst & Hrest).
  rewrite !check_ok_iff in Hrest. destruct Hrest as (Hq & Hp & Hpend). to_prop.
  destruct Hi as [[Hi _] _]. apply history_scan_path in Hst as (Hf & (Hd & _ & Hseen) & Hfine & Hback). cbn in Hfine, Hback, Hseen.
  assert (Hpending : match ec_Pending c with
    | Some p => xr_TransactionHash (et_Expected p) ∉ hc_seen st /\ hc_reorged st = false /\
                escrowExpectedMatchesIntent (et_Expected p) (ec_Intent c) = true /\
                exists next, contract_step (et_Expected p) (hc_state st) next
    | None => True end).
  { destruct (ec_Pending c) as [p|]; [|done]. unfold snapshot_pending in Hpend. rewrite !check_ok_iff in Hpend.
    destruct Hpend as (_ & _ & Hh & Hm & _). to_prop. destruct Hm as [[Hr Hm] Ha]. split_and!; try done.
    eexists. by apply action_step. }
  assert (Hiff : hc_reorged st = true <-> taken_back (ec_Transitions c)).
  { split; [intros E; by destruct (Hback E)|]. destruct (hc_reorged st); [done|]. by destruct (Hfine eq_refl) as (_ & Hn & _). }
  split_and!; [by destruct (EscrowIntent_Validate _) as [[]|]|done| | | |].
  - unfold call_hashes. fold (hashes (ec_Transitions c)). apply NoDup_app. split_and!; [done| |].
    + intros h Hh. destruct (ec_Pending c); [|by intros ?%elem_of_nil]. intros ->%list_elem_of_singleton.
      apply (proj1 Hpending). apply Hseen. by left.
    + destruct (ec_Pending c); [apply NoDup_singleton|apply NoDup_nil_2].
  - intros Hn. destruct (hc_reorged st) eqn:Er; [exfalso; by apply Hn, Hiff|]. destruct (Hfine eq_refl) as (_ & _ & Hpath).
    destruct Hp as [|E]; [done|]. by rewrite E.
  - intros Hb. apply Hiff in Hb. rewrite Hb in Hq, Hpending. destruct Hq as [|Hq]; [done|]. split; [done|].
    destruct (ec_Pending c); [|done]. by destruct Hpending as (_ & ? & _).
  - destruct (ec_Pending c) as [p|]; [|done]. destruct Hpending as (_ & Er & Hm & next & Hn). split; [done|]. exists next.
    destruct Hp as [Hp|E]; [by rewrite Er in Hp|]. by rewrite E.
Qed.

Lemma park_proper c : proper_call c -> proper_call (park_call c).
Proof.
  unfold park_call. destruct (ec_Pending c) as [p|] eqn:Ep; [|done]. destruct (bool_decide _); [|done].
  intros (Hi & Hf & Hd & Hn & Hb & Hp). unfold proper_call, call_hashes in *. rewrite Ep in *. cbn in *. split_and!; try done.
  - intros Ht. by destruct (Hb Ht).
  - by destruct Hp.
  - by destruct Hp.
Qed.

(** *** Ledger entries stay *)

(** What the ledger holds under an ID stays there, up to the comparison the code
    makes of two entries. *)
Definition keeps (m m' : gmap string LedgerTransaction) : Prop :=
  forall id l, m !! id = Some l -> exists l', m' !! id = Some l' /\ equal_ledger l l' = true.

Lemma equal_ledger_refl x : equal_ledger x x = true.
Proof. by apply bool_decide_eq_true. Qed.
Lemma equal_ledger_trans x y z : equal_ledger x y = true -> equal_ledger y z = true -> equal_ledger x z = true.
Proof. unfold equal_ledger. rewrite !bool_decide_eq_true. congruence. Qed.

#[local] Instance keeps_preorder : PreOrder keeps.
Proof.
  split; [intros m id l E; exists l; split; [done|apply equal_ledger_refl]|]. intros m1 m2 m3 H12 H23 id l E.
  apply H12 in E as (l2 & E & E2). apply H23 in E as (l3 & E & E3). exists l3. split; [done|]. by eapply equal_ledger_trans.
Qed.

(** The entry may be added: its ID is free, or it is there already. *)
Definition addable (m : gmap string LedgerTransaction) (t : LedgerTransaction) : Prop :=
  match m !! lt_TransactionID t with Some l => equal_ledger l t = true | None => True end.

Lemma keeps_insert m t : addable m t -> keeps m (<[lt_TransactionID t := t]> m).
Proof.
  intros Ha id l E. destruct (decide (id = lt_TransactionID t)) as [->|Hne].
  - rewrite lookup_insert_eq. exists t. split; [done|]. unfold addable in Ha. by rewrite E in Ha.
  - rewrite lookup_insert_ne by done. exists l. split; [done|apply equal_ledger_refl].
Qed.

Lemma keeps_ledger s t : addable (rs_ledger s) t -> keeps (rs_ledger s) (rs_ledger (applyLedger s t)).
Proof. apply keeps_insert. Qed.

(** The additions of an escrow event are what the bindings are checked against. *)
Lemma bind_additions c at_ ls : forall s st added, fold_res (bind_addition c at_) (rs_ledger s, added) ls = Ok st ->
  st.1 = rs_ledger (fold_left applyLedger ls s) /\ keeps (rs_ledger s) st.1.
Proof.
  induction ls as [|t ls IH]; intros s st added; [intros [= <-]; split; [done|reflexivity]|].
  rewrite fold_res_cons, try_ok_iff. intros (st1 & H1 & H2). unfold bind_addition in H1. rewrite !check_ok_iff in H1.
  destruct H1 as (_ & Hp & _ & [= <-]). apply (IH (applyLedger s t)) in H2 as [E Hk]. split; [exact E|].
  etransitivity; [|exact Hk]. apply keeps_ledger. unfold addable. by destruct (rs_ledger s !! _).
Qed.

(** The entry of a transition, as the contract's economics have it, is in the
    ledger. *)
Definition booked (m : gmap string LedgerTransaction) (i : EscrowIntent) (t : EscrowTransition) : Prop :=
  et_LedgerTransactionID t = "" \/
  exists at_ want l, et_ResolvedAt t = Some at_ /\ escrowLedger i t at_ = Some want /\
    m !! et_LedgerTransactionID t = Some l /\ equal_ledger want l = true.

Lemma booked_keeps m m' i t : keeps m m' -> booked m i t -> booked m' i t.
Proof.
  intros Hk [E|(at_ & want & l & Hr & He & Hl & Hq)]; [by left|right]. apply Hk in Hl as (l' & Hl & Hq').
  exists at_, want, l'. split_and!; try done. by eapply equal_ledger_trans.
Qed.

Lemma bind_booked i m ts : forall r r', fold_res (bind_transition i m) r ts = Ok r' -> Forall (booked m i) ts.
Proof.
  induction ts as [|t ts IH]; intros r r'; [intros _; by apply Forall_nil|]. rewrite fold_res_cons, try_ok_iff.
  intros (r1 & H1 & H2). apply Forall_cons. split; [|by eapply IH]. unfold bind_transition in H1. rewrite try_ok_iff in H1.
  destruct H1 as (r2 & H1 & _). unfold bind_ledger in H1. destruct (bool_decide_reflect (et_LedgerTransactionID t = "")) as [E|_]; [by left|].
  destruct (m !! et_LedgerTransactionID t) as [l|] eqn:El; [|done]. destruct (et_ResolvedAt t) as [at_|] eqn:Er; [|done].
  rewrite !check_ok_iff in H1. destruct H1 as (Ht & Hw & _). apply Z.eqb_eq in Ht. subst at_.
  destruct (escrowLedger i t _) as [want|] eqn:Ew; [|done]. right. by exists (lt_RecordedAt l), want, l.
Qed.

(** *** Every call of every state *)

Variable cfg : ReconConfig.

Definition sound_calls (s : RState) : Prop := forall id c, rs_escrowCalls s !! id = Some c ->
  ei_CallID (ec_Intent c) = id /\ proper_call c /\ Forall (booked (rs_ledger s) (ec_Intent c)) (ec_Transitions c).

Lemma sound_calls_keeps s s' :
  rs_escrowCalls s' = rs_escrowCalls s -> keeps (rs_ledger s) (rs_ledger s') -> sound_calls s -> sound_calls s'.
Proof.
  intros E Hk Hs id c. rewrite E. intros Hl. destruct (Hs id c Hl) as (H1 & H2 & H3). split_and!; [done..|].
  eapply Forall_impl; [exact H3|]. intros t. by apply booked_keeps.
Qed.

Lemma sound_calls_same s s' : rs_escrowCalls s' = rs_escrowCalls s -> rs_ledger s' = rs_ledger s -> sound_calls s -> sound_calls s'.
Proof. intros E El. apply sound_calls_keeps; [done|]. rewrite El. reflexivity. Qed.

Lemma settlement_addable s id org t : settlement_validate s id org t = Ok tt -> addable (rs_ledger s) t.
Proof.
  unfold settlement_validate, addable. rewrite check_ok_iff, try_ok_iff. intros (_ & [] & _ & Hr). rewrite check_ok_iff in Hr.
  destruct Hr as [Hr _]. by destruct (rs_ledger s !! _).
Qed.

(** No operation offers an entry under the ID of another. *)
Lemma offered_addable s ev : offered cfg s ev ->
  match rve_Payload ev with
  | PExecution _ (Some t) _ => addable (rs_ledger s) t
  | PLedger t => addable (rs_ledger s) t
  | _ => True
  end.
Proof.
  intros [[op Ho]|He].
  - destruct Ho as [| | | | | | |env id evidence settlement e canonical resolved ledger _ _ _ _ _ Hr|op now key e e' ledger c _ _ _ _ _ Hv
      |op now t _ Hn|env org id operator evidence t e r canonical e' _ _ _ _ _ _ Hv]; cbn; try done.
    + destruct ledger as [t|]; [|done]. unfold reconciled in Hr. cbv zeta in Hr. destruct (rv_Success canonical), settlement as [u|]; try done.
      rewrite try_ok_iff in Hr. destruct Hr as ([] & Hs & [= _ <-]). by eapply settlement_addable.
    + destruct ledger as [t|]; [|done]. destruct Hv as [_ Hn]. unfold addable. by rewrite Hn.
    + unfold addable. by rewrite Hn.
    + by eapply settlement_addable.
  - unfold escrow_emitted in He. by destruct (rve_Payload ev).
Qed.

Lemma track_calls operator s : sound_calls s -> sound_calls (trackManualRelease cfg operator s).
Proof.
  apply sound_calls_same; unfold trackManualRelease; cbv zeta; destruct (negb _); try done; by destruct (negb _).
Qed.

Lemma mark_calls s : sound_calls s -> sound_calls (markBroadcastsPending s).
Proof.
  intros Hs id c'. cbn. rewrite lookup_fmap. destruct (rs_escrowCalls s !! id) as [c|] eqn:El; [|done]. cbn. intros [= <-].
  destruct (Hs _ _ El) as (H1 & H2 & H3). split_and!.
  - rewrite <-H1. unfold park_call. destruct (ec_Pending c); [|done]. by destruct (bool_decide _).
  - by apply park_proper.
  - unfold park_call. destruct (ec_Pending c); [|done]. by destruct (bool_decide _).
Qed.

Lemma chain_calls s s' : check_chain cfg s = Ok s' -> sound_calls s -> sound_calls s'.
Proof.
  unfold check_chain. destruct (_ =? 0); [intros [= <-]|rewrite check_ok_iff; intros [_ [= <-]]; done]. by apply sound_calls_same.
Qed.

Lemma fold_ledger_calls ls : forall s, rs_escrowCalls (fold_left applyLedger ls s) = rs_escrowCalls s.
Proof. induction ls as [|t ls IH]; intros s; [done|]. cbn [fold_left]. by rewrite IH. Qed.

Lemma escrow_calls s kind key at_ p s' : apply_escrow cfg s kind key at_ p = Ok s' -> sound_calls s -> sound_calls s'.
Proof.
  unfold apply_escrow. cbv zeta. rewrite !check_ok_iff. intros (_ & _ & Hr) Hs.
  rewrite try_ok_iff in Hr. destruct Hr as (_ & _ & Hr). rewrite !check_ok_iff in Hr. destruct Hr as (_ & _ & Hr).
  rewrite !try_unit_iff in Hr. destruct Hr as (Hsnap & _ & Hbind & Hr). apply snapshot_proper in Hsnap.
  unfold validateEscrowLedgerBindings in Hbind. rewrite try_ok_iff in Hbind. destruct Hbind as (st & Hadd & Hbind).
  rewrite try_ok_iff in Hbind. destruct Hbind as (r & Hbind & _). apply bind_booked in Hbind.
  set (s1 := with_escrow s _ _ _) in Hr. apply (bind_additions _ _ _ s1) in Hadd as [E Hk]. rewrite E in Hbind, Hk.
  assert (sound_calls (fold_left applyLedger (ep_Ledgers p) s1)) as Hs1.
  { intros id c. rewrite fold_ledger_calls. unfold s1 at 1. cbn [with_escrow rs_escrowCalls].
    destruct (decide (id = ei_CallID (ec_Intent (ep_Call p)))) as [->|Hne].
    - rewrite lookup_insert_eq. intros [= <-]. done.
    - rewrite lookup_insert_ne by done. intros Hl. destruct (Hs _ _ Hl) as (H1 & H2 & H3). split_and!; [done..|].
      eapply Forall_impl; [exact H3|]. intros t. by apply booked_keeps. }
  injection Hr as <-. destruct (ep_Status p); [|done]. apply track_calls. revert Hs1. by apply sound_calls_same.
Qed.

Lemma event_calls s ev s' : offered cfg s ev -> replay_event cfg s ev = Ok s' -> sound_calls s -> sound_calls s'.
Proof.
  intros Ho%offered_addable. unfold replay_event, apply. rewrite try_ok_iff. intros (s1 & H1 & H2) Hs.
  eapply chain_calls; [exact H2|]. clear H2. cbn [rve_Payload rve_Kind rve_Key rve_At] in H1.
  destruct (rve_Payload ev) as [status operator mark|e ledger status|t|p]; cbn [decode_payload] in H1.
  - rewrite check_ok_iff in H1. destruct H1 as [_ [= <-]].
    assert (sound_calls (trackManualRelease cfg operator (with_status s (decode_status status)))) as Ht
      by (apply track_calls; revert Hs; by apply sound_calls_same).
    destruct (_ || _); [by apply mark_calls|done].
  - destruct (_ || _).
    + unfold apply_broadcast in H1. rewrite try_ok_iff in H1. destruct H1 as (x & _ & H1). rewrite !check_ok_iff in H1.
      destruct H1 as (_ & _ & _ & _ & _ & [= <-]). revert Hs. by apply sound_calls_same.
    + rewrite check_ok_iff in H1. destruct H1 as [_ H1]. unfold apply_resolved in H1. rewrite try_ok_iff in H1.
      destruct H1 as (x & _ & H1). cbv zeta in H1. injection H1 as <-.
      set (s1 := with_executions s _ _). assert (sound_calls s1) as Hs0 by (revert Hs; by apply sound_calls_same).
      assert (sound_calls (match ledger with Some t => applyLedger s1 t | None => s1 end)) as Hs1.
      { destruct ledger as [t|]; [|done]. revert Hs0. apply sound_calls_keeps; [done|]. by apply keeps_ledger. }
      destruct status; [|done]. apply track_calls. revert Hs1. by apply sound_calls_same.
  - rewrite check_ok_iff in H1. destruct H1 as [_ [= <-]]. revert Hs. apply sound_calls_keeps; [done|]. by apply keeps_ledger.
  - rewrite check_ok_iff in H1. destruct H1 as [_ H1]. by eapply escrow_calls.
Qed.

Lemma reach_calls history s : reach cfg history s -> sound_calls s.
Proof.
  induction 1 as [now|s s' _ IH Ha|s ev s' _ IH _ Ho Hr]; [by intros id c ?| |by eapply event_calls].
  apply agree_split in Ha as [-> _]. revert IH. by apply sound_calls_same.
Qed.

(** *** The money of a position *)

(** What the entry of a transition posts to an account. *)
Definition moved (account : string) (i : EscrowIntent) (x : EscrowExpectedReceipt) : Z :=
  match escrow_postings (xr_Action x) (ei_AmountAtomic i) with Some (_, ps) => posted account ps | None => 0 end.
Definition net (account : string) (i : EscrowIntent) (xs : list EscrowExpectedReceipt) : Z :=
  foldr Z.add 0 (map (moved account i) xs).

(** What the contract holds and what it paid out. *)
Definition locked_in (n : Z) (s : EscrowPositionState) : Z :=
  if bool_decide (s ∈ [EscrowPositionFunded; EscrowPositionAcknowledged; EscrowPositionDelivered]) then n else 0.
Definition spent_in (n : Z) (s : EscrowPositionState) : Z := if bool_decide (s = EscrowPositionReleased) then n else 0.

(** Decisions between constants are computed. *)
Ltac compute_decisions :=
  repeat match goal with |- context [bool_decide ?P] => let b := eval vm_compute in (bool_decide P) in change (bool_decide P) with b end;
  cbv iota beta.

Lemma amount_signs v n : parsePositive v = Ok n -> SetString10 v = Some n /\ SetString10 ("-" +:+ v) = Some (- n).
Proof.
  unfold parsePositive. destruct v as [|c r]; [done|]. rewrite !check_ok_iff. intros (_ & Hd & Hn).
  rewrite SetString10_digits in Hn |- * by done. destruct (parse_digits _ 0) as [m|] eqn:Ep; [|done].
  rewrite check_ok_iff in Hn. destruct Hn as [_ [= ->]]. split; [done|].
  change (SetString10 ("-" +:+ String c r)) with (option_map Z.opp (parse_digits (String c r) 0)). by rewrite Ep.
Qed.

Lemma step_moves i n x s s' : parsePositive (ei_AmountAtomic i) = Ok n -> contract_step x s s' ->
  moved "escrow_locked" i x = locked_in n s' - locked_in n s /\ moved "agent_service_expense" i x = spent_in n s' - spent_in n s.
Proof.
  intros [Hp Hm]%amount_signs Hs. unfold moved.
  destruct Hs as [E|E|E|E|E Er|E Er]; rewrite E;
    unfold escrow_postings, locked_in, spent_in; compute_decisions;
    unfold posted, posting_amount; cbn [map foldr po_Account po_AmountAtomic]; compute_decisions; rewrite ?Hp, ?Hm; cbn [from_option id];
    lia.
Qed.

Lemma path_moves i n s xs s' : parsePositive (ei_AmountAtomic i) = Ok n -> contract_path s xs s' ->
  net "escrow_locked" i xs = locked_in n s' - locked_in n s /\ net "agent_service_expense" i xs = spent_in n s' - spent_in n s.
Proof.
  intros Hn. unfold net. induction 1 as [s|x l s s1 s2 Hs _ IH]; [cbn; lia|]. apply (step_moves i n) in Hs; [|done]. cbn [map foldr]. lia.
Qed.

Lemma intent_amount i : EscrowIntent_Validate i = Ok tt -> exists n, positiveInteger (ei_AmountAtomic i) = Ok n /\ 0 < n.
Proof.
  unfold EscrowIntent_Validate. rewrite !check_ok_iff, try_ok_iff. intros (_ & _ & _ & _ & _ & n & Hn & _). exists n. split; [done|].
  apply parsePositive_iff in Hn as [Hv Hn]. apply validateAtomicAmount_iff in Hv as (m & Hm & Hlt & _). rewrite Hn in Hm.
  injection Hm as <-. lia.
Qed.

(** C10: in every run of the engine, an escrow call stored under an ID is the call
    of that ID; all its transactions carry the terms of its intent and have
    different hashes; while no reorganization took any of them back, the position
    is where the CallEscrow contract is after the confirmed ones, and a pending one
    is the contract's next step; once one was taken back the call is quarantined
    and nothing is pending. *)
Theorem escrow_follows_contract ops g id call :
  recon_run cfg ops = Up g -> rs_escrowCalls (re_state g) !! id = Some call ->
  ei_CallID (ec_Intent call) = id /\
  (forall t, t ∈ ec_Transitions call \/ ec_Pending call = Some t ->
     escrowExpectedMatchesIntent (et_Expected t) (ec_Intent call) = true) /\
  NoDup (call_hashes call) /\
  (~ taken_back (ec_Transitions call) ->
     contract_path EscrowPositionRegistered (confirmed (ec_Transitions call)) (ec_State call) /\
     forall p, ec_Pending call = Some p -> exists next, contract_step (et_Expected p) (ec_State call) next) /\
  (taken_back (ec_Transitions call) -> ec_State call = EscrowPositionQuarantined /\ ec_Pending call = None).
Proof.
  intros Hr Hl. apply run_reach in Hr. destruct (reach_calls _ _ Hr _ _ Hl) as (Hid & (_ & Hf & Hd & Hn & Hb & Hp) & _).
  split_and!; [done| |done| |done].
  - intros t [Ht|Ht]; [|rewrite Ht in Hp; tauto]. rewrite Forall_forall in Hf. by destruct (Hf t Ht).
  - intros Hnb. split; [by apply Hn|]. intros p E. rewrite E in Hp. tauto.
Qed.

(** C11: the ledger books exactly what the position locks. While no reorganization
    took a transaction of the call back, every confirmed transaction that moves
    money has its entry in the ledger, and together these entries leave the whole
    amount on the locked account from funding until release or refund, nothing
    before and after, and the amount as expense exactly once it was released. *)
Theorem escrow_books_position ops g id call :
  recon_run cfg ops = Up g -> rs_escrowCalls (re_state g) !! id = Some call -> ~ taken_back (ec_Transitions call) ->
  exists n, positiveInteger (ei_AmountAtomic (ec_Intent call)) = Ok n /\ 0 < n /\
  net "escrow_locked" (ec_Intent call) (confirmed (ec_Transitions call)) = locked_in n (ec_State call) /\
  net "agent_service_expense" (ec_Intent call) (confirmed (ec_Transitions call)) = spent_in n (ec_State call) /\
  forall t, t ∈ ec_Transitions call -> et_State t = EscrowTransitionConfirmed -> ledger_required (xr_Action (et_Expected t)) = true ->
    exists at_ want l, et_ResolvedAt t = Some at_ /\ escrowLedger (ec_Intent call) t at_ = Some want /\
      rs_ledger (re_state g) !! et_LedgerTransactionID t = Some l /\ equal_ledger want l = true.
Proof.
  intros Hr Hl Hnb. apply run_reach in Hr. destruct (reach_calls _ _ Hr _ _ Hl) as (_ & (Hi & Hf & _ & Hn & _) & Hbook).
  apply intent_amount in Hi as (n & Ha & Hpos). exists n. destruct (path_moves _ _ _ _ _ Ha (Hn Hnb)) as [H1 H2].
  change (locked_in n EscrowPositionRegistered) with 0 in H1. change (spent_in n EscrowPositionRegistered) with 0 in H2.
  split_and!; [done|done|lia|lia|].
  intros t Ht Hc Hreq. rewrite Forall_forall in Hf, Hbook. destruct (Hf t Ht) as (_ & _ & Hne).
  destruct (Hbook t Ht) as [E|Hb]; [by apply Hne in E|exact Hb].
Qed.

(** ** Settled executions *)

Lemma track_ledger operator s : rs_ledger (trackManualRelease cfg operator s) = rs_ledger s.
Proof. unfold trackManualRelease. cbv zeta. destruct (negb _); [done|]. by destruct (negb _). Qed.

Lemma fold_ledger_keeps s p c at_ st added : fold_res (bind_addition c at_) (rs_ledger s, added) (ep_Ledgers p) = Ok st ->
  keeps (rs_ledger s) (rs_ledger (fold_left applyLedger (ep_Ledgers p) s)).
Proof. by intros [<- Hk]%bind_additions. Qed.

Lemma escrow_ledger s kind key at_ p s' : apply_escrow cfg s kind key at_ p = Ok s' -> keeps (rs_ledger s) (rs_ledger s').
Proof.
  unfold apply_escrow. cbv zeta. rewrite !check_ok_iff. intros (_ & _ & Hr).
  rewrite try_ok_iff in Hr. destruct Hr as (_ & _ & Hr). rewrite !check_ok_iff in Hr. destruct Hr as (_ & _ & Hr).
  rewrite !try_unit_iff in Hr. destruct Hr as (_ & _ & Hbind & Hr). unfold validateEscrowLedgerBindings in Hbind.
  rewrite try_ok_iff in Hbind. destruct Hbind as (st & Hadd & _). set (s1 := with_escrow s _ _ _) in Hr.
  apply (fold_ledger_keeps s1) in Hadd. injection Hr as <-. destruct (ep_Status p); [|exact Hadd].
  rewrite track_ledger. exact Hadd.
Qed.

(** Applying an event keeps the ledger, and a resolution enters its settlement. *)
Lemma event_ledger_kept s ev s' : offered cfg s ev -> replay_event cfg s ev = Ok s' ->
  keeps (rs_ledger s) (rs_ledger s') /\
  forall e t c, rve_Payload ev = PExecution e (Some t) c -> rve_Kind ev = eventExecutionResolved -> rs_ledger s' !! lt_TransactionID t = Some t.
Proof.
  intros Ho%offered_addable. unfold replay_event, apply. rewrite try_ok_iff. intros (s1 & H1 & H2%core_check).
  injection H2 as _ _ _ _ _ -> _. cbn [rve_Payload rve_Kind rve_Key rve_At] in H1.
  destruct (rve_Payload ev) as [status operator mark|e ledger status|t|p]; cbn [decode_payload] in H1.
  - rewrite check_ok_iff in H1. destruct H1 as [_ [= <-]]. split; [|done].
    destruct (_ || _); [change (rs_ledger (markBroadcastsPending ?x)) with (rs_ledger x)|]; rewrite track_ledger; reflexivity.
  - destruct (bool_decide_reflect (rve_Kind ev = eventExecutionBroadcast)) as [Ek|_]; [|destruct (bool_decide_reflect (rve_Kind ev = eventExecutionQuarantine)) as [Ek|_]]; cbn [orb] in H1.
    1,2: unfold apply_broadcast in H1; rewrite try_ok_iff in H1; destruct H1 as (x & _ & H1); rewrite !check_ok_iff in H1;
         destruct H1 as (_ & _ & _ & _ & _ & [= <-]); (split; [reflexivity|]); intros ? ? ? _ Er; rewrite Ek in Er; discriminate Er.
    rewrite check_ok_iff in H1. destruct H1 as [_ H1]. unfold apply_resolved in H1. rewrite try_ok_iff in H1.
    destruct H1 as (x & _ & H1). cbv zeta in H1. injection H1 as <-. set (s1 := with_executions s _ _).
    destruct status; cbn [option_map fmap option_fmap]; rewrite ?track_ledger; (destruct ledger as [t|]; [|split; [reflexivity|done]]);
      (split; [by apply (keeps_ledger s1)|intros ? ? ? [= <- <-] _; cbn; by rewrite lookup_insert_eq]).
  - rewrite check_ok_iff in H1. destruct H1 as [_ [= <-]]. split; [by apply keeps_ledger|done].
  - rewrite check_ok_iff in H1. destruct H1 as [_ H1]. split; [by eapply escrow_ledger|done].
Qed.

(** The only settled execution that comes without a settlement was settled before. *)
Lemma confirms_settled s op ev e c : emits cfg s op ev -> rve_Payload ev = PExecution e None c -> e_State e = ExecutionSettled ->
  exists id e0 at_ head, rs_executions s !! id = Some e0 /\ e = set_finality at_ head e0.
Proof.
  intros He Hp Hset. destruct He as [| | | |op now x state at_ b c0 Hst Hh|op now kind key e0 e' Hl Hx Hst|op now key e0 at_ head Hl
    |env id evidence settlement e0 canonical resolved ledger0 Hl Hf N1 N2 Hq Hrec| | |]; cbn [status_event rve_Payload] in Hp; try discriminate Hp;
    injection Hp; intros; subst; try done.
  - exfalso. cbn in Hset. by destruct Hst as [->| ->].
  - by exists key, e0, at_, head.
  - exfalso. apply reconciled_settled in Hrec as [_ Hrec]. by destruct (Hrec Hset) as (t & _ & ? & _).
Qed.

Lemma stored_settles s e e' : stored s e e' -> e_ResolvedTransactionHash e <> "" ->
  e_State e' = e_State e /\ e_Expected e' = e_Expected e /\ e_ResolvedTransactionHash e' = e_ResolvedTransactionHash e /\
  e_BlockNumber e' = e_BlockNumber e /\ e_BlockHash e' = e_BlockHash e /\ e_LedgerTransactionID e' = e_LedgerTransactionID e.
Proof.
  unfold stored, preserveBroadcastAttestation. cbv zeta. rewrite try_ok_iff. intros (_ & _ & Hp). rewrite try_ok_iff in Hp.
  destruct Hp as (_ & _ & Hp). rewrite check_ok_iff, try_ok_iff in Hp. destruct Hp as (_ & [] & _ & Hp).
  rewrite !check_ok_iff in Hp. destruct Hp as (_ & _ & [= <-]). intros Hne. split_and!; try done. cbn. unfold inherit_text. by rewrite bool_decide_false.
Qed.

(** The history settled the execution, and the settlement is in the ledger. *)
Definition settlement_booked (history : list rop) (m : gmap string LedgerTransaction) (e : Execution) : Prop :=
  exists t l, settled_with cfg history e t /\ m !! e_LedgerTransactionID e = Some l /\ equal_ledger t l = true.

Lemma settlement_booked_same history m m' e e' : keeps m m' -> e_Expected e' = e_Expected e ->
  e_ResolvedTransactionHash e' = e_ResolvedTransactionHash e -> e_BlockNumber e' = e_BlockNumber e -> e_BlockHash e' = e_BlockHash e ->
  e_LedgerTransactionID e' = e_LedgerTransactionID e -> settlement_booked history m e -> settlement_booked history m' e'.
Proof.
  intros Hk E1 E2 E3 E4 E5 (t & l & Ht & Hl & Hq). apply Hk in Hl as (l' & Hl & Hq'). exists t, l'. unfold settled_with. rewrite E1, E2, E3, E4, E5.
  split_and!; [exact Ht|done|by eapply equal_ledger_trans].
Qed.

Definition settlements_booked (history : list rop) (s : RState) : Prop := forall id e, rs_executions s !! id = Some e ->
  e_State e = ExecutionSettled -> e_ResolvedTransactionHash e <> "" /\ settlement_booked history (rs_ledger s) e.

(** A settled execution that an event brings is booked once the event is applied. *)
Lemma brought_booked history s ev s' e ledger c : settlements_booked history s -> recorded cfg history ev -> offered cfg s ev ->
  replay_event cfg s ev = Ok s' -> rve_Payload ev = PExecution e ledger c -> e_State e = ExecutionSettled ->
  e_ResolvedTransactionHash e <> "" /\ settlement_booked history (rs_ledger s') e.
Proof.
  intros Hs Hrec Ho Hr Hp Hset. destruct (event_ledger_kept _ _ _ Ho Hr) as [Hk Hin]. unfold recorded in Hrec. rewrite Hp in Hrec.
  destruct Hrec as (before & op & after & g & -> & Hg & He). pose proof (run_settled cfg _ _ Hg) as Hok.
  destruct (settlement_emitted _ _ _ _ _ _ _ _ Hg Hok He Hp Hset) as [(t & -> & Hkind & Ht)|(-> & _)].
  - pose proof (settled_emitted _ _ _ _ _ Hg Hok He) as Hie. unfold IE_settled in Hie. rewrite Hp in Hie. destruct Hie as [_ Hie].
    split; [by apply Hie|]. exists t, t. specialize (Hin _ _ _ Hp Hkind).
    assert (Hid : lt_TransactionID t = e_LedgerTransactionID e) by (destruct Ht as (? & ? & ? & ? & ? & ? & Ht); tauto).
    rewrite <- Hid. split_and!; [|done|apply equal_ledger_refl].
    replace (before ++ op :: after) with ((before ++ [op]) ++ after) by (by rewrite <- app_assoc). by apply settled_with_later.
  - destruct Ho as [[op' Ho]|Ho]; [|unfold escrow_emitted in Ho; by rewrite Hp in Ho].
    destruct (confirms_settled _ _ _ _ _ Ho Hp Hset) as (id & e0 & at_ & head & Hl & ->). destruct (Hs id e0 Hl Hset) as [Hne Hb].
    split; [done|]. by eapply settlement_booked_same.
Qed.

Lemma reach_settlements history s : reach cfg history s -> settlements_booked history s.
Proof.
  induction 1 as [now|s s' _ IH Ha|s ev s' _ IH Hrec Ho Hr].
  - intros id e Hl. cbn in Hl. by rewrite lookup_empty in Hl.
  - apply agree_split in Ha as [-> _]. exact IH.
  - pose proof (event_ledger_kept _ _ _ Ho Hr) as [Hk _].
    assert (Hold : forall id e, rs_executions s !! id = Some e -> e_State e = ExecutionSettled ->
      e_ResolvedTransactionHash e <> "" /\ settlement_booked history (rs_ledger s') e).
    { intros id e Hl Hset. destruct (IH id e Hl Hset) as [Hne Hb]. split; [done|]. by eapply settlement_booked_same. }
    assert (Hnew : forall e e' ledger c, rve_Payload ev = PExecution e ledger c -> stored s e e' -> e_State e' = ExecutionSettled ->
      e_ResolvedTransactionHash e' <> "" /\ settlement_booked history (rs_ledger s') e').
    { intros e e' ledger c Hp Hst Hset. assert (Hse : e_State e = ExecutionSettled).
      { rewrite <- Hset. unfold stored, preserveBroadcastAttestation in Hst. cbv zeta in Hst. rewrite !try_ok_iff in Hst. destruct Hst as (_ & _ & Hst).
        rewrite try_ok_iff in Hst. destruct Hst as (_ & _ & Hst). rewrite check_ok_iff, try_ok_iff in Hst. destruct Hst as (_ & _ & _ & Hst).
        rewrite !check_ok_iff in Hst. by destruct Hst as (_ & _ & [= <-]). }
      destruct (brought_booked _ _ _ _ _ _ _ IH Hrec Ho Hr Hp Hse) as [Hne Hb].
      destruct (stored_settles _ _ _ Hst Hne) as (_ & E1 & E2 & E3 & E4 & E5). rewrite E2. split; [done|].
      apply (settlement_booked_same _ (rs_ledger s') _ e); [reflexivity|done..]. }
    pose proof (replay_effect _ _ _ _ Hr) as He. remember (rve_Payload ev) as p eqn:Ep. symmetry in Ep.
    destruct He as [? ? ? _ _ HE|e e' ? ? Hst HE _ _|e e' ? ? Hst HE _ _|? _ HE _|? _ HE _ _]; intros id e1 Hl Hset.
    + apply HE in Hl as (e0 & Hl & [->|(Hp & _)]); [by eapply Hold|]. rewrite Hp in Hset. discriminate Hset.
    + rewrite HE, lookup_insert_Some in Hl. destruct Hl as [[<- <-]|[_ Hl]]; [by eapply Hnew|by eapply Hold].
    + rewrite HE, lookup_insert_Some in Hl. destruct Hl as [[<- <-]|[_ Hl]]; [by eapply Hnew|by eapply Hold].
    + rewrite HE in Hl. by eapply Hold.
    + rewrite HE in Hl. by eapply Hold.
Qed.

(** C7: nothing is settled without canonical proof and its entry in the books. In
    every life of the engine, an execution that is SETTLED was settled by a
    reconciliation in its history, at a moment when the chain was neither halted nor
    suspected to stall and the trusted checkpoint was fresh, with receipts of at least
    a quorum of different observers that all show the exact transfer of the execution,
    confirmed deep enough, in the block the execution names, at or below that
    checkpoint; the balanced settlement given to that operation, bound to the execution
    and its organization, stands in the ledger under the ID the execution names. *)
Theorem settled_only_with_proof raw ops g id e :
  config_defaults raw = Ok cfg -> recon_run cfg ops = Up g -> rs_executions (re_state g) !! id = Some e ->
  e_State e = ExecutionSettled ->
  2 <= cf_ObserverQuorum cfg /\
  exists before op after g0 now evidence t l,
    ops = before ++ op :: after /\ recon_run cfg before = Up g0 /\ settles op now id evidence t /\
    cs_State (rs_status (re_state g0)) <> StateHalted /\ cs_State (rs_status (re_state g0)) <> StateSuspectedStall /\
    trustedFresh cfg (rs_status (re_state g0)) now = true /\
    receipts_prove cfg (rs_status (re_state g0)) (with_hash (e_Expected e) (e_ResolvedTransactionHash e))
      (e_BlockNumber e) (e_BlockHash e) evidence /\
    ledger_validate t = Ok tt /\ lt_Kind t = LedgerSettlement /\ lt_ReferenceID t = id /\
    lt_OrganizationID t = ex_OrganizationID (e_Expected e) /\ lt_TransactionID t = e_LedgerTransactionID e /\
    rs_ledger (re_state g) !! e_LedgerTransactionID e = Some l /\ equal_ledger t l = true.
Proof.
  intros Hc Hr Hl Hs. split.
  - unfold config_defaults in Hc. cbv zeta in Hc. rewrite !check_ok_iff in Hc. destruct Hc as (_ & _ & _ & Hq & _ & [= <-]).
    to_prop. tauto.
  - destruct (run_settled _ _ _ Hr _ _ Hl) as (Hid & _). apply run_reach, reach_settlements in Hr.
    destruct (Hr id e Hl Hs) as (_ & t & l & (before & op & after & g0 & now & evidence & Hrest) & Hin & Heq).
    rewrite Hid in Hrest. exists before, op, after, g0, now, evidence, t, l. tauto.
Qed.
End Contract.

(** ** A funded call *)

Section Demo.
#[local] Existing Instance ToyCrypto.

Lemma settled_only_with_proof_witness :
  is_ok (config_defaults demo_raw) = true /\ (e_State <$> rs_executions (re_state demo_life) !! "exec_1") = Some ExecutionSettled /\
  exists before op after now evidence t l, demo_ops = before ++ op :: after /\ settles op now "exec_1" evidence t /\
    NoDup (map rv_Provider evidence) /\ lt_Kind t = LedgerSettlement /\ rs_ledger (re_state demo_life) !! lt_TransactionID t = Some l.
Proof.
  split; [vm_compute; reflexivity|]. split; [vm_compute; reflexivity|].
  destruct (rs_executions (re_state demo_life) !! "exec_1") as [e|] eqn:El; [|vm_compute in El; discriminate El].
  assert (Hs : e_State e = ExecutionSettled).
  { assert (E : (e_State <$> rs_executions (re_state demo_life) !! "exec_1") = Some ExecutionSettled) by (vm_compute; reflexivity).
    rewrite El in E. injection E as E. exact E. }
  assert (Hc : config_defaults demo_raw = Ok demo_recon) by (vm_compute; reflexivity).
  destruct (settled_only_with_proof demo_recon demo_raw demo_ops demo_life "exec_1" e Hc demo_runs El Hs)
    as (_ & before & op & after & g0 & now & evidence & t & l & Heq & _ & Hset & _ & _ & _ & (_ & Hnd & _) & _ & Hk & _ & _ & Hid & Hl & _).
  exists before, op, after, now, evidence, t, l. rewrite Hid. split; [exact Heq|]. split; [exact Hset|]. split; [exact Hnd|]. split; [exact Hk|exact Hl].
Defined.

Lemma demo_call_stored : rs_escrowCalls (re_state demo_pending) !! ei_CallID demo_intent = Some (demo_call demo_pending).
Proof. vm_compute. reflexivity. Qed.

Lemma one_confirmed ts : map et_State ts = [EscrowTransitionConfirmed] -> ~ taken_back ts.
Proof. destruct ts as [|t [|]]; try done. intros [= E] (u & ->%list_elem_of_singleton & Hs). rewrite Hs in E. discriminate E. Qed.
Lemma demo_not_taken_back : ~ taken_back (ec_Transitions (demo_call demo_pending)).
Proof. apply one_confirmed. vm_compute. reflexivity. Qed.

Lemma escrow_follows_contract_witness :
  NoDup (call_hashes (demo_call demo_pending)) /\
  contract_path EscrowPositionRegistered (confirmed (ec_Transitions (demo_call demo_pending))) (ec_State (demo_call demo_pending)).
Proof.
  destruct (escrow_follows_contract demo_escrow_recon demo_funded demo_pending (ei_CallID demo_intent) (demo_call demo_pending)
    demo_pending_runs demo_call_stored) as (_ & _ & Hd & Hp & _).
  split; [exact Hd|]. exact (proj1 (Hp demo_not_taken_back)).
Defined.

Lemma escrow_books_position_witness :
  locked_in 1000 (ec_State (demo_call demo_pending)) = 1000 /\
  net "escrow_locked" demo_intent (confirmed (ec_Transitions (demo_call demo_pending))) = 1000.
Proof.
  assert (Hs : locked_in 1000 (ec_State (demo_call demo_pending)) = 1000) by (vm_compute; reflexivity). split; [exact Hs|].
  destruct (escrow_books_position demo_escrow_recon demo_funded demo_pending (ei_CallID demo_intent) (demo_call demo_pending)
    demo_pending_runs demo_call_stored demo_not_taken_back) as (n & Hn & _ & Hl & _).
  assert (Hi : ec_Intent (demo_call demo_pending) = demo_intent) by (vm_compute; reflexivity).
  assert (Ha : positiveInteger (ei_AmountAtomic demo_intent) = Ok 1000) by (vm_compute; reflexivity).
  rewrite Hi in Hn, Hl. rewrite Ha in Hn. injection Hn as <-. rewrite Hl. exact Hs.
Defined.
End Demo.
