(* ===== verification/GovAction.v ===== *)
(** * Governance actions and their payload hashes ([pkg/governanceworkflow])

    The closed schema of owner actions on the FlowOps contracts, their validation,
    the payload hash that binds an action to one workflow, chain, contract,
    function and precondition, and the calldata that executes it. The ABI encoder
    of go-ethereum is an operation of a class. *)
From stdpp Require Import base gmap strings list fin_maps.
From Stdlib Require Import ZArith Lia Ascii.
From S2P Require Import Prelude GoText GoJSON Crypto Amounts Envelope.

Open Scope Z_scope.

(** ** The ABI encoder *)

(** Arguments of [abi.Arguments.Pack], by their ABI type. *)
Inductive abi_value :=
| VAddress (bytes : string)
| VUint (bits n : Z)
| VBool (b : bool)
| VBytes32 (bytes : string)
| VUints (ns : list Z).

Class Abi := { abi_pack : list abi_value -> string }.

Inductive abi_ty := TAddress | TUint (bits : Z) | TBool | TBytes32 | TUints.

Definition abi_type (v : abi_value) : abi_ty :=
  match v with VAddress _ => TAddress | VUint bits _ => TUint bits | VBool _ => TBool | VBytes32 _ => TBytes32 | VUints _ => TUints end.

(** Values the encoder is given: they fit their type. *)
Definition abi_fits (v : abi_value) : Prop :=
  match v with
  | VAddress b => String.length b = 20%nat
  | VUint bits n => 8 <= bits <= 256 /\ 0 <= n < 2 ^ bits
  | VBool _ => True
  | VBytes32 b => String.length b = 32%nat
  | VUints ns => Forall (fun n => 0 <= n < 2 ^ 256) ns
  end.

(** Arguments of the same types have different encodings when they differ. *)
Class AbiLaws `{Abi} := {
  abi_pack_inj vs ws : map abi_type vs = map abi_type ws -> Forall abi_fits vs -> Forall abi_fits ws ->
    abi_pack vs = abi_pack ws -> vs = ws;
}.

(** ** The schema *)

Abbreviation ActionType := string (only parsing).
Definition ActionCallEscrowAddVerifier : ActionType := "CALL_ESCROW_ADD_VERIFIER".
Definition ActionCallEscrowRevokeVerifier : ActionType := "CALL_ESCROW_REVOKE_VERIFIER".
Definition ActionCallEscrowPause : ActionType := "CALL_ESCROW_PAUSE".
Definition ActionSpendAuthorizer : ActionType := "SPEND_AUTHORIZER".
Definition ActionSpendAllowlist : ActionType := "SPEND_ALLOWLIST".
Definition ActionSpendCaps : ActionType := "SPEND_CAPS".
Definition ActionSpendPause : ActionType := "SPEND_PAUSE".
Definition ActionSpendInvalidateNonces : ActionType := "SPEND_INVALIDATE_NONCES".
Definition ActionDirectoryApprove : ActionType := "DIRECTORY_APPROVE".
Definition ActionDirectoryCancel : ActionType := "DIRECTORY_CANCEL".

Definition ErrInvalidPayload : error := "invalid governance workflow payload".

Definition CallEscrowDomain : string := "ASCP_CALL_ESCROW_GOVERNANCE_V1".
Definition SpendModuleDomain : string := "ASCP_SPEND_MODULE_GOVERNANCE_V1".
Definition ServiceDirectoryDomain : string := "SERVICE_DIRECTORY_GOVERNANCE_V1".
Definition DirectoryProposalDomain : string := "ASCP_DIRECTORY_PROPOSAL_V1".
Definition MaxGovernanceNonceInvalidations : nat := 100.

Record AddVerifierAction := mkAddVerifier {
  av_Key : string; av_ActiveEpoch : Z; av_PendingEpoch : Z; av_PendingActivatesAt : Z; av_Revoked : bool; av_NextEpoch : Z }.
Record RevokeVerifierAction := mkRevokeVerifier {
  rk_Key : string; rk_ActiveEpoch : Z; rk_PendingEpoch : Z; rk_PendingActivatesAt : Z; rk_Revoked : bool }.
Record SpendAuthorizerAction := mkSpendAuthorizer { sa_Current : string; sa_CurrentEpoch : Z; sa_Next : string }.
Record SpendAllowlistAction := mkSpendAllowlist { sl_Target : string; sl_CurrentCodeHash : string; sl_NextCodeHash : string }.
Record Caps := mkCaps { cp_PerTransaction : string; cp_PerDay : string; cp_AllowanceCeiling : string }.
Record SpendCapsAction := mkSpendCaps { sc_Current : Caps; sc_Next : Caps }.
Record SpendPauseAction := mkSpendPause { sp_Current : bool; sp_Next : bool }.
Record DirectoryProposal := mkDirectoryProposal {
  dp_VersionID : Z; dp_PreviousVersion : Z; dp_PreviousRoot : string; dp_NewRoot : string; dp_BlobContentHash : string;
  dp_LocationsHash : string; dp_ChangeClass : Z; dp_RequestedActivatesAt : Z }.
Record DirectoryApproveAction := mkDirectoryApprove { da_Proposal : DirectoryProposal; da_ProposerNonce : string }.
Record DirectoryCancelAction := mkDirectoryCancel { dc_VersionID : Z; dc_ProposalHash : string }.

Record Action := mkAction {
  ac_Type : ActionType;
  ac_ChainID : Z;
  ac_ContractAddress : string;
  ac_AddVerifier : option AddVerifierAction;
  ac_RevokeVerifier : option RevokeVerifierAction;
  ac_Pause : bool;
  ac_Authorizer : option SpendAuthorizerAction;
  ac_Allowlist : option SpendAllowlistAction;
  ac_Caps : option SpendCapsAction;
  ac_SpendPause : option SpendPauseAction;
  ac_Nonces : option (list string);
  ac_DirectoryApprove : option DirectoryApproveAction;
  ac_DirectoryCancel : option DirectoryCancelAction;
}.

(** [CanonicalAction] is the JSON of an action; the action stands for its text. *)
Record BoundAction := mkBoundAction {
  bd_WorkflowKind : string;
  bd_PayloadHash : string;
  bd_ChainID : Z;
  bd_ContractAddress : string;
  bd_FunctionSelector : string;
  bd_Calldata : string;
  bd_CanonicalAction : Action;
}.

(** ** JSON *)

Definition json_Caps (c : Caps) : string :=
  json_object [("perTransaction", Some (json_string (cp_PerTransaction c))); ("perDay", Some (json_string (cp_PerDay c)));
               ("allowanceCeiling", Some (json_string (cp_AllowanceCeiling c)))].

Definition json_Proposal (p : DirectoryProposal) : string :=
  json_object [
    ("versionId", Some (json_int (dp_VersionID p)));
    ("previousVersion", Some (json_int (dp_PreviousVersion p)));
    ("previousRoot", Some (json_string (dp_PreviousRoot p)));
    ("newRoot", Some (json_string (dp_NewRoot p)));
    ("blobContentHash", Some (json_string (dp_BlobContentHash p)));
    ("locationsHash", Some (json_string (dp_LocationsHash p)));
    ("changeClass", Some (json_int (dp_ChangeClass p)));
    ("requestedActivatesAt", Some (json_int (dp_RequestedActivatesAt p)))].

Definition json_Action (a : Action) : string :=
  json_object [
    ("type", Some (json_string (ac_Type a)));
    ("chainId", Some (json_int (ac_ChainID a)));
    ("contractAddress", Some (json_string (ac_ContractAddress a)));
    ("callEscrowAddVerifier", option_map (fun v => json_object [
        ("key", Some (json_string (av_Key v))); ("activeEpoch", Some (json_int (av_ActiveEpoch v)));
        ("pendingEpoch", Some (json_int (av_PendingEpoch v))); ("pendingActivatesAt", Some (json_int (av_PendingActivatesAt v)));
        ("revoked", Some (json_bool (av_Revoked v))); ("nextEpoch", Some (json_int (av_NextEpoch v)))]) (ac_AddVerifier a));
    ("callEscrowRevokeVerifier", option_map (fun v => json_object [
        ("key", Some (json_string (rk_Key v))); ("activeEpoch", Some (json_int (rk_ActiveEpoch v)));
        ("pendingEpoch", Some (json_int (rk_PendingEpoch v))); ("pendingActivatesAt", Some (json_int (rk_PendingActivatesAt v)));
        ("revoked", Some (json_bool (rk_Revoked v)))]) (ac_RevokeVerifier a));
    ("callEscrowPause", if ac_Pause a then Some "{}" else None);
    ("spendAuthorizer", option_map (fun v => json_object [
        ("current", Some (json_string (sa_Current v))); ("currentEpoch", Some (json_int (sa_CurrentEpoch v)));
        ("next", Some (json_string (sa_Next v)))]) (ac_Authorizer a));
    ("spendAllowlist", option_map (fun v => json_object [
        ("target", Some (json_string (sl_Target v))); ("currentCodeHash", Some (json_string (sl_CurrentCodeHash v)));
        ("nextCodeHash", Some (json_string (sl_NextCodeHash v)))]) (ac_Allowlist a));
    ("spendCaps", option_map (fun v => json_object [
        ("current", Some (json_Caps (sc_Current v))); ("next", Some (json_Caps (sc_Next v)))]) (ac_Caps a));
    ("spendPause", option_map (fun v => json_object [
        ("current", Some (json_bool (sp_Current v))); ("next", Some (json_bool (sp_Next v)))]) (ac_SpendPause a));
    ("spendInvalidateNonces", option_map (fun ns => json_object [("nonces", Some (json_array (map json_string ns)))]) (ac_Nonces a));
    ("directoryApprove", option_map (fun v => json_object [
        ("proposal", Some (json_Proposal (da_Proposal v))); ("proposerNonce", Some (json_string (da_ProposerNonce v)))])
        (ac_DirectoryApprove a));
    ("directoryCancel", option_map (fun v => json_object [
        ("versionId", Some (json_int (dc_VersionID v))); ("proposalHash", Some (json_string (dc_ProposalHash v)))])
        (ac_DirectoryCancel a))].

Definition json_BoundAction (b : BoundAction) : string :=
  json_object [
    ("workflowKind", Some (json_string (bd_WorkflowKind b)));
    ("payloadHash", Some (json_string (bd_PayloadHash b)));
    ("chainId", Some (json_int (bd_ChainID b)));
    ("contractAddress", Some (json_string (bd_ContractAddress b)));
    ("functionSelector", Some (json_string (bd_FunctionSelector b)));
    ("calldata", Some (json_string (bd_Calldata b)));
    ("canonicalAction", Some (json_Action (bd_CanonicalAction b)))].

(** Decoding the JSON of an action: its texts come back as valid UTF-8. *)
Definition decode_Caps (c : Caps) : Caps :=
  mkCaps (utf8_coerce (cp_PerTransaction c)) (utf8_coerce (cp_PerDay c)) (utf8_coerce (cp_AllowanceCeiling c)).
Definition decode_Proposal (p : DirectoryProposal) : DirectoryProposal :=
  mkDirectoryProposal (dp_VersionID p) (dp_PreviousVersion p) (utf8_coerce (dp_PreviousRoot p)) (utf8_coerce (dp_NewRoot p))
    (utf8_coerce (dp_BlobContentHash p)) (utf8_coerce (dp_LocationsHash p)) (dp_ChangeClass p) (dp_RequestedActivatesAt p).

Definition decode_Action (a : Action) : Action := {|
  ac_Type := utf8_coerce (ac_Type a); ac_ChainID := ac_ChainID a; ac_ContractAddress := utf8_coerce (ac_ContractAddress a);
  ac_AddVerifier := option_map (fun v => mkAddVerifier (utf8_coerce (av_Key v)) (av_ActiveEpoch v) (av_PendingEpoch v)
    (av_PendingActivatesAt v) (av_Revoked v) (av_NextEpoch v)) (ac_AddVerifier a);
  ac_RevokeVerifier := option_map (fun v => mkRevokeVerifier (utf8_coerce (rk_Key v)) (rk_ActiveEpoch v) (rk_PendingEpoch v)
    (rk_PendingActivatesAt v) (rk_Revoked v)) (ac_RevokeVerifier a);
  ac_Pause := ac_Pause a;
  ac_Authorizer := option_map (fun v => mkSpendAuthorizer (utf8_coerce (sa_Current v)) (sa_CurrentEpoch v) (utf8_coerce (sa_Next v)))
    (ac_Authorizer a);
  ac_Allowlist := option_map (fun v => mkSpendAllowlist (utf8_coerce (sl_Target v)) (utf8_coerce (sl_CurrentCodeHash v))
    (utf8_coerce (sl_NextCodeHash v))) (ac_Allowlist a);
  ac_Caps := option_map (fun v => mkSpendCaps (decode_Caps (sc_Current v)) (decode_Caps (sc_Next v))) (ac_Caps a);
  ac_SpendPause := ac_SpendPause a;
  ac_Nonces := option_map (map utf8_coerce) (ac_Nonces a);
  ac_DirectoryApprove := option_map (fun v => mkDirectoryApprove (decode_Proposal (da_Proposal v)) (utf8_coerce (da_ProposerNonce v)))
    (ac_DirectoryApprove a);
  ac_DirectoryCancel := option_map (fun v => mkDirectoryCancel (dc_VersionID v) (utf8_coerce (dc_ProposalHash v))) (ac_DirectoryCancel a) |}.

(** ** Validation and hashing *)

(** [address]: canonical, lower case and not zero; [hash] the same of 32 bytes. *)
Definition gov_address (value : string) : bool := address_pattern value && negb (bool_decide (value = zero_address)).
Definition gov_hash (value : string) (zeroAllowed : bool) : bool :=
  hash_pattern value && (zeroAllowed || negb (bool_decide (value = zero_hash))).

(** [decimal] *)
Definition decimal (raw : string) : res Z :=
  check canonical_decimal raw else ErrInvalidPayload ;;
  match SetString10 raw with
  | None => Err ErrInvalidPayload
  | Some n => check fits256 n else ErrInvalidPayload ;; Ok n
  end.

Definition validCaps (perTransaction perDay allowanceCeiling : Z) : bool :=
  (0 <? perTransaction) && (0 <? perDay) && (perTransaction <=? perDay) && (0 <? allowanceCeiling).

Definition VHash (value : string) : abi_value := VBytes32 (hex_bytes value).
Definition VAddr (value : string) : abi_value := VAddress (hex_bytes value).

Section Payload.
Context `{Crypto} `{Abi}.

Definition selector (signature : string) : string := String.substring 0 4 (keccak256 signature).

Definition arguments (values : list abi_value) : string := keccak256 (abi_pack values).

(** The six words under the payload hash. *)
Definition payload_words (domain : string) (chainID : Z) (contractAddress workflowID functionSelector argumentsHash : string) : string :=
  keccak256 domain +:+ be_bytes 32 chainID +:+ address_word contractAddress +:+ hex_bytes workflowID +:+
  (functionSelector +:+ str_repeat (String "000"%char "") 28) +:+ argumentsHash.

Definition payload (domain : string) (chainID : Z) (contractAddress workflowID functionSelector argumentsHash : string) : res string :=
  check ((chainID =? 8453) || (chainID =? 84532)) && gov_address contractAddress && gov_hash workflowID false
    else ErrInvalidPayload ;;
  Ok (keccak256 (payload_words domain chainID contractAddress workflowID functionSelector argumentsHash)).

Definition bind (domain : string) (chainID : Z) (contractAddress workflowID signature : string) (values : list abi_value) : res string :=
  payload domain chainID contractAddress workflowID (selector signature) (arguments values).

Definition packCall (signature : string) (values : list abi_value) : string := selector signature +:+ abi_pack values.

(** *** One function per action *)

Definition sig_addVerifier : string := "addVerifier(address,uint64,bytes32,bytes32)".
Definition sig_revokeVerifier : string := "revokeVerifier(address,bytes32,bytes32)".
Definition sig_escrowPause : string := "setEmergencyPause(bytes32,bytes32)".
Definition sig_authorizer : string := "setSpendAuthorizer(address,bytes32,bytes32)".
Definition sig_allowlist : string := "setEscrowAllowlist(address,bytes32,bytes32,bytes32)".
Definition sig_caps : string := "scheduleCaps((uint256,uint256,uint256),bytes32,bytes32)".
Definition sig_spendPause : string := "setEmergencyPause(bool,bytes32,bytes32)".
Definition sig_nonces : string := "invalidateNonces(uint256[],bytes32,bytes32)".
Definition sig_approveVersion : string := "approveVersion(uint64,bytes32)".
Definition sig_cancelVersion : string := "cancelVersion(uint64,bytes32,bytes32,bytes32)".

(** A pending epoch comes with its activation time. *)
Definition epochs_paired (pendingEpoch pendingActivatesAt : Z) : bool := Bool.eqb (pendingEpoch =? 0) (pendingActivatesAt =? 0).

Definition CallEscrowAddVerifier (chainID : Z) (contract workflowID : string) (v : AddVerifierAction) : res string :=
  check gov_address (av_Key v) && negb (av_Revoked v) && negb (av_NextEpoch v =? 0) && (av_ActiveEpoch v <? av_NextEpoch v) &&
        epochs_paired (av_PendingEpoch v) (av_PendingActivatesAt v) &&
        ((av_PendingEpoch v =? 0) || (av_ActiveEpoch v <? av_PendingEpoch v) && (av_PendingEpoch v <? av_NextEpoch v))
    else ErrInvalidPayload ;;
  bind CallEscrowDomain chainID contract workflowID sig_addVerifier
    [VAddr (av_Key v); VUint 64 (av_ActiveEpoch v); VUint 64 (av_PendingEpoch v); VUint 64 (av_PendingActivatesAt v); VBool false;
     VUint 64 (av_NextEpoch v)].

Definition CallEscrowRevokeVerifier (chainID : Z) (contract workflowID : string) (v : RevokeVerifierAction) : res string :=
  check gov_address (rk_Key v) && negb (rk_Revoked v) && negb ((rk_ActiveEpoch v =? 0) && (rk_PendingEpoch v =? 0)) &&
        epochs_paired (rk_PendingEpoch v) (rk_PendingActivatesAt v) &&
        ((rk_PendingEpoch v =? 0) || (rk_ActiveEpoch v <? rk_PendingEpoch v))
    else ErrInvalidPayload ;;
  bind CallEscrowDomain chainID contract workflowID sig_revokeVerifier
    [VAddr (rk_Key v); VUint 64 (rk_ActiveEpoch v); VUint 64 (rk_PendingEpoch v); VUint 64 (rk_PendingActivatesAt v); VBool false;
     VBool true].

Definition CallEscrowPause (chainID : Z) (contract workflowID : string) : res string :=
  bind CallEscrowDomain chainID contract workflowID sig_escrowPause [VBool false; VBool true].

Definition SpendAuthorizer (chainID : Z) (contract workflowID : string) (v : SpendAuthorizerAction) : res string :=
  check gov_address (sa_Current v) && gov_address (sa_Next v) && negb (sa_CurrentEpoch v =? 0) else ErrInvalidPayload ;;
  bind SpendModuleDomain chainID contract workflowID sig_authorizer
    [VAddr (sa_Current v); VUint 64 (sa_CurrentEpoch v); VAddr (sa_Next v)].

Definition SpendAllowlist (chainID : Z) (contract workflowID : string) (v : SpendAllowlistAction) : res string :=
  check gov_address (sl_Target v) && gov_hash (sl_CurrentCodeHash v) true && gov_hash (sl_NextCodeHash v) true &&
        negb (bool_decide (sl_CurrentCodeHash v = sl_NextCodeHash v))
    else ErrInvalidPayload ;;
  bind SpendModuleDomain chainID contract workflowID sig_allowlist
    [VAddr (sl_Target v); VHash (sl_CurrentCodeHash v); VHash (sl_NextCodeHash v)].

(** [capsValues], and the loop of [SpendCaps] *)
Definition capsValues (c : Caps) : res (Z * Z * Z) :=
  try t := decimal (cp_PerTransaction c) in
  try d := decimal (cp_PerDay c) in
  try a := decimal (cp_AllowanceCeiling c) in
  Ok (t, d, a).

Definition SpendCaps (chainID : Z) (contract workflowID : string) (current next : Caps) : res string :=
  try c := capsValues current in
  try n := capsValues next in
  let '(ct, cd, ca) := c in
  let '(nt, nd, na) := n in
  check validCaps ct cd ca && validCaps nt nd na else ErrInvalidPayload ;;
  check negb ((ct =? nt) && (cd =? nd) && (ca =? na)) else ErrInvalidPayload ;;
  bind SpendModuleDomain chainID contract workflowID sig_caps
    [VUint 256 ct; VUint 256 cd; VUint 256 ca; VUint 256 nt; VUint 256 nd; VUint 256 na].

Definition SpendPause (chainID : Z) (contract workflowID : string) (v : SpendPauseAction) : res string :=
  check negb (Bool.eqb (sp_Current v) (sp_Next v)) else ErrInvalidPayload ;;
  bind SpendModuleDomain chainID contract workflowID sig_spendPause [VBool (sp_Current v); VBool (sp_Next v)].

Definition nonce_step (st : gset string * list Z) (nonce : string) : res (gset string * list Z) :=
  let '(seen, values) := st in
  try value := decimal nonce in
  check negb (value =? 0) else ErrInvalidPayload ;;
  check negb (bool_decide (nonce ∈ seen)) else ErrInvalidPayload ;;
  Ok ({[nonce]} ∪ seen, values ++ [value]).

Definition nonce_values (nonces : list string) : res (list Z) :=
  check negb (Nat.eqb (length nonces) 0) && Nat.leb (length nonces) MaxGovernanceNonceInvalidations else ErrInvalidPayload ;;
  try st := fold_res nonce_step (∅, []) nonces in Ok st.2.

Definition SpendInvalidateNonces (chainID : Z) (contract workflowID : string) (nonces : list string) : res string :=
  try values := nonce_values nonces in
  bind SpendModuleDomain chainID contract workflowID sig_nonces [VUints values].

Definition proposal_values (p : DirectoryProposal) : list abi_value :=
  [VUint 64 (dp_VersionID p); VUint 64 (dp_PreviousVersion p); VHash (dp_PreviousRoot p); VHash (dp_NewRoot p);
   VHash (dp_BlobContentHash p); VHash (dp_LocationsHash p); VUint 8 (dp_ChangeClass p); VUint 64 (dp_RequestedActivatesAt p)].

Definition DirectoryPublish (chainID : Z) (contract workflowID : string) (p : DirectoryProposal) : res string :=
  check negb (dp_VersionID p =? 0) && gov_hash (dp_PreviousRoot p) true && gov_hash (dp_NewRoot p) false &&
        gov_hash (dp_BlobContentHash p) false && gov_hash (dp_LocationsHash p) false &&
        ((dp_ChangeClass p =? 1) || (dp_ChangeClass p =? 2))
    else ErrInvalidPayload ;;
  bind ServiceDirectoryDomain chainID contract workflowID sig_approveVersion (proposal_values p).

Definition DirectoryProposalHash (chainID : Z) (contract workflowID : string) (p : DirectoryProposal) (proposerNonce : string) : res string :=
  try payloadHash := DirectoryPublish chainID contract workflowID p in
  try nonce := decimal proposerNonce in
  Ok (keccak256 (abi_pack ([VBytes32 (keccak256 DirectoryProposalDomain); VUint 256 chainID; VAddr contract] ++ proposal_values p ++
                           [VHash workflowID; VBytes32 payloadHash; VUint 256 nonce]))).

Definition DirectoryCancel (chainID : Z) (contract workflowID : string) (v : DirectoryCancelAction) : res string :=
  check negb (dc_VersionID v =? 0) && gov_hash (dc_ProposalHash v) false else ErrInvalidPayload ;;
  bind ServiceDirectoryDomain chainID contract workflowID sig_cancelVersion [VUint 64 (dc_VersionID v); VHash (dc_ProposalHash v)].

(** ** Binding *)

Definition count (b : bool) : nat := if b then 1 else 0.
Definition chosen {A} (o : option A) : nat := match o with Some _ => 1 | None => 0 end.

Definition selectedActions (a : Action) : nat :=
  chosen (ac_AddVerifier a) + chosen (ac_RevokeVerifier a) + count (ac_Pause a) + chosen (ac_Authorizer a) + chosen (ac_Allowlist a) +
  chosen (ac_Caps a) + chosen (ac_SpendPause a) + chosen (ac_Nonces a) + chosen (ac_DirectoryApprove a) + chosen (ac_DirectoryCancel a).

(** The workflow kind, the payload hash and the call of an action. *)
Definition required {A} (o : option A) : res A := match o with Some v => Ok v | None => Err ErrInvalidPayload end.

Definition bind_variant (workflowID : string) (a : Action) : res (string * string * string) :=
  let chain := ac_ChainID a in
  let contract := ac_ContractAddress a in
  let tail digest := [VHash workflowID; VBytes32 digest] in
  if bool_decide (ac_Type a = ActionCallEscrowAddVerifier) then
    try v := required (ac_AddVerifier a) in
    try digest := CallEscrowAddVerifier chain contract workflowID v in
    Ok ("VERIFIER_GOVERNANCE", digest, packCall sig_addVerifier ([VAddr (av_Key v); VUint 64 (av_NextEpoch v)] ++ tail digest))
  else if bool_decide (ac_Type a = ActionCallEscrowRevokeVerifier) then
    try v := required (ac_RevokeVerifier a) in
    try digest := CallEscrowRevokeVerifier chain contract workflowID v in
    Ok ("VERIFIER_GOVERNANCE", digest, packCall sig_revokeVerifier (VAddr (rk_Key v) :: tail digest))
  else if bool_decide (ac_Type a = ActionCallEscrowPause) then
    check ac_Pause a else ErrInvalidPayload ;;
    try digest := CallEscrowPause chain contract workflowID in
    Ok ("BREAK_GLASS", digest, packCall sig_escrowPause (tail digest))
  else if bool_decide (ac_Type a = ActionSpendAuthorizer) then
    try v := required (ac_Authorizer a) in
    try digest := SpendAuthorizer chain contract workflowID v in
    Ok ("MODULE_GOVERNANCE", digest, packCall sig_authorizer (VAddr (sa_Next v) :: tail digest))
  else if bool_decide (ac_Type a = ActionSpendAllowlist) then
    try v := required (ac_Allowlist a) in
    try digest := SpendAllowlist chain contract workflowID v in
    Ok ("MODULE_GOVERNANCE", digest, packCall sig_allowlist ([VAddr (sl_Target v); VHash (sl_NextCodeHash v)] ++ tail digest))
  else if bool_decide (ac_Type a = ActionSpendCaps) then
    try v := required (ac_Caps a) in
    try digest := SpendCaps chain contract workflowID (sc_Current v) (sc_Next v) in
    try n := capsValues (sc_Next v) in
    let '(nt, nd, na) := n in
    Ok ("SIGNER_CAPS", digest, packCall sig_caps ([VUint 256 nt; VUint 256 nd; VUint 256 na] ++ tail digest))
  else if bool_decide (ac_Type a = ActionSpendPause) then
    try v := required (ac_SpendPause a) in
    try digest := SpendPause chain contract workflowID v in
    Ok ("BREAK_GLASS", digest, packCall sig_spendPause (VBool (sp_Next v) :: tail digest))
  else if bool_decide (ac_Type a = ActionSpendInvalidateNonces) then
    try v := required (ac_Nonces a) in
    try digest := SpendInvalidateNonces chain contract workflowID v in
    try values := nonce_values v in
    Ok ("MODULE_GOVERNANCE", digest, packCall sig_nonces (VUints values :: tail digest))
  else if bool_decide (ac_Type a = ActionDirectoryApprove) then
    try v := required (ac_DirectoryApprove a) in
    try digest := DirectoryPublish chain contract workflowID (da_Proposal v) in
    try proposalHash := DirectoryProposalHash chain contract workflowID (da_Proposal v) (da_ProposerNonce v) in
    Ok ("PAYOUT_CHANGE", digest, packCall sig_approveVersion [VUint 64 (dp_VersionID (da_Proposal v)); VBytes32 proposalHash])
  else if bool_decide (ac_Type a = ActionDirectoryCancel) then
    try v := required (ac_DirectoryCancel a) in
    try digest := DirectoryCancel chain contract workflowID v in
    Ok ("DIRECTORY_CANCEL", digest, packCall sig_cancelVersion ([VUint 64 (dc_VersionID v); VHash (dc_ProposalHash v)] ++ tail digest))
  else Err ErrInvalidPayload.

Definition BindAction (workflowID : string) (a : Action) : res BoundAction :=
  check gov_address (ac_ContractAddress a) && ((ac_ChainID a =? 8453) || (ac_ChainID a =? 84532)) && Nat.eqb (selectedActions a) 1
    else ErrInvalidPayload ;;
  try b := bind_variant workflowID a in
  let '(kind, digest, call) := b in
  Ok {| bd_WorkflowKind := kind; bd_PayloadHash := "0x" +:+ hex_encode digest; bd_ChainID := ac_ChainID a;
        bd_ContractAddress := ac_ContractAddress a; bd_FunctionSelector := "0x" +:+ hex_encode (String.substring 0 4 call);
        bd_Calldata := "0x" +:+ hex_encode call; bd_CanonicalAction := a |}.

(** [RebindAction]: the stored text is the JSON of [raw]. [sameJSON] compares two
    decoded texts: the one that was stored and the one of its own decoding. *)
Definition RebindAction (workflowID : string) (raw : Action) : res BoundAction :=
  try bound := BindAction workflowID (decode_Action raw) in
  check bool_decide (json_Action (decode_Action raw) = json_Action (bd_CanonicalAction bound)) else ErrInvalidPayload ;;
  Ok bound.
End Payload.
