(* ===== verification/GovActionTheorems.v ===== *)
(** * A payload hash binds its action

    Two actions bound to the same payload hash are the same change of the same
    contract on the same chain under the same workflow, unless Keccak-256 collides. *)
From stdpp Require Import base gmap strings list fin_maps.
From Stdlib Require Import ZArith Lia Ascii.
From S2P Require Import Prelude GoText GoJSON Crypto Amounts Envelope GovAction.

Open Scope Z_scope.

(** ** Changes *)

(** What the selected variant of an action says. *)
Inductive change :=
| ChAddVerifier (v : AddVerifierAction)
| ChRevokeVerifier (v : RevokeVerifierAction)
| ChEscrowPause
| ChAuthorizer (v : SpendAuthorizerAction)
| ChAllowlist (v : SpendAllowlistAction)
| ChCaps (v : SpendCapsAction)
| ChSpendPause (v : SpendPauseAction)
| ChNonces (ns : list string)
| ChApprove (v : DirectoryApproveAction)
| ChCancel (v : DirectoryCancelAction).

Definition action_of (chainID : Z) (contract : string) (c : change) : Action :=
  let make ty av rk pause sa sl sc sp ns da dc := mkAction ty chainID contract av rk pause sa sl sc sp ns da dc in
  match c with
  | ChAddVerifier v => make ActionCallEscrowAddVerifier (Some v) None false None None None None None None None
  | ChRevokeVerifier v => make ActionCallEscrowRevokeVerifier None (Some v) false None None None None None None None
  | ChEscrowPause => make ActionCallEscrowPause None None true None None None None None None None
  | ChAuthorizer v => make ActionSpendAuthorizer None None false (Some v) None None None None None None
  | ChAllowlist v => make ActionSpendAllowlist None None false None (Some v) None None None None None
  | ChCaps v => make ActionSpendCaps None None false None None (Some v) None None None None
  | ChSpendPause v => make ActionSpendPause None None false None None None (Some v) None None None
  | ChNonces ns => make ActionSpendInvalidateNonces None None false None None None None (Some ns) None None
  | ChApprove v => make ActionDirectoryApprove None None false None None None None None (Some v) None
  | ChCancel v => make ActionDirectoryCancel None None false None None None None None None (Some v)
  end.

Definition decimal_value (raw : string) : Z := default 0 (SetString10 raw).
Definition caps_values (c : Caps) : list abi_value :=
  [VUint 256 (decimal_value (cp_PerTransaction c)); VUint 256 (decimal_value (cp_PerDay c));
   VUint 256 (decimal_value (cp_AllowanceCeiling c))].

Definition domain_of (c : change) : string :=
  match c with
  | ChAddVerifier _ | ChRevokeVerifier _ | ChEscrowPause => CallEscrowDomain
  | ChApprove _ | ChCancel _ => ServiceDirectoryDomain
  | _ => SpendModuleDomain
  end.

Definition signature_of (c : change) : string :=
  match c with
  | ChAddVerifier _ => sig_addVerifier | ChRevokeVerifier _ => sig_revokeVerifier | ChEscrowPause => sig_escrowPause
  | ChAuthorizer _ => sig_authorizer | ChAllowlist _ => sig_allowlist | ChCaps _ => sig_caps | ChSpendPause _ => sig_spendPause
  | ChNonces _ => sig_nonces | ChApprove _ => sig_approveVersion | ChCancel _ => sig_cancelVersion
  end.

(** The arguments under the payload hash. *)
Definition values_of (c : change) : list abi_value :=
  match c with
  | ChAddVerifier v => [VAddr (av_Key v); VUint 64 (av_ActiveEpoch v); VUint 64 (av_PendingEpoch v); VUint 64 (av_PendingActivatesAt v);
                        VBool false; VUint 64 (av_NextEpoch v)]
  | ChRevokeVerifier v => [VAddr (rk_Key v); VUint 64 (rk_ActiveEpoch v); VUint 64 (rk_PendingEpoch v);
                           VUint 64 (rk_PendingActivatesAt v); VBool false; VBool true]
  | ChEscrowPause => [VBool false; VBool true]
  | ChAuthorizer v => [VAddr (sa_Current v); VUint 64 (sa_CurrentEpoch v); VAddr (sa_Next v)]
  | ChAllowlist v => [VAddr (sl_Target v); VHash (sl_CurrentCodeHash v); VHash (sl_NextCodeHash v)]
  | ChCaps v => caps_values (sc_Current v) ++ caps_values (sc_Next v)
  | ChSpendPause v => [VBool (sp_Current v); VBool (sp_Next v)]
  | ChNonces ns => [VUints (map decimal_value ns)]
  | ChApprove v => proposal_values (da_Proposal v)
  | ChCancel v => [VUint 64 (dc_VersionID v); VHash (dc_ProposalHash v)]
  end.

(** The nonce of a directory proposal is bound by the calldata, not by the
    payload hash. *)
Definition without_nonce (c : change) : change :=
  match c with ChApprove v => ChApprove (mkDirectoryApprove (da_Proposal v) "") | _ => c end.

(** The integers fit their Go types. *)
Definition change_typed (c : change) : Prop :=
  match c with
  | ChAddVerifier v => Forall is_uint64 [av_ActiveEpoch v; av_PendingEpoch v; av_PendingActivatesAt v; av_NextEpoch v]
  | ChRevokeVerifier v => Forall is_uint64 [rk_ActiveEpoch v; rk_PendingEpoch v; rk_PendingActivatesAt v]
  | ChAuthorizer v => is_uint64 (sa_CurrentEpoch v)
  | ChApprove v => Forall is_uint64 [dp_VersionID (da_Proposal v); dp_PreviousVersion (da_Proposal v); dp_RequestedActivatesAt (da_Proposal v)]
  | ChCancel v => is_uint64 (dc_VersionID v)
  | _ => True
  end.
Definition action_typed (a : Action) : Prop := forall c, a = action_of (ac_ChainID a) (ac_ContractAddress a) c -> change_typed c.

(** The texts of a change that was validated. *)
Definition decimal_ok (raw : string) : Prop := is_ok (decimal raw) = true.
Definition change_ok (c : change) : Prop :=
  match c with
  | ChAddVerifier v => address_pattern (av_Key v) = true /\ av_Revoked v = false
  | ChRevokeVerifier v => address_pattern (rk_Key v) = true /\ rk_Revoked v = false
  | ChEscrowPause => True
  | ChAuthorizer v => address_pattern (sa_Current v) = true /\ address_pattern (sa_Next v) = true
  | ChAllowlist v => address_pattern (sl_Target v) = true /\ hash_pattern (sl_CurrentCodeHash v) = true /\ hash_pattern (sl_NextCodeHash v) = true
  | ChCaps v => Forall decimal_ok [cp_PerTransaction (sc_Current v); cp_PerDay (sc_Current v); cp_AllowanceCeiling (sc_Current v);
                                   cp_PerTransaction (sc_Next v); cp_PerDay (sc_Next v); cp_AllowanceCeiling (sc_Next v)]
  | ChSpendPause v => True
  | ChNonces ns => Forall decimal_ok ns
  | ChApprove v => Forall (fun h => hash_pattern h = true) [dp_PreviousRoot (da_Proposal v); dp_NewRoot (da_Proposal v);
                     dp_BlobContentHash (da_Proposal v); dp_LocationsHash (da_Proposal v)] /\
                   (dp_ChangeClass (da_Proposal v) = 1 \/ dp_ChangeClass (da_Proposal v) = 2)
  | ChCancel v => hash_pattern (dc_ProposalHash v) = true
  end.

(** ** Values determine changes *)

Lemma decimal_ok_inv raw : decimal_ok raw -> canonical_decimal raw = true /\ SetString10 raw = Some (decimal_value raw) /\
  0 <= decimal_value raw < 2 ^ 256.
Proof.
  unfold decimal_ok, decimal, decimal_value, fits256. intros Hd. destruct (canonical_decimal raw) eqn:Ec; [|done].
  destruct (SetString10 raw) as [n|] eqn:En; [|done]. destruct (proj1 (canonical_decimal_iff raw n) (conj Ec En)) as [Hn _].
  cbn [from_option id]. split; [done|]. split; [done|]. destruct (Z.ltb_spec (Z.abs n) (2 ^ 256)); [lia|done].
Qed.

Lemma decimal_ok_inj x y : decimal_ok x -> decimal_ok y -> decimal_value x = decimal_value y -> x = y.
Proof.
  intros (Cx & Sx & _)%decimal_ok_inv (Cy & Sy & _)%decimal_ok_inv E. rewrite E in Sx.
  destruct (proj1 (canonical_decimal_iff x _) (conj Cx Sx)) as [_ Ex]. destruct (proj1 (canonical_decimal_iff y _) (conj Cy Sy)) as [_ Ey].
  congruence.
Qed.

Lemma decimals_inj xs : forall ys, Forall decimal_ok xs -> Forall decimal_ok ys -> map decimal_value xs = map decimal_value ys -> xs = ys.
Proof.
  induction xs as [|x xs IH]; intros [|y ys] Hx Hy E; try done. inversion Hx; inversion Hy; subst. injection E as E1 E2.
  f_equal; [by apply decimal_ok_inj|by apply IH].
Qed.

Lemma VAddr_inj x y : address_pattern x = true -> address_pattern y = true -> VAddr x = VAddr y -> x = y.
Proof. intros Hx Hy [= E]. by apply (hex_bytes_inj 20). Qed.
Lemma VHash_inj x y : hash_pattern x = true -> hash_pattern y = true -> VHash x = VHash y -> x = y.
Proof. intros Hx Hy [= E]. by apply (hex_bytes_inj 32). Qed.
Lemma VAddr_fits x : address_pattern x = true -> abi_fits (VAddr x).
Proof. apply (hex_bytes_len 20). Qed.
Lemma VHash_fits x : hash_pattern x = true -> abi_fits (VHash x).
Proof. apply (hex_bytes_len 32). Qed.

(** Equal arguments of two changes: every field is read back from its word. *)
Ltac read_back :=
  repeat match goal with H : Forall _ (_ :: _) |- _ => apply Forall_cons_1 in H as [? H] | H : _ /\ _ |- _ => destruct H end;
  repeat match goal with
  | E : hex_bytes ?x = hex_bytes ?y, Hx : address_pattern ?x = true, Hy : address_pattern ?y = true |- _ => apply (hex_bytes_inj 20 x y Hx Hy) in E
  | E : hex_bytes ?x = hex_bytes ?y, Hx : hash_pattern ?x = true, Hy : hash_pattern ?y = true |- _ => apply (hex_bytes_inj 32 x y Hx Hy) in E
  | E : decimal_value ?x = decimal_value ?y, Hx : decimal_ok ?x, Hy : decimal_ok ?y |- _ => apply (decimal_ok_inj x y Hx Hy) in E
  end; congruence.

Lemma values_inj c d : change_ok c -> change_ok d -> signature_of c = signature_of d -> values_of c = values_of d ->
  without_nonce c = without_nonce d.
Proof.
  intros Hc Hd Hs Hv. destruct c, d; try discriminate Hs; clear Hs.
  - destruct v, v0. cbn in *. injection Hv. intros. read_back.
  - destruct v, v0. cbn in *. injection Hv. intros. read_back.
  - done.
  - destruct v, v0. cbn in *. injection Hv. intros. read_back.
  - destruct v, v0. cbn in *. injection Hv. intros. read_back.
  - destruct v as [[] []], v0 as [[] []]. cbn in *. injection Hv. intros. read_back.
  - destruct v, v0. cbn in *. injection Hv. intros. congruence.
  - cbn in *. injection Hv as Hv. f_equal. by apply decimals_inj.
  - destruct v as [[] n], v0 as [[] m]. cbn in *. injection Hv. intros. read_back.
  - destruct v, v0. cbn in *. injection Hv. intros. read_back.
Qed.

Lemma values_types c d : signature_of c = signature_of d -> map abi_type (values_of c) = map abi_type (values_of d).
Proof. intros Hs. destruct c, d; try discriminate Hs; done. Qed.

Lemma decimal_fits raw : decimal_ok raw -> abi_fits (VUint 256 (decimal_value raw)).
Proof. intros (_ & _ & ?)%decimal_ok_inv. cbn. lia. Qed.
Lemma decimals_fit ns : Forall decimal_ok ns -> abi_fits (VUints (map decimal_value ns)).
Proof. intros Hn. cbn. apply Forall_map. eapply Forall_impl; [exact Hn|]. by intros n (_ & _ & ?)%decimal_ok_inv. Qed.

Lemma values_fit c : change_ok c -> change_typed c -> Forall abi_fits (values_of c).
Proof.
  unfold is_uint64. intros Hc Ht. destruct c; cbn [change_ok change_typed values_of] in *.
  all: repeat match goal with H : Forall _ (_ :: _) |- _ => apply Forall_cons_1 in H as [? H] | H : _ /\ _ |- _ => destruct H end.
  all: repeat (apply Forall_cons_2 || apply Forall_nil_2 || apply Forall_app_2); try done.
  all: try (by apply VAddr_fits); try (by apply VHash_fits); try (unfold is_uint64, MaxUint64 in *; cbn; lia).
  all: by apply decimal_fits || by apply decimals_fit.
Qed.

(** ** What a bound action is *)

Section Binding.
Context `{CryptoLaws} `{Abi}.

Lemma chosen_none {A} (o : option A) : chosen o = 0%nat -> o = None.
Proof. by destruct o. Qed.
Lemma count_false b : count b = 0%nat -> b = false.
Proof. by destruct b. Qed.

Definition bound_to (workflowID : string) (a : Action) (digest : string) (c : change) : Prop :=
  a = action_of (ac_ChainID a) (ac_ContractAddress a) c /\ change_ok c /\
  bind (domain_of c) (ac_ChainID a) (ac_ContractAddress a) workflowID (signature_of c) (values_of c) = Ok digest.

(** One variant is selected: the others are absent. *)
Ltac only_variant := match goal with
  | Hone : selectedActions ?a = 1%nat |- _ =>
      destruct a; cbn in *; subst; unfold selectedActions in Hone; cbn in Hone; unfold action_of; f_equal;
      first [apply chosen_none; lia | apply count_false; lia]
  end.

Lemma required_ok {A} (o : option A) v : required o = Ok v -> o = Some v.
Proof. destruct o; [by intros [= ->]|done]. Qed.

Lemma decimal_is_ok raw n : decimal raw = Ok n -> decimal_ok raw /\ decimal_value raw = n.
Proof.
  intros E. unfold decimal_ok, decimal_value. rewrite E. split; [done|]. unfold decimal in E. rewrite check_ok_iff in E.
  destruct E as [_ E]. destruct (SetString10 raw); [|done]. rewrite check_ok_iff in E. by destruct E as [_ [= ->]].
Qed.

Lemma caps_ok c t d a : capsValues c = Ok (t, d, a) ->
  Forall decimal_ok [cp_PerTransaction c; cp_PerDay c; cp_AllowanceCeiling c] /\ caps_values c = [VUint 256 t; VUint 256 d; VUint 256 a].
Proof.
  unfold capsValues, caps_values. rewrite try_ok_iff. intros (x & [D1 E1]%decimal_is_ok & Hr). rewrite try_ok_iff in Hr.
  destruct Hr as (y & [D2 E2]%decimal_is_ok & Hr). rewrite try_ok_iff in Hr. destruct Hr as (z & [D3 E3]%decimal_is_ok & [= <- <- <-]).
  split; [repeat (apply Forall_cons_2; [done|]); apply Forall_nil_2|by rewrite E1, E2, E3].
Qed.

Lemma nonces_ok ns values : nonce_values ns = Ok values -> Forall decimal_ok ns /\ values = map decimal_value ns.
Proof.
  unfold nonce_values. rewrite check_ok_iff, try_ok_iff. intros (_ & [seen vs] & Hf & [= <-]). cbn.
  enough (forall l seen0 vs0, fold_res nonce_step (seen0, vs0) l = Ok (seen, vs) -> Forall decimal_ok l /\ vs = vs0 ++ map decimal_value l)
    as Hgen by (by destruct (Hgen _ _ _ Hf)).
  clear Hf. induction l as [|n l IH]; intros seen0 vs0.
  - intros [= -> ->]. split; [apply Forall_nil_2|by rewrite app_nil_r].
  - rewrite fold_res_cons, try_ok_iff. intros ([seen1 vs1] & Hs & Hl). unfold nonce_step in Hs. rewrite try_ok_iff in Hs.
    destruct Hs as (v & [Hv Ev]%decimal_is_ok & Hs). rewrite !check_ok_iff in Hs. destruct Hs as (_ & _ & [= <- <-]).
    apply IH in Hl as [Hl ->]. split; [by apply Forall_cons_2|]. cbn. by rewrite <-app_assoc, Ev.
Qed.

Lemma gov_address_pattern x : gov_address x = true -> address_pattern x = true.
Proof. unfold gov_address. to_prop. tauto. Qed.
Lemma gov_hash_pattern x z : gov_hash x z = true -> hash_pattern x = true.
Proof. unfold gov_hash. to_prop. tauto. Qed.
#[local] Hint Resolve gov_address_pattern gov_hash_pattern : core.

(** Each branch of [BindAction] binds its change. *)
Lemma bind_escrow workflowID a kind digest call : selectedActions a = 1%nat ->
  ac_Type a ∈ [ActionCallEscrowAddVerifier; ActionCallEscrowRevokeVerifier; ActionCallEscrowPause] ->
  bind_variant workflowID a = Ok (kind, digest, call) -> exists c, bound_to workflowID a digest c.
Proof.
  intros Hone Hty Hb. unfold bind_variant in Hb. rewrite !elem_of_cons, elem_of_nil in Hty.
  destruct Hty as [Et|[Et|[Et|[]]]]; rewrite Et in Hb; cbv zeta in Hb; cbn [bool_decide] in Hb;
    repeat (rewrite bool_decide_false in Hb by done); rewrite bool_decide_true in Hb by done.
  - rewrite try_ok_iff in Hb. destruct Hb as (v & Hv%required_ok & Hb). rewrite try_ok_iff in Hb. destruct Hb as (d & Hd & [= _ <- _]).
    unfold CallEscrowAddVerifier in Hd. rewrite check_ok_iff in Hd. destruct Hd as [Hc Hd]. to_prop. exists (ChAddVerifier v).
    split_and!; [only_variant|cbn; naive_solver|exact Hd].
  - rewrite try_ok_iff in Hb. destruct Hb as (v & Hv%required_ok & Hb). rewrite try_ok_iff in Hb. destruct Hb as (d & Hd & [= _ <- _]).
    unfold CallEscrowRevokeVerifier in Hd. rewrite check_ok_iff in Hd. destruct Hd as [Hc Hd]. to_prop. exists (ChRevokeVerifier v).
    split_and!; [only_variant|cbn; naive_solver|exact Hd].
  - rewrite check_ok_iff, try_ok_iff in Hb. destruct Hb as (Hv & d & Hd & [= _ <- _]). exists ChEscrowPause.
    split_and!; [only_variant|done|exact Hd].
Qed.

Ltac at_type Hb Et := unfold bind_variant in Hb; rewrite Et in Hb; cbv zeta in Hb;
  repeat (rewrite bool_decide_false in Hb by done); rewrite bool_decide_true in Hb by done.

Lemma bind_spend workflowID a kind digest call : selectedActions a = 1%nat ->
  ac_Type a ∈ [ActionSpendAuthorizer; ActionSpendAllowlist; ActionSpendPause; ActionSpendInvalidateNonces] ->
  bind_variant workflowID a = Ok (kind, digest, call) -> exists c, bound_to workflowID a digest c.
Proof.
  intros Hone Hty Hb. rewrite !elem_of_cons, elem_of_nil in Hty.
  destruct Hty as [Et|[Et|[Et|[Et|[]]]]]; at_type Hb Et; rewrite try_ok_iff in Hb; destruct Hb as (v & Hv%required_ok & Hb);
    rewrite try_ok_iff in Hb; destruct Hb as (d & Hd & Hb).
  - injection Hb as _ <- _. unfold SpendAuthorizer in Hd. rewrite check_ok_iff in Hd. destruct Hd as [Hc Hd]. to_prop. exists (ChAuthorizer v).
    split_and!; [only_variant|cbn; naive_solver|exact Hd].
  - injection Hb as _ <- _. unfold SpendAllowlist in Hd. rewrite check_ok_iff in Hd. destruct Hd as [Hc Hd]. to_prop. exists (ChAllowlist v).
    split_and!; [only_variant|cbn; naive_solver|exact Hd].
  - injection Hb as _ <- _. unfold SpendPause in Hd. rewrite check_ok_iff in Hd. destruct Hd as [_ Hd]. exists (ChSpendPause v).
    split_and!; [only_variant|done|exact Hd].
  - rewrite try_ok_iff in Hb. destruct Hb as (_ & _ & [= _ <- _]). unfold SpendInvalidateNonces in Hd. rewrite try_ok_iff in Hd.
    destruct Hd as (values & [Hn ->]%nonces_ok & Hd). exists (ChNonces v). split_and!; [only_variant|done|exact Hd].
Qed.

Lemma bind_caps workflowID a kind digest call : selectedActions a = 1%nat -> ac_Type a = ActionSpendCaps ->
  bind_variant workflowID a = Ok (kind, digest, call) -> exists c, bound_to workflowID a digest c.
Proof.
  intros Hone Et Hb. at_type Hb Et. rewrite try_ok_iff in Hb. destruct Hb as (v & Hv%required_ok & Hb).
  rewrite try_ok_iff in Hb. destruct Hb as (d & Hd & Hb). rewrite try_ok_iff in Hb. destruct Hb as ([[? ?] ?] & _ & [= _ <- _]).
  unfold SpendCaps in Hd. rewrite try_ok_iff in Hd. destruct Hd as ([[ct cd] ca] & [Hc Ec]%caps_ok & Hd).
  rewrite try_ok_iff in Hd. destruct Hd as ([[nt nd] na] & [Hn En]%caps_ok & Hd). rewrite !check_ok_iff in Hd. destruct Hd as (_ & _ & Hd).
  exists (ChCaps v). split_and!; [only_variant| |].
  - cbn. apply (Forall_app_2 _ [_; _; _] [_; _; _]); done.
  - cbn [values_of]. rewrite Ec, En. exact Hd.
Qed.

Lemma bind_directory workflowID a kind digest call : selectedActions a = 1%nat ->
  ac_Type a ∈ [ActionDirectoryApprove; ActionDirectoryCancel] ->
  bind_variant workflowID a = Ok (kind, digest, call) -> exists c, bound_to workflowID a digest c.
Proof.
  intros Hone Hty Hb. rewrite !elem_of_cons, elem_of_nil in Hty.
  destruct Hty as [Et|[Et|[]]]; at_type Hb Et; rewrite try_ok_iff in Hb; destruct Hb as (v & Hv%required_ok & Hb);
    rewrite try_ok_iff in Hb; destruct Hb as (d & Hd & Hb).
  - rewrite try_ok_iff in Hb. destruct Hb as (_ & _ & [= _ <- _]). unfold DirectoryPublish in Hd. rewrite check_ok_iff in Hd.
    destruct Hd as [Hc Hd]. to_prop. exists (ChApprove v). split_and!; [only_variant| |exact Hd]. cbn. split; [|tauto].
    repeat (apply Forall_cons_2; [naive_solver|]). apply Forall_nil_2.
  - injection Hb as _ <- _. unfold DirectoryCancel in Hd. rewrite check_ok_iff in Hd. destruct Hd as [Hc Hd]. to_prop. exists (ChCancel v).
    split_and!; [only_variant|cbn; naive_solver|exact Hd].
Qed.

Lemma BindAction_bound workflowID a b : BindAction workflowID a = Ok b ->
  exists digest c, bd_PayloadHash b = "0x" +:+ hex_encode digest /\ bound_to workflowID a digest c.
Proof.
  unfold BindAction. rewrite check_ok_iff, try_ok_iff. intros (Hg & [[kind digest] call] & Hb & [= <-]). to_prop. destruct Hg as [_ Hone].
  exists digest. cbn [bd_PayloadHash].
  enough (exists c, bound_to workflowID a digest c) as [c Hc] by (exists c; done).
  destruct (decide (ac_Type a ∈ [ActionCallEscrowAddVerifier; ActionCallEscrowRevokeVerifier; ActionCallEscrowPause])) as [T1|T1];
    [by eapply bind_escrow|].
  destruct (decide (ac_Type a ∈ [ActionSpendAuthorizer; ActionSpendAllowlist; ActionSpendPause; ActionSpendInvalidateNonces])) as [T2|T2];
    [by eapply bind_spend|].
  destruct (decide (ac_Type a = ActionSpendCaps)) as [T3|T3]; [by eapply bind_caps|].
  destruct (decide (ac_Type a ∈ [ActionDirectoryApprove; ActionDirectoryCancel])) as [T4|T4]; [by eapply bind_directory|].
  exfalso. unfold bind_variant in Hb. cbv zeta in Hb.
  rewrite !bool_decide_false in Hb by set_solver. discriminate Hb.
Qed.

(** ** The words under a payload hash *)

Lemma keccak_len m : String.length (keccak256 m) = 32%nat.
Proof. pose proof (keccak256_size m) as E. unfold str_len in E. lia. Qed.

Lemma substring_len n : forall s, (n <= String.length s)%nat -> String.length (String.substring 0 n s) = n.
Proof. induction n as [|n IH]; intros [|c s] Hl; cbn in *; try lia. rewrite IH; lia. Qed.

Lemma selector_len signature : String.length (selector signature) = 4%nat.
Proof. apply substring_len. rewrite keccak_len. lia. Qed.

Lemma payload_words_inj d1 c1 k1 w1 s1 h1 d2 c2 k2 w2 s2 h2 :
  0 <= c1 < 2 ^ 256 -> 0 <= c2 < 2 ^ 256 -> address_pattern k1 = true -> address_pattern k2 = true ->
  hash_pattern w1 = true -> hash_pattern w2 = true -> String.length s1 = 4%nat -> String.length s2 = 4%nat ->
  payload_words d1 c1 k1 w1 s1 h1 = payload_words d2 c2 k2 w2 s2 h2 ->
  keccak256 d1 = keccak256 d2 /\ c1 = c2 /\ k1 = k2 /\ w1 = w2 /\ s1 = s2 /\ h1 = h2.
Proof.
  intros Hc1 Hc2 Hk1 Hk2 Hw1 Hw2 Hs1 Hs2 E. unfold payload_words in E.
  apply str_app_inj in E as [Ed E]; [|by rewrite !keccak_len]. apply str_app_inj in E as [Ec E]; [|by rewrite !be_bytes_len].
  apply str_app_inj in E as [Ek E]; [|by rewrite !address_word_len]. apply str_app_inj in E as [Ew E]; [|by rewrite !(hex_bytes_len 32)].
  apply str_app_inj in E as [Es Eh]; [|rewrite !str_app_len; lia]. apply str_app_inj in Es as [Es _]; [|lia].
  apply be_bytes_inj in Ec; [|done|done]. apply address_word_inj in Ek; [|done|done]. apply (hex_bytes_inj 32) in Ew; [|done|done].
  by split_and!.
Qed.

Definition signatures : list string :=
  [sig_addVerifier; sig_revokeVerifier; sig_escrowPause; sig_authorizer; sig_allowlist; sig_caps; sig_spendPause; sig_nonces;
   sig_approveVersion; sig_cancelVersion].

Lemma signature_listed c : signature_of c ∈ signatures.
Proof. destruct c; unfold signatures; cbn; rewrite !elem_of_cons; tauto. Qed.

Lemma selector_inj c d : NoDup (map selector signatures) -> selector (signature_of c) = selector (signature_of d) -> signature_of c = signature_of d.
Proof.
  intros Hn E. destruct (proj1 (list_elem_of_lookup _ _) (signature_listed c)) as [i Hi].
  destruct (proj1 (list_elem_of_lookup _ _) (signature_listed d)) as [j Hj].
  assert (i = j) as <-; [|congruence]. eapply (NoDup_lookup _ _ _ (selector (signature_of c)) Hn); rewrite list_lookup_fmap; [by rewrite Hi|by rewrite Hj, E].
Qed.

Lemma bind_inputs domain chainID contract workflowID signature values digest :
  bind domain chainID contract workflowID signature values = Ok digest ->
  (chainID = 8453 \/ chainID = 84532) /\ address_pattern contract = true /\ hash_pattern workflowID = true /\
  digest = keccak256 (payload_words domain chainID contract workflowID (selector signature) (arguments values)).
Proof.
  unfold bind, payload. rewrite check_ok_iff. intros [Hc [= <-]]. to_prop. destruct Hc as [[Hc Ha] Hw].
  split_and!; [tauto|by apply gov_address_pattern|by eapply gov_hash_pattern|done].
Qed.

Context `{!AbiLaws}.

(** The two texts hashed for a change: the words of the payload and its arguments. *)
Definition payload_texts (workflowID : string) (a : Action) (c : change) : list string :=
  [payload_words (domain_of c) (ac_ChainID a) (ac_ContractAddress a) workflowID (selector (signature_of c)) (arguments (values_of c));
   abi_pack (values_of c)].

(** C40: a payload hash binds its workflow and its action. When two actions are bound
    to the same payload hash, the workflow, chain and contract are the same and the
    change, with every precondition it states, is the same up to the proposer nonce
    of a directory proposal, or a text hashed for the first action collides with one
    hashed for the second. The selectors of the ten governed functions are assumed
    to be different. *)
Theorem governance_payload_binds w1 a1 b1 w2 a2 b2 :
  NoDup (map selector signatures) -> action_typed a1 -> action_typed a2 ->
  BindAction w1 a1 = Ok b1 -> BindAction w2 a2 = Ok b2 -> bd_PayloadHash b1 = bd_PayloadHash b2 ->
  exists c1 c2, a1 = action_of (ac_ChainID a1) (ac_ContractAddress a1) c1 /\ a2 = action_of (ac_ChainID a2) (ac_ContractAddress a2) c2 /\
    (w1 = w2 /\ ac_ChainID a1 = ac_ChainID a2 /\ ac_ContractAddress a1 = ac_ContractAddress a2 /\ without_nonce c1 = without_nonce c2 \/
     collide_in (payload_texts w1 a1 c1) (payload_texts w2 a2 c2)).
Proof.
  intros Hsel T1 T2 (g1 & c1 & P1 & E1 & O1 & B1)%BindAction_bound (g2 & c2 & P2 & E2 & O2 & B2)%BindAction_bound Heq.
  rewrite P1, P2 in Heq. apply str_app_inv_head, (f_equal hex_decode) in Heq. rewrite !hex_decode_encode in Heq. injection Heq as <-.
  apply bind_inputs in B1 as (C1 & A1 & W1 & D1), B2 as (C2 & A2 & W2 & D2). rewrite D1 in D2.
  exists c1, c2. split; [done|]. split; [done|].
  apply (keccak_eq_in (payload_texts w1 a1 c1) (payload_texts w2 a2 c2)) in D2 as [D2|]; [|by right|unfold payload_texts; listed..].
  apply payload_words_inj in D2 as (Ed & Ec & Ek & Ew & Es & Ea); try done; try apply selector_len; try lia.
  apply (selector_inj _ _ Hsel) in Es. unfold arguments in Ea.
  apply (keccak_eq_in (payload_texts w1 a1 c1) (payload_texts w2 a2 c2)) in Ea as [Ea|]; [|by right|unfold payload_texts; listed..].
  apply abi_pack_inj in Ea; [|by apply values_types|by apply values_fit, T1|by apply values_fit, T2].
  left. split_and!; try done. by apply values_inj.
Qed.
End Binding.

(** ** A bound action *)

(** Every value at its full width, arrays with their length in front. *)
Definition flat_word (v : abi_value) : string :=
  match v with
  | VAddress b => b
  | VUint _ n => be_bytes 32 n
  | VBool b => if b then "1" else "0"
  | VBytes32 b => b
  | VUints ns => str_repeat "1" (length ns) +:+ ("0" +:+ str_concat (map (be_bytes 32) ns))
  end.
Definition ToyAbi : Abi := {| abi_pack vs := str_concat (map flat_word vs) |}.

Section Demo.
#[local] Existing Instance ToyCrypto.
#[local] Existing Instance ToyCryptoLaws.
#[local] Existing Instance ToyAbi.

Lemma words_inj ns : forall ms x y, length ns = length ms -> Forall (fun n => 0 <= n < 2 ^ 256) ns -> Forall (fun n => 0 <= n < 2 ^ 256) ms ->
  str_concat (map (be_bytes 32) ns) +:+ x = str_concat (map (be_bytes 32) ms) +:+ y -> ns = ms /\ x = y.
Proof.
  induction ns as [|n ns IH]; intros [|m ms] x y Hl Hn Hm E; try done. apply Forall_cons_1 in Hn as [Hn Hns], Hm as [Hm Hms].
  cbn [map str_concat] in E. rewrite !str_app_assoc in E. apply str_app_inj in E as [En E]; [|by rewrite !be_bytes_len].
  apply be_bytes_inj in En; [|done|done]. apply IH in E as [-> ->]; [by rewrite En| |done|done]. cbn in Hl. lia.
Qed.

Lemma unary_inj n : forall m x y, str_repeat "1" n +:+ ("0" +:+ x) = str_repeat "1" m +:+ ("0" +:+ y) -> n = m /\ "0" +:+ x = "0" +:+ y.
Proof.
  induction n as [|n IH]; intros [|m] x y E; cbn [str_repeat] in E; [done|discriminate E|discriminate E|].
  rewrite !str_app_assoc in E. injection E as E. apply IH in E as [-> ?]. done.
Qed.

Lemma flat_word_inj v w x y : abi_type v = abi_type w -> abi_fits v -> abi_fits w -> flat_word v +:+ x = flat_word w +:+ y -> v = w /\ x = y.
Proof.
  intros Ht Hv Hw E. destruct v as [b|bits n|b|b|ns], w as [b'|bits' n'|b'|b'|ns']; try discriminate Ht; cbn [flat_word abi_fits] in *.
  - apply str_app_inj in E as [-> ->]; [done|congruence].
  - injection Ht as <-. apply str_app_inj in E as [En ->]; [|by rewrite !be_bytes_len]. apply be_bytes_inj in En as ->; [done| |];
      (split; [lia|]); apply Z.lt_le_trans with (2 ^ bits); try lia; change (256 ^ Z.of_nat 32) with (2 ^ 256); apply Z.pow_le_mono_r; lia.
  - destruct b, b'; injection E as E; subst; done || discriminate.
  - apply str_app_inj in E as [-> ->]; [done|congruence].
  - rewrite !str_app_assoc in E. apply unary_inj in E as [El E]. injection E as E. by apply words_inj in E as [-> ->].
Qed.

Lemma ToyAbiLaws : AbiLaws.
Proof.
  split. induction vs as [|v vs IH]; intros [|w ws] Ht Hv Hw E; try done. apply Forall_cons_1 in Hv as [Hv Hvs], Hw as [Hw Hws].
  injection Ht as Ht Hts. cbn [abi_pack ToyAbi map str_concat] in E. apply flat_word_inj in E as [-> E]; [|done..].
  f_equal. by apply IH.
Qed.
#[local] Existing Instance ToyAbiLaws.

Definition demo_caps : Action := action_of 8453 demo_contract
  (ChCaps (mkSpendCaps (mkCaps "100" "1000" "5000") (mkCaps "200" "1000" "5000"))).
Definition demo_workflow : string := demo_hash "7".
Definition demo_bound : BoundAction :=
  match BindAction demo_workflow demo_caps with Ok b => b | Err _ => mkBoundAction "" "" 0 "" "" "" demo_caps end.

Lemma demo_caps_typed : action_typed demo_caps.
Proof. intros c E. destruct c; try discriminate E. done. Qed.

Lemma governance_payload_binds_witness :
  BindAction demo_workflow demo_caps = Ok demo_bound /\ bd_WorkflowKind demo_bound = "SIGNER_CAPS" /\
  exists c1 c2,
    demo_caps = action_of (ac_ChainID demo_caps) (ac_ContractAddress demo_caps) c1 /\
    demo_caps = action_of (ac_ChainID demo_caps) (ac_ContractAddress demo_caps) c2 /\
    (demo_workflow = demo_workflow /\ ac_ChainID demo_caps = ac_ChainID demo_caps /\ ac_ContractAddress demo_caps = ac_ContractAddress demo_caps /\
     without_nonce c1 = without_nonce c2 \/ collide_in (payload_texts demo_workflow demo_caps c1) (payload_texts demo_workflow demo_caps c2)).
Proof.
  assert (Hb : BindAction demo_workflow demo_caps = Ok demo_bound) by (vm_compute; reflexivity).
  assert (Hn : NoDup (map selector signatures)) by (apply (bool_decide_eq_true (NoDup (map selector signatures))); vm_compute; reflexivity).
  split; [exact Hb|]. split; [vm_compute; reflexivity|].
  exact (governance_payload_binds demo_workflow demo_caps demo_bound demo_workflow demo_caps demo_bound Hn demo_caps_typed demo_caps_typed
    Hb Hb eq_refl).
Defined.
End Demo.
