(* ===== verification/Workflow.v ===== *)
(** * Dual-control workflows ([internal/ascpworkflow]: [workflow.go], [memory.go],
    and [buildExecutionCommand] of [postgres.go])

    Proposals for privileged changes, approved by a second person, executed on
    chain by a relayer and completed by a finalized receipt. The store is an
    interface; the in-memory store implements it. *)
From stdpp Require Import base gmap strings list fin_maps sorting.
From Stdlib Require Import ZArith Lia Ascii.
From S2P Require Import Prelude GoText GoJSON Crypto Envelope GovAction.

Open Scope Z_scope.

(** ** Names *)

Definition ProposalTTL : duration := 24 * Hour.
Definition MaximumStepUpLife : duration := 5 * Minute.
Definition GovernanceWorkflowBoundTopic : string := "0x71840a8df3cf7e14c302ff72b4fd1c651a2845389dfb0a4fdd884a2ffb104bfe".
Definition GovernanceExecutionVersion : string := "ASCP_GOVERNANCE_EXECUTION_V1".

Definition ErrInvalidWorkflow : error := "proposal workflow is invalid".
Definition ErrForbiddenRole : error := "role cannot perform this workflow action".
Definition ErrStepUpRequired : error := "fresh workflow step-up is required".
Definition ErrSamePrincipal : error := "workflow approver must differ from proposer".
Definition ErrWorkflowNotFound : error := "proposal workflow was not found".
Definition ErrIdempotencyConflict : error := "workflow idempotency key names different input".
Definition ErrStateConflict : error := "proposal workflow state conflicts with the requested transition".
Definition ErrCompletionUnavailable : error := "workflow completion observer is unavailable".
Definition ErrGovernanceUnavailable : error := "governance action targets are unavailable".
Definition ErrInvalidReceipt : error := "workflow completion receipt is invalid".
Definition ErrReceiptOwned : error := "workflow completion receipt is already owned".

Abbreviation Kind := string (only parsing).
Definition PayoutChange : Kind := "PAYOUT_CHANGE".
Definition SignerCaps : Kind := "SIGNER_CAPS".
Definition VerifierGovernance : Kind := "VERIFIER_GOVERNANCE".
Definition ProductionGate : Kind := "PRODUCTION_GATE".
Definition BreakGlass : Kind := "BREAK_GLASS".
Definition RoleAdmin : Kind := "ROLE_ADMIN".
Definition ModuleGovernance : Kind := "MODULE_GOVERNANCE".
Definition KindDirectoryCancel : Kind := "DIRECTORY_CANCEL".

Abbreviation WState := string (only parsing).
Definition Proposed : WState := "PROPOSED".
Definition ApprovedPendingChain : WState := "APPROVED_PENDING_CHAIN".
Definition Submitted : WState := "SUBMITTED".
Definition Confirmed : WState := "CONFIRMED".
Definition Finalized : WState := "FINALIZED".
Definition Reverted : WState := "REVERTED".
Definition Reorged : WState := "REORGED".
Definition TimedOut : WState := "TIMED_OUT".
Definition RequiresReapproval : WState := "REQUIRES_REAPPROVAL".
Definition Cancelled : WState := "CANCELLED".
Definition Expired : WState := "EXPIRED".

Abbreviation TerminalReason := string (only parsing).
Definition ReceiptRejected : TerminalReason := "RECEIPT_REJECTED".
Definition MinedRevert : TerminalReason := "MINED_REVERT".
Definition ReorgDetected : TerminalReason := "REORG_DETECTED".
Definition SubmissionTimeout : TerminalReason := "SUBMISSION_TIMEOUT".
Definition SafeNonceConflict : TerminalReason := "SAFE_NONCE_CONFLICT".
Definition PreconditionChanged : TerminalReason := "PRECONDITION_CHANGED".

Abbreviation Role := string (only parsing).
Definition OrgAdmin : Role := "ORG_ADMIN".
Definition SellerAdmin : Role := "SELLER_ADMIN".
Definition SignerOperator : Role := "SIGNER_OPERATOR".
Definition IncidentResponder : Role := "INCIDENT_RESPONDER".

Abbreviation ChainAction := string (only parsing).

(** ** Records *)

Record Actor := mkActor {
  an_OrganizationID : string; an_PrincipalID : string; an_Role : Role; an_StepUpAt : time; an_StepUpUntil : time }.

Record AuthorityObservation := mkAuthorityObservation {
  ao_Provider : string; ao_ChainID : Z; ao_TransactionHash : string; ao_BlockNumber : Z; ao_BlockHash : string;
  ao_ContractAddress : string; ao_ContractCodeHash : string; ao_OnChainPrincipal : string; ao_Relayer : string;
  ao_FunctionSelector : string; ao_ActionEventSignature : string; ao_SecondaryActionEventSignature : string;
  ao_WorkflowEventSignature : string; ao_WorkflowID : string; ao_PayloadHash : string; ao_ActionLogIndex : Z;
  ao_SecondaryActionLogIndex : Z; ao_WorkflowLogIndex : Z; ao_ObservedTimelockSeconds : Z; ao_Finality : string }.

Record CompletionReceipt := mkCompletionReceipt {
  cr_WorkflowID : string; cr_PayloadHash : string; cr_ChainAction : ChainAction; cr_ChainID : Z; cr_TransactionHash : string;
  cr_BlockNumber : Z; cr_BlockHash : string; cr_BlockTimestamp : Z; cr_ConfirmedHead : Z; cr_FinalizedHead : Z; cr_LogIndex : Z;
  cr_ContractAddress : string; cr_EventSignature : string; cr_FunctionSelector : string; cr_ActionEventSignature : string;
  cr_ActionLogIndexes : list Z; cr_Observers : list string; cr_EvidenceDigest : string; cr_Finality : string;
  cr_AuthorityProof : list AuthorityObservation }.

Record SafeRetryProof := mkSafeRetryProof {
  rp_WorkflowID : string; rp_PreviousTransactionHash : string; rp_RetryTransactionHash : string; rp_Outcome : string;
  rp_PreviousCanonical : bool; rp_SafeAddress : string; rp_SafeNonce : Z; rp_SafeTxHash : string; rp_ExecCalldataHash : string;
  rp_VerifiedPayloadHash : string; rp_Observers : list string; rp_EvidenceDigest : string; rp_ObservedAt : Z }.

#[export] Instance SafeRetryProof_eq_dec : EqDecision SafeRetryProof.
Proof. solve_decision. Defined.

(** The fields of [Workflow], grouped by who writes them: the proposal, the
    approval, the cancellation, the submission, the completion and the failure. *)
Record Proposal := mkProposal {
  pr_WorkflowID : string; pr_OrganizationID : string; pr_Kind : Kind; pr_ChainAction : ChainAction; pr_PayloadHash : string;
  pr_ChainID : Z; pr_ContractAddress : string; pr_FunctionSelector : string; pr_Calldata : string;
  pr_GovernanceAction : option Action; pr_ProposedBy : string; pr_ProposerRole : Role; pr_ProposerStepUpAt : Z;
  pr_ProposerStepUpUntil : Z; pr_ProposedAt : Z; pr_ExpiresAt : Z }.
Record Approval := mkApproval {
  ap_ApprovedBy : string; ap_ApproverRole : Role; ap_ApproverStepUpAt : Z; ap_ApproverStepUpUntil : Z; ap_ApprovedAt : Z }.
Record Submission := mkSubmission { sb_TxHash : string; sb_SubmittedAt : Z; sb_ConfirmedAt : Z }.
Record Completion := mkCompletion { co_Receipt : option CompletionReceipt; co_Digest : string; co_FinalizedAt : Z }.
Record Failure := mkFailure { fl_Reason : TerminalReason; fl_At : Z }.

Record Workflow := mkWorkflow {
  w_Proposal : Proposal;
  w_State : WState;
  w_Approval : Approval;
  w_CancelledBy : string;
  w_CancelledAt : Z;
  w_ExpiredAt : Z;
  w_Submission : Submission;
  w_Completion : Completion;
  w_Failure : Failure;
}.

Definition no_approval : Approval := mkApproval "" "" 0 0 0.
Definition no_submission : Submission := mkSubmission "" 0 0.
Definition no_completion : Completion := mkCompletion None "" 0.
Definition no_failure : Failure := mkFailure "" 0.

Definition set_wstate (state : WState) (w : Workflow) : Workflow :=
  mkWorkflow (w_Proposal w) state (w_Approval w) (w_CancelledBy w) (w_CancelledAt w) (w_ExpiredAt w) (w_Submission w) (w_Completion w) (w_Failure w).
Definition set_approval (a : Approval) (w : Workflow) : Workflow :=
  mkWorkflow (w_Proposal w) (w_State w) a (w_CancelledBy w) (w_CancelledAt w) (w_ExpiredAt w) (w_Submission w) (w_Completion w) (w_Failure w).
Definition set_ended (cancelledBy : string) (cancelledAt expiredAt : Z) (w : Workflow) : Workflow :=
  mkWorkflow (w_Proposal w) (w_State w) (w_Approval w) cancelledBy cancelledAt expiredAt (w_Submission w) (w_Completion w) (w_Failure w).
Definition set_chain_progress (s : Submission) (c : Completion) (f : Failure) (w : Workflow) : Workflow :=
  mkWorkflow (w_Proposal w) (w_State w) (w_Approval w) (w_CancelledBy w) (w_CancelledAt w) (w_ExpiredAt w) s c f.

Definition w_Org (w : Workflow) : string := pr_OrganizationID (w_Proposal w).

(** ** Roles and formats *)

Definition canPropose (kind : Kind) (role : Role) : bool :=
  if bool_decide (kind ∈ [PayoutChange; KindDirectoryCancel]) then bool_decide (role = SellerAdmin)
  else if bool_decide (kind ∈ [SignerCaps; VerifierGovernance; ModuleGovernance]) then bool_decide (role = SignerOperator)
  else if bool_decide (kind ∈ [ProductionGate; BreakGlass; RoleAdmin]) then bool_decide (role = OrgAdmin)
  else false.

Definition canApprove (kind : Kind) (role : Role) : bool :=
  if bool_decide (kind = PayoutChange) then bool_decide (role = SellerAdmin) || bool_decide (role = OrgAdmin)
  else if bool_decide (kind ∈ [SignerCaps; VerifierGovernance; ProductionGate; RoleAdmin; ModuleGovernance; KindDirectoryCancel])
  then bool_decide (role = OrgAdmin)
  else if bool_decide (kind = BreakGlass) then bool_decide (role = IncidentResponder)
  else false.

Definition canCancel (w : Workflow) (actor : Actor) : bool :=
  bool_decide (an_PrincipalID actor = pr_ProposedBy (w_Proposal w)) || bool_decide (an_Role actor = OrgAdmin) ||
  canApprove (pr_Kind (w_Proposal w)) (an_Role actor).

Definition requiresChainReceipt (kind : Kind) : bool :=
  negb (bool_decide (kind = ProductionGate)) && negb (bool_decide (kind = RoleAdmin)).

Definition validRole (role : Role) : bool := bool_decide (role ∈ [OrgAdmin; SellerAdmin; SignerOperator; IncidentResponder]).

Definition w_identifier (value : string) : bool := ValidIdentifier value && (str_len value <=? 128).
Definition w_hash (value : string) : bool := gov_hash value false.
Definition w_selector (value : string) : bool := hex_pattern 8 value && negb (bool_decide (value = "0x00000000")).

(** [strings.HasPrefix] *)
Fixpoint has_prefix (p s : string) : bool :=
  match p, s with
  | EmptyString, _ => true
  | String a p, String b s => (code a =? code b) && has_prefix p s
  | String _ _, EmptyString => false
  end.

Definition governanceCalldata (value functionSelector : string) : bool :=
  (10 <? str_len value) && (str_len value <=? 131082) && Z.even (str_len value) && has_prefix functionSelector value &&
  match value with
  | String _ (String _ r) => str_all is_lower_hex r
  | _ => false
  end.

Definition validChainFailure (state : WState) (reason : TerminalReason) : bool :=
  if bool_decide (state = Reverted) then bool_decide (reason = MinedRevert)
  else if bool_decide (state = Reorged) then bool_decide (reason = ReorgDetected)
  else if bool_decide (state = TimedOut) then bool_decide (reason = SubmissionTimeout)
  else if bool_decide (state = RequiresReapproval) then bool_decide (reason ∈ [ReceiptRejected; SafeNonceConflict; PreconditionChanged])
  else false.

(** Identifiers without repetition. *)
Definition distinct_identifiers (l : list string) : bool := forallb w_identifier l && bool_decide (NoDup l).

Definition validSafeRetryProof (workflowID transactionHash : string) (p : SafeRetryProof) (now : time) : bool :=
  bool_decide (rp_WorkflowID p = workflowID) && bool_decide (rp_RetryTransactionHash p = transactionHash) &&
  w_hash (rp_PreviousTransactionHash p) && w_hash (rp_RetryTransactionHash p) && negb (rp_PreviousCanonical p) &&
  (bool_decide (rp_Outcome p = "DROPPED") || bool_decide (rp_Outcome p = "REORGED")) && gov_address (rp_SafeAddress p) &&
  w_hash (rp_SafeTxHash p) && w_hash (rp_ExecCalldataHash p) && w_hash (rp_VerifiedPayloadHash p) && w_hash (rp_EvidenceDigest p) &&
  (0 <? rp_ObservedAt p) && negb (time_after (time_of_unix (rp_ObservedAt p)) (time_add now Minute)) &&
  (time_sub now (time_of_unix (rp_ObservedAt p)) <=? Minute) &&
  Nat.leb 2 (length (rp_Observers p)) && Nat.leb (length (rp_Observers p)) 5 && distinct_identifiers (rp_Observers p).

Definition validateActor (actor : Actor) (now : time) (requireStepUp : bool) : res unit :=
  check w_identifier (an_OrganizationID actor) && w_identifier (an_PrincipalID actor) && validRole (an_Role actor)
    else ErrInvalidWorkflow ;;
  check negb (requireStepUp &&
      (time_IsZero (an_StepUpAt actor) || time_after (an_StepUpAt actor) now || (MaximumStepUpLife <? time_sub now (an_StepUpAt actor)) ||
       time_IsZero (an_StepUpUntil actor) || negb (time_after (an_StepUpUntil actor) now)))
    else ErrStepUpRequired ;;
  Ok tt.

Definition validReceipt (r : CompletionReceipt) : bool :=
  w_hash (cr_WorkflowID r) && w_hash (cr_PayloadHash r) && ((cr_ChainID r =? 8453) || (cr_ChainID r =? 84532)) &&
  w_hash (cr_TransactionHash r) && w_hash (cr_BlockHash r) && negb (cr_BlockNumber r =? 0) && gov_address (cr_ContractAddress r) &&
  negb (cr_BlockTimestamp r =? 0) && bool_decide (cr_EventSignature r = GovernanceWorkflowBoundTopic) &&
  bool_decide (cr_Finality r = "FINALIZED") && (cr_BlockNumber r <=? cr_ConfirmedHead r) && (cr_BlockNumber r <=? cr_FinalizedHead r) &&
  w_selector (cr_FunctionSelector r) && w_hash (cr_ActionEventSignature r) && w_hash (cr_EvidenceDigest r) &&
  negb (Nat.eqb (length (cr_ActionLogIndexes r)) 0) && Nat.leb (length (cr_ActionLogIndexes r)) 100 &&
  Nat.leb 2 (length (cr_Observers r)) && Nat.leb (length (cr_Observers r)) 5 &&
  forallb (fun i => i <? cr_LogIndex r) (cr_ActionLogIndexes r) && bool_decide (NoDup (cr_ActionLogIndexes r)) &&
  distinct_identifiers (cr_Observers r).

(** ** States on chain *)

Definition activeChainState (s : WState) : bool := bool_decide (s ∈ [ApprovedPendingChain; Submitted; Confirmed]).
Definition chainSideState (s : WState) : bool := bool_decide (s ∈ [Reverted; Reorged; TimedOut; RequiresReapproval]).
Definition completionCandidateState (s : WState) : bool := activeChainState s || chainSideState s.
Definition completionCandidate (w : Workflow) : bool :=
  activeChainState (w_State w) || chainSideState (w_State w) && negb (bool_decide (sb_TxHash (w_Submission w) = "")).

Definition validFailureTransition (from to : WState) : bool :=
  if bool_decide (from = ApprovedPendingChain) then bool_decide (to ∈ [TimedOut; RequiresReapproval])
  else if bool_decide (from = Submitted) then bool_decide (to ∈ [Reverted; Reorged; TimedOut; RequiresReapproval])
  else if bool_decide (from = Confirmed) then bool_decide (to ∈ [Reorged; RequiresReapproval])
  else if bool_decide (from ∈ [Reverted; Reorged; TimedOut]) then bool_decide (to = RequiresReapproval)
  else false.

(** ** The interface of a store *)

(** The context of a call: cancelled with an error, or not. *)
Abbreviation ctx := (option error) (only parsing).

(** A store answers with the workflow and whether nothing was written. *)
Class WorkflowStore (S : Type) := {
  ws_ReplayCreate : S -> ctx -> Actor -> string -> string -> res (option Workflow);
  ws_Create : S -> ctx -> Workflow -> string -> string -> S * res (Workflow * bool);
  ws_Get : S -> ctx -> string -> string -> res Workflow;
  ws_Approve : S -> ctx -> Actor -> string -> string -> string -> time -> S * res (Workflow * bool);
  ws_Cancel : S -> ctx -> Actor -> string -> string -> string -> time -> S * res (Workflow * bool);
  ws_Expire : S -> ctx -> string -> string -> time -> S * res (Workflow * bool);
  ws_Submit : S -> ctx -> string -> string -> string -> time -> S * res (Workflow * bool);
  ws_RetrySubmission : S -> ctx -> string -> string -> string -> SafeRetryProof -> time -> S * res (Workflow * bool);
  ws_Confirm : S -> ctx -> string -> string -> string -> time -> S * res (Workflow * bool);
  ws_Complete : S -> ctx -> string -> string -> CompletionReceipt -> string -> time -> S * res (Workflow * bool);
  ws_FailChain : S -> ctx -> string -> string -> WState -> TerminalReason -> time -> S * res (Workflow * bool);
}.

(** ** The store in memory *)

Record MemoryStore := mkMemoryStore {
  ms_workflows : gmap string Workflow;
  ms_actions : gmap string (string * string);
  ms_receipts : gmap string (string * string);
  ms_retryProofs : gmap string (list SafeRetryProof);
}.

Definition NewMemoryStore : MemoryStore := mkMemoryStore ∅ ∅ ∅ ∅.

Definition nul : string := String "000"%char "".
Definition actionScope (org actor action key : string) : string := org +:+ nul +:+ actor +:+ nul +:+ action +:+ nul +:+ key.

Definition put_workflow (s : MemoryStore) (id : string) (w : Workflow) : MemoryStore :=
  mkMemoryStore (<[id := w]> (ms_workflows s)) (ms_actions s) (ms_receipts s) (ms_retryProofs s).
Definition put_action (s : MemoryStore) (scope hash id : string) : MemoryStore :=
  mkMemoryStore (ms_workflows s) (<[scope := (hash, id)]> (ms_actions s)) (ms_receipts s) (ms_retryProofs s).

(** [s.workflows[action.workflowID]]: an absent key reads as the zero workflow. *)
Definition zero_workflow : Workflow :=
  mkWorkflow (mkProposal "" "" "" "" "" 0 "" "" "" None "" "" 0 0 0 0) "" no_approval "" 0 0 no_submission no_completion no_failure.

Definition replay_action (s : MemoryStore) (scope inputHash : string) : option (res Workflow) :=
  match ms_actions s !! scope with
  | None => None
  | Some (hash, id) =>
      Some (if bool_decide (hash = inputHash) then Ok (default zero_workflow (ms_workflows s !! id)) else Err ErrIdempotencyConflict)
  end.

Definition mem_ReplayCreate (s : MemoryStore) (c : ctx) (actor : Actor) (key inputHash : string) : res (option Workflow) :=
  match c with
  | Some m => Err m
  | None =>
      match replay_action s (actionScope (an_OrganizationID actor) (an_PrincipalID actor) "CREATE" key) inputHash with
      | None => Ok None
      | Some (Ok w) => Ok (Some w)
      | Some (Err m) => Err m
      end
  end.

Definition mem_Create (s : MemoryStore) (c : ctx) (w : Workflow) (key inputHash : string) : MemoryStore * res (Workflow * bool) :=
  let p := w_Proposal w in
  match c with
  | Some m => (s, Err m)
  | None =>
      let scope := actionScope (pr_OrganizationID p) (pr_ProposedBy p) "CREATE" key in
      match replay_action s scope inputHash with
      | Some (Ok w) => (s, Ok (w, true))
      | Some (Err m) => (s, Err m)
      | None =>
          match ms_workflows s !! pr_WorkflowID p with
          | Some _ => (s, Err ErrStateConflict)
          | None => (put_action (put_workflow s (pr_WorkflowID p) w) scope inputHash (pr_WorkflowID p), Ok (w, false))
          end
      end
  end.

(** The workflow of the organization. *)
Definition mem_find (s : MemoryStore) (c : ctx) (organizationID workflowID : string) : res Workflow :=
  match c with
  | Some m => Err m
  | None =>
      match ms_workflows s !! workflowID with
      | Some w => check bool_decide (w_Org w = organizationID) else ErrWorkflowNotFound ;; Ok w
      | None => Err ErrWorkflowNotFound
      end
  end.

Definition expired (w : Workflow) (now : time) : bool :=
  bool_decide (w_State w = Proposed) && negb (time_before now (time_of_unix (pr_ExpiresAt (w_Proposal w)))).
Definition expire_workflow (now : time) (w : Workflow) : Workflow :=
  set_wstate Expired (set_ended (w_CancelledBy w) (w_CancelledAt w) (Unix now) w).

(** The proposal approved: chain-backed kinds wait for the chain. *)
Definition approve_workflow (actor : Actor) (now : time) (w : Workflow) : Workflow :=
  let w := set_approval (mkApproval (an_PrincipalID actor) (an_Role actor) (Unix (an_StepUpAt actor)) (Unix (an_StepUpUntil actor)) (Unix now)) w in
  if requiresChainReceipt (pr_Kind (w_Proposal w)) then set_wstate ApprovedPendingChain w
  else set_wstate Finalized
         (set_chain_progress (w_Submission w) (mkCompletion (co_Receipt (w_Completion w)) (co_Digest (w_Completion w)) (Unix now))
            (w_Failure w) w).
Definition cancel_workflow (actor : Actor) (now : time) (w : Workflow) : Workflow :=
  set_wstate Cancelled (set_ended (an_PrincipalID actor) (Unix now) (w_ExpiredAt w) w).

(** [transition]; [approve] or cancel. *)
Definition mem_transition (s : MemoryStore) (c : ctx) (actor : Actor) (workflowID : string) (approve : bool) (key inputHash : string)
    (now : time) : MemoryStore * res (Workflow * bool) :=
  match c with
  | Some m => (s, Err m)
  | None =>
  let scope := actionScope (an_OrganizationID actor) (an_PrincipalID actor) (if approve then "APPROVE" else "CANCEL") key in
  match replay_action s scope inputHash with
  | Some (Ok w) => (s, Ok (w, true))
  | Some (Err m) => (s, Err m)
  | None =>
  match mem_find s None (an_OrganizationID actor) workflowID with
  | Err m => (s, Err m)
  | Ok w =>
  if approve && bool_decide (an_PrincipalID actor = pr_ProposedBy (w_Proposal w)) then (s, Err ErrSamePrincipal) else
  if approve && negb (canApprove (pr_Kind (w_Proposal w)) (an_Role actor)) then (s, Err ErrForbiddenRole) else
  if negb approve && negb (canCancel w actor) then (s, Err ErrForbiddenRole) else
  let w' := if expired w now then expire_workflow now w
            else if bool_decide (w_State w = Proposed) then (if approve then approve_workflow actor now w else cancel_workflow actor now w)
            else w in
  let mutated := bool_decide (w_State w = Proposed) in
  (put_action (if mutated then put_workflow s workflowID w' else s) scope inputHash workflowID, Ok (w', negb mutated))
  end end end.

Definition mem_Expire (s : MemoryStore) (c : ctx) (organizationID workflowID : string) (now : time) : MemoryStore * res (Workflow * bool) :=
  match mem_find s c organizationID workflowID with
  | Err m => (s, Err m)
  | Ok w =>
      if expired w now then let w := expire_workflow now w in (put_workflow s workflowID w, Ok (w, true))
      else (s, Ok (w, false))
  end.

(** A new attempt is on its way; what an earlier one left is cleared. *)
Definition submit_workflow (transactionHash : string) (now : time) (w : Workflow) : Workflow :=
  set_wstate Submitted (set_chain_progress (mkSubmission transactionHash (Unix now) 0) (w_Completion w) no_failure w).

Definition mem_Submit (s : MemoryStore) (c : ctx) (organizationID workflowID transactionHash : string) (now : time)
    : MemoryStore * res (Workflow * bool) :=
  match mem_find s c organizationID workflowID with
  | Err m => (s, Err m)
  | Ok w =>
      if bool_decide (w_State w = Submitted) && bool_decide (sb_TxHash (w_Submission w) = transactionHash) then (s, Ok (w, true)) else
      if negb (bool_decide (w_State w = ApprovedPendingChain)) then (s, Err ErrStateConflict) else
      if Unix now <? ap_ApprovedAt (w_Approval w) then (s, Err ErrStateConflict) else
      let w := submit_workflow transactionHash now w in
      (put_workflow s workflowID w, Ok (w, false))
  end.

Definition retry_proofs (s : MemoryStore) (workflowID : string) : list SafeRetryProof := default [] (ms_retryProofs s !! workflowID).

Definition mem_RetrySubmission (s : MemoryStore) (c : ctx) (organizationID workflowID transactionHash : string) (p : SafeRetryProof)
    (now : time) : MemoryStore * res (Workflow * bool) :=
  match mem_find s c organizationID workflowID with
  | Err m => (s, Err m)
  | Ok w =>
      if bool_decide (w_State w = Submitted) && bool_decide (sb_TxHash (w_Submission w) = transactionHash) then
        (s, if existsb (fun q => bool_decide (rp_RetryTransactionHash q = transactionHash) && bool_decide (q = p)) (retry_proofs s workflowID)
            then Ok (w, true) else Err ErrStateConflict)
      else if negb (bool_decide (w_State w ∈ [TimedOut; Reorged]) &&
                    bool_decide (rp_PreviousTransactionHash p = sb_TxHash (w_Submission w)) &&
                    bool_decide (rp_VerifiedPayloadHash p = pr_PayloadHash (w_Proposal w)) &&
                    validSafeRetryProof workflowID transactionHash p now)
      then (s, Err ErrStateConflict)
      else let w := submit_workflow transactionHash now w in
           (mkMemoryStore (<[workflowID := w]> (ms_workflows s)) (ms_actions s) (ms_receipts s)
              (<[workflowID := retry_proofs s workflowID ++ [p]]> (ms_retryProofs s)), Ok (w, false))
  end.

Definition confirm_workflow (now : time) (w : Workflow) : Workflow :=
  set_wstate Confirmed
    (set_chain_progress (mkSubmission (sb_TxHash (w_Submission w)) (sb_SubmittedAt (w_Submission w)) (Unix now)) (w_Completion w) (w_Failure w) w).

Definition mem_Confirm (s : MemoryStore) (c : ctx) (organizationID workflowID transactionHash : string) (now : time)
    : MemoryStore * res (Workflow * bool) :=
  match mem_find s c organizationID workflowID with
  | Err m => (s, Err m)
  | Ok w =>
      if bool_decide (w_State w = Confirmed) && bool_decide (sb_TxHash (w_Submission w) = transactionHash) then (s, Ok (w, true)) else
      if negb (bool_decide (w_State w = Submitted) && bool_decide (sb_TxHash (w_Submission w) = transactionHash))
      then (s, Err ErrStateConflict) else
      if Unix now <? sb_SubmittedAt (w_Submission w) then (s, Err ErrStateConflict) else
      let w := confirm_workflow now w in
      (put_workflow s workflowID w, Ok (w, false))
  end.

(** A transaction the workflow may be completed by: its current attempt, or one of
    the attempts its retry proofs name. *)
Definition authorizedReceiptAttempt (s : MemoryStore) (w : Workflow) (transactionHash : string) : bool :=
  let current := sb_TxHash (w_Submission w) in
  if bool_decide (current = "") then bool_decide (w_State w = ApprovedPendingChain)
  else bool_decide (current = transactionHash) ||
       existsb (fun p => bool_decide (rp_PreviousTransactionHash p = transactionHash) || bool_decide (rp_RetryTransactionHash p = transactionHash))
         (retry_proofs s (pr_WorkflowID (w_Proposal w))).

Definition before_progress (w : Workflow) (now : time) : bool :=
  (Unix now <? ap_ApprovedAt (w_Approval w)) || (Unix now <? sb_SubmittedAt (w_Submission w)) || (Unix now <? sb_ConfirmedAt (w_Submission w)).

Definition receiptKey (r : CompletionReceipt) : string :=
  dec_string (cr_ChainID r) +:+ nul +:+ cr_TransactionHash r +:+ nul +:+ dec_string (cr_LogIndex r).

(** The receipt decides which attempt won. *)
Definition complete_workflow (r : CompletionReceipt) (digest : string) (now : time) (w : Workflow) : Workflow :=
  let sub := w_Submission w in
  let restart := bool_decide (w_State w = ApprovedPendingChain) || chainSideState (w_State w) in
  let submittedAt := if restart then Unix now else sb_SubmittedAt sub in
  let confirmedAt := if restart || bool_decide (w_State w = Submitted) then Unix now else sb_ConfirmedAt sub in
  set_wstate Finalized
    (set_chain_progress (mkSubmission (cr_TransactionHash r) submittedAt confirmedAt) (mkCompletion (Some r) digest (Unix now))
       (if restart then no_failure else w_Failure w) w).

Definition mem_Complete (s : MemoryStore) (c : ctx) (organizationID workflowID : string) (r : CompletionReceipt) (digest : string)
    (now : time) : MemoryStore * res (Workflow * bool) :=
  match mem_find s c organizationID workflowID with
  | Err m => (s, Err m)
  | Ok w =>
      if bool_decide (w_State w = Finalized) && bool_decide (co_Digest (w_Completion w) = digest) then (s, Ok (w, true)) else
      if negb (completionCandidateState (w_State w) && bool_decide (pr_PayloadHash (w_Proposal w) = cr_PayloadHash r) &&
               authorizedReceiptAttempt s w (cr_TransactionHash r))
      then (s, Err ErrStateConflict) else
      if before_progress w now then (s, Err ErrStateConflict) else
      match ms_receipts s !! receiptKey r with
      | Some (owner, d) =>
          if negb (bool_decide (owner = workflowID)) then (s, Err ErrReceiptOwned) else
          if negb (bool_decide (d = digest)) then (s, Err ErrStateConflict) else
          let w := complete_workflow r digest now w in
          (mkMemoryStore (<[workflowID := w]> (ms_workflows s)) (ms_actions s) (<[receiptKey r := (workflowID, digest)]> (ms_receipts s))
             (ms_retryProofs s), Ok (w, false))
      | None =>
          let w := complete_workflow r digest now w in
          (mkMemoryStore (<[workflowID := w]> (ms_workflows s)) (ms_actions s) (<[receiptKey r := (workflowID, digest)]> (ms_receipts s))
             (ms_retryProofs s), Ok (w, false))
      end
  end.

Definition mem_FailChain (s : MemoryStore) (c : ctx) (organizationID workflowID : string) (state : WState) (reason : TerminalReason)
    (now : time) : MemoryStore * res (Workflow * bool) :=
  match mem_find s c organizationID workflowID with
  | Err m => (s, Err m)
  | Ok w =>
      if bool_decide (w_State w = state) && bool_decide (fl_Reason (w_Failure w) = reason) then (s, Ok (w, true)) else
      if negb (validFailureTransition (w_State w) state) then (s, Err ErrStateConflict) else
      if before_progress w now then (s, Err ErrStateConflict) else
      let w := set_wstate state (set_chain_progress (w_Submission w) (w_Completion w) (mkFailure reason (Unix now)) w) in
      (put_workflow s workflowID w, Ok (w, false))
  end.

#[export] Instance MemoryWorkflowStore : WorkflowStore MemoryStore := {|
  ws_ReplayCreate := mem_ReplayCreate;
  ws_Create := mem_Create;
  ws_Get := mem_find;
  ws_Approve s c actor id key hash now := mem_transition s c actor id true key hash now;
  ws_Cancel s c actor id key hash now := mem_transition s c actor id false key hash now;
  ws_Expire := mem_Expire;
  ws_Submit := mem_Submit;
  ws_RetrySubmission := mem_RetrySubmission;
  ws_Confirm := mem_Confirm;
  ws_Complete := mem_Complete;
  ws_FailChain := mem_FailChain;
|}.

(** [Pending]: candidates in the order of their approval. *)
Definition pending_le (x y : Workflow) : Prop :=
  ap_ApprovedAt (w_Approval x) < ap_ApprovedAt (w_Approval y) \/
  ap_ApprovedAt (w_Approval x) = ap_ApprovedAt (w_Approval y) /\
  String.leb (pr_WorkflowID (w_Proposal x)) (pr_WorkflowID (w_Proposal y)) = true.
#[export] Instance pending_le_dec x y : Decision (pending_le x y).
Proof. unfold pending_le. apply _. Defined.

Definition mem_Pending (s : MemoryStore) (c : ctx) (limit : Z) (after : string) : res (list Workflow) :=
  match c with
  | Some m => Err m
  | None =>
      check (1 <=? limit) && (limit <=? 1000) && (bool_decide (after = "") || w_hash after) else ErrInvalidWorkflow ;;
      try start := (if bool_decide (after = "") then Ok None
                    else match ms_workflows s !! after with
                         | Some w => check negb (ap_ApprovedAt (w_Approval w) =? 0) else ErrInvalidWorkflow ;; Ok (Some (ap_ApprovedAt (w_Approval w)))
                         | None => Err ErrInvalidWorkflow
                         end) in
      let next w := match start with
                    | None => true
                    | Some at_ => (at_ <? ap_ApprovedAt (w_Approval w)) ||
                                  (ap_ApprovedAt (w_Approval w) =? at_) && negb (String.leb (pr_WorkflowID (w_Proposal w)) after)
                    end in
      Ok (take (Z.to_nat limit) (merge_sort pending_le (List.filter (fun w => completionCandidate w && next w) (map snd (map_to_list (ms_workflows s))))))
  end.

(** ** The service *)

Section Service.
Context `{Crypto} `{Abi} {S : Type} `{WorkflowStore S}.

Record CreateRequest := mkCreateRequest {
  rq_Kind : Kind; rq_WorkflowID : string; rq_PayloadHash : string; rq_Action : option Action }.

(** The collaborators of a call, as they answer during it. *)
Record WService := mkWService {
  sv_observer : option (Workflow -> res CompletionReceipt);
  sv_actionGate : option (BoundAction -> res unit);
  sv_authorityVerifier : option (Workflow -> CompletionReceipt -> res unit);
}.

(** The clock, the context at the first and at the second store call, and the next
    random workflow ID. *)
Record wenv := mkwenv { wn_now : time; wn_ctx : ctx; wn_ctx' : ctx; wn_newID : res string }.

Definition truncate (t : time) : time := t - t mod Second.

Definition actionHash (action : string) (actor : Actor) (workflowID idempotencyKey input : string) : string :=
  "0x" +:+ hex_encode (sha256 (json_object [
    ("version", Some (json_string "ASCP_WORKFLOW_ACTION_V1"));
    ("action", Some (json_string action));
    ("organizationId", Some (json_string (an_OrganizationID actor)));
    ("principalId", Some (json_string (an_PrincipalID actor)));
    ("workflowId", omit_empty workflowID);
    ("idempotencyKey", Some (json_string idempotencyKey));
    ("input", Some input)])).

(** [chainActionForBound]: named like the action, but for two. *)
Definition chainActionForBound (b : BoundAction) : res ChainAction :=
  let ty := utf8_coerce (ac_Type (bd_CanonicalAction b)) in
  if bool_decide (ty ∈ [ActionCallEscrowAddVerifier; ActionCallEscrowRevokeVerifier; ActionCallEscrowPause; ActionSpendPause;
                        ActionSpendInvalidateNonces; ActionDirectoryCancel]) then Ok ty
  else if bool_decide (ty = ActionSpendAuthorizer) then Ok "SPEND_SET_AUTHORIZER"
  else if bool_decide (ty = ActionSpendAllowlist) then Ok "SPEND_SET_ALLOWLIST"
  else if bool_decide (ty = ActionSpendCaps) then Ok "SPEND_SCHEDULE_CAPS"
  else if bool_decide (ty = ActionDirectoryApprove) then Ok "DIRECTORY_PUBLISH"
  else Err "workflow chain authority proof is invalid".

Definition create_input (r : CreateRequest) (bound : option BoundAction) : string :=
  json_object [
    ("kind", Some (json_string (rq_Kind r)));
    ("workflowId", omit_empty (rq_WorkflowID r));
    ("payloadHash", omit_empty (rq_PayloadHash r));
    ("boundAction", option_map json_BoundAction bound)].

(** The action of a chain-backed request, bound to its workflow. *)
Definition request_bound (r : CreateRequest) : res (option BoundAction) :=
  if requiresChainReceipt (rq_Kind r) then
    match rq_Action r with
    | None => Err ErrInvalidWorkflow
    | Some a =>
        match BindAction (rq_WorkflowID r) a with
        | Err _ => Err ErrInvalidWorkflow
        | Ok b => check bool_decide (bd_WorkflowKind b = rq_Kind r) else ErrInvalidWorkflow ;; Ok (Some b)
        end
    end
  else Ok None.

Definition request_shape (r : CreateRequest) : bool :=
  if requiresChainReceipt (rq_Kind r)
  then w_hash (rq_WorkflowID r) && bool_decide (rq_PayloadHash r = "") && match rq_Action r with Some _ => true | None => false end
  else bool_decide (rq_WorkflowID r = "") && match rq_Action r with Some _ => false | None => true end && w_hash (rq_PayloadHash r).

Definition gate_action (gate : option (BoundAction -> res unit)) (b : BoundAction) : res unit :=
  match gate with
  | None => Err ErrGovernanceUnavailable
  | Some f => check is_ok (f b) else ErrInvalidWorkflow ;; Ok tt
  end.

(** The proposal of a request that passed every check. *)
Definition new_proposal (actor : Actor) (now : time) (id : string) (r : CreateRequest) (bound : option BoundAction) : res Proposal :=
  let base hash chainAction chain contract selector calldata action :=
    mkProposal id (an_OrganizationID actor) (rq_Kind r) chainAction hash chain contract selector calldata action
      (an_PrincipalID actor) (an_Role actor) (Unix (an_StepUpAt actor)) (Unix (an_StepUpUntil actor)) (Unix now)
      (Unix (time_add now ProposalTTL)) in
  match bound with
  | None => Ok (base (rq_PayloadHash r) "" 0 "" "" "" None)
  | Some b =>
      match chainActionForBound b with
      | Err _ => Err ErrInvalidWorkflow
      | Ok chainAction =>
          Ok (base (bd_PayloadHash b) chainAction (bd_ChainID b) (bd_ContractAddress b) (bd_FunctionSelector b) (bd_Calldata b)
                (Some (bd_CanonicalAction b)))
      end
  end.

Definition new_workflow (p : Proposal) : Workflow := mkWorkflow p Proposed no_approval "" 0 0 no_submission no_completion no_failure.

Definition Service_Create (svc : WService) (s : S) (env : wenv) (actor : Actor) (key : string) (r : CreateRequest) : S * res (Workflow * bool) :=
  let observedAt := wn_now env in
  match validateActor actor observedAt false with
  | Err m => (s, Err m)
  | Ok _ =>
  if negb (canPropose (rq_Kind r) (an_Role actor)) then (s, Err ErrForbiddenRole) else
  if negb (w_identifier key && request_shape r) then (s, Err ErrInvalidWorkflow) else
  match request_bound r with
  | Err m => (s, Err m)
  | Ok bound =>
  let inputHash := actionHash "CREATE" actor "" key (create_input r bound) in
  match ws_ReplayCreate s (wn_ctx env) actor key inputHash with
  | Err m => (s, Err m)
  | Ok (Some w) => (s, Ok (w, true))
  | Ok None =>
  match validateActor actor observedAt true with
  | Err m => (s, Err m)
  | Ok _ =>
  match match bound with Some b => gate_action (sv_actionGate svc) b | None => Ok tt end with
  | Err m => (s, Err m)
  | Ok _ =>
  match (if requiresChainReceipt (rq_Kind r) then Ok (rq_WorkflowID r) else wn_newID env) with
  | Err m => (s, Err m)
  | Ok id =>
  match new_proposal actor (truncate observedAt) id r bound with
  | Err m => (s, Err m)
  | Ok p => ws_Create s (wn_ctx' env) (new_workflow p) key inputHash
  end end end end end end end.

Definition Service_Get (s : S) (env : wenv) (actor : Actor) (workflowID : string) : S * res Workflow :=
  let now := truncate (wn_now env) in
  if negb (is_ok (validateActor actor now false) && w_hash workflowID) then (s, Err ErrInvalidWorkflow) else
  let '(s, r) := ws_Expire s (wn_ctx env) (an_OrganizationID actor) workflowID now in
  (s, match r with Ok (w, _) => Ok w | Err m => Err m end).

Definition boundActionForWorkflow (w : Workflow) : res BoundAction :=
  let p := w_Proposal w in
  check w_hash (pr_WorkflowID p) else ErrInvalidWorkflow ;;
  match pr_GovernanceAction p with
  | None => Err ErrInvalidWorkflow
  | Some a =>
      match RebindAction (pr_WorkflowID p) a with
      | Err _ => Err ErrInvalidWorkflow
      | Ok b =>
          check bool_decide (bd_WorkflowKind b = pr_Kind p) && bool_decide (bd_PayloadHash b = pr_PayloadHash p) &&
                (bd_ChainID b =? pr_ChainID p) && bool_decide (bd_ContractAddress b = pr_ContractAddress p) &&
                bool_decide (bd_FunctionSelector b = pr_FunctionSelector p) && bool_decide (bd_Calldata b = pr_Calldata p)
            else ErrInvalidWorkflow ;;
          Ok b
      end
  end.

Definition Service_Approve (svc : WService) (s : S) (env : wenv) (actor : Actor) (workflowID key : string) : S * res (Workflow * bool) :=
  let observedAt := wn_now env in
  match validateActor actor observedAt false with
  | Err m => (s, Err m)
  | Ok _ =>
  if negb (w_hash workflowID && w_identifier key) then (s, Err ErrInvalidWorkflow) else
  let inputHash := actionHash "APPROVE" actor workflowID key "{}" in
  match ws_Get s (wn_ctx env) (an_OrganizationID actor) workflowID with
  | Err m => (s, Err m)
  | Ok current =>
  let store := ws_Approve s (wn_ctx' env) actor workflowID key inputHash (truncate observedAt) in
  if negb (bool_decide (w_State current = Proposed)) then store else
  match validateActor actor observedAt true with
  | Err m => (s, Err m)
  | Ok _ =>
  if requiresChainReceipt (pr_Kind (w_Proposal current)) then
    match boundActionForWorkflow current with
    | Err _ => (s, Err ErrInvalidWorkflow)
    | Ok bound => match gate_action (sv_actionGate svc) bound with Err m => (s, Err m) | Ok _ => store end
    end
  else store
  end end end.

Definition Service_Cancel (s : S) (env : wenv) (actor : Actor) (workflowID key : string) : S * res (Workflow * bool) :=
  let observedAt := wn_now env in
  match validateActor actor observedAt false with
  | Err m => (s, Err m)
  | Ok _ =>
  if negb (w_hash workflowID && w_identifier key) then (s, Err ErrInvalidWorkflow) else
  let inputHash := actionHash "CANCEL" actor workflowID key "{}" in
  match ws_Get s (wn_ctx env) (an_OrganizationID actor) workflowID with
  | Err m => (s, Err m)
  | Ok current =>
  match (if bool_decide (w_State current = Proposed) then validateActor actor observedAt true else Ok tt) with
  | Err m => (s, Err m)
  | Ok _ => ws_Cancel s (wn_ctx' env) actor workflowID key inputHash (truncate observedAt)
  end end end.

(** *** The relayer's, the reconciler's and the observer's side *)

Definition RecordSubmission (s : S) (env : wenv) (organizationID workflowID transactionHash : string) : S * res (Workflow * bool) :=
  if negb (w_identifier organizationID && w_hash workflowID && w_hash transactionHash) then (s, Err ErrInvalidWorkflow)
  else ws_Submit s (wn_ctx env) organizationID workflowID transactionHash (truncate (wn_now env)).

Definition RecordProvenRetry (s : S) (env : wenv) (organizationID workflowID transactionHash : string) (p : SafeRetryProof)
    : S * res (Workflow * bool) :=
  let now := truncate (wn_now env) in
  if negb (w_identifier organizationID && w_hash workflowID && w_hash transactionHash && validSafeRetryProof workflowID transactionHash p now)
  then (s, Err ErrInvalidWorkflow)
  else ws_RetrySubmission s (wn_ctx env) organizationID workflowID transactionHash p now.

Definition RecordConfirmation (s : S) (env : wenv) (organizationID workflowID transactionHash : string) : S * res (Workflow * bool) :=
  if negb (w_identifier organizationID && w_hash workflowID && w_hash transactionHash) then (s, Err ErrInvalidWorkflow)
  else ws_Confirm s (wn_ctx env) organizationID workflowID transactionHash (truncate (wn_now env)).

(** [completionDigest]: what identifies the chain event, without who saw it when. *)
Definition completionDigest (r : CompletionReceipt) : string :=
  "0x" +:+ hex_encode (sha256 ("ASCP_WORKFLOW_COMPLETION_V1" +:+ newline +:+ json_object [
    ("WorkflowID", Some (json_string (cr_WorkflowID r))); ("PayloadHash", Some (json_string (cr_PayloadHash r)));
    ("TransactionHash", Some (json_string (cr_TransactionHash r))); ("BlockHash", Some (json_string (cr_BlockHash r)));
    ("ContractAddress", Some (json_string (cr_ContractAddress r))); ("EventSignature", Some (json_string (cr_EventSignature r)));
    ("FunctionSelector", Some (json_string (cr_FunctionSelector r)));
    ("ActionEventSignature", Some (json_string (cr_ActionEventSignature r))); ("Finality", Some (json_string (cr_Finality r)));
    ("ChainID", Some (json_int (cr_ChainID r))); ("BlockNumber", Some (json_int (cr_BlockNumber r)));
    ("BlockTimestamp", Some (json_int (cr_BlockTimestamp r))); ("LogIndex", Some (json_int (cr_LogIndex r)));
    ("ActionLogIndexes", Some (json_array (map json_int (cr_ActionLogIndexes r))))])).

(** The receipt is this workflow's, of a block after its approval. *)
Definition receipt_matches (w : Workflow) (r : CompletionReceipt) : bool :=
  let p := w_Proposal w in
  validReceipt r && bool_decide (pr_WorkflowID p = cr_WorkflowID r) && bool_decide (pr_PayloadHash p = cr_PayloadHash r) &&
  bool_decide (pr_ChainAction p = cr_ChainAction r) && (pr_ChainID p =? cr_ChainID r) &&
  bool_decide (pr_ContractAddress p = cr_ContractAddress r) && bool_decide (pr_FunctionSelector p = cr_FunctionSelector r) &&
  (0 <? ap_ApprovedAt (w_Approval w)) && (ap_ApprovedAt (w_Approval w) <? cr_BlockTimestamp r).

Definition ObserveAndComplete (svc : WService) (s : S) (env : wenv) (organizationID workflowID : string) : S * res (Workflow * bool) :=
  match sv_observer svc with
  | None => (s, Err ErrCompletionUnavailable)
  | Some observe =>
  if negb (w_identifier organizationID && w_hash workflowID) then (s, Err ErrInvalidReceipt) else
  match ws_Get s (wn_ctx env) organizationID workflowID with
  | Err m => (s, Err m)
  | Ok w =>
  if bool_decide (w_State w = Finalized) && negb (bool_decide (co_Digest (w_Completion w) = "")) then (s, Ok (w, true)) else
  if negb (completionCandidateState (w_State w)) then (s, Err ErrStateConflict) else
  match observe w with
  | Err m => (s, Err (ErrInvalidReceipt +:+ ": " +:+ m))
  | Ok r =>
  if negb (receipt_matches w r) then (s, Err ErrInvalidReceipt) else
  match match sv_authorityVerifier svc with Some verify => verify w r | None => Ok tt end with
  | Err m => (s, Err (ErrInvalidReceipt +:+ ": " +:+ m))
  | Ok _ => ws_Complete s (wn_ctx' env) organizationID workflowID r (completionDigest r) (truncate (wn_now env))
  end end end end.

Definition RecordChainFailure (s : S) (env : wenv) (organizationID workflowID : string) (state : WState) (reason : TerminalReason)
    : S * res (Workflow * bool) :=
  if negb (w_identifier organizationID && w_hash workflowID && validChainFailure state reason) then (s, Err ErrInvalidWorkflow)
  else ws_FailChain s (wn_ctx env) organizationID workflowID state reason (truncate (wn_now env)).

Definition RequireReapproval (s : S) (env : wenv) (organizationID workflowID : string) (reason : TerminalReason) : S * res (Workflow * bool) :=
  RecordChainFailure s env organizationID workflowID RequiresReapproval reason.

(** ** The command of an approved workflow *)

Record GovernanceExecutionCommand := mkCommand {
  gc_Version : string; gc_WorkflowID : string; gc_OrganizationID : string; gc_Kind : Kind; gc_PayloadHash : string; gc_ChainID : Z;
  gc_ContractAddress : string; gc_FunctionSelector : string; gc_Calldata : string; gc_Value : string; gc_Operation : string;
  gc_GovernanceAction : option Action; gc_ApprovedBy : string; gc_ApprovedAt : Z; gc_ExecuteAfter : Z; gc_ApprovalActionHash : string }.

(** [workflow.ApprovedAt + 1] is an [int64] addition. *)
Definition buildExecutionCommand (w : Workflow) (approvalHash : string) : res GovernanceExecutionCommand :=
  let p := w_Proposal w in
  let a := w_Approval w in
  check bool_decide (w_State w = ApprovedPendingChain) && w_hash (pr_WorkflowID p) && w_hash (pr_PayloadHash p) &&
        w_identifier (pr_OrganizationID p) && w_identifier (ap_ApprovedBy a) && (0 <? ap_ApprovedAt a) &&
        ((pr_ChainID p =? 8453) || (pr_ChainID p =? 84532)) && gov_address (pr_ContractAddress p) && w_selector (pr_FunctionSelector p) &&
        governanceCalldata (pr_Calldata p) (pr_FunctionSelector p) &&
        match pr_GovernanceAction p with Some _ => true | None => false end && w_hash approvalHash
    else ErrInvalidWorkflow ;;
  try _ := boundActionForWorkflow w in
  Ok {| gc_Version := GovernanceExecutionVersion; gc_WorkflowID := pr_WorkflowID p; gc_OrganizationID := pr_OrganizationID p;
        gc_Kind := pr_Kind p; gc_PayloadHash := pr_PayloadHash p; gc_ChainID := pr_ChainID p;
        gc_ContractAddress := pr_ContractAddress p; gc_FunctionSelector := pr_FunctionSelector p; gc_Calldata := pr_Calldata p;
        gc_Value := "0"; gc_Operation := "CALL"; gc_GovernanceAction := pr_GovernanceAction p; gc_ApprovedBy := ap_ApprovedBy a;
        gc_ApprovedAt := ap_ApprovedAt a; gc_ExecuteAfter := int64 (ap_ApprovedAt a + 1); gc_ApprovalActionHash := approvalHash |}.

(** The workflow a command says it executes. *)
Definition command_workflow (c : GovernanceExecutionCommand) : Workflow :=
  set_wstate ApprovedPendingChain (set_approval (mkApproval (gc_ApprovedBy c) "" 0 0 (gc_ApprovedAt c))
    (new_workflow (mkProposal (gc_WorkflowID c) (gc_OrganizationID c) (gc_Kind c) "" (gc_PayloadHash c) (gc_ChainID c)
       (gc_ContractAddress c) (gc_FunctionSelector c) (gc_Calldata c) (gc_GovernanceAction c) "" "" 0 0 0 0))).

Definition ValidateExecutionCommand (c : GovernanceExecutionCommand) : res unit :=
  match buildExecutionCommand (command_workflow c) (gc_ApprovalActionHash c) with
  | Err _ => Err ErrInvalidWorkflow
  | Ok e =>
      check bool_decide (gc_Version c = gc_Version e) && bool_decide (gc_WorkflowID c = gc_WorkflowID e) &&
            bool_decide (gc_OrganizationID c = gc_OrganizationID e) && bool_decide (gc_Kind c = gc_Kind e) &&
            bool_decide (gc_PayloadHash c = gc_PayloadHash e) && (gc_ChainID c =? gc_ChainID e) &&
            bool_decide (gc_ContractAddress c = gc_ContractAddress e) && bool_decide (gc_FunctionSelector c = gc_FunctionSelector e) &&
            bool_decide (gc_Calldata c = gc_Calldata e) && bool_decide (gc_Value c = gc_Value e) &&
            bool_decide (gc_Operation c = gc_Operation e) && bool_decide (gc_ApprovedBy c = gc_ApprovedBy e) &&
            (gc_ApprovedAt c =? gc_ApprovedAt e) && (gc_ExecuteAfter c =? gc_ExecuteAfter e) &&
            bool_decide (gc_ApprovalActionHash c = gc_ApprovalActionHash e) &&
            bool_decide (option_map json_Action (gc_GovernanceAction c) = option_map json_Action (gc_GovernanceAction e))
        else ErrInvalidWorkflow ;;
      Ok tt
  end.
End Service.
