(* ===== verification/WorkflowTheorems.v ===== *)
(** * Dual control

    [wstep] is what a workflow store promises: one workflow moves along one edge of
    the state machine, under the guards of that edge. The in-memory store keeps the
    promise; the service is proved against it, for any store and any sequence of
    calls. *)
From stdpp Require Import base gmap strings list fin_maps sorting.
From Stdlib Require Import ZArith Lia Ascii.
From S2P Require Import Prelude GoText GoJSON Crypto Envelope GovAction GovActionTheorems Workflow.

Open Scope Z_scope.

(** ** The promise of a store *)

(** What is stored: the workflows, and who owns which receipt. *)
Record wdb := mkwdb { db_workflows : gmap string Workflow; db_owners : gmap string (string * string) }.
Definition empty_wdb : wdb := mkwdb ∅ ∅.
Definition put (a : wdb) (id : string) (w : Workflow) : wdb := mkwdb (<[id := w]> (db_workflows a)) (db_owners a).

Inductive wevent :=
| WCreate (w : Workflow)
| WApprove (actor : Actor) (id : string) (now : time)
| WCancel (actor : Actor) (id : string) (now : time)
| WExpire (id : string) (now : time)
| WSubmit (id transactionHash : string) (now : time)
| WRetry (id transactionHash : string) (p : SafeRetryProof) (now : time)
| WConfirm (id transactionHash : string) (now : time)
| WComplete (id : string) (r : CompletionReceipt) (digest : string) (now : time)
| WFail (id : string) (state : WState) (reason : TerminalReason) (now : time).

(** Approval and cancellation find out that the proposal expired. *)
Definition unless_expired (w : Workflow) (now : time) (w' : Workflow) : Workflow := if expired w now then expire_workflow now w else w'.

Definition fail_workflow (state : WState) (reason : TerminalReason) (now : time) (w : Workflow) : Workflow :=
  set_wstate state (set_chain_progress (w_Submission w) (w_Completion w) (mkFailure reason (Unix now)) w).

Inductive wstep (a : wdb) : wevent -> wdb -> Prop :=
| ws_create w :
    db_workflows a !! pr_WorkflowID (w_Proposal w) = None ->
    wstep a (WCreate w) (put a (pr_WorkflowID (w_Proposal w)) w)
| ws_approve actor id now w :
    db_workflows a !! id = Some w -> w_State w = Proposed -> w_Org w = an_OrganizationID actor ->
    an_PrincipalID actor <> pr_ProposedBy (w_Proposal w) -> canApprove (pr_Kind (w_Proposal w)) (an_Role actor) = true ->
    wstep a (WApprove actor id now) (put a id (unless_expired w now (approve_workflow actor now w)))
| ws_cancel actor id now w :
    db_workflows a !! id = Some w -> w_State w = Proposed -> w_Org w = an_OrganizationID actor -> canCancel w actor = true ->
    wstep a (WCancel actor id now) (put a id (unless_expired w now (cancel_workflow actor now w)))
| ws_expire id now w :
    db_workflows a !! id = Some w -> expired w now = true -> wstep a (WExpire id now) (put a id (expire_workflow now w))
| ws_submit id tx now w :
    db_workflows a !! id = Some w -> w_State w = ApprovedPendingChain -> ap_ApprovedAt (w_Approval w) <= Unix now ->
    wstep a (WSubmit id tx now) (put a id (submit_workflow tx now w))
| ws_retry id tx p now w :
    db_workflows a !! id = Some w -> w_State w ∈ [TimedOut; Reorged] -> rp_PreviousTransactionHash p = sb_TxHash (w_Submission w) ->
    rp_VerifiedPayloadHash p = pr_PayloadHash (w_Proposal w) -> validSafeRetryProof id tx p now = true ->
    wstep a (WRetry id tx p now) (put a id (submit_workflow tx now w))
| ws_confirm id tx now w :
    db_workflows a !! id = Some w -> w_State w = Submitted -> sb_TxHash (w_Submission w) = tx ->
    sb_SubmittedAt (w_Submission w) <= Unix now -> wstep a (WConfirm id tx now) (put a id (confirm_workflow now w))
| ws_complete id r digest now w :
    db_workflows a !! id = Some w -> completionCandidateState (w_State w) = true -> pr_PayloadHash (w_Proposal w) = cr_PayloadHash r ->
    (sb_TxHash (w_Submission w) = "" -> w_State w = ApprovedPendingChain) ->
    db_owners a !! receiptKey r = None \/ db_owners a !! receiptKey r = Some (id, digest) ->
    wstep a (WComplete id r digest now)
      (mkwdb (<[id := complete_workflow r digest now w]> (db_workflows a)) (<[receiptKey r := (id, digest)]> (db_owners a)))
| ws_fail id state reason now w :
    db_workflows a !! id = Some w -> validFailureTransition (w_State w) state = true ->
    wstep a (WFail id state reason now) (put a id (fail_workflow state reason now w)).

(** Nothing, or the step of the event. *)
Definition moves (a : wdb) (ev : wevent) (a' : wdb) : Prop := a' = a \/ wstep a ev a'.

Class StoreLaws (S : Type) `{WorkflowStore S} := {
  db : S -> wdb;
  law_get s c org id w : ws_Get s c org id = Ok w -> db_workflows (db s) !! id = Some w /\ w_Org w = org;
  law_create s c w key h : moves (db s) (WCreate w) (db (ws_Create s c w key h).1);
  law_approve s c actor id key h now : moves (db s) (WApprove actor id now) (db (ws_Approve s c actor id key h now).1);
  law_cancel s c actor id key h now : moves (db s) (WCancel actor id now) (db (ws_Cancel s c actor id key h now).1);
  law_expire s c org id now : moves (db s) (WExpire id now) (db (ws_Expire s c org id now).1);
  law_submit s c org id tx now : moves (db s) (WSubmit id tx now) (db (ws_Submit s c org id tx now).1);
  law_retry s c org id tx p now : moves (db s) (WRetry id tx p now) (db (ws_RetrySubmission s c org id tx p now).1);
  law_confirm s c org id tx now : moves (db s) (WConfirm id tx now) (db (ws_Confirm s c org id tx now).1);
  law_complete s c org id r digest now : moves (db s) (WComplete id r digest now) (db (ws_Complete s c org id r digest now).1);
  law_fail s c org id state reason now : moves (db s) (WFail id state reason now) (db (ws_FailChain s c org id state reason now).1);
}.

(** ** The store in memory keeps the promise *)

Definition mem_db (s : MemoryStore) : wdb := mkwdb (ms_workflows s) (ms_receipts s).

Lemma mem_find_ok s c org id w : mem_find s c org id = Ok w -> ms_workflows s !! id = Some w /\ w_Org w = org.
Proof.
  unfold mem_find. destruct c; [done|]. destruct (ms_workflows s !! id) as [x|]; [|done]. rewrite check_ok_iff. to_prop.
  by intros [Ho [= ->]].
Qed.

Ltac stays := left; reflexivity.
Ltac mem_guard := match goal with |- context [if ?b then _ else _] => destruct b eqn:? end; [stays|].

Lemma mem_transition_moves s c actor id (approve : bool) key h now :
  moves (mem_db s) (if approve then WApprove actor id now else WCancel actor id now) (mem_db (mem_transition s c actor id approve key h now).1).
Proof.
  unfold mem_transition. destruct c; [stays|]. destruct (replay_action _ _ _) as [[]|]; [stays..|].
  destruct (mem_find _ _ _ _) as [w|] eqn:Ef; [|stays]. apply mem_find_ok in Ef as [Hl Ho].
  destruct approve; cbn [andb negb].
  - do 2 mem_guard. to_prop. cbn [fst]. destruct (bool_decide_reflect (w_State w = Proposed)) as [Hs|Hs]; [|stays].
    right. by apply (ws_approve (mem_db s)).
  - mem_guard. to_prop. cbn [fst]. destruct (bool_decide_reflect (w_State w = Proposed)) as [Hs|Hs]; [|stays].
    right. by apply (ws_cancel (mem_db s)).
Qed.

Lemma mem_create_moves s c w key h : moves (mem_db s) (WCreate w) (mem_db (mem_Create s c w key h).1).
Proof.
  unfold mem_Create. destruct c; [stays|]. destruct (replay_action _ _ _) as [[]|]; [stays..|].
  destruct (ms_workflows s !! _) eqn:El; [stays|]. right. by apply ws_create.
Qed.

Lemma mem_expire_moves s c org id now : moves (mem_db s) (WExpire id now) (mem_db (mem_Expire s c org id now).1).
Proof.
  unfold mem_Expire. destruct (mem_find _ _ _ _) as [w|] eqn:Ef; [|stays]. apply mem_find_ok in Ef as [Hl _].
  destruct (expired w now) eqn:Ee; [|stays]. right. by apply ws_expire.
Qed.

Lemma mem_submit_moves s c org id tx now : moves (mem_db s) (WSubmit id tx now) (mem_db (mem_Submit s c org id tx now).1).
Proof.
  unfold mem_Submit. destruct (mem_find _ _ _ _) as [w|] eqn:Ef; [|stays]. apply mem_find_ok in Ef as [Hl _]. do 3 mem_guard.
  to_prop. right. by apply ws_submit.
Qed.

Lemma mem_retry_moves s c org id tx p now : moves (mem_db s) (WRetry id tx p now) (mem_db (mem_RetrySubmission s c org id tx p now).1).
Proof.
  unfold mem_RetrySubmission. destruct (mem_find _ _ _ _) as [w|] eqn:Ef; [|stays]. apply mem_find_ok in Ef as [Hl _]. do 2 mem_guard.
  to_prop. right. apply (ws_retry (mem_db s)); tauto.
Qed.

Lemma mem_confirm_moves s c org id tx now : moves (mem_db s) (WConfirm id tx now) (mem_db (mem_Confirm s c org id tx now).1).
Proof.
  unfold mem_Confirm. destruct (mem_find _ _ _ _) as [w|] eqn:Ef; [|stays]. apply mem_find_ok in Ef as [Hl _]. do 3 mem_guard.
  to_prop. right. apply (ws_confirm (mem_db s)); tauto.
Qed.

Lemma attempt_submitted s w tx : authorizedReceiptAttempt s w tx = true -> sb_TxHash (w_Submission w) = "" -> w_State w = ApprovedPendingChain.
Proof. unfold authorizedReceiptAttempt. intros Ha E. rewrite E, bool_decide_true in Ha by done. by apply bool_decide_eq_true in Ha. Qed.

Lemma mem_complete_moves s c org id r digest now :
  moves (mem_db s) (WComplete id r digest now) (mem_db (mem_Complete s c org id r digest now).1).
Proof.
  unfold mem_Complete. destruct (mem_find _ _ _ _) as [w|] eqn:Ef; [|stays]. apply mem_find_ok in Ef as [Hl _]. do 3 mem_guard.
  to_prop. match goal with Hg : (_ /\ _) /\ authorizedReceiptAttempt _ _ _ = true |- _ => destruct Hg as [[Hc Hp] Ha] end.
  pose proof (attempt_submitted _ _ _ Ha) as Ht. destruct (ms_receipts s !! receiptKey r) as [[owner d]|] eqn:Er.
  - do 2 mem_guard. to_prop. subst owner d. right. apply (ws_complete (mem_db s)); auto.
  - right. apply (ws_complete (mem_db s)); auto.
Qed.

Lemma mem_fail_moves s c org id state reason now :
  moves (mem_db s) (WFail id state reason now) (mem_db (mem_FailChain s c org id state reason now).1).
Proof.
  unfold mem_FailChain. destruct (mem_find _ _ _ _) as [w|] eqn:Ef; [|stays]. apply mem_find_ok in Ef as [Hl _]. do 3 mem_guard.
  to_prop. right. by apply (ws_fail (mem_db s)).
Qed.

#[export] Instance MemoryStoreLaws : StoreLaws MemoryStore := {|
  db := mem_db;
  law_get := mem_find_ok;
  law_create := mem_create_moves;
  law_approve s c actor id key h now := mem_transition_moves s c actor id true key h now;
  law_cancel s c actor id key h now := mem_transition_moves s c actor id false key h now;
  law_expire := mem_expire_moves;
  law_submit := mem_submit_moves;
  law_retry := mem_retry_moves;
  law_confirm := mem_confirm_moves;
  law_complete := mem_complete_moves;
  law_fail := mem_fail_moves;
|}.

(** ** What a step keeps *)

Definition undecided : list WState := [Proposed; Cancelled; Expired].
Definition terminal : list WState := [Finalized; Cancelled; Expired].

(** The states on a list, one by one; then the goal is decided by computation. *)
Ltac each_state Hs := repeat (apply elem_of_cons in Hs as [->|Hs]); try (by apply elem_of_nil in Hs).
Ltac by_states := match goal with |- ?P => refine (bool_decide_unpack P _); vm_compute; exact I end.

Lemma completion_candidate s : completionCandidateState s = true -> s ∉ undecided /\ s ∉ terminal.
Proof.
  unfold completionCandidateState, activeChainState, chainSideState. intros Hs. apply orb_true_iff in Hs. to_prop.
  destruct Hs as [Hs|Hs]; each_state Hs; split; by_states.
Qed.

Lemma failure_transition from to : validFailureTransition from to = true -> from ∉ undecided /\ from ∉ terminal /\ to ∉ undecided /\ to <> Finalized.
Proof.
  unfold validFailureTransition. intros Hs. repeat case_bool_decide; subst; try done.
  all: repeat match goal with Hf : ?x ∈ _ |- _ => is_var x; each_state Hf end.
  all: split_and!; by_states.
Qed.

Lemma retry_state s : s ∈ [TimedOut; Reorged] -> s ∉ terminal.
Proof. intros Hs. each_state Hs; by_states. Qed.
Lemma retry_decided s : s ∈ [TimedOut; Reorged] -> s ∉ undecided.
Proof. intros Hs. each_state Hs; by_states. Qed.

(** What never changes of a workflow, and what ends it. *)
Record carries (w w' : Workflow) : Prop := {
  ca_proposal : w_Proposal w' = w_Proposal w;
  ca_approval : w_State w ∉ undecided -> w_Approval w' = w_Approval w;
  ca_decided : w_State w ∉ undecided -> w_State w' ∉ undecided;
  ca_terminal : w_State w ∈ terminal -> w' = w;
}.

#[export] Instance carries_preorder : PreOrder carries.
Proof.
  split; [by constructor|]. intros x y z [P A D T] [P' A' D' T']. constructor; [congruence| | |].
  - intros Hx. rewrite A', A; auto.
  - auto.
  - intros Hx. assert (y = x) as -> by auto. auto.
Qed.

Lemma carries_from w w' :
  w_Proposal w' = w_Proposal w -> w_State w ∉ terminal -> (w_State w ∉ undecided -> w_Approval w' = w_Approval w /\ w_State w' ∉ undecided) ->
  carries w w'.
Proof. intros Hp Ht Ha. constructor; [done|by apply Ha|by apply Ha|done]. Qed.

Lemma approve_proposal actor now w : w_Proposal (approve_workflow actor now w) = w_Proposal w.
Proof. unfold approve_workflow. cbn [w_Proposal set_approval]. by destruct (requiresChainReceipt _). Qed.

Lemma from_proposed w w' : w_State w = Proposed -> w_Proposal w' = w_Proposal w -> carries w w'.
Proof. intros Hs Hp. apply carries_from; [done|rewrite Hs; by_states|]. rewrite Hs. intros []. by_states. Qed.

Lemma to_state w w' :
  w_Proposal w' = w_Proposal w -> w_Approval w' = w_Approval w -> w_State w ∉ terminal -> w_State w' ∉ undecided -> carries w w'.
Proof. intros. by apply carries_from. Qed.

(** The workflow a step changes, before and after. *)
Definition event_id (ev : wevent) : string :=
  match ev with
  | WCreate w => pr_WorkflowID (w_Proposal w)
  | WApprove _ id _ | WCancel _ id _ | WExpire id _ | WSubmit id _ _ | WRetry id _ _ _ | WConfirm id _ _ | WComplete id _ _ _
  | WFail id _ _ _ => id
  end.

Lemma wstep_other a ev a' id : wstep a ev a' -> id <> event_id ev -> db_workflows a' !! id = db_workflows a !! id.
Proof. intros Hs Hn. destruct Hs; cbn in *; by rewrite lookup_insert_ne. Qed.

Lemma wstep_carries a ev a' id w : wstep a ev a' -> db_workflows a !! id = Some w -> exists w', db_workflows a' !! id = Some w' /\ carries w w'.
Proof.
  intros Hs Hl. destruct (decide (id = event_id ev)) as [->|Hn]; [|exists w; split; [by rewrite (wstep_other _ _ _ _ Hs)|reflexivity]].
  destruct Hs; cbn in *; try congruence; rewrite lookup_insert_eq; (eexists; split; [done|]); simplify_eq.
  - apply from_proposed; [done|]. unfold unless_expired. destruct (expired _ _); [done|apply approve_proposal].
  - apply from_proposed; [done|]. unfold unless_expired. by destruct (expired _ _).
  - match goal with He : expired _ _ = true |- _ => unfold expired in He; to_prop; destruct He end. by apply from_proposed.
  - apply to_state; try done; [|by_states]. match goal with Hs : w_State _ = _ |- _ => rewrite Hs end. by_states.
  - apply to_state; try done; [|by_states]. by apply retry_state.
  - apply to_state; try done; [|by_states]. match goal with Hs : w_State _ = _ |- _ => rewrite Hs end. by_states.
  - apply to_state; try done; [|by_states]. by eapply completion_candidate.
  - match goal with Hs : validFailureTransition _ _ = true |- _ => apply failure_transition in Hs as (_ & Ht & Hu & _) end. by apply to_state.
Qed.

(** ** Any sequence of calls on the service *)

Section Dual.
Context `{Crypto} `{Abi} {S : Type} `{StoreLaws S}.

Inductive call :=
| CCreate (svc : WService) (env : wenv) (actor : Actor) (key : string) (r : CreateRequest)
| CGet (env : wenv) (actor : Actor) (id : string)
| CApprove (svc : WService) (env : wenv) (actor : Actor) (id key : string)
| CCancel (env : wenv) (actor : Actor) (id key : string)
| CSubmit (env : wenv) (org id tx : string)
| CRetry (env : wenv) (org id tx : string) (p : SafeRetryProof)
| CConfirm (env : wenv) (org id tx : string)
| CObserve (svc : WService) (env : wenv) (org id : string)
| CFail (env : wenv) (org id : string) (state : WState) (reason : TerminalReason).

Definition serve (s : S) (c : call) : S :=
  match c with
  | CCreate svc env actor key r => (Service_Create svc s env actor key r).1
  | CGet env actor id => (Service_Get s env actor id).1
  | CApprove svc env actor id key => (Service_Approve svc s env actor id key).1
  | CCancel env actor id key => (Service_Cancel s env actor id key).1
  | CSubmit env org id tx => (RecordSubmission s env org id tx).1
  | CRetry env org id tx p => (RecordProvenRetry s env org id tx p).1
  | CConfirm env org id tx => (RecordConfirmation s env org id tx).1
  | CObserve svc env org id => (ObserveAndComplete svc s env org id).1
  | CFail env org id state reason => (RecordChainFailure s env org id state reason).1
  end.
Definition serve_all (s : S) (calls : list call) : S := fold_left serve calls s.

(** A proposer with a fresh step-up and the role for the kind proposed it, and what
    it does on chain is derived from its action and accepted by the gate. *)
Definition proposes (svc : WService) (env : wenv) (actor : Actor) (r : CreateRequest) (p : Proposal) : Prop :=
  validateActor actor (wn_now env) true = Ok tt /\ canPropose (rq_Kind r) (an_Role actor) = true /\
  exists bound id, request_bound r = Ok bound /\ (forall b, bound = Some b -> gate_action (sv_actionGate svc) b = Ok tt) /\
    (requiresChainReceipt (rq_Kind r) = true -> id = rq_WorkflowID r) /\
    new_proposal actor (truncate (wn_now env)) id r bound = Ok p.

(** A second person of the organization, with a fresh step-up and the role for the
    kind, approved it in time, with the gate accepting the action once more. *)
Definition approves (svc : WService) (env : wenv) (actor : Actor) (w : Workflow) : Prop :=
  let p := w_Proposal w in
  validateActor actor (wn_now env) true = Ok tt /\ canApprove (pr_Kind p) (an_Role actor) = true /\
  an_OrganizationID actor = pr_OrganizationID p /\ an_PrincipalID actor <> pr_ProposedBy p /\
  time_before (truncate (wn_now env)) (time_of_unix (pr_ExpiresAt p)) = true /\
  w_Approval w = mkApproval (an_PrincipalID actor) (an_Role actor) (Unix (an_StepUpAt actor)) (Unix (an_StepUpUntil actor))
                   (Unix (truncate (wn_now env))) /\
  (requiresChainReceipt (pr_Kind p) = true -> exists b, boundActionForWorkflow w = Ok b /\ gate_action (sv_actionGate svc) b = Ok tt).

(** The observer answered with a receipt that is the workflow's. *)
Definition completes (svc : WService) (w : Workflow) (r : CompletionReceipt) : Prop :=
  receipt_matches w r = true /\ (exists seen, sv_observer svc = Some seen /\ exists w0, seen w0 = Ok r /\
    match sv_authorityVerifier svc with Some verify => verify w0 r = Ok tt | None => True end /\
    w_Proposal w0 = w_Proposal w /\ w_Approval w0 = w_Approval w).

(** The step of the store a call may take, and what the service checked before. *)
Inductive granted (a : wdb) : call -> wevent -> Prop :=
| gr_create svc env actor key r p : proposes svc env actor r p -> granted a (CCreate svc env actor key r) (WCreate (new_workflow p))
| gr_get env actor id : granted a (CGet env actor id) (WExpire id (truncate (wn_now env)))
| gr_approve svc env actor id key w :
    db_workflows a !! id = Some w ->
    (w_State w = Proposed -> validateActor actor (wn_now env) true = Ok tt /\
       (requiresChainReceipt (pr_Kind (w_Proposal w)) = true ->
        exists b, boundActionForWorkflow w = Ok b /\ gate_action (sv_actionGate svc) b = Ok tt)) ->
    granted a (CApprove svc env actor id key) (WApprove actor id (truncate (wn_now env)))
| gr_cancel env actor id key : granted a (CCancel env actor id key) (WCancel actor id (truncate (wn_now env)))
| gr_submit env org id tx : granted a (CSubmit env org id tx) (WSubmit id tx (truncate (wn_now env)))
| gr_retry env org id tx p : granted a (CRetry env org id tx p) (WRetry id tx p (truncate (wn_now env)))
| gr_confirm env org id tx : granted a (CConfirm env org id tx) (WConfirm id tx (truncate (wn_now env)))
| gr_complete svc env org id w r :
    db_workflows a !! id = Some w -> completes svc w r ->
    granted a (CObserve svc env org id) (WComplete id r (completionDigest r) (truncate (wn_now env)))
| gr_fail env org id state reason : granted a (CFail env org id state reason) (WFail id state reason (truncate (wn_now env))).

Definition takes (s : S) (c : call) (s' : S) : Prop := db s' = db s \/ exists ev, granted (db s) c ev /\ wstep (db s) ev (db s').

Lemma moves_takes s c ev s' : granted (db s) c ev -> moves (db s) ev (db s') -> takes s c s'.
Proof. intros Hg [Hs|Hs]; [by left|right; eauto]. Qed.

Ltac idle := left; reflexivity.
Ltac service_guard := match goal with |- context [if ?b then _ else _] => destruct b eqn:? end; [idle|].

Lemma create_takes svc s env actor key r : takes s (CCreate svc env actor key r) (Service_Create svc s env actor key r).1.
Proof.
  unfold Service_Create. destruct (validateActor _ _ false); [|idle]. do 2 service_guard. to_prop.
  destruct (request_bound r) as [bound|] eqn:Eb; [|idle]. destruct (ws_ReplayCreate _ _ _ _ _) as [[]|]; [idle| |idle].
  destruct (validateActor _ _ true) as [[]|] eqn:Ev; [|idle].
  destruct (match bound with Some b => gate_action (sv_actionGate svc) b | None => Ok tt end) as [[]|] eqn:Eg; [|idle].
  destruct (if requiresChainReceipt (rq_Kind r) then _ else _) as [id|] eqn:Ei; [|idle].
  destruct (new_proposal _ _ _ _ _) as [p|] eqn:Ep; [|idle].
  eapply moves_takes; [|apply law_create]. constructor. split_and!; [done..|]. exists bound, id. split_and!; [done| | |done].
  - by intros b ->.
  - intros Hr. rewrite Hr in Ei. congruence.
Qed.

Lemma approve_takes svc s env actor id key : takes s (CApprove svc env actor id key) (Service_Approve svc s env actor id key).1.
Proof.
  unfold Service_Approve. destruct (validateActor _ _ false); [|idle]. service_guard.
  destruct (ws_Get _ _ _ _) as [w|] eqn:Eg; [|idle]. apply law_get in Eg as [Hl _].
  destruct (bool_decide_reflect (w_State w = Proposed)) as [Hp|Hp]; cbn [negb].
  - destruct (validateActor _ _ true) as [[]|] eqn:Ev; [|idle].
    destruct (requiresChainReceipt _) eqn:Er.
    + destruct (boundActionForWorkflow w) as [b|] eqn:Eb; [|idle]. destruct (gate_action _ b) as [[]|] eqn:Ea; [|idle].
      eapply moves_takes; [|apply law_approve]. econstructor; [exact Hl|]. eauto.
    + eapply moves_takes; [|apply law_approve]. econstructor; [exact Hl|]. rewrite Er. done.
  - eapply moves_takes; [|apply law_approve]. by econstructor.
Qed.

Lemma cancel_takes s env actor id key : takes s (CCancel env actor id key) (Service_Cancel s env actor id key).1.
Proof.
  unfold Service_Cancel. destruct (validateActor _ _ false); [|idle]. service_guard. destruct (ws_Get _ _ _ _); [|idle].
  destruct (if bool_decide _ then _ else _); [|idle]. eapply moves_takes; [|apply law_cancel]. constructor.
Qed.

Lemma observe_takes svc s env org id : takes s (CObserve svc env org id) (ObserveAndComplete svc s env org id).1.
Proof.
  unfold ObserveAndComplete. destruct (sv_observer svc) as [seen|] eqn:Es; [|idle]. service_guard.
  destruct (ws_Get _ _ _ _) as [w|] eqn:Eg; [|idle]. apply law_get in Eg as [Hl _]. do 2 service_guard.
  destruct (seen w) as [r|] eqn:Ew; [|idle]. service_guard. to_prop.
  destruct (match sv_authorityVerifier svc with Some verify => verify w r | None => Ok tt end) as [[]|] eqn:Ev; [|idle].
  eapply moves_takes; [|apply law_complete]. econstructor; [exact Hl|]. split; [done|]. exists seen. split; [done|]. exists w.
  split_and!; [done| |done|done]. by destruct (sv_authorityVerifier svc).
Qed.

Lemma get_takes s env actor id : takes s (CGet env actor id) (Service_Get s env actor id).1.
Proof.
  unfold Service_Get. service_guard. destruct (ws_Expire _ _ _ _ _) as [s' r] eqn:E. eapply moves_takes; [constructor|].
  change s' with (s', r).1. rewrite <- E. apply law_expire.
Qed.

Lemma serve_takes s c : takes s c (serve s c).
Proof.
  destruct c; cbn [serve].
  - apply create_takes.
  - apply get_takes.
  - apply approve_takes.
  - apply cancel_takes.
  - unfold RecordSubmission. service_guard. eapply moves_takes; [constructor|apply law_submit].
  - unfold RecordProvenRetry. service_guard. eapply moves_takes; [constructor|apply law_retry].
  - unfold RecordConfirmation. service_guard. eapply moves_takes; [constructor|apply law_confirm].
  - apply observe_takes.
  - unfold RecordChainFailure. service_guard. eapply moves_takes; [constructor|apply law_fail].
Qed.

(** *** The history of a workflow *)

Definition proposed_in (past : list call) (w : Workflow) : Prop :=
  exists l1 svc env actor key r l2, past = l1 ++ CCreate svc env actor key r :: l2 /\ proposes svc env actor r (w_Proposal w).
Definition approved_in (past : list call) (id : string) (w : Workflow) : Prop :=
  exists l1 svc env actor key l2, past = l1 ++ CApprove svc env actor id key :: l2 /\ proposed_in l1 w /\ approves svc env actor w.
Definition completed_in (past : list call) (a : wdb) (id : string) (w : Workflow) : Prop :=
  exists l1 svc env org l2 r, past = l1 ++ CObserve svc env org id :: l2 /\ completes svc w r /\
    w_Completion w = mkCompletion (Some r) (completionDigest r) (Unix (truncate (wn_now env))) /\
    sb_TxHash (w_Submission w) = cr_TransactionHash r /\ db_owners a !! receiptKey r = Some (id, completionDigest r).

Record justified (past : list call) (a : wdb) (id : string) (w : Workflow) : Prop := {
  ju_id : pr_WorkflowID (w_Proposal w) = id;
  ju_proposed : proposed_in past w;
  ju_approved : w_State w ∉ undecided -> approved_in past id w;
  ju_completed : w_State w = Finalized -> requiresChainReceipt (pr_Kind (w_Proposal w)) = true -> completed_in past a id w;
}.

Definition all_justified (past : list call) (a : wdb) : Prop := forall id w, db_workflows a !! id = Some w -> justified past a id w.

(** A later call does not undo the history. *)
Lemma proposed_in_app past c w w' : w_Proposal w' = w_Proposal w -> proposed_in past w -> proposed_in (past ++ [c]) w'.
Proof.
  intros E (l1 & svc & env & actor & key & r & l2 & -> & Hp). exists l1, svc, env, actor, key, r, (l2 ++ [c]).
  rewrite E, <- app_assoc. done.
Qed.

Lemma proposed_in_same past w w' : w_Proposal w' = w_Proposal w -> proposed_in past w -> proposed_in past w'.
Proof. unfold proposed_in. by intros ->. Qed.

Lemma bound_same w w' : w_Proposal w' = w_Proposal w -> boundActionForWorkflow w' = boundActionForWorkflow w.
Proof. unfold boundActionForWorkflow. by intros ->. Qed.

Lemma approves_same svc env actor w w' :
  w_Proposal w' = w_Proposal w -> w_Approval w' = w_Approval w -> approves svc env actor w -> approves svc env actor w'.
Proof. unfold approves. intros Hp Ha. rewrite (bound_same w w' Hp), Hp, Ha. done. Qed.

Lemma approved_in_app past c id w w' :
  w_Proposal w' = w_Proposal w -> w_Approval w' = w_Approval w -> approved_in past id w -> approved_in (past ++ [c]) id w'.
Proof.
  intros Ep Ea (l1 & svc & env & actor & key & l2 & -> & Hp & Hv). exists l1, svc, env, actor, key, (l2 ++ [c]).
  split_and!; [by rewrite <- app_assoc|by eapply proposed_in_same|by eapply approves_same].
Qed.

Lemma completed_in_app past c a a' id w :
  (forall k o, db_owners a !! k = Some o -> db_owners a' !! k = Some o) -> completed_in past a id w -> completed_in (past ++ [c]) a' id w.
Proof.
  intros Ho (l1 & svc & env & org & l2 & r & -> & Hc & Hw & Ht & Hk). exists l1, svc, env, org, (l2 ++ [c]), r.
  split_and!; [by rewrite <- app_assoc|done..|by apply Ho].
Qed.

Lemma wstep_owners a ev a' k o : wstep a ev a' -> db_owners a !! k = Some o -> db_owners a' !! k = Some o.
Proof.
  intros Hs Hk. destruct Hs as [| | | | | | |id r digest now w Hl Hc Hp Hx Ho|]; cbn; try done.
  destruct (decide (k = receiptKey r)) as [->|Hn]; [|by rewrite lookup_insert_ne].
  rewrite lookup_insert_eq. destruct Ho; congruence.
Qed.

(** A workflow a step leaves alone, or leaves short of completion. *)
Lemma justified_kept past c a a' id w w' :
  (forall k o, db_owners a !! k = Some o -> db_owners a' !! k = Some o) -> carries w w' -> justified past a id w ->
  (w_State w ∈ undecided -> w_State w' ∈ undecided) -> (w_State w' = Finalized -> w' = w) -> justified (past ++ [c]) a' id w'.
Proof.
  intros Ho Hc J Hu Hf. pose proof (ca_proposal _ _ Hc) as Ep. constructor.
  - rewrite Ep. apply J.
  - eapply proposed_in_app; [exact Ep|apply J].
  - intros Hn. assert (Hd : w_State w ∉ undecided) by (intros Hi; by apply Hn, Hu).
    eapply approved_in_app; [exact Ep|by apply (ca_approval _ _ Hc)|by apply J].
  - intros Hfin. rewrite (Hf Hfin) in Hfin |- *. intros Hr. eapply completed_in_app; [exact Ho|]. by apply J.
Qed.

Lemma justified_ended past c a a' id w w' :
  db_owners a' = db_owners a -> carries w w' -> w_State w' ∈ [Cancelled; Expired] -> justified past a id w -> justified (past ++ [c]) a' id w'.
Proof.
  intros Ho Hc Hs J. apply (justified_kept past c a a' id w); [by intros k o; rewrite Ho|exact Hc|exact J| |]; revert Hs; generalize (w_State w'); intros x Hs.
  - intros _. each_state Hs; by_states.
  - intros ->. exfalso. revert Hs. by_states.
Qed.

Lemma justified_progress past c a a' id w w' :
  db_owners a' = db_owners a -> carries w w' -> w_State w ∉ undecided -> w_State w' <> Finalized -> justified past a id w ->
  justified (past ++ [c]) a' id w'.
Proof. intros Ho Hc Hs Hf J. apply (justified_kept past c a a' id w); [by intros k o; rewrite Ho|exact Hc|exact J|done|done]. Qed.

Lemma justified_created past a svc env actor key r p :
  proposes svc env actor r p -> justified (past ++ [CCreate svc env actor key r]) a (pr_WorkflowID p) (new_workflow p).
Proof.
  intros Hp. constructor; [done| | |done].
  - by exists past, svc, env, actor, key, r, [].
  - intros []. by_states.
Qed.

Lemma approve_state actor now w :
  w_State (approve_workflow actor now w) = (if requiresChainReceipt (pr_Kind (w_Proposal w)) then ApprovedPendingChain else Finalized).
Proof. unfold approve_workflow. cbn [w_Proposal set_approval]. by destruct (requiresChainReceipt _). Qed.
Lemma approve_approval actor now w :
  w_Approval (approve_workflow actor now w) =
  mkApproval (an_PrincipalID actor) (an_Role actor) (Unix (an_StepUpAt actor)) (Unix (an_StepUpUntil actor)) (Unix now).
Proof. unfold approve_workflow. cbn [w_Proposal set_approval]. by destruct (requiresChainReceipt _). Qed.

Lemma justified_approved past a a' svc env actor id key w :
  let now := truncate (wn_now env) in
  w_State w = Proposed -> w_Org w = an_OrganizationID actor -> an_PrincipalID actor <> pr_ProposedBy (w_Proposal w) ->
  canApprove (pr_Kind (w_Proposal w)) (an_Role actor) = true -> validateActor actor (wn_now env) true = Ok tt ->
  (requiresChainReceipt (pr_Kind (w_Proposal w)) = true -> exists b, boundActionForWorkflow w = Ok b /\ gate_action (sv_actionGate svc) b = Ok tt) ->
  expired w now = false -> justified past a id w ->
  justified (past ++ [CApprove svc env actor id key]) a' id (approve_workflow actor now w).
Proof.
  intros now Hs Ho Hn Hc Hv Hb He J. pose proof (approve_proposal actor now w) as Ep. constructor.
  - rewrite Ep. apply J.
  - eapply proposed_in_app; [exact Ep|apply J].
  - intros _. exists past, svc, env, actor, key, []. split_and!; [done|eapply proposed_in_same; [exact Ep|apply J]|].
    unfold approves. rewrite (bound_same _ _ Ep), Ep, approve_approval. split_and!; try done.
    unfold expired in He. rewrite Hs, bool_decide_true in He by done. by apply negb_false_iff in He.
  - rewrite approve_state, Ep. by destruct (requiresChainReceipt _).
Qed.

Lemma justified_completed past a a' svc env org id w r :
  let now := truncate (wn_now env) in
  completionCandidateState (w_State w) = true -> completes svc w r -> db_owners a' !! receiptKey r = Some (id, completionDigest r) ->
  justified past a id w ->
  justified (past ++ [CObserve svc env org id]) a' id (complete_workflow r (completionDigest r) now w).
Proof.
  intros now Hc Hr Ho J. apply completion_candidate in Hc as [Hu _]. constructor.
  - apply J.
  - eapply proposed_in_app; [|apply J]. done.
  - intros _. eapply approved_in_app; [..|by apply J]; done.
  - intros _ _. exists past, svc, env, org, [], r. split_and!; done.
Qed.

Lemma justified_step past c ev a a' : all_justified past a -> granted a c ev -> wstep a ev a' -> all_justified (past ++ [c]) a'.
Proof.
  intros J G Hs id w' Hl. destruct (decide (id = event_id ev)) as [->|Hn].
  2:{ rewrite (wstep_other _ _ _ _ Hs Hn) in Hl. eapply justified_kept; [by intros k o; apply (wstep_owners a ev)|reflexivity|by apply J|done..]. }
  assert (Hcar : forall w, db_workflows a !! event_id ev = Some w -> carries w w').
  { intros w Hw. destruct (wstep_carries _ _ _ _ _ Hs Hw) as (x & Hx & Hc). congruence. }
  destruct Hs; cbn in Hl; rewrite lookup_insert_eq in Hl; injection Hl as <-; cbn [event_id] in *.
  - inversion G; subst. by apply justified_created.
  - inversion G as [| |? ? ? ? ? x Hx Hg| | | | | |]; subst. assert (x = w) as -> by congruence.
    unfold unless_expired in *. destruct (expired w _) eqn:Ee.
    + eapply (justified_ended _ _ a); [reflexivity|by apply Hcar| |by apply J]. by_states.
    + destruct (Hg ltac:(assumption)). eapply (justified_approved _ a); try done. by apply J.
  - unfold unless_expired in *. eapply (justified_ended _ _ a); [reflexivity|by apply Hcar| |by apply J]. destruct (expired w _); by_states.
  - eapply (justified_ended _ _ a); [reflexivity|by apply Hcar| |by apply J]. by_states.
  - eapply (justified_progress _ _ a); [reflexivity|by apply Hcar| |by_states|by apply J]. match goal with E : w_State w = _ |- _ => rewrite E end. by_states.
  - eapply (justified_progress _ _ a); [reflexivity|by apply Hcar| |by_states|by apply J]. by eapply retry_decided.
  - eapply (justified_progress _ _ a); [reflexivity|by apply Hcar| |by_states|by apply J]. match goal with E : w_State w = _ |- _ => rewrite E end. by_states.
  - inversion G; subst. match goal with Hx : db_workflows a !! id = Some ?x, Hy : completes _ ?y _ |- _ => assert (y = w) as -> by congruence end.
    eapply (justified_completed _ a); [done|done| |by apply J]. cbn. by rewrite lookup_insert_eq.
  - match goal with Hs : validFailureTransition _ _ = true |- _ => apply failure_transition in Hs as (Hu & _ & _ & Hf) end.
    eapply (justified_progress _ _ a); [reflexivity|by apply Hcar|done|done|by apply J].
Qed.

Lemma serve_all_app s calls more : serve_all s (calls ++ more) = serve_all (serve_all s calls) more.
Proof. apply fold_left_app. Qed.

Lemma serve_all_justified s calls : db s = empty_wdb -> all_justified calls (db (serve_all s calls)).
Proof.
  intros H3. induction calls as [|c calls IH] using rev_ind.
  - cbn. rewrite H3. intros id w. cbn. by rewrite lookup_empty.
  - rewrite serve_all_app. cbn. destruct (serve_takes (serve_all s calls) c) as [->|(ev & Hg & Hs)]; [|by eapply justified_step].
    intros id w Hl. apply (justified_kept calls c (db (serve_all s calls)) _ id w); [done|reflexivity|by apply IH|done..].
Qed.

Lemma serve_all_carries s calls id w :
  db_workflows (db s) !! id = Some w -> exists w', db_workflows (db (serve_all s calls)) !! id = Some w' /\ carries w w'.
Proof.
  revert s w. induction calls as [|c calls IH]; intros s w Hl; [by exists w|]. cbn.
  assert (exists x, db_workflows (db (serve s c)) !! id = Some x /\ carries w x) as (x & Hx & Hc).
  { destruct (serve_takes s c) as [->|(ev & _ & Hs)]; [by exists w|by eapply wstep_carries]. }
  destruct (IH _ _ Hx) as (w' & Hw & Hc'). exists w'. split; [done|by transitivity x].
Qed.

(** C12: Whatever is called on the service, in whatever order, by whomever: a workflow
    that is past its proposal (waiting for the chain, on chain, failed or finalized) was
    created by a call of a proposer with a fresh step-up and the role for its kind, from
    an action the gate accepted, and after that approved by a call of a different
    principal of the same organization, with a fresh step-up and the role to approve
    that kind, before it expired, with its action bound once more to exactly the target,
    selector and calldata proposed. Its approval records that second call. *)
Theorem workflow_dual_control s calls id w :
  db s = empty_wdb -> db_workflows (db (serve_all s calls)) !! id = Some w -> w_State w ∉ [Proposed; Cancelled; Expired] ->
  exists before proposer between approver after,
    calls = before ++ proposer :: between ++ approver :: after /\
    (exists svc env actor key r, proposer = CCreate svc env actor key r /\ proposes svc env actor r (w_Proposal w)) /\
    (exists svc env actor key, approver = CApprove svc env actor id key /\ approves svc env actor w).
Proof.
  intros He Hl Hs. destruct (ju_approved _ _ _ _ (serve_all_justified s calls He id w Hl) Hs) as (l1 & svc & env & actor & key & l2 & Ec & Hp & Ha).
  destruct Hp as (b & svc' & env' & actor' & key' & r & m & -> & Hp). rewrite <- app_assoc in Ec.
  exists b, (CCreate svc' env' actor' key' r), m, (CApprove svc env actor id key), l2. eauto 20.
Qed.

(** A chain-backed workflow is finalized only by a receipt the observer reported
    for it, which names its identifier, payload, chain, contract and selector, in a
    finalized block after its approval; and no two workflows are finalized by the same
    log of the same transaction. *)
Theorem workflow_completion_bound s calls id w :
  db s = empty_wdb -> db_workflows (db (serve_all s calls)) !! id = Some w -> w_State w = Finalized ->
  requiresChainReceipt (pr_Kind (w_Proposal w)) = true ->
  exists svc env org r,
    CObserve svc env org id ∈ calls /\ completes svc w r /\ co_Receipt (w_Completion w) = Some r /\
    co_Digest (w_Completion w) = completionDigest r /\ sb_TxHash (w_Submission w) = cr_TransactionHash r /\
    forall id' w' r', db_workflows (db (serve_all s calls)) !! id' = Some w' -> w_State w' = Finalized ->
      requiresChainReceipt (pr_Kind (w_Proposal w')) = true -> co_Receipt (w_Completion w') = Some r' ->
      receiptKey r' = receiptKey r -> id' = id.
Proof.
  intros He Hl Hs Hr. pose proof (serve_all_justified s calls He) as J.
  destruct (ju_completed _ _ _ _ (J id w Hl) Hs Hr) as (l1 & svc & env & org & l2 & r & Ec & Hc & Hw & Ht & Ho).
  exists svc, env, org, r. rewrite Hw. split_and!; try done; [rewrite Ec; set_solver|].
  intros id' w' r' Hl' Hs' Hr' Hx Hk.
  destruct (ju_completed _ _ _ _ (J id' w' Hl') Hs' Hr') as (? & ? & ? & ? & ? & r2 & _ & _ & Hw' & _ & Ho').
  rewrite Hw' in Hx. cbn in Hx. injection Hx as ->. congruence.
Qed.

(** From any store: no call changes what was proposed, an approval is never
    rewritten, an approved workflow never becomes a proposal again, and a finalized,
    cancelled or expired workflow stays exactly as it is. *)
Theorem workflow_history_monotone s calls id w :
  db_workflows (db s) !! id = Some w ->
  exists w', db_workflows (db (serve_all s calls)) !! id = Some w' /\ w_Proposal w' = w_Proposal w /\
    (w_State w ∉ [Proposed; Cancelled; Expired] -> w_Approval w' = w_Approval w /\ w_State w' ∉ [Proposed; Cancelled; Expired]) /\
    (w_State w ∈ [Finalized; Cancelled; Expired] -> w' = w).
Proof.
  intros Hl. destruct (serve_all_carries s calls id w Hl) as (w' & Hw & [P A D T]). exists w'. split_and!; auto.
Qed.

(** *** The commands the relayer takes *)

Lemma build_command w h c :
  buildExecutionCommand w h = Ok c ->
  gc_ApprovalActionHash c = h /\ gc_GovernanceAction c = pr_GovernanceAction (w_Proposal w) /\ buildExecutionCommand (command_workflow c) h = Ok c.
Proof.
  unfold buildExecutionCommand at 1. rewrite check_ok_iff. intros [Hg Hb]. apply try_ok_iff in Hb as (b & Hb & [= <-]). split_and!; [done..|].
  unfold buildExecutionCommand. rewrite check_ok_iff. split.
  - to_prop. cbn. naive_solver.
  - apply try_ok_iff. exists b. split; [|done]. rewrite <- Hb. reflexivity.
Qed.

(** The relayer's check accepts exactly the commands some approved workflow gives
    rise to: no field of a command can be altered, and none is refused that was built. *)
Theorem execution_command_equiv c :
  ValidateExecutionCommand c = Ok tt <-> exists w h, buildExecutionCommand w h = Ok c.
Proof.
  unfold ValidateExecutionCommand. split.
  - destruct (buildExecutionCommand (command_workflow c) _) as [e|] eqn:Eb; [|done]. rewrite check_ok_iff. to_prop. intros [Hc _].
    exists (command_workflow c), (gc_ApprovalActionHash c). rewrite Eb. f_equal. apply build_command in Eb as (_ & Ha & _).
    cbn in Ha. destruct c, e; cbn in *. naive_solver.
  - intros (w & h & Hb). apply build_command in Hb as (Eh & _ & Hb). rewrite Eh, Hb. rewrite check_ok_iff. to_prop. by split_and!.
Qed.
End Dual.

(** ** A change of the spending caps, from the proposal to the receipt *)

Section Demo.
#[local] Existing Instance ToyCrypto.
#[local] Existing Instance ToyAbi.

Definition at_second (n : Z) : time := time_of_unix n.
Definition demo_env (n : Z) : wenv := mkwenv (at_second n) None None (Err "no random source").
Definition demo_operator : Actor := mkActor "org_1" "alice" SignerOperator (at_second 1000) (at_second 1300).
Definition demo_admin : Actor := mkActor "org_1" "bob" OrgAdmin (at_second 1050) (at_second 1300).
Definition demo_request : CreateRequest := mkCreateRequest SignerCaps demo_workflow "" (Some demo_caps).
Definition demo_receipt : CompletionReceipt := {|
  cr_WorkflowID := demo_workflow; cr_PayloadHash := bd_PayloadHash demo_bound; cr_ChainAction := "SPEND_SCHEDULE_CAPS";
  cr_ChainID := 8453; cr_TransactionHash := demo_hash "8"; cr_BlockNumber := 50; cr_BlockHash := demo_hash "9"; cr_BlockTimestamp := 1190;
  cr_ConfirmedHead := 60; cr_FinalizedHead := 55; cr_LogIndex := 4; cr_ContractAddress := demo_contract;
  cr_EventSignature := GovernanceWorkflowBoundTopic; cr_FunctionSelector := bd_FunctionSelector demo_bound;
  cr_ActionEventSignature := demo_hash "a"; cr_ActionLogIndexes := [3]; cr_Observers := ["rpc_a"; "rpc_b"];
  cr_EvidenceDigest := demo_hash "b"; cr_Finality := "FINALIZED"; cr_AuthorityProof := [] |}.
Definition demo_service : WService := mkWService (Some (fun _ => Ok demo_receipt)) (Some (fun _ => Ok tt)) None.
Definition demo_calls : list call := [
  CCreate demo_service (demo_env 1060) demo_operator "key-1" demo_request;
  CApprove demo_service (demo_env 1070) demo_operator demo_workflow "key-2";
  CApprove demo_service (demo_env 1080) demo_admin demo_workflow "key-3";
  CSubmit (demo_env 1100) "org_1" demo_workflow (demo_hash "8");
  CConfirm (demo_env 1195) "org_1" demo_workflow (demo_hash "8");
  CObserve demo_service (demo_env 1200) "org_1" demo_workflow].

Definition demo_after (n : nat) : MemoryStore := serve_all NewMemoryStore (take n demo_calls).
Definition demo_of (n : nat) : Workflow := default zero_workflow (db_workflows (db (demo_after n)) !! demo_workflow).

Lemma demo_states : map (fun n => w_State (demo_of n)) [1; 2; 3; 4; 5; 6]%nat =
  [Proposed; Proposed; ApprovedPendingChain; Submitted; Confirmed; Finalized].
Proof. vm_compute. reflexivity. Qed.

Lemma default_lookup {A} (m : gmap string A) k z : bool_decide (m !! k = None) = false -> m !! k = Some (default z (m !! k)).
Proof. by destruct (m !! k). Qed.

Lemma demo_lookup n : bool_decide (db_workflows (db (demo_after n)) !! demo_workflow = None) = false ->
  db_workflows (db (serve_all NewMemoryStore (take n demo_calls))) !! demo_workflow = Some (demo_of n).
Proof. apply default_lookup. Qed.

Lemma workflow_dual_control_witness :
  w_State (demo_of 4) = Submitted /\
  exists before proposer between approver after,
    take 4 demo_calls = before ++ proposer :: between ++ approver :: after /\
    (exists svc env actor key r, proposer = CCreate svc env actor key r /\ proposes svc env actor r (w_Proposal (demo_of 4))) /\
    (exists svc env actor key, approver = CApprove svc env actor demo_workflow key /\ approves svc env actor (demo_of 4)).
Proof.
  split; [vm_compute; reflexivity|]. apply (workflow_dual_control NewMemoryStore (take 4 demo_calls) demo_workflow (demo_of 4)).
  - reflexivity.
  - apply demo_lookup. vm_compute. reflexivity.
  - by_states.
Defined.

Lemma workflow_completion_bound_witness :
  exists svc env org r,
    CObserve svc env org demo_workflow ∈ take 6 demo_calls /\ completes svc (demo_of 6) r /\ co_Receipt (w_Completion (demo_of 6)) = Some r /\
    co_Digest (w_Completion (demo_of 6)) = completionDigest r /\ sb_TxHash (w_Submission (demo_of 6)) = cr_TransactionHash r /\
    forall id' w' r', db_workflows (db (serve_all NewMemoryStore (take 6 demo_calls))) !! id' = Some w' -> w_State w' = Finalized ->
      requiresChainReceipt (pr_Kind (w_Proposal w')) = true -> co_Receipt (w_Completion w') = Some r' ->
      receiptKey r' = receiptKey r -> id' = demo_workflow.
Proof.
  apply (workflow_completion_bound NewMemoryStore (take 6 demo_calls) demo_workflow (demo_of 6)).
  - reflexivity.
  - apply demo_lookup. vm_compute. reflexivity.
  - vm_compute. reflexivity.
  - vm_compute. reflexivity.
Defined.

Lemma workflow_history_monotone_witness :
  exists w', db_workflows (db (serve_all (demo_after 3) (drop 3 demo_calls))) !! demo_workflow = Some w' /\
    w_Proposal w' = w_Proposal (demo_of 3) /\
    (w_State (demo_of 3) ∉ [Proposed; Cancelled; Expired] ->
     w_Approval w' = w_Approval (demo_of 3) /\ w_State w' ∉ [Proposed; Cancelled; Expired]) /\
    (w_State (demo_of 3) ∈ [Finalized; Cancelled; Expired] -> w' = demo_of 3).
Proof. apply (workflow_history_monotone (demo_after 3) (drop 3 demo_calls) demo_workflow (demo_of 3)). apply demo_lookup. vm_compute. reflexivity. Defined.
End Demo.
