(* ===== verification/Authority.v ===== *)
(** * Chain authority of workflows ([internal/ascpworkflow/authority.go], and
    [New] with its options of [workflow.go])

    Rules of the deployment say who may change what on which contract; a workflow is
    complete only when a quorum of independent observers saw exactly that. *)
From stdpp Require Import base gmap strings list fin_maps.
From Stdlib Require Import ZArith Lia Ascii.
From S2P Require Import Prelude GoText GoJSON Crypto Envelope GovAction GovActionTheorems Workflow WorkflowTheorems.

Open Scope Z_scope.

Definition ErrAuthorityProof : error := "workflow chain authority proof is invalid".

(** ** The inventory *)

(** Chain actions named like the typed action share its constant. *)
Definition ActionDirectoryPublish : ChainAction := "DIRECTORY_PUBLISH".
Definition ActionDirectorySetPublisher : ChainAction := "DIRECTORY_SET_PUBLISHER".
Definition ActionDirectorySetPauser : ChainAction := "DIRECTORY_SET_PAUSER".
Definition ActionDirectoryPauseSeller : ChainAction := "DIRECTORY_PAUSE_SELLER".
Definition ActionDirectoryUnpauseSeller : ChainAction := "DIRECTORY_UNPAUSE_SELLER".
Definition ActionDirectoryRevokeQuoteKey : ChainAction := "DIRECTORY_REVOKE_QUOTE_KEY".
Definition ActionDirectoryUnrevokeQuoteKey : ChainAction := "DIRECTORY_UNREVOKE_QUOTE_KEY".
Definition ActionAgentRegister : ChainAction := "AGENT_REGISTER".
Definition ActionAgentUpdatePolicy : ChainAction := "AGENT_UPDATE_POLICY".
Definition ActionAgentSetStatus : ChainAction := "AGENT_SET_STATUS".
Definition ActionAgentSetRegistryAdmin : ChainAction := "AGENT_SET_REGISTRY_ADMIN".
Definition ActionSpendSetAuthorizer : ChainAction := "SPEND_SET_AUTHORIZER".
Definition ActionSpendSetAllowlist : ChainAction := "SPEND_SET_ALLOWLIST".
Definition ActionSpendScheduleCaps : ChainAction := "SPEND_SCHEDULE_CAPS".
Definition ActionSafeEnableModule : ChainAction := "SAFE_ENABLE_MODULE".
Definition ActionSafeDisableModule : ChainAction := "SAFE_DISABLE_MODULE".
Definition ActionSafeAddOwner : ChainAction := "SAFE_ADD_OWNER_WITH_THRESHOLD".
Definition ActionSafeRemoveOwner : ChainAction := "SAFE_REMOVE_OWNER".
Definition ActionSafeSwapOwner : ChainAction := "SAFE_SWAP_OWNER".
Definition ActionSafeChangeThreshold : ChainAction := "SAFE_CHANGE_THRESHOLD".

Record InventoryEntry := mkEntry {
  ie_Action : ChainAction; ie_ActionType : ActionType; ie_OwnerAPIEnabled : bool; ie_OwnerAPIPath : string; ie_Approval : string;
  ie_Execution : string; ie_Receipt : string; ie_Audit : string; ie_DisabledReason : string }.

Definition enabledOwnerAction (action : ChainAction) (actionType : ActionType) : InventoryEntry := {|
  ie_Action := action; ie_ActionType := actionType; ie_OwnerAPIEnabled := true;
  ie_OwnerAPIPath := "POST /v1/workflows -> POST /v1/workflows/{workflowId}/approve";
  ie_Approval := "two distinct human principals with kind-specific roles and fresh step-up";
  ie_Execution := "immutable ascp.governance.execute command -> exact Safe CALL calldata";
  ie_Receipt := "independent finalized provider quorum plus atomic receipt ownership";
  ie_Audit := "append-only workflow action, event, outbox, relay, and receipt records";
  ie_DisabledReason := "" |}.
Definition disabledOwnerAction (action : ChainAction) (reason : string) : InventoryEntry := mkEntry action "" false "" "" "" "" "" reason.

Definition no_owner_action : string := "no typed Owner action or independent receipt rule".
Definition no_admin_action : string := "no typed signed-admin action or independent receipt rule".
Definition no_governor_action : string := "no typed governor action or independent receipt rule".
Definition local_only : string := "ROLE_ADMIN is local-only and has no chain receipt lifecycle".
Definition no_safe_action : string := "Safe action has no typed Owner action or workflow-bound receipt rule".
Definition no_safe_owner : string := "Safe owner action has no typed precondition schema or workflow-bound receipt rule".
Definition no_safe_threshold : string := "Safe threshold action has no typed precondition schema or workflow-bound receipt rule".

Definition ownerChainActionInventory : list InventoryEntry := [
  enabledOwnerAction ActionCallEscrowAddVerifier ActionCallEscrowAddVerifier;
  enabledOwnerAction ActionCallEscrowRevokeVerifier ActionCallEscrowRevokeVerifier;
  enabledOwnerAction ActionCallEscrowPause ActionCallEscrowPause;
  enabledOwnerAction ActionDirectoryPublish ActionDirectoryApprove;
  enabledOwnerAction ActionDirectoryCancel ActionDirectoryCancel;
  disabledOwnerAction ActionDirectorySetPublisher no_owner_action;
  disabledOwnerAction ActionDirectorySetPauser no_owner_action;
  disabledOwnerAction ActionDirectoryPauseSeller no_admin_action;
  disabledOwnerAction ActionDirectoryUnpauseSeller no_governor_action;
  disabledOwnerAction ActionDirectoryRevokeQuoteKey no_admin_action;
  disabledOwnerAction ActionDirectoryUnrevokeQuoteKey no_governor_action;
  disabledOwnerAction ActionAgentRegister local_only;
  disabledOwnerAction ActionAgentUpdatePolicy local_only;
  disabledOwnerAction ActionAgentSetStatus local_only;
  disabledOwnerAction ActionAgentSetRegistryAdmin no_owner_action;
  enabledOwnerAction ActionSpendSetAuthorizer ActionSpendAuthorizer;
  enabledOwnerAction ActionSpendSetAllowlist ActionSpendAllowlist;
  enabledOwnerAction ActionSpendScheduleCaps ActionSpendCaps;
  enabledOwnerAction ActionSpendPause ActionSpendPause;
  enabledOwnerAction ActionSpendInvalidateNonces ActionSpendInvalidateNonces;
  disabledOwnerAction ActionSafeEnableModule no_safe_action;
  disabledOwnerAction ActionSafeDisableModule no_safe_action;
  disabledOwnerAction ActionSafeAddOwner no_safe_owner;
  disabledOwnerAction ActionSafeRemoveOwner no_safe_owner;
  disabledOwnerAction ActionSafeSwapOwner no_safe_owner;
  disabledOwnerAction ActionSafeChangeThreshold no_safe_threshold].

Definition inventory_entry (action : ChainAction) : option InventoryEntry :=
  List.find (fun e => bool_decide (ie_Action e = action)) ownerChainActionInventory.
Definition ownerAPIEnabled (action : ChainAction) : bool :=
  match inventory_entry action with
  | Some e => ie_OwnerAPIEnabled e && negb (bool_decide (ie_ActionType e = "")) && bool_decide (ie_DisabledReason e = "")
  | None => false
  end.
Definition validChainAction (action : ChainAction) : bool := match inventory_entry action with Some _ => true | None => false end.

(** ** What an action is *)

Definition validKind (kind : Kind) : bool :=
  bool_decide (kind ∈ [PayoutChange; SignerCaps; VerifierGovernance; ProductionGate; BreakGlass; RoleAdmin; ModuleGovernance; KindDirectoryCancel]).

(** The kind, the proposer's and the approver's role. *)
Definition expectedAuthorityWorkflow (action : ChainAction) : option (Kind * Role * Role) :=
  if bool_decide (action ∈ [ActionCallEscrowAddVerifier; ActionCallEscrowRevokeVerifier]) then Some (VerifierGovernance, SignerOperator, OrgAdmin)
  else if bool_decide (action ∈ [ActionCallEscrowPause; ActionSpendPause]) then Some (BreakGlass, OrgAdmin, IncidentResponder)
  else if bool_decide (action = ActionDirectoryPublish) then Some (PayoutChange, SellerAdmin, OrgAdmin)
  else if bool_decide (action ∈ [ActionDirectoryCancel; ActionDirectoryPauseSeller; ActionDirectoryUnpauseSeller; ActionDirectoryRevokeQuoteKey;
                                 ActionDirectoryUnrevokeQuoteKey]) then Some (KindDirectoryCancel, SellerAdmin, OrgAdmin)
  else if bool_decide (action ∈ [ActionAgentRegister; ActionAgentUpdatePolicy; ActionAgentSetStatus]) then Some (RoleAdmin, OrgAdmin, OrgAdmin)
  else if bool_decide (action ∈ [ActionDirectorySetPublisher; ActionDirectorySetPauser; ActionAgentSetRegistryAdmin])
  then Some (BreakGlass, OrgAdmin, IncidentResponder)
  else if bool_decide (action = ActionSpendScheduleCaps) then Some (SignerCaps, SignerOperator, OrgAdmin)
  else if bool_decide (action ∈ [ActionSpendSetAuthorizer; ActionSpendSetAllowlist; ActionSpendInvalidateNonces; ActionSafeEnableModule;
                                 ActionSafeDisableModule]) then Some (ModuleGovernance, SignerOperator, OrgAdmin)
  else if bool_decide (action ∈ [ActionSafeAddOwner; ActionSafeRemoveOwner; ActionSafeSwapOwner; ActionSafeChangeThreshold])
  then Some (BreakGlass, OrgAdmin, IncidentResponder)
  else None.

(** Function, event, second event and whether the workflow event is emitted. *)
Definition surface (action : ChainAction) : option (string * string * string * bool) :=
  let authorization := "(bytes32,address,uint256,bytes32,bytes4,bytes32,bytes32,uint256,uint64,uint64,uint64,bytes32)" in
  let this a := bool_decide (action = a) in
  if this ActionCallEscrowAddVerifier then Some (sig_addVerifier, "VerifierAdded(address,uint64,uint64)", "", true)
  else if this ActionCallEscrowRevokeVerifier then Some (sig_revokeVerifier, "VerifierRevoked(address,uint64,uint64)", "", true)
  else if this ActionCallEscrowPause then Some (sig_escrowPause, "EmergencyPauseSet()", "", true)
  else if this ActionDirectoryPublish then Some (sig_approveVersion, "VersionApproved(bytes32,uint64,address,uint64,uint64)", "", true)
  else if this ActionDirectoryCancel then Some (sig_cancelVersion, "VersionCancelled(bytes32,uint64,address)", "", true)
  else if this ActionDirectorySetPublisher
  then Some ("setDirectoryPublisher(address,bytes32,bytes32)", "DirectoryPublisherSet(address,address,uint64)", "", true)
  else if this ActionDirectorySetPauser then Some ("setPauser(address,bytes32,bytes32)", "PauserSet(address,address,uint64)", "", true)
  else if this ActionDirectoryPauseSeller || this ActionDirectoryUnpauseSeller
  then Some ("pauseSeller(bytes32,bool,bytes32,bytes32," +:+ authorization +:+ ",bytes)", "SellerPaused(bytes32,bool,address,address)", "", true)
  else if this ActionDirectoryRevokeQuoteKey || this ActionDirectoryUnrevokeQuoteKey
  then Some ("setQuoteKeyRevoked(address,bool,bytes32,bytes32," +:+ authorization +:+ ",bytes)", "QuoteKeyRevoked(address,bool,address,address)",
             "", true)
  else if this ActionAgentRegister
  then Some ("register(string,bytes32,bytes32," +:+ authorization +:+ ",bytes)",
             "AgentRegistered(bytes32,bytes32,bytes32,string,bytes32,address,address)", "", false)
  else if this ActionAgentUpdatePolicy
  then Some ("updatePolicyHash(bytes32,bytes32,bytes32," +:+ authorization +:+ ",bytes)",
             "AgentPolicyUpdated(bytes32,bytes32,bytes32,bytes32,bytes32,address,address)", "", false)
  else if this ActionAgentSetStatus
  then Some ("setStatus(bytes32,uint8,bytes32," +:+ authorization +:+ ",bytes)",
             "AgentStatusSet(bytes32,uint8,uint8,bytes32,bytes32,address,address)", "", false)
  else if this ActionAgentSetRegistryAdmin then Some ("setRegistryAdmin(address,bytes32,bytes32)", "RegistryAdminSet(address,address,uint64)", "", true)
  else if this ActionSpendSetAuthorizer then Some (sig_authorizer, "SpendAuthorizerSet(address,uint64)", "", true)
  else if this ActionSpendSetAllowlist then Some (sig_allowlist, "EscrowAllowlistSet(address,bytes32)", "", true)
  else if this ActionSpendScheduleCaps then Some (sig_caps, "CapsScheduled(uint256,uint256,uint256,uint64)", "", true)
  else if this ActionSpendPause then Some (sig_spendPause, "EmergencyPauseSet(bool)", "", true)
  else if this ActionSpendInvalidateNonces then Some (sig_nonces, "NonceInvalidated(uint256)", "", true)
  else if this ActionSafeEnableModule then Some ("enableModule(address)", "EnabledModule(address)", "", false)
  else if this ActionSafeDisableModule then Some ("disableModule(address,address)", "DisabledModule(address)", "", false)
  else if this ActionSafeAddOwner then Some ("addOwnerWithThreshold(address,uint256)", "AddedOwner(address)", "", false)
  else if this ActionSafeRemoveOwner then Some ("removeOwner(address,address,uint256)", "RemovedOwner(address)", "", false)
  else if this ActionSafeSwapOwner then Some ("swapOwner(address,address,address)", "RemovedOwner(address)", "AddedOwner(address)", false)
  else if this ActionSafeChangeThreshold then Some ("changeThreshold(uint256)", "ChangedThreshold(uint256)", "", false)
  else None.

(** ** Rules and observations *)

Abbreviation RelayerMode := string (only parsing).
Definition RelayerExact : RelayerMode := "EXACT".
Definition RelayerAny : RelayerMode := "ANY".

Record AuthorityRule := mkRule {
  ru_Action : ChainAction; ru_Kind : Kind; ru_ChainID : Z; ru_ContractAddress : string; ru_ContractCodeHash : string;
  ru_OnChainPrincipal : string; ru_ProposerRole : Role; ru_ApproverRole : Role; ru_WorkflowQuorum : Z; ru_RelayerMode : RelayerMode;
  ru_Relayer : string; ru_FunctionSelector : string; ru_ActionEventSignature : string; ru_SecondaryActionEventSignature : string;
  ru_WorkflowEventSignature : string; ru_MinimumTimelockSeconds : Z; ru_EmergencyPath : string }.

#[export] Instance AuthorityObservation_eq_dec : EqDecision AuthorityObservation.
Proof. solve_decision. Defined.

Definition without_provider (o : AuthorityObservation) : AuthorityObservation :=
  mkAuthorityObservation "" (ao_ChainID o) (ao_TransactionHash o) (ao_BlockNumber o) (ao_BlockHash o) (ao_ContractAddress o)
    (ao_ContractCodeHash o) (ao_OnChainPrincipal o) (ao_Relayer o) (ao_FunctionSelector o) (ao_ActionEventSignature o)
    (ao_SecondaryActionEventSignature o) (ao_WorkflowEventSignature o) (ao_WorkflowID o) (ao_PayloadHash o) (ao_ActionLogIndex o)
    (ao_SecondaryActionLogIndex o) (ao_WorkflowLogIndex o) (ao_ObservedTimelockSeconds o) (ao_Finality o).
Definition sameAuthorityOutcome (left right : AuthorityObservation) : bool := bool_decide (without_provider left = without_provider right).

Definition containsLogIndex (indexes : list Z) (target : Z) : bool := existsb (fun i => i =? target) indexes.

Definition observationMatchesRule (o : AuthorityObservation) (rule : AuthorityRule) (w : Workflow) (r : CompletionReceipt) : bool :=
  let named s := negb (bool_decide (s = "")) in
  (ao_ChainID o =? ru_ChainID rule) && (ao_ChainID o =? cr_ChainID r) && bool_decide (ao_TransactionHash o = cr_TransactionHash r) &&
  (ao_BlockNumber o =? cr_BlockNumber r) && bool_decide (ao_BlockHash o = cr_BlockHash r) &&
  bool_decide (ao_ContractAddress o = ru_ContractAddress rule) && bool_decide (ao_ContractAddress o = cr_ContractAddress r) &&
  bool_decide (ao_ContractCodeHash o = ru_ContractCodeHash rule) && bool_decide (ao_OnChainPrincipal o = ru_OnChainPrincipal rule) &&
  bool_decide (ao_FunctionSelector o = ru_FunctionSelector rule) && bool_decide (ao_ActionEventSignature o = ru_ActionEventSignature rule) &&
  bool_decide (ao_ActionEventSignature o = cr_ActionEventSignature r) &&
  bool_decide (ao_SecondaryActionEventSignature o = ru_SecondaryActionEventSignature rule) &&
  bool_decide (ao_WorkflowEventSignature o = ru_WorkflowEventSignature rule) &&
  bool_decide (ao_WorkflowID o = pr_WorkflowID (w_Proposal w)) && bool_decide (ao_PayloadHash o = pr_PayloadHash (w_Proposal w)) &&
  bool_decide (ao_Finality o = "FINALIZED") && bool_decide (cr_Finality r = "FINALIZED") &&
  negb (named (ru_WorkflowEventSignature rule) && negb (bool_decide (ao_WorkflowEventSignature o = cr_EventSignature r))) &&
  containsLogIndex (cr_ActionLogIndexes r) (ao_ActionLogIndex o) && (ao_WorkflowLogIndex o =? cr_LogIndex r) &&
  (ru_MinimumTimelockSeconds rule <=? ao_ObservedTimelockSeconds o) &&
  negb (named (ru_WorkflowEventSignature rule) && (ao_ActionLogIndex o =? ao_WorkflowLogIndex o)) &&
  negb (named (ru_SecondaryActionEventSignature rule) &&
        ((ao_SecondaryActionLogIndex o =? ao_ActionLogIndex o) ||
         named (ru_WorkflowEventSignature rule) && (ao_SecondaryActionLogIndex o =? ao_WorkflowLogIndex o))) &&
  gov_address (ao_Relayer o) && (bool_decide (ru_RelayerMode rule = RelayerAny) || bool_decide (ao_Relayer o = ru_Relayer rule)).

(** ** The verifier *)

Record AuthorityVerifier := mkVerifier { av_rules : gmap string AuthorityRule; av_providerQuorum : Z }.

Section Authority.
Context `{Crypto}.

Definition functionSelector (signature : string) : string := "0x" +:+ hex_encode (String.substring 0 4 (keccak256 signature)).
Definition topicHash (signature : string) : string := "0x" +:+ hex_encode (keccak256 signature).
Definition topicHashOrEmpty (signature : string) : string := if bool_decide (signature = "") then "" else topicHash signature.

Definition expectedAuthoritySurface (action : ChainAction) : option (string * string * string * string) :=
  match surface action with
  | None => None
  | Some (function, event, secondary, wantsWorkflowEvent) =>
      Some (functionSelector function, topicHash event, topicHashOrEmpty secondary,
            if wantsWorkflowEvent : bool then topicHash "GovernanceWorkflowBound(bytes32,bytes32,bytes4)" else "")
  end.

Definition validAuthorityRule (rule : AuthorityRule) : bool :=
  match expectedAuthorityWorkflow (ru_Action rule), expectedAuthoritySurface (ru_Action rule) with
  | Some (wantKind, wantProposer, wantApprover), Some (wantSelector, wantActionEvent, wantSecondaryEvent, wantWorkflowEvent) =>
      ownerAPIEnabled (ru_Action rule) && validChainAction (ru_Action rule) && validKind (ru_Kind rule) &&
      ((ru_ChainID rule =? 8453) || (ru_ChainID rule =? 84532)) && gov_address (ru_ContractAddress rule) && w_hash (ru_ContractCodeHash rule) &&
      gov_address (ru_OnChainPrincipal rule) && bool_decide (ru_Kind rule = wantKind) && bool_decide (ru_ProposerRole rule = wantProposer) &&
      bool_decide (ru_ApproverRole rule = wantApprover) && canPropose (ru_Kind rule) (ru_ProposerRole rule) &&
      canApprove (ru_Kind rule) (ru_ApproverRole rule) && (ru_WorkflowQuorum rule =? 2) &&
      bool_decide (ru_FunctionSelector rule = wantSelector) && bool_decide (ru_ActionEventSignature rule = wantActionEvent) &&
      bool_decide (ru_SecondaryActionEventSignature rule = wantSecondaryEvent) &&
      bool_decide (ru_WorkflowEventSignature rule = wantWorkflowEvent) &&
      negb (bool_decide (TrimSpace (ru_EmergencyPath rule) = "")) && (str_len (ru_EmergencyPath rule) <=? 256) &&
      (if bool_decide (ru_RelayerMode rule = RelayerExact) then gov_address (ru_Relayer rule)
       else bool_decide (ru_RelayerMode rule = RelayerAny) && bool_decide (ru_Relayer rule = ""))
  | _, _ => false
  end.

Definition index_rule (indexed : gmap string AuthorityRule) (rule : AuthorityRule) : res (gmap string AuthorityRule) :=
  check validAuthorityRule rule else (ErrAuthorityProof +:+ ": invalid rule for " +:+ ru_Action rule) ;;
  match indexed !! ru_Action rule with
  | Some _ => Err (ErrAuthorityProof +:+ ": duplicate rule for " +:+ ru_Action rule)
  | None => Ok (<[ru_Action rule := rule]> indexed)
  end.

Definition NewAuthorityVerifier (rules : list AuthorityRule) (providerQuorum : Z) : res AuthorityVerifier :=
  check (2 <=? providerQuorum) && (providerQuorum <=? 5) && negb (Nat.eqb (length rules) 0) else ErrAuthorityProof ;;
  try indexed := fold_res index_rule ∅ rules in
  Ok (mkVerifier indexed providerQuorum).

Definition ValidateWorkflow (v : AuthorityVerifier) (kind : Kind) (action : ChainAction) (payloadHash : string) : res unit :=
  match av_rules v !! action with
  | Some rule => check bool_decide (ru_Kind rule = kind) && w_hash payloadHash else ErrAuthorityProof ;; Ok tt
  | None => Err ErrAuthorityProof
  end.

Definition ValidateGovernanceAction (v : AuthorityVerifier) (b : BoundAction) : res unit :=
  match chainActionForBound b with
  | Err _ => Err ErrAuthorityProof
  | Ok action =>
      match av_rules v !! action with
      | None => Err ErrAuthorityProof
      | Some rule =>
          check bool_decide (ru_Kind rule = bd_WorkflowKind b) && (ru_ChainID rule =? bd_ChainID b) &&
                bool_decide (ru_ContractAddress rule = bd_ContractAddress b) && bool_decide (ru_FunctionSelector rule = bd_FunctionSelector b) &&
                w_hash (bd_PayloadHash b)
            else ErrAuthorityProof ;;
          Ok tt
      end
  end.

(** One observation of the proof; the first one is the outcome the others share. *)
Definition proof_step (rule : AuthorityRule) (w : Workflow) (r : CompletionReceipt) (st : gset string * option AuthorityObservation)
    (o : AuthorityObservation) : res (gset string * option AuthorityObservation) :=
  let '(seen, canonical) := st in
  check w_identifier (ao_Provider o) && negb (bool_decide (ao_Provider o ∈ seen)) && observationMatchesRule o rule w r else ErrAuthorityProof ;;
  match canonical with
  | None => Ok ({[ao_Provider o]} ∪ seen, Some o)
  | Some c => check sameAuthorityOutcome c o else ErrAuthorityProof ;; Ok ({[ao_Provider o]} ∪ seen, canonical)
  end.

Definition VerifyWorkflowCompletion (v : AuthorityVerifier) (w : Workflow) (r : CompletionReceipt) : res unit :=
  let p := w_Proposal w in
  match av_rules v !! pr_ChainAction p with
  | None => Err ErrAuthorityProof
  | Some rule =>
      check validReceipt r && bool_decide (cr_ChainAction r = pr_ChainAction p) && bool_decide (ru_Kind rule = pr_Kind p) &&
            bool_decide (pr_PayloadHash p = cr_PayloadHash r) && bool_decide (pr_WorkflowID p = cr_WorkflowID r) &&
            completionCandidateState (w_State w) && bool_decide (pr_ProposerRole p = ru_ProposerRole rule) &&
            bool_decide (ap_ApproverRole (w_Approval w) = ru_ApproverRole rule) &&
            negb (bool_decide (pr_ProposedBy p = ap_ApprovedBy (w_Approval w))) && (ru_WorkflowQuorum rule =? 2) &&
            (av_providerQuorum v <=? Z.of_nat (length (cr_AuthorityProof r))) && Nat.leb (length (cr_AuthorityProof r)) 5
        else ErrAuthorityProof ;;
      try st := fold_res (proof_step rule w r) (∅, None) (cr_AuthorityProof r) in
      check av_providerQuorum v <=? Z.of_nat (size st.1) else ErrAuthorityProof ;;
      Ok tt
  end.

(** ** Putting a service together *)

(** A gate that also verifies completions is the service's authority verifier. *)
Record Gate := mkGate { ga_Validate : BoundAction -> res unit; ga_Verify : option (Workflow -> CompletionReceipt -> res unit) }.
(** An observer that also gates actions is the service's first gate. *)
Record Observer := mkObserver { ob_Observe : Workflow -> res CompletionReceipt; ob_Gate : option (BoundAction -> res unit) }.

(** [governanceActionGates] of two *)
Definition both_gates (f g : BoundAction -> res unit) (b : BoundAction) : res unit := try _ := f b in g b.

Definition WithGovernanceActionGate (gate : option Gate) (svc : WService) : res WService :=
  match gate with
  | None => Err "governance action gate is required"
  | Some g =>
      Ok (mkWService (sv_observer svc)
            (Some match sv_actionGate svc with Some f => both_gates f (ga_Validate g) | None => ga_Validate g end)
            match ga_Verify g with Some verify => Some verify | None => sv_authorityVerifier svc end)
  end.

Definition NewService (observer : option Observer) (options : list (option (WService -> res WService))) : res WService :=
  fold_res (fun svc (o : option (WService -> res WService)) => match o with Some f => f svc | None => Err "proposal workflow option is nil" end)
    (mkWService (option_map ob_Observe observer) (match observer with Some o => ob_Gate o | None => None end) None) options.

Definition authority_gate (v : AuthorityVerifier) : Gate := mkGate (ValidateGovernanceAction v) (Some (VerifyWorkflowCompletion v)).

(** [workflowIDSource]: the next 32 random bytes, unless they are all zero. *)
Definition next_workflow_id (random : res string) : res string :=
  match random with
  | Err m => Err ("generate workflow ID: " +:+ m)
  | Ok value => if str_all (fun c => code c =? 0) value then Err "generated zero workflow ID" else Ok ("0x" +:+ hex_encode value)
  end.
End Authority.

(** ** What a completion proves *)

Section AuthorityTheorems.
Context `{Crypto}.

(** The indexed rules are the given ones, each valid. *)
Lemma index_rules rules : forall indexed m a rule,
  fold_res index_rule indexed rules = Ok m -> m !! a = Some rule ->
  indexed !! a = Some rule \/ rule ∈ rules /\ validAuthorityRule rule = true /\ ru_Action rule = a.
Proof.
  induction rules as [|x rules IH]; intros indexed m a rule Hf Hl; [injection Hf as <-; by left|].
  rewrite fold_res_cons in Hf. apply try_ok_iff in Hf as (m1 & Hx & Hf). apply check_ok_iff in Hx as [Hv Hx].
  destruct (indexed !! ru_Action x); [done|]. injection Hx as <-. destruct (IH _ _ _ _ Hf Hl) as [Ha|(Hin & ? & ?)].
  - destruct (decide (ru_Action x = a)) as [E|E].
    + rewrite E, lookup_insert_eq in Ha. injection Ha as <-. right. split; [by left|done].
    + rewrite lookup_insert_ne in Ha by done. by left.
  - right. split; [by right|done].
Qed.

Lemma verifier_rules rules q v a rule :
  NewAuthorityVerifier rules q = Ok v -> av_rules v !! a = Some rule -> rule ∈ rules /\ validAuthorityRule rule = true /\ ru_Action rule = a.
Proof.
  unfold NewAuthorityVerifier. rewrite check_ok_iff. intros [_ Hv] Hl. apply try_ok_iff in Hv as (m & Hf & [= <-]).
  destruct (index_rules _ _ _ _ _ Hf Hl) as [He|]; [|done]. by rewrite lookup_empty in He.
Qed.

Lemma verifier_quorum rules q v : NewAuthorityVerifier rules q = Ok v -> av_providerQuorum v = q /\ 2 <= q <= 5.
Proof.
  unfold NewAuthorityVerifier. rewrite check_ok_iff. intros [Hq Hv]. apply try_ok_iff in Hv as (m & Hf & [= <-]). to_prop. cbn. lia.
Qed.

(** A proof the scan accepts, from what was seen before. *)
Record accepts (rule : AuthorityRule) (w : Workflow) (r : CompletionReceipt) (seen : gset string) (c : option AuthorityObservation)
    (l : list AuthorityObservation) : Prop := {
  ac_observations : Forall (fun o => w_identifier (ao_Provider o) = true /\ observationMatchesRule o rule w r = true) l;
  ac_distinct : NoDup (map ao_Provider l);
  ac_fresh : Forall (fun o => ao_Provider o ∉ seen) l;
  ac_agree : forall x, x = match c with Some _ => c | None => head l end -> Forall (fun o => option_map without_provider x = Some (without_provider o)) l;
}.

Lemma accepts_nil rule w r seen c : accepts rule w r seen c [].
Proof. split; constructor. Qed.

Lemma proof_step_cons rule w r seen c o l :
  accepts rule w r seen c (o :: l) <->
  exists st, proof_step rule w r (seen, c) o = Ok st /\ st.1 = {[ao_Provider o]} ∪ seen /\ ao_Provider o ∉ seen /\ accepts rule w r st.1 st.2 l.
Proof.
  unfold proof_step. split.
  - intros [Ho Hd Hf Ha]. apply Forall_cons in Ho as [[Hi Hm] Ho], Hf as [Hn Hf]. cbn in Hd. apply NoDup_cons in Hd as [Hnin Hd].
    specialize (Ha _ eq_refl). apply Forall_cons in Ha as [Hc Ha].
    assert (Hok : w_identifier (ao_Provider o) && negb (bool_decide (ao_Provider o ∈ seen)) && observationMatchesRule o rule w r = true)
      by (rewrite Hi, Hm, bool_decide_false by done; done).
    assert (Hfresh : Forall (fun x => ao_Provider x ∉ {[ao_Provider o]} ∪ seen) l).
    { apply Forall_forall. intros x Hx. rewrite Forall_forall in Hf. specialize (Hf x Hx).
      assert (ao_Provider x <> ao_Provider o) by (intros E; apply Hnin; rewrite <- E; by apply list_elem_of_fmap_2). set_solver. }
    exists ({[ao_Provider o]} ∪ seen, Some (default o c)). rewrite Hok. destruct c as [c|]; cbn [default].
    + cbn in Hc. apply (inj Some) in Hc. unfold sameAuthorityOutcome. rewrite Hc, bool_decide_true by done. cbn. split_and!; try done.
      split; try done. by intros x ->.
    + cbn. split_and!; try done. split; try done. by intros x ->.
  - intros (st & Hs & E1 & Hn & [Ho Hd Hf Ha]). apply check_ok_iff in Hs as [Hg Hs]. to_prop. rewrite E1 in Hf.
    assert (Hnin : ao_Provider o ∉ map ao_Provider l).
    { intros Hin. apply list_elem_of_fmap in Hin as (x & E & Hx). rewrite Forall_forall in Hf. specialize (Hf x Hx). set_solver. }
    split.
    + constructor; [tauto|done].
    + cbn. by constructor.
    + constructor; [done|]. eapply Forall_impl; [exact Hf|]. set_solver.
    + intros x ->. destruct c as [c|].
      * apply check_ok_iff in Hs as [Hc [= <-]]. apply bool_decide_eq_true in Hc. constructor; [cbn; by rewrite Hc|]. by apply Ha.
      * injection Hs as <-. constructor; [done|]. by apply Ha.
Qed.

Lemma proof_step_seen rule w r seen c o st :
  proof_step rule w r (seen, c) o = Ok st -> st.1 = {[ao_Provider o]} ∪ seen /\ ao_Provider o ∉ seen.
Proof.
  unfold proof_step. rewrite check_ok_iff. to_prop. intros [Hg Hs]. destruct c.
  - apply check_ok_iff in Hs as [_ [= <-]]. tauto.
  - injection Hs as <-. tauto.
Qed.

Lemma proof_scan_size rule w r l : forall st st', fold_res (proof_step rule w r) st l = Ok st' -> size st'.1 = (size st.1 + length l)%nat.
Proof.
  induction l as [|o l IH]; intros [seen c] st' Hf; [injection Hf as <-; cbn; lia|]. rewrite fold_res_cons in Hf.
  apply try_ok_iff in Hf as (s1 & Hs & Hf). rewrite (IH _ _ Hf). apply proof_step_seen in Hs as [-> Hn].
  rewrite size_union by set_solver. rewrite size_singleton. cbn. lia.
Qed.

Lemma proof_scan rule w r l : forall seen c, (exists st, fold_res (proof_step rule w r) (seen, c) l = Ok st) <-> accepts rule w r seen c l.
Proof.
  induction l as [|o l IH]; intros seen c.
  - split; [intros _; apply accepts_nil|]. intros _. by exists (seen, c).
  - rewrite proof_step_cons. setoid_rewrite fold_res_cons. setoid_rewrite try_ok_iff. split.
    + intros (st & [s1 c1] & Hs & Hf). exists (s1, c1). pose proof (proof_step_seen _ _ _ _ _ _ _ Hs) as [E Hn]. split_and!; [done..|].
      apply IH. by exists st.
    + intros ([s1 c1] & Hs & _ & _ & Ha). apply IH in Ha as (st & Hf). by exists st, (s1, c1).
Qed.

(** The rule of the workflow's action, and the roles that acted under it. *)
Definition rule_governs (rule : AuthorityRule) (w : Workflow) (r : CompletionReceipt) : Prop :=
  let p := w_Proposal w in
  ru_Kind rule = pr_Kind p /\ pr_ProposerRole p = ru_ProposerRole rule /\ ap_ApproverRole (w_Approval w) = ru_ApproverRole rule /\
  pr_ProposedBy p <> ap_ApprovedBy (w_Approval w) /\ ru_WorkflowQuorum rule = 2 /\ cr_ChainAction r = pr_ChainAction p /\
  pr_PayloadHash p = cr_PayloadHash r /\ pr_WorkflowID p = cr_WorkflowID r /\ validReceipt r = true.

(** Enough distinct observers, who all report the same outcome, which is the rule's. *)
Definition quorum_proof (rule : AuthorityRule) (q : Z) (w : Workflow) (r : CompletionReceipt) : Prop :=
  let proof := cr_AuthorityProof r in
  q <= Z.of_nat (length proof) <= 5 /\ NoDup (map ao_Provider proof) /\
  Forall (fun o => w_identifier (ao_Provider o) = true /\ observationMatchesRule o rule w r = true) proof /\
  forall x y, x ∈ proof -> y ∈ proof -> without_provider x = without_provider y.

Lemma accepts_agree rule w r l :
  accepts rule w r ∅ None l <->
  Forall (fun o => w_identifier (ao_Provider o) = true /\ observationMatchesRule o rule w r = true) l /\ NoDup (map ao_Provider l) /\
  forall x y, x ∈ l -> y ∈ l -> without_provider x = without_provider y.
Proof.
  split.
  - intros [Ho Hd _ Ha]. split_and!; [done..|]. specialize (Ha _ eq_refl). rewrite Forall_forall in Ha. intros x y Hx Hy.
    apply Ha in Hx, Hy. congruence.
  - intros (Ho & Hd & Ha). split; try done.
    + apply Forall_forall. set_solver.
    + intros x ->. apply Forall_forall. intros o Hin. destruct l as [|y l]; [by apply elem_of_nil in Hin|]. cbn. f_equal. apply Ha; [by left|done].
Qed.

Lemma authority_exact v w r :
  VerifyWorkflowCompletion v w r = Ok tt <->
  exists rule, av_rules v !! pr_ChainAction (w_Proposal w) = Some rule /\ completionCandidateState (w_State w) = true /\
    rule_governs rule w r /\ quorum_proof rule (av_providerQuorum v) w r.
Proof.
  unfold VerifyWorkflowCompletion, rule_governs, quorum_proof. destruct (av_rules v !! _) as [rule|]; [|split; [done|by intros (? & ? & _)]].
  rewrite check_ok_iff. to_prop. rewrite try_ok_iff. setoid_rewrite check_ok_iff. to_prop. split.
  - intros [Hg (st & Hf & _)]. exists rule. assert (Ha : accepts rule w r ∅ None (cr_AuthorityProof r)) by (apply proof_scan; by exists st).
    apply accepts_agree in Ha. split_and!; try tauto; lia.
  - intros (? & [= <-] & Hc & Hg & (Hq & Hd & Ho & Ha)).
    assert (exists st, fold_res (proof_step rule w r) (∅, None) (cr_AuthorityProof r) = Ok st) as [st Hf] by (by apply proof_scan, accepts_agree).
    split; [split_and!; try tauto; lia|]. exists st. split; [done|]. split; [|done].
    apply proof_scan_size in Hf. cbn [fst] in Hf. rewrite size_empty in Hf. lia.
Qed.

(** A completion is verified exactly when the deployment has a rule for the
    workflow's chain action, the workflow is one that may complete, its kind, its
    proposer's and its approver's role and the receipt fit that rule, and between the
    quorum and five distinct observers report one and the same finalized outcome, which
    is the rule's: contract, code, principal, selector, events, time lock and relayer. *)
Theorem authority_verification_exact v w r :
  VerifyWorkflowCompletion v w r = Ok tt <->
  exists rule, av_rules v !! pr_ChainAction (w_Proposal w) = Some rule /\ completionCandidateState (w_State w) = true /\
    rule_governs rule w r /\ quorum_proof rule (av_providerQuorum v) w r.
Proof. apply authority_exact. Qed.

(** ** Finalization *)

Section Finalization.
Context `{Abi} {S : Type} `{StoreLaws S}.

(** Every observation is made by a service put together with the gate of the rules. *)
Definition deployed (v : AuthorityVerifier) (calls : list call) : Prop :=
  forall svc env org id, CObserve svc env org id ∈ calls ->
  exists observer options, NewService observer (options ++ [Some (WithGovernanceActionGate (Some (authority_gate v)))]) = Ok svc.

Lemma deployed_verifies v calls svc env org id :
  deployed v calls -> CObserve svc env org id ∈ calls -> sv_authorityVerifier svc = Some (VerifyWorkflowCompletion v).
Proof.
  intros Hd Hin. apply Hd in Hin as (observer & options & Hs). unfold NewService in Hs. rewrite fold_res_snoc in Hs.
  apply try_ok_iff in Hs as (svc0 & _ & Hs). by injection Hs as <-.
Qed.

Lemma finalized_verified v s calls id w :
  db s = empty_wdb -> deployed v calls -> db_workflows (db (serve_all s calls)) !! id = Some w -> w_State w = Finalized ->
  requiresChainReceipt (pr_Kind (w_Proposal w)) = true ->
  exists r rule, co_Receipt (w_Completion w) = Some r /\ receipt_matches w r = true /\ av_rules v !! pr_ChainAction (w_Proposal w) = Some rule /\
    rule_governs rule w r /\ quorum_proof rule (av_providerQuorum v) w r.
Proof.
  intros He Hv Hl Hs Hr. pose proof (serve_all_justified s calls He id w Hl) as J.
  destruct (ju_completed _ _ _ _ J Hs Hr) as (l1 & svc & env & org & l2 & r & Ec & [Hm (seen & _ & w0 & _ & Ha & Ep & Eap)] & Hw & _).
  assert (Hin : CObserve svc env org id ∈ calls) by (rewrite Ec; set_solver). rewrite (deployed_verifies _ _ _ _ _ _ Hv Hin) in Ha.
  apply authority_exact in Ha as (rule & Hrule & _ & Hg & Hq). rewrite Ep in Hrule. exists r, rule. rewrite Hw.
  unfold rule_governs, quorum_proof, observationMatchesRule in *. rewrite Ep, Eap in *. split_and!; try done; tauto.
Qed.

(** C13: In a deployment whose services are put together with the authority rules,
    whatever is called: a chain-backed workflow is finalized only under a valid rule the
    deployment lists for its chain action, proposed and approved by the two roles of
    that rule, with at least two (the quorum) and at most five distinct observers
    reporting the same finalized transaction on the contract, code, principal and
    selector of the rule, with the workflow's identifier and payload. *)
Theorem finalized_by_authority_quorum rules q v s calls id w :
  NewAuthorityVerifier rules q = Ok v -> db s = empty_wdb -> deployed v calls ->
  db_workflows (db (serve_all s calls)) !! id = Some w -> w_State w = Finalized -> requiresChainReceipt (pr_Kind (w_Proposal w)) = true ->
  exists r rule, co_Receipt (w_Completion w) = Some r /\ receipt_matches w r = true /\ rule ∈ rules /\
    ru_Action rule = pr_ChainAction (w_Proposal w) /\ validAuthorityRule rule = true /\ rule_governs rule w r /\
    2 <= q /\ quorum_proof rule q w r.
Proof.
  intros Hn He Hv Hl Hs Hr. destruct (finalized_verified v s calls id w He Hv Hl Hs Hr) as (r & rule & Hc & Hm & Hrule & Hg & Hq).
  destruct (verifier_rules _ _ _ _ _ Hn Hrule) as (Hin & Hval & Hact). destruct (verifier_quorum _ _ _ Hn) as [Eq Hb].
  rewrite Eq in Hq. exists r, rule. split_and!; try done. lia.
Qed.

(** The rule of a payout change wants an organization administrator as approver. *)
Lemma payout_rule rule : validAuthorityRule rule = true -> ru_Kind rule = PayoutChange -> ru_ApproverRole rule = OrgAdmin.
Proof.
  unfold validAuthorityRule. destruct (expectedAuthorityWorkflow _) as [[[k p] a]|] eqn:Ew; [|done].
  destruct (expectedAuthoritySurface _) as [[[[? ?] ?] ?]|]; [|done]. to_prop. intros Hv Hk.
  assert (Ek : k = PayoutChange) by (rewrite <- Hk; symmetry; apply Hv). assert (Ea : ru_ApproverRole rule = a) by apply Hv. rewrite Ea.
  clear -Ew Ek. subst k. unfold expectedAuthorityWorkflow in Ew. repeat case_bool_decide; by simplify_eq.
Qed.

(** A payout change may be approved by a seller administrator (and is then
    submitted and executed on chain), but under no set of rules is it ever finalized:
    the rule of its action only knows organization administrators as approvers. *)
Theorem seller_approved_payout_never_finalizes rules q v s calls id w :
  NewAuthorityVerifier rules q = Ok v -> db s = empty_wdb -> deployed v calls ->
  db_workflows (db (serve_all s calls)) !! id = Some w ->
  pr_Kind (w_Proposal w) = PayoutChange -> ap_ApproverRole (w_Approval w) = SellerAdmin ->
  canApprove PayoutChange SellerAdmin = true /\ w_State w <> Finalized.
Proof.
  intros Hn He Hv Hl Hk Ha. split; [vm_compute; reflexivity|]. intros Hs.
  destruct (finalized_verified v s calls id w He Hv Hl Hs) as (r & rule & _ & _ & Hrule & Hg & _); [rewrite Hk; vm_compute; reflexivity|].
  destruct (verifier_rules _ _ _ _ _ Hn Hrule) as (_ & Hval & _). destruct Hg as (Ek & _ & Er & _).
  rewrite Hk in Ek. rewrite Ha, (payout_rule _ Hval Ek) in Er. discriminate Er.
Qed.
End Finalization.
End AuthorityTheorems.

(** ** Two changes under the rules of a deployment *)

Section AuthorityDemo.

(** Keccak-256 where the receipt checks know its value. *)
Definition topic_bytes : string := default "" (hex_decode "71840a8df3cf7e14c302ff72b4fd1c651a2845389dfb0a4fdd884a2ffb104bfe").
Definition DemoCrypto : Crypto := {|
  sha256 := @sha256 ToyCrypto;
  keccak256 m := if bool_decide (m = "GovernanceWorkflowBound(bytes32,bytes32,bytes4)") then topic_bytes else @keccak256 ToyCrypto m;
  ed25519_sign := @ed25519_sign ToyCrypto;
  ed25519_verify := @ed25519_verify ToyCrypto;
  ed25519_public := @ed25519_public ToyCrypto |}.
#[local] Existing Instance DemoCrypto.
#[local] Existing Instance ToyAbi.

Definition rule_for (action : ChainAction) (signature event : string) : AuthorityRule :=
  let '(kind, proposer, approver) := default ("", "", "") (expectedAuthorityWorkflow action) in {|
  ru_Action := action; ru_Kind := kind; ru_ChainID := 8453; ru_ContractAddress := demo_contract; ru_ContractCodeHash := demo_hash "c";
  ru_OnChainPrincipal := demo_buyer; ru_ProposerRole := proposer; ru_ApproverRole := approver; ru_WorkflowQuorum := 2;
  ru_RelayerMode := RelayerAny; ru_Relayer := ""; ru_FunctionSelector := functionSelector signature; ru_ActionEventSignature := topicHash event;
  ru_SecondaryActionEventSignature := ""; ru_WorkflowEventSignature := GovernanceWorkflowBoundTopic; ru_MinimumTimelockSeconds := 3600;
  ru_EmergencyPath := "docs/runbooks/emergency.md" |}.

Definition demo_rules : list AuthorityRule := [
  rule_for ActionSpendScheduleCaps sig_caps "CapsScheduled(uint256,uint256,uint256,uint64)";
  rule_for ActionDirectoryPublish sig_approveVersion "VersionApproved(bytes32,uint64,address,uint64,uint64)"].
Definition demo_verifier : AuthorityVerifier := match NewAuthorityVerifier demo_rules 2 with Ok v => v | Err _ => mkVerifier ∅ 0 end.

Definition observed_by (provider : string) (b : BoundAction) : AuthorityObservation := {|
  ao_Provider := provider; ao_ChainID := 8453; ao_TransactionHash := demo_hash "8"; ao_BlockNumber := 50; ao_BlockHash := demo_hash "9";
  ao_ContractAddress := demo_contract; ao_ContractCodeHash := demo_hash "c"; ao_OnChainPrincipal := demo_buyer; ao_Relayer := demo_asset;
  ao_FunctionSelector := bd_FunctionSelector b; ao_ActionEventSignature := topicHash "CapsScheduled(uint256,uint256,uint256,uint64)";
  ao_SecondaryActionEventSignature := ""; ao_WorkflowEventSignature := GovernanceWorkflowBoundTopic; ao_WorkflowID := demo_workflow;
  ao_PayloadHash := bd_PayloadHash b; ao_ActionLogIndex := 3; ao_SecondaryActionLogIndex := 0; ao_WorkflowLogIndex := 4;
  ao_ObservedTimelockSeconds := 3600; ao_Finality := "FINALIZED" |}.

Definition proven_bound : BoundAction :=
  match BindAction demo_workflow demo_caps with Ok b => b | Err _ => mkBoundAction "" "" 0 "" "" "" demo_caps end.
Definition proven_receipt : CompletionReceipt := {|
  cr_WorkflowID := demo_workflow; cr_PayloadHash := bd_PayloadHash proven_bound; cr_ChainAction := "SPEND_SCHEDULE_CAPS";
  cr_ChainID := 8453; cr_TransactionHash := demo_hash "8"; cr_BlockNumber := 50; cr_BlockHash := demo_hash "9"; cr_BlockTimestamp := 1190;
  cr_ConfirmedHead := 60; cr_FinalizedHead := 55; cr_LogIndex := 4; cr_ContractAddress := demo_contract;
  cr_EventSignature := GovernanceWorkflowBoundTopic; cr_FunctionSelector := bd_FunctionSelector proven_bound;
  cr_ActionEventSignature := topicHash "CapsScheduled(uint256,uint256,uint256,uint64)"; cr_ActionLogIndexes := [3];
  cr_Observers := ["rpc_a"; "rpc_b"]; cr_EvidenceDigest := demo_hash "b"; cr_Finality := "FINALIZED";
  cr_AuthorityProof := [observed_by "rpc_a" proven_bound; observed_by "rpc_b" proven_bound] |}.

Definition demo_observer : Observer := mkObserver (fun _ => Ok proven_receipt) None.
Definition deployed_service : WService :=
  match NewService (Some demo_observer) [Some (WithGovernanceActionGate (Some (authority_gate demo_verifier)))] with
  | Ok svc => svc
  | Err _ => mkWService None None None
  end.

(** The caps change of alice and bob; and a payout change two sellers agree on. *)
Definition demo_seller (name : string) : Actor := mkActor "org_1" name SellerAdmin (at_second 1050) (at_second 1300).
Definition demo_publish : Action := action_of 8453 demo_contract
  (ChApprove (mkDirectoryApprove (mkDirectoryProposal 2 1 (demo_hash "d") (demo_hash "e") (demo_hash "f") (demo_hash "1") 1 0) "7")).
Definition payout_id : string := demo_hash "6".
Definition deployed_calls : list call := [
  CCreate deployed_service (demo_env 1060) demo_operator "key-1" demo_request;
  CCreate deployed_service (demo_env 1061) (demo_seller "carol") "key-2" (mkCreateRequest PayoutChange payout_id "" (Some demo_publish));
  CApprove deployed_service (demo_env 1080) demo_admin demo_workflow "key-3";
  CApprove deployed_service (demo_env 1081) (demo_seller "dave") payout_id "key-4";
  CSubmit (demo_env 1100) "org_1" demo_workflow (demo_hash "8");
  CConfirm (demo_env 1195) "org_1" demo_workflow (demo_hash "8");
  CObserve deployed_service (demo_env 1200) "org_1" demo_workflow].

Definition deployed_store : MemoryStore := serve_all NewMemoryStore deployed_calls.
Definition deployed_workflow (id : string) : Workflow := default zero_workflow (db_workflows (db deployed_store) !! id).

Lemma deployed_states : (w_State (deployed_workflow demo_workflow), w_State (deployed_workflow payout_id)) = (Finalized, ApprovedPendingChain).
Proof. vm_compute. reflexivity. Qed.

Lemma demo_verifier_new : NewAuthorityVerifier demo_rules 2 = Ok demo_verifier.
Proof. vm_compute. reflexivity. Qed.

Lemma deployed_new :
  NewService (Some demo_observer) ([] ++ [Some (WithGovernanceActionGate (Some (authority_gate demo_verifier)))]) = Ok deployed_service.
Proof. reflexivity. Qed.

Lemma demo_deployed : deployed demo_verifier deployed_calls.
Proof.
  assert (Ho : Forall (fun c => match c with CObserve svc _ _ _ => svc = deployed_service | _ => True end) deployed_calls)
    by (repeat constructor).
  intros svc env org id Hin. rewrite Forall_forall in Ho. specialize (Ho _ Hin). cbn in Ho. rewrite Ho.
  exists (Some demo_observer), []. exact deployed_new.
Qed.

Lemma deployed_lookup id : bool_decide (db_workflows (db (serve_all NewMemoryStore deployed_calls)) !! id = None) = false ->
  db_workflows (db (serve_all NewMemoryStore deployed_calls)) !! id = Some (deployed_workflow id).
Proof. unfold deployed_workflow, deployed_store. generalize (serve_all NewMemoryStore deployed_calls). intros s. apply default_lookup. Qed.

Lemma finalized_by_authority_quorum_witness :
  exists r rule, co_Receipt (w_Completion (deployed_workflow demo_workflow)) = Some r /\
    receipt_matches (deployed_workflow demo_workflow) r = true /\ rule ∈ demo_rules /\
    ru_Action rule = pr_ChainAction (w_Proposal (deployed_workflow demo_workflow)) /\ validAuthorityRule rule = true /\
    rule_governs rule (deployed_workflow demo_workflow) r /\ 2 <= 2 /\ quorum_proof rule 2 (deployed_workflow demo_workflow) r.
Proof.
  apply (finalized_by_authority_quorum demo_rules 2 demo_verifier NewMemoryStore deployed_calls demo_workflow).
  - exact demo_verifier_new.
  - reflexivity.
  - exact demo_deployed.
  - refine (deployed_lookup _ _). vm_compute. reflexivity.
  - vm_compute. reflexivity.
  - vm_compute. reflexivity.
Defined.

Lemma seller_approved_payout_never_finalizes_witness :
  canApprove PayoutChange SellerAdmin = true /\ w_State (deployed_workflow payout_id) <> Finalized.
Proof.
  apply (seller_approved_payout_never_finalizes demo_rules 2 demo_verifier NewMemoryStore deployed_calls payout_id).
  - exact demo_verifier_new.
  - reflexivity.
  - exact demo_deployed.
  - refine (deployed_lookup _ _). vm_compute. reflexivity.
  - vm_compute. reflexivity.
  - vm_compute. reflexivity.
Defined.
End AuthorityDemo.
