(* ===== verification/SafeTx.v ===== *)
(** * Safe transactions ([pkg/safegovernance/safe.go])

    The one shape of Safe transaction governance uses, its EIP-712 hash, the owner
    signatures over it and the calldata of [execTransaction]. ECDSA recovery and the
    ABI code of [execTransaction] are parameters: both belong to go-ethereum. *)
From stdpp Require Import base gmap strings list sorting.
From Stdlib Require Import ZArith Lia Ascii.
From S2P Require Import Prelude GoText GoJSON Crypto Envelope GovAction GovActionTheorems.

Open Scope Z_scope.

(** ** What go-ethereum does *)

(** [ecdsa_recover digest sig] is the address that made the signature (with [v] 0 or 1),
    [ecdsa_values] is [ValidateSignatureValues] with the low-[s] rule; [exec_pack] and
    [exec_unpack] are the arguments of [execTransaction], of which the caller chooses
    the target, the data and the signatures. *)
Class SafeLib := {
  ecdsa_recover : string -> string -> res string;
  ecdsa_values : Z -> string -> string -> bool;
  exec_pack : string -> string -> string -> string;
  exec_unpack : string -> option string;
}.

(** Decoding gives back the encoded signatures. *)
Class SafeLibLaws `{SafeLib} := {
  exec_unpack_pack to_ data sigs : exec_unpack (exec_pack to_ data sigs) = Some sigs;
}.

(** ** The transaction *)

Definition OperationCall : Z := 0.
Definition maxDataBytes : Z := 64 * 1024.
Definition ErrInvalidTransaction : error := "invalid Safe governance transaction".
Definition ErrInvalidOwners : error := "invalid Safe owner snapshot".
Definition ErrInvalidSignatures : error := "invalid Safe owner signatures".

Record Transaction := mkTransaction {
  tx_ChainID : Z; tx_Safe : string; tx_To : string; tx_Value : string; tx_Data : string; tx_Operation : Z; tx_SafeTxGas : string;
  tx_BaseGas : string; tx_GasPrice : string; tx_GasToken : string; tx_RefundReceiver : string; tx_Nonce : Z }.

Record OwnerSnapshot := mkOwnerSnapshot { os_Owners : list string; os_Threshold : Z }.

(** [errors.Join] of an error and one that may be absent *)
Definition join (e : error) (r : option error) : error :=
  match r with Some m => e +:+ newline +:+ m | None => e end.
Definition err_of {A} (r : res A) : option error := match r with Ok _ => None | Err m => Some m end.

Definition Transaction_Validate (t : Transaction) : res unit :=
  check ((tx_ChainID t =? 8453) || (tx_ChainID t =? 84532)) && gov_address (tx_Safe t) && gov_address (tx_To t) &&
        negb (bool_decide (tx_Safe t = tx_To t)) && bool_decide (tx_Value t = "0") && (4 <=? str_len (tx_Data t)) &&
        (str_len (tx_Data t) <=? maxDataBytes) && (tx_Operation t =? OperationCall) && bool_decide (tx_SafeTxGas t = "0") &&
        bool_decide (tx_BaseGas t = "0") && bool_decide (tx_GasPrice t = "0") && bool_decide (tx_GasToken t = zero_address) &&
        bool_decide (tx_RefundReceiver t = zero_address)
    else ErrInvalidTransaction ;;
  Ok tt.

Definition NewTransaction (chainID : Z) (safe target data : string) (nonce : Z) : res Transaction :=
  let t := mkTransaction chainID safe target "0" data OperationCall "0" "0" "0" zero_address zero_address nonce in
  try _ := Transaction_Validate t in Ok t.

(** Owners in strictly ascending order. *)
Fixpoint ascending (owners : list string) : bool :=
  match owners with
  | x :: ((y :: _) as rest) => negb (String.leb y x) && ascending rest
  | _ => true
  end.

Definition canonicalOwners (s : OwnerSnapshot) : res (list string) :=
  check (1 <=? os_Threshold s) && (os_Threshold s <=? Z.of_nat (length (os_Owners s))) && Nat.leb (length (os_Owners s)) 50
    else ErrInvalidOwners ;;
  check forallb gov_address (os_Owners s) && ascending (os_Owners s) else ErrInvalidOwners ;;
  Ok (os_Owners s).

Section Safe.
Context `{Crypto} `{Abi} `{SafeLib}.

Definition domainTypeHash : string := keccak256 "EIP712Domain(uint256 chainId,address verifyingContract)".
Definition safeTxTypeHash : string :=
  keccak256 "SafeTx(address to,uint256 value,bytes data,uint8 operation,uint256 safeTxGas,uint256 baseGas,uint256 gasPrice,address gasToken,address refundReceiver,uint256 nonce)".
Definition execSelector : string :=
  selector "execTransaction(address,uint256,bytes,uint8,uint256,uint256,uint256,address,address,bytes)".

Definition domain_words (t : Transaction) : list abi_value := [VBytes32 domainTypeHash; VUint 256 (tx_ChainID t); VAddr (tx_Safe t)].
Definition tx_words (t : Transaction) : list abi_value :=
  [VBytes32 safeTxTypeHash; VAddr (tx_To t); VUint 256 0; VBytes32 (keccak256 (tx_Data t)); VUint 8 (tx_Operation t); VUint 256 0; VUint 256 0;
   VUint 256 0; VAddr zero_address; VAddr zero_address; VUint 256 (tx_Nonce t)].
Definition eip712_prefix : string := String "025" (String "001" "").

Definition Transaction_Hash (t : Transaction) : res string :=
  try _ := Transaction_Validate t in
  Ok ("0x" +:+ hex_encode (keccak256 (eip712_prefix +:+ keccak256 (abi_pack (domain_words t)) +:+ keccak256 (abi_pack (tx_words t))))).

(** The [n] signatures from [offset] on; [last] is the owner before. *)
Fixpoint signature_scan (digest : string) (owners : list string) (signatures : string) (n : nat) (offset : nat) (last : string) : res unit :=
  match n with
  | O => Ok tt
  | S n =>
      let signature := String.substring offset 65 signatures in
      let v := match String.get 64 signature with Some c => code c | None => 0 end in
      check (v =? 27) || (v =? 28) else ErrInvalidSignatures ;;
      let r := String.substring 0 32 signature in
      let s := String.substring 32 32 signature in
      check ecdsa_values (v - 27) r s else ErrInvalidSignatures ;;
      match ecdsa_recover digest (r +:+ s +:+ String (char_of (v - 27)) "") with
      | Err m => Err (join ErrInvalidSignatures (Some m))
      | Ok address =>
          let owner := "0x" +:+ hex_encode address in
          check bool_decide (owner ∈ owners) && (bool_decide (last = "") || negb (String.leb owner last)) else ErrInvalidSignatures ;;
          signature_scan digest owners signatures n (offset + 65) owner
      end
  end.

Definition VerifySignatures (digest : string) (snapshot : OwnerSnapshot) (signatures : string) : res unit :=
  match canonicalOwners snapshot with
  | Err m => Err (join ErrInvalidSignatures (Some m))
  | Ok owners =>
      check gov_hash digest false && (str_len signatures =? os_Threshold snapshot * 65) else ErrInvalidSignatures ;;
      signature_scan (hex_bytes digest) owners signatures (Z.to_nat (os_Threshold snapshot)) 0 ""
  end.

Definition ExecCalldata (t : Transaction) (snapshot : OwnerSnapshot) (signatures : string) : res string :=
  try digest := Transaction_Hash t in
  try _ := VerifySignatures digest snapshot signatures in
  Ok (execSelector +:+ exec_pack (hex_bytes (tx_To t)) (tx_Data t) signatures).

Definition SignaturesFromExecCalldata (calldata : string) : res string :=
  check (4 <=? str_len calldata) && bool_decide (String.substring 0 4 calldata = execSelector) else ErrInvalidTransaction ;;
  match exec_unpack (String.substring 4 (String.length calldata - 4) calldata) with
  | Some signatures => Ok signatures
  | None => Err ErrInvalidTransaction
  end.

Definition VerifyExecCalldata (t : Transaction) (snapshot : OwnerSnapshot) (calldata : string) : res unit :=
  try signatures := SignaturesFromExecCalldata calldata in
  match ExecCalldata t snapshot signatures with
  | Err m => Err (join ErrInvalidTransaction (Some m))
  | Ok want => check bool_decide (want = calldata) else ErrInvalidTransaction ;; Ok tt
  end.
End Safe.

(** ** What a Safe transaction hash and its signatures bind *)

#[export] Instance Ok_inj {A} : Inj eq eq (@Ok A).
Proof. by intros x y [= ->]. Qed.

Section SafeTheorems.
Context `{Crypto} `{!CryptoLaws} `{Abi} `{!AbiLaws} `{SafeLib}.

Lemma safe_word_fits value : gov_address value = true -> abi_fits (VAddr value).
Proof. intros Ha. cbn. apply (hex_bytes_len 20), gov_address_pattern, Ha. Qed.

Lemma validated_chain t : Transaction_Validate t = Ok tt ->
  (tx_ChainID t = 8453 \/ tx_ChainID t = 84532) /\ gov_address (tx_Safe t) = true /\ gov_address (tx_To t) = true /\
  t = mkTransaction (tx_ChainID t) (tx_Safe t) (tx_To t) "0" (tx_Data t) OperationCall "0" "0" "0" zero_address zero_address (tx_Nonce t).
Proof.
  unfold Transaction_Validate. rewrite check_ok_iff. to_prop. intros [Hv _]. destruct t; cbn in *. split_and!; try tauto.
  f_equal; tauto.
Qed.

Lemma domain_fits t : Transaction_Validate t = Ok tt -> Forall abi_fits (domain_words t).
Proof.
  intros (Hc & Hs & _ & _)%validated_chain. unfold domain_words. repeat constructor; cbn -[Z.pow]; try apply keccak_len; try lia.
  by apply safe_word_fits.
Qed.

Lemma tx_fits t : Transaction_Validate t = Ok tt -> 0 <= tx_Nonce t < 2 ^ 256 -> Forall abi_fits (tx_words t).
Proof.
  intros (_ & _ & Ht & E)%validated_chain Hn. unfold tx_words. rewrite E. cbn [tx_Operation]. unfold OperationCall.
  repeat constructor; cbn -[Z.pow hex_bytes zero_address] in *; try apply keccak_len; try lia; try (by vm_compute).
  by apply safe_word_fits.
Qed.

(** What is hashed for a Safe transaction. *)
Definition safe_texts (t : Transaction) : list string :=
  [eip712_prefix +:+ keccak256 (abi_pack (domain_words t)) +:+ keccak256 (abi_pack (tx_words t)); abi_pack (domain_words t); abi_pack (tx_words t); tx_Data t].

(** The hash the owners sign determines the whole Safe transaction: chain, Safe,
    target, data and nonce, and that it is a plain call without value or refunds; or
    two texts hashed for them collide. *)
Theorem safe_hash_binds t1 t2 h :
  0 <= tx_Nonce t1 < 2 ^ 256 -> 0 <= tx_Nonce t2 < 2 ^ 256 -> Transaction_Hash t1 = Ok h -> Transaction_Hash t2 = Ok h ->
  t1 = t2 \/ collide_in (safe_texts t1) (safe_texts t2).
Proof.
  intros N1 N2 Q1 Q2. unfold Transaction_Hash in *. apply try_ok_iff in Q1 as ([] & V1 & [= <-]), Q2 as ([] & V2 & E). apply (inj Ok), str_app_inv_head in E.
  apply (f_equal hex_decode) in E. rewrite !hex_decode_encode in E. injection E as E. symmetry in E.
  apply (keccak_eq_in (safe_texts t1) (safe_texts t2)) in E as [E|]; [|by right|unfold safe_texts; listed..]. apply str_app_inv_head in E. apply str_app_inj in E as [Ed Et]; [|by rewrite !keccak_len].
  apply (keccak_eq_in (safe_texts t1) (safe_texts t2)) in Ed as [Ed|]; [|by right|unfold safe_texts; listed..].
  apply (keccak_eq_in (safe_texts t1) (safe_texts t2)) in Et as [Et|]; [|by right|unfold safe_texts; listed..].
  apply abi_pack_inj in Ed; [|done|by apply domain_fits..]. apply abi_pack_inj in Et; [|done|by apply tx_fits..].
  injection Ed as Ec Es. injection Et as Eto Edata Eop En.
  apply (keccak_eq_in (safe_texts t1) (safe_texts t2)) in Edata as [Edata|]; [|by right|unfold safe_texts; listed..].
  apply validated_chain in V1 as (_ & S1 & A1 & E1), V2 as (_ & S2 & A2 & E2).
  apply (hex_bytes_inj 20) in Es; [|by apply gov_address_pattern..]. apply (hex_bytes_inj 20) in Eto; [|by apply gov_address_pattern..].
  left. rewrite E1, E2. congruence.
Qed.

End SafeTheorems.

(** *** Signatures *)

Section Signatures.
Context `{Crypto} `{Abi} `{SafeLib}.

(** The signers of a bundle, in order: every one an owner, each after the one before,
    each recovered from its 65 bytes. *)
Definition recovered (digest signatures : string) (i : nat) (owner : string) : Prop :=
  exists r s v address, ecdsa_recover digest (r +:+ s +:+ String (char_of v) "") = Ok address /\ owner = "0x" +:+ hex_encode address /\
    ecdsa_values v r s = true /\ (v = 0 \/ v = 1) /\
    r = String.substring 0 32 (String.substring (i * 65) 65 signatures) /\ s = String.substring 32 32 (String.substring (i * 65) 65 signatures).

Inductive rising : string -> list string -> Prop :=
| rising_nil last : rising last []
| rising_cons last x l : last = "" \/ String.leb x last = false -> rising x l -> rising last (x :: l).

Lemma leb_false_trans x y z : String.leb y x = false -> String.leb z y = false -> String.leb z x = false.
Proof.
  intros Hyx Hzy. destruct (String.leb z x) eqn:Hzx; [|done]. destruct (String.leb_total x y) as [Hxy|Hxy]; [|congruence].
  assert (String.le z y) as Hle by (transitivity x; unfold String.le; [by rewrite Hzx|by rewrite Hxy]). unfold String.le in Hle.
  by rewrite Hzy in Hle.
Qed.

Lemma leb_refl x : String.leb x x = true.
Proof. by destruct (String.leb_total x x). Qed.

Lemma rising_above last l : rising last l -> "" ∉ l -> last <> "" -> Forall (fun x => String.leb x last = false) l.
Proof.
  induction 1 as [|last x l Hx Hr IH]; intros Hl He; [constructor|]. destruct Hx as [->|Hx]; [done|].
  assert (x <> "") by set_solver. constructor; [done|]. assert (Hf : Forall (fun y => String.leb y x = false) l) by (apply IH; set_solver).
  eapply Forall_impl; [exact Hf|]. intros y Hy. by eapply leb_false_trans.
Qed.

Lemma rising_nodup last l : rising last l -> "" ∉ l -> NoDup l.
Proof.
  induction 1 as [|last x l Hx Hr IH]; intros Hl; [constructor|]. constructor; [|apply IH; set_solver].
  intros Hin. assert (Hf : Forall (fun y => String.leb y x = false) l) by (apply rising_above; set_solver).
  rewrite Forall_forall in Hf. specialize (Hf x Hin). by rewrite leb_refl in Hf.
Qed.

(** What an accepted bundle says, from the [k]-th signature on. *)
Lemma signature_scan_ok digest owners signatures n : forall k last,
  signature_scan digest owners signatures n (k * 65) last = Ok tt ->
  exists signers, length signers = n /\ rising last signers /\ Forall (fun x => x ∈ owners) signers /\
    forall i x, signers !! i = Some x -> recovered digest signatures (k + i) x.
Proof.
  induction n as [|n IH]; intros k last; [intros _; exists []; split_and!; [done|constructor|constructor|done]|].
  cbn [signature_scan]. rewrite check_ok_iff. intros [Hv Hs]. rewrite check_ok_iff in Hs. destruct Hs as [Hval Hs]. to_prop.
  set (v := match String.get 64 _ with Some c => code c | None => 0 end) in *.
  destruct (ecdsa_recover _ _) as [address|] eqn:Er; [|done]. rewrite check_ok_iff in Hs. destruct Hs as [Ho Hs]. to_prop.
  replace (k * 65 + 65)%nat with (S k * 65)%nat in Hs by lia. apply IH in Hs as (signers & Hl & Hr & Hin & Hrec).
  exists (("0x" +:+ hex_encode address) :: signers). split_and!.
  - cbn. by rewrite Hl.
  - constructor; [|done]. destruct Ho as [_ [->|Hn]]; [by left|right]. done.
  - constructor; [tauto|done].
  - intros [|i] x Hx; cbn in Hx.
    + injection Hx as <-. rewrite Nat.add_0_r. exists (String.substring 0 32 (String.substring (k * 65) 65 signatures)),
        (String.substring 32 32 (String.substring (k * 65) 65 signatures)), (v - 27), address. split_and!; try done. lia.
    + replace (k + S i)%nat with (S k + i)%nat by lia. by apply Hrec.
Qed.

(** What the calldata of a transaction says about its owners. *)
Definition owners_signed (t : Transaction) (snapshot : OwnerSnapshot) (calldata : string) : Prop :=
  exists digest signatures signers,
    Transaction_Hash t = Ok digest /\ calldata = execSelector +:+ exec_pack (hex_bytes (tx_To t)) (tx_Data t) signatures /\
    Z.of_nat (length signers) = os_Threshold snapshot /\ NoDup signers /\ Forall (fun x => x ∈ os_Owners snapshot) signers /\
    forall i x, signers !! i = Some x -> recovered (hex_bytes digest) signatures i x.

Lemma exec_calldata_signed t snapshot signatures calldata : ExecCalldata t snapshot signatures = Ok calldata -> owners_signed t snapshot calldata.
Proof.
  unfold ExecCalldata. intros Ee. apply try_ok_iff in Ee as (digest & Hh & Ee). apply try_ok_iff in Ee as ([] & Hs & [= <-]).
  unfold VerifySignatures in Hs. destruct (canonicalOwners snapshot) as [owners|] eqn:Eo; [|done].
  unfold canonicalOwners in Eo. rewrite !check_ok_iff in Eo. destruct Eo as (Ht & Ho & [= <-]). rewrite check_ok_iff in Hs.
  destruct Hs as [_ Hs]. apply (signature_scan_ok _ _ _ _ 0) in Hs as (signers & Hl & Hr & Hin & Hrec). to_prop.
  exists digest, signatures, signers. split_and!; try done; [lia|]. eapply rising_nodup; [exact Hr|].
  intros Hi. rewrite Forall_forall in Hin. apply Hin in Hi. destruct Ho as [Ho _]. apply forallb_Forall in Ho.
  rewrite Forall_forall in Ho. by specialize (Ho _ Hi).
Qed.

(** Calldata passes the check of a released artifact only when it is the call of
    [execTransaction] with exactly this transaction's target and data, and as many
    different owners of the snapshot as its threshold signed this transaction's hash. *)
Theorem exec_calldata_authorized t snapshot calldata : VerifyExecCalldata t snapshot calldata = Ok tt -> owners_signed t snapshot calldata.
Proof.
  unfold VerifyExecCalldata. rewrite try_ok_iff. intros (signatures & _ & Hv). destruct (ExecCalldata _ _ _) as [want|] eqn:Ee; [|done].
  rewrite check_ok_iff in Hv. destruct Hv as [Hv _]. to_prop. subst want. by eapply exec_calldata_signed.
Qed.
End Signatures.
