(* ===== verification/Relay.v ===== *)
(** * The governance relay ([internal/ascpgovernancerelay]: [kernel.go], [memory.go],
    [service.go])

    Between an approved workflow, the owners of the customer's Safe and the account
    that pays for gas: commands become jobs, jobs are signed by the owners, prepared,
    broadcast, observed and retried or given back for reapproval. The relay reports to
    the workflow service; chain observers, the vault and the broadcaster are the
    environment of a call. *)
From stdpp Require Import base gmap strings list fin_maps sorting.
From Stdlib Require Import ZArith Lia Ascii.
From S2P Require Import Prelude GoText GoJSON Crypto Envelope GovAction GovActionTheorems Workflow WorkflowTheorems SafeTx.

Open Scope Z_scope.

(** ** Names *)

Definition MaxEvidenceAge : duration := Minute.
Definition MaxRelayAttempts : Z := 10.

Definition ErrInvalidCommand : error := "invalid governance execution command".
Definition ErrInvalidSnapshot : error := "invalid independent Safe snapshot".
Definition ErrInvalidOutcome : error := "invalid governance relay outcome evidence".
Definition ErrInsufficientQuorum : error := "governance relay evidence quorum unavailable".
Definition ErrNoWork : error := "no governance relay work available".
Definition ErrRelayStateConflict : error := "governance relay state conflict".
Definition ErrRelayIdempotencyConflict : error := "governance relay idempotency conflict".
Definition ErrLeaseLost : error := "governance relay lease lost".

Abbreviation RelayState := string (only parsing).
Definition StateAwaitingSignatures : RelayState := "AWAITING_SIGNATURES".
Definition StateReady : RelayState := "READY".
Definition StateBroadcasting : RelayState := "BROADCASTING".
Definition StateSubmitted : RelayState := "SUBMITTED".
Definition StatePending : RelayState := "PENDING".
Definition StateRetryable : RelayState := "RETRYABLE_EXACT".
Definition StateReapprovalRequired : RelayState := "REAPPROVAL_REQUIRED".
Definition StateFinalizedObserved : RelayState := "FINALIZED_OBSERVED".

Abbreviation Outcome := string (only parsing).
Definition OutcomePending : Outcome := "PENDING".
Definition OutcomeDropped : Outcome := "DROPPED".
Definition OutcomeReorged : Outcome := "REORGED".
Definition OutcomeMinedRevert : Outcome := "MINED_REVERT".
Definition OutcomeFinalized : Outcome := "FINALIZED".

Abbreviation RelayDecision := string (only parsing).
Definition DecisionWait : RelayDecision := "WAIT".
Definition DecisionRetryExact : RelayDecision := "RETRY_EXACT_SAFE_TX".
Definition DecisionReapprove : RelayDecision := "REAPPROVAL_REQUIRED".
Definition DecisionFinalized : RelayDecision := "FINALIZED".

(** ** Records *)

Record Snapshot := mkSnapshot {
  sn_ChainID : Z; sn_SafeAddress : string; sn_SafeNonce : Z; sn_Owners : list string; sn_Threshold : Z; sn_VerifiedPayloadHash : string;
  sn_BlockNumber : Z; sn_BlockHash : string; sn_BlockTimestamp : Z; sn_ConfirmedHead : Z; sn_Observers : list string;
  sn_EvidenceDigest : string; sn_ObservedAt : time }.

(** Where and by whom the Safe was looked at. *)
Record Sighting := mkSighting {
  sg_EvidenceDigest : string; sg_BlockNumber : Z; sg_BlockHash : string; sg_BlockTimestamp : Z; sg_ConfirmedHead : Z;
  sg_Observers : list string; sg_ObservedAt : time }.

Record Prepared := mkPrepared {
  pp_WorkflowID : string; pp_OrganizationID : string; pp_PayloadHash : string; pp_Transaction : Transaction; pp_Owners : list string;
  pp_Threshold : Z; pp_EvidenceQuorum : Z; pp_SafeTxHash : string; pp_ExecCalldataHash : string; pp_SignaturesHash : string;
  pp_OwnerSetHash : string; pp_Snapshot : Sighting }.

Record SigningRequest := mkSigningRequest {
  sr_WorkflowID : string; sr_OrganizationID : string; sr_PayloadHash : string; sr_FunctionSelector : string; sr_Calldata : string;
  sr_GovernanceAction : option Action; sr_Transaction : Transaction; sr_Owners : list string; sr_Threshold : Z; sr_EvidenceQuorum : Z;
  sr_SafeTxHash : string; sr_OwnerSetHash : string; sr_Snapshot : Sighting }.

Record OutcomeEvidence := mkOutcomeEvidence {
  oe_WorkflowID : string; oe_OuterTransactionHash : string; oe_Outcome : Outcome; oe_PreviousCanonical : bool; oe_ChainID : Z;
  oe_SafeAddress : string; oe_CurrentSafeNonce : Z; oe_SafeTxHash : string; oe_ExecCalldataHash : string; oe_VerifiedPayloadHash : string;
  oe_BlockNumber : Z; oe_BlockHash : string; oe_ConfirmedHead : Z; oe_Observers : list string; oe_EvidenceDigest : string; oe_ObservedAt : time }.
Definition no_outcome : OutcomeEvidence := mkOutcomeEvidence "" "" "" false 0 "" 0 "" "" "" 0 "" 0 [] "" 0.

Record DecisionResult := mkDecision { dr_Decision : RelayDecision; dr_Reason : TerminalReason }.

Record OuterArtifact := mkOuter {
  oa_Handle : string; oa_TransactionHash : string; oa_SafeTxHash : string; oa_ExecCalldataHash : string; oa_PreparedAt : time }.
Definition no_outer : OuterArtifact := mkOuter "" "" "" "" 0.
#[export] Instance OuterArtifact_eq_dec : EqDecision OuterArtifact.
Proof. solve_decision. Defined.

Record RelayLease := mkRelayLease { rl_Owner : string; rl_Token : string; rl_ExpiresAt : time }.
Definition no_lease : RelayLease := mkRelayLease "" "" 0.

Definition no_transaction : Transaction := mkTransaction 0 "" "" "" "" 0 "" "" "" "" "" 0.
Definition no_prepared : Prepared := mkPrepared "" "" "" no_transaction [] 0 0 "" "" "" "" (mkSighting "" 0 "" 0 0 [] 0).

Record Job := mkJob {
  jb_OutboxID : string; jb_Command : GovernanceExecutionCommand; jb_State : RelayState; jb_Prepared : Prepared;
  jb_ArtifactHandle : string; jb_AuthorizationKey : string; jb_AuthorizationHash : string; jb_Outer : OuterArtifact;
  jb_LastOutcome : OutcomeEvidence; jb_AttemptCount : Z; jb_Lease : RelayLease; jb_CreatedAt : time; jb_UpdatedAt : time }.

(** The fields a step of the relay writes: state, outer transaction, last outcome,
    attempts. *)
Definition progress (state : RelayState) (outer : OuterArtifact) (outcome : OutcomeEvidence) (attempts : Z) (j : Job) : Job :=
  mkJob (jb_OutboxID j) (jb_Command j) state (jb_Prepared j) (jb_ArtifactHandle j) (jb_AuthorizationKey j) (jb_AuthorizationHash j)
    outer outcome attempts (jb_Lease j) (jb_CreatedAt j) (jb_UpdatedAt j).
Definition leased (l : RelayLease) (now : time) (j : Job) : Job :=
  mkJob (jb_OutboxID j) (jb_Command j) (jb_State j) (jb_Prepared j) (jb_ArtifactHandle j) (jb_AuthorizationKey j) (jb_AuthorizationHash j)
    (jb_Outer j) (jb_LastOutcome j) (jb_AttemptCount j) l (jb_CreatedAt j) now.
Definition authorized (p : Prepared) (handle key inputHash : string) (now : time) (j : Job) : Job :=
  mkJob (jb_OutboxID j) (jb_Command j) StateReady p handle key inputHash (jb_Outer j) (jb_LastOutcome j) (jb_AttemptCount j) (jb_Lease j)
    (jb_CreatedAt j) now.

Definition job_id (j : Job) : string := gc_WorkflowID (jb_Command j).
Definition job_org (j : Job) : string := gc_OrganizationID (jb_Command j).

Record Lease := mkLease { le_Job : Job; le_Token : string }.

(** ** The kernel *)

Fixpoint adjacent_distinct (l : list string) : bool :=
  match l with
  | x :: ((y :: _) as rest) => negb (bool_decide (x = y)) && adjacent_distinct rest
  | _ => true
  end.

Definition observerQuorum (values : list string) (minimum : Z) : res (list string) :=
  check (2 <=? minimum) && (minimum <=? 5) && (minimum <=? Z.of_nat (length values)) && Nat.leb (length values) 5 else ErrInsufficientQuorum ;;
  let result := merge_sort String.le values in
  check forallb identifier_pattern result && adjacent_distinct result else ErrInsufficientQuorum ;;
  Ok result.

(** Two of exactly three owners. *)
Definition canonicalOwnerSnapshot (owners : list string) (threshold : Z) : bool :=
  (threshold =? 2) && Nat.eqb (length owners) 3 && forallb gov_address owners && ascending owners.

(** Evidence seen at [observedAt] is fresh: not from the future, not older than a minute. *)
Definition fresh_evidence (observedAt now : time) : bool :=
  negb (time_IsZero observedAt) && negb (time_after observedAt (time_add now Minute)) && (time_sub now observedAt <=? MaxEvidenceAge).

Definition validateSafeSnapshot (c : GovernanceExecutionCommand) (safeAddress : string) (s : Snapshot) (quorum : Z) (now : time) : res unit :=
  match observerQuorum (sn_Observers s) quorum with
  | Err m => Err (join ErrInvalidSnapshot (Some m))
  | Ok observers =>
      check (sn_ChainID s =? gc_ChainID c) && bool_decide (sn_SafeAddress s = safeAddress) && gov_address safeAddress &&
            w_hash (sn_VerifiedPayloadHash s) && w_hash (sn_BlockHash s) && w_hash (sn_EvidenceDigest s) && negb (sn_BlockNumber s =? 0) &&
            (sn_BlockNumber s <=? sn_ConfirmedHead s) && (uint64 (gc_ExecuteAfter c) <=? sn_BlockTimestamp s) &&
            fresh_evidence (sn_ObservedAt s) now && (quorum <=? Z.of_nat (length observers))
        else ErrInvalidSnapshot ;;
      check canonicalOwnerSnapshot (sn_Owners s) (sn_Threshold s) else ErrInvalidSnapshot ;;
      Ok tt
  end.

Definition validateOutcome (p : Prepared) (outerTransactionHash : string) (e : OutcomeEvidence) (quorum : Z) (now : time) : res unit :=
  match observerQuorum (oe_Observers e) quorum with
  | Err m => Err (join ErrInvalidOutcome (Some m))
  | Ok observers =>
      check (2 <=? quorum) && (quorum <=? 5) && bool_decide (oe_WorkflowID e = pp_WorkflowID p) &&
            bool_decide (oe_OuterTransactionHash e = outerTransactionHash) && w_hash outerTransactionHash &&
            (oe_ChainID e =? tx_ChainID (pp_Transaction p)) && bool_decide (oe_SafeAddress e = tx_Safe (pp_Transaction p)) &&
            w_hash (oe_SafeTxHash e) && w_hash (oe_ExecCalldataHash e) && w_hash (oe_VerifiedPayloadHash e) && w_hash (oe_BlockHash e) &&
            w_hash (oe_EvidenceDigest e) && negb (oe_BlockNumber e =? 0) && (oe_BlockNumber e <=? oe_ConfirmedHead e) &&
            fresh_evidence (oe_ObservedAt e) now && (quorum <=? Z.of_nat (length observers))
        else ErrInvalidOutcome ;;
      check negb (bool_decide (oe_Outcome e ∈ [OutcomePending; OutcomeMinedRevert; OutcomeFinalized]) && negb (oe_PreviousCanonical e))
        else ErrInvalidOutcome ;;
      Ok tt
  end.

Definition decide_as (d : RelayDecision) : res DecisionResult := Ok (mkDecision d "").
Definition reapprove (reason : TerminalReason) : res DecisionResult := Ok (mkDecision DecisionReapprove reason).

Definition DecideRetry (p : Prepared) (outerTransactionHash : string) (e : OutcomeEvidence) (quorum : Z) (now : time) : res DecisionResult :=
  let nonce := tx_Nonce (pp_Transaction p) in
  let is_outcome o := bool_decide (oe_Outcome e = o) in
  try _ := validateOutcome p outerTransactionHash e quorum now in
  check bool_decide (oe_SafeTxHash e = pp_SafeTxHash p) && bool_decide (oe_ExecCalldataHash e = pp_ExecCalldataHash p) else ErrInvalidOutcome ;;
  if is_outcome OutcomePending then
    if negb (oe_CurrentSafeNonce e =? nonce) then reapprove SafeNonceConflict
    else if negb (bool_decide (oe_VerifiedPayloadHash e = pp_PayloadHash p)) then reapprove PreconditionChanged
    else decide_as DecisionWait
  else if is_outcome OutcomeDropped || is_outcome OutcomeReorged then
    if negb (oe_CurrentSafeNonce e =? nonce) then reapprove SafeNonceConflict
    else if negb (bool_decide (oe_VerifiedPayloadHash e = pp_PayloadHash p)) then reapprove PreconditionChanged
    else if oe_PreviousCanonical e then Err ErrInvalidOutcome
    else decide_as DecisionRetryExact
  else if is_outcome OutcomeMinedRevert then
    if oe_CurrentSafeNonce e <? nonce then Err ErrInvalidOutcome else reapprove MinedRevert
  else if is_outcome OutcomeFinalized then
    if (oe_CurrentSafeNonce e <=? nonce) || negb (bool_decide (oe_VerifiedPayloadHash e = pp_PayloadHash p)) then Err ErrInvalidOutcome
    else decide_as DecisionFinalized
  else Err ErrInvalidOutcome.

Definition validOuter (o : OuterArtifact) (p : Prepared) (now : time) : bool :=
  identifier_pattern (oa_Handle o) && w_hash (oa_TransactionHash o) && bool_decide (oa_SafeTxHash o = pp_SafeTxHash p) &&
  bool_decide (oa_ExecCalldataHash o = pp_ExecCalldataHash p) && negb (time_IsZero (oa_PreparedAt o)) &&
  negb (time_after (oa_PreparedAt o) (time_add now Minute)) && (time_sub now (oa_PreparedAt o) <=? Minute).

(** The message of [hex.DecodeString] is left out of the errors. *)
Section Kernel.
Context `{Crypto} `{Abi} `{SafeLib}.

Definition hashBytes (value : string) : string := "0x" +:+ hex_encode (keccak256 value).

Definition ownerSetHash (owners : list string) (threshold : Z) : string :=
  hashBytes ("ASCP_SAFE_OWNER_SET_V1" +:+ nul +:+ dec_string threshold +:+ str_concat (map (fun o => nul +:+ o) owners)).

Definition sighting (s : Snapshot) : Sighting :=
  mkSighting (sn_EvidenceDigest s) (sn_BlockNumber s) (sn_BlockHash s) (sn_BlockTimestamp s) (sn_ConfirmedHead s) (sn_Observers s) (sn_ObservedAt s).

Definition BuildSigningRequest (c : GovernanceExecutionCommand) (safeAddress : string) (s : Snapshot) (quorum : Z) (now : time)
    : res SigningRequest :=
  match ValidateExecutionCommand c with
  | Err m => Err (join ErrInvalidCommand (Some m))
  | Ok _ =>
  try _ := validateSafeSnapshot c safeAddress s quorum now in
  check bool_decide (sn_VerifiedPayloadHash s = gc_PayloadHash c) else ErrInvalidSnapshot ;;
  match hex_decode (trim_0x (gc_Calldata c)) with
  | None => Err ErrInvalidCommand
  | Some data =>
  try tx := NewTransaction (gc_ChainID c) safeAddress (gc_ContractAddress c) data (sn_SafeNonce s) in
  try safeTxHash := Transaction_Hash tx in
  Ok {| sr_WorkflowID := gc_WorkflowID c; sr_OrganizationID := gc_OrganizationID c; sr_PayloadHash := gc_PayloadHash c;
        sr_FunctionSelector := gc_FunctionSelector c; sr_Calldata := gc_Calldata c; sr_GovernanceAction := gc_GovernanceAction c;
        sr_Transaction := tx; sr_Owners := sn_Owners s; sr_Threshold := sn_Threshold s; sr_EvidenceQuorum := quorum;
        sr_SafeTxHash := safeTxHash; sr_OwnerSetHash := ownerSetHash (sn_Owners s) (sn_Threshold s); sr_Snapshot := sighting s |}
  end end.

Definition Prepare (c : GovernanceExecutionCommand) (safeAddress : string) (s : Snapshot) (signatures : string) (quorum : Z) (now : time)
    : res (Prepared * string) :=
  try r := BuildSigningRequest c safeAddress s quorum now in
  try execCalldata := ExecCalldata (sr_Transaction r) (mkOwnerSnapshot (sn_Owners s) (sn_Threshold s)) signatures in
  Ok ({| pp_WorkflowID := sr_WorkflowID r; pp_OrganizationID := sr_OrganizationID r; pp_PayloadHash := sr_PayloadHash r;
         pp_Transaction := sr_Transaction r; pp_Owners := sr_Owners r; pp_Threshold := sr_Threshold r;
         pp_EvidenceQuorum := sr_EvidenceQuorum r; pp_SafeTxHash := sr_SafeTxHash r; pp_ExecCalldataHash := hashBytes execCalldata;
         pp_SignaturesHash := hashBytes signatures; pp_OwnerSetHash := sr_OwnerSetHash r; pp_Snapshot := sr_Snapshot r |}, execCalldata).

Definition VerifyPrepared (c : GovernanceExecutionCommand) (p : Prepared) (execCalldata : string) : res unit :=
  let t := pp_Transaction p in
  let s := pp_Snapshot p in
  check is_ok (ValidateExecutionCommand c) && bool_decide (pp_WorkflowID p = gc_WorkflowID c) &&
        bool_decide (pp_OrganizationID p = gc_OrganizationID c) && bool_decide (pp_PayloadHash p = gc_PayloadHash c) &&
        (tx_ChainID t =? gc_ChainID c) && bool_decide (tx_To t = gc_ContractAddress c) &&
        bool_decide (hex_decode (trim_0x (gc_Calldata c)) = Some (tx_Data t)) && bool_decide (pp_ExecCalldataHash p = hashBytes execCalldata) &&
        w_hash (pp_SafeTxHash p) && w_hash (pp_SignaturesHash p) && w_hash (pp_OwnerSetHash p) && w_hash (sg_EvidenceDigest s) &&
        w_hash (sg_BlockHash s) && negb (sg_BlockNumber s =? 0) && (sg_BlockNumber s <=? sg_ConfirmedHead s) &&
        (uint64 (gc_ExecuteAfter c) <=? sg_BlockTimestamp s) && negb (time_IsZero (sg_ObservedAt s)) &&
        (2 <=? pp_EvidenceQuorum p) && (pp_EvidenceQuorum p <=? 5)
    else (join ErrInvalidCommand (err_of (ValidateExecutionCommand c))) ;;
  match Transaction_Hash t with
  | Err m => Err (join ErrInvalidCommand (Some m))
  | Ok digest =>
  check bool_decide (digest = pp_SafeTxHash p) else ErrInvalidCommand ;;
  check bool_decide (ownerSetHash (pp_Owners p) (pp_Threshold p) = pp_OwnerSetHash p) && canonicalOwnerSnapshot (pp_Owners p) (pp_Threshold p)
    else ErrInvalidCommand ;;
  check is_ok (observerQuorum (sg_Observers s) (pp_EvidenceQuorum p)) else ErrInvalidCommand ;;
  try _ := VerifyExecCalldata t (mkOwnerSnapshot (pp_Owners p) (pp_Threshold p)) execCalldata in
  match SignaturesFromExecCalldata execCalldata with
  | Err m => Err (join ErrInvalidCommand (Some m))
  | Ok signatures => check bool_decide (hashBytes signatures = pp_SignaturesHash p) else ErrInvalidCommand ;; Ok tt
  end end.

Definition ValidateRelaySnapshot (c : GovernanceExecutionCommand) (p : Prepared) (s : Snapshot) (quorum : Z) (now : time) : res DecisionResult :=
  if negb (quorum =? pp_EvidenceQuorum p) then reapprove PreconditionChanged else
  try _ := validateSafeSnapshot c (tx_Safe (pp_Transaction p)) s quorum now in
  check (quorum <=? Z.of_nat (length (sn_Observers s))) && (2 <=? quorum) && (quorum <=? 5) else ErrInsufficientQuorum ;;
  if negb (sn_SafeNonce s =? tx_Nonce (pp_Transaction p)) then reapprove SafeNonceConflict
  else if negb (bool_decide (sn_VerifiedPayloadHash s = pp_PayloadHash p)) then reapprove PreconditionChanged
  else if negb (bool_decide (ownerSetHash (sn_Owners s) (sn_Threshold s) = pp_OwnerSetHash p)) then reapprove PreconditionChanged
  else decide_as DecisionRetryExact.
End Kernel.

(** ** The store in memory *)

Record memoryCommand := mkMemoryCommand { mc_outboxID : string; mc_command : GovernanceExecutionCommand; mc_created : time; mc_consumed : bool }.

Record RelayStore := mkRelayStore {
  rs_commands : list memoryCommand;
  rs_jobs : gmap string Job;
  rs_authorizations : gmap string (string * string);
}.
Definition NewRelayStore : RelayStore := mkRelayStore [] ∅ ∅.

Definition put_job (s : RelayStore) (j : Job) : RelayStore := mkRelayStore (rs_commands s) (<[job_id j := j]> (rs_jobs s)) (rs_authorizations s).

(** By creation, then by identifier. *)
Definition queued_le (x y : memoryCommand) : Prop :=
  mc_created x < mc_created y \/ mc_created x = mc_created y /\ String.leb (mc_outboxID x) (mc_outboxID y) = true.
#[export] Instance queued_le_dec x y : Decision (queued_le x y).
Proof. unfold queued_le. apply _. Defined.

Definition with_command (c : memoryCommand) (l : list memoryCommand) : list memoryCommand := merge_sort queued_le (l ++ [c]).

Section Store.
Context `{Crypto} `{Abi}.

Definition EnqueueCommand (s : RelayStore) (c : ctx) (outboxID : string) (command : GovernanceExecutionCommand) (created : time)
    : RelayStore * res unit :=
  match c with
  | Some m => (s, Err m)
  | None =>
      if negb (w_hash outboxID && is_ok (ValidateExecutionCommand command) && negb (time_IsZero created)) then (s, Err ErrInvalidCommand) else
      if existsb (fun q => bool_decide (mc_outboxID q = outboxID) || bool_decide (gc_WorkflowID (mc_command q) = gc_WorkflowID command)) (rs_commands s)
      then (s, Err ErrRelayStateConflict)
      else (mkRelayStore (with_command (mkMemoryCommand outboxID command created false) (rs_commands s)) (rs_jobs s) (rs_authorizations s), Ok tt)
  end.
End Store.

Definition consumed (q : memoryCommand) : memoryCommand := mkMemoryCommand (mc_outboxID q) (mc_command q) (mc_created q) true.

(** The first command not yet consumed, and the queue with it consumed. *)
Fixpoint take_command (l : list memoryCommand) : option (memoryCommand * list memoryCommand) :=
  match l with
  | [] => None
  | q :: l =>
      if mc_consumed q then match take_command l with Some (x, l) => Some (x, q :: l) | None => None end
      else Some (q, consumed q :: l)
  end.

Definition new_job (q : memoryCommand) (now : time) : Job :=
  mkJob (mc_outboxID q) (mc_command q) StateAwaitingSignatures no_prepared "" "" "" no_outer no_outcome 0 no_lease now now.

Definition ConsumeCommand (s : RelayStore) (c : ctx) (now : time) : RelayStore * res (Job * bool) :=
  match c with
  | Some m => (s, Err m)
  | None =>
      match take_command (rs_commands s) with
      | None => (s, Err ErrNoWork)
      | Some (q, l) =>
          let s := mkRelayStore l (rs_jobs s) (rs_authorizations s) in
          match rs_jobs s !! gc_WorkflowID (mc_command q) with
          | Some existing => (s, Ok (existing, true))
          | None => let job := new_job q now in (put_job s job, Ok (job, false))
          end
      end
  end.

Definition relay_Get (s : RelayStore) (c : ctx) (organizationID workflowID : string) : res Job :=
  match c with
  | Some m => Err m
  | None =>
      match rs_jobs s !! workflowID with
      | Some j => check bool_decide (job_org j = organizationID) else ErrWorkflowNotFound ;; Ok j
      | None => Err ErrWorkflowNotFound
      end
  end.

Definition authorizationScope (organizationID key : string) : string := organizationID +:+ nul +:+ key.

Definition ReplayAuthorization (s : RelayStore) (c : ctx) (organizationID workflowID key inputHash : string) : res (option Job) :=
  match c with
  | Some m => Err m
  | None =>
      match rs_authorizations s !! authorizationScope organizationID key with
      | None => Ok None
      | Some (hash, id) =>
          check bool_decide (id = workflowID) && bool_decide (hash = inputHash) else ErrRelayIdempotencyConflict ;;
          try j := relay_Get s None organizationID workflowID in Ok (Some j)
      end
  end.

Definition zero_job : Job :=
  mkJob "" (mkCommand "" "" "" "" "" 0 "" "" "" "" "" None "" 0 0 "") "" no_prepared "" "" "" no_outer no_outcome 0 no_lease 0 0.

Definition store_Authorize (s : RelayStore) (c : ctx) (organizationID workflowID key inputHash : string) (p : Prepared) (handle : string)
    (now : time) : RelayStore * res (Job * bool) :=
  match c with
  | Some m => (s, Err m)
  | None =>
      let scope := authorizationScope organizationID key in
      match rs_authorizations s !! scope with
      | Some (hash, id) =>
          (s, check bool_decide (id = workflowID) && bool_decide (hash = inputHash) else ErrRelayIdempotencyConflict ;;
              Ok (default zero_job (rs_jobs s !! workflowID), true))
      | None =>
          match relay_Get s None organizationID workflowID with
          | Err m => (s, Err m)
          | Ok j =>
              if negb (bool_decide (jb_State j = StateAwaitingSignatures) && bool_decide (pp_WorkflowID p = workflowID) &&
                       bool_decide (pp_OrganizationID p = organizationID) && identifier_pattern handle && w_hash inputHash)
              then (s, Err ErrRelayStateConflict)
              else let j := authorized p handle key inputHash now j in
                   (mkRelayStore (rs_commands s) (<[workflowID := j]> (rs_jobs s)) (<[scope := (inputHash, workflowID)]> (rs_authorizations s)),
                    Ok (j, false))
          end
      end
  end.

Definition eligible (relay : bool) (j : Job) (now : time) : bool :=
  (if relay then bool_decide (jb_State j ∈ [StateReady; StateRetryable; StateBroadcasting]) else bool_decide (jb_State j ∈ [StateSubmitted; StatePending])) &&
  negb (negb (time_IsZero (rl_ExpiresAt (jb_Lease j))) && time_after (rl_ExpiresAt (jb_Lease j)) now).

(** The identifiers of the jobs, in order. *)
Definition job_ids (s : RelayStore) : list string := merge_sort String.le (map fst (map_to_list (rs_jobs s))).

(** The first job to work on. *)
Definition next_job (s : RelayStore) (relay : bool) (now : time) : option Job :=
  List.find (fun j => eligible relay j now) (omap (fun id => rs_jobs s !! id) (job_ids s)).

Definition claim (s : RelayStore) (c : ctx) (worker : string) (lease : duration) (relay : bool) (now : time) (token : res string)
    : RelayStore * res Lease :=
  match c with
  | Some m => (s, Err m)
  | None =>
      if negb (identifier_pattern worker && (Second <=? lease) && (lease <=? Minute)) then (s, Err ErrInvalidCommand) else
      match next_job s relay now with
      | None => (s, Err ErrNoWork)
      | Some j =>
          match token with
          | Err m => (s, Err m)
          | Ok token =>
              let j := leased (mkRelayLease worker token (time_add now lease)) now j in
              (put_job s j, Ok (mkLease j token))
          end
      end
  end.

(** The job of a lease that is still held. *)
Definition withLease (s : RelayStore) (c : ctx) (l : Lease) (now : time) (mutate : Job -> res Job) : RelayStore * res Job :=
  match c with
  | Some m => (s, Err m)
  | None =>
      match rs_jobs s !! job_id (le_Job l) with
      | None => (s, Err ErrLeaseLost)
      | Some j =>
          if negb (bool_decide (rl_Token (jb_Lease j) = le_Token l)) || time_before (rl_ExpiresAt (jb_Lease j)) now then (s, Err ErrLeaseLost) else
          match mutate j with
          | Err m => (s, Err m)
          | Ok j => let j := leased (jb_Lease j) now j in (put_job s j, Ok j)
          end
      end
  end.

Definition outer_prepared (outer : OuterArtifact) (now : time) (j : Job) : res Job :=
  if bool_decide (jb_State j = StateBroadcasting) && bool_decide (jb_Outer j = outer) then Ok j else
  check bool_decide (jb_State j ∈ [StateReady; StateRetryable]) && validOuter outer (jb_Prepared j) now else ErrRelayStateConflict ;;
  Ok (progress StateBroadcasting outer (jb_LastOutcome j) (jb_AttemptCount j) j).
Definition RecordOuterPrepared (s : RelayStore) (c : ctx) (l : Lease) (outer : OuterArtifact) (now : time) : RelayStore * res Job :=
  withLease s c l now (outer_prepared outer now).

Definition submitted (transactionHash : string) (j : Job) : res Job :=
  if bool_decide (jb_State j = StateSubmitted) && bool_decide (oa_TransactionHash (jb_Outer j) = transactionHash) then Ok j else
  check bool_decide (jb_State j = StateBroadcasting) && bool_decide (oa_TransactionHash (jb_Outer j) = transactionHash) else ErrRelayStateConflict ;;
  Ok (progress StateSubmitted (jb_Outer j) (jb_LastOutcome j) (jb_AttemptCount j + 1) j).
Definition RecordSubmitted (s : RelayStore) (c : ctx) (l : Lease) (transactionHash : string) (now : time) : RelayStore * res Job :=
  withLease s c l now (submitted transactionHash).

Definition decided_state (d : RelayDecision) : option RelayState :=
  if bool_decide (d = DecisionWait) then Some StatePending
  else if bool_decide (d = DecisionRetryExact) then Some StateRetryable
  else if bool_decide (d = DecisionReapprove) then Some StateReapprovalRequired
  else if bool_decide (d = DecisionFinalized) then Some StateFinalizedObserved
  else None.

Definition decided (e : OutcomeEvidence) (d : DecisionResult) (j : Job) : res Job :=
  let retryRefresh := bool_decide (jb_State j = StateRetryable) && bool_decide (dr_Decision d ∈ [DecisionRetryExact; DecisionFinalized]) in
  check bool_decide (jb_State j ∈ [StateSubmitted; StatePending]) || retryRefresh || bool_decide (dr_Decision d = DecisionReapprove)
    else ErrRelayStateConflict ;;
  match decided_state (dr_Decision d) with
  | None => Err ErrRelayStateConflict
  | Some state => Ok (progress state (jb_Outer j) (if bool_decide (oe_WorkflowID e = "") then jb_LastOutcome j else e) (jb_AttemptCount j) j)
  end.
Definition ApplyDecision (s : RelayStore) (c : ctx) (l : Lease) (e : OutcomeEvidence) (d : DecisionResult) (now : time) : RelayStore * res Job :=
  withLease s c l now (decided e d).

Definition ReleaseLease (s : RelayStore) (c : ctx) (l : Lease) (now : time) : RelayStore * res unit :=
  match c with
  | Some m => (s, Err m)
  | None =>
      match rs_jobs s !! job_id (le_Job l) with
      | None => (s, Err ErrLeaseLost)
      | Some j =>
          if negb (bool_decide (rl_Token (jb_Lease j) = le_Token l)) then (s, Err ErrLeaseLost)
          else (put_job s (leased no_lease now j), Ok tt)
      end
  end.

(** ** The service *)

Record RelayBinding := mkRelayBinding {
  rb_OutboxID : string; rb_WorkflowID : string; rb_OrganizationID : string; rb_ChainID : Z; rb_SafeAddress : string; rb_SafeTxHash : string;
  rb_ExecCalldataHash : string; rb_PriorAttemptCount : Z }.
Definition relayBinding (j : Job) : RelayBinding :=
  mkRelayBinding (jb_OutboxID j) (job_id j) (job_org j) (gc_ChainID (jb_Command j)) (tx_Safe (pp_Transaction (jb_Prepared j)))
    (pp_SafeTxHash (jb_Prepared j)) (pp_ExecCalldataHash (jb_Prepared j)) (jb_AttemptCount j).

Record OutcomeBinding := mkOutcomeBinding {
  ob_WorkflowID : string; ob_ChainID : Z; ob_SafeAddress : string; ob_SafeNonce : Z; ob_PayloadHash : string; ob_SafeTxHash : string;
  ob_ExecCalldataHash : string; ob_OuterTransactionHash : string; ob_AttemptCount : Z }.
Definition outcomeBinding (j : Job) : OutcomeBinding :=
  let p := jb_Prepared j in
  mkOutcomeBinding (job_id j) (gc_ChainID (jb_Command j)) (tx_Safe (pp_Transaction p)) (tx_Nonce (pp_Transaction p)) (pp_PayloadHash p)
    (pp_SafeTxHash p) (pp_ExecCalldataHash p) (oa_TransactionHash (jb_Outer j)) (jb_AttemptCount j).

Definition artifactAAD (outboxID : string) (p : Prepared) : string :=
  "ASCP_GOVERNANCE_SAFE_ARTIFACT_V1" +:+ nul +:+ outboxID +:+ nul +:+ pp_WorkflowID p +:+ nul +:+ pp_SafeTxHash p +:+ nul +:+ pp_ExecCalldataHash p.

Definition safeRetryProof (j : Job) (retryTransactionHash : string) : SafeRetryProof :=
  let o := jb_LastOutcome j in
  let p := jb_Prepared j in {|
  rp_WorkflowID := job_id j; rp_PreviousTransactionHash := oe_OuterTransactionHash o; rp_RetryTransactionHash := retryTransactionHash;
  rp_Outcome := oe_Outcome o; rp_PreviousCanonical := oe_PreviousCanonical o; rp_SafeAddress := tx_Safe (pp_Transaction p);
  rp_SafeNonce := tx_Nonce (pp_Transaction p); rp_SafeTxHash := pp_SafeTxHash p; rp_ExecCalldataHash := pp_ExecCalldataHash p;
  rp_VerifiedPayloadHash := oe_VerifiedPayloadHash o; rp_Observers := oe_Observers o; rp_EvidenceDigest := oe_EvidenceDigest o;
  rp_ObservedAt := Unix (oe_ObservedAt o) |}.

Record RelayConfig := mkRelayConfig { rc_WorkerID : string; rc_Quorum : Z; rc_LeaseDuration : duration }.
Definition NewRelay (c : RelayConfig) : res RelayConfig :=
  check identifier_pattern (rc_WorkerID c) && (2 <=? rc_Quorum c) && (rc_Quorum c <=? 5) && (Second <=? rc_LeaseDuration c) &&
        (rc_LeaseDuration c <=? Minute)
    else ErrInvalidCommand ;;
  Ok c.

Section Service.
Context `{Crypto} `{Abi} `{SafeLib} {S : Type} `{WorkflowStore S}.

(** The answers of the directory, the observers, the vault and the broadcaster during
    one call, to what they are asked; the clock and the context at each read, by
    position; the clock and context of the workflow service at each of its calls. *)
Record renv := mkrenv {
  rv_clock : nat -> time;
  rv_ctx : nat -> ctx;
  rv_token : res string;
  rv_safe : string -> Z -> res string;
  rv_snapshot : GovernanceExecutionCommand -> string -> res Snapshot;
  rv_seal : string -> string -> res string;
  rv_open : string -> string -> res string;
  rv_prepare : RelayBinding -> string -> res OuterArtifact;
  rv_broadcast : string -> res string;
  rv_outcome : OutcomeBinding -> res OutcomeEvidence;
  rv_flow : nat -> wenv;
}.

(** What the broadcaster was given to prepare an outer transaction, and what it made of it. *)
Record Handing := mkHanding { hd_Binding : RelayBinding; hd_ExecCalldata : string; hd_Outer : OuterArtifact }.

(** The relay's store, the workflows, the calls the workflow service has served, the
    jobs at the moment their outer transaction was sent, and the preparations of outer
    transactions. *)
Record World := mkWorld { wd_store : RelayStore; wd_flows : S; wd_history : list call; wd_sent : list Job; wd_handed : list Handing }.

(** Computations that change the world and may fail. *)
Definition M (A : Type) : Type := World -> World * res A.
#[export] Instance M_ret : MRet M := fun A a w => (w, Ok a).
#[export] Instance M_bind : MBind M := fun A B f m w => match m w with (w, Ok a) => f a w | (w, Err e) => (w, Err e) end.
#[export] Instance M_fmap : FMap M := fun A B f m => m ≫= fun a => mret (f a).
Definition raise {A} (e : error) : M A := fun w => (w, Err e).
Definition lift {A} (r : res A) : M A := fun w => (w, r).
Definition store {A} (op : RelayStore -> RelayStore * res A) : M A :=
  fun w => let '(s, r) := op (wd_store w) in (mkWorld s (wd_flows w) (wd_history w) (wd_sent w) (wd_handed w), r).

(** A call on the workflow service. *)
Definition flow {A} (c : call) (op : S -> S * res A) : M unit :=
  fun w => let '(s, r) := op (wd_flows w) in
           (mkWorld (wd_store w) s (wd_history w ++ [c]) (wd_sent w) (wd_handed w), match r with Ok _ => Ok tt | Err m => Err m end).

(** [defer s.release(ctx, lease)] *)
Definition releasing (env : renv) (l : Lease) {A} (m : M A) : M A :=
  fun w => let '(w, r) := m w in
           (mkWorld (ReleaseLease (wd_store w) (rv_ctx env 9) l (rv_clock env 9)).1 (wd_flows w) (wd_history w) (wd_sent w) (wd_handed w), r).

Definition wrap {A} (text : string) (r : res A) : M A := fun w => (w, match r with Ok a => Ok a | Err m => Err (text +:+ m) end).

Definition SigningRequestFor (cfg : RelayConfig) (env : renv) (organizationID workflowID : string) : M SigningRequest :=
  if negb (identifier_pattern organizationID && w_hash workflowID) then raise ErrInvalidCommand else
  j ← store (fun s => (s, relay_Get s (rv_ctx env 0) organizationID workflowID));
  if negb (bool_decide (jb_State j = StateAwaitingSignatures)) then raise ErrRelayStateConflict else
  safe ← wrap "resolve customer Safe: " (rv_safe env organizationID (gc_ChainID (jb_Command j)));
  snapshot ← wrap "observe Safe signing snapshot: " (rv_snapshot env (jb_Command j) safe);
  lift (BuildSigningRequest (jb_Command j) safe snapshot (rc_Quorum cfg) (rv_clock env 0)).

Definition AuthorizeSignatures (cfg : RelayConfig) (env : renv) (organizationID workflowID idempotencyKey signatures : string) : M Job :=
  if negb (identifier_pattern organizationID && w_hash workflowID && identifier_pattern idempotencyKey && (1 <=? str_len signatures) &&
           (str_len signatures <=? 50 * 65))
  then raise ErrInvalidCommand else
  let inputHash := hashBytes signatures in
  let now := rv_clock env 0 in
  replayed ← store (fun s => (s, ReplayAuthorization s (rv_ctx env 0) organizationID workflowID idempotencyKey inputHash));
  match replayed with
  | Some j => mret j
  | None =>
      j ← store (fun s => (s, relay_Get s (rv_ctx env 1) organizationID workflowID));
      safe ← wrap "resolve customer Safe: " (rv_safe env organizationID (gc_ChainID (jb_Command j)));
      snapshot ← wrap "observe Safe authorization snapshot: " (rv_snapshot env (jb_Command j) safe);
      x ← lift (Prepare (jb_Command j) safe snapshot signatures (rc_Quorum cfg) now);
      match rv_seal env x.2 (artifactAAD (jb_OutboxID j) x.1) with
      | Err m => raise (join ErrInvalidCommand (Some m))
      | Ok handle =>
          if negb (identifier_pattern handle) then raise ErrInvalidCommand else
          y ← store (fun s => store_Authorize s (rv_ctx env 2) organizationID workflowID idempotencyKey inputHash x.1 handle now);
          mret y.1
      end
  end.

Definition requireReapproval (env : renv) (l : Lease) (e : OutcomeEvidence) (d : DecisionResult) : M Job :=
  let j := le_Job l in
  let reason := if bool_decide (dr_Reason d = MinedRevert) then ReceiptRejected else dr_Reason d in
  let wenv := rv_flow env 1 in
  _ ← flow (CFail wenv (job_org j) (job_id j) RequiresReapproval reason) (fun s => RequireReapproval s wenv (job_org j) (job_id j) reason);
  store (fun s => ApplyDecision s (rv_ctx env 5) l e d (rv_clock env 5)).

Definition recordWorkflowSubmission (env : renv) (j : Job) (transactionHash : string) : M unit :=
  let wenv := rv_flow env 0 in
  if jb_AttemptCount j =? 0 then
    flow (CSubmit wenv (job_org j) (job_id j) transactionHash) (fun s => RecordSubmission s wenv (job_org j) (job_id j) transactionHash)
  else
    flow (CRetry wenv (job_org j) (job_id j) transactionHash (safeRetryProof j transactionHash))
      (fun s => RecordProvenRetry s wenv (job_org j) (job_id j) transactionHash (safeRetryProof j transactionHash)).

Definition send (j : Job) : M unit := fun w => (mkWorld (wd_store w) (wd_flows w) (wd_history w) (wd_sent w ++ [j]) (wd_handed w), Ok tt).
Definition hand (h : Handing) : M unit := fun w => (mkWorld (wd_store w) (wd_flows w) (wd_history w) (wd_sent w) (wd_handed w ++ [h]), Ok tt).

Definition broadcastPrepared (env : renv) (l : Lease) : M Job :=
  let j := le_Job l in
  _ ← send j;
  match rv_broadcast env (oa_Handle (jb_Outer j)) with
  | Err m => raise (join ErrInvalidOutcome (Some m))
  | Ok hash =>
      if negb (bool_decide (hash = oa_TransactionHash (jb_Outer j))) then raise ErrInvalidOutcome else
      _ ← recordWorkflowSubmission env j hash;
      store (fun s => RecordSubmitted s (rv_ctx env 3) l hash (rv_clock env 3))
  end.

(** The live Safe, its owners and the action's preconditions, once more: [None] when
    they are unchanged, and the decision to ask for reapproval otherwise. *)
Definition revalidate (cfg : RelayConfig) (env : renv) (text : string) (j : Job) : M (option DecisionResult) :=
  safe ← wrap text (rv_safe env (job_org j) (gc_ChainID (jb_Command j)));
  if negb (bool_decide (safe = tx_Safe (pp_Transaction (jb_Prepared j)))) then mret (Some (mkDecision DecisionReapprove PreconditionChanged)) else
  snapshot ← lift (rv_snapshot env (jb_Command j) safe);
  d ← lift (ValidateRelaySnapshot (jb_Command j) (jb_Prepared j) snapshot (rc_Quorum cfg) (rv_clock env 2));
  mret (if bool_decide (dr_Decision d = DecisionReapprove) then Some d else None).

Definition observe_job (cfg : RelayConfig) (env : renv) (text : string) (j : Job) : M (OutcomeEvidence * DecisionResult) :=
  e ← wrap text (rv_outcome env (outcomeBinding j));
  d ← lift (DecideRetry (jb_Prepared j) (oa_TransactionHash (jb_Outer j)) e (rc_Quorum cfg) (rv_clock env 1));
  mret (e, d).

Definition too_many : DecisionResult := mkDecision DecisionReapprove ReceiptRejected.

Definition recoverBroadcasting (cfg : RelayConfig) (env : renv) (l : Lease) : M Job :=
  let j := le_Job l in
  x ← observe_job cfg env "reconcile prepared outer transaction: " j;
  let '(e, d) := x in
  if bool_decide (dr_Decision d = DecisionRetryExact) then
    if MaxRelayAttempts <=? jb_AttemptCount j then requireReapproval env l e too_many else
    changed ← revalidate cfg env "resolve customer Safe during broadcast recovery: " j;
    match changed with
    | Some d => requireReapproval env l e d
    | None => broadcastPrepared env l
    end
  else
    _ ← recordWorkflowSubmission env j (oa_TransactionHash (jb_Outer j));
    job ← store (fun s => RecordSubmitted s (rv_ctx env 3) l (oa_TransactionHash (jb_Outer j)) (rv_clock env 3));
    let l := mkLease job (le_Token l) in
    if bool_decide (dr_Decision d = DecisionReapprove) then requireReapproval env l e d
    else if bool_decide (dr_Decision d = DecisionFinalized) then store (fun s => ApplyDecision s (rv_ctx env 4) l e d (rv_clock env 4))
    else mret job.

(** A retry is observed again first; it goes on with the refreshed lease, or ends. *)
Definition refresh_retry (cfg : RelayConfig) (env : renv) (l : Lease) : M (Lease + Job) :=
  let j := le_Job l in
  x ← observe_job cfg env "refresh exact retry evidence: " j;
  let '(e, d) := x in
  if bool_decide (dr_Decision d = DecisionReapprove) then inr <$> requireReapproval env l e d
  else if bool_decide (dr_Decision d = DecisionFinalized) then inr <$> store (fun s => ApplyDecision s (rv_ctx env 4) l e d (rv_clock env 4))
  else if bool_decide (dr_Decision d = DecisionWait) then mret (inr j)
  else if MaxRelayAttempts <=? jb_AttemptCount j then inr <$> requireReapproval env l e too_many
  else job ← store (fun s => ApplyDecision s (rv_ctx env 4) l e d (rv_clock env 4)); mret (inl (mkLease job (le_Token l))).

(** A job that is ready: checked, prepared, recorded, and only then broadcast. *)
Definition relay_ready (cfg : RelayConfig) (env : renv) (l : Lease) : M Job :=
  let j := le_Job l in
  if MaxRelayAttempts <=? jb_AttemptCount j then requireReapproval env l no_outcome too_many else
  changed ← revalidate cfg env "resolve customer Safe before relay: " j;
  match changed with
  | Some d => requireReapproval env l no_outcome d
  | None =>
      execCalldata ← lift (rv_open env (jb_ArtifactHandle j) (artifactAAD (jb_OutboxID j) (jb_Prepared j)));
      _ ← lift (VerifyPrepared (jb_Command j) (jb_Prepared j) execCalldata);
      match rv_prepare env (relayBinding j) execCalldata with
      | Err m => raise (join ErrInvalidOutcome (Some m))
      | Ok outer =>
          _ ← hand (mkHanding (relayBinding j) execCalldata outer);
          if negb (validOuter outer (jb_Prepared j) (rv_clock env 6)) then raise ErrInvalidOutcome else
          _ ← store (fun s => RecordOuterPrepared s (rv_ctx env 7) l outer (rv_clock env 7));
          broadcastPrepared env (mkLease (progress StateBroadcasting outer (jb_LastOutcome j) (jb_AttemptCount j) j) (le_Token l))
      end
  end.

Definition RelayOnce (cfg : RelayConfig) (env : renv) : M Job :=
  l ← store (fun s => claim s (rv_ctx env 0) (rc_WorkerID cfg) (rc_LeaseDuration cfg) true (rv_clock env 0) (rv_token env));
  releasing env l
    (if bool_decide (jb_State (le_Job l) = StateBroadcasting) then recoverBroadcasting cfg env l
     else if bool_decide (jb_State (le_Job l) = StateRetryable) then
       next ← refresh_retry cfg env l;
       match next with inr j => mret j | inl l => relay_ready cfg env l end
     else relay_ready cfg env l).

Definition ObserveOnce (cfg : RelayConfig) (env : renv) : M Job :=
  l ← store (fun s => claim s (rv_ctx env 0) (rc_WorkerID cfg) (rc_LeaseDuration cfg) false (rv_clock env 0) (rv_token env));
  releasing env l
    (let j := le_Job l in
     x ← observe_job cfg env "" j;
     let '(e, d) := x in
     if bool_decide (dr_Decision d = DecisionReapprove) then requireReapproval env l e d else
     _ ← (if bool_decide (dr_Decision d = DecisionRetryExact) then
            let '(state, reason) := if bool_decide (oe_Outcome e = OutcomeReorged) then (Reorged, ReorgDetected) else (TimedOut, SubmissionTimeout) in
            flow (CFail (rv_flow env 0) (job_org j) (job_id j) state reason)
              (fun s => RecordChainFailure s (rv_flow env 0) (job_org j) (job_id j) state reason)
          else mret tt);
     store (fun s => ApplyDecision s (rv_ctx env 4) l e d (rv_clock env 4))).

Definition ConsumeOnce (env : renv) : M (Job * bool) := store (fun s => ConsumeCommand s (rv_ctx env 0) (rv_clock env 0)).
End Service.
