(* ===== verification/RelayTheorems.v ===== *)
(** * What the governance relay broadcasts

    The relay and the workflow service as one system: whatever is called on either, in
    any order, with any answers of chain observers, vault and broadcaster, and with any
    store call failing. What reaches the broadcaster was approved by two principals and
    signed by two owners of the Safe. *)
From stdpp Require Import base gmap strings list fin_maps sorting.
From Stdlib Require Import ZArith Lia Ascii.
From S2P Require Import Prelude GoText GoJSON Crypto Envelope GovAction GovActionTheorems Workflow WorkflowTheorems SafeTx Relay.

Open Scope Z_scope.

Section System.
Context `{Crypto} `{Abi} `{SafeLib} {S : Type} `{StoreLaws S}.

(** ** The system *)

(** [REnqueue] is the outbox of an approval: the command of a workflow as it is stored. *)
Inductive rcall :=
| REnqueue (env : renv) (org id outboxID approvalHash : string) (created : time)
| RConsume (env : renv)
| RAuthorize (cfg : RelayConfig) (env : renv) (org id key signatures : string)
| RRelay (cfg : RelayConfig) (env : renv)
| RObserve (cfg : RelayConfig) (env : renv)
| RFlow (c : call).

Definition enqueue (env : renv) (org id outboxID approvalHash : string) (created : time) : M (S := S) unit :=
  fun w => match ws_Get (wd_flows w) (rv_ctx env 1) org id with
           | Err m => (w, Err m)
           | Ok x => match buildExecutionCommand x approvalHash with
                     | Err m => (w, Err m)
                     | Ok command => store (fun s => EnqueueCommand s (rv_ctx env 0) outboxID command created) w
                     end
           end.

Definition relay_step (w : World) (c : rcall) : World :=
  match c with
  | REnqueue env org id outboxID approvalHash created => (enqueue env org id outboxID approvalHash created w).1
  | RConsume env => (ConsumeOnce env w).1
  | RAuthorize cfg env org id key signatures => (AuthorizeSignatures cfg env org id key signatures w).1
  | RRelay cfg env => (RelayOnce cfg env w).1
  | RObserve cfg env => (ObserveOnce cfg env w).1
  | RFlow c => (flow c (fun s => (serve s c, Ok tt)) w).1
  end.
Definition start (s0 : S) : World := mkWorld NewRelayStore s0 [] [] [].
Definition relay_run (s0 : S) (calls : list rcall) : World := fold_left relay_step calls (start s0).

(** ** What is true of every job *)

(** The command is that of a workflow two principals agreed on. *)
Definition command_approved (hist : list call) (c : GovernanceExecutionCommand) : Prop :=
  exists w h, buildExecutionCommand w h = Ok c /\ approved_in hist (gc_WorkflowID c) w.

(** It was prepared from a snapshot of the Safe and signatures of its owners. *)
Definition signed_for (c : GovernanceExecutionCommand) (p : Prepared) : Prop :=
  exists safe snapshot signatures quorum now execCalldata, Prepare c safe snapshot signatures quorum now = Ok (p, execCalldata).

(** A quorum saw the earlier outer transaction gone and the Safe unchanged. *)
Definition retry_proven (p : Prepared) (e : OutcomeEvidence) : Prop :=
  oe_Outcome e ∈ [OutcomeDropped; OutcomeReorged] /\ oe_PreviousCanonical e = false /\ oe_CurrentSafeNonce e = tx_Nonce (pp_Transaction p) /\
  oe_VerifiedPayloadHash e = pp_PayloadHash p /\ oe_SafeTxHash e = pp_SafeTxHash p /\ oe_ExecCalldataHash e = pp_ExecCalldataHash p /\
  (exists quorum observers, 2 <= quorum /\ observerQuorum (oe_Observers e) quorum = Ok observers).

Definition outer_binds (j : Job) : Prop :=
  oa_SafeTxHash (jb_Outer j) = pp_SafeTxHash (jb_Prepared j) /\ oa_ExecCalldataHash (jb_Outer j) = pp_ExecCalldataHash (jb_Prepared j).

(** What is known when a job is looked at: the calls served and the preparations. *)
Definition knowledge : Type := list call * list Handing.
Definition known (w : World (S := S)) : knowledge := (wd_history w, wd_handed w).

(** The job's outer transaction is the broadcaster's answer to the calldata its owners
    signed, which the relay had verified. *)
Definition prepared_from (handed : list Handing) (j : Job) : Prop :=
  exists execCalldata, mkHanding (relayBinding j) execCalldata (jb_Outer j) ∈ handed /\ VerifyPrepared (jb_Command j) (jb_Prepared j) execCalldata = Ok tt.

Record good_job (k : knowledge) (j : Job) : Prop := {
  gj_command : command_approved k.1 (jb_Command j);
  gj_signed : jb_State j <> StateAwaitingSignatures -> signed_for (jb_Command j) (jb_Prepared j);
  gj_outer : jb_State j ∈ [StateBroadcasting; StateSubmitted; StatePending; StateRetryable] -> outer_binds j;
  gj_prepared : jb_State j = StateBroadcasting -> prepared_from k.2 j;
  gj_first : jb_State j ∈ [StateAwaitingSignatures; StateReady] -> jb_AttemptCount j = 0;
  gj_attempts : 0 <= jb_AttemptCount j <= MaxRelayAttempts;
  gj_broadcasting : jb_State j = StateBroadcasting -> jb_AttemptCount j < MaxRelayAttempts;
  gj_retry : jb_State j = StateRetryable \/ jb_State j = StateBroadcasting /\ 0 < jb_AttemptCount j -> retry_proven (jb_Prepared j) (jb_LastOutcome j);
}.

Context (s0 : S).

Record good (w : World) : Prop := {
  gw_flows : wd_flows w = serve_all s0 (wd_history w);
  gw_queue : Forall (fun q => command_approved (wd_history w) (mc_command q)) (rs_commands (wd_store w));
  gw_jobs : map_Forall (fun id j => job_id j = id /\ good_job (known w) j) (rs_jobs (wd_store w));
  gw_sent : Forall (fun j => good_job (known w) j /\ jb_State j = StateBroadcasting) (wd_sent w);
}.

(** A later call keeps what is known. *)
Lemma command_approved_app hist c x : command_approved hist x -> command_approved (hist ++ [c]) x.
Proof. intros (w & h & Hb & Ha). exists w, h. split; [done|]. by eapply approved_in_app. Qed.

Lemma good_job_app hist handed c j : good_job (hist, handed) j -> good_job (hist ++ [c], handed) j.
Proof. intros []. split; cbn [fst snd] in *; auto using command_approved_app. Qed.

Lemma good_job_hand hist handed h j : good_job (hist, handed) j -> good_job (hist, handed ++ [h]) j.
Proof.
  intros [G1 G2 G3 G4 G5 G6 G7 G8]. split; try done. intros Hb. destruct (G4 Hb) as (x & Hx & Hv). exists x. split; [cbn in *; set_solver|done].
Qed.

(** ** The fields of a job besides its lease *)

Definition work (j : Job) : Job := leased no_lease 0 j.

Lemma work_leased l now j : work (leased l now j) = work j.
Proof. done. Qed.

Lemma work_fields i j : work i = work j ->
  jb_Command i = jb_Command j /\ jb_State i = jb_State j /\ jb_Prepared i = jb_Prepared j /\ jb_Outer i = jb_Outer j /\
  jb_LastOutcome i = jb_LastOutcome j /\ jb_AttemptCount i = jb_AttemptCount j /\ relayBinding i = relayBinding j.
Proof. destruct i, j. unfold work, leased. cbn. intros [=]. subst. by split_and!. Qed.

Lemma good_job_work k i j : work i = work j -> good_job k j -> good_job k i.
Proof.
  intros (Ec & Es & Ep & Eo & El & Ea & Eb)%work_fields [G1 G2 G3 G4 G5 G6 G7 G8]. unfold outer_binds, prepared_from in *.
  split; unfold outer_binds, prepared_from; rewrite ?Ec, ?Es, ?Ep, ?Eo, ?El, ?Ea, ?Eb; auto.
Qed.

Lemma work_id i j : work i = work j -> job_id i = job_id j.
Proof. intros (Ec & _)%work_fields. unfold job_id. by rewrite Ec. Qed.

(** The store's job is the lease's. *)
Definition held (l : Lease) (w : World (S := S)) : Prop := exists j, rs_jobs (wd_store w) !! job_id (le_Job l) = Some j /\ work j = work (le_Job l).

Lemma held_good l w : good w -> held l w -> good_job (known w) (le_Job l).
Proof. intros G (j & Hl & Hw). eapply good_job_work; [symmetry; exact Hw|]. by eapply (gw_jobs _ G). Qed.

(** ** Computations *)

(** From a good world where [P] holds, [m] ends in a good world, and when it returns,
    [Q] holds of what it returns. *)
Definition triple {A} (P : World -> Prop) (m : M A) (Q : A -> World -> Prop) : Prop :=
  forall w, good w -> P w -> good (m w).1 /\ (forall a, (m w).2 = Ok a -> Q a (m w).1).

Lemma triple_bind {A B} P (m : M A) Q (k : A -> M B) R :
  triple P m Q -> (forall a, triple (Q a) (k a) R) -> triple P (m ≫= k) R.
Proof.
  intros Hm Hk w G HP. destruct (Hm w G HP) as [G' HQ]. unfold mbind, M_bind. destruct (m w) as [w' [a|e]]; cbn in *; [|done].
  by apply Hk; [|apply HQ].
Qed.

Lemma triple_fmap {A B} P (m : M A) (f : A -> B) Q R : triple P m Q -> (forall a w, Q a w -> R (f a) w) -> triple P (f <$> m) R.
Proof. intros Hm Hf. apply (triple_bind _ _ Q); [done|]. intros a w G HQ. split; [done|]. intros b [= <-]. by apply Hf. Qed.

Lemma triple_ret {A} (P : World -> Prop) (a : A) (Q : A -> World -> Prop) : (forall w, good w -> P w -> Q a w) -> triple P (mret a) Q.
Proof. intros Hq w G HP. split; [done|]. intros b [= <-]. by apply Hq. Qed.

Lemma triple_raise {A} P e (Q : A -> World -> Prop) : triple P (raise e) Q.
Proof. intros w G HP. split; [done|]. intros a [=]. Qed.

Lemma triple_lift {A} P (r : res A) (Q : A -> World -> Prop) : (forall a w, r = Ok a -> P w -> Q a w) -> triple P (lift r) Q.
Proof. intros Hq w G HP. split; [done|]. intros a E. by apply Hq. Qed.

Lemma triple_wrap {A} P text (r : res A) (Q : A -> World -> Prop) : (forall a w, r = Ok a -> P w -> Q a w) -> triple P (wrap text r) Q.
Proof. intros Hq w G HP. split; [done|]. unfold wrap. intros a E. destruct r; [|done]. injection E as ->. by apply Hq. Qed.

Lemma triple_mono {A} (P P' : World -> Prop) (m : M A) (Q Q' : A -> World -> Prop) :
  triple P m Q -> (forall w, good w -> P' w -> P w) -> (forall a w, Q a w -> Q' a w) -> triple P' m Q'.
Proof. intros Hm Hp Hq w G HP. destruct (Hm w G (Hp w G HP)) as [G' HQ]. split; [done|]. intros a E. by apply Hq, HQ. Qed.

Lemma good_store w st :
  good w -> Forall (fun q => command_approved (wd_history w) (mc_command q)) (rs_commands st) ->
  map_Forall (fun id j => job_id j = id /\ good_job (known w) j) (rs_jobs st) ->
  good (mkWorld st (wd_flows w) (wd_history w) (wd_sent w) (wd_handed w)).
Proof. intros [G1 G2 G3 G4] Hq Hj. by split. Qed.

Lemma good_put_job w j : good w -> good_job (known w) j -> good (mkWorld (put_job (wd_store w) j) (wd_flows w) (wd_history w) (wd_sent w) (wd_handed w)).
Proof. intros G Hj. apply good_store; [done|apply G|]. cbn. apply map_Forall_insert_2; [done|apply G]. Qed.

(** A call on the workflows leaves the relay's jobs alone. *)
Lemma triple_flow {A} (P : World -> Prop) c (op : S -> S * res A) :
  (forall s, (op s).1 = serve s c) -> (forall w w', wd_store w' = wd_store w -> P w -> P w') -> triple P (flow c op) (fun _ => P).
Proof.
  intros Hop HP w [G1 G2 G3 G4] Hw. unfold flow. pose proof (Hop (wd_flows w)) as E. destruct (op (wd_flows w)) as [f r]. cbn in E |- *. split.
  - split; cbn.
    + rewrite E, G1. symmetry. apply (serve_all_app s0 (wd_history w) [c]).
    + eapply Forall_impl; [exact G2|]. intros q. apply command_approved_app.
    + eapply map_Forall_impl; [exact G3|]. intros id j [? ?]. split; [done|by apply good_job_app].
    + eapply Forall_impl; [exact G4|]. intros j [? ?]. split; [by apply good_job_app|done].
  - intros _ _. by apply (HP w).
Qed.

Lemma held_store l w w' : wd_store w' = wd_store w -> held l w -> held l w'.
Proof. unfold held. by intros ->. Qed.

(** A change of the leased job that keeps it good, given what is known. *)
Lemma triple_lease_known (R : knowledge -> Prop) l c now mutate token :
  (forall k j j', R k -> work j = work (le_Job l) -> good_job k j -> mutate j = Ok j' -> good_job k j' /\ job_id j' = job_id j) ->
  triple (fun w => held l w /\ R (known w)) (store (fun s => withLease s c l now mutate))
    (fun j w => held (mkLease j token) w /\ exists j1 j2, work j1 = work (le_Job l) /\ mutate j1 = Ok j2 /\ work j = work j2).
Proof.
  intros Hm w G [(j & Hl & Hw) HR]. unfold store, withLease. destruct c; cbn; [by destruct w|]. rewrite Hl.
  destruct (negb _ || _); cbn; [by destruct w|]. destruct (mutate j) as [j'|] eqn:Ej; cbn; [|by destruct w].
  assert (Gj : good_job (known w) j) by (by eapply (gw_jobs _ G)).
  destruct (Hm _ _ _ HR Hw Gj Ej) as [G' E']. split.
  - apply good_put_job; [done|]. by eapply good_job_work; [apply work_leased|].
  - intros a [= <-]. split; [|by exists j, j']. exists (leased (jb_Lease j') now j'). cbn. unfold job_id. cbn. by rewrite lookup_insert_eq.
Qed.

Lemma triple_lease l c now mutate token :
  (forall k j j', work j = work (le_Job l) -> good_job k j -> mutate j = Ok j' -> good_job k j' /\ job_id j' = job_id j) ->
  triple (held l) (store (fun s => withLease s c l now mutate))
    (fun j w => held (mkLease j token) w /\ exists j1 j2, work j1 = work (le_Job l) /\ mutate j1 = Ok j2 /\ work j = work j2).
Proof.
  intros Hm. eapply triple_mono; [apply (triple_lease_known (fun _ => True) l c now mutate token (fun k j j' _ => Hm k j j'))|by intros|done].
Qed.

(** What the relay writes into a job. *)
Lemma progress_good hist j state outer outcome attempts :
  good_job hist j -> signed_for (jb_Command j) (jb_Prepared j) -> state ∉ [StateAwaitingSignatures; StateReady] ->
  (state ∈ [StateBroadcasting; StateSubmitted; StatePending; StateRetryable] ->
   oa_SafeTxHash outer = pp_SafeTxHash (jb_Prepared j) /\ oa_ExecCalldataHash outer = pp_ExecCalldataHash (jb_Prepared j)) ->
  (state = StateBroadcasting -> prepared_from hist.2 (progress state outer outcome attempts j)) ->
  0 <= attempts <= MaxRelayAttempts -> (state = StateBroadcasting -> attempts < MaxRelayAttempts) ->
  (state = StateRetryable \/ state = StateBroadcasting /\ 0 < attempts -> retry_proven (jb_Prepared j) outcome) ->
  good_job hist (progress state outer outcome attempts j).
Proof. intros G Hs Hf Ho Hp Ha Hb Hr. split; cbn; auto; [apply G|done]. Qed.

(** *** Submission *)

Lemma submitted_good hist j j' hash : good_job hist j -> submitted hash j = Ok j' -> good_job hist j' /\ job_id j' = job_id j.
Proof.
  unfold submitted. intros G. case_match; [intros [= <-]; done|]. rewrite check_ok_iff. to_prop. intros [[Hs _] [= <-]]. split; [|done].
  pose proof (gj_broadcasting _ _ G Hs). pose proof (gj_attempts _ _ G).
  apply progress_good; try done; unfold MaxRelayAttempts in *; try lia.
  - apply (gj_signed _ _ G). rewrite Hs. by_states.
  - by_states.
  - intros _. apply (gj_outer _ _ G). rewrite Hs. by_states.
  - intros [E|[E _]]; discriminate E.
Qed.

Lemma triple_submitted c l hash now token :
  triple (held l) (store (fun s => RecordSubmitted s c l hash now))
    (fun j w => held (mkLease j token) w /\ exists j1 j2, work j1 = work (le_Job l) /\ submitted hash j1 = Ok j2 /\ work j = work j2).
Proof. apply triple_lease. intros hist j j' _. apply submitted_good. Qed.

(** *** Decisions *)

Lemma decide_retry_proven p outer e q now d :
  DecideRetry p outer e q now = Ok d -> dr_Decision d = DecisionRetryExact -> retry_proven p e /\ oe_WorkflowID e = pp_WorkflowID p.
Proof.
  unfold DecideRetry. rewrite try_ok_iff. intros ([] & Hv & Hd) Hx. rewrite check_ok_iff in Hd. destruct Hd as [Hh Hd].
  unfold validateOutcome in Hv. destruct (observerQuorum _ _) as [observers|] eqn:Eq; [|done]. rewrite check_ok_iff in Hv.
  destruct Hv as [Hg _]. to_prop.
  assert (Ho : oe_Outcome e ∈ [OutcomeDropped; OutcomeReorged] /\ oe_CurrentSafeNonce e = tx_Nonce (pp_Transaction p) /\
               oe_VerifiedPayloadHash e = pp_PayloadHash p /\ oe_PreviousCanonical e = false).
  { unfold reapprove, decide_as in Hd. cbv zeta in Hd.
    repeat (match type of Hd with context [if ?b then _ else _] => destruct b eqn:? end; to_prop; simplify_eq; try discriminate Hx).
    split_and!; try done. set_solver. }
  unfold retry_proven. split; [|tauto]. split_and!; try tauto. exists q, observers. split; [lia|done].
Qed.

(** A decision that was made for the job. *)
Definition decision_for (j : Job) (e : OutcomeEvidence) (d : DecisionResult) : Prop :=
  (dr_Decision d = DecisionRetryExact -> retry_proven (jb_Prepared j) e /\ oe_WorkflowID e = pp_WorkflowID (jb_Prepared j)).

Lemma signed_fields c p : signed_for c p ->
  ValidateExecutionCommand c = Ok tt /\ pp_WorkflowID p = gc_WorkflowID c /\ pp_OrganizationID p = gc_OrganizationID c /\ pp_PayloadHash p = gc_PayloadHash c.
Proof.
  intros (safe & sn & sigs & q & now & calldata & Hp). unfold Prepare in Hp. apply try_ok_iff in Hp as (r & Hr & Hp).
  apply try_ok_iff in Hp as (x & _ & [= <- _]). unfold BuildSigningRequest in Hr.
  destruct (ValidateExecutionCommand c) as [[]|]; [|done]. apply try_ok_iff in Hr as (_ & _ & Hr). rewrite check_ok_iff in Hr.
  destruct Hr as [_ Hr]. destruct (hex_decode _); [|done]. apply try_ok_iff in Hr as (t & _ & Hr). by apply try_ok_iff in Hr as (hash & _ & [= <-]).
Qed.

Lemma command_id_hash c : ValidateExecutionCommand c = Ok tt -> gc_WorkflowID c <> "".
Proof.
  intros Hv E. unfold ValidateExecutionCommand in Hv. destruct (buildExecutionCommand _ _) as [x|] eqn:Eb; [|done].
  unfold buildExecutionCommand in Eb. rewrite check_ok_iff in Eb. destruct Eb as [Hg _]. to_prop. cbn in Hg. rewrite E in Hg.
  destruct Hg as [? _]. repeat match goal with Hx : _ /\ _ |- _ => destruct Hx end. discriminate.
Qed.

Lemma decided_good hist j j' e d :
  good_job hist j -> jb_State j <> StateAwaitingSignatures -> decision_for j e d -> decided e d j = Ok j' -> good_job hist j' /\ job_id j' = job_id j.
Proof.
  unfold decided. intros G Hs Hd. rewrite check_ok_iff. intros [Hg Hj]. destruct (decided_state _) as [state|] eqn:Es; [|done].
  injection Hj as <-. split; [|done]. pose proof (gj_signed _ _ G Hs) as Hsig. to_prop.
  assert (Hst : (state ∈ [StatePending; StateRetryable; StateFinalizedObserved] ->
                 jb_State j ∈ [StateSubmitted; StatePending] \/ jb_State j = StateRetryable) /\
                (state = StateRetryable -> dr_Decision d = DecisionRetryExact) /\
                state ∈ [StatePending; StateRetryable; StateFinalizedObserved; StateReapprovalRequired]).
  { unfold decided_state in Es. repeat case_bool_decide; simplify_eq.
    all: split_and!; [intros Hi|intros Hi; try discriminate Hi|by_states]; try done.
    all: try (match goal with E : dr_Decision _ = _ |- _ => rewrite E in Hg end; naive_solver).
    exfalso. revert Hi. by_states. }
  destruct Hst as (Hfrom & Hretry & Hin). apply progress_good; try done.
  - intros Hx. revert Hin Hx. generalize state. intros x Hin Hx. each_state Hin; revert Hx; by_states.
  - intros Hx. apply (gj_outer _ _ G). assert (Hy : jb_State j ∈ [StateSubmitted; StatePending] \/ jb_State j = StateRetryable).
    { apply Hfrom. revert Hin Hx. generalize state. intros x Hin Hx. each_state Hin; try by_states. exfalso. revert Hx. by_states. }
    destruct Hy as [Hy|Hy]; set_solver.
  - intros E. rewrite E in Hin. exfalso. revert Hin. by_states.
  - apply G.
  - intros E. rewrite E in Hin. exfalso. revert Hin. by_states.
  - intros [E|[E _]]; [|rewrite E in Hin; exfalso; revert Hin; by_states]. destruct (Hd (Hretry E)) as [Hp Hw].
    destruct (signed_fields _ _ Hsig) as (Hv & Ew & _). rewrite bool_decide_false; [done|]. rewrite Hw, Ew. by apply command_id_hash.
Qed.

Lemma triple_decided c l e d now token :
  jb_State (le_Job l) <> StateAwaitingSignatures -> decision_for (le_Job l) e d ->
  triple (held l) (store (fun s => ApplyDecision s c l e d now))
    (fun j w => held (mkLease j token) w /\ exists j1 j2, work j1 = work (le_Job l) /\ decided e d j1 = Ok j2 /\ work j = work j2).
Proof.
  intros Hs Hd. apply triple_lease. intros hist j j' Hw G Hj. apply work_fields in Hw as (_ & Es & Ep & _).
  apply (decided_good hist j j' e d); [done|congruence| |done]. unfold decision_for in *. by rewrite Ep.
Qed.

(** *** Preparing and sending *)

Lemma work_progress a b c d i j : work i = work j -> work (progress a b c d i) = work (progress a b c d j).
Proof. destruct i, j. unfold work, leased, progress. cbn. intros [=]. by subst. Qed.

Lemma outer_prepared_new outer now j j' :
  jb_State j ∈ [StateReady; StateRetryable] -> outer_prepared outer now j = Ok j' ->
  validOuter outer (jb_Prepared j) now = true /\ j' = progress StateBroadcasting outer (jb_LastOutcome j) (jb_AttemptCount j) j.
Proof.
  unfold outer_prepared. intros Hs. rewrite bool_decide_false; [|intros E; rewrite E in Hs; revert Hs; by_states]. cbn [andb].
  rewrite check_ok_iff. to_prop. by intros [[_ Hv] [= <-]].
Qed.

Lemma outer_prepared_good hist outer now j j' :
  (exists execCalldata, mkHanding (relayBinding j) execCalldata outer ∈ hist.2 /\ VerifyPrepared (jb_Command j) (jb_Prepared j) execCalldata = Ok tt) ->
  good_job hist j -> jb_State j ∈ [StateReady; StateRetryable] -> jb_AttemptCount j < MaxRelayAttempts -> outer_prepared outer now j = Ok j' ->
  good_job hist j' /\ job_id j' = job_id j.
Proof.
  intros Hx G Hs Ha Hj. apply outer_prepared_new in Hj as [Hv ->]; [|done]. split; [|done]. unfold validOuter in Hv. to_prop.
  apply progress_good; try done.
  - apply (gj_signed _ _ G). intros E. rewrite E in Hs. revert Hs. by_states.
  - by_states.
  - intros _. tauto.
  - apply G.
  - intros [E|[_ Hpos]]; [discriminate E|]. apply (gj_retry _ _ G). left. apply elem_of_cons in Hs as [Hs|Hs%list_elem_of_singleton]; [|done].
    assert (jb_AttemptCount j = 0) by (apply (gj_first _ _ G); set_solver). lia.
Qed.

Lemma triple_send l : jb_State (le_Job l) = StateBroadcasting -> triple (held l) (send (le_Job l)) (fun _ => held l).
Proof.
  intros Hs w G Hh. split; [|by intros]. pose proof (held_good _ _ G Hh) as Gj. destruct G as [G1 G2 G3 G4]. split; try done.
  cbn. apply Forall_app. split; [done|]. by constructor.
Qed.

Lemma triple_hand l h : triple (held l) (hand h) (fun _ w => held l w /\ h ∈ wd_handed w).
Proof.
  intros w [G1 G2 G3 G4] Hh. split.
  - split; cbn; [done|done|..].
    + eapply map_Forall_impl; [exact G3|]. intros id j [? ?]. split; [done|by apply good_job_hand].
    + eapply Forall_impl; [exact G4|]. intros j [? ?]. split; [by apply good_job_hand|done].
  - intros _ _. split; [exact Hh|]. cbn. set_solver.
Qed.

Lemma triple_record env j hash l : triple (held l) (recordWorkflowSubmission env j hash) (fun _ => held l).
Proof. unfold recordWorkflowSubmission. destruct (_ =? 0); (apply triple_flow; [done|apply held_store]). Qed.

Definition anything {A} (_ : A) (_ : World (S := S)) : Prop := True.

Lemma triple_broadcast env l : jb_State (le_Job l) = StateBroadcasting -> triple (held l) (broadcastPrepared env l) anything.
Proof.
  intros Hs. unfold broadcastPrepared. eapply triple_bind; [by apply triple_send|]. intros [].
  destruct (rv_broadcast _ _) as [hash|]; [|apply triple_raise]. destruct (negb _); [apply triple_raise|].
  eapply triple_bind; [apply triple_record|]. intros []. eapply triple_mono; [apply (triple_submitted _ _ _ _ "")|done|done].
Qed.

Lemma triple_reapproval env l e d :
  jb_State (le_Job l) <> StateAwaitingSignatures -> decision_for (le_Job l) e d -> triple (held l) (requireReapproval env l e d) anything.
Proof.
  intros Hs Hd. unfold requireReapproval. eapply triple_bind; [apply triple_flow; [done|apply held_store]|]. intros [].
  eapply triple_mono; [by apply (triple_decided _ _ _ _ _ "")|done|done].
Qed.

Lemma reapprove_for j e d : dr_Decision d = DecisionReapprove -> decision_for j e d.
Proof. intros E E'. rewrite E in E'. discriminate E'. Qed.

Lemma triple_observe cfg env text j P :
  triple P (observe_job cfg env text j) (fun x w => P w /\ decision_for j x.1 x.2).
Proof.
  unfold observe_job. eapply triple_bind; [apply triple_wrap; intros e w _ HP; exact HP|]. intros e.
  eapply triple_bind; [apply (triple_lift _ _ (fun d w => P w /\ decision_for j e d)); intros d w Hd HP; split; [done|]|].
  - intros Hr. by eapply decide_retry_proven.
  - intros d. by apply triple_ret.
Qed.

Lemma triple_revalidate cfg env text j P :
  triple P (revalidate cfg env text j) (fun r w => P w /\ forall d, r = Some d -> dr_Decision d = DecisionReapprove).
Proof.
  unfold revalidate. eapply triple_bind; [apply triple_wrap; intros safe w _ HP; exact HP|]. intros safe.
  destruct (negb _); [apply triple_ret; intros w _ HP; split; [done|]; by intros d [= <-]|].
  eapply triple_bind; [apply triple_lift; intros sn w _ HP; exact HP|]. intros sn.
  eapply triple_bind; [apply triple_lift; intros d w _ HP; exact HP|]. intros d. apply triple_ret. intros w _ HP. split; [done|].
  intros d'. case_bool_decide; [by intros [= <-]|done].
Qed.

Lemma triple_and {A} (P : World -> Prop) (F : Prop) (m : M A) Q : (F -> triple P m Q) -> triple (fun w => P w /\ F) m Q.
Proof. intros Hm w G [HP HF]. by apply Hm. Qed.

Lemma triple_recover cfg env l :
  jb_State (le_Job l) = StateBroadcasting -> triple (held l) (recoverBroadcasting cfg env l) anything.
Proof.
  intros Hs. assert (Hn : jb_State (le_Job l) <> StateAwaitingSignatures) by (rewrite Hs; by_states). unfold recoverBroadcasting.
  eapply triple_bind; [apply triple_observe|]. intros [e d]. cbn [fst snd]. apply triple_and. intros Hd. case_bool_decide.
  - destruct (_ <=? _); [by apply triple_reapproval, reapprove_for|].
    eapply triple_bind; [apply triple_revalidate|]. intros changed. apply triple_and. intros Hc.
    destruct changed as [d'|]; [by apply triple_reapproval, reapprove_for, Hc|by apply triple_broadcast].
  - eapply triple_bind; [apply triple_record|]. intros [].
    eapply triple_bind; [apply (triple_submitted _ _ _ _ (le_Token l))|]. intros j. apply triple_and. intros (j1 & j2 & W1 & Hj & W2).
    assert (Hj' : jb_State j <> StateAwaitingSignatures /\ jb_Prepared j = jb_Prepared (le_Job l)).
    { apply work_fields in W2 as (_ & Es & Ep & _). apply work_fields in W1 as (_ & Es1 & Ep1 & _). rewrite Es, Ep. unfold submitted in Hj.
      destruct (_ && _); [injection Hj as <-; split; congruence|]. rewrite check_ok_iff in Hj. destruct Hj as [_ [= <-]]. cbn. split; [by_states|congruence]. }
    destruct Hj' as [Hjn Hjp]. assert (Hd' : decision_for j e d) by (unfold decision_for in *; by rewrite Hjp).
    case_bool_decide; [by apply triple_reapproval|]. case_bool_decide; [|by apply triple_ret].
    eapply triple_mono; [by apply (triple_decided _ (mkLease j (le_Token l)) _ _ _ "")|done|done].
Qed.

Lemma triple_ready cfg env l : jb_State (le_Job l) ∈ [StateReady; StateRetryable] -> triple (held l) (relay_ready cfg env l) anything.
Proof.
  intros Hs. assert (Hn : jb_State (le_Job l) <> StateAwaitingSignatures) by (intros E; rewrite E in Hs; revert Hs; by_states).
  unfold relay_ready. destruct (_ <=? _) eqn:Ea; [by apply triple_reapproval, reapprove_for|]. apply Z.leb_gt in Ea.
  eapply triple_bind; [apply triple_revalidate|]. intros changed. apply triple_and. intros Hc.
  destruct changed as [d|]; [by apply triple_reapproval, reapprove_for, Hc|].
  eapply triple_bind; [apply triple_lift; intros calldata w _ HP; exact HP|]. intros calldata.
  eapply triple_bind; [apply (triple_lift _ _ (fun _ w => held l w /\ VerifyPrepared (jb_Command (le_Job l)) (jb_Prepared (le_Job l)) calldata = Ok tt))|].
  { intros [] w Hv HP. by split. }
  intros []. apply triple_and. intros Hv. destruct (rv_prepare _ _ _) as [outer|]; [|apply triple_raise].
  eapply triple_bind; [apply triple_hand|]. intros []. destruct (negb _); [apply triple_raise|].
  eapply triple_bind.
  - apply (triple_lease_known (fun k => mkHanding (relayBinding (le_Job l)) calldata outer ∈ k.2) _ _ _ _ (le_Token l)).
    intros k j j' Hk Hw G. apply work_fields in Hw as (Ec & Es & Ep & _ & _ & Eat & Eb).
    apply outer_prepared_good; [|done|by rewrite Es|lia]. exists calldata. by rewrite Eb, Ec, Ep.
  - intros j. apply triple_mono with (P := held (mkLease (progress StateBroadcasting outer (jb_LastOutcome (le_Job l)) (jb_AttemptCount (le_Job l)) (le_Job l)) (le_Token l)))
      (Q := anything); [by apply triple_broadcast| |done].
    intros w _ [(x & Hx & Wx) (j1 & j2 & W1 & Hj & W2)]. cbn [le_Job] in *. pose proof (work_fields _ _ W1) as (_ & Es & _ & _ & El & Eat & _).
    apply outer_prepared_new in Hj as [_ ->]; [|by rewrite Es]. rewrite El, Eat in W2. rewrite (work_progress _ _ _ _ _ _ W1) in W2.
    exists x. cbn [le_Job]. split; [|congruence]. rewrite <- Hx. f_equal. symmetry. by apply work_id.
Qed.

Lemma triple_refresh cfg env l :
  jb_State (le_Job l) = StateRetryable ->
  triple (held l) (refresh_retry cfg env l) (fun x w => match x with inr _ => True | inl l' => held l' w /\ jb_State (le_Job l') ∈ [StateReady; StateRetryable] end).
Proof.
  intros Hs. assert (Hn : jb_State (le_Job l) <> StateAwaitingSignatures) by (rewrite Hs; by_states). unfold refresh_retry.
  eapply triple_bind; [apply triple_observe|]. intros [e d]. cbn [fst snd]. apply triple_and. intros Hd.
  case_bool_decide as H4; [eapply triple_fmap; [by apply triple_reapproval|done]|].
  case_bool_decide as H5; [eapply triple_fmap; [by apply (triple_decided _ _ _ _ _ "")|done]|].
  case_bool_decide as H6; [by apply triple_ret|].
  destruct (_ <=? _); [eapply triple_fmap; [by apply triple_reapproval, reapprove_for|done]|].
  eapply triple_bind; [by apply (triple_decided _ _ _ _ _ (le_Token l))|]. intros j. apply triple_ret.
  intros w _ [Hh (j1 & j2 & W1 & Hj & W2)]. split; [done|]. cbn [le_Job]. apply work_fields in W2 as (_ & Es & _). rewrite Es.
  unfold decided in Hj. rewrite check_ok_iff in Hj. destruct Hj as [_ Hj]. unfold decided_state in Hj.
  rewrite (bool_decide_false _ H6) in Hj. case_bool_decide; [injection Hj as <-; by_states|].
  rewrite (bool_decide_false _ H4), (bool_decide_false _ H5) in Hj. discriminate Hj.
Qed.

(** *** The calls *)

Lemma next_job_stored st relay now j :
  next_job st relay now = Some j -> (exists id, rs_jobs st !! id = Some j) /\ eligible relay j now = true.
Proof.
  unfold next_job. intros Hf. apply List.find_some in Hf as [Hin He]. split; [|done]. apply list_elem_of_In in Hin.
  apply list_elem_of_omap in Hin as (id & _ & Hl). by exists id.
Qed.

Definition claimable (relay : bool) : list RelayState :=
  if relay then [StateReady; StateRetryable; StateBroadcasting] else [StateSubmitted; StatePending].

Lemma triple_claim c worker lease relay now token :
  triple (fun _ => True) (store (fun s => claim s c worker lease relay now token)) (fun l w => held l w /\ jb_State (le_Job l) ∈ claimable relay).
Proof.
  intros w G _. unfold store, claim. destruct c; cbn; [by destruct w|]. destruct (negb _); cbn; [by destruct w|].
  destruct (next_job _ _ _) as [j|] eqn:Ej; cbn; [|by destruct w]. destruct token as [token|]; cbn; [|by destruct w].
  apply next_job_stored in Ej as [[id Hl] He]. destruct (gw_jobs _ G _ _ Hl) as [Hid Gj]. split.
  - apply good_put_job; [done|]. by eapply good_job_work; [apply work_leased|].
  - intros l [= <-]. cbn. split.
    + eexists. cbn. split; [apply lookup_insert_eq|done].
    + unfold eligible in He. apply andb_true_iff in He as [He _]. unfold claimable. destruct relay; by apply bool_decide_eq_true in He.
Qed.

Lemma triple_releasing {A} P env l (m : M A) Q : triple P m Q -> triple P (releasing env l m) anything.
Proof.
  intros Hm w G HP. destruct (Hm w G HP) as [G' _]. unfold releasing. destruct (m w) as [w' r]. cbn in *. split; [|done].
  unfold ReleaseLease. destruct (rv_ctx env 9); cbn; [by destruct w'|]. destruct (rs_jobs _ !! _) as [j|] eqn:El; cbn; [|by destruct w'].
  destruct (negb _); cbn; [by destruct w'|]. apply good_put_job; [done|]. eapply good_job_work; [apply work_leased|]. by eapply (gw_jobs _ G').
Qed.

Lemma triple_relay cfg env : triple (fun _ => True) (RelayOnce cfg env) anything.
Proof.
  unfold RelayOnce. eapply triple_bind; [apply triple_claim|]. intros l. apply triple_and. intros Hc. eapply triple_releasing.
  case_bool_decide as Hb; [by apply triple_recover|]. case_bool_decide as Hr.
  - eapply triple_bind; [by apply triple_refresh|]. intros [l'|j]; [|by apply triple_ret]. apply triple_and. by apply triple_ready.
  - apply triple_ready. unfold claimable in Hc. set_solver.
Qed.

Lemma triple_observe_once cfg env : triple (fun _ => True) (ObserveOnce cfg env) anything.
Proof.
  unfold ObserveOnce. eapply triple_bind; [apply triple_claim|]. intros l. apply triple_and. intros Hc. eapply triple_releasing.
  assert (Hn : jb_State (le_Job l) <> StateAwaitingSignatures) by (intros E; rewrite E in Hc; revert Hc; by_states).
  eapply triple_bind; [apply triple_observe|]. intros [e d]. cbn [fst snd]. apply triple_and. intros Hd.
  case_bool_decide; [by apply triple_reapproval|]. eapply (triple_bind _ _ (fun _ => held l)).
  - case_bool_decide; [|by apply triple_ret]. destruct (if bool_decide _ then _ else _) as [state reason].
    apply triple_flow; [done|apply held_store].
  - intros []. eapply triple_mono; [by apply (triple_decided _ _ _ _ _ "")|done|done].
Qed.

Lemma triple_consume env : triple (fun _ => True) (ConsumeOnce env) anything.
Proof.
  intros w G _. unfold ConsumeOnce, store, ConsumeCommand. destruct (rv_ctx env 0); cbn; [by destruct w|].
  destruct (take_command _) as [[q l]|] eqn:Et; cbn; [|by destruct w].
  assert (Hq : command_approved (wd_history w) (mc_command q) /\ Forall (fun q => command_approved (wd_history w) (mc_command q)) l).
  { pose proof (gw_queue _ G) as Hf. revert Hf Et. generalize (rs_commands (wd_store w)). intros cs. revert l.
    induction cs as [|x cs IH]; intros l Hf Et; [done|]. apply Forall_cons in Hf as [Hx Hf]. cbn in Et. destruct (mc_consumed x).
    - destruct (take_command cs) as [[y l']|]; [|done]. injection Et as <- <-. destruct (IH l' Hf eq_refl). split; [done|by constructor].
    - injection Et as <- <-. split; [done|by constructor]. }
  destruct Hq as [Hq Hl]. split; [|done]. destruct (rs_jobs _ !! _) eqn:Ej; cbn; apply good_store; try done; try apply G.
  cbn. apply map_Forall_insert_2; [|apply G]. split; [done|]. split; try done; cbn; try (unfold MaxRelayAttempts; lia).
  intros [E|[E _]]; discriminate E.
Qed.

(** The job whose command was just read. *)
Definition has_command (id : string) (c : GovernanceExecutionCommand) (w : World (S := S)) : Prop :=
  exists j, rs_jobs (wd_store w) !! id = Some j /\ jb_Command j = c.

Lemma relay_get_ok st c org id j : relay_Get st c org id = Ok j -> rs_jobs st !! id = Some j.
Proof. unfold relay_Get. destruct c; [done|]. destruct (rs_jobs st !! id); [|done]. rewrite check_ok_iff. by intros [_ [= ->]]. Qed.

Lemma triple_read {A} P (f : RelayStore -> res A) Q : (forall a w, f (wd_store w) = Ok a -> P w -> Q a w) -> triple P (store (fun s => (s, f s))) Q.
Proof. intros Hq w G HP. split; [by destruct w|]. cbn. destruct w. cbn. intros a E. by apply (Hq a (mkWorld _ _ _ _ _)). Qed.

Lemma triple_get c org id : triple (fun _ => True) (store (fun s => (s, relay_Get s c org id))) (fun j => has_command id (jb_Command j)).
Proof. apply triple_read. intros j w Hj _. exists j. split; [by eapply relay_get_ok|done]. Qed.

Lemma triple_store_authorize c org id key inputHash p handle now command :
  signed_for command p -> triple (has_command id command) (store (fun s => store_Authorize s c org id key inputHash p handle now)) anything.
Proof.
  intros Hs w G (j & Hj & Hc). split; [|done]. unfold store, store_Authorize. destruct c; [by destruct w|].
  destruct (rs_authorizations (wd_store w) !! authorizationScope org key) as [[hash id']|]; [by destruct w|].
  destruct (relay_Get _ None org id) as [j'|] eqn:Eg; [|by destruct w]. apply relay_get_ok in Eg. assert (j' = j) as -> by congruence.
  destruct (negb _) eqn:Ea; [by destruct w|]. apply negb_false_iff in Ea. to_prop. destruct (gw_jobs _ G _ _ Hj) as [Hid Gj].
  apply good_store; [done|apply G|]. cbn. apply map_Forall_insert_2; [|apply G]. split; [done|].
  destruct Gj as [G1 _ _ _ G4 G5 _ _]. split; cbn; try done.
  - intros _. by rewrite Hc.
  - intros Hx. exfalso. revert Hx. by_states.
  - intros _. apply G4. set_solver.
  - intros [E|[E _]]; discriminate E.
Qed.

Lemma triple_authorize cfg env org id key signatures : triple (fun _ => True) (AuthorizeSignatures cfg env org id key signatures) anything.
Proof.
  unfold AuthorizeSignatures. destruct (negb _); [apply triple_raise|].
  eapply triple_bind; [apply (triple_read _ _ (fun _ _ => True)); done|]. intros [j|]; [by apply triple_ret|].
  eapply triple_bind; [apply triple_get|]. intros j. eapply triple_bind; [apply triple_wrap; intros safe w _ HP; exact HP|]. intros safe.
  eapply triple_bind; [apply triple_wrap; intros sn w _ HP; exact HP|]. intros sn.
  eapply triple_bind; [apply (triple_lift _ _ (fun x w => has_command id (jb_Command j) w /\ signed_for (jb_Command j) x.1))|].
  - intros [p calldata] w Hp HP. split; [done|]. by exists safe, sn, signatures, (rc_Quorum cfg), (rv_clock env 0), calldata.
  - intros [p calldata]. apply triple_and. intros Hs. destruct (rv_seal _ _ _) as [handle|]; [|apply triple_raise].
    destruct (negb _); [apply triple_raise|]. eapply triple_bind; [by apply triple_store_authorize|]. intros y. by apply triple_ret.
Qed.

Lemma build_state w h c : buildExecutionCommand w h = Ok c -> w_State w = ApprovedPendingChain /\ gc_WorkflowID c = pr_WorkflowID (w_Proposal w).
Proof.
  unfold buildExecutionCommand. rewrite check_ok_iff, try_ok_iff. intros (Hg & b & _ & [= <-]). to_prop. split; [|done].
  repeat match goal with Hx : _ /\ _ |- _ => destruct Hx end. done.
Qed.

Lemma triple_enqueue env org id outboxID h created : db s0 = empty_wdb -> triple (fun _ => True) (enqueue env org id outboxID h created) anything.
Proof.
  intros Hdb w G _. split; [|done]. unfold enqueue. destruct (ws_Get _ _ _ _) as [x|] eqn:Eg; [|done].
  destruct (buildExecutionCommand x h) as [command|] eqn:Eb; [|done].
  assert (Ha : command_approved (wd_history w) command).
  { exists x, h. split; [done|]. apply law_get in Eg as [Hl _]. destruct (build_state _ _ _ Eb) as [Hs Hid].
    rewrite (gw_flows _ G) in Hl. pose proof (serve_all_justified s0 (wd_history w) Hdb id x Hl) as J.
    rewrite Hid, (ju_id _ _ _ _ J). apply J. rewrite Hs. by_states. }
  unfold store, EnqueueCommand. destruct (rv_ctx env 0); cbn; [by destruct w|]. destruct (negb _); cbn; [by destruct w|].
  destruct (existsb _ _); cbn; [by destruct w|]. apply good_store; [done| |apply G]. cbn. unfold with_command.
  rewrite merge_sort_Permutation. apply Forall_app. split; [apply G|by constructor].
Qed.

Lemma relay_step_good w c : db s0 = empty_wdb -> good w -> good (relay_step w c).
Proof.
  intros Hdb G. destruct c; cbn [relay_step].
  - by apply triple_enqueue.
  - by apply triple_consume.
  - by apply triple_authorize.
  - by apply triple_relay.
  - by apply triple_observe_once.
  - by apply (triple_flow (fun _ => True)).
Qed.

Lemma relay_run_good calls : db s0 = empty_wdb -> good (relay_run s0 calls).
Proof.
  intros Hdb. unfold relay_run. assert (G : good (start s0)) by (split; cbn; [done|constructor|apply map_Forall_empty|constructor]).
  revert G. generalize (start s0). induction calls as [|c calls IH]; intros w G; [done|]. cbn. by apply IH, relay_step_good.
Qed.

(** *** What a verified artifact contains *)

Lemma verified_transaction c p execCalldata : VerifyPrepared c p execCalldata = Ok tt ->
  let t := pp_Transaction p in
  tx_ChainID t = gc_ChainID c /\ tx_To t = gc_ContractAddress c /\ hex_decode (trim_0x (gc_Calldata c)) = Some (tx_Data t) /\
  tx_Value t = "0" /\ tx_Operation t = OperationCall /\ Transaction_Hash t = Ok (pp_SafeTxHash p) /\
  pp_ExecCalldataHash p = hashBytes execCalldata /\ length (pp_Owners p) = 3%nat /\ pp_Threshold p = 2 /\
  owners_signed t (mkOwnerSnapshot (pp_Owners p) (pp_Threshold p)) execCalldata.
Proof.
  unfold VerifyPrepared. cbv zeta. rewrite check_ok_iff. intros [Hf Hv]. destruct (Transaction_Hash _) as [digest|] eqn:Eh; [|done].
  rewrite !check_ok_iff in Hv. destruct Hv as (Hd & Ho & _ & Hv). apply try_ok_iff in Hv as ([] & Hx & _).
  unfold canonicalOwnerSnapshot in Ho. to_prop. subst digest.
  assert (Ht : Transaction_Validate (pp_Transaction p) = Ok tt) by (unfold Transaction_Hash in Eh; by apply try_ok_iff in Eh as ([] & Hval & _)).
  apply validated_chain in Ht as (_ & _ & _ & Et). apply exec_calldata_authorized in Hx.
  split_and!; try tauto; by rewrite Et.
Qed.
End System.

Section Properties.
Context `{Crypto} `{Abi} `{SafeLib} {S : Type} `{StoreLaws S}.

(** C14: End to end, whatever is called on the relay and on the workflow service, in
    whatever order, with whatever answers from outside: an outer transaction is handed
    to the broadcaster only for the command of a workflow that one principal proposed
    and another approved, as a plain Safe call to exactly the approved contract with
    exactly the approved calldata, signed by two different owners of a Safe with three.
    What is sent is the broadcaster's own artifact for that call: the broadcaster was
    given exactly the owners' [execTransaction] calldata to prepare it, and its artifact
    names that Safe transaction and the hash of that calldata. A retry is broadcast only
    when a quorum saw the earlier one gone and the Safe's nonce unspent. *)
Theorem relay_broadcasts_authorized (s0 : S) calls j :
  db s0 = empty_wdb -> j ∈ wd_sent (relay_run s0 calls) ->
  (exists w h, buildExecutionCommand w h = Ok (jb_Command j) /\ approved_in (wd_history (relay_run s0 calls)) (job_id j) w) /\
  (exists execCalldata,
     mkHanding (relayBinding j) execCalldata (jb_Outer j) ∈ wd_handed (relay_run s0 calls) /\
     let t := pp_Transaction (jb_Prepared j) in
     tx_ChainID t = gc_ChainID (jb_Command j) /\ tx_To t = gc_ContractAddress (jb_Command j) /\
     hex_decode (trim_0x (gc_Calldata (jb_Command j))) = Some (tx_Data t) /\ tx_Value t = "0" /\ tx_Operation t = OperationCall /\
     Transaction_Hash t = Ok (oa_SafeTxHash (jb_Outer j)) /\ oa_ExecCalldataHash (jb_Outer j) = hashBytes execCalldata /\
     length (pp_Owners (jb_Prepared j)) = 3%nat /\ owners_signed t (mkOwnerSnapshot (pp_Owners (jb_Prepared j)) 2) execCalldata) /\
  (0 < jb_AttemptCount j -> retry_proven (jb_Prepared j) (jb_LastOutcome j)).
Proof.
  intros Hdb Hj. pose proof (gw_sent _ _ (relay_run_good s0 calls Hdb)) as Hs. rewrite Forall_forall in Hs. destruct (Hs j Hj) as [G Hb].
  destruct (gj_outer _ _ G ltac:(rewrite Hb; by_states)) as [E1 E2].
  destruct (gj_prepared _ _ G Hb) as (x & Hin & (T1 & T2 & T3 & T4 & T5 & T6 & T7 & T8 & T9 & T10)%verified_transaction).
  split_and!.
  - apply G.
  - exists x. rewrite E1, E2. rewrite T9 in T10. by split_and!.
  - intros Hp. apply (gj_retry _ _ G). by right.
Qed.

(** The relay makes at most ten attempts for a command, in every run. *)
Theorem relay_attempts_bounded (s0 : S) calls id j :
  db s0 = empty_wdb -> rs_jobs (wd_store (relay_run s0 calls)) !! id = Some j ->
  job_id j = id /\ 0 <= jb_AttemptCount j <= 10 /\ (jb_State j = StateBroadcasting -> jb_AttemptCount j < 10).
Proof.
  intros Hdb Hl. destruct (gw_jobs _ _ (relay_run_good s0 calls Hdb) _ _ Hl) as [Hid G].
  split_and!; [done|apply (gj_attempts _ _ G)..|apply (gj_broadcasting _ _ G)].
Qed.

(** *** A retry that was not recorded in time *)

(** The evidence of the earlier attempt is older than a minute for the workflow service. *)
Definition stale (env : renv) (j : Job) : Prop :=
  Minute < time_sub (truncate (wn_now (rv_flow env 0))) (time_of_unix (Unix (oe_ObservedAt (jb_LastOutcome j)))).

Lemma stale_refused env j hash (w : World (S := S)) :
  stale env j -> 0 < jb_AttemptCount j ->
  exists c, recordWorkflowSubmission env j hash w = (mkWorld (wd_store w) (wd_flows w) (wd_history w ++ [c]) (wd_sent w) (wd_handed w), Err ErrInvalidWorkflow).
Proof.
  intros Hs Ha. unfold recordWorkflowSubmission. rewrite (proj2 (Z.eqb_neq _ _)) by lia. eexists. unfold flow, RecordProvenRetry.
  assert (validSafeRetryProof (job_id j) hash (safeRetryProof j hash) (truncate (wn_now (rv_flow env 0))) = false) as ->.
  { unfold validSafeRetryProof. cbn [rp_ObservedAt safeRetryProof]. unfold stale in Hs. rewrite (proj2 (Z.leb_gt _ _)) by exact Hs.
    by rewrite !andb_false_r. }
  by rewrite andb_false_r.
Qed.

(** The chain observers do not say that the outer transaction is gone. *)
Definition not_gone (cfg : RelayConfig) (env : renv) (j : Job) : Prop :=
  forall e d, rv_outcome env (outcomeBinding j) = Ok e ->
  DecideRetry (jb_Prepared j) (oa_TransactionHash (jb_Outer j)) e (rc_Quorum cfg) (rv_clock env 1) = Ok d -> dr_Decision d <> DecisionRetryExact.

Lemma recover_stale cfg env l (w : World (S := S)) :
  stale env (le_Job l) -> 0 < jb_AttemptCount (le_Job l) -> not_gone cfg env (le_Job l) ->
  exists w' m, recoverBroadcasting cfg env l w = (w', Err m) /\ wd_store w' = wd_store w /\ wd_flows w' = wd_flows w /\ wd_sent w' = wd_sent w.
Proof.
  intros Hs Ha Hg. unfold recoverBroadcasting, observe_job, mbind, M_bind, wrap, lift.
  destruct (rv_outcome env _) as [e|m] eqn:Ee; [|by exists w, ("reconcile prepared outer transaction: " +:+ m)].
  destruct (DecideRetry _ _ _ _ _) as [d|m] eqn:Ed; [|by exists w, m]. cbn [mret M_ret].
  rewrite (bool_decide_false _ (Hg e d Ee Ed)). destruct (stale_refused env (le_Job l) (oa_TransactionHash (jb_Outer (le_Job l))) w Hs Ha) as [c ->].
  eexists _, _. done.
Qed.

(** A retry is recorded with the workflow only while the evidence of the attempt
    before is at most a minute old, and that evidence is never renewed once the retry
    is broadcasting. So when the retry was handed to the broadcaster and the relay
    stopped before recording it, a minute later no run of the relay records it, and the
    job stays where it is: also when every observer reports the transaction pending,
    reverted or finalized. *)
Theorem stale_retry_strands cfg env (w : World (S := S)) j :
  rs_jobs (wd_store w) !! job_id j = Some j -> next_job (wd_store w) true (rv_clock env 0) = Some j ->
  jb_State j = StateBroadcasting -> 0 < jb_AttemptCount j -> stale env j -> not_gone cfg env j ->
  let w' := (RelayOnce cfg env w).1 in
  wd_flows w' = wd_flows w /\ wd_sent w' = wd_sent w /\ (exists m, (RelayOnce cfg env w).2 = Err m) /\
  exists j', rs_jobs (wd_store w') !! job_id j = Some j' /\ work j' = work j.
Proof.
  intros Hl Hn Hst Ha Hs Hg. cbv zeta.
  assert (E0 : (exists m, RelayOnce cfg env w = (w, Err m)) \/ exists token, rv_token env = Ok token /\ rv_ctx env 0 = None /\
    identifier_pattern (rc_WorkerID cfg) && (Second <=? rc_LeaseDuration cfg) && (rc_LeaseDuration cfg <=? Minute) = true).
  { unfold RelayOnce, mbind, M_bind, store, claim. destruct (rv_ctx env 0) as [m|]; [left; exists m; by destruct w|].
    destruct (_ && (rc_LeaseDuration cfg <=? Minute)); cbn [negb]; [|left; eexists; by destruct w]. rewrite Hn.
    destruct (rv_token env) as [token|m]; [right; by exists token|left; exists m; by destruct w]. }
  destruct E0 as [[m E0]|(token & Et & Ec & Ew)]; [rewrite E0; cbn; by eauto 10|].
  unfold RelayOnce, mbind, M_bind, store, claim. rewrite Ec, Ew, Hn, Et. cbn [negb le_Job]. change (jb_State (leased _ _ j)) with (jb_State j).
  rewrite bool_decide_true by done.
  set (l := mkLease (leased _ _ j) token). set (w1 := mkWorld (put_job (wd_store w) _) _ _ _ _).
  destruct (recover_stale cfg env l w1) as (w2 & m & E & Est & Ef & Esent); [done|done|done|].
  unfold releasing. rewrite E. cbn. rewrite Ef, Esent, Est. split_and!; [done|done|by exists m|].
  assert (Hl1 : rs_jobs (wd_store w1) !! job_id j = Some (le_Job l)) by (cbn; by rewrite lookup_insert_eq).
  unfold ReleaseLease. destruct (rv_ctx env 9); [by exists (le_Job l)|]. cbn [fst].
  change (job_id (le_Job l)) with (job_id j). rewrite Hl1. destruct (negb _); cbn [fst]; [by exists (le_Job l)|].
  eexists. split; [apply lookup_insert_eq|done].
Qed.
End Properties.
