(* ===== verification/RelayDemo.v ===== *)
(** * A change of caps through the relay

    One run of the system, from the proposal to a retry that is recorded too late; the
    instances of the Safe's and the relay's theorems at it. *)
From stdpp Require Import base gmap strings list fin_maps sorting.
From Stdlib Require Import ZArith Lia Ascii.
From S2P Require Import Prelude GoText GoJSON Crypto Envelope GovAction GovActionTheorems Workflow WorkflowTheorems SafeTx Relay RelayTheorems.

Open Scope Z_scope.

Section RelayDemo.
#[local] Existing Instance ToyCrypto.
#[local] Existing Instance ToyCryptoLaws.
#[local] Existing Instance ToyAbi.
#[local] Existing Instance ToyAbiLaws.

Fixpoint be_value (s : string) (acc : Z) : Z := match s with EmptyString => acc | String c s => be_value s (acc * 256 + code c) end.

(** Signatures that carry the address of their signer. *)
Definition ToySafeLib : SafeLib := {|
  ecdsa_recover _ sig := Ok (String.substring 0 20 sig);
  ecdsa_values _ _ _ := true;
  exec_pack to_ data sigs := be_bytes 4 (str_len sigs) +:+ sigs +:+ to_ +:+ data;
  exec_unpack s := Some (String.substring 4 (Z.to_nat (be_value (String.substring 0 4 s) 0)) s) |}.
#[local] Existing Instance ToySafeLib.

Definition demo_safe : string := demo_asset.
Definition demo_owners : list string := ["0x" +:+ str_repeat "1" 40; "0x" +:+ str_repeat "2" 40; "0x" +:+ str_repeat "3" 40].
Definition demo_signature (owner : string) : string := hex_bytes owner +:+ str_repeat nul 44 +:+ String (char_of 27) "".
Definition demo_signatures : string := str_concat (map demo_signature (take 2 demo_owners)).

Definition demo_snapshot (n : Z) : Snapshot := {|
  sn_ChainID := 8453; sn_SafeAddress := demo_safe; sn_SafeNonce := 7; sn_Owners := demo_owners; sn_Threshold := 2;
  sn_VerifiedPayloadHash := bd_PayloadHash demo_bound; sn_BlockNumber := 40; sn_BlockHash := demo_hash "4"; sn_BlockTimestamp := 1090;
  sn_ConfirmedHead := 41; sn_Observers := ["rpc_a"; "rpc_b"]; sn_EvidenceDigest := demo_hash "5"; sn_ObservedAt := at_second n |}.

Definition demo_evidence (n : Z) (outcome : Outcome) (canonical : bool) (nonce : Z) (b : OutcomeBinding) : OutcomeEvidence := {|
  oe_WorkflowID := ob_WorkflowID b; oe_OuterTransactionHash := ob_OuterTransactionHash b; oe_Outcome := outcome; oe_PreviousCanonical := canonical;
  oe_ChainID := 8453; oe_SafeAddress := demo_safe; oe_CurrentSafeNonce := nonce; oe_SafeTxHash := ob_SafeTxHash b;
  oe_ExecCalldataHash := ob_ExecCalldataHash b; oe_VerifiedPayloadHash := ob_PayloadHash b; oe_BlockNumber := 45; oe_BlockHash := demo_hash "4";
  oe_ConfirmedHead := 46; oe_Observers := ["rpc_a"; "rpc_b"]; oe_EvidenceDigest := demo_hash "5"; oe_ObservedAt := at_second n |}.

Definition demo_command : GovernanceExecutionCommand :=
  match buildExecutionCommand (demo_of 3) (demo_hash "5") with Ok c => c | Err _ => jb_Command zero_job end.
Definition demo_cfg : RelayConfig := mkRelayConfig "worker_1" 2 (30 * Second).
Definition demo_prepared : Prepared * string :=
  match Prepare demo_command demo_safe (demo_snapshot 1100) demo_signatures 2 (at_second 1100) with Ok x => x | Err _ => (no_prepared, "") end.

(** At second [n]: the next outer transaction is [tx], observers report [outcome], and
    the workflow service answers within [flow]. *)
Definition relay_env (n : Z) (tx : string) (outcome : OutcomeBinding -> OutcomeEvidence) (flow : ctx) : renv := {|
  rv_clock _ := at_second n; rv_ctx _ := None; rv_token := Ok "token_1"; rv_safe _ _ := Ok demo_safe; rv_snapshot _ _ := Ok (demo_snapshot n);
  rv_seal _ _ := Ok "vault_1"; rv_open _ _ := Ok (snd demo_prepared);
  rv_prepare b _ := Ok (mkOuter "outer_1" tx (rb_SafeTxHash b) (rb_ExecCalldataHash b) (at_second n)); rv_broadcast _ := Ok tx;
  rv_outcome b := Ok (outcome b); rv_flow _ := mkwenv (at_second n) flow flow (Err "no random source") |}.

Definition pending (n : Z) : OutcomeBinding -> OutcomeEvidence := demo_evidence n OutcomePending true 7.
Definition dropped (n : Z) : OutcomeBinding -> OutcomeEvidence := demo_evidence n OutcomeDropped false 7.
Definition finalized (n : Z) : OutcomeBinding -> OutcomeEvidence := demo_evidence n OutcomeFinalized true 8.

Definition relay_calls : list rcall := [
  RFlow (CCreate demo_service (demo_env 1060) demo_operator "key-1" demo_request);
  RFlow (CApprove demo_service (demo_env 1080) demo_admin demo_workflow "key-3");
  REnqueue (relay_env 1081 "" (pending 1081) None) "org_1" demo_workflow (demo_hash "6") (demo_hash "5") (at_second 1081);
  RConsume (relay_env 1082 "" (pending 1082) None);
  RAuthorize demo_cfg (relay_env 1100 "" (pending 1100) None) "org_1" demo_workflow "auth-1" demo_signatures;
  RRelay demo_cfg (relay_env 1110 (demo_hash "8") (pending 1110) None);
  RObserve demo_cfg (relay_env 1150 "" (dropped 1150) None);
  RRelay demo_cfg (relay_env 1160 (demo_hash "9") (dropped 1160) (Some "context canceled"))].

Definition relay_world : World := Eval vm_compute in relay_run NewMemoryStore relay_calls.
Lemma relay_world_run : relay_run NewMemoryStore relay_calls = relay_world.
Proof. vm_compute. reflexivity. Qed.
Definition relay_job : Job := default zero_job (rs_jobs (wd_store relay_world) !! demo_workflow).
Definition retried_job : Job := default zero_job (wd_sent relay_world !! 1%nat).

Definition found {A} (o : option A) : bool := match o with Some _ => true | None => false end.
Lemma found_default {A} (o : option A) z : found o = true -> o = Some (default z o).
Proof. by destruct o. Qed.

(** Broadcast twice, the second time not recorded. *)
Lemma relay_outcome : (jb_State relay_job, jb_AttemptCount relay_job, map (fun j => oa_TransactionHash (jb_Outer j)) (wd_sent relay_world)) =
  (StateBroadcasting, 1, [demo_hash "8"; demo_hash "9"]).
Proof. vm_compute. reflexivity. Qed.

Lemma relay_job_stored : rs_jobs (wd_store relay_world) !! demo_workflow = Some relay_job.
Proof.
  assert (Hf : found (rs_jobs (wd_store relay_world) !! demo_workflow) = true) by (vm_compute; reflexivity).
  unfold relay_job. revert Hf. generalize relay_world. intros w. apply found_default.
Qed.

Lemma relay_sent : wd_sent relay_world !! 1%nat = Some retried_job.
Proof.
  assert (Hf : found (wd_sent relay_world !! 1%nat) = true) by (vm_compute; reflexivity).
  unfold retried_job. revert Hf. generalize relay_world. intros w. apply found_default.
Qed.

Lemma relay_broadcasts_authorized_witness :
  (exists w h, buildExecutionCommand w h = Ok (jb_Command retried_job) /\
     approved_in (wd_history (relay_run NewMemoryStore relay_calls)) (job_id retried_job) w) /\
  (exists execCalldata,
     mkHanding (relayBinding retried_job) execCalldata (jb_Outer retried_job) ∈ wd_handed (relay_run NewMemoryStore relay_calls) /\
     let t := pp_Transaction (jb_Prepared retried_job) in
     tx_ChainID t = gc_ChainID (jb_Command retried_job) /\ tx_To t = gc_ContractAddress (jb_Command retried_job) /\
     hex_decode (trim_0x (gc_Calldata (jb_Command retried_job))) = Some (tx_Data t) /\ tx_Value t = "0" /\ tx_Operation t = OperationCall /\
     Transaction_Hash t = Ok (oa_SafeTxHash (jb_Outer retried_job)) /\ oa_ExecCalldataHash (jb_Outer retried_job) = hashBytes execCalldata /\
     length (pp_Owners (jb_Prepared retried_job)) = 3%nat /\ owners_signed t (mkOwnerSnapshot (pp_Owners (jb_Prepared retried_job)) 2) execCalldata) /\
  (0 < jb_AttemptCount retried_job -> retry_proven (jb_Prepared retried_job) (jb_LastOutcome retried_job)).
Proof.
  apply (relay_broadcasts_authorized NewMemoryStore relay_calls retried_job); [reflexivity|].
  rewrite relay_world_run. exact (list_elem_of_lookup_2 _ _ _ relay_sent).
Defined.

Lemma relay_attempts_bounded_witness :
  job_id relay_job = demo_workflow /\ 0 <= jb_AttemptCount relay_job <= 10 /\ (jb_State relay_job = StateBroadcasting -> jb_AttemptCount relay_job < 10).
Proof.
  apply (relay_attempts_bounded NewMemoryStore relay_calls demo_workflow relay_job); [reflexivity|]. rewrite relay_world_run. exact relay_job_stored.
Defined.

(** Seventy seconds later every observer reports the retry final. *)
Definition late_env : renv := relay_env 1230 "" (finalized 1230) None.

Lemma late_finalized :
  match DecideRetry (jb_Prepared relay_job) (oa_TransactionHash (jb_Outer relay_job)) (finalized 1230 (outcomeBinding relay_job)) 2 (at_second 1230) with
  | Ok d => bool_decide (dr_Decision d = DecisionRetryExact) | Err _ => false end = false.
Proof. vm_compute. reflexivity. Qed.

Lemma late_not_gone : not_gone demo_cfg late_env relay_job.
Proof.
  intros e d E Hd. pose proof late_finalized as Hf. injection E as <-. change (rc_Quorum demo_cfg) with 2 in Hd.
  change (rv_clock late_env 1) with (at_second 1230) in Hd. revert Hf Hd. generalize (DecideRetry (jb_Prepared relay_job)
    (oa_TransactionHash (jb_Outer relay_job)) (finalized 1230 (outcomeBinding relay_job)) 2 (at_second 1230)). intros r Hf ->.
  by apply bool_decide_eq_false in Hf.
Qed.

Lemma stale_retry_strands_witness :
  let w' := (RelayOnce demo_cfg late_env relay_world).1 in
  wd_flows w' = wd_flows relay_world /\ wd_sent w' = wd_sent relay_world /\ (exists m, (RelayOnce demo_cfg late_env relay_world).2 = Err m) /\
  exists j', rs_jobs (wd_store w') !! job_id relay_job = Some j' /\ work j' = work relay_job.
Proof.
  assert (Hid : job_id relay_job = demo_workflow) by (vm_compute; reflexivity).
  apply (stale_retry_strands demo_cfg late_env relay_world relay_job).
  - rewrite Hid. exact relay_job_stored.
  - vm_compute. reflexivity.
  - vm_compute. reflexivity.
  - vm_compute. reflexivity.
  - vm_compute. reflexivity.
  - exact late_not_gone.
Defined.

(** The receipt of the retry, which was executed on chain, is refused. *)
Definition late_receipt : CompletionReceipt := {|
  cr_WorkflowID := demo_workflow; cr_PayloadHash := bd_PayloadHash demo_bound; cr_ChainAction := "SPEND_SCHEDULE_CAPS";
  cr_ChainID := 8453; cr_TransactionHash := demo_hash "9"; cr_BlockNumber := 50; cr_BlockHash := demo_hash "9"; cr_BlockTimestamp := 1190;
  cr_ConfirmedHead := 60; cr_FinalizedHead := 55; cr_LogIndex := 4; cr_ContractAddress := demo_contract;
  cr_EventSignature := GovernanceWorkflowBoundTopic; cr_FunctionSelector := bd_FunctionSelector demo_bound;
  cr_ActionEventSignature := demo_hash "a"; cr_ActionLogIndexes := [3]; cr_Observers := ["rpc_a"; "rpc_b"];
  cr_EvidenceDigest := demo_hash "b"; cr_Finality := "FINALIZED"; cr_AuthorityProof := [] |}.
Lemma stranded_receipt_refused :
  (ObserveAndComplete (mkWService (Some (fun _ => Ok late_receipt)) None None) (wd_flows relay_world) (demo_env 1230) "org_1" demo_workflow).2 =
  Err ErrStateConflict.
Proof. vm_compute. reflexivity. Qed.

(** *** The Safe transaction of the run *)

Definition demo_transaction : Transaction := pp_Transaction (fst demo_prepared).
Lemma safe_hash_binds_witness : demo_transaction = demo_transaction \/ collide_in (safe_texts demo_transaction) (safe_texts demo_transaction).
Proof.
  apply (safe_hash_binds demo_transaction demo_transaction (pp_SafeTxHash (fst demo_prepared))).
  - vm_compute. split; [discriminate|reflexivity].
  - vm_compute. split; [discriminate|reflexivity].
  - vm_compute. reflexivity.
  - vm_compute. reflexivity.
Defined.

Lemma exec_calldata_authorized_witness : owners_signed demo_transaction (mkOwnerSnapshot demo_owners 2) (snd demo_prepared).
Proof. apply (exec_calldata_authorized demo_transaction (mkOwnerSnapshot demo_owners 2) (snd demo_prepared)). vm_compute. reflexivity. Defined.
End RelayDemo.
