(* ===== verification/SellerQuote.v ===== *)
(** * Seller quotes ([pkg/sellerquote/quote.go])

    The EIP-712 digest of a quote, recovery of its signer, and the checks of intake
    against the directory evidence. A [common.Hash] is its 32 bytes, a
    [common.Address] its 20. *)
From stdpp Require Import base gmap strings list.
From Stdlib Require Import ZArith Lia Ascii.
From S2P Require Import Prelude GoText GoJSON Amounts Crypto Envelope GovAction GovActionTheorems SafeTx.

Open Scope Z_scope.

Definition TypeString : string :=
  "SellerQuote(bytes32 purchaseSpecHash,bytes32 sellerId,bytes32 resourceId,uint64 directoryVersion,uint16 schemeVersion,uint256 chainId,address asset,uint256 amountBaseUnits,address payTo,address ackAuthority,bytes32 verificationSpecHash,uint64 declaredWorkTime,uint64 verificationBudgetSeconds,uint64 quoteExpiresAt,bytes32 quoteNonce)".
Definition domainName : string := "ASCP".
Definition domainVersion : string := "4".

Definition ErrInvalidQuote : error := "invalid seller quote".
Definition ErrInvalidSignature : error := "invalid seller quote signature".
Definition ErrQuoteExpired : error := "seller quote is expired".
Definition ErrDirectoryEvidence : error := "directory evidence does not authorize seller quote".

Record Quote := mkQuote {
  q_PurchaseSpecHash : string; q_SellerID : string; q_ResourceID : string; q_DirectoryVersion : Z; q_SchemeVersion : Z;
  q_ChainID : string; q_Asset : string; q_AmountBaseUnits : string; q_PayTo : string; q_AckAuthority : string;
  q_VerificationSpecHash : string; q_DeclaredWorkTime : Z; q_VerificationBudgetSeconds : Z; q_QuoteExpiresAt : Z; q_QuoteNonce : string }.

Record DirectoryEvidence := mkDirectoryEvidence {
  de_Verified : bool; de_Version : Z; de_SellerID : string; de_ResourceID : string; de_QuoteSigningKey : string; de_KeyEpoch : Z;
  de_PayoutAddress : string; de_AckAuthority : string; de_AmountBaseUnits : string; de_VerificationSpecHash : string;
  de_DeclaredWorkTime : Z; de_VerificationBudgetSeconds : Z; de_Active : bool; de_QuoteKeyRevoked : bool }.

Record ExpectedTerms := mkExpectedTerms { et_PurchaseSpecHash : string; et_SchemeVersion : Z; et_ChainID : string; et_Asset : string }.

(** ** Values on the wire *)

Definition quote_uint256 (value : string) (positive : bool) : res Z :=
  check canonical_decimal value else "must be a canonical decimal integer" ;;
  match SetString10 value with
  | Some n => check (0 <=? n) && fits256 n && negb (positive && (n =? 0)) else "must fit uint256 and satisfy zero-value rule" ;; Ok n
  | None => Err "must fit uint256 and satisfy zero-value rule"
  end.

Definition nonZeroHash (value : string) : res string :=
  check hash_pattern value else "must be lowercase 32-byte 0x-hex" ;;
  check negb (bool_decide (value = zero_hash)) else "must be non-zero" ;;
  Ok (hex_bytes value).

Definition quote_address (value : string) : res string :=
  check address_pattern value else "must be a lowercase 20-byte 0x-hex address" ;;
  check negb (bool_decide (value = zero_address)) else "must be non-zero" ;;
  Ok (hex_bytes value).

(** Which of several faulty fields is reported first depends on Go's map order; the
    sentinel does not. *)
Definition Quote_Validate (q : Quote) : res unit :=
  check forallb (fun v => is_ok (nonZeroHash v))
          [q_PurchaseSpecHash q; q_SellerID q; q_ResourceID q; q_VerificationSpecHash q; q_QuoteNonce q] else ErrInvalidQuote ;;
  check negb (q_DirectoryVersion q =? 0) && negb (q_SchemeVersion q =? 0) && negb (q_QuoteExpiresAt q =? 0) else ErrInvalidQuote ;;
  check is_ok (quote_uint256 (q_ChainID q) false) else ErrInvalidQuote ;;
  check is_ok (quote_uint256 (q_AmountBaseUnits q) true) else ErrInvalidQuote ;;
  check forallb (fun v => is_ok (quote_address v)) [q_Asset q; q_PayTo q; q_AckAuthority q] else ErrInvalidQuote ;;
  Ok tt.

(** A decimal that has been validated, as a word. *)
Definition decimal_word (value : string) : string := be_bytes 32 (default 0 (SetString10 value)).

(** [signatureBytes]: the 65 bytes with the recovery id brought to 0 or 1. *)
Definition signatureBytes `{SafeLib} (value : string) : res string :=
  check hex_pattern 130 value else "must be lowercase 65-byte 0x-hex" ;;
  let decoded := hex_bytes value in
  let v := match String.get 64 decoded with Some c => code c | None => 0 end in
  let v := if (v =? 27) || (v =? 28) then v - 27 else v in
  let r := String.substring 0 32 decoded in
  let s := String.substring 32 32 decoded in
  check (v <=? 1) && ecdsa_values v r s else "has invalid recovery id or non-canonical S" ;;
  Ok (r +:+ s +:+ String (char_of v) "").

Section Quotes.
Context `{Crypto} `{SafeLib}.

(** ** The digest *)

Definition quoteTypeHash : string := keccak256 TypeString.
Definition quoteDomainTypeHash : string := keccak256 "EIP712Domain(string name,string version,uint256 chainId,address verifyingContract)".
Definition nameHash : string := keccak256 domainName.
Definition versionHash : string := keccak256 domainVersion.

Definition quote_words (q : Quote) : list string :=
  [quoteTypeHash; hex_bytes (q_PurchaseSpecHash q); hex_bytes (q_SellerID q); hex_bytes (q_ResourceID q);
   be_bytes 32 (q_DirectoryVersion q); be_bytes 32 (q_SchemeVersion q); decimal_word (q_ChainID q); address_word (q_Asset q);
   decimal_word (q_AmountBaseUnits q); address_word (q_PayTo q); address_word (q_AckAuthority q); hex_bytes (q_VerificationSpecHash q);
   be_bytes 32 (q_DeclaredWorkTime q); be_bytes 32 (q_VerificationBudgetSeconds q); be_bytes 32 (q_QuoteExpiresAt q);
   hex_bytes (q_QuoteNonce q)].

Definition StructHash (q : Quote) : res string :=
  try _ := Quote_Validate q in Ok (keccak256 (str_concat (quote_words q))).

Definition DomainSeparator (chainID verifyingContract : string) : res string :=
  try chain := quote_uint256 chainID false in
  try _ := quote_address verifyingContract in
  Ok (keccak256 (str_concat [quoteDomainTypeHash; nameHash; versionHash; be_bytes 32 chain; address_word verifyingContract])).

Definition Quote_Digest (q : Quote) (verifyingContract : string) : res string :=
  try structHash := StructHash q in
  try domain := DomainSeparator (q_ChainID q) verifyingContract in
  Ok (keccak256 (eip712_prefix +:+ str_concat [domain; structHash])).

(** ** The signer *)

Definition RecoverSigner (q : Quote) (verifyingContract signature : string) : res string :=
  try digest := Quote_Digest q verifyingContract in
  match signatureBytes signature with
  | Err _ => Err ErrInvalidSignature
  | Ok sig => match ecdsa_recover digest sig with Ok signer => Ok signer | Err _ => Err ErrInvalidSignature end
  end.

(** The directory evidence and the caller's own terms agree with the quote. *)
Definition evidence_matches (q : Quote) (expected : ExpectedTerms) (e : DirectoryEvidence) : bool :=
  de_Verified e && de_Active e && negb (de_QuoteKeyRevoked e) && negb (de_KeyEpoch e =? 0) && negb (et_SchemeVersion expected =? 0) &&
  (de_Version e =? q_DirectoryVersion q) && bool_decide (de_SellerID e = q_SellerID q) && bool_decide (de_ResourceID e = q_ResourceID q) &&
  bool_decide (de_PayoutAddress e = q_PayTo q) && bool_decide (de_AckAuthority e = q_AckAuthority q) &&
  bool_decide (de_AmountBaseUnits e = q_AmountBaseUnits q) && bool_decide (de_VerificationSpecHash e = q_VerificationSpecHash q) &&
  (de_DeclaredWorkTime e =? q_DeclaredWorkTime q) && (de_VerificationBudgetSeconds e =? q_VerificationBudgetSeconds q) &&
  bool_decide (et_PurchaseSpecHash expected = q_PurchaseSpecHash q) && (et_SchemeVersion expected =? q_SchemeVersion q) &&
  bool_decide (et_ChainID expected = q_ChainID q) && bool_decide (et_Asset expected = q_Asset q).

Definition ValidateForIntake (q : Quote) (now : time) (verifyingContract : string) (expected : ExpectedTerms) (e : DirectoryEvidence)
    (signature : string) : res (string * string) :=
  try _ := Quote_Validate q in
  check (0 <=? Unix now) && (Unix now <? q_QuoteExpiresAt q) else ErrQuoteExpired ;;
  check evidence_matches q expected e else ErrDirectoryEvidence ;;
  try signer := RecoverSigner q verifyingContract signature in
  match quote_address (de_QuoteSigningKey e) with
  | Err _ => Err ErrDirectoryEvidence
  | Ok want =>
      check bool_decide (signer = want) else ErrDirectoryEvidence ;;
      try digest := Quote_Digest q verifyingContract in
      Ok (digest, signer)
  end.
End Quotes.

(** ** What a quote digest binds *)

(** Hash inputs are made of 32-byte words, so the words can be read back. *)
Definition is_word (w : string) : Prop := String.length w = 32%nat.

Lemma concat_words_len ws : Forall is_word ws -> String.length (str_concat ws) = (32 * length ws)%nat.
Proof.
  induction 1 as [|w ws Hw _ IH]; [done|]. cbn [str_concat length]. rewrite str_app_len, IH, Hw. lia.
Qed.

Lemma concat_words_inj ws : forall vs, Forall is_word ws -> Forall is_word vs -> str_concat ws = str_concat vs -> ws = vs.
Proof.
  induction ws as [|w ws IH]; intros [|v vs] Hw Hv E; try done.
  1,2: apply (f_equal String.length) in E; rewrite !concat_words_len in E by done; cbn in E; lia.
  inversion_clear Hw. inversion_clear Hv. cbn [str_concat] in E. apply str_app_inj in E as [-> E]; [|by transitivity 32%nat].
  f_equal. by apply IH.
Qed.

Lemma cons_split {A} (x y : A) l k : x :: l = y :: k -> x = y /\ l = k.
Proof. by intros [= -> ->]. Qed.

(** Equal lists of words, word by word. *)
Ltac word_by_word E :=
  repeat (let W := fresh "W" in apply cons_split in E as [W E]); clear E.

Lemma be_word z : is_word (be_bytes 32 z).
Proof. apply be_bytes_len. Qed.
Lemma hash_word v : hash_pattern v = true -> is_word (hex_bytes v).
Proof. apply (hex_bytes_len 32). Qed.
Lemma addr_word v : address_pattern v = true -> is_word (address_word v).
Proof. apply address_word_len. Qed.

Lemma be32_inj x y : 0 <= x < 2 ^ 256 -> 0 <= y < 2 ^ 256 -> be_bytes 32 x = be_bytes 32 y -> x = y.
Proof. apply (be_bytes_inj 32). Qed.

Lemma uint64_word x y : is_uint64 x -> is_uint64 y -> be_bytes 32 x = be_bytes 32 y -> x = y.
Proof.
  intros Hx Hy. assert (MaxUint64 < 2 ^ 256) by (vm_compute; reflexivity). unfold is_uint64 in *. apply be32_inj; lia.
Qed.

Lemma nonZeroHash_ok v b : nonZeroHash v = Ok b <-> gov_hash v false = true /\ b = hex_bytes v.
Proof.
  unfold nonZeroHash, gov_hash. rewrite !check_ok_iff. cbn [orb]. rewrite andb_true_iff. split; [|naive_solver].
  intros (? & ? & [= <-]). done.
Qed.

Lemma quote_address_ok v b : quote_address v = Ok b <-> gov_address v = true /\ b = hex_bytes v.
Proof.
  unfold quote_address, gov_address. rewrite !check_ok_iff, andb_true_iff. split; [|naive_solver].
  intros (? & ? & [= <-]). done.
Qed.

Lemma quote_uint256_ok v pos n : quote_uint256 v pos = Ok n ->
  canonical_decimal v = true /\ SetString10 v = Some n /\ 0 <= n < 2 ^ 256 /\ (pos = true -> 0 < n).
Proof.
  unfold quote_uint256. rewrite check_ok_iff. intros [Hc Hn]. destruct (SetString10 v) as [m|]; [|done].
  rewrite check_ok_iff in Hn. destruct Hn as [Hn [= ->]]. unfold fits256 in Hn. to_prop. destruct Hn as [[Hn Hf] Hp].
  split_and!; try done; [lia|]. intros ->. cbn in Hp. lia.
Qed.

Lemma is_ok_inv {A} (r : res A) : is_ok r = true <-> exists a, r = Ok a.
Proof. destruct r; naive_solver. Qed.

Record quote_ok (q : Quote) : Prop := {
  qo_hashes : Forall (fun v => gov_hash v false = true) [q_PurchaseSpecHash q; q_SellerID q; q_ResourceID q; q_VerificationSpecHash q; q_QuoteNonce q];
  qo_addresses : Forall (fun v => gov_address v = true) [q_Asset q; q_PayTo q; q_AckAuthority q];
  qo_chain : exists n, quote_uint256 (q_ChainID q) false = Ok n;
  qo_amount : exists n, quote_uint256 (q_AmountBaseUnits q) true = Ok n;
  qo_nonzero : q_DirectoryVersion q <> 0 /\ q_SchemeVersion q <> 0 /\ q_QuoteExpiresAt q <> 0;
}.

Lemma Quote_Validate_ok q : Quote_Validate q = Ok tt <-> quote_ok q.
Proof.
  unfold Quote_Validate. rewrite !check_ok_iff, !is_ok_inv, !forallb_forall. split.
  - intros (Hh & Hn & Hc & Ha & Had & _). to_prop. split; try done; [| |lia]; apply Forall_forall; intros v Hv.
    + apply list_elem_of_In, Hh, is_ok_inv in Hv as [b Hv]. by apply nonZeroHash_ok in Hv as [Hv _].
    + apply list_elem_of_In, Had, is_ok_inv in Hv as [b Hv]. by apply quote_address_ok in Hv as [Hv _].
  - intros [Hh Ha Hc Hamt Hn]. rewrite Forall_forall in Hh, Ha. split_and!; try done.
    + intros v Hv%list_elem_of_In%Hh. apply is_ok_inv. exists (hex_bytes v). by apply nonZeroHash_ok.
    + to_prop. lia.
    + intros v Hv%list_elem_of_In%Ha. apply is_ok_inv. exists (hex_bytes v). by apply quote_address_ok.
Qed.

(** The Go types of the integer fields. *)
Definition quote_typed (q : Quote) : Prop :=
  is_uint64 (q_DirectoryVersion q) /\ is_uint64 (q_SchemeVersion q) /\ is_uint64 (q_DeclaredWorkTime q) /\
  is_uint64 (q_VerificationBudgetSeconds q) /\ is_uint64 (q_QuoteExpiresAt q).

Lemma canonical_word_inj v w n m pos pos' : quote_uint256 v pos = Ok n -> quote_uint256 w pos' = Ok m ->
  decimal_word v = decimal_word w -> v = w.
Proof.
  intros (Cv & Sv & Bv & _)%quote_uint256_ok (Cw & Sw & Bw & _)%quote_uint256_ok E. unfold decimal_word in E.
  rewrite Sv, Sw in E. cbn [from_option id] in E. apply be32_inj in E; [|done|done]. subst m.
  by rewrite (proj2 (proj1 (canonical_decimal_iff v n) (conj Cv Sv))), (proj2 (proj1 (canonical_decimal_iff w n) (conj Cw Sw))).
Qed.

Section QuoteTheorems.
Context `{Crypto} `{!CryptoLaws}.

Lemma keccak_word m : is_word (keccak256 m).
Proof. apply keccak_len. Qed.

Lemma gov_hash_word v : gov_hash v false = true -> is_word (hex_bytes v).
Proof. intros Hv. eapply hash_word, gov_hash_pattern, Hv. Qed.
Lemma gov_addr_word v : gov_address v = true -> is_word (address_word v).
Proof. intros Hv. apply addr_word, gov_address_pattern, Hv. Qed.
Lemma gov_hash_inj v w : gov_hash v false = true -> gov_hash w false = true -> hex_bytes v = hex_bytes w -> v = w.
Proof. intros Hv Hw. apply (hex_bytes_inj 32); eapply gov_hash_pattern; eassumption. Qed.
Lemma gov_addr_inj v w : gov_address v = true -> gov_address w = true -> address_word v = address_word w -> v = w.
Proof. intros Hv Hw. apply address_word_inj; by apply gov_address_pattern. Qed.

Lemma quote_words_ok q : quote_ok q -> Forall is_word (quote_words q).
Proof.
  intros [Hh Ha _ _ _]. repeat rewrite Forall_cons in Hh. repeat rewrite Forall_cons in Ha. destruct_and!. unfold quote_words, quoteTypeHash, decimal_word.
  rewrite !Forall_cons. split_and!; auto using keccak_word, gov_hash_word, gov_addr_word, be_word.
Qed.

Lemma quote_words_inj q1 q2 : quote_ok q1 -> quote_ok q2 -> quote_typed q1 -> quote_typed q2 -> quote_words q1 = quote_words q2 -> q1 = q2.
Proof.
  intros [Hh Ha [c1 Hc] [a1 Ham] _] [Hh' Ha' [c2 Hc'] [a2 Ham'] _] (T1 & T2 & T3 & T4 & T5) (U1 & U2 & U3 & U4 & U5) E.
  repeat rewrite Forall_cons in Hh. repeat rewrite Forall_cons in Ha. repeat rewrite Forall_cons in Hh'.
  repeat rewrite Forall_cons in Ha'. destruct_and!. word_by_word E.
  repeat match goal with
  | W : hex_bytes _ = hex_bytes _ |- _ => apply gov_hash_inj in W; [|assumption|assumption]
  | W : be_bytes 32 _ = be_bytes 32 _ |- _ => apply uint64_word in W; [|assumption|assumption]
  | W : address_word _ = address_word _ |- _ => apply gov_addr_inj in W; [|assumption|assumption]
  | W : decimal_word _ = decimal_word _ |- _ => eapply canonical_word_inj in W; [|eassumption|eassumption]
  end.
  clear -W W0 W1 W2 W3 W4 W5 W6 W7 W8 W9 W10 W11 W12 W13 W14. destruct q1, q2.
  cbn [q_PurchaseSpecHash q_SellerID q_ResourceID q_DirectoryVersion q_SchemeVersion q_ChainID q_Asset q_AmountBaseUnits q_PayTo q_AckAuthority
       q_VerificationSpecHash q_DeclaredWorkTime q_VerificationBudgetSeconds q_QuoteExpiresAt q_QuoteNonce] in *. by subst.
Qed.

Lemma domain_ok chain contract d : DomainSeparator chain contract = Ok d ->
  exists n, quote_uint256 chain false = Ok n /\ gov_address contract = true /\
    d = keccak256 (str_concat [quoteDomainTypeHash; nameHash; versionHash; be_bytes 32 n; address_word contract]).
Proof.
  unfold DomainSeparator. intros (n & Hn & Hd)%try_ok_iff. apply try_ok_iff in Hd as (b & Ha & [= <-]).
  apply quote_address_ok in Ha as [Ha _]. eauto.
Qed.

Lemma domain_words_ok n contract : gov_address contract = true ->
  Forall is_word [quoteDomainTypeHash; nameHash; versionHash; be_bytes 32 n; address_word contract].
Proof. intros. rewrite !Forall_cons. split_and!; auto using be_word, gov_addr_word; apply keccak_word. Qed.

Lemma Quote_Digest_ok q contract d : Quote_Digest q contract = Ok d ->
  exists dom, quote_ok q /\ DomainSeparator (q_ChainID q) contract = Ok dom /\
    d = keccak256 (eip712_prefix +:+ str_concat [dom; keccak256 (str_concat (quote_words q))]).
Proof.
  unfold Quote_Digest, StructHash. intros (h & Hh & Hd)%try_ok_iff. apply try_ok_iff in Hh as ([] & Hv & [= <-]).
  apply try_ok_iff in Hd as (dom & Hdom & [= <-]). apply Quote_Validate_ok in Hv. eauto.
Qed.

(** What is hashed for a quote: the digest's text, its domain and its struct. *)
Definition quote_domain_text (q : Quote) (contract : string) : string :=
  str_concat [quoteDomainTypeHash; nameHash; versionHash; decimal_word (q_ChainID q); address_word contract].
Definition quote_texts (q : Quote) (contract : string) : list string :=
  [eip712_prefix +:+ str_concat [keccak256 (quote_domain_text q contract); keccak256 (str_concat (quote_words q))];
   quote_domain_text q contract; str_concat (quote_words q)].

Lemma domain_text q contract d : DomainSeparator (q_ChainID q) contract = Ok d -> d = keccak256 (quote_domain_text q contract).
Proof.
  intros (n & Hn & _ & ->)%domain_ok. unfold quote_domain_text, decimal_word. unfold quote_uint256 in Hn. apply check_ok_iff in Hn as [_ Hn].
  destruct (SetString10 _); [|done]. apply check_ok_iff in Hn as [_ [= <-]]. done.
Qed.

(** The digest a seller signs determines the whole quote and the directory contract
    it is for, or two texts hashed for them collide. *)
Theorem quote_digest_binds q1 k1 q2 k2 d : quote_typed q1 -> quote_typed q2 -> Quote_Digest q1 k1 = Ok d -> Quote_Digest q2 k2 = Ok d ->
  (q1 = q2 /\ k1 = k2) \/ collide_in (quote_texts q1 k1) (quote_texts q2 k2).
Proof.
  intros T1 T2 (d1 & O1 & D1 & ->)%Quote_Digest_ok (d2 & O2 & D2 & E)%Quote_Digest_ok.
  assert (A1 : gov_address k1 = true) by (by apply domain_ok in D1 as (? & ? & ? & ?)). assert (A2 : gov_address k2 = true) by (by apply domain_ok in D2 as (? & ? & ? & ?)).
  apply domain_text in D1 as ->, D2 as ->. set (X1 := quote_texts q1 k1). set (X2 := quote_texts q2 k2).
  apply (keccak_eq_in X1 X2) in E as [E|]; [|by right|unfold X1, X2, quote_texts; listed..]. apply str_app_inv_head in E.
  apply concat_words_inj in E; [|repeat constructor; apply keccak_word..]. word_by_word E. rename W into Ed, W0 into Es.
  apply (keccak_eq_in X1 X2) in Ed as [Ed|]; [|by right|unfold X1, X2, quote_texts; listed..].
  apply (keccak_eq_in X1 X2) in Es as [Es|]; [|by right|unfold X1, X2, quote_texts; listed..].
  apply concat_words_inj in Es; [|by apply quote_words_ok..]. apply quote_words_inj in Es; try done.
  apply concat_words_inj in Ed; [|by apply domain_words_ok..]. word_by_word Ed. left. split; [done|]. by apply gov_addr_inj.
Qed.
End QuoteTheorems.
