(* ===== verification/Directory.v ===== *)
(** * The service directory ([pkg/directoryproof], [pkg/directoryrelease/release.go])

    Leaves of the directory, Merkle proofs against its root, the evidence a proof gives
    for a quote; and the release compiler that builds the tree, its proofs and the
    governance bindings of a manifest. *)
From stdpp Require Import base gmap strings list sorting.
From Stdlib Require Import ZArith Lia Ascii.
From S2P Require Import Prelude GoText GoJSON Amounts Crypto Envelope GovAction GovActionTheorems SafeTx SellerQuote.

Open Scope Z_scope.

(** ** Proofs ([directoryproof.go]) *)

Definition activeSellerStatus : Z := 1.
Definition ErrInvalidObservation : error := "invalid ServiceDirectory observation".
Definition ErrInvalidProof : error := "ServiceDirectory Merkle proof does not match root".
Definition ErrQuoteTerms : error := "directory leaves do not match seller quote".

Record SellerLeaf := mkSellerLeaf {
  sl_SellerID : string; sl_PayoutAddress : string; sl_AckAuthority : string; sl_QuoteSigningKey : string; sl_KeyEpoch : Z;
  sl_BaseURLOriginHash : string; sl_Status : Z }.

Record ResourceLeaf := mkResourceLeaf {
  rl_SellerID : string; rl_ResourceID : string; rl_Price : string; rl_EscrowSupported : bool; rl_VerificationSpecHash : string;
  rl_DeclaredWorkTime : Z; rl_VerificationBudgetSeconds : Z }.

(** A slice is [None] when nil, which only its JSON shows. *)
Record DirectoryObservation := mkDirectoryObservation {
  ob_DirectoryContract : string; ob_BlockNumber : Z; ob_Version : Z; ob_Root : string; ob_Seller : SellerLeaf;
  ob_SellerProof : option (list string); ob_Resource : ResourceLeaf; ob_ResourceProof : option (list string);
  ob_SellerPaused : bool; ob_QuoteKeyRevoked : bool }.

Definition isHash (value : string) : bool := hash_pattern value && negb (bool_decide (value = zero_hash)).
Definition isAddress (value : string) : bool := address_pattern value && negb (bool_decide (value = zero_address)).

(** Unlike the one of a quote this parser lets a plus sign through. *)
Definition leaf_uint256 (value : string) : res Z :=
  check negb (bool_decide (value = "")) && negb (redundant_zero value) else "invalid uint256" ;;
  match SetString10 value with
  | Some n => check (0 <? n) && fits256 n else "invalid uint256" ;; Ok n
  | None => Err "invalid uint256"
  end.

Definition validateSeller (leaf : SellerLeaf) : res unit :=
  check negb (sl_KeyEpoch leaf =? 0) && isHash (sl_SellerID leaf) && isHash (sl_BaseURLOriginHash leaf) &&
        isAddress (sl_PayoutAddress leaf) && isAddress (sl_AckAuthority leaf) && isAddress (sl_QuoteSigningKey leaf)
    else ErrInvalidObservation ;;
  Ok tt.

Definition validateResource (leaf : ResourceLeaf) : res unit :=
  check isHash (rl_SellerID leaf) && isHash (rl_ResourceID leaf) && isHash (rl_VerificationSpecHash leaf) else ErrInvalidObservation ;;
  check is_ok (leaf_uint256 (rl_Price leaf)) else ErrInvalidObservation ;;
  Ok tt.

Definition merkle_hash (value : string) : res string :=
  check isHash value else "invalid hash" ;; Ok (hex_bytes value).

Section Proofs.
Context `{Crypto}.

Definition sellerDomain : string := keccak256 "ASCP_SELLER_LEAF_V1".
Definition resourceDomain : string := keccak256 "ASCP_RESOURCE_LEAF_V1".

Definition seller_words (leaf : SellerLeaf) : list string :=
  [sellerDomain; hex_bytes (sl_SellerID leaf); address_word (sl_PayoutAddress leaf); address_word (sl_AckAuthority leaf);
   address_word (sl_QuoteSigningKey leaf); be_bytes 32 (sl_KeyEpoch leaf); hex_bytes (sl_BaseURLOriginHash leaf); be_bytes 32 (sl_Status leaf)].

Definition SellerLeafHash (leaf : SellerLeaf) : res string :=
  try _ := validateSeller leaf in Ok (keccak256 (str_concat (seller_words leaf))).

Definition resource_words (leaf : ResourceLeaf) : list string :=
  [resourceDomain; hex_bytes (rl_SellerID leaf); hex_bytes (rl_ResourceID leaf); decimal_word (rl_Price leaf);
   be_bytes 32 (if rl_EscrowSupported leaf then 1 else 0); hex_bytes (rl_VerificationSpecHash leaf);
   be_bytes 32 (rl_DeclaredWorkTime leaf); be_bytes 32 (rl_VerificationBudgetSeconds leaf)].

Definition ResourceLeafHash (leaf : ResourceLeaf) : res string :=
  try _ := validateResource leaf in Ok (keccak256 (str_concat (resource_words leaf))).

(** The hash of a pair, the smaller one first. *)
Definition node_hash (a b : string) : string :=
  if String.leb a b then keccak256 (a +:+ b) else keccak256 (b +:+ a).

Definition proof_item (current item : string) : res string :=
  match merkle_hash item with
  | Ok sibling => Ok (node_hash current sibling)
  | Err _ => Err ErrInvalidObservation
  end.

Definition merkle_Verify (root leaf : string) (proof : list string) : res unit :=
  match merkle_hash root with
  | Err _ => Err ErrInvalidObservation
  | Ok want =>
      try current := fold_res proof_item leaf proof in
      check bool_decide (current = want) else ErrInvalidProof ;; Ok tt
  end.

Definition quote_terms (o : DirectoryObservation) (q : Quote) : bool :=
  bool_decide (sl_SellerID (ob_Seller o) = q_SellerID q) && bool_decide (rl_SellerID (ob_Resource o) = q_SellerID q) &&
  bool_decide (rl_ResourceID (ob_Resource o) = q_ResourceID q) && bool_decide (sl_PayoutAddress (ob_Seller o) = q_PayTo q) &&
  bool_decide (sl_AckAuthority (ob_Seller o) = q_AckAuthority q) && bool_decide (rl_Price (ob_Resource o) = q_AmountBaseUnits q) &&
  bool_decide (rl_VerificationSpecHash (ob_Resource o) = q_VerificationSpecHash q) &&
  (rl_DeclaredWorkTime (ob_Resource o) =? q_DeclaredWorkTime q) &&
  (rl_VerificationBudgetSeconds (ob_Resource o) =? q_VerificationBudgetSeconds q).

Definition evidence_of (o : DirectoryObservation) : DirectoryEvidence :=
  mkDirectoryEvidence true (ob_Version o) (sl_SellerID (ob_Seller o)) (rl_ResourceID (ob_Resource o)) (sl_QuoteSigningKey (ob_Seller o))
    (sl_KeyEpoch (ob_Seller o)) (sl_PayoutAddress (ob_Seller o)) (sl_AckAuthority (ob_Seller o)) (rl_Price (ob_Resource o))
    (rl_VerificationSpecHash (ob_Resource o)) (rl_DeclaredWorkTime (ob_Resource o)) (rl_VerificationBudgetSeconds (ob_Resource o))
    ((sl_Status (ob_Seller o) =? activeSellerStatus) && rl_EscrowSupported (ob_Resource o) && negb (ob_SellerPaused o))
    (ob_QuoteKeyRevoked o).

Definition EvidenceForQuote (o : DirectoryObservation) (q : Quote) : res DirectoryEvidence :=
  check negb (ob_BlockNumber o =? 0) && negb (ob_Version o =? 0) && (ob_Version o =? q_DirectoryVersion q) && isAddress (ob_DirectoryContract o)
    else ErrInvalidObservation ;;
  try sellerHash := SellerLeafHash (ob_Seller o) in
  try _ := merkle_Verify (ob_Root o) sellerHash (default [] (ob_SellerProof o)) in
  try resourceHash := ResourceLeafHash (ob_Resource o) in
  try _ := merkle_Verify (ob_Root o) resourceHash (default [] (ob_ResourceProof o)) in
  check quote_terms o q else ErrQuoteTerms ;;
  Ok (evidence_of o).
End Proofs.

(** ** Releases ([release.go]) *)

Definition SchemaVersion : Z := 1.
Definition BaseSepoliaNetwork : string := "base-sepolia".
Definition BaseSepoliaChainID : Z := 84532.
Definition BaseSepoliaUSDC : string := "0x036cbd53842c5426634e7929541ec2318f3dcf7e".
Definition PayoutAuthorityChange : Z := 2.
Definition MaxAuthorizationWindow : Z := 600.
Definition MaxSellers : nat := 256.
Definition MaxResources : nat := 1024.
Definition MaxCanonicalBlobBytes : Z := 2 ^ 20.
Definition ErrInvalidManifest : error := "invalid directory release manifest".

Record AssetBinding := mkAssetBinding { as_Address : string; as_Symbol : string; as_Decimals : Z; as_RuntimeCodeHash : string }.
#[export] Instance AssetBinding_eq_dec : EqDecision AssetBinding.
Proof. solve_decision. Defined.

Record SourceDeployment := mkSourceDeployment { sd_ReleaseID : string; sd_SourceCommit : string }.

Record Seller := mkSeller {
  se_SellerID : string; se_PayoutAddress : string; se_AckAuthority : string; se_QuoteSigningKey : string; se_KeyEpoch : Z;
  se_BaseURLOrigin : string; se_Status : Z }.

Record Resource := mkResource {
  re_SellerID : string; re_ResourceID : string; re_Price : string; re_EscrowSupported : bool; re_VerificationSpecHash : string;
  re_DeclaredWorkTime : Z; re_VerificationBudgetSeconds : Z }.

Record Manifest := mkManifest {
  mf_SchemaVersion : Z; mf_ReleaseID : string; mf_Network : string; mf_ChainID : Z; mf_SourceDeployment : SourceDeployment;
  mf_DirectoryContract : string; mf_OrganizationDomain : string; mf_DirectoryPublisher : string; mf_DirectoryPublisherEpoch : Z;
  mf_Asset : AssetBinding; mf_VersionID : Z; mf_PreviousVersion : Z; mf_PreviousRoot : string; mf_ChangeClass : Z;
  mf_RequestedActivatesAt : Z; mf_WorkflowID : string; mf_ProposerNonce : string; mf_Locations : list string; mf_Sellers : list Seller;
  mf_Resources : list Resource; mf_FundingEnabled : bool }.

(** What [decodeDeployment] reads of the deployment record. *)
Record deploymentRecord := mkDeployment {
  dp_ReleaseID : string; dp_Network : string; dp_ChainID : Z; dp_SourceCommit : string; dp_OrganizationDomain : string;
  dp_DirectoryPublisher : string; dp_Asset : AssetBinding; dp_Contracts : list (string * string) }.

Definition directoryAddress (d : deploymentRecord) : string :=
  match find (fun c => bool_decide (fst c = "service_directory")) (dp_Contracts d) with Some c => snd c | None => "" end.

Record CompiledLeaf := mkCompiledLeaf { cl_Kind : string; cl_SellerID : string; cl_ResourceID : string; cl_Hash : string; cl_Proof : list string }.

Record ReleaseProposal := mkReleaseProposal {
  rp_Directory : DirectoryProposal; rp_WorkflowID : string; rp_WorkflowPayloadHash : string; rp_ProposerNonce : string;
  rp_ProposalHash : string; rp_ProposePayloadHash : string }.

Record PublisherAuthorizationBinding := mkPublisherBinding {
  pb_ExpectedSigner : string; pb_OrganizationDomain : string; pb_ContractAddress : string; pb_ChainID : Z; pb_AdminEpoch : Z;
  pb_AuthorityRole : string; pb_FunctionSelector : string; pb_PayloadHash : string; pb_WorkflowID : string; pb_MaxWindowSeconds : Z }.

Record Artifact := mkArtifact {
  af_SchemaVersion : Z; af_Manifest : Manifest; af_CanonicalBlob : string; af_BlobContentHash : string; af_LocationsHash : string;
  af_MerkleRoot : string; af_Leaves : list CompiledLeaf; af_Proposal : ReleaseProposal; af_PublisherAuthorization : PublisherAuthorizationBinding;
  af_Approval : BoundAction; af_FundingEnabled : bool }.

(** *** Text *)

Definition is_release_id_char (c : ascii) : bool :=
  is_digit c || between 97 122 (code c) || (code c =? 46) || (code c =? 95) || (code c =? 45).

(** [^[a-z0-9][a-z0-9._-]{2,127}$] *)
Definition releaseIDPattern (s : string) : bool :=
  match s with
  | String c r => (is_digit c || between 97 122 (code c)) && str_all is_release_id_char r && (2 <=? str_len r) && (str_len r <=? 127)
  | EmptyString => false
  end.

Definition commitPattern (s : string) : bool := str_all is_lower_hex s && (str_len s =? 40).

Definition is_base64url (c : ascii) : bool := is_alnum c || (code c =? 45) || (code c =? 95).

(** The digits of base 32, in lower case. *)
Definition base32_val (c : ascii) : option Z :=
  if between 97 122 (code c) then Some (code c - 97) else if between 50 55 (code c) then Some (code c - 24) else None.
Definition base32_char (v : Z) : ascii := if v <? 26 then char_of (v + 97) else char_of (v + 24).

Fixpoint base32_number (s : string) (acc : Z) : option Z :=
  match s with
  | EmptyString => Some acc
  | String c s => match base32_val c with Some v => base32_number s (32 * acc + v) | None => None end
  end.

Fixpoint base32_digits (n : nat) (z : Z) (acc : string) : string :=
  match n with O => acc | S n => base32_digits n (z / 32) (String (base32_char (z mod 32)) acc) end.

Fixpoint be_number (s : string) (acc : Z) : Z :=
  match s with EmptyString => acc | String c s => be_number s (256 * acc + code c) end.

Definition cid_prefix : string := String "001" (String "085" (String "018" (String " " ""))).

(** 58 digits carry the 36 bytes of an identifier and two bits more. *)
Definition ipfs_identifier (identifier : string) : bool :=
  match identifier with
  | String b r =>
      (str_len identifier =? 59) && (code b =? 98) &&
      match base32_number r 0 with
      | Some z => bool_decide (String.substring 0 4 (be_bytes 36 (z / 4)) = cid_prefix)
      | None => false
      end
  | EmptyString => false
  end.

(** The scheme of a location whose identifier is well formed. *)
Definition location_scheme (location : string) : option string :=
  if String.prefix "ar://" location then
    let identifier := String.substring 5 (String.length location - 5) location in
    if str_all is_base64url identifier && (str_len identifier =? 43) then Some "ar" else None
  else if String.prefix "ipfs://" location then
    let identifier := String.substring 7 (String.length location - 7) location in
    if ipfs_identifier identifier then Some "ipfs" else None
  else None.

(** Two different locations in order, of the two schemes. *)
Definition validateLocationSyntax (locations : list string) : bool :=
  match locations with
  | [a; b] =>
      String.leb a b && negb (bool_decide (a = b)) &&
      match location_scheme a, location_scheme b with Some s, Some t => negb (bool_decide (s = t)) | _, _ => false end
  | _ => false
  end.

(** *** The manifest *)

(** [validOrigin] is what [net/url] and [net] make of an origin. *)
Class OriginCheck := { validOrigin : string -> bool }.

Section Release.
Context `{Crypto} `{Abi} `{OriginCheck}.

Definition seller_leaf (s : Seller) : SellerLeaf :=
  mkSellerLeaf (se_SellerID s) (se_PayoutAddress s) (se_AckAuthority s) (se_QuoteSigningKey s) (se_KeyEpoch s)
    (hex_hash (keccak256 (se_BaseURLOrigin s))) (se_Status s).

Definition resource_leaf (r : Resource) : ResourceLeaf :=
  mkResourceLeaf (re_SellerID r) (re_ResourceID r) (re_Price r) (re_EscrowSupported r) (re_VerificationSpecHash r) (re_DeclaredWorkTime r)
    (re_VerificationBudgetSeconds r).

Definition check_seller (st : gset string * gset string) (s : Seller) : res (gset string * gset string) :=
  check (se_Status s =? 1) && negb (se_KeyEpoch s =? 0) && validOrigin (se_BaseURLOrigin s) else ErrInvalidManifest ;;
  check is_ok (SellerLeafHash (seller_leaf s)) else ErrInvalidManifest ;;
  check negb (bool_decide (se_SellerID s ∈ fst st)) && negb (bool_decide (se_QuoteSigningKey s ∈ snd st)) else ErrInvalidManifest ;;
  Ok ({[se_SellerID s]} ∪ fst st, {[se_QuoteSigningKey s]} ∪ snd st).

Definition check_resource (sellers : gset string) (st : gset string * gset string) (r : Resource) : res (gset string * gset string) :=
  check re_EscrowSupported r && negb (re_DeclaredWorkTime r =? 0) && negb (re_VerificationBudgetSeconds r =? 0) else ErrInvalidManifest ;;
  check bool_decide (re_SellerID r ∈ sellers) else ErrInvalidManifest ;;
  check is_ok (ResourceLeafHash (resource_leaf r)) else ErrInvalidManifest ;;
  let key := re_SellerID r +:+ ":" +:+ re_ResourceID r in
  check negb (bool_decide (key ∈ fst st)) else ErrInvalidManifest ;;
  Ok ({[key]} ∪ fst st, {[re_SellerID r]} ∪ snd st).

Definition manifest_binding (m : Manifest) (d : deploymentRecord) : bool :=
  (mf_SchemaVersion m =? SchemaVersion) && releaseIDPattern (mf_ReleaseID m) && bool_decide (mf_Network m = BaseSepoliaNetwork) &&
  (mf_ChainID m =? BaseSepoliaChainID) && negb (mf_FundingEnabled m) && releaseIDPattern (sd_ReleaseID (mf_SourceDeployment m)) &&
  commitPattern (sd_SourceCommit (mf_SourceDeployment m)) && bool_decide (sd_ReleaseID (mf_SourceDeployment m) = dp_ReleaseID d) &&
  bool_decide (sd_SourceCommit (mf_SourceDeployment m) = dp_SourceCommit d) && bool_decide (mf_Network m = dp_Network d) &&
  (mf_ChainID m =? dp_ChainID d) && bool_decide (mf_OrganizationDomain m = dp_OrganizationDomain d) &&
  bool_decide (mf_DirectoryPublisher m = dp_DirectoryPublisher d) && (mf_DirectoryPublisherEpoch m =? 1) &&
  bool_decide (mf_DirectoryContract m = directoryAddress d) && bool_decide (mf_Asset m = dp_Asset d) &&
  bool_decide (as_Address (mf_Asset m) = BaseSepoliaUSDC) && bool_decide (as_Symbol (mf_Asset m) = "USDC") &&
  (as_Decimals (mf_Asset m) =? 6) && isHash (as_RuntimeCodeHash (mf_Asset m)) && (mf_VersionID m =? 1) && (mf_PreviousVersion m =? 0) &&
  bool_decide (mf_PreviousRoot m = zero_hash) && (mf_ChangeClass m =? PayoutAuthorityChange) && (mf_RequestedActivatesAt m =? 0) &&
  isHash (mf_WorkflowID m) && isAddress (mf_DirectoryContract m) && isAddress (mf_DirectoryPublisher m) && isHash (mf_OrganizationDomain m).

Definition validateManifest (m : Manifest) (d : deploymentRecord) : res unit :=
  check manifest_binding m d else ErrInvalidManifest ;;
  check is_ok (quote_uint256 (mf_ProposerNonce m) true) else ErrInvalidManifest ;;
  check validateLocationSyntax (mf_Locations m) && negb (Nat.eqb (length (mf_Sellers m)) 0) && Nat.leb (length (mf_Sellers m)) MaxSellers &&
        negb (Nat.eqb (length (mf_Resources m)) 0) && Nat.leb (length (mf_Resources m)) MaxResources else ErrInvalidManifest ;;
  try sellers := fold_res check_seller (∅, ∅) (mf_Sellers m) in
  try resources := fold_res (check_resource (fst sellers)) (∅, ∅) (mf_Resources m) in
  check bool_decide (fst sellers ⊆ snd resources) else ErrInvalidManifest ;;
  Ok tt.

(** *** The tree *)

Record leafInput := mkLeafInput { li_kind : string; li_sellerID : string; li_resourceID : string; li_hash : string }.

Record node := mkNode { nd_hash : string; nd_indexes : list nat }.

Definition add_sibling (sibling : string) (proofs : gmap nat (list string)) (i : nat) : gmap nat (list string) :=
  <[i := default [] (proofs !! i) ++ [sibling]]> proofs.

(** One round: neighbours are joined, an odd last node moves up as it is. *)
Fixpoint join_layer (layer : list node) (proofs : gmap nat (list string)) : list node * gmap nat (list string) :=
  match layer with
  | lhs :: rhs :: rest =>
      let proofs := foldl (add_sibling (nd_hash rhs)) proofs (nd_indexes lhs) in
      let proofs := foldl (add_sibling (nd_hash lhs)) proofs (nd_indexes rhs) in
      let (next, proofs) := join_layer rest proofs in
      (mkNode (node_hash (nd_hash lhs) (nd_hash rhs)) (nd_indexes lhs ++ nd_indexes rhs) :: next, proofs)
  | _ => (layer, proofs)
  end.

(** The loop runs while the layer has more than one node; [fuel] bounds its rounds. *)
Fixpoint merkle_loop (fuel : nat) (layer : list node) (proofs : gmap nat (list string)) : list node * gmap nat (list string) :=
  match fuel with
  | O => (layer, proofs)
  | S fuel =>
      if Nat.leb (length layer) 1 then (layer, proofs)
      else let (next, proofs) := join_layer layer proofs in merkle_loop fuel next proofs
  end.

Definition first_layer (inputs : list leafInput) : list node := imap (fun i input => mkNode (li_hash input) [i]) inputs.

(** The root and the proof of every leaf; Go panics on no leaves at all. *)
Definition merkle (inputs : list leafInput) : option (string * (nat -> list string)) :=
  match merkle_loop (length inputs) (first_layer inputs) ∅ with
  | (root :: _, proofs) => Some (nd_hash root, fun i => default [] (proofs !! i))
  | ([], _) => None
  end.

Definition seller_input (s : Seller) : res leafInput :=
  match SellerLeafHash (seller_leaf s) with
  | Ok hash => Ok (mkLeafInput "seller" (se_SellerID s) "" hash)
  | Err _ => Err ErrInvalidManifest
  end.

Definition resource_input (r : Resource) : res leafInput :=
  match ResourceLeafHash (resource_leaf r) with
  | Ok hash => Ok (mkLeafInput "resource" (re_SellerID r) (re_ResourceID r) hash)
  | Err _ => Err ErrInvalidManifest
  end.

Definition collect_leaves {A} (f : A -> res leafInput) (inputs : list leafInput) (l : list A) : res (list leafInput) :=
  fold_res (fun acc x => try input := f x in Ok (acc ++ [input])) inputs l.

Definition compiled_leaf (proof : list string) (l : leafInput) : CompiledLeaf :=
  mkCompiledLeaf (li_kind l) (li_sellerID l) (li_resourceID l) (hex_hash (li_hash l)) (map hex_hash proof).

(** The order of sellers, of resources and of leaves. *)
Definition seller_le (x y : Seller) : Prop := String.leb (se_SellerID x) (se_SellerID y).
#[export] Instance seller_le_dec x y : Decision (seller_le x y).
Proof. unfold seller_le. apply _. Defined.
Definition resource_leb (x y : Resource) : bool :=
  if bool_decide (re_SellerID x = re_SellerID y) then String.leb (re_ResourceID x) (re_ResourceID y)
  else String.leb (re_SellerID x) (re_SellerID y).
Definition resource_le (x y : Resource) : Prop := resource_leb x y.
#[export] Instance resource_le_dec x y : Decision (resource_le x y).
Proof. unfold resource_le. apply _. Defined.
Definition leaf_le (x y : leafInput) : Prop := String.leb (li_hash x) (li_hash y).
#[export] Instance leaf_le_dec x y : Decision (leaf_le x y).
Proof. unfold leaf_le. apply _. Defined.

Definition sorted_manifest (m : Manifest) : Manifest :=
  mkManifest (mf_SchemaVersion m) (mf_ReleaseID m) (mf_Network m) (mf_ChainID m) (mf_SourceDeployment m) (mf_DirectoryContract m)
    (mf_OrganizationDomain m) (mf_DirectoryPublisher m) (mf_DirectoryPublisherEpoch m) (mf_Asset m) (mf_VersionID m) (mf_PreviousVersion m)
    (mf_PreviousRoot m) (mf_ChangeClass m) (mf_RequestedActivatesAt m) (mf_WorkflowID m) (mf_ProposerNonce m) (mf_Locations m)
    (merge_sort seller_le (mf_Sellers m)) (merge_sort resource_le (mf_Resources m)) (mf_FundingEnabled m).

(** The leaves of a manifest in the order of their hashes. *)
Definition leaf_inputs (sellers : list Seller) (resources : list Resource) : res (list leafInput) :=
  try inputs := collect_leaves seller_input [] sellers in
  try inputs := collect_leaves resource_input inputs resources in
  Ok (merge_sort leaf_le inputs).

(** *** The blob *)

Definition json_Asset (a : AssetBinding) : string :=
  json_object [("address", Some (json_string (as_Address a))); ("symbol", Some (json_string (as_Symbol a)));
               ("decimals", Some (json_int (as_Decimals a))); ("runtimeCodeHash", Some (json_string (as_RuntimeCodeHash a)))].

Definition json_Seller (s : Seller) : string :=
  json_object [("sellerId", Some (json_string (se_SellerID s))); ("payoutAddress", Some (json_string (se_PayoutAddress s)));
               ("ackAuthority", Some (json_string (se_AckAuthority s))); ("quoteSigningKey", Some (json_string (se_QuoteSigningKey s)));
               ("keyEpoch", Some (json_int (se_KeyEpoch s))); ("baseURLOrigin", Some (json_string (se_BaseURLOrigin s)));
               ("status", Some (json_int (se_Status s)))].

Definition json_Resource (r : Resource) : string :=
  json_object [("sellerId", Some (json_string (re_SellerID r))); ("resourceId", Some (json_string (re_ResourceID r)));
               ("price", Some (json_string (re_Price r))); ("escrowSupported", Some (json_bool (re_EscrowSupported r)));
               ("verificationSpecHash", Some (json_string (re_VerificationSpecHash r)));
               ("declaredWorkTime", Some (json_int (re_DeclaredWorkTime r)));
               ("verificationBudgetSeconds", Some (json_int (re_VerificationBudgetSeconds r)))].

(** [json.Marshal] of the [directoryBlob] of a sorted manifest. *)
Definition directoryBlob (m : Manifest) : string :=
  json_object [("schemaVersion", Some (json_int SchemaVersion)); ("releaseId", Some (json_string (mf_ReleaseID m)));
               ("network", Some (json_string (mf_Network m))); ("chainId", Some (json_int (mf_ChainID m)));
               ("directoryContract", Some (json_string (mf_DirectoryContract m))); ("asset", Some (json_Asset (mf_Asset m)));
               ("versionId", Some (json_int (mf_VersionID m))); ("previousVersion", Some (json_int (mf_PreviousVersion m)));
               ("previousRoot", Some (json_string (mf_PreviousRoot m))); ("sellers", Some (json_array (map json_Seller (mf_Sellers m))));
               ("resources", Some (json_array (map json_Resource (mf_Resources m))))].

Definition rawIPFSCID (content : string) : string :=
  "ipfs://b" +:+ base32_digits 58 (4 * be_number (cid_prefix +:+ sha256 content) 0) "".

Definition validateLocations (locations : list string) (canonicalBlob : string) : bool :=
  validateLocationSyntax locations &&
  match find (String.prefix "ipfs://") locations with
  | Some location => bool_decide (location = rawIPFSCID canonicalBlob)
  | None => false
  end.

Definition CanonicalIPFSLocation (m : Manifest) : string := rawIPFSCID (directoryBlob (sorted_manifest m)).

Definition proposalPayloadHash (p : DirectoryProposal) (workflowID workflowPayloadHash proposerNonce : string) : res string :=
  match SetString10 proposerNonce with
  | None => Err ErrInvalidManifest
  | Some nonce =>
      Ok (keccak256 (str_concat [be_bytes 32 (dp_VersionID p); be_bytes 32 (dp_PreviousVersion p); hex_bytes (dp_PreviousRoot p);
            hex_bytes (dp_NewRoot p); hex_bytes (dp_BlobContentHash p); hex_bytes (dp_LocationsHash p); be_bytes 32 (dp_ChangeClass p);
            be_bytes 32 (dp_RequestedActivatesAt p); hex_bytes workflowID; hex_bytes workflowPayloadHash; be_bytes 32 nonce]))
  end.

Definition sig_proposeVersion : string :=
  "proposeVersion((uint64,uint64,bytes32,bytes32,bytes32,bytes32,uint8,uint64,bytes32,bytes32,uint256),(bytes32,address,uint256,bytes32,bytes4,bytes32,bytes32,uint256,uint64,uint64,uint64,bytes32),bytes)".

(** Every error inside a release is reported as the invalid manifest. *)
Definition invalid {A} (r : res A) : res A := match r with Ok a => Ok a | Err _ => Err ErrInvalidManifest end.

Definition approve_action (m : Manifest) (p : DirectoryProposal) : Action :=
  mkAction ActionDirectoryApprove (mf_ChainID m) (mf_DirectoryContract m) None None false None None None None None
    (Some (mkDirectoryApprove p (mf_ProposerNonce m))) None.

(** [record] is what [json.Unmarshal] makes of the deployment text. *)
Definition decodeDeployment (record : res deploymentRecord) : res deploymentRecord :=
  try d := invalid record in
  check negb (bool_decide (directoryAddress d = "")) else ErrInvalidManifest ;;
  Ok d.

Definition Compile (manifest : Manifest) (deployment : res deploymentRecord) : res Artifact :=
  try d := decodeDeployment deployment in
  try _ := invalid (validateManifest manifest d) in
  let m := sorted_manifest manifest in
  let blob := directoryBlob m in
  check str_len blob <=? MaxCanonicalBlobBytes else ErrInvalidManifest ;;
  let blobHash := keccak256 blob in
  check validateLocations (mf_Locations m) blob else ErrInvalidManifest ;;
  let locationsHash := keccak256 (json_array (map json_string (mf_Locations m))) in
  try inputs := leaf_inputs (mf_Sellers m) (mf_Resources m) in
  match merkle inputs with
  | None => Err "index out of range"
  | Some (root, proofs) =>
      let p := mkDirectoryProposal (mf_VersionID m) (mf_PreviousVersion m) (mf_PreviousRoot m) (hex_hash root) (hex_hash blobHash)
                 (hex_hash locationsHash) (mf_ChangeClass m) (mf_RequestedActivatesAt m) in
      try bound := invalid (BindAction (mf_WorkflowID m) (approve_action m p)) in
      try proposalHash := invalid (DirectoryProposalHash (mf_ChainID m) (mf_DirectoryContract m) (mf_WorkflowID m) p (mf_ProposerNonce m)) in
      try proposePayloadHash := proposalPayloadHash p (mf_WorkflowID m) (bd_PayloadHash bound) (mf_ProposerNonce m) in
      Ok (mkArtifact SchemaVersion m blob (hex_hash blobHash) (hex_hash locationsHash) (hex_hash root)
            (imap (fun i l => compiled_leaf (proofs i) l) inputs)
            (mkReleaseProposal p (mf_WorkflowID m) (bd_PayloadHash bound) (mf_ProposerNonce m) (hex_hash proposalHash) (hex_hash proposePayloadHash))
            (mkPublisherBinding (mf_DirectoryPublisher m) (mf_OrganizationDomain m) (mf_DirectoryContract m) (mf_ChainID m)
               (mf_DirectoryPublisherEpoch m) (hex_hash (keccak256 "ASCP_DIRECTORY_PUBLISHER")) (hex_hash (selector sig_proposeVersion))
               (hex_hash proposePayloadHash) (mf_WorkflowID m) MaxAuthorizationWindow)
            bound false)
  end.
End Release.
