(* ===== verification/DirectoryTheorems.v ===== *)
(** * What a directory root binds

    The Merkle tree of a release: every compiled leaf verifies against the root, the
    loop that builds the tree ends, and nothing but a leaf of the manifest verifies. *)
From stdpp Require Import base gmap strings list sorting.
From Stdlib Require Import ZArith Lia Ascii.
From S2P Require Import Prelude GoText GoJSON Amounts Crypto Envelope GovAction GovActionTheorems SafeTx SellerQuote Directory.

Open Scope Z_scope.

(** ** Hashes as text *)

Lemma hex_hash_pattern raw : is_word raw -> hash_pattern (hex_hash raw) = true.
Proof.
  intros Hr. assert (Hl := hex_encode_lower raw). assert (He := hex_encode_length raw). unfold is_word in Hr. rewrite Hr in He.
  unfold hash_pattern, hex_hash. generalize dependent (hex_encode raw). intros t Ht Hn.
  change ("0x" +:+ t) with (String "0" (String "x" t)). cbn [hex_pattern]. rewrite Ht. unfold str_len. by rewrite Hn.
Qed.

Lemma hex_bytes_hash raw : hex_bytes (hex_hash raw) = raw.
Proof. unfold hex_bytes, hex_hash. rewrite trim_0x_prefix, hex_decode_encode. done. Qed.

Section Trees.
Context `{Crypto}.

Lemma string_leb_antisym a b : String.leb a b = true -> String.leb b a = true -> a = b.
Proof. intros Hab Hba. apply (anti_symm String.le); unfold String.le; by rewrite ?Hab, ?Hba. Qed.

Lemma node_hash_comm a b : node_hash a b = node_hash b a.
Proof.
  unfold node_hash. destruct (String.leb a b) eqn:Eab, (String.leb b a) eqn:Eba; try done.
  - by rewrite (string_leb_antisym a b).
  - destruct (String.leb_total a b); congruence.
Qed.

(** The hash a proof arrives at. *)
Definition climb (leaf : string) (proof : list string) : string := foldl node_hash leaf proof.

(** ** Building the tree *)

Lemma add_siblings_lookup sibling l : forall proofs i, NoDup l ->
  foldl (add_sibling sibling) proofs l !! i =
  if decide (i ∈ l) then Some (default [] (proofs !! i) ++ [sibling]) else proofs !! i.
Proof.
  induction l as [|j l IH]; intros proofs i Hn; [by rewrite decide_False by set_solver|]. cbn [foldl].
  inversion_clear Hn as [|? ? Hj Hl]. rewrite IH by done. unfold add_sibling.
  destruct (decide (i = j)) as [->|Hij].
  - rewrite decide_False by done. rewrite decide_True by set_solver. by rewrite lookup_insert_eq.
  - rewrite lookup_insert_ne by done. by destruct (decide (i ∈ l)), (decide (i ∈ j :: l)); try set_solver.
Qed.

Variable hashes : list string.

(** Every index under a node climbs to the hash of the node. *)
Definition climbs (layer : list node) (proofs : gmap nat (list string)) : Prop :=
  forall nd i h, nd ∈ layer -> i ∈ nd_indexes nd -> hashes !! i = Some h -> climb h (default [] (proofs !! i)) = nd_hash nd.

Definition indexes (layer : list node) : list nat := layer ≫= nd_indexes.

Lemma indexes_in nd i layer : nd ∈ layer -> i ∈ nd_indexes nd -> i ∈ indexes layer.
Proof. intros. apply list_elem_of_bind. eauto. Qed.

Lemma list_pairs {A} (P : list A -> Prop) : P [] -> (forall x, P [x]) -> (forall x y l, P l -> P (x :: y :: l)) -> forall l, P l.
Proof. intros P0 P1 P2. fix IH 1. intros [|x [|y l]]; [exact P0|apply P1|apply P2, IH]. Qed.

(** One round keeps the indexes and what lies elsewhere, halves the layer, and every
    index climbs one step further. *)
Record round (layer : list node) (proofs : gmap nat (list string)) (next : list node) (proofs' : gmap nat (list string)) : Prop := {
  rd_indexes : indexes next = indexes layer;
  rd_elsewhere : forall i, i ∉ indexes layer -> proofs' !! i = proofs !! i;
  rd_length : (2 * length next = length layer \/ 2 * length next = S (length layer))%nat;
  rd_climbs : climbs layer proofs -> climbs next proofs';
  rd_grows : forall i, (length (default [] (proofs' !! i)) <= S (length (default [] (proofs !! i))))%nat }.

Lemma join_layer_round layer : forall proofs, NoDup (indexes layer) ->
  round layer proofs (join_layer layer proofs).1 (join_layer layer proofs).2.
Proof.
  induction layer as [|x|x y l IH] using list_pairs; intros proofs Hn; [split; [done|done|cbn; lia|done|intros; cbn; lia]..|].
  cbn [join_layer]. unfold indexes in Hn. rewrite !bind_cons, !NoDup_app in Hn. destruct Hn as (Nx & Dx & Ny & Dy & Nl).
  set (p1 := foldl (add_sibling (nd_hash y)) proofs (nd_indexes x)). set (p2 := foldl (add_sibling (nd_hash x)) p1 (nd_indexes y)).
  assert (P2 : forall i, p2 !! i =
    if decide (i ∈ nd_indexes x) then Some (default [] (proofs !! i) ++ [nd_hash y])
    else if decide (i ∈ nd_indexes y) then Some (default [] (proofs !! i) ++ [nd_hash x]) else proofs !! i).
  { intros i. unfold p2, p1. rewrite !add_siblings_lookup by done.
    destruct (decide (i ∈ nd_indexes y)), (decide (i ∈ nd_indexes x)); try done. set_solver. }
  destruct (join_layer l p2) as [next p3] eqn:El. cbn [fst snd]. specialize (IH p2 Nl). rewrite El in IH.
  destruct IH as [Ri Re Rl Rc Rg]. cbn [fst snd] in *. split; unfold indexes in *; rewrite ?bind_cons in *; cbn [nd_indexes nd_hash].
  - by rewrite Ri, app_assoc.
  - intros i Hi. rewrite Re, P2 by set_solver. rewrite !decide_False by set_solver. done.
  - cbn [length]. lia.
  - intros Hc. intros nd i h [->|Hnd]%elem_of_cons Hin Hh; cbn [nd_indexes nd_hash] in *.
    + assert (i ∉ l ≫= nd_indexes) by set_solver. rewrite Re, P2 by done. apply elem_of_app in Hin as [Hin|Hin].
      * rewrite decide_True by done. cbn. unfold climb. rewrite foldl_app. cbn. f_equal. apply (Hc x); [set_solver|done|done].
      * rewrite decide_False by set_solver. rewrite decide_True by done. cbn. unfold climb. rewrite foldl_app. cbn.
        rewrite node_hash_comm. f_equal. apply (Hc y); [set_solver|done|done].
    + apply Rc; try done. intros nd' i' h' Hnd' Hin' Hh'. assert (i' ∈ l ≫= nd_indexes) by (by eapply indexes_in).
      rewrite P2, !decide_False by set_solver. apply Hc; try done. set_solver.
  - intros i. pose proof (Rg i) as Gi. destruct (decide (i ∈ l ≫= nd_indexes)) as [Hi|Hi].
    + rewrite P2, !decide_False in Gi by set_solver. done.
    + rewrite Re, P2 by done. repeat case_decide; cbn; rewrite ?length_app; cbn; lia.
Qed.

(** The whole loop, when [fuel] rounds are enough. *)
Lemma merkle_loop_spec k : forall fuel layer proofs, (k <= fuel)%nat -> (0 < length layer <= 2 ^ k)%nat ->
  NoDup (indexes layer) -> climbs layer proofs ->
  exists root proofs', merkle_loop fuel layer proofs = ([root], proofs') /\ merkle_loop k layer proofs = ([root], proofs') /\
    nd_indexes root = indexes layer /\ climbs [root] proofs' /\
    forall i, (length (default [] (proofs' !! i)) <= length (default [] (proofs !! i)) + k)%nat.
Proof.
  induction k as [|k IH]; intros fuel layer proofs Hf Hl Hn Hc.
  { destruct layer as [|root [|]]; cbn in Hl; try lia. exists root, proofs.
    assert (merkle_loop fuel [root] proofs = ([root], proofs)) as -> by (by destruct fuel).
    split_and!; try done; [unfold indexes; cbn; by rewrite app_nil_r|lia]. }
  destruct fuel as [|fuel]; [lia|]. cbn [merkle_loop]. destruct (Nat.leb_spec (length layer) 1) as [H1|H1].
  { destruct layer as [|root [|]]; cbn in H1, Hl; try lia. exists root, proofs. split_and!; try done; [unfold indexes; cbn; by rewrite app_nil_r|lia]. }
  destruct (join_layer_round layer proofs Hn) as [Ri _ Rl Rc Rg]. destruct (join_layer layer proofs) as [next p1]. cbn [fst snd] in *.
  cbn [Nat.pow] in Hl. destruct (IH fuel next p1) as (root & p2 & E1 & E2 & Hr & Hc' & Hg); [lia|lia|by rewrite Ri|auto|].
  exists root, p2. split_and!; try done; [congruence|]. intros i. specialize (Rg i). specialize (Hg i). lia.
Qed.

Lemma indexes_first inputs : indexes (first_layer inputs) = seq 0 (length inputs).
Proof.
  unfold indexes, first_layer.
  enough (forall n, imap (fun i input => mkNode (li_hash input) [(n + i)%nat]) inputs ≫= nd_indexes = seq n (length inputs)) as E by apply (E 0%nat).
  induction inputs as [|input inputs IH]; intros n; [done|]. cbn [imap seq length]. rewrite bind_cons. cbn [nd_indexes app].
  f_equal; [lia|]. rewrite <- (IH (S n)). f_equal. apply imap_ext. intros i x _. cbn. do 2 f_equal. lia.
Qed.
End Trees.

Section Release.
Context `{Crypto}.

Lemma climbs_first inputs : climbs (map li_hash inputs) (first_layer inputs) ∅.
Proof.
  intros nd i h Hnd Hi Hh. apply list_elem_of_lookup in Hnd as (j & Hj). unfold first_layer in Hj. rewrite list_lookup_imap in Hj.
  destruct (inputs !! j) as [input|] eqn:Ej; [|done]. injection Hj as <-. cbn in *. apply list_elem_of_singleton in Hi as ->.
  rewrite lookup_empty. rewrite list_lookup_fmap, Ej in Hh. cbn in *. congruence.
Qed.

(** Building the tree of [n] leaves with [n <= 2 ^ k] ends within [k] rounds whatever
    more fuel it is given, with one root over all leaves, and gives no leaf a proof of
    more than [k] hashes. *)
Theorem merkle_terminates inputs k fuel : (0 < length inputs <= 2 ^ k)%nat -> (k <= fuel)%nat ->
  exists root proofs, merkle_loop fuel (first_layer inputs) ∅ = ([root], proofs) /\
    merkle_loop k (first_layer inputs) ∅ = ([root], proofs) /\ nd_indexes root = seq 0 (length inputs) /\
    forall i, (length (default [] (proofs !! i)) <= k)%nat.
Proof.
  intros Hl Hf. destruct (merkle_loop_spec (map li_hash inputs) k fuel (first_layer inputs) ∅) as (root & proofs & E1 & E2 & Hr & _ & Hg);
    [done|unfold first_layer; by rewrite length_imap|rewrite indexes_first; apply NoDup_seq|apply climbs_first|].
  exists root, proofs. rewrite indexes_first in Hr. by split_and!.
Qed.

Lemma pow2_above n : (n <= 2 ^ n)%nat.
Proof. apply Nat.lt_le_incl, Nat.pow_gt_lin_r. lia. Qed.

Lemma merkle_spec inputs : inputs <> [] -> exists root proofs, merkle inputs = Some (root, proofs) /\
  forall i input, inputs !! i = Some input -> climb (li_hash input) (proofs i) = root.
Proof.
  intros Hne. assert (0 < length inputs)%nat by (destruct inputs; cbn; [done|lia]).
  destruct (merkle_loop_spec (map li_hash inputs) (length inputs) (length inputs) (first_layer inputs) ∅) as (root & proofs & E & _ & Hr & Hc & _);
    [done|unfold first_layer; rewrite length_imap; split; [lia|apply pow2_above]|rewrite indexes_first; apply NoDup_seq|apply climbs_first|].
  exists (nd_hash root), (fun i => default [] (proofs !! i)). unfold merkle. rewrite E. split; [done|]. intros i input Hi.
  apply Hc; [by left| |by rewrite list_lookup_fmap, Hi]. rewrite Hr, indexes_first. apply elem_of_seq. apply lookup_lt_Some in Hi. lia.
Qed.

(** ** The hashes of a tree *)

(** The text hashed for a pair, the smaller hash first. *)
Definition node_text (a b : string) : string := if String.leb a b then a +:+ b else b +:+ a.

Lemma node_hash_text a b : node_hash a b = keccak256 (node_text a b).
Proof. unfold node_hash, node_text. by destruct (String.leb a b). Qed.

(** The texts hashed for the pairs of a layer, of a whole tree and along a proof. *)
Fixpoint layer_texts (layer : list node) : list string :=
  match layer with
  | lhs :: rhs :: rest => node_text (nd_hash lhs) (nd_hash rhs) :: layer_texts rest
  | _ => []
  end.

Fixpoint tree_texts (fuel : nat) (layer : list node) (proofs : gmap nat (list string)) : list string :=
  match fuel with
  | O => []
  | S fuel =>
      if Nat.leb (length layer) 1 then []
      else layer_texts layer ++ (let (next, proofs) := join_layer layer proofs in tree_texts fuel next proofs)
  end.

Fixpoint climb_texts (current : string) (proof : list string) : list string :=
  match proof with
  | [] => []
  | sibling :: proof => node_text current sibling :: climb_texts (node_hash current sibling) proof
  end.

Lemma climb_texts_snoc proof s : forall x, climb_texts x (proof ++ [s]) = climb_texts x proof ++ [node_text (climb x proof) s].
Proof. induction proof as [|y proof IH]; intros x; [done|]. cbn [climb_texts app climb foldl]. by rewrite IH. Qed.

(** What lies above leaves that satisfy [P], hashing texts of [T]. *)
Inductive in_tree (T : list string) (P : string -> Prop) : string -> Prop :=
| it_leaf h : P h -> in_tree T P h
| it_node a b : in_tree T P a -> in_tree T P b -> node_text a b ∈ T -> in_tree T P (node_hash a b).

Definition grown (T : list string) (P : string -> Prop) (layer : list node) (proofs : gmap nat (list string)) : Prop :=
  Forall (fun nd => in_tree T P (nd_hash nd)) layer /\ forall i, Forall (in_tree T P) (default [] (proofs !! i)).

Lemma add_siblings_grown T P sibling l : forall proofs, in_tree T P sibling -> (forall i, Forall (in_tree T P) (default [] (proofs !! i))) ->
  forall i, Forall (in_tree T P) (default [] (foldl (add_sibling sibling) proofs l !! i)).
Proof.
  induction l as [|j l IH]; intros proofs Hs Hp; [done|]. cbn [foldl]. apply IH; [done|]. intros i. unfold add_sibling.
  destruct (decide (i = j)) as [->|]; [|rewrite lookup_insert_ne by done; apply Hp]. rewrite lookup_insert_eq. cbn.
  apply Forall_app. split; [apply Hp|by apply Forall_singleton].
Qed.

Lemma join_layer_grown T P layer : forall proofs, layer_texts layer ⊆ T -> grown T P layer proofs ->
  grown T P (join_layer layer proofs).1 (join_layer layer proofs).2.
Proof.
  induction layer as [|x|x y l IH] using list_pairs; intros proofs HT Hg; [done..|]. cbn [join_layer]. cbn [layer_texts] in HT. destruct Hg as [Hl Hp].
  inversion_clear Hl as [|? ? Hx Hl']. inversion_clear Hl' as [|? ? Hy Hl].
  set (p2 := foldl _ (foldl _ _ _) _). specialize (IH p2). destruct (join_layer l p2) as [next p3]. cbn [fst snd] in *.
  destruct IH as [Hn Hp3]; [set_solver| |split; [constructor; [apply it_node; set_solver|done]|done]].
  split; [done|]. unfold p2. by do 2 (apply add_siblings_grown; [done|]).
Qed.

Lemma merkle_loop_grown T P fuel : forall layer proofs, tree_texts fuel layer proofs ⊆ T -> grown T P layer proofs ->
  grown T P (merkle_loop fuel layer proofs).1 (merkle_loop fuel layer proofs).2.
Proof.
  induction fuel as [|fuel IH]; intros layer proofs HT Hg; [done|]. cbn [merkle_loop]. cbn [tree_texts] in HT. destruct (Nat.leb (length layer) 1); [done|].
  apply join_layer_grown in Hg; [|set_solver]. destruct (join_layer layer proofs). apply IH; [set_solver|done].
Qed.

Definition merkle_texts (inputs : list leafInput) : list string := tree_texts (length inputs) (first_layer inputs) ∅.

Lemma merkle_grown T P inputs root proofs : merkle_texts inputs ⊆ T -> Forall (fun input => P (li_hash input)) inputs -> merkle inputs = Some (root, proofs) ->
  in_tree T P root /\ forall i, Forall (in_tree T P) (proofs i).
Proof.
  intros HT Hi Hm. unfold merkle in Hm. assert (Hg : grown T P (first_layer inputs) ∅).
  { split; [|intros i; rewrite lookup_empty; constructor]. unfold first_layer. apply Forall_lookup. intros i nd Hnd.
    rewrite list_lookup_imap in Hnd. destruct (inputs !! i) eqn:E; [|done]. injection Hnd as <-. apply it_leaf. cbn. by eapply Forall_lookup in Hi. }
  apply (merkle_loop_grown T P (length inputs)) in Hg; [|done]. destruct (merkle_loop _ _ _) as [[|nd l] p]; [done|]. injection Hm as <- <-.
  destruct Hg as [Hl Hp]. inversion Hl. done.
Qed.

(** The hash of a leaf's text; it is longer than the text of a pair. *)
Definition leaf_digest (T : list string) (h : string) : Prop := exists m, m ∈ T /\ h = keccak256 m /\ String.length m = 256%nat.

Context `{!CryptoLaws}.

Lemma pair_text_pair a b : is_word a -> is_word b ->
  exists x y, node_text a b = x +:+ y /\ is_word x /\ is_word y /\ (x = a /\ y = b \/ x = b /\ y = a).
Proof. intros Ha Hb. unfold node_text. destruct (String.leb a b); [exists a, b|exists b, a]; split_and!; try done; [by left|by right]. Qed.

Lemma node_word a b : is_word (node_hash a b).
Proof. rewrite node_hash_text. apply keccak_word. Qed.

Lemma in_tree_word T P h : (forall h, P h -> leaf_digest T h) -> in_tree T P h -> is_word h.
Proof. intros HP Hh. destruct Hh as [h (m & _ & -> & _)%HP|a b _ _ _]; [apply keccak_word|apply node_word]. Qed.

Lemma climb_word x proof : is_word x -> is_word (climb x proof).
Proof. intros Hx. destruct proof as [|s proof _] using rev_ind; [done|]. unfold climb. rewrite foldl_app. apply node_word. Qed.

Lemma lengths_collide xs ys m a b : m ∈ xs -> node_text a b ∈ ys -> String.length m = 256%nat -> is_word a -> is_word b ->
  keccak256 m = node_hash a b -> collide_in xs ys.
Proof.
  intros Hx Hy Hm Ha Hb. rewrite node_hash_text. intros E. apply (keccak_eq_in xs ys) in E as [E|]; [|done..]. exfalso.
  destruct (pair_text_pair a b Ha Hb) as (x & y & Ep & Wx & Wy & _). apply (f_equal String.length) in E. rewrite Ep, str_app_len, Hm, Wx, Wy in E. done.
Qed.

(** Only leaves of the tree climb to its root, or a text hashed on the way up collides
    with one hashed for the tree. *)
Lemma climb_sound xs ys P x proof : forall root, (forall h, P h -> leaf_digest xs h) -> leaf_digest ys x -> Forall is_word proof ->
  climb_texts x proof ⊆ ys -> in_tree xs P root -> climb x proof = root -> P x \/ collide_in xs ys.
Proof.
  intros root HP Hx Hw. revert root. assert (is_word x) as Wx by (destruct Hx as (m & _ & -> & _); apply keccak_word).
  induction proof as [|s proof IH] using rev_ind; intros root HT Hr E.
  - cbn in E. subst root. destruct Hr as [|a b Ha Hb Hab]; [by left|right]. destruct Hx as (m & Hin & Em & Hm).
    apply collide_in_sym, (lengths_collide ys xs m a b); try done; by eapply in_tree_word.
  - apply Forall_app in Hw as [Hw Hs]. inversion_clear Hs. unfold climb in E. rewrite foldl_app in E. cbn in E. fold (climb x proof) in E.
    rewrite climb_texts_snoc in HT. assert (Hc : node_text (climb x proof) s ∈ ys) by set_solver. assert (climb_texts x proof ⊆ ys) by set_solver.
    pose proof (climb_word x proof Wx) as Wc. destruct Hr as [h Hh|a b Ha Hb Hab].
    + right. destruct (HP h Hh) as (m & Hin & Em & Hm). apply (lengths_collide xs ys m (climb x proof) s); try done. congruence.
    + rewrite !node_hash_text in E. symmetry in E. apply (keccak_eq_in xs ys) in E as [E|]; [|by right|done..].
      destruct (pair_text_pair a b) as (u & v & Eu & Hu & Hv & Huv); [by eapply in_tree_word..|].
      destruct (pair_text_pair (climb x proof) s) as (u' & v' & Eu' & Hu' & Hv' & Huv'); [done..|].
      rewrite Eu, Eu' in E. apply str_app_inj in E as [E1 E2]; [|by transitivity 32%nat].
      subst u' v'. assert (climb x proof = a \/ climb x proof = b) as Ec
        by (clear -Huv Huv'; destruct Huv as [[? ?]|[? ?]], Huv' as [[? ?]|[? ?]]; (left; congruence) || (right; congruence)).
      destruct Ec as [Ec|Ec]; [by apply (IH Hw a)|by apply (IH Hw b)].
Qed.

(** ** Leaves *)

Definition seller_typed (s : SellerLeaf) : Prop := is_uint64 (sl_KeyEpoch s) /\ is_uint64 (sl_Status s).
Definition resource_typed (r : ResourceLeaf) : Prop := is_uint64 (rl_DeclaredWorkTime r) /\ is_uint64 (rl_VerificationBudgetSeconds r).

(** Resources that differ at most in how the price is written. *)
Definition same_terms (x y : ResourceLeaf) : Prop :=
  rl_SellerID x = rl_SellerID y /\ rl_ResourceID x = rl_ResourceID y /\ SetString10 (rl_Price x) = SetString10 (rl_Price y) /\
  rl_EscrowSupported x = rl_EscrowSupported y /\ rl_VerificationSpecHash x = rl_VerificationSpecHash y /\
  rl_DeclaredWorkTime x = rl_DeclaredWorkTime y /\ rl_VerificationBudgetSeconds x = rl_VerificationBudgetSeconds y.

Lemma validateSeller_ok s : validateSeller s = Ok tt -> gov_hash (sl_SellerID s) false = true /\ gov_hash (sl_BaseURLOriginHash s) false = true /\
  gov_address (sl_PayoutAddress s) = true /\ gov_address (sl_AckAuthority s) = true /\ gov_address (sl_QuoteSigningKey s) = true.
Proof. unfold validateSeller. rewrite check_ok_iff, !andb_true_iff. unfold isHash, isAddress, gov_hash, gov_address. cbn [orb]. tauto. Qed.

Lemma leaf_uint256_ok v n : leaf_uint256 v = Ok n -> SetString10 v = Some n /\ 0 < n < 2 ^ 256.
Proof.
  unfold leaf_uint256. rewrite check_ok_iff. intros [_ Hn]. destruct (SetString10 v) as [m|]; [|done].
  rewrite check_ok_iff in Hn. destruct Hn as [Hn [= ->]]. unfold fits256 in Hn. to_prop. split; [done|lia].
Qed.

Lemma validateResource_ok r : validateResource r = Ok tt -> gov_hash (rl_SellerID r) false = true /\ gov_hash (rl_ResourceID r) false = true /\
  gov_hash (rl_VerificationSpecHash r) false = true /\ exists n, SetString10 (rl_Price r) = Some n /\ 0 <= n < 2 ^ 256.
Proof.
  unfold validateResource. rewrite !check_ok_iff, is_ok_inv, !andb_true_iff. unfold isHash, gov_hash. cbn [orb].
  intros (Hh & (n & Hn) & _). apply leaf_uint256_ok in Hn as [Hn Hb]. split_and!; try tauto. exists n. split; [done|lia].
Qed.

Lemma seller_words_ok s : validateSeller s = Ok tt -> Forall is_word (seller_words s).
Proof.
  intros Hv%validateSeller_ok. destruct_and!. unfold seller_words. rewrite !Forall_cons.
  split_and!; auto using be_word, gov_hash_word, gov_addr_word; apply keccak_word.
Qed.

Lemma resource_words_ok r : validateResource r = Ok tt -> Forall is_word (resource_words r).
Proof.
  intros Hv%validateResource_ok. destruct_and!. unfold resource_words, decimal_word. rewrite !Forall_cons.
  split_and!; auto using be_word, gov_hash_word; apply keccak_word.
Qed.

Definition seller_text (s : SellerLeaf) : string := str_concat (seller_words s).
Definition resource_text (r : ResourceLeaf) : string := str_concat (resource_words r).

Lemma SellerLeafHash_ok s h : SellerLeafHash s = Ok h ->
  validateSeller s = Ok tt /\ h = keccak256 (seller_text s) /\ forall T, seller_text s ∈ T -> leaf_digest T h.
Proof.
  unfold SellerLeafHash. intros ([] & Hv & Hh)%try_ok_iff. apply (inj Ok) in Hh as <-. split; [done|]. split; [done|].
  intros T HT. exists (seller_text s). split; [done|]. split; [done|]. unfold seller_text. by rewrite (concat_words_len _ (seller_words_ok _ Hv)).
Qed.

Lemma ResourceLeafHash_ok r h : ResourceLeafHash r = Ok h ->
  validateResource r = Ok tt /\ h = keccak256 (resource_text r) /\ forall T, resource_text r ∈ T -> leaf_digest T h.
Proof.
  unfold ResourceLeafHash. intros ([] & Hv & Hh)%try_ok_iff. apply (inj Ok) in Hh as <-. split; [done|]. split; [done|].
  intros T HT. exists (resource_text r). split; [done|]. split; [done|]. unfold resource_text. by rewrite (concat_words_len _ (resource_words_ok _ Hv)).
Qed.

Lemma seller_hash_inj xs ys s t h : seller_text s ∈ xs -> seller_text t ∈ ys -> seller_typed s -> seller_typed t ->
  SellerLeafHash s = Ok h -> SellerLeafHash t = Ok h -> s = t \/ collide_in xs ys.
Proof.
  intros Hs Ht [Ts1 Ts2] [Tt1 Tt2] (Vs & -> & _)%SellerLeafHash_ok (Vt & E & _)%SellerLeafHash_ok. apply (keccak_eq_in xs ys) in E as [E|]; [|by right|done..].
  apply concat_words_inj in E; [|by apply seller_words_ok..]. apply validateSeller_ok in Vs, Vt. destruct_and!. left. word_by_word E.
  repeat match goal with
  | W : hex_bytes _ = hex_bytes _ |- _ => apply gov_hash_inj in W; [|assumption|assumption]
  | W : be_bytes 32 _ = be_bytes 32 _ |- _ => apply uint64_word in W; [|assumption|assumption]
  | W : address_word _ = address_word _ |- _ => apply gov_addr_inj in W; [|assumption|assumption]
  end.
  clear -W0 W1 W2 W3 W4 W5 W6. destruct s as [a b c d e f g], t as [a' b' c' d' e' f' g'].
  cbn [sl_SellerID sl_PayoutAddress sl_AckAuthority sl_QuoteSigningKey sl_KeyEpoch sl_BaseURLOriginHash sl_Status] in *. by subst.
Qed.

Lemma resource_hash_inj xs ys r t h : resource_text r ∈ xs -> resource_text t ∈ ys -> resource_typed r -> resource_typed t ->
  ResourceLeafHash r = Ok h -> ResourceLeafHash t = Ok h -> same_terms r t \/ collide_in xs ys.
Proof.
  intros Hr Ht [Tr1 Tr2] [Tt1 Tt2] (Vr & -> & _)%ResourceLeafHash_ok (Vt & E & _)%ResourceLeafHash_ok. apply (keccak_eq_in xs ys) in E as [E|]; [|by right|done..].
  apply concat_words_inj in E; [|by apply resource_words_ok..]. apply validateResource_ok in Vr as (? & ? & ? & n & Sn & Bn), Vt as (? & ? & ? & k & Sk & Bk).
  left. word_by_word E. unfold decimal_word in *. rewrite Sn, Sk in *. cbn [from_option id] in *.
  match goal with W : be_bytes 32 (if _ then _ else _) = _ |- _ => apply be32_inj in W; [|by destruct (rl_EscrowSupported r)|by destruct (rl_EscrowSupported t)] end.
  match goal with W : be_bytes 32 n = _ |- _ => apply be32_inj in W; [|done|done] end.
  repeat match goal with
  | W : hex_bytes _ = hex_bytes _ |- _ => apply gov_hash_inj in W; [|assumption|assumption]
  | W : be_bytes 32 _ = be_bytes 32 _ |- _ => apply uint64_word in W; [|assumption|assumption]
  end.
  unfold same_terms. rewrite Sn, Sk. split_and!; try congruence. by destruct (rl_EscrowSupported r), (rl_EscrowSupported t).
Qed.

(** The texts under the domain words of the two kinds of leaf. *)
Definition domain_texts : list string := ["ASCP_SELLER_LEAF_V1"; "ASCP_RESOURCE_LEAF_V1"].

(** The two kinds of leaf do not share a hash. *)
Lemma leaf_kinds_differ xs ys s r h : domain_texts ⊆ xs -> domain_texts ⊆ ys -> seller_text s ∈ xs -> resource_text r ∈ ys ->
  SellerLeafHash s = Ok h -> ResourceLeafHash r = Ok h -> collide_in xs ys.
Proof.
  intros Dx Dy Hs Hr (Vs & -> & _)%SellerLeafHash_ok (Vr & E & _)%ResourceLeafHash_ok. apply (keccak_eq_in xs ys) in E as [E|]; [|done..].
  apply concat_words_inj in E; [|by apply seller_words_ok|by apply resource_words_ok]. apply cons_split in E as [E _].
  unfold sellerDomain, resourceDomain in E. apply (keccak_eq_in xs ys) in E as [E|]; [discriminate E|done| |]; [apply Dx|apply Dy]; unfold domain_texts; listed.
Qed.
End Release.

(** ** Compiled releases *)

Section Published.
Context `{Crypto} `{!CryptoLaws} `{Abi} `{OriginCheck}.

Lemma collect_ok {A} (f : A -> res leafInput) l : forall inputs out, collect_leaves f inputs l = Ok out ->
  forall input, input ∈ out <-> input ∈ inputs \/ exists x, x ∈ l /\ f x = Ok input.
Proof.
  unfold collect_leaves. induction l as [|x l IH]; intros inputs out Hc input.
  { injection Hc as <-. set_solver. }
  rewrite fold_res_cons in Hc. destruct (f x) as [i|] eqn:Ef; [|done]. rewrite (IH _ _ Hc), elem_of_app, list_elem_of_singleton.
  split; [intros [[Hi| ->]|(y & Hy & Ey)]|intros [Hi|(y & [->|Hy]%elem_of_cons & Ey)]]; try (by left; auto).
  - right. exists x. split; [by left|done].
  - right. exists y. split; [by right|done].
  - left. right. congruence.
  - right. eauto.
Qed.

Lemma leaf_inputs_ok sellers resources inputs : leaf_inputs sellers resources = Ok inputs ->
  forall input, input ∈ inputs <-> (exists s, s ∈ sellers /\ seller_input s = Ok input) \/ (exists r, r ∈ resources /\ resource_input r = Ok input).
Proof.
  unfold leaf_inputs. intros (i1 & C1 & Hi)%try_ok_iff input. apply try_ok_iff in Hi as (i2 & C2 & [= <-]).
  rewrite (elem_of_Permutation_proper input _ _ (merge_sort_Permutation leaf_le i2)), (collect_ok _ _ _ _ C2 input), (collect_ok _ _ _ _ C1 input).
  set_solver.
Qed.

(** The texts of the leaves of a manifest, and all texts hashed for its release. *)
Definition leaf_texts (m : Manifest) : list string :=
  map (fun s => seller_text (seller_leaf s)) (mf_Sellers m) ++ map (fun r => resource_text (resource_leaf r)) (mf_Resources m).
Definition release_texts (m : Manifest) : list string :=
  domain_texts ++ leaf_texts m ++
  match leaf_inputs (merge_sort seller_le (mf_Sellers m)) (merge_sort resource_le (mf_Resources m)) with
  | Ok inputs => merkle_texts inputs
  | Err _ => []
  end.

Lemma seller_leaf_text m s : s ∈ mf_Sellers m -> seller_text (seller_leaf s) ∈ release_texts m.
Proof. intros Hs. unfold release_texts, leaf_texts. rewrite !elem_of_app. right. left. left. apply (list_elem_of_fmap_2 (fun s => seller_text (seller_leaf s))), Hs. Qed.
Lemma resource_leaf_text m r : r ∈ mf_Resources m -> resource_text (resource_leaf r) ∈ release_texts m.
Proof. intros Hr. unfold release_texts, leaf_texts. rewrite !elem_of_app. right. left. right. apply (list_elem_of_fmap_2 (fun r => resource_text (resource_leaf r))), Hr. Qed.

Lemma input_hash_digest m inputs : leaf_inputs (merge_sort seller_le (mf_Sellers m)) (merge_sort resource_le (mf_Resources m)) = Ok inputs ->
  Forall (fun input => leaf_digest (release_texts m) (li_hash input)) inputs.
Proof.
  intros Hi. apply Forall_forall. intros input Hin. apply (leaf_inputs_ok _ _ _ Hi) in Hin as [(s & Hin & Hs)|(r & Hin & Hr)].
  - rewrite (merge_sort_Permutation seller_le) in Hin. unfold seller_input in Hs. destruct (SellerLeafHash _) as [h|] eqn:E; [|done]. injection Hs as <-. apply SellerLeafHash_ok in E as (_ & _ & E).
    by apply E, seller_leaf_text.
  - rewrite (merge_sort_Permutation resource_le) in Hin. unfold resource_input in Hr. destruct (ResourceLeafHash _) as [h|] eqn:E; [|done].
    injection Hr as <-. apply ResourceLeafHash_ok in E as (_ & _ & E). by apply E, resource_leaf_text.
Qed.

(** The part of a release that is about its leaves. *)
Lemma Compile_leaves m d a : Compile m d = Ok a -> exists inputs root proofs,
  leaf_inputs (merge_sort seller_le (mf_Sellers m)) (merge_sort resource_le (mf_Resources m)) = Ok inputs /\ merkle inputs = Some (root, proofs) /\
  af_MerkleRoot a = hex_hash root /\ af_Leaves a = imap (fun i l => compiled_leaf (proofs i) l) inputs /\
  dp_NewRoot (rp_Directory (af_Proposal a)) = hex_hash root /\ af_Manifest a = sorted_manifest m.
Proof.
  unfold Compile. intros (dd & _ & Hc)%try_ok_iff. apply try_ok_iff in Hc as (_ & _ & Hc). cbv zeta in Hc.
  apply check_ok_iff in Hc as [_ Hc]. apply check_ok_iff in Hc as [_ Hc]. apply try_ok_iff in Hc as (inputs & Hi & Hc).
  destruct (merkle inputs) as [[root proofs]|] eqn:Em; [|done]. apply try_ok_iff in Hc as (bound & _ & Hc).
  apply try_ok_iff in Hc as (ph & _ & Hc). apply try_ok_iff in Hc as (pph & _ & [= <-]). exists inputs, root, proofs. done.
Qed.

(** A proof over words is followed to its end unless it contains the zero hash, which
    the verifier takes for a missing one. *)
Lemma follow_proof proof : Forall is_word proof -> forall leaf,
  fold_res proof_item leaf (map hex_hash proof) = if bool_decide (zero_hash ∈ map hex_hash proof) then Err ErrInvalidObservation else Ok (climb leaf proof).
Proof.
  induction 1 as [|s proof Hs _ IH]; intros leaf; [done|]. cbn [map]. rewrite fold_res_cons. unfold proof_item at 1, merkle_hash, isHash.
  rewrite hex_hash_pattern by done. cbn [andb]. destruct (bool_decide_reflect (hex_hash s = zero_hash)) as [E|E]; cbn [negb].
  { rewrite bool_decide_eq_true_2; [done|]. rewrite E. by left. }
  rewrite hex_bytes_hash, IH. rewrite (bool_decide_ext (zero_hash ∈ map hex_hash proof) (zero_hash ∈ hex_hash s :: map hex_hash proof)); [done|].
  rewrite elem_of_cons. split; [by right|]. intros [?|?]; congruence.
Qed.

(** C39: Every leaf of a compiled release comes with a proof that [Verify] accepts against
    the root the release proposes, exactly when neither that root nor a hash of the
    proof is the zero hash, which [Verify] refuses. *)
Theorem compiled_leaves_verify m d a leaf : Compile m d = Ok a -> leaf ∈ af_Leaves a ->
  merkle_Verify (dp_NewRoot (rp_Directory (af_Proposal a))) (hex_bytes (cl_Hash leaf)) (cl_Proof leaf) = Ok tt <->
  zero_hash ∉ dp_NewRoot (rp_Directory (af_Proposal a)) :: cl_Proof leaf.
Proof.
  intros (inputs & root & proofs & Hi & Hm & _ & Hl & -> & _)%Compile_leaves Hin. rewrite Hl in Hin.
  apply list_elem_of_lookup in Hin as (i & Hin). rewrite list_lookup_imap in Hin. destruct (inputs !! i) as [input|] eqn:Ei; [|done].
  injection Hin as <-. cbn [compiled_leaf cl_Hash cl_Proof]. rewrite hex_bytes_hash. pose proof (input_hash_digest _ _ Hi) as Hd.
  destruct (merkle_grown (merkle_texts inputs ++ release_texts m) (leaf_digest (merkle_texts inputs ++ release_texts m)) inputs root proofs) as [Hr Hp]; [set_solver| |done|].
  { eapply Forall_impl; [exact Hd|]. intros x (t & Ht & E). exists t. split; [set_solver|done]. }
  assert (Ww : Forall is_word (proofs i)) by (eapply Forall_impl; [apply Hp|]; intros ? Hx; by eapply in_tree_word, Hx). apply in_tree_word in Hr; [|done].
  destruct (merkle_spec inputs) as (root' & proofs' & Hm' & Hc); [by intros ->|]. rewrite Hm in Hm'. injection Hm' as <- <-.
  unfold merkle_Verify, merkle_hash, isHash. rewrite hex_hash_pattern by done. rewrite elem_of_cons.
  destruct (bool_decide_reflect (hex_hash root = zero_hash)) as [E|E]; cbn [andb negb].
  { split; [done|]. rewrite E. intros []. by left. }
  rewrite hex_bytes_hash, follow_proof by done. case_bool_decide as Ez; [split; [done|tauto]|]. rewrite (Hc i input Ei), bool_decide_true by done.
  split; [|done]. intros _ [?|?]; congruence.
Qed.

Lemma verify_climbs root leaf proof : merkle_Verify root leaf proof = Ok tt ->
  Forall is_word (map hex_bytes proof) /\ climb leaf (map hex_bytes proof) = hex_bytes root.
Proof.
  unfold merkle_Verify, merkle_hash. destruct (isHash root); [|done]. intros (c & Hc & Hv)%try_ok_iff. apply check_ok_iff in Hv as [Hv _].
  apply bool_decide_eq_true in Hv as <-. revert leaf Hc. induction proof as [|item proof IH]; intros leaf Hc.
  { injection Hc as <-. done. }
  rewrite fold_res_cons in Hc. unfold proof_item at 1, merkle_hash in Hc. destruct (isHash item) eqn:Hi; [|done].
  apply IH in Hc as (Hw & Hcl). split; [|done]. cbn [map]. constructor; [|done]. apply gov_hash_word. exact Hi.
Qed.

(** What verifies against the root of a release is the hash of one of its leaves. *)
Lemma published_leaf m d a h proof ys : Compile m d = Ok a -> leaf_digest ys h -> climb_texts h (map hex_bytes proof) ⊆ ys ->
  merkle_Verify (af_MerkleRoot a) h proof = Ok tt ->
  (exists s, s ∈ mf_Sellers m /\ SellerLeafHash (seller_leaf s) = Ok h) \/
  (exists r, r ∈ mf_Resources m /\ ResourceLeafHash (resource_leaf r) = Ok h) \/ collide_in (release_texts m) ys.
Proof.
  intros (inputs & root & proofs & Hi & Hm & Er & _ & _)%Compile_leaves Hd Hys (Hw & Hc)%verify_climbs. rewrite Er, hex_bytes_hash in Hc.
  set (P := fun h => exists input, input ∈ inputs /\ li_hash input = h). pose proof (input_hash_digest _ _ Hi) as Hall. rewrite Forall_forall in Hall.
  assert (HP : forall h, P h -> leaf_digest (release_texts m) h) by (intros ? (input & Hin & <-); by apply Hall).
  destruct (merkle_grown (release_texts m) P inputs root proofs) as [Hr _]; [unfold release_texts; rewrite Hi; set_solver|apply Forall_forall; unfold P; eauto|done|].
  destruct (climb_sound (release_texts m) ys P h (map hex_bytes proof) root HP Hd Hw Hys Hr Hc) as [(input & Hin & <-)|]; [|by right; right].
  apply (leaf_inputs_ok _ _ _ Hi) in Hin as [(s & Hs & Es)|(r & Hrr & Es)].
  - left. exists s. rewrite (merge_sort_Permutation seller_le) in Hs. unfold seller_input in Es. destruct (SellerLeafHash _); [|done].
    injection Es as <-. done.
  - right. left. exists r. rewrite (merge_sort_Permutation resource_le) in Hrr. unfold resource_input in Es. destruct (ResourceLeafHash _); [|done].
    injection Es as <-. done.
Qed.

(** ** Evidence for a quote *)

(** The terms of evidence as the manifest publishes them. *)
Record offered (m : Manifest) (e : DirectoryEvidence) : Prop := {
  of_seller : exists s, s ∈ mf_Sellers m /\ se_SellerID s = de_SellerID e /\ se_PayoutAddress s = de_PayoutAddress e /\
    se_AckAuthority s = de_AckAuthority e /\ se_QuoteSigningKey s = de_QuoteSigningKey e /\ se_KeyEpoch s = de_KeyEpoch e;
  of_resource : exists r, r ∈ mf_Resources m /\ re_SellerID r = de_SellerID e /\ re_ResourceID r = de_ResourceID e /\
    SetString10 (re_Price r) = SetString10 (de_AmountBaseUnits e) /\ re_VerificationSpecHash r = de_VerificationSpecHash e /\
    re_DeclaredWorkTime r = de_DeclaredWorkTime e /\ re_VerificationBudgetSeconds r = de_VerificationBudgetSeconds e }.

(** The Go types of the integer fields. *)
Definition manifest_typed (m : Manifest) : Prop :=
  Forall (fun s => seller_typed (seller_leaf s)) (mf_Sellers m) /\ Forall (fun r => resource_typed (resource_leaf r)) (mf_Resources m).
Definition observation_typed (o : DirectoryObservation) : Prop := seller_typed (ob_Seller o) /\ resource_typed (ob_Resource o).

(** The texts hashed to verify an observation: its two leaves and the pairs on the way
    from each of them to the root. *)
Definition observation_texts (o : DirectoryObservation) : list string :=
  domain_texts ++ [seller_text (ob_Seller o); resource_text (ob_Resource o)] ++
  climb_texts (keccak256 (seller_text (ob_Seller o))) (map hex_bytes (default [] (ob_SellerProof o))) ++
  climb_texts (keccak256 (resource_text (ob_Resource o))) (map hex_bytes (default [] (ob_ResourceProof o))).

Lemma observation_listed o : domain_texts ⊆ observation_texts o /\ seller_text (ob_Seller o) ∈ observation_texts o /\
  resource_text (ob_Resource o) ∈ observation_texts o /\
  climb_texts (keccak256 (seller_text (ob_Seller o))) (map hex_bytes (default [] (ob_SellerProof o))) ⊆ observation_texts o /\
  climb_texts (keccak256 (resource_text (ob_Resource o))) (map hex_bytes (default [] (ob_ResourceProof o))) ⊆ observation_texts o.
Proof. unfold observation_texts. set_solver. Qed.

Lemma release_domains m : domain_texts ⊆ release_texts m.
Proof. unfold release_texts. set_solver. Qed.

Lemma published_seller m d a s h proof ys : Compile m d = Ok a -> manifest_typed m -> seller_typed s -> SellerLeafHash s = Ok h ->
  domain_texts ⊆ ys -> seller_text s ∈ ys -> climb_texts h (map hex_bytes proof) ⊆ ys ->
  merkle_Verify (af_MerkleRoot a) h proof = Ok tt -> (exists x, x ∈ mf_Sellers m /\ seller_leaf x = s) \/ collide_in (release_texts m) ys.
Proof.
  intros Hc [Ts _] Ht Hh Hdom Hs Hcl Hv. destruct (published_leaf m d a h proof ys Hc) as [(x & Hx & Ex)|[(r & Hr & Er)|?]]; [|done..| | |by right].
  - apply SellerLeafHash_ok in Hh as (_ & _ & Hh). auto.
  - rewrite Forall_forall in Ts. destruct (seller_hash_inj (release_texts m) ys (seller_leaf x) s h) as [E|]; auto using seller_leaf_text. left. by exists x.
  - right. apply collide_in_sym. eapply (leaf_kinds_differ ys _ s (resource_leaf r) h); auto using release_domains, resource_leaf_text.
Qed.

Lemma published_resource m d a t h proof ys : Compile m d = Ok a -> manifest_typed m -> resource_typed t -> ResourceLeafHash t = Ok h ->
  domain_texts ⊆ ys -> resource_text t ∈ ys -> climb_texts h (map hex_bytes proof) ⊆ ys ->
  merkle_Verify (af_MerkleRoot a) h proof = Ok tt -> (exists x, x ∈ mf_Resources m /\ same_terms (resource_leaf x) t) \/ collide_in (release_texts m) ys.
Proof.
  intros Hc [_ Tr] Ht Hh Hdom Hs Hcl Hv. destruct (published_leaf m d a h proof ys Hc) as [(x & Hx & Ex)|[(r & Hr & Er)|?]]; [|done..| | |by right].
  - apply ResourceLeafHash_ok in Hh as (_ & _ & Hh). auto.
  - right. eapply (leaf_kinds_differ _ ys (seller_leaf x) t h); auto using release_domains, seller_leaf_text.
  - rewrite Forall_forall in Tr. destruct (resource_hash_inj (release_texts m) ys (resource_leaf r) t h) as [E|]; auto using resource_leaf_text. left. by exists r.
Qed.

Lemma evidence_offered m d a o q e : Compile m d = Ok a -> manifest_typed m -> observation_typed o -> ob_Root o = af_MerkleRoot a ->
  EvidenceForQuote o q = Ok e -> offered m e \/ collide_in (release_texts m) (observation_texts o).
Proof.
  intros Hc Hm [To1 To2] Hr. unfold EvidenceForQuote. intros (_ & He)%check_ok_iff. apply try_ok_iff in He as (sh & Hs & He).
  apply try_ok_iff in He as ([] & Vs & He). apply try_ok_iff in He as (rh & Hrh & He). apply try_ok_iff in He as ([] & Vr & He).
  apply check_ok_iff in He as [Hq [= <-]]. rewrite Hr in Vs, Vr. unfold quote_terms in Hq. to_prop. destruct_and!.
  pose proof (SellerLeafHash_ok _ _ Hs) as (_ & Es' & _). pose proof (ResourceLeafHash_ok _ _ Hrh) as (_ & Er' & _).
  destruct (observation_listed o) as (Ld & Ls & Lr & Cs & Cr). rewrite <- Es' in Cs. rewrite <- Er' in Cr.
  destruct (published_seller _ _ _ _ _ _ _ Hc Hm To1 Hs Ld Ls Cs Vs) as [(s & Hin & Es)|]; [|by right].
  destruct (published_resource _ _ _ _ _ _ _ Hc Hm To2 Hrh Ld Lr Cr Vr) as [(r & Hin' & Et)|]; [|by right].
  left. destruct Et as (E1 & E2 & E3 & _ & E4 & E5 & E6). cbn in E1, E2, E3, E4, E5, E6. split.
  - exists s. cbn. rewrite <- Es. cbn. by split_and!.
  - exists r. cbn. rewrite E3. split_and!; congruence.
Qed.
End Published.
