(* ===== verification/DirectoryReader.v ===== *)
(** * The directory reader ([internal/directoryreader])

    Evidence for a quote from a quorum of observers ([reader.go]), its record in the
    tables of the control plane ([postgres.go], migration 0009), and the evidence that
    intake reads back ([materialized.go]). Each table is a map over its primary key; a
    transaction is one step that either commits or leaves the tables as they were. *)
From stdpp Require Import base gmap strings list sorting.
From Stdlib Require Import ZArith Lia Ascii.
From S2P Require Import Prelude GoText GoJSON Amounts Crypto Envelope GovAction GovActionTheorems SafeTx SellerQuote Directory DirectoryTheorems.

Open Scope Z_scope.

Definition ErrReaderConfiguration : error := "invalid finalized directory reader configuration".
Definition ErrReaderObservation : error := "invalid finalized directory observation".
Definition ErrQuorumUnavailable : error := "finalized directory observer quorum unavailable".
Definition ErrObserverDisagreement : error := "finalized directory observers disagree".

Record FinalizedObservation := mkFinalizedObservation {
  fo_Provider : string; fo_ChainID : Z; fo_DirectoryContract : string; fo_DirectoryCodeHash : string; fo_FinalizedBlockNumber : Z;
  fo_FinalizedBlockHash : string; fo_Directory : DirectoryObservation }.

(** The names of the configured sources stand for them: what a source answers is part
    of the environment of a read. *)
Record Reader := mkReader { rd_chainID : Z; rd_directory : string; rd_directoryCodeHash : string; rd_sources : list string; rd_quorum : Z }.

Record ReadResult := mkReadResult {
  rr_Evidence : DirectoryEvidence; rr_ChainID : Z; rr_DirectoryContract : string; rr_FinalizedBlockNumber : Z; rr_FinalizedBlockHash : string;
  rr_DirectoryVersion : Z; rr_DirectoryRoot : string; rr_ObservationDigest : string; rr_ObservedAt : time; rr_Providers : list string;
  rr_Failures : gmap string string; rr_verified : bool; rr_seal : string }.

Definition provider_char (c : ascii) : bool := is_alnum c || (code c =? 45) || (code c =? 95).
Definition providerName (value : string) : bool :=
  negb (bool_decide (value = "")) && (str_len value <=? 64) && str_all provider_char value.

(** [New]; names are compared without regard to case. *)
Definition reader_name (names : gset string) (name : string) : res (gset string) :=
  check providerName name else ErrReaderConfiguration ;;
  check negb (bool_decide (str_map ascii_lower name ∈ names)) else ErrReaderConfiguration ;;
  Ok ({[str_map ascii_lower name]} ∪ names).

Definition NewReader (chainID : Z) (directory codeHash : string) (sources : list string) (quorum : Z) : res Reader :=
  check ((chainID =? 8453) || (chainID =? 84532)) && isAddress directory && isHash codeHash && Nat.leb 2 (length sources) &&
        Nat.leb (length sources) 5 && (2 <=? quorum) && (quorum <=? Z.of_nat (length sources)) else ErrReaderConfiguration ;;
  try _ := fold_res reader_name ∅ sources in
  Ok (mkReader chainID directory codeHash sources quorum).

(** ** What observers agree on *)

Definition json_strings (l : option (list string)) : string :=
  match l with None => "null" | Some l => json_array (map json_string l) end.

Definition json_SellerLeaf (s : SellerLeaf) : string :=
  json_object [("SellerID", Some (json_string (sl_SellerID s))); ("PayoutAddress", Some (json_string (sl_PayoutAddress s)));
               ("AckAuthority", Some (json_string (sl_AckAuthority s))); ("QuoteSigningKey", Some (json_string (sl_QuoteSigningKey s)));
               ("KeyEpoch", Some (json_int (sl_KeyEpoch s))); ("BaseURLOriginHash", Some (json_string (sl_BaseURLOriginHash s)));
               ("Status", Some (json_int (sl_Status s)))].

Definition json_ResourceLeaf (r : ResourceLeaf) : string :=
  json_object [("SellerID", Some (json_string (rl_SellerID r))); ("ResourceID", Some (json_string (rl_ResourceID r)));
               ("Price", Some (json_string (rl_Price r))); ("EscrowSupported", Some (json_bool (rl_EscrowSupported r)));
               ("VerificationSpecHash", Some (json_string (rl_VerificationSpecHash r))); ("DeclaredWorkTime", Some (json_int (rl_DeclaredWorkTime r)));
               ("VerificationBudgetSeconds", Some (json_int (rl_VerificationBudgetSeconds r)))].

Definition json_Observation (o : DirectoryObservation) : string :=
  json_object [("DirectoryContract", Some (json_string (ob_DirectoryContract o))); ("BlockNumber", Some (json_int (ob_BlockNumber o)));
               ("Version", Some (json_int (ob_Version o))); ("Root", Some (json_string (ob_Root o))); ("Seller", Some (json_SellerLeaf (ob_Seller o)));
               ("SellerProof", Some (json_strings (ob_SellerProof o))); ("Resource", Some (json_ResourceLeaf (ob_Resource o)));
               ("ResourceProof", Some (json_strings (ob_ResourceProof o))); ("SellerPaused", Some (json_bool (ob_SellerPaused o)));
               ("QuoteKeyRevoked", Some (json_bool (ob_QuoteKeyRevoked o)))].

Definition json_Finalized (o : FinalizedObservation) : string :=
  json_object [("chainId", Some (json_int (fo_ChainID o))); ("directoryContract", Some (json_string (fo_DirectoryContract o)));
               ("directoryCodeHash", Some (json_string (fo_DirectoryCodeHash o))); ("finalizedBlockNumber", Some (json_int (fo_FinalizedBlockNumber o)));
               ("finalizedBlockHash", Some (json_string (fo_FinalizedBlockHash o))); ("directory", Some (json_Observation (fo_Directory o)))].

Definition reader_validate (r : Reader) (sourceName : string) (o : FinalizedObservation) : res unit :=
  check bool_decide (sourceName = fo_Provider o) && (fo_ChainID o =? rd_chainID r) && bool_decide (fo_DirectoryContract o = rd_directory r) &&
        bool_decide (fo_DirectoryCodeHash o = rd_directoryCodeHash r) && negb (fo_FinalizedBlockNumber o =? 0) && isHash (fo_FinalizedBlockHash o)
    else ErrReaderObservation ;;
  check bool_decide (ob_DirectoryContract (fo_Directory o) = rd_directory r) && (ob_BlockNumber (fo_Directory o) =? fo_FinalizedBlockNumber o)
    else ErrReaderObservation ;;
  Ok tt.

Definition json_DirectoryEvidence (e : DirectoryEvidence) : string :=
  json_object [("Verified", Some (json_bool (de_Verified e))); ("Version", Some (json_int (de_Version e))); ("SellerID", Some (json_string (de_SellerID e)));
               ("ResourceID", Some (json_string (de_ResourceID e))); ("QuoteSigningKey", Some (json_string (de_QuoteSigningKey e)));
               ("KeyEpoch", Some (json_int (de_KeyEpoch e))); ("PayoutAddress", Some (json_string (de_PayoutAddress e)));
               ("AckAuthority", Some (json_string (de_AckAuthority e))); ("AmountBaseUnits", Some (json_string (de_AmountBaseUnits e)));
               ("VerificationSpecHash", Some (json_string (de_VerificationSpecHash e))); ("DeclaredWorkTime", Some (json_int (de_DeclaredWorkTime e)));
               ("VerificationBudgetSeconds", Some (json_int (de_VerificationBudgetSeconds e))); ("Active", Some (json_bool (de_Active e)));
               ("QuoteKeyRevoked", Some (json_bool (de_QuoteKeyRevoked e)))].

(** A map is printed in the order of its keys; an empty one of a result is nil. *)
Definition json_Failures (f : gmap string string) : string :=
  if bool_decide (f = ∅) then "null"
  else json_object (map (fun k => (k, Some (json_string (default "" (f !! k))))) (merge_sort String.le (map fst (map_to_list f)))).

Section Reader.
Context `{Crypto}.

Definition observationDigest (o : FinalizedObservation) : string := hex_hash (sha256 (json_Finalized o)).

(** The seal is over nothing when the time has no JSON form. *)
Definition json_Result (x : ReadResult) : string :=
  match json_time (rr_ObservedAt x) with
  | None => ""
  | Some at_ =>
      json_object [("Evidence", Some (json_DirectoryEvidence (rr_Evidence x))); ("ChainID", Some (json_int (rr_ChainID x)));
        ("DirectoryContract", Some (json_string (rr_DirectoryContract x))); ("FinalizedBlockNumber", Some (json_int (rr_FinalizedBlockNumber x)));
        ("FinalizedBlockHash", Some (json_string (rr_FinalizedBlockHash x))); ("DirectoryVersion", Some (json_int (rr_DirectoryVersion x)));
        ("DirectoryRoot", Some (json_string (rr_DirectoryRoot x))); ("ObservationDigest", Some (json_string (rr_ObservationDigest x)));
        ("ObservedAt", Some at_); ("Providers", Some (json_array (map json_string (rr_Providers x)))); ("Failures", Some (json_Failures (rr_Failures x)))]
  end.

Definition resultSeal (x : ReadResult) : string := sha256 ("ASCP_DIRECTORY_RESULT_V1" +:+ newline +:+ json_Result x).

(** Failures and the observations of each digest, over the answers in the order in
    which they came. *)
Definition read_answer (r : Reader) (st : gmap string string * gmap string (list FinalizedObservation))
    (answer : string * res FinalizedObservation) : gmap string string * gmap string (list FinalizedObservation) :=
  let (failures, groups) := st in
  match answer with
  | (name, Err m) => (<[name := m]> failures, groups)
  | (name, Ok o) =>
      match reader_validate r name o with
      | Err m => (<[name := m]> failures, groups)
      | Ok _ => let digest := observationDigest o in (failures, <[digest := default [] (groups !! digest) ++ [o]]> groups)
      end
  end.

Definition read_answers (r : Reader) (answers : list (string * res FinalizedObservation)) :
    gmap string string * gmap string (list FinalizedObservation) := foldl (read_answer r) (∅, ∅) answers.

Definition sealed (x : ReadResult) : ReadResult :=
  mkReadResult (rr_Evidence x) (rr_ChainID x) (rr_DirectoryContract x) (rr_FinalizedBlockNumber x) (rr_FinalizedBlockHash x) (rr_DirectoryVersion x)
    (rr_DirectoryRoot x) (rr_ObservationDigest x) (rr_ObservedAt x) (rr_Providers x) (rr_Failures x) true (resultSeal x).

(** [Reader.EvidenceForQuote]. The largest group is chosen, but two groups are an
    error whichever it is. *)
Definition ReadEvidence (r : Reader) (answers : list (string * res FinalizedObservation)) (q : Quote) (now : time) : res ReadResult :=
  let (failures, groups) := read_answers r answers in
  match map_to_list groups with
  | _ :: _ :: _ => Err ErrObserverDisagreement
  | [] => Err ErrQuorumUnavailable
  | [(_, [])] => Err ErrQuorumUnavailable
  | [(digest, (first :: _) as chosen)] =>
      check rd_quorum r <=? Z.of_nat (length chosen) else ErrQuorumUnavailable ;;
      try evidence := EvidenceForQuote (fo_Directory first) q in
      Ok (sealed (mkReadResult evidence (fo_ChainID first) (fo_DirectoryContract first) (fo_FinalizedBlockNumber first) (fo_FinalizedBlockHash first)
                    (ob_Version (fo_Directory first)) (ob_Root (fo_Directory first)) digest now
                    (merge_sort String.le (map fo_Provider chosen)) failures true ""))
  end.
End Reader.

(** ** The recorded observations ([postgres.go]) *)

Definition ErrObservationConflict : error := "finalized directory observation conflicts with durable head".
Definition ErrObservationExpired : error := "finalized directory observation is outside the record window".
Definition maximumRecordDelay : duration := Minute.

(** Rows of [ascp_directory_snapshots], [ascp_directory_quote_evidence] and
    [ascp_directory_heads]. *)
Record SnapshotRow := mkSnapshotRow {
  sw_chain : Z; sw_contract : string; sw_version : Z; sw_root : string; sw_block : Z; sw_block_hash : string; sw_providers : list string; sw_observed_at : time }.
Record HeadRow := mkHeadRow { hw_digest : string; hw_version : Z; hw_block : Z; hw_updated_at : time }.

Record DirectoryTables := mkDirectoryTables {
  dt_snapshots : gmap string SnapshotRow;
  dt_evidence : gmap (string * string * string) DirectoryEvidence;
  dt_heads : gmap (Z * string) HeadRow }.

Definition empty_tables : DirectoryTables := mkDirectoryTables ∅ ∅ ∅.

Section Store.
Context `{Crypto}.

Fixpoint distinct_providers (seen : gset string) (providers : list string) : bool :=
  match providers with
  | [] => true
  | p :: rest => providerName p && negb (bool_decide (p ∈ seen)) && distinct_providers ({[p]} ∪ seen) rest
  end.

Definition validateResult (x : ReadResult) : res unit :=
  let e := rr_Evidence x in
  check rr_verified x && bool_decide (rr_seal x = resultSeal x) && ((rr_ChainID x =? 8453) || (rr_ChainID x =? 84532)) &&
        isAddress (rr_DirectoryContract x) && negb (rr_DirectoryVersion x =? 0) && negb (rr_FinalizedBlockNumber x =? 0) &&
        negb (time_IsZero (rr_ObservedAt x)) && isHash (rr_DirectoryRoot x) && isHash (rr_FinalizedBlockHash x) && isHash (rr_ObservationDigest x) &&
        Nat.leb 2 (length (rr_Providers x)) && de_Verified e && (de_Version e =? rr_DirectoryVersion x) && isHash (de_SellerID e) &&
        isHash (de_ResourceID e) && isAddress (de_QuoteSigningKey e) && negb (de_KeyEpoch e =? 0) && isAddress (de_PayoutAddress e) &&
        isAddress (de_AckAuthority e) && negb (bool_decide (de_AmountBaseUnits e = "")) && isHash (de_VerificationSpecHash e) &&
        negb (de_DeclaredWorkTime e =? 0) && negb (de_VerificationBudgetSeconds e =? 0)
    else ErrReaderObservation ;;
  check distinct_providers ∅ (rr_Providers x) else ErrReaderObservation ;;
  Ok tt.

(** The columns are [bigint], and the amount a positive decimal. *)
Definition snapshot_fits (x : ReadResult) : bool := (rr_DirectoryVersion x <=? MaxInt64) && (rr_FinalizedBlockNumber x <=? MaxInt64).
Definition evidence_fits (e : DirectoryEvidence) : bool :=
  (de_KeyEpoch e <=? MaxInt64) && (de_DeclaredWorkTime e <=? MaxInt64) && (de_VerificationBudgetSeconds e <=? MaxInt64) &&
  canonical_decimal (de_AmountBaseUnits e) && negb (bool_decide (de_AmountBaseUnits e = "0")).

(** A [timestamptz] keeps microseconds. *)
Definition pg_time (t : time) : time := t / 1000 * 1000.

Definition snapshot_row (x : ReadResult) : SnapshotRow :=
  mkSnapshotRow (rr_ChainID x) (rr_DirectoryContract x) (rr_DirectoryVersion x) (rr_DirectoryRoot x) (rr_FinalizedBlockNumber x)
    (rr_FinalizedBlockHash x) (rr_Providers x) (pg_time (rr_ObservedAt x)).

(** [UNIQUE (chain_id, directory_contract, finalized_block_number)] *)
Definition block_taken (t : DirectoryTables) (x : ReadResult) : bool :=
  existsb (fun row => (sw_chain (snd row) =? rr_ChainID x) && bool_decide (sw_contract (snd row) = rr_DirectoryContract x) &&
                      (sw_block (snd row) =? rr_FinalizedBlockNumber x)) (map_to_list (dt_snapshots t)).

Definition insert_snapshot (t : DirectoryTables) (x : ReadResult) : res DirectoryTables :=
  check snapshot_fits x else "record directory snapshot" ;;
  match dt_snapshots t !! rr_ObservationDigest x with
  | Some _ => Ok t
  | None =>
      check negb (block_taken t x) else ErrObservationConflict ;;
      Ok (mkDirectoryTables (<[rr_ObservationDigest x := snapshot_row x]> (dt_snapshots t)) (dt_evidence t) (dt_heads t))
  end.

(** The key the row of evidence is found by. *)
Definition evidence_key (digest : string) (e : DirectoryEvidence) : string * string * string := (digest, de_SellerID e, de_ResourceID e).

Definition insert_evidence (t : DirectoryTables) (x : ReadResult) : res DirectoryTables :=
  check evidence_fits (rr_Evidence x) else "record directory quote evidence" ;;
  let key := evidence_key (rr_ObservationDigest x) (rr_Evidence x) in
  match dt_evidence t !! key with
  | Some _ => Ok t
  | None => Ok (mkDirectoryTables (dt_snapshots t) (<[key := rr_Evidence x]> (dt_evidence t)) (dt_heads t))
  end.

Definition advance_head (t : DirectoryTables) (x : ReadResult) (storedAt : time) : res DirectoryTables :=
  let key := (rr_ChainID x, rr_DirectoryContract x) in
  let next := mkDirectoryTables (dt_snapshots t) (dt_evidence t)
                (<[key := mkHeadRow (rr_ObservationDigest x) (rr_DirectoryVersion x) (rr_FinalizedBlockNumber x) (pg_time storedAt)]> (dt_heads t)) in
  match dt_heads t !! key with
  | None => Ok next
  | Some head =>
      if rr_FinalizedBlockNumber x <? hw_block head then Ok t
      else
        check negb ((hw_block head =? rr_FinalizedBlockNumber x) && negb (bool_decide (hw_digest head = rr_ObservationDigest x))) else ErrObservationConflict ;;
        Ok next
  end.

(** [Record]; [commit] is what the database answers to the transaction. *)
Definition RecordResult (t : DirectoryTables) (x : ReadResult) (storedAt : time) (commit : option error) : DirectoryTables * res unit :=
  let body :=
    try _ := validateResult x in
    check negb (time_after (rr_ObservedAt x) (time_add storedAt maximumRecordDelay)) && (time_sub storedAt (rr_ObservedAt x) <=? maximumRecordDelay)
      else ErrObservationExpired ;;
    try t1 := insert_snapshot t x in
    try t2 := insert_evidence t1 x in
    try t3 := advance_head t2 x storedAt in
    match commit with None => Ok t3 | Some m => Err m end in
  match body with Ok t' => (t', Ok tt) | Err m => (t, Err m) end.

(** ** The evidence intake reads ([materialized.go]) *)

Definition ErrCurrentSnapshotUnavailable : error := "current finalized directory snapshot is unavailable".
Definition ErrCurrentSnapshotStale : error := "current finalized directory snapshot is stale".
Definition ErrCurrentVersionMismatch : error := "seller quote does not use the current directory version".
Definition ErrQuoteEvidenceUnavailable : error := "seller quote is absent from the current directory snapshot".

Record MaterializedResolver := mkResolver { mr_chainID : Z; mr_directory : string; mr_maxAge : duration; mr_maxFutureSkew : duration }.

Definition NewMaterializedResolver (chainID : Z) (directory : string) (maxAge maxFutureSkew : duration) : res MaterializedResolver :=
  check ((chainID =? 8453) || (chainID =? 84532)) && isAddress directory && (0 <? maxAge) && (maxAge <=? 5 * Minute) && (0 <=? maxFutureSkew) &&
        (maxFutureSkew <=? Minute) else ErrReaderConfiguration ;;
  Ok (mkResolver chainID directory maxAge maxFutureSkew).

(** The head joined with the snapshot it names. *)
Definition current_head (t : DirectoryTables) (chainID : Z) (contract : string) : option (HeadRow * SnapshotRow) :=
  match dt_heads t !! (chainID, contract) with
  | None => None
  | Some head =>
      match dt_snapshots t !! hw_digest head with
      | Some snapshot =>
          if (sw_chain snapshot =? chainID) && bool_decide (sw_contract snapshot = contract) && (sw_version snapshot =? hw_version head) &&
             (sw_block snapshot =? hw_block head)
          then Some (head, snapshot) else None
      | None => None
      end
  end.

Definition read_back (version : Z) (e : DirectoryEvidence) : DirectoryEvidence :=
  mkDirectoryEvidence true version (de_SellerID e) (de_ResourceID e) (de_QuoteSigningKey e) (de_KeyEpoch e) (de_PayoutAddress e) (de_AckAuthority e)
    (de_AmountBaseUnits e) (de_VerificationSpecHash e) (de_DeclaredWorkTime e) (de_VerificationBudgetSeconds e) (de_Active e) (de_QuoteKeyRevoked e).

Definition ResolveEvidence (r : MaterializedResolver) (t : DirectoryTables) (q : Quote) (now : time) : res (string * DirectoryEvidence) :=
  try _ := Quote_Validate q in
  check bool_decide (q_ChainID q = dec_string (mr_chainID r)) else ErrReaderObservation ;;
  match current_head t (mr_chainID r) (mr_directory r) with
  | None => Err ErrCurrentSnapshotUnavailable
  | Some (head, snapshot) =>
      check negb (time_after (sw_observed_at snapshot) (time_add now (mr_maxFutureSkew r))) && (time_sub now (sw_observed_at snapshot) <=? mr_maxAge r)
        else ErrCurrentSnapshotStale ;;
      check hw_version head =? q_DirectoryVersion q else ErrCurrentVersionMismatch ;;
      match dt_evidence t !! (hw_digest head, q_SellerID q, q_ResourceID q) with
      | None => Err ErrQuoteEvidenceUnavailable
      | Some e => Ok (mr_directory r, read_back (hw_version head) e)
      end
  end.
End Store.
