(* ===== verification/QuoteIntake.v ===== *)
(** * From the published directory to an accepted quote

    What a quorum read says, what the tables hold after any sequence of records, and
    what intake may conclude about a quote. *)
From stdpp Require Import base gmap strings list sorting.
From Stdlib Require Import ZArith Lia Ascii.
From S2P Require Import Prelude GoText GoJSON Amounts Crypto Envelope GovAction GovActionTheorems SafeTx SellerQuote Directory DirectoryTheorems DirectoryReader.

Open Scope Z_scope.

Section Quorum.
Context `{Crypto}.

Definition valid_answer (r : Reader) (answer : string * res FinalizedObservation) : option FinalizedObservation :=
  match answer with
  | (name, Ok o) => if is_ok (reader_validate r name o) then Some o else None
  | _ => None
  end.

Lemma valid_answer_Some r name a o : valid_answer r (name, a) = Some o -> a = Ok o /\ reader_validate r name o = Ok tt /\ fo_Provider o = name.
Proof.
  cbn. destruct a as [o'|]; [|done]. destruct (reader_validate r name o') as [[]|] eqn:E; [|done]. intros [= <-]. split_and!; try done.
  unfold reader_validate in E. apply check_ok_iff in E as [E _]. to_prop. destruct_and!. done.
Qed.

(** A group holds the valid answers of its digest. *)
Lemma read_answers_groups r answers : forall d l, (read_answers r answers).2 !! d = Some l ->
  l = filter (fun o => observationDigest o = d) (omap (valid_answer r) answers).
Proof.
  unfold read_answers. enough (forall st d, default [] ((foldl (read_answer r) st answers).2 !! d) =
    default [] (st.2 !! d) ++ filter (fun o => observationDigest o = d) (omap (valid_answer r) answers)) as E.
  { intros d l Hl. specialize (E (∅, ∅) d). rewrite Hl in E. exact E. }
  induction answers as [|[name a] answers IH]; intros [failures groups] d; cbn [foldl omap list_omap]; [by rewrite app_nil_r|]. rewrite IH.
  cbn [read_answer valid_answer]. destruct a as [o|m]; [|done]. destruct (reader_validate r name o); cbn [is_ok]; [|done]. cbn [snd].
  rewrite filter_cons. case_decide as Hd.
  - subst d. rewrite lookup_insert_eq. cbn. by rewrite <- app_assoc.
  - by rewrite lookup_insert_ne.
Qed.

Lemma read_answers_keys r answers o : o ∈ omap (valid_answer r) answers -> is_Some ((read_answers r answers).2 !! observationDigest o).
Proof.
  unfold read_answers. enough (forall st, o ∈ omap (valid_answer r) answers \/ is_Some (st.2 !! observationDigest o) ->
    is_Some ((foldl (read_answer r) st answers).2 !! observationDigest o)) as E by (intros; apply E; by left).
  induction answers as [|[name a] answers IH]; intros [failures groups] Ho; cbn [foldl omap list_omap] in *; [by destruct Ho as [Ho%elem_of_nil|]|].
  apply IH. cbn [read_answer valid_answer] in *. destruct a as [o'|m]; [|done]. destruct (reader_validate r name o'); cbn [is_ok] in Ho; [|done]. cbn [snd] in *.
  destruct (decide (observationDigest o' = observationDigest o)) as [E|E]; [right; rewrite E, lookup_insert_eq; eauto|].
  rewrite lookup_insert_ne by done. destruct Ho as [[->|Ho]%elem_of_cons|Ho]; [done|by left|by right].
Qed.

(** What a read reports: all valid answers have one digest, they are a quorum, and the
    evidence follows from the first of them. *)
Definition quorum_read (r : Reader) (answers : list (string * res FinalizedObservation)) (q : Quote) (x : ReadResult) : Prop :=
  exists first, first ∈ omap (valid_answer r) answers /\
    Forall (fun o => observationDigest o = rr_ObservationDigest x) (omap (valid_answer r) answers) /\
    rd_quorum r <= Z.of_nat (length (omap (valid_answer r) answers)) /\ EvidenceForQuote (fo_Directory first) q = Ok (rr_Evidence x) /\
    rr_DirectoryRoot x = ob_Root (fo_Directory first) /\ rr_DirectoryVersion x = ob_Version (fo_Directory first) /\
    rr_Providers x = merge_sort String.le (map fo_Provider (omap (valid_answer r) answers)).

Lemma ReadEvidence_quorum r answers q now x : ReadEvidence r answers q now = Ok x -> quorum_read r answers q x.
Proof.
  unfold ReadEvidence. pose proof (read_answers_groups r answers) as Hg. pose proof (read_answers_keys r answers) as Hk.
  destruct (read_answers r answers) as [failures groups]. cbn [snd] in *. destruct (map_to_list groups) as [|[d l] [|]] eqn:E; [done| |by destruct l].
  assert (groups = {[d := l]}) as ->.
  { rewrite <- (list_to_map_to_list groups), E. done. }
  destruct l as [|first l]; [done|]. intros (Hq & Hx)%check_ok_iff. apply try_ok_iff in Hx as (e & He & [= <-]).
  assert (Hd : Forall (fun o => observationDigest o = d) (omap (valid_answer r) answers)).
  { apply Forall_forall. intros o [y Ho]%Hk. by apply lookup_singleton_Some in Ho as [-> _]. }
  specialize (Hg d (first :: l)). rewrite lookup_singleton_eq in Hg. specialize (Hg eq_refl).
  assert (filter (fun o => observationDigest o = d) (omap (valid_answer r) answers) = omap (valid_answer r) answers) as Ef.
  { clear -Hd. induction Hd as [|o os Ho _ IH]; [done|]. rewrite filter_cons, decide_True by done. by rewrite IH. }
  rewrite Ef in Hg. exists first. cbn [sealed rr_Evidence rr_DirectoryRoot rr_DirectoryVersion rr_Providers rr_ObservationDigest].
  rewrite <- Hg in Hd |- *. split_and!; try done; [by left|by apply Z.leb_le].
Qed.

Lemma reader_names_nodup names : forall seen out, fold_res reader_name seen names = Ok out ->
  NoDup names /\ forall name, name ∈ names -> str_map ascii_lower name ∉ seen.
Proof.
  induction names as [|name names IH]; intros seen out Hf; [split; [constructor|intros name Hn; by apply elem_of_nil in Hn]|].
  rewrite fold_res_cons in Hf. unfold reader_name at 1 in Hf. destruct (providerName name); [|done].
  destruct (bool_decide (str_map ascii_lower name ∈ seen)) eqn:Es; [done|]. cbn [negb] in Hf. apply bool_decide_eq_false in Es.
  apply IH in Hf as [Hn Hs]. split.
  - constructor; [|done]. intros Hin. apply (Hs name Hin). set_solver.
  - intros x [->|Hx]%elem_of_cons; [done|]. intros Hin. apply (Hs x Hx). set_solver.
Qed.

Lemma NewReader_ok chainID directory codeHash sources quorum r : NewReader chainID directory codeHash sources quorum = Ok r ->
  NoDup (rd_sources r) /\ 2 <= rd_quorum r.
Proof.
  unfold NewReader. intros (Hc & Hr)%check_ok_iff. apply try_ok_iff in Hr as (names & Hn & [= <-]). apply reader_names_nodup in Hn as [Hn _].
  to_prop. cbn. split; [done|lia].
Qed.

(** The providers behind a read: sources of the reader, all different. *)
Lemma valid_names r answers : sublist (map fo_Provider (omap (valid_answer r) answers)) (map fst answers).
Proof.
  induction answers as [|[name a] answers IH]; [constructor|]. cbn [omap list_omap]. destruct (valid_answer r (name, a)) as [o|] eqn:Ev.
  - apply valid_answer_Some in Ev as (_ & _ & <-). cbn [map fst]. by apply sublist_skip.
  - cbn [map fst]. by apply sublist_cons.
Qed.

Lemma quorum_providers r answers : NoDup (rd_sources r) -> map fst answers ≡ₚ rd_sources r ->
  NoDup (map fo_Provider (omap (valid_answer r) answers)) /\ Forall (fun p => p ∈ rd_sources r) (map fo_Provider (omap (valid_answer r) answers)).
Proof.
  intros Hn Hp. rewrite <- Hp in Hn. pose proof (valid_names r answers) as Hs. split; [by eapply sublist_NoDup|].
  apply Forall_forall. intros p Hin. rewrite <- Hp. by eapply elem_of_submseteq, sublist_submseteq.
Qed.

(** ** The tables after any sequence of records *)

(** What the sources answered and the result that was given to [Record]. *)
Record Reading := mkReading { rg_answers : list (string * res FinalizedObservation); rg_result : ReadResult }.

Definition observations (r : Reader) (x : Reading) : list FinalizedObservation := omap (valid_answer r) (rg_answers x).

(** A read of the reader [r]: every source is asked once. *)
Definition read_of (r : Reader) (x : Reading) : Prop :=
  exists q now, map fst (rg_answers x) ≡ₚ rd_sources r /\ Forall (fun o => observation_typed (fo_Directory o)) (observations r x) /\
    ReadEvidence r (rg_answers x) q now = Ok (rg_result x).

Inductive records (r : Reader) : list Reading -> DirectoryTables -> Prop :=
| records_none : records r [] empty_tables
| records_step xs t x storedAt commit t' out : records r xs t -> read_of r x -> RecordResult t (rg_result x) storedAt commit = (t', out) ->
    records r (x :: xs) t'.

(** Every row comes from a recorded read. *)
Record tables_from (xs : list ReadResult) (t : DirectoryTables) : Prop := {
  tf_snapshots : forall d row, dt_snapshots t !! d = Some row -> exists x, x ∈ xs /\ rr_ObservationDigest x = d /\ row = snapshot_row x;
  tf_evidence : forall d s r e, dt_evidence t !! (d, s, r) = Some e ->
    exists x, x ∈ xs /\ rr_ObservationDigest x = d /\ rr_Evidence x = e /\ de_SellerID e = s /\ de_ResourceID e = r;
  tf_heads : forall key head, dt_heads t !! key = Some head -> is_Some (dt_snapshots t !! hw_digest head) }.

Lemma tables_weaken x xs t : tables_from xs t -> tables_from (x :: xs) t.
Proof.
  intros [Hs He Hh]. split; [| |done].
  - intros d row (y & Hy & Ey)%Hs. exists y. split; [by right|done].
  - intros d s r e (y & Hy & Ey)%He. exists y. split; [by right|done].
Qed.

Lemma insert_snapshot_from x xs t t' : tables_from (x :: xs) t -> insert_snapshot t x = Ok t' -> tables_from (x :: xs) t' /\ is_Some (dt_snapshots t' !! rr_ObservationDigest x).
Proof.
  intros Ht. unfold insert_snapshot. intros (_ & Hi)%check_ok_iff. destruct (dt_snapshots t !! rr_ObservationDigest x) eqn:E.
  { injection Hi as <-. by rewrite E. }
  apply check_ok_iff in Hi as [_ [= <-]]. cbn. rewrite lookup_insert_eq. split; [|done]. destruct Ht as [Hs He Hh]. split; cbn; [|done|].
  - intros d row Hd. destruct (decide (d = rr_ObservationDigest x)) as [->|].
    + rewrite lookup_insert_eq in Hd. injection Hd as <-. exists x. split; [by left|done].
    + rewrite lookup_insert_ne in Hd by done. by apply Hs.
  - intros key head [row Hd]%Hh. destruct (decide (hw_digest head = rr_ObservationDigest x)) as [->|]; [rewrite lookup_insert_eq; by eexists|].
    rewrite lookup_insert_ne by done. by eexists.
Qed.

Lemma insert_evidence_from x xs t t' : tables_from (x :: xs) t -> insert_evidence t x = Ok t' ->
  tables_from (x :: xs) t' /\ dt_snapshots t' = dt_snapshots t.
Proof.
  intros [Hs He Hh]. unfold insert_evidence. intros (_ & Hi)%check_ok_iff. destruct (dt_evidence t !! _); injection Hi as <-; [by split|].
  split; [|done]. split; cbn; [done| |done]. intros d s r e Hd. unfold evidence_key in Hd.
  destruct (decide ((d, s, r) = (rr_ObservationDigest x, de_SellerID (rr_Evidence x), de_ResourceID (rr_Evidence x)))) as [E|E].
  - rewrite E, lookup_insert_eq in Hd. injection Hd as <-. injection E as -> -> ->. exists x. split; [by left|done].
  - rewrite lookup_insert_ne in Hd by done. by apply He.
Qed.

Lemma advance_head_from x xs t at_ t' : tables_from xs t -> is_Some (dt_snapshots t !! rr_ObservationDigest x) -> advance_head t x at_ = Ok t' -> tables_from xs t'.
Proof.
  intros [Hs He Hh] Hx. unfold advance_head. set (next := mkDirectoryTables _ _ _). assert (Hnext : tables_from xs next).
  { split; [done|done|]. intros key head Hk. cbn in Hk. destruct (decide (key = (rr_ChainID x, rr_DirectoryContract x))) as [->|].
    - rewrite lookup_insert_eq in Hk. by injection Hk as <-.
    - rewrite lookup_insert_ne in Hk by done. by eapply Hh. }
  destruct (dt_heads t !! _) as [head|]; [|by intros [= <-]]. destruct (_ <? _); [by intros [= <-]|]. intros (_ & [= <-])%check_ok_iff. done.
Qed.

Lemma records_from r xs t : records r xs t -> tables_from (map rg_result xs) t /\ Forall (read_of r) xs.
Proof.
  induction 1 as [|xs t x storedAt commit t' out _ [IH Hall] Hx Hr]; [split; [split; cbn; intros *; by rewrite lookup_empty|constructor]|].
  split; [|by constructor]. cbn [map]. apply (tables_weaken (rg_result x)) in IH. revert Hr IH. generalize (rg_result x) (map rg_result xs).
  clear x xs Hx Hall. intros x xs Hr IH. unfold RecordResult in Hr.
  destruct (validateResult x) as [[]|]; [|by injection Hr as <- _]. destruct (negb _ && _); [|by injection Hr as <- _].
  destruct (insert_snapshot t x) as [t1|] eqn:E1; [|by injection Hr as <- _]. destruct (insert_evidence t1 x) as [t2|] eqn:E2; [|by injection Hr as <- _].
  destruct (advance_head t2 x storedAt) as [t3|] eqn:E3; [|by injection Hr as <- _]. destruct commit; injection Hr as <- _; [done|].
  apply (insert_snapshot_from x xs) in E1 as [F1 S1]; [|done]. apply (insert_evidence_from x xs) in E2 as [F2 S2]; [|done]. rewrite <- S2 in S1.
  exact (advance_head_from x _ t2 storedAt t3 F2 S1 E3).
Qed.
End Quorum.

(** ** What intake accepts *)

Section Intake.
Context `{Crypto} `{!CryptoLaws} `{Abi} `{OriginCheck} `{SafeLib}.

(** Who stands behind evidence: a read of the reader in which at least a quorum of
    different sources reported one and the same snapshot, and no source another. *)
Definition backed (r : Reader) (x : Reading) : Prop :=
  Forall (fun o => observationDigest o = rr_ObservationDigest (rg_result x)) (observations r x) /\
  NoDup (map fo_Provider (observations r x)) /\ Forall (fun p => p ∈ rd_sources r) (map fo_Provider (observations r x)) /\
  rd_quorum r <= Z.of_nat (length (map fo_Provider (observations r x))).

(** The terms of a quote in the manifest, with the key that signs for its seller. *)
Record published_terms (m : Manifest) (q : Quote) (signer : string) : Prop := {
  pt_seller : exists s, s ∈ mf_Sellers m /\ se_SellerID s = q_SellerID q /\ se_PayoutAddress s = q_PayTo q /\ se_AckAuthority s = q_AckAuthority q /\
    hex_bytes (se_QuoteSigningKey s) = signer;
  pt_resource : exists r, r ∈ mf_Resources m /\ re_SellerID r = q_SellerID q /\ re_ResourceID r = q_ResourceID q /\
    SetString10 (re_Price r) = SetString10 (q_AmountBaseUnits q) /\ re_VerificationSpecHash r = q_VerificationSpecHash q /\
    re_DeclaredWorkTime r = q_DeclaredWorkTime q /\ re_VerificationBudgetSeconds r = q_VerificationBudgetSeconds q }.

Lemma read_backed r x m d a : NoDup (rd_sources r) -> Compile m d = Ok a -> manifest_typed m -> rr_DirectoryRoot (rg_result x) = af_MerkleRoot a -> read_of r x ->
  backed r x /\ (offered m (rr_Evidence (rg_result x)) \/ exists o, o ∈ observations r x /\ collide_in (release_texts m) (observation_texts (fo_Directory o))).
Proof.
  intros Hn Hc Hm Hroot (q & now & Hp & Ht & Hr). destruct (ReadEvidence_quorum r _ q now _ Hr) as (o & Ho & Hd & Hq & He & Er & _ & _).
  destruct (quorum_providers r _ Hn Hp) as [Hnd Hin]. split.
  - unfold backed. rewrite length_map. by split_and!.
  - rewrite Forall_forall in Ht. destruct (evidence_offered m d a (fo_Directory o) q (rr_Evidence (rg_result x))) as [?|?]; [done|done|by apply Ht|congruence|done|by left|].
    right. by exists o.
Qed.

Lemma intake_signed q now contract expected e signature digest signer : ValidateForIntake q now contract expected e signature = Ok (digest, signer) ->
  evidence_matches q expected e = true /\ Quote_Digest q contract = Ok digest /\ RecoverSigner q contract signature = Ok signer /\
  signer = hex_bytes (de_QuoteSigningKey e) /\ 0 <= Unix now < q_QuoteExpiresAt q.
Proof.
  unfold ValidateForIntake. intros ([] & _ & Hv)%try_ok_iff. apply check_ok_iff in Hv as [Ht Hv]. apply check_ok_iff in Hv as [Hm Hv].
  apply try_ok_iff in Hv as (s & Hs & Hv). destruct (quote_address _) as [want|] eqn:Ek; [|done]. apply check_ok_iff in Hv as [Hw Hv].
  apply try_ok_iff in Hv as (d & Hd & [= <- <-]). apply bool_decide_eq_true in Hw as ->. apply quote_address_ok in Ek as [_ ->]. to_prop.
  split_and!; try done; lia.
Qed.

(** C38: A quote that intake accepts, on evidence that the tables hold after any sequence
    of records of quorum reads, is signed by the key of the seller in the published
    manifest and has the manifest's payout address, acknowledgement authority, price and
    work terms; the evidence was backed by a quorum of different observers, and said that
    the seller is active and its key not revoked. Or a text hashed to verify an
    observation behind the evidence collides with one hashed for the release: a leaf's
    text, a pair of the tree or of a proof. *)
Theorem intake_quote_published chainID directory codeHash sources quorum r m d a xs t resolver q at_ e contract now expected signature digest signer :
  NewReader chainID directory codeHash sources quorum = Ok r -> Compile m d = Ok a -> manifest_typed m ->
  records r xs t -> Forall (fun x => rr_DirectoryRoot (rg_result x) = af_MerkleRoot a) xs ->
  ResolveEvidence resolver t q at_ = Ok (contract, e) -> ValidateForIntake q now contract expected e signature = Ok (digest, signer) ->
  RecoverSigner q contract signature = Ok signer /\
  exists x, x ∈ xs /\ backed r x /\ de_Active (rr_Evidence (rg_result x)) = true /\ de_QuoteKeyRevoked (rr_Evidence (rg_result x)) = false /\
    (published_terms m q signer \/ exists o, o ∈ observations r x /\ collide_in (release_texts m) (observation_texts (fo_Directory o))).
Proof.
  intros Hr Hc Hm Hrec Hroots Hres Hv. apply NewReader_ok in Hr as [Hn _]. apply records_from in Hrec as [[_ Hev _] Hreads].
  unfold ResolveEvidence in Hres. apply try_ok_iff in Hres as (_ & _ & Hres). apply check_ok_iff in Hres as [_ Hres].
  destruct (current_head t _ _) as [[head snapshot]|]; [|done]. apply check_ok_iff in Hres as [_ Hres]. apply check_ok_iff in Hres as [_ Hres].
  destruct (dt_evidence t !! _) as [stored|] eqn:Es; [|done]. injection Hres as <- <-. apply Hev in Es as (res & Hx & _ & <- & Eseller & Eresource). apply list_elem_of_fmap in Hx as (x & -> & Hx).
  rewrite Forall_forall in Hroots, Hreads. destruct (read_backed r x m d a Hn Hc Hm (Hroots x Hx) (Hreads x Hx)) as [Hb Hoff].
  apply intake_signed in Hv as (Hmatch & _ & Hsig & -> & _). unfold evidence_matches in Hmatch. to_prop. cbn in Hmatch. destruct_and!. split; [done|].
  exists x. split_and!; try done. destruct Hoff as [[(s & ? & ? & ? & ? & ? & _) (rs & ? & ? & ? & ? & ? & ? & ?)]|]; [left|by right]. split.
  - exists s. cbn. split_and!; congruence.
  - exists rs. split_and!; congruence.
Qed.
End Intake.

(** ** One resource at a time *)

Section Displacement.
Context `{Crypto}.

(** The tables after the first record of a snapshot that becomes the head. *)
Definition with_record (t : DirectoryTables) (x : ReadResult) (storedAt : time) : DirectoryTables :=
  mkDirectoryTables (<[rr_ObservationDigest x := snapshot_row x]> (dt_snapshots t))
    (<[evidence_key (rr_ObservationDigest x) (rr_Evidence x) := rr_Evidence x]> (dt_evidence t))
    (<[(rr_ChainID x, rr_DirectoryContract x) :=
       mkHeadRow (rr_ObservationDigest x) (rr_DirectoryVersion x) (rr_FinalizedBlockNumber x) (pg_time storedAt)]> (dt_heads t)).

Lemma record_new t x storedAt t' :
  (forall s r, dt_evidence t !! (rr_ObservationDigest x, s, r) = None) -> dt_snapshots t !! rr_ObservationDigest x = None ->
  (forall head, dt_heads t !! (rr_ChainID x, rr_DirectoryContract x) = Some head -> hw_block head <= rr_FinalizedBlockNumber x) ->
  RecordResult t x storedAt None = (t', Ok tt) -> t' = with_record t x storedAt.
Proof.
  intros Hfresh Hnew Hhead Hr. unfold RecordResult in Hr. destruct (validateResult x) as [[]|]; [|done].
  destruct (negb _ && _); [|done]. destruct (insert_snapshot t x) as [t1|] eqn:E1; [|done]. destruct (insert_evidence t1 x) as [t2|] eqn:E2; [|done].
  destruct (advance_head t2 x storedAt) as [t3|] eqn:E3; [|done]. injection Hr as <-.
  unfold insert_snapshot in E1. rewrite Hnew in E1. apply check_ok_iff in E1 as [_ E1]. apply check_ok_iff in E1 as [_ [= <-]].
  unfold insert_evidence in E2. apply check_ok_iff in E2 as [_ E2]. cbn [dt_evidence] in E2. unfold evidence_key in E2. rewrite Hfresh in E2. injection E2 as <-.
  unfold advance_head in E3. cbn [dt_heads] in E3. destruct (dt_heads t !! _) as [head|] eqn:Eh; [|by injection E3 as <-].
  specialize (Hhead head eq_refl). destruct (Z.ltb_spec (rr_FinalizedBlockNumber x) (hw_block head)); [lia|]. by apply check_ok_iff in E3 as [_ [= <-]].
Qed.

Lemma with_record_taken t x storedAt y : rr_ChainID y = rr_ChainID x -> rr_DirectoryContract y = rr_DirectoryContract x ->
  rr_FinalizedBlockNumber y = rr_FinalizedBlockNumber x -> block_taken (with_record t x storedAt) y = true.
Proof.
  intros Hc Hd Hb. unfold block_taken. apply existsb_exists. exists (rr_ObservationDigest x, snapshot_row x). cbn [dt_snapshots with_record]. split.
  - apply list_elem_of_In, elem_of_map_to_list, lookup_insert_eq.
  - cbn. rewrite Hc, Hd, Hb, !Z.eqb_refl. by rewrite bool_decide_true.
Qed.

(** A recorded read serves the one seller and resource it was made for. Recording a
    read of a new snapshot makes it the head, and every quote for another seller or
    resource is refused from then on, whatever was recorded for it before; at a block that
    already has a snapshot the read is refused itself. So quotes for two resources of the
    directory are never accepted on one head. *)
Theorem recording_displaces t x storedAt t' resolver q now :
  (forall s r, dt_evidence t !! (rr_ObservationDigest x, s, r) = None) -> dt_snapshots t !! rr_ObservationDigest x = None ->
  (forall head, dt_heads t !! (rr_ChainID x, rr_DirectoryContract x) = Some head -> hw_block head <= rr_FinalizedBlockNumber x) ->
  mr_chainID resolver = rr_ChainID x -> mr_directory resolver = rr_DirectoryContract x ->
  (q_SellerID q, q_ResourceID q) <> (de_SellerID (rr_Evidence x), de_ResourceID (rr_Evidence x)) ->
  RecordResult t x storedAt None = (t', Ok tt) ->
  is_ok (ResolveEvidence resolver t' q now) = false /\
  forall y at_ commit, rr_ChainID y = rr_ChainID x -> rr_DirectoryContract y = rr_DirectoryContract x ->
    rr_FinalizedBlockNumber y = rr_FinalizedBlockNumber x -> dt_snapshots t' !! rr_ObservationDigest y = None ->
    exists m, RecordResult t' y at_ commit = (t', Err m).
Proof.
  intros Hfresh Hnew Hhead Hchain Hdir Hq Hr. rewrite (record_new t x storedAt t' Hfresh Hnew Hhead Hr). split.
  - unfold ResolveEvidence. destruct (Quote_Validate q); [|done]. destruct (bool_decide (q_ChainID q = _)); [|done].
    unfold current_head. cbn [dt_heads dt_snapshots with_record]. rewrite Hchain, Hdir, lookup_insert_eq. cbn [hw_digest]. rewrite lookup_insert_eq.
    destruct (_ && _); [|done]. destruct (negb _ && _); [|done]. destruct (_ =? _); [|done]. cbn [hw_digest dt_evidence with_record]. unfold evidence_key.
    rewrite lookup_insert_ne by congruence. by rewrite Hfresh.
  - intros y at_ commit Hc Hd Hb Hy. unfold RecordResult. destruct (validateResult y) as [[]|m]; [|by exists m].
    destruct (negb _ && _); [|by eexists]. unfold insert_snapshot. destruct (snapshot_fits y); [|by eexists]. rewrite Hy, with_record_taken by done. by eexists.
Qed.
End Displacement.
