(* ===== verification/DirectoryDemo.v ===== *)
(** * A published directory and an accepted quote

    One release with a seller and two resources, read by two observers and recorded;
    the instances of the directory's theorems at it. *)
From stdpp Require Import base gmap strings list sorting.
From Stdlib Require Import ZArith Lia Ascii.
From S2P Require Import Prelude GoText GoJSON Amounts Crypto Envelope GovAction GovActionTheorems SafeTx SellerQuote Directory DirectoryTheorems DirectoryReader QuoteIntake.

Open Scope Z_scope.

Section DirectoryDemo.
#[local] Existing Instance ToyCrypto.
#[local] Existing Instance ToyCryptoLaws.
#[local] Existing Instance ToyAbi.

(** Signatures that carry the address of their signer. *)
#[local] Instance AddressSignatures : SafeLib := {|
  ecdsa_recover _ sig := Ok (String.substring 0 20 sig); ecdsa_values _ _ _ := true; exec_pack _ _ _ := ""; exec_unpack _ := None |}.
#[local] Instance AnyOrigin : OriginCheck := {| validOrigin _ := true |}.

Definition demo_seller : Seller := mkSeller (demo_hash "1") demo_provider demo_buyer demo_asset 1 "https://seller.example" 1.
Definition demo_resource (c price : string) : Resource := mkResource (demo_hash "1") (demo_hash c) price true (demo_hash "7") 60 120.
Definition usdc : AssetBinding := mkAssetBinding BaseSepoliaUSDC "USDC" 6 (demo_hash "8").
Definition demo_deployment : deploymentRecord :=
  mkDeployment "release-1" BaseSepoliaNetwork 84532 (str_repeat "a" 40) (demo_hash "9") demo_buyer usdc [("service_directory", demo_contract)].

Definition manifest_at (locations : list string) : Manifest :=
  mkManifest 1 "directory-1" BaseSepoliaNetwork 84532 (mkSourceDeployment "release-1" (str_repeat "a" 40)) demo_contract (demo_hash "9") demo_buyer 1
    usdc 1 0 zero_hash 2 0 (demo_hash "a") "5" locations [demo_seller] [demo_resource "2" "250"; demo_resource "3" "900"] false.
Definition demo_manifest : Manifest := manifest_at ["ar://" +:+ str_repeat "A" 43; CanonicalIPFSLocation (manifest_at [])].

Definition no_bound : BoundAction := mkBoundAction "" "" 0 "" "" "" (approve_action demo_manifest (mkDirectoryProposal 0 0 "" "" "" "" 0 0)).
Definition no_artifact : Artifact :=
  mkArtifact 0 demo_manifest "" "" "" "" [] (mkReleaseProposal (mkDirectoryProposal 0 0 "" "" "" "" 0 0) "" "" "" "" "")
    (mkPublisherBinding "" "" "" 0 0 "" "" "" "" 0) no_bound false.
Definition demo_artifact : Artifact := Eval vm_compute in match Compile demo_manifest (Ok demo_deployment) with Ok a => a | Err _ => no_artifact end.
Lemma demo_compiled : Compile demo_manifest (Ok demo_deployment) = Ok demo_artifact.
Proof. vm_compute. reflexivity. Qed.

Definition leaf_proof (kind resource : string) : list string :=
  match find (fun l => bool_decide (cl_Kind l = kind) && bool_decide (cl_ResourceID l = resource)) (af_Leaves demo_artifact) with
  | Some l => cl_Proof l | None => [] end.

Definition demo_observation (block : Z) (r : Resource) : DirectoryObservation :=
  mkDirectoryObservation demo_contract block 1 (af_MerkleRoot demo_artifact) (seller_leaf demo_seller) (Some (leaf_proof "seller" "")) (resource_leaf r)
    (Some (leaf_proof "resource" (re_ResourceID r))) false false.

Definition demo_quote (r : Resource) : Quote :=
  mkQuote (demo_hash "b") (demo_hash "1") (re_ResourceID r) 1 1 "84532" demo_asset (re_Price r) demo_provider demo_buyer (demo_hash "7") 60 120
    2000 (demo_hash "c").

Definition demo_answers (block : Z) (r : Resource) : list (string * res FinalizedObservation) :=
  map (fun name => (name, Ok (mkFinalizedObservation name 84532 demo_contract (demo_hash "d") block (demo_hash "e") (demo_observation block r)))) ["rpc-a"; "rpc-b"].

Definition demo_reader : Reader := mkReader 84532 demo_contract (demo_hash "d") ["rpc-a"; "rpc-b"] 2.
Definition at_unix (s : Z) : time := time_of_unix s.
Definition no_result : ReadResult :=
  mkReadResult (mkDirectoryEvidence false 0 "" "" "" 0 "" "" "" "" 0 0 false false) 0 "" 0 "" 0 "" "" 0 [] ∅ false "".
Definition demo_read (block : Z) (r : Resource) (s : Z) : ReadResult :=
  match ReadEvidence demo_reader (demo_answers block r) (demo_quote r) (at_unix s) with Ok x => x | Err _ => no_result end.

Definition first_resource : Resource := demo_resource "2" "250".
Definition second_resource : Resource := demo_resource "3" "900".
Definition first_read : ReadResult := Eval vm_compute in demo_read 50 first_resource 1000.
Definition second_read : ReadResult := Eval vm_compute in demo_read 51 second_resource 1010.

Lemma first_read_ok : ReadEvidence demo_reader (demo_answers 50 first_resource) (demo_quote first_resource) (at_unix 1000) = Ok first_read.
Proof. vm_compute. reflexivity. Qed.

Definition first_tables : DirectoryTables := (RecordResult empty_tables first_read (at_unix 1001) None).1.
Lemma first_recorded : RecordResult empty_tables first_read (at_unix 1001) None = (first_tables, Ok tt).
Proof. rewrite (surjective_pairing (RecordResult _ _ _ _)). refine (f_equal2 pair eq_refl _). vm_compute. reflexivity. Qed.
Definition second_tables : DirectoryTables := (RecordResult first_tables second_read (at_unix 1011) None).1.
Lemma second_recorded : RecordResult first_tables second_read (at_unix 1011) None = (second_tables, Ok tt).
Proof. rewrite (surjective_pairing (RecordResult _ _ _ _)). refine (f_equal2 pair eq_refl _). vm_compute. reflexivity. Qed.

Definition demo_resolver : MaterializedResolver := mkResolver 84532 demo_contract Minute 0.
Definition demo_terms_expected : ExpectedTerms := mkExpectedTerms (demo_hash "b") 1 "84532" demo_asset.
Definition demo_quote_signature : string := "0x" +:+ str_repeat "a" 40 +:+ str_repeat "0" 90.

Definition resolved : string * DirectoryEvidence := Eval vm_compute in
  match ResolveEvidence demo_resolver first_tables (demo_quote first_resource) (at_unix 1005) with Ok x => x | Err _ => ("", rr_Evidence no_result) end.
Lemma demo_resolved : ResolveEvidence demo_resolver first_tables (demo_quote first_resource) (at_unix 1005) = Ok (resolved.1, resolved.2).
Proof. vm_compute. reflexivity. Qed.
Definition accepted : string * string := Eval vm_compute in
  match ValidateForIntake (demo_quote first_resource) (at_unix 1006) (fst resolved) demo_terms_expected (snd resolved) demo_quote_signature with
  | Ok x => x | Err _ => ("", "") end.
Lemma demo_accepted :
  ValidateForIntake (demo_quote first_resource) (at_unix 1006) resolved.1 demo_terms_expected resolved.2 demo_quote_signature = Ok (accepted.1, accepted.2).
Proof. vm_compute. reflexivity. Qed.

(** ** The theorems at the demonstration *)

Lemma quote_digest_binds_witness : (demo_quote first_resource = demo_quote first_resource /\ demo_contract = demo_contract) \/
  collide_in (quote_texts (demo_quote first_resource) demo_contract) (quote_texts (demo_quote first_resource) demo_contract).
Proof.
  apply (quote_digest_binds (demo_quote first_resource) demo_contract (demo_quote first_resource) demo_contract accepted.1).
  1,2: vm_compute; repeat split; discriminate.
  1,2: vm_compute; reflexivity.
Defined.

Definition demo_inputs : list leafInput := match leaf_inputs [demo_seller] [first_resource; second_resource] with Ok l => l | Err _ => [] end.
Lemma merkle_terminates_witness : exists root proofs, merkle_loop 9 (first_layer demo_inputs) ∅ = ([root], proofs) /\
  merkle_loop 2 (first_layer demo_inputs) ∅ = ([root], proofs) /\ nd_indexes root = seq 0 (length demo_inputs) /\
  forall i, (length (default [] (proofs !! i)) <= 2)%nat.
Proof.
  apply (merkle_terminates demo_inputs 2 9).
  - replace (length demo_inputs) with 3%nat by (vm_compute; reflexivity). cbn. lia.
  - lia.
Defined.

Definition demo_leaf : CompiledLeaf := default (mkCompiledLeaf "" "" "" "" []) (head (af_Leaves demo_artifact)).
Lemma compiled_leaves_verify_witness :
  merkle_Verify (dp_NewRoot (rp_Directory (af_Proposal demo_artifact))) (hex_bytes (cl_Hash demo_leaf)) (cl_Proof demo_leaf) = Ok tt.
Proof.
  apply (compiled_leaves_verify demo_manifest (Ok demo_deployment) demo_artifact demo_leaf demo_compiled); [vm_compute; left|].
  apply (bool_decide_eq_false (zero_hash ∈ dp_NewRoot (rp_Directory (af_Proposal demo_artifact)) :: cl_Proof demo_leaf)). vm_compute. reflexivity.
Defined.

Lemma demo_manifest_typed : manifest_typed demo_manifest.
Proof. split; repeat constructor; cbn; unfold is_uint64, MaxUint64; cbn; lia. Qed.

Definition first_reading : Reading := mkReading (demo_answers 50 first_resource) first_read.

Lemma demo_records : records demo_reader [first_reading] first_tables.
Proof.
  apply (records_step demo_reader [] empty_tables first_reading (at_unix 1001) None first_tables (Ok tt)); [constructor| |apply first_recorded].
  exists (demo_quote first_resource), (at_unix 1000). split_and!; [done| |apply first_read_ok]. unfold observations, first_reading. cbn [rg_answers].
  replace (omap (valid_answer demo_reader) (demo_answers 50 first_resource)) with
    (map (fun name => mkFinalizedObservation name 84532 demo_contract (demo_hash "d") 50 (demo_hash "e") (demo_observation 50 first_resource)) ["rpc-a"; "rpc-b"])
    by (vm_compute; reflexivity).
  repeat constructor; cbn; unfold is_uint64, MaxUint64; cbn; lia.
Qed.

Lemma demo_roots : Forall (fun x => rr_DirectoryRoot (rg_result x) = af_MerkleRoot demo_artifact) [first_reading].
Proof. constructor; [vm_compute; reflexivity|constructor]. Qed.

Lemma intake_quote_published_witness :
  RecoverSigner (demo_quote first_resource) resolved.1 demo_quote_signature = Ok accepted.2 /\
  exists x, x ∈ [first_reading] /\ backed demo_reader x /\ de_Active (rr_Evidence (rg_result x)) = true /\
    de_QuoteKeyRevoked (rr_Evidence (rg_result x)) = false /\
    (published_terms demo_manifest (demo_quote first_resource) accepted.2 \/
     exists o, o ∈ observations demo_reader x /\ collide_in (release_texts demo_manifest) (observation_texts (fo_Directory o))).
Proof.
  apply (intake_quote_published 84532 demo_contract (demo_hash "d") ["rpc-a"; "rpc-b"] 2 demo_reader demo_manifest (Ok demo_deployment) demo_artifact
    [first_reading] first_tables demo_resolver (demo_quote first_resource) (at_unix 1005) resolved.2 resolved.1 (at_unix 1006) demo_terms_expected
    demo_quote_signature accepted.1 accepted.2).
  - vm_compute. reflexivity.
  - apply demo_compiled.
  - apply demo_manifest_typed.
  - apply demo_records.
  - apply demo_roots.
  - apply demo_resolved.
  - apply demo_accepted.
Defined.

(** Recording a read for the second resource takes the first one's evidence away. *)
Lemma recording_displaces_witness :
  is_ok (ResolveEvidence demo_resolver second_tables (demo_quote first_resource) (at_unix 1012)) = false /\
  forall y at_ commit, rr_ChainID y = rr_ChainID second_read -> rr_DirectoryContract y = rr_DirectoryContract second_read ->
    rr_FinalizedBlockNumber y = rr_FinalizedBlockNumber second_read -> dt_snapshots second_tables !! rr_ObservationDigest y = None ->
    exists m, RecordResult second_tables y at_ commit = (second_tables, Err m).
Proof.
  apply (recording_displaces first_tables second_read (at_unix 1011) second_tables demo_resolver (demo_quote first_resource) (at_unix 1012)).
  - intros s r. destruct (records_from _ _ _ demo_records) as [[_ He _] _]. destruct (dt_evidence first_tables !! _) as [e|] eqn:E; [|reflexivity].
    apply He in E as (x & Hx & Ex & _). apply list_elem_of_singleton in Hx as ->. vm_compute in Ex. discriminate Ex.
  - vm_compute. reflexivity.
  - intros head Hh. assert (E : hw_block <$> (dt_heads first_tables !! (rr_ChainID second_read, rr_DirectoryContract second_read)) = Some 50) by (vm_compute; reflexivity).
    rewrite Hh in E. injection E as ->. vm_compute. discriminate.
  - vm_compute. reflexivity.
  - vm_compute. reflexivity.
  - intros [= E].
  - apply second_recorded.
Defined.
End DirectoryDemo.
