(* ===== verification/Leadership.v ===== *)
(** * Leadership of the controlled effects ([internal/ascpleadership/leadership.go])

    One leader per organisation and epoch: effects are admitted under the active epoch,
    a drain stops admission, and the epoch advances only when every admitted effect is
    resolved and a promotion run is ready. The tables are those of migrations 0017, 0018
    and 0031, with their triggers and CHECK constraints; each takes the organisation's
    advisory lock, so a transaction is one step that commits or leaves the tables as they
    were. A call that runs several transactions ([FenceSink], [BeginDrain],
    [BeginPromotion]) is given what everyone else did to the tables in between. *)
From stdpp Require Import base gmap strings list sorting.
From Stdlib Require Import ZArith Lia Ascii.
From S2P Require Import Prelude GoText GoJSON.

Open Scope Z_scope.

Definition ErrLeadershipInvalid : error := "invalid ASCP leadership input".
Definition ErrLeadershipNotFound : error := "ASCP leadership organization not found".
Definition ErrEpochChanged : error := "ASCP leadership epoch changed".
Definition ErrLeadershipConflict : error := "ASCP leadership state conflict".
(** What PostgreSQL raises: a failed CHECK or trigger, a duplicate key, a missing row. *)
Definition pg_check_violation : error := "check violation".
Definition pg_unique_violation : error := "unique violation".

Definition maxEpoch : Z := 2 ^ 63 - 1.

Inductive LeadershipState := Active | Draining.
Inductive PromotionState := PromotionDraining | PromotionReady | PromotionCutover | PromotionComplete.
Inductive EffectState := InFlight | Completed | Abandoned.

#[export] Instance LeadershipState_eq_dec : EqDecision LeadershipState.
Proof. solve_decision. Defined.
#[export] Instance PromotionState_eq_dec : EqDecision PromotionState.
Proof. solve_decision. Defined.
#[export] Instance EffectState_eq_dec : EqDecision EffectState.
Proof. solve_decision. Defined.
#[export] Instance LeadershipState_countable : Countable LeadershipState.
Proof.
  refine (inj_countable' (fun s => match s with Active => true | Draining => false end) (fun b => if b then Active else Draining) _).
  by intros [].
Defined.

Definition SinkLegacy : string := "LEGACY_CONTROLLED_EFFECT".
Definition controlledSinks : list string :=
  ["SIGNER_ISSUANCE"; "VERIFIER_ATTESTATION"; "KEEPER_RELAY"; "SELLER_PROXY_EGRESS"; "OUTBOX_DISPATCH"; "CHECKPOINT_WRITE"].

Definition validSink (sink : string) (legacy : bool) : bool :=
  (legacy && bool_decide (sink = SinkLegacy)) || bool_decide (sink ∈ controlledSinks).

(** ** Identifiers *)

Definition rune_code (r : rune) : Z :=
  match r with
  | R1 a => code a
  | R2 a b => (code a - 192) * 64 + (code b - 128)
  | R3 a b c => (code a - 224) * 4096 + (code b - 128) * 64 + (code c - 128)
  | R4 a b c d => (code a - 240) * 262144 + (code b - 128) * 4096 + (code c - 128) * 64 + (code d - 128)
  | RBad _ => 65533
  end.

(** [unicode.IsSpace]: the White_Space property. *)
Definition unicode_IsSpace (r : Z) : bool :=
  between 9 13 r || (r =? 32) || (r =? 133) || (r =? 160) || (r =? 5760) || between 8192 8202 r || (r =? 8232) || (r =? 8233) ||
  (r =? 8239) || (r =? 8287) || (r =? 12288).

(** [unicode.IsControl]: category Cc. *)
Definition unicode_IsControl (r : Z) : bool := between 0 31 r || between 127 159 r.

Definition validOrganization (value : string) : bool :=
  (1 <=? str_len value) && (str_len value <=? 200) &&
  forallb (fun r => negb (unicode_IsSpace (rune_code r) || unicode_IsControl (rune_code r))) (runes (chars value)).

(** [^[A-Za-z0-9][A-Za-z0-9._:@/-]{0,127}$] *)
Definition actorPattern (s : string) : bool :=
  match s with
  | EmptyString => false
  | String c r => is_alnum c && str_all (fun c => is_idch c || (code c =? 64) || (code c =? 47)) r && (str_len r <=? 127)
  end.

Definition validMutation (organizationID actor evidence : string) : bool :=
  validOrganization organizationID && actorPattern actor && hash_pattern evidence.

Definition isTemporarySchema (schema : string) : bool :=
  bool_decide (schema = "pg_temp") || String.prefix "pg_temp_" schema || String.prefix "pg_toast_temp_" schema.

(** [^[a-z_][a-z0-9_]{0,62}$] *)
Definition schemaPattern (s : string) : bool :=
  match s with
  | EmptyString => false
  | String c r =>
      (between 97 122 (code c) || (code c =? 95)) && str_all (fun c => between 97 122 (code c) || is_digit c || (code c =? 95)) r &&
      (str_len r <=? 62)
  end.

Definition schema_ok (schema : string) : bool := schemaPattern schema && negb (isTemporarySchema schema).

(** ** The tables *)

Record LeadershipRecord := mkLeadership {
  lr_OrganizationID : string; lr_Epoch : Z; lr_State : LeadershipState; lr_EvidenceDigest : string; lr_Actor : string; lr_UpdatedAt : time;
  lr_drain_transaction_id : option Z }.

Record LeadershipEvent := mkLeadershipEvent {
  le_OrganizationID : string; le_previous : option (Z * LeadershipState); le_new_epoch : Z; le_new_state : LeadershipState;
  le_EvidenceDigest : string; le_Actor : string; le_created_at : time }.

Record EffectRow := mkEffect {
  ef_OrganizationID : string; ef_Epoch : Z; ef_Sink : string; ef_State : EffectState; ef_started_at : time; ef_resolved_at : option time;
  ef_resolution : option (string * string) }.

Record RejectionRow := mkRejection {
  rj_OrganizationID : string; rj_Sink : string; rj_presented_epoch : Z; rj_observed_epoch : Z; rj_observed_state : LeadershipState;
  rj_rejected_at : time }.

Record PromotionRow := mkPromotionRow {
  pw_RunID : string; pw_OrganizationID : string; pw_SourceEpoch : Z; pw_TargetEpoch : Z; pw_State : PromotionState; pw_margin_seconds : Z;
  pw_drain_evidence : string; pw_ready_evidence : option string; pw_completion_evidence : option string; pw_started_at : time;
  pw_ready_at : option time; pw_cutover_at : option time; pw_completed_at : option time }.

Record PromotionRun := mkPromotionRun {
  pn_RunID : string; pn_OrganizationID : string; pn_SourceEpoch : Z; pn_TargetEpoch : Z; pn_State : PromotionState; pn_FinalityMargin : duration;
  pn_DrainEvidenceDigest : string; pn_ReadyEvidenceDigest : string; pn_CompletionEvidenceDigest : string; pn_StartedAt : time; pn_ReadyAt : time;
  pn_CutoverAt : time; pn_CompletedAt : time }.

(** Bearer instruments and verifier attestations belong to other components, which change
    their tables as they please; of the rows joined with their organisations, leadership
    only asks whether an instrument is LIVE and until when an attestation is valid. *)
Record tables := mkTables {
  tb_epochs : gmap string LeadershipRecord; tb_events : gmap (string * Z * LeadershipState) LeadershipEvent; tb_effects : gmap string EffectRow;
  tb_rejections : gmap string RejectionRow; tb_runs : gmap (string * Z) PromotionRow; tb_bearers : list (string * bool);
  tb_attestations : list (string * option Z); tb_txid : Z }.

Definition set_epochs (t : tables) m := mkTables m (tb_events t) (tb_effects t) (tb_rejections t) (tb_runs t) (tb_bearers t) (tb_attestations t) (tb_txid t).
Definition set_events (t : tables) m := mkTables (tb_epochs t) m (tb_effects t) (tb_rejections t) (tb_runs t) (tb_bearers t) (tb_attestations t) (tb_txid t).
Definition set_effects (t : tables) m := mkTables (tb_epochs t) (tb_events t) m (tb_rejections t) (tb_runs t) (tb_bearers t) (tb_attestations t) (tb_txid t).
Definition set_rejections (t : tables) m := mkTables (tb_epochs t) (tb_events t) (tb_effects t) m (tb_runs t) (tb_bearers t) (tb_attestations t) (tb_txid t).
Definition set_runs (t : tables) m := mkTables (tb_epochs t) (tb_events t) (tb_effects t) (tb_rejections t) m (tb_bearers t) (tb_attestations t) (tb_txid t).
Definition set_instruments (t : tables) b a := mkTables (tb_epochs t) (tb_events t) (tb_effects t) (tb_rejections t) (tb_runs t) b a (tb_txid t).
Definition next_txid (t : tables) := mkTables (tb_epochs t) (tb_events t) (tb_effects t) (tb_rejections t) (tb_runs t) (tb_bearers t) (tb_attestations t) (tb_txid t + 1).

Definition no_tables : tables := mkTables ∅ ∅ ∅ ∅ ∅ [] [] 1.

(** A transaction commits or is rolled back. *)
Definition settle {A} (t : tables) (r : res (tables * A)) : tables * res A :=
  match r with Ok (t', a) => (t', Ok a) | Err e => (t, Err e) end.

(** ** Reads *)

Definition leadership_get (t : tables) (org : string) : res LeadershipRecord :=
  match tb_epochs t !! org with Some r => Ok r | None => Err ErrLeadershipNotFound end.

Definition Leadership_Get (t : tables) (org : string) : res LeadershipRecord :=
  check validOrganization org else ErrLeadershipInvalid ;; leadership_get t org.

Definition Current (t : tables) (org : string) : res Z :=
  try r := Leadership_Get t org in
  check bool_decide (lr_State r = Active) else ErrEpochChanged ;; Ok (lr_Epoch r).

Definition in_flight (org : string) (epoch : Z) (e : EffectRow) : bool :=
  bool_decide (ef_OrganizationID e = org) && (ef_Epoch e =? epoch) && bool_decide (ef_State e = InFlight).

Definition in_flight_effects (t : tables) (org : string) (epoch : Z) : gmap string EffectRow :=
  filter (fun p => in_flight org epoch p.2 = true) (tb_effects t).

Definition any_in_flight (t : tables) (org : string) (epoch : Z) : bool := negb (bool_decide (in_flight_effects t org epoch = ∅)).

(** Rows in the order of their keys, as [ORDER BY effect_id] returns them. *)
Definition InFlightEffectIDs (t : tables) (org : string) (epoch : Z) : res (list string) :=
  check validOrganization org && negb (epoch =? 0) && (epoch <=? maxEpoch) else ErrLeadershipInvalid ;;
  Ok (merge_sort String.le (map fst (map_to_list (in_flight_effects t org epoch)))).

Definition promotion_of (w : PromotionRow) : PromotionRun :=
  mkPromotionRun (pw_RunID w) (pw_OrganizationID w) (pw_SourceEpoch w) (pw_TargetEpoch w) (pw_State w) (pw_margin_seconds w * Second)
    (pw_drain_evidence w) (default "" (pw_ready_evidence w)) (default "" (pw_completion_evidence w)) (pw_started_at w)
    (default 0 (pw_ready_at w)) (default 0 (pw_cutover_at w)) (default 0 (pw_completed_at w)).

Definition loadPromotion (t : tables) (org : string) (sourceEpoch : Z) : res PromotionRun :=
  match tb_runs t !! (org, sourceEpoch) with Some w => Ok (promotion_of w) | None => Err ErrLeadershipNotFound end.

Definition Promotion (t : tables) (org : string) (sourceEpoch : Z) : res PromotionRun :=
  check validOrganization org && negb (sourceEpoch =? 0) && (sourceEpoch <? maxEpoch) else ErrLeadershipInvalid ;;
  loadPromotion t org sourceEpoch.

(** ** Constraints and triggers *)

(** The CHECK constraints of [ascp_promotion_runs]. *)
Definition opt_le (x : option time) (y : time) : bool := match x with Some x => x <=? y | None => false end.
Definition is_none {A} (x : option A) : bool := match x with None => true | Some _ => false end.
Definition opt_evidence (x : option string) : bool := match x with None => true | Some e => hash_pattern e end.

Definition promotion_row_ok (w : PromotionRow) : bool :=
  hash_pattern (pw_RunID w) && (0 <? pw_SourceEpoch w) && (pw_TargetEpoch w =? pw_SourceEpoch w + 1) && (pw_TargetEpoch w <=? maxEpoch) &&
  (1 <=? pw_margin_seconds w) && (pw_margin_seconds w <=? 3600) && hash_pattern (pw_drain_evidence w) &&
  opt_evidence (pw_ready_evidence w) && opt_evidence (pw_completion_evidence w) &&
  match pw_ready_at w with None => true | Some r => pw_started_at w <=? r end &&
  match pw_cutover_at w with None => true | Some c => opt_le (pw_ready_at w) c end &&
  match pw_completed_at w with None => true | Some c => opt_le (pw_cutover_at w) c end &&
  match pw_State w with
  | PromotionDraining => is_none (pw_ready_evidence w) && is_none (pw_ready_at w) && is_none (pw_cutover_at w) &&
                         is_none (pw_completion_evidence w) && is_none (pw_completed_at w)
  | PromotionReady => negb (is_none (pw_ready_evidence w)) && negb (is_none (pw_ready_at w)) && is_none (pw_cutover_at w) &&
                      is_none (pw_completion_evidence w) && is_none (pw_completed_at w)
  | PromotionCutover => negb (is_none (pw_ready_evidence w)) && negb (is_none (pw_ready_at w)) && negb (is_none (pw_cutover_at w)) &&
                        is_none (pw_completion_evidence w) && is_none (pw_completed_at w)
  | PromotionComplete => negb (is_none (pw_ready_evidence w)) && negb (is_none (pw_ready_at w)) && negb (is_none (pw_cutover_at w)) &&
                         negb (is_none (pw_completion_evidence w)) && negb (is_none (pw_completed_at w))
  end.

(** [count(DISTINCT sink)] of the rejections of an epoch by its successor since the cutover. *)
Definition counted_rejection (org : string) (presented observed : Z) (since : time) (r : RejectionRow) : bool :=
  bool_decide (rj_OrganizationID r = org) && (rj_presented_epoch r =? presented) && (rj_observed_epoch r =? observed) &&
  bool_decide (rj_observed_state r = Active) && (since <=? rj_rejected_at r).

Definition rejectedSinks (t : tables) (org : string) (presented observed : Z) (since : time) : gset string :=
  list_to_set (map (fun p => rj_Sink p.2)
    (List.filter (fun p => counted_rejection org presented observed since p.2) (map_to_list (tb_rejections t)))).

(** [flowops_validate_promotion_run_update] and the CHECKs, for an UPDATE of one run. *)
Definition run_moves (from to : PromotionState) : bool :=
  match from, to with
  | PromotionDraining, PromotionReady | PromotionReady, PromotionCutover | PromotionCutover, PromotionComplete => true
  | _, _ => false
  end.

Definition same_run (old new : PromotionRow) : bool :=
  bool_decide (pw_RunID old = pw_RunID new) && bool_decide (pw_OrganizationID old = pw_OrganizationID new) &&
  (pw_SourceEpoch old =? pw_SourceEpoch new) && (pw_TargetEpoch old =? pw_TargetEpoch new) &&
  (pw_margin_seconds old =? pw_margin_seconds new) && bool_decide (pw_drain_evidence old = pw_drain_evidence new) &&
  (pw_started_at old =? pw_started_at new).

Definition update_run (t : tables) (old new : PromotionRow) : res tables :=
  check same_run old new && run_moves (pw_State old) (pw_State new) else pg_check_violation ;;
  check negb (bool_decide (pw_State old = PromotionReady \/ pw_State old = PromotionCutover)) ||
        (bool_decide (pw_ready_evidence old = pw_ready_evidence new) && bool_decide (pw_ready_at old = pw_ready_at new)) else pg_check_violation ;;
  check negb (bool_decide (pw_State old = PromotionCutover)) || bool_decide (pw_cutover_at old = pw_cutover_at new) else pg_check_violation ;;
  check negb (bool_decide (pw_State old = PromotionCutover)) ||
        match pw_cutover_at old with
        | None => false
        | Some since => bool_decide (size (rejectedSinks t (pw_OrganizationID new) (pw_SourceEpoch new) (pw_TargetEpoch new) since) = 6%nat)
        end else pg_check_violation ;;
  check promotion_row_ok new else pg_check_violation ;;
  Ok (set_runs t (<[(pw_OrganizationID new, pw_SourceEpoch new) := new]> (tb_runs t))).

(** [flowops_validate_leadership_effect_insert], the sink CHECK and the view's CHECK OPTION. *)
Definition insert_effect (t : tables) (effectID : string) (e : EffectRow) : res tables :=
  match tb_epochs t !! ef_OrganizationID e with
  | None => Err pg_check_violation
  | Some r =>
      check (lr_Epoch r =? ef_Epoch e) && bool_decide (lr_State r = Active) && bool_decide (ef_State e = InFlight) else pg_check_violation ;;
      check hash_pattern effectID && validSink (ef_Sink e) true else pg_check_violation ;;
      check bool_decide (tb_effects t !! effectID = None) else pg_unique_violation ;;
      Ok (set_effects t (<[effectID := e]> (tb_effects t)))
  end.

(** [flowops_validate_leadership_effect_update]: only the resolution changes; an
    abandonment needs the draining epoch of the effect. *)
Definition resolve_effect (t : tables) (effectID : string) (old : EffectRow) (state : EffectState) (at_ : time)
    (resolution : option (string * string)) : res tables :=
  check bool_decide (ef_State old = InFlight) && negb (bool_decide (state = InFlight)) else pg_check_violation ;;
  check negb (bool_decide (state = Abandoned)) ||
        match tb_epochs t !! ef_OrganizationID old with
        | None => false
        | Some r => (lr_Epoch r =? ef_Epoch old) && bool_decide (lr_State r = Draining)
        end else pg_check_violation ;;
  Ok (set_effects t (<[effectID := mkEffect (ef_OrganizationID old) (ef_Epoch old) (ef_Sink old) state (ef_started_at old)
                                     (Some (Z.max at_ (ef_started_at old))) resolution]> (tb_effects t))).

Definition live_bearer (t : tables) (org : string) : bool :=
  existsb (fun p => bool_decide (p.1 = org) && p.2) (tb_bearers t).

(** [to_timestamp(valid_until) + margin > now]; an attestation without a validity compares
    to NULL. *)
Definition live_attestation (t : tables) (org : string) (margin : Z) (now : time) : bool :=
  existsb (fun p => bool_decide (p.1 = org) &&
    match p.2 with None => false | Some validUntil => now <? (validUntil + margin + unixToInternal) * Second end) (tb_attestations t).

(** PostgreSQL has no timestamp past the year 294276. *)
Definition attestations_readable (t : tables) (org : string) : bool :=
  forallb (fun p => negb (bool_decide (p.1 = org)) ||
    match p.2 with None => true | Some validUntil => between (-210866803200) 9224318015999 validUntil end) (tb_attestations t).
Definition pg_datetime_overflow : error := "timestamp out of range".

(** The advance of [flowops_validate_leadership_update] (migration 0031): it needs every
    effect resolved, a ready promotion run, no live instrument and no live attestation, and
    cuts the run over. *)
Definition cutover (t : tables) (dbnow : time) (old new : LeadershipRecord) : res tables :=
  let org := lr_OrganizationID old in
  check negb (bool_decide (lr_drain_transaction_id old = Some (tb_txid t))) else pg_check_violation ;;
  check negb (any_in_flight t org (lr_Epoch old)) else pg_check_violation ;;
  match tb_runs t !! (org, lr_Epoch old) with
  | None => Err pg_check_violation
  | Some w =>
      check bool_decide (pw_State w = PromotionReady) else pg_check_violation ;;
      check negb (live_bearer t org) else pg_check_violation ;;
      check attestations_readable t org else pg_datetime_overflow ;;
      check negb (live_attestation t org (pw_margin_seconds w) dbnow) else pg_check_violation ;;
      update_run t w (mkPromotionRow (pw_RunID w) (pw_OrganizationID w) (pw_SourceEpoch w) (pw_TargetEpoch w) PromotionCutover
        (pw_margin_seconds w) (pw_drain_evidence w) (pw_ready_evidence w) (pw_completion_evidence w) (pw_started_at w) (pw_ready_at w)
        (Some (lr_UpdatedAt new)) (pw_completed_at w))
  end.

Definition leadership_moves (old new : LeadershipRecord) : bool :=
  match lr_State old, lr_State new with
  | Active, Draining => lr_Epoch new =? lr_Epoch old
  | Draining, Active => lr_Epoch new =? lr_Epoch old + 1
  | _, _ => false
  end.

Definition with_drain_transaction (r : LeadershipRecord) (txid : option Z) : LeadershipRecord :=
  mkLeadership (lr_OrganizationID r) (lr_Epoch r) (lr_State r) (lr_EvidenceDigest r) (lr_Actor r) (lr_UpdatedAt r) txid.

Definition update_leadership (t : tables) (dbnow : time) (old new : LeadershipRecord) : res tables :=
  check bool_decide (lr_OrganizationID old = lr_OrganizationID new) && (lr_UpdatedAt old <? lr_UpdatedAt new) && leadership_moves old new
    else pg_check_violation ;;
  try result := match lr_State old with
                | Active => Ok (t, Some (tb_txid t))
                | Draining => try t := cutover t dbnow old new in Ok (t, None)
                end in
  let (t, txid) := result in
  Ok (set_epochs t (<[lr_OrganizationID new := with_drain_transaction new txid]> (tb_epochs t))).

(** [flowops_validate_leadership_event], the CHECK on the move and the unique key. *)
Definition event_moves (e : LeadershipEvent) : bool :=
  match le_previous e with
  | None => (le_new_epoch e =? 1) && bool_decide (le_new_state e = Active)
  | Some (epoch, Active) => (epoch =? le_new_epoch e) && bool_decide (le_new_state e = Draining)
  | Some (epoch, Draining) => (epoch + 1 =? le_new_epoch e) && bool_decide (le_new_state e = Active)
  end.

Definition event_key (e : LeadershipEvent) : string * Z * LeadershipState := (le_OrganizationID e, le_new_epoch e, le_new_state e).

Definition event_allowed (t : tables) (e : LeadershipEvent) : bool :=
  match tb_epochs t !! le_OrganizationID e with
  | None => false
  | Some r => (lr_Epoch r =? le_new_epoch e) && bool_decide (lr_State r = le_new_state e)
  end && event_moves e.

Definition insert_event (t : tables) (e : LeadershipEvent) : res tables :=
  check event_allowed t e else pg_check_violation ;;
  check bool_decide (tb_events t !! event_key e = None) else pg_unique_violation ;;
  Ok (set_events t (<[event_key e := e]> (tb_events t))).

(** [flowops_require_leadership_event], when the transaction commits: the change of the
    row has its event. *)
Definition require_event (t : tables) (previous : option (Z * LeadershipState)) (r : LeadershipRecord) : bool :=
  match tb_events t !! (lr_OrganizationID r, lr_Epoch r, lr_State r) with
  | None => false
  | Some e => bool_decide (le_EvidenceDigest e = lr_EvidenceDigest r) && bool_decide (le_Actor e = lr_Actor r) &&
              (le_created_at e =? lr_UpdatedAt r) && bool_decide (le_previous e = previous)
  end.

(** ** Operations

    [pg_time] is the instant that the driver and the [timestamptz] column keep of an
    instant of the process, which is finer than the column. *)
Section Leadership.
Variable pg_time : time -> time.

Definition commitRecord (t : tables) (org : string) : res (tables * LeadershipRecord) :=
  try r := leadership_get t org in Ok (next_txid t, r).

Definition Bootstrap (t : tables) (org actor evidence : string) (now : time) : res (tables * LeadershipRecord) :=
  check validMutation org actor evidence else ErrLeadershipInvalid ;;
  check valid_utf8 org else "invalid byte sequence" ;;
  let first := mkLeadershipEvent org None 1 Active evidence actor (pg_time now) in
  match tb_epochs t !! org with
  | None =>
      let row := mkLeadership org 1 Active evidence actor (pg_time now) None in
      try t := insert_event (set_epochs t (<[org := row]> (tb_epochs t))) first in
      check require_event t None row else pg_check_violation ;;
      commitRecord t org
  | Some existing =>
      check (lr_Epoch existing =? 1) && bool_decide (lr_State existing = Active) && bool_decide (lr_Actor existing = actor) &&
            bool_decide (lr_EvidenceDigest existing = evidence) else ErrLeadershipConflict ;;
      check event_allowed t first else pg_check_violation ;;
      let t := match tb_events t !! event_key first with
               | Some _ => t
               | None => set_events t (<[event_key first := first]> (tb_events t))
               end in
      commitRecord t org
  end.

Definition transition (t : tables) (dbnow : time) (org : string) (expected next : Z) (from to : LeadershipState) (actor evidence : string)
    (now : time) : res (tables * LeadershipRecord) :=
  check negb (expected =? 0) && (expected <=? maxEpoch) && validMutation org actor evidence else ErrLeadershipInvalid ;;
  try current := leadership_get t org in
  check lr_Epoch current =? expected else ErrEpochChanged ;;
  check bool_decide (lr_State current = from) else ErrLeadershipConflict ;;
  let row := mkLeadership org next to evidence actor (Z.max (pg_time now) (lr_UpdatedAt current + 1000)) None in
  try t := update_leadership t dbnow current row in
  try t := insert_event t (mkLeadershipEvent org (Some (expected, from)) next to evidence actor (lr_UpdatedAt row)) in
  check require_event t (Some (expected, from)) row else pg_check_violation ;;
  commitRecord t org.

Definition Advance (t : tables) (dbnow : time) (org : string) (expected : Z) (actor evidence : string) (now : time) :
    res (tables * LeadershipRecord) :=
  check expected <? maxEpoch else ErrLeadershipInvalid ;;
  transition t dbnow org expected (expected + 1) Draining Active actor evidence now.

(** [waitForNoEffects]: [ticks] are what the others did before each tick of the poll, until
    the context is done. *)
Fixpoint waitForNoEffects (ticks : list (tables -> tables)) (t : tables) (org : string) (epoch : Z) : tables * res unit :=
  if negb (any_in_flight t org epoch) then (t, Ok tt)
  else match ticks with
       | [] => (t, Err "context deadline exceeded")
       | others :: ticks => waitForNoEffects ticks (others t) org epoch
       end.

Definition begin_drain (t : tables) (dbnow : time) (org : string) (expected : Z) (actor evidence : string) (now : time) :
    res (tables * LeadershipRecord) := transition t dbnow org expected expected Active Draining actor evidence now.

Definition BeginDrain (ticks : list (tables -> tables)) (t : tables) (dbnow : time) (org : string) (expected : Z) (actor evidence : string)
    (now : time) : tables * res LeadershipRecord :=
  match begin_drain t dbnow org expected actor evidence now with
  | Err e => (t, Err e)
  | Ok (t, record) =>
      match waitForNoEffects ticks t org expected with
      | (t, Ok _) => (t, Ok record)
      | (t, Err e) => (t, Err e)
      end
  end.

(** The second transaction of [BeginPromotion]. *)
Definition draining_at (t : tables) (org : string) (epoch : Z) : bool :=
  match leadership_get t org with Ok r => (lr_Epoch r =? epoch) && bool_decide (lr_State r = Draining) | Err _ => false end.

Definition insert_run (t : tables) (w : PromotionRow) : res (tables * bool) :=
  let key := (pw_OrganizationID w, pw_SourceEpoch w) in
  check promotion_row_ok w else pg_check_violation ;;
  match tb_runs t !! key with
  | Some _ => Ok (t, false)
  | None =>
      check bool_decide (map_Forall (fun _ (other : PromotionRow) => pw_RunID other <> pw_RunID w) (tb_runs t)) else pg_unique_violation ;;
      Ok (set_runs t (<[key := w]> (tb_runs t)), true)
  end.

Definition open_promotion (t : tables) (org : string) (expected : Z) (evidence : string) (finalityMargin : duration) (runID : string)
    (now : time) : res (tables * PromotionRun) :=
  check draining_at t org expected else ErrLeadershipConflict ;;
  try result := insert_run t (mkPromotionRow runID org expected (expected + 1) PromotionDraining (finalityMargin / Second) evidence
                                None None (pg_time now) None None None) in
  let (t, changed) := result in
  try run := loadPromotion t org expected in
  check changed || (bool_decide (pn_DrainEvidenceDigest run = evidence) && (pn_FinalityMargin run =? finalityMargin)) else ErrLeadershipConflict ;;
  Ok (next_txid t, run).

Definition valid_margin (d : duration) : bool := (Second <=? d) && (d <=? Hour) && (d mod Second =? 0).

(** [others] is what happens between the drain and the second transaction. A context that
    ended during the wait also refuses the read that follows. *)
Definition BeginPromotion (ticks : list (tables -> tables)) (others : tables -> tables) (t : tables) (dbnow : time) (org : string)
    (expected : Z) (actor evidence : string) (finalityMargin : duration) (runID : string) (now later : time) : tables * res PromotionRun :=
  if negb (valid_margin finalityMargin && validMutation org actor evidence) then (t, Err ErrLeadershipInvalid)
  else
    let (t, drained) := BeginDrain ticks t dbnow org expected actor evidence now in
    let t := others t in
    match drained with
    | Ok _ => settle t (open_promotion t org expected evidence finalityMargin runID later)
    | Err e =>
        if negb (bool_decide (e = "context deadline exceeded")) && validOrganization org && draining_at t org expected
        then settle t (open_promotion t org expected evidence finalityMargin runID later)
        else (t, Err ErrLeadershipConflict)
    end.

Definition mark_ready (w : PromotionRow) (evidence : string) (now : time) : PromotionRow :=
  mkPromotionRow (pw_RunID w) (pw_OrganizationID w) (pw_SourceEpoch w) (pw_TargetEpoch w) PromotionReady (pw_margin_seconds w)
    (pw_drain_evidence w) (Some evidence) (pw_completion_evidence w) (pw_started_at w) (Some (pg_time now)) (pw_cutover_at w)
    (pw_completed_at w).

Definition MarkPromotionReady (t : tables) (org : string) (sourceEpoch : Z) (evidence : string) (now : time) : res (tables * PromotionRun) :=
  check validOrganization org && negb (sourceEpoch =? 0) && (sourceEpoch <=? maxEpoch) && hash_pattern evidence else ErrLeadershipInvalid ;;
  check draining_at t org sourceEpoch else ErrLeadershipConflict ;;
  match tb_runs t !! (org, sourceEpoch) with
  | None => Err ErrLeadershipNotFound
  | Some w =>
      if bool_decide (pw_State w = PromotionReady) && bool_decide (default "" (pw_ready_evidence w) = evidence) then Ok (next_txid t, promotion_of w)
      else
        check bool_decide (pw_State w = PromotionDraining) else ErrLeadershipConflict ;;
        check attestations_readable t org else pg_datetime_overflow ;;
        check negb (live_bearer t org || live_attestation t org (pw_margin_seconds w) (pg_time now)) else ErrLeadershipConflict ;;
        match update_run t w (mark_ready w evidence now) with
        | Err _ => Err ErrLeadershipConflict
        | Ok t => Ok (next_txid t, promotion_of (mark_ready w evidence now))
        end
  end.

Definition complete_run (w : PromotionRow) (evidence : string) (now since : time) : PromotionRow :=
  mkPromotionRow (pw_RunID w) (pw_OrganizationID w) (pw_SourceEpoch w) (pw_TargetEpoch w) PromotionComplete (pw_margin_seconds w)
    (pw_drain_evidence w) (pw_ready_evidence w) (Some evidence) (pw_started_at w) (pw_ready_at w) (pw_cutover_at w)
    (Some (Z.max (pg_time now) since)).

Definition CompletePromotion (t : tables) (org : string) (sourceEpoch : Z) (evidence : string) (now : time) : res (tables * PromotionRun) :=
  check validOrganization org && negb (sourceEpoch =? 0) && (sourceEpoch <? maxEpoch) && hash_pattern evidence else ErrLeadershipInvalid ;;
  match tb_runs t !! (org, sourceEpoch) with
  | None => Err ErrLeadershipConflict
  | Some w =>
      let since := default 0 (pw_cutover_at w) in
      check bool_decide (pw_State w = PromotionCutover) && negb (time_IsZero since) else ErrLeadershipConflict ;;
      check bool_decide (size (rejectedSinks t org sourceEpoch (sourceEpoch + 1) since) = 6%nat) else ErrLeadershipConflict ;;
      match update_run t w (complete_run w evidence now since) with
      | Err _ => Err ErrLeadershipConflict
      | Ok t => Ok (next_txid t, promotion_of (complete_run w evidence now since))
      end
  end.

Definition AbandonEffect (t : tables) (org : string) (expected : Z) (effectID actor evidence : string) (now : time) : res tables :=
  check negb (expected =? 0) && (expected <=? maxEpoch) && validMutation org actor evidence && hash_pattern effectID else ErrLeadershipInvalid ;;
  try record := leadership_get t org in
  check lr_Epoch record =? expected else ErrEpochChanged ;;
  check bool_decide (lr_State record = Draining) else ErrLeadershipConflict ;;
  match tb_effects t !! effectID with
  | None => Err ErrLeadershipConflict
  | Some e =>
      check in_flight org expected e else ErrLeadershipConflict ;;
      try t := resolve_effect t effectID e Abandoned (pg_time now) (Some (actor, evidence)) in
      Ok (next_txid t)
  end.

(** ** Effects *)

(** The first transaction of [FenceSink]: [Ok (_, true)] admits the effect, [Ok (_, false)]
    has recorded its rejection. *)
Definition fence_admit (t : tables) (effectID org : string) (expected : Z) (sink : string) (now : time) : res (tables * bool) :=
  check validOrganization org && negb (expected =? 0) && (expected <=? maxEpoch) else ErrLeadershipInvalid ;;
  check validSink sink true else ErrLeadershipInvalid ;;
  try record := leadership_get t org in
  if negb (bool_decide (lr_State record = Active)) || negb (lr_Epoch record =? expected) then
    check negb (bool_decide (sink = SinkLegacy)) else ErrEpochChanged ;;
    let at_ := if time_after (lr_UpdatedAt record) now then lr_UpdatedAt record else now in
    check hash_pattern effectID else pg_check_violation ;;
    check bool_decide (tb_rejections t !! effectID = None) else pg_unique_violation ;;
    Ok (next_txid (set_rejections t (<[effectID := mkRejection org sink expected (lr_Epoch record) (lr_State record) (pg_time at_)]>
                                       (tb_rejections t))), false)
  else
    try t := insert_effect t effectID (mkEffect org expected sink InFlight (pg_time now) None None) in
    Ok (next_txid t, true).

Definition completeEffect (t : tables) (effectID sink : string) (resolvedAt : time) : res tables :=
  match tb_effects t !! effectID with
  | None => Err ErrLeadershipConflict
  | Some e =>
      check bool_decide (ef_State e = InFlight) && (bool_decide (sink = SinkLegacy) || bool_decide (ef_Sink e = sink)) else ErrLeadershipConflict ;;
      try t := resolve_effect t effectID e Completed (pg_time resolvedAt) None in
      Ok (next_txid t)
  end.

(** [effect] runs between the two transactions and returns the tables as it and everyone
    else leave them. *)
Definition FenceSink (t : tables) (effectID org : string) (expected : Z) (sink : string) (effect : tables -> tables * option error)
    (now resolvedAt : time) : tables * res unit :=
  match fence_admit t effectID org expected sink now with
  | Err e => (t, Err e)
  | Ok (t, false) => (t, Err ErrEpochChanged)
  | Ok (t, true) =>
      let (t, effectErr) := effect t in
      match completeEffect t effectID sink resolvedAt, effectErr with
      | Ok t, None => (t, Ok tt)
      | Ok t, Some e => (t, Err e)
      | Err e, _ => (t, Err e)
      end
  end.

Definition Fence (t : tables) (effectID org : string) (expected : Z) (effect : tables -> tables * option error) (now resolvedAt : time) :
    tables * res unit := FenceSink t effectID org expected SinkLegacy effect now resolvedAt.

End Leadership.
