(* ===== verification/LeadershipTheorems.v ===== *)
(** * Leadership: one leader per organisation, and a drain that can always finish

    A run is any sequence of the transactions of [Leadership], in the order in which the
    organisation locks serialise them, with the callbacks of admitted effects running in
    between. [lw_running] holds the callbacks that are still running. *)
From stdpp Require Import base gmap strings list sorting.
From Stdlib Require Import ZArith Lia Ascii.
From S2P Require Import Prelude GoText GoJSON Leadership.

Open Scope Z_scope.

Record lworld := mkLWorld { lw_t : tables; lw_running : gmap string (string * Z * string) }.

Inductive lop :=
| O_bootstrap (org actor evidence : string) (now : time)
| O_drain (dbnow : time) (org : string) (expected : Z) (actor evidence : string) (now : time)
| O_advance (dbnow : time) (org : string) (expected : Z) (actor evidence : string) (now : time)
| O_promote (org : string) (expected : Z) (evidence : string) (margin : duration) (runID : string) (now : time)
| O_ready (org : string) (epoch : Z) (evidence : string) (now : time)
| O_complete_run (org : string) (epoch : Z) (evidence : string) (now : time)
| O_abandon (org : string) (epoch : Z) (effectID actor evidence : string) (now : time)
| O_admit (effectID org : string) (expected : Z) (sink : string) (now : time)
| O_finish (effectID : string) (now : time)
| O_crash (effectID : string)
| O_instruments (bearers : list (string * bool)) (attestations : list (string * option Z)).

Section Runs.
Variable pg_time : time -> time.

Definition on_tables {A} (w : lworld) (r : res (tables * A)) : lworld :=
  match r with Ok (t, _) => mkLWorld t (lw_running w) | Err _ => w end.

(** A callback that returns has its effect completed in the view of its sink; one whose
    process dies leaves its effect in flight. *)
Definition lexec (w : lworld) (op : lop) : lworld :=
  let t := lw_t w in
  match op with
  | O_bootstrap org actor evidence now => on_tables w (Bootstrap pg_time t org actor evidence now)
  | O_drain dbnow org expected actor evidence now => on_tables w (begin_drain pg_time t dbnow org expected actor evidence now)
  | O_advance dbnow org expected actor evidence now => on_tables w (Advance pg_time t dbnow org expected actor evidence now)
  | O_promote org expected evidence margin runID now => on_tables w (open_promotion pg_time t org expected evidence margin runID now)
  | O_ready org epoch evidence now => on_tables w (MarkPromotionReady pg_time t org epoch evidence now)
  | O_complete_run org epoch evidence now => on_tables w (CompletePromotion pg_time t org epoch evidence now)
  | O_abandon org epoch effectID actor evidence now =>
      on_tables w (try t := AbandonEffect pg_time t org epoch effectID actor evidence now in Ok (t, tt))
  | O_admit effectID org expected sink now =>
      match fence_admit pg_time t effectID org expected sink now with
      | Ok (t, true) => mkLWorld t (<[effectID := (org, expected, sink)]> (lw_running w))
      | Ok (t, false) => mkLWorld t (lw_running w)
      | Err _ => w
      end
  | O_finish effectID now =>
      match lw_running w !! effectID with
      | None => w
      | Some (_, _, sink) =>
          mkLWorld match completeEffect pg_time t effectID sink now with Ok t => t | Err _ => t end (delete effectID (lw_running w))
      end
  | O_crash effectID => mkLWorld t (delete effectID (lw_running w))
  | O_instruments bearers attestations => mkLWorld (set_instruments t bearers attestations) (lw_running w)
  end.

Definition lrun (ops : list lop) : lworld := foldl lexec (mkLWorld no_tables ∅) ops.

(** ** The invariant *)

(** The latest event of an organisation is the state of its row, and there is one event
    per state the organisation went through. *)
Definition predecessor (r : LeadershipRecord) : option (Z * LeadershipState) :=
  match lr_State r with
  | Draining => Some (lr_Epoch r, Active)
  | Active => if lr_Epoch r =? 1 then None else Some (lr_Epoch r - 1, Draining)
  end.

Definition passed (r : LeadershipRecord) (e : Z) (s : LeadershipState) : Prop :=
  1 <= e < lr_Epoch r \/ (e = lr_Epoch r /\ (s = Active \/ lr_State r = Draining)).

Record row_inv (t : tables) (org : string) (r : LeadershipRecord) : Prop := {
  ri_org : lr_OrganizationID r = org;
  ri_epoch : 1 <= lr_Epoch r;
  ri_drain : match lr_State r with Active => lr_drain_transaction_id r = None
             | Draining => exists x, lr_drain_transaction_id r = Some x /\ x < tb_txid t end;
  ri_events : forall e s, is_Some (tb_events t !! (org, e, s)) <-> passed r e s;
  ri_last : tb_events t !! (org, lr_Epoch r, lr_State r) =
            Some (mkLeadershipEvent org (predecessor r) (lr_Epoch r) (lr_State r) (lr_EvidenceDigest r) (lr_Actor r) (lr_UpdatedAt r)) }.

Definition promoted (s : PromotionState) : Prop := s = PromotionCutover \/ s = PromotionComplete.

(** A run is open while its epoch drains and cut over once the next epoch is active. *)
Record run_inv (t : tables) (org : string) (e : Z) (w : PromotionRow) : Prop := {
  rn_org : pw_OrganizationID w = org;
  rn_source : pw_SourceEpoch w = e;
  rn_ok : promotion_row_ok w = true;
  rn_epoch : exists r, tb_epochs t !! org = Some r /\
             ((e < lr_Epoch r /\ promoted (pw_State w)) \/
              (e = lr_Epoch r /\ lr_State r = Draining /\ ~ promoted (pw_State w)));
  rn_complete : pw_State w = PromotionComplete -> forall sink, sink ∈ controlledSinks ->
                exists id rj, tb_rejections t !! id = Some rj /\ rj_Sink rj = sink /\
                  counted_rejection org e (e + 1) (default 0 (pw_cutover_at w)) rj = true }.

Record effect_inv (t : tables) (f : EffectRow) : Prop := {
  fi_epoch : exists r, tb_epochs t !! ef_OrganizationID f = Some r /\ 1 <= ef_Epoch f <= lr_Epoch r /\
             (ef_State f = InFlight -> ef_Epoch f = lr_Epoch r);
  fi_resolved : match ef_State f with
                | InFlight => ef_resolved_at f = None /\ ef_resolution f = None
                | Completed => is_Some (ef_resolved_at f) /\ ef_resolution f = None
                | Abandoned => is_Some (ef_resolved_at f) /\ exists actor evidence, ef_resolution f = Some (actor, evidence) /\
                               validMutation (ef_OrganizationID f) actor evidence = true
                end }.

(** Every epoch an organisation left was promoted. *)
Definition epochs_promoted (t : tables) : Prop :=
  forall org r e, tb_epochs t !! org = Some r -> 1 <= e < lr_Epoch r -> is_Some (tb_runs t !! (org, e)).

Record tables_inv (t : tables) : Prop := {
  ti_rows : map_Forall (row_inv t) (tb_epochs t);
  ti_orphans : forall org e s, is_Some (tb_events t !! (org, e, s)) -> is_Some (tb_epochs t !! org);
  ti_runs : forall org e w, tb_runs t !! (org, e) = Some w -> run_inv t org e w;
  ti_effects : map_Forall (fun _ => effect_inv t) (tb_effects t);
  ti_ids : map_Forall (fun id _ => hash_pattern id = true) (tb_effects t);
  ti_rejections : map_Forall (fun _ rj => rj_Sink rj ∈ controlledSinks) (tb_rejections t);
  ti_promoted : epochs_promoted t }.

Record world_inv (w : lworld) : Prop := {
  wi_tables : tables_inv (lw_t w);
  wi_running : forall id org e sink, lw_running w !! id = Some (org, e, sink) ->
    exists f, tb_effects (lw_t w) !! id = Some f /\ ef_OrganizationID f = org /\ ef_Epoch f = e /\ ef_Sink f = sink /\
              ef_State f <> Completed }.

(** ** Frames: what each part of the invariant depends on *)

Lemma row_frame t t' org r :
  tb_txid t <= tb_txid t' -> (forall e s, tb_events t' !! (org, e, s) = tb_events t !! (org, e, s)) ->
  row_inv t org r -> row_inv t' org r.
Proof.
  intros Htx Hev [H1 H2 H3 H4 H5]. split; [done..| | |by rewrite Hev].
  - destruct (lr_State r); [done|]. destruct H3 as (x & ? & ?). exists x. split; [done|lia].
  - intros e s. by rewrite Hev.
Qed.

Lemma run_frame t t' org e w :
  tb_epochs t' !! org = tb_epochs t !! org -> tb_rejections t ⊆ tb_rejections t' -> run_inv t org e w -> run_inv t' org e w.
Proof.
  intros He Hr [H1 H2 H3 H4 H5]. split; [done..|by rewrite He|].
  intros Hc sink Hs. destruct (H5 Hc sink Hs) as (id & rj & Hid & ?). exists id, rj. split; [|done].
  by eapply lookup_weaken.
Qed.

Lemma effect_frame t t' f : tb_epochs t' !! ef_OrganizationID f = tb_epochs t !! ef_OrganizationID f -> effect_inv t f -> effect_inv t' f.
Proof. intros He [H1 H2]. split; [by rewrite He|done]. Qed.

(** Tables that agree on leadership: the invariant moves with the rows that changed. *)
Lemma inv_frame t t' :
  tb_epochs t' = tb_epochs t -> tb_events t' = tb_events t -> tb_txid t <= tb_txid t' -> tb_rejections t ⊆ tb_rejections t' ->
  (forall k, is_Some (tb_runs t !! k) -> is_Some (tb_runs t' !! k)) ->
  (forall org e w, tb_runs t' !! (org, e) = Some w -> tb_runs t !! (org, e) = Some w \/ run_inv t' org e w) ->
  (forall id f, tb_effects t' !! id = Some f -> tb_effects t !! id = Some f \/ (effect_inv t' f /\ hash_pattern id = true)) ->
  (forall id rj, tb_rejections t' !! id = Some rj -> tb_rejections t !! id = Some rj \/ rj_Sink rj ∈ controlledSinks) ->
  tables_inv t -> tables_inv t'.
Proof.
  intros He Hv Ht Hj Hk Hn Hf Hjs [I1 I2 I3 I4 I7 I5 I6]. split.
  - rewrite He. intros org r Hr. eapply row_frame; [done|intros; by rewrite Hv|by apply I1].
  - intros org e s. rewrite Hv, He. apply I2.
  - intros org e w Hw. destruct (Hn _ _ _ Hw) as [Ho|Ho]; [|done]. eapply run_frame; [by rewrite He|done|by apply I3].
  - intros id f Hid. destruct (Hf _ _ Hid) as [Ho|[Ho _]]; [|done]. eapply effect_frame; [by rewrite He|by eapply I4].
  - intros id f Hid. destruct (Hf _ _ Hid) as [Ho|[_ Ho]]; [|done]. by eapply I7.
  - intros id rj Hid. destruct (Hjs _ _ Hid) as [Ho|Ho]; [|done]. by eapply I5.
  - intros org r e. rewrite He. intros Hr Hlt. apply Hk. by eapply I6.
Qed.

Lemma inv_next_txid t : tables_inv t -> tables_inv (next_txid t).
Proof. apply inv_frame; cbn; auto; lia. Qed.

Lemma inv_instruments t b a : tables_inv t -> tables_inv (set_instruments t b a).
Proof. apply inv_frame; cbn; auto; lia. Qed.

Lemma inv_effect t id f : effect_inv t f -> hash_pattern id = true -> tables_inv t -> tables_inv (set_effects t (<[id := f]> (tb_effects t))).
Proof.
  intros Hf Hid. apply inv_frame; cbn; auto; [lia|]. intros id' f' [[<- <-]|[_ H']]%lookup_insert_Some; [|by left].
  right. split; [by eapply effect_frame, Hf|done].
Qed.

Lemma inv_rejection t id rj :
  tb_rejections t !! id = None -> rj_Sink rj ∈ controlledSinks -> tables_inv t -> tables_inv (set_rejections t (<[id := rj]> (tb_rejections t))).
Proof.
  intros Hn Hs. apply inv_frame; cbn; auto; [lia|by apply insert_subseteq|].
  intros id' rj' [[<- <-]|[_ H']]%lookup_insert_Some; auto.
Qed.

Lemma inv_run t org e w : run_inv t org e w -> tables_inv t -> tables_inv (set_runs t (<[(org, e) := w]> (tb_runs t))).
Proof.
  intros Hw. apply inv_frame; cbn; auto; [lia|..].
  - intros k Hk. destruct (decide ((org, e) = k)) as [->|Hd]; [rewrite lookup_insert_eq; eauto|by rewrite lookup_insert_ne].
  - intros org' e' w' [[[= <- <-] <-]|[_ H']]%lookup_insert_Some; [|by left]. right. by eapply run_frame, Hw.
Qed.

Lemma empty_inv : tables_inv no_tables.
Proof.
  split.
  - apply map_Forall_empty.
  - intros org e s [? H]. cbn in H. by rewrite lookup_empty in H.
  - intros org e w H. cbn in H. by rewrite lookup_empty in H.
  - apply map_Forall_empty.
  - apply map_Forall_empty.
  - apply map_Forall_empty.
  - intros org r e H. cbn in H. by rewrite lookup_empty in H.
Qed.

(** ** Runs of a promotion *)

Lemma update_run_ok t old new t' :
  update_run t old new = Ok t' ->
  t' = set_runs t (<[(pw_OrganizationID new, pw_SourceEpoch new) := new]> (tb_runs t)) /\ promotion_row_ok new = true /\
  pw_OrganizationID new = pw_OrganizationID old /\ pw_SourceEpoch new = pw_SourceEpoch old /\ run_moves (pw_State old) (pw_State new) = true /\
  (pw_State old = PromotionCutover -> exists since, pw_cutover_at old = Some since /\ pw_cutover_at new = Some since /\
     size (rejectedSinks t (pw_OrganizationID new) (pw_SourceEpoch new) (pw_TargetEpoch new) since) = 6%nat).
Proof.
  unfold update_run. repeat rewrite check_ok_iff. intros (H1 & H2 & H3 & H4 & H5 & [= <-]). unfold same_run in H1. to_prop.
  destruct H1 as [[[[[[[? ?] ?] ?] ?] ?] ?] ?]. split_and!; try done. intros Hc.
  destruct H4 as [H4|H4]; [done|]. destruct H3 as [H3|H3]; [done|].
  destruct (pw_cutover_at old) as [since|]; [|done]. exists since. apply bool_decide_eq_true in H4. by split_and!.
Qed.

Lemma rejected_sinks_in t org e o since sink :
  sink ∈ rejectedSinks t org e o since <->
  exists id rj, tb_rejections t !! id = Some rj /\ rj_Sink rj = sink /\ counted_rejection org e o since rj = true.
Proof.
  unfold rejectedSinks. rewrite elem_of_list_to_set, list_elem_of_fmap. split.
  - intros ((id & rj) & -> & Hin). apply list_elem_of_In, filter_In in Hin as [Hin Hc].
    apply list_elem_of_In, elem_of_map_to_list in Hin. by exists id, rj.
  - intros (id & rj & Hid & <- & Hc). exists (id, rj). split; [done|].
    apply list_elem_of_In, filter_In. split; [|done]. by apply list_elem_of_In, elem_of_map_to_list.
Qed.

(** Six distinct sinks are all of them. *)
Lemma all_sinks t org e o since :
  map_Forall (fun _ rj => rj_Sink rj ∈ controlledSinks) (tb_rejections t) ->
  size (rejectedSinks t org e o since) = 6%nat -> forall sink, sink ∈ controlledSinks -> sink ∈ rejectedSinks t org e o since.
Proof.
  intros Hall Hsz. set (S := rejectedSinks _ _ _ _ _) in *.
  assert (Hsub : S ⊆ list_to_set controlledSinks).
  { intros sink (id & rj & Hid & <- & _)%rejected_sinks_in. apply elem_of_list_to_set. by eapply Hall. }
  assert (Heq : S ≡ list_to_set controlledSinks).
  { apply set_subseteq_size_equiv; [done|]. rewrite Hsz. by vm_compute. }
  intros sink Hs. rewrite Heq. by apply elem_of_list_to_set.
Qed.

(** ** Changes of the leadership row *)

Definition event_of (r : LeadershipRecord) (previous : option (Z * LeadershipState)) : LeadershipEvent :=
  mkLeadershipEvent (lr_OrganizationID r) previous (lr_Epoch r) (lr_State r) (lr_EvidenceDigest r) (lr_Actor r) (lr_UpdatedAt r).

Lemma inv_move t t' org r' ev :
  tables_inv t ->
  tb_epochs t' = <[org := r']> (tb_epochs t) -> tb_events t' = <[(org, lr_Epoch r', lr_State r') := ev]> (tb_events t) ->
  tb_effects t' = tb_effects t -> tb_rejections t' = tb_rejections t -> tb_txid t < tb_txid t' ->
  (forall k, is_Some (tb_runs t !! k) -> is_Some (tb_runs t' !! k)) ->
  (forall org' e w, tb_runs t' !! (org', e) = Some w -> (org' <> org /\ tb_runs t !! (org', e) = Some w) \/ run_inv t' org' e w) ->
  (forall e, 1 <= e < lr_Epoch r' -> is_Some (tb_runs t' !! (org, e))) ->
  (forall r, tb_epochs t !! org = Some r -> lr_Epoch r <= lr_Epoch r' /\
     (lr_Epoch r' = lr_Epoch r \/ in_flight_effects t org (lr_Epoch r) = ∅)) ->
  row_inv t' org r' -> tables_inv t'.
Proof.
  intros [I1 I2 I3 I4 I7 I5 I6] He Hv Hf Hj Ht Hk Hn Hp Ho Hr. split.
  - rewrite He. intros org' r [[<- <-]|[Hd H']]%lookup_insert_Some; [done|].
    eapply row_frame, I1, H'; [lia|]. intros e s. rewrite Hv, lookup_insert_ne; [done|]. congruence.
  - intros org' e s. rewrite Hv, He. intros [x [[[= <- <- <-] _]|[_ Hx]]%lookup_insert_Some]; [rewrite lookup_insert_eq; eauto|].
    destruct (decide (org = org')) as [<-|Hd]; [rewrite lookup_insert_eq; eauto|]. rewrite lookup_insert_ne by done. eapply I2; eauto.
  - intros org' e w Hw. destruct (Hn _ _ _ Hw) as [[Hd Hw']|]; [|done].
    eapply run_frame, I3, Hw'; [by rewrite He, lookup_insert_ne|by rewrite Hj].
  - rewrite Hf. intros id f Hid. destruct (I4 _ _ Hid) as [(r & Hr0 & [Hb1 Hb2] & Hb3) Hres]. split; [|done].
    destruct (decide (org = ef_OrganizationID f)) as [->|Hd].
    + exists r'. rewrite He, lookup_insert_eq. destruct (Ho _ Hr0) as [Hle Hsame]. split_and!; [done|lia|lia|]. intros Hin.
      destruct Hsame as [->|Hnone]; [by apply Hb3|]. exfalso. specialize (Hb3 Hin).
      assert (Hx : in_flight_effects t (ef_OrganizationID f) (lr_Epoch r) !! id = Some f).
      { apply map_lookup_filter_Some. split; [done|]. cbn. unfold in_flight. rewrite Hb3, Z.eqb_refl.
        by rewrite !bool_decide_eq_true_2. }
      by rewrite Hnone, lookup_empty in Hx.
    + exists r. rewrite He, lookup_insert_ne by done. split_and!; [done|lia|lia|done].
  - by rewrite Hf.
  - by rewrite Hj.
  - intros org' r e. rewrite He. intros [[<- <-]|[Hd H']]%lookup_insert_Some Hlt; [by apply Hp|]. apply Hk. by eapply I6.
Qed.

Lemma insert_event_ok t e t' :
  insert_event t e = Ok t' -> t' = set_events t (<[event_key e := e]> (tb_events t)) /\ tb_events t !! event_key e = None.
Proof. unfold insert_event. rewrite !check_ok_iff. intros (_ & H & [= <-]). by apply bool_decide_eq_true in H. Qed.

Lemma commit_ok t org t' r : commitRecord t org = Ok (t', r) -> t' = next_txid t /\ tb_epochs t !! org = Some r.
Proof. unfold commitRecord, leadership_get. destruct (tb_epochs t !! org); [|done]. by intros [= <- <-]. Qed.

Lemma no_runs_of_new t org : tables_inv t -> tb_epochs t !! org = None -> forall e, tb_runs t !! (org, e) = None.
Proof.
  intros I Hn e. destruct (tb_runs t !! (org, e)) eqn:E; [|done]. destruct (rn_epoch _ _ _ _ (ti_runs _ I _ _ _ E)) as (r & Hr & _).
  by rewrite Hn in Hr.
Qed.

Lemma no_events_of_new t org : tables_inv t -> tb_epochs t !! org = None -> forall e s, tb_events t !! (org, e, s) = None.
Proof.
  intros I Hn e s. destruct (tb_events t !! (org, e, s)) eqn:E; [|done].
  destruct (ti_orphans _ I org e s) as [x Hx]; [eauto|]. by rewrite Hn in Hx.
Qed.

Lemma bootstrap_inv t org actor evidence now t' r :
  Bootstrap pg_time t org actor evidence now = Ok (t', r) -> tables_inv t -> tables_inv t'.
Proof.
  unfold Bootstrap. rewrite !check_ok_iff. intros (Hv & Hu & H) I. destruct (tb_epochs t !! org) as [old|] eqn:Ho.
  - rewrite !check_ok_iff in H. destruct H as (Hm & He & H). apply commit_ok in H as [-> _]. apply inv_next_txid.
    destruct (tb_events t !! event_key _) eqn:E; [done|]. exfalso. to_prop. destruct Hm as [[[Hm1 Hm2] _] _].
    pose proof (ri_last _ _ _ (ti_rows _ I _ _ Ho)) as Hl. rewrite Hm1, Hm2 in Hl. unfold event_key in E. cbn in E. congruence.
  - apply try_ok_iff in H as (t1 & H1 & H). rewrite check_ok_iff in H. destruct H as [_ H].
    apply insert_event_ok in H1 as [-> _]. apply commit_ok in H as [-> _]. cbn.
    eapply (inv_move t _ org (mkLeadership org 1 Active evidence actor (pg_time now) None)); cbn; auto; [lia|..].
    + intros org' e w Hw. left. split; [|done]. intros ->. by rewrite (no_runs_of_new _ _ I Ho) in Hw.
    + intros e ?. lia.
    + by rewrite Ho.
    + split; cbn; [done|lia|done| |by rewrite lookup_insert_eq]. intros e s. unfold passed; cbn. split.
      * intros [x [[[= <- <-] _]|[_ Hx]]%lookup_insert_Some]; [right; auto|]. by rewrite (no_events_of_new _ _ I Ho) in Hx.
      * intros [?|[-> [->|?]]]; [lia|rewrite lookup_insert_eq; eauto|done].
Qed.

Definition moved (org : string) (next : Z) (to : LeadershipState) (actor evidence : string) (now : time) (current : LeadershipRecord)
    (txid : option Z) : LeadershipRecord :=
  mkLeadership org next to evidence actor (Z.max (pg_time now) (lr_UpdatedAt current + 1000)) txid.

Lemma transition_ok t dbnow org expected next from to actor evidence now t' r :
  transition pg_time t dbnow org expected next from to actor evidence now = Ok (t', r) ->
  exists current t1, tb_epochs t !! org = Some current /\ lr_Epoch current = expected /\ lr_State current = from /\
    validMutation org actor evidence = true /\
    update_leadership t dbnow current (moved org next to actor evidence now current None) = Ok t1 /\
    t' = next_txid (set_events t1 (<[(org, next, to) := event_of (moved org next to actor evidence now current None) (Some (expected, from))]>
                                     (tb_events t1))).
Proof.
  unfold transition. rewrite check_ok_iff, try_ok_iff. intros (Hv & current & Hg & H). rewrite !check_ok_iff, try_ok_iff in H.
  destruct H as (He & Hs & t1 & H1 & H). rewrite try_ok_iff in H. destruct H as (t2 & H2 & H). rewrite check_ok_iff in H. destruct H as [_ H].
  apply insert_event_ok in H2 as [-> _]. apply commit_ok in H as [-> _].
  unfold leadership_get in Hg. destruct (tb_epochs t !! org); [|done]. injection Hg as ->. to_prop. destruct Hv as [_ Hv]. exists current, t1. by split_and!.
Qed.

Lemma passed_drain r r' e s :
  lr_State r = Active -> lr_State r' = Draining -> lr_Epoch r' = lr_Epoch r -> passed r' e s <-> passed r e s \/ (e = lr_Epoch r' /\ s = Draining).
Proof. unfold passed. intros -> -> ->. destruct s; intuition (try lia; try congruence). Qed.

Lemma passed_advance r r' e s :
  1 <= lr_Epoch r -> lr_State r = Draining -> lr_State r' = Active -> lr_Epoch r' = lr_Epoch r + 1 ->
  passed r' e s <-> passed r e s \/ (e = lr_Epoch r' /\ s = Active).
Proof.
  unfold passed. intros Hp -> -> ->. destruct (decide (e = lr_Epoch r)), s; intuition (try lia; try congruence).
Qed.

(** The row after a move satisfies its invariant. *)
Lemma moved_row t t' org r r' ev :
  row_inv t org r -> lr_OrganizationID r' = org -> 1 <= lr_Epoch r' ->
  match lr_State r' with Active => lr_drain_transaction_id r' = None
  | Draining => exists x, lr_drain_transaction_id r' = Some x /\ x < tb_txid t' end ->
  (forall e s, passed r' e s <-> passed r e s \/ (e = lr_Epoch r' /\ s = lr_State r')) ->
  tb_events t' = <[(org, lr_Epoch r', lr_State r') := ev]> (tb_events t) -> ev = event_of r' (predecessor r') -> row_inv t' org r'.
Proof.
  intros [H1 H2 H3 H4 H5] Ho He Hd Hp Hv ->. split; [done..| |].
  - intros e s. rewrite Hp, Hv, <-H4. destruct (decide ((org, lr_Epoch r', lr_State r') = (org, e, s))) as [Heq|Hne].
    + rewrite Heq, lookup_insert_eq. injection Heq as <- <-. naive_solver.
    + rewrite lookup_insert_ne by done. split; [naive_solver|]. intros [?|[-> ->]]; [done|]. by destruct Hne.
  - rewrite Hv, lookup_insert_eq. unfold event_of. by rewrite Ho.
Qed.

Lemma drain_inv t dbnow org expected actor evidence now t' r :
  begin_drain pg_time t dbnow org expected actor evidence now = Ok (t', r) -> tables_inv t -> tables_inv t'.
Proof.
  intros (current & t1 & Hc & He & Hs & Hv & Hu & ->)%transition_ok I. unfold update_leadership in Hu. rewrite check_ok_iff, Hs in Hu.
  destruct Hu as [_ Hu]. cbn in Hu. injection Hu as <-. pose proof (ti_rows _ I _ _ Hc) as Hrow.
  set (r' := with_drain_transaction (moved org expected Draining actor evidence now current None) (Some (tb_txid t))).
  assert (Hold : forall e w, tb_runs t !! (org, e) = Some w -> e < expected).
  { intros e w Hw. destruct (rn_epoch _ _ _ _ (ti_runs _ I _ _ _ Hw)) as (r0 & Hr0 & Hd). rewrite Hc in Hr0. injection Hr0 as <-.
    destruct Hd as [[? _]|(_ & Hd & _)]; [lia|congruence]. }
  eapply (inv_move t _ org r'); cbn; auto; [lia|..].
  - intros org' e w Hw. destruct (decide (org' = org)) as [->|Hd]; [right|by left]. pose proof (Hold _ _ Hw).
    destruct (ti_runs _ I _ _ _ Hw) as [R1 R2 R3 (r0 & Hr0 & Hd) R5]. split; [done..| |done]. exists r'. cbn. rewrite lookup_insert_eq.
    rewrite Hc in Hr0. injection Hr0 as <-. split; [done|]. left. split; [done|]. naive_solver lia.
  - intros e Hlt. eapply (ti_promoted _ I); [done|lia].
  - intros r0 Hr0. rewrite Hc in Hr0. injection Hr0 as <-. split; [lia|by left].
  - eapply moved_row; [exact Hrow|done|cbn; pose proof (ri_epoch _ _ _ Hrow); lia| | |reflexivity|].
    + cbn. exists (tb_txid t). split; [done|lia].
    + intros e s. by apply passed_drain.
    + unfold event_of, predecessor. cbn. done.
Qed.

Definition cut (w : PromotionRow) (at_ : time) : PromotionRow :=
  mkPromotionRow (pw_RunID w) (pw_OrganizationID w) (pw_SourceEpoch w) (pw_TargetEpoch w) PromotionCutover (pw_margin_seconds w)
    (pw_drain_evidence w) (pw_ready_evidence w) (pw_completion_evidence w) (pw_started_at w) (pw_ready_at w) (Some at_) (pw_completed_at w).

Lemma cutover_ok t dbnow old new t1 :
  cutover t dbnow old new = Ok t1 ->
  in_flight_effects t (lr_OrganizationID old) (lr_Epoch old) = ∅ /\
  exists w, tb_runs t !! (lr_OrganizationID old, lr_Epoch old) = Some w /\ pw_State w = PromotionReady /\
    update_run t w (cut w (lr_UpdatedAt new)) = Ok t1.
Proof.
  unfold cutover, any_in_flight. rewrite !check_ok_iff. intros (_ & Hf & H). to_prop. split; [done|].
  destruct (tb_runs t !! _) as [w|] eqn:E; [|done]. rewrite !check_ok_iff in H. destruct H as (Hs & _ & _ & _ & H). to_prop. by exists w.
Qed.

Lemma advance_inv t dbnow org expected actor evidence now t' r :
  Advance pg_time t dbnow org expected actor evidence now = Ok (t', r) -> tables_inv t -> tables_inv t'.
Proof.
  unfold Advance. rewrite check_ok_iff. intros [_ (current & t1 & Hc & He & Hs & Hv & Hu & ->)%transition_ok] I.
  unfold update_leadership in Hu. rewrite check_ok_iff, Hs in Hu.
  destruct Hu as [_ Hu]. apply try_ok_iff in Hu as ((t2 & txid) & Hu & [= <-]). apply try_ok_iff in Hu as (t3 & Hu & [= <- <-]).
  pose proof (ti_rows _ I _ _ Hc) as Hrow. pose proof (ri_epoch _ _ _ Hrow) as Hpos. rewrite He in Hpos.
  apply cutover_ok in Hu as (Hnone & w & Hw & Hst & Hu). rewrite (ri_org _ _ _ Hrow), He in Hnone, Hw.
  destruct (ti_runs _ I _ _ _ Hw) as [R1 R2 R3 (r0 & Hr0 & Hd) R5].
  apply update_run_ok in Hu as (-> & Hok & _). cbn in *. rewrite R1, R2 in *.
  set (r' := with_drain_transaction (moved org (expected + 1) Active actor evidence now current None) None).
  eapply (inv_move t _ org r'); cbn; auto; [lia|..].
  - intros k Hk. destruct (decide ((org, expected) = k)) as [<-|?]; [rewrite lookup_insert_eq; eauto|by rewrite lookup_insert_ne].
  - intros org' e w'. intros [[[= <- <-] <-]|[Hne Hw']]%lookup_insert_Some.
    + right. split; cbn; [done..| |done]. exists r'. rewrite lookup_insert_eq. split; [done|]. left. cbn. split; [lia|by left].
    + destruct (decide (org' = org)) as [->|]; [right|by left]. destruct (ti_runs _ I _ _ _ Hw') as [Q1 Q2 Q3 (r1 & Hr1 & Hd1) Q5].
      split; [done..| |done]. exists r'. cbn. rewrite lookup_insert_eq. split; [done|]. left. rewrite Hc in Hr1. injection Hr1 as <-.
      destruct Hd1 as [[? ?]|(? & _)]; [split; [lia|done]|]. subst. congruence.
  - intros e Hlt. destruct (decide (e = expected)) as [->|Hne]; [rewrite lookup_insert_eq; eauto|]. rewrite lookup_insert_ne by congruence.
    eapply (ti_promoted _ I); [done|lia].
  - intros r1 Hr1. rewrite Hc in Hr1. injection Hr1 as <-. split; [lia|right; by rewrite He].
  - eapply moved_row; [exact Hrow|done|cbn; lia|done| |reflexivity|].
    + intros e s. apply passed_advance; cbn; [lia|done|done|lia].
    + unfold event_of, predecessor. cbn. destruct (Z.eqb_spec (expected + 1) 1); [lia|]. do 2 f_equal. f_equal. lia.
Qed.

Lemma draining_ok t org e : draining_at t org e = true -> exists r, tb_epochs t !! org = Some r /\ lr_Epoch r = e /\ lr_State r = Draining.
Proof. unfold draining_at, leadership_get. destruct (tb_epochs t !! org) as [r|]; [|done]. intros. to_prop. eauto. Qed.

Lemma promote_inv t org expected evidence margin runID now t' run :
  open_promotion pg_time t org expected evidence margin runID now = Ok (t', run) -> tables_inv t -> tables_inv t'.
Proof.
  unfold open_promotion. rewrite check_ok_iff, try_ok_iff. intros [Hd ((t1 & changed) & Hi & H)] I.
  apply try_ok_iff in H as (run' & _ & H). rewrite check_ok_iff in H. destruct H as [_ [= <- _]]. apply inv_next_txid.
  unfold insert_run in Hi. rewrite check_ok_iff in Hi. destruct Hi as [Hok Hi]. cbn in Hi.
  destruct (tb_runs t !! (org, expected)) eqn:E; [by injection Hi as <- _|]. rewrite check_ok_iff in Hi. destruct Hi as [_ [= <- _]].
  apply inv_run; [|done]. apply draining_ok in Hd as (r & Hr & <- & Hs). split; [done..| |done]. exists r. split; [done|]. right. split_and!; [done..|].
  by intros [?|?].
Qed.

Lemma ready_inv t org e evidence now t' run :
  MarkPromotionReady pg_time t org e evidence now = Ok (t', run) -> tables_inv t -> tables_inv t'.
Proof.
  unfold MarkPromotionReady. rewrite !check_ok_iff. intros (_ & Hd & H) I. destruct (tb_runs t !! (org, e)) as [w|] eqn:E; [|done].
  destruct (_ && _); [injection H as <- _; by apply inv_next_txid|]. rewrite !check_ok_iff in H. destruct H as (_ & _ & _ & H).
  destruct (update_run _ _ _) as [t1|] eqn:Hu; [|done]. injection H as <- _. apply inv_next_txid.
  apply update_run_ok in Hu as (-> & Hok & _). destruct (ti_runs _ I _ _ _ E) as [R1 R2 R3 (r0 & Hr0 & Hd0) R5]. cbn. rewrite R1, R2.
  apply draining_ok in Hd as (r & Hr & He & Hs). rewrite Hr in Hr0. injection Hr0 as <-.
  apply inv_run; [|done]. split; [done..| |done]. exists r. split; [done|]. right. split_and!; [done..|]. by intros [?|?].
Qed.

Lemma complete_run_inv t org e evidence now t' run :
  CompletePromotion pg_time t org e evidence now = Ok (t', run) -> tables_inv t -> tables_inv t'.
Proof.
  unfold CompletePromotion. rewrite !check_ok_iff. intros (_ & H) I. destruct (tb_runs t !! (org, e)) as [w|] eqn:E; [|done].
  rewrite !check_ok_iff in H. destruct H as (Hs & Hsz & H). destruct (update_run _ _ _) as [t1|] eqn:Hu; [|done]. injection H as <- _.
  apply inv_next_txid. apply update_run_ok in Hu as (-> & Hok & _). to_prop. destruct Hs as [Hs _].
  destruct (ti_runs _ I _ _ _ E) as [R1 R2 R3 (r & Hr & Hd) R5]. cbn. rewrite R1, R2.
  apply inv_run; [|done]. split; [done..| |].
  - exists r. split; [done|]. destruct Hd as [[? _]|(_ & _ & Hd)]; [left; split; [done|by right]|]. destruct Hd. by left.
  - intros _ sink Hin. cbn. apply rejected_sinks_in. eapply all_sinks; [apply I|done..].
Qed.

(** ** Effects *)

Lemma resolve_ok t id f state at_ resolution t' :
  resolve_effect t id f state at_ resolution = Ok t' ->
  t' = set_effects t (<[id := mkEffect (ef_OrganizationID f) (ef_Epoch f) (ef_Sink f) state (ef_started_at f)
                                (Some (Z.max at_ (ef_started_at f))) resolution]> (tb_effects t)) /\ state <> InFlight.
Proof. unfold resolve_effect. rewrite !check_ok_iff. intros (H & _ & [= <-]). to_prop. by destruct H. Qed.

Lemma resolved_inv t f state at_ resolution :
  effect_inv t f -> state <> InFlight ->
  match state with Abandoned => exists actor evidence, resolution = Some (actor, evidence) /\ validMutation (ef_OrganizationID f) actor evidence = true
  | _ => resolution = None end ->
  effect_inv t (mkEffect (ef_OrganizationID f) (ef_Epoch f) (ef_Sink f) state (ef_started_at f) (Some at_) resolution).
Proof.
  intros [(r & Hr & Hle & _) _] Hs Hres. split; cbn.
  - exists r. split_and!; [done|lia|lia|by intros].
  - destruct state; [done|eauto..].
Qed.

Lemma abandon_inv t org e id actor evidence now t' :
  AbandonEffect pg_time t org e id actor evidence now = Ok t' -> tables_inv t -> tables_inv t'.
Proof.
  unfold AbandonEffect. rewrite check_ok_iff, try_ok_iff. intros (Hv & r & Hr & H) I. rewrite !check_ok_iff in H. destruct H as (_ & _ & H).
  destruct (tb_effects t !! id) as [f|] eqn:E; [|done]. rewrite check_ok_iff, try_ok_iff in H. destruct H as (Hin & t1 & Hres & [= <-]).
  apply inv_next_txid. apply resolve_ok in Hres as [-> Hs]. apply inv_effect; [|by eapply (ti_ids _ I)|done]. apply resolved_inv; [by eapply ti_effects|done|].
  unfold in_flight in Hin. to_prop. exists actor, evidence. destruct Hin as [[-> _] _]. destruct Hv as [[[_ _] ?] _]. done.
Qed.

Lemma complete_inv t id sink now t' :
  completeEffect pg_time t id sink now = Ok t' -> tables_inv t -> tables_inv t'.
Proof.
  unfold completeEffect. destruct (tb_effects t !! id) as [f|] eqn:E; [|done]. rewrite check_ok_iff, try_ok_iff. intros (_ & t1 & Hres & [= <-]) I.
  apply inv_next_txid. apply resolve_ok in Hres as [-> Hs]. apply inv_effect; [|by eapply (ti_ids _ I)|done]. apply resolved_inv; [by eapply ti_effects|done..].
Qed.

Lemma admit_ok t id org e sink now t' b :
  fence_admit pg_time t id org e sink now = Ok (t', b) ->
  exists r, tb_epochs t !! org = Some r /\ validSink sink true = true /\
  if b then lr_State r = Active /\ lr_Epoch r = e /\ tb_effects t !! id = None /\ hash_pattern id = true /\
    t' = next_txid (set_effects t (<[id := mkEffect org e sink InFlight (pg_time now) None None]> (tb_effects t)))
  else (lr_State r <> Active \/ lr_Epoch r <> e) /\ sink <> SinkLegacy /\ tb_rejections t !! id = None /\
    t' = next_txid (set_rejections t (<[id := mkRejection org sink e (lr_Epoch r) (lr_State r)
           (pg_time (if time_after (lr_UpdatedAt r) now then lr_UpdatedAt r else now))]> (tb_rejections t))).
Proof.
  unfold fence_admit. rewrite !check_ok_iff, try_ok_iff. intros (_ & Hv & r & Hr & H). unfold leadership_get in Hr.
  destruct (tb_epochs t !! org) as [r0|] eqn:E; [|done]. injection Hr as ->. exists r. split_and!; [done..|].
  destruct (negb _ || negb _) eqn:Hb; to_prop.
  - rewrite !check_ok_iff in H. destruct H as (Hl & _ & Hn & [= <- <-]). to_prop. by split_and!.
  - apply try_ok_iff in H as (t1 & H & [= <- <-]). unfold insert_effect in H. cbn in H. rewrite E, !check_ok_iff in H.
    destruct H as (_ & Hh & Hn & [= <-]). to_prop. destruct Hb, Hh. by split_and!.
Qed.

Lemma admit_inv t id org e sink now t' b :
  fence_admit pg_time t id org e sink now = Ok (t', b) -> tables_inv t -> tables_inv t'.
Proof.
  intros (r & Hr & Hv & Hb)%admit_ok I. destruct b.
  - destruct Hb as (Ha & He & Hn & Hh & ->). apply inv_next_txid, inv_effect; [|done..]. split; [|done]. exists r. cbn.
    pose proof (ri_epoch _ _ _ (ti_rows _ I _ _ Hr)). split_and!; [done|lia|lia|done].
  - destruct Hb as (_ & Hl & Hn & ->). apply inv_next_txid, inv_rejection; [done| |done]. cbn. unfold validSink in Hv.
    apply orb_true_iff in Hv as [Hv|Hv]; to_prop; [by destruct Hv|done].
Qed.

(** ** Every run keeps the invariant *)

(** Effects other than those admitted and resolved stay as they are. *)
Definition effects_move (t t' : tables) : Prop :=
  forall id f, tb_effects t !! id = Some f ->
    exists f', tb_effects t' !! id = Some f' /\ ef_OrganizationID f' = ef_OrganizationID f /\ ef_Epoch f' = ef_Epoch f /\ ef_Sink f' = ef_Sink f /\
               (ef_State f' = Completed -> ef_State f = Completed).

Lemma effects_same t t' : tb_effects t' = tb_effects t -> effects_move t t'.
Proof. intros He id f Hf. exists f. by rewrite He. Qed.

Lemma running_moves w t' : tables_inv t' -> effects_move (lw_t w) t' -> world_inv w -> world_inv (mkLWorld t' (lw_running w)).
Proof.
  intros It Hm [_ Ir]. split; [done|]. cbn. intros id org e sink Hid. destruct (Ir _ _ _ _ Hid) as (f & Hf & <- & <- & <- & Hs).
  destruct (Hm _ _ Hf) as (f' & Hf' & ? & ? & ? & ?). exists f'. split_and!; auto.
Qed.

Lemma transition_effects t dbnow org expected next from to actor evidence now t' r :
  transition pg_time t dbnow org expected next from to actor evidence now = Ok (t', r) -> tb_effects t' = tb_effects t.
Proof.
  intros (current & t1 & _ & _ & _ & _ & Hu & ->)%transition_ok. cbn. unfold update_leadership in Hu. rewrite check_ok_iff in Hu.
  destruct Hu as [_ Hu]. apply try_ok_iff in Hu as ((t2 & x) & Hu & [= <-]). cbn. destruct (lr_State current); [by injection Hu as <- _|].
  apply try_ok_iff in Hu as (t3 & Hu & [= <- <-]). apply cutover_ok in Hu as (_ & w & _ & _ & Hu). by apply update_run_ok in Hu as (-> & _).
Qed.

Lemma world_tables {A} w (r : res (tables * A)) :
  (forall t a, r = Ok (t, a) -> tables_inv (lw_t w) -> tables_inv t) -> (forall t a, r = Ok (t, a) -> effects_move (lw_t w) t) ->
  world_inv w -> world_inv (on_tables w r).
Proof.
  intros H1 H2 I. destruct r as [[t a]|]; [|done]. cbn. apply running_moves; [|by eapply H2|done]. by eapply H1, I.
Qed.

Lemma bootstrap_effects t org actor evidence now t' r :
  Bootstrap pg_time t org actor evidence now = Ok (t', r) -> tb_effects t' = tb_effects t.
Proof.
  unfold Bootstrap. rewrite !check_ok_iff. intros (_ & _ & H). destruct (tb_epochs t !! org).
  - rewrite !check_ok_iff in H. destruct H as (_ & _ & [-> _]%commit_ok). by destruct (tb_events t !! _).
  - apply try_ok_iff in H as (t1 & [-> _]%insert_event_ok & H). rewrite check_ok_iff in H. by destruct H as [_ [-> _]%commit_ok].
Qed.

Lemma promote_effects t org expected evidence margin runID now t' run :
  open_promotion pg_time t org expected evidence margin runID now = Ok (t', run) -> tb_effects t' = tb_effects t.
Proof.
  unfold open_promotion. rewrite check_ok_iff, try_ok_iff. intros [_ ((t1 & changed) & Hi & H)].
  apply try_ok_iff in H as (run' & _ & H). rewrite check_ok_iff in H. destruct H as [_ [= <- _]].
  unfold insert_run in Hi. rewrite check_ok_iff in Hi. destruct Hi as [_ Hi].
  destruct (tb_runs t !! _); [by injection Hi as <- _|]. rewrite check_ok_iff in Hi. by destruct Hi as [_ [= <- _]].
Qed.

Lemma ready_effects t org e evidence now t' run :
  MarkPromotionReady pg_time t org e evidence now = Ok (t', run) -> tb_effects t' = tb_effects t.
Proof.
  unfold MarkPromotionReady. rewrite !check_ok_iff. intros (_ & _ & H). destruct (tb_runs t !! _); [|done].
  destruct (_ && _); [by injection H as <- _|]. rewrite !check_ok_iff in H. destruct H as (_ & _ & _ & H).
  destruct (update_run _ _ _) as [t1|] eqn:Hu; [|done]. injection H as <- _. by apply update_run_ok in Hu as (-> & _).
Qed.

Lemma complete_run_effects t org e evidence now t' run :
  CompletePromotion pg_time t org e evidence now = Ok (t', run) -> tb_effects t' = tb_effects t.
Proof.
  unfold CompletePromotion. rewrite !check_ok_iff. intros (_ & H). destruct (tb_runs t !! _); [|done]. rewrite !check_ok_iff in H.
  destruct H as (_ & _ & H). destruct (update_run _ _ _) as [t1|] eqn:Hu; [|done]. injection H as <- _. by apply update_run_ok in Hu as (-> & _).
Qed.

Lemma abandon_effects t org e id actor evidence now t' :
  AbandonEffect pg_time t org e id actor evidence now = Ok t' -> effects_move t t'.
Proof.
  unfold AbandonEffect. rewrite check_ok_iff, try_ok_iff. intros (Hv & r & Hr & H). rewrite !check_ok_iff in H. destruct H as (_ & _ & H).
  destruct (tb_effects t !! id) as [f|] eqn:E; [|done]. rewrite check_ok_iff, try_ok_iff in H. destruct H as (_ & t1 & [-> _]%resolve_ok & [= <-]).
  intros id' f' Hf'. cbn. destruct (decide (id = id')) as [<-|Hd]; [rewrite lookup_insert_eq|rewrite lookup_insert_ne by done; by exists f'].
  rewrite E in Hf'. injection Hf' as <-. eexists. split; [done|]. by split_and!.
Qed.

Lemma complete_others t id sink now t' id' :
  completeEffect pg_time t id sink now = Ok t' -> id' <> id -> tb_effects t' !! id' = tb_effects t !! id'.
Proof.
  unfold completeEffect. destruct (tb_effects t !! id); [|done]. rewrite check_ok_iff, try_ok_iff. intros (_ & t1 & [-> _]%resolve_ok & [= <-]) Hd.
  cbn. by rewrite lookup_insert_ne.
Qed.

Lemma lexec_inv w op : world_inv w -> world_inv (lexec w op).
Proof.
  intros I. destruct op; cbn -[begin_drain Advance].
  1: apply world_tables; [apply bootstrap_inv| intros ?? H; by eapply effects_same, bootstrap_effects|done].
  1: apply world_tables; [apply drain_inv| intros ?? H; by eapply effects_same, transition_effects|done].
  1: apply world_tables; [apply advance_inv| |done]. 
  1: { intros ?? H. unfold Advance in H. apply check_ok_iff in H as [_ H]. by eapply effects_same, transition_effects. }
  1: apply world_tables; [apply promote_inv| intros ?? H; by eapply effects_same, promote_effects|done].
  1: apply world_tables; [apply ready_inv| intros ?? H; by eapply effects_same, ready_effects|done].
  1: apply world_tables; [apply complete_run_inv| intros ?? H; by eapply effects_same, complete_run_effects|done].
  1: apply world_tables; [intros ?? (? & H & [= <- _])%try_ok_iff; by eapply abandon_inv| |done].
  1: { intros ?? (? & H & [= <- _])%try_ok_iff. by eapply abandon_effects. }
  - destruct (fence_admit _ _ _ _ _ _ _) as [[t b]|] eqn:E; [|done]. pose proof (admit_inv _ _ _ _ _ _ _ _ E (wi_tables _ I)) as It.
    apply admit_ok in E as (r & Hr & Hv & Hb). destruct b.
    + destruct Hb as (_ & _ & Hn & _ & ->). split; [done|]. cbn. intros id org' e s [[<- [= <- <- <-]]|[Hd Hid]]%lookup_insert_Some.
      * rewrite lookup_insert_eq. eexists. by split_and!.
      * rewrite lookup_insert_ne by done. by apply (wi_running _ I).
    + destruct Hb as (_ & _ & _ & ->). apply running_moves; [done|by apply effects_same|done].
  - destruct (lw_running w !! effectID) as [[[org e] sink]|]; [|done]. split; cbn.
    + destruct (completeEffect _ _ _ _ _) eqn:E; [by eapply complete_inv, I|apply I].
    + intros id org' e' s [Hd Hid]%lookup_delete_Some. destruct (completeEffect _ _ _ _ _) eqn:E; [|by apply (wi_running _ I)].
      rewrite (complete_others _ _ _ _ _ _ E) by done. by apply (wi_running _ I).
  - split; cbn; [apply I|]. intros id org e s [Hd Hid]%lookup_delete_Some. by apply (wi_running _ I).
  - apply running_moves; [by apply inv_instruments, I|by apply effects_same|done].
Qed.

Lemma lrun_inv ops : world_inv (lrun ops).
Proof.
  unfold lrun. assert (I : world_inv (mkLWorld no_tables ∅)).
  { split; [apply empty_inv|]. cbn. intros id org e s H. by rewrite lookup_empty in H. }
  revert I. generalize (mkLWorld no_tables ∅). induction ops as [|op ops IH]; intros w I; cbn [foldl]; [done|]. by apply IH, lexec_inv.
Qed.

(** A running callback is in flight under its organisation's epoch, or an operator abandoned
    it and the row says who and on what evidence. *)
Definition fence_held (w : lworld) (id org : string) (e : Z) : Prop :=
  exists f r, tb_effects (lw_t w) !! id = Some f /\ tb_epochs (lw_t w) !! org = Some r /\ ef_OrganizationID f = org /\ ef_Epoch f = e /\
    ((ef_State f = InFlight /\ lr_Epoch r = e) \/
     (ef_State f = Abandoned /\ exists actor evidence, ef_resolution f = Some (actor, evidence) /\ validMutation org actor evidence = true)).

Lemma running_held w id org e sink : world_inv w -> lw_running w !! id = Some (org, e, sink) -> fence_held w id org e.
Proof.
  intros I Hid. destruct (wi_running _ I _ _ _ _ Hid) as (f & Hf & Ho & He & _ & Hs).
  destruct (ti_effects _ (wi_tables _ I) _ _ Hf) as [(r & Hr & _ & Hin) Hres]. rewrite Ho in *. exists f, r. split_and!; try done.
  destruct (ef_State f); [left|done|right].
  - split; [done|]. rewrite <-He. symmetry. by apply Hin.
  - split; [done|]. apply Hres.
Qed.

(** ** Properties *)

(** C15: fencing of the controlled effects. In any run, a callback that is still running was
    admitted under an epoch that is still its organisation's epoch, unless an operator
    abandoned the effect while that epoch drained, and then the row names the operator and
    the evidence. So two callbacks that were not abandoned never run under different epochs:
    a new leader never acts beside the old one. *)
Theorem running_effects_fenced (ops : list lop) (id org : string) (e : Z) (sink : string) :
  lw_running (lrun ops) !! id = Some (org, e, sink) ->
  exists f r, tb_effects (lw_t (lrun ops)) !! id = Some f /\ tb_epochs (lw_t (lrun ops)) !! org = Some r /\
    ef_OrganizationID f = org /\ ef_Epoch f = e /\
    ((ef_State f = InFlight /\ lr_Epoch r = e) \/
     (ef_State f = Abandoned /\ exists actor evidence, ef_resolution f = Some (actor, evidence) /\ validMutation org actor evidence = true)).
Proof. apply running_held, lrun_inv. Qed.

(** C16: what a promotion guarantees. Once an organisation is past epoch [e], no effect of
    [e] is in flight and the promotion run of [e] was cut over; if the run is COMPLETE,
    every controlled sink has refused, after the cutover, an effect presented under [e]. *)
Theorem promotion_seals_epoch (ops : list lop) (org : string) (r : LeadershipRecord) (e : Z) :
  tb_epochs (lw_t (lrun ops)) !! org = Some r -> 1 <= e < lr_Epoch r ->
  any_in_flight (lw_t (lrun ops)) org e = false /\
  exists w, tb_runs (lw_t (lrun ops)) !! (org, e) = Some w /\ promoted (pw_State w) /\ promotion_row_ok w = true /\
    (pw_State w = PromotionComplete -> forall sink, sink ∈ controlledSinks ->
       exists id rj, tb_rejections (lw_t (lrun ops)) !! id = Some rj /\ rj_Sink rj = sink /\
         counted_rejection org e (e + 1) (default 0 (pw_cutover_at w)) rj = true).
Proof.
  intros Hr Hlt. pose proof (wi_tables _ (lrun_inv ops)) as I. split.
  - unfold any_in_flight. apply negb_false_iff, bool_decide_eq_true. apply map_empty. intros id. apply map_lookup_filter_None. right. intros f Hf Hin. cbn in Hin.
    destruct (ti_effects _ I _ _ Hf) as [(r0 & Hr0 & _ & Hc) _]. unfold in_flight in Hin. to_prop. destruct Hin as [[Ho He] Hs].
    rewrite Ho, Hr in Hr0. injection Hr0 as <-. specialize (Hc Hs). lia.
  - destruct (ti_promoted _ I _ _ _ Hr Hlt) as [w Hw]. exists w. destruct (ti_runs _ I _ _ _ Hw) as [R1 R2 R3 (r0 & Hr0 & Hd) R5].
    rewrite Hr in Hr0. injection Hr0 as <-. split_and!; try done. destruct Hd as [[_ ?]|[-> _]]; [done|lia].
Qed.

(** ** Recovery: a drain can always be finished *)

(** What an operator does to a draining organisation: abandon the effects of its epoch that
    are left, open the promotion, mark it ready and advance. *)
Definition recovery (t : tables) (org : string) (e : Z) (actor evidence : string) (margin : duration) (runID : string) (now dbnow : time) :
    list lop :=
  map (fun id => O_abandon org e id actor evidence now) (map fst (map_to_list (in_flight_effects t org e))) ++
  [O_promote org e evidence margin runID now; O_ready org e evidence now; O_advance dbnow org e actor evidence now].

(** Tables that differ in their effects and the transaction counter only. *)
Definition same_but_effects (t t' : tables) : Prop :=
  tb_epochs t' = tb_epochs t /\ tb_events t' = tb_events t /\ tb_runs t' = tb_runs t /\ tb_bearers t' = tb_bearers t /\
  tb_attestations t' = tb_attestations t.

Lemma abandon_step w org e id actor evidence now f r :
  world_inv w -> tb_epochs (lw_t w) !! org = Some r -> lr_Epoch r = e -> lr_State r = Draining -> e <= maxEpoch ->
  validMutation org actor evidence = true -> tb_effects (lw_t w) !! id = Some f -> in_flight org e f = true ->
  let w' := lexec w (O_abandon org e id actor evidence now) in
  same_but_effects (lw_t w) (lw_t w') /\
  exists f', tb_effects (lw_t w') = <[id := f']> (tb_effects (lw_t w)) /\ ef_State f' = Abandoned.
Proof.
  intros I Hr He Hs Hm Hv Hf Hin. pose proof (ri_epoch _ _ _ (ti_rows _ (wi_tables _ I) _ _ Hr)) as Hpos.
  pose proof (ti_ids _ (wi_tables _ I) _ _ Hf) as Hid. cbn. unfold AbandonEffect, leadership_get.
  rewrite Hr, Hf, Hv, Hin, He, Hs, Hid, Z.eqb_refl.
  rewrite (proj2 (Z.eqb_neq e 0)), (proj2 (Z.leb_le e maxEpoch)) by lia. cbn [negb andb]. rewrite bool_decide_eq_true_2 by done.
  unfold resolve_effect, in_flight in *. to_prop. destruct Hin as [[Ho He'] Hst]. rewrite Ho, Hr, He, He', Hst, Hs, Z.eqb_refl.
  rewrite !bool_decide_eq_true_2, bool_decide_eq_false_2 by done. cbn. split; [by split_and!|]. eexists. by split.
Qed.

Lemma abandon_all org e actor evidence now r : forall ids w,
  world_inv w -> tb_epochs (lw_t w) !! org = Some r -> lr_Epoch r = e -> lr_State r = Draining -> e <= maxEpoch ->
  validMutation org actor evidence = true -> NoDup ids ->
  (forall id, id ∈ ids -> exists f, tb_effects (lw_t w) !! id = Some f /\ in_flight org e f = true) ->
  let w' := foldl lexec w (map (fun id => O_abandon org e id actor evidence now) ids) in
  world_inv w' /\ same_but_effects (lw_t w) (lw_t w') /\
  forall id f, tb_effects (lw_t w') !! id = Some f -> in_flight org e f = true -> id ∉ ids /\ tb_effects (lw_t w) !! id = Some f.
Proof.
  induction ids as [|id ids IH]; intros w I Hr He Hs Hm Hv Hnd Hall; cbn [map foldl].
  - split_and!; [done|by repeat split|]. intros id f Hf _. split; [apply not_elem_of_nil|done].
  - apply NoDup_cons in Hnd as [Hni Hnd]. destruct (Hall id) as (f & Hf & Hin); [apply elem_of_cons; by left|].
    destruct (abandon_step _ org e id actor evidence now _ _ I Hr He Hs Hm Hv Hf Hin) as ((S1 & S2 & S3 & S4 & S5) & f' & Hfx & Hst).
    set (w1 := lexec w _) in *. destruct (IH w1) as (I' & (T1 & T2 & T3 & T4 & T5) & Hrest); try done; [by apply lexec_inv|by rewrite S1|..].
    + intros id' Hid'. rewrite Hfx. assert (id <> id') by (intros ->; done). rewrite lookup_insert_ne by done.
      apply Hall, elem_of_cons. by right.
    + split_and!; [done|unfold same_but_effects; split_and!; congruence|]. intros id' g Hg Hg'.
      destruct (Hrest _ _ Hg Hg') as [Hn Hg1]. rewrite Hfx in Hg1. apply lookup_insert_Some in Hg1 as [[<- <-]|[Hne Hg1]].
      * unfold in_flight in Hg'. rewrite Hst in Hg'. to_prop. by destruct Hg'.
      * split; [|done]. rewrite elem_of_cons. naive_solver.
Qed.

Lemma attestation_margin t org m m' now : m <= m' -> live_attestation t org m' now = false -> live_attestation t org m now = false.
Proof.
  intros Hle. unfold live_attestation. rewrite <-!not_true_iff_false. intros Hn Hc. apply Hn. apply existsb_exists in Hc as (p & Hp & Hc).
  apply existsb_exists. exists p. split; [done|]. to_prop. destruct Hc as [Ho Hc]. split; [done|]. destruct p.2; [|done]. to_prop.
  unfold Second in *. lia.
Qed.

(** The margin and the state of a run, out of its CHECKs. *)
Lemma row_ok_margin w : promotion_row_ok w = true -> pw_margin_seconds w <= 3600.
Proof. unfold promotion_row_ok. rewrite !andb_true_iff. intros H. decompose [and] H. to_prop. lia. Qed.

Lemma promote_step w org e evidence margin runID now r :
  world_inv w -> tb_epochs (lw_t w) !! org = Some r -> lr_Epoch r = e -> lr_State r = Draining -> e < maxEpoch ->
  hash_pattern evidence = true -> hash_pattern runID = true -> valid_margin margin = true ->
  map_Forall (fun _ other => pw_RunID other <> runID) (tb_runs (lw_t w)) ->
  let w' := lexec w (O_promote org e evidence margin runID now) in
  tb_epochs (lw_t w') = tb_epochs (lw_t w) /\ tb_effects (lw_t w') = tb_effects (lw_t w) /\ tb_bearers (lw_t w') = tb_bearers (lw_t w) /\
  tb_attestations (lw_t w') = tb_attestations (lw_t w) /\
  exists x, tb_runs (lw_t w') !! (org, e) = Some x /\ (tb_runs (lw_t w) !! (org, e) = Some x \/ (pw_started_at x = pg_time now /\ pw_ready_at x = None)).
Proof.
  intros I Hr He Hs Hm Hev Hrun Hmg Hfresh. pose proof (ri_epoch _ _ _ (ti_rows _ (wi_tables _ I) _ _ Hr)) as Hpos. cbn. unfold open_promotion.
  unfold draining_at, leadership_get. rewrite Hr, He, Hs, Z.eqb_refl, bool_decide_eq_true_2 by done. cbn [andb].
  unfold insert_run. cbn. match goal with |- context [promotion_row_ok ?x] => set (row := x) end.
  assert (Hok : promotion_row_ok row = true).
  { unfold promotion_row_ok, valid_margin in *. to_prop. destruct Hmg as [[Hg1 Hg2] Hg3]. unfold Hour, Minute in Hg2.
    assert (1 <= margin / Second <= 3600).
    { split; [apply Z.div_le_lower_bound; unfold Second in *; lia|]. apply Z.div_le_upper_bound; unfold Second in *; lia. }
    split_and!; try done; cbn -[maxEpoch Z.div Z.add]; lia. }
  rewrite Hok. destruct (tb_runs (lw_t w) !! (org, e)) as [x|] eqn:E.
  - unfold loadPromotion. rewrite E. match goal with |- context [if ?b then _ else _] => destruct b end; cbn; split_and!; try done; exists x; auto.
  - rewrite bool_decide_eq_true_2 by done. unfold loadPromotion. cbn. rewrite lookup_insert_eq. cbn. split_and!; try done. exists row.
    rewrite lookup_insert_eq. auto.
Qed.

Lemma ready_step w org e evidence now r x :
  world_inv w -> tb_epochs (lw_t w) !! org = Some r -> lr_Epoch r = e -> lr_State r = Draining -> e <= maxEpoch -> validOrganization org = true ->
  hash_pattern evidence = true -> tb_runs (lw_t w) !! (org, e) = Some x -> pw_started_at x <= pg_time now ->
  match pw_ready_at x with None => True | Some at_ => at_ <= pg_time now end ->
  live_bearer (lw_t w) org = false -> attestations_readable (lw_t w) org = true -> live_attestation (lw_t w) org 3600 (pg_time now) = false ->
  let w' := lexec w (O_ready org e evidence now) in
  tb_epochs (lw_t w') = tb_epochs (lw_t w) /\ tb_effects (lw_t w') = tb_effects (lw_t w) /\ tb_bearers (lw_t w') = tb_bearers (lw_t w) /\
  tb_attestations (lw_t w') = tb_attestations (lw_t w) /\
  exists y, tb_runs (lw_t w') !! (org, e) = Some y /\ pw_State y = PromotionReady /\ opt_le (pw_ready_at y) (pg_time now) = true.
Proof.
  intros I Hr He Hs Hm Hv Hev Hx Hst Hrd Hlb Har Hla. pose proof (ri_epoch _ _ _ (ti_rows _ (wi_tables _ I) _ _ Hr)) as Hpos.
  destruct (ti_runs _ (wi_tables _ I) _ _ _ Hx) as [R1 R2 R3 (r0 & Hr0 & Hd) R5]. rewrite Hr in Hr0. injection Hr0 as <-.
  destruct Hd as [[? _]|(_ & _ & Hnp)]; [lia|]. cbn. unfold MarkPromotionReady.
  assert (Hdr : draining_at (lw_t w) org e = true).
  { unfold draining_at, leadership_get. by rewrite Hr, He, Hs, Z.eqb_refl, bool_decide_eq_true_2. }
  rewrite Hdr, Hx, Hv, Hev, (proj2 (Z.eqb_neq e 0)), (proj2 (Z.leb_le e maxEpoch)) by lia. cbn [negb andb].
  destruct (pw_State x) eqn:Hps; [..|destruct Hnp; by left|destruct Hnp; by right].
  - rewrite bool_decide_eq_false_2 by done. cbn [andb]. rewrite bool_decide_eq_true_2 by done. rewrite Har, Hlb.
    rewrite (attestation_margin _ _ _ _ _ (row_ok_margin _ R3) Hla). cbn [orb negb].
    assert (Hu : update_run (lw_t w) x (mark_ready pg_time x evidence now) =
                 Ok (set_runs (lw_t w) (<[(org, e) := mark_ready pg_time x evidence now]> (tb_runs (lw_t w))))).
    { unfold update_run, same_run. cbn. rewrite Hps, !Z.eqb_refl, !bool_decide_eq_true_2 by done. rewrite bool_decide_eq_false_2 by naive_solver. cbn.
      rewrite R1, R2. match goal with |- context [promotion_row_ok ?y] => assert (promotion_row_ok y = true) as -> end; [|done].
      unfold promotion_row_ok in *. cbn. rewrite Hps in R3. rewrite Hev, (proj2 (Z.leb_le _ _) Hst).
      destruct (pw_cutover_at x), (pw_completion_evidence x), (pw_completed_at x); cbn in *; rewrite ?andb_false_r in R3; try done.
      rewrite !andb_true_iff in *. naive_solver. }
    rewrite Hu. cbn. split_and!; try done. eexists. rewrite lookup_insert_eq. split_and!; [done..|]. cbn. apply Z.leb_refl.
  - assert (Hro : opt_le (pw_ready_at x) (pg_time now) = true).
    { unfold promotion_row_ok in R3. rewrite Hps in R3. destruct (pw_ready_at x); [by apply Z.leb_le|]. by rewrite ?andb_false_r in R3. }
    rewrite (bool_decide_eq_true_2 (PromotionReady = PromotionReady)) by done. rewrite (bool_decide_eq_false_2 (PromotionReady = PromotionDraining)) by done.
    cbn [andb]. destruct (bool_decide _); cbn; split_and!; try done; by exists x.
Qed.

Lemma advance_step w dbnow org e actor evidence now r x :
  world_inv w -> tb_epochs (lw_t w) !! org = Some r -> lr_Epoch r = e -> lr_State r = Draining -> e < maxEpoch ->
  validMutation org actor evidence = true -> in_flight_effects (lw_t w) org e = ∅ -> tb_runs (lw_t w) !! (org, e) = Some x ->
  pw_State x = PromotionReady -> opt_le (pw_ready_at x) (pg_time now) = true ->
  live_bearer (lw_t w) org = false -> attestations_readable (lw_t w) org = true -> live_attestation (lw_t w) org 3600 dbnow = false ->
  exists r', tb_epochs (lw_t (lexec w (O_advance dbnow org e actor evidence now))) !! org = Some r' /\ lr_Epoch r' = e + 1 /\ lr_State r' = Active.
Proof.
  intros I Hr He Hs Hm Hv Hf Hx Hps Hro Hlb Har Hla. pose proof (ti_rows _ (wi_tables _ I) _ _ Hr) as Hrow.
  pose proof (ri_epoch _ _ _ Hrow) as Hpos. destruct (ti_runs _ (wi_tables _ I) _ _ _ Hx) as [R1 R2 R3 _ _].
  cbn. unfold Advance. rewrite (proj2 (Z.ltb_lt e maxEpoch)) by done. unfold transition, leadership_get.
  rewrite Hv, Hr, He, Hs, Z.eqb_refl, (proj2 (Z.eqb_neq e 0)), (proj2 (Z.leb_le e maxEpoch)), bool_decide_eq_true_2 by (done || lia). cbn [negb andb].
  match goal with |- context [update_leadership _ _ _ ?y] => set (row := y) end.
  assert (Hc : cutover (lw_t w) dbnow r row = Ok (set_runs (lw_t w) (<[(org, e) := cut x (lr_UpdatedAt row)]> (tb_runs (lw_t w))))).
  { unfold cutover, any_in_flight. rewrite (ri_org _ _ _ Hrow), He, Hf, Hx, Hlb, Har, (attestation_margin _ _ _ _ _ (row_ok_margin _ R3) Hla).
    pose proof (ri_drain _ _ _ Hrow) as Hd. rewrite Hs in Hd. destruct Hd as (txid & Htx & Hlt). rewrite Htx.
    rewrite bool_decide_eq_false_2 by (intros [=]; lia). rewrite !bool_decide_eq_true_2 by done. cbn [negb].
    unfold update_run, same_run. cbn. rewrite Hps, !Z.eqb_refl, !bool_decide_eq_true_2 by naive_solver. rewrite (bool_decide_eq_false_2 (PromotionReady = PromotionCutover)) by done. cbn.
    match goal with |- context [promotion_row_ok ?y] => assert (promotion_row_ok y = true) as -> end; [|unfold cut; cbn; by rewrite R1, R2].
    assert (Hro' : opt_le (pw_ready_at x) (Z.max (pg_time now) (lr_UpdatedAt r + 1000)) = true).
    { destruct (pw_ready_at x); [|done]. cbn in *. to_prop. lia. }
    unfold promotion_row_ok in *. cbn. rewrite Hps, Hro' in *. destruct (pw_completed_at x); cbn in *; rewrite ?andb_false_r in R3; [done|].
    rewrite !andb_true_iff in *. naive_solver. }
  unfold update_leadership. rewrite (ri_org _ _ _ Hrow), Hs, Hc, bool_decide_eq_true_2 by done. unfold leadership_moves. rewrite Hs, He. cbn -[Z.add].
  rewrite Z.eqb_refl. rewrite (proj2 (Z.ltb_lt (lr_UpdatedAt r) (Z.max (pg_time now) (lr_UpdatedAt r + 1000)))) by lia. cbn -[Z.add].
  unfold insert_event, event_allowed, event_key. cbn -[Z.add]. rewrite lookup_insert_eq. cbn -[Z.add]. rewrite !Z.eqb_refl.
  assert (Hn : tb_events (lw_t w) !! (org, e + 1, Active) = None).
  { destruct (tb_events (lw_t w) !! (org, e + 1, Active)) eqn:E; [|done]. destruct (proj1 (ri_events _ _ _ Hrow (e + 1) Active)) as [?|[? _]]; [eauto|lia..]. }
  rewrite Hn. rewrite !bool_decide_eq_true_2 by done. cbn -[Z.add]. unfold require_event. cbn -[Z.add]. rewrite lookup_insert_eq. cbn -[Z.add].
  rewrite !bool_decide_eq_true_2, Z.eqb_refl by done. cbn -[Z.add]. unfold commitRecord, leadership_get. cbn -[Z.add]. rewrite lookup_insert_eq. cbn -[Z.add].
  rewrite lookup_insert_eq. eexists. by split_and!.
Qed.

(** C17: a drain can always be finished. Whatever led to it, an organisation that is draining
    epoch [e], whose instruments are settled and whose attestations have run out by the
    largest margin, reaches epoch [e + 1] by the operator's steps of [recovery], whether a
    promotion had been opened, marked ready or never started, and whatever effects were left
    in flight by processes that died. *)
Theorem draining_can_advance (ops : list lop) (org : string) (r : LeadershipRecord) (actor evidence runID : string) (margin : duration)
    (now dbnow : time) :
  let t := lw_t (lrun ops) in
  tb_epochs t !! org = Some r -> lr_State r = Draining -> lr_Epoch r < maxEpoch ->
  validMutation org actor evidence = true -> hash_pattern runID = true -> valid_margin margin = true ->
  map_Forall (fun _ other => pw_RunID other <> runID) (tb_runs t) ->
  (forall w, tb_runs t !! (org, lr_Epoch r) = Some w ->
     pw_started_at w <= pg_time now /\ match pw_ready_at w with None => True | Some at_ => at_ <= pg_time now end) ->
  live_bearer t org = false -> attestations_readable t org = true ->
  live_attestation t org 3600 (pg_time now) = false -> live_attestation t org 3600 dbnow = false ->
  exists r', tb_epochs (lw_t (lrun (ops ++ recovery t org (lr_Epoch r) actor evidence margin runID now dbnow))) !! org = Some r' /\
    lr_Epoch r' = lr_Epoch r + 1 /\ lr_State r' = Active.
Proof.
  intros t Hr Hs Hm Hv Hrun Hmg Hfresh Hw Hlb Har Hla Hla'. unfold lrun. rewrite foldl_app. fold (lrun ops). unfold recovery. rewrite foldl_app.
  set (e := lr_Epoch r) in *. set (w0 := lrun ops) in *. pose proof (lrun_inv ops : world_inv w0) as I0.
  assert (Hvo : validOrganization org = true /\ hash_pattern evidence = true) by (unfold validMutation in Hv; to_prop; naive_solver).
  destruct Hvo as [Hvo Hev].
  destruct (abandon_all org e actor evidence now r (map fst (map_to_list (in_flight_effects t org e))) w0) as (I1 & (A1 & A2 & A3 & A4 & A5) & Hnone);
    [done..|lia|done|apply NoDup_fst_map_to_list| |].
  { intros id ((id' & f) & -> & Hin)%list_elem_of_fmap. apply elem_of_map_to_list, map_lookup_filter_Some in Hin as [Hf Hin]. by exists f. }
  match goal with |- context [foldl lexec w0 ?l] => set (w1 := foldl lexec w0 l) in * end.
  assert (Hgone : in_flight_effects (lw_t w1) org e = ∅).
  { apply map_empty. intros id. apply map_lookup_filter_None. right. intros f Hf Hin. destruct (Hnone _ _ Hf Hin) as [Hni Hf0]. apply Hni.
    apply list_elem_of_fmap. exists (id, f). split; [done|]. by apply elem_of_map_to_list, map_lookup_filter_Some. }
  cbn [foldl]. assert (Hr1 : tb_epochs (lw_t w1) !! org = Some r) by (by rewrite A1).
  destruct (promote_step w1 org e evidence margin runID now r) as (B1 & B2 & B3 & B4 & x & Hx & Hxs); [done..|by rewrite A3|].
  set (w2 := lexec w1 _) in *. pose proof (lexec_inv w1 (O_promote org e evidence margin runID now) I1 : world_inv w2) as I2.
  assert (Hxt : pw_started_at x <= pg_time now /\ match pw_ready_at x with None => True | Some at_ => at_ <= pg_time now end).
  { destruct Hxs as [Hxs|[-> ->]]; [rewrite A3 in Hxs; by apply Hw|]. split; [lia|done]. }
  assert (Hsame : live_bearer (lw_t w2) org = false /\ attestations_readable (lw_t w2) org = true /\
                  live_attestation (lw_t w2) org 3600 (pg_time now) = false /\ live_attestation (lw_t w2) org 3600 dbnow = false).
  { unfold live_bearer, attestations_readable, live_attestation. rewrite B3, B4, A4, A5. by split_and!. }
  destruct Hsame as (C1 & C2 & C3 & C4).
  destruct (ready_step w2 org e evidence now r x) as (D1 & D2 & D3 & D4 & y & Hy & Hys & Hyr); try done; [by rewrite B1|lia|by destruct Hxt..|].
  set (w3 := lexec w2 _) in *. apply (advance_step w3 dbnow org e actor evidence now r y); try done.
  - by apply lexec_inv.
  - by rewrite D1, B1.
  - unfold in_flight_effects. by rewrite D2, B2.
  - unfold live_bearer. rewrite D3. apply C1.
  - unfold attestations_readable. rewrite D4. apply C2.
  - unfold live_attestation. rewrite D4. apply C4.
Qed.

(** the leadership row refines its history. The events of an organisation are exactly the
    states it went through, one each, from ACTIVE 1 to its row: ACTIVE and DRAINING for every
    epoch it left, ACTIVE for the current one and DRAINING if it drains; and the last of them
    carries the row's actor, evidence and time, and names its predecessor. *)
Theorem leadership_history (ops : list lop) (org : string) (r : LeadershipRecord) :
  tb_epochs (lw_t (lrun ops)) !! org = Some r ->
  (forall e s, is_Some (tb_events (lw_t (lrun ops)) !! (org, e, s)) <->
     1 <= e < lr_Epoch r \/ (e = lr_Epoch r /\ (s = Active \/ lr_State r = Draining))) /\
  tb_events (lw_t (lrun ops)) !! (org, lr_Epoch r, lr_State r) = Some (event_of r (predecessor r)).
Proof.
  intros Hr. destruct (ti_rows _ (wi_tables _ (lrun_inv ops)) _ _ Hr) as [H1 H2 H3 H4 H5]. split; [done|]. unfold event_of. by rewrite H1.
Qed.

(** ** The calls that span transactions *)

(** A drain that returns has no effect of its epoch left, whatever the others did while it
    waited, and the wait returns as soon as a poll finds none. *)
Lemma wait_drained : forall ticks t org e t', waitForNoEffects ticks t org e = (t', Ok tt) -> any_in_flight t' org e = false.
Proof.
  induction ticks as [|others ticks IH]; intros t org e t'; cbn; destruct (any_in_flight t org e) eqn:E; cbn; try (by intros [= <-]). apply IH.
Qed.

Lemma drain_returns_drained ticks t dbnow org e actor evidence now t' r :
  BeginDrain pg_time ticks t dbnow org e actor evidence now = (t', Ok r) -> any_in_flight t' org e = false.
Proof.
  unfold BeginDrain. destruct (begin_drain _ _ _ _ _ _ _ _) as [[t1 record]|] eqn:E; [|done].
  destruct (waitForNoEffects ticks t1 org e) as [t2 [[]|]] eqn:Ew; [|done]. intros [= <- <-]. by eapply wait_drained.
Qed.

(** The admission and the resolution of an effect are the steps of a run. *)
Lemma fence_sink_runs ops effectID org e sink now resolvedAt during :
  let effect t := (lw_t (foldl lexec (mkLWorld t (<[effectID := (org, e, sink)]> (lw_running (lrun ops)))) during), None) in
  forall t, FenceSink pg_time (lw_t (lrun ops)) effectID org e sink effect now resolvedAt = (t, Ok tt) ->
  exists w, w = foldl lexec (lexec (lrun ops) (O_admit effectID org e sink now)) during /\
    completeEffect pg_time (lw_t w) effectID sink resolvedAt = Ok t.
Proof.
  intros effect t. unfold FenceSink. cbn [lexec]. destruct (fence_admit _ _ _ _ _ _ _) as [[t1 []]|] eqn:E; [|done..]. cbn.
  destruct (completeEffect _ _ _ _ _) eqn:Ec; [|done]. intros [= <-]. eexists. by split.
Qed.

(** A retry of [BeginPromotion] does not wait: with the organisation already draining, the
    promotion is opened at once, whatever effects are still in flight. *)
Lemma promotion_retry_does_not_wait ticks t dbnow org r e actor evidence margin runID now later :
  tb_epochs t !! org = Some r -> lr_Epoch r = e -> lr_State r = Draining -> 1 <= e <= maxEpoch ->
  validMutation org actor evidence = true -> valid_margin margin = true ->
  BeginPromotion pg_time ticks (fun t => t) t dbnow org e actor evidence margin runID now later =
  settle t (open_promotion pg_time t org e evidence margin runID later).
Proof.
  intros Hr He Hs Hb Hv Hm. unfold BeginPromotion. rewrite Hm, Hv. cbn [negb andb]. unfold BeginDrain, begin_drain, transition, leadership_get.
  rewrite Hr, Hv, He, Hs, Z.eqb_refl, (proj2 (Z.eqb_neq e 0)), (proj2 (Z.leb_le e maxEpoch)) by lia. cbn [negb andb].
  rewrite (bool_decide_eq_false_2 (Draining = Active)) by done. rewrite bool_decide_eq_false_2 by done. unfold draining_at at 1, leadership_get.
  rewrite Hr, He, Hs, Z.eqb_refl, bool_decide_eq_true_2 by done. unfold validMutation in Hv. to_prop. by destruct Hv as [[-> _] _].
Qed.

End Runs.
