(* ===== verification/LeadershipDemo.v ===== *)
(** * Leadership at work

    An organisation with an effect left in flight by a process that died, its promotion to
    the second epoch with all six sinks refusing the first, and the witnesses of the
    theorems of [LeadershipTheorems]. Times keep whole microseconds. *)
From stdpp Require Import base gmap strings list sorting.
From Stdlib Require Import ZArith Lia Ascii.
From S2P Require Import Prelude GoText GoJSON Leadership LeadershipTheorems.

Open Scope Z_scope.

Definition micro (t : time) : time := t / 1000 * 1000.

Definition demo_org : string := "acme".
Definition demo_actor : string := "operator@acme".
Definition demo_evidence : string := "0x" +:+ str_repeat "ab" 32.
Definition demo_id (c : string) : string := "0x" +:+ str_repeat c 64.
Definition demo_time (s : Z) : time := time_of_unix (1750000000 + s).

(** Epoch 1 drains while one effect's callback has returned and another's process died. *)
Definition demo_drain : list lop :=
  [O_bootstrap demo_org demo_actor demo_evidence (demo_time 0);
   O_admit (demo_id "1") demo_org 1 "SIGNER_ISSUANCE" (demo_time 10);
   O_admit (demo_id "2") demo_org 1 "KEEPER_RELAY" (demo_time 11);
   O_finish (demo_id "1") (demo_time 12);
   O_drain (demo_time 20) demo_org 1 demo_actor demo_evidence (demo_time 20);
   O_instruments [(demo_org, false)] [(demo_org, Some 1750000000)];
   O_crash (demo_id "2")].

Definition demo_rejections : list lop :=
  imap (fun i sink => O_admit (demo_id (String (char_of (51 + Z.of_nat i)) "")) demo_org 1 sink (demo_time (9001 + Z.of_nat i))) controlledSinks.

Definition demo_promotion : list lop :=
  demo_drain ++
  [O_abandon demo_org 1 (demo_id "2") demo_actor demo_evidence (demo_time 8000);
   O_promote demo_org 1 demo_evidence Second (demo_id "a") (demo_time 8000);
   O_ready demo_org 1 demo_evidence (demo_time 9000);
   O_advance (demo_time 9000) demo_org 1 demo_actor demo_evidence (demo_time 9000)] ++
  demo_rejections ++ [O_complete_run demo_org 1 demo_evidence (demo_time 9100); O_admit (demo_id "f") demo_org 2 "OUTBOX_DISPATCH" (demo_time 9200)].

Definition row_at (ops : list lop) : option (Z * LeadershipState) :=
  (fun r => (lr_Epoch r, lr_State r)) <$> tb_epochs (lw_t (lrun micro ops)) !! demo_org.

Example demo_drained : row_at demo_drain = Some (1, Draining).
Proof. vm_compute. reflexivity. Qed.

Example demo_promoted :
  row_at demo_promotion = Some (2, Active) /\
  pw_State <$> tb_runs (lw_t (lrun micro demo_promotion)) !! (demo_org, 1) = Some PromotionComplete.
Proof. vm_compute. by split. Qed.

Lemma found_row ops e s : row_at ops = Some (e, s) ->
  exists r, tb_epochs (lw_t (lrun micro ops)) !! demo_org = Some r /\ lr_Epoch r = e /\ lr_State r = s.
Proof. unfold row_at. intros (r & Hr & [= -> ->])%fmap_Some. by exists r. Qed.

Lemma running_effects_fenced_witness :
  exists f r, tb_effects (lw_t (lrun micro demo_promotion)) !! demo_id "f" = Some f /\ tb_epochs (lw_t (lrun micro demo_promotion)) !! demo_org = Some r /\
    ef_OrganizationID f = demo_org /\ ef_Epoch f = 2 /\
    ((ef_State f = InFlight /\ lr_Epoch r = 2) \/
     (ef_State f = Abandoned /\ exists actor evidence, ef_resolution f = Some (actor, evidence) /\ validMutation demo_org actor evidence = true)).
Proof. apply (running_effects_fenced micro demo_promotion (demo_id "f") demo_org 2 "OUTBOX_DISPATCH"). vm_compute. reflexivity. Defined.

Lemma promotion_seals_epoch_witness :
  exists w, tb_runs (lw_t (lrun micro demo_promotion)) !! (demo_org, 1) = Some w /\ promoted (pw_State w) /\
    exists id rj, tb_rejections (lw_t (lrun micro demo_promotion)) !! id = Some rj /\ rj_Sink rj = "CHECKPOINT_WRITE".
Proof.
  destruct (found_row _ _ _ (proj1 demo_promoted)) as (r & Hr & He & _).
  destruct (promotion_seals_epoch micro demo_promotion demo_org r 1 Hr) as (_ & w & Hw & Hp & _ & Hs); [lia|].
  exists w. split; [exact Hw|]. split; [exact Hp|]. destruct (Hs) with (sink := "CHECKPOINT_WRITE") as (id & rj & Hid & Hsk & _).
  - pose proof (proj2 demo_promoted) as Hc. rewrite Hw in Hc. by injection Hc.
  - unfold controlledSinks. repeat (apply elem_of_cons; (left; reflexivity) || right).
  - exists id, rj. split; [exact Hid|exact Hsk].
Defined.

Lemma demo_no_runs : tb_runs (lw_t (lrun micro demo_drain)) = ∅.
Proof. vm_compute. reflexivity. Qed.

Lemma draining_can_advance_witness :
  exists r', tb_epochs (lw_t (lrun micro (demo_drain ++ recovery (lw_t (lrun micro demo_drain)) demo_org 1 demo_actor demo_evidence Second (demo_id "a")
                                                          (demo_time 9000) (demo_time 9000)))) !! demo_org = Some r' /\
    lr_Epoch r' = 2 /\ lr_State r' = Active.
Proof.
  destruct (found_row _ _ _ demo_drained) as (r & Hr & He & Hs).
  destruct (draining_can_advance micro demo_drain demo_org r demo_actor demo_evidence (demo_id "a") Second (demo_time 9000) (demo_time 9000) Hr Hs)
    as (r' & Hr' & He' & Hs').
  - rewrite He. reflexivity.
  - vm_compute. reflexivity.
  - vm_compute. reflexivity.
  - vm_compute. reflexivity.
  - rewrite demo_no_runs. apply map_Forall_empty.
  - intros w. rewrite demo_no_runs, lookup_empty. discriminate.
  - vm_compute. reflexivity.
  - vm_compute. reflexivity.
  - vm_compute. reflexivity.
  - vm_compute. reflexivity.
  - rewrite He in Hr', He'. exists r'. split; [exact Hr'|]. split; [exact He'|exact Hs'].
Defined.

Lemma leadership_history_witness :
  exists r, tb_epochs (lw_t (lrun micro demo_promotion)) !! demo_org = Some r /\
    is_Some (tb_events (lw_t (lrun micro demo_promotion)) !! (demo_org, 1, Draining)) /\
    tb_events (lw_t (lrun micro demo_promotion)) !! (demo_org, lr_Epoch r, lr_State r) = Some (event_of r (predecessor r)).
Proof.
  destruct (found_row _ _ _ (proj1 demo_promoted)) as (r & Hr & He & Hs). exists r. split; [exact Hr|].
  destruct (leadership_history micro demo_promotion demo_org r Hr) as [H1 H2]. split; [|exact H2]. apply H1. left. lia.
Defined.

(** The promotion of a draining organisation is opened beside an effect in flight. *)
Example demo_opened_undrained :
  let t := lw_t (lrun micro demo_drain) in
  let result := BeginPromotion micro [] (fun t => t) t (demo_time 30) demo_org 1 demo_actor demo_evidence Second (demo_id "a") (demo_time 30)
                  (demo_time 31) in
  any_in_flight t demo_org 1 = true /\ is_ok (snd result) = true.
Proof. vm_compute. by split. Qed.
