(* ===== verification/Keeper.v ===== *)
(** * The keeper: jobs, fees and transactions ([internal/ascpkeeper/keeper.go], [binding.go], [expiry.go])

    The relay that turns activated bearers, and expired escrow calls, into chain
    transactions. go-ethereum's decoding of a signed transaction and the recovery of its
    sender are parameters. *)
From stdpp Require Import base gmap strings list.
From Stdlib Require Import ZArith Lia Ascii.
From S2P Require Import Prelude GoText GoJSON Amounts Crypto Envelope GovAction GovActionTheorems SafeTx.

Open Scope Z_scope.

Inductive KeeperAction := ActionLock | ActionRelease | ActionRefund | ActionClaimExpired | ActionAdmin.
Inductive KeeperState :=
| StateQueued | StatePrepared | StateBroadcasting | StateSubmitted | StateConfirmed | StateFinalized | StateReverted | StateReorged
| StateTimedOut | StateAmbiguous | StateDeadLetter.
Inductive KeeperAttemptState :=
| AttemptPrepared | AttemptBroadcasting | AttemptSubmitted | AttemptConfirmed | AttemptReplaced | AttemptAmbiguous | AttemptRejected
| AttemptReverted | AttemptReorged | AttemptFinalized.

#[export] Instance KeeperAction_eq_dec : EqDecision KeeperAction.
Proof. solve_decision. Defined.
#[export] Instance KeeperState_eq_dec : EqDecision KeeperState.
Proof. solve_decision. Defined.
#[export] Instance KeeperAttemptState_eq_dec : EqDecision KeeperAttemptState.
Proof. solve_decision. Defined.

Definition ErrKeeperConfig : error := "invalid keeper configuration".
Definition ErrKeeperJob : error := "invalid keeper job".
Definition ErrKeeperTransaction : error := "invalid keeper transaction".
Definition ErrKeeperLeaseLost : error := "keeper lease lost".
Definition ErrKeeperNoWork : error := "no keeper work available".
Definition ErrKeeperConflict : error := "keeper state conflict".
Definition ErrSignatureUnavailable : error := "activated signature unavailable".
Definition ErrKeeperAmbiguous : error := "keeper broadcast outcome is ambiguous".
Definition ErrBroadcastUnderpriced : error := "keeper replacement fee is underpriced".
Definition ErrBroadcastRejected : error := "keeper broadcast was deterministically rejected".
Definition ErrUnsafeReplacement : error := "keeper replacement is not proven safe".
Definition ErrFeeBumpsExhausted : error := "keeper fee bump limit exhausted".

Record KeeperFee := mkFee { fe_MaxFeePerGasWei : string; fe_MaxPriorityFeePerGasWei : string }.
#[export] Instance KeeperFee_eq_dec : EqDecision KeeperFee.
Proof. solve_decision. Defined.

(** The fields a job is created with, [EnqueueInput]; a zero time is an absent one. *)
Record EnqueueInput := mkEnqueue {
  ei_JobID : string; ei_OperationID : string; ei_OrganizationID : string; ei_Action : KeeperAction; ei_ChainID : Z; ei_KeeperID : string;
  ei_GasPayer : string; ei_Target : string; ei_ValueWei : string; ei_CanonicalPayload : string; ei_CanonicalPayloadHash : string;
  ei_AuthorizationDigest : string; ei_SignerHandle : string; ei_SignerAddress : string; ei_ValidAfter : time; ei_ValidBefore : time;
  ei_EligibleAfter : time; ei_EligibilityEvidenceDigest : string; ei_EligibilityObservedAt : time; ei_LeadershipEpoch : Z }.

(** [Job]: what it was created with, and what the store changes. *)
Record KeeperJob := mkKeeperJob {
  kj_Input : EnqueueInput; kj_State : KeeperState; kj_LeaseOwner : string; kj_LeaseToken : string; kj_LeaseExpiresAt : time;
  kj_AttemptCount : Z; kj_CurrentAttempt : Z; kj_CreatedAt : time; kj_UpdatedAt : time; kj_LastError : string }.

Definition kj_JobID (j : KeeperJob) := ei_JobID (kj_Input j).
Definition kj_OrganizationID (j : KeeperJob) := ei_OrganizationID (kj_Input j).
Definition kj_Action (j : KeeperJob) := ei_Action (kj_Input j).
Definition kj_ChainID (j : KeeperJob) := ei_ChainID (kj_Input j).
Definition kj_KeeperID (j : KeeperJob) := ei_KeeperID (kj_Input j).
Definition kj_GasPayer (j : KeeperJob) := ei_GasPayer (kj_Input j).
Definition kj_Target (j : KeeperJob) := ei_Target (kj_Input j).
Definition kj_ValueWei (j : KeeperJob) := ei_ValueWei (kj_Input j).

Record UnsignedTransaction := mkUnsigned {
  ut_ChainID : Z; ut_From : string; ut_To : string; ut_ValueWei : string; ut_Nonce : Z; ut_GasLimit : Z; ut_Data : string; ut_Fee : KeeperFee }.
Record SignedTransaction := mkSigned { sg_Hash : string; sg_Raw : string }.

Record KeeperAttempt := mkKeeperAttempt {
  ka_JobID : string; ka_Number : Z; ka_Nonce : Z; ka_GasPayer : string; ka_Fee : KeeperFee; ka_TransactionHash : string; ka_Sealed : string;
  ka_SealingKeyID : string; ka_State : KeeperAttemptState; ka_PreparedAt : time; ka_BroadcastAt : time; ka_LastError : string;
  ka_EvidenceDigest : string; ka_ObservedAt : time }.

Record KeeperOutcome := mkOutcome {
  ko_JobID : string; ko_AttemptNumber : Z; ko_TransactionHash : string; ko_State : KeeperState; ko_EvidenceDigest : string; ko_ObservedAt : time }.

Record KeeperLease := mkKeeperLease { kl_Job : KeeperJob; kl_Token : string }.

Record KeeperConfig := mkKeeperConfig {
  kc_KeeperID : string; kc_GasPayer : string; kc_ChainID : Z; kc_LeaseDuration : duration; kc_MaxFeeBumps : Z; kc_MaxGasLimit : Z;
  kc_FeeCap : KeeperFee }.

Definition RequiresBearer (j : KeeperJob) : bool := negb (bool_decide (kj_Action j = ActionClaimExpired)).

(** ** Fees: non-negative decimals of at most 256 bits *)

Definition big (s : string) : option Z := SetString10 s.

Definition validFee (f : KeeperFee) : bool :=
  match big (fe_MaxFeePerGasWei f) with
  | None => false
  | Some maxFee =>
      (0 <? maxFee) && fits256 maxFee &&
      match big (fe_MaxPriorityFeePerGasWei f) with None => false | Some tip => (0 <=? tip) && fits256 tip && (tip <=? maxFee) end
  end.

(** Both fees are valid where this is asked. *)
Definition feeAboveCap (f cap : KeeperFee) : bool :=
  (default 0 (big (fe_MaxFeePerGasWei cap)) <? default 0 (big (fe_MaxFeePerGasWei f))) ||
  (default 0 (big (fe_MaxPriorityFeePerGasWei cap)) <? default 0 (big (fe_MaxPriorityFeePerGasWei f))).

Definition strictlyBumped (previous next : KeeperFee) : bool :=
  match big (fe_MaxFeePerGasWei previous), big (fe_MaxFeePerGasWei next), big (fe_MaxPriorityFeePerGasWei previous),
        big (fe_MaxPriorityFeePerGasWei next) with
  | Some previousMax, Some nextMax, Some previousTip, Some nextTip => (previousMax <? nextMax) && (previousTip <=? nextTip)
  | _, _, _, _ => false
  end.

(** ** Identifiers *)

Definition keeper_hash (v : string) : bool := gov_hash v false.
Definition keeper_address (v : string) : bool := gov_address v.
Definition supportedChain (chainID : Z) : bool := (chainID =? 8453) || (chainID =? 84532).
Definition opaque (v : string) : bool :=
  (16 <=? str_len v) && (str_len v <=? 512) && str_all (fun c => negb ((code c =? 13) || (code c =? 10) || (code c =? 0))) v.
(** [^(0|[1-9][0-9]{0,77})$] *)
Definition unsignedDecimal (v : string) : bool :=
  bool_decide (v = "0") ||
  match v with EmptyString => false | String c r => between 49 57 (code c) && str_all is_digit r && (str_len r <=? 77) end.

Section Keeper.
Context `{Crypto}.

Definition canonicalPayloadHash (payload : string) : string := hex_hash (keccak256 payload).

Definition NewKeeper (c : KeeperConfig) : res KeeperConfig :=
  check identifier_pattern (kc_KeeperID c) && supportedChain (kc_ChainID c) && keeper_address (kc_GasPayer c) &&
        (Second <=? kc_LeaseDuration c) && (kc_LeaseDuration c <=? Minute) && (0 <=? kc_MaxFeeBumps c) && (kc_MaxFeeBumps c <=? 3) &&
        negb (kc_MaxGasLimit c =? 0) && validFee (kc_FeeCap c) else ErrKeeperConfig ;;
  Ok c.

(** ** Jobs *)

Definition input_shape (i : EnqueueInput) : bool :=
  keeper_hash (ei_JobID i) && keeper_hash (ei_OperationID i) && identifier_pattern (ei_OrganizationID i) && supportedChain (ei_ChainID i) &&
  identifier_pattern (ei_KeeperID i) && keeper_address (ei_GasPayer i) && keeper_address (ei_Target i) && bool_decide (ei_ValueWei i = "0") &&
  negb (bool_decide (ei_CanonicalPayload i = "")) && (str_len (ei_CanonicalPayload i) <=? 256 * 1024) &&
  bool_decide (canonicalPayloadHash (ei_CanonicalPayload i) = ei_CanonicalPayloadHash i) && negb (time_IsZero (ei_EligibleAfter i)).

Definition keeper_validateInput (i : EnqueueInput) (now : time) : res unit :=
  check input_shape i else ErrKeeperJob ;;
  if bool_decide (ei_Action i = ActionClaimExpired) then
    check bool_decide (ei_SignerHandle i = "") && bool_decide (ei_AuthorizationDigest i = "") && bool_decide (ei_SignerAddress i = "") &&
          time_IsZero (ei_ValidAfter i) && time_IsZero (ei_ValidBefore i) && (ei_LeadershipEpoch i =? 0) &&
          keeper_hash (ei_EligibilityEvidenceDigest i) && negb (time_IsZero (ei_EligibilityObservedAt i)) else ErrKeeperJob ;;
    Ok tt
  else
    check bool_decide (ei_EligibilityEvidenceDigest i = "") && time_IsZero (ei_EligibilityObservedAt i) else ErrKeeperJob ;;
    check opaque (ei_SignerHandle i) && keeper_hash (ei_AuthorizationDigest i) && keeper_address (ei_SignerAddress i) &&
          negb (time_IsZero (ei_ValidAfter i)) && negb (time_IsZero (ei_ValidBefore i)) && time_after (ei_ValidBefore i) (ei_ValidAfter i) &&
          (time_sub (ei_ValidBefore i) (ei_ValidAfter i) <=? 10 * Minute) && time_after (ei_ValidBefore i) now &&
          negb (ei_LeadershipEpoch i =? 0) && (ei_LeadershipEpoch i <=? MaxInt64) else ErrKeeperJob ;;
    check negb (time_before (ei_EligibleAfter i) (ei_ValidAfter i)) && time_before (ei_EligibleAfter i) (ei_ValidBefore i) else ErrKeeperJob ;;
    Ok tt.

Definition outcome_known (s : KeeperState) : bool :=
  bool_decide (s ∈ [StateSubmitted; StateConfirmed; StateFinalized; StateReverted; StateReorged; StateTimedOut]).

Definition keeper_validateOutcome (j : KeeperJob) (a : KeeperAttempt) (o : KeeperOutcome) (now : time) : res unit :=
  check bool_decide (ko_JobID o = kj_JobID j) && (ko_AttemptNumber o =? ka_Number a) && bool_decide (ko_TransactionHash o = ka_TransactionHash a) &&
        keeper_hash (ko_EvidenceDigest o) && negb (time_IsZero (ko_ObservedAt o)) && negb (time_after (ko_ObservedAt o) (time_add now Minute)) &&
        (time_sub now (ko_ObservedAt o) <=? Minute) && outcome_known (ko_State o) else ErrKeeperConflict ;;
  check negb (bool_decide (kj_State j = StateConfirmed)) || bool_decide (ko_State o ∈ [StateConfirmed; StateFinalized; StateReorged])
    else ErrKeeperConflict ;;
  check negb (bool_decide (ko_State o = StateSubmitted)) || bool_decide (kj_State j = StateAmbiguous) else ErrKeeperConflict ;;
  Ok tt.

(** ** Transactions *)

Definition validateUnsigned (j : KeeperJob) (t : UnsignedTransaction) (c : KeeperConfig) : res unit :=
  check (ut_ChainID t =? kj_ChainID j) && bool_decide (ut_From t = kj_GasPayer j) && bool_decide (ut_To t = kj_Target j) &&
        bool_decide (ut_ValueWei t = kj_ValueWei j) && negb (ut_GasLimit t =? 0) && (ut_GasLimit t <=? kc_MaxGasLimit c) &&
        (4 <=? str_len (ut_Data t)) && (str_len (ut_Data t) <=? 1024 * 1024) && validFee (ut_Fee t) && negb (feeAboveCap (ut_Fee t) (kc_FeeCap c))
    else ErrKeeperTransaction ;;
  Ok tt.

End Keeper.

(** A decoded transaction: its chain and recipient may be absent, addresses are in
    lower-case hex. *)
Record EthTransaction := mkEthTransaction {
  et_dynamic : bool; et_chain : option Z; et_nonce : Z; et_to : option string; et_value : Z; et_gas : Z; et_access : nat; et_data : string;
  et_fee_cap : Z; et_tip_cap : Z }.

(** [Transaction.UnmarshalBinary], and [Sender] under the latest signer of a chain. *)
Class EthLib := {
  tx_decode : string -> option EthTransaction;
  tx_sender : Z -> EthTransaction -> option string;
}.

Section Transactions.
Context `{Crypto, EthLib}.

Definition raw_size (raw : string) : bool := negb (bool_decide (raw = "")) && (str_len raw <=? 2 * 1024 * 1024).
Definition tx_hash (raw : string) : string := hex_hash (keccak256 raw).

Definition verifySignedTransaction (u : UnsignedTransaction) (s : SignedTransaction) : res unit :=
  check keeper_hash (sg_Hash s) && raw_size (sg_Raw s) && bool_decide (tx_hash (sg_Raw s) = sg_Hash s) else ErrKeeperTransaction ;;
  match tx_decode (sg_Raw s) with
  | None => Err ErrKeeperTransaction
  | Some t =>
      check et_dynamic t && bool_decide (et_chain t = Some (ut_ChainID u)) && (et_nonce t =? ut_Nonce u) && bool_decide (et_to t = Some (ut_To u)) &&
            bool_decide (dec_string (et_value t) = ut_ValueWei u) && (et_gas t =? ut_GasLimit u) && Nat.eqb (et_access t) 0 &&
            bool_decide (et_data t = ut_Data u) && bool_decide (dec_string (et_fee_cap t) = fe_MaxFeePerGasWei (ut_Fee u)) &&
            bool_decide (dec_string (et_tip_cap t) = fe_MaxPriorityFeePerGasWei (ut_Fee u)) else ErrKeeperTransaction ;;
      match tx_sender (ut_ChainID u) t with
      | None => Err ErrKeeperTransaction
      | Some sender => check bool_decide (sender = ut_From u) && negb (bool_decide (sender = zero_address)) else ErrKeeperTransaction ;; Ok tt
      end
  end.

Definition verifyRecoveredSigned (j : KeeperJob) (a : KeeperAttempt) (raw : string) : res unit :=
  check raw_size raw && bool_decide (tx_hash raw = ka_TransactionHash a) else ErrKeeperTransaction ;;
  match tx_decode raw with
  | None => Err ErrKeeperTransaction
  | Some t =>
      check et_dynamic t && bool_decide (et_chain t = Some (kj_ChainID j)) && (et_nonce t =? ka_Nonce a) && bool_decide (et_to t = Some (kj_Target j)) &&
            bool_decide (dec_string (et_value t) = kj_ValueWei j) && Nat.eqb (et_access t) 0 && (4 <=? str_len (et_data t)) &&
            (str_len (et_data t) <=? 1024 * 1024) && negb (et_gas t =? 0) &&
            bool_decide (dec_string (et_fee_cap t) = fe_MaxFeePerGasWei (ka_Fee a)) &&
            bool_decide (dec_string (et_tip_cap t) = fe_MaxPriorityFeePerGasWei (ka_Fee a)) else ErrKeeperTransaction ;;
      match tx_sender (kj_ChainID j) t with
      | None => Err ErrKeeperTransaction
      | Some sender => check bool_decide (sender = kj_GasPayer j) else ErrKeeperTransaction ;; Ok tt
      end
  end.

Definition keeper_aad (jobID : string) (attempt : Z) (txHash : string) : string :=
  "ASCP_KEEPER_TX_V1" +:+ newline +:+ jobID +:+ newline +:+ dec_string attempt +:+ newline +:+ txHash.
End Transactions.

(** ** The exact binding of a call ([binding.go]) *)

Record DecodedCall := mkDecoded { dd_Action : KeeperAction; dd_CanonicalPayload : string; dd_AuthorizationDigest : string; dd_Signature : string }.

Section Binding.
Context `{Crypto, SafeLib}.

(** The last byte of an artifact in Ethereum's or the yellow paper's numbering. *)
Definition recovery_id (artifact : string) : Z :=
  match String.get 64 artifact with Some c => if 27 <=? code c then code c - 27 else code c | None => 0 end.

Definition binding_Verify (decode : KeeperAction -> string -> res DecodedCall) (j : KeeperJob) (t : UnsignedTransaction) (artifact : string) : res unit :=
  try decoded := decode (kj_Action j) (ut_Data t) in
  check bool_decide (dd_Action decoded = kj_Action j) && bool_decide (dd_CanonicalPayload decoded = ei_CanonicalPayload (kj_Input j)) &&
        bool_decide (canonicalPayloadHash (dd_CanonicalPayload decoded) = ei_CanonicalPayloadHash (kj_Input j)) else ErrKeeperTransaction ;;
  if negb (RequiresBearer j) then
    check bool_decide (artifact = "") && bool_decide (dd_Signature decoded = "") && bool_decide (dd_AuthorizationDigest decoded = "")
      else ErrKeeperTransaction ;;
    Ok tt
  else
    check bool_decide (dd_AuthorizationDigest decoded = ei_AuthorizationDigest (kj_Input j)) && bool_decide (dd_Signature decoded = artifact) &&
          (str_len artifact =? 65) else ErrKeeperTransaction ;;
    let v := recovery_id artifact in
    check v <=? 1 else ErrKeeperTransaction ;;
    check ecdsa_values v (String.substring 0 32 artifact) (String.substring 32 32 artifact) else ErrKeeperTransaction ;;
    match ecdsa_recover (hex_bytes (ei_AuthorizationDigest (kj_Input j))) (String.substring 0 64 artifact +:+ String (char_of v) "") with
    | Err e => Err ErrKeeperTransaction
    | Ok recovered => check bool_decide (recovered = ei_SignerAddress (kj_Input j)) else ErrKeeperTransaction ;; Ok tt
    end.

(** ** Expired calls ([expiry.go]) *)

Definition claimExpiredSelector : string := String.substring 0 4 (keccak256 "claimExpired(bytes32)").

Record ExpiredCall := mkExpired {
  xc_OperationID : string; xc_OrganizationID : string; xc_ChainID : Z; xc_Escrow : string; xc_CallID : string; xc_SettleBy : time;
  xc_ObservedChainTime : time; xc_ObservedAt : time; xc_EvidenceDigest : string; xc_Providers : list string }.

Definition validateExpiredCall (c : ExpiredCall) (now : time) : res unit :=
  check keeper_hash (xc_OperationID c) && identifier_pattern (xc_OrganizationID c) && supportedChain (xc_ChainID c) && keeper_address (xc_Escrow c) &&
        keeper_hash (xc_CallID c) && negb (time_IsZero (xc_SettleBy c)) && negb (time_IsZero (xc_ObservedChainTime c)) &&
        time_after (xc_ObservedChainTime c) (xc_SettleBy c) && keeper_hash (xc_EvidenceDigest c) && negb (time_IsZero (xc_ObservedAt c)) &&
        negb (time_after (xc_ObservedAt c) (time_add now Minute)) && (time_sub now (xc_ObservedAt c) <=? Minute) else ErrKeeperJob ;;
  check Nat.leb 2 (length (xc_Providers c)) && Nat.leb (length (xc_Providers c)) 5 && forallb identifier_pattern (xc_Providers c) &&
        bool_decide (NoDup (xc_Providers c)) else ErrKeeperJob ;;
  Ok tt.

Definition claimExpiredCalldata (callID : string) : string := claimExpiredSelector +:+ hex_bytes callID.

Definition expiredJobID (c : ExpiredCall) : string :=
  hex_hash (keccak256 ("ASCP_KEEPER_CLAIM_EXPIRED_V1" +:+ be_bytes 8 (xc_ChainID c) +:+ hex_bytes (xc_OperationID c) +:+ hex_bytes (xc_CallID c) +:+
                       hex_bytes (xc_Escrow c))).

Definition expired_input (keeperID gasPayer : string) (c : ExpiredCall) : EnqueueInput :=
  let payload := claimExpiredCalldata (xc_CallID c) in
  mkEnqueue (expiredJobID c) (xc_OperationID c) (xc_OrganizationID c) ActionClaimExpired (xc_ChainID c) keeperID gasPayer (xc_Escrow c) "0" payload
    (canonicalPayloadHash payload) "" "" "" 0 0 (time_add (xc_SettleBy c) Second) (xc_EvidenceDigest c) (xc_ObservedAt c) 0.

Definition claimExpired_Decode (action : KeeperAction) (data : string) : res DecodedCall :=
  check bool_decide (action = ActionClaimExpired) && (str_len data =? 36) && bool_decide (String.substring 0 4 data = claimExpiredSelector) &&
        negb (bool_decide (String.substring 4 32 data = be_bytes 32 0)) else ErrKeeperTransaction ;;
  Ok (mkDecoded action data "" "").
End Binding.
