(* ===== verification/KeeperStore.v ===== *)
(** * The keeper's store ([internal/ascpkeeper/postgres.go], migration 0013)

    Jobs, nonce sequences and transaction attempts, each a map over its primary key, with
    the CHECK constraints, unique keys and the trigger of the migration that the code's own
    checks do not imply. Each transaction is one step that commits or changes nothing; a
    serialization failure is a transaction that changed nothing. *)
From stdpp Require Import base gmap strings list sorting.
From Stdlib Require Import ZArith Lia Ascii.
From S2P Require Import Prelude GoText GoJSON Amounts Crypto Envelope GovAction SafeTx Keeper.

Open Scope Z_scope.

Record JobRow := mkJobRow { jr_job : KeeperJob; jr_nonce : option Z }.

Record ktables := mkKTables {
  kt_organizations : gset string; kt_jobs : gmap string JobRow; kt_sequences : gmap (Z * string) Z; kt_attempts : gmap (string * Z) KeeperAttempt }.

Definition set_jobs (t : ktables) m := mkKTables (kt_organizations t) m (kt_sequences t) (kt_attempts t).
Definition set_sequences (t : ktables) m := mkKTables (kt_organizations t) (kt_jobs t) m (kt_attempts t).
Definition set_attempts (t : ktables) m := mkKTables (kt_organizations t) (kt_jobs t) (kt_sequences t) m.

(** ** Nonces as text *)

Definition parse_nonce_digit (acc : res Z) (c : ascii) : res Z :=
  try r := acc in
  let digit := code c - 48 in
  check negb ((MaxUint64 - digit) / 10 <? r) else ErrKeeperConflict ;; Ok (r * 10 + digit).

Definition parseNonce (v : string) : res Z :=
  check unsignedDecimal v else ErrKeeperConflict ;; foldl parse_nonce_digit (Ok 0) (chars v).

(** ** Error texts: valid UTF-8 of at most 2048 bytes *)

(** [strings.ToValidUTF8]: a run of invalid bytes is one replacement character. *)
Fixpoint squeeze (rs : list rune) : list rune :=
  match rs with
  | RBad a :: rest => match rest with RBad _ :: _ => squeeze rest | _ => RBad a :: squeeze rest end
  | r :: rest => r :: squeeze rest
  | [] => []
  end.
Definition ToValidUTF8 (s : string) : string := str_of (concat (map rune_bytes (squeeze (runes (chars s))))).

(** The longest prefix of whole characters that fits. *)
Fixpoint take_runes (room : Z) (rs : list rune) : list rune :=
  match rs with
  | [] => []
  | r :: rest => let n := Z.of_nat (length (rune_bytes r)) in if n <=? room then r :: take_runes (room - n) rest else []
  end.
Definition boundedError (s : string) : string :=
  let v := TrimSpace (ToValidUTF8 s) in
  if str_len v <=? 2048 then v else str_of (concat (map rune_bytes (take_runes 2048 (runes (chars v))))).

(** ** Rows *)

Section KeeperStore.
Context `{Crypto}.
Variable pg_time : time -> time.

Definition null_time (t : time) : time := if time_IsZero t then 0 else pg_time t.

(** The row that an input becomes. *)
Definition stored_input (i : EnqueueInput) : EnqueueInput :=
  mkEnqueue (ei_JobID i) (ei_OperationID i) (ei_OrganizationID i) (ei_Action i) (ei_ChainID i) (ei_KeeperID i) (ei_GasPayer i) (ei_Target i)
    (ei_ValueWei i) (ei_CanonicalPayload i) (ei_CanonicalPayloadHash i) (ei_AuthorizationDigest i) (ei_SignerHandle i) (ei_SignerAddress i)
    (null_time (ei_ValidAfter i)) (null_time (ei_ValidBefore i)) (pg_time (ei_EligibleAfter i)) (ei_EligibilityEvidenceDigest i)
    (null_time (ei_EligibilityObservedAt i)) (ei_LeadershipEpoch i).

(** The CHECKs on a new job that [validateInput] does not imply: the window as stored, and
    no control character in the handle. *)
Definition job_row_ok (i : EnqueueInput) : bool :=
  bool_decide (ei_Action i = ActionClaimExpired) ||
  (str_all (fun c => negb (code c <? 32) && negb (code c =? 127)) (ei_SignerHandle i) && (ei_ValidAfter i <? ei_ValidBefore i) &&
   (ei_ValidBefore i <=? ei_ValidAfter i + 10 * Minute) && (ei_ValidAfter i <=? ei_EligibleAfter i) && (ei_EligibleAfter i <? ei_ValidBefore i)).

Definition sameInput (j : KeeperJob) (i : EnqueueInput) : bool :=
  let k := kj_Input j in
  bool_decide (ei_JobID k = ei_JobID i) && bool_decide (ei_OperationID k = ei_OperationID i) && bool_decide (ei_OrganizationID k = ei_OrganizationID i) &&
  bool_decide (ei_Action k = ei_Action i) && (ei_ChainID k =? ei_ChainID i) && bool_decide (ei_KeeperID k = ei_KeeperID i) &&
  bool_decide (ei_GasPayer k = ei_GasPayer i) && bool_decide (ei_Target k = ei_Target i) && bool_decide (ei_ValueWei k = ei_ValueWei i) &&
  bool_decide (ei_CanonicalPayload k = ei_CanonicalPayload i) && bool_decide (ei_CanonicalPayloadHash k = ei_CanonicalPayloadHash i) &&
  bool_decide (ei_AuthorizationDigest k = ei_AuthorizationDigest i) && bool_decide (ei_SignerHandle k = ei_SignerHandle i) &&
  bool_decide (ei_SignerAddress k = ei_SignerAddress i) && (ei_ValidAfter k =? ei_ValidAfter i) && (ei_ValidBefore k =? ei_ValidBefore i) &&
  (ei_EligibleAfter k =? ei_EligibleAfter i) && (ei_LeadershipEpoch k =? ei_LeadershipEpoch i) &&
  (bool_decide (ei_Action k = ActionClaimExpired) ||
   (bool_decide (ei_EligibilityEvidenceDigest k = ei_EligibilityEvidenceDigest i) && (ei_EligibilityObservedAt k =? ei_EligibilityObservedAt i))).

(** [UNIQUE (operation_id, action)] *)
Definition operation_taken (t : ktables) (i : EnqueueInput) : bool :=
  existsb (fun p => let k := kj_Input (jr_job p.2) in bool_decide (ei_OperationID k = ei_OperationID i) && bool_decide (ei_Action k = ei_Action i))
    (map_to_list (kt_jobs t)).

Definition enqueueOnce (t : ktables) (i : EnqueueInput) (now : time) : res (ktables * (KeeperJob * bool)) :=
  match kt_jobs t !! ei_JobID i with
  | Some row => check sameInput (jr_job row) i else ErrKeeperConflict ;; Ok (t, (jr_job row, true))
  | None =>
      let job := mkKeeperJob (stored_input i) StateQueued "" "" 0 0 0 (pg_time now) (pg_time now) "" in
      check valid_utf8 (ei_SignerHandle i) else "invalid byte sequence" ;;
      check job_row_ok (stored_input i) && bool_decide (ei_OrganizationID i ∈ kt_organizations t) && negb (operation_taken t i) else ErrKeeperConflict ;;
      Ok (set_jobs t (<[ei_JobID i := mkJobRow job None]> (kt_jobs t)), (job, false))
  end.

Definition Enqueue (t : ktables) (i : EnqueueInput) (now : time) : res (ktables * (KeeperJob * bool)) :=
  try _ := keeper_validateInput i now in enqueueOnce t i now.

(** ** Leases *)

Definition with_lease (j : KeeperJob) (owner token : string) (expires updated : time) : KeeperJob :=
  mkKeeperJob (kj_Input j) (kj_State j) owner token expires (kj_AttemptCount j) (kj_CurrentAttempt j) (kj_CreatedAt j) updated (kj_LastError j).

Definition with_job_state (j : KeeperJob) (s : KeeperState) (count current : Z) (lastError : string) (updated : time) : KeeperJob :=
  mkKeeperJob (kj_Input j) s (kj_LeaseOwner j) (kj_LeaseToken j) (kj_LeaseExpiresAt j) count current (kj_CreatedAt j) updated lastError.

Definition put_job (t : ktables) (j : KeeperJob) : ktables :=
  match kt_jobs t !! kj_JobID j with
  | None => t
  | Some row => set_jobs t (<[kj_JobID j := mkJobRow j (jr_nonce row)]> (kt_jobs t))
  end.

(** [lease_expires_at IS NULL OR lease_expires_at <= now] *)
Definition unleased (j : KeeperJob) (now : time) : bool := bool_decide (kj_LeaseToken j = "") || (kj_LeaseExpiresAt j <=? pg_time now).

Definition mine (j : KeeperJob) (keeperID gasPayer : string) (chainID : Z) : bool :=
  bool_decide (kj_KeeperID j = keeperID) && bool_decide (kj_GasPayer j = gasPayer) && (kj_ChainID j =? chainID).

Definition keeper_claimable (j : KeeperJob) (now : time) : bool :=
  bool_decide (kj_State j ∈ [StateQueued; StatePrepared; StateBroadcasting; StateTimedOut; StateReorged]) &&
  (ei_EligibleAfter (kj_Input j) <=? pg_time now) && unleased j now.

Definition observable (j : KeeperJob) (now : time) : bool :=
  bool_decide (kj_State j ∈ [StateAmbiguous; StateSubmitted; StateConfirmed]) && unleased j now.

(** [ORDER BY]: lexicographic on a list of numbers, then the job id. *)
Fixpoint keys_leb (xs ys : list Z) (last : bool) : bool :=
  match xs, ys with
  | x :: xs, y :: ys => (x <? y) || ((x =? y) && keys_leb xs ys last)
  | _, _ => last
  end.
Definition claim_key (j : KeeperJob) : list Z :=
  [if bool_decide (kj_Action j = ActionClaimExpired) then 0 else 1; ei_EligibleAfter (kj_Input j); kj_CreatedAt j].
Definition claim_le (x y : KeeperJob) : Prop := keys_leb (claim_key x) (claim_key y) (String.leb (kj_JobID x) (kj_JobID y)).
#[export] Instance claim_le_dec x y : Decision (claim_le x y).
Proof. unfold claim_le. apply _. Defined.
Definition observe_le (x y : KeeperJob) : Prop := keys_leb [kj_UpdatedAt x] [kj_UpdatedAt y] (String.leb (kj_JobID x) (kj_JobID y)).
#[export] Instance observe_le_dec x y : Decision (observe_le x y).
Proof. unfold observe_le. apply _. Defined.

(** [FOR UPDATE SKIP LOCKED]: [locked] are the rows other transactions hold. *)
Definition candidates (t : ktables) (locked : gset string) (p : KeeperJob -> bool) : list KeeperJob :=
  List.filter (fun j => p j && negb (bool_decide (kj_JobID j ∈ locked))) (map (fun r => jr_job r.2) (map_to_list (kt_jobs t))).

Definition keeper_lease (t : ktables) (j : KeeperJob) (keeperID token : string) (d : duration) (now : time) : ktables * KeeperLease :=
  let job := with_lease j keeperID token (pg_time (time_add now d)) (pg_time now) in
  (put_job t job, mkKeeperLease job token).

Definition claim_ok (keeperID gasPayer : string) (chainID : Z) (d : duration) : bool :=
  identifier_pattern keeperID && keeper_address gasPayer && supportedChain chainID && (Second <=? d) && (d <=? Minute).

Definition Claim (t : ktables) (keeperID gasPayer : string) (chainID : Z) (d : duration) (now : time) (token : string) (locked : gset string) :
    res (ktables * KeeperLease) :=
  check claim_ok keeperID gasPayer chainID d else ErrKeeperConfig ;;
  match merge_sort claim_le (candidates t locked (fun j => mine j keeperID gasPayer chainID && keeper_claimable j now)) with
  | [] => Err ErrKeeperNoWork
  | j :: _ => Ok (keeper_lease t j keeperID token d now)
  end.

Definition ClaimObservation (t : ktables) (keeperID gasPayer : string) (chainID : Z) (d : duration) (now : time) (token : string)
    (locked : gset string) : res (ktables * KeeperLease) :=
  check claim_ok keeperID gasPayer chainID d else ErrKeeperConfig ;;
  match merge_sort observe_le (candidates t locked (fun j => mine j keeperID gasPayer chainID && observable j now)) with
  | [] => Err ErrKeeperNoWork
  | j :: _ => Ok (keeper_lease t j keeperID token d now)
  end.

Definition validateLease (l : KeeperLease) : res unit :=
  check keeper_hash (kj_JobID (kl_Job l)) && identifier_pattern (kj_KeeperID (kl_Job l)) && opaque (kl_Token l) &&
        bool_decide (kl_Token l = kj_LeaseToken (kl_Job l)) else ErrKeeperLeaseLost ;;
  Ok tt.

Definition loadLeasedJob (t : ktables) (l : KeeperLease) (now : time) : res JobRow :=
  match kt_jobs t !! kj_JobID (kl_Job l) with
  | None => Err ErrKeeperLeaseLost
  | Some row =>
      let j := jr_job row in
      check bool_decide (kj_LeaseToken j = kl_Token l) && bool_decide (kj_LeaseOwner j = kj_KeeperID (kl_Job l)) &&
            (pg_time now <? kj_LeaseExpiresAt j) else ErrKeeperLeaseLost ;;
      Ok row
  end.

Definition ReleaseKeeperLease (t : ktables) (l : KeeperLease) : res ktables :=
  try _ := validateLease l in
  match kt_jobs t !! kj_JobID (kl_Job l) with
  | None => Err ErrKeeperLeaseLost
  | Some row =>
      check bool_decide (kj_LeaseToken (jr_job row) = kl_Token l) else ErrKeeperLeaseLost ;;
      Ok (put_job t (with_lease (jr_job row) "" "" 0 (kj_UpdatedAt (jr_job row))))
  end.

(** ** Attempts *)

(** [^[1-9][0-9]{0,77}$] *)
Definition positive_decimal (v : string) : bool := unsignedDecimal v && negb (bool_decide (v = "0")).

Definition validateAttempt (a : KeeperAttempt) : res unit :=
  check keeper_hash (ka_JobID a) && (1 <=? ka_Number a) && (ka_Number a <=? 4) && keeper_address (ka_GasPayer a) && validFee (ka_Fee a) &&
        keeper_hash (ka_TransactionHash a) && negb (bool_decide (ka_Sealed a = "")) && (str_len (ka_Sealed a) <=? 2 * 1024 * 1024) &&
        identifier_pattern (ka_SealingKeyID a) && negb (time_IsZero (ka_PreparedAt a)) else ErrKeeperTransaction ;;
  Ok tt.

(** The CHECKs of an attempt and [flowops_validate_keeper_gas_payer]. *)
Definition observed_state (s : KeeperAttemptState) : bool :=
  bool_decide (s ∈ [AttemptConfirmed; AttemptReverted; AttemptReorged; AttemptFinalized]).

Definition attempt_row_ok (t : ktables) (a : KeeperAttempt) : bool :=
  (positive_decimal (fe_MaxFeePerGasWei (ka_Fee a)) && unsignedDecimal (fe_MaxPriorityFeePerGasWei (ka_Fee a))) &&
  Bool.eqb (bool_decide (ka_State a = AttemptPrepared)) (time_IsZero (ka_BroadcastAt a)) &&
  Bool.eqb (bool_decide (ka_EvidenceDigest a = "")) (time_IsZero (ka_ObservedAt a)) &&
  (negb (observed_state (ka_State a)) || negb (bool_decide (ka_EvidenceDigest a = ""))) &&
  match kt_jobs t !! ka_JobID a with
  | None => false
  | Some row => bool_decide (kj_GasPayer (jr_job row) = ka_GasPayer a) && bool_decide (jr_nonce row = Some (ka_Nonce a))
  end.

Definition hash_taken (t : ktables) (h : string) : bool :=
  existsb (fun p => bool_decide (ka_TransactionHash p.2 = h)) (map_to_list (kt_attempts t)).

Definition stored_attempt (a : KeeperAttempt) : KeeperAttempt :=
  mkKeeperAttempt (ka_JobID a) (ka_Number a) (ka_Nonce a) (ka_GasPayer a) (ka_Fee a) (ka_TransactionHash a) (ka_Sealed a) (ka_SealingKeyID a)
    AttemptPrepared (pg_time (ka_PreparedAt a)) 0 "" "" 0.

Definition insert_attempt (t : ktables) (a : KeeperAttempt) : res ktables :=
  check attempt_row_ok t (stored_attempt a) && bool_decide (kt_attempts t !! (ka_JobID a, ka_Number a) = None) && negb (hash_taken t (ka_TransactionHash a))
    else ErrKeeperConflict ;;
  Ok (set_attempts t (<[(ka_JobID a, ka_Number a) := stored_attempt a]> (kt_attempts t))).

Definition with_attempt_state (a : KeeperAttempt) (s : KeeperAttemptState) (broadcast : time) (lastError evidence : string) (observed : time) :
    KeeperAttempt :=
  mkKeeperAttempt (ka_JobID a) (ka_Number a) (ka_Nonce a) (ka_GasPayer a) (ka_Fee a) (ka_TransactionHash a) (ka_Sealed a) (ka_SealingKeyID a) s
    (ka_PreparedAt a) broadcast lastError evidence observed.

(** An UPDATE of the one attempt that the guard admits. *)
Definition update_attempt (t : ktables) (jobID : string) (number : Z) (guard : KeeperAttempt -> bool) (f : KeeperAttempt -> KeeperAttempt) : res ktables :=
  match kt_attempts t !! (jobID, number) with
  | None => Err ErrKeeperConflict
  | Some a =>
      check guard a else ErrKeeperConflict ;;
      check attempt_row_ok t (f a) else ErrKeeperConflict ;;
      Ok (set_attempts t (<[(jobID, number) := f a]> (kt_attempts t)))
  end.

(** ** Transitions under a lease *)

Definition keeper_transition (t : ktables) (l : KeeperLease) (now : time) (change : ktables -> JobRow -> res (ktables * KeeperJob)) :
    res (ktables * KeeperJob) :=
  try _ := validateLease l in
  try row := loadLeasedJob t l now in
  try result := change t row in
  let (t, j) := result in
  Ok (put_job t j, j).

Definition seq_key (j : KeeperJob) : Z * string := (kj_ChainID j, kj_GasPayer j).

(** [UNIQUE (gas_payer, nonce)] *)
Definition nonce_taken (t : ktables) (payer : string) (n : Z) : bool :=
  existsb (fun p => bool_decide (kj_GasPayer (jr_job p.2) = payer) && bool_decide (jr_nonce p.2 = Some n)) (map_to_list (kt_jobs t)).

Definition AllocateNonce (t : ktables) (l : KeeperLease) (observed : Z) (now : time) : res (ktables * Z) :=
  try _ := validateLease l in
  try row := loadLeasedJob t l now in
  let j := jr_job row in
  check bool_decide (kj_State j = StateQueued) && (kj_AttemptCount j =? 0) else ErrKeeperConflict ;;
  match jr_nonce row with
  | Some reserved => try allocated := parseNonce (dec_string reserved) in Ok (t, allocated)
  | None =>
      try allocated := match kt_sequences t !! seq_key j with
                       | None => Ok observed
                       | Some next => try persisted := parseNonce (dec_string next) in Ok (Z.max observed persisted)
                       end in
      check negb (allocated =? MaxUint64) else ErrKeeperConflict ;;
      check negb (nonce_taken t (kj_GasPayer j) allocated) else ErrKeeperConflict ;;
      let job := with_job_state j (kj_State j) (kj_AttemptCount j) (kj_CurrentAttempt j) (kj_LastError j) (pg_time now) in
      Ok (set_jobs (set_sequences t (<[seq_key j := allocated + 1]> (kt_sequences t))) (<[kj_JobID j := mkJobRow job (Some allocated)]> (kt_jobs t)), allocated)
  end.

Definition RecordPrepared (t : ktables) (l : KeeperLease) (a : KeeperAttempt) (now : time) : res (ktables * KeeperJob) :=
  check is_ok (validateAttempt a) && (ka_Number a =? 1) && bool_decide (ka_State a = AttemptPrepared) else ErrKeeperTransaction ;;
  keeper_transition t l now (fun t row =>
    let j := jr_job row in
    check bool_decide (kj_State j = StateQueued) && (kj_AttemptCount j =? 0) && (kj_CurrentAttempt j =? 0) && bool_decide (kj_JobID j = ka_JobID a)
      else ErrKeeperConflict ;;
    match jr_nonce row with
    | None => Err "converting NULL to string is unsupported"
    | Some nonce =>
        check bool_decide (parseNonce (dec_string nonce) = Ok (ka_Nonce a)) && bool_decide (ka_GasPayer a = kj_GasPayer j) else ErrKeeperConflict ;;
        try t := insert_attempt t a in
        Ok (t, with_job_state j StatePrepared 1 1 (kj_LastError j) (pg_time now))
    end).

Definition RecordReplacement (t : ktables) (l : KeeperLease) (previous a : KeeperAttempt) (now : time) : res (ktables * KeeperJob) :=
  check is_ok (validateAttempt a) && (ka_Number a =? ka_Number previous + 1) && bool_decide (ka_State a = AttemptPrepared) &&
        (ka_Nonce a =? ka_Nonce previous) && bool_decide (ka_GasPayer a = ka_GasPayer previous) && strictlyBumped (ka_Fee previous) (ka_Fee a)
    else ErrKeeperTransaction ;;
  keeper_transition t l now (fun t row =>
    let j := jr_job row in
    check bool_decide (kj_State j ∈ [StateTimedOut; StateReorged]) && (kj_CurrentAttempt j =? ka_Number previous) &&
          (kj_AttemptCount j =? ka_Number previous) && bool_decide (kj_JobID j = ka_JobID a) && (ka_Number a <=? 4) else ErrKeeperConflict ;;
    try t := update_attempt t (kj_JobID j) (ka_Number previous)
               (fun p => bool_decide (ka_TransactionHash p = ka_TransactionHash previous) && bool_decide (ka_State p ∈ [AttemptRejected; AttemptReorged]))
               (fun p => with_attempt_state p AttemptReplaced (ka_BroadcastAt p) (ka_LastError p) (ka_EvidenceDigest p) (ka_ObservedAt p)) in
    try t := insert_attempt t a in
    Ok (t, with_job_state j StatePrepared (ka_Number a) (ka_Number a) "" (pg_time now))).

Definition MarkBroadcasting (t : ktables) (l : KeeperLease) (number : Z) (now : time) : res (ktables * KeeperJob) :=
  keeper_transition t l now (fun t row =>
    let j := jr_job row in
    check (kj_CurrentAttempt j =? number) && bool_decide (kj_State j ∈ [StatePrepared; StateBroadcasting]) else ErrKeeperConflict ;;
    try t := update_attempt t (kj_JobID j) number (fun a => bool_decide (ka_State a ∈ [AttemptPrepared; AttemptBroadcasting]))
               (fun a => with_attempt_state a AttemptBroadcasting (if time_IsZero (ka_BroadcastAt a) then pg_time now else ka_BroadcastAt a)
                           (ka_LastError a) (ka_EvidenceDigest a) (ka_ObservedAt a)) in
    Ok (t, with_job_state j StateBroadcasting (kj_AttemptCount j) (kj_CurrentAttempt j) (kj_LastError j) (pg_time now))).

Definition finishBroadcast (t : ktables) (l : KeeperLease) (number : Z) (txHash : string) (s : KeeperState) (s' : KeeperAttemptState) (reason : string)
    (now : time) : res (ktables * KeeperJob) :=
  let reason := boundedError reason in
  keeper_transition t l now (fun t row =>
    let j := jr_job row in
    check bool_decide (kj_State j = StateBroadcasting) && (kj_CurrentAttempt j =? number) else ErrKeeperConflict ;;
    try t := update_attempt t (kj_JobID j) number
               (fun a => bool_decide (ka_State a = AttemptBroadcasting) && (bool_decide (txHash = "") || bool_decide (ka_TransactionHash a = txHash)))
               (fun a => with_attempt_state a s' (ka_BroadcastAt a) reason (ka_EvidenceDigest a) (ka_ObservedAt a)) in
    Ok (t, with_job_state j s (kj_AttemptCount j) (kj_CurrentAttempt j) reason (pg_time now))).

Definition MarkSubmitted (t : ktables) (l : KeeperLease) (number : Z) (txHash : string) (now : time) : res (ktables * KeeperJob) :=
  check keeper_hash txHash else ErrKeeperTransaction ;;
  finishBroadcast t l number txHash StateSubmitted AttemptSubmitted "" now.
Definition MarkAmbiguous (t : ktables) (l : KeeperLease) (number : Z) (reason : string) (now : time) : res (ktables * KeeperJob) :=
  finishBroadcast t l number "" StateAmbiguous AttemptAmbiguous reason now.
Definition MarkRejected (t : ktables) (l : KeeperLease) (number : Z) (target : KeeperState) (reason : string) (now : time) : res (ktables * KeeperJob) :=
  check bool_decide (target ∈ [StateTimedOut; StateDeadLetter]) else ErrKeeperConflict ;;
  finishBroadcast t l number "" target AttemptRejected reason now.

Definition MarkRecoveryDeadLetter (t : ktables) (l : KeeperLease) (reason : string) (now : time) : res (ktables * KeeperJob) :=
  let reason := boundedError reason in
  keeper_transition t l now (fun t row =>
    let j := jr_job row in
    check bool_decide (kj_State j ∈ [StateQueued; StateTimedOut; StateReorged]) else ErrKeeperConflict ;;
    Ok (t, with_job_state j StateDeadLetter (kj_AttemptCount j) (kj_CurrentAttempt j) reason (pg_time now))).

Definition outcome_attempt (s : KeeperState) : res KeeperAttemptState :=
  match s with
  | StateSubmitted => Ok AttemptSubmitted
  | StateConfirmed => Ok AttemptConfirmed
  | StateFinalized => Ok AttemptFinalized
  | StateReverted => Ok AttemptReverted
  | StateReorged => Ok AttemptReorged
  | StateTimedOut => Ok AttemptRejected
  | _ => Err ErrKeeperConflict
  end.

Definition ApplyOutcome (t : ktables) (l : KeeperLease) (o : KeeperOutcome) (now : time) : res (ktables * KeeperJob) :=
  keeper_transition t l now (fun t row =>
    let j := jr_job row in
    match kt_attempts t !! (kj_JobID j, kj_CurrentAttempt j) with
    | None => Err "sql: no rows in result set"
    | Some a =>
        try _ := keeper_validateOutcome j a o now in
        try s := outcome_attempt (ko_State o) in
        try t := update_attempt t (kj_JobID j) (ka_Number a)
                   (fun a => bool_decide (ka_TransactionHash a = ko_TransactionHash o) &&
                             bool_decide (ka_State a ∈ [AttemptAmbiguous; AttemptSubmitted; AttemptConfirmed]))
                   (fun a => with_attempt_state a s (ka_BroadcastAt a) (ka_LastError a) (ko_EvidenceDigest o) (pg_time (ko_ObservedAt o))) in
        Ok (t, with_job_state j (ko_State o) (kj_AttemptCount j) (kj_CurrentAttempt j) "" (pg_time now))
    end).

Definition CurrentAttempt (t : ktables) (jobID : string) : res KeeperAttempt :=
  check keeper_hash jobID else ErrKeeperJob ;;
  match kt_jobs t !! jobID with
  | None => Err "sql: no rows in result set"
  | Some row => match kt_attempts t !! (jobID, kj_CurrentAttempt (jr_job row)) with Some a => Ok a | None => Err "sql: no rows in result set" end
  end.

End KeeperStore.
