(* ===== verification/KeeperService.v ===== *)
(** * The keeper's service ([internal/ascpkeeper/service.go])

    One worker's calls over the store and the leadership fence. Other workers and the rest
    of the control plane act between any two of its transactions: [kw_others] is what they
    do before each of them. The signer channel, the assembler, the binding verifier, the
    wallet, the sealer, the RPC, the fee policy and the observers are the environment. *)
From stdpp Require Import base gmap strings list sorting.
From Stdlib Require Import ZArith Lia Ascii.
From S2P Require Import Prelude GoText GoJSON Amounts Crypto Envelope GovAction SafeTx Keeper KeeperStore Leadership LeadershipTheorems.

Open Scope Z_scope.

(** ** Transactions of the store, by whoever runs them *)

Inductive kop :=
| K_organization (id : string)
| K_enqueue (i : EnqueueInput) (now : time)
| K_claim (keeperID gasPayer : string) (chainID : Z) (d : duration) (now : time) (token : string) (locked : gset string)
| K_claim_observation (keeperID gasPayer : string) (chainID : Z) (d : duration) (now : time) (token : string) (locked : gset string)
| K_allocate (l : KeeperLease) (observed : Z) (now : time)
| K_prepared (l : KeeperLease) (a : KeeperAttempt) (now : time)
| K_replacement (l : KeeperLease) (previous a : KeeperAttempt) (now : time)
| K_broadcasting (l : KeeperLease) (number : Z) (now : time)
| K_submitted (l : KeeperLease) (number : Z) (txHash : string) (now : time)
| K_ambiguous (l : KeeperLease) (number : Z) (reason : string) (now : time)
| K_rejected (l : KeeperLease) (number : Z) (target : KeeperState) (reason : string) (now : time)
| K_dead_letter (l : KeeperLease) (reason : string) (now : time)
| K_outcome (l : KeeperLease) (o : KeeperOutcome) (now : time)
| K_release (l : KeeperLease).

(** What the environment answers to one call of the service. *)
Record kenv := mkKenv {
  kv_clock : nat -> time; kv_token : string; kv_locked : gset string; kv_effect : string;
  kv_artifact : string -> string -> res string;
  kv_assemble : KeeperJob -> string -> Z -> KeeperFee -> res UnsignedTransaction;
  kv_verify : KeeperJob -> UnsignedTransaction -> string -> res unit;
  kv_sign : UnsignedTransaction -> res SignedTransaction;
  kv_seal : string -> string -> res (string * string);
  kv_open : string -> string -> string -> res string;
  kv_broadcast : string -> res string;
  kv_initial : KeeperJob -> res KeeperFee;
  kv_bump : KeeperJob -> KeeperAttempt -> res KeeperFee;
  kv_pending : Z -> string -> res Z;
  kv_safe : KeeperJob -> KeeperAttempt -> res unit;
  kv_observe : KeeperJob -> KeeperAttempt -> res KeeperOutcome;
  kv_gate : option (string -> res Z) }.

(** [kv_gate] is [None] when the service was given the leadership store as its gate, and
    the [Current] of a gate that has no [FenceSink] otherwise.

    A broadcast: the job it was made for, its attempt, the bytes, the fenced effect it is
    part of with the epoch it was admitted for, none when it is unfenced, and leadership
    at that moment. *)
Record KeeperSent := mkSent { sn_Job : KeeperJob; sn_Attempt : KeeperAttempt; sn_Raw : string; sn_Effect : string; sn_Epoch : option Z; sn_Leadership : lworld }.

Record kworld := mkKWorld { kw_t : ktables; kw_l : lworld; kw_others : list (list kop * list lop); kw_sent : list KeeperSent }.

Definition KM (A : Type) : Type := kworld -> kworld * res A.
#[export] Instance KM_ret : MRet KM := fun A a w => (w, Ok a).
#[export] Instance KM_bind : MBind KM := fun A B f m w => match m w with (w, Ok a) => f a w | (w, Err e) => (w, Err e) end.
Definition kraise {A} (e : error) : KM A := fun w => (w, Err e).
Definition klift {A} (r : res A) : KM A := fun w => (w, r).

(** Nobody but this process finishes its effect. *)
Definition others_op (effectID : string) (op : lop) : bool :=
  match op with O_finish id _ | O_crash id => negb (bool_decide (id = effectID)) | _ => true end.

Section Service.
Context `{Crypto, EthLib}.
Variable pg_time : time -> time.

Definition keep {A} (t : ktables) (r : res (ktables * A)) : ktables := match r with Ok (t, _) => t | Err _ => t end.

(** An attempt as the store returned it: the row still has its hash and fee. *)
Definition read_from (t : ktables) (p : KeeperAttempt) : bool :=
  match kt_attempts t !! (ka_JobID p, ka_Number p) with
  | None => false
  | Some q => bool_decide (ka_TransactionHash q = ka_TransactionHash p) && bool_decide (ka_Fee q = ka_Fee p)
  end.

Definition kexec (t : ktables) (op : kop) : ktables :=
  match op with
  | K_organization id => mkKTables ({[id]} ∪ kt_organizations t) (kt_jobs t) (kt_sequences t) (kt_attempts t)
  | K_enqueue i now => keep t (Enqueue pg_time t i now)
  | K_claim k p c d now token locked => keep t (Claim pg_time t k p c d now token locked)
  | K_claim_observation k p c d now token locked => keep t (ClaimObservation pg_time t k p c d now token locked)
  | K_allocate l observed now => keep t (AllocateNonce pg_time t l observed now)
  | K_prepared l a now => keep t (RecordPrepared pg_time t l a now)
  | K_replacement l previous a now => if read_from t previous then keep t (RecordReplacement pg_time t l previous a now) else t
  | K_broadcasting l number now => keep t (MarkBroadcasting pg_time t l number now)
  | K_submitted l number h now => keep t (MarkSubmitted pg_time t l number h now)
  | K_ambiguous l number reason now => keep t (MarkAmbiguous pg_time t l number reason now)
  | K_rejected l number target reason now => keep t (MarkRejected pg_time t l number target reason now)
  | K_dead_letter l reason now => keep t (MarkRecoveryDeadLetter pg_time t l reason now)
  | K_outcome l o now => keep t (ApplyOutcome pg_time t l o now)
  | K_release l => keep t (try t := ReleaseKeeperLease t l in Ok (t, tt))
  end.

(** The others' turn, before a transaction of this process. *)
Definition others (effectID : string) (w : kworld) : kworld :=
  match kw_others w with
  | [] => w
  | (ks, ls) :: rest =>
      mkKWorld (foldl kexec (kw_t w) ks) (foldl (lexec pg_time) (kw_l w) (List.filter (others_op effectID) ls)) rest (kw_sent w)
  end.

Definition kstore (env : kenv) {A} (f : ktables -> res (ktables * A)) : KM A := fun w =>
  let w := others (kv_effect env) w in
  match f (kw_t w) with
  | Ok (t, a) => (mkKWorld t (kw_l w) (kw_others w) (kw_sent w), Ok a)
  | Err e => (w, Err e)
  end.
Definition kread (env : kenv) {A} (f : ktables -> res A) : KM A := kstore env (fun t => try a := f t in Ok (t, a)).
Definition klead (env : kenv) {A} (f : lworld -> res A) : KM A := fun w => let w := others (kv_effect env) w in (w, f (kw_l w)).

Definition leadership_current (env : kenv) (org : string) : KM Z :=
  match kv_gate env with
  | None => klead env (fun l => Current (lw_t l) org)
  | Some current => klift (current org)
  end.

(** The error of the mark is joined to the cause. *)
Definition dead_letter (env : kenv) (l : KeeperLease) (reason : string) (cause : error) {A} : KM A := fun w =>
  match kstore env (fun t => MarkRecoveryDeadLetter pg_time t l reason (kv_clock env 1)) w with (w, _) => (w, Err cause) end.

Definition ignoring {A B} (m : KM A) (k : KM B) : KM B := fun w => match m w with (w, _) => k w end.

Definition ksend (env : kenv) (l : KeeperLease) (a : KeeperAttempt) (raw : string) (epoch : option Z) : KM unit := fun w =>
  (mkKWorld (kw_t w) (kw_l w) (kw_others w) (kw_sent w ++ [mkSent (kl_Job l) a raw (kv_effect env) epoch (kw_l w)]), Ok tt).

Definition broadcast (env : kenv) (l : KeeperLease) (a : KeeperAttempt) (raw : string) (epoch : option Z) : KM KeeperJob :=
  _ ← kstore env (fun t => MarkBroadcasting pg_time t l (ka_Number a) (kv_clock env 2));
  _ ← ksend env l a raw epoch;
  match kv_broadcast env raw with
  | Ok h =>
      if negb (bool_decide (h = ka_TransactionHash a)) then
        ignoring (kstore env (fun t => MarkAmbiguous pg_time t l (ka_Number a) "RPC returned a different transaction hash" (kv_clock env 3)))
          (kraise ErrKeeperAmbiguous)
      else kstore env (fun t => MarkSubmitted pg_time t l (ka_Number a) h (kv_clock env 3))
  | Err e =>
      if bool_decide (e = ErrBroadcastRejected) || bool_decide (e = ErrBroadcastUnderpriced) then
        let target := if bool_decide (e = ErrBroadcastUnderpriced) then StateTimedOut else StateDeadLetter in
        ignoring (kstore env (fun t => MarkRejected pg_time t l (ka_Number a) target e (kv_clock env 3))) (kraise e)
      else ignoring (kstore env (fun t => MarkAmbiguous pg_time t l (ka_Number a) e (kv_clock env 3))) (kraise ErrKeeperAmbiguous)
  end.

Definition rebroadcast (env : kenv) (l : KeeperLease) (epoch : option Z) : KM KeeperJob :=
  a ← kread env (fun t => CurrentAttempt t (kj_JobID (kl_Job l)));
  if negb (bool_decide (ka_State a ∈ [AttemptPrepared; AttemptBroadcasting])) then kraise ErrKeeperConflict else
  raw ← klift (kv_open env (ka_Sealed a) (ka_SealingKeyID a) (keeper_aad (ka_JobID a) (ka_Number a) (ka_TransactionHash a)));
  _ ← klift (verifyRecoveredSigned (kl_Job l) a raw);
  broadcast env l a raw epoch.

(** The artifact of a bearer job, or why there is none; a job that needs none has the
    empty one. *)
Definition window_open (j : KeeperJob) (now : time) : bool :=
  negb (time_before now (ei_ValidAfter (kj_Input j))) && time_before now (ei_ValidBefore (kj_Input j)).

Definition prepare_artifact (c : KeeperConfig) (env : kenv) (l : KeeperLease) (now : time) : KM string :=
  let j := kl_Job l in
  if negb (RequiresBearer j) then mret "" else
  if negb (window_open j now) then dead_letter env l ErrSignatureUnavailable ErrSignatureUnavailable else
  epoch ← leadership_current env (kj_OrganizationID j);
  if negb (epoch =? ei_LeadershipEpoch (kj_Input j)) then dead_letter env l "stale leadership epoch" ErrKeeperConflict else
  artifact ← klift (kv_artifact env (ei_SignerHandle (kj_Input j)) (kc_KeeperID c));
  if bool_decide (artifact = "") || (4096 <? str_len artifact) then kraise ErrSignatureUnavailable else mret artifact.

Definition assemble_verified (c : KeeperConfig) (env : kenv) (j : KeeperJob) (artifact : string) (nonce : Z) (fee : KeeperFee) : res UnsignedTransaction :=
  try u := kv_assemble env j artifact nonce fee in
  try _ := validateUnsigned j u c in
  try _ := kv_verify env j u artifact in
  Ok u.

Definition new_attempt (j : KeeperJob) (number nonce : Z) (fee : KeeperFee) (s : SignedTransaction) (sealed keyID : string) (now : time) : KeeperAttempt :=
  mkKeeperAttempt (kj_JobID j) number nonce (kj_GasPayer j) fee (sg_Hash s) sealed keyID AttemptPrepared now 0 "" "" 0.

Definition prepareAndBroadcast (c : KeeperConfig) (env : kenv) (l : KeeperLease) (epoch : option Z) : KM KeeperJob :=
  let j := kl_Job l in
  let now := kv_clock env 4 in
  if time_before now (ei_EligibleAfter (kj_Input j)) then kraise ErrKeeperNoWork else
  artifact ← prepare_artifact c env l now;
  observedNonce ← klift (kv_pending env (kj_ChainID j) (kj_GasPayer j));
  fee ← klift (kv_initial env j);
  if negb (validFee fee) then kraise ErrKeeperTransaction else
  u ← klift (assemble_verified c env j artifact observedNonce fee);
  nonce ← kstore env (fun t => AllocateNonce pg_time t l observedNonce (kv_clock env 5));
  u ← (if nonce =? observedNonce then mret u else klift (assemble_verified c env j artifact nonce fee));
  s ← klift (kv_sign env u);
  _ ← klift (verifySignedTransaction u s);
  sealed ← klift (kv_seal env (sg_Raw s) (keeper_aad (kj_JobID j) 1 (sg_Hash s)));
  let a := new_attempt j 1 nonce fee s sealed.1 sealed.2 now in
  _ ← kstore env (fun t => RecordPrepared pg_time t l a (kv_clock env 6));
  broadcast env l a (sg_Raw s) epoch.

Definition replacement_artifact (c : KeeperConfig) (env : kenv) (l : KeeperLease) (now : time) : KM string :=
  let j := kl_Job l in
  if negb (RequiresBearer j) then mret "" else
  if negb (window_open j now) then dead_letter env l ErrSignatureUnavailable ErrSignatureUnavailable else
  epoch ← leadership_current env (kj_OrganizationID j);
  if negb (epoch =? ei_LeadershipEpoch (kj_Input j)) then kraise ErrKeeperConflict else
  klift (kv_artifact env (ei_SignerHandle (kj_Input j)) (kc_KeeperID c)).

Definition replace (c : KeeperConfig) (env : kenv) (l : KeeperLease) (epoch : option Z) : KM KeeperJob :=
  let j := kl_Job l in
  previous ← kread env (fun t => CurrentAttempt t (kj_JobID j));
  if (kc_MaxFeeBumps c <? ka_Number previous) || negb (bool_decide (kj_State j ∈ [StateTimedOut; StateReorged]))
  then dead_letter env l ErrFeeBumpsExhausted ErrFeeBumpsExhausted else
  _ ← klift (match kv_safe env j previous with Ok _ => Ok tt | Err _ => Err ErrUnsafeReplacement end);
  let now := kv_clock env 4 in
  artifact ← replacement_artifact c env l now;
  fee ← klift (kv_bump env j previous);
  if negb (validFee fee && strictlyBumped (ka_Fee previous) fee) then kraise ErrKeeperTransaction else
  u ← klift (assemble_verified c env j artifact (ka_Nonce previous) fee);
  s ← klift (kv_sign env u);
  _ ← klift (verifySignedTransaction u s);
  if bool_decide (sg_Hash s = ka_TransactionHash previous) then kraise ErrKeeperTransaction else
  let number := ka_Number previous + 1 in
  sealed ← klift (kv_seal env (sg_Raw s) (keeper_aad (kj_JobID j) number (sg_Hash s)));
  let a := new_attempt j number (ka_Nonce previous) fee s sealed.1 sealed.2 now in
  _ ← kstore env (fun t => RecordReplacement pg_time t l previous a (kv_clock env 6));
  broadcast env l a (sg_Raw s) epoch.

Definition keeper_advance (c : KeeperConfig) (env : kenv) (l : KeeperLease) (epoch : option Z) : KM KeeperJob :=
  match kj_State (kl_Job l) with
  | StateQueued => prepareAndBroadcast c env l epoch
  | StatePrepared | StateBroadcasting => rebroadcast env l epoch
  | StateTimedOut | StateReorged => replace c env l epoch
  | _ => kraise ErrKeeperConflict
  end.

(** [FenceSink] around [keeper_advance]: admission, the callback, completion. *)
Definition SinkKeeperRelay : string := "KEEPER_RELAY".

Definition fence_begin (env : kenv) (org : string) (epoch : Z) : KM unit := fun w =>
  let w := others (kv_effect env) w in
  let l := lexec pg_time (kw_l w) (O_admit (kv_effect env) org epoch SinkKeeperRelay (kv_clock env 7)) in
  (mkKWorld (kw_t w) l (kw_others w) (kw_sent w),
   match fence_admit pg_time (lw_t (kw_l w)) (kv_effect env) org epoch SinkKeeperRelay (kv_clock env 7) with
   | Ok (_, true) => Ok tt
   | Ok (_, false) => Err ErrEpochChanged
   | Err e => Err e
   end).

Definition fence_end (env : kenv) {A} (result : res A) : KM A := fun w =>
  let w := others (kv_effect env) w in
  let l := lexec pg_time (kw_l w) (O_finish (kv_effect env) (kv_clock env 8)) in
  (mkKWorld (kw_t w) l (kw_others w) (kw_sent w),
   match completeEffect pg_time (lw_t (kw_l w)) (kv_effect env) SinkKeeperRelay (kv_clock env 8), result with
   | Ok _, r => r
   | Err e, Ok _ => Err e
   | Err _, Err e => Err e
   end).

Definition ended (env : kenv) {A} (m : KM A) : KM A := fun w => match m w with (w, r) => fence_end env r w end.

Definition fenced (c : KeeperConfig) (env : kenv) (l : KeeperLease) (epoch : Z) : KM KeeperJob :=
  _ ← fence_begin env (kj_OrganizationID (kl_Job l)) epoch;
  ended env (keeper_advance c env l (Some epoch)).

(** The lease is released whatever happens; its errors are dropped. *)
Definition releasing_keeper (env : kenv) (l : KeeperLease) {A} (m : KM A) : KM A := fun w =>
  match m w with
  | (w, r) => match kstore env (fun t => try t := ReleaseKeeperLease t l in Ok (t, tt)) w with (w, _) => (w, r) end
  end.

Definition RunOnce (c : KeeperConfig) (env : kenv) : KM KeeperJob :=
  l ← kstore env (fun t => Claim pg_time t (kc_KeeperID c) (kc_GasPayer c) (kc_ChainID c) (kc_LeaseDuration c) (kv_clock env 0) (kv_token env)
                             (kv_locked env));
  releasing_keeper env l
    (let j := kl_Job l in
     if negb (mine j (kc_KeeperID c) (kc_GasPayer c) (kc_ChainID c)) then kraise ErrKeeperJob else
     match kv_gate env with
     | None =>
         epoch ← (if ei_LeadershipEpoch (kj_Input j) =? 0 then leadership_current env (kj_OrganizationID j) else mret (ei_LeadershipEpoch (kj_Input j)));
         fenced c env l epoch
     | Some _ => keeper_advance c env l None
     end).

Definition KeeperObserveOnce (c : KeeperConfig) (env : kenv) : KM KeeperJob :=
  l ← kstore env (fun t => ClaimObservation pg_time t (kc_KeeperID c) (kc_GasPayer c) (kc_ChainID c) (kc_LeaseDuration c) (kv_clock env 0)
                             (kv_token env) (kv_locked env));
  releasing_keeper env l
    (a ← kread env (fun t => CurrentAttempt t (kj_JobID (kl_Job l)));
     o ← klift (kv_observe env (kl_Job l) a);
     _ ← klift (keeper_validateOutcome (kl_Job l) a o (kv_clock env 4));
     kstore env (fun t => ApplyOutcome pg_time t l o (kv_clock env 5))).

(** [ExpiryScanner.Scan] *)
Definition scan_call (env : kenv) (c : KeeperConfig) (created : Z) (call : ExpiredCall) : KM Z :=
  _ ← klift (validateExpiredCall call (kv_clock env 0));
  if negb (xc_ChainID call =? kc_ChainID c) then kraise ErrKeeperJob else
  r ← kstore env (fun t => Enqueue pg_time t (expired_input (kc_KeeperID c) (kc_GasPayer c) call) (kv_clock env 1));
  mret (if snd r : bool then created else created + 1).

Definition Scan (env : kenv) (c : KeeperConfig) (limit : Z) (calls : res (list ExpiredCall)) : KM Z :=
  if negb (between 1 1000 limit) then kraise ErrKeeperConfig else
  calls ← klift calls;
  if limit <? Z.of_nat (length calls) then kraise ErrKeeperJob else
  foldl (fun m call => created ← m; scan_call env c created call) (mret 0) calls.

End Service.
