(* ===== verification/KeeperTheorems.v ===== *)
(** * The keeper: one nonce per job, and what it broadcasts

    [keeper_inv] holds of the store under any interleaving of its transactions by any
    number of workers, with whatever attempts they offer; [sent_ok] holds of every broadcast
    of a worker, whatever the others do between two of its transactions. *)
From stdpp Require Import base gmap strings list sorting.
From Stdlib Require Import ZArith Lia Ascii.
From S2P Require Import Prelude GoText GoJSON Amounts Crypto Envelope GovAction SafeTx Keeper KeeperStore Leadership LeadershipTheorems KeeperService.

Open Scope Z_scope.

(** ** Nonces survive their text *)

Lemma nonce_digits l : forall acc p,
  forallb is_digit l = true -> foldl parse_nonce_digit (Ok acc) l = Ok p -> parse_digits (str_of l) acc = Some p.
Proof.
  assert (Herr : forall l e, foldl parse_nonce_digit (Err e) l = Err e) by (induction l0 as [|c l0 IH]; intros e; cbn; auto).
  induction l as [|c l IH]; intros acc p; cbn [forallb foldl str_of String.string_of_list_ascii parse_digits].
  - by intros _ [= ->].
  - intros [Hc Hl]%andb_true_iff Hf. rewrite Hc. unfold parse_nonce_digit at 2 in Hf. destruct (negb _) eqn:E; [|by rewrite Herr in Hf].
    apply IH in Hf; [|done]. replace (10 * acc + digit_val c) with (acc * 10 + (code c - 48)) by (unfold digit_val; lia). done.
Qed.

Lemma unsigned_digits v : unsignedDecimal v = true -> v <> "" /\ forallb is_digit (chars v) = true.
Proof.
  unfold unsignedDecimal. rewrite orb_true_iff. intros [Hv|Hv].
  - apply bool_decide_eq_true in Hv as ->. done.
  - destruct v as [|c r]; [done|]. split; [done|]. rewrite !andb_true_iff in Hv. destruct Hv as [[Hc Hr] _].
    unfold chars. cbn [String.list_ascii_of_string forallb]. rewrite str_all_chars in Hr. fold (chars r). rewrite Hr, andb_true_r.
    unfold is_digit, between in *. to_prop. lia.
Qed.

Lemma parse_nonce_dec n p : parseNonce (dec_string n) = Ok p -> p = n.
Proof.
  unfold parseNonce. rewrite check_ok_iff. intros [Hu Hf]. destruct (unsigned_digits _ Hu) as [Hne Hd].
  apply nonce_digits in Hf; [|done]. unfold chars, str_of in Hf. rewrite String.string_of_list_ascii_of_string in Hf.
  destruct (Z_lt_le_dec n 0) as [Hn|Hn].
  - exfalso. unfold dec_string in Hd. destruct (n <? 0) eqn:E; [|to_prop; lia]. done.
  - pose proof (SetString10_dec_string n Hn) as Hs. rewrite SetString10_digits in Hs; [congruence|done|].
    rewrite str_all_chars. done.
Qed.

(** ** The store *)

Record job_inv (t : ktables) (id : string) (row : JobRow) : Prop := {
  ji_id : kj_JobID (jr_job row) = id;
  ji_count : 0 <= kj_AttemptCount (jr_job row) <= 4 /\ kj_CurrentAttempt (jr_job row) = kj_AttemptCount (jr_job row);
  ji_attempts : forall n, is_Some (kt_attempts t !! (id, n)) <-> 1 <= n <= kj_AttemptCount (jr_job row);
  ji_queued : kj_State (jr_job row) = StateQueued -> kj_AttemptCount (jr_job row) = 0;
  ji_nonce : forall n, jr_nonce row = Some n -> exists next, kt_sequences t !! seq_key (jr_job row) = Some next /\ n < next }.

Record attempt_inv (t : ktables) (id : string) (n : Z) (a : KeeperAttempt) : Prop := {
  ai_id : ka_JobID a = id;
  ai_number : ka_Number a = n;
  ai_job : exists row, kt_jobs t !! id = Some row /\ kj_GasPayer (jr_job row) = ka_GasPayer a /\ jr_nonce row = Some (ka_Nonce a);
  ai_fee : validFee (ka_Fee a) = true;
  ai_bumped : n <> 1 -> exists p, kt_attempts t !! (id, n - 1) = Some p /\ strictlyBumped (ka_Fee p) (ka_Fee a) = true }.

Record keeper_inv (t : ktables) : Prop := {
  ki_jobs : map_Forall (job_inv t) (kt_jobs t);
  ki_attempts : forall id n a, kt_attempts t !! (id, n) = Some a -> attempt_inv t id n a;
  ki_nonces : forall id id' row row' n, kt_jobs t !! id = Some row -> kt_jobs t !! id' = Some row' ->
    kj_GasPayer (jr_job row) = kj_GasPayer (jr_job row') -> jr_nonce row = Some n -> jr_nonce row' = Some n -> id = id';
  ki_hashes : forall k k' a a', kt_attempts t !! k = Some a -> kt_attempts t !! k' = Some a' -> ka_TransactionHash a = ka_TransactionHash a' -> k = k' }.

(** A change of a job that keeps what it was created with and its attempts. *)
Lemma inv_job t id row j :
  kt_jobs t !! id = Some row -> kj_Input j = kj_Input (jr_job row) -> kj_AttemptCount j = kj_AttemptCount (jr_job row) ->
  kj_CurrentAttempt j = kj_CurrentAttempt (jr_job row) -> (kj_State j = StateQueued -> kj_AttemptCount j = 0) ->
  keeper_inv t -> keeper_inv (set_jobs t (<[id := mkJobRow j (jr_nonce row)]> (kt_jobs t))).
Proof.
  intros Hr Hi Hc Hcur Hq [I1 I2 I3 I4].
  assert (Hsame : forall id' row', <[id := mkJobRow j (jr_nonce row)]> (kt_jobs t) !! id' = Some row' ->
            exists row0, kt_jobs t !! id' = Some row0 /\ kj_Input (jr_job row') = kj_Input (jr_job row0) /\ jr_nonce row' = jr_nonce row0).
  { intros id' row' [[<- <-]|[_ H']]%lookup_insert_Some; [by exists row|by exists row']. }
  split; cbn.
  - intros id' row' [[<- <-]|[_ H']]%lookup_insert_Some.
    + destruct (I1 _ _ Hr) as [J1 J2 J3 J4 J5]. split; cbn; rewrite ?Hc, ?Hcur; try done.
      * unfold kj_JobID in *. by rewrite Hi.
      * intros Hs. rewrite <-Hc. by apply Hq.
      * intros n Hn. unfold seq_key, kj_ChainID, kj_GasPayer. rewrite Hi. by apply J5.
    + destruct (I1 _ _ H'). by split.
  - intros id' n a Ha. destruct (I2 _ _ _ Ha) as [A1 A2 (row0 & Hr0 & Hp & Hn) A4 A5]. split; cbn; try done.
    destruct (decide (id = id')) as [<-|Hd]; [|exists row0; by rewrite lookup_insert_ne].
    rewrite Hr in Hr0. injection Hr0 as <-. eexists. rewrite lookup_insert_eq. split_and!; [done| |done]. cbn. unfold kj_GasPayer in *. by rewrite Hi.
  - intros id1 id2 row1 row2 n (r1 & H1 & E1 & N1)%Hsame (r2 & H2 & E2 & N2)%Hsame. unfold kj_GasPayer. rewrite E1, E2, N1, N2. by eapply I3.
  - done.
Qed.

Lemma inv_put t row j :
  kt_jobs t !! kj_JobID j = Some row -> kj_Input j = kj_Input (jr_job row) -> kj_AttemptCount j = kj_AttemptCount (jr_job row) ->
  kj_CurrentAttempt j = kj_CurrentAttempt (jr_job row) -> (kj_State j = StateQueued -> kj_AttemptCount j = 0) -> keeper_inv t -> keeper_inv (put_job t j).
Proof. intros Hr. unfold put_job. rewrite Hr. by apply inv_job. Qed.

(** A change of an attempt's state. *)
Definition same_attempt (a b : KeeperAttempt) : Prop :=
  ka_JobID b = ka_JobID a /\ ka_Number b = ka_Number a /\ ka_Nonce b = ka_Nonce a /\ ka_GasPayer b = ka_GasPayer a /\ ka_Fee b = ka_Fee a /\
  ka_TransactionHash b = ka_TransactionHash a.

Lemma inv_attempt t k a b :
  kt_attempts t !! k = Some a -> same_attempt a b -> keeper_inv t -> keeper_inv (set_attempts t (<[k := b]> (kt_attempts t))).
Proof.
  intros Hk (S1 & S2 & S3 & S4 & S5 & S6) [I1 I2 I3 I4].
  assert (Hsame : forall k' a', <[k := b]> (kt_attempts t) !! k' = Some a' -> exists a0, kt_attempts t !! k' = Some a0 /\ ka_Fee a' = ka_Fee a0 /\
            ka_TransactionHash a' = ka_TransactionHash a0 /\ ka_JobID a' = ka_JobID a0 /\ ka_Number a' = ka_Number a0 /\ ka_Nonce a' = ka_Nonce a0 /\
            ka_GasPayer a' = ka_GasPayer a0).
  { intros k' a' [[<- <-]|[_ H']]%lookup_insert_Some; [by exists a; split_and!|by exists a']. }
  assert (Hdom : forall k', is_Some (<[k := b]> (kt_attempts t) !! k') <-> is_Some (kt_attempts t !! k')).
  { intros k'. destruct (decide (k = k')) as [<-|Hd]; [rewrite lookup_insert_eq, Hk; split; eauto|by rewrite lookup_insert_ne]. }
  split; cbn.
  - intros id row Hr. destruct (I1 _ _ Hr) as [J1 J2 J3 J4 J5]. split; try done. intros n. rewrite <-J3. cbn. apply Hdom.
  - intros id n a' Ha. destruct (Hsame _ _ Ha) as (a0 & Ha0 & F1 & F2 & F3 & F4 & F5 & F6).
    destruct (I2 _ _ _ Ha0) as [A1 A2 A3 A4 A5]. split; rewrite ?F1, ?F3, ?F4, ?F5, ?F6; try done.
    intros Hn. destruct (A5 Hn) as (p & Hp & Hb). cbn. destruct (decide (k = (id, n - 1))) as [->|Hd].
    + rewrite lookup_insert_eq. rewrite Hk in Hp. injection Hp as <-. exists b. by rewrite S5.
    + rewrite lookup_insert_ne by done. by exists p.
  - done.
  - intros k1 k2 a1 a2 (b1 & H1 & _ & E1 & _)%Hsame (b2 & H2 & _ & E2 & _)%Hsame. rewrite E1, E2. by eapply I4.
Qed.

Section Store.
Context `{Crypto}.
Variable pg_time : time -> time.

Lemma update_attempt_ok t id n guard f t' :
  update_attempt t id n guard f = Ok t' -> exists a, kt_attempts t !! (id, n) = Some a /\ guard a = true /\ t' = set_attempts t (<[(id, n) := f a]> (kt_attempts t)).
Proof. unfold update_attempt. destruct (kt_attempts t !! (id, n)) as [a|]; [|done]. rewrite !check_ok_iff. intros (? & _ & [= <-]). by exists a. Qed.

Lemma inv_update_attempt t id n guard s at_ err ev obs t' :
  update_attempt t id n guard (fun a => with_attempt_state a (s a) (at_ a) (err a) (ev a) (obs a)) = Ok t' -> keeper_inv t ->
  keeper_inv t' /\ kt_jobs t' = kt_jobs t.
Proof. intros (a & Ha & _ & ->)%update_attempt_ok I. split; [|done]. by eapply inv_attempt. Qed.

Lemma hash_not_taken t h : hash_taken t h = false -> forall k a, kt_attempts t !! k = Some a -> ka_TransactionHash a <> h.
Proof.
  unfold hash_taken. intros Hf k a Ha Hh. apply not_true_iff_false in Hf. apply Hf, existsb_exists. exists (k, a).
  split; [by apply list_elem_of_In, elem_of_map_to_list|by apply bool_decide_eq_true].
Qed.

(** A new attempt: the next number of its job, the job's nonce, and a higher fee. *)
Lemma inv_new_attempt t a t1 row j :
  insert_attempt pg_time t a = Ok t1 -> validateAttempt a = Ok tt -> kt_jobs t !! ka_JobID a = Some row -> kj_Input j = kj_Input (jr_job row) ->
  ka_Number a = kj_AttemptCount (jr_job row) + 1 -> ka_Number a <= 4 -> kj_AttemptCount j = ka_Number a -> kj_CurrentAttempt j = ka_Number a ->
  kj_State j <> StateQueued ->
  (ka_Number a <> 1 -> exists p, kt_attempts t !! (ka_JobID a, ka_Number a - 1) = Some p /\ strictlyBumped (ka_Fee p) (ka_Fee a) = true) ->
  keeper_inv t -> keeper_inv (put_job t1 j).
Proof.
  unfold insert_attempt. rewrite check_ok_iff. intros [Hok [= <-]] Hval Hr Hi Hnum Hle Hc Hcur Hst Hbump I. pose proof I as [I1 I2 I3 I4].
  destruct (I1 _ _ Hr) as [J1 J2 J3 J4 J5]. to_prop. destruct Hok as [[Hrow Hnew] Hh]. unfold attempt_row_ok in Hrow. cbn in Hrow. rewrite Hr in Hrow. to_prop.
  destruct Hrow as [_ [Hpay Hnon]].
  assert (Hid : kj_JobID j = ka_JobID a) by (unfold kj_JobID in *; by rewrite Hi).
  unfold put_job. cbn. rewrite Hid, Hr. split; cbn.
  - intros id' row' [[<- <-]|[Hd H']]%lookup_insert_Some.
    + split; cbn; [done|lia| |done|].
      * intros n. rewrite Hc. destruct (decide (n = ka_Number a)) as [->|Hn]; [rewrite lookup_insert_eq; split; [lia|eauto]|].
        rewrite lookup_insert_ne by congruence. rewrite J3. lia.
      * intros n Hn. unfold seq_key, kj_ChainID, kj_GasPayer. rewrite Hi. by apply J5.
    + destruct (I1 _ _ H') as [K1 K2 K3 K4 K5]. split; try done. intros n. cbn. rewrite lookup_insert_ne by congruence. apply K3.
  - intros id' n a' [[[= <- <-] <-]|[Hd H']]%lookup_insert_Some.
    + split; cbn; [done|done| | |].
      * eexists. rewrite lookup_insert_eq. split_and!; [done| |done]. cbn. unfold kj_GasPayer in *. by rewrite Hi.
      * unfold validateAttempt in Hval. rewrite check_ok_iff in Hval. destruct Hval as [Hval _]. to_prop. naive_solver.
      * intros Hn. destruct (Hbump Hn) as (p & Hp & Hb). exists p. rewrite lookup_insert_ne; [done|]. intros [=]. lia.
    + destruct (I2 _ _ _ H') as [A1 A2 (row0 & Hr0 & Hp & Hn) A4 A5]. split; try done.
      * destruct (decide (ka_JobID a = id')) as [<-|Hd']; [|exists row0; cbn; by rewrite lookup_insert_ne].
        rewrite Hr in Hr0. injection Hr0 as <-. eexists. cbn. rewrite lookup_insert_eq. split_and!; [done| |done]. cbn. unfold kj_GasPayer in *. by rewrite Hi.
      * intros Hn1. destruct (A5 Hn1) as (p & Hp' & Hb). exists p. cbn. split; [|done]. rewrite lookup_insert_ne; [done|]. intros [= <- Hx].
        rewrite Hx in Hnew. congruence.
  - assert (Hsame : forall id' row', <[ka_JobID a := mkJobRow j (jr_nonce row)]> (kt_jobs t) !! id' = Some row' ->
            exists row0, kt_jobs t !! id' = Some row0 /\ kj_Input (jr_job row') = kj_Input (jr_job row0) /\ jr_nonce row' = jr_nonce row0).
    { intros id' row' [[<- <-]|[_ H']]%lookup_insert_Some; [by exists row|by exists row']. }
    intros id1 id2 row1 row2 n (r1 & H1 & E1 & N1)%Hsame (r2 & H2 & E2 & N2)%Hsame. unfold kj_GasPayer. rewrite E1, E2, N1, N2. by eapply I3.
  - intros k1 k2 a1 a2 [[<- <-]|[Hd1 H1]]%lookup_insert_Some [[<- <-]|[Hd2 H2]]%lookup_insert_Some Heq; try done.
    + exfalso. symmetry in Heq. by eapply (hash_not_taken t (ka_TransactionHash a)).
    + exfalso. by eapply (hash_not_taken t (ka_TransactionHash a)).
    + by eapply I4.
Qed.

Lemma leased_ok t l now row :
  loadLeasedJob pg_time t l now = Ok row ->
  kt_jobs t !! kj_JobID (kl_Job l) = Some row /\ kj_LeaseToken (jr_job row) = kl_Token l /\ pg_time now < kj_LeaseExpiresAt (jr_job row).
Proof.
  unfold loadLeasedJob. destruct (kt_jobs t !! _) as [r|]; [|done]. rewrite check_ok_iff. intros [Hc [= ->]]. to_prop. by destruct Hc as [[? _] ?].
Qed.

Lemma transition_leased t l now change t' j :
  keeper_transition pg_time t l now change = Ok (t', j) ->
  exists row t1, kt_jobs t !! kj_JobID (kl_Job l) = Some row /\ change t row = Ok (t1, j) /\ t' = put_job t1 j.
Proof.
  unfold keeper_transition. rewrite try_unit_iff, try_ok_iff. intros (_ & row & [Hr _]%leased_ok & H'). apply try_ok_iff in H' as ((t1 & j1) & Hc & [= <- <-]).
  by exists row, t1.
Qed.

Lemma job_of_row t id row : keeper_inv t -> kt_jobs t !! id = Some row -> kt_jobs t !! kj_JobID (jr_job row) = Some row.
Proof. intros I Hr. by rewrite (ji_id _ _ _ (ki_jobs _ I _ _ Hr)). Qed.

(** A transition that only changes the job, after one that leaves the jobs alone. *)
Lemma inv_settled t t1 id row s count current err updated :
  keeper_inv t1 -> kt_jobs t1 = kt_jobs t -> kt_jobs t !! id = Some row -> s <> StateQueued ->
  count = kj_AttemptCount (jr_job row) -> current = kj_CurrentAttempt (jr_job row) ->
  keeper_inv (put_job t1 (with_job_state (jr_job row) s count current err updated)).
Proof.
  intros I Hj Hr Hs -> ->. rewrite <-Hj in Hr. eapply inv_put; cbn; [|done..].
  unfold kj_JobID. cbn. eapply job_of_row; done.
Qed.

Lemma enqueue_inv t i now t' r : Enqueue pg_time t i now = Ok (t', r) -> keeper_inv t -> keeper_inv t'.
Proof.
  unfold Enqueue, enqueueOnce. rewrite try_ok_iff. intros (_ & _ & H') I. destruct (kt_jobs t !! ei_JobID i) as [row|] eqn:E.
  - rewrite check_ok_iff in H'. by destruct H' as [_ [= <- _]].
  - rewrite !check_ok_iff in H'. destruct H' as (_ & _ & [= <- _]). destruct I as [I1 I2 I3 I4].
    assert (Hno : forall n, kt_attempts t !! (ei_JobID i, n) = None).
    { intros n. destruct (kt_attempts t !! (ei_JobID i, n)) eqn:Ea; [|done]. destruct (ai_job _ _ _ _ (I2 _ _ _ Ea)) as (row & Hr & _). congruence. }
    split; cbn.
    + intros id row [[<- <-]|[Hd Hr]]%lookup_insert_Some; [|destruct (I1 _ _ Hr); by split]. split; cbn; [done|lia| |done|done].
      intros n. rewrite Hno. split; [by intros []|lia].
    + intros id n a Ha. destruct (I2 _ _ _ Ha) as [A1 A2 (row & Hr & Hp & Hn) A4 A5]. split; try done. exists row. cbn.
      rewrite lookup_insert_ne; [done|]. intros <-. congruence.
    + intros id id' row row' n [[<- <-]|[Hd H1]]%lookup_insert_Some [[<- <-]|[Hd' H2]]%lookup_insert_Some; try done. by eapply I3.
    + done.
Qed.

Lemma sorted_candidate le `{!forall x y, Decision (le x y)} t locked p j rest :
  merge_sort le (candidates t locked p) = j :: rest -> p j = true /\ exists id row, kt_jobs t !! id = Some row /\ jr_job row = j.
Proof.
  intros Hs. assert (Hin : j ∈ candidates t locked p).
  { rewrite <-(merge_sort_Permutation le). rewrite Hs. apply elem_of_cons. by left. }
  apply list_elem_of_In, filter_In in Hin as [Hin Hp]. apply list_elem_of_In, list_elem_of_fmap in Hin as ((id & row) & -> & Hin).
  apply elem_of_map_to_list in Hin. apply andb_true_iff in Hp as [Hp _]. split; [done|]. by exists id, row.
Qed.

Lemma lease_inv t j k token d now id row :
  kt_jobs t !! id = Some row -> jr_job row = j -> keeper_inv t -> keeper_inv (keeper_lease pg_time t j k token d now).1.
Proof.
  intros Hr <- I. unfold keeper_lease. cbn. eapply inv_put; cbn; [|done..|apply (ji_queued _ _ _ (ki_jobs _ I _ _ Hr))|done].
  unfold kj_JobID. cbn. by eapply job_of_row.
Qed.

Lemma claim_inv t k p c d now token locked t' l : Claim pg_time t k p c d now token locked = Ok (t', l) -> keeper_inv t -> keeper_inv t'.
Proof.
  unfold Claim. rewrite check_ok_iff. intros [_ H'] I. destruct (merge_sort _ _) as [|j rest] eqn:E; [done|].
  apply sorted_candidate in E as [_ (id & row & Hr & Hj)]. injection H' as <- _. by eapply (lease_inv t j k token d now).
Qed.

Lemma observation_inv t k p c d now token locked t' l :
  ClaimObservation pg_time t k p c d now token locked = Ok (t', l) -> keeper_inv t -> keeper_inv t'.
Proof.
  unfold ClaimObservation. rewrite check_ok_iff. intros [_ H'] I. destruct (merge_sort _ _) as [|j rest] eqn:E; [done|].
  apply sorted_candidate in E as [_ (id & row & Hr & Hj)]. injection H' as <- _. by eapply (lease_inv t j k token d now).
Qed.

Lemma nonce_not_taken t payer n : nonce_taken t payer n = false ->
  forall id row, kt_jobs t !! id = Some row -> kj_GasPayer (jr_job row) = payer -> jr_nonce row <> Some n.
Proof.
  unfold nonce_taken. intros Hf id row Hr Hp Hn. apply not_true_iff_false in Hf. apply Hf, existsb_exists. exists (id, row).
  split; [by apply list_elem_of_In, elem_of_map_to_list|]. cbn. by rewrite !bool_decide_eq_true_2.
Qed.

(** What an allocation does: the same nonce again, or a new one above the sequence. *)
Lemma allocate_ok t l observed now t' n :
  AllocateNonce pg_time t l observed now = Ok (t', n) ->
  exists row, kt_jobs t !! kj_JobID (kl_Job l) = Some row /\
    ((jr_nonce row = Some n /\ t' = t) \/
     (jr_nonce row = None /\ (forall next, kt_sequences t !! seq_key (jr_job row) = Some next -> next <= n) /\ nonce_taken t (kj_GasPayer (jr_job row)) n = false /\
      exists job, kj_Input job = kj_Input (jr_job row) /\ kj_AttemptCount job = kj_AttemptCount (jr_job row) /\
        kj_CurrentAttempt job = kj_CurrentAttempt (jr_job row) /\ kj_State job = kj_State (jr_job row) /\
        t' = set_jobs (set_sequences t (<[seq_key (jr_job row) := n + 1]> (kt_sequences t)))
               (<[kj_JobID (jr_job row) := mkJobRow job (Some n)]> (kt_jobs t)))).
Proof.
  unfold AllocateNonce. rewrite try_unit_iff, try_ok_iff. intros (_ & row & [Hr _]%leased_ok & H'). rewrite check_ok_iff in H'. destruct H' as [_ H'].
  exists row. split; [done|]. destruct (jr_nonce row) as [reserved|].
  - apply try_ok_iff in H' as (p & Hp & [= <- <-]). apply parse_nonce_dec in Hp as ->. by left.
  - right. apply try_ok_iff in H' as (allocated & Ha & H'). rewrite !check_ok_iff in H'. destruct H' as (_ & Ht & [= <- <-]). apply negb_true_iff in Ht.
    split_and!; [done| |done|].
    + intros next Hnext. rewrite Hnext in Ha. apply try_ok_iff in Ha as (p & Hp & [= <-]). apply parse_nonce_dec in Hp as ->. lia.
    + eexists (with_job_state _ _ _ _ _ _). by split_and!.
Qed.

Lemma allocate_inv t l observed now t' n : AllocateNonce pg_time t l observed now = Ok (t', n) -> keeper_inv t -> keeper_inv t'.
Proof.
  intros (row & Hr & [[_ ->]|(Hnone & Hseq & Htaken & job & Hi & Hc & Hcur & Hst & ->)])%allocate_ok I; [done|]. pose proof I as [I1 I2 I3 I4].
  pose proof (I1 _ _ Hr) as [J1 J2 J3 J4 J5]. rewrite J1. clear J5.
  assert (Hin : forall id' row', <[kj_JobID (kl_Job l) := mkJobRow job (Some n)]> (kt_jobs t) !! id' = Some row' ->
            (id' = kj_JobID (kl_Job l) /\ row' = mkJobRow job (Some n)) \/ kt_jobs t !! id' = Some row').
  { intros id' row' [[<- <-]|[_ ?]]%lookup_insert_Some; auto. }
  assert (Hpay : kj_GasPayer job = kj_GasPayer (jr_job row)) by (unfold kj_GasPayer; by rewrite Hi).
  split; cbn.
  - intros id' row' [[<- <-]|[Hd H']]%lookup_insert_Some.
    + split; cbn; rewrite ?Hc, ?Hcur, ?Hst; try done.
      * unfold kj_JobID in *. rewrite Hi. done.
      * intros m [= <-]. unfold seq_key, kj_ChainID, kj_GasPayer. rewrite Hi. exists (n + 1). rewrite lookup_insert_eq. split; [done|lia].
    + destruct (I1 _ _ H') as [K1 K2 K3 K4 K5]. split; try done. intros m Hm. destruct (K5 _ Hm) as (next & Hn & Hlt). cbn.
      destruct (decide (seq_key (jr_job row) = seq_key (jr_job row'))) as [He|He].
      * rewrite He, lookup_insert_eq. eexists. split; [done|]. rewrite He in Hseq. specialize (Hseq _ Hn). lia.
      * rewrite lookup_insert_ne by done. by exists next.
  - intros id' m a Ha. destruct (I2 _ _ _ Ha) as [A1 A2 (row0 & Hr0 & Hp & Hn) A4 A5]. split; try done. exists row0. cbn.
    rewrite lookup_insert_ne; [done|]. intros <-. congruence.
  - intros id1 id2 row1 row2 m [[-> ->]|H1]%Hin [[-> ->]|H2]%Hin; cbn; try done; rewrite ?Hpay.
    + intros Hp [= <-] Hn. exfalso. eapply (nonce_not_taken _ _ _ Htaken); [exact H2|by symmetry|done].
    + intros Hp Hn [= <-]. exfalso. by eapply (nonce_not_taken _ _ _ Htaken).
    + by eapply I3.
  - done.
Qed.

Lemma attempt_valid a : is_ok (validateAttempt a) = true -> validateAttempt a = Ok tt.
Proof. by destruct (validateAttempt a) as [[]|]. Qed.

Lemma prepared_inv t l a now t' j : RecordPrepared pg_time t l a now = Ok (t', j) -> keeper_inv t -> keeper_inv t'.
Proof.
  unfold RecordPrepared. rewrite check_ok_iff. intros [Hv (row & t1 & Hr & Hc & ->)%transition_leased] I. to_prop. destruct Hv as [[Hv Hn] _].
  rewrite check_ok_iff in Hc. destruct Hc as [Hg Hc]. to_prop. destruct Hg as [[[Hs Hcount] Hcur] Hid].
  destruct (jr_nonce row) as [nonce|]; [|done]. rewrite check_ok_iff, try_ok_iff in Hc. destruct Hc as (_ & t2 & Hi & [= <- <-]).
  pose proof (job_of_row _ _ _ I Hr) as Hr'. rewrite Hid in Hr'.
  eapply inv_new_attempt; [done|by apply attempt_valid|done..|lia|lia|cbn; lia|cbn; lia|done| |done]. lia.
Qed.

(** An attempt that the store returned. *)
Lemma replacement_inv t l p a now t' j :
  read_from t p = true -> RecordReplacement pg_time t l p a now = Ok (t', j) -> keeper_inv t -> keeper_inv t'.
Proof.
  unfold RecordReplacement. rewrite check_ok_iff. intros Hread [Hv (row & t1 & Hr & Hc & ->)%transition_leased] I. to_prop.
  destruct Hv as [[[[[Hv Hn] _] Hnonce] _] Hb]. rewrite check_ok_iff in Hc. destruct Hc as [Hg Hc]. to_prop. destruct Hg as [[[[Hs Hcur] Hcount] Hid] Hle].
  rewrite try_ok_iff in Hc. destruct Hc as (t2 & Hu & Hc). apply try_ok_iff in Hc as (t3 & Hi & [= <- <-]).
  pose proof (update_attempt_ok _ _ _ _ _ _ Hu) as (q & Hq & Hguard & Ht2). destruct (inv_update_attempt _ _ _ _ _ _ _ _ _ _ Hu I) as [I2 Hj2].
  pose proof (job_of_row _ _ _ I Hr) as Hr'. rewrite Hid in Hr', Hq. rewrite <-Hj2 in Hr'.
  eapply (inv_new_attempt t2 a t3 row); [done|by apply attempt_valid|done..|lia|lia|done|done|done| |done]. intros _.
  eexists. rewrite Ht2, Hid. cbn. replace (ka_Number a - 1) with (ka_Number p) by lia. rewrite lookup_insert_eq. split; [done|]. cbn.
  unfold read_from in Hread. destruct (kt_attempts t !! (ka_JobID p, ka_Number p)) as [q'|] eqn:Eq; [|done]. to_prop.
  destruct Hguard as [Hh _], Hread as [Hh' Hf]. assert (Hk : (ka_JobID a, ka_Number p) = (ka_JobID p, ka_Number p)).
  { eapply (ki_hashes _ I); [done|done|congruence]. }
  rewrite Hk, Eq in Hq. injection Hq as <-. by rewrite Hf.
Qed.

Lemma broadcasting_inv t l n now t' j : MarkBroadcasting pg_time t l n now = Ok (t', j) -> keeper_inv t -> keeper_inv t'.
Proof.
  intros (row & t1 & Hr & Hc & ->)%transition_leased I. rewrite check_ok_iff, try_ok_iff in Hc. destruct Hc as (_ & t2 & Hu & [= <- <-]).
  destruct (inv_update_attempt _ _ _ _ (fun _ => AttemptBroadcasting) _ _ _ _ _ Hu I). by eapply inv_settled.
Qed.

Lemma finish_inv t l n h s s' reason now t' j :
  s <> StateQueued -> finishBroadcast pg_time t l n h s s' reason now = Ok (t', j) -> keeper_inv t -> keeper_inv t'.
Proof.
  intros Hs (row & t1 & Hr & Hc & ->)%transition_leased I. rewrite check_ok_iff, try_ok_iff in Hc. destruct Hc as (_ & t2 & Hu & [= <- <-]).
  destruct (inv_update_attempt _ _ _ _ (fun _ => s') _ (fun _ => boundedError reason) _ _ _ Hu I). by eapply inv_settled.
Qed.

Lemma submitted_inv t l n h now t' j : MarkSubmitted pg_time t l n h now = Ok (t', j) -> keeper_inv t -> keeper_inv t'.
Proof. unfold MarkSubmitted. rewrite check_ok_iff. intros [_ Hf]. by eapply finish_inv, Hf. Qed.

Lemma rejected_inv t l n target reason now t' j : MarkRejected pg_time t l n target reason now = Ok (t', j) -> keeper_inv t -> keeper_inv t'.
Proof.
  unfold MarkRejected. rewrite check_ok_iff. intros [Ht Hf]. eapply finish_inv, Hf. apply bool_decide_eq_true in Ht. intros ->. set_solver.
Qed.

Lemma dead_letter_inv t l reason now t' j : MarkRecoveryDeadLetter pg_time t l reason now = Ok (t', j) -> keeper_inv t -> keeper_inv t'.
Proof.
  intros (row & t1 & Hr & Hc & ->)%transition_leased I. rewrite check_ok_iff in Hc. destruct Hc as (_ & [= <- <-]). by eapply inv_settled.
Qed.

Lemma outcome_inv t l o now t' j : ApplyOutcome pg_time t l o now = Ok (t', j) -> keeper_inv t -> keeper_inv t'.
Proof.
  intros (row & t1 & Hr & Hc & ->)%transition_leased I. cbv zeta in Hc. destruct (kt_attempts t !! _) as [a|]; [|done].
  rewrite try_unit_iff in Hc. destruct Hc as (_ & Hc). apply try_ok_iff in Hc as (s & Hs & Hc). apply try_ok_iff in Hc as (t2 & Hu & [= <- <-]).
  destruct (inv_update_attempt _ _ _ _ (fun _ => s) _ _ (fun _ => ko_EvidenceDigest o) (fun _ => pg_time (ko_ObservedAt o)) _ Hu I).
  eapply inv_settled; try done. destruct (ko_State o); done.
Qed.

Lemma release_inv t l t' : ReleaseKeeperLease t l = Ok t' -> keeper_inv t -> keeper_inv t'.
Proof.
  unfold ReleaseKeeperLease. rewrite try_unit_iff. intros [_ Hc] I. destruct (kt_jobs t !! _) as [row|] eqn:E; [|done].
  rewrite check_ok_iff in Hc. destruct Hc as [_ [= <-]]. eapply inv_put; cbn; [|done..|apply (ji_queued _ _ _ (ki_jobs _ I _ _ E))|done].
  unfold kj_JobID. cbn. by eapply job_of_row.
Qed.

(** ** What no transaction undoes *)

Definition attempts_kept (t t' : ktables) : Prop :=
  forall k a, kt_attempts t !! k = Some a -> exists a', kt_attempts t' !! k = Some a' /\ same_attempt a a'.

(** Jobs keep what they were created with and their nonce; a dead letter stays one. *)
Definition row_kept (row row' : JobRow) : Prop :=
  kj_Input (jr_job row') = kj_Input (jr_job row) /\ (forall n, jr_nonce row = Some n -> jr_nonce row' = Some n) /\
  (kj_State (jr_job row) = StateDeadLetter -> kj_State (jr_job row') = StateDeadLetter /\
     kj_AttemptCount (jr_job row') = kj_AttemptCount (jr_job row) /\ jr_nonce row' = jr_nonce row).

Definition kept (t t' : ktables) : Prop :=
  attempts_kept t t' /\ forall id row, kt_jobs t !! id = Some row -> exists row', kt_jobs t' !! id = Some row' /\ row_kept row row'.

Lemma row_kept_refl row : row_kept row row.
Proof. by split_and!. Qed.

Lemma attempts_kept_refl t t' : kt_attempts t' = kt_attempts t -> attempts_kept t t'.
Proof. intros He k a Ha. exists a. rewrite He. split; [done|]. by split_and!. Qed.

Lemma kept_refl t : kept t t.
Proof. split; [by apply attempts_kept_refl|]. intros id row Hr. exists row. split; [done|apply row_kept_refl]. Qed.

Lemma kept_trans t1 t2 t3 : kept t1 t2 -> kept t2 t3 -> kept t1 t3.
Proof.
  intros [A1 B1] [A2 B2]. split.
  - intros k a Ha. destruct (A1 _ _ Ha) as (b & Hb & Sb). destruct (A2 _ _ Hb) as (c & Hc & Sc). exists c. split; [done|].
    unfold same_attempt in *. naive_solver congruence.
  - intros id row Hr. destruct (B1 _ _ Hr) as (r2 & H2 & E2 & N2 & D2). destruct (B2 _ _ H2) as (r3 & H3 & E3 & N3 & D3). exists r3. split; [done|].
    split_and!; [congruence|auto|]. intros Hd. destruct (D2 Hd) as (Hd2 & Hc2 & Hn2). destruct (D3 Hd2) as (Hd3 & Hc3 & Hn3). split_and!; congruence.
Qed.

(** One job changes, and attempts only move on. *)
Lemma kept_put t t1 row j :
  kt_jobs t1 = kt_jobs t -> attempts_kept t t1 -> kt_jobs t !! kj_JobID j = Some row -> kj_Input j = kj_Input (jr_job row) ->
  (kj_State (jr_job row) = StateDeadLetter -> kj_State j = StateDeadLetter /\ kj_AttemptCount j = kj_AttemptCount (jr_job row)) -> kept t (put_job t1 j).
Proof.
  intros Hj Ha Hr Hi Hd. unfold put_job. rewrite Hj, Hr. split; [exact Ha|]. cbn. intros id row' Hr'.
  destruct (decide (kj_JobID j = id)) as [<-|Hne].
  - rewrite lookup_insert_eq. rewrite Hr in Hr'. injection Hr' as <-. eexists. split; [done|]. unfold row_kept. cbn. naive_solver.
  - rewrite lookup_insert_ne by done. exists row'. split; [done|apply row_kept_refl].
Qed.

Lemma attempts_kept_update t id n guard s at_ err ev obs t' :
  update_attempt t id n guard (fun a => with_attempt_state a (s a) (at_ a) (err a) (ev a) (obs a)) = Ok t' -> attempts_kept t t' /\ kt_jobs t' = kt_jobs t.
Proof.
  intros (a & Ha & _ & ->)%update_attempt_ok. split; [|done]. intros k b Hb. cbn. destruct (decide ((id, n) = k)) as [<-|Hd].
  - rewrite lookup_insert_eq. rewrite Ha in Hb. injection Hb as <-. eexists. split; [done|]. by split_and!.
  - rewrite lookup_insert_ne by done. exists b. split; [done|]. by split_and!.
Qed.

Lemma attempts_kept_insert t a t' : insert_attempt pg_time t a = Ok t' -> attempts_kept t t' /\ kt_jobs t' = kt_jobs t.
Proof.
  unfold insert_attempt. rewrite check_ok_iff. intros [Hok [= <-]]. split; [|done]. to_prop. destruct Hok as [[_ Hn] _]. intros k b Hb. cbn.
  rewrite lookup_insert_ne by congruence. exists b. split; [done|]. by split_and!.
Qed.

Lemma attempts_kept_trans t1 t2 t3 : attempts_kept t1 t2 -> attempts_kept t2 t3 -> attempts_kept t1 t3.
Proof.
  intros A1 A2 k a Ha. destruct (A1 _ _ Ha) as (b & Hb & Sb). destruct (A2 _ _ Hb) as (c & Hc & Sc). exists c. split; [done|].
  unfold same_attempt in *. naive_solver congruence.
Qed.

Lemma kept_transition t l now change t' j :
  (forall row t1 j, change t row = Ok (t1, j) -> kt_jobs t1 = kt_jobs t /\ attempts_kept t t1 /\ kj_Input j = kj_Input (jr_job row) /\
     kj_State (jr_job row) <> StateDeadLetter) ->
  keeper_transition pg_time t l now change = Ok (t', j) -> keeper_inv t -> kept t t'.
Proof.
  intros Hc (row & t1 & Hr & Hch & ->)%transition_leased I. destruct (Hc _ _ _ Hch) as (Hj & Ha & Hi & Hs).
  eapply kept_put; [done..| |done|done]. unfold kj_JobID. rewrite Hi. by eapply job_of_row.
Qed.

End Store.

Section Runs.
Context `{Crypto, EthLib}.
Variable pg_time : time -> time.

(** The steps of a transition, read off its body. *)
Ltac change_shape :=
  let row := fresh "row" in let t1 := fresh "t1" in let j := fresh "j" in let Hc := fresh "Hc" in
  intros row t1 j Hc; cbv zeta in Hc; rewrite check_ok_iff in Hc; destruct Hc as [Hg Hc]; to_prop.

Lemma prepared_kept t l a now t' j : RecordPrepared pg_time t l a now = Ok (t', j) -> keeper_inv t -> kept t t'.
Proof.
  unfold RecordPrepared. rewrite check_ok_iff. intros [_ Hk]. eapply kept_transition, Hk. change_shape. destruct Hg as [[[Hs _] _] _].
  destruct (jr_nonce row); [|done]. rewrite check_ok_iff, try_ok_iff in Hc. destruct Hc as (_ & t2 & Hi & [= <- <-]).
  apply attempts_kept_insert in Hi as [? ?]. split_and!; [done..|congruence].
Qed.

Lemma replacement_kept t l p a now t' j : RecordReplacement pg_time t l p a now = Ok (t', j) -> keeper_inv t -> kept t t'.
Proof.
  unfold RecordReplacement. rewrite check_ok_iff. intros [_ Hk]. eapply kept_transition, Hk. change_shape. destruct Hg as [[[[Hs _] _] _] _].
  apply try_ok_iff in Hc as (t2 & Hu & Hc). apply try_ok_iff in Hc as (t3 & Hi & [= <- <-]).
  apply (attempts_kept_update _ _ _ _ (fun _ => AttemptReplaced)) in Hu as [? ?]. apply attempts_kept_insert in Hi as [? ?].
  split_and!; [congruence|by eapply attempts_kept_trans|done|]. intros Hd. rewrite Hd in Hs. set_solver.
Qed.

Lemma broadcasting_kept t l n now t' j : MarkBroadcasting pg_time t l n now = Ok (t', j) -> keeper_inv t -> kept t t'.
Proof.
  intros Hk. eapply kept_transition, Hk. change_shape. destruct Hg as [_ Hs]. apply try_ok_iff in Hc as (t2 & Hu & [= <- <-]).
  apply (attempts_kept_update _ _ _ _ (fun _ => AttemptBroadcasting)) in Hu as [? ?]. split_and!; [done..|]. intros Hd. rewrite Hd in Hs. set_solver.
Qed.

Lemma finish_kept t l n h s s' reason now t' j : finishBroadcast pg_time t l n h s s' reason now = Ok (t', j) -> keeper_inv t -> kept t t'.
Proof.
  intros Hk. eapply kept_transition, Hk. change_shape. destruct Hg as [Hs _]. apply try_ok_iff in Hc as (t2 & Hu & [= <- <-]).
  apply (attempts_kept_update _ _ _ _ (fun _ => s') _ (fun _ => boundedError reason)) in Hu as [? ?]. split_and!; [done..|congruence].
Qed.

Lemma dead_letter_kept t l reason now t' j : MarkRecoveryDeadLetter pg_time t l reason now = Ok (t', j) -> keeper_inv t -> kept t t'.
Proof.
  intros Hk. eapply kept_transition, Hk. change_shape. injection Hc as <- <-. split_and!; [done|by apply attempts_kept_refl|done|].
  intros Hd. rewrite Hd in Hg. set_solver.
Qed.

(** ** Jobs and their current attempts agree *)

Definition states_for (s : KeeperState) : list KeeperAttemptState :=
  match s with
  | StateQueued => []
  | StatePrepared => [AttemptPrepared]
  | StateBroadcasting => [AttemptBroadcasting]
  | StateSubmitted => [AttemptSubmitted]
  | StateConfirmed => [AttemptConfirmed]
  | StateFinalized => [AttemptFinalized]
  | StateReverted => [AttemptReverted]
  | StateReorged => [AttemptReorged]
  | StateTimedOut => [AttemptRejected]
  | StateAmbiguous => [AttemptAmbiguous]
  | StateDeadLetter => [AttemptRejected; AttemptReorged]
  end.

Definition coupled (t : ktables) : Prop :=
  forall id row a, kt_jobs t !! id = Some row -> kt_attempts t !! (id, kj_CurrentAttempt (jr_job row)) = Some a ->
    ka_State a ∈ states_for (kj_State (jr_job row)).

Lemma coupled_put t t1 row j :
  kt_jobs t1 = kt_jobs t -> kt_jobs t !! kj_JobID j = Some row -> (forall id n, id <> kj_JobID j -> kt_attempts t1 !! (id, n) = kt_attempts t !! (id, n)) ->
  (forall a, kt_attempts t1 !! (kj_JobID j, kj_CurrentAttempt j) = Some a -> ka_State a ∈ states_for (kj_State j)) -> coupled t -> coupled (put_job t1 j).
Proof.
  intros Hj Hr Ho Hnew Hc. unfold put_job. rewrite Hj, Hr. intros id row' a. cbn. intros [[<- <-]|[Hd Hr']]%lookup_insert_Some Ha; [by apply Hnew|].
  rewrite Ho in Ha by done. by eapply Hc.
Qed.

(** The job's state and attempts as they were. *)
Lemma coupled_same t id row j :
  keeper_inv t -> kt_jobs t !! id = Some row -> kj_Input j = kj_Input (jr_job row) -> kj_State j = kj_State (jr_job row) ->
  kj_CurrentAttempt j = kj_CurrentAttempt (jr_job row) -> coupled t -> coupled (put_job t j).
Proof.
  intros I Hr Hi Hs Hcur Hc. pose proof (job_of_row _ _ _ I Hr) as Hr'. assert (Hid : kj_JobID j = kj_JobID (jr_job row)) by (unfold kj_JobID; by rewrite Hi).
  eapply coupled_put; [done|by rewrite Hid|done| |done]. rewrite Hid, Hcur, Hs. intros a Ha. by eapply Hc.
Qed.

(** A transition whose attempt ends in a state that fits the job's. *)
Lemma coupled_transition t l now change t' j :
  (forall row t1 j, kt_jobs t !! kj_JobID (kl_Job l) = Some row -> change t row = Ok (t1, j) ->
     kt_jobs t1 = kt_jobs t /\ kj_Input j = kj_Input (jr_job row) /\
     (forall id n, id <> kj_JobID (jr_job row) -> kt_attempts t1 !! (id, n) = kt_attempts t !! (id, n)) /\
     (forall a, kt_attempts t1 !! (kj_JobID (jr_job row), kj_CurrentAttempt j) = Some a -> ka_State a ∈ states_for (kj_State j))) ->
  keeper_transition pg_time t l now change = Ok (t', j) -> keeper_inv t -> coupled t -> coupled t'.
Proof.
  intros Hc (row & t1 & Hr & Hch & ->)%transition_leased I C. destruct (Hc _ _ _ Hr Hch) as (Hj & Hi & Ho & Ha).
  assert (Hid : kj_JobID j = kj_JobID (jr_job row)) by (unfold kj_JobID; by rewrite Hi).
  eapply coupled_put; [done|rewrite Hid; by eapply job_of_row|by rewrite Hid|by rewrite Hid|done].
Qed.

Lemma updated_attempt t id n guard f t' :
  update_attempt t id n guard f = Ok t' -> kt_jobs t' = kt_jobs t /\ (forall id' n', id' <> id -> kt_attempts t' !! (id', n') = kt_attempts t !! (id', n')) /\
  exists a, kt_attempts t !! (id, n) = Some a /\ guard a = true /\ kt_attempts t' !! (id, n) = Some (f a).
Proof.
  intros (a & Ha & Hg & ->)%update_attempt_ok. cbn. split_and!; [done| |].
  - intros id' n' Hd. rewrite lookup_insert_ne; [done|congruence].
  - exists a. by rewrite lookup_insert_eq.
Qed.

Lemma inserted_attempt t a t' :
  insert_attempt pg_time t a = Ok t' -> kt_jobs t' = kt_jobs t /\ (forall id n, id <> ka_JobID a -> kt_attempts t' !! (id, n) = kt_attempts t !! (id, n)) /\
  exists b, kt_attempts t' !! (ka_JobID a, ka_Number a) = Some b /\ ka_State b = AttemptPrepared.
Proof.
  unfold insert_attempt. rewrite check_ok_iff. intros [_ [= <-]]. cbn. split_and!; [done| |].
  - intros id n Hd. rewrite lookup_insert_ne; [done|congruence].
  - eexists. rewrite lookup_insert_eq. by split.
Qed.

Lemma outcome_kept t l o now t' j :
  coupled t -> ApplyOutcome pg_time t l o now = Ok (t', j) -> keeper_inv t -> kept t t'.
Proof.
  intros Hq (row & t1 & Hr & Hc & ->)%transition_leased I. cbv zeta in Hc. destruct (kt_attempts t !! _) as [a|] eqn:Ea; [|done].
  rewrite try_unit_iff in Hc. destruct Hc as (_ & Hc). apply try_ok_iff in Hc as (s & Hs & Hc). apply try_ok_iff in Hc as (t2 & Hu & [= <- <-]).
  pose proof (update_attempt_ok _ _ _ _ _ _ Hu) as (b & Hb & Hg & _).
  apply (attempts_kept_update _ _ _ _ (fun _ => s) _ _ (fun _ => ko_EvidenceDigest o) (fun _ => pg_time (ko_ObservedAt o))) in Hu as [? ?].
  pose proof (job_of_row _ _ _ I Hr) as Hr'. eapply kept_put; [done..| |done|].
  - exact Hr'.
  - cbn. intros Hd. exfalso. to_prop. destruct Hg as [_ Hg]. rewrite (ai_number _ _ _ _ (ki_attempts _ I _ _ _ Ea)) in Hb.
    pose proof (Hq _ _ _ Hr' Hb) as Hin. rewrite Hd in Hin. cbn in Hin. destruct (ka_State b); set_solver.
Qed.

Ltac change_steps :=
  let row := fresh "row" in let t1 := fresh "t1" in let j := fresh "j" in let Hc := fresh "Hc" in
  intros row t1 j Hr Hc; cbv zeta in Hc; rewrite check_ok_iff in Hc; destruct Hc as [Hg Hc]; to_prop.

Lemma prepared_coupled t l a now t' j : RecordPrepared pg_time t l a now = Ok (t', j) -> keeper_inv t -> coupled t -> coupled t'.
Proof.
  unfold RecordPrepared. rewrite check_ok_iff. intros [Hv Hk]. eapply coupled_transition, Hk. change_steps. destruct Hg as [_ Hid], Hv as [[_ Hn] _].
  destruct (jr_nonce row); [|done]. rewrite check_ok_iff, try_ok_iff in Hc. destruct Hc as (_ & t2 & Hi & [= <- <-]).
  apply inserted_attempt in Hi as (? & Ho & b & Hb & Hs). split_and!; [done|done|by rewrite Hid|]. cbn. intros a'. rewrite Hid, <-Hn, Hb. intros [= <-].
  rewrite Hs. set_solver.
Qed.

Lemma replacement_coupled t l p a now t' j : RecordReplacement pg_time t l p a now = Ok (t', j) -> keeper_inv t -> coupled t -> coupled t'.
Proof.
  unfold RecordReplacement. rewrite check_ok_iff. intros [Hv Hk]. eapply coupled_transition, Hk. change_steps. destruct Hg as [[_ Hid] _].
  apply try_ok_iff in Hc as (t2 & Hu & Hc). apply try_ok_iff in Hc as (t3 & Hi & [= <- <-]). apply updated_attempt in Hu as (? & Ho & _).
  apply inserted_attempt in Hi as (? & Ho' & b & Hb & Hs). split_and!; [congruence|done|intros; rewrite Ho' by congruence; by apply Ho|].
  cbn. intros a'. rewrite Hid, Hb. intros [= <-]. rewrite Hs. set_solver.
Qed.

Lemma broadcasting_coupled t l n now t' j : MarkBroadcasting pg_time t l n now = Ok (t', j) -> keeper_inv t -> coupled t -> coupled t'.
Proof.
  intros Hk. eapply coupled_transition, Hk. change_steps. destruct Hg as [Hn _]. apply try_ok_iff in Hc as (t2 & Hu & [= <- <-]).
  apply updated_attempt in Hu as (? & Ho & a & _ & _ & Ha). split_and!; [done..|]. cbn. intros b. rewrite Hn, Ha. intros [= <-]. cbn. set_solver.
Qed.

Lemma finish_coupled t l n h s s' reason now t' j :
  s' ∈ states_for s -> finishBroadcast pg_time t l n h s s' reason now = Ok (t', j) -> keeper_inv t -> coupled t -> coupled t'.
Proof.
  intros Hs Hk. eapply coupled_transition, Hk. change_steps. destruct Hg as [_ Hn]. apply try_ok_iff in Hc as (t2 & Hu & [= <- <-]).
  apply updated_attempt in Hu as (? & Ho & a & _ & _ & Ha). split_and!; [done..|]. cbn. intros b. rewrite Hn, Ha. by intros [= <-].
Qed.

Lemma dead_letter_coupled t l reason now t' j : MarkRecoveryDeadLetter pg_time t l reason now = Ok (t', j) -> keeper_inv t -> coupled t -> coupled t'.
Proof.
  intros Hk I C. eapply coupled_transition; [|exact Hk|done..]. change_steps. injection Hc as <- <-. split_and!; [done..|]. cbn. intros a Ha.
  pose proof (C _ _ _ (job_of_row _ _ _ I Hr) Ha) as Hin. repeat (apply elem_of_cons in Hg as [Hg|Hg]; [rewrite Hg in Hin; cbn in *; set_solver|]).
  by apply elem_of_nil in Hg.
Qed.

Lemma outcome_coupled t l o now t' j : ApplyOutcome pg_time t l o now = Ok (t', j) -> keeper_inv t -> coupled t -> coupled t'.
Proof.
  intros Hk I. eapply coupled_transition; [|exact Hk|done]. intros row t1 j' Hr Hc. cbv beta zeta in Hc. destruct (kt_attempts t !! _) as [a|] eqn:Ea; [|done].
  rewrite try_unit_iff in Hc. destruct Hc as (_ & Hc). apply try_ok_iff in Hc as (s & Hs & Hc). apply try_ok_iff in Hc as (t2 & Hu & [= <- <-]).
  rewrite (ai_number _ _ _ _ (ki_attempts _ I _ _ _ Ea)) in Hu.
  apply updated_attempt in Hu as (? & Ho & b & _ & _ & Hb). split_and!; [done..|]. cbn. intros c. rewrite Hb. intros [= <-]. cbn.
  destruct (ko_State o); try done; injection Hs as <-; set_solver.
Qed.

(** ** Every transaction of the store *)

Definition store_good (t : ktables) : Prop := keeper_inv t /\ coupled t.
Definition moves_on (t t' : ktables) : Prop := store_good t -> store_good t' /\ kept t t'.

Lemma moves_by t t' :
  (keeper_inv t -> keeper_inv t') -> (keeper_inv t -> coupled t -> coupled t') -> (keeper_inv t -> coupled t -> kept t t') -> moves_on t t'.
Proof. intros H1 H2 H3 [I C]. split; [split; auto|auto]. Qed.

Lemma enqueue_moves t i now t' r : Enqueue pg_time t i now = Ok (t', r) -> moves_on t t'.
Proof.
  intros He. apply moves_by; [by eapply enqueue_inv|..]; unfold Enqueue, enqueueOnce in He; rewrite try_ok_iff in He; destruct He as (_ & _ & He); intros I C;
    destruct (kt_jobs t !! ei_JobID i) as [row|] eqn:E; rewrite !check_ok_iff in He.
  - by destruct He as [_ [= <- _]].
  - destruct He as (_ & _ & [= <- _]). intros id row a. cbn. intros [[<- <-]|[Hd Hr]]%lookup_insert_Some Ha; [|by eapply C].
    destruct (ai_job _ _ _ _ (ki_attempts _ I _ _ _ Ha)) as (row & Hr & _). congruence.
  - destruct He as [_ [= <- _]]. apply kept_refl.
  - destruct He as (_ & _ & [= <- _]). split; [by apply attempts_kept_refl|]. cbn. intros id row Hr. exists row. split; [|apply row_kept_refl].
    rewrite lookup_insert_ne by congruence. done.
Qed.

Lemma lease_moves t j k token d now id row : kt_jobs t !! id = Some row -> jr_job row = j -> moves_on t (keeper_lease pg_time t j k token d now).1.
Proof.
  intros Hr Hj. apply moves_by; [by eapply lease_inv|..]; intros I C; subst j; cbn.
  - by eapply coupled_same.
  - eapply kept_put; [done|by apply attempts_kept_refl| |done|done]. unfold kj_JobID. cbn. by eapply job_of_row.
Qed.

Lemma claim_moves t k p c d now token locked t' l : Claim pg_time t k p c d now token locked = Ok (t', l) -> moves_on t t'.
Proof.
  unfold Claim. rewrite check_ok_iff. intros [_ H']. destruct (merge_sort _ _) as [|j rest] eqn:E; [done|].
  apply sorted_candidate in E as [_ (id & row & Hr & Hj)]. injection H' as <- _. by eapply (lease_moves t j k token d now).
Qed.

Lemma observation_moves t k p c d now token locked t' l : ClaimObservation pg_time t k p c d now token locked = Ok (t', l) -> moves_on t t'.
Proof.
  unfold ClaimObservation. rewrite check_ok_iff. intros [_ H']. destruct (merge_sort _ _) as [|j rest] eqn:E; [done|].
  apply sorted_candidate in E as [_ (id & row & Hr & Hj)]. injection H' as <- _. by eapply (lease_moves t j k token d now).
Qed.

Lemma allocate_queued t l observed now t' n :
  AllocateNonce pg_time t l observed now = Ok (t', n) -> forall row, kt_jobs t !! kj_JobID (kl_Job l) = Some row -> kj_State (jr_job row) = StateQueued.
Proof.
  unfold AllocateNonce. rewrite try_unit_iff, try_ok_iff. intros (_ & row & [Hr _]%leased_ok & H') row' Hr'. rewrite check_ok_iff in H'. to_prop.
  rewrite Hr in Hr'. injection Hr' as <-. by destruct H' as [[? _] _].
Qed.

Lemma allocate_moves t l observed now t' n : AllocateNonce pg_time t l observed now = Ok (t', n) -> moves_on t t'.
Proof.
  intros Ha. apply moves_by; [by eapply allocate_inv|..]; intros I C; pose proof (allocate_queued _ _ _ _ _ _ Ha) as Hq;
    apply allocate_ok in Ha as (row & Hr & [[_ ->]|(Hnone & _ & _ & job & Hi & Hc & Hcur & Hst & ->)]); try done; try apply kept_refl;
    rewrite (ji_id _ _ _ (ki_jobs _ I _ _ Hr)).
  - intros id row' a. cbn. intros [[<- <-]|[Hd Hr']]%lookup_insert_Some Ha; [|by eapply C]. cbn in *. rewrite Hcur in Ha. rewrite Hst. by eapply C.
  - split; [by apply attempts_kept_refl|]. cbn. intros id row' Hr'. destruct (decide (kj_JobID (kl_Job l) = id)) as [<-|Hd].
    + rewrite lookup_insert_eq. rewrite Hr in Hr'. injection Hr' as <-. eexists. split; [done|]. split_and!; cbn; [done|by rewrite Hnone|].
      rewrite (Hq _ Hr). done.
    + rewrite lookup_insert_ne by done. exists row'. split; [done|apply row_kept_refl].
Qed.

Lemma release_moves t l t' : ReleaseKeeperLease t l = Ok t' -> moves_on t t'.
Proof.
  intros Hk. apply moves_by; [by eapply release_inv|..]; intros I C; unfold ReleaseKeeperLease in Hk; rewrite try_unit_iff in Hk; destruct Hk as [_ Hk];
    destruct (kt_jobs t !! _) as [row|] eqn:E; try done; rewrite check_ok_iff in Hk; destruct Hk as [_ [= <-]].
  - by eapply coupled_same.
  - eapply kept_put; [done|by apply attempts_kept_refl| |done|done]. unfold kj_JobID. cbn. by eapply job_of_row.
Qed.

Lemma kexec_moves t op : moves_on t (kexec pg_time t op).
Proof.
  assert (Hstay : moves_on t t) by (intros G; split; [done|apply kept_refl]).
  assert (Hkeep : forall A (r : res (ktables * A)), (forall t' a, r = Ok (t', a) -> moves_on t t') -> moves_on t (keep t r)).
  { intros A [[t' a]|e] Hr; [by eapply Hr|done]. }
  destruct op; cbn [kexec]; try (apply Hkeep; intros t' a' Hop).
  - apply moves_by; [intros [I1 I2 I3 I4]; split; [| |done|done]|done|].
    + intros x row Hr. destruct (I1 _ _ Hr). by split.
    + intros x n a Ha. destruct (I2 _ _ _ Ha). by split.
    + intros I C. split; [by apply attempts_kept_refl|]. cbn. intros x row Hr. exists row. split; [done|apply row_kept_refl].
  - by eapply enqueue_moves.
  - by eapply claim_moves.
  - by eapply observation_moves.
  - by eapply allocate_moves.
  - apply moves_by; [by eapply prepared_inv|by eapply prepared_coupled|intros; by eapply prepared_kept].
  - destruct (read_from t previous) eqn:Er; [|done]. apply Hkeep. intros t' a' Hop.
    apply moves_by; [by eapply replacement_inv|by eapply replacement_coupled|intros; by eapply replacement_kept].
  - apply moves_by; [by eapply broadcasting_inv|by eapply broadcasting_coupled|intros; by eapply broadcasting_kept].
  - apply moves_by; [by eapply submitted_inv|..]; unfold MarkSubmitted in Hop; rewrite check_ok_iff in Hop; destruct Hop as [_ Hop];
      [eapply finish_coupled, Hop; set_solver|intros; by eapply finish_kept].
  - apply moves_by; [by eapply finish_inv, Hop|eapply finish_coupled, Hop; set_solver|intros; by eapply finish_kept].
  - apply moves_by; [by eapply rejected_inv|..]; unfold MarkRejected in Hop; rewrite check_ok_iff in Hop; destruct Hop as [Ht Hop];
      [eapply finish_coupled, Hop; apply bool_decide_eq_true in Ht; destruct target; set_solver|intros; by eapply finish_kept].
  - apply moves_by; [by eapply dead_letter_inv|by eapply dead_letter_coupled|intros; by eapply dead_letter_kept].
  - apply moves_by; [by eapply outcome_inv|by eapply outcome_coupled|intros; by eapply outcome_kept].
  - apply try_ok_iff in Hop as (t1 & Hop & [= <- <-]). by eapply release_moves.
Qed.

Lemma kexec_all ops : forall t, moves_on t (foldl (kexec pg_time) t ops).
Proof.
  induction ops as [|op ops IH]; intros t G; cbn [foldl]; [split; [done|apply kept_refl]|].
  destruct (kexec_moves t op G) as [G1 K1]. destruct (IH _ G1) as [G2 K2]. split; [done|]. by eapply kept_trans.
Qed.

Definition no_ktables : ktables := mkKTables ∅ ∅ ∅ ∅.
Lemma empty_good : store_good no_ktables.
Proof.
  split; [split|]; cbn.
  - apply map_Forall_empty.
  - intros ??? Hx. by rewrite lookup_empty in Hx.
  - intros ????? Hx. by rewrite lookup_empty in Hx.
  - intros ???? Hx. by rewrite lookup_empty in Hx.
  - intros ??? Hx. cbn in Hx. by rewrite lookup_empty in Hx.
Qed.

(** ** Properties of the store *)

Lemma bumped_trans f g h : strictlyBumped f g = true -> strictlyBumped g h = true -> strictlyBumped f h = true.
Proof.
  unfold strictlyBumped. destruct (big (fe_MaxFeePerGasWei f)), (big (fe_MaxFeePerGasWei g)), (big (fe_MaxPriorityFeePerGasWei f)),
    (big (fe_MaxPriorityFeePerGasWei g)), (big (fe_MaxFeePerGasWei h)), (big (fe_MaxPriorityFeePerGasWei h)); try done. intros. to_prop. lia.
Qed.

Lemma bumped_between t id : keeper_inv t -> forall k n a b, kt_attempts t !! (id, n) = Some a -> kt_attempts t !! (id, n + Z.of_nat (S k)) = Some b ->
  1 <= n -> strictlyBumped (ka_Fee a) (ka_Fee b) = true.
Proof.
  intros I. induction k as [|k IH]; intros n a b Ha Hb Hn; destruct (ai_bumped _ _ _ _ (ki_attempts _ I _ _ _ Hb)) as (p & Hp & Hs); try lia.
  - replace (n + Z.of_nat 1 - 1) with n in Hp by lia. rewrite Ha in Hp. by injection Hp as <-.
  - replace (n + Z.of_nat (S (S k)) - 1) with (n + Z.of_nat (S k)) in Hp by lia. eapply bumped_trans, Hs. by eapply IH.
Qed.

(** C19: nonces and jobs of a gas payer correspond one to one. In any interleaving of store
    transactions by any number of workers, two recorded transactions of the same sender have
    the same nonce exactly when they are attempts of the same job, a job has at most four
    attempts, and each later attempt strictly raises the fee. So of all the transactions
    recorded for a job at most one can be executed by the chain. *)
Theorem keeper_nonce_per_job (ops : list kop) (k k' : string * Z) (a b : KeeperAttempt) :
  let t := foldl (kexec pg_time) no_ktables ops in
  kt_attempts t !! k = Some a -> kt_attempts t !! k' = Some b -> ka_GasPayer a = ka_GasPayer b ->
  (ka_Nonce a = ka_Nonce b <-> ka_JobID a = ka_JobID b) /\ 1 <= ka_Number a <= 4 /\
  (ka_JobID a = ka_JobID b -> ka_Number a < ka_Number b -> strictlyBumped (ka_Fee a) (ka_Fee b) = true).
Proof.
  intros t Ha Hb Hp. destruct (proj1 (kexec_all ops _ empty_good)) as [I _]. fold t in I. destruct k as [id n], k' as [id' n'].
  destruct (ki_attempts _ I _ _ _ Ha) as [A1 A2 (row & Hr & Hpr & Hnr) _ _]. destruct (ki_attempts _ I _ _ _ Hb) as [B1 B2 (row' & Hr' & Hpr' & Hnr') _ _].
  assert (Hpos : forall m c, kt_attempts t !! (id, m) = Some c -> 1 <= m <= 4).
  { intros m c Hc. pose proof (proj1 (ji_attempts _ _ _ (ki_jobs _ I _ _ Hr) m)) as Hm. destruct (ji_count _ _ _ (ki_jobs _ I _ _ Hr)).
    specialize (Hm (ex_intro _ _ Hc)). lia. }
  split_and!.
  - rewrite A1, B1. split; [|intros <-; congruence]. intros Hn. eapply (ki_nonces _ I); [exact Hr|exact Hr'|congruence|done|congruence].
  - specialize (Hpos _ _ Ha). lia.
  - specialize (Hpos _ _ Ha). lia.
  - rewrite A1, B1, A2, B2. intros <- Hlt. eapply (bumped_between t id I (Z.to_nat (n' - n - 1)) n); [done| |specialize (Hpos _ _ Ha); lia].
    replace (n + Z.of_nat (S (Z.to_nat (n' - n - 1)))) with n' by lia. done.
Qed.

(** a dead letter strands its nonce. A job that was given a nonce and then became a dead
    letter before any attempt was recorded (its window closed while the wallet or the sealer
    failed) keeps the nonce for ever: whatever transactions follow, no attempt of its gas
    payer ever has that nonce, and the sequence only gives out higher ones, which the chain
    does not execute before the missing one. *)
Theorem dead_letter_strands_nonce (ops later : list kop) (id : string) (row : JobRow) (n : Z) :
  let t := foldl (kexec pg_time) no_ktables ops in
  let t' := foldl (kexec pg_time) t later in
  kt_jobs t !! id = Some row -> kj_State (jr_job row) = StateDeadLetter -> kj_AttemptCount (jr_job row) = 0 -> jr_nonce row = Some n ->
  (forall k a, kt_attempts t' !! k = Some a -> ka_GasPayer a = kj_GasPayer (jr_job row) -> ka_Nonce a <> n) /\
  (exists next, kt_sequences t' !! seq_key (jr_job row) = Some next /\ n < next) /\
  (forall l observed now t'' m other, kt_jobs t' !! kj_JobID (kl_Job l) = Some other -> seq_key (jr_job other) = seq_key (jr_job row) ->
     jr_nonce other = None -> AllocateNonce pg_time t' l observed now = Ok (t'', m) -> n < m).
Proof.
  intros t t' Hr Hd Hc Hn. destruct (kexec_all ops _ empty_good) as [G _]. fold t in G. destruct (kexec_all later _ G) as [[I C] [_ Kj]]. fold t' in I, C, Kj.
  destruct (Kj _ _ Hr) as (row' & Hr' & Hi & Hnk & Hdk). destruct (Hdk Hd) as (Hd' & Hc' & Hn').
  assert (Hkey : seq_key (jr_job row') = seq_key (jr_job row)) by (unfold seq_key, kj_ChainID, kj_GasPayer; by rewrite Hi).
  destruct (ji_nonce _ _ _ (ki_jobs _ I _ _ Hr') n) as (next & Hnext & Hlt); [congruence|]. rewrite Hkey in Hnext.
  split_and!; [|by exists next|].
  - intros [id' m] a Ha Hp Hna. destruct (ai_job _ _ _ _ (ki_attempts _ I _ _ _ Ha)) as (row2 & Hr2 & Hp2 & Hn2).
    assert (id' = id) as ->.
    { eapply (ki_nonces _ I id' id row2 row' (ka_Nonce a)); [done..| |done|congruence]. unfold kj_GasPayer in *. congruence. }
    pose proof (proj1 (ji_attempts _ _ _ (ki_jobs _ I _ _ Hr') m) (ex_intro _ _ Ha)). lia.
  - intros l observed now t'' m other Ho Hk Hnone (row2 & Hr2 & [[Hsome _]|(_ & Hseq & _)])%allocate_ok; rewrite Ho in Hr2; injection Hr2 as <-; [congruence|].
    rewrite Hk in Hseq. specialize (Hseq _ Hnext). lia.
Qed.

(** The nonces of a gas payer are unique across chains although each chain counts its own:
    with the same payer on both chains, the first job of the second chain is refused a
    nonce that the first chain has used, at every retry, while the pending nonce stays. *)
Lemma chains_share_nonces t l observed now row id other :
  kt_jobs t !! kj_JobID (kl_Job l) = Some row -> jr_nonce row = None -> kt_sequences t !! seq_key (jr_job row) = None ->
  kt_jobs t !! id = Some other -> kj_GasPayer (jr_job other) = kj_GasPayer (jr_job row) -> jr_nonce other = Some observed ->
  AllocateNonce pg_time t l observed now <> Ok (t, observed) /\ forall t' n, AllocateNonce pg_time t l observed now <> Ok (t', n).
Proof.
  intros Hr Hn Hs Ho Hp Hon. enough (Hno : forall t' n, AllocateNonce pg_time t l observed now <> Ok (t', n)) by done.
  intros t' n Ha. unfold AllocateNonce in Ha. rewrite try_unit_iff, try_ok_iff in Ha. destruct Ha as (_ & row' & [Hr' _]%leased_ok & Ha).
  rewrite Hr in Hr'. injection Hr' as <-. rewrite check_ok_iff, Hn, Hs in Ha. destruct Ha as [_ Ha]. rewrite !check_ok_iff in Ha. destruct Ha as (_ & Ht & _).
  apply negb_true_iff in Ht. by eapply (nonce_not_taken _ _ _ Ht).
Qed.

End Runs.
