(* ===== verification/KeeperRelay.v ===== *)
(** * What the keeper broadcasts

    Every transaction a worker hands to the network is the one recorded for a job, carries
    the call data that was verified for the job, its target, sender and nonce, and is sent
    inside an effect that leadership admitted for the job's epoch. Other workers, operators and leaders act between any two
    transactions of the worker, so assertions are those that no transaction undoes. *)
From stdpp Require Import base gmap strings list sorting.
From Stdlib Require Import ZArith Lia Ascii.
From S2P Require Import Prelude GoText GoJSON Amounts Crypto Envelope GovAction SafeTx Keeper KeeperStore Leadership LeadershipTheorems KeeperService KeeperTheorems.

Open Scope Z_scope.

Section Relay.
Context `{Cr : Crypto, El : EthLib, Sl : SafeLib}.
Variable pg_time : time -> time.

(** ** Where attempts come from *)

(** The attempt a transaction of the store records. *)
Definition recorded_by (op : kop) : option KeeperAttempt :=
  match op with K_prepared _ a _ | K_replacement _ _ a _ => Some a | _ => None end.

(** The second store has the first one's attempts and at most one more. *)
Definition attempts_from (t t' : ktables) (o : option KeeperAttempt) : Prop :=
  forall k b, kt_attempts t' !! k = Some b ->
    (exists c, kt_attempts t !! k = Some c /\ ka_TransactionHash c = ka_TransactionHash b) \/
    (exists a, o = Some a /\ k = (ka_JobID a, ka_Number a) /\ ka_TransactionHash a = ka_TransactionHash b).

Lemma from_same t t' o : kt_attempts t' = kt_attempts t -> attempts_from t t' o.
Proof. intros Heq k b Hb. left. exists b. by rewrite <-Heq. Qed.

Lemma from_update t id n guard f t' o :
  update_attempt t id n guard f = Ok t' -> (forall a, ka_TransactionHash (f a) = ka_TransactionHash a) -> attempts_from t t' o.
Proof. intros (a & Ha & _ & ->)%update_attempt_ok Hf k b. cbn. intros [[<- <-]|[_ Hb]]%lookup_insert_Some; left; eauto. Qed.

Lemma from_insert t0 t a t' : insert_attempt pg_time t a = Ok t' -> attempts_from t0 t None -> attempts_from t0 t' (Some a).
Proof.
  unfold insert_attempt. rewrite check_ok_iff. intros [_ [= <-]] Hf k b. cbn. intros [[<- <-]|[_ Hb]]%lookup_insert_Some; [right; by exists a|].
  destruct (Hf _ _ Hb) as [Hc|(x & [=] & _)]. by left.
Qed.

Lemma put_attempts t job : kt_attempts (put_job t job) = kt_attempts t.
Proof. unfold put_job. by destruct (kt_jobs t !! _). Qed.

Lemma from_transition t l now change t' j o :
  keeper_transition pg_time t l now change = Ok (t', j) -> (forall row t1 j, change t row = Ok (t1, j) -> attempts_from t t1 o) -> attempts_from t t' o.
Proof. intros (row & t1 & _ & Hc & ->)%transition_leased Hf k b. rewrite put_attempts. by eapply Hf. Qed.

Lemma prepared_from t l a now t' j : RecordPrepared pg_time t l a now = Ok (t', j) -> attempts_from t t' (Some a).
Proof.
  unfold RecordPrepared. rewrite check_ok_iff. intros [_ Ht]. eapply from_transition; [exact Ht|]. intros row t1 job. cbv zeta. rewrite check_ok_iff. intros [_ Hc].
  destruct (jr_nonce row); [|done]. rewrite check_ok_iff, try_ok_iff in Hc. destruct Hc as (_ & t2 & Hi & [= <- _]). eapply from_insert; [exact Hi|by apply from_same].
Qed.

Lemma replacement_from t l p a now t' j : RecordReplacement pg_time t l p a now = Ok (t', j) -> attempts_from t t' (Some a).
Proof.
  unfold RecordReplacement. rewrite check_ok_iff. intros [_ Ht]. eapply from_transition; [exact Ht|]. intros row t1 job. cbv zeta. rewrite check_ok_iff, try_ok_iff.
  intros (_ & t2 & Hu & (t3 & Hi & [= <- _])%try_ok_iff). eapply from_insert; [exact Hi|]. by eapply from_update; [exact Hu|].
Qed.

Lemma finish_from t l n h s s' reason now t' j o : finishBroadcast pg_time t l n h s s' reason now = Ok (t', j) -> attempts_from t t' o.
Proof.
  intros Ht. eapply from_transition; [exact Ht|]. intros row t1 job. cbv zeta. rewrite check_ok_iff, try_ok_iff. intros (_ & t2 & Hu & [= <- _]).
  by eapply from_update; [exact Hu|].
Qed.

Lemma lease_from t j k token d now o : attempts_from t (keeper_lease pg_time t j k token d now).1 o.
Proof. apply from_same. cbn. apply put_attempts. Qed.

Lemma kexec_from t op : attempts_from t (kexec pg_time t op) (recorded_by op).
Proof.
  assert (Hkeep : forall A (r : res (ktables * A)) o, (forall t' a, r = Ok (t', a) -> attempts_from t t' o) -> attempts_from t (keep t r) o).
  { intros A [[t' a]|e] o Hr; [by eapply Hr|by apply from_same]. }
  destruct op; cbn [kexec recorded_by]; try (apply Hkeep; intros t' a' Hop).
  - by apply from_same.
  - unfold Enqueue, enqueueOnce in Hop. rewrite try_ok_iff in Hop. destruct Hop as (_ & _ & Hop). apply from_same.
    destruct (kt_jobs t !! _); rewrite !check_ok_iff in Hop; naive_solver.
  - unfold Claim in Hop. rewrite check_ok_iff in Hop. destruct Hop as [_ Hop]. destruct (merge_sort _ _) as [|j rest]; [done|].
    injection Hop as <- _. apply (lease_from t j).
  - unfold ClaimObservation in Hop. rewrite check_ok_iff in Hop. destruct Hop as [_ Hop]. destruct (merge_sort _ _) as [|j rest]; [done|].
    injection Hop as <- _. apply (lease_from t j).
  - apply allocate_ok in Hop as (row & Hr & [[_ ->]|(_ & _ & _ & job & _ & _ & _ & _ & ->)]); by apply from_same.
  - by eapply prepared_from.
  - destruct (read_from t previous); [|by apply from_same]. apply Hkeep. intros t' a' Hop. by eapply replacement_from.
  - eapply from_transition; [exact Hop|]. intros row t1 job. cbv zeta. rewrite check_ok_iff, try_ok_iff. intros (_ & t2 & Hu & [= <- _]). by eapply from_update; [exact Hu|].
  - unfold MarkSubmitted in Hop. rewrite check_ok_iff in Hop. by eapply finish_from, Hop.
  - by eapply finish_from, Hop.
  - unfold MarkRejected in Hop. rewrite check_ok_iff in Hop. by eapply finish_from, Hop.
  - eapply from_transition; [exact Hop|]. intros row t1 job. cbv zeta. rewrite check_ok_iff. intros [_ [= <- _]]. by apply from_same.
  - eapply from_transition; [exact Hop|]. intros row t1 job Hc. cbv beta zeta in Hc. destruct (kt_attempts t !! _); [|done]. rewrite try_unit_iff, try_ok_iff in Hc.
    destruct Hc as (_ & s & _ & (t2 & Hu & [= <- _])%try_ok_iff). by eapply from_update; [exact Hu|].
  - apply try_ok_iff in Hop as (t1 & Hop & [= <- _]). unfold ReleaseKeeperLease in Hop. rewrite try_unit_iff in Hop. destruct Hop as [_ Hop].
    destruct (kt_jobs t !! _); [|done]. rewrite check_ok_iff in Hop. destruct Hop as [_ [= <-]]. apply from_same, put_attempts.
Qed.

(** ** A broadcast in order *)

Definition job_known (t : ktables) (j : KeeperJob) : Prop := exists row, kt_jobs t !! kj_JobID j = Some row /\ kj_Input (jr_job row) = kj_Input j.

Definition attempt_known (t : ktables) (j : KeeperJob) (a : KeeperAttempt) : Prop :=
  ka_JobID a = kj_JobID j /\ exists b, kt_attempts t !! (kj_JobID j, ka_Number a) = Some b /\ same_attempt a b.

(** A transaction from the job's gas payer to the job's target, with this call data. *)
Definition carries (j : KeeperJob) (data : string) (x : EthTransaction) : Prop :=
  et_dynamic x = true /\ et_chain x = Some (kj_ChainID j) /\ et_to x = Some (kj_Target j) /\ dec_string (et_value x) = kj_ValueWei j /\
  et_access x = 0%nat /\ et_data x = data /\ tx_sender (kj_ChainID j) x = Some (kj_GasPayer j).

(** The nonce and the fees the attempt was recorded with. *)
Definition as_recorded (a : KeeperAttempt) (x : EthTransaction) : Prop :=
  et_nonce x = ka_Nonce a /\ dec_string (et_fee_cap x) = fe_MaxFeePerGasWei (ka_Fee a) /\ dec_string (et_tip_cap x) = fe_MaxPriorityFeePerGasWei (ka_Fee a).

(** The assembler uses the nonce and the fee it is given. *)
Definition assembler_faithful (env : kenv) : Prop :=
  forall j artifact nonce fee u, kv_assemble env j artifact nonce fee = Ok u -> ut_Nonce u = nonce /\ ut_Fee u = fee.

(** The service was given the exact verifier of [binding.go]. *)
Definition exact_verifier (decode : KeeperAction -> string -> res DecodedCall) (env : kenv) : Prop :=
  forall j u artifact, kv_verify env j u artifact = binding_Verify decode j u artifact.

(** The call data decodes to the payload the job was enqueued with and, when it takes a
    signature, to the digest it was authorized by. *)
Definition job_payload (decode : KeeperAction -> string -> res DecodedCall) (j : KeeperJob) (data : string) : Prop :=
  exists d, decode (kj_Action j) data = Ok d /\ dd_Action d = kj_Action j /\ dd_CanonicalPayload d = ei_CanonicalPayload (kj_Input j) /\
    (RequiresBearer j = true -> dd_AuthorizationDigest d = ei_AuthorizationDigest (kj_Input j)).

Lemma verified_payload decode j u artifact : binding_Verify decode j u artifact = Ok tt -> job_payload decode j (ut_Data u).
Proof.
  unfold binding_Verify. rewrite try_ok_iff. intros (d & Hd & Hv). rewrite check_ok_iff in Hv. destruct Hv as [Hc Hv]. to_prop. exists d.
  split_and!; [done|tauto..|]. intros Hb. rewrite Hb in Hv. cbn [negb] in Hv. rewrite check_ok_iff in Hv. to_prop. tauto.
Qed.

(** [Env] are the environments of the calls that were made, [Others] the transactions of
    the other workers, [decode] the decoder of the verifiers. *)
Section Good.
Variable Env : kenv -> Prop.
Variable Others : kop -> Prop.
Variable decode : KeeperAction -> string -> res DecodedCall.

(** A call of the service verified the data for a job and got these bytes signed. *)
Definition call_signed (j : KeeperJob) (raw data : string) : Prop :=
  exists env j' u artifact s, Env env /\ kj_Input j' = kj_Input j /\ kv_verify env j' u artifact = Ok tt /\ kv_sign env u = Ok s /\
    verifySignedTransaction u s = Ok tt /\ sg_Raw s = raw /\ ut_Data u = data.

(** Another worker recorded an attempt with this hash. *)
Definition other_attempt (k : string * Z) (h : string) : Prop :=
  exists op a, Others op /\ recorded_by op = Some a /\ k = (ka_JobID a, ka_Number a) /\ ka_TransactionHash a = h.

(** The bytes of a broadcast. *)
Definition bytes_ok (j : KeeperJob) (a : KeeperAttempt) (raw data : string) : Prop :=
  tx_hash raw = ka_TransactionHash a /\
  exists x, tx_decode raw = Some x /\ carries j data x /\ ((forall env, Env env -> assembler_faithful env) -> as_recorded a x).

(** The call data is what was verified for the job when the attempt was signed, unless
    another worker recorded the attempt or its bytes are not those of the recorded hash. *)
Definition data_ok (j : KeeperJob) (a : KeeperAttempt) (raw data : string) : Prop :=
  other_attempt (kj_JobID j, ka_Number a) (ka_TransactionHash a) \/
  exists raw' data', call_signed j raw' data' /\ ((forall env, Env env -> exact_verifier decode env) -> job_payload decode j data') /\
    (data = data' \/ collide_in [raw] [raw']).

(** A send inside an admitted effect of the job's epoch; a service whose gate cannot fence
    sends outside of any. *)
Definition gate_ok (s : KeeperSent) : Prop :=
  match sn_Epoch s with
  | Some e => fence_held (sn_Leadership s) (sn_Effect s) (kj_OrganizationID (sn_Job s)) e /\
      (ei_LeadershipEpoch (kj_Input (sn_Job s)) <> 0 -> e = ei_LeadershipEpoch (kj_Input (sn_Job s)))
  | None => exists env, Env env /\ kv_effect env = sn_Effect s /\ kv_gate env <> None
  end.

Record sent_ok (t : ktables) (s : KeeperSent) : Prop := {
  so_job : job_known t (sn_Job s);
  so_attempt : attempt_known t (sn_Job s) (sn_Attempt s);
  so_bytes : exists data, bytes_ok (sn_Job s) (sn_Attempt s) (sn_Raw s) data /\ data_ok (sn_Job s) (sn_Attempt s) (sn_Raw s) data;
  so_fence : gate_ok s }.

(** ** Every attempt has an origin *)

Definition origin (t : ktables) (k : string * Z) (h : string) : Prop :=
  other_attempt k h \/ exists row raw data, kt_jobs t !! k.1 = Some row /\ call_signed (jr_job row) raw data /\ tx_hash raw = h.

Definition origins (t : ktables) : Prop := forall k b, kt_attempts t !! k = Some b -> origin t k (ka_TransactionHash b).

Lemma signed_for j j' raw data : kj_Input j = kj_Input j' -> call_signed j raw data -> call_signed j' raw data.
Proof. unfold call_signed. by intros ->. Qed.

Lemma origin_kept t t' k h : kept t t' -> origin t k h -> origin t' k h.
Proof.
  intros [_ Kj] [Ho|(row & raw & data & Hr & Hs & Hh)]; [by left|right]. destruct (Kj _ _ Hr) as (row' & Hr' & Hi & _).
  exists row', raw, data. split_and!; [done| |done]. by eapply signed_for.
Qed.

Lemma origins_from t t' o :
  kept t t' -> attempts_from t t' o -> (forall a, o = Some a -> origin t' (ka_JobID a, ka_Number a) (ka_TransactionHash a)) -> origins t -> origins t'.
Proof.
  intros K Hf Ho Ht k b Hb. destruct (Hf _ _ Hb) as [(c & Hc & <-)|(a & Ha & -> & <-)]; [|by apply Ho]. eapply origin_kept; [exact K|]. by apply Ht.
Qed.

Definition advances (t t' : ktables) : Prop := moves_on t t' /\ (store_good t -> origins t -> origins t').

Lemma exec_advances t op : (forall a, recorded_by op = Some a -> Others op) -> advances t (kexec pg_time t op).
Proof.
  intros Ho. split; [apply kexec_moves|]. intros G. eapply origins_from; [by apply kexec_moves|apply kexec_from|]. intros a Ha. left. exists op, a. eauto.
Qed.

Lemma others_advance ops : forall t, Forall Others ops -> store_good t -> origins t -> origins (foldl (kexec pg_time) t ops).
Proof.
  induction ops as [|op ops IH]; intros t Hf G Ht; [done|]. inversion Hf; subst. cbn [foldl]. apply IH; [done|by apply kexec_moves|].
  apply (exec_advances t op); auto.
Qed.

Record kgood (w : kworld) : Prop := {
  kg_store : store_good (kw_t w);
  kg_leadership : world_inv (kw_l w);
  kg_sent : Forall (sent_ok (kw_t w)) (kw_sent w);
  kg_origins : origins (kw_t w);
  kg_others : Forall (fun turn => Forall Others turn.1) (kw_others w) }.

(** ** Assertions that survive the others *)

Definition stable (P : ktables -> Prop) : Prop := forall t t', kept t t' -> P t -> P t'.

Lemma stable_true : stable (fun _ => True).
Proof. by intros t t'. Qed.

Lemma stable_job j : stable (fun t => job_known t j).
Proof. intros t t' [_ Kj] (row & Hr & Hi). destruct (Kj _ _ Hr) as (row' & Hr' & Hi' & _). exists row'. split; [done|congruence]. Qed.

Lemma stable_attempt j a : stable (fun t => attempt_known t j a).
Proof.
  intros t t' [Ka _] (Hid & b & Hb & Sb). destruct (Ka _ _ Hb) as (c & Hc & Sc). split; [done|]. exists c. split; [done|]. unfold same_attempt in *. naive_solver congruence.
Qed.

Lemma stable_and P Q : stable P -> stable Q -> stable (fun t => P t /\ Q t).
Proof. intros HP HQ t t' K [? ?]. eauto. Qed.

Lemma sent_kept t t' s : kept t t' -> sent_ok t s -> sent_ok t' s.
Proof. intros K [S1 S2 S3 S4]. split; [by eapply stable_job|by eapply stable_attempt|done..]. Qed.

(** ** Leadership beside the worker *)

(** The worker's effect is running, or its gate has none. *)
Definition inside (id org : string) (epoch : option Z) (w : kworld) : Prop :=
  match epoch with
  | Some e => lw_running (kw_l w) !! id = Some (org, e, SinkKeeperRelay)
  | None => exists env, Env env /\ kv_effect env = id /\ kv_gate env <> None
  end.

Lemma lexec_running l op id x :
  world_inv l -> others_op id op = true -> lw_running l !! id = Some x -> lw_running (lexec pg_time l op) !! id = Some x.
Proof.
  intros I Ho Hx. assert (Hon : forall A (r : res (tables * A)), lw_running (on_tables l r) !! id = Some x) by (intros A [[t a]|]; done).
  destruct op; cbn -[begin_drain Advance]; try apply Hon; try done.
  - destruct (fence_admit _ _ _ _ _ _ _) as [[t b]|] eqn:E; [|done]. destruct b; [|done]. cbn.
    destruct (decide (effectID = id)) as [->|Hd]; [|by rewrite lookup_insert_ne]. exfalso.
    apply admit_ok in E as (r & _ & _ & _ & _ & Hn & _). destruct x as [[o e0] s0]. destruct (wi_running _ I _ _ _ _ Hx) as (f & Hf & _). congruence.
  - cbn in Ho. to_prop. destruct (lw_running l !! effectID) as [[[o e0] s0]|]; [|done]. cbn. by rewrite lookup_delete_ne.
  - cbn in Ho. to_prop. by rewrite lookup_delete_ne.
Qed.

Lemma lexec_all_running ops id x : forall l,
  world_inv l -> lw_running l !! id = Some x ->
  world_inv (foldl (lexec pg_time) l (List.filter (others_op id) ops)) /\ lw_running (foldl (lexec pg_time) l (List.filter (others_op id) ops)) !! id = Some x.
Proof.
  induction ops as [|op ops IH]; intros l I Hx; cbn; [done|]. destruct (others_op id op) eqn:E; cbn; [|by apply IH].
  apply IH; [by apply lexec_inv|by apply lexec_running].
Qed.

Lemma lexec_all_inv ops : forall l, world_inv l -> world_inv (foldl (lexec pg_time) l ops).
Proof. induction ops as [|op ops IH]; intros l I; [done|]. cbn. by apply IH, lexec_inv. Qed.

Lemma others_good id w : kgood w -> kgood (others pg_time id w) /\ kept (kw_t w) (kw_t (others pg_time id w)).
Proof.
  intros [Gs Gl Gt Go Gx]. unfold others. destruct (kw_others w) as [|[ks ls] rest] eqn:Ew; [split; [split; rewrite ?Ew; done|apply kept_refl]|].
  inversion Gx; subst. destruct (kexec_all pg_time ks _ Gs) as [Gs' K]. cbn. split; [|done].
  split; cbn; [done|by apply lexec_all_inv| |by apply others_advance|done]. eapply Forall_impl; [exact Gt|]. intros s. by apply sent_kept.
Qed.

Lemma others_inside id org e w : kgood w -> inside id org e w -> inside id org e (others pg_time id w).
Proof.
  intros G Hi. destruct e; [|exact Hi]. unfold others. destruct (kw_others w) as [|[ks ls] rest]; [done|]. unfold inside. cbn.
  apply lexec_all_running; [apply G|exact Hi].
Qed.

(** ** Triples *)

(** [io] says whether the worker is inside its effect. *)
Definition ktriple (io : kworld -> Prop) {A} (P : ktables -> Prop) (m : KM A) (Q : A -> ktables -> Prop) : Prop :=
  forall w, kgood w -> io w -> P (kw_t w) ->
    kgood (m w).1 /\ io (m w).1 /\ kept (kw_t w) (kw_t (m w).1) /\ forall a, (m w).2 = Ok a -> Q a (kw_t (m w).1).

Lemma ktriple_bind io {A B} P (m : KM A) Q (k : A -> KM B) R :
  ktriple io P m Q -> (forall a, ktriple io (Q a) (k a) R) -> ktriple io P (m ≫= k) R.
Proof.
  intros Hm Hk w G Hi HP. destruct (Hm w G Hi HP) as (G1 & I1 & K1 & Q1). unfold mbind, KM_bind. destruct (m w) as [w1 [a|e]]; cbn in *; [|done].
  destruct (Hk a w1 G1 I1 (Q1 a eq_refl)) as (G2 & I2 & K2 & Q2). split_and!; [done|done|by eapply kept_trans|done].
Qed.

Lemma ktriple_frame io {A} P (m : KM A) Q : stable P -> ktriple io P m Q -> ktriple io P m (fun a t => P t /\ Q a t).
Proof. intros HP Hm w G Hi Hp. destruct (Hm w G Hi Hp) as (G1 & I1 & K1 & Q1). split_and!; auto. intros a Ha. split; [by eapply HP|auto]. Qed.

Lemma ktriple_mono io {A} (P P' : ktables -> Prop) (m : KM A) (Q Q' : A -> ktables -> Prop) :
  (forall t, P t -> P' t) -> (forall a t, Q' a t -> Q a t) -> ktriple io P' m Q' -> ktriple io P m Q.
Proof. intros HP HQ Hm w G Hi Hp. destruct (Hm w G Hi (HP _ Hp)) as (G1 & I1 & K1 & Q1). split_and!; auto. Qed.

Lemma ktriple_pure io {A} P (phi : Prop) (m : KM A) (Q : A -> ktables -> Prop) : (phi -> ktriple io P m Q) -> ktriple io (fun t => P t /\ phi) m Q.
Proof. intros Hm w G Hi [Hp Hphi]. by apply Hm. Qed.

Lemma ktriple_ret io {A} P (a : A) (Q : A -> ktables -> Prop) : (forall t, P t -> Q a t) -> ktriple io P (mret a) Q.
Proof. intros Hq w G Hi Hp. cbn. split_and!; [done|done|apply kept_refl|]. intros b [= <-]. auto. Qed.

Lemma ktriple_raise io {A} P e (Q : A -> ktables -> Prop) : ktriple io P (kraise e) Q.
Proof. intros w G Hi Hp. cbn. split_and!; [done|done|apply kept_refl|done]. Qed.

Lemma ktriple_lift io {A} P (r : res A) (Q : A -> ktables -> Prop) : (forall a t, r = Ok a -> P t -> Q a t) -> ktriple io P (klift r) Q.
Proof. intros Hq w G Hi Hp. cbn. split_and!; [done|done|apply kept_refl|auto]. Qed.

(** One transaction of the worker, after the others' turn. *)
Lemma ktriple_store io env {A} P (f : ktables -> res (ktables * A)) (Q : A -> ktables -> Prop) :
  (forall w, kgood w -> io w -> io (others pg_time (kv_effect env) w)) ->
  (forall w t, io w -> io (mkKWorld t (kw_l w) (kw_others w) (kw_sent w))) -> stable P ->
  (forall t t' a, store_good t -> P t -> f t = Ok (t', a) -> advances t t' /\ Q a t') -> ktriple io P (kstore pg_time env f) Q.
Proof.
  intros Hio Hset HP Hf w G Hi Hp. destruct (others_good (kv_effect env) w G) as [G1 K1]. pose proof (Hio w G Hi) as Hi1. pose proof (HP _ _ K1 Hp) as Hp1.
  unfold kstore. set (w1 := others pg_time (kv_effect env) w) in *. destruct (f (kw_t w1)) as [[t' a]|e] eqn:E; cbn; [|by split_and!].
  destruct G1 as [Gs Gl Gt Go Gx]. destruct (Hf _ _ _ Gs Hp1 E) as [[Hm Ho] Hq]. destruct (Hm Gs) as [Gs' K2]. split_and!.
  - split; cbn; [done|done| |auto|done]. eapply Forall_impl; [exact Gt|]. intros s. by apply sent_kept.
  - by apply Hset.
  - by eapply kept_trans.
  - by intros b [= <-].
Qed.

(** Outside the effect, and inside it. *)
Definition anywhere (w : kworld) : Prop := True.

Lemma store_anywhere env {A} P (f : ktables -> res (ktables * A)) (Q : A -> ktables -> Prop) :
  stable P -> (forall t t' a, store_good t -> P t -> f t = Ok (t', a) -> advances t t' /\ Q a t') -> ktriple anywhere P (kstore pg_time env f) Q.
Proof. by apply ktriple_store. Qed.

Lemma store_inside env org e {A} P (f : ktables -> res (ktables * A)) (Q : A -> ktables -> Prop) :
  stable P -> (forall t t' a, store_good t -> P t -> f t = Ok (t', a) -> advances t t' /\ Q a t') ->
  ktriple (inside (kv_effect env) org e) P (kstore pg_time env f) Q.
Proof. apply ktriple_store; [intros w G; by apply others_inside|done]. Qed.

Lemma stays t : advances t t.
Proof. split; [|done]. intros G. split; [done|apply kept_refl]. Qed.

Lemma read_inside env org e {A} P (f : ktables -> res A) (Q : A -> ktables -> Prop) :
  stable P -> (forall t a, store_good t -> P t -> f t = Ok a -> Q a t) -> ktriple (inside (kv_effect env) org e) P (kread pg_time env f) Q.
Proof. intros HP Hf. apply store_inside; [done|]. intros t t' a G Hp (b & Hb & [= <- <-])%try_ok_iff. split; [apply stays|auto]. Qed.

Lemma lead_inside env org e {A} P (f : lworld -> res A) :
  stable P -> ktriple (inside (kv_effect env) org e) P (klead pg_time env f) (fun _ => P).
Proof.
  intros HP w G Hi Hp. destruct (others_good (kv_effect env) w G) as [G1 K1]. unfold klead. cbn. split_and!; [done|by apply others_inside|done|].
  intros a _. by eapply HP.
Qed.

Lemma lead_anywhere env {A} P (f : lworld -> res A) : stable P -> ktriple anywhere P (klead pg_time env f) (fun _ => P).
Proof.
  intros HP w G Hi Hp. destruct (others_good (kv_effect env) w G) as [G1 K1]. unfold klead. cbn. split_and!; [done|done|done|]. intros a _. by eapply HP.
Qed.

(** Reading the epoch from the gate. *)
Lemma current_inside env org e P o : stable P -> ktriple (inside (kv_effect env) org e) P (leadership_current pg_time env o) (fun _ => P).
Proof. intros HP. unfold leadership_current. destruct (kv_gate env); [by apply ktriple_lift|by apply lead_inside]. Qed.

(** A step whose result is dropped before an error. *)
Lemma ktriple_ignoring io {A B} P (m : KM A) (k : KM B) Q :
  stable P -> ktriple io P m (fun _ _ => True) -> ktriple io P k Q -> ktriple io P (ignoring m k) Q.
Proof.
  intros HP Hm Hk w G Hi Hp. destruct (Hm w G Hi Hp) as (G1 & I1 & K1 & _). unfold ignoring. destruct (m w) as [w1 r]; cbn in *.
  destruct (Hk w1 G1 I1 (HP _ _ K1 Hp)) as (G2 & I2 & K2 & Q2). split_and!; [done|done|by eapply kept_trans|done].
Qed.

(** ** The worker's steps *)

(** The transaction is that of [op]. *)
Ltac moves_as op :=
  lazymatch goal with
  | Hop : _ = Ok (?t', _) |- advances ?t ?t' =>
      let Hm := fresh in
      assert (Hm : advances t (kexec pg_time t op)) by (apply exec_advances; intros ? [=]); cbn [kexec] in Hm; rewrite Hop in Hm; exact Hm
  end.

Lemma work_dead_letter env org e P l reason cause {A} (Q : A -> ktables -> Prop) :
  stable P -> ktriple (inside (kv_effect env) org e) P (dead_letter pg_time env l reason cause) Q.
Proof.
  intros HP. change (dead_letter pg_time env l reason cause) with
    (ignoring (kstore pg_time env (fun t => MarkRecoveryDeadLetter pg_time t l reason (kv_clock env 1))) (@kraise A cause)).
  apply ktriple_ignoring; [done| |apply ktriple_raise]. apply store_inside; [done|]. intros t t' a _ _ Hop. split; [|done].
  moves_as (K_dead_letter l reason (kv_clock env 1)).
Qed.

Section Worker.
Context (env : kenv) (Henv : Env env) (l : KeeperLease) (epoch : option Z).
Context (Hepoch : forall e, epoch = Some e -> ei_LeadershipEpoch (kj_Input (kl_Job l)) <> 0 -> e = ei_LeadershipEpoch (kj_Input (kl_Job l))).
Let j := kl_Job l.
Notation io := (inside (kv_effect env) (kj_OrganizationID j) epoch).

Definition sendable (a : KeeperAttempt) (raw : string) (t : ktables) : Prop := job_known t j /\ attempt_known t j a /\ exists data, bytes_ok j a raw data.

Lemma stable_sendable a raw : stable (sendable a raw).
Proof. intros t t' K (H1 & H2 & H3). split_and!; [by eapply stable_job|by eapply stable_attempt|done]. Qed.

(** The origin of the recorded attempt says what was verified. *)
Lemma data_sent t a raw data : origins t -> job_known t j -> attempt_known t j a -> bytes_ok j a raw data -> data_ok j a raw data.
Proof.
  intros Ho (row & Hr & Hi) (Hid & b & Hb & Sb) (Hh & x & Hx & Hc & _). assert (Hs : ka_TransactionHash b = ka_TransactionHash a) by (unfold same_attempt in Sb; tauto).
  destruct (Ho _ _ Hb) as [Ha|(row' & raw' & data' & Hr' & Hcs & Hh')]; [left; by rewrite <-Hs|right]. cbn in Hr'. rewrite Hr in Hr'. injection Hr' as <-.
  exists raw', data'. apply (signed_for _ _ _ _ Hi) in Hcs. split_and!; [done| |].
  - intros HV. destruct Hcs as (env' & j' & u & artifact & s & He & Hj & Hv & _ & _ & _ & <-). rewrite (HV _ He) in Hv. apply verified_payload in Hv.
    unfold job_payload, RequiresBearer, kj_Action in *. rewrite Hj in Hv. exact Hv.
  - assert (Hk : keccak256 raw = keccak256 raw'). { apply hex_encode_inj. rewrite Hs, <-Hh in Hh'. unfold tx_hash, hex_hash in Hh'. by injection Hh' as Hh'. }
    destruct (keccak_eq_in [raw] [raw'] raw raw') as [<-|Hcol]; [listed|listed|done| |by right]. left.
    destruct Hcs as (env' & j' & u & artifact & s & _ & _ & _ & _ & Hv & Hraw & <-). unfold verifySignedTransaction in Hv. rewrite Hraw, Hx, !check_ok_iff in Hv.
    destruct Hv as (_ & Hv & _). to_prop. destruct Hc as (_ & _ & _ & _ & _ & <- & _). tauto.
Qed.

Lemma work_send a raw : ktriple io (sendable a raw) (ksend env l a raw epoch) (fun _ => sendable a raw).
Proof.
  intros w [Gs Gl Gt Go Gx] Hi Hp. unfold ksend. cbn. split_and!; [|done|apply kept_refl|done]. split; cbn; [done|done| |done|done].
  apply Forall_app. split; [done|]. apply Forall_singleton. destruct Hp as (H1 & H2 & data & H3). split; cbn; [done..| |].
  - exists data. split; [done|]. by eapply data_sent.
  - unfold gate_ok. cbn. destruct epoch as [e|]; [|exact Hi]. split; [|by apply Hepoch]. eapply running_held, Hi. done.
Qed.

Lemma work_broadcast a raw : ktriple io (sendable a raw) (broadcast pg_time env l a raw epoch) (fun _ => sendable a raw).
Proof.
  pose proof (stable_sendable a raw) as HP. unfold broadcast. eapply ktriple_bind.
  { apply (store_inside env _ _ _ _ (fun _ => sendable a raw)); [done|]. intros t t' b G Hp Hop.
    assert (Hm : advances t t') by moves_as (K_broadcasting l (ka_Number a) (kv_clock env 2)). split; [done|]. eapply HP, Hp. by apply Hm. }
  intros ?. eapply ktriple_bind; [apply work_send|]. intros ?. destruct (kv_broadcast env raw) as [h|err].
  - destruct (negb _).
    + apply ktriple_ignoring; [done| |apply ktriple_raise]. apply store_inside; [done|]. intros t t' b G Hp Hop. split; [|done].
      moves_as (K_ambiguous l (ka_Number a) "RPC returned a different transaction hash" (kv_clock env 3)).
    + apply store_inside; [done|]. intros t t' b G Hp Hop.
      assert (Hm : advances t t') by moves_as (K_submitted l (ka_Number a) h (kv_clock env 3)). split; [done|]. eapply HP, Hp. by apply Hm.
  - destruct (_ || _).
    + apply ktriple_ignoring; [done| |apply ktriple_raise]. apply store_inside; [done|]. intros t t' b G Hp Hop. split; [|done].
      moves_as (K_rejected l (ka_Number a) (if bool_decide (err = ErrBroadcastUnderpriced) then StateTimedOut else StateDeadLetter) err (kv_clock env 3)).
    + apply ktriple_ignoring; [done| |apply ktriple_raise]. apply store_inside; [done|]. intros t t' b G Hp Hop. split; [|done].
      moves_as (K_ambiguous l (ka_Number a) err (kv_clock env 3)).
Qed.

(** An attempt the store returned is one of its job. *)
Lemma current_known t id a : store_good t -> CurrentAttempt t id = Ok a -> id = kj_JobID j -> attempt_known t j a /\ read_from t a = true.
Proof.
  intros [I _]. unfold CurrentAttempt. rewrite check_ok_iff. intros [_ Hc] ->. destruct (kt_jobs t !! _) as [row|]; [|done].
  destruct (kt_attempts t !! _) as [b|] eqn:Ea; [|done]. injection Hc as <-. destruct (ki_attempts _ I _ _ _ Ea) as [A1 A2 _ _ _].
  unfold attempt_known, read_from. rewrite A1, A2, Ea. split; [|by rewrite !bool_decide_eq_true_2]. split; [done|]. exists b. by split_and!.
Qed.

Lemma recovered_ok a raw : verifyRecoveredSigned j a raw = Ok tt -> exists data, bytes_ok j a raw data.
Proof.
  unfold verifyRecoveredSigned. rewrite check_ok_iff. intros [Hh Hv]. to_prop. destruct Hh as [_ Hh].
  destruct (tx_decode raw) as [x|] eqn:E; [|done]. exists (et_data x). split; [done|]. exists x. split; [done|]. rewrite check_ok_iff in Hv. destruct Hv as [Hc Hs].
  destruct (tx_sender (kj_ChainID j) x) as [sender|] eqn:Es; [|done]. rewrite check_ok_iff in Hs. to_prop. destruct Hs as [-> _].
  unfold carries, as_recorded. naive_solver.
Qed.

Lemma work_rebroadcast : ktriple io (fun t => job_known t j) (rebroadcast pg_time env l epoch) (fun _ _ => True).
Proof.
  unfold rebroadcast. eapply ktriple_bind.
  { apply (read_inside env _ _ _ _ (fun a t => job_known t j /\ attempt_known t j a)); [apply stable_job|]. intros t a G Hp Hc. split; [done|].
    by eapply current_known. }
  intros a. destruct (negb _); [apply ktriple_raise|]. eapply ktriple_bind; [apply (ktriple_lift _ _ _ (fun _ t => job_known t j /\ attempt_known t j a)); done|].
  intros raw. eapply ktriple_bind; [apply (ktriple_lift _ _ _ (fun _ t => sendable a raw t))|].
  { intros [] t Hv [H1 H2]. split_and!; [done|done|by apply recovered_ok]. }
  intros ?. eapply ktriple_mono, work_broadcast; done.
Qed.

(** ** New attempts *)

Lemma assembled_ok c artifact nonce fee u :
  assemble_verified c env j artifact nonce fee = Ok u -> kv_assemble env j artifact nonce fee = Ok u /\ validateUnsigned j u c = Ok tt /\ kv_verify env j u artifact = Ok tt.
Proof. unfold assemble_verified. intros (u' & Hu & H')%try_ok_iff. rewrite !try_unit_iff in H'. by destruct H' as (Hv & Hb & [= <-]). Qed.

Lemma signed_ok c artifact nonce fee u s number sealed keyID now :
  assemble_verified c env j artifact nonce fee = Ok u -> verifySignedTransaction u s = Ok tt ->
  bytes_ok j (new_attempt j number nonce fee s sealed keyID now) (sg_Raw s) (ut_Data u).
Proof.
  intros (Ha & Hu & _)%assembled_ok Hs. unfold validateUnsigned in Hu. rewrite check_ok_iff in Hu. destruct Hu as [Hu _]. to_prop.
  destruct Hu as [[[[[[[[[U1 U2] U3] U4] _] _] _] _] _] _]. unfold verifySignedTransaction in Hs. rewrite check_ok_iff in Hs. destruct Hs as [Hh Hs]. to_prop.
  destruct Hh as [_ Hh]. split; [done|]. destruct (tx_decode (sg_Raw s)) as [x|] eqn:E; [|done]. exists x. split; [done|].
  rewrite check_ok_iff in Hs. destruct Hs as [Hc Hs]. destruct (tx_sender (ut_ChainID u) x) as [sender|] eqn:Es; [|done].
  rewrite check_ok_iff in Hs. to_prop. destruct Hs as [[-> _] _]. destruct Hc as [[[[[[[[[C1 C2] C3] C4] C5] _] C7] C8] C9] C10].
  rewrite U1 in Es, C2. split; [unfold carries; split_and!; congruence|]. intros HF. destruct (HF _ Henv _ _ _ _ _ Ha) as [N1 N2].
  unfold as_recorded. cbn. split_and!; congruence.
Qed.

Lemma insert_known t a t' job : insert_attempt pg_time t a = Ok t' -> ka_JobID a = kj_JobID j -> attempt_known (put_job t' job) j a.
Proof.
  unfold insert_attempt. rewrite check_ok_iff. intros [_ [= <-]] Hid. unfold attempt_known. rewrite put_attempts, <-Hid. cbn. rewrite lookup_insert_eq.
  split; [done|]. eexists. split; [done|]. by split_and!.
Qed.

Lemma prepared_known t a now t' job :
  RecordPrepared pg_time t l a now = Ok (t', job) -> ka_JobID a = kj_JobID j -> attempt_known t' j a.
Proof.
  unfold RecordPrepared. rewrite check_ok_iff. intros [_ (row & t1 & Hr & Hc & ->)%transition_leased] Hid. cbv beta zeta in Hc.
  rewrite check_ok_iff in Hc. destruct Hc as [_ Hc]. destruct (jr_nonce row); [|done]. rewrite check_ok_iff in Hc. destruct Hc as [_ Hc].
  apply try_ok_iff in Hc as (t2 & Hi & [= <- <-]). by eapply insert_known.
Qed.

Lemma replacement_known t p a now t' job :
  RecordReplacement pg_time t l p a now = Ok (t', job) -> ka_JobID a = kj_JobID j -> attempt_known t' j a.
Proof.
  unfold RecordReplacement. rewrite check_ok_iff. intros [_ (row & t1 & Hr & Hc & ->)%transition_leased] Hid. cbv beta zeta in Hc.
  rewrite check_ok_iff in Hc. destruct Hc as [_ Hc]. apply try_ok_iff in Hc as (t2 & _ & Hc). apply try_ok_iff in Hc as (t3 & Hi & [= <- <-]).
  by eapply insert_known.
Qed.

Lemma known_read t p : attempt_known t j p -> read_from t p = true.
Proof.
  intros (Hid & b & Hb & _ & _ & _ & _ & Hf & Hh). unfold read_from. rewrite Hid, Hb, Hf, Hh. by rewrite !bool_decide_eq_true_2.
Qed.

(** The bearer window and the epoch are read before the signer is asked. *)
Lemma work_artifact c now P : stable P -> ktriple io P (prepare_artifact pg_time c env l now) (fun _ => P).
Proof.
  intros HP. unfold prepare_artifact. destruct (negb (RequiresBearer _)); [by apply ktriple_ret|]. destruct (negb (window_open _ _)); [by apply work_dead_letter|].
  eapply ktriple_bind; [by apply current_inside|]. intros e. destruct (negb _); [by apply work_dead_letter|].
  eapply ktriple_bind; [by apply (ktriple_lift _ _ _ (fun _ => P))|]. intros artifact. destruct (_ || _); [apply ktriple_raise|by apply ktriple_ret].
Qed.

Lemma work_replacement_artifact c now P : stable P -> ktriple io P (replacement_artifact pg_time c env l now) (fun _ => P).
Proof.
  intros HP. unfold replacement_artifact. destruct (negb (RequiresBearer _)); [by apply ktriple_ret|].
  destruct (negb (window_open _ _)); [by apply work_dead_letter|]. eapply ktriple_bind; [by apply current_inside|].
  intros e. destruct (negb _); [apply ktriple_raise|by apply (ktriple_lift _ _ _ (fun _ => P))].
Qed.

(** What the worker signs is the origin of its attempt. *)
Lemma signed_origin t c artifact number nonce fee u s sealed keyID now :
  job_known t j -> assemble_verified c env j artifact nonce fee = Ok u -> kv_sign env u = Ok s -> verifySignedTransaction u s = Ok tt ->
  origin t (kj_JobID j, number) (ka_TransactionHash (new_attempt j number nonce fee s sealed keyID now)).
Proof.
  intros (row & Hr & Hi) (_ & _ & Hb)%assembled_ok Hs Hv. right. exists row, (sg_Raw s), (ut_Data u). split; [done|]. split.
  - exists env, j, u, artifact, s. by split_and!.
  - unfold verifySignedTransaction in Hv. rewrite check_ok_iff in Hv. to_prop. tauto.
Qed.

(** Signing, sealing and recording an attempt that was assembled for its nonce and fee, then
    sending it. *)
Lemma work_sign_record c artifact number nonce fee u now (P : ktables -> Prop) (guard : SignedTransaction -> bool)
    (record : ktables -> KeeperAttempt -> res (ktables * KeeperJob)) :
  stable P -> (forall t, P t -> job_known t j) -> assemble_verified c env j artifact nonce fee = Ok u ->
  (forall t a t' x, ka_JobID a = kj_JobID j -> P t -> record t a = Ok (t', x) ->
     moves_on t t' /\ attempts_from t t' (Some a) /\ attempt_known t' j a) ->
  ktriple io P
    (s ← klift (kv_sign env u);
     _ ← klift (verifySignedTransaction u s);
     if guard s then kraise ErrKeeperTransaction else
     sealed ← klift (kv_seal env (sg_Raw s) (keeper_aad (kj_JobID j) number (sg_Hash s)));
     let a := new_attempt j number nonce fee s sealed.1 sealed.2 now in
     _ ← kstore pg_time env (fun t => record t a);
     broadcast pg_time env l a (sg_Raw s) epoch) (fun _ _ => True).
Proof.
  intros HP Hjob Ha Hrec.
  eapply ktriple_bind; [apply (ktriple_lift _ _ _ (fun s t => P t /\ kv_sign env u = Ok s)); done|]. intros s. apply ktriple_pure. intros Hsign.
  eapply ktriple_bind; [apply (ktriple_lift _ _ _ (fun _ t => P t /\ verifySignedTransaction u s = Ok tt)); by intros []|].
  intros ?. apply ktriple_pure. intros Hs. destruct (guard s); [apply ktriple_raise|]. eapply ktriple_bind; [by apply (ktriple_lift _ _ _ (fun _ => P))|]. intros sealed. cbv zeta.
  eapply ktriple_bind.
  { apply (store_inside env _ _ _ _ (fun _ => sendable (new_attempt j number nonce fee s sealed.1 sealed.2 now) (sg_Raw s))); [done|].
    intros t t' y G Hp Hop. apply Hrec in Hop as (Hm & Hf & Hk); [|done|done].
    assert (Hj : job_known t' j) by (eapply stable_job, Hjob, Hp; by apply Hm).
    split; [split; [done|]|split_and!; [done|done|eexists; by eapply signed_ok]]. intros G'. eapply origins_from; [by apply Hm|exact Hf|]. intros y0 [= <-].
    by eapply signed_origin. }
  intros y. eapply ktriple_mono, work_broadcast; done.
Qed.

Lemma work_prepare c : ktriple io (fun t => job_known t j) (prepareAndBroadcast pg_time c env l epoch) (fun _ _ => True).
Proof.
  set (P := fun t => job_known t j). assert (HP : stable P) by apply stable_job. unfold prepareAndBroadcast. cbv zeta.
  destruct (time_before _ _); [apply ktriple_raise|]. eapply ktriple_bind; [by apply work_artifact|]. intros artifact.
  eapply ktriple_bind; [by apply (ktriple_lift _ _ _ (fun _ => P))|]. intros observed.
  eapply ktriple_bind; [by apply (ktriple_lift _ _ _ (fun _ => P))|]. intros fee. destruct (negb _); [apply ktriple_raise|].
  eapply ktriple_bind; [apply (ktriple_lift _ _ _ (fun u t => P t /\ assemble_verified c env j artifact observed fee = Ok u)); done|].
  intros u0. apply ktriple_pure. intros Hu0. eapply ktriple_bind.
  { apply (store_inside env _ _ _ _ (fun _ => P)); [done|]. intros t t' n G Hp Hop.
    assert (Hm : advances t t') by moves_as (K_allocate l observed (kv_clock env 5)). split; [done|]. eapply HP, Hp. by apply Hm. }
  intros nonce. eapply (ktriple_bind _ _ _ (fun u t => P t /\ assemble_verified c env j artifact nonce fee = Ok u)).
  { destruct (nonce =? observed) eqn:E; [to_prop; subst; by apply ktriple_ret|by apply ktriple_lift]. }
  intros u. apply ktriple_pure. intros Hu.
  refine (work_sign_record c artifact 1 nonce fee u _ P (fun _ => false) (fun t a => RecordPrepared pg_time t l a (kv_clock env 6)) HP _ Hu _); [done|].
  intros t a t' x Hid Hp Hop. split_and!; [|by eapply prepared_from|by eapply prepared_known].
  pose proof (kexec_moves pg_time t (K_prepared l a (kv_clock env 6))) as Hm. cbn [kexec] in Hm. rewrite Hop in Hm. exact Hm.
Qed.

Lemma work_replace c : ktriple io (fun t => job_known t j) (replace pg_time c env l epoch) (fun _ _ => True).
Proof.
  unfold replace. cbv zeta. eapply ktriple_bind.
  { apply (read_inside env _ _ _ _ (fun p t => job_known t j /\ attempt_known t j p)); [apply stable_job|]. intros t a G Hp Hc. split; [done|].
    by eapply current_known. }
  intros previous. set (P := fun t => job_known t j /\ attempt_known t j previous).
  assert (HP : stable P) by (apply stable_and; [apply stable_job|apply stable_attempt]).
  destruct (_ || _); [by apply work_dead_letter|]. eapply ktriple_bind; [by apply (ktriple_lift _ _ _ (fun _ => P))|]. intros ?.
  eapply ktriple_bind; [by apply work_replacement_artifact|]. intros artifact.
  eapply ktriple_bind; [by apply (ktriple_lift _ _ _ (fun _ => P))|]. intros fee. destruct (negb _); [apply ktriple_raise|].
  eapply ktriple_bind; [apply (ktriple_lift _ _ _ (fun u t => P t /\ assemble_verified c env j artifact (ka_Nonce previous) fee = Ok u)); done|].
  intros u. apply ktriple_pure. intros Hu.
  refine (work_sign_record c artifact (ka_Number previous + 1) (ka_Nonce previous) fee u _ P
    (fun s => bool_decide (sg_Hash s = ka_TransactionHash previous)) (fun t a => RecordReplacement pg_time t l previous a (kv_clock env 6)) HP _ Hu _).
  - by intros t [].
  - intros t b t' x Hid [_ Hp] Hop. split_and!; [|by eapply replacement_from|by eapply replacement_known]. pose proof (kexec_moves pg_time t (K_replacement l previous b (kv_clock env 6))) as Hm.
    cbn [kexec] in Hm. rewrite (known_read _ _ Hp), Hop in Hm. exact Hm.
Qed.

Lemma work_advance c : ktriple io (fun t => job_known t j) (keeper_advance pg_time c env l epoch) (fun _ _ => True).
Proof.
  unfold keeper_advance. destruct (kj_State (kl_Job l)); try apply ktriple_raise;
    [apply work_prepare|apply work_rebroadcast|apply work_rebroadcast|apply work_replace|apply work_replace].
Qed.

End Worker.

(** The fence admits the effect, and only then does the worker act. *)
Lemma work_fenced env (Henv : Env env) l e c :
  (ei_LeadershipEpoch (kj_Input (kl_Job l)) <> 0 -> e = ei_LeadershipEpoch (kj_Input (kl_Job l))) ->
  ktriple anywhere (fun t => job_known t (kl_Job l)) (fenced pg_time c env l e) (fun _ _ => True).
Proof.
  intros He w G _ Hp. unfold fenced, mbind, KM_bind, fence_begin. destruct (others_good (kv_effect env) w G) as [[Gs Gl Gt Go Gx] K1].
  set (w1 := others pg_time (kv_effect env) w) in *. pose proof (stable_job _ _ _ K1 Hp) as Hp1.
  set (l2 := lexec pg_time (kw_l w1) (O_admit (kv_effect env) (kj_OrganizationID (kl_Job l)) e SinkKeeperRelay (kv_clock env 7))).
  set (w2 := mkKWorld (kw_t w1) l2 (kw_others w1) (kw_sent w1)). assert (G2 : kgood w2) by (split; [done|by apply (lexec_inv pg_time)|done..]).
  destruct (fence_admit _ _ _ _ _ _ _) as [[t [|]]|err] eqn:E; [|by split_and!..].
  assert (Hi2 : inside (kv_effect env) (kj_OrganizationID (kl_Job l)) (Some e) w2).
  { unfold inside, w2, l2. cbn -[fence_admit]. rewrite E. cbn. by rewrite lookup_insert_eq. }
  assert (He' : forall x, Some e = Some x -> ei_LeadershipEpoch (kj_Input (kl_Job l)) <> 0 -> x = ei_LeadershipEpoch (kj_Input (kl_Job l))) by (by intros x [= <-]).
  destruct (work_advance env Henv l (Some e) He' c w2 G2 Hi2 Hp1) as (G3 & _ & K3 & _). unfold ended.
  destruct (keeper_advance pg_time c env l (Some e) w2) as [w3 r]. cbn in G3, K3. unfold fence_end. destruct (others_good (kv_effect env) w3 G3) as [[Gs4 Gl4 Gt4 Go4 Gx4] K4].
  cbn -[lexec]. split_and!; [|done| |done]; [split; [done|by apply (lexec_inv pg_time)|done..]|].
  eapply kept_trans; [exact K1|]. by eapply kept_trans.
Qed.

(** A gate that cannot fence lets the worker act at once. *)
Lemma work_unfenced env (Henv : Env env) l c :
  kv_gate env <> None -> ktriple anywhere (fun t => job_known t (kl_Job l)) (keeper_advance pg_time c env l None) (fun _ _ => True).
Proof.
  intros Hg w G _ Hp. assert (Hi : inside (kv_effect env) (kj_OrganizationID (kl_Job l)) None w) by (by exists env).
  destruct (work_advance env Henv l None ltac:(done) c w G Hi Hp) as (G1 & _ & K1 & Q1). by split_and!.
Qed.

Lemma work_releasing env l {A} P (m : KM A) Q : ktriple anywhere P m Q -> ktriple anywhere P (releasing_keeper pg_time env l m) (fun _ _ => True).
Proof.
  intros Hm w G _ Hp. destruct (Hm w G I Hp) as (G1 & _ & K1 & _). unfold releasing_keeper. destruct (m w) as [w1 r]. cbn in G1, K1.
  assert (Hr : ktriple anywhere (fun _ => True) (kstore pg_time env (fun t => try t := ReleaseKeeperLease t l in Ok (t, tt))) (fun _ _ => True)).
  { apply store_anywhere; [apply stable_true|]. intros t t' b _ _ Hop. split; [moves_as (K_release l)|done]. }
  destruct (Hr w1 G1 I I) as (G2 & _ & K2 & _). destruct (kstore pg_time env _ w1) as [w2 r2]. cbn in *. split_and!; [done|done|by eapply kept_trans|done].
Qed.

Lemma claimed_known t k p c d now token locked t' l : store_good t -> Claim pg_time t k p c d now token locked = Ok (t', l) -> job_known t' (kl_Job l).
Proof.
  intros [Hinv _]. unfold Claim. rewrite check_ok_iff. intros [_ H']. destruct (merge_sort _ _) as [|j rest] eqn:E; [done|].
  apply sorted_candidate in E as [_ (id & row & Hr & Hj)]. injection H' as <- <-. subst j. pose proof (job_of_row _ _ _ Hinv Hr) as Hr'.
  unfold job_known, put_job. cbn. unfold kj_JobID in *. cbn in *. rewrite Hr'. cbn. rewrite lookup_insert_eq. by eexists.
Qed.

Lemma work_run c env : Env env -> ktriple anywhere (fun _ => True) (RunOnce pg_time c env) (fun _ _ => True).
Proof.
  intros Henv. unfold RunOnce. eapply ktriple_bind.
  { apply (store_anywhere env _ _ (fun l t => job_known t (kl_Job l))); [apply stable_true|]. intros t t' l G _ Hop.
    split; [|by eapply claimed_known].
    moves_as (K_claim (kc_KeeperID c) (kc_GasPayer c) (kc_ChainID c) (kc_LeaseDuration c) (kv_clock env 0) (kv_token env) (kv_locked env)). }
  intros l. eapply work_releasing. cbv zeta. destruct (negb _); [apply ktriple_raise|].
  destruct (kv_gate env) eqn:Eg; [apply work_unfenced; [done|by rewrite Eg]|].
  eapply (ktriple_bind _ _ _ (fun e t => job_known t (kl_Job l) /\ (ei_LeadershipEpoch (kj_Input (kl_Job l)) <> 0 -> e = ei_LeadershipEpoch (kj_Input (kl_Job l))))).
  { destruct (_ =? 0) eqn:E; [|by apply ktriple_ret]. to_prop. unfold leadership_current. rewrite Eg. eapply ktriple_mono, (lead_anywhere env (fun t => job_known t (kl_Job l))), stable_job; [done|].
    intros e t Hp. split; [exact Hp|]. by rewrite E. }
  intros e. apply ktriple_pure. intros He. by apply work_fenced.
Qed.

Lemma work_observe c env : ktriple anywhere (fun _ => True) (KeeperObserveOnce pg_time c env) (fun _ _ => True).
Proof.
  unfold KeeperObserveOnce. eapply ktriple_bind.
  { apply (store_anywhere env _ _ (fun _ _ => True)); [apply stable_true|]. intros t t' l G _ Hop. split; [|done].
    moves_as (K_claim_observation (kc_KeeperID c) (kc_GasPayer c) (kc_ChainID c) (kc_LeaseDuration c) (kv_clock env 0) (kv_token env) (kv_locked env)). }
  intros l. refine (work_releasing env l _ _ (fun _ _ => True) _). unfold kread. eapply ktriple_bind.
  { apply (store_anywhere env _ _ (fun _ _ => True)); [apply stable_true|]. intros t t' a _ _ (b & Hb & [= <- <-])%try_ok_iff. split; [apply stays|done]. }
  intros a. eapply ktriple_bind; [by apply (ktriple_lift _ _ _ (fun _ _ => True))|]. intros o.
  eapply ktriple_bind; [by apply (ktriple_lift _ _ _ (fun _ _ => True))|]. intros ?. apply store_anywhere; [apply stable_true|].
  intros t t' j _ _ Hop. split; [moves_as (K_outcome l o (kv_clock env 5))|done].
Qed.

Lemma work_scan env c limit calls : ktriple anywhere (fun _ => True) (Scan pg_time env c limit calls) (fun _ _ => True).
Proof.
  unfold Scan. destruct (negb _); [apply ktriple_raise|]. eapply ktriple_bind; [by apply (ktriple_lift _ _ _ (fun _ _ => True))|]. intros l.
  destruct (_ <? _); [apply ktriple_raise|].
  assert (Hm : ktriple anywhere (fun _ => True) (mret 0 : KM Z) (fun _ _ => True)) by by apply ktriple_ret.
  revert Hm. generalize (mret 0 : KM Z). induction l as [|x l IH]; intros m Hm; cbn [foldl]; [done|]. apply IH. eapply ktriple_bind; [exact Hm|].
  intros n. unfold scan_call. eapply ktriple_bind; [by apply (ktriple_lift _ _ _ (fun _ _ => True))|]. intros ?. destruct (negb _); [apply ktriple_raise|].
  eapply ktriple_bind; [|intros r; by apply ktriple_ret]. apply (store_anywhere env _ _ (fun _ _ => True)); [apply stable_true|].
  intros t t' b _ _ Hop. split; [moves_as (K_enqueue (expired_input (kc_KeeperID c) (kc_GasPayer c) x) (kv_clock env 1))|done].
Qed.
End Good.

(** ** Any calls of the service *)

Inductive kcall :=
| C_run (c : KeeperConfig) (env : kenv)
| C_observe (c : KeeperConfig) (env : kenv)
| C_scan (env : kenv) (c : KeeperConfig) (limit : Z) (calls : res (list ExpiredCall)).

Definition kcall_env (k : kcall) : kenv := match k with C_run _ env | C_observe _ env | C_scan env _ _ _ => env end.

Definition kcall_exec (w : kworld) (k : kcall) : kworld :=
  match k with
  | C_run c env => (RunOnce pg_time c env w).1
  | C_observe c env => (KeeperObserveOnce pg_time c env w).1
  | C_scan env c limit calls => (Scan pg_time env c limit calls w).1
  end.

Definition kstart (turns : list (list kop * list lop)) : kworld := mkKWorld no_ktables (mkLWorld no_tables ∅) turns [].

Lemma kcalls_good Env Others decode calls : forall w,
  Forall (fun k => Env (kcall_env k)) calls -> kgood Env Others decode w -> kgood Env Others decode (foldl kcall_exec w calls).
Proof.
  induction calls as [|k calls IH]; intros w HE G; [done|]. inversion HE; subst. cbn [foldl]. apply IH; [done|].
  destruct k; cbn [kcall_exec kcall_env] in *; [by apply (work_run Env Others decode c env)|by apply (work_observe Env Others decode)|
    by apply (work_scan Env Others decode)].
Qed.

(** C18: every transaction the keeper broadcasts is accounted for. Whatever calls a worker
    makes, whatever the other workers, the control plane and the leaders do between any two
    of its transactions, and whatever the signer, the assembler, the wallet, the sealer and
    the network answer: the bytes sent hash to an attempt that is durably recorded for a
    durably enqueued job, and call exactly the job's target with the job's value, chain and
    gas payer; the nonce and fees are the recorded ones if the assemblers use those they
    are given. The call data is data that the verifier accepted for this job before a call
    of the service had the attempt signed, and with the exact verifier it decodes to the
    payload the job was enqueued with and to the digest it was authorized by; the
    exceptions are an attempt that another worker recorded, and bytes that are opened from
    the seal and collide with the ones that were signed. The sender held the fence of the
    job's organisation at that moment, for the epoch the job was authorized under, unless
    the service was given a gate that cannot fence. *)
Theorem keeper_broadcasts_recorded decode (turns : list (list kop * list lop)) (calls : list kcall) :
  let w := foldl kcall_exec (kstart turns) calls in
  Forall (sent_ok (fun env => env ∈ map kcall_env calls) (fun op => exists turn, turn ∈ turns /\ op ∈ turn.1) decode (kw_t w)) (kw_sent w).
Proof.
  intros w. eapply kg_sent, kcalls_good.
  - apply Forall_forall. intros k Hk. apply list_elem_of_fmap. by exists k.
  - split; cbn; [apply empty_good|apply (lrun_inv pg_time [])|constructor| |].
    + intros k b. cbn. by rewrite lookup_empty.
    + apply Forall_forall. intros turn Ht. apply Forall_forall. intros op Hop. by exists turn.
Qed.

End Relay.
