(* ===== verification/KeeperDemo.v ===== *)
(** * The keeper at work

    An expired call found by the scanner, relayed and observed; a bearer job whose window
    closes after it was given a nonce; an assembler that answers with a nonce of its own;
    and the witnesses of the theorems of [KeeperTheorems]. Transactions are toy encodings
    of their nonce. *)
From stdpp Require Import base gmap strings list sorting.
From Stdlib Require Import ZArith Lia Ascii.
From S2P Require Import Prelude GoText GoJSON Amounts Crypto Envelope GovAction SafeTx Keeper KeeperStore Leadership LeadershipTheorems LeadershipDemo KeeperService KeeperTheorems KeeperRelay.

Open Scope Z_scope.
#[local] Existing Instance ToyCrypto.

Definition keeper_payer : string := "0x" +:+ str_repeat "1" 40.
Definition keeper_escrow : string := "0x" +:+ str_repeat "2" 40.
Definition keeper_fee : KeeperFee := mkFee "1000" "10".
Definition keeper_calldata : string := claimExpiredCalldata (demo_id "c").

Definition demo_transaction (nonce : Z) : EthTransaction :=
  mkEthTransaction true (Some 84532) nonce (Some keeper_escrow) 0 90000 0 keeper_calldata 1000 10.
#[local] Instance DemoEthLib : EthLib := {|
  tx_decode raw := demo_transaction <$> SetString10 raw; tx_sender _ _ := Some keeper_payer |}.

(** No signature is ever recovered. *)
#[local] Instance NoSignatures : SafeLib := {|
  ecdsa_recover _ _ := Err ErrSignatureUnavailable; ecdsa_values _ _ _ := false; exec_pack _ _ _ := ""; exec_unpack _ := None |}.

Definition demo_call : ExpiredCall :=
  mkExpired (demo_id "b") demo_org 84532 keeper_escrow (demo_id "c") (demo_time 60) (demo_time 70) (demo_time 90) demo_evidence ["alpha"; "beta"].
Definition keeper_config : KeeperConfig := mkKeeperConfig "keeper-1" keeper_payer 84532 (30 * Second) 3 100000 (mkFee "5000" "50").

(** An assembler adds [skew] to the nonce it is asked for. *)
Definition demo_env (gate : option (string -> res Z)) (at_ : Z) (effect : string) (skew : Z) : kenv :=
  mkKenv (fun k => demo_time (at_ + Z.of_nat k)) "token-0123456789abcdef" ∅ (demo_id effect)
    (fun _ _ => Err ErrSignatureUnavailable)
    (fun j _ nonce fee => Ok (mkUnsigned (kj_ChainID j) (kj_GasPayer j) (kj_Target j) (kj_ValueWei j) (nonce + skew) 90000 keeper_calldata fee))
    (binding_Verify claimExpired_Decode)
    (fun u => Ok (mkSigned (tx_hash (dec_string (ut_Nonce u))) (dec_string (ut_Nonce u))))
    (fun raw _ => Ok (raw, "key-1")) (fun sealed _ _ => Ok sealed) (fun raw => Ok (tx_hash raw))
    (fun _ => Ok keeper_fee) (fun _ _ => Ok (mkFee "2000" "20")) (fun _ _ => Ok 7) (fun _ _ => Ok tt)
    (fun j a => Ok (mkOutcome (kj_JobID j) (ka_Number a) (ka_TransactionHash a) StateFinalized demo_evidence (demo_time at_))) gate.

Definition demo_turns : list (list kop * list lop) :=
  [([K_organization demo_org], [O_bootstrap demo_org demo_actor demo_evidence (demo_time 0)])].
Definition demo_calls (gate : option (string -> res Z)) (skew : Z) : list kcall :=
  [C_scan (demo_env gate 90 "5" skew) keeper_config 10 (Ok [demo_call]);
   C_run keeper_config (demo_env gate 100 "6" skew);
   C_observe keeper_config (demo_env gate 120 "7" skew)].
Definition keeper_world (skew : Z) : kworld := foldl (kcall_exec micro) (kstart demo_turns) (demo_calls None skew).

Definition sent_summary (w : kworld) : list (Z * Z * option Z * option Z) :=
  map (fun s => (ka_Number (sn_Attempt s), ka_Nonce (sn_Attempt s), et_nonce <$> tx_decode (sn_Raw s), sn_Epoch s)) (kw_sent w).
Definition job_states (t : ktables) : list (KeeperState * option Z) := map (fun p => (kj_State (jr_job p.2), jr_nonce p.2)) (map_to_list (kt_jobs t)).

(** The scanned call is relayed once, under the current epoch, and finalized. *)
Example keeper_relays : sent_summary (keeper_world 0) = [(1, 7, Some 7, Some 1)] /\ job_states (kw_t (keeper_world 0)) = [(StateFinalized, Some 7)].
Proof. vm_compute. by split. Qed.

(** Nothing compares the nonce of an assembled transaction with the one that was allocated:
    the bytes that are sent spend nonce 8 while the store holds 7. *)
Example assembler_nonce_unchecked : sent_summary (keeper_world 1) = [(1, 7, Some 8, Some 1)].
Proof. vm_compute. done. Qed.

(** A gate with no fence: the transaction is sent outside of any effect. *)
Example unfenced_relay :
  sent_summary (foldl (kcall_exec micro) (kstart demo_turns) (demo_calls (Some (fun _ => Ok 1)) 0)) = [(1, 7, Some 7, None)].
Proof. vm_compute. done. Qed.

(** The assembler of the first run uses the nonce and fee it is given, and the verifier is
    the exact one: the one transaction that is sent meets the whole claim. *)
Lemma keeper_broadcasts_recorded_witness :
  exists s, kw_sent (keeper_world 0) = [s] /\ job_payload claimExpired_Decode (sn_Job s) keeper_calldata /\
    sent_ok (fun env => env ∈ map kcall_env (demo_calls None 0)) (fun op => exists turn, turn ∈ demo_turns /\ op ∈ turn.1) claimExpired_Decode
      (kw_t (keeper_world 0)) s.
Proof.
  pose proof (keeper_broadcasts_recorded micro claimExpired_Decode demo_turns (demo_calls None 0)) as Hall. cbv zeta in Hall. fold (keeper_world 0) in Hall.
  assert (Hjob : map (fun s => (kj_Action (sn_Job s), ei_CanonicalPayload (kj_Input (sn_Job s)))) (kw_sent (keeper_world 0)) =
                 [(ActionClaimExpired, keeper_calldata)]) by (vm_compute; reflexivity).
  destruct (kw_sent (keeper_world 0)) as [|s [|s' r]]; [discriminate Hjob| |discriminate Hjob]. exists s. split; [reflexivity|]. split.
  - injection Hjob as Ha Hp. unfold job_payload. rewrite Ha, Hp. exists (mkDecoded ActionClaimExpired keeper_calldata "" "").
    split; [vm_compute; reflexivity|]. split; [reflexivity|]. split; [reflexivity|]. unfold RequiresBearer. rewrite Ha. discriminate.
  - exact (Forall_inv Hall).
Defined.

(** ** Transactions of the store *)

Definition demo_claimed (t : ktables) (at_ : Z) : KeeperLease :=
  match Claim micro t "keeper-1" keeper_payer 84532 (30 * Second) (demo_time at_) "token-0123456789abcdef" ∅ with
  | Ok (_, l) => l
  | Err _ => mkKeeperLease (mkKeeperJob (expired_input "keeper-1" keeper_payer demo_call) StateQueued "" "" 0 0 0 0 0 "") ""
  end.
#[local] Notation demo_store ops := (foldl (kexec micro) no_ktables ops).

(** Appends what [f] does under a lease that is claimed now and then given back. *)
Definition leased (at_ : Z) (f : KeeperLease -> list kop) (ops : list kop) : list kop :=
  let l := demo_claimed (demo_store ops) at_ in
  ops ++ K_claim "keeper-1" keeper_payer 84532 (30 * Second) (demo_time at_) "token-0123456789abcdef" ∅ :: f l ++ [K_release l].

Definition demo_attempt (l : KeeperLease) (number nonce : Z) (fee : KeeperFee) (h : string) (at_ : Z) : KeeperAttempt :=
  mkKeeperAttempt (kj_JobID (kl_Job l)) number nonce keeper_payer fee (demo_id h) "sealed" "key-1" AttemptPrepared (demo_time at_) 0 "" "" 0.

Definition other_call : ExpiredCall :=
  mkExpired (demo_id "d") demo_org 84532 keeper_escrow (demo_id "e") (demo_time 60) (demo_time 70) (demo_time 90) demo_evidence ["alpha"; "beta"].

Definition demo_enqueued : list kop :=
  [K_organization demo_org; K_enqueue (expired_input "keeper-1" keeper_payer demo_call) (demo_time 90)].
(** One job whose first transaction is underpriced and replaced, and a second job. *)
Definition demo_replaced : list kop :=
  let first := leased 100 (fun l =>
    [K_allocate l 7 (demo_time 101); K_prepared l (demo_attempt l 1 7 keeper_fee "3" 101) (demo_time 102); K_broadcasting l 1 (demo_time 103);
     K_rejected l 1 StateTimedOut ErrBroadcastUnderpriced (demo_time 104)]) demo_enqueued in
  let second := leased 110 (fun l =>
    [K_replacement l (demo_attempt l 1 7 keeper_fee "3" 101) (demo_attempt l 2 7 (mkFee "2000" "20") "4" 111) (demo_time 112);
     K_broadcasting l 2 (demo_time 113); K_submitted l 2 (demo_id "4") (demo_time 114)]) first in
  leased 120 (fun l => [K_allocate l 7 (demo_time 121); K_prepared l (demo_attempt l 1 8 keeper_fee "5" 121) (demo_time 122)])
    (second ++ [K_enqueue (expired_input "keeper-1" keeper_payer other_call) (demo_time 115)]).

Definition attempt_at (c : ExpiredCall) (n : Z) : string * Z := (expiredJobID c, n).
Definition found_attempt (k : string * Z) : option (Z * string) := (fun a => (ka_Nonce a, ka_GasPayer a)) <$> kt_attempts (demo_store demo_replaced) !! k.

Lemma found_attempt_some k n p : found_attempt k = Some (n, p) -> exists a, kt_attempts (demo_store demo_replaced) !! k = Some a /\ ka_GasPayer a = p.
Proof. unfold found_attempt. generalize (kt_attempts (demo_store demo_replaced)). intros m (a & Ha & [= _ ->])%fmap_Some. by exists a. Qed.

Lemma demo_attempts :
  found_attempt (attempt_at demo_call 1) = Some (7, keeper_payer) /\ found_attempt (attempt_at demo_call 2) = Some (7, keeper_payer) /\
  found_attempt (attempt_at other_call 1) = Some (8, keeper_payer).
Proof. vm_compute. by split_and!. Qed.

(** The two attempts of the first job share nonce 7 and the second pays more. *)
Lemma keeper_nonce_per_job_witness :
  exists a b, kt_attempts (demo_store demo_replaced) !! attempt_at demo_call 1 = Some a /\ kt_attempts (demo_store demo_replaced) !! attempt_at demo_call 2 = Some b /\
    (ka_Nonce a = ka_Nonce b <-> ka_JobID a = ka_JobID b) /\ 1 <= ka_Number a <= 4 /\
    (ka_JobID a = ka_JobID b -> ka_Number a < ka_Number b -> strictlyBumped (ka_Fee a) (ka_Fee b) = true).
Proof.
  destruct demo_attempts as (H1 & H2 & _). destruct (found_attempt_some _ _ _ H1) as (a & Ha & Pa). destruct (found_attempt_some _ _ _ H2) as (b & Hb & Pb).
  exists a, b. split; [exact Ha|]. split; [exact Hb|].
  apply (keeper_nonce_per_job micro demo_replaced (attempt_at demo_call 1) (attempt_at demo_call 2) a b Ha Hb).
  exact (eq_trans Pa (eq_sym Pb)).
Defined.

(** A refund whose window closes while its worker has a nonce and no transaction yet. *)
Definition bearer_input : EnqueueInput :=
  mkEnqueue (demo_id "8") (demo_id "9") demo_org ActionRefund 84532 "keeper-1" keeper_payer keeper_escrow "0" "refund" (canonicalPayloadHash "refund")
    demo_evidence "handle-0123456789abcdef" ("0x" +:+ str_repeat "3" 40) (demo_time 80) (demo_time 200) (demo_time 90) "" 0 1.
Definition demo_stranded : list kop :=
  leased 210 (fun l => [K_dead_letter l ErrSignatureUnavailable (demo_time 211)])
    (leased 100 (fun l => [K_allocate l 7 (demo_time 101)]) [K_organization demo_org; K_enqueue bearer_input (demo_time 90)]).
Definition job_at (t : ktables) (id : string) : option (KeeperState * Z * option Z) :=
  (fun r => (kj_State (jr_job r), kj_AttemptCount (jr_job r), jr_nonce r)) <$> kt_jobs t !! id.

Lemma job_at_some t id s n p :
  job_at t id = Some (s, n, p) -> exists row, kt_jobs t !! id = Some row /\ kj_State (jr_job row) = s /\ kj_AttemptCount (jr_job row) = n /\ jr_nonce row = p.
Proof. unfold job_at. intros (row & Hr & [= -> -> ->])%fmap_Some. by exists row. Qed.

Lemma demo_stranded_job : job_at (demo_store demo_stranded) (demo_id "8") = Some (StateDeadLetter, 0, Some 7).
Proof. vm_compute. done. Qed.

Lemma dead_letter_strands_nonce_witness :
  exists row, kt_jobs (demo_store demo_stranded) !! demo_id "8" = Some row /\
    exists next, kt_sequences (demo_store (demo_stranded ++ demo_replaced)) !! seq_key (jr_job row) = Some next /\ 7 < next.
Proof.
  destruct (job_at_some _ _ _ _ _ demo_stranded_job) as (row & Hr & S1 & S2 & S3). exists row. split; [exact Hr|].
  rewrite foldl_app.
  exact (proj1 (proj2 (dead_letter_strands_nonce micro demo_stranded demo_replaced (demo_id "8") row 7 Hr S1 S2 S3))).
Defined.
