(* ===== verification/CanonicalJSON.v ===== *)
(** * Canonical JSON ([internal/ascpevents/event.go], [pkg/escrowcall/canonical.go])

    JSON values as [encoding/json] decodes them with [UseNumber], its decoder, and the
    restricted RFC 8785 writer that events, checkpoints and escrow calls are hashed under.
    A decoded object is a Go map: a list of members without duplicate keys, whose order no
    operation observes. *)
From stdpp Require Import base gmap strings list sorting.
From Stdlib Require Import ZArith Lia Ascii.
From S2P Require Import Prelude GoText GoJSON.

Open Scope Z_scope.

Inductive jval :=
| JNull
| JBool (b : bool)
| JNum (text : string)
| JStr (s : string)
| JArr (l : list jval)
| JObj (l : list (string * jval)).

Section jval_ind.
Variable P : jval -> Prop.
Hypothesis HNull : P JNull.
Hypothesis HBool : forall b, P (JBool b).
Hypothesis HNum : forall t, P (JNum t).
Hypothesis HStr : forall s, P (JStr s).
Hypothesis HArr : forall l, Forall P l -> P (JArr l).
Hypothesis HObj : forall l, Forall (fun m => P m.2) l -> P (JObj l).
Fixpoint jval_nested_ind (v : jval) : P v :=
  match v with
  | JNull => HNull
  | JBool b => HBool b
  | JNum t => HNum t
  | JStr s => HStr s
  | JArr l => HArr l ((fix go l : Forall P l := match l with [] => Forall_nil_2 _ | x :: l => Forall_cons_2 _ _ _ (jval_nested_ind x) (go l) end) l)
  | JObj l =>
      HObj l ((fix go l : Forall (fun m => P m.2) l :=
                 match l with [] => Forall_nil_2 _ | m :: l => Forall_cons_2 _ _ _ (jval_nested_ind m.2) (go l) end) l)
  end.
End jval_ind.

(** ** The order of keys: UTF-16 code units *)

Definition code_point (r : rune) : Z :=
  match r with
  | R1 a => code a
  | R2 a b => (code a - 192) * 64 + (code b - 128)
  | R3 a b c => (code a - 224) * 4096 + (code b - 128) * 64 + (code c - 128)
  | R4 a b c d => (code a - 240) * 262144 + (code b - 128) * 4096 + (code c - 128) * 64 + (code d - 128)
  | RBad _ => 65533
  end.
Definition utf16_units (p : Z) : list Z :=
  if p <? 65536 then [p] else [55296 + (p - 65536) / 1024; 56320 + (p - 65536) mod 1024].
(** [utf16.Encode([]rune(s))] *)
Definition utf16 (s : string) : list Z := concat (map (fun r => utf16_units (code_point r)) (runes (chars s))).

Fixpoint units_less (l r : list Z) : bool :=
  match l, r with
  | x :: l, y :: r => if x =? y then units_less l r else x <? y
  | [], _ :: _ => true
  | _, [] => false
  end.
Definition utf16Less (left right : string) : bool := units_less (utf16 left) (utf16 right).

Definition member_le {A} (x y : string * A) : Prop := negb (utf16Less y.1 x.1).
#[export] Instance member_le_dec {A} (x y : string * A) : Decision (member_le x y).
Proof. unfold member_le. apply _. Defined.

(** ** The writer *)

Definition ErrCanonical : error := "invalid ASCP event".
Definition maxSafeJSONInteger : Z := 9007199254740991.

Definition canonical_byte (c : ascii) : string :=
  let z := code c in
  if (z =? 34) || (z =? 92) then String (char_of 92) (String c "")
  else if z =? 8 then backslash +:+ "b"
  else if z =? 9 then backslash +:+ "t"
  else if z =? 10 then backslash +:+ "n"
  else if z =? 12 then backslash +:+ "f"
  else if z =? 13 then backslash +:+ "r"
  else if z <? 32 then backslash +:+ "u00" +:+ hex2 z
  else String c "".
Definition writeCanonicalString (s : string) : string := quote +:+ str_concat (map canonical_byte (chars s)) +:+ quote.

(** The text of a non-negative integer that a double holds exactly. *)
Definition canonical_number (text : string) : bool :=
  match SetString10 text with None => false | Some n => (0 <=? n) && (n <=? maxSafeJSONInteger) && bool_decide (dec_string n = text) end.

Fixpoint write_members (l : list (string * string)) : list string :=
  match l with [] => [] | (k, v) :: l => (writeCanonicalString k +:+ ":" +:+ v) :: write_members l end.
Definition write_object (l : list (string * string)) : string := "{" +:+ json_elements (write_members l) +:+ "}".

(** All the results, or the first error. *)
Section TryMap.
Context {A B : Type} (f : A -> res B).
Fixpoint try_map (l : list A) : res (list B) :=
  match l with [] => Ok [] | x :: l => try y := f x in try r := try_map l in Ok (y :: r) end.
End TryMap.

Fixpoint writeCanonical (v : jval) (depth : Z) : res string :=
  check negb (128 <? depth) else ErrCanonical ;;
  match v with
  | JNull => Ok "null"
  | JBool b => Ok (json_bool b)
  | JStr s => check valid_utf8 s else ErrCanonical ;; Ok (writeCanonicalString s)
  | JNum t => check canonical_number t else ErrCanonical ;; Ok t
  | JArr l =>
      try items := try_map (fun x => writeCanonical x (depth + 1)) l in
      Ok (json_array items)
  | JObj l =>
      check forallb (fun m => valid_utf8 m.1) l else ErrCanonical ;;
      try members := try_map (fun m => try t := writeCanonical m.2 (depth + 1) in Ok (m.1, t)) l in
      Ok (write_object (merge_sort member_le members))
  end.

(** ** The decoder of [encoding/json] *)

Definition is_ws (c : ascii) : bool := (code c =? 32) || (code c =? 9) || (code c =? 10) || (code c =? 13).
Fixpoint skip_ws (l : list ascii) : list ascii := match l with c :: r => if is_ws c then skip_ws r else l | [] => [] end.

(** [utf8.EncodeRune] *)
Definition utf8_encode (p : Z) : list ascii :=
  if p <? 128 then [char_of p]
  else if p <? 2048 then [char_of (192 + p / 64); char_of (128 + p mod 64)]
  else if p <? 65536 then [char_of (224 + p / 4096); char_of (128 + p / 64 mod 64); char_of (128 + p mod 64)]
  else [char_of (240 + p / 262144); char_of (128 + p / 4096 mod 64); char_of (128 + p / 64 mod 64); char_of (128 + p mod 64)].
Definition replacement : list ascii := utf8_encode 65533.

Definition hex4 (a b c d : ascii) : option Z :=
  match unhex a b, unhex c d with Some x, Some y => Some (256 * x + y) | _, _ => None end.
Definition is_high (u : Z) : bool := between 55296 56319 u.
Definition is_low (u : Z) : bool := between 56320 57343 u.
Definition short_escape (z : Z) : option ascii :=
  if (z =? 34) || (z =? 92) || (z =? 47) then Some (char_of z)
  else if z =? 98 then Some (char_of 8)
  else if z =? 102 then Some (char_of 12)
  else if z =? 110 then Some (char_of 10)
  else if z =? 114 then Some (char_of 13)
  else if z =? 116 then Some (char_of 9)
  else None.

Definition cons_bytes (bs : list ascii) (r : option (list ascii * list ascii)) : option (list ascii * list ascii) :=
  match r with Some (s, rest) => Some (bs ++ s, rest) | None => None end.

(** The bytes of a string after its opening quote, and what follows its closing one. A
    surrogate that is not followed by its other half is replaced. *)
Fixpoint p_string (l : list ascii) : option (list ascii * list ascii) :=
  match l with
  | [] => None
  | c :: l1 =>
      if code c =? 34 then Some ([], l1)
      else if code c <? 32 then None
      else if code c =? 92 then
        match l1 with
        | [] => None
        | e :: l2 =>
            if code e =? 117 then
              match l2 with
              | a :: b :: c' :: d :: l6 =>
                  match hex4 a b c' d with
                  | None => None
                  | Some u =>
                      if is_high u then
                        match l6 with
                        | s :: t :: a' :: b' :: c'' :: d' :: l12 =>
                            if (code s =? 92) && (code t =? 117) then
                              match hex4 a' b' c'' d' with
                              | None => None
                              | Some u' =>
                                  if is_low u' then cons_bytes (utf8_encode (65536 + (u - 55296) * 1024 + (u' - 56320))) (p_string l12)
                                  else cons_bytes replacement (p_string l6)
                              end
                            else cons_bytes replacement (p_string l6)
                        | _ => cons_bytes replacement (p_string l6)
                        end
                      else if is_low u then cons_bytes replacement (p_string l6)
                      else cons_bytes (utf8_encode u) (p_string l6)
                  end
              | _ => None
              end
            else match short_escape (code e) with Some x => cons_bytes [x] (p_string l2) | None => None end
        end
      else cons_bytes [c] (p_string l1)
  end.

Fixpoint take_digits (l : list ascii) : list ascii * list ascii :=
  match l with c :: r => if is_digit c then let (ds, rest) := take_digits r in (c :: ds, rest) else ([], l) | [] => ([], []) end.
(** One digit or more. *)
Definition some_digits (l : list ascii) : option (list ascii * list ascii) :=
  match take_digits l with ([], _) => None | r => Some r end.
Definition p_integer (l : list ascii) : option (list ascii * list ascii) :=
  match l with
  | c :: r => if code c =? 48 then Some ([c], r) else some_digits l
  | [] => None
  end.
Definition p_fraction (l : list ascii) : option (list ascii * list ascii) :=
  match l with
  | c :: r => if code c =? 46 then match some_digits r with Some (ds, rest) => Some (c :: ds, rest) | None => None end else Some ([], l)
  | [] => Some ([], [])
  end.
Definition p_exponent (l : list ascii) : option (list ascii * list ascii) :=
  match l with
  | c :: r =>
      if (code c =? 101) || (code c =? 69) then
        match r with
        | s :: r' =>
            if (code s =? 43) || (code s =? 45) then match some_digits r' with Some (ds, rest) => Some (c :: s :: ds, rest) | None => None end
            else match some_digits r with Some (ds, rest) => Some (c :: ds, rest) | None => None end
        | [] => None
        end
      else Some ([], l)
  | [] => Some ([], [])
  end.
Definition p_number (l : list ascii) : option (list ascii * list ascii) :=
  let (sign, l) := match l with c :: r => if code c =? 45 then ([c], r) else ([], l) | [] => ([], []) end in
  match p_integer l with
  | None => None
  | Some (i, l) =>
      match p_fraction l with
      | None => None
      | Some (f, l) => match p_exponent l with None => None | Some (e, l) => Some (sign ++ i ++ f ++ e, l) end
      end
  end.

Fixpoint p_literal (word l : list ascii) : option (list ascii) :=
  match word, l with
  | [], _ => Some l
  | w :: word, c :: l => if code w =? code c then p_literal word l else None
  | _, [] => None
  end.

(** A later member replaces an earlier one with its key. *)
Fixpoint put_member (k : string) (v : jval) (l : list (string * jval)) : list (string * jval) :=
  match l with
  | [] => [(k, v)]
  | (k', v') :: l => if bool_decide (k' = k) then (k, v) :: l else (k', v') :: put_member k v l
  end.
Definition members_of (l : list (string * jval)) : list (string * jval) := foldl (fun m p => put_member p.1 p.2 m) [] l.

Definition maxNestingDepth : Z := 10000.

(** [depth] containers are open; the fuel is a bound on the calls. *)
Fixpoint p_value (fuel : nat) (depth : Z) (l : list ascii) : option (jval * list ascii) :=
  match fuel with
  | O => None
  | S fuel =>
      match skip_ws l with
      | [] => None
      | c :: r =>
          if code c =? 34 then match p_string r with Some (s, r) => Some (JStr (utf8_coerce (str_of s)), r) | None => None end
          else if code c =? 91 then
            if maxNestingDepth <=? depth then None else
            match skip_ws r with
            | [] => None
            | d :: r' =>
                if code d =? 93 then Some (JArr [], r')
                else match p_elements fuel (depth + 1) r with Some (items, r) => Some (JArr items, r) | None => None end
            end
          else if code c =? 123 then
            if maxNestingDepth <=? depth then None else
            match skip_ws r with
            | [] => None
            | d :: r' =>
                if code d =? 125 then Some (JObj [], r')
                else match p_members fuel (depth + 1) r with Some (items, r) => Some (JObj (members_of items), r) | None => None end
            end
          else if code c =? 116 then match p_literal (chars "true") (c :: r) with Some r => Some (JBool true, r) | None => None end
          else if code c =? 102 then match p_literal (chars "false") (c :: r) with Some r => Some (JBool false, r) | None => None end
          else if code c =? 110 then match p_literal (chars "null") (c :: r) with Some r => Some (JNull, r) | None => None end
          else match p_number (c :: r) with Some (t, r) => Some (JNum (str_of t), r) | None => None end
      end
  end
with p_elements (fuel : nat) (depth : Z) (l : list ascii) : option (list jval * list ascii) :=
  match fuel with
  | O => None
  | S fuel =>
      match p_value fuel depth l with
      | None => None
      | Some (v, r) =>
          match skip_ws r with
          | [] => None
          | c :: r =>
              if code c =? 44 then match p_elements fuel depth r with Some (vs, r) => Some (v :: vs, r) | None => None end
              else if code c =? 93 then Some ([v], r)
              else None
          end
      end
  end
with p_members (fuel : nat) (depth : Z) (l : list ascii) : option (list (string * jval) * list ascii) :=
  match fuel with
  | O => None
  | S fuel =>
      match skip_ws l with
      | [] => None
      | q :: r =>
          if negb (code q =? 34) then None else
          match p_string r with
          | None => None
          | Some (k, r) =>
              match skip_ws r with
              | [] => None
              | colon :: r =>
                  if negb (code colon =? 58) then None else
                  match p_value fuel depth r with
                  | None => None
                  | Some (v, r) =>
                      let m := (utf8_coerce (str_of k), v) in
                      match skip_ws r with
                      | [] => None
                      | c :: r =>
                          if code c =? 44 then match p_members fuel depth r with Some (ms, r) => Some (m :: ms, r) | None => None end
                          else if code c =? 125 then Some ([m], r)
                          else None
                      end
                  end
              end
          end
      end
  end.

Definition json_fuel (l : list ascii) : nat := 2 * length l + 2.

(** [Decode] of one value, then the end of the input. *)
Definition decode_json (raw : string) : option jval :=
  let l := chars raw in
  match p_value (json_fuel l) 0 l with
  | Some (v, r) => match skip_ws r with [] => Some v | _ => None end
  | None => None
  end.

(** [canonicalJSON] of a [json.RawMessage]: its own canonical form. *)
Definition canonical_raw (raw : string) : res string :=
  match decode_json raw with
  | None => Err ErrCanonical
  | Some v => try out := writeCanonical v 0 in check bool_decide (out = raw) else ErrCanonical ;; Ok out
  end.
(** [canonicalJSON] of another value, from what [json.Marshal] wrote for it. *)
Definition canonical_marshalled (raw : string) : res string :=
  match decode_json raw with None => Err ErrCanonical | Some v => writeCanonical v 0 end.

(** ** The writer of escrow calls ([pkg/escrowcall]) *)

Definition regexpCanonicalInteger (v : string) : bool :=
  bool_decide (v = "0") || match v with EmptyString => false | String c r => between 49 57 (code c) && str_all is_digit r end.
Definition ErrNonCanonical : error := "value is outside the escrow-call JCS profile".

Fixpoint escrow_writeCanonical (v : jval) : res string :=
  match v with
  | JNull => Ok "null"
  | JBool b => Ok (json_bool b)
  | JStr s => check valid_utf8 s else ErrNonCanonical ;; Ok (writeCanonicalString s)
  | JNum t =>
      check regexpCanonicalInteger t else ErrNonCanonical ;;
      match SetString10 t with
      | None => Err ErrNonCanonical
      | Some n => check (0 <=? n) && (n <=? maxSafeJSONInteger) else ErrNonCanonical ;; Ok t
      end
  | JArr l =>
      try items := try_map escrow_writeCanonical l in
      Ok (json_array items)
  | JObj l =>
      check forallb (fun m => valid_utf8 m.1) l else ErrNonCanonical ;;
      try members := try_map (fun m => try t := escrow_writeCanonical m.2 in Ok (m.1, t)) l in
      Ok (write_object (merge_sort member_le members))
  end.
