(* ===== verification/CanonicalTheorems.v ===== *)
(** * Canonical JSON: one text per value

    The writer's output does not depend on the order of a map, decodes to the value it was
    written for, and is therefore different for different values. *)
From stdpp Require Import base gmap strings list sorting.
From Stdlib Require Import ZArith Lia Ascii.
From S2P Require Import Prelude GoText GoJSON Amounts CanonicalJSON.

Open Scope Z_scope.

(** ** The order of keys *)

Lemma units_less_irrefl l : units_less l l = false.
Proof. induction l as [|x l IH]; cbn; [done|]. by rewrite Z.eqb_refl. Qed.

Lemma units_less_asym l : forall r, units_less l r = true -> units_less r l = false.
Proof.
  induction l as [|x l IH]; intros [|y r]; cbn; try done. rewrite (Z.eqb_sym y x). destruct (x =? y) eqn:E; [auto|]. intros. to_prop. lia.
Qed.

Lemma units_less_total l : forall r, units_less l r = false -> units_less r l = false -> l = r.
Proof.
  induction l as [|x l IH]; intros [|y r]; cbn; try done. rewrite (Z.eqb_sym y x). destruct (x =? y) eqn:E; to_prop; [intros; subst; f_equal; auto|lia].
Qed.

Lemma units_le_trans l : forall m r, units_less m l = false -> units_less r m = false -> units_less r l = false.
Proof.
  induction l as [|x l IH]; intros [|y m] [|z r]; cbn; try done.
  destruct (y =? x) eqn:E1, (z =? y) eqn:E2, (z =? x) eqn:E3; to_prop; try lia; eauto.
Qed.

#[export] Instance member_le_total {A} : Total (@member_le A).
Proof.
  intros x y. unfold member_le, utf16Less. destruct (units_less (utf16 y.1) (utf16 x.1)) eqn:E; [right|by left]. by rewrite (units_less_asym _ _ E).
Qed.
#[export] Instance member_le_trans {A} : Transitive (@member_le A).
Proof.
  intros x y z. unfold member_le, utf16Less. rewrite !negb_True. intros Hx Hy Hz. apply Is_true_true in Hz.
  rewrite (units_le_trans (utf16 x.1) (utf16 y.1) (utf16 z.1)) in Hz; [done| |]; by apply Is_true_false.
Qed.

(** *** Valid texts are determined by their code units *)

(** The parts of a rune from its code point. *)
Ltac rune_arith :=
  unfold rune_wf, seq2, seq3, seq4, cont, is_ascii, between, code_point in *; to_prop;
  repeat match goal with c : ascii |- _ => lazymatch goal with H : 0 <= code c < 256 |- _ => fail | _ => pose proof (code_range c) end end.

Lemma code_point_inj r r' : rune_wf r = true -> rune_wf r' = true -> code_point r = code_point r' -> r = r'.
Proof.
  intros W W' E. destruct r, r'; rune_arith; try lia; try (f_equal; apply code_inj; lia).
Qed.

Definition scalar (p : Z) : Prop := 0 <= p < 55296 \/ 57344 <= p < 1114112.

Lemma code_point_scalar r : rune_wf r = true -> scalar (code_point r).
Proof. intros W. unfold scalar. destruct r; rune_arith; lia. Qed.

Lemma units_head p p' X X' : scalar p -> scalar p' -> utf16_units p ++ X = utf16_units p' ++ X' -> p = p' /\ X = X'.
Proof.
  intros S S'. unfold scalar, utf16_units in *. destruct (p <? 65536) eqn:E, (p' <? 65536) eqn:E'; to_prop; cbn; intros [=]; subst.
  - done.
  - exfalso. pose proof (Z.div_lt_upper_bound (p' - 65536) 1024 1024). pose proof (Z.div_pos (p' - 65536) 1024). lia.
  - exfalso. pose proof (Z.div_lt_upper_bound (p - 65536) 1024 1024). pose proof (Z.div_pos (p - 65536) 1024). lia.
  - split; [|done]. pose proof (Z.div_mod (p - 65536) 1024). pose proof (Z.div_mod (p' - 65536) 1024). lia.
Qed.

Lemma utf16_inj s t : valid_utf8 s = true -> valid_utf8 t = true -> utf16 s = utf16 t -> s = t.
Proof.
  unfold valid_utf8. intros Vs Vt E. rewrite <-(utf8_coerce_valid s), <-(utf8_coerce_valid t) by done. unfold utf8_coerce. do 3 f_equal.
  apply runes_wf in Vs, Vt. unfold utf16 in E. revert E Vs Vt. generalize (runes (chars s)) as rs, (runes (chars t)) as ts.
  assert (Hne : forall p, utf16_units p <> []) by (intros p; unfold utf16_units; by case_match).
  induction rs as [|r rs IH]; intros [|r' ts] E Vs Vt; cbn in *; [done| | |].
  - by destruct (utf16_units _) eqn:H in E; [apply Hne in H|].
  - by destruct (utf16_units _) eqn:H in E; [apply Hne in H|].
  - to_prop. destruct Vs as [W Vs], Vt as [W' Vt]. apply units_head in E as [E1 E2]; [|by apply code_point_scalar..].
    f_equal; [by apply code_point_inj|]. by apply IH.
Qed.

(** ** Sorted members *)

Definition keys_ok {A} (l : list (string * A)) : Prop := NoDup l.*1 /\ Forall (fun m => valid_utf8 m.1 = true) l.

Lemma keys_ok_perm {A} (l l' : list (string * A)) : l ≡ₚ l' -> keys_ok l -> keys_ok l'.
Proof. intros P [N V]. split; by rewrite <-P. Qed.

Lemma keys_ok_map {A B} (f : string * A -> string * B) l : (forall m, (f m).1 = m.1) -> keys_ok l -> keys_ok (map f l).
Proof.
  intros Hf [N V]. split.
  - change (map f l) with (f <$> l). rewrite <-list_fmap_compose. erewrite list_fmap_ext; [exact N|]. intros i m _. apply Hf.
  - apply Forall_map. eapply Forall_impl; [exact V|]. intros m. cbn. by rewrite Hf.
Qed.

Lemma nodup_fst {A} (l : list (string * A)) x y : NoDup l.*1 -> x ∈ l -> y ∈ l -> x.1 = y.1 -> x = y.
Proof.
  intros N Hx Hy E. destruct x as [k a], y as [k' b]. cbn in E. subst k'. f_equal.
  apply list_elem_of_lookup in Hx as [i Hi]. apply list_elem_of_lookup in Hy as [j Hj].
  assert (i = j) as ->. { eapply NoDup_lookup; [exact N|rewrite list_lookup_fmap, Hi; done|rewrite list_lookup_fmap, Hj; done]. }
  congruence.
Qed.

(** Two sorted arrangements of the same members are one. *)
Lemma sorted_members {A} (l1 l2 : list (string * A)) : keys_ok l1 -> Sorted member_le l1 -> Sorted member_le l2 -> l1 ≡ₚ l2 -> l1 = l2.
Proof.
  intros [N V] S1 S2 P. eapply (Sorted_unique_strong member_le); [|done..]. intros x y Hx Hy Hxy Hyx. rewrite <-P in Hy.
  eapply nodup_fst; [exact N|done..|]. rewrite Forall_forall in V. apply utf16_inj; [by apply V..|].
  unfold member_le, utf16Less in *. apply units_less_total; [by apply Is_true_false, negb_True|by apply Is_true_false, negb_True].
Qed.

Lemma sort_perm {A} (l l' : list (string * A)) : keys_ok l -> l ≡ₚ l' -> merge_sort member_le l = merge_sort member_le l'.
Proof.
  intros K P. apply sorted_members; [|apply (Sorted_merge_sort _)..|].
  - eapply keys_ok_perm, K. symmetry. apply (merge_sort_Permutation _).
  - by rewrite !(merge_sort_Permutation _).
Qed.

Lemma sort_map {A B} (f : string * A -> string * B) l :
  (forall m, (f m).1 = m.1) -> keys_ok l -> merge_sort member_le (map f l) = map f (merge_sort member_le l).
Proof.
  intros Hf K. apply sorted_members.
  - eapply keys_ok_perm; [symmetry; apply (merge_sort_Permutation _)|by apply keys_ok_map].
  - apply (Sorted_merge_sort _).
  - pose proof (Sorted_merge_sort member_le l) as S. revert S. generalize (merge_sort member_le l) as m. induction 1 as [|x m S IH Hd]; cbn; constructor; [done|].
    inversion Hd; cbn; constructor. unfold member_le in *. by rewrite !Hf.
  - rewrite (merge_sort_Permutation _). change (map f) with (fmap f : list _ -> list _). by rewrite (merge_sort_Permutation _).
Qed.

(** ** Texts and their parses *)

Section AllOf.
Context {A : Type} (P : A -> Prop).
Fixpoint all_of (l : list A) : Prop := match l with [] => True | x :: l => P x /\ all_of l end.
End AllOf.
Lemma all_of_Forall {A} (P : A -> Prop) l : all_of P l <-> Forall P l.
Proof. induction l as [|x l IH]; cbn; [split; [constructor|done]|]. rewrite Forall_cons. tauto. Qed.

(** Objects have one member per key, as Go maps do. *)
Fixpoint jval_wf (v : jval) : Prop :=
  match v with
  | JArr l => all_of jval_wf l
  | JObj l => NoDup l.*1 /\ all_of (fun m => jval_wf m.2) l
  | _ => True
  end.

(** The value with the members of its objects in the order of their keys. *)
Fixpoint normalize (v : jval) : jval :=
  match v with
  | JArr l => JArr (map normalize l)
  | JObj l => JObj (merge_sort member_le (map (fun m => (m.1, normalize m.2)) l))
  | v => v
  end.

Lemma try_map_ok {A B} (f : A -> res B) l : forall r, try_map f l = Ok r <-> Forall2 (fun x y => f x = Ok y) l r.
Proof.
  induction l as [|x l IH]; intros r; cbn.
  - split; [intros [= <-]; constructor|by inversion 1].
  - split.
    + intros (y & Hy & H)%try_ok_iff. apply try_ok_iff in H as (ys & Hys & [= <-]). constructor; [done|by apply IH].
    + inversion 1; subst. apply try_ok_iff. eexists. split; [done|]. apply try_ok_iff. eexists. split; [by apply IH|done].
Qed.

Definition text_ends (X : list ascii) : bool := match X with [] => true | c :: _ => (code c =? 44) || (code c =? 93) || (code c =? 125) end.

Lemma skip_ws_ends X : text_ends X = true -> skip_ws X = X.
Proof.
  destruct X as [|c X]; [done|]. cbn. intros H. destruct (is_ws c) eqn:E; [|done]. exfalso. unfold is_ws in E. to_prop. lia.
Qed.

(** *** Strings *)

Lemma p_canonical_byte c Y : p_string (chars (canonical_byte c) ++ Y) = cons_bytes [c] (p_string Y).
Proof. destruct c as [[] [] [] [] [] [] [] []]; reflexivity. Qed.

Lemma p_canonical_string s X : p_string (chars (str_concat (map canonical_byte (chars s))) ++ char_of 34 :: X) = Some (chars s, X).
Proof.
  induction (chars s) as [|c l IH]; [reflexivity|]. cbn [map str_concat]. rewrite chars_app, <-app_assoc, p_canonical_byte, IH. done.
Qed.

Lemma canonical_string_chars s Y :
  chars (writeCanonicalString s) ++ Y = char_of 34 :: chars (str_concat (map canonical_byte (chars s))) ++ char_of 34 :: Y.
Proof. unfold writeCanonicalString. rewrite !chars_app, <-!app_assoc. done. Qed.

Lemma coerce_back s : valid_utf8 s = true -> utf8_coerce (str_of (chars s)) = s.
Proof. intros V. rewrite str_of_chars. by apply utf8_coerce_valid. Qed.

(** *** Numbers *)

Lemma regexp_canonical v : regexpCanonicalInteger v = canonical_decimal v.
Proof.
  unfold regexpCanonicalInteger, canonical_decimal. destruct v as [|c r]; [done|]. destruct (decide (String c r = "0")) as [->|Hd]; [done|].
  rewrite bool_decide_eq_false_2 by done. apply eq_true_iff_eq. unfold is_digit, between. destruct r as [|c' r]; cbn; to_prop.
  - split.
    + intros [Hc _]. split; [by split|]. split; [lia|done].
    + intros [_ [Hc _]]. split; [|done]. destruct (decide (code c = 48)) as [E|E]; [|lia]. destruct Hd. change "0" with (String (char_of 48) "").
      f_equal. apply code_inj. by rewrite E.
  - split.
    + intros [Hc Hr]. split; [split; [done|lia]|]. split; [lia|done].
    + intros [[_ Hz] [Hc Hr]]. split; [lia|done].
Qed.

Lemma dec_string_regexp n : 0 <= n -> regexpCanonicalInteger (dec_string n) = true.
Proof. rewrite regexp_canonical. apply dec_string_canonical. Qed.

Lemma canonical_number_spec t : canonical_number t = true <-> exists n, 0 <= n <= maxSafeJSONInteger /\ t = dec_string n.
Proof.
  unfold canonical_number. split.
  - destruct (SetString10 t) as [n|]; [|done]. intros. to_prop. exists n. split; [lia|]. by destruct H as [_ <-].
  - intros (n & Hn & ->). rewrite SetString10_dec_string by lia. rewrite bool_decide_eq_true_2 by done. rewrite andb_true_r. apply andb_true_iff. to_prop. lia.
Qed.

Lemma take_digits_all l X : forallb is_digit l = true -> text_ends X = true -> take_digits (l ++ X) = (l, X).
Proof.
  intros Hl HX. induction l as [|c l IH]; cbn in *.
  - destruct X as [|c X]; [done|]. cbn in *. destruct (is_digit c) eqn:E; [|done]. unfold is_digit, between in E. to_prop. lia.
  - apply andb_true_iff in Hl as [-> Hl]. by rewrite IH.
Qed.

Lemma p_number_canonical t X : regexpCanonicalInteger t = true -> text_ends X = true -> p_number (chars t ++ X) = Some (chars t, X).
Proof.
  intros Ht HX.
  assert (Htail : p_fraction X = Some ([], X) /\ p_exponent X = Some ([], X)).
  { destruct X as [|c X]; [done|]. unfold p_fraction, p_exponent. cbn in HX.
    destruct (code c =? 46) eqn:E1; [to_prop; lia|]. destruct ((code c =? 101) || (code c =? 69)) eqn:E2; [to_prop; lia|done]. }
  destruct Htail as [Hf He]. unfold regexpCanonicalInteger in Ht. apply orb_true_iff in Ht as [Ht|Ht].
  - apply bool_decide_eq_true in Ht as ->. change (chars "0" ++ X) with (char_of 48 :: X). unfold p_number. change (code (char_of 48) =? 45) with false.
    unfold p_integer. change (code (char_of 48) =? 48) with true. cbv iota. by rewrite Hf, He.
  - destruct t as [|c r]; [done|]. apply andb_true_iff in Ht as [Hc Hr]. rewrite str_all_chars in Hr. change (chars (String c r)) with (c :: chars r).
    unfold p_number. cbn [app]. unfold between in Hc. destruct (code c =? 45) eqn:E1; [to_prop; lia|]. unfold p_integer.
    destruct (code c =? 48) eqn:E2; [to_prop; lia|]. unfold some_digits.
    pose proof (take_digits_all (c :: chars r) X) as Htd. cbn [app] in Htd. rewrite Htd; [|cbn; rewrite Hr|done].
    + rewrite Hf, He. cbn. by rewrite app_nil_r.
    + rewrite andb_true_r. unfold is_digit, between. to_prop. lia.
Qed.

(** *** Values *)

(** What follows a text does not change how it is read. *)
Definition parses (d : Z) (v : jval) (text : string) : Prop :=
  forall fuel X, text_ends X = true -> (2 * length (chars text) < fuel)%nat -> p_value fuel d (chars text ++ X) = Some (v, X).

Definition starts (text : string) : Prop := exists c r, chars text = c :: r /\ is_ws c = false /\ code c <> 93 /\ code c <> 125.

Lemma starts_skip text Y : starts text -> skip_ws (chars text ++ Y) = chars text ++ Y.
Proof. intros (c & r & -> & Hw & _). cbn. by rewrite Hw. Qed.

Lemma elements_chars x y l : chars (json_elements (x :: y :: l)) = chars x ++ char_of 44 :: chars (json_elements (y :: l)).
Proof. cbn [json_elements]. by rewrite !chars_app. Qed.

Lemma parse_elements d l items : l <> [] -> Forall2 (parses d) l items ->
  forall fuel X, (2 * length (chars (json_elements items)) + 1 < fuel)%nat ->
  p_elements fuel d (chars (json_elements items) ++ char_of 93 :: X) = Some (l, X).
Proof.
  intros Hne HF. induction HF as [|v t l items Hv HF IH]; [done|]. intros fuel X Hf. destruct fuel as [|fuel]; [lia|]. cbn [p_elements].
  destruct HF as [|v' t' l items Hv' HF].
  - cbn [json_elements] in *. rewrite Hv; [reflexivity|done|lia].
  - rewrite elements_chars in *. rewrite length_app in Hf. cbn [length] in Hf. rewrite <-app_assoc, <-app_comm_cons, Hv by (done || lia).
    change (skip_ws (char_of 44 :: ?Y)) with (char_of 44 :: Y). cbv iota beta. change (code (char_of 44) =? 44) with true. cbv iota.
    rewrite IH; [done|done|lia].
Qed.

Lemma member_chars k t Y :
  chars (writeCanonicalString k +:+ ":" +:+ t) ++ Y =
  char_of 34 :: chars (str_concat (map canonical_byte (chars k))) ++ char_of 34 :: char_of 58 :: chars t ++ Y.
Proof. rewrite chars_app, <-app_assoc, canonical_string_chars. rewrite chars_app, <-app_assoc. done. Qed.

Lemma member_length k t : (length (chars t) + 2 < length (chars (writeCanonicalString k +:+ ":" +:+ t)))%nat.
Proof.
  pose proof (f_equal length (member_chars k t [])) as Hl. rewrite app_nil_r in Hl. rewrite Hl. cbn [length]. rewrite length_app. cbn [length].
  rewrite length_app. lia.
Qed.

Lemma p_members_step fuel d k t Y : valid_utf8 k = true ->
  p_members (S fuel) d (chars (writeCanonicalString k +:+ ":" +:+ t) ++ Y) =
  match p_value fuel d (chars t ++ Y) with
  | None => None
  | Some (v, r) =>
      match skip_ws r with
      | [] => None
      | c :: r =>
          if code c =? 44 then match p_members fuel d r with Some (ms, r) => Some ((k, v) :: ms, r) | None => None end
          else if code c =? 125 then Some ([(k, v)], r)
          else None
      end
  end.
Proof.
  intros Vk. rewrite member_chars. cbn [p_members]. change (skip_ws (char_of 34 :: ?Y)) with (char_of 34 :: Y). cbv iota beta.
  change (negb (code (char_of 34) =? 34)) with false. cbv iota. rewrite p_canonical_string. change (skip_ws (char_of 58 :: ?Y)) with (char_of 58 :: Y).
  cbv iota beta. change (negb (code (char_of 58) =? 58)) with false. cbv iota. by rewrite coerce_back.
Qed.

Lemma parse_members d l w :
  l <> [] -> Forall2 (fun m y => y.1 = m.1 /\ valid_utf8 m.1 = true /\ parses d m.2 y.2) l w ->
  forall fuel X, (2 * length (chars (json_elements (write_members w))) + 1 < fuel)%nat ->
  p_members fuel d (chars (json_elements (write_members w)) ++ char_of 125 :: X) = Some (l, X).
Proof.
  intros Hne HF. induction HF as [|[k v] [k' t] l w (E & Vk & Hv) HF IH]; [done|]. cbn in E. subst k'. cbn [fst snd] in *. intros fuel X Hf.
  destruct fuel as [|fuel]; [lia|]. cbn [write_members] in *. pose proof (member_length k t) as Hm. destruct HF as [|[k2 v2] [k2' t2] l w H2 HF].
  - cbn [write_members json_elements] in *. rewrite p_members_step, Hv by (done || lia). reflexivity.
  - cbn [write_members] in *. rewrite elements_chars in *. rewrite length_app in Hf. cbn [length] in Hf.
    rewrite <-app_assoc, <-app_comm_cons, p_members_step, Hv by (done || lia).
    change (skip_ws (char_of 44 :: ?Y)) with (char_of 44 :: Y). cbv iota beta. change (code (char_of 44) =? 44) with true. cbv iota.
    rewrite IH; [done|done|lia].
Qed.

Lemma put_member_new k v l : k ∉ l.*1 -> put_member k v l = l ++ [(k, v)].
Proof.
  induction l as [|[k' v'] l IH]; cbn; [done|]. rewrite not_elem_of_cons. intros [Hk Hl]. rewrite bool_decide_eq_false_2 by done. by rewrite IH.
Qed.

Lemma members_of_nodup l : NoDup l.*1 -> members_of l = l.
Proof.
  unfold members_of. enough (H : forall acc, NoDup (acc ++ l).*1 -> foldl (fun m p => put_member p.1 p.2 m) acc l = acc ++ l) by apply (H []).
  induction l as [|[k v] l IH]; intros acc N; cbn; [by rewrite app_nil_r|]. rewrite put_member_new.
  - rewrite IH; rewrite <-app_assoc; [done|exact N].
  - rewrite fmap_app, NoDup_app in N. destruct N as (_ & Hd & _). intros Hk. apply (Hd k Hk). cbn. left.
Qed.

Lemma canonical_starts v depth text : writeCanonical v depth = Ok text -> starts text.
Proof.
  assert (Hs : forall c r, is_ws c = false -> code c <> 93 -> code c <> 125 -> starts (String c r)) by (intros c r ???; exists c, (chars r); by split_and!).
  destruct v; cbn [writeCanonical]; rewrite check_ok_iff; intros [_ Hw].
  - injection Hw as <-. by apply Hs.
  - injection Hw as <-. destruct b; by apply Hs.
  - rewrite check_ok_iff in Hw. destruct Hw as [Hn [= <-]]. apply canonical_number_spec in Hn as (n & Hn & ->).
    pose proof (dec_string_regexp n (proj1 Hn)) as Hr. unfold regexpCanonicalInteger in Hr. destruct (dec_string n) as [|c r]; [done|].
    assert (Hc : between 48 57 (code c) = true).
    { apply orb_true_iff in Hr as [Hr|Hr]; [by apply bool_decide_eq_true in Hr as [= -> ->]|]. unfold between in *. to_prop. lia. }
    unfold between in Hc. apply Hs; [|to_prop; lia..]. unfold is_ws. to_prop. lia.
  - rewrite check_ok_iff in Hw. destruct Hw as [_ [= <-]]. by apply Hs.
  - apply try_ok_iff in Hw as (items & _ & [= <-]). by apply Hs.
  - rewrite check_ok_iff in Hw. destruct Hw as [_ Hw]. apply try_ok_iff in Hw as (items & _ & [= <-]). by apply Hs.
Qed.

Lemma literal_parses d word v :
  (word = "true" /\ v = JBool true) \/ (word = "false" /\ v = JBool false) \/ (word = "null" /\ v = JNull) -> parses d v word.
Proof. intros H fuel X HX Hf. destruct fuel as [|fuel]; [lia|]. destruct H as [[-> ->]|[[-> ->]|[-> ->]]]; reflexivity. Qed.

Lemma string_parses d s : valid_utf8 s = true -> parses d (JStr s) (writeCanonicalString s).
Proof.
  intros V fuel X HX Hf. destruct fuel as [|fuel]; [lia|]. rewrite canonical_string_chars. cbn [p_value].
  change (skip_ws (char_of 34 :: ?Y)) with (char_of 34 :: Y). cbv iota beta. change (code (char_of 34) =? 34) with true. cbv iota.
  by rewrite p_canonical_string, coerce_back.
Qed.

Lemma number_parses d n : 0 <= n -> parses d (JNum (dec_string n)) (dec_string n).
Proof.
  intros Hn fuel X HX Hf. destruct fuel as [|fuel]; [lia|]. pose proof (dec_string_regexp n Hn) as Hr.
  pose proof (p_number_canonical _ X Hr HX) as Hp. unfold regexpCanonicalInteger in Hr. cbn [p_value].
  destruct (dec_string n) as [|c r] eqn:E; [done|]. change (chars (String c r) ++ X) with (c :: chars r ++ X) in *.
  assert (Hc : between 48 57 (code c) = true).
  { apply orb_true_iff in Hr as [Hr|Hr]; [by apply bool_decide_eq_true in Hr as [= -> ->]|]. unfold between in *. to_prop. lia. }
  unfold between in Hc. cbn [skip_ws]. replace (is_ws c) with false by (symmetry; unfold is_ws; to_prop; lia). cbv iota.
  repeat match goal with |- context [code c =? ?k] => replace (code c =? k) with false by (symmetry; to_prop; lia) end. cbv iota.
  rewrite Hp. change (c :: chars r) with (chars (String c r)). by rewrite str_of_chars.
Qed.

Lemma array_parses d l items : d < maxNestingDepth -> Forall2 (parses (d + 1)) l items -> Forall starts items -> parses d (JArr l) (json_array items).
Proof.
  intros Hd HF HS fuel X HX Hf. destruct fuel as [|fuel]; [lia|]. unfold json_array in *. rewrite !chars_app in *. rewrite !length_app in Hf. cbn [chars length] in Hf.
  rewrite <-!app_assoc. change (chars "[" ++ ?Y) with (char_of 91 :: Y). change (chars "]" ++ X) with (char_of 93 :: X). cbn [p_value].
  change (skip_ws (char_of 91 :: ?Y)) with (char_of 91 :: Y). cbv iota beta. change (code (char_of 91) =? 34) with false. change (code (char_of 91) =? 91) with true.
  cbv iota. destruct (maxNestingDepth <=? d) eqn:E; [to_prop; lia|]. destruct HF as [|v t l items Hv HF]; [reflexivity|].
  pose proof (Forall_inv HS) as Ht. cbn in Ht. destruct Ht as (c & r & Hc & Hw & H93 & _).
  assert (Hskip : exists Y, chars (json_elements (t :: items)) ++ char_of 93 :: X = c :: Y).
  { destruct items; cbn [json_elements]; rewrite ?chars_app, Hc; cbn; eauto. }
  destruct Hskip as [Y HY]. rewrite HY at 1. cbn [skip_ws]. rewrite Hw. destruct (code c =? 93) eqn:E93; [to_prop; lia|].
  rewrite parse_elements with (l := v :: l); [done|done|by constructor|]. change (length (chars "[")) with 1%nat in Hf. change (length (chars "]")) with 1%nat in Hf. lia.
Qed.

Lemma object_parses d l w :
  d < maxNestingDepth -> NoDup l.*1 -> Forall2 (fun m y => y.1 = m.1 /\ valid_utf8 m.1 = true /\ parses (d + 1) m.2 y.2) l w ->
  parses d (JObj l) (write_object w).
Proof.
  intros Hd N HF fuel X HX Hf. destruct fuel as [|fuel]; [lia|]. unfold write_object in *. rewrite !chars_app in *. rewrite !length_app in Hf.
  change (length (chars "{")) with 1%nat in Hf. change (length (chars "}")) with 1%nat in Hf.
  rewrite <-!app_assoc. change (chars "{" ++ ?Y) with (char_of 123 :: Y). change (chars "}" ++ X) with (char_of 125 :: X). cbn [p_value].
  change (skip_ws (char_of 123 :: ?Y)) with (char_of 123 :: Y). cbv iota beta. change (code (char_of 123) =? 34) with false.
  change (code (char_of 123) =? 91) with false. change (code (char_of 123) =? 123) with true. cbv iota.
  destruct (maxNestingDepth <=? d) eqn:E; [to_prop; lia|]. destruct HF as [|m y l w Hm HF]; [reflexivity|].
  assert (Hskip : exists Y, chars (json_elements (write_members (y :: w))) ++ char_of 125 :: X = char_of 34 :: Y).
  { destruct y as [k t]. cbn [write_members]. destruct (write_members w); [cbn [json_elements]|rewrite elements_chars, <-app_assoc]; rewrite member_chars; eauto. }
  destruct Hskip as [Y HY]. rewrite HY at 1. change (skip_ws (char_of 34 :: Y)) with (char_of 34 :: Y). cbv iota beta. change (code (char_of 34) =? 125) with false. cbv iota.
  rewrite parse_members with (l := m :: l); [by rewrite members_of_nodup|done|by constructor|lia].
Qed.

Lemma depth_ok depth : negb (128 <? depth) = true -> depth <= 128.
Proof. intros. to_prop. lia. Qed.

(** The text of a member under the writer, or nothing. *)
Definition member_text (depth : Z) (m : string * jval) : string * string :=
  (m.1, match writeCanonical m.2 depth with Ok t => t | Err _ => "" end).

Lemma written_members depth l members :
  try_map (fun m => try t := writeCanonical m.2 depth in Ok (m.1, t)) l = Ok members ->
  members = map (member_text depth) l /\ Forall (fun m => exists t, writeCanonical m.2 depth = Ok t) l.
Proof.
  intros HF%try_map_ok. induction HF as [|m y l ys Hy HF IH]; [done|]. destruct IH as [-> IH]. apply try_ok_iff in Hy as (t & Ht & [= <-]).
  cbn. unfold member_text at 2. rewrite Ht. split; [done|]. constructor; [eauto|done].
Qed.

Lemma valid_keys {A} (l : list (string * A)) : forallb (fun m => valid_utf8 m.1) l = true -> Forall (fun m => valid_utf8 m.1 = true) l.
Proof. rewrite forallb_forall, Forall_forall. intros H m Hm. by apply H, list_elem_of_In. Qed.

Lemma written_parses v : forall depth text d, writeCanonical v depth = Ok text -> jval_wf v -> d <= depth -> parses d (normalize v) text.
Proof.
  induction v as [|b|t|s|l IH|l IH] using jval_nested_ind; intros depth text d Hw W Hd; cbn [writeCanonical] in Hw; rewrite check_ok_iff in Hw; destruct Hw as [Hdep Hw];
    apply depth_ok in Hdep; cbn [normalize].
  - injection Hw as <-. apply literal_parses. auto.
  - injection Hw as <-. apply literal_parses. destruct b; cbn; auto.
  - rewrite check_ok_iff in Hw. destruct Hw as [(n & Hn & ->)%canonical_number_spec [= <-]]. apply number_parses. lia.
  - rewrite check_ok_iff in Hw. destruct Hw as [V [= <-]]. by apply string_parses.
  - apply try_ok_iff in Hw as (items & HF%try_map_ok & [= <-]). cbn in W. apply all_of_Forall in W. apply array_parses; [unfold maxNestingDepth; lia| |].
    + revert IH W. clear -HF Hd. induction HF as [|x t l items Hx HF IHF]; intros HI W; constructor; inversion HI; inversion W; subst; [|by apply IHF].
      match goal with IHx : forall _ _ _, _ -> _ |- _ => eapply IHx; [exact Hx|done|lia] end.
    + clear -HF. induction HF; constructor; [by eapply canonical_starts|done].
  - rewrite check_ok_iff in Hw. destruct Hw as [Vk%valid_keys Hw]. apply try_ok_iff in Hw as (members & [-> Ht]%written_members & [= <-]).
    cbn in W. destruct W as [N W]. apply all_of_Forall in W. assert (K : keys_ok l) by done.
    rewrite !sort_map by done. set (sl := merge_sort member_le l). assert (P : sl ≡ₚ l) by apply (merge_sort_Permutation _).
    apply object_parses; [unfold maxNestingDepth; lia| |].
    + apply keys_ok_map; [done|]. by eapply keys_ok_perm.
    + change (map ?f sl) with (f <$> sl). apply Forall2_fmap, Forall_Forall2_diag. rewrite P. rewrite !Forall_forall in *. intros m Hm. cbn. split_and!; [done|by apply Vk|].
      destruct (Ht m Hm) as [t Hwt]. rewrite Hwt. eapply IH; [done|exact Hwt|by apply W|lia].
Qed.

(** ** What the writer guarantees *)

Lemma decode_written v depth text : 0 <= depth -> writeCanonical v depth = Ok text -> jval_wf v -> decode_json text = Some (normalize v).
Proof.
  intros Hd Hw W. unfold decode_json. pose proof (written_parses v depth text 0 Hw W Hd) as Hp. specialize (Hp (json_fuel (chars text)) []).
  rewrite app_nil_r in Hp. rewrite Hp; [done|done|unfold json_fuel; lia].
Qed.

Lemma written_inj v w d e text : 0 <= d -> 0 <= e -> jval_wf v -> jval_wf w -> writeCanonical v d = Ok text -> writeCanonical w e = Ok text -> normalize v = normalize w.
Proof. intros Hd He Wv Ww Hv Hw. apply decode_written in Hv, Hw; [|done..]. congruence. Qed.

Lemma try_map_map {A B C} (f : B -> res C) (g : A -> B) l : try_map f (map g l) = try_map (fun x => f (g x)) l.
Proof. induction l as [|x l IH]; cbn; [done|]. by rewrite IH. Qed.

Lemma try_map_Forall {A B} (f : A -> res B) (g : A -> B) l : Forall (fun x => f x = Ok (g x)) l -> try_map f l = Ok (map g l).
Proof. intros HF. apply try_map_ok. induction HF; constructor; done. Qed.

(** The sorted value has the same text. *)
Lemma write_normalize v : forall depth text, writeCanonical v depth = Ok text -> jval_wf v -> writeCanonical (normalize v) depth = Ok text.
Proof.
  induction v as [|b|t|s|l IH|l IH] using jval_nested_ind; intros depth text Hw W; try exact Hw; cbn [writeCanonical normalize] in *; rewrite check_ok_iff in *;
    destruct Hw as [Hdep Hw]; (split; [done|]).
  - apply try_ok_iff in Hw as (items & HF%try_map_ok & [= <-]). cbn in W. apply all_of_Forall in W. rewrite try_map_map. apply try_ok_iff. exists items. split; [|done].
    apply try_map_ok. revert IH W. clear -HF. induction HF as [|x t l items Hx HF IHF]; intros HI W; constructor; inversion HI; inversion W; subst; [auto|by apply IHF].
  - rewrite check_ok_iff in *. destruct Hw as [Vk Hw]. pose proof (valid_keys _ Vk) as V. apply try_ok_iff in Hw as (members & [-> Ht]%written_members & [= <-]).
    cbn in W. destruct W as [N W]. apply all_of_Forall in W. assert (K : keys_ok l) by done. rewrite !sort_map by done.
    set (sl := merge_sort member_le l). assert (P : sl ≡ₚ l) by apply (merge_sort_Permutation _). split.
    + rewrite forallb_forall. intros m Hm%list_elem_of_In. apply list_elem_of_fmap in Hm as (m' & -> & Hm'). cbn. rewrite P in Hm'. rewrite Forall_forall in V. by apply V.
    + rewrite try_map_map. apply try_ok_iff. exists (map (member_text (depth + 1)) sl). split.
      * apply try_map_Forall. rewrite P, !Forall_forall in *. intros m Hm. cbn. destruct (Ht m Hm) as [t Hwt]. unfold member_text. rewrite Hwt.
        rewrite (IH m Hm _ _ Hwt); [done|by apply W].
      * do 2 f_equal. rewrite sort_map; [|done|by eapply keys_ok_perm]. f_equal. unfold sl. symmetry. apply sort_perm; [done|by symmetry].
Qed.

(** *** Decoded values *)

Lemma put_member_keys k v l : (put_member k v l).*1 = if bool_decide (k ∈ l.*1) then l.*1 else l.*1 ++ [k].
Proof.
  induction l as [|[k' v'] l IH]; cbn [put_member fmap list_fmap fst]; [by rewrite bool_decide_eq_false_2 by apply not_elem_of_nil|].
  destruct (decide (k' = k)) as [->|Hd].
  - rewrite !bool_decide_eq_true_2; [done|left|done].
  - rewrite (bool_decide_eq_false_2 (k' = k)) by done. cbn [fmap list_fmap fst]. fold (fmap (M := list) (@fst string jval)). rewrite IH.
    repeat case_bool_decide; try done; exfalso.
    + match goal with H : ~ _ |- _ => apply H; by right end.
    + match goal with H : k ∈ k' :: _ |- _ => apply elem_of_cons in H as [?|?]; [by subst|done] end.
Qed.

Lemma put_member_nodup k v l : NoDup l.*1 -> NoDup (put_member k v l).*1.
Proof.
  intros N. rewrite put_member_keys. case_bool_decide; [done|]. apply NoDup_app. split_and!; [done| |apply NoDup_singleton]. intros x Hx ->%list_elem_of_singleton. done.
Qed.

Lemma put_member_all (P : jval -> Prop) k v l : P v -> Forall (fun m => P m.2) l -> Forall (fun m => P m.2) (put_member k v l).
Proof. intros Hv HF. induction HF as [|[k' v'] l Hm HF IH]; cbn; [by constructor|]. case_bool_decide; by constructor. Qed.

Lemma members_of_wf l : Forall (fun m => jval_wf m.2) l -> jval_wf (JObj (members_of l)).
Proof.
  intros HF. cbn. rewrite all_of_Forall. unfold members_of.
  enough (H : forall acc, NoDup acc.*1 -> Forall (fun m => jval_wf m.2) acc ->
    NoDup (foldl (fun m p => put_member p.1 p.2 m) acc l).*1 /\ Forall (fun m => jval_wf m.2) (foldl (fun m p => put_member p.1 p.2 m) acc l))
    by (apply H; [constructor|constructor]).
  induction HF as [|m l Hm HF IH]; intros acc N A; cbn; [done|]. apply IH; [by apply put_member_nodup|by apply put_member_all].
Qed.

Ltac p_cases :=
  repeat match goal with
  | H : None = Some _ |- _ => discriminate H
  | H : Some _ = Some _ |- _ => injection H; clear H; intros; subst
  | H : match ?x with _ => _ end = Some _ |- _ => destruct x eqn:?
  end.

Lemma parsed_wf fuel :
  (forall d l v r, p_value fuel d l = Some (v, r) -> jval_wf v) /\ (forall d l vs r, p_elements fuel d l = Some (vs, r) -> Forall jval_wf vs) /\
  (forall d l ms r, p_members fuel d l = Some (ms, r) -> Forall (fun m => jval_wf m.2) ms).
Proof.
  induction fuel as [|fuel (IHv & IHe & IHm)]; [done|]. split_and!.
  - intros d l v r. cbn [p_value]. intros. p_cases; try exact I; try (cbn; by apply all_of_Forall, (IHe _ _ _ _ Heqo)).
    + cbn. split; [constructor|done].
    + eapply members_of_wf, IHm. eassumption.
  - intros d l vs r. cbn [p_elements]. intros. p_cases; repeat constructor; eauto.
  - intros d l ms r. cbn [p_members]. intros. p_cases; repeat constructor; cbn; eauto.
Qed.

Lemma decoded_wf raw v : decode_json raw = Some v -> jval_wf v.
Proof. unfold decode_json. intros. p_cases. by eapply parsed_wf. Qed.

(** *** The fuel is enough *)

Lemma skip_ws_len l : (length (skip_ws l) <= length l)%nat.
Proof. induction l as [|c l IH]; cbn; [lia|]. destruct (is_ws c); cbn; lia. Qed.

Lemma cons_bytes_some bs x s r : cons_bytes bs x = Some (s, r) -> exists s', x = Some (s', r).
Proof. destruct x as [[s' r']|]; [|done]. intros [= _ <-]. by exists s'. Qed.

Lemma p_string_len n : forall l s r, (length l <= n)%nat -> p_string l = Some (s, r) -> (length r < length l)%nat.
Proof.
  induction n as [|n IH]; intros [|c l1] s r Hn; try (cbn in Hn; lia); try done. cbn [p_string length] in *. intros H.
  repeat match goal with
  | H : None = Some _ |- _ => discriminate H
  | H : Some (_, _) = Some (_, _) |- _ => injection H; clear H; intros; subst; cbn [length]; lia
  | H : cons_bytes _ _ = Some _ |- _ => apply cons_bytes_some in H as [? H]; apply IH in H; cbn [length] in *; lia
  | H : match ?x with _ => _ end = Some _ |- _ => destruct x eqn:?; cbn [length] in *
  end.
Qed.

Lemma take_digits_len l : forall ds r, take_digits l = (ds, r) -> (length ds + length r = length l)%nat.
Proof.
  induction l as [|c l IH]; cbn; intros ds r; [by intros [= <- <-]|]. destruct (is_digit c); [|by intros [= <- <-]].
  destruct (take_digits l) as [ds' r']. intros [= <- <-]. cbn. by rewrite (IH _ _ eq_refl).
Qed.

Lemma some_digits_len l ds r : some_digits l = Some (ds, r) -> (length r < length l)%nat.
Proof.
  unfold some_digits. destruct (take_digits l) as [[|c ds'] r'] eqn:E; [done|]. intros [= <- <-]. apply take_digits_len in E. cbn in E. lia.
Qed.

Ltac len_cases :=
  repeat match goal with
  | H : None = Some _ |- _ => discriminate H
  | H : Some _ = Some _ |- _ => injection H; clear H; intros; subst
  | H : some_digits _ = Some _ |- _ => apply some_digits_len in H
  | H : match ?x with _ => _ end = Some _ |- _ => destruct x eqn:?
  end; cbn [length] in *; try lia.

Lemma p_integer_len l i r : p_integer l = Some (i, r) -> (length r < length l)%nat.
Proof. unfold p_integer. intros. len_cases. Qed.
Lemma p_fraction_len l i r : p_fraction l = Some (i, r) -> (length r <= length l)%nat.
Proof. unfold p_fraction. intros. len_cases. Qed.
Lemma p_exponent_len l i r : p_exponent l = Some (i, r) -> (length r <= length l)%nat.
Proof. unfold p_exponent. intros. len_cases. Qed.

Lemma p_number_len l t r : p_number l = Some (t, r) -> (length r < length l)%nat.
Proof.
  unfold p_number. destruct (match l with [] => ([], []) | c :: r => if code c =? 45 then ([c], r) else ([], l) end) as [sign l'] eqn:Es.
  assert (Hs : (length l' <= length l)%nat) by (repeat case_match; simplify_eq; cbn; lia). destruct (p_integer l') as [[i l1]|] eqn:E1; [|done]. destruct (p_fraction l1) as [[f l2]|] eqn:E2; [|done].
  destruct (p_exponent l2) as [[e l3]|] eqn:E3; [|done]. intros [= _ <-]. apply p_integer_len in E1. apply p_fraction_len in E2. apply p_exponent_len in E3. lia.
Qed.

Lemma p_literal_len w : forall l r, p_literal w l = Some r -> (length r + length w = length l)%nat.
Proof.
  induction w as [|c w IH]; cbn; intros l r; [intros [= <-]; lia|]. destruct l as [|c' l]; [done|]. destruct (_ =? _); [|done]. intros H%IH. cbn. lia.
Qed.

(** What a parser leaves is shorter than what it was given. *)
Ltac shrink :=
  repeat match goal with
  | H : skip_ws ?l = _ :: _ |- _ => pose proof (skip_ws_len l); rewrite H in *; clear H
  | H : p_string ?l = Some _ |- _ => apply (p_string_len (length l)) in H; [|lia]
  | H : p_number _ = Some _ |- _ => apply p_number_len in H
  | H : p_literal _ _ = Some _ |- _ => apply p_literal_len in H; cbn in H
  end; cbn [length] in *.

Lemma parsed_len fuel :
  (forall d l v r, p_value fuel d l = Some (v, r) -> (length r < length l)%nat) /\
  (forall d l vs r, p_elements fuel d l = Some (vs, r) -> (length r < length l)%nat) /\
  (forall d l ms r, p_members fuel d l = Some (ms, r) -> (length r < length l)%nat).
Proof.
  induction fuel as [|fuel (IHv & IHe & IHm)]; [done|]. split_and!; intros d l x r; cbn [p_value p_elements p_members]; intros; p_cases;
    repeat match goal with
    | H : p_value fuel _ _ = Some _ |- _ => apply IHv in H
    | H : p_elements fuel _ _ = Some _ |- _ => apply IHe in H
    | H : p_members fuel _ _ = Some _ |- _ => apply IHm in H
    end; shrink; lia.
Qed.

Lemma fuel_enough fuel :
  (forall fuel' d l, (2 * length l < fuel)%nat -> (2 * length l < fuel')%nat -> p_value fuel d l = p_value fuel' d l) /\
  (forall fuel' d l, (2 * length l + 1 < fuel)%nat -> (2 * length l + 1 < fuel')%nat -> p_elements fuel d l = p_elements fuel' d l) /\
  (forall fuel' d l, (2 * length l + 1 < fuel)%nat -> (2 * length l + 1 < fuel')%nat -> p_members fuel d l = p_members fuel' d l).
Proof.
  induction fuel as [|fuel (IHv & IHe & IHm)]; [split_and!; intros; lia|]. split_and!; intros [|fuel'] d l Hf Hf'; try lia; cbn [p_value p_elements p_members].
  - destruct (skip_ws l) as [|c r] eqn:E; [done|]. shrink. rewrite (IHe fuel' (d + 1) r), (IHm fuel' (d + 1) r) by lia. done.
  - rewrite (IHv fuel' d l) by lia. destruct (p_value fuel' d l) as [[v r]|] eqn:E; [|done]. apply parsed_len in E.
    destruct (skip_ws r) as [|c r'] eqn:E'; [done|]. shrink. by rewrite (IHe fuel' d r') by lia.
  - destruct (skip_ws l) as [|q r] eqn:E; [done|]. destruct (negb _); [done|]. destruct (p_string r) as [[k r1]|] eqn:E1; [|done].
    destruct (skip_ws r1) as [|colon r2] eqn:E2; [done|]. destruct (negb _); [done|]. shrink. rewrite (IHv fuel' d r2) by lia.
    destruct (p_value fuel' d r2) as [[v r3]|] eqn:E3; [|done]. apply parsed_len in E3. destruct (skip_ws r3) as [|c r4] eqn:E4; [done|]. shrink.
    by rewrite (IHm fuel' d r4) by lia.
Qed.

(** *** Both writers *)

Lemma write_error v : forall depth e, writeCanonical v depth = Err e -> e = ErrCanonical.
Proof.
  assert (Htm : forall A B (f : A -> res B) l e, (forall x e, x ∈ l -> f x = Err e -> e = ErrCanonical) -> try_map f l = Err e -> e = ErrCanonical).
  { intros A B f l e Hf. induction l as [|x l IH]; cbn; [done|]. destruct (f x) as [y|e'] eqn:E; [|intros [= <-]; eapply Hf, E; left].
    destruct (try_map f l) as [r|e'] eqn:E'; [done|]. intros [= <-]. apply IH; [|done]. intros z e'' Hz. apply Hf. by right. }
  induction v as [|b|t|s|l IH|l IH] using jval_nested_ind; intros depth e; cbn [writeCanonical]; (destruct (negb (128 <? depth)); [|by intros [= <-]]); try done.
  - destruct (canonical_number t); [done|by intros [= <-]].
  - destruct (valid_utf8 s); [done|by intros [= <-]].
  - destruct (try_map _ l) as [r|e'] eqn:E; [done|]. intros [= <-]. eapply Htm, E. intros x e'' Hx. rewrite Forall_forall in IH. by apply IH.
  - destruct (forallb _ l); [|by intros [= <-]]. destruct (try_map _ l) as [r|e'] eqn:E; [done|]. intros [= <-]. eapply Htm, E. intros x e'' Hx.
    rewrite Forall_forall in IH. destruct (writeCanonical x.2 (depth + 1)) as [t|e3] eqn:Ew; [done|]. intros [= <-]. by eapply IH.
Qed.

Definition writes (v : jval) (depth : Z) : Prop := exists t, writeCanonical v depth = Ok t.

Lemma write_object_iff l depth text :
  keys_ok l -> writeCanonical (JObj l) depth = Ok text <->
  depth <= 128 /\ Forall (fun m => writes m.2 (depth + 1)) l /\ text = write_object (map (member_text (depth + 1)) (merge_sort member_le l)).
Proof.
  intros K. cbn [writeCanonical]. rewrite check_ok_iff. split.
  - intros [Hd%depth_ok Hw]. rewrite check_ok_iff in Hw. destruct Hw as [_ Hw]. apply try_ok_iff in Hw as (ms & [-> Ht]%written_members & [= <-]).
    rewrite sort_map by done. done.
  - intros (Hd & Ht & ->). split; [to_prop; lia|]. rewrite check_ok_iff. split.
    + rewrite forallb_forall. intros m Hm%list_elem_of_In. destruct K as [_ V]. rewrite Forall_forall in V. by apply V.
    + apply try_ok_iff. exists (map (member_text (depth + 1)) l). split; [|by rewrite sort_map]. apply try_map_Forall. eapply Forall_impl; [exact Ht|].
      intros m [t Hm]. unfold member_text. by rewrite Hm.
Qed.

(** The order in which a map is traversed does not matter. *)
Lemma write_order_free l l' depth : NoDup l.*1 -> l ≡ₚ l' -> writeCanonical (JObj l) depth = writeCanonical (JObj l') depth.
Proof.
  intros N P. destruct (decide (Forall (fun m => valid_utf8 m.1 = true) l)) as [V|V].
  - assert (K : keys_ok l) by done. pose proof (keys_ok_perm _ _ P K) as K'.
    destruct (writeCanonical (JObj l) depth) as [t|e] eqn:E.
    + symmetry. apply write_object_iff; [done|]. apply write_object_iff in E as (? & ? & ->); [|done]. split_and!; [done|by rewrite <-P|by rewrite (sort_perm l l')].
    + destruct (writeCanonical (JObj l') depth) as [t|e'] eqn:E'; [|by rewrite (write_error _ _ _ E), (write_error _ _ _ E')].
      apply write_object_iff in E' as (? & HF & ->); [|done]. rewrite <-P in HF. exfalso.
      assert (He : writeCanonical (JObj l) depth = Ok (write_object (map (member_text (depth + 1)) (merge_sort member_le l)))) by (by apply write_object_iff). congruence.
  - assert (Hno : forall m, m ≡ₚ l -> forall t, writeCanonical (JObj m) depth <> Ok t).
    { intros m Pm t Hw. cbn [writeCanonical] in Hw. rewrite !check_ok_iff in Hw. destruct Hw as (_ & Hv%valid_keys & _). by rewrite Pm in Hv. }
    destruct (writeCanonical (JObj l) depth) as [t|e] eqn:E; [by destruct (Hno l (Permutation_refl l) t)|].
    destruct (writeCanonical (JObj l') depth) as [t|e'] eqn:E'; [by destruct (Hno l' (Permutation_sym P) t)|]. by rewrite (write_error _ _ _ E), (write_error _ _ _ E').
Qed.

(** The depth of the deepest value below a value. *)
Fixpoint jheight (v : jval) : Z :=
  match v with
  | JArr l => foldr (fun x n => Z.max (1 + jheight x) n) 0 l
  | JObj l => foldr (fun m n => Z.max (1 + jheight m.2) n) 0 l
  | _ => 0
  end.

Lemma foldr_max {A} (f : A -> Z) l b : foldr (fun x n => Z.max (f x) n) 0 l <= b <-> 0 <= b /\ Forall (fun x => f x <= b) l.
Proof. induction l as [|x l IH]; cbn; [split; [by split|tauto]|]. rewrite Forall_cons, Z.max_lub_iff, IH. tauto. Qed.

Lemma try_map_agree {A B} (f g : A -> res B) (h : A -> Z) b l : Forall (fun x => forall y, f x = Ok y <-> g x = Ok y /\ h x <= b) l ->
  forall r, try_map f l = Ok r <-> try_map g l = Ok r /\ Forall (fun x => h x <= b) l.
Proof.
  induction 1 as [|x l Hx HF IH]; intros r; cbn; [split; [by split|tauto]|]. rewrite Forall_cons, !try_ok_iff. split.
  - intros (y & [Hy Hb]%Hx & Hr). apply try_ok_iff in Hr as (r' & [Hr Hl]%IH & [= <-]). split; [|done]. exists y. split; [done|]. apply try_ok_iff. eauto.
  - intros ((y & Hy & Hr) & Hb & Hl). apply try_ok_iff in Hr as (r' & Hr & [= <-]). exists y. split; [by apply Hx|]. apply try_ok_iff. exists r'. split; [by apply IH|done].
Qed.

Lemma canonical_number_regexp t :
  canonical_number t = true <-> regexpCanonicalInteger t = true /\ exists n, SetString10 t = Some n /\ 0 <= n <= maxSafeJSONInteger.
Proof.
  rewrite canonical_number_spec, regexp_canonical. split.
  - intros (n & Hn & ->). split; [apply dec_string_canonical; lia|]. exists n. split; [apply SetString10_dec_string; lia|done].
  - intros (Hc & n & Hs & Hn). exists n. split; [done|]. by apply canonical_decimal_iff.
Qed.

Lemma writers_agree v : forall depth text,
  writeCanonical v depth = Ok text <-> escrow_writeCanonical v = Ok text /\ depth + jheight v <= 128.
Proof.
  induction v as [|b|t|s|l IH|l IH] using jval_nested_ind; intros depth text; cbn [writeCanonical escrow_writeCanonical jheight]; rewrite check_ok_iff; to_prop.
  - split; intros []; split; try done; lia.
  - split; intros []; split; try done; lia.
  - rewrite !check_ok_iff, canonical_number_regexp. split.
    + intros (Hd & (Hr & n & Hs & Hn) & [= <-]). rewrite Hs, check_ok_iff. split_and!; [done|to_prop; lia|done|lia].
    + intros ((Hr & Hs) & Hd). destruct (SetString10 t) as [n|]; [|done]. rewrite check_ok_iff in Hs. destruct Hs as [Hn [= <-]]. to_prop.
      split_and!; [lia|done|exists n; split; [done|lia]|done].
  - rewrite !check_ok_iff. split; intros; intuition (try done; lia).
  - rewrite !try_ok_iff. split.
    + intros (Hd & items & Hm & [= <-]). apply (try_map_agree _ escrow_writeCanonical (fun x => 1 + jheight x) (128 - depth)) in Hm as [Hm Hb];
        [|eapply Forall_impl; [exact IH|]; intros x Hx y; cbv beta in Hx |- *; rewrite Hx; intuition lia].
      split; [eauto|]. enough (foldr (fun x n => Z.max (1 + jheight x) n) 0 l <= 128 - depth) by lia. apply foldr_max. split; [lia|done].
    + intros ((items & Hm & [= <-]) & Hh). assert (Hb : foldr (fun x n => Z.max (1 + jheight x) n) 0 l <= 128 - depth) by lia. apply foldr_max in Hb as [Hd Hb].
      split; [lia|]. exists items. split; [|done]. eapply (try_map_agree _ escrow_writeCanonical (fun x => 1 + jheight x) (128 - depth)); [|done].
      eapply Forall_impl; [exact IH|]. intros x Hx y. cbv beta in Hx |- *. rewrite Hx. intuition lia.
  - rewrite !check_ok_iff, !try_ok_iff. split.
    + intros (Hd & Hk & items & Hm & [= <-]).
      apply (try_map_agree _ (fun m => try t := escrow_writeCanonical m.2 in Ok (m.1, t)) (fun m => 1 + jheight m.2) (128 - depth)) in Hm as [Hm Hb].
      * split; [eauto|]. enough (foldr (fun m n => Z.max (1 + jheight m.2) n) 0 l <= 128 - depth) by lia. apply foldr_max. split; [lia|done].
      * eapply Forall_impl; [exact IH|]. intros m Hx y. cbv beta in Hx |- *. rewrite !try_ok_iff. setoid_rewrite Hx. naive_solver lia.
    + intros ((Hk & items & Hm & [= <-]) & Hh). assert (Hb : foldr (fun m n => Z.max (1 + jheight m.2) n) 0 l <= 128 - depth) by lia.
      apply foldr_max in Hb as [Hd Hb]. split; [lia|]. split; [done|]. exists items. split; [|done].
      eapply (try_map_agree _ (fun m => try t := escrow_writeCanonical m.2 in Ok (m.1, t)) (fun m => 1 + jheight m.2) (128 - depth)); [|done].
      eapply Forall_impl; [exact IH|]. intros m Hx y. cbv beta in Hx |- *. rewrite !try_ok_iff. setoid_rewrite Hx. naive_solver lia.
Qed.

(** ** Properties *)

(** C36: canonical JSON identifies its value. The text of a value decodes to that value with
    the members of its objects in order, is its own canonical form, and is the text of no
    other value; the order in which Go traverses a map does not change it. *)
Theorem canonical_json_roundtrip (v : jval) (text : string) :
  jval_wf v -> writeCanonical v 0 = Ok text ->
  decode_json text = Some (normalize v) /\ canonical_raw text = Ok text /\
  (forall w, jval_wf w -> writeCanonical w 0 = Ok text -> normalize w = normalize v) /\
  (forall l l', v = JObj l -> l ≡ₚ l' -> writeCanonical (JObj l') 0 = Ok text).
Proof.
  intros W Hw. pose proof (decode_written v 0 text ltac:(lia) Hw W) as Hd. split_and!; [done| | |].
  - unfold canonical_raw. rewrite Hd, (write_normalize _ _ _ Hw W). cbn. by rewrite bool_decide_eq_true_2.
  - intros w Ww Hw'. by eapply (written_inj w v 0 0 text).
  - intros l l' -> P. rewrite <-Hw. symmetry. apply write_order_free; [|done]. by destruct W.
Qed.

(** the canonical writer of events is that of escrow calls with a bound on the depth. *)
Theorem canonical_writers_agree (v : jval) (text : string) :
  writeCanonical v 0 = Ok text <-> escrow_writeCanonical v = Ok text /\ jheight v <= 128.
Proof. apply (writers_agree v 0). Qed.

(** The decoder's fuel is enough: it decides every input, whatever more it is given. *)
Theorem decode_fuel_enough (raw : string) (fuel : nat) :
  (json_fuel (chars raw) <= fuel)%nat -> p_value fuel 0 (chars raw) = p_value (json_fuel (chars raw)) 0 (chars raw).
Proof. intros Hf. unfold json_fuel in *. apply fuel_enough; lia. Qed.
