(* ===== verification/EventStore.v ===== *)
(** * The event chain ([internal/ascpevents], migration 0014)

    Organization events in one hash chain with a MAC per writer, their PostgreSQL store,
    signed checkpoints over the chain, and the verification of a recovered database against
    the checkpoints' immutable copies and the remote head. The immutable store and the
    remote head are other services: classes with the contract the source states for them.
    [json.Marshal] followed by decoding is the value itself, so the records that are hashed
    are written directly as JSON values; identifiers are valid UTF-8 wherever they are. *)
From stdpp Require Import base gmap strings list sorting.
From Stdlib Require Import ZArith Lia Ascii.
From S2P Require Import Prelude GoText GoJSON Crypto CanonicalJSON.

Open Scope Z_scope.

Definition EventSchemaVersion : Z := 1.
Definition ErrInvalidEvent : error := "invalid ASCP event".
Definition ErrEventConflict : error := "event ID replayed with different content".
Definition ErrIntegrity : error := "ASCP event-chain integrity failure".
Definition ErrUnknownWriterKey : error := "unknown event writer key".
Definition ErrCheckpointConflict : error := "checkpoint replayed with different content".
Definition ErrNoRows : error := "sql: no rows in result set".
Definition zeroHash : string := str_repeat "0" 64.

(** Maps from names to identifiers; a nil map is [None]. *)
Definition refs_map : Type := option (gmap string string).

(** A payload: bytes that must be canonical already, or what [json.Marshal] makes of it. *)
Inductive EventPayload := PayloadRaw (raw : string) | PayloadValue (marshalled : option string).

Record EventInput := mkEventInput {
  in_EventID : string; in_OrganizationID : string; in_OccurredAt : time; in_Type : string; in_Actor : string; in_CausationID : string;
  in_CorrelationID : string; in_EntityRefs : refs_map; in_Payload : EventPayload; in_SupersedesEventID : string }.

(** The fields that a row keeps as they are. *)
Record EventBody := mkEventBody {
  eb_EventID : string; eb_OrganizationID : string; eb_OccurredAtUnixMic : Z; eb_Type : string; eb_Actor : string; eb_CausationID : string;
  eb_CorrelationID : string; eb_SupersedesEventID : string; eb_PreviousHash : string; eb_WriterKeyID : string }.

Record ChainEvent := mkEvent {
  ev_SchemaVersion : Z; ev_Sequence : Z; ev_Body : EventBody; ev_EntityRefs : refs_map; ev_Payload : string; ev_EventHash : string; ev_WriterMAC : string }.

Record EventWriter := mkEventWriter { ew_KeyID : string; ew_Key : string }.

(** ** Identifiers and times *)

Definition event_identifier (v : string) (min max : Z) : bool :=
  (min <=? str_len v) && (str_len v <=? max) && bool_decide (TrimSpace v = v) && valid_utf8 v &&
  str_all (fun c => negb (code c <? 33) && negb (code c =? 127)) v.
Definition raw_hash (v : string) : bool := (str_len v =? 64) && str_all is_lower_hex v.
Definition nonzeroHash (v : string) : bool := raw_hash v && negb (bool_decide (v = zeroHash)).

(** [Time.UnixMicro] and [time.UnixMicro] *)
Definition unix_epoch : time := unixToInternal * Second.
Definition UnixMicro (t : time) : Z := int64 ((t - unix_epoch) / 1000).
Definition time_of_micro (x : Z) : time := x * 1000 + unix_epoch.

Definition refs_list (r : refs_map) : list (string * string) := match r with Some m => map_to_list m | None => [] end.

Definition validInput (i : EventInput) : bool :=
  event_identifier (in_EventID i) 8 200 && event_identifier (in_OrganizationID i) 3 200 && event_identifier (in_Type i) 3 200 &&
  event_identifier (in_Actor i) 3 200 && event_identifier (in_CorrelationID i) 8 200 && negb (time_IsZero (in_OccurredAt i)) &&
  (0 <? UnixMicro (in_OccurredAt i)) && Nat.leb (length (refs_list (in_EntityRefs i))) 32 &&
  forallb (fun p => event_identifier p.1 1 100 && event_identifier p.2 1 300) (refs_list (in_EntityRefs i)) &&
  forallb (fun v => bool_decide (v = "") || event_identifier v 8 200) [in_CausationID i; in_SupersedesEventID i].

Definition stored_as_input (e : ChainEvent) : EventInput :=
  let b := ev_Body e in
  mkEventInput (eb_EventID b) (eb_OrganizationID b) (time_of_micro (eb_OccurredAtUnixMic b)) (eb_Type b) (eb_Actor b) (eb_CausationID b)
    (eb_CorrelationID b) (ev_EntityRefs e) (PayloadRaw (ev_Payload e)) (eb_SupersedesEventID b).

Definition validStoredEvent (e : ChainEvent) : bool :=
  validInput (stored_as_input e) && raw_hash (ev_EventHash e) && raw_hash (eb_PreviousHash (ev_Body e)) && raw_hash (ev_WriterMAC e) &&
  event_identifier (eb_WriterKeyID (ev_Body e)) 8 128 && negb (bool_decide (ev_Payload e = "")).

(** ** Hashes *)

Definition refs_json (r : refs_map) : jval :=
  match r with Some m => JObj (map (fun p => (p.1, JStr p.2)) (map_to_list m)) | None => JNull end.
Definition jnum (z : Z) : jval := JNum (dec_string z).
Definition omitted (name value : string) : list (string * jval) := if bool_decide (value = "") then [] else [(name, JStr value)].

Definition event_fields (e : ChainEvent) (payload : jval) : list (string * jval) :=
  let b := ev_Body e in
  [("schemaVersion", jnum (ev_SchemaVersion e)); ("seq", jnum (ev_Sequence e)); ("eventId", JStr (eb_EventID b)); ("orgId", JStr (eb_OrganizationID b));
   ("timestampUnixMicros", jnum (eb_OccurredAtUnixMic b)); ("type", JStr (eb_Type b)); ("actor", JStr (eb_Actor b))] ++
  omitted "causationId" (eb_CausationID b) ++
  [("correlationId", JStr (eb_CorrelationID b)); ("entityRefs", refs_json (ev_EntityRefs e)); ("payload", payload)] ++
  omitted "supersedesEventId" (eb_SupersedesEventID b) ++
  [("previousHash", JStr (eb_PreviousHash b)); ("writerKeyId", JStr (eb_WriterKeyID b))].

Definition nul : string := String (char_of 0) "".

Definition canonical_payload (p : EventPayload) : res string :=
  match p with
  | PayloadRaw raw => canonical_raw raw
  | PayloadValue None => Err "json: unsupported value"
  | PayloadValue (Some raw) => canonical_marshalled raw
  end.

Section Events.
Context `{Crypto}.

(** HMAC-SHA-256 with a key of at most one block. *)
Definition xor_byte (z : Z) (c : ascii) : ascii := char_of (Z.lxor (code c) z).
Definition block_key (key : string) (z : Z) : string := str_map (xor_byte z) (key +:+ str_repeat nul (64 - String.length key)).
Definition hmac_sha256 (key m : string) : string := sha256 (block_key key 92 +:+ sha256 (block_key key 54 +:+ m)).

Definition event_document (e : ChainEvent) : res string :=
  match decode_json (ev_Payload e) with
  | None => Err ErrInvalidEvent
  | Some payload => writeCanonical (JObj (event_fields e payload)) 0
  end.
Definition event_preimage (text : string) : string := "ASCP_EVENT_V1" +:+ nul +:+ text.
Definition calculateEventHash (e : ChainEvent) : res string := try text := event_document e in Ok (hex_encode (sha256 (event_preimage text))).
Definition calculateMAC (key eventHash : string) : string := hex_encode (hmac_sha256 key ("ASCP_EVENT_MAC_V1" +:+ nul +:+ eventHash)).

Definition NewWriter (keyID key : string) : res EventWriter :=
  check event_identifier keyID 8 128 && (str_len key =? 32) else ErrInvalidEvent ;; Ok (mkEventWriter keyID key).

Definition seal_event (e : ChainEvent) (h mac : string) : ChainEvent :=
  mkEvent (ev_SchemaVersion e) (ev_Sequence e) (ev_Body e) (ev_EntityRefs e) (ev_Payload e) h mac.

Definition buildEvent (i : EventInput) (sequence : Z) (previousHash : string) (w : EventWriter) : res ChainEvent :=
  try payload := match canonical_payload (in_Payload i) with Ok p => Ok p | Err _ => Err ErrInvalidEvent end in
  check negb (bool_decide (payload = "")) && (str_len payload <=? 1024 * 1024) && validInput i && negb (sequence =? 0) && raw_hash previousHash &&
        (str_len (ew_Key w) =? 32) && event_identifier (ew_KeyID w) 8 128 else ErrInvalidEvent ;;
  let e := mkEvent EventSchemaVersion sequence
             (mkEventBody (in_EventID i) (in_OrganizationID i) (UnixMicro (in_OccurredAt i)) (in_Type i) (in_Actor i) (in_CausationID i)
                (in_CorrelationID i) (in_SupersedesEventID i) previousHash (ew_KeyID w))
             (Some (default ∅ (in_EntityRefs i))) payload "" "" in
  try h := calculateEventHash e in
  Ok (seal_event e h (calculateMAC (ew_Key w) h)).

Definition VerifyEvent (e : ChainEvent) (expectedSequence : Z) (previousHash : string) (keys : gmap string string) : res unit :=
  check (ev_SchemaVersion e =? EventSchemaVersion) && (ev_Sequence e =? expectedSequence) && bool_decide (eb_PreviousHash (ev_Body e) = previousHash) &&
        validStoredEvent e else ErrIntegrity ;;
  try wantHash := match calculateEventHash e with Ok h => Ok h | Err _ => Err ErrIntegrity end in
  check bool_decide (wantHash = ev_EventHash e) else ErrIntegrity ;;
  match keys !! eb_WriterKeyID (ev_Body e) with
  | None => Err ErrUnknownWriterKey
  | Some key =>
      check str_len key =? 32 else ErrUnknownWriterKey ;;
      check bool_decide (calculateMAC key (ev_EventHash e) = ev_WriterMAC e) else ErrIntegrity ;;
      Ok tt
  end.

Definition eventMatchesInput (e : ChainEvent) (i : EventInput) : bool :=
  let b := ev_Body e in
  match canonical_payload (in_Payload i), writeCanonical (refs_json (in_EntityRefs i)) 0, writeCanonical (refs_json (ev_EntityRefs e)) 0 with
  | Ok payload, Ok refs, Ok storedRefs =>
      validInput i && bool_decide (eb_EventID b = in_EventID i) && bool_decide (eb_OrganizationID b = in_OrganizationID i) &&
      (eb_OccurredAtUnixMic b =? UnixMicro (in_OccurredAt i)) && bool_decide (eb_Type b = in_Type i) && bool_decide (eb_Actor b = in_Actor i) &&
      bool_decide (eb_CausationID b = in_CausationID i) && bool_decide (eb_CorrelationID b = in_CorrelationID i) &&
      bool_decide (eb_SupersedesEventID b = in_SupersedesEventID i) && bool_decide (ev_Payload e = payload) && bool_decide (storedRefs = refs)
  | _, _, _ => false
  end.
End Events.

(** ** The event store, checkpoints and recovery ([internal/ascpevents/postgres.go],
      [checkpoint.go], migration 0014)

    The tables are lists in the order of their sequence numbers, each transaction one step;
    a serialization failure is a transaction that changed nothing and is tried again. *)

(** ** Rows *)

Record EventRow := mkEventRow { rw_Sequence : Z; rw_Body : EventBody; rw_refs : string; rw_payload : string; rw_EventHash : string; rw_mac : string }.

Record Head := mkHead { hd_Sequence : Z; hd_EventHash : string }.
#[export] Instance Head_eq_dec : EqDecision Head.
Proof. solve_decision. Defined.

Record EventCheckpoint := mkCheckpoint {
  cp_CheckpointID : string; cp_LastSequence : Z; cp_LastEventHash : string; cp_JournalTrialBalanceHash : string; cp_CreatedAtUnixMic : Z;
  cp_SigningKeyID : string; cp_CanonicalDocument : string; cp_Signature : string; cp_WORMRef : string }.

Record edb := mkEdb { db_organizations : gset string; db_events : list EventRow; db_checkpoints : list EventCheckpoint }.

(** [json.Unmarshal] into a [map[string]string]: a JSON null is a nil map, or an empty value. *)
Definition ref_value (v : jval) : option string := match v with JStr s => Some s | JNull => Some "" | _ => None end.
Fixpoint decode_members (l : list (string * jval)) : option (gmap string string) :=
  match l with
  | [] => Some ∅
  | (k, v) :: l => match ref_value v, decode_members l with Some s, Some m => Some (<[k := s]> m) | _, _ => None end
  end.
Definition decode_refs (raw : string) : res refs_map :=
  match decode_json raw with
  | Some JNull => Ok None
  | Some (JObj l) => match decode_members l with Some m => Ok (Some m) | None => Err "json: cannot unmarshal" end
  | _ => Err "json: cannot unmarshal"
  end.

Definition scanEvent (r : EventRow) : res ChainEvent :=
  try refs := decode_refs (rw_refs r) in
  Ok (mkEvent EventSchemaVersion (rw_Sequence r) (rw_Body r) refs (rw_payload r) (rw_EventHash r) (hex_encode (rw_mac r))).

(** [length] of a text column. *)
Definition text_length (s : string) : Z := Z.of_nat (length (runes (chars s))).
Definition text_between (lo hi : Z) (s : string) : bool := between lo hi (text_length s).

(** The CHECKs and keys of [ascp_events] that the code does not already imply. *)
Definition event_row_ok (db : edb) (r : EventRow) : bool :=
  let b := rw_Body r in
  text_between 8 200 (eb_EventID b) && bool_decide (eb_OrganizationID b ∈ db_organizations db) && text_between 3 200 (eb_Type b) &&
  text_between 3 200 (eb_Actor b) && (bool_decide (eb_CausationID b = "") || text_between 8 200 (eb_CausationID b)) &&
  text_between 8 200 (eb_CorrelationID b) && between 2 16384 (str_len (rw_refs r)) && between 1 1048576 (str_len (rw_payload r)) &&
  (bool_decide (eb_SupersedesEventID b = "") || text_between 8 200 (eb_SupersedesEventID b)) && nonzeroHash (rw_EventHash r) &&
  text_between 8 128 (eb_WriterKeyID b) && (str_len (rw_mac r) =? 32) &&
  forallb (fun x => negb (bool_decide (rw_EventHash x = rw_EventHash r))) (db_events db).

Section EventStore.
Context `{Crypto}.

Definition eventByID (db : edb) (id : string) : option EventRow := List.find (fun r => bool_decide (eb_EventID (rw_Body r) = id)) (db_events db).
Definition event_head (db : edb) : Head :=
  match last (db_events db) with Some r => mkHead (rw_Sequence r) (rw_EventHash r) | None => mkHead 0 zeroHash end.

Definition row_of (e : ChainEvent) (refs mac : string) : EventRow := mkEventRow (ev_Sequence e) (ev_Body e) refs (ev_Payload e) (ev_EventHash e) mac.

Definition append (db : edb) (i : EventInput) (w : EventWriter) : res (edb * (ChainEvent * bool)) :=
  match eventByID db (in_EventID i) with
  | Some row =>
      try stored := scanEvent row in
      check eventMatchesInput stored i else ErrEventConflict ;; Ok (db, (stored, true))
  | None =>
      let head := event_head db in
      try e := buildEvent i (hd_Sequence head + 1) (hd_EventHash head) w in
      try refs := writeCanonical (refs_json (ev_EntityRefs e)) 0 in
      match hex_decode (ev_WriterMAC e) with
      | None => Err ErrInvalidEvent
      | Some mac =>
          check str_len mac =? 32 else ErrInvalidEvent ;;
          check event_row_ok db (row_of e refs mac) else "insert event" ;;
          Ok (mkEdb (db_organizations db) (db_events db ++ [row_of e refs mac]) (db_checkpoints db), (e, false))
      end
  end.

Definition EventAt (db : edb) (sequence : Z) : res ChainEvent :=
  match List.find (fun r => rw_Sequence r =? sequence) (db_events db) with Some r => scanEvent r | None => Err ErrNoRows end.

Definition verify_step (keys : gmap string string) (acc : res Head) (r : EventRow) : res Head :=
  try h := acc in
  try e := scanEvent r in
  try _ := VerifyEvent e (hd_Sequence h + 1) (hd_EventHash h) keys in
  Ok (mkHead (hd_Sequence h + 1) (ev_EventHash e)).
Definition verify_rows (keys : gmap string string) (rows : list EventRow) : res Head := foldl (verify_step keys) (Ok (mkHead 0 zeroHash)) rows.
Definition VerifyChain (db : edb) (keys : gmap string string) : res Head := verify_rows keys (db_events db).

(** ** Checkpoints *)

Definition checkpoint_json (sequence : Z) (eventHash trialBalance keyID : string) : jval :=
  JObj [("schemaVersion", jnum EventSchemaVersion); ("lastSeq", jnum sequence); ("lastEventHash", JStr eventHash);
        ("journalTrialBalanceHash", JStr trialBalance); ("signingKeyId", JStr keyID)].
Definition checkpointDigest (document : string) : string := sha256 ("ASCP_CHECKPOINT_V1" +:+ nul +:+ document).
Definition checkpoint_id (document : string) : string := "checkpoint_" +:+ hex_encode (sha256 ("ASCP_CHECKPOINT_ID_V1" +:+ nul +:+ document)).
Definition worm_ref (id : string) : string := "ascp/checkpoints/" +:+ id +:+ ".json".
Definition checkpointBlob (c : EventCheckpoint) : string := cp_CanonicalDocument c +:+ String (char_of 10) "" +:+ hex_encode (cp_Signature c).

Definition signCheckpoint (head : Head) (trialBalance keyID privateKey : string) (at_ : time) : res EventCheckpoint :=
  check negb (hd_Sequence head =? 0) && nonzeroHash (hd_EventHash head) && nonzeroHash trialBalance && event_identifier keyID 8 128 &&
        (str_len privateKey =? PrivateKeySize) && (0 <? UnixMicro at_) else ErrInvalidEvent ;;
  try document := writeCanonical (checkpoint_json (hd_Sequence head) (hd_EventHash head) trialBalance keyID) 0 in
  let id := checkpoint_id document in
  Ok (mkCheckpoint id (hd_Sequence head) (hd_EventHash head) trialBalance (UnixMicro at_) keyID document
        (ed25519_sign privateKey (checkpointDigest document)) (worm_ref id)).

Definition verifyCheckpoint (c : EventCheckpoint) (keys : gmap string string) : res unit :=
  check event_identifier (cp_CheckpointID c) 8 200 && negb (cp_LastSequence c =? 0) && nonzeroHash (cp_LastEventHash c) &&
        nonzeroHash (cp_JournalTrialBalanceHash c) && (0 <? cp_CreatedAtUnixMic c) && event_identifier (cp_SigningKeyID c) 8 128 &&
        (str_len (cp_Signature c) =? SignatureSize) && event_identifier (cp_WORMRef c) 8 300 else ErrIntegrity ;;
  try document := match writeCanonical (checkpoint_json (cp_LastSequence c) (cp_LastEventHash c) (cp_JournalTrialBalanceHash c) (cp_SigningKeyID c)) 0 with
                  | Ok d => Ok d | Err _ => Err ErrIntegrity end in
  check bool_decide (document = cp_CanonicalDocument c) else ErrIntegrity ;;
  check bool_decide (cp_CheckpointID c = checkpoint_id document) && bool_decide (cp_WORMRef c = worm_ref (cp_CheckpointID c)) else ErrIntegrity ;;
  match keys !! cp_SigningKeyID c with
  | None => Err ErrIntegrity
  | Some key =>
      check (str_len key =? PublicKeySize) && ed25519_verify key (checkpointDigest (cp_CanonicalDocument c)) (cp_Signature c) else ErrIntegrity ;; Ok tt
  end.

Definition sameCheckpoint (l r : EventCheckpoint) : bool :=
  bool_decide (cp_CheckpointID l = cp_CheckpointID r) && (cp_LastSequence l =? cp_LastSequence r) && bool_decide (cp_LastEventHash l = cp_LastEventHash r) &&
  bool_decide (cp_JournalTrialBalanceHash l = cp_JournalTrialBalanceHash r) && bool_decide (cp_SigningKeyID l = cp_SigningKeyID r) &&
  bool_decide (cp_CanonicalDocument l = cp_CanonicalDocument r) && bool_decide (cp_Signature l = cp_Signature r) &&
  bool_decide (cp_WORMRef l = cp_WORMRef r).

(** The CHECKs, keys and trigger of [ascp_event_checkpoints]. *)
Definition checkpoint_row_ok (db : edb) (c : EventCheckpoint) : bool :=
  between 1 16384 (str_len (cp_CanonicalDocument c)) &&
  forallb (fun x => negb (cp_LastSequence x =? cp_LastSequence c) && negb (bool_decide (cp_WORMRef x = cp_WORMRef c))) (db_checkpoints db) &&
  match List.find (fun r => rw_Sequence r =? cp_LastSequence c) (db_events db) with
  | Some r => bool_decide (rw_EventHash r = cp_LastEventHash c)
  | None => false
  end.

Definition SaveCheckpoint (db : edb) (c : EventCheckpoint) : res (edb * (EventCheckpoint * bool)) :=
  match List.find (fun x => bool_decide (cp_CheckpointID x = cp_CheckpointID c)) (db_checkpoints db) with
  | Some stored => check sameCheckpoint stored c else ErrCheckpointConflict ;; Ok (db, (stored, true))
  | None =>
      check checkpoint_row_ok db c else "insert checkpoint" ;;
      Ok (mkEdb (db_organizations db) (db_events db) (db_checkpoints db ++ [c]), (c, false))
  end.

(** [ORDER BY last_sequence DESC LIMIT 1] *)
Definition later (best : option EventCheckpoint) (c : EventCheckpoint) : option EventCheckpoint :=
  match best with Some b => if cp_LastSequence b <? cp_LastSequence c then Some c else best | None => Some c end.
Definition LatestCheckpoint (db : edb) : res EventCheckpoint :=
  match foldl later None (db_checkpoints db) with Some c => Ok c | None => Err ErrNoRows end.

End EventStore.

(** ** The other services *)

Class ExternalStores := {
  worm : Type; remote : Type;
  worm_Put : worm -> string -> string -> worm * res unit;
  worm_Get : worm -> string -> res string;
  remote_Advance : remote -> Head -> remote * res unit;
  remote_Current : remote -> res Head;
}.

(** [Put] is idempotent for the same bytes and replaces nothing; [Advance] is monotonic and
    accepts an identical replay. *)
Class ExternalLaws `{ExternalStores} := {
  put_get w r b w' : worm_Put w r b = (w', Ok tt) -> worm_Get w' r = Ok b;
  put_keeps w r b w' o r' b' : worm_Put w r b = (w', o) -> worm_Get w r' = Ok b' -> worm_Get w' r' = Ok b';
  advance_current s h s' : remote_Advance s h = (s', Ok tt) -> remote_Current s' = Ok h;
  advance_monotonic s h s' o h0 : remote_Advance s h = (s', o) -> remote_Current s = Ok h0 ->
    remote_Current s' = Ok h0 \/ (remote_Current s' = Ok h /\ (h = h0 \/ hd_Sequence h0 < hd_Sequence h));
}.

Section Recovery.
Context `{Crypto, ExternalStores}.

Record eworld := mkEworld { wd_db : edb; wd_worm : worm; wd_remote : remote }.

Record PublisherConfig := mkPublisher { pb_keyID : string; pb_privateKey : string; pb_writerKeys : gmap string string }.

Definition NewPublisher (keyID privateKey : string) (writerKeys : gmap string string) : res PublisherConfig :=
  check event_identifier keyID 8 128 && (str_len privateKey =? PrivateKeySize) &&
        forallb (fun p => event_identifier p.1 8 128 && (str_len p.2 =? 32)) (map_to_list writerKeys) && negb (bool_decide (writerKeys = ∅))
    else ErrInvalidEvent ;;
  Ok (mkPublisher keyID privateKey writerKeys).

Definition own_key (p : PublisherConfig) : gmap string string := {[pb_keyID p := ed25519_public (pb_privateKey p)]}.

(** The two external writes, in order. *)
Definition publish_outside (w : eworld) (c : EventCheckpoint) (head : Head) : eworld * res unit :=
  match worm_Put (wd_worm w) (cp_WORMRef c) (checkpointBlob c) with
  | (worm', Err e) => (mkEworld (wd_db w) worm' (wd_remote w), Err e)
  | (worm', Ok _) => match remote_Advance (wd_remote w) head with (remote', r) => (mkEworld (wd_db w) worm' remote', r) end
  end.

(** [saved]: whether the database is there for the last step. *)
Definition publish (p : PublisherConfig) (trialBalance : string) (now : time) (saved : bool) (w : eworld) : eworld * res (EventCheckpoint * bool) :=
  if negb (nonzeroHash trialBalance) then (w, Err ErrInvalidEvent) else
  match VerifyChain (wd_db w) (pb_writerKeys p) with
  | Err e => (w, Err e)
  | Ok head =>
      if (hd_Sequence head =? 0) || negb (nonzeroHash (hd_EventHash head)) then (w, Err "cannot checkpoint an empty event chain") else
      let fresh :=
        match signCheckpoint head trialBalance (pb_keyID p) (pb_privateKey p) now with
        | Err e => (w, Err e)
        | Ok c =>
            match publish_outside w c head with
            | (w, Err e) => (w, Err e)
            | (w, Ok _) =>
                if negb saved then (w, Err "database unavailable") else
                match SaveCheckpoint (wd_db w) c with
                | Err e => (w, Err e)
                | Ok (db, result) => (mkEworld db (wd_worm w) (wd_remote w), Ok result)
                end
            end
        end in
      match LatestCheckpoint (wd_db w) with
      | Ok latest =>
          if cp_LastSequence latest =? hd_Sequence head then
            if bool_decide (cp_LastEventHash latest = hd_EventHash head) && bool_decide (cp_JournalTrialBalanceHash latest = trialBalance) &&
               bool_decide (cp_SigningKeyID latest = pb_keyID p) && is_ok (verifyCheckpoint latest (own_key p))
            then match publish_outside w latest head with
                 | (w, Err e) => (w, Err e)
                 | (w, Ok _) => (w, Ok (latest, true))
                 end
            else (w, Err ErrCheckpointConflict)
          else if hd_Sequence head <? cp_LastSequence latest then (w, Err ErrIntegrity)
          else fresh
      | Err _ => fresh
      end
  end.

Record RecoveryStatus := mkRecovery {
  rs_LocalHead : Head; rs_RemoteHead : Head; rs_CheckpointSequence : Z; rs_UncheckpointedEventCount : Z; rs_ExternallyCheckpointed : bool }.

Definition on_chain (db : edb) (h : Head) : bool :=
  match EventAt db (hd_Sequence h) with Ok e => bool_decide (ev_EventHash e = hd_EventHash h) | Err _ => false end.

Definition VerifyRecovery (w : eworld) (writerKeys checkpointKeys : gmap string string) : res RecoveryStatus :=
  let db := wd_db w in
  try local := VerifyChain db writerKeys in
  try remoteHead := remote_Current (wd_remote w) in
  check hd_Sequence remoteHead <=? hd_Sequence local else ErrIntegrity ;;
  check (hd_Sequence remoteHead <=? 0) || on_chain db remoteHead else ErrIntegrity ;;
  match LatestCheckpoint db with
  | Err _ =>
      check hd_Sequence remoteHead <=? 0 else ErrIntegrity ;;
      Ok (mkRecovery local remoteHead 0 (hd_Sequence local) false)
  | Ok c =>
      try _ := verifyCheckpoint c checkpointKeys in
      check cp_LastSequence c <=? hd_Sequence local else ErrIntegrity ;;
      let tail := hd_Sequence local - cp_LastSequence c in
      check on_chain db (mkHead (cp_LastSequence c) (cp_LastEventHash c)) else ErrIntegrity ;;
      try blob := worm_Get (wd_worm w) (cp_WORMRef c) in
      check bool_decide (blob = checkpointBlob c) else ErrIntegrity ;;
      check bool_decide (remoteHead = mkHead (cp_LastSequence c) (cp_LastEventHash c)) else ErrIntegrity ;;
      Ok (mkRecovery local remoteHead (cp_LastSequence c) tail ((tail =? 0) && (hd_Sequence remoteHead =? hd_Sequence local)))
  end.

End Recovery.
