(* ===== verification/EventTheorems.v ===== *)
(** * The event chain binds its history

    Equal hashes mean equal events, back to the first, unless SHA-256 has been broken: so a
    recovered database that agrees with the remote head agrees with everything that was
    published. Appending keeps the chain verifiable and publishing makes it recoverable. *)
From stdpp Require Import base gmap strings list sorting.
From Stdlib Require Import ZArith Lia Ascii.
From S2P Require Import Prelude GoText GoJSON Amounts Crypto CanonicalJSON CanonicalTheorems EventStore.

Open Scope Z_scope.

(** ** Fields of an object *)

Fixpoint jfield (k : string) (l : list (string * jval)) : option jval :=
  match l with [] => None | (k', v) :: l => if String.eqb k' k then Some v else jfield k l end.

Lemma jfield_some k l v : NoDup l.*1 -> jfield k l = Some v <-> (k, v) ∈ l.
Proof.
  induction l as [|[k' v'] l IH]; cbn [jfield]; intros N; [split; [done|by intros ?%elem_of_nil]|]. rewrite fmap_cons, NoDup_cons in N. destruct N as [Hk N].
  rewrite elem_of_cons. destruct (String.eqb_spec k' k) as [->|Hd].
  - split; [intros [= ->]; by left|]. intros [[= ->]|Hin]; [done|]. destruct Hk. apply list_elem_of_fmap. by exists (k, v).
  - rewrite IH by done. split; [by right|]. intros [[= -> ->]|Hin]; [done|done].
Qed.

Lemma jfield_perm k l l' : NoDup l.*1 -> l ≡ₚ l' -> jfield k l = jfield k l'.
Proof.
  intros N P. assert (N' : NoDup l'.*1) by by rewrite <-P. destruct (jfield k l) as [v|] eqn:E.
  - symmetry. apply jfield_some; [done|]. rewrite <-P. by apply jfield_some.
  - destruct (jfield k l') as [v|] eqn:E'; [|done]. apply jfield_some in E'; [|done]. rewrite <-P in E'. apply jfield_some in E'; [congruence|done].
Qed.

Lemma jfield_map k l (f : jval -> jval) : jfield k (map (fun m => (m.1, f m.2)) l) = f <$> jfield k l.
Proof. induction l as [|[k' v] l IH]; cbn; [done|]. destruct (String.eqb k' k); [done|apply IH]. Qed.

(** Equal objects have equal fields. *)
Lemma normalize_fields k l l' : NoDup l.*1 -> NoDup l'.*1 -> normalize (JObj l) = normalize (JObj l') -> normalize <$> jfield k l = normalize <$> jfield k l'.
Proof.
  intros N N' E. cbn in E. injection E as E. rewrite <-!jfield_map. set (f := fun m : string * jval => (m.1, normalize m.2)) in *.
  assert (Hk : forall l : list (string * jval), NoDup l.*1 -> NoDup (map f l).*1).
  { intros m. change (map f m) with (f <$> m). by rewrite <-list_fmap_compose. }
  apply jfield_perm; [by apply Hk|]. rewrite <-(merge_sort_Permutation member_le (map f l)), E. apply (merge_sort_Permutation _).
Qed.

Lemma fields_written l depth text k v : writeCanonical (JObj l) depth = Ok text -> (k, v) ∈ l -> exists t, writeCanonical v (depth + 1) = Ok t.
Proof.
  cbn [writeCanonical]. rewrite !check_ok_iff. intros (_ & _ & Hw) Hin. apply try_ok_iff in Hw as (ms & [_ Ht]%written_members & _).
  rewrite Forall_forall in Ht. apply (Ht _ Hin).
Qed.

Lemma canonical_number_nonneg z : canonical_number (dec_string z) = true -> 0 <= z.
Proof.
  rewrite canonical_number_spec. intros (n & Hn & E). destruct (Z_lt_le_dec z 0) as [Hz|]; [|done]. exfalso.
  pose proof (dec_string_all n (proj1 Hn)) as Ha. rewrite <-E in Ha. unfold dec_string in Ha. destruct (z <? 0) eqn:Ez; [done|to_prop; lia].
Qed.

Lemma jnum_written z depth t : writeCanonical (jnum z) depth = Ok t -> 0 <= z.
Proof. unfold jnum. cbn. rewrite !check_ok_iff. intros (_ & Hn & _). by apply canonical_number_nonneg. Qed.

(** ** What a hash determines *)

Lemma refs_wf r : jval_wf (refs_json r).
Proof.
  destruct r as [m|]; [|done]. cbn. split.
  - change (map ?f ?l) with (f <$> l). rewrite <-list_fmap_compose. erewrite list_fmap_ext; [apply (NoDup_fst_map_to_list m)|]. by intros i p.
  - apply all_of_Forall, Forall_map, Forall_forall. by intros p _.
Qed.

Lemma normalize_strings (l : list (string * string)) : map (fun m => (m.1, normalize m.2)) (map (fun p => (p.1, JStr p.2)) l) = map (fun p => (p.1, JStr p.2)) l.
Proof. rewrite map_map. by apply map_ext. Qed.

Definition string_of (m : string * jval) : string * string := (m.1, match m.2 with JStr s => s | _ => "" end).
Lemma string_of_json (l : list (string * string)) : map string_of (map (fun p => (p.1, JStr p.2)) l) = l.
Proof. rewrite map_map. rewrite <-(map_id l) at 2. apply map_ext. by intros []. Qed.

Lemma refs_json_inj r r' : normalize (refs_json r) = normalize (refs_json r') -> r = r'.
Proof.
  destruct r as [m|], r' as [m'|]; try done. unfold refs_json. cbn [normalize]. intros [= E]. rewrite !normalize_strings in E. f_equal.
  apply map_to_list_inj. rewrite <-(string_of_json (map_to_list m)), <-(string_of_json (map_to_list m')). apply Permutation_map.
  rewrite <-(merge_sort_Permutation member_le (map _ (map_to_list m))), E. apply (merge_sort_Permutation _).
Qed.

Lemma event_fields_nodup e p : NoDup (event_fields e p).*1.
Proof.
  apply (bool_decide_unpack _). unfold event_fields, omitted.
  destruct (bool_decide (eb_CausationID _ = "")), (bool_decide (eb_SupersedesEventID _ = "")); reflexivity.
Qed.

Lemma event_fields_wf e p : jval_wf p -> jval_wf (JObj (event_fields e p)).
Proof.
  intros Hp. split; [apply event_fields_nodup|]. pose proof (refs_wf (ev_EntityRefs e)). unfold event_fields, omitted.
  destruct (bool_decide _), (bool_decide _); cbn [app all_of snd jval_wf jnum]; tauto.
Qed.

(** The payload read as a value, up to the order of maps. *)
Definition same_payload (p q : string) : Prop := exists v w, decode_json p = Some v /\ decode_json q = Some w /\ normalize v = normalize w.

Definition same_event (e f : ChainEvent) : Prop :=
  ev_Sequence e = ev_Sequence f /\ ev_Body e = ev_Body f /\ ev_EntityRefs e = ev_EntityRefs f /\ same_payload (ev_Payload e) (ev_Payload f).

Lemma jfield_omitted k v l : normalize <$> jfield k (omitted k v ++ l) = (if bool_decide (v = "") then normalize <$> jfield k l else Some (JStr v)).
Proof. unfold omitted. case_bool_decide; [done|]. cbn. by rewrite String.eqb_refl. Qed.

Lemma event_text_inj e f text : event_document e = Ok text -> event_document f = Ok text -> same_event e f.
Proof.
  unfold event_document. destruct (decode_json (ev_Payload e)) as [p|] eqn:Ep; [|done]. destruct (decode_json (ev_Payload f)) as [q|] eqn:Eq; [|done]. intros He Hf.
  assert (E : normalize (JObj (event_fields e p)) = normalize (JObj (event_fields f q))).
  { eapply (written_inj _ _ 0 0 text); [lia|lia|by eapply event_fields_wf, decoded_wf|by eapply event_fields_wf, decoded_wf|done|done]. }
  pose proof (fun k => normalize_fields k _ _ (event_fields_nodup e p) (event_fields_nodup f q) E) as Hk.
  assert (Hnn : forall e p, writeCanonical (JObj (event_fields e p)) 0 = Ok text -> 0 <= ev_Sequence e /\ 0 <= eb_OccurredAtUnixMic (ev_Body e)).
  { intros e' p' Hw. split.
    - destruct (fields_written _ _ _ "seq" (jnum (ev_Sequence e')) Hw) as [t Ht]; [unfold event_fields; cbn [app]; right; left|by eapply jnum_written].
    - destruct (fields_written _ _ _ "timestampUnixMicros" (jnum (eb_OccurredAtUnixMic (ev_Body e'))) Hw) as [t Ht];
        [unfold event_fields; cbn [app]; do 4 right; left|by eapply jnum_written]. }
  destruct (Hnn e p He) as [Es Et], (Hnn f q Hf) as [Fs Ft].
  pose proof (Hk "seq") as K1. pose proof (Hk "eventId") as K2. pose proof (Hk "orgId") as K3. pose proof (Hk "timestampUnixMicros") as K4.
  pose proof (Hk "type") as K5. pose proof (Hk "actor") as K6. pose proof (Hk "causationId") as K7. pose proof (Hk "correlationId") as K8.
  pose proof (Hk "entityRefs") as K9. pose proof (Hk "payload") as K10. pose proof (Hk "supersedesEventId") as K11. pose proof (Hk "previousHash") as K12.
  pose proof (Hk "writerKeyId") as K13. clear Hk E He Hf Hnn.
  destruct e as [ev es [e1 e2 e3 e4 e5 e6 e7 e8 e9 e10] er epl eh em], f as [fv fs [f1 f2 f3 f4 f5 f6 f7 f8 f9 f10] fr fpl fh fm]. unfold event_fields, omitted in *. cbn [ev_Sequence ev_Body ev_EntityRefs ev_Payload eb_EventID
    eb_OrganizationID eb_OccurredAtUnixMic eb_Type eb_Actor eb_CausationID eb_CorrelationID eb_SupersedesEventID eb_PreviousHash eb_WriterKeyID] in *.
  repeat case_bool_decide; cbn in K1, K2, K3, K4, K5, K6, K7, K8, K9, K10, K11, K12, K13; try discriminate K7; try discriminate K11; simplify_eq;
    unfold same_event; cbn; (split; [by apply dec_string_inj|]); (split; [f_equal; try done; by apply dec_string_inj|]);
    (split; [by apply refs_json_inj|]); eexists _, _; by split_and!.
Qed.

Section Chain.
Context `{Crypto}.

Definition sha256_broken : Prop := exists x y, x <> y /\ sha256 x = sha256 y.

Lemma event_hash_inj e f h : calculateEventHash e = Ok h -> calculateEventHash f = Ok h -> sha256_broken \/ same_event e f.
Proof.
  unfold calculateEventHash. intros (t & He & [= <-])%try_ok_iff (u & Hf & Heq)%try_ok_iff. injection Heq as Heq.
  apply hex_encode_inj in Heq. destruct (decide (t = u)) as [->|Hd]; [right; by eapply event_text_inj|]. left. exists (event_preimage u), (event_preimage t).
  split; [|done]. unfold event_preimage. intros Hx. apply Hd. symmetry. by do 2 apply str_app_inv_head in Hx.
Qed.

Record verified (keys : gmap string string) (e : ChainEvent) (sequence : Z) (previous : string) : Prop := {
  vf_schema : ev_SchemaVersion e = EventSchemaVersion;
  vf_sequence : ev_Sequence e = sequence;
  vf_previous : eb_PreviousHash (ev_Body e) = previous;
  vf_valid : validStoredEvent e = true;
  vf_hash : calculateEventHash e = Ok (ev_EventHash e);
  vf_mac : exists key, keys !! eb_WriterKeyID (ev_Body e) = Some key /\ str_len key = 32 /\ calculateMAC key (ev_EventHash e) = ev_WriterMAC e }.

Lemma verify_event_iff e n previous keys : VerifyEvent e n previous keys = Ok tt <-> verified keys e n previous.
Proof.
  unfold VerifyEvent. rewrite check_ok_iff, try_ok_iff. split.
  - intros (Hc & h & Hh & H'). destruct (calculateEventHash e) as [h'|] eqn:Eh; [|done]. injection Hh as ->. rewrite check_ok_iff in H'. destruct H' as [Heq H'].
    apply bool_decide_eq_true in Heq as ->. destruct (keys !! _) as [key|] eqn:Ek; [|done]. rewrite !check_ok_iff in H'. to_prop. destruct H' as (Hl & Hm & _).
    split; try tauto. by exists key.
  - intros [V1 V2 V3 V4 V5 (key & Hk & Hl & Hm)]. split; [by rewrite V1, V2, V3, V4, !Z.eqb_refl, bool_decide_eq_true_2|]. exists (ev_EventHash e). rewrite V5.
    split; [done|]. rewrite check_ok_iff. split; [by apply bool_decide_eq_true|]. rewrite Hk, !check_ok_iff. split_and!; [by apply Z.eqb_eq|by apply bool_decide_eq_true|done].
Qed.

(** Events that follow each other from a position. *)
Fixpoint chain_from (keys : gmap string string) (n : Z) (previous : string) (es : list ChainEvent) : Prop :=
  match es with [] => True | e :: es => verified keys e n previous /\ chain_from keys (n + 1) (ev_EventHash e) es end.

Definition end_of (h : Head) (es : list ChainEvent) : Head :=
  mkHead (hd_Sequence h + Z.of_nat (length es)) (match last es with Some e => ev_EventHash e | None => hd_EventHash h end).

Lemma last_hash e es d : match last (e :: es) with Some x => ev_EventHash x | None => d end = match last es with Some x => ev_EventHash x | None => ev_EventHash e end.
Proof. induction es as [|x es _] using rev_ind; [done|]. by rewrite app_comm_cons, !last_snoc. Qed.

Lemma verify_rows_from keys rows : forall h h',
  foldl (verify_step keys) (Ok h) rows = Ok h' <->
  exists es, Forall2 (fun r e => scanEvent r = Ok e) rows es /\ chain_from keys (hd_Sequence h + 1) (hd_EventHash h) es /\ h' = end_of h es.
Proof.
  assert (Herr : forall e rows, foldl (verify_step keys) (Err e) rows = Err e) by (intros e l; induction l; cbn; auto).
  induction rows as [|r rows IH]; intros h h'; cbn [foldl].
  - split.
    + intros [= <-]. exists []. split_and!; [constructor|done|]. unfold end_of. cbn. destruct h. cbn. f_equal. lia.
    + intros (es & HF & _ & ->). inversion HF. unfold end_of. cbn. destruct h. cbn. do 2 f_equal. lia.
  - unfold verify_step at 2. split.
    + destruct (scanEvent r) as [e|x] eqn:Es; [|cbn; by rewrite Herr]. destruct (VerifyEvent e _ _ keys) as [[]|x] eqn:Ev; [|cbn; by rewrite Herr].
      intros (es & HF & Hc & ->)%IH. exists (e :: es). apply verify_event_iff in Ev. split_and!; [by constructor|done|].
      unfold end_of. cbn [hd_Sequence hd_EventHash length]. f_equal; [lia|]. symmetry. apply last_hash.
    + intros (es & HF & Hc & ->). inversion HF as [|? e ? es' Hs HF']; subst. destruct Hc as [Hv Hc]. rewrite Hs. apply verify_event_iff in Hv. rewrite Hv.
      apply IH. exists es'. split_and!; [done|done|]. unfold end_of. cbn [hd_Sequence hd_EventHash length]. f_equal; [lia|]. apply last_hash.
Qed.

Lemma verify_chain_iff db keys h :
  VerifyChain db keys = Ok h <->
  exists es, Forall2 (fun r e => scanEvent r = Ok e) (db_events db) es /\ chain_from keys 1 zeroHash es /\ h = end_of (mkHead 0 zeroHash) es.
Proof. apply verify_rows_from. Qed.

(** The chain back from a position determines the events up to it. *)
Lemma chain_binds keys keys' n : forall s previous previous' es es' a b,
  chain_from keys s previous es -> chain_from keys' s previous' es' -> es !! n = Some a -> es' !! n = Some b -> ev_EventHash a = ev_EventHash b ->
  sha256_broken \/ (previous = previous' /\ forall i, (i <= n)%nat -> exists x y, es !! i = Some x /\ es' !! i = Some y /\ same_event x y /\ ev_EventHash x = ev_EventHash y).
Proof.
  induction n as [|n IH]; intros s previous previous' [|e es] [|f es'] a b Hc Hc' Ha Hb Hh; try done; destruct Hc as [Hv Hc], Hc' as [Hv' Hc']; cbn in Ha, Hb.
  - injection Ha as <-. injection Hb as <-. destruct (event_hash_inj e f (ev_EventHash e)) as [?|Hs]; [by apply Hv|rewrite Hh; by apply Hv'|by left|right].
    split; [|intros i Hi; replace i with 0%nat by lia; by exists e, f]. destruct Hs as (_ & Hb & _). rewrite <-(vf_previous _ _ _ _ Hv), <-(vf_previous _ _ _ _ Hv'). by rewrite Hb.
  - destruct (IH _ _ _ _ _ _ _ Hc Hc' Ha Hb Hh) as [?|[He Hi]]; [by left|].
    destruct (event_hash_inj e f (ev_EventHash e)) as [?|Hs]; [by apply Hv|rewrite He; by apply Hv'|by left|right].
    split; [destruct Hs as (_ & Hbody & _); rewrite <-(vf_previous _ _ _ _ Hv), <-(vf_previous _ _ _ _ Hv'); by rewrite Hbody|].
    intros [|i] Hle; [by exists e, f|]. apply Hi. lia.
Qed.

Lemma chain_sequence keys s previous es : chain_from keys s previous es -> forall i e, es !! i = Some e -> ev_Sequence e = s + Z.of_nat i.
Proof.
  revert s previous. induction es as [|e es IH]; intros s previous Hc i x; [done|]. destruct Hc as [Hv Hc]. destruct i as [|i]; cbn.
  - intros [= <-]. rewrite (vf_sequence _ _ _ _ Hv). lia.
  - intros Hx. rewrite (IH _ _ Hc _ _ Hx). lia.
Qed.

Lemma scan_sequence r e : scanEvent r = Ok e -> ev_Sequence e = rw_Sequence r /\ ev_EventHash e = rw_EventHash r.
Proof. unfold scanEvent. by intros (refs & _ & [= <-])%try_ok_iff. Qed.

(** Rows with consecutive numbers are found by them. *)
Lemma find_row rows es s : Forall2 (fun r e => scanEvent r = Ok e) rows es -> (forall i e, es !! i = Some e -> ev_Sequence e = s + Z.of_nat i) ->
  forall n, List.find (fun r => rw_Sequence r =? n) rows = if (s <=? n) then rows !! Z.to_nat (n - s) else None.
Proof.
  intros HF. revert s. induction HF as [|r e rows es Hr HF IH]; intros s Hs n; cbn [List.find].
  - by destruct (s <=? n).
  - destruct (scan_sequence _ _ Hr) as [Hseq _]. specialize (Hs 0%nat e eq_refl) as H0. destruct (rw_Sequence r =? n) eqn:E; to_prop.
    + replace n with s by lia. rewrite Z.leb_refl, Z.sub_diag. done.
    + rewrite (IH (s + 1)); [|intros i x Hx; rewrite (Hs (S i) x Hx); lia]. destruct (s <=? n) eqn:E1, (s + 1 <=? n) eqn:E2; to_prop; try done; try lia.
      replace (Z.to_nat (n - s)) with (S (Z.to_nat (n - (s + 1)))) by lia. done.
Qed.

Lemma event_at db keys h es n :
  Forall2 (fun r e => scanEvent r = Ok e) (db_events db) es -> chain_from keys 1 zeroHash es -> h = end_of (mkHead 0 zeroHash) es ->
  forall e, EventAt db n = Ok e <-> 1 <= n /\ es !! Z.to_nat (n - 1) = Some e.
Proof.
  intros HF Hc _ e. unfold EventAt. rewrite (find_row _ _ 1 HF (chain_sequence _ _ _ _ Hc)). destruct (1 <=? n) eqn:E; to_prop; [|split; [done|lia]]. split.
  - destruct (_ !! _) as [r|] eqn:Er; [|done]. destruct (Forall2_lookup_l _ _ _ _ _ HF Er) as (x & Hx & Hs). intros Hs'. split; [done|congruence].
  - intros [_ He]. destruct (Forall2_lookup_r _ _ _ _ _ HF He) as (r & Hr & Hs). by rewrite Hr.
Qed.

Lemma last_event db keys h es :
  Forall2 (fun r e => scanEvent r = Ok e) (db_events db) es -> chain_from keys 1 zeroHash es -> h = end_of (mkHead 0 zeroHash) es -> 0 < hd_Sequence h ->
  exists e, es !! Z.to_nat (hd_Sequence h - 1) = Some e /\ ev_EventHash e = hd_EventHash h /\ (Z.to_nat (hd_Sequence h - 1) < length es)%nat /\
    length es = Z.to_nat (hd_Sequence h).
Proof.
  intros HF Hc -> Hpos. cbn in *. destruct es as [|e es _] using rev_ind; [cbn in Hpos; lia|]. rewrite last_snoc, length_app in *. cbn [length] in *.
  exists e. replace (Z.to_nat (Z.of_nat (length es + 1) - 1)) with (length es) by lia. split_and!; [apply list_lookup_middle; lia|done|lia|lia].
Qed.
End Chain.

(** ** Recovery *)

Section Recovery.
Context `{Crypto, ExternalStores, !ExternalLaws}.

Lemma outside_ok w c head w' : publish_outside w c head = (w', Ok tt) ->
  wd_db w' = wd_db w /\ remote_Current (wd_remote w') = Ok head /\ worm_Get (wd_worm w') (cp_WORMRef c) = Ok (checkpointBlob c).
Proof.
  unfold publish_outside. destruct (worm_Put _ _ _) as [worm' [[]|e]] eqn:Ep; [|done]. destruct (remote_Advance _ _) as [remote' r] eqn:Ea. intros [= <- ->]. cbn.
  split_and!; [done|by eapply advance_current|by eapply put_get].
Qed.

(** What a successful publication leaves behind. *)
Lemma published p tb now saved w w' r : publish p tb now saved w = (w', Ok r) ->
  exists head c, VerifyChain (wd_db w) (pb_writerKeys p) = Ok head /\ hd_Sequence head <> 0 /\ remote_Current (wd_remote w') = Ok head /\
    worm_Get (wd_worm w') (cp_WORMRef c) = Ok (checkpointBlob c) /\ nonzeroHash tb = true /\
    ((wd_db w' = wd_db w /\ LatestCheckpoint (wd_db w) = Ok c /\ cp_LastSequence c = hd_Sequence head /\ cp_LastEventHash c = hd_EventHash head /\
      verifyCheckpoint c (own_key p) = Ok tt) \/
     (signCheckpoint head tb (pb_keyID p) (pb_privateKey p) now = Ok c /\ (forall l, LatestCheckpoint (wd_db w) = Ok l -> cp_LastSequence l < hd_Sequence head) /\
      SaveCheckpoint (wd_db w) c = Ok (wd_db w', r))).
Proof.
  unfold publish. destruct (negb (nonzeroHash tb)) eqn:Etb; [done|]. apply negb_false_iff in Etb. destruct (VerifyChain _ _) as [head|e] eqn:Ev; [|done].
  destruct (_ || _) eqn:Ez; [done|]. apply orb_false_iff in Ez as [Ez _]. apply Z.eqb_neq in Ez. cbv zeta.
  assert (Hfresh : (forall l, LatestCheckpoint (wd_db w) = Ok l -> cp_LastSequence l < hd_Sequence head) ->
    match signCheckpoint head tb (pb_keyID p) (pb_privateKey p) now with
    | Err e => (w, Err e)
    | Ok c => match publish_outside w c head with
              | (w, Err e) => (w, Err e)
              | (w, Ok _) => if negb saved then (w, Err "database unavailable") else
                  match SaveCheckpoint (wd_db w) c with Err e => (w, Err e) | Ok (db, result) => (mkEworld db (wd_worm w) (wd_remote w), Ok result) end
              end
    end = (w', Ok r) -> exists c, remote_Current (wd_remote w') = Ok head /\ worm_Get (wd_worm w') (cp_WORMRef c) = Ok (checkpointBlob c) /\
      signCheckpoint head tb (pb_keyID p) (pb_privateKey p) now = Ok c /\ SaveCheckpoint (wd_db w) c = Ok (wd_db w', r)).
  { intros _. destruct (signCheckpoint _ _ _ _ _) as [c|e]; [|done]. destruct (publish_outside w c head) as [w1 [[]|e]] eqn:Eo; [|done].
    apply outside_ok in Eo as (Hdb & Hr & Hg). destruct (negb saved); [done|]. rewrite Hdb. destruct (SaveCheckpoint _ c) as [[db result]|e] eqn:Es; [|done].
    intros [= <- <-]. cbn. by exists c. }
  destruct (LatestCheckpoint (wd_db w)) as [latest|e] eqn:El.
  - destruct (cp_LastSequence latest =? hd_Sequence head) eqn:E1.
    + destruct (_ && _) eqn:E2; [|done]. rewrite !andb_true_iff in E2. destruct E2 as [[[Hh _] _] Hv]. destruct (publish_outside w latest head) as [w1 [[]|e]] eqn:Eo; [|done].
      apply outside_ok in Eo as (Hdb & Hr & Hg). intros [= <- <-]. apply bool_decide_eq_true in Hh. apply Z.eqb_eq in E1. exists head, latest. split_and!; try done. left.
      split_and!; try done. by destruct (verifyCheckpoint latest (own_key p)) as [[]|].
    + destruct (_ <? _) eqn:E2; [done|]. intros Hf. to_prop. destruct Hfresh as (c & Hr & Hg & Hs & Hsave); [intros l [= <-]; lia|exact Hf|].
      exists head, c. split_and!; try done. right. split_and!; try done. intros l [= <-]. lia.
  - intros Hf. destruct Hfresh as (c & Hr & Hg & Hs & Hsave); [done|exact Hf|]. exists head, c. split_and!; try done. right. by split_and!.
Qed.

(** C34: a recovered database is checked against what was published. After a publication,
    whatever has happened to the database: if recovery accepts it under the remote head that
    the publication left, then every event that was published is still in its place, with
    the same fields, references and payload value, unless SHA-256 collides. *)
Theorem recovery_detects_rewriting (p : PublisherConfig) (tb : string) (now : time) (saved : bool) (w w' w2 : eworld) (r : EventCheckpoint * bool)
    (writerKeys checkpointKeys : gmap string string) (status : RecoveryStatus) :
  publish p tb now saved w = (w', Ok r) -> remote_Current (wd_remote w2) = remote_Current (wd_remote w') ->
  VerifyRecovery w2 writerKeys checkpointKeys = Ok status ->
  sha256_broken \/
  forall i row, db_events (wd_db w) !! i = Some row ->
    exists row2 e e2, db_events (wd_db w2) !! i = Some row2 /\ scanEvent row = Ok e /\ scanEvent row2 = Ok e2 /\ same_event e e2.
Proof.
  intros (head & c & Hv & Hz & Hr & _)%published Hsame Hrec. rewrite Hr in Hsame. apply verify_chain_iff in Hv as (es & HF & Hc & Hh).
  unfold VerifyRecovery in Hrec. apply try_ok_iff in Hrec as (local & Hl & Hrec). rewrite Hsame in Hrec. cbn [is_ok] in Hrec. rewrite !check_ok_iff in Hrec.
  destruct Hrec as (_ & Hon & _). apply verify_chain_iff in Hl as (es2 & HF2 & Hc2 & Hl).
  assert (Hpos : 0 < hd_Sequence head) by (rewrite Hh in Hz |- *; cbn in *; lia). destruct (last_event _ _ _ _ HF Hc Hh Hpos) as (a & Ha & Hah & _ & Hlen).
  to_prop. destruct Hon as [Hbad|Hon]; [lia|]. unfold on_chain in Hon. destruct (EventAt (wd_db w2) (hd_Sequence head)) as [b|] eqn:Eb; [|done].
  apply bool_decide_eq_true in Hon. apply (event_at _ _ _ _ _ HF2 Hc2 Hl) in Eb as [_ Hb].
  destruct (chain_binds _ _ _ _ _ _ _ _ _ _ Hc Hc2 Ha Hb) as [?|[_ Hall]]; [congruence|by left|right].
  intros i row Hrow. destruct (Forall2_lookup_l _ _ _ _ _ HF Hrow) as (e & He & Hs). pose proof (lookup_lt_Some _ _ _ He).
  destruct (Hall i) as (x & y & Hx & Hy & Hsm & _); [lia|]. destruct (Forall2_lookup_r _ _ _ _ _ HF2 Hy) as (row2 & Hrow2 & Hs2).
  exists row2, e, y. rewrite He in Hx. injection Hx as ->. by split_and!.
Qed.
End Recovery.
