(* ===== verification/EventRuns.v ===== *)
(** * Appending and publishing

    Every append by a known writer leaves a chain that verifies; an event replayed with the
    same input is the stored one; a publication leaves a world that recovery accepts as
    externally checkpointed. *)
From stdpp Require Import base gmap strings list sorting.
From Stdlib Require Import ZArith Lia Ascii.
From S2P Require Import Prelude GoText GoJSON Amounts Crypto Envelope CanonicalJSON CanonicalTheorems EventStore EventTheorems.

Open Scope Z_scope.

(** ** Texts *)

Lemma printable_identifier s lo hi : str_all printable s = true -> lo <= str_len s <= hi -> event_identifier s lo hi = true.
Proof.
  intros Hp Hl. unfold event_identifier. rewrite (bool_decide_eq_true_2 _ (printable_trim s Hp)). rewrite valid_utf8_ascii.
  - rewrite !andb_true_r. rewrite !andb_true_iff. split; [split; to_prop; lia|]. revert Hp. rewrite !str_all_chars, !forallb_forall. intros Hp c Hc.
    specialize (Hp c Hc). unfold printable, between in Hp. apply andb_true_iff. to_prop. lia.
  - revert Hp. rewrite !str_all_chars, !forallb_forall. intros Hp c Hc. specialize (Hp c Hc). unfold printable, is_ascii, between in *. to_prop. lia.
Qed.

Lemma hex_printable s : str_all printable (hex_encode s) = true.
Proof.
  pose proof (hex_encode_lower s) as Hl. revert Hl. rewrite !str_all_chars, !forallb_forall. intros Hl c Hc. specialize (Hl c Hc).
  unfold is_lower_hex, is_digit, printable, between in *. to_prop. lia.
Qed.

Lemma raw_hash_hex s : str_len s = 32 -> raw_hash (hex_encode s) = true.
Proof. intros Hs. unfold raw_hash. rewrite hex_encode_lower, andb_true_r. unfold str_len in *. rewrite hex_encode_length. to_prop. lia. Qed.

Lemma event_identifier_utf8 v lo hi : event_identifier v lo hi = true -> valid_utf8 v = true.
Proof. unfold event_identifier. rewrite !andb_true_iff. tauto. Qed.

(** ** References survive their text *)

Lemma decode_members_json l : NoDup l.*1 -> decode_members (map (fun p => (p.1, JStr p.2)) l) = Some (list_to_map l).
Proof. induction l as [|[k v] l IH]; cbn; [done|]. rewrite NoDup_cons. intros [_ N]. by rewrite IH. Qed.

Lemma sort_strings (l : list (string * string)) : exists l', l' ≡ₚ l /\ merge_sort member_le (map (fun p => (p.1, JStr p.2)) l) = map (fun p => (p.1, JStr p.2)) l'.
Proof.
  pose proof (merge_sort_Permutation member_le (map (fun p : string * string => (p.1, JStr p.2)) l)) as P.
  exists (map string_of (merge_sort member_le (map (fun p => (p.1, JStr p.2)) l))). split.
  - rewrite <-(string_of_json l) at 2. by apply Permutation_map.
  - rewrite map_map. rewrite <-map_id at 1. apply map_ext_in. intros [k v] Hin. apply list_elem_of_In in Hin. rewrite P in Hin.
    apply list_elem_of_fmap in Hin as (p & [= -> ->] & _). done.
Qed.

Lemma refs_roundtrip m text : writeCanonical (refs_json (Some m)) 0 = Ok text -> decode_refs text = Ok (Some m).
Proof.
  intros Hw. unfold decode_refs. rewrite (decode_written _ 0 text ltac:(lia) Hw (refs_wf _)). unfold refs_json. cbn [normalize]. rewrite normalize_strings.
  destruct (sort_strings (map_to_list m)) as (l & P & ->). rewrite decode_members_json by (rewrite P; apply NoDup_fst_map_to_list).
  do 2 f_equal. rewrite <-(list_to_map_to_list m). apply list_to_map_proper; [rewrite P; apply NoDup_fst_map_to_list|done].
Qed.

Section Append.
Context `{Crypto, !CryptoLaws}.

(** ** Built events verify *)

Lemma micro_of_time t : 0 < UnixMicro t -> UnixMicro (time_of_micro (UnixMicro t)) = UnixMicro t /\ time_IsZero (time_of_micro (UnixMicro t)) = false.
Proof.
  intros Hp. assert (Hr : MinInt64 <= UnixMicro t <= MaxInt64) by apply int64_range. split.
  - unfold UnixMicro at 1. unfold time_of_micro. replace (_ + _ - unix_epoch) with (UnixMicro t * 1000) by lia. rewrite Z.div_mul by lia. by apply int64_id.
  - unfold time_IsZero, time_of_micro, unix_epoch. apply Z.eqb_neq. unfold unixToInternal, Second. lia.
Qed.

Lemma built_input i sequence previous w e : buildEvent i sequence previous w = Ok e ->
  validInput i = true /\ canonical_payload (in_Payload i) = Ok (ev_Payload e) /\ ev_Payload e <> "" /\ ev_EntityRefs e = Some (default ∅ (in_EntityRefs i)) /\
  ev_Body e = mkEventBody (in_EventID i) (in_OrganizationID i) (UnixMicro (in_OccurredAt i)) (in_Type i) (in_Actor i) (in_CausationID i)
                (in_CorrelationID i) (in_SupersedesEventID i) previous (ew_KeyID w) /\
  ev_SchemaVersion e = EventSchemaVersion /\ ev_Sequence e = sequence /\ raw_hash previous = true /\ str_len (ew_Key w) = 32 /\
  event_identifier (ew_KeyID w) 8 128 = true /\ calculateEventHash e = Ok (ev_EventHash e) /\ ev_WriterMAC e = calculateMAC (ew_Key w) (ev_EventHash e).
Proof.
  unfold buildEvent. intros (payload & Hp & Hb)%try_ok_iff. destruct (canonical_payload (in_Payload i)) as [p|] eqn:Ep; [|done]. injection Hp as ->.
  rewrite check_ok_iff in Hb. destruct Hb as [Hc Hb]. apply try_ok_iff in Hb as (h & Hh & [= <-]). rewrite !andb_true_iff in Hc.
  destruct Hc as [[[[[[C1 C2] C3] C4] C5] C6] C7]. cbn. apply negb_true_iff, bool_decide_eq_false in C1. apply Z.eqb_eq in C6. split_and!; done.
Qed.

Lemma refs_list_default r : refs_list (Some (default ∅ r)) = refs_list r.
Proof. destruct r; [done|]. apply map_to_list_empty. Qed.

Lemma built_verified i sequence previous w e keys :
  buildEvent i sequence previous w = Ok e -> keys !! ew_KeyID w = Some (ew_Key w) -> verified keys e sequence previous.
Proof.
  intros (Hi & _ & Hne & Hr & Hb & Hs & Hq & Hprev & Hk & Hid & Hh & Hm)%built_input Hkey. split; try done; try (by rewrite Hb).
  - unfold validStoredEvent. rewrite Hb. cbn [eb_PreviousHash eb_WriterKeyID]. rewrite Hprev, Hid, Hm, (bool_decide_eq_false_2 _ Hne).
    assert (Hrh : raw_hash (ev_EventHash e) = true).
    { unfold calculateEventHash in Hh. apply try_ok_iff in Hh as (t & _ & Heq). injection Heq as <-. apply raw_hash_hex, sha256_size. }
    assert (Hrm : raw_hash (calculateMAC (ew_Key w) (ev_EventHash e)) = true) by apply raw_hash_hex, sha256_size.
    rewrite Hrh, Hrm, !andb_true_r. unfold validInput, stored_as_input in *. rewrite Hb, Hr. cbn [in_EventID in_OrganizationID in_OccurredAt in_Type in_Actor
      in_CausationID in_CorrelationID in_EntityRefs in_Payload in_SupersedesEventID eb_EventID eb_OrganizationID eb_OccurredAtUnixMic eb_Type eb_Actor
      eb_CausationID eb_CorrelationID eb_SupersedesEventID] in *. rewrite refs_list_default.
    rewrite !andb_true_iff in Hi. destruct Hi as [[[[[[[[[I1 I2] I3] I4] I5] I6] I7] I8] I9] I10]. apply Z.ltb_lt in I7. destruct (micro_of_time _ I7) as [Hu Hz].
    rewrite I1, I2, I3, I4, I5, I8, I9, I10, Hu, Hz, (proj2 (Z.ltb_lt _ _) I7). done.
  - exists (ew_Key w). rewrite Hb, Hm. done.
Qed.

Lemma scan_built i sequence previous w e refs mac :
  buildEvent i sequence previous w = Ok e -> writeCanonical (refs_json (ev_EntityRefs e)) 0 = Ok refs -> hex_decode (ev_WriterMAC e) = Some mac ->
  scanEvent (row_of e refs mac) = Ok e.
Proof.
  intros (_ & _ & _ & Hr & Hb & Hs & Hq & _ & _ & _ & _ & Hm)%built_input Hw Hd. unfold scanEvent, row_of. cbn. rewrite Hr in Hw. rewrite (refs_roundtrip _ _ Hw).
  rewrite Hm in Hd. unfold calculateMAC in Hm, Hd. rewrite hex_decode_encode in Hd. injection Hd as <-. rewrite <-Hs, <-Hr, <-Hm. by destruct e.
Qed.

(** ** Appends *)

(** An append is the stored event, or one more row that scans to the event it built. *)
Lemma append_cases db i w db' e replayed : append db i w = Ok (db', (e, replayed)) ->
  (replayed = true /\ db' = db /\ exists row, eventByID db (in_EventID i) = Some row /\ scanEvent row = Ok e /\ eventMatchesInput e i = true) \/
  (replayed = false /\ eventByID db (in_EventID i) = None /\
   buildEvent i (hd_Sequence (event_head db) + 1) (hd_EventHash (event_head db)) w = Ok e /\
   exists row refs, scanEvent row = Ok e /\ rw_Body row = ev_Body e /\ writeCanonical (refs_json (ev_EntityRefs e)) 0 = Ok refs /\
     db' = mkEdb (db_organizations db) (db_events db ++ [row]) (db_checkpoints db)).
Proof.
  unfold append. destruct (eventByID db (in_EventID i)) as [row|] eqn:Er.
  - intros (stored & Hs & H')%try_ok_iff. rewrite check_ok_iff in H'. destruct H' as [Hm [= <- <- <-]]. left. split_and!; [done|done|]. by exists row.
  - cbv zeta. intros (e' & He & H')%try_ok_iff. apply try_ok_iff in H' as (refs & Hrf & H'). destruct (hex_decode (ev_WriterMAC e')) as [mac|] eqn:Em; [|done].
    rewrite !check_ok_iff in H'. destruct H' as (_ & _ & [= <- <- <-]). right. split_and!; [done|done|done|].
    exists (row_of e' refs mac), refs. split_and!; [by eapply scan_built|done|done|done].
Qed.

Lemma verified_head db keys h : VerifyChain db keys = Ok h -> event_head db = h.
Proof.
  intros (es & HF & Hc & ->)%verify_chain_iff. unfold event_head, end_of. pose proof (Forall2_length _ _ _ HF) as Hl.
  destruct (db_events db) as [|r rows _] eqn:Er using rev_ind.
  - destruct es; [done|done].
  - rewrite last_snoc. apply Forall2_app_inv_l in HF as (es1 & es2 & HF1 & HF2 & ->). inversion HF2 as [|? e ? ? Hs HN]; subst. inversion HN; subst.
    rewrite last_snoc. destruct (scan_sequence _ _ Hs) as [Hq Hh]. rewrite <-Hq, <-Hh. cbn [hd_Sequence]. f_equal.
    rewrite (chain_sequence _ _ _ _ Hc (length es1) e) by (by apply list_lookup_middle). rewrite length_app. cbn. lia.
Qed.

Lemma chain_snoc keys e : forall s previous es, chain_from keys s previous (es ++ [e]) <->
  chain_from keys s previous es /\ verified keys e (s + Z.of_nat (length es)) (match last es with Some x => ev_EventHash x | None => previous end).
Proof.
  intros s previous es. revert s previous. induction es as [|x es IH]; intros s previous; cbn [app chain_from length].
  - cbn. rewrite Z.add_0_r. tauto.
  - rewrite IH. rewrite last_hash. replace (s + Z.of_nat (S (length es))) with (s + 1 + Z.of_nat (length es)) by lia. tauto.
Qed.

Lemma append_verifies db i w db' e replayed keys :
  keys !! ew_KeyID w = Some (ew_Key w) -> VerifyChain db keys = Ok (event_head db) -> append db i w = Ok (db', (e, replayed)) ->
  VerifyChain db' keys = Ok (event_head db').
Proof.
  intros Hk Hv [(_ & -> & _)|(_ & _ & Hb & row & refs & Hs & _ & _ & ->)]%append_cases; [done|]. pose proof Hv as (es & HF & Hc & Hh)%verify_chain_iff.
  assert (Hv' : VerifyChain (mkEdb (db_organizations db) (db_events db ++ [row]) (db_checkpoints db)) keys = Ok (end_of (mkHead 0 zeroHash) (es ++ [e]))).
  { apply verify_chain_iff. exists (es ++ [e]). split_and!; [by apply Forall2_app; [|constructor]|apply chain_snoc; split; [done|]|done].
    eapply built_verified in Hb; [|done]. rewrite Hh in Hb. cbn [end_of hd_Sequence hd_EventHash] in Hb. rewrite Z.add_0_l, Z.add_comm in Hb. exact Hb. }
  rewrite (verified_head _ _ _ Hv'). exact Hv'.
Qed.

Definition event_ids (db : edb) : list string := map (fun r => eb_EventID (rw_Body r)) (db_events db).

Lemma append_ids db i w db' r : append db i w = Ok (db', r) -> NoDup (event_ids db) -> NoDup (event_ids db').
Proof.
  destruct r as [e b]. intros [(_ & -> & _)|(_ & Hno & Hb & row & refs & _ & Hrow & _ & ->)]%append_cases N; [done|]. unfold event_ids in *. cbn [db_events]. rewrite map_app.
  apply NoDup_app. split_and!; [done| |apply NoDup_singleton]. intros x Hx Hin. apply list_elem_of_singleton in Hin as ->.
  apply list_elem_of_fmap in Hx as (y & Hy & Hin). unfold eventByID in Hno. apply find_none with (x := y) in Hno; [|by apply list_elem_of_In].
  apply bool_decide_eq_false in Hno. apply Hno. rewrite <-Hy, Hrow. apply built_input in Hb as (_ & _ & _ & _ & Hbody & _). by rewrite Hbody.
Qed.

Definition append_exec (db : edb) (op : EventInput * EventWriter) : edb := match append db op.1 op.2 with Ok (db, _) => db | Err _ => db end.
Definition no_events (organizations : gset string) : edb := mkEdb organizations [] [].

(** C35: the chain always verifies. After any appends by writers whose keys are known, in any
    order and with whatever inputs, the whole chain verifies up to its head, which numbers
    the events without a gap, and no event ID occurs twice. *)
Theorem appended_chain_verifies (organizations : gset string) (ops : list (EventInput * EventWriter)) (keys : gmap string string) :
  Forall (fun op => keys !! ew_KeyID op.2 = Some (ew_Key op.2)) ops ->
  let db := foldl append_exec (no_events organizations) ops in
  VerifyChain db keys = Ok (event_head db) /\ hd_Sequence (event_head db) = Z.of_nat (length (db_events db)) /\ NoDup (event_ids db).
Proof.
  intros HF db. assert (Hinv : VerifyChain db keys = Ok (event_head db) /\ NoDup (event_ids db)).
  { subst db. assert (H0' : VerifyChain (no_events organizations) keys = Ok (event_head (no_events organizations)) /\ NoDup (event_ids (no_events organizations))) by (split; [done|constructor]).
    revert H0'. generalize (no_events organizations). induction HF as [|op ops Hk HF IH]; intros db0 [Hv N]; cbn [foldl]; [done|]. apply IH.
    unfold append_exec. destruct (append db0 op.1 op.2) as [[db1 [e b]]|] eqn:E; [|done]. split; [by eapply append_verifies|by eapply append_ids]. }
  destruct Hinv as [Hv N]. split_and!; [done| |done]. pose proof Hv as (es & HFs & Hc & Hh)%verify_chain_iff. rewrite Hh. cbn. by rewrite (Forall2_length _ _ _ HFs).
Qed.

Lemma find_snoc {A} (f : A -> bool) l x : List.find f l = None -> f x = true -> List.find f (l ++ [x]) = Some x.
Proof. intros Hl Hx. induction l as [|y l IH]; cbn in *; [by rewrite Hx|]. destruct (f y); [done|auto]. Qed.

Lemma refs_written m text : writeCanonical (refs_json (Some m)) 0 = Ok text -> exists r, text = "{" +:+ r.
Proof. unfold refs_json. cbn [writeCanonical]. rewrite !check_ok_iff. intros (_ & _ & H'). apply try_ok_iff in H' as (ms & _ & [= <-]). unfold write_object. eauto. Qed.

(** replaying an append. The same input again gives back the stored event, whatever the
    writer's key is by then, unless the input left its entity references nil: such an event
    is refused when it is replayed, because nil is written as null and was stored as an
    empty object. *)
Theorem event_replay (db db' : edb) (i : EventInput) (w w' : EventWriter) (e : ChainEvent) :
  append db i w = Ok (db', (e, false)) ->
  append db' i w' = match in_EntityRefs i with Some _ => Ok (db', (e, true)) | None => Err ErrEventConflict end.
Proof.
  intros [(? & _)|(_ & Hno & Hb & row & refs & Hs & Hrow & Hrf & ->)]%append_cases; [done|]. pose proof Hb as (Hi & Hp & _ & Hr & Hbody & _)%built_input.
  unfold append. assert (eventByID (mkEdb (db_organizations db) (db_events db ++ [row]) (db_checkpoints db)) (in_EventID i) = Some row) as ->.
  { unfold eventByID in *. cbn [db_events]. apply find_snoc; [done|]. rewrite Hrow, Hbody. by apply bool_decide_eq_true. }
  rewrite Hs. unfold eventMatchesInput. rewrite Hp, Hbody. rewrite Hr in Hrf |- *. cbn [eb_EventID eb_OrganizationID eb_OccurredAtUnixMic eb_Type eb_Actor eb_CausationID
    eb_CorrelationID eb_SupersedesEventID]. destruct (in_EntityRefs i) as [m|]; cbn [default id] in *.
  - rewrite Hrf, Hi, Z.eqb_refl, !bool_decide_eq_true_2 by done. done.
  - rewrite Hrf. apply refs_written in Hrf as [r ->]. change (writeCanonical (refs_json None) 0) with (@Ok string "null"). cbv iota.
    rewrite (bool_decide_eq_false_2 ("{" +:+ r = "null")) by done. by rewrite andb_false_r.
Qed.
End Append.

(** ** Publications *)

Section Publish.
Context `{Crypto, !CryptoLaws, ExternalStores, !ExternalLaws}.

Lemma latest_max l : forall best c, foldl later best l = Some c ->
  (forall b, best = Some b -> cp_LastSequence b <= cp_LastSequence c) /\ Forall (fun x => cp_LastSequence x <= cp_LastSequence c) l.
Proof.
  induction l as [|x l IH]; intros best c; cbn [foldl]; [intros ->; split; [by intros b [= ->]|constructor]|]. intros [Hb HF]%IH. unfold later in Hb.
  destruct best as [b|].
  - destruct (cp_LastSequence b <? cp_LastSequence x) eqn:E; specialize (Hb _ eq_refl); to_prop; (split; [intros b' [= <-]; lia|constructor; [lia|done]]).
  - split; [done|]. constructor; [by apply Hb|done].
Qed.

Lemma latest_none l : forall best, foldl later best l = None -> best = None /\ l = [].
Proof.
  induction l as [|x l IH]; intros best; cbn [foldl]; [done|]. intros [Hn _]%IH. exfalso. unfold later in Hn. destruct best; [|done]. by destruct (_ <? _).
Qed.

Lemma latest_snoc db c :
  (forall l, LatestCheckpoint db = Ok l -> cp_LastSequence l < cp_LastSequence c) ->
  LatestCheckpoint (mkEdb (db_organizations db) (db_events db) (db_checkpoints db ++ [c])) = Ok c.
Proof.
  intros Hl. unfold LatestCheckpoint in *. cbn [db_checkpoints]. rewrite foldl_app. cbn. destruct (foldl later None (db_checkpoints db)) as [b|]; [|done].
  cbn. specialize (Hl b eq_refl). by rewrite (proj2 (Z.ltb_lt _ _) Hl).
Qed.

Lemma signed_verifies p head tb now c :
  signCheckpoint head tb (pb_keyID p) (pb_privateKey p) now = Ok c ->
  verifyCheckpoint c (own_key p) = Ok tt /\ cp_LastSequence c = hd_Sequence head /\ cp_LastEventHash c = hd_EventHash head.
Proof.
  unfold signCheckpoint. rewrite check_ok_iff. intros [Hc Hd]. rewrite !andb_true_iff in Hc. destruct Hc as [[[[[C1 C2] C3] C4] C5] C6].
  apply try_ok_iff in Hd as (document & Hd & [= <-]). split; [|done]. unfold verifyCheckpoint. cbn -[checkpoint_json writeCanonical event_identifier].
  assert (Hp : str_all printable (checkpoint_id document) = true) by (unfold checkpoint_id; by rewrite str_all_app, hex_printable).
  assert (Hl : str_len (checkpoint_id document) = 75).
  { unfold checkpoint_id, str_len. rewrite str_app_len, hex_encode_length. pose proof (sha256_size ("ASCP_CHECKPOINT_ID_V1" +:+ nul +:+ document)) as Hs. unfold str_len in Hs.
    cbn [String.length] in *. lia. }
  rewrite check_ok_iff. split.
  - rewrite C1, C2, C3, C4, C6, sign_size, Z.eqb_refl, !andb_true_r. apply andb_true_iff. split.
    + apply printable_identifier; [done|lia].
    + apply printable_identifier; [unfold worm_ref; by rewrite !str_all_app, Hp|]. unfold worm_ref, str_len in *. rewrite !str_app_len. cbn [String.length]. lia.
  - rewrite Hd, check_ok_iff. split; [by apply bool_decide_eq_true|]. rewrite check_ok_iff. split; [by rewrite !bool_decide_eq_true_2|].
    unfold own_key. rewrite lookup_singleton_eq, check_ok_iff. apply Z.eqb_eq in C5. rewrite public_size, Z.eqb_refl, sign_verify by done. done.
Qed.

Lemma save_latest db c db' r :
  SaveCheckpoint db c = Ok (db', r) -> (forall l, LatestCheckpoint db = Ok l -> cp_LastSequence l < cp_LastSequence c) ->
  LatestCheckpoint db' = Ok c /\ db_events db' = db_events db.
Proof.
  unfold SaveCheckpoint. destruct (List.find _ _) as [stored|] eqn:Ef.
  - rewrite check_ok_iff. intros [Hs [= <- _]] Hl. exfalso. apply find_some in Ef as [Hin _]. unfold sameCheckpoint in Hs. rewrite !andb_true_iff in Hs.
    destruct Hs as [[[[[[[_ Hs] _] _] _] _] _] _]. apply Z.eqb_eq in Hs. unfold LatestCheckpoint in Hl.
    destruct (foldl later None (db_checkpoints db)) as [b|] eqn:El; [|apply latest_none in El as [_ El]; by rewrite El in Hin].
    apply latest_max in El as [_ El]. rewrite Forall_forall in El. specialize (Hl b eq_refl). apply list_elem_of_In in Hin. specialize (El _ Hin). lia.
  - rewrite check_ok_iff. intros [_ [= <- _]] Hl. split; [by apply latest_snoc|done].
Qed.

End Publish.
