(* ===== verification/EventDemo.v ===== *)
(** * The event chain at work

    Three appends, a publication and its recovery; a database rewritten behind a published
    head, which recovery refuses, and one that outgrew it, which the next publication seals;
    and the witnesses of the theorems on events and canonical JSON. *)
From stdpp Require Import base gmap strings list sorting.
From Stdlib Require Import ZArith Lia Ascii.
From S2P Require Import Prelude GoText GoJSON Crypto CanonicalJSON CanonicalTheorems EventStore EventTheorems EventRuns.

Open Scope Z_scope.
#[local] Existing Instance ToyCrypto.
#[local] Existing Instance ToyCryptoLaws.

(** ** Stores in memory *)

#[local] Instance MemoryStores : ExternalStores := {|
  worm := gmap string string; remote := Head;
  worm_Put w r b :=
    match w !! r with
    | None => (<[r := b]> w, Ok tt)
    | Some b' => if bool_decide (b' = b) then (w, Ok tt) else (w, Err "object exists")
    end;
  worm_Get w r := match w !! r with Some b => Ok b | None => Err "no object" end;
  remote_Advance s h := if bool_decide (s = h) || (hd_Sequence s <? hd_Sequence h) then (h, Ok tt) else (s, Err "head conflict");
  remote_Current s := Ok s |}.

#[local] Instance MemoryLaws : ExternalLaws.
Proof.
  split; cbn.
  - intros w r b w'. destruct (w !! r) as [b'|] eqn:E; [case_bool_decide; [|done]; subst; intros [= <-]; by rewrite E|]. intros [= <-]. by rewrite lookup_insert_eq.
  - intros w r b w' o r' b'. destruct (w !! r) as [b0|] eqn:E; [case_bool_decide; by intros [= <- _]|]. intros [= <- _]. destruct (decide (r = r')) as [<-|Hd].
    + by rewrite E.
    + by rewrite lookup_insert_ne.
  - intros s h s'. by destruct (_ || _); intros [= <-].
  - intros s h s' o h0. destruct (_ || _) eqn:E; intros [= <- _] [= <-]; [right|by left]. split; [done|]. to_prop. destruct E as [->|E]; [by left|by right].
Qed.

(** ** A chain *)

Definition demo_writer : EventWriter := mkEventWriter "writer-1" (str_repeat "k" 32).
Definition demo_keys : gmap string string := {["writer-1" := str_repeat "k" 32]}.
Definition demo_refs : refs_map := Some {["call" := "call-1"; "buyer" := "acme"]}.
Definition demo_input (id payload : string) (refs : refs_map) : EventInput :=
  mkEventInput id "acme" (time_of_unix 1750000000) "CALL_FUNDED" "control-plane" "" "correlation-1" refs (PayloadValue (Some payload)) "".

Definition q (s : string) : string := quote +:+ s +:+ quote.
Definition demo_payload (amount : string) : string := "{ " +:+ q "state" +:+ ":" +:+ q "FUNDED" +:+ ", " +:+ q "amount" +:+ ": " +:+ q amount +:+ "}".

Definition event_ops (amounts : list string) : list (EventInput * EventWriter) :=
  imap (fun i a => (demo_input ("event-00" +:+ dec_string (Z.of_nat i)) (demo_payload a) demo_refs, demo_writer)) amounts.
Definition demo_db (amounts : list string) : edb := foldl append_exec (no_events {["acme"]}) (event_ops amounts).

Definition payloads (db : edb) : list string := map rw_payload (db_events db).
Definition canonical_form (amount : string) : string := "{" +:+ q "amount" +:+ ":" +:+ q amount +:+ "," +:+ q "state" +:+ ":" +:+ q "FUNDED" +:+ "}".

Example events_appended : payloads (demo_db ["10"; "20"; "30"]) = map canonical_form ["10"; "20"; "30"].
Proof. vm_compute. done. Qed.

Lemma demo_keys_known amounts : Forall (fun op => demo_keys !! ew_KeyID op.2 = Some (ew_Key op.2)) (event_ops amounts).
Proof. apply Forall_forall. intros op (i & a & -> & _)%elem_of_lookup_imap. done. Qed.

Lemma appended_chain_verifies_witness :
  VerifyChain (demo_db ["10"; "20"]) demo_keys = Ok (event_head (demo_db ["10"; "20"])) /\
  hd_Sequence (event_head (demo_db ["10"; "20"])) = Z.of_nat (length (db_events (demo_db ["10"; "20"]))).
Proof.
  destruct (appended_chain_verifies {["acme"]} (event_ops ["10"; "20"]) demo_keys (demo_keys_known _)) as (H1 & H2 & _). exact (conj H1 H2).
Defined.

(** ** Replays *)

Definition appended_event (i : EventInput) : option (edb * ChainEvent) :=
  match append (demo_db ["10"]) i demo_writer with Ok (db, (e, false)) => Some (db, e) | _ => None end.

Lemma appended_event_some i db e : appended_event i = Some (db, e) -> append (demo_db ["10"]) i demo_writer = Ok (db, (e, false)).
Proof. unfold appended_event. destruct (append _ _ _) as [[db' [e' []]]|]; [done| |done]. by intros [= <- <-]. Qed.

Lemma demo_appends : is_Some (appended_event (demo_input "event-007" (demo_payload "7") None)).
Proof. vm_compute. eauto. Qed.

(** An input without references is refused the second time. *)
Lemma event_replay_witness :
  exists db e, append (demo_db ["10"]) (demo_input "event-007" (demo_payload "7") None) demo_writer = Ok (db, (e, false)) /\
    append db (demo_input "event-007" (demo_payload "7") None) demo_writer = Err ErrEventConflict.
Proof.
  destruct demo_appends as [[db e] He]. exists db, e. apply appended_event_some in He. split; [exact He|].
  exact (event_replay (demo_db ["10"]) db (demo_input "event-007" (demo_payload "7") None) demo_writer demo_writer e He).
Defined.

(** ** Publications *)

Definition demo_publisher : PublisherConfig := mkPublisher "checkpoint-1" (str_repeat "p" 64) demo_keys.
Definition demo_balance : string := str_repeat "a" 64.
Definition demo_at : time := time_of_unix 1750000100.
Definition demo_world (db : edb) : eworld := mkEworld db (∅ : gmap string string) (mkHead 0 zeroHash).
Definition demo_publish (w : eworld) : eworld * res (EventCheckpoint * bool) := publish demo_publisher demo_balance demo_at true w.
Definition published_world (w : eworld) : option (eworld * (EventCheckpoint * bool)) := match demo_publish w with (w, Ok r) => Some (w, r) | _ => None end.
Definition demo_recovery (w : eworld) : option (Z * bool) :=
  match VerifyRecovery w demo_keys (own_key demo_publisher) with Ok s => Some (hd_Sequence (rs_RemoteHead s), rs_ExternallyCheckpointed s) | Err _ => None end.

Lemma published_world_some w w' r : published_world w = Some (w', r) -> publish demo_publisher demo_balance demo_at true w = (w', Ok r).
Proof. unfold published_world, demo_publish. destruct (publish _ _ _ _ w) as [w1 [r1|]]; [|done]. by intros [= <- <-]. Qed.

Definition first_world : eworld := demo_world (demo_db ["10"; "20"]).
(** The same checkpoint and chain with an event rewritten under its old hash. *)
Definition rewritten (db : edb) : edb :=
  mkEdb (db_organizations db) (map (fun r => mkEventRow (rw_Sequence r) (rw_Body r) (rw_refs r) (canonical_form "99") (rw_EventHash r) (rw_mac r)) (db_events db))
    (db_checkpoints db).

Example recovery_refuses :
  demo_recovery (demo_publish first_world).1 = Some (2, true) /\
  demo_recovery (let w := (demo_publish first_world).1 in mkEworld (rewritten (wd_db w)) (wd_worm w) (wd_remote w)) = None /\
  demo_recovery (let w := (demo_publish first_world).1 in mkEworld (demo_db ["10"; "21"]) (wd_worm w) (wd_remote w)) = None /\
  demo_recovery (let w := (demo_publish first_world).1 in mkEworld (demo_db ["10"]) (wd_worm w) (wd_remote w)) = None.
Proof. vm_compute. by split_and!. Qed.

(** A history truncated below the published head and grown past it again is sealed by the
    next publication, which does not look for the remote head on its chain. *)
Definition forked_world : eworld := let w := (demo_publish first_world).1 in mkEworld (demo_db ["10"; "21"; "22"]) (wd_worm w) (wd_remote w).

Example publication_seals_fork : demo_recovery forked_world = None /\ demo_recovery (demo_publish forked_world).1 = Some (3, true).
Proof. vm_compute. by split. Qed.

Definition present {A} (o : option A) : bool := match o with Some _ => true | None => false end.
Lemma present_some {A} (o : option A) : present o = true -> is_Some o.
Proof. destruct o; [eauto|done]. Qed.

Lemma demo_published : is_Some (published_world first_world).
Proof. apply present_some. vm_compute. reflexivity. Qed.


Definition recovered_world (w : eworld) : option (eworld * (EventCheckpoint * bool) * RecoveryStatus) :=
  match published_world w with
  | Some (w', r) => match VerifyRecovery w' demo_keys (own_key demo_publisher) with Ok s => Some (w', r, s) | Err _ => None end
  | None => None
  end.

Lemma recovered_world_some w w' r s : recovered_world w = Some (w', r, s) ->
  publish demo_publisher demo_balance demo_at true w = (w', Ok r) /\ VerifyRecovery w' demo_keys (own_key demo_publisher) = Ok s.
Proof.
  unfold recovered_world. destruct (published_world w) as [[w1 r1]|] eqn:E; [|done]. apply published_world_some in E.
  destruct (VerifyRecovery w1 _ _) as [s1|] eqn:Ev; [|done]. intros [= <- <- <-]. done.
Qed.

Lemma demo_recovered : is_Some (recovered_world first_world).
Proof. apply present_some. vm_compute. reflexivity. Qed.

Lemma recovery_detects_rewriting_witness :
  exists w' r status, publish demo_publisher demo_balance demo_at true first_world = (w', Ok r) /\
    VerifyRecovery w' demo_keys (own_key demo_publisher) = Ok status /\
    (sha256_broken \/
     forall i row, db_events (wd_db first_world) !! i = Some row ->
       exists row2 e e2, db_events (wd_db w') !! i = Some row2 /\ scanEvent row = Ok e /\ scanEvent row2 = Ok e2 /\ same_event e e2).
Proof.
  generalize demo_recovered. generalize first_world. intros w [[[w' r] s] Hw]. destruct (recovered_world_some w w' r s Hw) as [Hp Hv]. exists w', r, s.
  split; [exact Hp|]. split; [exact Hv|].
  exact (recovery_detects_rewriting demo_publisher demo_balance demo_at true w w' w' r demo_keys (own_key demo_publisher) s Hp eq_refl Hv).
Defined.

(** ** Canonical JSON *)

Definition demo_value : jval := JObj [("b", JArr [JNum "7"; JBool true]); ("a", JNull)].

Lemma canonical_json_roundtrip_witness :
  decode_json ("{" +:+ q "a" +:+ ":null," +:+ q "b" +:+ ":[7,true]}") = Some (JObj [("a", JNull); ("b", JArr [JNum "7"; JBool true])]).
Proof.
  assert (W : jval_wf demo_value) by (split; [apply (bool_decide_unpack _); reflexivity|cbn; tauto]).
  exact (proj1 (canonical_json_roundtrip demo_value _ W eq_refl)).
Defined.

Lemma decode_fuel_enough_witness : p_value 1000 0 (chars "[1, 2]") = p_value (json_fuel (chars "[1, 2]")) 0 (chars "[1, 2]").
Proof. apply (decode_fuel_enough "[1, 2]" 1000). vm_compute. lia. Defined.
