(* ===== verification/Url.v ===== *)
(** * Canonical URLs ([pkg/purchasespec], [CanonicalURL])

    The URL of a purchase: HTTPS, host in lower-case ASCII, percent encoding, dot segments and
    query in one spelling. What [net/url] makes of an authority, [net.ParseIP] and the IDNA
    tables are parameters; the rest of [url.Parse] is written out as far as [CanonicalURL] can
    tell its results apart (every refusal is the same error). *)
From stdpp Require Import base gmap strings list sorting.
From Stdlib Require Import ZArith Lia Ascii.
From S2P Require Import Prelude GoText GoJSON.

Open Scope Z_scope.

Definition ErrInvalidURL : error := "invalid canonical URL".

(** ** Bytes *)

Definition isHex (c : ascii) : bool := is_digit c || between 97 102 (code c) || between 65 70 (code c).
(** Is [c] one of the characters of [s]? *)
Definition among (s : string) (c : ascii) : bool := existsb (fun d => code d =? code c) (chars s).
Definition isUnreserved (c : ascii) : bool := is_alnum c || among "-._~" c.
Definition isURLLiteral (c : ascii) : bool := isUnreserved c || among "!$&'()*+,/:;=@?[]" c.

Definition hexval (c : ascii) : Z := default 0 (nibble (ascii_lower c)).
Definition ascii_upper (c : ascii) : ascii := if between 97 122 (code c) then char_of (code c - 32) else c.
Definition upper_hex (z : Z) : ascii := ascii_upper (hex_char z).
Definition percent : ascii := char_of 37.
Definition slash : ascii := char_of 47.
(** [%XX] in upper case *)
Definition encoded (c : ascii) : list ascii := [percent; upper_hex (code c / 16); upper_hex (code c mod 16)].

Fixpoint normalizePercent (l : list ascii) : res (list ascii) :=
  match l with
  | [] => Ok []
  | c :: r =>
      if code c =? 37 then
        match r with
        | a :: b :: r' =>
            check isHex a && isHex b else ErrInvalidURL ;;
            let d := char_of (16 * hexval a + hexval b) in
            try rest := normalizePercent r' in
            Ok ((if isUnreserved d then [d] else [percent; ascii_upper a; ascii_upper b]) ++ rest)
        | _ => Err ErrInvalidURL
        end
      else
        check negb ((code c <=? 32) || (code c =? 127)) else ErrInvalidURL ;;
        try rest := normalizePercent r in
        Ok ((if (128 <=? code c) || negb (isURLLiteral c) then encoded c else [c]) ++ rest)
  end.

(** ** Dot segments *)

Fixpoint starts_with (p l : list ascii) : bool :=
  match p, l with
  | [], _ => true
  | a :: p, b :: l => (code a =? code b) && starts_with p l
  | _, [] => false
  end.
Definition is_text (s : string) (l : list ascii) : bool := bool_decide (l = chars s).

(** [s[:strings.Index(s, sep)]] and the rest from the separator on, if there is one *)
Fixpoint cut_at (sep : ascii) (l : list ascii) : list ascii * list ascii :=
  match l with
  | [] => ([], [])
  | c :: r => if code c =? code sep then ([], l) else match cut_at sep r with (a, b) => (c :: a, b) end
  end.

(** Up to the last slash, or nothing. *)
Fixpoint removeLastSegment (l : list ascii) : list ascii :=
  match l with
  | [] => []
  | c :: r => if existsb (fun d => code d =? 47) r then c :: removeLastSegment r else []
  end.

(** The loop; each round shortens the input. *)
Fixpoint dot_loop (fuel : nat) (input output : list ascii) : list ascii :=
  match fuel with
  | O => output
  | S fuel =>
      if is_text "" input then output
      else if starts_with (chars "../") input then dot_loop fuel (drop 3 input) output
      else if starts_with (chars "./") input then dot_loop fuel (drop 2 input) output
      else if starts_with (chars "/./") input then dot_loop fuel (slash :: drop 3 input) output
      else if is_text "/." input then dot_loop fuel [slash] output
      else if starts_with (chars "/../") input then dot_loop fuel (slash :: drop 4 input) (removeLastSegment output)
      else if is_text "/.." input then dot_loop fuel [slash] (removeLastSegment output)
      else if is_text "." input || is_text ".." input then dot_loop fuel [] output
      else
        match input with
        | [] => output
        | c :: r =>
            let cut := if code c =? 47 then match cut_at slash r with (a, b) => (c :: a, b) end else cut_at slash input in
            dot_loop fuel cut.2 (output ++ cut.1)
        end
  end.
Definition removeDotSegments (input : list ascii) : list ascii :=
  match dot_loop (length input) input [] with [] => [slash] | output => output end.

Definition normalizedPath (raw : list ascii) : res (list ascii) :=
  match raw with
  | [] => Ok [slash]
  | _ =>
      try normalized := normalizePercent raw in
      check starts_with [slash] normalized else ErrInvalidURL ;;
      Ok (removeDotSegments normalized)
  end.

(** ** The query *)

(** [strings.Split] *)
Fixpoint split_on (sep : ascii) (l : list ascii) : list (list ascii) :=
  match l with
  | [] => [[]]
  | c :: r =>
      if code c =? code sep then [] :: split_on sep r
      else match split_on sep r with p :: ps => (c :: p) :: ps | [] => [[c]] end
  end.

(** [<=] of Go strings *)
Fixpoint bytes_leb (l r : list ascii) : bool :=
  match l, r with
  | [], _ => true
  | _, [] => false
  | a :: l, b :: r => if code a =? code b then bytes_leb l r else code a <? code b
  end.

Definition pair_le (x y : list ascii * list ascii) : Prop :=
  if bool_decide (x.1 = y.1) then bytes_leb x.2 y.2 = true else bytes_leb x.1 y.1 = true.
#[export] Instance pair_le_dec x y : Decision (pair_le x y).
Proof. unfold pair_le. destruct (bool_decide _); apply _. Defined.

Definition query_pair (raw : list ascii) : res (list ascii * list ascii) :=
  match raw with
  | [] => Err ErrInvalidURL
  | _ =>
      match cut_at (char_of 61) raw with
      | (key, rest) =>
          try key := normalizePercent key in
          try value := normalizePercent (drop 1 rest) in
          Ok (key, value)
      end
  end.

Fixpoint query_pairs (l : list (list ascii)) : res (list (list ascii * list ascii)) :=
  match l with
  | [] => Ok []
  | raw :: l => try p := query_pair raw in try ps := query_pairs l in Ok (p :: ps)
  end.

(** [strings.Join(_, "&")] *)
Fixpoint join_on (sep : ascii) (l : list (list ascii)) : list ascii :=
  match l with [] => [] | [x] => x | x :: l => x ++ sep :: join_on sep l end.

Definition pair_text (p : list ascii * list ascii) : list ascii := p.1 ++ char_of 61 :: p.2.

Definition normalizedQuery (raw : list ascii) : res (list ascii) :=
  match raw with
  | [] => Ok []
  | _ =>
      try pairs := query_pairs (split_on (char_of 38) raw) in
      Ok (join_on (char_of 38) (map pair_text (merge_sort pair_le pairs)))
  end.

(** ** Paths as [net/url] gives them *)

Fixpoint unescape_path (l : list ascii) : option (list ascii) :=
  match l with
  | [] => Some []
  | c :: r =>
      if code c =? 37 then
        match r with
        | a :: b :: r' => if isHex a && isHex b then option_map (cons (char_of (16 * hexval a + hexval b))) (unescape_path r') else None
        | _ => None
        end
      else option_map (cons c) (unescape_path r)
  end.

(** [shouldEscape(c, encodePath)] *)
Definition shouldEscape (c : ascii) : bool := negb (isUnreserved c || among "$&+,/:;=@" c).
Definition escape_path (l : list ascii) : list ascii := concat (map (fun c => if shouldEscape c then encoded c else [c]) l).
Definition validEncoded (l : list ascii) : bool := forallb (fun c => among "!$&'()*+,;=:@[]%" c || negb (shouldEscape c)) l.

(** [Parse] then [EscapedPath], for the empty path and paths that begin with a slash *)
Definition escaped_path (p : list ascii) : option (list ascii) :=
  match unescape_path p with
  | None => None
  | Some path => Some (if bool_decide (escape_path path = p) || validEncoded p then p else escape_path path)
  end.

(** ** URLs *)

Class HostNames := {
  url_host : string -> option (string * string);
  ParseIP : string -> option string;
  ToASCII : string -> option string }.

Section CanonicalURL.
Context `{Unicode, HostNames}.

(** The authority, path and query of an absolute HTTPS URL without user information. *)
Definition https_parts (raw : list ascii) : option (list ascii * list ascii * list ascii) :=
  if existsb (fun c => (code c <? 32) || (code c =? 127)) raw then None else
  if negb (starts_with (chars "https:") (map ascii_lower (take 6 raw))) then None else
  let (rest, query) := cut_at (char_of 63) (drop 6 raw) in
  if negb (starts_with (chars "//") rest) then None else
  let (authority, path) := cut_at slash (drop 2 rest) in
  if existsb (fun c => code c =? 64) authority then None else
  Some (authority, path, drop 1 query).

Definition has_colon (s : string) : bool := existsb (fun c => code c =? 58) (chars s).

Definition canonical_host (hostname : string) : option (string * bool) :=
  match ParseIP hostname with
  | Some ip => let host := ToLower ip in Some (host, has_colon host)
  | None => match ToASCII (ToLower hostname) with Some host => if bool_decide (host = "") then None else Some (host, false) | None => None end
  end.

Definition validPort (v : string) : bool :=
  between 1 5 (str_len v) && str_all is_digit v &&
  match parse_digits v 0 with Some n => between 1 65535 n | None => false end.

(** [net.JoinHostPort] *)
Definition JoinHostPort (host port : string) : string :=
  if existsb (fun c => (code c =? 58) || (code c =? 37)) (chars host) then "[" +:+ host +:+ "]:" +:+ port else host +:+ ":" +:+ port.

Definition host_text (host : string) (isIPv6 : bool) (port : string) : res string :=
  if negb (bool_decide (port = "")) && negb (bool_decide (port = "443")) then
    check validPort port else ErrInvalidURL ;; Ok (JoinHostPort host port)
  else Ok (if isIPv6 then "[" +:+ host +:+ "]" else host).

(** No byte sequence of U+2028 or U+2029 *)
Definition separator (r : rune) : bool :=
  match r with R3 a b c => (code a =? 226) && (code b =? 128) && ((code c =? 168) || (code c =? 169)) | _ => false end.
Definition jcsSafe (s : string) : bool := valid_utf8 s && negb (existsb separator (runes (chars s))).

Definition CanonicalURL (raw : string) : res string :=
  check negb (bool_decide (raw = "")) && (str_len raw <=? 8192) && bool_decide (TrimSpace raw = raw) && negb (existsb (fun c => code c =? 35) (chars raw))
    else ErrInvalidURL ;;
  match https_parts (chars raw) with
  | None => Err ErrInvalidURL
  | Some (authority, rawpath, rawquery) =>
      match url_host (str_of authority), escaped_path rawpath with
      | Some (hostname, port), Some escaped =>
          check negb (bool_decide (hostname = "")) else ErrInvalidURL ;;
          match canonical_host hostname with
          | None => Err ErrInvalidURL
          | Some (host, isIPv6) =>
              try host := host_text host isIPv6 port in
              try path := normalizedPath escaped in
              try query := normalizedQuery rawquery in
              let canonical := "https://" +:+ host +:+ str_of path +:+ (match query with [] => "" | _ => "?" +:+ str_of query end) in
              check jcsSafe canonical else ErrInvalidURL ;;
              Ok canonical
          end
      | _, _ => Err ErrInvalidURL
      end
  end.
End CanonicalURL.
