(* ===== verification/UrlTheorems.v ===== *)
(** * Canonical URLs stay as they are

    Percent encoding, dot segments and queries have one normal form; removing dot segments
    agrees with resolving the segments one by one; and the canonical form of a URL is its own
    canonical form as long as it is within the bound on the length of URLs. *)
From stdpp Require Import base gmap strings list sorting.
From Stdlib Require Import ZArith Lia Ascii.
From S2P Require Import Prelude GoText GoJSON Url.

Open Scope Z_scope.

(** ** Bytes, one by one *)

Ltac all_bytes c := destruct c as [[] [] [] [] [] [] [] []]; try done; vm_compute; try done; try tauto; auto.

Definition upperHex (c : ascii) : bool := is_digit c || between 65 70 (code c).

Lemma literal_byte c : isURLLiteral c = true -> 32 < code c < 127 /\ code c <> 37 /\ code c <> 35 /\ ((128 <=? code c) || negb (isURLLiteral c)) = false.
Proof. intros H. rewrite H, orb_false_r. revert H. unfold isURLLiteral. all_bytes c. Qed.

Lemma unreserved_literal c : isUnreserved c = true -> isURLLiteral c = true.
Proof. intros H. unfold isURLLiteral. by rewrite H. Qed.

Lemma upper_hex_byte c : isHex c = true -> upperHex (ascii_upper c) = true /\ hexval (ascii_upper c) = hexval c.
Proof. all_bytes c. Qed.

Lemma upperHex_byte c : upperHex c = true -> isHex c = true /\ ascii_upper c = c /\ isURLLiteral c = true /\ is_alnum c = true.
Proof. all_bytes c. Qed.

Lemma encoded_byte c : let a := upper_hex (code c / 16) in let b := upper_hex (code c mod 16) in
  upperHex a = true /\ upperHex b = true /\ char_of (16 * hexval a + hexval b) = c.
Proof. all_bytes c. Qed.

(** ** Normal percent encoding *)

Definition decoded (a b : ascii) : ascii := char_of (16 * hexval a + hexval b).

Inductive Normal : list ascii -> Prop :=
| NormalNil : Normal []
| NormalLiteral c r : isURLLiteral c = true -> Normal r -> Normal (c :: r)
| NormalEncoded a b r : upperHex a = true -> upperHex b = true -> isUnreserved (decoded a b) = false -> Normal r -> Normal (percent :: a :: b :: r).
#[local] Hint Constructors Normal : core.

Lemma Normal_app x y : Normal x -> Normal y -> Normal (x ++ y).
Proof. induction 1; cbn; auto. Qed.

Lemma normalized n : forall l r, (length l <= n)%nat -> normalizePercent l = Ok r -> Normal r.
Proof.
  induction n as [|n IH]; intros [|c l] r Hl; cbn in Hl; try lia; cbn [normalizePercent]; try (intros [= <-]; auto).
  destruct (code c =? 37) eqn:Ec.
  - destruct l as [|a [|b l]]; [done..|]. rewrite check_ok_iff. intros [[Ha Hb]%andb_true_iff Hr]. apply try_ok_iff in Hr as (rest & Hr & [= <-]).
    apply IH in Hr; [|cbn in Hl; lia]. destruct (isUnreserved _) eqn:Eu; [apply NormalLiteral; [by apply unreserved_literal|done]|].
    apply upper_hex_byte in Ha as [Ha Va], Hb as [Hb Vb]. apply NormalEncoded; [done..| |done]. unfold decoded. by rewrite Va, Vb.
  - rewrite check_ok_iff. intros [_ Hr]. apply try_ok_iff in Hr as (rest & Hr & [= <-]). apply IH in Hr; [|lia]. destruct (_ || _) eqn:El.
    + destruct (encoded_byte c) as (Ha & Hb & Hc). apply NormalEncoded; [done..| |done]. unfold decoded. rewrite Hc. apply orb_true_iff in El as [El|El].
      * destruct (isUnreserved c) eqn:E; [|done]. apply unreserved_literal, literal_byte in E. to_prop. lia.
      * destruct (isUnreserved c) eqn:E; [|done]. apply unreserved_literal in E. by rewrite E in El.
    + apply NormalLiteral; [|done]. apply orb_false_iff in El as [_ El]. by apply negb_false_iff in El.
Qed.

Lemma normalizePercent_normal l r : normalizePercent l = Ok r -> Normal r.
Proof. by apply (normalized (length l)). Qed.

Lemma normal_fixed l : Normal l -> normalizePercent l = Ok l.
Proof.
  induction 1 as [|c r Hc Hr IH|a b r Ha Hb Hu Hr IH]; [done| |].
  - cbn [normalizePercent]. destruct (literal_byte c Hc) as (H1 & H2 & _ & H4). destruct (code c =? 37) eqn:E; [to_prop; lia|]. rewrite check_ok_iff, IH, H4.
    split; [to_prop; lia|done].
  - cbn [normalizePercent]. change (code percent =? 37) with true. cbv iota. destruct (upperHex_byte a Ha) as (Ha1 & Ha2 & _), (upperHex_byte b Hb) as (Hb1 & Hb2 & _).
    rewrite check_ok_iff, Ha1, Hb1, IH. split; [done|]. unfold decoded in Hu. cbv zeta. rewrite Hu. cbv iota. by rewrite Ha2, Hb2.
Qed.

Lemma normal_bytes l c : Normal l -> c ∈ l -> isURLLiteral c = true \/ c = percent.
Proof.
  induction 1 as [|d r Hd Hr IH|a b r Ha Hb Hu Hr IH]; rewrite ?elem_of_cons; [by intros ?%elem_of_nil| |].
  - intros [->|Hc]; auto.
  - intros [->|[->|[->|Hc]]]; [by right|left; by apply upperHex_byte|left; by apply upperHex_byte|auto].
Qed.

(** A separator is neither [%] nor a hexadecimal digit, so texts split between escapes. *)
Definition separates (sep : ascii) : Prop := code sep <> 37 /\ is_alnum sep = false.

Lemma alnum_separates c sep : separates sep -> is_alnum c = true -> (code c =? code sep) = false.
Proof. intros [_ Hs] Hc. apply Z.eqb_neq. intros E%code_inj. by rewrite E, Hs in Hc. Qed.

Lemma split_nonempty sep l : split_on sep l <> [].
Proof. destruct l as [|c r]; cbn; [done|]. destruct (_ =? _); [done|]. by destruct (split_on sep r). Qed.

Lemma normal_split sep l : separates sep -> Normal l -> Forall Normal (split_on sep l).
Proof.
  intros Hs. pose proof Hs as [H37 _]. induction 1 as [|c r Hc Hr IH|a b r Ha Hb Hu Hr IH]; cbn [split_on]; [by repeat constructor| |].
  - destruct (_ =? _); [by constructor|]. destruct (split_on sep r) as [|p ps] eqn:E; [by eapply split_nonempty in E|].
    apply Forall_cons in IH as [Hp Hps]. constructor; auto.
  - destruct (upperHex_byte a Ha) as (_ & _ & _ & Ha'), (upperHex_byte b Hb) as (_ & _ & _ & Hb').
    change (code percent =? code sep) with (37 =? code sep). destruct (37 =? code sep) eqn:E; [to_prop; lia|].
    rewrite (alnum_separates a sep), (alnum_separates b sep) by done.
    destruct (split_on sep r) as [|p ps] eqn:E2; [by eapply split_nonempty in E2|]. apply Forall_cons in IH as [Hp Hps]. constructor; auto.
Qed.

Lemma normal_cut sep l : separates sep -> Normal l -> Normal (cut_at sep l).1 /\ Normal (drop 1 (cut_at sep l).2).
Proof.
  intros Hs. pose proof Hs as [H37 _]. induction 1 as [|c r Hc Hr IH|a b r Ha Hb Hu Hr IH]; cbn [cut_at]; [by split; constructor| |].
  - destruct (_ =? _); [cbn; rewrite drop_0; by split; [constructor|]|]. destruct (cut_at sep r). cbn in *. destruct IH. auto.
  - destruct (upperHex_byte a Ha) as (_ & _ & _ & Ha'), (upperHex_byte b Hb) as (_ & _ & _ & Hb').
    change (code percent =? code sep) with (37 =? code sep). destruct (37 =? code sep) eqn:E; [to_prop; lia|].
    rewrite (alnum_separates a sep), (alnum_separates b sep) by done. destruct (cut_at sep r). cbn in *. destruct IH. auto.
Qed.

Lemma normal_join sep l : isURLLiteral sep = true -> Forall Normal l -> Normal (join_on sep l).
Proof.
  intros Hs. induction 1 as [|x l Hx Hl IH]; [constructor|]. cbn [join_on]. destruct l; [done|]. apply Normal_app; [done|]. by constructor.
Qed.

(** ** Splitting and joining *)

Definition free (sep : ascii) (l : list ascii) : Prop := Forall (fun c => (code c =? code sep) = false) l.

Lemma split_free sep l : Forall (free sep) (split_on sep l).
Proof.
  induction l as [|c r IH]; cbn [split_on]; [by repeat constructor|]. destruct (code c =? code sep) eqn:E; [constructor; [constructor|done]|].
  destruct (split_on sep r) as [|p ps]; [by repeat constructor|]. apply Forall_cons in IH as [Hp Hps]. by repeat constructor.
Qed.

Lemma join_split sep l : join_on sep (split_on sep l) = l.
Proof.
  induction l as [|c r IH]; cbn [split_on]; [done|]. destruct (code c =? code sep) eqn:E.
  - apply Z.eqb_eq, code_inj in E as ->. destruct (split_on sep r) eqn:Es; [by apply split_nonempty in Es|]. cbn [join_on app] in *. by rewrite IH.
  - destruct (split_on sep r) as [|p [|q ps]] eqn:Es; [by apply split_nonempty in Es|cbn in *; by rewrite IH|]. cbn [join_on app] in *. by rewrite IH.
Qed.

Lemma split_app sep x r : free sep x -> split_on sep (x ++ sep :: r) = x :: split_on sep r.
Proof. induction 1 as [|c x Hc Hx IH]; cbn; [by rewrite Z.eqb_refl|]. by rewrite Hc, IH. Qed.
Lemma split_last sep x : free sep x -> split_on sep x = [x].
Proof. induction 1 as [|c x Hc Hx IH]; cbn; [done|]. by rewrite Hc, IH. Qed.

Lemma split_join sep l : l <> [] -> Forall (free sep) l -> split_on sep (join_on sep l) = l.
Proof.
  intros Hne. induction 1 as [|x l Hx Hl IH]; [done|]. cbn [join_on]. destruct l as [|y l]; [by apply split_last|]. rewrite split_app by done. by rewrite IH.
Qed.

Lemma cut_app sep x r : free sep x -> cut_at sep (x ++ sep :: r) = (x, sep :: r).
Proof. induction 1 as [|c x Hc Hx IH]; cbn; [by rewrite Z.eqb_refl|]. by rewrite Hc, IH. Qed.
Lemma cut_last sep x : free sep x -> cut_at sep x = (x, []).
Proof. induction 1 as [|c x Hc Hx IH]; cbn; [done|]. by rewrite Hc, IH. Qed.

Lemma cut_spec sep l : forall a b, cut_at sep l = (a, b) -> l = a ++ b /\ free sep a /\ (b = [] \/ exists r, b = sep :: r).
Proof.
  induction l as [|c r IH]; intros a b; cbn [cut_at]; [intros [= <- <-]; split_and!; [done|constructor|by left]|].
  destruct (code c =? code sep) eqn:E.
  - intros [= <- <-]. apply Z.eqb_eq, code_inj in E as ->. split_and!; [done|constructor|right; eauto].
  - destruct (cut_at sep r) as [a' b'] eqn:E2. intros [= <- <-]. destruct (IH _ _ eq_refl) as (-> & Ha & Hb). split_and!; [done|by constructor|done].
Qed.

(** ** Dot segments *)

(** The text of an absolute path, and the reference: each segment in turn, with the segments
    kept so far in reverse. A path that ends in a dot segment ends in a slash. *)
Definition path_text (segments : list (list ascii)) : list ascii := concat (map (cons slash) segments).

Definition dot : list ascii := chars ".".
Definition dotdot : list ascii := chars "..".

Fixpoint resolve (kept segments : list (list ascii)) : list (list ascii) :=
  match segments with
  | [] => rev kept
  | s :: rest =>
      let ending := match rest with [] => [[]] | _ => [] end in
      if bool_decide (s = dot) then resolve (ending ++ kept) rest
      else if bool_decide (s = dotdot) then resolve (ending ++ tl kept) rest
      else resolve (s :: kept) rest
  end.

Lemma path_text_app x y : path_text (x ++ y) = path_text x ++ path_text y.
Proof. unfold path_text. by rewrite map_app, concat_app. Qed.

Lemma path_text_split l : path_text (split_on slash l) = slash :: l.
Proof.
  rewrite <-(join_split slash l) at 2. generalize (split_nonempty slash l). generalize (split_on slash l) as x. induction x as [|s x IH]; intros Hne; [done|].
  change (path_text (s :: x)) with ((slash :: s) ++ path_text x). cbn [join_on]. destruct x as [|t x]; [cbn; by rewrite app_nil_r|]. by rewrite IH.
Qed.

Definition slash_in (l : list ascii) : bool := existsb (fun d => code d =? 47) l.

Lemma slash_free s : free slash s -> slash_in s = false.
Proof. induction 1 as [|c s Hc Hs IH]; [done|]. unfold slash_in in *. cbn. change (code slash) with 47 in Hc. by rewrite Hc, IH. Qed.

Lemma remove_last_app x s : free slash s -> removeLastSegment (x ++ slash :: s) = x.
Proof.
  intros Hs. induction x as [|c x IH]; cbn [removeLastSegment app].
  - pose proof (slash_free s Hs) as E. unfold slash_in in E. by rewrite E.
  - rewrite existsb_app. cbn [existsb]. change (code slash =? 47) with true. cbn [orb]. rewrite orb_true_r. cbv iota. by rewrite IH.
Qed.

Lemma remove_last_text kept : Forall (free slash) kept -> removeLastSegment (path_text (rev kept)) = path_text (rev (tl kept)).
Proof.
  intros HF. destruct HF as [|s kept Hs HF]; [done|]. cbn [rev tl]. rewrite path_text_app. change (path_text [s]) with ((slash :: s) ++ []).
  rewrite app_nil_r. by apply remove_last_app.
Qed.

(** *** What the tests of one round see of a path that begins with a segment *)

Definition after_segment (rest : list ascii) : Prop := rest = [] \/ exists r, rest = slash :: r.

Lemma cut_segment s rest : free slash s -> after_segment rest -> cut_at slash (s ++ rest) = (s, rest).
Proof. intros Hs [->|[r ->]]; [rewrite app_nil_r; by apply cut_last|by apply cut_app]. Qed.

Lemma segment_unique s rest x rest' : free slash s -> after_segment rest -> free slash x -> after_segment rest' -> s ++ rest = x ++ rest' -> s = x /\ rest = rest'.
Proof. intros Hs Hr Hx Hr' E. pose proof (cut_segment s rest Hs Hr) as H1. pose proof (cut_segment x rest' Hx Hr') as H2. rewrite E, H2 in H1. by injection H1. Qed.

Lemma starts_with_iff p : forall l, starts_with p l = true <-> exists r, l = p ++ r.
Proof.
  induction p as [|a p IH]; intros l; cbn; [split; eauto|]. destruct l as [|b l]; [split; [done|by intros [r ?]]|]. rewrite andb_true_iff, IH, Z.eqb_eq. split.
  - intros [->%code_inj [r ->]]. eauto.
  - intros [r [= -> ->]]. eauto.
Qed.

Lemma prefix_segment s rest x : free slash s -> after_segment rest -> free slash x ->
  starts_with (slash :: x ++ [slash]) (slash :: s ++ rest) = bool_decide (s = x) && negb (bool_decide (rest = [])).
Proof.
  intros Hs Hr Hx. apply eq_iff_eq_true. rewrite starts_with_iff, andb_true_iff, negb_true_iff, bool_decide_eq_true, bool_decide_eq_false. split.
  - intros [r [= E]]. rewrite <-app_assoc in E. apply segment_unique in E as [-> ->]; [done..|right; cbn; eauto].
  - intros [-> Hne]. destruct Hr as [->|[r ->]]; [done|]. exists r. cbn. by rewrite <-app_assoc.
Qed.

Lemma text_segment s rest x : free slash s -> after_segment rest -> free slash x ->
  bool_decide (slash :: s ++ rest = slash :: x) = bool_decide (s = x) && bool_decide (rest = []).
Proof.
  intros Hs Hr Hx. apply eq_iff_eq_true. rewrite andb_true_iff, !bool_decide_eq_true. split; [|intros [-> ->]; by rewrite app_nil_r].
  intros [= E]. rewrite <-(app_nil_r x) in E. apply segment_unique in E; [done..|by left].
Qed.

Lemma dot_free : free slash dot /\ free slash dotdot.
Proof. by repeat constructor. Qed.

(** One round on a path that begins with the segment [s]. *)
Lemma dot_round fuel s rest output : free slash s -> after_segment rest ->
  dot_loop (S fuel) (slash :: s ++ rest) output =
  if bool_decide (s = dot) then dot_loop fuel (match rest with [] => [slash] | _ => rest end) output
  else if bool_decide (s = dotdot) then dot_loop fuel (match rest with [] => [slash] | _ => rest end) (removeLastSegment output)
  else dot_loop fuel rest (output ++ slash :: s).
Proof.
  intros Hs Hr. destruct dot_free as [Hd Hdd]. cbn [dot_loop]. unfold is_text. change (chars "/.") with (slash :: dot). change (chars "/..") with (slash :: dotdot).
  change (chars "/./") with (slash :: dot ++ [slash]). change (chars "/../") with (slash :: dotdot ++ [slash]).
  rewrite !prefix_segment, !text_segment by done.
  rewrite (bool_decide_eq_false_2 (slash :: s ++ rest = chars "")), (bool_decide_eq_false_2 (slash :: s ++ rest = chars ".")),
    (bool_decide_eq_false_2 (slash :: s ++ rest = chars "..")) by done.
  change (starts_with (chars "../") (slash :: s ++ rest)) with false. change (starts_with (chars "./") (slash :: s ++ rest)) with false. cbn [orb].
  change (code slash =? 47) with true. cbv iota zeta. rewrite cut_segment by done. cbn [fst snd].
  destruct (bool_decide (s = dot)) eqn:E1; [apply bool_decide_eq_true in E1 as ->; cbn [andb]; by destruct Hr as [->|[r ->]]|]. cbn [andb].
  destruct (bool_decide (s = dotdot)) eqn:E2; [apply bool_decide_eq_true in E2 as ->; cbn [andb]; by destruct Hr as [->|[r ->]]|]. done.
Qed.

Lemma text_after segments : after_segment (path_text segments).
Proof. destruct segments as [|s segments]; [by left|right]. unfold path_text. cbn. eauto. Qed.

Lemma dot_loop_resolves segments : forall fuel kept, (length (path_text segments) <= fuel)%nat -> Forall (free slash) segments -> Forall (free slash) kept ->
  dot_loop fuel (path_text segments) (path_text (rev kept)) = path_text (resolve kept segments).
Proof.
  induction segments as [|s rest IH]; intros fuel kept Hf HF HK; [by destruct fuel|]. apply Forall_cons in HF as [Hs HF].
  change (path_text (s :: rest)) with (slash :: s ++ path_text rest) in *. cbn [length] in Hf. rewrite length_app in Hf. destruct fuel as [|fuel]; [lia|].
  rewrite dot_round by (done || apply text_after). cbn [resolve].
  assert (Hpush : forall x, path_text (rev kept) ++ slash :: x = path_text (rev (x :: kept))).
  { intros x. cbn [rev]. rewrite path_text_app. cbn. by rewrite app_nil_r. }
  assert (Hend : forall kept', Forall (free slash) kept' -> s = dot \/ s = dotdot ->
    dot_loop fuel (match path_text rest with [] => [slash] | _ => path_text rest end) (path_text (rev kept')) = path_text (resolve (match rest with [] => [[]] | _ => [] end ++ kept') rest)).
  { intros kept' HK' Hdots. destruct rest as [|t rest]; [|cbn [path_text map concat app] in *; apply (IH fuel kept'); (done || lia)].
    assert (1 <= fuel)%nat by (destruct Hdots as [-> | ->]; cbn in Hf; lia). destruct fuel as [|fuel]; [lia|]. cbn [path_text map concat app resolve rev].
    change [slash] with (slash :: [] ++ []). rewrite (dot_round fuel [] [] (path_text (rev kept')) (Forall_nil_2 _) (or_introl eq_refl)). change (bool_decide ([] = dot)) with false.
    change (bool_decide ([] = dotdot)) with false. cbv iota.
    change (concat (map (cons slash) (rev kept' ++ [[]]))) with (path_text (rev kept' ++ [[]])). rewrite path_text_app. by destruct fuel. }
  destruct (bool_decide (s = dot)) eqn:E1; [apply bool_decide_eq_true in E1; by apply Hend; [|left]|].
  destruct (bool_decide (s = dotdot)) eqn:E2.
  - apply bool_decide_eq_true in E2. rewrite remove_last_text by done. apply Hend; [|by right]. destruct HK; [constructor|done].
  - rewrite Hpush. apply IH; [lia|done|by constructor].
Qed.

Definition plain_segment (s : list ascii) : Prop := s <> dot /\ s <> dotdot /\ free slash s.

(** Whatever holds of the empty segment and of those given holds of those that are left. *)
Lemma resolve_all (P : list ascii -> Prop) segments : P [] -> forall kept, Forall P kept -> Forall P segments -> Forall P (resolve kept segments).
Proof.
  intros Hnil. induction segments as [|s rest IH]; intros kept HK HF; cbn [resolve]; [by apply Forall_rev|]. apply Forall_cons in HF as [Hs HF].
  assert (Hend : forall kept', Forall P kept' -> Forall P (match rest with [] => [[]] | _ => [] end ++ kept')) by (intros; destruct rest; [by constructor|done]).
  assert (Forall P (tl kept)) by (destruct HK; [constructor|done]). destruct (bool_decide (s = dot)); [auto|]. destruct (bool_decide (s = dotdot)); auto.
Qed.

Lemma resolve_plain segments : forall kept, Forall plain_segment kept -> Forall (free slash) segments -> Forall plain_segment (resolve kept segments).
Proof.
  assert (Hnil : plain_segment []) by (split_and!; [done..|constructor]).
  induction segments as [|s rest IH]; intros kept HK HF; cbn [resolve]; [by apply Forall_rev|]. apply Forall_cons in HF as [Hs HF].
  assert (Hend : forall kept', Forall plain_segment kept' -> Forall plain_segment (match rest with [] => [[]] | _ => [] end ++ kept')) by (intros; destruct rest; [by constructor|done]).
  assert (Forall plain_segment (tl kept)) by (destruct HK; [constructor|done]).
  destruct (bool_decide (s = dot)) eqn:E1; [auto|]. destruct (bool_decide (s = dotdot)) eqn:E2; [auto|]. apply bool_decide_eq_false in E1, E2.
  apply IH; [by constructor|done].
Qed.

Lemma resolve_fixed segments : forall kept, Forall plain_segment segments -> resolve kept segments = rev kept ++ segments.
Proof.
  induction segments as [|s rest IH]; intros kept HF; cbn [resolve]; [by rewrite app_nil_r|]. apply Forall_cons in HF as [(H1 & H2 & _) HF].
  rewrite !bool_decide_eq_false_2, IH by done. cbn [rev]. by rewrite <-app_assoc.
Qed.

Lemma resolve_nonempty segments : forall kept, segments <> [] \/ kept <> [] -> resolve kept segments <> [].
Proof.
  induction segments as [|s rest IH]; intros kept Hne; cbn [resolve].
  - destruct Hne as [?|Hne]; [done|]. intros E. apply Hne. by rewrite <-(rev_involutive kept), E.
  - destruct (bool_decide (s = dot)); [|destruct (bool_decide (s = dotdot))]; apply IH; destruct rest; (by right) || by left.
Qed.

Lemma dots_removed r : removeDotSegments (slash :: r) = path_text (resolve [] (split_on slash r)).
Proof.
  unfold removeDotSegments. rewrite <-path_text_split. change ([] : list ascii) with (path_text (rev [])) at 1.
  rewrite dot_loop_resolves by (done || apply split_free || constructor).
  pose proof (resolve_nonempty (split_on slash r) [] (or_introl (split_nonempty slash r))) as Hne. by destruct (resolve _ _).
Qed.

Lemma split_path_text segments : segments <> [] -> Forall (free slash) segments -> exists r, path_text segments = slash :: r /\ split_on slash r = segments.
Proof.
  intros Hne HF. exists (join_on slash segments). split; [|by apply split_join]. rewrite <-path_text_split. by rewrite split_join.
Qed.

(** C33: removing dot segments. On an absolute path the loop over prefixes does what resolving
    the segments one after the other does; no dot segment is left, and a second pass changes
    nothing. *)
Theorem dot_segments_resolved (r : list ascii) :
  let segments := resolve [] (split_on slash r) in
  removeDotSegments (slash :: r) = path_text segments /\ segments <> [] /\ Forall plain_segment segments /\
  removeDotSegments (path_text segments) = path_text segments.
Proof.
  intros segments. assert (Hne : segments <> []) by (apply resolve_nonempty; left; apply split_nonempty).
  assert (HF : Forall plain_segment segments) by (apply resolve_plain; [constructor|apply split_free]). split_and!; [apply dots_removed|done..|].
  destruct (split_path_text segments Hne) as (r' & -> & Hr'); [eapply Forall_impl; [exact HF|]; by intros s (_ & _ & ?)|].
  rewrite dots_removed, Hr', resolve_fixed by done. rewrite <-path_text_split. by rewrite Hr'.
Qed.

Lemma slash_separates : separates slash.
Proof. by split. Qed.

Lemma normal_path_text segments : Forall Normal segments -> Normal (path_text segments).
Proof.
  induction 1 as [|s l Hs Hl IH]; [constructor|]. change (path_text (s :: l)) with (slash :: s ++ path_text l). constructor; [done|]. by apply Normal_app.
Qed.

(** ** Queries *)

Lemma bytes_leb_refl l : bytes_leb l l = true.
Proof. induction l as [|c l IH]; cbn; [done|]. by rewrite Z.eqb_refl. Qed.

Lemma bytes_leb_total l : forall r, bytes_leb l r = true \/ bytes_leb r l = true.
Proof.
  induction l as [|a l IH]; intros [|b r]; cbn; auto. rewrite (Z.eqb_sym (code b)). destruct (code a =? code b) eqn:E; [auto|]. to_prop. lia.
Qed.

Lemma bytes_leb_trans l : forall m r, bytes_leb l m = true -> bytes_leb m r = true -> bytes_leb l r = true.
Proof.
  induction l as [|a l IH]; intros [|b m] [|c r]; cbn; try done.
  destruct (code a =? code b) eqn:E1, (code b =? code c) eqn:E2, (code a =? code c) eqn:E3; to_prop; try lia; eauto.
Qed.

Lemma bytes_leb_antisym l : forall r, bytes_leb l r = true -> bytes_leb r l = true -> l = r.
Proof.
  induction l as [|a l IH]; intros [|b r]; cbn; try done. rewrite (Z.eqb_sym (code b)). destruct (code a =? code b) eqn:E; [|to_prop; lia].
  apply Z.eqb_eq, code_inj in E as ->. intros. f_equal. auto.
Qed.

#[export] Instance pair_le_total : Total pair_le.
Proof.
  intros x y. unfold pair_le. rewrite (bool_decide_ext (y.1 = x.1) (x.1 = y.1)) by done. destruct (bool_decide (x.1 = y.1)); apply bytes_leb_total.
Qed.
#[export] Instance pair_le_trans : Transitive pair_le.
Proof.
  intros [a x] [b y] [c z]. unfold pair_le. cbn. destruct (bool_decide (a = b)) eqn:E1, (bool_decide (b = c)) eqn:E2; to_prop; subst.
  - rewrite bool_decide_eq_true_2 by done. apply bytes_leb_trans.
  - by rewrite bool_decide_eq_false_2.
  - by rewrite bool_decide_eq_false_2.
  - intros H1 H2. destruct (bool_decide (a = c)) eqn:E3; to_prop; [subst; exfalso; apply E1; by apply bytes_leb_antisym|by eapply bytes_leb_trans].
Qed.
#[export] Instance pair_le_antisym : AntiSymm eq pair_le.
Proof.
  intros [a x] [b y]. unfold pair_le. cbn. rewrite (bool_decide_ext (b = a) (a = b)) by done. destruct (bool_decide (a = b)) eqn:E; to_prop.
  - subst. intros. f_equal. by apply bytes_leb_antisym.
  - intros. exfalso. apply E. by apply bytes_leb_antisym.
Qed.

Lemma sorted_fixed l : Sorted pair_le l -> merge_sort pair_le l = l.
Proof. intros Hl. apply (Sorted_unique pair_le); [apply Sorted_merge_sort, _|done|apply merge_sort_Permutation]. Qed.

Definition ampersand : ascii := char_of 38.
Definition equals : ascii := char_of 61.

Lemma norm_free sep n : separates sep -> isUnreserved sep = false -> forall l r, (length l <= n)%nat -> free sep l -> normalizePercent l = Ok r -> free sep r.
Proof.
  intros Hs Hu. pose proof Hs as [H37 _]. assert (Hp : (code percent =? code sep) = false) by (apply Z.eqb_neq; change (code percent) with 37; lia).
  induction n as [|n IH]; intros [|c l] r Hl HF; cbn in Hl; try lia; cbn [normalizePercent]; try (intros [= <-]; constructor).
  apply Forall_cons in HF as [Hc HF]. destruct (code c =? 37).
  - destruct l as [|a [|b l]]; [done..|]. rewrite check_ok_iff. intros [[Ha Hb]%andb_true_iff Hr]. apply try_ok_iff in Hr as (rest & Hr & [= <-]).
    rewrite !Forall_cons in HF. apply IH in Hr; [|cbn in Hl; lia|tauto]. destruct (isUnreserved (char_of (16 * hexval a + hexval b))) eqn:E.
    + constructor; [|done]. apply Z.eqb_neq. intros Ec%code_inj. by rewrite Ec, Hu in E.
    + apply upper_hex_byte in Ha as [(_ & _ & _ & Ha)%upperHex_byte _], Hb as [(_ & _ & _ & Hb)%upperHex_byte _]. repeat constructor; [done|by apply alnum_separates..|done].
  - rewrite check_ok_iff. intros [_ Hr]. apply try_ok_iff in Hr as (rest & Hr & [= <-]). apply IH in Hr; [|lia|done]. destruct (_ || _); [|by constructor].
    destruct (encoded_byte c) as ((_ & _ & _ & Ha)%upperHex_byte & (_ & _ & _ & Hb)%upperHex_byte & _). unfold encoded. repeat constructor; [done|by apply alnum_separates..|done].
Qed.

Lemma normalized_free sep l r : separates sep -> isUnreserved sep = false -> free sep l -> normalizePercent l = Ok r -> free sep r.
Proof. intros ? ? ? H. by eapply (norm_free sep (length l)); [..|exact H]. Qed.

Definition canonical_pair (p : list ascii * list ascii) : Prop :=
  Normal p.1 /\ Normal p.2 /\ free equals p.1 /\ free ampersand p.1 /\ free ampersand p.2.

Lemma free_sub sep l l' : (forall c, c ∈ l' -> c ∈ l) -> free sep l -> free sep l'.
Proof. unfold free. rewrite !Forall_forall. auto. Qed.

Lemma query_pair_canonical raw p : free ampersand raw -> query_pair raw = Ok p -> canonical_pair p.
Proof.
  intros HF. unfold query_pair. destruct raw as [|c raw]; [done|]. fold equals. destruct (cut_at equals (c :: raw)) as [key rest] eqn:E.
  apply cut_spec in E as (E & Hk & _). intros (k & Hkey & Hv)%try_ok_iff. apply try_ok_iff in Hv as (v & Hval & [= <-]). unfold canonical_pair. cbn [fst snd].
  assert (free ampersand key /\ free ampersand (drop 1 rest)) as [Hk1 Hv1].
  { rewrite E in HF. split; (eapply free_sub; [|exact HF]); intros d Hd; apply elem_of_app; [by left|right]. destruct rest; cbn in *; rewrite ?drop_0 in Hd; [done|by right]. }
  split_and!; [by eapply normalizePercent_normal|by eapply normalizePercent_normal|eapply normalized_free; [by split|done|exact Hk|done]|
    eapply normalized_free; [by split|done|exact Hk1|done]|eapply normalized_free; [by split|done|exact Hv1|done]].
Qed.

Lemma query_pairs_canonical l : forall ps, Forall (free ampersand) l -> query_pairs l = Ok ps -> Forall canonical_pair ps /\ length ps = length l.
Proof.
  induction l as [|raw l IH]; intros ps HF; cbn [query_pairs]; [by intros [= <-]|]. apply Forall_cons in HF as [Hr HF].
  intros (p & Hp & Hps)%try_ok_iff. apply try_ok_iff in Hps as (ps' & Hps & [= <-]). apply IH in Hps as [Hps Hl]; [|done].
  split; [constructor; [by eapply query_pair_canonical|done]|cbn; lia].
Qed.

Lemma pair_fixed p : canonical_pair p -> query_pair (pair_text p) = Ok p.
Proof.
  intros (Hk & Hv & He & _). unfold query_pair, pair_text. destruct p as [k v]. cbn [fst snd] in *. fold equals.
  destruct (k ++ equals :: v) as [|c r] eqn:E; [by destruct k|]. rewrite <-E, cut_app by done. cbn [drop]. rewrite drop_0, (normal_fixed k), (normal_fixed v) by done. done.
Qed.

Lemma pairs_fixed ps : Forall canonical_pair ps -> query_pairs (map pair_text ps) = Ok ps.
Proof. induction 1 as [|p ps Hp HF IH]; [done|]. cbn [map query_pairs]. by rewrite pair_fixed, IH. Qed.

(** The canonical queries: none, or sorted pairs in normal encoding. *)
Definition canonical_query (q : list ascii) : Prop :=
  q = [] \/ exists ps, ps <> [] /\ Forall canonical_pair ps /\ Sorted pair_le ps /\ q = join_on ampersand (map pair_text ps).

Lemma normalizedQuery_canonical raw q : normalizedQuery raw = Ok q -> canonical_query q.
Proof.
  unfold normalizedQuery. destruct raw as [|c raw]; [intros [= <-]; by left|]. fold ampersand. intros (ps & Hps & [= <-])%try_ok_iff. right.
  apply query_pairs_canonical in Hps as [HF Hl]; [|apply split_free]. exists (merge_sort pair_le ps). split_and!; [|by rewrite merge_sort_Permutation|apply Sorted_merge_sort, _|done].
  intros E. pose proof (merge_sort_Permutation pair_le ps) as P. rewrite E in P. apply Permutation_nil_l in P. subst ps. destruct (split_on ampersand (c :: raw)) eqn:Es; [|done].
  by apply split_nonempty in Es.
Qed.

Lemma pair_text_free p : canonical_pair p -> free ampersand (pair_text p).
Proof. intros (_ & _ & _ & Hk & Hv). apply Forall_app. split; [done|]. by constructor. Qed.

Lemma join_nonempty ps : ps <> [] -> join_on ampersand (map pair_text ps) <> [].
Proof. destruct ps as [|[k v] [|p ps]]; [done| |]; intros _; cbn [map join_on]; unfold pair_text; cbn; by destruct k. Qed.

Lemma canonical_query_fixed q : canonical_query q -> normalizedQuery q = Ok q.
Proof.
  intros [->|(ps & Hne & HF & HS & ->)]; [done|]. unfold normalizedQuery. pose proof (join_nonempty ps Hne) as Hj. destruct (join_on _ _) as [|c r] eqn:E; [done|].
  rewrite <-E. fold ampersand. rewrite split_join; [|by destruct ps|]. 2:{ apply Forall_map. eapply Forall_impl; [exact HF|]. apply pair_text_free. }
  rewrite pairs_fixed by done. by rewrite sorted_fixed.
Qed.

Lemma canonical_query_normal q : canonical_query q -> Normal q.
Proof.
  intros [->|(ps & _ & HF & _ & ->)]; [constructor|]. apply normal_join; [done|]. apply Forall_map. eapply Forall_impl; [exact HF|].
  intros p (Hk & Hv & _). apply Normal_app; [done|]. by constructor.
Qed.

(** ** Paths *)

Definition question : ascii := char_of 63.

(** The canonical paths: absolute, in normal encoding, without dot segments. *)
Definition canonical_path (p : list ascii) : Prop :=
  Normal p /\ free question p /\ exists r, p = slash :: r /\ Forall plain_segment (split_on slash r).

Lemma root_canonical : canonical_path [slash].
Proof. split_and!; [by repeat constructor..|]. exists []. split; [done|]. constructor; [|constructor]. by split_and!; [..|constructor]. Qed.

Lemma split_elem sep l s c : s ∈ split_on sep l -> c ∈ s -> c ∈ l.
Proof.
  revert s. induction l as [|d r IH]; intros s; cbn [split_on]; [by intros ->%list_elem_of_singleton|]. rewrite elem_of_cons. destruct (_ =? _).
  - intros [->|Hs]%elem_of_cons Hc; [by apply elem_of_nil in Hc|right; eauto].
  - destruct (split_on sep r) as [|p ps]; [by intros ->%list_elem_of_singleton [->|?%elem_of_nil]%elem_of_cons; [left|]|].
    intros [->|Hs]%elem_of_cons Hc; [apply elem_of_cons in Hc as [->|Hc]; [by left|]|]; right; eapply IH; [by left|done|by right|done].
Qed.

Lemma path_text_free sep segments : (code slash =? code sep) = false -> Forall (free sep) segments -> free sep (path_text segments).
Proof.
  intros Hs. induction 1 as [|s l Hx Hl IH]; [constructor|]. change (path_text (s :: l)) with (slash :: s ++ path_text l). constructor; [done|]. by apply Forall_app.
Qed.

Lemma normalizedPath_canonical raw p : free question raw -> normalizedPath raw = Ok p -> canonical_path p.
Proof.
  intros Hq. unfold normalizedPath. destruct raw as [|c raw]; [intros [= <-]; apply root_canonical|]. intros (l & Hl & Hp)%try_ok_iff. rewrite check_ok_iff in Hp.
  destruct Hp as [Hp [= <-]]. apply starts_with_iff in Hp as [r ->]. pose proof Hl as Hn%normalizePercent_normal.
  apply (normalized_free question) in Hl; [|by split|done..]. change ([slash] ++ r) with (slash :: r) in *. rewrite dots_removed. apply Forall_cons in Hl as [_ Hl].
  assert (Hr : Normal r) by (inversion Hn; done). set (segments := resolve [] (split_on slash r)).
  assert (HN : Forall Normal segments) by (apply resolve_all; [constructor|constructor|apply normal_split; [apply slash_separates|done]]).
  assert (HF : Forall plain_segment segments) by (apply resolve_plain; [constructor|apply split_free]).
  assert (HQ : Forall (free question) segments).
  { apply resolve_all; [constructor..|]. apply Forall_forall. intros s Hs. eapply free_sub; [|exact Hl]. intros d Hd. by eapply split_elem. }
  split_and!; [by apply normal_path_text|by apply path_text_free|]. destruct (split_path_text segments) as (r' & Hr' & Hs);
    [apply resolve_nonempty; left; apply split_nonempty| |exists r'; by rewrite Hs]. eapply Forall_impl; [exact HF|]. by intros s (_ & _ & ?).
Qed.

Lemma canonical_path_fixed p : canonical_path p -> normalizedPath p = Ok p.
Proof.
  intros (HN & _ & r & -> & HF). unfold normalizedPath. rewrite (normal_fixed _ HN). cbv beta iota. change (starts_with [slash] (slash :: r)) with true. cbv iota.
  rewrite dots_removed, resolve_fixed by done. cbn [rev app]. by rewrite path_text_split.
Qed.

Lemma normal_unescapes l : Normal l -> is_Some (unescape_path l).
Proof.
  induction 1 as [|c r Hc Hr [x IH]|a b r Ha Hb Hu Hr [x IH]]; cbn [unescape_path]; [eauto| |].
  - destruct (literal_byte c Hc) as (_ & H2 & _). destruct (code c =? 37) eqn:E; [to_prop; lia|]. rewrite IH. cbn. eauto.
  - change (code percent =? 37) with true. cbv iota. destruct (upperHex_byte a Ha) as (-> & _), (upperHex_byte b Hb) as (-> & _). cbn [andb]. rewrite IH. cbn. eauto.
Qed.

Lemma literal_valid c : isURLLiteral c = true -> (code c =? 63) = false -> among "!$&'()*+,;=:@[]%" c || negb (shouldEscape c) = true.
Proof. all_bytes c. Qed.

Lemma normal_valid l : Normal l -> free question l -> validEncoded l = true.
Proof.
  intros HN HF. apply forallb_forall. intros c Hc%list_elem_of_In. unfold free in HF. rewrite Forall_forall in HF. specialize (HF c Hc). change (code question) with 63 in HF.
  destruct (normal_bytes l c HN Hc) as [Hl| ->]; [by apply literal_valid|done].
Qed.

Lemma escaped_fixed p : canonical_path p -> escaped_path p = Some p.
Proof. intros (HN & HF & _). unfold escaped_path. destruct (normal_unescapes p HN) as [x ->]. by rewrite (normal_valid p HN HF), orb_true_r. Qed.

Lemma escape_free l : free question (escape_path l).
Proof.
  unfold escape_path. induction l as [|c l IH]; [constructor|]. cbn. apply Forall_app. split; [|done]. destruct (shouldEscape c) eqn:E.
  - destruct (encoded_byte c) as ((_ & _ & _ & Ha)%upperHex_byte & (_ & _ & _ & Hb)%upperHex_byte & _). by repeat constructor; [..|apply alnum_separates|apply alnum_separates].
  - constructor; [|constructor]. apply Z.eqb_neq. intros ->%code_inj. done.
Qed.

Lemma escaped_free p e : free question p -> escaped_path p = Some e -> free question e.
Proof. intros HF. unfold escaped_path. destruct (unescape_path p) as [x|]; [|done]. intros [= <-]. destruct (_ || _); [done|apply escape_free]. Qed.

(** ** Hosts *)

Definition ldh (c : ascii) : bool := between 97 122 (code c) || is_digit c || among "-." c.
Definition ip_char (c : ascii) : bool := is_lower_hex c || among ".:" c.
Definition port_text (port : string) : string := if bool_decide (port = "") then "" else ":" +:+ port.

(** What the documentation of [net], [net/url] and [idna.Lookup] says: addresses are printed
    in one way, and a dotted quad as it was read; looked-up names are lower-case letters,
    digits, hyphens and dots and are looked up as themselves; and the authority of a name or
    an address, with or without a port, is read back. *)
Class HostLaws `{HostNames} := {
  ip_text s ip : ParseIP s = Some ip -> ip <> "" /\ str_all ip_char ip = true;
  ip_again s ip : ParseIP s = Some ip -> ParseIP ip = Some ip;
  ip_quad s ip : ParseIP s = Some ip -> has_colon s = false -> ip = s;
  ascii_text s name : ToASCII s = Some name -> str_all ldh name = true;
  ascii_again s name : ToASCII s = Some name -> ToASCII name = Some name;
  host_name name port : name <> "" -> str_all ldh name = true -> port = "" \/ validPort port = true -> url_host (name +:+ port_text port) = Some (name, port);
  host_ip ip port : ParseIP ip = Some ip -> has_colon ip = true -> port = "" \/ validPort port = true -> url_host ("[" +:+ ip +:+ "]" +:+ port_text port) = Some (ip, port);
}.

Section Hosts.
Context `{Unicode, HostNames, !HostLaws}.

Lemma ldh_byte c : ldh c = true -> is_ascii c = true /\ ascii_lower c = c /\ (code c =? 58) = false /\ (code c =? 37) = false.
Proof. all_bytes c. Qed.
Lemma ip_byte c : ip_char c = true -> is_ascii c = true /\ ascii_lower c = c /\ (code c =? 37) = false /\ ((code c =? 58) = false -> ldh c = true).
Proof. all_bytes c. Qed.

Lemma str_map_same f s : (forall c, c ∈ chars s -> f c = c) -> str_map f s = s.
Proof.
  induction s as [|c s IH]; intros Hf; [done|]. cbn. rewrite (Hf c), IH; [done| |by left]. intros d Hd. apply Hf. by right.
Qed.

Lemma lower_same (p : ascii -> bool) s : (forall c, p c = true -> is_ascii c = true /\ ascii_lower c = c) -> str_all p s = true -> ToLower s = s.
Proof.
  intros Hp Hs. unfold ToLower. assert (str_all is_ascii s = true) as -> by (eapply str_all_impl; [|exact Hs]; intros c Hc; by apply Hp).
  apply str_map_same. intros c Hc. rewrite str_all_chars, forallb_forall in Hs. apply Hp, Hs. by apply list_elem_of_In.
Qed.

Lemma no_char (p : ascii -> bool) k s : (forall c, p c = true -> (code c =? k) = false) -> str_all p s = true -> existsb (fun c => code c =? k) (chars s) = false.
Proof.
  intros Hp Hs. apply not_true_iff_false. intros (c & Hc & E)%existsb_exists. rewrite str_all_chars, forallb_forall in Hs. by rewrite (Hp c (Hs c Hc)) in E.
Qed.

(** A canonical host is its own canonical form. *)
Definition host_ok (host : string) (isIPv6 : bool) : Prop :=
  canonical_host host = Some (host, isIPv6) /\ host <> "" /\
  if isIPv6 then ParseIP host = Some host /\ has_colon host = true /\ str_all ip_char host = true else str_all ldh host = true.

Lemma canonical_host_ok hostname host isIPv6 : canonical_host hostname = Some (host, isIPv6) -> host_ok host isIPv6.
Proof.
  unfold canonical_host at 1. destruct (ParseIP hostname) as [ip|] eqn:Ei.
  - destruct (ip_text _ _ Ei) as [Hne Hip]. rewrite (lower_same ip_char) by (done || intros c Hc; destruct (ip_byte c Hc); tauto). intros [= <- <-].
    apply ip_again in Ei. unfold host_ok, canonical_host. rewrite Ei, (lower_same ip_char) by (done || intros c Hc; destruct (ip_byte c Hc); tauto).
    split_and!; [done..|]. destruct (has_colon ip) eqn:Ec; [done|]. rewrite str_all_chars, forallb_forall in *. intros c Hc.
    apply ip_byte; [auto|]. apply not_true_iff_false. intros E. apply not_true_iff_false in Ec. apply Ec, existsb_exists. eauto.
  - destruct (ToASCII _) as [name|] eqn:Ea; [|done]. destruct (bool_decide (name = "")) eqn:En; [done|]. apply bool_decide_eq_false in En. intros [= <- <-].
    pose proof (ascii_text _ _ Ea) as Ht. apply ascii_again in Ea. assert (Hl : ToLower name = name) by (eapply lower_same; [|exact Ht]; intros c Hc; destruct (ldh_byte c Hc); tauto).
    assert (Hc : has_colon name = false) by (eapply no_char; [|exact Ht]; intros c Hc; by apply ldh_byte).
    split_and!; [|done..]. unfold canonical_host. destruct (ParseIP name) as [ip|] eqn:Ei2.
    + apply ip_quad in Ei2 as ->; [|done]. by rewrite Hl, Hc.
    + rewrite Hl, Ea. by rewrite bool_decide_eq_false_2.
Qed.

Lemma host_text_back host isIPv6 port text : host_ok host isIPv6 -> host_text host isIPv6 port = Ok text ->
  exists port', url_host text = Some (host, port') /\ host_text host isIPv6 port' = Ok text.
Proof.
  intros (Hc & Hne & Hok). unfold host_text at 1. destruct (negb (bool_decide (port = "")) && negb (bool_decide (port = "443"))) eqn:Ep.
  - rewrite check_ok_iff. intros [Hv [= <-]]. exists port. unfold host_text. rewrite Ep, Hv. split; [|done]. unfold JoinHostPort.
    assert (Hpt : port_text port = ":" +:+ port) by (unfold port_text; apply andb_true_iff in Ep as [Ep _]; apply negb_true_iff in Ep; by rewrite Ep).
    destruct isIPv6.
    + destruct Hok as (Hip & Hcol & Hch). assert (existsb (fun c => (code c =? 58) || (code c =? 37)) (chars host) = true) as ->.
      { unfold has_colon in Hcol. apply existsb_exists in Hcol as (c & Hin & E). apply existsb_exists. exists c. by rewrite E. }
      change ("]:" +:+ port) with ("]" +:+ ":" +:+ port). rewrite <-Hpt. apply host_ip; auto.
    + assert (existsb (fun c => (code c =? 58) || (code c =? 37)) (chars host) = false) as ->.
      { apply not_true_iff_false. intros (c & Hin & E)%existsb_exists. rewrite str_all_chars, forallb_forall in Hok. destruct (ldh_byte c (Hok c Hin)) as (_ & _ & E1 & E2).
        by rewrite E1, E2 in E. }
      rewrite <-Hpt. apply host_name; auto.
  - intros [= <-]. exists "". unfold host_text. change (negb (bool_decide ("" = "")) && _) with false. cbv iota. split; [|done].
    destruct isIPv6.
    + destruct Hok as (Hip & Hcol & _). rewrite <-(host_ip host "" Hip Hcol) by auto. unfold port_text. done.
    + rewrite <-(host_name host "") by auto. unfold port_text. change (if bool_decide ("" = "") then "" else ":" +:+ "") with "". by rewrite str_app_nil_r.
Qed.

(** ** URLs *)

Definition host_char (c : ascii) : bool := ldh c || ip_char c || among "[]:" c.
Lemma host_byte c : host_char c = true -> printable c = true /\ (code c =? code slash) = false /\ (code c =? code question) = false /\ (code c =? 64) = false /\ (code c =? 35) = false.
Proof. all_bytes c. Qed.

Lemma host_text_chars host isIPv6 port text : host_ok host isIPv6 -> host_text host isIPv6 port = Ok text -> str_all host_char text = true.
Proof.
  intros (_ & _ & Hok). assert (Hh : str_all host_char host = true).
  { destruct isIPv6; [destruct Hok as (_ & _ & Hok)|]; (eapply str_all_impl; [|exact Hok]); intros c Hc; unfold host_char; rewrite Hc; by rewrite ?orb_true_r. }
  unfold host_text, JoinHostPort. destruct (_ && _).
  - rewrite check_ok_iff. intros [Hv [= <-]]. assert (Hp : str_all host_char port = true).
    { unfold validPort in Hv. apply andb_true_iff in Hv as [[_ Hv]%andb_true_iff _]. eapply str_all_impl; [|exact Hv]. intros c Hc. unfold host_char, ldh. by rewrite Hc, orb_true_r. }
    destruct (existsb _ _); rewrite !str_all_app, Hh, Hp; done.
  - intros [= <-]. destruct isIPv6; rewrite ?str_all_app, Hh; done.
Qed.

Definition url_tail (query : list ascii) : list ascii := match query with [] => [] | _ => question :: query end.

Lemma parts_of authority r query : Forall (fun c => host_char c = true) authority -> free question r -> Forall (fun c => printable c = true) (slash :: r) ->
  Forall (fun c => printable c = true) query ->
  https_parts (chars "https://" ++ authority ++ (slash :: r) ++ url_tail query) = Some (authority, slash :: r, query).
Proof.
  intros Ha Hr Hp Hq. unfold https_parts.
  assert (HA : forall sep, (forall c, host_char c = true -> (code c =? code sep) = false) -> free sep authority) by (intros sep Hs; eapply Forall_impl; [exact Ha|]; done).
  destruct (existsb _ _) eqn:E.
  { exfalso. apply existsb_exists in E as (c & Hin%list_elem_of_In & E). assert (Hall : Forall (fun c => printable c = true) (chars "https://" ++ authority ++ (slash :: r) ++ url_tail query)).
    { apply Forall_app. split; [by repeat constructor|]. apply Forall_app. split; [eapply Forall_impl; [exact Ha|]; intros d Hd; by apply host_byte|]. apply Forall_app.
      split; [done|]. destruct query; [constructor|by constructor]. }
    rewrite Forall_forall in Hall. apply Hall in Hin. unfold printable, between in Hin. to_prop. lia. }
  assert (Hpre : starts_with (chars "https:") (map ascii_lower (take 6 (chars "https://" ++ authority ++ (slash :: r) ++ url_tail query))) = true) by reflexivity.
  rewrite Hpre. cbn [negb]. cbv iota. change (drop 6 (chars "https://" ++ ?X)) with (slash :: slash :: X).
  assert (Hcut : cut_at (char_of 63) (slash :: slash :: authority ++ (slash :: r) ++ url_tail query) = (slash :: slash :: authority ++ slash :: r, url_tail query)).
  { replace (slash :: slash :: authority ++ (slash :: r) ++ url_tail query) with ((slash :: slash :: authority ++ slash :: r) ++ url_tail query) by (cbn; by rewrite <-app_assoc).
    assert (free (char_of 63) (slash :: slash :: authority ++ slash :: r)).
    { repeat (constructor; [done|]). apply Forall_app. split; [apply HA; intros c Hc; by apply host_byte|by constructor]. }
    unfold url_tail. destruct query; [rewrite app_nil_r; by apply cut_last|by apply cut_app]. }
  rewrite Hcut. change (starts_with (chars "//") (slash :: slash :: ?X)) with true. cbn [negb]. cbv iota.
  change (drop 2 (slash :: slash :: authority ++ slash :: r)) with (drop 0 (authority ++ slash :: r)). rewrite drop_0, cut_app by (apply HA; intros c Hc; by apply host_byte).
  assert (existsb (fun c => code c =? 64) authority = false) as ->.
  { apply not_true_iff_false. intros (c & Hin%list_elem_of_In & E2)%existsb_exists. rewrite Forall_forall in Ha. destruct (host_byte c (Ha c Hin)) as (_ & _ & _ & E3 & _). congruence. }
  unfold url_tail. destruct query; [done|]. done.
Qed.

Lemma path_printable p : Normal p -> Forall (fun c => printable c = true /\ (code c =? 35) = false) p.
Proof.
  intros HN. apply Forall_forall. intros c Hc. destruct (normal_bytes p c HN Hc) as [Hl| ->]; [|done]. apply literal_byte in Hl. unfold printable, between. to_prop. lia.
Qed.

Lemma https_free raw a p q : https_parts raw = Some (a, p, q) -> free question p.
Proof.
  unfold https_parts. destruct (existsb _ raw); [done|]. destruct (negb (starts_with _ _)); [done|]. destruct (cut_at _ (drop 6 raw)) as [rest query] eqn:E1.
  apply cut_spec in E1 as (_ & Hf & _). destruct (negb _); [done|]. destruct (cut_at slash (drop 2 rest)) as [authority path] eqn:E2. apply cut_spec in E2 as (E2 & _ & _).
  destruct (existsb _ authority); [done|]. intros [= _ <- _]. eapply free_sub; [|exact Hf]. intros c Hc.
  assert (c ∈ drop 2 rest) by (rewrite E2; apply elem_of_app; by right). rewrite <-(take_drop 2 rest). apply elem_of_app. by right.
Qed.

(** The parts of a canonical URL. *)
Lemma canonical_url_parts raw u : CanonicalURL raw = Ok u ->
  exists host isIPv6 port text path query, host_ok host isIPv6 /\ host_text host isIPv6 port = Ok text /\ canonical_path path /\ canonical_query query /\
    u = "https://" +:+ text +:+ str_of path +:+ (match query with [] => "" | _ => "?" +:+ str_of query end) /\ jcsSafe u = true.
Proof.
  unfold CanonicalURL. rewrite check_ok_iff. intros [_ Hu]. destruct (https_parts _) as [[[authority rawpath] rawquery]|] eqn:Ep; [|done].
  destruct (url_host _) as [[hostname port]|]; [|done]. destruct (escaped_path rawpath) as [escaped|] eqn:Ee; [|done]. rewrite check_ok_iff in Hu. destruct Hu as [_ Hu].
  destruct (canonical_host hostname) as [[host isIPv6]|] eqn:Eh; [|done]. apply try_ok_iff in Hu as (text & Ht & Hu). apply try_ok_iff in Hu as (path & Hp & Hu).
  apply try_ok_iff in Hu as (query & Hq & Hu). cbv zeta in Hu. rewrite check_ok_iff in Hu. destruct Hu as [Hj [= <-]].
  exists host, isIPv6, port, text, path, query. split_and!; [by eapply canonical_host_ok|done| |by eapply normalizedQuery_canonical|done|done].
  eapply normalizedPath_canonical; [|exact Hp]. eapply escaped_free; [|exact Ee]. by eapply https_free.
Qed.

(** C32: canonical URLs are stable. The canonical form of a URL is its own canonical form, up
    to the bound of 8192 bytes on URLs, which it can exceed when the URL did not. *)
Theorem canonical_url_stable (raw u : string) :
  CanonicalURL raw = Ok u -> CanonicalURL u = if str_len u <=? 8192 then Ok u else Err ErrInvalidURL.
Proof.
  intros (host & isIPv6 & port & text & path & query & Hh & Ht & Hp & Hq & Hu & Hj)%canonical_url_parts.
  destruct (host_text_back _ _ _ _ Hh Ht) as (port' & Hback & Hagain). pose proof (host_text_chars _ _ _ _ Hh Ht) as Hch.
  pose proof Hp as (HN & Hqf & r & Hr & _). pose proof (path_printable path HN) as HPp. pose proof (path_printable query (canonical_query_normal query Hq)) as HQp.
  assert (Hchars : chars u = chars "https://" ++ chars text ++ path ++ url_tail query).
  { rewrite Hu, !chars_app, chars_str_of. do 3 f_equal. destruct query; [done|]. rewrite chars_app, chars_str_of. done. }
  assert (HF : Forall (fun c => printable c = true /\ (code c =? 35) = false) (chars u)).
  { rewrite Hchars. apply Forall_app. split; [by repeat constructor|]. apply Forall_app. split.
    - rewrite str_all_chars in Hch. apply forallb_Forall in Hch. eapply Forall_impl; [exact Hch|]. intros c Hc. cbn in Hc. apply host_byte in Hc. tauto.
    - apply Forall_app. split; [done|]. destruct query; [constructor|]. by constructor. }
  unfold CanonicalURL. assert (TrimSpace u = u) as ->.
  { apply printable_trim. rewrite str_all_chars. apply forallb_forall. intros c Hc%list_elem_of_In. rewrite Forall_forall in HF. by apply HF. }
  assert (existsb (fun c => code c =? 35) (chars u) = false) as ->.
  { apply not_true_iff_false. intros (c & Hc%list_elem_of_In & E)%existsb_exists. rewrite Forall_forall in HF. destruct (HF c Hc). congruence. }
  rewrite (bool_decide_eq_false_2 (u = "")) by (rewrite Hu; done). rewrite (bool_decide_eq_true_2 (u = u)) by done. cbn [negb andb]. rewrite !andb_true_r.
  destruct (str_len u <=? 8192); [|done]. rewrite Hchars, Hr, parts_of.
  - rewrite str_of_chars, Hback, <-Hr, escaped_fixed by done. destruct Hh as (Hc & Hne & _). rewrite (bool_decide_eq_false_2 (host = "")) by done. cbn [negb].
    rewrite Hc, Hagain, canonical_path_fixed, canonical_query_fixed by done. cbv beta iota zeta. rewrite <-Hu. by rewrite Hj.
  - rewrite str_all_chars in Hch. by apply forallb_Forall.
  - rewrite Hr in Hqf. by apply Forall_cons in Hqf as [_ ?].
  - rewrite <-Hr. eapply Forall_impl; [exact HPp|]. by intros c [? _].
  - eapply Forall_impl; [exact HQp|]. by intros c [? _].
Qed.
End Hosts.
