(* ===== verification/PurchaseSpec.v ===== *)
(** * Purchase specifications ([pkg/purchasespec])

    The description of an outbound request that a purchase is bound to: its fields, canonical
    URL, body hash and material headers, written as JSON and hashed. [Build] makes one from
    what an agent asks for; [ValidatePersisted] accepts one that was stored. *)
From stdpp Require Import base gmap strings list sorting.
From Stdlib Require Import ZArith Lia Ascii.
From S2P Require Import Prelude GoText GoJSON Crypto CanonicalJSON Url.

Open Scope Z_scope.

Definition MaxRequestBodyBytes : Z := 8 * 2 ^ 20.
Definition maxPersistedBytes : Z := 32 * 2 ^ 20.
Definition ErrInvalidSpec : error := "invalid purchase specification".

Definition prohibitedHeaders : list string :=
  ["authorization"; "cookie"; "host"; "forwarded"; "payment-required"; "payment-signature"; "payment-response"; "connection"; "keep-alive";
   "proxy-authenticate"; "proxy-authorization"; "te"; "trailer"; "transfer-encoding"; "upgrade"].
Definition transportHeaders : list string := ["traceparent"; "accept-encoding"].

Record Header := mkHeader { hdr_Name : string; hdr_Value : string }.
Record ResponseContract := mkResponse { rc_ContentType : string; rc_SchemaRef : string }.
Record ReasonRef := mkReason { rf_BlobRef : string; rf_ContentHash : string }.
Record HeaderBinding := mkBinding { hb_LowercaseName : string; hb_ValueHash : string }.

Record PurchaseInput := mkPurchaseInput {
  pi_OrgID : string; pi_AgentID : string; pi_TaskID : string; pi_Method : string; pi_URL : string; pi_Body : string;
  pi_Headers : list Header; pi_Response : ResponseContract; pi_Category : string; pi_ReasonRef : option ReasonRef }.

(** A nil slice of bindings is [None]. *)
Record PurchaseSpec := mkPurchaseSpec {
  ps_OrgID : string; ps_AgentID : string; ps_TaskID : string; ps_Method : string; ps_CanonicalURL : string; ps_RequestBodyHash : string;
  ps_HeaderBindings : option (list HeaderBinding); ps_Response : ResponseContract; ps_Category : string; ps_ReasonRef : option ReasonRef }.

Record BuildResult := mkBuild { br_Spec : PurchaseSpec; br_CanonicalJSON : string; br_PurchaseSpecHash : string; br_StrippedTransportHeader : list string }.

(** ** Texts *)

(** [strings.ToUpper]; the tables for other characters than ASCII are a parameter. *)
Class UnicodeUpper := { unicode_upper : string -> string }.
Definition ToUpper `{UnicodeUpper} (s : string) : string := if str_all is_ascii s then str_map ascii_upper s else unicode_upper s.

Definition token_char (c : ascii) : bool := is_alnum c || among "!#$%&'*+-.^_`|~" c.
Definition isToken (v : string) : bool := str_all token_char v.

(** [strings.Trim(v, " \t")] *)
Definition is_ows (c : ascii) : bool := (code c =? 32) || (code c =? 9).
Fixpoint trim_ows (l : list ascii) : list ascii := match l with c :: r => if is_ows c then trim_ows r else l | [] => [] end.
Definition TrimOWS (v : string) : string := str_of (rev (trim_ows (rev (trim_ows (chars v))))).

(** A string by an encoder that does not escape HTML. *)
Definition plain_rune (r : rune) : string :=
  match r with
  | R1 a => let z := code a in if (z =? 60) || (z =? 62) || (z =? 38) then String a "" else escape_rune r
  | _ => escape_rune r
  end.
Definition plain_string (s : string) : string := quote +:+ str_concat (map plain_rune (runes (chars s))) +:+ quote.

(** ** The text of a specification: the fields in order, [reasonRef] left out when nil *)

Definition json_Binding (b : HeaderBinding) : string :=
  write_object [("lowercaseName", plain_string (hb_LowercaseName b)); ("valueHash", plain_string (hb_ValueHash b))].
Definition json_Bindings (o : option (list HeaderBinding)) : string := match o with None => "null" | Some l => json_array (map json_Binding l) end.
Definition json_Response (r : ResponseContract) : string :=
  write_object [("contentType", plain_string (rc_ContentType r)); ("schemaRef", plain_string (rc_SchemaRef r))].
Definition json_Reason (r : ReasonRef) : string := write_object [("blobRef", plain_string (rf_BlobRef r)); ("contentHash", plain_string (rf_ContentHash r))].

Definition spec_fields (s : PurchaseSpec) : list (string * string) :=
  [("orgId", plain_string (ps_OrgID s)); ("agentId", plain_string (ps_AgentID s)); ("taskId", plain_string (ps_TaskID s)); ("method", plain_string (ps_Method s));
   ("canonicalURL", plain_string (ps_CanonicalURL s)); ("requestBodyHash", plain_string (ps_RequestBodyHash s));
   ("headerBindings", json_Bindings (ps_HeaderBindings s)); ("responseContract", json_Response (ps_Response s)); ("category", plain_string (ps_Category s))]
  ++ match ps_ReasonRef s with Some r => [("reasonRef", json_Reason r)] | None => [] end.
Definition canonicalJSONFor (s : PurchaseSpec) : string := write_object (spec_fields s).

(** [json.Unmarshal] into the struct. Go also takes names that differ in case; a text with
    such a name is not what the encoder writes and is refused later all the same. *)
Definition field (l : list (string * jval)) (name : string) : jval := match List.find (fun m => bool_decide (m.1 = name)) l with Some m => m.2 | None => JNull end.
Definition as_string (v : jval) : option string := match v with JStr s => Some s | JNull => Some "" | _ => None end.
Definition members (v : jval) : option (list (string * jval)) := match v with JObj l => Some l | JNull => Some [] | _ => None end.

Definition unmarshal_binding (v : jval) : option HeaderBinding :=
  l ← members v; n ← as_string (field l "lowercaseName"); h ← as_string (field l "valueHash"); Some (mkBinding n h).
Definition unmarshal_bindings (v : jval) : option (option (list HeaderBinding)) :=
  match v with JNull => Some None | JArr items => l ← mapM unmarshal_binding items; Some (Some l) | _ => None end.
Definition unmarshal_response (v : jval) : option ResponseContract :=
  l ← members v; c ← as_string (field l "contentType"); s ← as_string (field l "schemaRef"); Some (mkResponse c s).
Definition unmarshal_reason (v : jval) : option (option ReasonRef) :=
  match v with
  | JNull => Some None
  | _ => l ← members v; b ← as_string (field l "blobRef"); h ← as_string (field l "contentHash"); Some (Some (mkReason b h))
  end.
Definition unmarshal_spec (v : jval) : option PurchaseSpec :=
  l ← members v;
  org ← as_string (field l "orgId"); agent ← as_string (field l "agentId"); task ← as_string (field l "taskId"); method ← as_string (field l "method");
  url ← as_string (field l "canonicalURL"); body ← as_string (field l "requestBodyHash"); bindings ← unmarshal_bindings (field l "headerBindings");
  response ← unmarshal_response (field l "responseContract"); category ← as_string (field l "category"); reason ← unmarshal_reason (field l "reasonRef");
  Some (mkPurchaseSpec org agent task method url body bindings response category reason).

Section PurchaseSpec.
Context `{Crypto, Unicode, UnicodeUpper, HostNames}.

Definition keccakHex (v : string) : string := hex_hash (keccak256 v).

(** "0x", 64 hexadecimal digits, no upper case *)
Definition isSpecHash (v : string) : bool := hash_pattern v.
Definition isHeaderName (v : string) : bool := negb (bool_decide (v = "")) && (str_len v <=? 256) && isToken v && bool_decide (v = ToLower v).

Definition field_ok (v : string) : bool := negb (bool_decide (TrimSpace v = "")) && jcsSafe v && (str_len v <=? 1024).
Definition response_ok (r : ResponseContract) : bool :=
  negb (bool_decide (TrimSpace (rc_ContentType r) = "")) && negb (bool_decide (TrimSpace (rc_SchemaRef r) = "")) &&
  jcsSafe (rc_ContentType r) && jcsSafe (rc_SchemaRef r) && (str_len (rc_ContentType r) <=? 256) && (str_len (rc_SchemaRef r) <=? 2048).
Definition method_ok (m : string) : bool := negb (bool_decide (m = "")) && (str_len m <=? 16) && isToken m.

(** ** Headers *)

Definition header_prohibited (name : string) : bool := String.prefix "x-forwarded-" name || bool_decide (name ∈ prohibitedHeaders).

Record header_state := mkHeaders { hs_seen : list string; hs_bindings : list HeaderBinding; hs_stripped : list string }.

Definition header_step (st : header_state) (h : Header) : res header_state :=
  let name := ToLower (hdr_Name h) in
  check isHeaderName name && jcsSafe (hdr_Value h) && negb (existsb (fun c => (code c =? 13) || (code c =? 10) || (code c =? 0)) (chars (hdr_Value h))) else ErrInvalidSpec ;;
  let value := TrimOWS (hdr_Value h) in
  check negb (header_prohibited name) else ErrInvalidSpec ;;
  check negb (bool_decide (name ∈ hs_seen st)) else ErrInvalidSpec ;;
  let seen := name :: hs_seen st in
  if bool_decide (name ∈ transportHeaders) then Ok (mkHeaders seen (hs_bindings st) (hs_stripped st ++ [name]))
  else Ok (mkHeaders seen (hs_bindings st ++ [mkBinding name (keccakHex value)]) (hs_stripped st)).

Definition string_le (x y : string) : Prop := bytes_leb (chars x) (chars y) = true.
#[export] Instance string_le_dec x y : Decision (string_le x y).
Proof. unfold string_le. apply _. Defined.
Definition binding_le (x y : HeaderBinding) : Prop := string_le (hb_LowercaseName x) (hb_LowercaseName y).
#[export] Instance binding_le_dec x y : Decision (binding_le x y).
Proof. unfold binding_le. apply _. Defined.

Definition canonicalHeaders (headers : list Header) : res (list HeaderBinding * list string) :=
  try st := fold_res header_step (mkHeaders [] [] []) headers in
  Ok (merge_sort binding_le (hs_bindings st), merge_sort string_le (hs_stripped st)).

Definition reason_ok (r : ReasonRef) : bool :=
  negb (bool_decide (TrimSpace (rf_BlobRef r) = "")) && (str_len (rf_BlobRef r) <=? 4096) && jcsSafe (rf_BlobRef r) && isSpecHash (rf_ContentHash r) &&
  negb (bool_decide (rf_ContentHash r = zero_hash)).
Definition canonicalReason (reason : option ReasonRef) : res (option ReasonRef) :=
  match reason with None => Ok None | Some r => check reason_ok r else ErrInvalidSpec ;; Ok (Some r) end.

(** ** Building and validating *)

Definition body_hash (method body : string) : res string :=
  if bool_decide (method = "GET") then check bool_decide (body = "") else ErrInvalidSpec ;; Ok "" else Ok (keccakHex body).

Definition Build (i : PurchaseInput) : res BuildResult :=
  check str_len (pi_Body i) <=? MaxRequestBodyBytes else ErrInvalidSpec ;;
  check field_ok (pi_OrgID i) && field_ok (pi_AgentID i) && field_ok (pi_TaskID i) && field_ok (pi_Category i) else ErrInvalidSpec ;;
  let method := ToUpper (TrimSpace (pi_Method i)) in
  check method_ok method else ErrInvalidSpec ;;
  try canonicalURL := CanonicalURL (pi_URL i) in
  check response_ok (pi_Response i) else ErrInvalidSpec ;;
  try headers := canonicalHeaders (pi_Headers i) in
  try reason := canonicalReason (pi_ReasonRef i) in
  try bodyHash := body_hash method (pi_Body i) in
  let spec := mkPurchaseSpec (pi_OrgID i) (pi_AgentID i) (pi_TaskID i) method canonicalURL bodyHash (Some headers.1)
    (mkResponse (TrimSpace (rc_ContentType (pi_Response i))) (TrimSpace (rc_SchemaRef (pi_Response i)))) (pi_Category i) reason in
  let canonical := canonicalJSONFor spec in
  Ok (mkBuild spec canonical (keccakHex canonical) headers.2).

(** Strictly increasing from [previous] on. *)
Fixpoint bindings_ok (previous : string) (l : list HeaderBinding) : bool :=
  match l with
  | [] => true
  | b :: l =>
      isHeaderName (hb_LowercaseName b) && negb (bytes_leb (chars (hb_LowercaseName b)) (chars previous)) && isSpecHash (hb_ValueHash b) &&
      bindings_ok (hb_LowercaseName b) l
  end.

Definition validateSpec (s : PurchaseSpec) (body : string) : res unit :=
  check field_ok (ps_OrgID s) && field_ok (ps_AgentID s) && field_ok (ps_TaskID s) && field_ok (ps_Category s) else ErrInvalidSpec ;;
  check method_ok (ps_Method s) && bool_decide (ps_Method s = ToUpper (ps_Method s)) else ErrInvalidSpec ;;
  check match CanonicalURL (ps_CanonicalURL s) with Ok u => bool_decide (u = ps_CanonicalURL s) | Err _ => false end else ErrInvalidSpec ;;
  check response_ok (ps_Response s) else ErrInvalidSpec ;;
  try _ := canonicalReason (ps_ReasonRef s) in
  check bindings_ok "" (default [] (ps_HeaderBindings s)) else ErrInvalidSpec ;;
  if bool_decide (ps_Method s = "GET") then check bool_decide (body = "") && bool_decide (ps_RequestBodyHash s = "") else ErrInvalidSpec ;; Ok tt
  else check isSpecHash (ps_RequestBodyHash s) && bool_decide (ps_RequestBodyHash s = keccakHex body) else ErrInvalidSpec ;; Ok tt.

Definition ValidatePersisted (raw body : string) : res PurchaseSpec :=
  check negb (bool_decide (raw = "")) && (str_len raw <=? maxPersistedBytes) && (str_len body <=? MaxRequestBodyBytes) else ErrInvalidSpec ;;
  match decode_json raw with
  | None => Err ErrInvalidSpec
  | Some v =>
      match unmarshal_spec v with
      | None => Err ErrInvalidSpec
      | Some spec =>
          try _ := validateSpec spec body in
          check bool_decide (canonicalJSONFor spec = raw) else ErrInvalidSpec ;;
          Ok spec
      end
  end.
End PurchaseSpec.
