(* ===== verification/PurchaseTheorems.v ===== *)
(** * Purchase specifications are bound by their hash

    What [Build] makes is accepted when it is stored, and its hash determines the request. *)
From stdpp Require Import base gmap strings list sorting.
From Stdlib Require Import ZArith Lia Ascii.
From S2P Require Import Prelude GoText GoJSON Crypto Envelope CanonicalJSON CanonicalTheorems Url UrlTheorems PurchaseSpec.

Open Scope Z_scope.

(** ** Trimming whole characters *)

Definition bytes (rs : list rune) : list ascii := concat (map rune_bytes rs).
Definition space_rune (r : rune) : bool := match r with R1 a => space1 a | R2 a b => space2 a b | R3 a b c => space3 a b c | _ => false end.
Fixpoint drop_spaces (rs : list rune) : list rune := match rs with r :: l => if space_rune r then drop_spaces l else rs | [] => [] end.

Ltac no_space := apply not_true_iff_false; intros ?; unfold space1, space2, space3 in *; rune_arith; lia.

Lemma runes_of_bytes rs : forallb rune_wf rs = true -> runes (bytes rs) = rs.
Proof.
  induction rs as [|r rs IH]; [done|]. cbn [forallb]. intros [W Wr]%andb_true_iff. unfold bytes in *. cbn [map concat]. specialize (IH Wr).
  destruct r; cbn [rune_bytes app runes rune_wf] in *; rewrite ?andb_true_iff, ?negb_true_iff in W.
  - by rewrite W, IH.
  - destruct W as [-> ->]. by rewrite IH.
  - destruct W as [[-> ->] ->]. by rewrite IH.
  - destruct W as [[[-> ->] ->] ->]. by rewrite IH.
  - done.
Qed.

Lemma trim_runes rs : forallb rune_wf rs = true -> trim_front space2 space3 (bytes rs) = bytes (drop_spaces rs).
Proof.
  induction rs as [|r rs IH]; [done|]. cbn [forallb]. intros [W Wr]%andb_true_iff. specialize (IH Wr). unfold bytes in *. cbn [map concat drop_spaces].
  destruct r as [a|a b|a b c|a b c d|a]; cbn [rune_bytes app space_rune] in *; cbn [trim_front].
  - destruct (space1 a) eqn:E; [done|]. cbn [map concat rune_bytes app]. destruct (concat (map rune_bytes rs)) as [|b [|c l]]; [done| |].
    + assert (space2 a b = false) as -> by no_space. done.
    + assert (space2 a b = false) as -> by no_space. assert (space3 a b c = false) as -> by no_space. done.
  - assert (space1 a = false) as -> by no_space. destruct (space2 a b) eqn:E; [done|]. cbn [map concat rune_bytes app].
    destruct (concat (map rune_bytes rs)) as [|c l]; [done|]. assert (space3 a b c = false) as -> by no_space. done.
  - assert (space1 a = false) as -> by no_space. assert (space2 a b = false) as -> by no_space. by destruct (space3 a b c).
  - assert (space1 a = false) as -> by no_space. assert (space2 a b = false) as -> by no_space. assert (space3 a b c = false) as -> by no_space. done.
  - done.
Qed.

Lemma bytes_snoc rs r : rev (bytes (rs ++ [r])) = rev (rune_bytes r) ++ rev (bytes rs).
Proof. unfold bytes. rewrite map_app, concat_app, rev_app_distr. cbn. by rewrite app_nil_r. Qed.

Lemma trim_runes_back rs : forallb rune_wf rs = true ->
  trim_front (fun a b => space2 b a) (fun a b c => space3 c b a) (rev (bytes rs)) = rev (bytes (rev (drop_spaces (rev rs)))).
Proof.
  induction rs as [|r rs IH] using rev_ind; [done|]. rewrite forallb_app. cbn [forallb]. intros [Wr W]%andb_true_iff. rewrite andb_true_r in W. specialize (IH Wr).
  rewrite bytes_snoc, rev_app_distr. cbn [rev app drop_spaces].
  assert (Hkeep : rev (rev rs ++ []) = rs) by (rewrite app_nil_r; apply rev_involutive).
  destruct r as [a|a b|a b c|a b c d|a]; cbn [rune_bytes app space_rune rev] in *; cbn [trim_front].
  - destruct (space1 a) eqn:E; [done|]. cbn [rev]. rewrite rev_involutive, bytes_snoc. cbn [rune_bytes rev app]. destruct (rev (bytes rs)) as [|b [|c l]]; [done| |].
    + assert (space2 b a = false) as -> by no_space. done.
    + assert (space2 b a = false) as -> by no_space. assert (space3 c b a = false) as -> by no_space. done.
  - assert (space1 b = false) as -> by no_space. destruct (space2 a b) eqn:E; [done|]. cbn [rev]. rewrite rev_involutive, bytes_snoc. cbn [rune_bytes rev app].
    destruct (rev (bytes rs)) as [|c l]; [done|]. assert (space3 c a b = false) as -> by no_space. done.
  - assert (space1 c = false) as -> by no_space. assert (space2 b c = false) as -> by no_space. destruct (space3 a b c) eqn:E; [done|]. cbn [rev].
    by rewrite rev_involutive, bytes_snoc.
  - assert (space1 d = false) as -> by no_space. assert (space2 c d = false) as -> by no_space. assert (space3 b c d = false) as -> by no_space. cbn [rev].
    by rewrite rev_involutive, bytes_snoc.
  - done.
Qed.

Lemma drop_spaces_sub rs r : r ∈ drop_spaces rs -> r ∈ rs.
Proof. induction rs as [|x rs IH]; [done|]. cbn. destruct (space_rune x); [right; auto|done]. Qed.

Lemma drop_spaces_wf rs : forallb rune_wf rs = true -> forallb rune_wf (drop_spaces rs) = true.
Proof. rewrite !forallb_forall. intros W r Hr. apply W. apply list_elem_of_In, drop_spaces_sub. by apply list_elem_of_In. Qed.

(** A valid text is trimmed to some of its characters. *)
Lemma trimmed_runes s : valid_utf8 s = true ->
  let kept := rev (drop_spaces (rev (drop_spaces (runes (chars s))))) in runes (chars (TrimSpace s)) = kept /\ forallb rune_wf kept = true.
Proof.
  intros V kept. unfold valid_utf8 in V. pose proof (runes_wf _ V) as W. unfold TrimSpace. fold (chars s). rewrite <-(runes_bytes_valid _ V) at 1.
  fold (bytes (runes (chars s))). rewrite trim_runes, trim_runes_back, rev_involutive by (done || by apply drop_spaces_wf).
  assert (Wk : forallb rune_wf kept = true).
  { unfold kept. rewrite forallb_forall. intros r Hr%in_rev. apply list_elem_of_In, drop_spaces_sub, list_elem_of_In in Hr. apply in_rev in Hr.
    apply list_elem_of_In, drop_spaces_sub, list_elem_of_In in Hr. rewrite forallb_forall in W. auto. }
  split; [|done]. fold (str_of (bytes kept)). rewrite chars_str_of. by apply runes_of_bytes.
Qed.

Lemma rune_wf_ok r : rune_wf r = true -> rune_ok r = true.
Proof. by destruct r. Qed.

Lemma trim_safe s : jcsSafe s = true -> jcsSafe (TrimSpace s) = true.
Proof.
  unfold jcsSafe. intros [V S]%andb_true_iff. destruct (trimmed_runes s V) as [Hr Hw]. unfold valid_utf8. rewrite Hr. apply andb_true_iff. split.
  - rewrite forallb_forall in *. intros r Hin. apply rune_wf_ok. auto.
  - apply negb_true_iff, not_true_iff_false in S. apply negb_true_iff, not_true_iff_false. intros (r & Hin%in_rev & E)%existsb_exists. apply S, existsb_exists. exists r. split; [|done].
    apply list_elem_of_In, drop_spaces_sub, list_elem_of_In in Hin. apply in_rev in Hin. by apply list_elem_of_In, drop_spaces_sub, list_elem_of_In in Hin.
Qed.

Lemma drop_spaces_split rs : exists x, rs = x ++ drop_spaces rs.
Proof. induction rs as [|r rs [x IH]]; [by exists []|]. cbn. destruct (space_rune r); [exists (r :: x); cbn; by rewrite <-IH|by exists []]. Qed.

Lemma drop_spaces_fixed rs : match rs with r :: _ => space_rune r = false | [] => True end -> drop_spaces rs = rs.
Proof. destruct rs as [|r rs]; [done|]. cbn. by intros ->. Qed.

Lemma drop_spaces_head rs : match drop_spaces rs with r :: _ => space_rune r = false | [] => True end.
Proof. induction rs as [|r rs IH]; [done|]. cbn. by destruct (space_rune r) eqn:E. Qed.

Lemma trim_again s : valid_utf8 s = true -> TrimSpace (TrimSpace s) = TrimSpace s.
Proof.
  intros V. destruct (trimmed_runes s V) as [Hr Hw]. set (kept := rev (drop_spaces (rev (drop_spaces (runes (chars s)))))) in *.
  assert (Vt : valid_utf8 (TrimSpace s) = true) by (unfold valid_utf8; rewrite Hr; rewrite forallb_forall in *; intros r Hin; apply rune_wf_ok; auto).
  destruct (trimmed_runes _ Vt) as [Hr2 _]. rewrite Hr in Hr2.
  assert (H1 : drop_spaces kept = kept).
  { apply drop_spaces_fixed. pose proof (drop_spaces_head (runes (chars s))) as Hh. destruct (drop_spaces_split (rev (drop_spaces (runes (chars s))))) as [x Hx].
    assert (Hf : drop_spaces (runes (chars s)) = kept ++ rev x) by (unfold kept; rewrite <-rev_app_distr, <-Hx; by rewrite rev_involutive).
    rewrite Hf in Hh. by destruct kept. }
  rewrite H1 in Hr2. assert (H2 : drop_spaces (rev kept) = rev kept) by (apply drop_spaces_fixed; unfold kept; rewrite rev_involutive; apply drop_spaces_head).
  rewrite H2, rev_involutive in Hr2. unfold valid_utf8 in Vt.
  assert (Vt2 : forallb rune_ok (runes (chars (TrimSpace (TrimSpace s)))) = true) by (rewrite Hr2, <-Hr; done).
  rewrite <-(str_of_chars (TrimSpace (TrimSpace s))), <-(runes_bytes_valid _ Vt2), Hr2, <-Hr, (runes_bytes_valid _ Vt). apply str_of_chars.
Qed.

Lemma trim_front_len p2 p3 n : forall l, (length l <= n)%nat -> (length (trim_front p2 p3 l) <= length l)%nat.
Proof.
  induction n as [|n IH]; intros [|a l1] Hl; try (cbn in Hl |- *; lia). cbn [trim_front length] in *.
  destruct (space1 a); [specialize (IH l1); lia|]. destruct l1 as [|b l2]; [done|]. cbn [length] in *. destruct (p2 a b); [specialize (IH l2); lia|].
  destruct l2 as [|c l3]; [done|]. cbn [length] in *. destruct (p3 a b c); [specialize (IH l3); lia|]. cbn [length]. lia.
Qed.

Lemma trim_len s : str_len (TrimSpace s) <= str_len s.
Proof.
  assert (Hc : forall t, String.length t = length (chars t)) by (intros t; induction t as [|c t IH]; cbn; [done|by rewrite IH]).
  unfold str_len, TrimSpace. rewrite !Hc. fold (chars s). set (f := trim_front space2 space3 (chars s)). match goal with |- context [rev ?x] => set (g := x) end.
  change (String.string_of_list_ascii (rev g)) with (str_of (rev g)). rewrite chars_str_of, length_rev. unfold g.
  pose proof (trim_front_len (λ a b : ascii, space2 b a) (λ a b c : ascii, space3 c b a) _ (rev f) (le_n _)) as H1. rewrite length_rev in H1.
  pose proof (trim_front_len space2 space3 _ (chars s) (le_n _)) as H2. fold f in H2. lia.
Qed.

(** ** Texts the encoder writes without escapes of its own *)

Lemma plain_byte a : is_ascii a = true -> plain_rune (R1 a) = canonical_byte a.
Proof. all_bytes a. Qed.

Lemma high_byte c : 128 <= code c -> canonical_byte c = String c "".
Proof.
  intros Hc. unfold canonical_byte.
  repeat match goal with |- context [code c =? ?k] => replace (code c =? k) with false by (symmetry; apply Z.eqb_neq; lia) end.
  replace (code c <? 32) with false by (symmetry; apply Z.ltb_ge; lia). done.
Qed.

Lemma plain_runes rs : forallb rune_wf rs = true -> existsb separator rs = false -> str_concat (map plain_rune rs) = str_concat (map canonical_byte (bytes rs)).
Proof.
  induction rs as [|r rs IH]; [done|]. cbn [forallb existsb map str_concat]. intros [W Wr]%andb_true_iff [S Sr]%orb_false_iff. rewrite (IH Wr Sr).
  unfold bytes at 2. cbn [map concat]. fold (bytes rs). rewrite map_app. assert (Happ : forall x y, str_concat (x ++ y) = str_concat x +:+ str_concat y).
  { clear. induction x as [|a x IH]; intros y; [done|]. cbn [app str_concat]. by rewrite IH, str_app_assoc. }
  rewrite Happ. f_equal. destruct r as [a|a b|a b c|a b c d|a]; cbn [rune_bytes map str_concat] in *.
  - rewrite str_app_nil_r. by apply plain_byte.
  - rewrite !high_byte by (rune_arith; lia). done.
  - rewrite !high_byte by (rune_arith; lia). unfold separator in S. unfold plain_rune, escape_rune.
    destruct ((code a =? 226) && (code b =? 128)) eqn:E; cbn [andb] in *; [|done]. apply orb_false_iff in S as [-> ->]. done.
  - rewrite !high_byte by (rune_arith; lia). done.
  - done.
Qed.

Lemma plain_canonical s : jcsSafe s = true -> plain_string s = writeCanonicalString s.
Proof.
  unfold jcsSafe. intros [V S]%andb_true_iff. apply negb_true_iff in S. unfold plain_string, writeCanonicalString. rewrite plain_runes by (done || by apply runes_wf).
  unfold bytes. by rewrite runes_bytes_valid.
Qed.

Lemma safe_parses d s : jcsSafe s = true -> parses d (JStr s) (plain_string s).
Proof. intros Hs. rewrite plain_canonical by done. apply string_parses. unfold jcsSafe in Hs. by apply andb_true_iff in Hs as [? _]. Qed.

Lemma ascii_safe (p : ascii -> bool) s : (forall c, p c = true -> is_ascii c = true) -> str_all p s = true -> jcsSafe s = true.
Proof.
  intros Hp Hs. assert (Ha : str_all is_ascii s = true) by (eapply str_all_impl; [|exact Hs]; auto). unfold jcsSafe. rewrite valid_utf8_ascii by done.
  rewrite str_all_chars in Ha. rewrite runes_ascii by done. cbn [andb]. apply negb_true_iff. clear. induction (chars s); [done|]. done.
Qed.

(** ** Reading a specification back *)

Definition value_Binding (b : HeaderBinding) : jval := JObj [("lowercaseName", JStr (hb_LowercaseName b)); ("valueHash", JStr (hb_ValueHash b))].
Definition value_Bindings (o : option (list HeaderBinding)) : jval := match o with None => JNull | Some l => JArr (map value_Binding l) end.
Definition value_Response (r : ResponseContract) : jval := JObj [("contentType", JStr (rc_ContentType r)); ("schemaRef", JStr (rc_SchemaRef r))].
Definition value_Reason (r : ReasonRef) : jval := JObj [("blobRef", JStr (rf_BlobRef r)); ("contentHash", JStr (rf_ContentHash r))].
Definition value_Spec (s : PurchaseSpec) : jval :=
  JObj ([("orgId", JStr (ps_OrgID s)); ("agentId", JStr (ps_AgentID s)); ("taskId", JStr (ps_TaskID s)); ("method", JStr (ps_Method s));
    ("canonicalURL", JStr (ps_CanonicalURL s)); ("requestBodyHash", JStr (ps_RequestBodyHash s)); ("headerBindings", value_Bindings (ps_HeaderBindings s));
    ("responseContract", value_Response (ps_Response s)); ("category", JStr (ps_Category s))]
    ++ match ps_ReasonRef s with Some r => [("reasonRef", value_Reason r)] | None => [] end).

Definition binding_safe (b : HeaderBinding) : Prop := jcsSafe (hb_LowercaseName b) = true /\ jcsSafe (hb_ValueHash b) = true.
Definition spec_safe (s : PurchaseSpec) : Prop :=
  jcsSafe (ps_OrgID s) = true /\ jcsSafe (ps_AgentID s) = true /\ jcsSafe (ps_TaskID s) = true /\ jcsSafe (ps_Method s) = true /\
  jcsSafe (ps_CanonicalURL s) = true /\ jcsSafe (ps_RequestBodyHash s) = true /\ Forall binding_safe (default [] (ps_HeaderBindings s)) /\
  jcsSafe (rc_ContentType (ps_Response s)) = true /\ jcsSafe (rc_SchemaRef (ps_Response s)) = true /\ jcsSafe (ps_Category s) = true /\
  match ps_ReasonRef s with Some r => jcsSafe (rf_BlobRef r) = true /\ jcsSafe (rf_ContentHash r) = true | None => True end.

Lemma two_parses d a b x y : d < maxNestingDepth -> a <> b -> valid_utf8 a = true -> valid_utf8 b = true -> jcsSafe x = true -> jcsSafe y = true ->
  parses d (JObj [(a, JStr x); (b, JStr y)]) (write_object [(a, plain_string x); (b, plain_string y)]).
Proof.
  intros Hd Hab Va Vb Hx Hy. apply object_parses; [done| |].
  - cbn. apply NoDup_cons. split; [by intros ?%list_elem_of_singleton|apply NoDup_singleton].
  - repeat constructor; (done || by apply safe_parses).
Qed.

Lemma bindings_parse d o : d + 1 < maxNestingDepth -> Forall binding_safe (default [] o) -> parses d (value_Bindings o) (json_Bindings o).
Proof.
  intros Hd HF. destruct o as [l|]; [|apply literal_parses; tauto]. change (Forall binding_safe l) in HF. apply array_parses; [lia| |].
  - induction HF as [|b bs [Hn Hh] HF IH]; cbn [map]; constructor; [|done]. by apply two_parses.
  - apply Forall_map. apply Forall_forall. intros b _. unfold starts, json_Binding, write_object. cbn. eauto 10.
Qed.

Lemma spec_parses s : spec_safe s -> parses 0 (value_Spec s) (canonicalJSONFor s).
Proof.
  intros (H1 & H2 & H3 & H4 & H5 & H6 & H7 & H8 & H9 & H10 & H11). unfold value_Spec, canonicalJSONFor, spec_fields. apply object_parses; [done| |].
  - destruct (ps_ReasonRef s); apply (bool_decide_unpack _); reflexivity.
  - apply Forall2_app.
    + repeat constructor; try (by apply safe_parses); [apply bindings_parse; [unfold maxNestingDepth; lia|done]|apply two_parses; try done; unfold maxNestingDepth; lia].
    + destruct (ps_ReasonRef s) as [r|]; [|constructor]. destruct H11. repeat constructor.
      apply two_parses; try done; unfold maxNestingDepth; lia.
Qed.

Lemma parses_decode v text : parses 0 v text -> decode_json text = Some v.
Proof.
  intros Hp. unfold decode_json. specialize (Hp (json_fuel (chars text)) []). rewrite app_nil_r in Hp. rewrite Hp; [done|done|unfold json_fuel; lia].
Qed.

Lemma unmarshal_value s : unmarshal_spec (value_Spec s) = Some s.
Proof.
  assert (Hb : forall o, unmarshal_bindings (value_Bindings o) = Some o).
  { intros [l|]; [|done]. cbn. assert (mapM unmarshal_binding (map value_Binding l) = Some l) as ->; [|done].
    induction l as [|[n h] l IH]; [done|]. cbn [map mapM]. change (unmarshal_binding (value_Binding (mkBinding n h))) with (Some (mkBinding n h)). cbn. by rewrite IH. }
  destruct s as [org agent task method url body bindings [c sr] category reason]. unfold unmarshal_spec, value_Spec. cbn [ps_OrgID ps_AgentID ps_TaskID ps_Method ps_CanonicalURL
    ps_RequestBodyHash ps_HeaderBindings ps_Response ps_Category ps_ReasonRef members mbind option_bind].
  set (l := _ ++ _). change (field l "headerBindings") with (value_Bindings bindings). rewrite Hb. by destruct reason as [[b h]|].
Qed.

Lemma spec_decodes s : spec_safe s -> exists v, decode_json (canonicalJSONFor s) = Some v /\ unmarshal_spec v = Some s.
Proof. intros Hs. exists (value_Spec s). split; [by apply parses_decode, spec_parses|apply unmarshal_value]. Qed.

(** The text determines the specification. *)
Lemma spec_text_inj s t : spec_safe s -> spec_safe t -> canonicalJSONFor s = canonicalJSONFor t -> s = t.
Proof.
  intros (v & Hv & Us)%spec_decodes (w & Hw & Ut)%spec_decodes E. rewrite E, Hw in Hv. injection Hv as ->. rewrite Us in Ut. by injection Ut.
Qed.

(** ** What [Build] makes *)

(** [strings.ToUpper] leaves no ASCII letter in lower case. *)
Class UpperLaws `{UnicodeUpper} := { upper_again s : str_all is_ascii (unicode_upper s) = true -> str_map ascii_upper (unicode_upper s) = unicode_upper s }.

#[export] Instance binding_le_total : Total binding_le.
Proof. intros x y. apply bytes_leb_total. Qed.

Section Build.
Context `{Crypto, !CryptoLaws, Unicode, UnicodeUpper, !UpperLaws, HostNames, !HostLaws}.

Lemma token_ascii c : token_char c = true -> is_ascii c = true.
Proof. all_bytes c. Qed.
Lemma upper_byte c : ascii_upper (ascii_upper c) = ascii_upper c.
Proof. all_bytes c. Qed.

Lemma hash_safe h : isSpecHash h = true -> jcsSafe h = true.
Proof.
  intros (r & -> & Hr & _)%hex_pattern_inv. apply (ascii_safe is_ascii); [done|]. cbn. eapply str_all_impl; [|exact Hr]. clear. intros c. all_bytes c.
Qed.

Lemma keccakHex_ok m : isSpecHash (keccakHex m) = true.
Proof.
  unfold isSpecHash, hash_pattern, keccakHex, hex_hash. change ("0x" +:+ ?t) with (String "0" (String "x" t)). cbn [hex_pattern].
  rewrite hex_encode_lower. pose proof (keccak256_size m) as Hs. unfold str_len in *. rewrite hex_encode_length. to_prop. split_and!; [done..|lia].
Qed.

Lemma upper_fixed s : isToken (ToUpper s) = true -> ToUpper (ToUpper s) = ToUpper s.
Proof.
  intros Ht. assert (Ha : str_all is_ascii (ToUpper s) = true) by (eapply str_all_impl; [|exact Ht]; apply token_ascii). unfold ToUpper at 1. rewrite Ha. clear Ht.
  unfold ToUpper in *. destruct (str_all is_ascii s) eqn:E; [|by apply upper_again]. clear. induction s as [|c s IH]; [done|]. cbn. by rewrite upper_byte, IH.
Qed.

(** The headers that count, with their values trimmed. *)
Definition material (headers : list Header) : list (string * string) :=
  filter (fun p => p.1 ∉ transportHeaders) (map (fun h => (ToLower (hdr_Name h), TrimOWS (hdr_Value h))) headers).
Definition hashed (p : string * string) : HeaderBinding := mkBinding p.1 (keccakHex p.2).

Lemma headers_collected headers : forall st st', fold_res header_step st headers = Ok st' ->
  hs_bindings st' = hs_bindings st ++ map hashed (material headers) /\
  Forall (fun p => isHeaderName p.1 = true /\ header_prohibited p.1 = false /\ p.1 ∉ hs_seen st) (material headers) /\ NoDup (material headers).*1.
Proof.
  induction headers as [|h headers IH]; intros st st'; [intros [= <-]; cbn; rewrite app_nil_r; split_and!; (done || constructor)|].
  rewrite fold_res_cons. intros (s1 & Hs & Hf)%try_ok_iff. apply IH in Hf as (Hb & HF & HN). clear IH. unfold header_step in Hs. rewrite !check_ok_iff in Hs.
  destruct Hs as ([[Hname _]%andb_true_iff _]%andb_true_iff & Hp & Hseen & Hs). apply negb_true_iff in Hp, Hseen. apply bool_decide_eq_false in Hseen.
  set (p := (ToLower (hdr_Name h), TrimOWS (hdr_Value h))). assert (Hm : material (h :: headers) = (if bool_decide (p.1 ∉ transportHeaders) then [p] else []) ++ material headers).
  { unfold material. cbn [map]. rewrite filter_cons. fold p. destruct (decide (p.1 ∉ transportHeaders)) as [Ht|Ht]; [rewrite bool_decide_eq_true_2 by done|rewrite bool_decide_eq_false_2 by done]; done. }
  assert (Hin : hs_seen s1 = ToLower (hdr_Name h) :: hs_seen st) by (destruct (bool_decide _) in Hs; injection Hs as <-; done).
  rewrite Hm. assert (HF' : Forall (fun q => isHeaderName q.1 = true /\ header_prohibited q.1 = false /\ q.1 ∉ hs_seen st) (material headers)).
  { eapply Forall_impl; [exact HF|]. intros q (H1' & H2' & H3'). rewrite Hin in H3'. split_and!; [done..|]. intros ?. apply H3'. by right. }
  destruct (decide (ToLower (hdr_Name h) ∈ transportHeaders)) as [Ht|Ht].
  - rewrite bool_decide_eq_true_2 in Hs by done. injection Hs as <-. rewrite bool_decide_eq_false_2 by (intros Hn; by apply Hn). by split_and!.
  - rewrite bool_decide_eq_false_2 in Hs by done. injection Hs as <-. rewrite bool_decide_eq_true_2 by done. cbn [hs_bindings map app] in *. rewrite Hb, <-app_assoc.
    split_and!; [done|by constructor|]. cbn. apply NoDup_cons. split; [|done]. intros (q & Hq & Hqin)%list_elem_of_fmap. rewrite Forall_forall in HF.
    destruct (HF q Hqin) as (_ & _ & Hn). apply Hn. rewrite <-Hq, Hin. by left.
Qed.

Lemma bindings_sorted l : forall previous, Sorted binding_le l -> NoDup (map hb_LowercaseName l) ->
  Forall (fun b => isHeaderName (hb_LowercaseName b) = true /\ isSpecHash (hb_ValueHash b) = true) l ->
  match l with b :: _ => bytes_leb (chars (hb_LowercaseName b)) (chars previous) = false | [] => True end -> bindings_ok previous l = true.
Proof.
  induction l as [|b l IH]; intros previous HS HN HF Hp; [done|]. cbn [bindings_ok]. apply Forall_cons in HF as [[H1' H2'] HF]. rewrite H1', H2', Hp. cbn [negb andb].
  cbn [map] in HN. apply NoDup_cons in HN as [Hnin HN]. apply Sorted_inv in HS as [HS Hd]. apply IH; [done..|]. destruct l as [|c l]; [done|].
  apply not_true_iff_false. intros Hle. apply HdRel_inv in Hd. apply Hnin.
  assert (hb_LowercaseName b = hb_LowercaseName c) as -> by (apply chars_inj, bytes_leb_antisym; [exact Hd|done]). by left.
Qed.

Lemma canonicalHeaders_ok headers bindings stripped : canonicalHeaders headers = Ok (bindings, stripped) ->
  bindings ≡ₚ map hashed (material headers) /\ bindings_ok "" bindings = true /\ Forall (fun p => header_prohibited p.1 = false) (material headers).
Proof.
  unfold canonicalHeaders. intros (st & Hst & [= <- <-])%try_ok_iff. apply headers_collected in Hst as (Hb & HF & HN). cbn [hs_bindings app] in Hb. rewrite Hb.
  split_and!; [apply merge_sort_Permutation| |eapply Forall_impl; [exact HF|]; naive_solver].
  assert (Hall : Forall (fun b => isHeaderName (hb_LowercaseName b) = true /\ isSpecHash (hb_ValueHash b) = true) (merge_sort binding_le (map hashed (material headers)))).
  { rewrite merge_sort_Permutation. apply Forall_map. eapply Forall_impl; [exact HF|]. intros p (Hn & _). split; [done|apply keccakHex_ok]. }
  apply bindings_sorted; [apply Sorted_merge_sort, _| |done|].
  - rewrite merge_sort_Permutation. rewrite map_map. exact HN.
  - destruct (merge_sort _ _) as [|b l]; [done|]. apply Forall_cons in Hall as [[Hn _] _]. unfold isHeaderName in Hn. rewrite !andb_true_iff in Hn. destruct Hn as [[[Hn _] _] _].
    apply negb_true_iff, bool_decide_eq_false in Hn. by destruct (hb_LowercaseName b).
Qed.

Lemma field_safe v : field_ok v = true -> jcsSafe v = true.
Proof. unfold field_ok. rewrite !andb_true_iff. tauto. Qed.
Lemma method_safe m : method_ok m = true -> jcsSafe m = true.
Proof. unfold method_ok. rewrite !andb_true_iff. intros [_ Hm]. by eapply ascii_safe; [apply token_ascii|exact Hm]. Qed.

Lemma response_trimmed r : response_ok r = true -> response_ok (mkResponse (TrimSpace (rc_ContentType r)) (TrimSpace (rc_SchemaRef r))) = true.
Proof.
  unfold response_ok. cbn [rc_ContentType rc_SchemaRef]. rewrite !andb_true_iff, !negb_true_iff, !bool_decide_eq_false, !Z.leb_le.
  intros [[[[[H1' H2'] S1] S2] L1] L2]. pose proof (trim_len (rc_ContentType r)). pose proof (trim_len (rc_SchemaRef r)).
  assert (forall t, jcsSafe t = true -> valid_utf8 t = true) as V by (intros t; unfold jcsSafe; by intros [? _]%andb_true_iff).
  rewrite !trim_again by auto. split_and!; try done; try lia; by apply trim_safe.
Qed.

Lemma bindings_safe l : forall previous, bindings_ok previous l = true -> Forall binding_safe l.
Proof.
  induction l as [|b l IH]; intros previous; [constructor|]. cbn [bindings_ok]. rewrite !andb_true_iff. intros [[[Hn _] Hh] Hl]. constructor; [|eauto].
  split; [|by apply hash_safe]. unfold isHeaderName in Hn. rewrite !andb_true_iff in Hn. by eapply ascii_safe; [apply token_ascii|apply Hn].
Qed.

Definition spec_reason_ok (s : PurchaseSpec) : Prop := match ps_ReasonRef s with Some r => reason_ok r = true | None => True end.

(** What a built specification satisfies, next to its text and hash. *)
Definition well_built (i : PurchaseInput) (s : PurchaseSpec) : Prop :=
  field_ok (ps_OrgID s) = true /\ field_ok (ps_AgentID s) = true /\ field_ok (ps_TaskID s) = true /\ field_ok (ps_Category s) = true /\
  method_ok (ps_Method s) = true /\ ps_Method s = ToUpper (ps_Method s) /\ CanonicalURL (pi_URL i) = Ok (ps_CanonicalURL s) /\ response_ok (ps_Response s) = true /\
  spec_reason_ok s /\ body_hash (ps_Method s) (pi_Body i) = Ok (ps_RequestBodyHash s) /\ str_len (pi_Body i) <= MaxRequestBodyBytes /\
  exists bindings, ps_HeaderBindings s = Some bindings /\ bindings ≡ₚ map hashed (material (pi_Headers i)) /\ bindings_ok "" bindings = true /\
    Forall (fun p => header_prohibited p.1 = false) (material (pi_Headers i)).

Lemma built i r : Build i = Ok r ->
  well_built i (br_Spec r) /\ br_CanonicalJSON r = canonicalJSONFor (br_Spec r) /\ br_PurchaseSpecHash r = keccakHex (br_CanonicalJSON r).
Proof.
  unfold Build. rewrite !check_ok_iff. intros (Hlen & Hf & Hm & Hu). apply try_ok_iff in Hu as (url & Hu & Hr). rewrite check_ok_iff in Hr. destruct Hr as [Hresp Hr].
  apply try_ok_iff in Hr as ([bindings stripped] & Hh & Hr). apply try_ok_iff in Hr as (reason & Hre & Hr). apply try_ok_iff in Hr as (bh & Hbh & [= <-]).
  split; [|done]. rewrite !andb_true_iff in Hf. destruct Hf as [[[F1 F2] F3] F4]. unfold well_built. cbn -[body_hash]. split_and!; try done.
  - apply eq_sym, upper_fixed. unfold method_ok in Hm. rewrite !andb_true_iff in Hm. tauto.
  - by apply response_trimmed.
  - unfold spec_reason_ok. cbn. unfold canonicalReason in Hre. destruct (pi_ReasonRef i) as [x|]; [|by injection Hre as <-]. rewrite check_ok_iff in Hre. by destruct Hre as [? [= <-]].
  - by apply Z.leb_le.
  - exists bindings. split; [done|]. by eapply canonicalHeaders_ok.
Qed.

Lemma well_built_safe i s : well_built i s -> spec_safe s.
Proof.
  intros (F1 & F2 & F3 & F4 & Hm & _ & Hu & Hr & Hre & Hb & _ & bindings & Hbs & _ & Hok & _). unfold response_ok in Hr. rewrite !andb_true_iff in Hr.
  assert (Hbody : jcsSafe (ps_RequestBodyHash s) = true).
  { unfold body_hash in Hb. case_bool_decide; [rewrite check_ok_iff in Hb; by destruct Hb as [_ [= <-]]|]. injection Hb as <-. apply hash_safe, keccakHex_ok. }
  unfold spec_safe. rewrite Hbs. split_and!; try (by apply field_safe); try tauto; try done; [by apply method_safe|by apply canonical_url_parts in Hu as (?&?&?&?&?&?&?&?&?&?&?&?)|by eapply bindings_safe|].
  unfold spec_reason_ok in Hre. destruct (ps_ReasonRef s) as [r|]; [|done]. unfold reason_ok in Hre. rewrite !andb_true_iff in Hre. split; [tauto|]. apply hash_safe. tauto.
Qed.

(** C31: what is built can be stored. Durable intake accepts the text of a built specification
    with the body it was built for, and reads the same specification back, unless the
    canonical URL or the text has outgrown its bound; then it refuses it. *)
Theorem built_spec_persists (i : PurchaseInput) (r : BuildResult) :
  Build i = Ok r ->
  ValidatePersisted (br_CanonicalJSON r) (pi_Body i) =
    if (str_len (br_CanonicalJSON r) <=? maxPersistedBytes) && (str_len (ps_CanonicalURL (br_Spec r)) <=? 8192) then Ok (br_Spec r) else Err ErrInvalidSpec.
Proof.
  intros (Hw & Ht & _)%built. pose proof (well_built_safe _ _ Hw) as Hs. destruct Hw as (F1 & F2 & F3 & F4 & Hm & Hmu & Hu & Hr & Hre & Hb & Hl & bindings & Hbs & _ & Hok & _).
  unfold ValidatePersisted. apply Z.leb_le in Hl. rewrite Ht, (bool_decide_eq_false_2 (canonicalJSONFor (br_Spec r) = "")), Hl by done. cbn [negb andb]. rewrite andb_true_r.
  destruct (str_len _ <=? maxPersistedBytes); [|done]. cbn [andb]. destruct (spec_decodes _ Hs) as (v & -> & ->). unfold validateSpec.
  rewrite F1, F2, F3, F4, Hm, (bool_decide_eq_true_2 _ Hmu), Hr. cbn [andb]. cbv iota. apply canonical_url_stable in Hu as ->. destruct (str_len _ <=? 8192); [|done].
  rewrite (bool_decide_eq_true_2 (ps_CanonicalURL _ = _)) by done. cbv iota. assert (canonicalReason (ps_ReasonRef (br_Spec r)) = Ok (ps_ReasonRef (br_Spec r))) as ->.
  { unfold spec_reason_ok in Hre. destruct (ps_ReasonRef (br_Spec r)); [cbn; by rewrite Hre|done]. }
  rewrite Hbs. change (default [] (Some bindings)) with bindings. rewrite Hok. cbv beta iota. rewrite (bool_decide_eq_true_2 (canonicalJSONFor _ = _)) by done.
  unfold body_hash in Hb. case_bool_decide as Hg.
  - rewrite check_ok_iff in Hb. destruct Hb as [-> [= <-]]. by rewrite bool_decide_eq_true_2.
  - injection Hb as <-. by rewrite keccakHex_ok, bool_decide_eq_true_2.
Qed.

(** What is hashed for a specification: its text, the body and the values of the
    material headers. *)
Definition spec_texts (i : PurchaseInput) (r : BuildResult) : list string :=
  br_CanonicalJSON r :: pi_Body i :: map snd (material (pi_Headers i)).

Lemma keccakHex_inj xs ys x y : x ∈ xs -> y ∈ ys -> keccakHex x = keccakHex y -> x = y \/ collide_in xs ys.
Proof. unfold keccakHex, hex_hash. intros Hx Hy [= E%hex_encode_inj]. by apply keccak_eq_in. Qed.

Lemma material_sub xs ys m m' : map snd m ⊆ xs -> map snd m' ⊆ ys ->
  Forall (fun p => hashed p ∈ map hashed m') m -> Forall (fun p => p ∈ m') m \/ collide_in xs ys.
Proof.
  intros Hxs Hys HF. induction HF as [|[n v] m Hp HF IH]; [by left|]. cbn [map snd] in Hxs.
  destruct IH as [IH|IH]; [set_solver| |by right]. apply list_elem_of_fmap in Hp as ([n' v'] & E & Hin).
  pose proof (f_equal hb_LowercaseName E) as En. pose proof (f_equal hb_ValueHash E) as Ev. cbn [hashed hb_LowercaseName hb_ValueHash fst snd] in En, Ev. subst n'.
  destruct (keccakHex_inj xs ys v v') as [<-|?]; [set_solver| |done|left; by constructor|by right].
  apply Hys, (list_elem_of_fmap_2 snd _ _ Hin).
Qed.

(** C30: the hash of a purchase specification binds the request. Two built specifications with
    the same hash are the same, were built for the same body, and for the same material
    headers with the same values up to surrounding blanks; or a text hashed for one of
    them (the specification, the body, a header's value) collides with one hashed for
    the other. *)
Theorem purchase_hash_binds (i j : PurchaseInput) (r s : BuildResult) :
  Build i = Ok r -> Build j = Ok s -> br_PurchaseSpecHash r = br_PurchaseSpecHash s ->
  (br_Spec r = br_Spec s /\ pi_Body i = pi_Body j /\ forall p, p ∈ material (pi_Headers i) <-> p ∈ material (pi_Headers j)) \/
  collide_in (spec_texts i r) (spec_texts j s).
Proof.
  intros (Hw & Ht & Hh)%built (Hw' & Ht' & Hh')%built E. rewrite Hh, Hh' in E. set (T := spec_texts i r). set (T' := spec_texts j s).
  destruct (keccakHex_inj T T' _ _ (list_elem_of_here _ _) (list_elem_of_here _ _) E) as [E2|?]; [|by right]. rewrite Ht, Ht' in E2.
  apply spec_text_inj in E2; [|by eapply well_built_safe..]. destruct Hw as (_ & _ & _ & _ & _ & _ & _ & _ & _ & Hb & _ & b & Hbs & P & _), Hw' as (_ & _ & _ & _ & _ & _ & _ & _ & _ & Hb' & _ & b' & Hbs' & P' & _).
  rewrite <-E2 in Hb', Hbs'. rewrite Hbs in Hbs'. injection Hbs' as <-.
  assert (Hbody : pi_Body i = pi_Body j \/ collide_in T T').
  { unfold body_hash in *. case_bool_decide; [rewrite check_ok_iff, bool_decide_eq_true in *; left; naive_solver congruence|].
    apply keccakHex_inj; [unfold T, spec_texts; listed|unfold T', spec_texts; listed|congruence]. }
  assert (Hsub : forall m m', map hashed m ≡ₚ map hashed m' -> Forall (fun p => hashed p ∈ map hashed m') m).
  { intros m m' Pm. apply Forall_forall. intros p Hp. rewrite <-Pm. apply list_elem_of_fmap. eauto. }
  assert (Pm : map hashed (material (pi_Headers i)) ≡ₚ map hashed (material (pi_Headers j))) by (by rewrite <-P, <-P').
  destruct Hbody as [Hbody|?]; [|by right].
  assert (S : map snd (material (pi_Headers i)) ⊆ T) by (unfold T, spec_texts; set_solver).
  assert (S' : map snd (material (pi_Headers j)) ⊆ T') by (unfold T', spec_texts; set_solver).
  destruct (material_sub T T' _ _ S S' (Hsub _ _ Pm)) as [F1|?]; [|by right].
  destruct (material_sub T' T _ _ S' S (Hsub _ _ (symmetry Pm))) as [F2|?]; [|right; by apply collide_in_sym].
  left. rewrite Forall_forall in F1, F2. split_and!; [done..|]. naive_solver.
Qed.
End Build.
