(* ===== verification/PurchaseDemo.v ===== *)
(** * Purchase specifications at work

    Host names for the examples, canonical URLs that differ where their targets do not and
    agree where they do, a built specification and what durable intake makes of it and of
    others like it; and the witnesses of the theorems. *)
From stdpp Require Import base gmap strings list sorting.
From Stdlib Require Import ZArith Lia Ascii.
From S2P Require Import Prelude GoText GoJSON Crypto CanonicalJSON Url UrlTheorems PurchaseSpec PurchaseTheorems.

Open Scope Z_scope.
#[local] Existing Instance ToyCrypto.
#[local] Existing Instance ToyCryptoLaws.
#[local] Existing Instance ToyUnicode.

(** ** Host names: lower-case ASCII names, and one address with two spellings *)

Definition toy_host (authority : string) : option (string * string) :=
  let split l := match cut_at (char_of 58) l with (h, r) => Some (str_of h, str_of (drop 1 r)) end in
  match chars authority with
  | c :: l => if code c =? 91 then match cut_at (char_of 93) l with (h, r) => Some (str_of h, str_of (drop 2 r)) end else split (c :: l)
  | [] => Some ("", "")
  end.

Definition ToyHosts : HostNames := {|
  url_host := toy_host;
  ParseIP s := if bool_decide (s = "::1") || bool_decide (s = "0:0:0:0:0:0:0:1") then Some "::1" else None;
  ToASCII s := if str_all ldh s then Some s else None |}.
#[local] Existing Instance ToyHosts.

Lemma ldh_host c : ldh c = true -> (code c =? 91) = false /\ (code c =? code (char_of 58)) = false.
Proof. all_bytes c. Qed.

Lemma ToyHostLaws : HostLaws.
Proof.
  split; cbn.
  - intros s ip. destruct (_ || _); [by intros [= <-]|done].
  - intros s ip. destruct (_ || _); [by intros [= <-]|done].
  - intros s ip. destruct (_ || _) eqn:E; [|done]. intros _ Hc. apply orb_true_iff in E as [E|E]; apply bool_decide_eq_true in E; subst s; by vm_compute in Hc.
  - intros s name. destruct (str_all ldh s) eqn:E; [by intros [= <-]|done].
  - intros s name. destruct (str_all ldh s) eqn:E; [intros [= <-]; by rewrite E|done].
  - intros name port Hne Hn _. unfold toy_host. rewrite chars_app. destruct name as [|c name]; [done|]. rewrite str_all_chars in Hn. change (chars (String c name)) with (c :: chars name) in *.
    apply forallb_Forall in Hn. pose proof Hn as [Hc _]%Forall_cons. apply ldh_host in Hc as [E91 _]. cbn [app]. rewrite E91.
    assert (HF : free (char_of 58) (c :: chars name)) by (eapply Forall_impl; [exact Hn|]; intros d Hd; exact (proj2 (ldh_host d Hd))).
    change (c :: chars name ++ chars (port_text port)) with ((c :: chars name) ++ chars (port_text port)). unfold port_text. case_bool_decide as Ep.
    + subst. change (chars "") with (@nil ascii). rewrite app_nil_r, cut_last by done. change (c :: chars name) with (chars (String c name)). by rewrite str_of_chars.
    + rewrite chars_app. change (chars ":" ++ ?x) with (char_of 58 :: x). rewrite cut_app by done. cbn [drop]. rewrite drop_0, str_of_chars.
      change (c :: chars name) with (chars (String c name)). by rewrite str_of_chars.
  - intros ip port. destruct (_ || _); [intros [= <-] _ _|done].
    assert (E : forall t, toy_host ("[" +:+ "::1" +:+ "]" +:+ t) = Some ("::1", str_of (drop 1 (chars t)))) by reflexivity. rewrite E. unfold port_text.
    case_bool_decide as Ep; [by subst|]. change (drop 1 (chars (":" +:+ port))) with (chars port). by rewrite str_of_chars.
Qed.
#[local] Existing Instance ToyHostLaws.

Definition ToyUpper : UnicodeUpper := {| unicode_upper s := str_map ascii_upper s |}.
#[local] Existing Instance ToyUpper.
Lemma ToyUpperLaws : UpperLaws.
Proof. split. intros s _. cbn. induction s as [|c s IH]; [done|]. cbn. by rewrite IH, upper_byte. Qed.
#[local] Existing Instance ToyUpperLaws.

(** ** URLs *)

Definition canonical (raw : string) : option string := match CanonicalURL raw with Ok u => Some u | Err _ => None end.

Example urls_canonical :
  canonical "HTTPS://Shop.Example:443/a/./b/../c%7e?b=2&a=%2f&b" = Some "https://shop.example/a/c~?a=%2F&b=&b=2" /\
  canonical "https://[0:0:0:0:0:0:0:1]:8443" = Some "https://[::1]:8443/" /\
  canonical "https://user@shop.example/" = None /\ canonical "http://shop.example/" = None /\ canonical "https://shop.example/a?x&&y" = None.
Proof. by vm_compute. Qed.

(** An encoded slash stays apart from a slash, except in a path with a byte that [net/url]
    escapes: then two different paths have one canonical form. *)
Example encoded_slash_merges :
  canonical "https://shop.example/a%2Fb" = Some "https://shop.example/a%2Fb" /\ canonical "https://shop.example/a/b" = Some "https://shop.example/a/b" /\
  canonical "https://shop.example/a%2Fb|" = Some "https://shop.example/a/b%7C" /\ canonical "https://shop.example/a/b|" = Some "https://shop.example/a/b%7C".
Proof. by vm_compute. Qed.

(** Ports are compared as text: the default port with a zero before it stays. *)
Example port_zero_stays :
  canonical "https://shop.example:443/" = Some "https://shop.example/" /\ canonical "https://shop.example:0443/" = Some "https://shop.example:0443/".
Proof. by vm_compute. Qed.

Lemma canonical_ok raw u : canonical raw = Some u -> CanonicalURL raw = Ok u.
Proof. unfold canonical. destruct (CanonicalURL raw); [by intros [= <-]|done]. Qed.

Lemma canonical_url_stable_witness :
  CanonicalURL "https://shop.example/a/../b" = Ok "https://shop.example/b" /\ CanonicalURL "https://shop.example/b" = Ok "https://shop.example/b".
Proof.
  assert (H : CanonicalURL "https://shop.example/a/../b" = Ok "https://shop.example/b") by (apply canonical_ok; vm_compute; reflexivity). split; [exact H|].
  exact (canonical_url_stable "https://shop.example/a/../b" "https://shop.example/b" H).
Defined.

(** ** Specifications *)

Definition demo_purchase (url : string) (headers : list Header) : PurchaseInput :=
  mkPurchaseInput "acme" "agent-7" "task-1" " post" url "{}" headers (mkResponse "application/json " "schema:quote") "data" None.
Definition demo_headers : list Header := [mkHeader "X-Trace" " 1, 2 "; mkHeader "Accept-Encoding" "gzip"; mkHeader "accept" "application/json"].
Definition demo_url : string := "https://shop.example/q?b=1&a=2".

Definition built_spec (i : PurchaseInput) : option BuildResult := match Build i with Ok r => Some r | Err _ => None end.
Lemma built_spec_ok i r : built_spec i = Some r -> Build i = Ok r.
Proof. unfold built_spec. destruct (Build i); [by intros [= <-]|done]. Qed.

Definition persisted (raw body : string) : bool := is_ok (ValidatePersisted raw body).

(** Bindings are sorted, transport headers stripped. *)
Example spec_built :
  match built_spec (demo_purchase demo_url demo_headers) with
  | Some r => map hb_LowercaseName (default [] (ps_HeaderBindings (br_Spec r))) = ["accept"; "x-trace"] /\ br_StrippedTransportHeader r = ["accept-encoding"] /\
      ps_Method (br_Spec r) = "POST" /\ ps_CanonicalURL (br_Spec r) = "https://shop.example/q?a=2&b=1" /\ persisted (br_CanonicalJSON r) "{}" = true /\
      persisted (br_CanonicalJSON r) "{ }" = false
  | None => False
  end.
Proof. by vm_compute. Qed.

Definition demo_spec (bindings : option (list HeaderBinding)) (url : string) : PurchaseSpec :=
  mkPurchaseSpec "acme" "agent-7" "task-1" "POST" url (keccakHex "{}") bindings (mkResponse "application/json" "schema:quote") "data" None.

(** Durable intake reads no bindings in two ways, and does not look for prohibited names. *)
Example persisted_alternatives :
  persisted (canonicalJSONFor (demo_spec None demo_url)) "{}" = false /\
  persisted (canonicalJSONFor (demo_spec None "https://shop.example/q")) "{}" = true /\ persisted (canonicalJSONFor (demo_spec (Some []) "https://shop.example/q")) "{}" = true /\
  persisted (canonicalJSONFor (demo_spec (Some [mkBinding "authorization" (keccakHex "secret")]) "https://shop.example/q")) "{}" = true /\
  built_spec (demo_purchase demo_url [mkHeader "Authorization" "secret"]) = None.
Proof. by vm_compute. Qed.

(** A URL within the bound whose canonical form is beyond it: built, and then refused. *)
Example long_url_built :
  match built_spec (demo_purchase ("https://shop.example/?q=" +:+ str_repeat "|" 4000) []) with
  | Some r => str_len (ps_CanonicalURL (br_Spec r)) = 12024 /\ persisted (br_CanonicalJSON r) "{}" = false
  | None => False
  end.
Proof. by vm_compute. Qed.

(** The text is not canonical JSON: its members are in the order of the struct. *)
Example spec_text_unsorted : canonical_raw (canonicalJSONFor (demo_spec (Some []) demo_url)) = Err ErrCanonical.
Proof. by vm_compute. Qed.

Definition present_build (o : option BuildResult) : bool := match o with Some _ => true | None => false end.
Lemma demo_builds : exists r, built_spec (demo_purchase demo_url demo_headers) = Some r.
Proof.
  assert (E : present_build (built_spec (demo_purchase demo_url demo_headers)) = true) by (vm_compute; reflexivity). destruct (built_spec _) as [r|]; [by exists r|done].
Qed.

Lemma built_spec_persists_witness : exists r, Build (demo_purchase demo_url demo_headers) = Ok r /\
  ValidatePersisted (br_CanonicalJSON r) "{}" =
    if (str_len (br_CanonicalJSON r) <=? maxPersistedBytes) && (str_len (ps_CanonicalURL (br_Spec r)) <=? 8192) then Ok (br_Spec r) else Err ErrInvalidSpec.
Proof.
  destruct demo_builds as [r Hr]. exists r. pose proof (built_spec_ok _ _ Hr) as Hb. split; [exact Hb|].
  exact (built_spec_persists (demo_purchase demo_url demo_headers) r Hb).
Defined.

(** The order of headers and the blanks around their values do not matter. *)
Definition other_headers : list Header := [mkHeader "Accept" "	application/json"; mkHeader "x-trace" "1, 2"].
Definition same_hash (i j : PurchaseInput) : bool :=
  match built_spec i, built_spec j with Some r, Some s => bool_decide (br_PurchaseSpecHash r = br_PurchaseSpecHash s) | _, _ => false end.

Lemma demo_same : exists r s, Build (demo_purchase demo_url demo_headers) = Ok r /\ Build (demo_purchase demo_url other_headers) = Ok s /\ br_PurchaseSpecHash r = br_PurchaseSpecHash s.
Proof.
  assert (E : same_hash (demo_purchase demo_url demo_headers) (demo_purchase demo_url other_headers) = true) by (vm_compute; reflexivity). unfold same_hash in E.
  destruct (built_spec (demo_purchase demo_url demo_headers)) as [r|] eqn:Er; [|done]. destruct (built_spec (demo_purchase demo_url other_headers)) as [s|] eqn:Es; [|done].
  apply bool_decide_eq_true in E. exists r, s. split_and!; [by apply built_spec_ok..|done].
Qed.

Lemma purchase_hash_binds_witness : exists r s, Build (demo_purchase demo_url demo_headers) = Ok r /\ Build (demo_purchase demo_url other_headers) = Ok s /\
  ((br_Spec r = br_Spec s /\ "{}" = "{}" /\ forall p, p ∈ material demo_headers <-> p ∈ material other_headers) \/
   collide_in (spec_texts (demo_purchase demo_url demo_headers) r) (spec_texts (demo_purchase demo_url other_headers) s)).
Proof.
  destruct demo_same as (r & s & Hr & Hs & E). exists r, s. split; [exact Hr|]. split; [exact Hs|].
  exact (purchase_hash_binds (demo_purchase demo_url demo_headers) (demo_purchase demo_url other_headers) r s Hr Hs E).
Defined.
