(* ===== verification/Adaptation.v ===== *)
(** * Adaptation grants ([internal/ascpadaptation])

    After a rejection for price or seller the agent may be given one more attempt within
    stated terms: a grant with its digest, issued once per rejected intent, signed by the
    grant signer, and checked against the purchase it is used for. *)
From stdpp Require Import base gmap strings list sorting.
From Stdlib Require Import ZArith Lia Ascii.
From S2P Require Import Prelude GoText GoJSON Amounts Crypto Envelope GovAction SafeTx SellerQuote Url UrlTheorems PurchaseSpec.

Open Scope Z_scope.

Definition GrantProtocol : string := "ASCP_GRANT_V1".
Definition MaximumLifetime : duration := 30 * Minute.
Definition RequiredAttempts : Z := 1.
Definition maximumSellerCount : Z := 64.

Definition ErrInvalidGrant : error := "adaptation grant is invalid".
Definition ErrGrantScope : error := "adaptation grant does not authorize this intake".
Definition ErrGrantConsumed : error := "adaptation grant is already consumed".
Definition ErrIssueConflict : error := "original rejection names different adaptation grant terms".
Definition ErrReasonIneligible : error := "rejection reason cannot issue an adaptation grant".
Definition ErrSignerUnavailable : error := "adaptation grant signer is unavailable".
Definition ErrGrantNotFound : error := "adaptation grant was not found".

(** [ReasonClass] is a string type. *)
Definition ReasonClass : Type := string.
Definition ReasonTooExpensive : ReasonClass := "too_expensive".
Definition ReasonWrongSeller : ReasonClass := "wrong_seller".

Record Grant := mkGrant {
  gr_Protocol : string; gr_GrantID : string; gr_OriginalIntentID : string; gr_OrganizationID : string; gr_AgentID : string; gr_TaskID : string;
  gr_AllowedCategory : string; gr_MaxAmountAtomic : string; gr_AllowedSellerSet : list string; gr_RemainingAttempts : Z; gr_IssuedAt : Z; gr_ExpiresAt : Z }.
#[export] Instance Grant_eq_dec : EqDecision Grant.
Proof. solve_decision. Defined.

Record SignedGrant := mkSignedGrant { sg_Grant : Grant; sg_Signature : string }.

Record IssueRequest := mkIssueRequest {
  iq_ReasonClass : ReasonClass; iq_OriginalIntentID : string; iq_OrganizationID : string; iq_AgentID : string; iq_TaskID : string;
  iq_AllowedCategory : string; iq_MaxAmountAtomic : string; iq_AllowedSellerSet : list string; iq_IssuedAt : Z }.

Record GrantUse := mkUse { us_OrganizationID : string; us_AgentID : string; us_TaskID : string; us_Category : string; us_AmountAtomic : string; us_SellerID : string }.

Record GrantRecord := mkGrantRecord {
  gc_Artifact : SignedGrant; gc_ReasonClass : ReasonClass; gc_Digest : string; gc_CanonicalRequestHash : string; gc_ConsumedOperationID : string; gc_Replayed : bool }.

(** ** Values *)

(** 32 bytes that are not all zero *)
Definition grant_hash (v : string) : bool := hash_pattern v && negb (bool_decide (v = zero_hash)).
Definition grant_identifier (v : string) : bool := ValidIdentifier v && (str_len v <=? 128).

Definition amountAtMost (value maximum : string) : bool :=
  match SetString10 value, SetString10 maximum with
  | Some amount, Some limit => (0 <? amount) && bool_decide (value = dec_string amount) && (amount <=? limit)
  | _, _ => false
  end.
Definition positiveAtomic (value : string) : bool := amountAtMost value value.

(** Strictly increasing hashes *)
Fixpoint sellers_ok (previous : string) (l : list string) : bool :=
  match l with [] => true | s :: l => grant_hash s && negb (bytes_leb (chars s) (chars previous)) && sellers_ok s l end.

(** [sort.SearchStrings]: the loop of [sort.Search] between [i] and [j] *)
Fixpoint search (fuel : nat) (l : list string) (v : string) (i j : nat) : nat :=
  match fuel with
  | O => i
  | S fuel =>
      if (j <=? i)%nat then i else
      let h := ((i + j) / 2)%nat in
      if bytes_leb (chars v) (chars (default "" (l !! h))) then search fuel l v i h else search fuel l v (S h) j
  end.
Definition contains (sorted : list string) (value : string) : bool :=
  let index := search (length sorted) sorted value 0 (length sorted) in
  match sorted !! index with Some s => bool_decide (s = value) | None => false end.

Section Grants.
Context `{Crypto, SafeLib, Unicode}.

Definition canonicalSigner (v : string) : bool := address_pattern v && negb (bool_decide (v = zero_address)).

Definition decodeSignature (value : string) : res string :=
  check hex_pattern 130 value else ErrInvalidGrant ;;
  let decoded := hex_bytes value in
  let v := match String.get 64 decoded with Some c => code c | None => 0 end in
  check (v <=? 1) && ecdsa_values v (String.substring 0 32 decoded) (String.substring 32 32 decoded) else ErrInvalidGrant ;;
  Ok decoded.

(** ** Grants and their digests *)

(** The lifetime is multiplied out to nanoseconds in 64 bits. *)
Definition lifetime_ok (g : Grant) : bool := int64 (int64 (gr_ExpiresAt g - gr_IssuedAt g) * Second) <=? MaximumLifetime.

Definition grant_Validate (g : Grant) : res unit :=
  check bool_decide (gr_Protocol g = GrantProtocol) && grant_hash (gr_GrantID g) && grant_hash (gr_OriginalIntentID g) &&
        grant_identifier (gr_OrganizationID g) && grant_identifier (gr_AgentID g) && grant_identifier (gr_TaskID g) &&
        negb (bool_decide (gr_AllowedCategory g = "")) && bool_decide (gr_AllowedCategory g = ToLower (TrimSpace (gr_AllowedCategory g))) &&
        positiveAtomic (gr_MaxAmountAtomic g) && (gr_RemainingAttempts g =? RequiredAttempts) &&
        (0 <? gr_IssuedAt g) && (gr_IssuedAt g <? gr_ExpiresAt g) && lifetime_ok g &&
        between 1 maximumSellerCount (Z.of_nat (length (gr_AllowedSellerSet g))) && sellers_ok "" (gr_AllowedSellerSet g)
    else ErrInvalidGrant ;;
  Ok tt.

Definition json_Grant (g : Grant) : string :=
  json_object [("protocol", Some (json_string (gr_Protocol g))); ("grantId", Some (json_string (gr_GrantID g)));
    ("originalIntentId", Some (json_string (gr_OriginalIntentID g))); ("organizationId", Some (json_string (gr_OrganizationID g)));
    ("agentId", Some (json_string (gr_AgentID g))); ("taskId", Some (json_string (gr_TaskID g))); ("allowedCategory", Some (json_string (gr_AllowedCategory g)));
    ("maxAmountAtomic", Some (json_string (gr_MaxAmountAtomic g))); ("allowedSellerSet", Some (json_array (map json_string (gr_AllowedSellerSet g))));
    ("remainingAttempts", Some (json_int (gr_RemainingAttempts g))); ("issuedAt", Some (json_int (gr_IssuedAt g))); ("expiresAt", Some (json_int (gr_ExpiresAt g)))].

Definition line_feed : string := String (char_of 10) "".

Definition grant_Digest (g : Grant) : res string :=
  try _ := grant_Validate g in Ok (keccak256 (GrantProtocol +:+ line_feed +:+ json_Grant g)).
Definition DigestHex (g : Grant) : res string := try d := grant_Digest g in Ok (hex_hash d).

(** ** Requests *)

Definition normalizeIssueRequest (r : IssueRequest) : res IssueRequest :=
  check bool_decide (iq_ReasonClass r = ReasonTooExpensive) || bool_decide (iq_ReasonClass r = ReasonWrongSeller) else ErrReasonIneligible ;;
  let category := ToLower (TrimSpace (iq_AllowedCategory r)) in
  let sellers := merge_sort string_le (iq_AllowedSellerSet r) in
  check grant_hash (iq_OriginalIntentID r) && grant_identifier (iq_OrganizationID r) && grant_identifier (iq_AgentID r) && grant_identifier (iq_TaskID r) &&
        negb (bool_decide (category = "")) && positiveAtomic (iq_MaxAmountAtomic r) && (0 <? iq_IssuedAt r) &&
        between 1 maximumSellerCount (Z.of_nat (length sellers)) && sellers_ok "" sellers
    else ErrInvalidGrant ;;
  Ok (mkIssueRequest (iq_ReasonClass r) (iq_OriginalIntentID r) (iq_OrganizationID r) (iq_AgentID r) (iq_TaskID r) category (iq_MaxAmountAtomic r) sellers (iq_IssuedAt r)).

Definition json_Request (r : IssueRequest) : string :=
  json_object [("protocol", Some (json_string GrantProtocol)); ("reasonClass", Some (json_string (iq_ReasonClass r)));
    ("originalIntentId", Some (json_string (iq_OriginalIntentID r))); ("organizationId", Some (json_string (iq_OrganizationID r)));
    ("agentId", Some (json_string (iq_AgentID r))); ("taskId", Some (json_string (iq_TaskID r))); ("allowedCategory", Some (json_string (iq_AllowedCategory r)));
    ("maxAmountAtomic", Some (json_string (iq_MaxAmountAtomic r))); ("allowedSellerSet", Some (json_array (map json_string (iq_AllowedSellerSet r))));
    ("remainingAttempts", Some (json_int RequiredAttempts)); ("issuedAt", Some (json_int (iq_IssuedAt r)))].

Definition CanonicalIssueRequestHash (r : IssueRequest) : res string :=
  try r := normalizeIssueRequest r in Ok (hex_hash (keccak256 ("ASCP_GRANT_ISSUE_V1" +:+ line_feed +:+ json_Request r))).

Definition request_of (reason : ReasonClass) (g : Grant) : IssueRequest :=
  mkIssueRequest reason (gr_OriginalIntentID g) (gr_OrganizationID g) (gr_AgentID g) (gr_TaskID g) (gr_AllowedCategory g) (gr_MaxAmountAtomic g)
    (gr_AllowedSellerSet g) (gr_IssuedAt g).
Definition IssueRequestHash (reason : ReasonClass) (g : Grant) : res string :=
  try _ := grant_Validate g in CanonicalIssueRequestHash (request_of reason g).

Definition grantIDForRequest (r : IssueRequest) : res string :=
  try h := CanonicalIssueRequestHash r in Ok (hex_hash (keccak256 ("ASCP_GRANT_ID_V1" +:+ line_feed +:+ h))).

(** ** Issuing; [sign] is the signer's answer for a digest. *)

Definition lifetime_seconds : Z := MaximumLifetime / Second.
Definition grant_for (r : IssueRequest) (grantID : string) : Grant :=
  mkGrant GrantProtocol grantID (iq_OriginalIntentID r) (iq_OrganizationID r) (iq_AgentID r) (iq_TaskID r) (iq_AllowedCategory r) (iq_MaxAmountAtomic r)
    (merge_sort string_le (iq_AllowedSellerSet r)) RequiredAttempts (iq_IssuedAt r) (int64 (iq_IssuedAt r + lifetime_seconds)).

Definition Issuer_Issue (sign : string -> res string) (now : time) (request : IssueRequest) : res SignedGrant :=
  try r := normalizeIssueRequest request in
  try grantID := grantIDForRequest r in
  let now := now / Second * Second in
  check (iq_IssuedAt r <=? Unix (time_add now Minute)) && (Unix now <? int64 (iq_IssuedAt r + lifetime_seconds)) else ErrGrantScope ;;
  let g := grant_for r grantID in
  try _ := grant_Validate g in
  try digest := grant_Digest g in
  match sign digest with
  | Err _ => Err ErrSignerUnavailable
  | Ok signature => check str_len signature =? 65 else ErrInvalidGrant ;; Ok (mkSignedGrant g ("0x" +:+ hex_encode signature))
  end.

(** ** Verifying *)

Definition use_allowed (g : Grant) (u : GrantUse) : bool :=
  bool_decide (gr_OrganizationID g = us_OrganizationID u) && bool_decide (gr_AgentID g = us_AgentID u) && bool_decide (gr_TaskID g = us_TaskID u) &&
  bool_decide (gr_AllowedCategory g = ToLower (TrimSpace (us_Category u))) && amountAtMost (us_AmountAtomic u) (gr_MaxAmountAtomic g) &&
  contains (gr_AllowedSellerSet g) (us_SellerID u).

(** [None]: a replay, without the time. *)
Definition grant_verify (signed : SignedGrant) (expectedSigner : string) (now : option time) (u : GrantUse) : res unit :=
  check is_ok (grant_Validate (sg_Grant signed)) && canonicalSigner expectedSigner else ErrInvalidGrant ;;
  match grant_Digest (sg_Grant signed), decodeSignature (sg_Signature signed) with
  | Ok digest, Ok signature =>
      match ecdsa_recover digest signature with
      | Err _ => Err ErrInvalidGrant
      | Ok address =>
          check bool_decide ("0x" +:+ hex_encode address = expectedSigner) else ErrInvalidGrant ;;
          let g := sg_Grant signed in
          check match now with None => true | Some t => (int64 (gr_IssuedAt g - 60) <=? Unix t) && (Unix t <? gr_ExpiresAt g) end else ErrGrantScope ;;
          check use_allowed g u else ErrGrantScope ;;
          Ok tt
      end
  | _, _ => Err ErrInvalidGrant
  end.

Definition ValidateRecord (r : GrantRecord) : res unit :=
  let g := sg_Grant (gc_Artifact r) in
  check match DigestHex g with Ok d => bool_decide (d = gc_Digest r) | Err _ => false end else ErrInvalidGrant ;;
  check match IssueRequestHash (gc_ReasonClass r) g with Ok h => bool_decide (h = gc_CanonicalRequestHash r) | Err _ => false end else ErrInvalidGrant ;;
  check is_ok (decodeSignature (sg_Signature (gc_Artifact r))) else ErrInvalidGrant ;;
  check bool_decide (gc_ConsumedOperationID r = "") || grant_hash (gc_ConsumedOperationID r) else ErrInvalidGrant ;;
  Ok tt.
End Grants.

(** ** What an adaptation grant allows

    The binary search for a seller finds exactly the members of the set, and a verified grant
    is signed by the grant signer over its own digest and allows the purchase it is used for. *)

(** ** Searching *)

Definition at_index (l : list string) (k : nat) : list ascii := chars (default "" (l !! k)).

Lemma sellers_increase l : forall previous, sellers_ok previous l = true ->
  (forall k, (k < length l)%nat -> bytes_leb (at_index l k) (chars previous) = false) /\
  (forall j k, (j < k < length l)%nat -> bytes_leb (at_index l k) (at_index l j) = false).
Proof.
  induction l as [|s l IH]; intros previous; [by split; intros; cbn in *; lia|]. cbn [sellers_ok]. rewrite !andb_true_iff, negb_true_iff. intros [[_ Hs] Hl].
  destruct (IH s Hl) as [H1 H2]. assert (Hlater : forall k, (k < length l)%nat -> bytes_leb (at_index l k) (chars previous) = false).
  { intros k Hk. apply not_true_iff_false. intros Hle. specialize (H1 k Hk). destruct (bytes_leb_total (chars s) (at_index l k)) as [Ht|Ht]; [|congruence].
    rewrite (bytes_leb_trans _ _ _ Ht Hle) in Hs. done. }
  split.
  - intros [|k] Hk; [done|]. apply Hlater. cbn in Hk. lia.
  - intros [|j] [|k] Hk; try lia; [apply H1|apply H2]; cbn in Hk; lia.
Qed.

(** Everything before the answer is smaller than [v], everything from it on is not. *)
Lemma search_spec l v : sellers_ok "" l = true -> forall fuel i j, (j - i <= fuel)%nat -> (i <= j <= length l)%nat ->
  (forall k, (k < i)%nat -> bytes_leb (chars v) (at_index l k) = false) -> (forall k, (j <= k < length l)%nat -> bytes_leb (chars v) (at_index l k) = true) ->
  let index := search fuel l v i j in
  (index <= length l)%nat /\ (forall k, (k < index)%nat -> bytes_leb (chars v) (at_index l k) = false) /\ (forall k, (index <= k < length l)%nat -> bytes_leb (chars v) (at_index l k) = true).
Proof.
  intros Hl. apply sellers_increase in Hl as [_ Hup].
  assert (Hmono : forall j k, (j <= k < length l)%nat -> bytes_leb (at_index l j) (at_index l k) = true).
  { intros j k Hk. destruct (decide (j = k)) as [->|]; [apply bytes_leb_refl|]. destruct (bytes_leb_total (at_index l j) (at_index l k)) as [?|Hle]; [done|].
    rewrite Hup in Hle by lia. done. }
  induction fuel as [|fuel IH]; intros i j Hf Hij Hlo Hhi; cbn [search].
  { assert (i = j) as -> by lia. split_and!; [lia|done..]. }
  destruct (Nat.leb_spec j i); [assert (i = j) as -> by lia; split_and!; [lia|done..]|]. set (h := ((i + j) / 2)%nat).
  assert (Hh : (i <= h < j)%nat) by (unfold h; pose proof (Nat.div_mod (i + j) 2 ltac:(lia)); pose proof (Nat.mod_upper_bound (i + j) 2 ltac:(lia)); lia).
  fold (at_index l h). destruct (bytes_leb (chars v) (at_index l h)) eqn:E.
  - apply IH; [lia|lia|done|]. intros k Hk. eapply bytes_leb_trans; [exact E|]. apply Hmono. lia.
  - apply IH; [lia|lia| |done]. intros k Hk. apply not_true_iff_false. intros Hle. apply not_true_iff_false in E. apply E. eapply bytes_leb_trans; [exact Hle|]. apply Hmono. lia.
Qed.

Lemma contains_member l v : sellers_ok "" l = true -> contains l v = true <-> v ∈ l.
Proof.
  intros Hl. unfold contains. destruct (search_spec l v Hl (length l) 0 (length l)) as (Hi & Hlo & Hhi); [lia|lia|lia|lia|].
  set (index := search (length l) l v 0 (length l)) in *. split.
  - destruct (l !! index) as [s|] eqn:E; [|done]. intros ->%bool_decide_eq_true. by apply list_elem_of_lookup_2 in E.
  - intros (k & Hk)%list_elem_of_lookup. assert (Hat : at_index l k = chars v) by (unfold at_index; by rewrite Hk). pose proof (lookup_lt_Some _ _ _ Hk).
    assert (index <= k)%nat. { destruct (decide (index <= k)%nat); [done|]. specialize (Hlo k ltac:(lia)). by rewrite Hat, bytes_leb_refl in Hlo. }
    destruct (l !! index) as [s|] eqn:E; [|apply lookup_ge_None in E; lia]. assert (Hs : at_index l index = chars s) by (unfold at_index; by rewrite E).
    assert (index = k) as -> by (destruct (decide (index = k)) as [?|Hne]; [done|]; exfalso; apply sellers_increase in Hl as [_ Hup]; specialize (Hup index k ltac:(lia));
      rewrite Hat in Hup; rewrite Hhi in Hup by lia; done).
    rewrite Hk in E. injection E as ->. by apply bool_decide_eq_true.
Qed.

(** ** Verified grants *)

Section Verified.
Context `{Crypto, SafeLib, Unicode}.

(** The purchase is within the terms. *)
Definition within_terms (g : Grant) (u : GrantUse) : Prop :=
  gr_OrganizationID g = us_OrganizationID u /\ gr_AgentID g = us_AgentID u /\ gr_TaskID g = us_TaskID u /\ gr_AllowedCategory g = ToLower (TrimSpace (us_Category u)) /\
  us_SellerID u ∈ gr_AllowedSellerSet g /\
  exists amount limit, SetString10 (us_AmountAtomic u) = Some amount /\ SetString10 (gr_MaxAmountAtomic g) = Some limit /\ 0 < amount <= limit.

Lemma verified_grant signed signer t u : grant_verify signed signer (Some t) u = Ok tt ->
  grant_Validate (sg_Grant signed) = Ok tt /\ within_terms (sg_Grant signed) u /\ Unix t < gr_ExpiresAt (sg_Grant signed) /\
  exists digest signature address, grant_Digest (sg_Grant signed) = Ok digest /\ decodeSignature (sg_Signature signed) = Ok signature /\
    ecdsa_recover digest signature = Ok address /\ signer = "0x" +:+ hex_encode address.
Proof.
  unfold grant_verify. rewrite check_ok_iff. intros [[Hv _]%andb_true_iff Hg]. destruct (grant_Validate (sg_Grant signed)) as [[]|] eqn:Ev; [|done].
  destruct (grant_Digest _) as [digest|] eqn:Ed; [|done]. destruct (decodeSignature _) as [signature|] eqn:Es; [|done]. destruct (ecdsa_recover digest signature) as [address|] eqn:Er; [|done].
  rewrite !check_ok_iff in Hg. destruct Hg as (Ha & Ht & Hu & _). apply bool_decide_eq_true in Ha. apply andb_true_iff in Ht as [_ Ht]. apply Z.ltb_lt in Ht.
  split_and!; [done| |done|by exists digest, signature, address]. unfold use_allowed in Hu. rewrite !andb_true_iff, !bool_decide_eq_true in Hu.
  destruct Hu as [[[[[H1' H2'] H3'] H4'] H5'] H6']. unfold within_terms. split_and!; try done.
  - apply contains_member; [|done]. unfold grant_Validate in Ev. rewrite check_ok_iff in Ev. destruct Ev as [Ev _]. rewrite !andb_true_iff in Ev. tauto.
  - unfold amountAtMost in H5'. destruct (SetString10 (us_AmountAtomic u)) as [amount|]; [|done]. destruct (SetString10 (gr_MaxAmountAtomic (sg_Grant signed))) as [limit|]; [|done].
    rewrite !andb_true_iff in H5'. destruct H5' as [[Hp _] Hm]. exists amount, limit. to_prop. split_and!; (done || lia).
Qed.
End Verified.
