(* ===== verification/Intake.v ===== *)
(** * Intake of purchases ([internal/ascpintake])

    An operation is created from an accepted quote and a stored purchase specification, in
    one transaction with its tombstone, which claims the quote's nonce and the idempotency
    scope for good, and with the adaptation grant it uses up. A repeated request is answered
    from the tombstone. The PostgreSQL store is modelled with the constraints of migrations
    0004, 0026 and 0028; other clients act between any two of its transactions. *)
From stdpp Require Import base gmap strings list sorting.
From Stdlib Require Import ZArith Lia Ascii.
From S2P Require Import Prelude GoText GoJSON Amounts Crypto Envelope CanonicalJSON GovAction SafeTx SellerQuote EventStore Url PurchaseSpec Adaptation.

Open Scope Z_scope.

Definition Endpoint : string := "ascp.intent.create".
Definition LogicalOperation : string := "CREATE_INTENT".
Definition ErrIntakeConflict : error := "idempotency key names different ASCP intake input".
Definition ErrQuoteNonceConsumed : error := "seller quote nonce is already owned by another operation".
Definition ErrPurchaseSpecBinding : error := "persisted purchase specification does not bind the seller quote".
Definition ErrIntakeNotFound : error := "ASCP operation not found".

Record IntakeRequest := mkIntakeRequest {
  ir_OrganizationID : string; ir_ActorID : string; ir_IdempotencyKey : string; ir_DirectoryContract : string; ir_Quote : Quote; ir_Signature : string;
  ir_Expected : ExpectedTerms; ir_Evidence : DirectoryEvidence; ir_CanonicalPurchaseSpec : string; ir_RequestBody : string;
  ir_Adaptation : option SignedGrant; ir_AdaptationSigner : string }.

Record Operation := mkOperation {
  op_OperationID : string; op_OrganizationID : string; op_ActorID : string; op_QuoteHash : string; op_PurchaseSpecHash : string; op_QuoteNonce : string;
  op_DirectoryVersion : Z; op_DirectoryContract : string; op_SellerSigner : string; op_AdaptationGrantID : string; op_CreatedAt : Z; op_Replayed : bool }.

(** The quote's JSON is the quote. *)
Record StoreInput := mkStoreInput {
  si_Operation : Operation; si_IdempotencyKey : string; si_CanonicalInputHash : string; si_Quote : Quote; si_PurchaseSpecJSON : string; si_RequestBody : string;
  si_AdaptationGrantID : string; si_AdaptationDigest : string }.

(** ** The tables *)

(** A row of [ascp_financial_tombstones]; the operation with [Replayed] unset *)
Record Tombstone := mkTombstone { tm_Operation : Operation; tm_IdempotencyKey : string; tm_CanonicalHash : string }.
(** A row of [ascp_intents] *)
Record IntentRow := mkIntentRow { nt_Input : StoreInput }.
(** A row of [ascp_adaptation_grants]; [gw_Consumed] is the operation and the time *)
Record GrantRow := mkGrantRow { gw_Record : GrantRecord; gw_Consumed : option (string * time) }.

Record idb := mkIdb {
  id_organizations : gset string; id_agents : gset (string * string);
  id_tombstones : list Tombstone; id_intents : list IntentRow; id_grants : gmap string GrantRow }.

Definition same_scope (org actor key : string) (t : Tombstone) : bool :=
  bool_decide (op_OrganizationID (tm_Operation t) = org) && bool_decide (op_ActorID (tm_Operation t) = actor) && bool_decide (tm_IdempotencyKey t = key).
Definition tombstone_of (db : idb) (org actor key : string) : option Tombstone := List.find (same_scope org actor key) (id_tombstones db).

Definition lower_hex64 (v : string) : bool := (str_len v =? 64) && str_all is_lower_hex v.

(** The checks on a tombstone and on the columns of an intent it shares *)
Definition tombstone_ok (t : Tombstone) : bool :=
  let o := tm_Operation t in
  text_between 1 128 (op_ActorID o) && text_between 1 128 (tm_IdempotencyKey t) &&
  lower_hex64 (tm_CanonicalHash t) && hash_pattern (op_OperationID o) && hash_pattern (op_QuoteHash o) && hash_pattern (op_PurchaseSpecHash o) &&
  hash_pattern (op_QuoteNonce o) && (0 <? int64 (op_DirectoryVersion o)) && address_pattern (op_DirectoryContract o) && address_pattern (op_SellerSigner o).

(** A [jsonb] value has no NUL in its strings. *)
Definition nul_free (s : string) : bool := str_all (fun c => negb (code c =? 0)) s.
Fixpoint jsonb_value (v : jval) : bool :=
  match v with
  | JStr s => nul_free s
  | JArr l => forallb jsonb_value l
  | JObj l => forallb (fun m => nul_free m.1 && jsonb_value m.2) l
  | _ => true
  end.
Definition jsonb_ok (raw : string) : bool := match decode_json raw with Some v => jsonb_value v | None => false end.

(** The columns an intent has of its own *)
Definition intent_ok (i : StoreInput) : bool :=
  jsonb_ok (si_PurchaseSpecJSON i) &&
  ((bool_decide (si_AdaptationGrantID i = "") && bool_decide (si_AdaptationDigest i = "")) || (hash_pattern (si_AdaptationGrantID i) && hash_pattern (si_AdaptationDigest i))).

Definition intent_op (r : IntentRow) : Operation := si_Operation (nt_Input r).

(** ** Transactions *)

(** [Committed], nothing done, or done without the client knowing *)
Inductive commit_outcome := Committed | NotCommitted | CommittedUnknown.

Definition stored_operation (o : Operation) (grantID : string) : Operation :=
  mkOperation (op_OperationID o) (op_OrganizationID o) (op_ActorID o) (op_QuoteHash o) (op_PurchaseSpecHash o) (op_QuoteNonce o) (op_DirectoryVersion o)
    (op_DirectoryContract o) (op_SellerSigner o) grantID (op_CreatedAt o) false.

(** [issued_at <= now + 60 s] and [now < expires_at], for whole seconds *)
Definition grant_open (g : Grant) (now : time) : bool :=
  (time_of_unix (gr_IssuedAt g) <=? now + 60 * Second) && (now <? time_of_unix (gr_ExpiresAt g)).

(** The UPDATE that uses a grant up, with its trigger: [None] when it matches no row *)
Definition consume_grant (db : idb) (i : StoreInput) (now : time) : option idb :=
  let o := si_Operation i in
  match id_grants db !! si_AdaptationGrantID i with
  | Some row =>
      let g := sg_Grant (gc_Artifact (gw_Record row)) in
      if bool_decide (gc_Digest (gw_Record row) = si_AdaptationDigest i) && bool_decide (gr_OrganizationID g = op_OrganizationID o) &&
         bool_decide (gr_AgentID g = op_ActorID o) && match gw_Consumed row with None => true | Some _ => false end && grant_open g now
      then Some (mkIdb (id_organizations db) (id_agents db) (id_tombstones db) (id_intents db)
             (<[si_AdaptationGrantID i := mkGrantRow (gw_Record row) (Some (op_OperationID o, now))]> (id_grants db)))
      else None
  | None => None
  end.

(** [createOnce] up to its commit: the new tables, the operation and whether it is a replay *)
Definition create_rows (db : idb) (i : StoreInput) (now : time) : res (idb * (Operation * bool)) :=
  let o := si_Operation i in
  let t := mkTombstone (stored_operation o (si_AdaptationGrantID i)) (si_IdempotencyKey i) (si_CanonicalInputHash i) in
  check tombstone_ok t else "insert ASCP intake" ;;
  match tombstone_of db (op_OrganizationID o) (op_ActorID o) (si_IdempotencyKey i) with
  | Some t =>
      check bool_decide (tm_CanonicalHash t = si_CanonicalInputHash i) else ErrIntakeConflict ;;
      Ok (db, (tm_Operation t, true))
  | None =>
      check negb (existsb (fun x => bool_decide (op_QuoteNonce (tm_Operation x) = op_QuoteNonce o)) (id_tombstones db)) else ErrQuoteNonceConsumed ;;
      check negb (existsb (fun x => bool_decide (op_OperationID (tm_Operation x) = op_OperationID o)) (id_tombstones db)) else "insert ASCP intake" ;;
      check bool_decide (op_OrganizationID o ∈ id_organizations db) && intent_ok i else "insert ASCP intake" ;;
      check negb (existsb (fun x => bool_decide (op_QuoteNonce (intent_op x) = op_QuoteNonce o)) (id_intents db)) else ErrQuoteNonceConsumed ;;
      check negb (existsb (fun x => bool_decide (op_OperationID (intent_op x) = op_OperationID o) ||
               (bool_decide (op_OrganizationID (intent_op x) = op_OrganizationID o) && bool_decide (op_ActorID (intent_op x) = op_ActorID o) &&
                bool_decide (si_IdempotencyKey (nt_Input x) = si_IdempotencyKey i))) (id_intents db)) else "insert ASCP intake" ;;
      let db := mkIdb (id_organizations db) (id_agents db) (id_tombstones db ++ [t]) (id_intents db ++ [mkIntentRow i]) (id_grants db) in
      if bool_decide (si_AdaptationGrantID i = "") then Ok (db, (o, false))
      else match consume_grant db i now with Some db => Ok (db, (o, false)) | None => Err ErrGrantConsumed end
  end.

Definition createOnce (db : idb) (i : StoreInput) (now : time) (commit : commit_outcome) : idb * res (Operation * bool) :=
  match create_rows db i now with
  | Err e => (db, Err e)
  | Ok (db', r) =>
      match commit with
      | Committed => (db', Ok r)
      | NotCommitted => (db, Err "commit ASCP intake transaction")
      | CommittedUnknown => (db', Err "commit ASCP intake transaction")
      end
  end.

Definition intake_Lookup (db : idb) (org actor key : string) : option (Operation * string) :=
  match tombstone_of db org actor key with Some t => Some (tm_Operation t, tm_CanonicalHash t) | None => None end.

Definition intake_Get (db : idb) (org actor operationID : string) : res Operation :=
  match List.find (fun t => bool_decide (op_OperationID (tm_Operation t) = operationID) && bool_decide (op_OrganizationID (tm_Operation t) = org) &&
                            bool_decide (op_ActorID (tm_Operation t) = actor)) (id_tombstones db) with
  | Some t => Ok (tm_Operation t)
  | None => Err ErrIntakeNotFound
  end.

Section Intake.
Context `{Crypto, SafeLib, Unicode, UnicodeUpper, HostNames}.

(** ** Grants in the database *)

Definition scan_grant (row : GrantRow) : res GrantRecord :=
  let r := gw_Record row in
  let r := mkGrantRecord (gc_Artifact r) (gc_ReasonClass r) (gc_Digest r) (gc_CanonicalRequestHash r) (match gw_Consumed row with Some (o, _) => o | None => "" end) false in
  try _ := ValidateRecord r in Ok r.

Definition GetGrant (db : idb) (org agent grantID : string) : res GrantRecord :=
  match id_grants db !! grantID with
  | Some row =>
      let g := sg_Grant (gc_Artifact (gw_Record row)) in
      if bool_decide (gr_OrganizationID g = org) && bool_decide (gr_AgentID g = agent) then scan_grant row else Err ErrGrantNotFound
  | None => Err ErrGrantNotFound
  end.

Definition by_original (db : idb) (intent : string) : option GrantRow :=
  snd <$> List.find (fun p => bool_decide (gr_OriginalIntentID (sg_Grant (gc_Artifact (gw_Record p.2))) = intent)) (map_to_list (id_grants db)).
Definition GetByOriginalIntent (db : idb) (org agent intent : string) : res GrantRecord :=
  match by_original db intent with
  | Some row =>
      let g := sg_Grant (gc_Artifact (gw_Record row)) in
      if bool_decide (gr_OrganizationID g = org) && bool_decide (gr_AgentID g = agent) then scan_grant row else Err ErrGrantNotFound
  | None => Err ErrGrantNotFound
  end.

(** The checks and foreign keys of a new grant *)
Definition grant_row_ok (db : idb) (r : GrantRecord) : bool :=
  let g := sg_Grant (gc_Artifact r) in
  hash_pattern (gr_GrantID g) && bool_decide (gr_OrganizationID g ∈ id_organizations db) && bool_decide ((gr_OrganizationID g, gr_AgentID g) ∈ id_agents db) &&
  existsb (fun x => bool_decide (op_OperationID (intent_op x) = gr_OriginalIntentID g) && bool_decide (op_OrganizationID (intent_op x) = gr_OrganizationID g) &&
                    bool_decide (op_ActorID (intent_op x) = gr_AgentID g)) (id_intents db) &&
  text_between 1 128 (gr_TaskID g) && (bool_decide (gc_ReasonClass r = ReasonTooExpensive) || bool_decide (gc_ReasonClass r = ReasonWrongSeller)) &&
  text_between 1 128 (gr_AllowedCategory g) && between 1 64 (Z.of_nat (length (gr_AllowedSellerSet g))) &&
  (gr_IssuedAt g <? gr_ExpiresAt g) && (gr_ExpiresAt g <=? gr_IssuedAt g + 1800) && hash_pattern (gc_Digest r) && hash_pattern (gc_CanonicalRequestHash r) &&
  hex_pattern 130 (sg_Signature (gc_Artifact r)).

Definition issue_grant (db : idb) (r : GrantRecord) : idb * res (GrantRecord * bool) :=
  match ValidateRecord r with
  | Err e => (db, Err e)
  | Ok _ =>
      let g := sg_Grant (gc_Artifact r) in
      match by_original db (gr_OriginalIntentID g) with
      | Some _ =>
          (db, try existing := GetByOriginalIntent db (gr_OrganizationID g) (gr_AgentID g) (gr_OriginalIntentID g) in
               check bool_decide (gc_CanonicalRequestHash existing = gc_CanonicalRequestHash r) && bool_decide (gc_ReasonClass existing = gc_ReasonClass r)
                 else ErrIssueConflict ;;
               Ok (existing, true))
      | None =>
          if grant_row_ok db r && bool_decide (id_grants db !! gr_GrantID g = None)
          then (mkIdb (id_organizations db) (id_agents db) (id_tombstones db) (id_intents db) (<[gr_GrantID g := mkGrantRow r None]> (id_grants db)), Ok (r, false))
          else (db, Err "issue adaptation grant")
      end
  end.

Definition grant_replayed (r : GrantRecord) (replayed : bool) : GrantRecord :=
  mkGrantRecord (gc_Artifact r) (gc_ReasonClass r) (gc_Digest r) (gc_CanonicalRequestHash r) (gc_ConsumedOperationID r) replayed.

(** [Service.Issue]: a request that was answered before is answered from the table. *)
Definition grants_Issue (db : idb) (sign : string -> res string) (now : time) (request : IssueRequest) : idb * res GrantRecord :=
  match CanonicalIssueRequestHash request with
  | Err e => (db, Err e)
  | Ok requestHash =>
      match GetByOriginalIntent db (iq_OrganizationID request) (iq_AgentID request) (iq_OriginalIntentID request) with
      | Ok existing =>
          (db, check bool_decide (gc_CanonicalRequestHash existing = requestHash) && bool_decide (gc_ReasonClass existing = iq_ReasonClass request) else ErrIssueConflict ;;
               Ok (grant_replayed existing true))
      | Err e =>
          if negb (bool_decide (e = ErrGrantNotFound)) then (db, Err e) else
          match Issuer_Issue sign now request with
          | Err e => (db, Err e)
          | Ok artifact =>
              match DigestHex (sg_Grant artifact) with
              | Err e => (db, Err e)
              | Ok digest =>
                  match issue_grant db (mkGrantRecord artifact (iq_ReasonClass request) digest requestHash "" false) with
                  | (db, Ok (record, replayed)) => (db, Ok (grant_replayed record replayed))
                  | (db, Err e) => (db, Err e)
                  end
              end
          end
      end
  end.

(** ** What the service asks of the store *)

Definition validateScope (r : IntakeRequest) : res unit :=
  check ValidIdentifier (ir_OrganizationID r) && ValidIdentifier (ir_ActorID r) && ValidIdentifier (ir_IdempotencyKey r) && (str_len (ir_IdempotencyKey r) <=? 128)
    else "idempotency scope is invalid" ;;
  Ok tt.

Definition input_json (r : IntakeRequest) (contract quoteHash signer digest : string) : string :=
  json_object [("version", Some (json_string "ASCP_INTAKE_V1")); ("organizationId", Some (json_string (ir_OrganizationID r)));
    ("actorId", Some (json_string (ir_ActorID r))); ("endpoint", Some (json_string Endpoint)); ("idempotencyKey", Some (json_string (ir_IdempotencyKey r)));
    ("directoryContract", Some (json_string contract)); ("quoteHash", Some (json_string quoteHash)); ("sellerSigner", Some (json_string signer));
    ("adaptationDigest", omit_empty digest)].
Definition canonicalInputHash (r : IntakeRequest) (contract quoteHash signer digest : string) : string :=
  hex_encode (sha256 (input_json r contract quoteHash signer digest)).

Definition use_of (r : IntakeRequest) (s : PurchaseSpec) : GrantUse :=
  mkUse (ir_OrganizationID r) (ir_ActorID r) (ps_TaskID s) (ps_Category s) (q_AmountBaseUnits (ir_Quote r)) (q_SellerID (ir_Quote r)).

Definition validateAdaptation (r : IntakeRequest) (s : PurchaseSpec) (now : option time) : res string :=
  match ir_Adaptation r with
  | None => Ok ""
  | Some signed => try _ := grant_verify signed (ir_AdaptationSigner r) now (use_of r s) in DigestHex (sg_Grant signed)
  end.
Definition adaptationGrantID (g : option SignedGrant) : string := match g with Some s => gr_GrantID (sg_Grant s) | None => "" end.

(** The specification is stored as it must be and is the one the quote is for. *)
Definition bound_spec (r : IntakeRequest) : res PurchaseSpec :=
  try spec := ValidatePersisted (ir_CanonicalPurchaseSpec r) (ir_RequestBody r) in
  check bool_decide (keccakHex (ir_CanonicalPurchaseSpec r) = q_PurchaseSpecHash (ir_Quote r)) else ErrPurchaseSpecBinding ;;
  Ok spec.

Definition as_replayed (o : Operation) (replayed : bool) : Operation :=
  mkOperation (op_OperationID o) (op_OrganizationID o) (op_ActorID o) (op_QuoteHash o) (op_PurchaseSpecHash o) (op_QuoteNonce o) (op_DirectoryVersion o)
    (op_DirectoryContract o) (op_SellerSigner o) (op_AdaptationGrantID o) (op_CreatedAt o) replayed.

(** [Replay]: [None] when there is nothing to repeat *)
Definition intake_Replay (db : idb) (r : IntakeRequest) : res (option Operation) :=
  try _ := validateScope r in
  match intake_Lookup db (ir_OrganizationID r) (ir_ActorID r) (ir_IdempotencyKey r) with
  | None => Ok None
  | Some (stored, storedHash) =>
      try spec := bound_spec r in
      let contract := op_DirectoryContract stored in
      try quoteHash := Quote_Digest (ir_Quote r) contract in
      try signer := RecoverSigner (ir_Quote r) contract (ir_Signature r) in
      try digest := validateAdaptation r spec None in
      check bool_decide (storedHash = canonicalInputHash r contract (hex_hash quoteHash) (hex_hash signer) digest) else ErrIntakeConflict ;;
      Ok (Some (as_replayed stored true))
  end.

(** Thirty-two random bytes, not all zero *)
Definition operation_id (random : res string) : res string :=
  try bytes := random in
  check negb (str_all (fun c => code c =? 0) bytes) else "generated zero operation ID" ;;
  Ok (hex_hash bytes).

(** The clock is read three times. *)
Definition store_input (r : IntakeRequest) (t1 t2 t3 : time) (random : res string) : res StoreInput :=
  try spec := bound_spec r in
  try digest := validateAdaptation r spec (Some t1) in
  match ValidateForIntake (ir_Quote r) t2 (ir_DirectoryContract r) (ir_Expected r) (ir_Evidence r) (ir_Signature r) with
  | Err e => Err e
  | Ok (quoteHash, signer) =>
      let inputHash := canonicalInputHash r (ir_DirectoryContract r) (hex_hash quoteHash) (hex_hash signer) digest in
      try id := operation_id random in
      let o := mkOperation id (ir_OrganizationID r) (ir_ActorID r) (hex_hash quoteHash) (q_PurchaseSpecHash (ir_Quote r)) (q_QuoteNonce (ir_Quote r))
        (q_DirectoryVersion (ir_Quote r)) (ir_DirectoryContract r) (hex_hash signer) (adaptationGrantID (ir_Adaptation r)) (Unix t3) false in
      Ok (mkStoreInput o (ir_IdempotencyKey r) inputHash (ir_Quote r) (ir_CanonicalPurchaseSpec r) (ir_RequestBody r) (adaptationGrantID (ir_Adaptation r)) digest)
  end.

(** ** The store: three attempts *)

(** What other clients commit: the transaction of a request of theirs, or a grant *)
Inductive itx := TxCreate (r : IntakeRequest) (t1 t2 t3 : time) (random : res string) (now : time) | TxIssue (r : GrantRecord).
Definition apply_tx (db : idb) (t : itx) : idb :=
  match t with
  | TxCreate r t1 t2 t3 random now => match store_input r t1 t2 t3 random with Ok i => (createOnce db i now Committed).1 | Err _ => db end
  | TxIssue r => (issue_grant db r).1
  end.

Record attempt_env := mkAttemptEnv { at_serialization : bool; at_now : time; at_commit : commit_outcome; at_others : list itx }.

Fixpoint store_create (db : idb) (i : StoreInput) (env : list attempt_env) : idb * res (Operation * bool) :=
  match env with
  | [] => (db, Err "ASCP intake serialization retries exhausted")
  | e :: env =>
      if at_serialization e then store_create (foldl apply_tx db (at_others e)) i env
      else
        match createOnce db i (at_now e) (at_commit e) with
        | (db, Ok r) => (db, Ok r)
        | (db, Err err) =>
            if bool_decide (err = ErrQuoteNonceConsumed) then
              let db := foldl apply_tx db (at_others e) in
              let o := si_Operation i in
              match intake_Lookup db (op_OrganizationID o) (op_ActorID o) (si_IdempotencyKey i) with
              | Some (existing, storedHash) => (db, check bool_decide (storedHash = si_CanonicalInputHash i) else ErrIntakeConflict ;; Ok (existing, true))
              | None => (db, Err err)
              end
            else (db, Err err)
        end
  end.

(** ** The service *)

Definition intake_Create (db : idb) (r : IntakeRequest) (t1 t2 t3 : time) (random : res string) (env : list attempt_env) : idb * res Operation :=
  match intake_Replay db r with
  | Err e => (db, Err e)
  | Ok (Some o) => (db, Ok o)
  | Ok None =>
      match store_input r t1 t2 t3 random with
      | Err e => (db, Err e)
      | Ok i => match store_create db i (take 3 env) with (db, Ok (o, replayed)) => (db, Ok (as_replayed o replayed)) | (db, Err e) => (db, Err e) end
      end
  end.
End Intake.
