(* ===== verification/IntakeTheorems.v ===== *)
(** * Every purchase once

    In every run of the intake transactions, whatever requests are made and however often, a
    quote nonce, an idempotency scope and an adaptation grant belong to one operation; the
    operation rests on what was checked when it was created; and a request that succeeded is
    answered with the same operation from then on. *)
From stdpp Require Import base gmap strings list sorting.
From Stdlib Require Import ZArith Lia Ascii.
From S2P Require Import Prelude GoText GoJSON Amounts Crypto Envelope CanonicalJSON GovAction GovActionTheorems SafeTx SellerQuote EventStore EventTheorems Url PurchaseSpec Adaptation Intake.

Open Scope Z_scope.

Definition scope_of (t : Tombstone) : string * string * string := (op_OrganizationID (tm_Operation t), op_ActorID (tm_Operation t), tm_IdempotencyKey t).
Definition nonce_of (t : Tombstone) : string := op_QuoteNonce (tm_Operation t).
Definition id_of (t : Tombstone) : string := op_OperationID (tm_Operation t).

Lemma same_scope_iff org actor key t : same_scope org actor key t = true <-> scope_of t = (org, actor, key).
Proof. unfold same_scope, scope_of. rewrite !andb_true_iff, !bool_decide_eq_true. split; [by intros [[-> ->] ->]|by intros [= -> -> ->]]. Qed.

Lemma tombstone_of_none db org actor key : tombstone_of db org actor key = None -> (org, actor, key) ∉ map scope_of (id_tombstones db).
Proof.
  intros Hn (t & Ht & Hin)%list_elem_of_fmap. unfold tombstone_of in Hn. apply find_none with (x := t) in Hn; [|by apply list_elem_of_In].
  apply not_true_iff_false in Hn. apply Hn, same_scope_iff. done.
Qed.

Lemma tombstone_of_some db org actor key t : tombstone_of db org actor key = Some t -> t ∈ id_tombstones db /\ scope_of t = (org, actor, key).
Proof. unfold tombstone_of. intros [Hin Hs]%find_some. split; [by apply list_elem_of_In|by apply same_scope_iff]. Qed.

Lemma unclaimed {A B} `{EqDecision B} (f : A -> B) (v : B) (l : list A) : negb (existsb (fun x => bool_decide (f x = v)) l) = true -> v ∉ map f l.
Proof.
  intros Hn (x & -> & Hin)%list_elem_of_fmap. apply negb_true_iff, not_true_iff_false in Hn. apply Hn, existsb_exists. exists x. split; [by apply list_elem_of_In|].
  by apply bool_decide_eq_true.
Qed.

Lemma nodup_snoc {A B} (f : A -> B) l x : NoDup (map f l) -> f x ∉ map f l -> NoDup (map f (l ++ [x])).
Proof. intros N Hx. rewrite map_app. apply NoDup_app. split_and!; [done| |apply NoDup_singleton]. by intros y Hy ->%list_elem_of_singleton. Qed.

Section Intake.
Context `{Crypto, SafeLib, Unicode, UnicodeUpper, HostNames}.

(** ** The invariant *)

Definition row_of_input (i : StoreInput) : Tombstone :=
  mkTombstone (stored_operation (si_Operation i) (si_AdaptationGrantID i)) (si_IdempotencyKey i) (si_CanonicalInputHash i).

(** The input came from a request that passed every check of the service. *)
Definition requested (i : StoreInput) : Prop := exists r t1 t2 t3 random, store_input r t1 t2 t3 random = Ok i.

(** The grant an operation used *)
Definition grant_used (db : idb) (i : StoreInput) : Prop :=
  si_AdaptationGrantID i <> "" -> exists row now, id_grants db !! si_AdaptationGrantID i = Some row /\
    gw_Consumed row = Some (op_OperationID (si_Operation i), now) /\ gc_Digest (gw_Record row) = si_AdaptationDigest i /\
    grant_open (sg_Grant (gc_Artifact (gw_Record row))) now = true.

Record intake_inv (db : idb) : Prop := {
  ii_rows : id_tombstones db = map (fun r => row_of_input (nt_Input r)) (id_intents db);
  ii_nonces : NoDup (map nonce_of (id_tombstones db));
  ii_ids : NoDup (map id_of (id_tombstones db));
  ii_scopes : NoDup (map scope_of (id_tombstones db));
  ii_requested : Forall (fun r => requested (nt_Input r)) (id_intents db);
  ii_grants : Forall (fun r => grant_used db (nt_Input r)) (id_intents db) }.

(** Later tables have the earlier tombstones, in front. *)
Definition extends (db db' : idb) : Prop := exists l, id_tombstones db' = id_tombstones db ++ l.

#[local] Instance extends_refl : Reflexive extends.
Proof. intros db. exists []. by rewrite app_nil_r. Qed.
#[local] Instance extends_trans : Transitive extends.
Proof. intros a b c [l Hl] [k Hk]. exists (l ++ k). by rewrite Hk, Hl, app_assoc. Qed.

Lemma extends_lookup db db' org actor key t : extends db db' -> tombstone_of db org actor key = Some t -> tombstone_of db' org actor key = Some t.
Proof.
  intros [l Hl]. unfold tombstone_of. rewrite Hl. clear. induction (id_tombstones db) as [|x ts IH]; cbn; [done|]. by destruct (same_scope org actor key x).
Qed.

(** ** One transaction *)

(** A transaction repeats an operation, or adds one and uses its grant up. *)
Lemma created db i now db' o replayed : create_rows db i now = Ok (db', (o, replayed)) ->
  (replayed = true /\ db' = db /\ exists t, tombstone_of db (op_OrganizationID (si_Operation i)) (op_ActorID (si_Operation i)) (si_IdempotencyKey i) = Some t /\
     tm_CanonicalHash t = si_CanonicalInputHash i /\ o = tm_Operation t) \/
  (replayed = false /\ o = si_Operation i /\ tombstone_ok (row_of_input i) = true /\
   scope_of (row_of_input i) ∉ map scope_of (id_tombstones db) /\ nonce_of (row_of_input i) ∉ map nonce_of (id_tombstones db) /\
   id_of (row_of_input i) ∉ map id_of (id_tombstones db) /\
   id_tombstones db' = id_tombstones db ++ [row_of_input i] /\ id_intents db' = id_intents db ++ [mkIntentRow i] /\
   ((si_AdaptationGrantID i = "" /\ id_grants db' = id_grants db) \/
    exists row, id_grants db !! si_AdaptationGrantID i = Some row /\ gw_Consumed row = None /\ gc_Digest (gw_Record row) = si_AdaptationDigest i /\
      grant_open (sg_Grant (gc_Artifact (gw_Record row))) now = true /\
      id_grants db' = <[si_AdaptationGrantID i := mkGrantRow (gw_Record row) (Some (op_OperationID (si_Operation i), now))]> (id_grants db))).
Proof.
  unfold create_rows. fold (row_of_input i). cbv zeta. rewrite check_ok_iff. intros [Hok Hc].
  destruct (tombstone_of db _ _ _) as [t|] eqn:Et.
  - rewrite check_ok_iff, bool_decide_eq_true in Hc. destruct Hc as [Hh [= <- <- <-]]. left. eauto 10.
  - rewrite !check_ok_iff in Hc. destruct Hc as (Hn & Hi & _ & _ & _ & Hc). right. apply tombstone_of_none in Et.
    apply (unclaimed nonce_of) in Hn. apply (unclaimed id_of) in Hi. case_bool_decide as Hg.
    + injection Hc as <- <- <-. cbn. split_and!; try done. by left.
    + unfold consume_grant in Hc. cbn [id_grants] in Hc. destruct (id_grants db !! si_AdaptationGrantID i) as [row|] eqn:Er; [|done].
      destruct (_ && _) eqn:E in Hc; [|done]. injection Hc as <- <- <-. rewrite !andb_true_iff, !bool_decide_eq_true in E. destruct E as [[[[E1 _] _] E4] E5].
      destruct (gw_Consumed row) eqn:Ec; [done|]. cbn. split_and!; try done. right. exists row. by split_and!.
Qed.

(** Grants only change from open to used up, by a row that was open. *)
Definition grants_kept (db db' : idb) : Prop :=
  forall id row o, id_grants db !! id = Some row -> gw_Consumed row = Some o -> id_grants db' !! id = Some row.

Lemma grant_used_kept db db' i : grants_kept db db' -> grant_used db i -> grant_used db' i.
Proof. intros Hk Hu Hne. destruct (Hu Hne) as (row & now & Hr & Hc & Hd & Ho). exists row, now. split; [by eapply Hk|done]. Qed.

Lemma created_inv db i now db' r : requested i -> create_rows db i now = Ok (db', r) -> intake_inv db -> intake_inv db' /\ extends db db'.
Proof.
  intros Hreq. destruct r as [o replayed]. intros [(_ & -> & _)|(_ & _ & _ & Hs & Hn & Hi & Ht & Hin & Hg)]%created I; [done|].
  split; [|exists [row_of_input i]; done]. destruct I as [I1 I2 I3 I4 I5 I6].
  assert (Hk : grants_kept db db').
  { intros id row x Hr Hx. destruct Hg as [[_ ->]|(row' & Hr' & Hc & _ & _ & ->)]; [done|]. rewrite lookup_insert_ne; [done|]. intros <-. congruence. }
  split; rewrite ?Ht, ?Hin.
  - rewrite map_app, I1. done.
  - by apply nodup_snoc.
  - by apply nodup_snoc.
  - by apply nodup_snoc.
  - apply Forall_app. split; [done|]. by repeat constructor.
  - apply Forall_app. split; [eapply Forall_impl; [exact I6|]; intros x; by apply grant_used_kept|]. constructor; [|constructor]. cbn [nt_Input].
    destruct Hg as [[Hg _]|(row & Hr & Hc & Hd & Ho & Hdb)]; [by intros ?|]. intros _. exists (mkGrantRow (gw_Record row) (Some (op_OperationID (si_Operation i), now))), now.
    rewrite Hdb, lookup_insert_eq. by split_and!.
Qed.

Lemma issued_inv db r : intake_inv db -> intake_inv (issue_grant db r).1 /\ extends db (issue_grant db r).1.
Proof.
  intros I. unfold issue_grant. destruct (ValidateRecord r); [|done]. destruct (by_original _ _); [done|]. destruct (_ && _) eqn:E; [|done].
  apply andb_true_iff in E as [_ E]. apply bool_decide_eq_true in E. cbn. destruct I as [I1 I2 I3 I4 I5 I6]. split; [|by exists []; rewrite app_nil_r].
  split; cbn; try done. eapply Forall_impl; [exact I6|]. intros x. apply grant_used_kept. intros id row o Hr Ho. cbn. rewrite lookup_insert_ne; [done|]. intros <-. congruence.
Qed.

Lemma tx_inv db t : intake_inv db -> intake_inv (apply_tx db t) /\ extends db (apply_tx db t).
Proof.
  intros I. destruct t as [r t1 t2 t3 random now|r]; cbn; [|by apply issued_inv]. destruct (store_input r t1 t2 t3 random) as [i|] eqn:Ei; [|done].
  unfold createOnce. destruct (create_rows db i now) as [[db' x]|] eqn:Ec; [|done]. cbn. eapply created_inv; [|done|done]. by exists r, t1, t2, t3, random.
Qed.

Lemma txs_inv ts : forall db, intake_inv db -> intake_inv (foldl apply_tx db ts) /\ extends db (foldl apply_tx db ts).
Proof.
  induction ts as [|t ts IH]; intros db I; [done|]. cbn. destruct (tx_inv db t I) as [I1 E1]. destruct (IH _ I1) as [I2 E2]. split; [done|by etrans].
Qed.

(** ** The store and the service *)

Lemma store_inv i env : requested i -> forall db, intake_inv db -> intake_inv (store_create db i env).1 /\ extends db (store_create db i env).1.
Proof.
  intros Hreq. induction env as [|e env IH]; intros db I; cbn [store_create]; [done|]. destruct (txs_inv (at_others e) db I) as [I1 E1]. destruct (at_serialization e).
  { destruct (IH _ I1) as [I2 E2]. split; [done|by etrans]. }
  assert (Hone : intake_inv (createOnce db i (at_now e) (at_commit e)).1 /\ extends db (createOnce db i (at_now e) (at_commit e)).1).
  { unfold createOnce. destruct (create_rows db i (at_now e)) as [[db' x]|] eqn:Ec; [|done]. destruct (created_inv _ _ _ _ _ Hreq Ec I). by destruct (at_commit e). }
  destruct (createOnce db i (at_now e) (at_commit e)) as [db1 [x|err]]; cbn [fst] in Hone; [done|]. destruct Hone as [I2 E2]. case_bool_decide; [|done].
  destruct (txs_inv (at_others e) db1 I2) as [I3 E3]. destruct (intake_Lookup _ _ _ _) as [[existing h]|]; (split; [done|by etrans]).
Qed.

Lemma create_inv db r t1 t2 t3 random env : intake_inv db ->
  intake_inv (intake_Create db r t1 t2 t3 random env).1 /\ extends db (intake_Create db r t1 t2 t3 random env).1.
Proof.
  intros I. unfold intake_Create. destruct (intake_Replay db r) as [[o|]|]; [done| |done]. destruct (store_input r t1 t2 t3 random) as [i|] eqn:Ei; [|done].
  assert (Hreq : requested i) by by exists r, t1, t2, t3, random. pose proof (store_inv i (take 3 env) Hreq db I) as Hs.
  destruct (store_create db i (take 3 env)) as [db' [[o b]|]]; done.
Qed.

(** ** Runs *)

Inductive iop := IopTx (t : itx) | IopGrant (sign : string -> res string) (now : time) (request : IssueRequest) | IopCreate (r : IntakeRequest) (t1 t2 t3 : time) (random : res string) (env : list attempt_env).
Definition intake_exec (db : idb) (op : iop) : idb :=
  match op with
  | IopTx t => apply_tx db t
  | IopGrant sign now request => (grants_Issue db sign now request).1
  | IopCreate r t1 t2 t3 random env => (intake_Create db r t1 t2 t3 random env).1
  end.
Definition no_intents (organizations : gset string) (agents : gset (string * string)) : idb := mkIdb organizations agents [] [] ∅.

Lemma grants_inv db sign now request : intake_inv db -> intake_inv (grants_Issue db sign now request).1 /\ extends db (grants_Issue db sign now request).1.
Proof.
  intros I. unfold grants_Issue. destruct (CanonicalIssueRequestHash request) as [h|]; [|done]. destruct (GetByOriginalIntent _ _ _ _); [done|]. destruct (negb _); [done|].
  destruct (Issuer_Issue sign now request) as [artifact|]; [|done]. destruct (DigestHex _) as [digest|]; [|done].
  pose proof (issued_inv db (mkGrantRecord artifact (iq_ReasonClass request) digest h "" false) I) as Hi. by destruct (issue_grant db _) as [db' [[record b]|]].
Qed.

Lemma run_inv ops : forall db, intake_inv db -> intake_inv (foldl intake_exec db ops) /\ extends db (foldl intake_exec db ops).
Proof.
  induction ops as [|op ops IH]; intros db I; [done|]. cbn. assert (Hone : intake_inv (intake_exec db op) /\ extends db (intake_exec db op)) by (destruct op; [by apply tx_inv|by apply grants_inv|by apply create_inv]).
  destruct Hone as [I1 E1]. destruct (IH _ I1) as [I2 E2]. split; [done|by etrans].
Qed.

Lemma no_intents_inv organizations agents : intake_inv (no_intents organizations agents).
Proof. split; cbn; (done || constructor). Qed.

Lemma reached_inv organizations agents ops : intake_inv (foldl intake_exec (no_intents organizations agents) ops).
Proof. apply run_inv, no_intents_inv. Qed.

Lemma nodup_map_eq {A B} (f : A -> B) l x y : NoDup (map f l) -> x ∈ l -> y ∈ l -> f x = f y -> x = y.
Proof.
  intros N Hx Hy E. apply list_elem_of_lookup in Hx as [i Hi]. apply list_elem_of_lookup in Hy as [j Hj].
  assert (i = j) as ->; [|congruence]. eapply NoDup_lookup; [exact N|change (map f l) with (f <$> l); rewrite list_lookup_fmap, Hi; done|].
  change (map f l) with (f <$> l). rewrite list_lookup_fmap, Hj. cbn. by rewrite E.
Qed.

(** C27: every purchase once. In any run of requests and other transactions, with failures and
    lost acknowledgements anywhere, no two operations share a quote nonce, an ID or an
    idempotency scope; every operation made with an adaptation grant used that grant up
    inside its validity; and no two operations used the same grant. *)
Theorem intake_exactly_once (organizations : gset string) (agents : gset (string * string)) (ops : list iop) :
  let db := foldl intake_exec (no_intents organizations agents) ops in
  NoDup (map nonce_of (id_tombstones db)) /\ NoDup (map id_of (id_tombstones db)) /\ NoDup (map scope_of (id_tombstones db)) /\
  id_tombstones db = map (fun r => row_of_input (nt_Input r)) (id_intents db) /\
  Forall (fun r => grant_used db (nt_Input r)) (id_intents db) /\
  forall r s, r ∈ id_intents db -> s ∈ id_intents db -> si_AdaptationGrantID (nt_Input r) <> "" ->
    si_AdaptationGrantID (nt_Input r) = si_AdaptationGrantID (nt_Input s) -> r = s.
Proof.
  intros db. destruct (reached_inv organizations agents ops) as [I1 I2 I3 I4 I5 I6]. fold db in I1, I2, I3, I4, I5, I6. split_and!; try done.
  intros r s Hr Hs Hne E. rewrite Forall_forall in I6. destruct (I6 r Hr Hne) as (row & now & Hrow & Hc & _). destruct (I6 s Hs) as (row' & now' & Hrow' & Hc' & _); [by rewrite <-E|].
  rewrite <-E, Hrow in Hrow'. injection Hrow' as <-. rewrite Hc in Hc'. injection Hc' as Hid _.
  eapply (nodup_map_eq (fun x => id_of (row_of_input (nt_Input x)))); [|done..]. rewrite I1, map_map in I3. exact I3.
Qed.

(** ** What an operation rests on *)

Lemma validated_parts q t contract terms e sig digest signer : ValidateForIntake q t contract terms e sig = Ok (digest, signer) ->
  Quote_Digest q contract = Ok digest /\ RecoverSigner q contract sig = Ok signer.
Proof.
  unfold ValidateForIntake. intros (? & _ & Hv)%try_ok_iff. rewrite !check_ok_iff in Hv. destruct Hv as (_ & _ & Hv). apply try_ok_iff in Hv as (sg & Hs & Hv).
  destruct (quote_address _); [|done]. rewrite check_ok_iff in Hv. destruct Hv as [_ Hv]. apply try_ok_iff in Hv as (d & Hd & [= <- <-]). done.
Qed.

Lemma bound_spec_ok r spec : bound_spec r = Ok spec ->
  ValidatePersisted (ir_CanonicalPurchaseSpec r) (ir_RequestBody r) = Ok spec /\ keccakHex (ir_CanonicalPurchaseSpec r) = q_PurchaseSpecHash (ir_Quote r).
Proof. unfold bound_spec. intros (s & Hs & Hb)%try_ok_iff. rewrite check_ok_iff, bool_decide_eq_true in Hb. by destruct Hb as [Hb [= <-]]. Qed.

Lemma store_input_parts r t1 t2 t3 random i : store_input r t1 t2 t3 random = Ok i ->
  exists spec digest quoteHash signer id, bound_spec r = Ok spec /\ validateAdaptation r spec (Some t1) = Ok digest /\
    ValidateForIntake (ir_Quote r) t2 (ir_DirectoryContract r) (ir_Expected r) (ir_Evidence r) (ir_Signature r) = Ok (quoteHash, signer) /\
    i = mkStoreInput (mkOperation id (ir_OrganizationID r) (ir_ActorID r) (hex_hash quoteHash) (q_PurchaseSpecHash (ir_Quote r)) (q_QuoteNonce (ir_Quote r))
          (q_DirectoryVersion (ir_Quote r)) (ir_DirectoryContract r) (hex_hash signer) (adaptationGrantID (ir_Adaptation r)) (Unix t3) false)
        (ir_IdempotencyKey r) (canonicalInputHash r (ir_DirectoryContract r) (hex_hash quoteHash) (hex_hash signer) digest) (ir_Quote r)
        (ir_CanonicalPurchaseSpec r) (ir_RequestBody r) (adaptationGrantID (ir_Adaptation r)) digest.
Proof.
  unfold store_input. intros (spec & Hs & Hc)%try_ok_iff. apply try_ok_iff in Hc as (digest & Hd & Hc). destruct (ValidateForIntake _ _ _ _ _ _) as [[quoteHash signer]|] eqn:Ev; [|done].
  apply try_ok_iff in Hc as (id & _ & [= <-]). exists spec, digest, quoteHash, signer, id. done.
Qed.

(** What was checked before an operation was created *)
Definition operation_checked (i : StoreInput) : Prop :=
  exists spec t contract terms evidence signature quoteHash signer,
    ValidatePersisted (si_PurchaseSpecJSON i) (si_RequestBody i) = Ok spec /\ keccakHex (si_PurchaseSpecJSON i) = op_PurchaseSpecHash (si_Operation i) /\
    q_PurchaseSpecHash (si_Quote i) = op_PurchaseSpecHash (si_Operation i) /\ q_QuoteNonce (si_Quote i) = op_QuoteNonce (si_Operation i) /\
    ValidateForIntake (si_Quote i) t contract terms evidence signature = Ok (quoteHash, signer) /\ contract = op_DirectoryContract (si_Operation i) /\
    hex_hash quoteHash = op_QuoteHash (si_Operation i) /\ hex_hash signer = op_SellerSigner (si_Operation i) /\
    (si_AdaptationGrantID i <> "" -> exists grant t1, gr_GrantID grant = si_AdaptationGrantID i /\ DigestHex grant = Ok (si_AdaptationDigest i) /\ Unix t1 < gr_ExpiresAt grant /\
       within_terms grant
         (mkUse (op_OrganizationID (si_Operation i)) (op_ActorID (si_Operation i)) (ps_TaskID spec) (ps_Category spec) (q_AmountBaseUnits (si_Quote i)) (q_SellerID (si_Quote i)))).

Lemma requested_checked i : requested i -> operation_checked i.
Proof.
  intros (r & t1 & t2 & t3 & random & (spec & digest & quoteHash & signer & id & Hs & Hd & Hv & ->)%store_input_parts). apply bound_spec_ok in Hs as [Hp Hk].
  exists spec, t2, (ir_DirectoryContract r), (ir_Expected r), (ir_Evidence r), (ir_Signature r), quoteHash, signer. cbn. split_and!; try done.
  unfold adaptationGrantID, validateAdaptation in *. destruct (ir_Adaptation r) as [signed|]; [|done]. intros _. apply try_ok_iff in Hd as ([] & Hg & Hd).
  exists (sg_Grant signed), t1. apply verified_grant in Hg as (_ & Hw & Ht & _). done.
Qed.

(** C28: what an operation rests on. In any run, every operation stores a purchase specification
    that validates with its body and is the one its quote is for; the quote passed intake
    under the recorded contract with the recorded signer; and a grant that was used is for
    this agent, task and category, has the seller in its set and allows the amount. *)
Theorem intake_operations_checked (organizations : gset string) (agents : gset (string * string)) (ops : list iop) :
  Forall (fun r => operation_checked (nt_Input r)) (id_intents (foldl intake_exec (no_intents organizations agents) ops)).
Proof. eapply Forall_impl; [apply ii_requested, reached_inv|]. intros r. apply requested_checked. Qed.

(** ** Repeating a request *)

Lemma verify_without_time signed signer t u : grant_verify signed signer (Some t) u = Ok tt -> grant_verify signed signer None u = Ok tt.
Proof.
  unfold grant_verify. rewrite !check_ok_iff. intros [H1' Hv]. split; [done|]. destruct (grant_Digest _) as [d|]; [|done]. destruct (decodeSignature _) as [s|]; [|done].
  destruct (ecdsa_recover d s); [|done]. rewrite !check_ok_iff in *. tauto.
Qed.

Lemma adaptation_without_time r spec t digest : validateAdaptation r spec (Some t) = Ok digest -> validateAdaptation r spec None = Ok digest.
Proof.
  unfold validateAdaptation. destruct (ir_Adaptation r) as [signed|]; [|done]. rewrite !try_ok_iff. intros ([] & Hv & Hd). exists tt. split; [by eapply verify_without_time|done].
Qed.

(** The request [r] is answered by the tombstone [t]. *)
Definition answers (db : idb) (r : IntakeRequest) (t : Tombstone) : Prop :=
  validateScope r = Ok tt /\ tombstone_of db (ir_OrganizationID r) (ir_ActorID r) (ir_IdempotencyKey r) = Some t /\
  exists spec quoteHash signer digest, bound_spec r = Ok spec /\ Quote_Digest (ir_Quote r) (op_DirectoryContract (tm_Operation t)) = Ok quoteHash /\
    RecoverSigner (ir_Quote r) (op_DirectoryContract (tm_Operation t)) (ir_Signature r) = Ok signer /\ validateAdaptation r spec None = Ok digest /\
    tm_CanonicalHash t = canonicalInputHash r (op_DirectoryContract (tm_Operation t)) (hex_hash quoteHash) (hex_hash signer) digest.

Lemma answers_later db db' r t : extends db db' -> answers db r t -> answers db' r t.
Proof. intros E (Hs & Ht & Hr). split_and!; [done|by eapply extends_lookup|done]. Qed.

Lemma answers_replay db r t : answers db r t <-> intake_Replay db r = Ok (Some (as_replayed (tm_Operation t) true)) /\
  tombstone_of db (ir_OrganizationID r) (ir_ActorID r) (ir_IdempotencyKey r) = Some t.
Proof.
  unfold answers, intake_Replay, intake_Lookup. split.
  - intros (-> & Ht & spec & qh & sg & dg & Hb & Hq & Hs & Hd & Hh). rewrite Ht, Hb. cbv zeta beta iota. rewrite Hq, Hs, Hd, Hh. by rewrite bool_decide_eq_true_2.
  - intros [(x & Hs & Hr)%try_ok_iff Ht]. destruct x. split_and!; [done..|]. rewrite Ht in Hr. cbv zeta in Hr. apply try_ok_iff in Hr as (spec & Hb & Hr).
    apply try_ok_iff in Hr as (qh & Hq & Hr). apply try_ok_iff in Hr as (sg & Hsg & Hr). apply try_ok_iff in Hr as (dg & Hd & Hr). rewrite check_ok_iff in Hr.
    destruct Hr as [Hh _]. apply bool_decide_eq_true in Hh. exists spec, qh, sg, dg. done.
Qed.

Lemma replay_some db r o : intake_Replay db r = Ok (Some o) -> exists t, answers db r t /\ o = as_replayed (tm_Operation t) true.
Proof.
  intros Hr. destruct (tombstone_of db (ir_OrganizationID r) (ir_ActorID r) (ir_IdempotencyKey r)) as [t|] eqn:Et.
  - assert (o = as_replayed (tm_Operation t) true) as ->.
    { unfold intake_Replay, intake_Lookup in Hr. rewrite Et in Hr. apply try_ok_iff in Hr as (? & _ & Hr). cbv zeta in Hr. apply try_ok_iff in Hr as (? & _ & Hr).
      apply try_ok_iff in Hr as (? & _ & Hr). apply try_ok_iff in Hr as (? & _ & Hr). apply try_ok_iff in Hr as (? & _ & Hr). rewrite check_ok_iff in Hr. by destruct Hr as [_ [= <-]]. }
    exists t. split; [|done]. by apply answers_replay.
  - unfold intake_Replay, intake_Lookup in Hr. rewrite Et in Hr. apply try_ok_iff in Hr as (? & _ & Hr). done.
Qed.

Lemma tombstone_of_snoc db ts t : id_tombstones db = ts ++ [t] -> scope_of t ∉ map scope_of ts ->
  tombstone_of db (op_OrganizationID (tm_Operation t)) (op_ActorID (tm_Operation t)) (tm_IdempotencyKey t) = Some t.
Proof.
  intros Hd Hn. unfold tombstone_of. rewrite Hd. clear Hd. induction ts as [|x ts IH]; cbn.
  - assert (same_scope (op_OrganizationID (tm_Operation t)) (op_ActorID (tm_Operation t)) (tm_IdempotencyKey t) t = true) as -> by by apply same_scope_iff. done.
  - destruct (same_scope _ _ _ x) eqn:E; [|apply IH; intros ?; apply Hn; by right]. exfalso. apply Hn. apply same_scope_iff in E.
    cbn [map]. apply elem_of_cons. left. exact (eq_sym E).
Qed.

(** *** Equal input hashes, equal contracts *)

Lemma contract_utf8 q c d : Quote_Digest q c = Ok d -> valid_utf8 c = true.
Proof.
  unfold Quote_Digest, DomainSeparator. intros (? & _ & Hd)%try_ok_iff. apply try_ok_iff in Hd as (? & Hd & _). apply try_ok_iff in Hd as (? & _ & Hd). apply try_ok_iff in Hd as (? & Hd & _).
  unfold quote_address in Hd. rewrite check_ok_iff in Hd. destruct Hd as [Hd _]. by eapply hex_pattern_utf8.
Qed.

Lemma input_contract r r' c c' qh qh' s s' d d' : ir_OrganizationID r = ir_OrganizationID r' -> ir_ActorID r = ir_ActorID r' -> ir_IdempotencyKey r = ir_IdempotencyKey r' ->
  valid_utf8 c = true -> valid_utf8 c' = true -> input_json r c qh s d = input_json r' c' qh' s' d' -> c = c'.
Proof.
  intros E1 E2 E3 V V' E. unfold input_json in E. rewrite E1, E2, E3 in E. json_peel_name E. apply str_app_inv_head in E.
  do 4 (json_peel_name E; apply str_app_inv_head in E). json_peel_name E. by apply json_string_inj in E as [-> _].
Qed.

Lemma hash_contract r r' c c' qh qh' s s' d d' : ir_OrganizationID r = ir_OrganizationID r' -> ir_ActorID r = ir_ActorID r' -> ir_IdempotencyKey r = ir_IdempotencyKey r' ->
  valid_utf8 c = true -> valid_utf8 c' = true -> canonicalInputHash r c qh s d = canonicalInputHash r' c' qh' s' d' -> sha256_broken \/ c = c'.
Proof.
  intros E1 E2 E3 V V' E%hex_encode_inj. destruct (decide (input_json r c qh s d = input_json r' c' qh' s' d')) as [Hj|Hj]; [right; by eapply input_contract|].
  left. by exists (input_json r c qh s d), (input_json r' c' qh' s' d').
Qed.

(** A tombstone in the scope of a request that has its input hash answers it. *)
Lemma same_hash_answers db r t1 t2 t3 random i t : intake_inv db -> validateScope r = Ok tt -> store_input r t1 t2 t3 random = Ok i ->
  tombstone_of db (ir_OrganizationID r) (ir_ActorID r) (ir_IdempotencyKey r) = Some t -> tm_CanonicalHash t = si_CanonicalInputHash i -> sha256_broken \/ answers db r t.
Proof.
  intros I Hsc Hi Ht Hh. pose proof Hi as (spec & dg & qh & sg & id & Hb & Hd & Hv & Ei)%store_input_parts. subst i. cbn [si_CanonicalInputHash] in Hh.
  pose proof (validated_parts _ _ _ _ _ _ _ _ Hv) as [Hq Hs]. pose proof (tombstone_of_some _ _ _ _ _ Ht) as [Hin Hscope]. rewrite (ii_rows _ I) in Hin.
  apply list_elem_of_fmap in Hin as (row & -> & Hin). pose proof (ii_requested _ I) as HF. rewrite Forall_forall in HF. destruct (HF row Hin) as (r' & t1' & t2' & t3' & random' & Hi').
  apply store_input_parts in Hi' as (spec' & dg' & qh' & sg' & id' & _ & _ & Hv' & Ei'). rewrite Ei' in Hh, Hscope |- *. cbn in Hh, Hscope. injection Hscope as Ho Ha Hk.
  pose proof (validated_parts _ _ _ _ _ _ _ _ Hv') as [Hq' _]. rewrite Ei' in Ht. destruct (hash_contract r' r _ _ _ _ _ _ _ _ Ho Ha Hk (contract_utf8 _ _ _ Hq') (contract_utf8 _ _ _ Hq) Hh) as [?|Hc];
    [by left|right]. unfold answers. cbn [tm_Operation row_of_input stored_operation op_DirectoryContract tm_CanonicalHash si_Operation si_CanonicalInputHash] in *. rewrite Hc in Ht, Hh |- *.
  split_and!; [done..|]. exists spec, qh, sg, dg. split_and!; [done..|by eapply adaptation_without_time|]. cbn. by rewrite Hh.
Qed.

Lemma as_replayed_stored o g b c : op_AdaptationGrantID o = g -> as_replayed (as_replayed o b) c = as_replayed (stored_operation o g) c.
Proof. by intros <-. Qed.

Lemma as_replayed_twice o b c : as_replayed (as_replayed o b) c = as_replayed o c.
Proof. done. Qed.

(** *** What the store returns is answered from then on *)

Lemma store_answers r t1 t2 t3 random i env : validateScope r = Ok tt -> store_input r t1 t2 t3 random = Ok i -> forall db db' o b, intake_inv db ->
  store_create db i env = (db', Ok (o, b)) -> sha256_broken \/ exists t, answers db' r t /\ as_replayed o true = as_replayed (tm_Operation t) true.
Proof.
  intros Hsc Hi. assert (Hreq : requested i) by by exists r, t1, t2, t3, random.
  pose proof Hi as (spec & dg & qh & sg & id & Hb & Hd & Hv & Ei)%store_input_parts. pose proof (validated_parts _ _ _ _ _ _ _ _ Hv) as [Hq Hs].
  assert (Hscope : op_OrganizationID (si_Operation i) = ir_OrganizationID r /\ op_ActorID (si_Operation i) = ir_ActorID r /\ si_IdempotencyKey i = ir_IdempotencyKey r) by (by rewrite Ei).
  destruct Hscope as (So & Sa & Sk).
  induction env as [|e env IH]; intros db db' o b I; cbn [store_create]; [done|]. destruct (txs_inv (at_others e) db I) as [I1 _]. destruct (at_serialization e); [by apply IH|].
  unfold createOnce. destruct (create_rows db i (at_now e)) as [[dbc [oc bc]]|err] eqn:Ec.
  - destruct (created_inv _ _ _ _ _ Hreq Ec I) as [Ic _]. destruct (at_commit e); [|done|done]. intros [= <- <- <-].
    apply created in Ec as [(_ & -> & t & Ht & Hh & ->)|(_ & -> & _ & Hsn & _ & _ & Hts & _)].
    + rewrite So, Sa, Sk in Ht. destruct (same_hash_answers db r t1 t2 t3 random i t I Hsc Hi Ht Hh) as [?|Ha]; [by left|right; eauto].
    + right. exists (row_of_input i). split; [|by rewrite Ei]. pose proof (tombstone_of_snoc dbc _ _ Hts Hsn) as Ht. rewrite Ei in Ht |- *. cbn in Ht.
      split_and!; [done..|]. exists spec, qh, sg, dg. cbn. split_and!; [done..|by eapply adaptation_without_time|done].
  - case_bool_decide; [|done]. destruct (txs_inv (at_others e) db I) as [I2 _]. unfold intake_Lookup. rewrite So, Sa, Sk.
    destruct (tombstone_of (foldl apply_tx db (at_others e)) _ _ _) as [t|] eqn:Et; [|done]. destruct (bool_decide (tm_CanonicalHash t = si_CanonicalInputHash i)) eqn:Eh; [|done].
    apply bool_decide_eq_true in Eh. intros [= <- <- <-]. destruct (same_hash_answers _ r t1 t2 t3 random i t I2 Hsc Hi Et Eh) as [?|Ha]; [by left|right; eauto].
Qed.

(** C29: repeating a request. Once a request has succeeded, in any run before and after, it is
    answered with the same operation, marked as a replay, and changes nothing: whenever it is
    repeated, whether or not the quote and the grant have expired; or SHA-256 is broken. *)
Theorem intake_replay_stable (organizations : gset string) (agents : gset (string * string)) (before after : list iop) (r : IntakeRequest) (t1 t2 t3 t1' t2' t3' : time)
    (random random' : res string) (env env' : list attempt_env) (db1 : idb) (o : Operation) :
  intake_Create (foldl intake_exec (no_intents organizations agents) before) r t1 t2 t3 random env = (db1, Ok o) ->
  let db2 := foldl intake_exec db1 after in
  sha256_broken \/ intake_Create db2 r t1' t2' t3' random' env' = (db2, Ok (as_replayed o true)).
Proof.
  intros Hc db2. pose proof (reached_inv organizations agents before) as I. set (db := foldl intake_exec (no_intents organizations agents) before) in *.
  pose proof (create_inv db r t1 t2 t3 random env I) as [I1 _]. rewrite Hc in I1. cbn in I1.
  assert (Ha : sha256_broken \/ exists t, answers db1 r t /\ as_replayed o true = as_replayed (tm_Operation t) true).
  { unfold intake_Create in Hc. destruct (intake_Replay db r) as [[x|]|] eqn:Er; [|destruct (store_input r t1 t2 t3 random) as [i|] eqn:Ei; [|done]|done].
    - injection Hc as <- <-. apply replay_some in Er as (t & Ha & ->). right. exists t. by rewrite as_replayed_twice.
    - assert (Hsc : validateScope r = Ok tt) by (unfold intake_Replay in Er; by apply try_ok_iff in Er as ([] & ? & _)).
      destruct (store_create db i (take 3 env)) as [db' [[x b]|]] eqn:Es; [|done]. injection Hc as <- <-. rewrite as_replayed_twice.
      by apply (store_answers r t1 t2 t3 random i (take 3 env) Hsc Ei db db' x b I). }
  destruct Ha as [?|(t & Ha & Ho)]; [by left|right]. destruct (run_inv after db1 I1) as [_ E]. fold db2 in E. apply (answers_later _ _ _ _ E), answers_replay in Ha as [Hr _].
  unfold intake_Create. by rewrite Hr, Ho.
Qed.
End Intake.
