(* ===== verification/IntakeDemo.v ===== *)
(** * Intake at work

    A purchase, a grant after its rejection, the purchase made with the grant, what is refused
    after that, and what is repeated; a grant whose lifetime overflows; and the witness of the
    theorem on replays. *)
From stdpp Require Import base gmap strings list sorting.
From Stdlib Require Import ZArith Lia Ascii.
From S2P Require Import Prelude GoText GoJSON Crypto Envelope SafeTx SellerQuote EventTheorems Url PurchaseSpec PurchaseDemo Adaptation Intake IntakeTheorems.

Open Scope Z_scope.
#[local] Existing Instance ToyCrypto.
#[local] Existing Instance ToyUnicode.
#[local] Existing Instance ToyUpper.
#[local] Existing Instance ToyHosts.

(** Signatures that carry the address of their signer. *)
#[local] Instance CarriedSigner : SafeLib := {|
  ecdsa_recover _ sig := Ok (String.substring 0 20 sig); ecdsa_values _ _ _ := true; exec_pack _ _ _ := ""; exec_unpack _ := None |}.

Definition stored_text : string := canonicalJSONFor (demo_spec (Some []) "https://shop.example/q").
Definition quote_for (nonce : string) : Quote :=
  mkQuote (keccakHex stored_text) (demo_hash "1") (demo_hash "2") 1 1 "84532" demo_asset "250" demo_provider demo_buyer (demo_hash "7") 60 120 2000 (demo_hash nonce).
Definition evidence_for : DirectoryEvidence :=
  mkDirectoryEvidence true 1 (demo_hash "1") (demo_hash "2") demo_asset 1 demo_provider demo_buyer "250" (demo_hash "7") 60 120 true false.
Definition request_for (key nonce : string) (grant : option SignedGrant) : IntakeRequest :=
  mkIntakeRequest "acme" "agent-7" key demo_contract (quote_for nonce) ("0x" +:+ str_repeat "a" 40 +:+ str_repeat "0" 90)
    (mkExpectedTerms (keccakHex stored_text) 1 "84532" demo_asset) evidence_for stored_text "{}" grant demo_buyer.

Definition quiet : list attempt_env := replicate 3 (mkAttemptEnv false (time_of_unix 1500) Committed []).
Definition purchase (key nonce random : string) (grant : option SignedGrant) (at_ : Z) (db : idb) : idb * res Operation :=
  intake_Create db (request_for key nonce grant) (time_of_unix at_) (time_of_unix at_) (time_of_unix at_) (Ok (str_repeat random 32)) quiet.
Definition result_of (r : res Operation) : string * bool := match r with Ok o => (op_OperationID o, op_Replayed o) | Err e => (e, false) end.
Definition operation_named (c : string) : string := hex_hash (str_repeat c 32).

(** ** A purchase, its grant and the next *)

Definition demo_issue : IssueRequest :=
  mkIssueRequest ReasonTooExpensive (operation_named "p") "acme" "agent-7" "task-1" " Data" "300" [demo_hash "4"; demo_hash "1"] 1400.
Definition demo_sign (digest : string) : res string := Ok (str_repeat (String (char_of 187) "") 20 +:+ str_repeat (String (char_of 0) "") 45).
Definition no_grant : SignedGrant := mkSignedGrant (mkGrant "" "" "" "" "" "" "" "" [] 0 0 0) "".
Definition demo_grant : SignedGrant := match Issuer_Issue demo_sign (time_of_unix 1450) demo_issue with Ok s => s | Err _ => no_grant end.

Definition start : idb := no_intents {["acme"]} {[("acme", "agent-7")]}.
Definition bought : idb * res Operation := purchase "key-1" "c" "p" None 1000 start.
Definition granted : idb := (grants_Issue bought.1 demo_sign (time_of_unix 1450) demo_issue).1.
Definition again : idb * res Operation := purchase "key-2" "d" "q" (Some demo_grant) 1460 granted.

Example purchases :
  result_of bought.2 = (operation_named "p", false) /\ result_of again.2 = (operation_named "q", false) /\
  result_of (purchase "key-3" "f" "r" (Some demo_grant) 1470 again.1).2 = (ErrGrantConsumed, false) /\
  result_of (purchase "key-3" "c" "r" None 1470 again.1).2 = (ErrQuoteNonceConsumed, false) /\
  result_of (purchase "key-1" "f" "r" None 1470 again.1).2 = (ErrIntakeConflict, false) /\
  result_of (purchase "key-1" "c" "r" None 99999 again.1).2 = (operation_named "p", true) /\
  result_of (purchase "key-4" "f" "r" None 99999 again.1).2 = (ErrQuoteExpired, false).
Proof. vm_compute. by split_and!. Qed.

(** The lifetime of a grant is compared after it was multiplied out in 64 bits: one of more
    than five hundred years validates. The table's own constraint refuses it. *)
Example grant_lifetime_overflows :
  let g := sg_Grant demo_grant in
  let long := mkGrant (gr_Protocol g) (gr_GrantID g) (gr_OriginalIntentID g) (gr_OrganizationID g) (gr_AgentID g) (gr_TaskID g) (gr_AllowedCategory g) (gr_MaxAmountAtomic g)
    (gr_AllowedSellerSet g) 1 1400 (1400 + 18446744074) in
  grant_Validate long = Ok tt /\
  grant_row_ok bought.1 (mkGrantRecord (mkSignedGrant long (sg_Signature demo_grant)) ReasonTooExpensive (demo_hash "1") (demo_hash "1") "" false) = false.
Proof. vm_compute. by split. Qed.

(** ** The theorem on replays *)

#[local] Notation demo_request := (request_for "key-1" "c" None).
#[local] Notation demo_start := (foldl intake_exec (no_intents {["acme"]} {[("acme", "agent-7")]}) []).
#[local] Notation early := (time_of_unix 1000).
#[local] Notation late := (time_of_unix 99999).

Definition succeeded (x : idb * res Operation) : bool := is_ok x.2.
Lemma first_succeeds : succeeded (intake_Create demo_start demo_request early early early (Ok (str_repeat "p" 32)) quiet) = true.
Proof. vm_compute. reflexivity. Qed.

Lemma succeeded_ok x : succeeded x = true -> exists db o, x = (db, Ok o).
Proof. destruct x as [db [o|]]; [eauto|done]. Qed.

Lemma intake_replay_stable_witness :
  exists db o, intake_Create demo_start demo_request early early early (Ok (str_repeat "p" 32)) quiet = (db, Ok o) /\
    (sha256_broken \/ intake_Create (foldl intake_exec db []) demo_request late late late (Ok (str_repeat "z" 32)) quiet = (foldl intake_exec db [], Ok (as_replayed o true))).
Proof.
  destruct (succeeded_ok _ first_succeeds) as (db & o & E). exists db, o. split; [exact E|].
  exact (intake_replay_stable {["acme"]} {[("acme", "agent-7")]} [] [] demo_request early early early late late late (Ok (str_repeat "p" 32)) (Ok (str_repeat "z" 32)) quiet quiet db o E).
Defined.
