(* ===== verification/TxRetry.v ===== *)
(** * Serializable transactions with retries

    The PostgreSQL stores of the control plane run one serializable transaction per call
    and repeat it at most three times when the database answers with a serialization
    failure. A transaction is a function of the tables it sees; it commits as a whole or
    not at all, and a failed commit may hide one that was done. Other clients commit
    between two attempts. *)
From stdpp Require Import base list strings.
From S2P Require Import Prelude Intake.

Section Retry.
Context {DB T : Type} (apply : DB -> T -> DB).

Record tx_env := mkTxEnv { te_serialization : bool; te_commit : commit_outcome; te_others : list T }.

(** The answer of the database to a transaction that ran to its end *)
Definition commit_tx {A} (db : DB) (body : res (DB * A)) (commit : commit_outcome) : DB * res A :=
  match body with
  | Err e => (db, Err e)
  | Ok (db', a) =>
      match commit with
      | Committed => (db', Ok a)
      | NotCommitted => (db, Err "commit transaction")
      | CommittedUnknown => (db', Err "commit transaction")
      end
  end.

Fixpoint retry_tx {A} (exhausted : error) (body : DB -> res (DB * A)) (env : list tx_env) (db : DB) : DB * res A :=
  match env with
  | [] => (db, Err exhausted)
  | e :: env =>
      if te_serialization e then retry_tx exhausted body env (foldl apply db (te_others e))
      else commit_tx db (body db) (te_commit e)
  end.

(** A call is a run of transactions: those of others, and its own at most once. *)
Lemma retry_tx_run {A} exhausted (body : DB -> res (DB * A)) env (t : T) :
  (forall db db' a, body db = Ok (db', a) -> db' = apply db t) ->
  forall db, exists ts, (retry_tx exhausted body env db).1 = foldl apply db ts.
Proof.
  intros Hbody. induction env as [|e env IH]; intros db; cbn [retry_tx]; [by exists []|].
  destruct (te_serialization e).
  { destruct (IH (foldl apply db (te_others e))) as [ts ->]. exists (te_others e ++ ts). by rewrite foldl_app. }
  unfold commit_tx. destruct (body db) as [[db' a]|m] eqn:E; [|by exists []]. apply Hbody in E as ->.
  destruct (te_commit e); [by exists [t]|by exists []|by exists [t]].
Qed.

(** A successful call took effect once, in the tables the others left. *)
Lemma retry_tx_ok {A} exhausted (body : DB -> res (DB * A)) env : forall db db' a,
  retry_tx exhausted body env db = (db', Ok a) ->
  exists ts, body (foldl apply db ts) = Ok (db', a).
Proof.
  induction env as [|e env IH]; intros db db' a; cbn [retry_tx]; [done|].
  destruct (te_serialization e).
  { intros [ts Hts]%IH. exists (te_others e ++ ts). by rewrite foldl_app. }
  unfold commit_tx. destruct (body db) as [[d x]|m] eqn:E; [|done].
  destruct (te_commit e); intros [= <- <-]; by exists [].
Qed.
End Retry.
Arguments tx_env : clear implicits.
Arguments mkTxEnv {T} _ _ _.
