(* ===== verification/Settlement.v ===== *)
(** * Settlement and its accounting ([internal/ascpsettlement])

    A payment operation starts when a spend authorization is activated. A keeper names the
    transactions of its lock and of its release or refund; their outcome is only what a
    quorum of independent observers reports, sealed by the reader. Each result is applied in
    one transaction together with the reservation, the bearer, the attempt and the balanced
    postings. The tables are those of migrations 0012, 0030 (the trigger that gives capacity
    back) and 0034. *)
From stdpp Require Import base gmap strings list sorting.
From Stdlib Require Import ZArith Lia Ascii.
From S2P Require Import Prelude GoText GoJSON Amounts Crypto Envelope GovAction Reservation Recon DirectoryReader Intake TxRetry.

Open Scope Z_scope.

(** ** Data *)

Inductive ReceiptAction := ASCPReceiptLock | ASCPReceiptRelease | ASCPReceiptRefund | OtherAction (text : string).
#[export] Instance ReceiptAction_eq_dec : EqDecision ReceiptAction.
Proof. solve_decision. Defined.

Inductive OperationState :=
  AuthSigned | LockSubmitted | LockedSafe | LockedFinalized | ReleasedFinalized | RefundedFinalized | OpReorgedBack | PendingChainRecovery | OpQuarantined.
#[export] Instance OperationState_eq_dec : EqDecision OperationState.
Proof. solve_decision. Defined.

Inductive PaymentAttemptState := AttemptSubmitted | AttemptSafe | AttemptFinalized | AttemptReverted | AttemptReorged.
#[export] Instance PaymentAttemptState_eq_dec : EqDecision PaymentAttemptState.
Proof. solve_decision. Defined.

Inductive Finality := Safe | Finalized.
#[export] Instance Finality_eq_dec : EqDecision Finality.
Proof. solve_decision. Defined.

(** The finality column of an observation *)
Inductive Stage := StageOf (f : Finality) | StageReorged.
#[export] Instance Stage_eq_dec : EqDecision Stage.
Proof. solve_decision. Defined.

Definition ErrInvalidAttempt : error := "invalid ASCP payment attempt".
Definition ErrSettlementNotFound : error := "ASCP payment operation not found".
Definition ErrStateConflict : error := "ASCP payment operation state conflict".
Definition ErrReceiptQuorum : error := "ASCP receipt quorum unavailable".
Definition ErrReceiptDisagreement : error := "ASCP receipt observers disagree".
Definition ErrUnsafeFinality : error := "ASCP receipt has insufficient finality".
Definition ErrInvalidResult : error := "invalid sealed ASCP receipt result".
Definition ErrInvalidReorgResult : error := "invalid sealed ASCP reorg result".
Definition settlementRecordDelay : duration := Minute.

Record AttemptInput := mkAttemptInput {
  ai_OperationID : string; ai_Action : ReceiptAction; ai_TransactionHash : string; ai_DeliveryHash : string; ai_EvidenceHash : string }.
#[export] Instance AttemptInput_eq_dec : EqDecision AttemptInput.
Proof. solve_decision. Defined.

(** Times that are not set are the zero time. *)
Record PaymentAttempt := mkPaymentAttempt {
  pa_Input : AttemptInput; pa_State : PaymentAttemptState; pa_RegisteredAt : time; pa_ResolvedAt : time; pa_BlockNumber : Z; pa_BlockHash : string;
  pa_EvidenceDigest : string; pa_CanonicalCheckedAt : time }.

Record PaymentOperation := mkPaymentOperation {
  po_OperationID : string; po_OrganizationID : string; po_AgentID : string; po_AuthorizationID : string; po_ReservationID : string; po_BearerDigest : string;
  po_CommitmentHash : string; po_CallID : string; po_ChainID : Z; po_EscrowContract : string; po_Asset : string; po_Buyer : string; po_PayTo : string;
  po_AmountBaseUnits : string; po_SettleBy : time; po_State : OperationState; po_LockedTransactionHash : string; po_LockedBlockNumber : Z;
  po_LockedBlockHash : string; po_TerminalAction : string; po_TerminalTransactionHash : string; po_TerminalBlockNumber : Z; po_TerminalBlockHash : string;
  po_CreatedAt : time; po_UpdatedAt : time }.

Record ExpectedReceipt := mkExpectedReceipt {
  er_Action : ReceiptAction; er_TransactionHash : string; er_ChainID : Z; er_Contract : string; er_Asset : string; er_CallID : string; er_OperationID : string;
  er_CommitmentHash : string; er_Buyer : string; er_PayTo : string; er_AmountAtomic : string; er_SettleBy : Z; er_DeliveryHash : string; er_EvidenceHash : string }.
#[export] Instance ExpectedReceipt_eq_dec : EqDecision ExpectedReceipt.
Proof. solve_decision. Defined.

Record ASCPReceiptEvidence := mkASCPReceiptEvidence {
  ae_Provider : string; ae_Action : ReceiptAction; ae_ChainID : Z; ae_TransactionHash : string; ae_BlockNumber : Z; ae_BlockHash : string; ae_ConfirmedHead : Z;
  ae_Success : bool; ae_CallID : string; ae_OperationID : string }.

Record SettleResult := mkSettleResult {
  sr_Expected : ExpectedReceipt; sr_Finality : Finality; sr_Success : bool; sr_BlockNumber : Z; sr_BlockHash : string; sr_ConfirmedHead : Z;
  sr_Providers : list string; sr_EvidenceDigest : string; sr_ObservedAt : time; sr_verified : bool; sr_seal : string }.

Record SettleReorg := mkSettleReorg {
  sg_OperationID : string; sg_Action : ReceiptAction; sg_TransactionHash : string; sg_BlockNumber : Z; sg_OriginalBlockHash : string;
  sg_CanonicalBlockHash : string; sg_ObservedHead : Z; sg_Providers : list string; sg_EvidenceDigest : string; sg_ObservedAt : time; sg_Reorged : bool;
  sg_verified : bool; sg_seal : string }.

Definition action_text (a : ReceiptAction) : string :=
  match a with ASCPReceiptLock => "LOCK" | ASCPReceiptRelease => "RELEASE" | ASCPReceiptRefund => "REFUND" | OtherAction s => s end.
Definition finality_text (f : Finality) : string := match f with Safe => "SAFE" | Finalized => "FINALIZED" end.
Definition known_action (a : ReceiptAction) : bool := match a with OtherAction _ => false | _ => true end.

Definition settle_hash (v : string) : bool := gov_hash v false.

Definition ExpectedReceipt_Validate (e : ExpectedReceipt) : res unit :=
  check known_action (er_Action e) && ((er_ChainID e =? 8453) || (er_ChainID e =? 84532)) && hash_pattern (er_TransactionHash e) && settle_hash (er_CallID e) &&
        settle_hash (er_OperationID e) && settle_hash (er_CommitmentHash e) && address_pattern (er_Contract e) && address_pattern (er_Asset e) &&
        address_pattern (er_Buyer e) && address_pattern (er_PayTo e) && negb (er_SettleBy e =? 0) else "expected ASCP receipt is invalid" ;;
  try _ := positiveInteger (er_AmountAtomic e) in
  if bool_decide (er_Action e = ASCPReceiptRelease)
  then check settle_hash (er_DeliveryHash e) && settle_hash (er_EvidenceHash e) else "ASCP release requires delivery and evidence hashes" ;; Ok tt
  else check bool_decide (er_DeliveryHash e = "") && bool_decide (er_EvidenceHash e = "") else "ASCP non-release receipt contains release-only fields" ;; Ok tt.

Definition validAttemptInput (i : AttemptInput) : bool :=
  settle_hash (ai_OperationID i) && settle_hash (ai_TransactionHash i) &&
  match ai_Action i with
  | ASCPReceiptRelease => settle_hash (ai_DeliveryHash i) && settle_hash (ai_EvidenceHash i)
  | ASCPReceiptLock | ASCPReceiptRefund => bool_decide (ai_DeliveryHash i = "") && bool_decide (ai_EvidenceHash i = "")
  | OtherAction _ => false
  end.

Definition expectedReceipt (o : PaymentOperation) (a : PaymentAttempt) : ExpectedReceipt :=
  let i := pa_Input a in
  mkExpectedReceipt (ai_Action i) (ai_TransactionHash i) (po_ChainID o) (po_EscrowContract o) (po_Asset o) (po_CallID o) (po_OperationID o)
    (po_CommitmentHash o) (po_Buyer o) (po_PayTo o) (po_AmountBaseUnits o) (uint64 (Unix (po_SettleBy o))) (ai_DeliveryHash i) (ai_EvidenceHash i).

(** ** The reader *)

Definition json_ExpectedReceipt (e : ExpectedReceipt) : string :=
  json_object [("action", Some (json_string (action_text (er_Action e)))); ("transactionHash", Some (json_string (er_TransactionHash e)));
    ("chainId", Some (json_int (er_ChainID e))); ("contract", Some (json_string (er_Contract e))); ("asset", Some (json_string (er_Asset e)));
    ("callId", Some (json_string (er_CallID e))); ("operationId", Some (json_string (er_OperationID e)));
    ("commitmentHash", Some (json_string (er_CommitmentHash e))); ("buyer", Some (json_string (er_Buyer e))); ("payTo", Some (json_string (er_PayTo e)));
    ("amountAtomic", Some (json_string (er_AmountAtomic e))); ("settleBy", Some (json_int (er_SettleBy e)));
    ("deliveryHash", omit_empty (er_DeliveryHash e)); ("evidenceHash", omit_empty (er_EvidenceHash e))].

(** The encoding is empty when the time has no JSON form. *)
Definition json_SettleResult (r : SettleResult) (digest : string) : string :=
  match json_time (sr_ObservedAt r) with
  | None => ""
  | Some at_ =>
      json_object [("expected", Some (json_ExpectedReceipt (sr_Expected r))); ("finality", Some (json_string (finality_text (sr_Finality r))));
        ("success", Some (json_bool (sr_Success r))); ("blockNumber", Some (json_int (sr_BlockNumber r))); ("blockHash", Some (json_string (sr_BlockHash r)));
        ("confirmedHead", Some (json_int (sr_ConfirmedHead r))); ("providers", Some (json_array (map json_string (sr_Providers r))));
        ("evidenceDigest", Some (json_string digest)); ("observedAt", Some at_)]
  end.
Definition json_SettleReorg (r : SettleReorg) (digest : string) : string :=
  match json_time (sg_ObservedAt r) with
  | None => ""
  | Some at_ =>
      json_object [("operationId", Some (json_string (sg_OperationID r))); ("action", Some (json_string (action_text (sg_Action r))));
        ("transactionHash", Some (json_string (sg_TransactionHash r))); ("blockNumber", Some (json_int (sg_BlockNumber r)));
        ("originalBlockHash", Some (json_string (sg_OriginalBlockHash r))); ("canonicalBlockHash", Some (json_string (sg_CanonicalBlockHash r)));
        ("observedHead", Some (json_int (sg_ObservedHead r))); ("providers", Some (json_array (map json_string (sg_Providers r))));
        ("evidenceDigest", Some (json_string digest)); ("observedAt", Some at_); ("reorged", Some (json_bool (sg_Reorged r)))]
  end.

Section Reading.
Context `{Crypto}.

Definition resultDigest (r : SettleResult) : string := hex_hash (sha256 ("ASCP_CHAIN_OBSERVATION_V1" +:+ newline +:+ json_SettleResult r "")).
Definition settleSeal (r : SettleResult) : string := sha256 ("ASCP_RECEIPT_RESULT_V1" +:+ newline +:+ json_SettleResult r (sr_EvidenceDigest r)).
Definition reorgDigest (r : SettleReorg) : string := hex_hash (sha256 ("ASCP_REORG_OBSERVATION_V1" +:+ newline +:+ json_SettleReorg r "")).
Definition reorgSeal (r : SettleReorg) : string := sha256 ("ASCP_REORG_RESULT_V1" +:+ newline +:+ json_SettleReorg r (sg_EvidenceDigest r)).

Fixpoint distinct_names (seen : gset string) (providers : list string) : bool :=
  match providers with
  | [] => true
  | p :: rest => ValidIdentifier p && negb (bool_decide (p ∈ seen)) && distinct_names ({[p]} ∪ seen) rest
  end.

Definition validateSettleResult (r : SettleResult) : res unit :=
  check sr_verified r && bool_decide (sr_seal r = settleSeal r) && bool_decide (sr_EvidenceDigest r = resultDigest r) &&
        is_ok (ExpectedReceipt_Validate (sr_Expected r)) && negb (sr_BlockNumber r =? 0) && (sr_BlockNumber r <=? sr_ConfirmedHead r) &&
        settle_hash (sr_BlockHash r) && negb (time_IsZero (sr_ObservedAt r)) && Nat.leb 2 (length (sr_Providers r)) && Nat.leb (length (sr_Providers r)) 5
    else ErrInvalidResult ;;
  check distinct_names ∅ (sr_Providers r) else ErrInvalidResult ;;
  Ok tt.

Definition validateCanonicalResult (r : SettleReorg) : res unit :=
  check sg_verified r && bool_decide (sg_seal r = reorgSeal r) && bool_decide (sg_EvidenceDigest r = reorgDigest r) && settle_hash (sg_OperationID r) &&
        settle_hash (sg_TransactionHash r) && negb (sg_BlockNumber r =? 0) && settle_hash (sg_OriginalBlockHash r) && settle_hash (sg_CanonicalBlockHash r) &&
        Bool.eqb (sg_Reorged r) (negb (bool_decide (sg_OriginalBlockHash r = sg_CanonicalBlockHash r))) && (sg_BlockNumber r <=? sg_ObservedHead r) &&
        negb (time_IsZero (sg_ObservedAt r)) && Nat.leb 2 (length (sg_Providers r)) && Nat.leb (length (sg_Providers r)) 5 && known_action (sg_Action r)
    else ErrInvalidReorgResult ;;
  check distinct_names ∅ (sg_Providers r) else ErrInvalidReorgResult ;;
  Ok tt.
Definition validateReorgResult (r : SettleReorg) : res unit :=
  check is_ok (validateCanonicalResult r) && sg_Reorged r && negb (bool_decide (sg_OriginalBlockHash r = sg_CanonicalBlockHash r)) else ErrInvalidReorgResult ;;
  Ok tt.

Record SettleReader := mkSettleReader { rd_minimum : Z; rd_safeConfirmations : Z; rd_finalizedConfirmations : Z }.
Definition NewSettleReader (quorum safeConfirmations finalizedConfirmations : Z) : res SettleReader :=
  check (2 <=? quorum) && (quorum <=? 5) && negb (safeConfirmations =? 0) && (safeConfirmations <=? finalizedConfirmations)
    else "invalid ASCP settlement configuration" ;;
  Ok (mkSettleReader quorum safeConfirmations finalizedConfirmations).

Definition same_receipt (c e : ASCPReceiptEvidence) : bool :=
  bool_decide (ae_Action e = ae_Action c) && (ae_ChainID e =? ae_ChainID c) && bool_decide (ae_TransactionHash e = ae_TransactionHash c) &&
  (ae_BlockNumber e =? ae_BlockNumber c) && bool_decide (ae_BlockHash e = ae_BlockHash c) && Bool.eqb (ae_Success e) (ae_Success c) &&
  bool_decide (ae_CallID e = ae_CallID c) && bool_decide (ae_OperationID e = ae_OperationID c).

(** The providers seen and the lowest head, over the evidence in order *)
Definition read_one {E} (provider : E -> string) (head : E -> Z) (same : E -> bool) (st : list string * Z) (e : E) : res (list string * Z) :=
  check negb (bool_decide (provider e ∈ st.1)) else ErrReceiptDisagreement ;;
  check same e else ErrReceiptDisagreement ;;
  Ok (st.1 ++ [provider e], Z.min (head e) st.2).

Definition sealed_result (r : SettleResult) : SettleResult :=
  let with_seal d seal := mkSettleResult (sr_Expected r) (sr_Finality r) (sr_Success r) (sr_BlockNumber r) (sr_BlockHash r) (sr_ConfirmedHead r) (sr_Providers r)
    d (sr_ObservedAt r) true seal in
  let r := with_seal (resultDigest r) "" in with_seal (sr_EvidenceDigest r) (settleSeal r).

(** What the observers answer is the evidence they were able to give. *)
Definition settle_Read (rd : SettleReader) (e : ExpectedReceipt) (evidence : list ASCPReceiptEvidence) (now : time) : res SettleResult :=
  check is_ok (ExpectedReceipt_Validate e) else ErrInvalidAttempt ;;
  check rd_minimum rd <=? Z.of_nat (length evidence) else ErrReceiptQuorum ;;
  match evidence with
  | [] => Err ErrReceiptQuorum
  | c :: _ =>
      match fold_res (read_one ae_Provider ae_ConfirmedHead (same_receipt c)) ([], ae_ConfirmedHead c) evidence with
      | Err m => Err m
      | Ok (providers, head) =>
          check negb (ae_BlockNumber c =? 0) && (ae_BlockNumber c <=? head) else ErrUnsafeFinality ;;
          let confirmations := uint64 (head - ae_BlockNumber c + 1) in
          check (rd_finalizedConfirmations rd <=? confirmations) || (rd_safeConfirmations rd <=? confirmations) else ErrUnsafeFinality ;;
          let f := if rd_finalizedConfirmations rd <=? confirmations then Finalized else Safe in
          Ok (sealed_result (mkSettleResult e f (ae_Success c) (ae_BlockNumber c) (ae_BlockHash c) head providers "" now true ""))
      end
  end.

Definition sealed_reorg (r : SettleReorg) : SettleReorg :=
  let with_seal d seal := mkSettleReorg (sg_OperationID r) (sg_Action r) (sg_TransactionHash r) (sg_BlockNumber r) (sg_OriginalBlockHash r)
    (sg_CanonicalBlockHash r) (sg_ObservedHead r) (sg_Providers r) d (sg_ObservedAt r) (sg_Reorged r) true seal in
  let r := with_seal (reorgDigest r) "" in with_seal (sg_EvidenceDigest r) (reorgSeal r).

Definition settle_CheckCanonical (rd : SettleReader) (operationID : string) (action : ReceiptAction) (transactionHash : string) (blockNumber : Z)
    (blockHash : string) (evidence : list ReorgEvidence) (now : time) : res SettleReorg :=
  check settle_hash operationID && known_action action && settle_hash transactionHash && negb (blockNumber =? 0) && settle_hash blockHash else ErrInvalidAttempt ;;
  check rd_minimum rd <=? Z.of_nat (length evidence) else ErrReceiptQuorum ;;
  match evidence with
  | [] => Err ErrReceiptQuorum
  | c :: _ =>
      let same e := (rg_ChainID e =? rg_ChainID c) && bool_decide (rg_TransactionHash e = transactionHash) && (rg_OriginalBlockNumber e =? blockNumber) &&
        bool_decide (rg_OriginalBlockHash e = blockHash) && bool_decide (rg_CanonicalBlockHash e = rg_CanonicalBlockHash c) in
      match fold_res (read_one rg_Provider rg_ObservedHead same) ([], rg_ObservedHead c) evidence with
      | Err m => Err m
      | Ok (providers, head) =>
          check (blockNumber <=? head) && (rd_finalizedConfirmations rd <=? uint64 (head - blockNumber + 1)) && settle_hash (rg_CanonicalBlockHash c)
            else ErrUnsafeFinality ;;
          Ok (sealed_reorg (mkSettleReorg operationID action transactionHash blockNumber blockHash (rg_CanonicalBlockHash c) head providers "" now
                              (negb (bool_decide (rg_CanonicalBlockHash c = blockHash))) true ""))
      end
  end.
End Reading.
