(* ===== verification/SettlementStore.v ===== *)
(** * The settlement tables, their transactions and the worker ([internal/ascpsettlement]:
      [postgres.go], [worker.go])

    Each function below is the body of one serializable transaction. A reservation is kept
    with its operation and its state; the trigger of migration 0030 that gives its capacity
    back is part of the update of the state. *)
From stdpp Require Import base gmap strings list sorting.
From Stdlib Require Import ZArith Lia Ascii.
From S2P Require Import Prelude GoText GoJSON Amounts Crypto Envelope GovAction Reservation Recon DirectoryReader Intake TxRetry Settlement.

Open Scope Z_scope.

(** ** Tables *)

Record ChainObservation := mkChainObservation {
  co_EvidenceDigest : string; co_OperationID : string; co_Action : ReceiptAction; co_Stage : Stage; co_TransactionHash : string; co_BlockNumber : Z;
  co_BlockHash : string; co_CanonicalBlockHash : option string; co_Head : Z; co_Providers : list string; co_ObservedAt : time }.

Inductive LedgerKind := LockFinalized | ReleaseFinalized | RefundFinalized | Reversal.
#[export] Instance LedgerKind_eq_dec : EqDecision LedgerKind.
Proof. solve_decision. Defined.

(** A transaction of the ledger with its postings, an account and an amount in text *)
Record SettleLedger := mkSettleLedger {
  sl_ID : string; sl_OrganizationID : string; sl_OperationID : string; sl_Kind : LedgerKind; sl_Asset : string; sl_EvidenceDigest : string;
  sl_ReversalOf : option string; sl_RecordedAt : time; sl_Postings : list (string * string) }.

Record ReservationRow := mkReservationRow { vr_OperationID : string; vr_State : RState }.

(** [ascp_asset_health] and [ascp_asset_health_observations] *)
Record HealthRow := mkHealthRow { hr_State : string; hr_Epoch : Z; hr_ObservedAt : option time }.
Record HealthObservation := mkHealthObservation {
  ho_ChainID : Z; ho_Asset : string; ho_ObservedState : string; ho_ResultingState : string; ho_Epoch : Z; ho_ObservedAt : time }.

(** An attempt is found by its operation, its action and its transaction; an admission of
    capacity by its reservation, and is [true] while active. *)
Record sdb := mkSdb {
  sd_operations : gmap string PaymentOperation; sd_attempts : list PaymentAttempt; sd_observations : list ChainObservation; sd_ledger : list SettleLedger;
  sd_reservations : gmap string ReservationRow; sd_admissions : gmap string bool; sd_active : Z; sd_bearers : gmap string string;
  sd_health : gmap (Z * string) HealthRow; sd_health_observations : list HealthObservation }.

Definition set_operations (db : sdb) v : sdb :=
  mkSdb v (sd_attempts db) (sd_observations db) (sd_ledger db) (sd_reservations db) (sd_admissions db) (sd_active db) (sd_bearers db) (sd_health db) (sd_health_observations db).
Definition set_attempts (db : sdb) v : sdb :=
  mkSdb (sd_operations db) v (sd_observations db) (sd_ledger db) (sd_reservations db) (sd_admissions db) (sd_active db) (sd_bearers db) (sd_health db) (sd_health_observations db).
Definition set_observations (db : sdb) v : sdb :=
  mkSdb (sd_operations db) (sd_attempts db) v (sd_ledger db) (sd_reservations db) (sd_admissions db) (sd_active db) (sd_bearers db) (sd_health db) (sd_health_observations db).
Definition set_ledger (db : sdb) v : sdb :=
  mkSdb (sd_operations db) (sd_attempts db) (sd_observations db) v (sd_reservations db) (sd_admissions db) (sd_active db) (sd_bearers db) (sd_health db) (sd_health_observations db).
Definition set_reservations (db : sdb) v admissions active : sdb :=
  mkSdb (sd_operations db) (sd_attempts db) (sd_observations db) (sd_ledger db) v admissions active (sd_bearers db) (sd_health db) (sd_health_observations db).
Definition set_bearers (db : sdb) v : sdb :=
  mkSdb (sd_operations db) (sd_attempts db) (sd_observations db) (sd_ledger db) (sd_reservations db) (sd_admissions db) (sd_active db) v (sd_health db) (sd_health_observations db).
Definition set_health (db : sdb) v obs : sdb :=
  mkSdb (sd_operations db) (sd_attempts db) (sd_observations db) (sd_ledger db) (sd_reservations db) (sd_admissions db) (sd_active db) (sd_bearers db) v obs.

Definition live_reservation (s : RState) : bool :=
  bool_decide (s = Reserved) || bool_decide (s = AuthorizationLive) || bool_decide (s = CommittedSafe) || bool_decide (s = CommittedFinalized) || bool_decide (s = ReorgedBack).
Definition terminal_reservation (s : RState) : bool :=
  bool_decide (s = Consumed) || bool_decide (s = Restored) || bool_decide (s = Released) || bool_decide (s = ReleasedAfterExpiry).

(** The update of a reservation's state, with [flowops_release_capacity_on_reservation_terminal] *)
Definition update_reservation (db : sdb) (id : string) (target : RState) : res sdb :=
  match sd_reservations db !! id with
  | None => Ok db
  | Some r =>
      let rows := <[id := mkReservationRow (vr_OperationID r) target]> (sd_reservations db) in
      if live_reservation (vr_State r) && terminal_reservation target then
        match sd_admissions db !! id with
        | Some true =>
            check 0 <? sd_active db else "capacity counter underflow" ;;
            Ok (set_reservations db rows (<[id := false]> (sd_admissions db)) (sd_active db - 1))
        | _ => Err "terminal reservation lacks exactly one active capacity admission"
        end
      else Ok (set_reservations db rows (sd_admissions db) (sd_active db))
  end.

(** ** Attempts *)

Definition active_attempt (s : PaymentAttemptState) : bool := match s with AttemptSubmitted | AttemptSafe | AttemptFinalized => true | _ => false end.
Definition attempt_of (operationID : string) (action : ReceiptAction) (a : PaymentAttempt) : bool :=
  bool_decide (ai_OperationID (pa_Input a) = operationID) && bool_decide (ai_Action (pa_Input a) = action).
Definition attempt_named (operationID : string) (action : ReceiptAction) (transactionHash : string) (a : PaymentAttempt) : bool :=
  attempt_of operationID action a && bool_decide (ai_TransactionHash (pa_Input a) = transactionHash).

(** [ORDER BY active DESC, registered_at DESC, transaction_hash DESC] *)
Definition attempt_before (x y : PaymentAttempt) : bool :=
  let ax := active_attempt (pa_State x) in
  let ay := active_attempt (pa_State y) in
  if Bool.eqb ax ay then
    if pa_RegisteredAt x =? pa_RegisteredAt y then bool_decide (String.le (ai_TransactionHash (pa_Input y)) (ai_TransactionHash (pa_Input x)))
    else pa_RegisteredAt y <? pa_RegisteredAt x
  else ax.
Definition pick_attempt (best : option PaymentAttempt) (a : PaymentAttempt) : option PaymentAttempt :=
  match best with None => Some a | Some b => if attempt_before b a then Some b else Some a end.

Definition loadAttempt (db : sdb) (operationID : string) (action : ReceiptAction) : option PaymentAttempt :=
  foldl pick_attempt None (List.filter (attempt_of operationID action) (sd_attempts db)).
Definition loadAttemptByTransaction (db : sdb) (operationID : string) (action : ReceiptAction) (transactionHash : string) : option PaymentAttempt :=
  List.find (attempt_named operationID action transactionHash) (sd_attempts db).

Definition update_attempt (db : sdb) (operationID : string) (action : ReceiptAction) (transactionHash : string) (f : PaymentAttempt -> PaymentAttempt) : sdb :=
  set_attempts db (map (fun a => if attempt_named operationID action transactionHash a then f a else a) (sd_attempts db)).
Definition resolve (s : PaymentAttemptState) (now : time) (block : Z) (blockHash digest : string) (a : PaymentAttempt) : PaymentAttempt :=
  mkPaymentAttempt (pa_Input a) s (pa_RegisteredAt a) (pg_time now) block blockHash digest (pa_CanonicalCheckedAt a).
Definition reorg_attempt (now : time) (digest : string) (a : PaymentAttempt) : PaymentAttempt :=
  mkPaymentAttempt (pa_Input a) AttemptReorged (pa_RegisteredAt a) (pg_time now) (pa_BlockNumber a) (pa_BlockHash a) digest (pa_CanonicalCheckedAt a).
Definition check_attempt (now : time) (a : PaymentAttempt) : PaymentAttempt :=
  mkPaymentAttempt (pa_Input a) (pa_State a) (pa_RegisteredAt a) (pa_ResolvedAt a) (pa_BlockNumber a) (pa_BlockHash a) (pa_EvidenceDigest a) (pg_time now).

(** ** Operations *)

Definition update_operation (db : sdb) (id : string) (f : PaymentOperation -> PaymentOperation) : sdb := set_operations db (alter f id (sd_operations db)).
Definition with_state (s : OperationState) (now : time) (o : PaymentOperation) : PaymentOperation :=
  mkPaymentOperation (po_OperationID o) (po_OrganizationID o) (po_AgentID o) (po_AuthorizationID o) (po_ReservationID o) (po_BearerDigest o) (po_CommitmentHash o)
    (po_CallID o) (po_ChainID o) (po_EscrowContract o) (po_Asset o) (po_Buyer o) (po_PayTo o) (po_AmountBaseUnits o) (po_SettleBy o) s
    (po_LockedTransactionHash o) (po_LockedBlockNumber o) (po_LockedBlockHash o) (po_TerminalAction o) (po_TerminalTransactionHash o)
    (po_TerminalBlockNumber o) (po_TerminalBlockHash o) (po_CreatedAt o) now.
Definition with_lock (hash : string) (block : Z) (blockHash : string) (o : PaymentOperation) : PaymentOperation :=
  mkPaymentOperation (po_OperationID o) (po_OrganizationID o) (po_AgentID o) (po_AuthorizationID o) (po_ReservationID o) (po_BearerDigest o) (po_CommitmentHash o)
    (po_CallID o) (po_ChainID o) (po_EscrowContract o) (po_Asset o) (po_Buyer o) (po_PayTo o) (po_AmountBaseUnits o) (po_SettleBy o) (po_State o)
    hash block blockHash (po_TerminalAction o) (po_TerminalTransactionHash o) (po_TerminalBlockNumber o) (po_TerminalBlockHash o) (po_CreatedAt o) (po_UpdatedAt o).
Definition with_terminal (action hash : string) (block : Z) (blockHash : string) (o : PaymentOperation) : PaymentOperation :=
  mkPaymentOperation (po_OperationID o) (po_OrganizationID o) (po_AgentID o) (po_AuthorizationID o) (po_ReservationID o) (po_BearerDigest o) (po_CommitmentHash o)
    (po_CallID o) (po_ChainID o) (po_EscrowContract o) (po_Asset o) (po_Buyer o) (po_PayTo o) (po_AmountBaseUnits o) (po_SettleBy o) (po_State o)
    (po_LockedTransactionHash o) (po_LockedBlockNumber o) (po_LockedBlockHash o) action hash block blockHash (po_CreatedAt o) (po_UpdatedAt o).

Definition loadOperation (db : sdb) (id : string) : res PaymentOperation :=
  match sd_operations db !! id with Some o => Ok o | None => Err ErrSettlementNotFound end.

(** [UNIQUE] on the transaction hashes of an operation *)
Definition hash_bound (db : sdb) (id : string) (column : PaymentOperation -> string) (hash : string) : bool :=
  existsb (fun p => negb (bool_decide (p.1 = id)) && bool_decide (column p.2 = hash)) (map_to_list (sd_operations db)).

(** ** The ledger *)

Definition kind_text (k : LedgerKind) : string :=
  match k with LockFinalized => "LOCK_FINALIZED" | ReleaseFinalized => "RELEASE_FINALIZED" | RefundFinalized => "REFUND_FINALIZED" | Reversal => "REVERSAL" end.
Definition Escrow : string := "EscrowRestrictedUSDC".
Definition Wallet : string := "WalletAvailableUSDC".
Definition SellerExpense : string := "SellerExpense".

Definition reversed (db : sdb) (t : SettleLedger) : bool := existsb (fun x => bool_decide (sl_ReversalOf x = Some (sl_ID t))) (sd_ledger db).
Definition standing (db : sdb) (operationID : string) (t : SettleLedger) : bool :=
  bool_decide (sl_OperationID t = operationID) && negb (bool_decide (sl_Kind t = Reversal)) && negb (reversed db t).

Definition posted (amount : string) : Z := default 0 (SetString10 amount).

(** The deferred trigger [flowops_validate_ascp_ledger_transaction]; [amount] is the operation's *)
Definition postings_match (db : sdb) (t : SettleLedger) (amount : Z) : bool :=
  match map (fun p => (p.1, posted p.2)) (sl_Postings t) with
  | [(a1, v1); (a2, v2)] =>
      let either x y := (bool_decide ((a1, v1) = x) || bool_decide ((a1, v1) = y)) && (bool_decide ((a2, v2) = x) || bool_decide ((a2, v2) = y)) in
      (v1 + v2 =? 0) &&
      match sl_Kind t with
      | LockFinalized => either (Escrow, amount) (Wallet, - amount)
      | ReleaseFinalized => either (SellerExpense, amount) (Escrow, - amount)
      | RefundFinalized => either (Wallet, amount) (Escrow, - amount)
      | Reversal =>
          match sl_ReversalOf t with
          | None => false
          | Some id =>
              match List.find (fun x => bool_decide (sl_ID x = id)) (sd_ledger db) with
              | Some x => bool_decide (map (fun p => (p.1, - posted p.2)) (sl_Postings x) = [(a1, v1); (a2, v2)])
              | None => false
              end
          end
      end
  | _ => false
  end.

(** The keys of a new transaction of the ledger *)
Definition ledger_keys_ok (db : sdb) (t : SettleLedger) : bool :=
  hash_pattern (sl_ID t) && negb (existsb (fun x => bool_decide (sl_ID x = sl_ID t)) (sd_ledger db)) &&
  match sl_ReversalOf t with
  | None => true
  | Some id => existsb (fun x => bool_decide (sl_ID x = id)) (sd_ledger db) && negb (existsb (fun x => bool_decide (sl_ReversalOf x = Some id)) (sd_ledger db))
  end &&
  negb (existsb (fun x => bool_decide (sl_OperationID x = sl_OperationID t) && bool_decide (sl_Kind x = sl_Kind t) &&
                          bool_decide (sl_EvidenceDigest x = sl_EvidenceDigest t)) (sd_ledger db)) &&
  existsb (fun c => bool_decide (co_EvidenceDigest c = sl_EvidenceDigest t)) (sd_observations db).

Definition insert_ledger (db : sdb) (o : PaymentOperation) (t : SettleLedger) : res sdb :=
  check ledger_keys_ok db t else "append ASCP ledger transaction" ;;
  check postings_match db t (posted (po_AmountBaseUnits o)) else "ASCP ledger postings do not match their classified transaction" ;;
  Ok (set_ledger db (sd_ledger db ++ [t])).

Section Store.
Context `{Crypto}.

Fixpoint join_lines (l : list string) : string := match l with [] => "" | [x] => x | x :: l => x +:+ newline +:+ join_lines l end.
Definition ledgerID (parts : list string) : string := hex_hash (sha256 ("ASCP_LEDGER_TRANSACTION_V1" +:+ newline +:+ join_lines parts)).

Definition postLedger (db : sdb) (o : PaymentOperation) (kind : LedgerKind) (digest : string) (now : time) : res sdb :=
  let id := ledgerID [po_OperationID o; kind_text kind; digest; ""] in
  let (debit, credit) :=
    match kind with
    | ReleaseFinalized => (SellerExpense, Escrow)
    | RefundFinalized => (Wallet, Escrow)
    | _ => (Escrow, Wallet)
    end in
  insert_ledger db o (mkSettleLedger id (po_OrganizationID o) (po_OperationID o) kind (po_Asset o) digest None (pg_time now)
                        [(debit, po_AmountBaseUnits o); (credit, "-" +:+ po_AmountBaseUnits o)]).

(** [ORDER BY recorded_at, transaction_id] *)
Definition ledger_le (x y : SettleLedger) : Prop :=
  sl_RecordedAt x < sl_RecordedAt y \/ (sl_RecordedAt x = sl_RecordedAt y /\ String.le (sl_ID x) (sl_ID y)).
#[export] Instance ledger_le_dec x y : Decision (ledger_le x y).
Proof. unfold ledger_le. apply _. Defined.

Definition reverse_posting (p : string * string) : res (string * string) :=
  match SetString10 p.2 with
  | Some v => check negb (v =? 0) else ErrStateConflict ;; Ok (p.1, dec_string (- v))
  | None => Err ErrStateConflict
  end.
Definition reverse_postings (l : list (string * string)) : res (list (string * string)) :=
  fold_res (fun acc p => try q := reverse_posting p in Ok (acc ++ [q])) [] l.

Definition reverse_one (o : PaymentOperation) (digest : string) (now : time) (db : sdb) (t : SettleLedger) : res sdb :=
  check Nat.leb 2 (length (sl_Postings t)) else ErrStateConflict ;;
  try postings := reverse_postings (sl_Postings t) in
  insert_ledger db o (mkSettleLedger (ledgerID [po_OperationID o; "REVERSAL"; digest; sl_ID t]) (po_OrganizationID o) (po_OperationID o) Reversal (po_Asset o)
                        digest (Some (sl_ID t)) (pg_time now) postings).

Definition reverseLedger (db : sdb) (o : PaymentOperation) (digest : string) (only : option LedgerKind) (now : time) : res sdb :=
  let originals := merge_sort ledger_le
    (List.filter (fun t => standing db (po_OperationID o) t && match only with Some k => bool_decide (sl_Kind t = k) | None => true end) (sd_ledger db)) in
  match originals with
  | [] => Err ErrStateConflict
  | _ => fold_res (reverse_one o digest now) db originals
  end.

(** ** Registering an attempt *)

(** Fresh evidence that the asset is recovering allows one more attempt at a reverted step. *)
Definition recovering (db : sdb) (chain : Z) (asset : string) (now : time) : bool :=
  match sd_health db !! (chain, asset) with
  | Some h =>
      bool_decide (hr_State h = "RECOVERING") &&
      existsb (fun x => (ho_ChainID x =? chain) && bool_decide (ho_Asset x = asset) && bool_decide (ho_ObservedState x = "NORMAL") &&
                        bool_decide (ho_ResultingState x = "RECOVERING") && (ho_Epoch x =? hr_Epoch h) &&
                        between (pg_time (time_add now (- settlementRecordDelay))) (pg_time (time_add now settlementRecordDelay)) (ho_ObservedAt x))
              (sd_health_observations db)
  | None => false
  end.

Definition validateAssetRecoveryRetry (db : sdb) (o : PaymentOperation) (previous : PaymentAttempt) (i : AttemptInput) (now : time) : res unit :=
  let p := pa_Input previous in
  check bool_decide (po_State o = PendingChainRecovery) && bool_decide (pa_State previous = AttemptReverted) && bool_decide (ai_Action p = ai_Action i) &&
        bool_decide (ai_DeliveryHash p = ai_DeliveryHash i) && bool_decide (ai_EvidenceHash p = ai_EvidenceHash i) else ErrStateConflict ;;
  check bool_decide (ai_Action i = ASCPReceiptLock) || bool_decide (po_TerminalAction o = action_text (ai_Action i)) else ErrStateConflict ;;
  check recovering db (po_ChainID o) (po_Asset o) now else ErrStateConflict ;;
  Ok tt.

(** The keys of a new attempt: its transaction is new, and at most one attempt of an
    action and one of the two terminal actions is active. *)
Definition attempt_keys_ok (db : sdb) (i : AttemptInput) : bool :=
  negb (existsb (fun a => bool_decide (ai_TransactionHash (pa_Input a) = ai_TransactionHash i)) (sd_attempts db)) &&
  negb (existsb (fun a => attempt_of (ai_OperationID i) (ai_Action i) a && active_attempt (pa_State a)) (sd_attempts db)) &&
  (bool_decide (ai_Action i = ASCPReceiptLock) ||
   negb (existsb (fun a => bool_decide (ai_OperationID (pa_Input a) = ai_OperationID i) && negb (bool_decide (ai_Action (pa_Input a) = ASCPReceiptLock)) &&
                           active_attempt (pa_State a)) (sd_attempts db))).

(** Whether the lock of the operation is on the ledger and not reversed *)
Definition lock_posted (db : sdb) (operationID : string) : bool :=
  existsb (fun t => bool_decide (sl_OperationID t = operationID) && bool_decide (sl_Kind t = LockFinalized) && negb (reversed db t)) (sd_ledger db).

(** The binding of the attempt to its operation *)
Definition bind_attempt (db : sdb) (o : PaymentOperation) (i : AttemptInput) (retry : bool) (now : time) : res sdb :=
  if bool_decide (ai_Action i = ASCPReceiptLock) then
    check negb (hash_bound db (po_OperationID o) po_LockedTransactionHash (ai_TransactionHash i)) else "bind ASCP payment attempt" ;;
    Ok (update_operation db (po_OperationID o)
          (fun o => with_state LockSubmitted (pg_time now) (with_lock (ai_TransactionHash i) (po_LockedBlockNumber o) (po_LockedBlockHash o) o)))
  else
    let target := if retry then if lock_posted db (po_OperationID o) then LockedFinalized else LockedSafe else po_State o in
    check negb (hash_bound db (po_OperationID o) po_TerminalTransactionHash (ai_TransactionHash i)) else "bind ASCP payment attempt" ;;
    Ok (update_operation db (po_OperationID o)
          (fun o => with_state target (pg_time now) (with_terminal (action_text (ai_Action i)) (ai_TransactionHash i) 0 "" o))).

(** A new attempt; [validated] is a retry during asset recovery *)
Definition register_new (db : sdb) (o : PaymentOperation) (i : AttemptInput) (validated : bool) (now : time) : res (sdb * (PaymentAttempt * bool)) :=
  let retry := bool_decide (po_State o = PendingChainRecovery) in
  check negb retry || validated else ErrStateConflict ;;
  check known_action (ai_Action i) else ErrInvalidAttempt ;;
  check retry ||
        (if bool_decide (ai_Action i = ASCPReceiptLock) then bool_decide (po_State o = AuthSigned) && bool_decide (po_LockedTransactionHash o = "")
         else (bool_decide (po_State o = LockedSafe) || bool_decide (po_State o = LockedFinalized)) && bool_decide (po_TerminalTransactionHash o = ""))
    else ErrStateConflict ;;
  check attempt_keys_ok db i else ErrStateConflict ;;
  let a := mkPaymentAttempt i AttemptSubmitted (pg_time now) 0 0 "" "" 0 in
  try db' := bind_attempt (set_attempts db (sd_attempts db ++ [a])) o i retry now in
  Ok (db', (a, false)).

Definition registerAttemptOnce (db : sdb) (i : AttemptInput) (now : time) : res (sdb * (PaymentAttempt * bool)) :=
  try o := loadOperation db (ai_OperationID i) in
  match loadAttempt db (ai_OperationID i) (ai_Action i) with
  | Some existing =>
      if bool_decide (pa_Input existing = i) then Ok (db, (existing, true))
      else try _ := validateAssetRecoveryRetry db o existing i now in register_new db o i true now
  | None => register_new db o i false now
  end.

Definition settle_Expected (db : sdb) (operationID : string) (action : ReceiptAction) : res ExpectedReceipt :=
  check settle_hash operationID else ErrInvalidAttempt ;;
  try o := loadOperation db operationID in
  match loadAttempt db operationID action with Some a => Ok (expectedReceipt o a) | None => Err ErrSettlementNotFound end.

(** ** Applying a result *)

Definition observationExists (db : sdb) (digest : string) : option string :=
  co_OperationID <$> List.find (fun c => bool_decide (co_EvidenceDigest c = digest)) (sd_observations db).
Definition observationStageExists (db : sdb) (operationID : string) (action : ReceiptAction) (stage : Stage) (blockHash : string) : option string :=
  co_TransactionHash <$> List.find (fun c => bool_decide (co_OperationID c = operationID) && bool_decide (co_Action c = action) && bool_decide (co_Stage c = stage) &&
                                            bool_decide (co_BlockHash c = blockHash)) (sd_observations db).

Definition set_reservation (db : sdb) (o : PaymentOperation) (target : RState) : res sdb := update_reservation db (po_ReservationID o) target.

Definition consume_bearer (db : sdb) (digest : string) : sdb :=
  set_bearers db (alter (fun outcome => if bool_decide (outcome = "LIVE") || bool_decide (outcome = "CONSUMED") then "CONSUMED" else outcome) digest (sd_bearers db)).

Definition apply_lock (db : sdb) (o : PaymentOperation) (a : PaymentAttempt) (reservation : RState) (r : SettleResult) (now : time) : res (sdb * PaymentOperation) :=
  check match sr_Finality r with
        | Safe => bool_decide (pa_State a = AttemptSubmitted)
        | Finalized => bool_decide (pa_State a = AttemptSubmitted) || bool_decide (pa_State a = AttemptSafe)
        end else ErrStateConflict ;;
  check (bool_decide (po_State o = LockSubmitted) || bool_decide (po_State o = LockedSafe)) &&
        (bool_decide (reservation = AuthorizationLive) || bool_decide (reservation = CommittedSafe)) else ErrStateConflict ;;
  let '(attempt, target, reserved) := match sr_Finality r with
    | Safe => (AttemptSafe, LockedSafe, CommittedSafe)
    | Finalized => (AttemptFinalized, LockedFinalized, CommittedFinalized)
    end in
  try db := set_reservation db o reserved in
  let db := consume_bearer db (po_BearerDigest o) in
  let db := update_attempt db (po_OperationID o) ASCPReceiptLock (ai_TransactionHash (pa_Input a))
    (resolve attempt now (sr_BlockNumber r) (sr_BlockHash r) (sr_EvidenceDigest r)) in
  let settle at_ o := with_state target at_ (with_lock (po_LockedTransactionHash o) (sr_BlockNumber r) (sr_BlockHash r) o) in
  let db := update_operation db (po_OperationID o) (settle (pg_time now)) in
  match sr_Finality r with
  | Safe => Ok (db, settle now o)
  | Finalized => try db := postLedger db (settle now o) LockFinalized (sr_EvidenceDigest r) now in Ok (db, settle now o)
  end.

(** Where a release or a refund takes the operation and its reservation, and its posting *)
Definition terminal_of (action : ReceiptAction) : OperationState * RState * LedgerKind :=
  match action with
  | ASCPReceiptRefund => (RefundedFinalized, Restored, RefundFinalized)
  | _ => (ReleasedFinalized, Consumed, ReleaseFinalized)
  end.

Definition apply_terminal (db : sdb) (o : PaymentOperation) (a : PaymentAttempt) (reservation : RState) (r : SettleResult) (now : time) : res (sdb * PaymentOperation) :=
  let action := er_Action (sr_Expected r) in
  let attempt_to s := update_attempt db (po_OperationID o) action (ai_TransactionHash (pa_Input a)) (resolve s now (sr_BlockNumber r) (sr_BlockHash r) (sr_EvidenceDigest r)) in
  if negb (bool_decide (po_State o = LockedFinalized)) || negb (bool_decide (reservation = CommittedFinalized)) || negb (bool_decide (sr_Finality r = Finalized)) then
    check bool_decide (sr_Finality r = Safe) && (bool_decide (po_State o = LockedSafe) || bool_decide (po_State o = LockedFinalized)) else ErrStateConflict ;;
    check bool_decide (pa_State a = AttemptSubmitted) else ErrStateConflict ;;
    Ok (attempt_to AttemptSafe, o)
  else
    check bool_decide (pa_State a = AttemptSubmitted) || bool_decide (pa_State a = AttemptSafe) else ErrStateConflict ;;
    check bool_decide (action = ASCPReceiptRefund) || bool_decide (action = ASCPReceiptRelease) else ErrStateConflict ;;
    let '(target, reserved, kind) := terminal_of action in
    try db := set_reservation (attempt_to AttemptFinalized) o reserved in
    let settle at_ o := with_state target at_ (with_terminal (po_TerminalAction o) (po_TerminalTransactionHash o) (sr_BlockNumber r) (sr_BlockHash r) o) in
    let db := update_operation db (po_OperationID o) (settle (pg_time now)) in
    try db := postLedger db (settle now o) kind (sr_EvidenceDigest r) now in
    Ok (db, settle now o).

(** A reverted transaction *)
Definition apply_revert (db : sdb) (o : PaymentOperation) (a : PaymentAttempt) (r : SettleResult) (now : time) : res (sdb * PaymentOperation) :=
  let action := er_Action (sr_Expected r) in
  check bool_decide (pa_State a = AttemptSubmitted) || bool_decide (pa_State a = AttemptSafe) else ErrStateConflict ;;
  check if bool_decide (action = ASCPReceiptLock) then bool_decide (po_State o = LockSubmitted) || bool_decide (po_State o = LockedSafe)
        else bool_decide (po_State o = LockedSafe) || bool_decide (po_State o = LockedFinalized) else ErrStateConflict ;;
  let db := update_attempt db (po_OperationID o) action (er_TransactionHash (sr_Expected r))
    (resolve AttemptReverted now (sr_BlockNumber r) (sr_BlockHash r) (sr_EvidenceDigest r)) in
  let db := update_operation db (po_OperationID o) (with_state PendingChainRecovery (pg_time now)) in
  Ok (db, with_state PendingChainRecovery now o).

(** The columns are [bigint]. *)
Definition observation_fits (block head : Z) : bool := (block <=? MaxInt64) && (head <=? MaxInt64).

Definition applyOnce (db : sdb) (r : SettleResult) (now : time) : res (sdb * PaymentOperation) :=
  let e := sr_Expected r in
  try o := loadOperation db (er_OperationID e) in
  match loadAttemptByTransaction db (er_OperationID e) (er_Action e) (er_TransactionHash e) with
  | None => Err "sql: no rows in result set"
  | Some a =>
      check bool_decide (expectedReceipt o a = e) else ErrStateConflict ;;
      match observationStageExists db (po_OperationID o) (er_Action e) (StageOf (sr_Finality r)) (sr_BlockHash r) with
      | Some existing => check bool_decide (existing = er_TransactionHash e) else ErrStateConflict ;; Ok (db, o)
      | None =>
          match sd_reservations db !! po_ReservationID o with
          | None => Err "lock ASCP settlement reservation"
          | Some row =>
              check bool_decide (vr_OperationID row = po_OperationID o) else "lock ASCP settlement reservation" ;;
              match observationExists db (sr_EvidenceDigest r) with
              | Some existing => check bool_decide (existing = er_OperationID e) else ErrStateConflict ;; Ok (db, o)
              | None =>
                  check observation_fits (sr_BlockNumber r) (sr_ConfirmedHead r) else "append ASCP chain observation" ;;
                  let db := set_observations db (sd_observations db ++
                    [mkChainObservation (sr_EvidenceDigest r) (po_OperationID o) (er_Action e) (StageOf (sr_Finality r)) (er_TransactionHash e) (sr_BlockNumber r)
                       (sr_BlockHash r) None (sr_ConfirmedHead r) (sr_Providers r) (pg_time (sr_ObservedAt r))]) in
                  if negb (sr_Success r) then apply_revert db o a r now
                  else if bool_decide (er_Action e = ASCPReceiptLock) then apply_lock db o a (vr_State row) r now
                  else apply_terminal db o a (vr_State row) r now
              end
          end
      end
  end.

(** ** Applying a reorg *)

Definition reorg_lock (db : sdb) (o : PaymentOperation) (reservation : RState) (r : SettleReorg) (now : time) : res (sdb * PaymentOperation) :=
  check bool_decide (reservation = CommittedFinalized) || bool_decide (reservation = Consumed) || bool_decide (reservation = Restored) else ErrStateConflict ;;
  try db := reverseLedger db o (sg_EvidenceDigest r) None now in
  try db := set_reservation db o ReorgedBack in
  Ok (update_operation db (po_OperationID o) (with_state OpReorgedBack (pg_time now)), with_state OpReorgedBack now o).

Definition reorg_terminal (db : sdb) (o : PaymentOperation) (reservation : RState) (r : SettleReorg) (now : time) : res (sdb * PaymentOperation) :=
  let '(state, reserved, kind) := terminal_of (sg_Action r) in
  check bool_decide (po_State o = state) && bool_decide (reservation = reserved) else ErrStateConflict ;;
  try db := reverseLedger db o (sg_EvidenceDigest r) (Some kind) now in
  try db := set_reservation db o CommittedFinalized in
  Ok (update_operation db (po_OperationID o) (with_state PendingChainRecovery (pg_time now)), with_state PendingChainRecovery now o).

Definition applyReorgOnce (db : sdb) (r : SettleReorg) (now : time) : res (sdb * PaymentOperation) :=
  try o := loadOperation db (sg_OperationID r) in
  match loadAttemptByTransaction db (sg_OperationID r) (sg_Action r) (sg_TransactionHash r) with
  | None => Err "sql: no rows in result set"
  | Some a =>
      match observationStageExists db (po_OperationID o) (sg_Action r) StageReorged (sg_OriginalBlockHash r) with
      | Some existing => check bool_decide (existing = sg_TransactionHash r) else ErrStateConflict ;; Ok (db, o)
      | None =>
          check bool_decide (pa_State a = AttemptFinalized) && (pa_BlockNumber a =? sg_BlockNumber r) && bool_decide (pa_BlockHash a = sg_OriginalBlockHash r)
            else ErrStateConflict ;;
          match sd_reservations db !! po_ReservationID o with
          | None => Err "lock reorg reservation"
          | Some row =>
              match observationExists db (sg_EvidenceDigest r) with
              | Some existing => check bool_decide (existing = po_OperationID o) else ErrStateConflict ;; Ok (db, o)
              | None =>
                  check observation_fits (sg_BlockNumber r) (sg_ObservedHead r) else "append ASCP reorg observation" ;;
                  let db := set_observations db (sd_observations db ++
                    [mkChainObservation (sg_EvidenceDigest r) (po_OperationID o) (sg_Action r) StageReorged (sg_TransactionHash r) (sg_BlockNumber r)
                       (sg_OriginalBlockHash r) (Some (sg_CanonicalBlockHash r)) (sg_ObservedHead r) (sg_Providers r) (pg_time (sg_ObservedAt r))]) in
                  let db := update_attempt db (po_OperationID o) (sg_Action r) (sg_TransactionHash r) (reorg_attempt now (sg_EvidenceDigest r)) in
                  if bool_decide (sg_Action r = ASCPReceiptLock) then reorg_lock db o (vr_State row) r now else reorg_terminal db o (vr_State row) r now
              end
          end
      end
  end.

(** ** Confirming a finalized block *)

Definition confirmable (r : SettleReorg) (a : PaymentAttempt) : bool :=
  attempt_named (sg_OperationID r) (sg_Action r) (sg_TransactionHash r) a && bool_decide (pa_State a = AttemptFinalized) && (pa_BlockNumber a =? sg_BlockNumber r) &&
  bool_decide (pa_BlockHash a = sg_OriginalBlockHash r).
Definition stale_check (now : time) (a : PaymentAttempt) : bool := time_IsZero (pa_CanonicalCheckedAt a) || (pa_CanonicalCheckedAt a <? pg_time now).

Definition confirm_body (db : sdb) (r : SettleReorg) (now : time) : res (sdb * unit) :=
  match List.find (confirmable r) (sd_attempts db) with
  | None => Err ErrStateConflict
  | Some a =>
      if stale_check now a then Ok (update_attempt db (sg_OperationID r) (sg_Action r) (sg_TransactionHash r) (check_attempt now), tt)
      else check negb (pa_CanonicalCheckedAt a <? now) else ErrStateConflict ;; Ok (db, tt)
  end.

(** ** Calls *)

(** The record of an activated authorization, as [ActivationStore] inserts it when the
    reservation is live *)
Definition fresh_operation (o : PaymentOperation) : bool :=
  bool_decide (po_State o = AuthSigned) && bool_decide (po_LockedTransactionHash o = "") && bool_decide (po_TerminalTransactionHash o = "") &&
  bool_decide (po_TerminalAction o = "") && is_ok (positiveInteger (po_AmountBaseUnits o)).
Definition activate (db : sdb) (o : PaymentOperation) : sdb :=
  if fresh_operation o && bool_decide (sd_operations db !! po_OperationID o = None) && bool_decide (sd_reservations db !! po_ReservationID o = None)
  then mkSdb (<[po_OperationID o := o]> (sd_operations db)) (sd_attempts db) (sd_observations db) (sd_ledger db)
         (<[po_ReservationID o := mkReservationRow (po_OperationID o) AuthorizationLive]> (sd_reservations db))
         (<[po_ReservationID o := true]> (sd_admissions db)) (sd_active db + 1) (<[po_BearerDigest o := "LIVE"]> (sd_bearers db)) (sd_health db) (sd_health_observations db)
  else db.

Definition fresh_at (observed now : time) : bool :=
  negb (time_after observed (time_add now settlementRecordDelay)) && (time_sub now observed <=? settlementRecordDelay).

(** The transactions clients commit *)
Inductive stx :=
| SActivate (o : PaymentOperation)
| SRegister (i : AttemptInput) (now : time)
| SApply (r : SettleResult) (now : time)
| SReorg (r : SettleReorg) (now : time)
| SConfirm (r : SettleReorg) (now : time)
| SHealth (health : gmap (Z * string) HealthRow) (observations : list HealthObservation).

Definition register_body (i : AttemptInput) (now : time) (db : sdb) : res (sdb * (PaymentAttempt * bool)) :=
  check validAttemptInput i else ErrInvalidAttempt ;; registerAttemptOnce db i now.
Definition apply_body (r : SettleResult) (now : time) (db : sdb) : res (sdb * PaymentOperation) :=
  try _ := validateSettleResult r in check fresh_at (sr_ObservedAt r) now else ErrInvalidResult ;; applyOnce db r now.
Definition reorg_body (r : SettleReorg) (now : time) (db : sdb) : res (sdb * PaymentOperation) :=
  check is_ok (validateReorgResult r) && fresh_at (sg_ObservedAt r) now else ErrInvalidReorgResult ;; applyReorgOnce db r now.
Definition canonical_body (r : SettleReorg) (now : time) (db : sdb) : res (sdb * unit) :=
  check is_ok (validateCanonicalResult r) && negb (sg_Reorged r) && fresh_at (sg_ObservedAt r) now else ErrInvalidReorgResult ;; confirm_body db r now.

Definition committed {A} (db : sdb) (r : res (sdb * A)) : sdb := match r with Ok (db', _) => db' | Err _ => db end.
Definition apply_stx (db : sdb) (t : stx) : sdb :=
  match t with
  | SActivate o => activate db o
  | SRegister i now => committed db (register_body i now db)
  | SApply r now => committed db (apply_body r now db)
  | SReorg r now => committed db (reorg_body r now db)
  | SConfirm r now => committed db (canonical_body r now db)
  | SHealth health observations => set_health db health observations
  end.

Definition RegisterAttempt (db : sdb) (i : AttemptInput) (now : time) (env : list (tx_env stx)) : sdb * res (PaymentAttempt * bool) :=
  if validAttemptInput i then retry_tx apply_stx "ASCP attempt registration serialization retries exhausted" (fun db => registerAttemptOnce db i now) (take 3 env) db
  else (db, Err ErrInvalidAttempt).
Definition settle_Apply (db : sdb) (r : SettleResult) (now : time) (env : list (tx_env stx)) : sdb * res PaymentOperation :=
  match validateSettleResult r with
  | Err m => (db, Err m)
  | Ok _ =>
      if fresh_at (sr_ObservedAt r) now then retry_tx apply_stx "ASCP settlement serialization retries exhausted" (fun db => applyOnce db r now) (take 3 env) db
      else (db, Err ErrInvalidResult)
  end.
Definition settle_ApplyReorg (db : sdb) (r : SettleReorg) (now : time) (env : list (tx_env stx)) : sdb * res PaymentOperation :=
  if is_ok (validateReorgResult r) && fresh_at (sg_ObservedAt r) now
  then retry_tx apply_stx "ASCP reorg serialization retries exhausted" (fun db => applyReorgOnce db r now) (take 3 env) db
  else (db, Err ErrInvalidReorgResult).
Definition settle_ConfirmCanonical (db : sdb) (r : SettleReorg) (now : time) (commit : commit_outcome) : sdb * res unit :=
  commit_tx db (canonical_body r now db) commit.
End Store.

(** ** The settlement worker ([internal/ascpsettlement/worker.go])

    Each cycle reads the pending attempts and the finalized ones whose block is to be
    checked, asks the observers about each and applies what they say. Other clients commit
    between any two calls to the store. *)

(** ** What a cycle works on *)

(** [ORDER BY registered_at, operation_id] *)
Definition pending_le (x y : PaymentAttempt) : Prop :=
  pa_RegisteredAt x < pa_RegisteredAt y \/
  (pa_RegisteredAt x = pa_RegisteredAt y /\ String.le (ai_OperationID (pa_Input x)) (ai_OperationID (pa_Input y))).
#[export] Instance pending_le_dec x y : Decision (pending_le x y).
Proof. unfold pending_le. apply _. Defined.

Definition listAttempts (db : sdb) (predicate : PaymentAttempt -> bool) (limit : Z) : res (list PaymentAttempt) :=
  check (1 <=? limit) && (limit <=? 1000) else ErrInvalidAttempt ;;
  Ok (take (Z.to_nat limit) (merge_sort pending_le (List.filter predicate (sd_attempts db)))).

Definition pending_attempt (a : PaymentAttempt) : bool := bool_decide (pa_State a = AttemptSubmitted) || bool_decide (pa_State a = AttemptSafe).
Definition Pending (db : sdb) (limit : Z) : res (list PaymentAttempt) := listAttempts db pending_attempt limit.

(** A finalized attempt that was not checked, or not since its recovering asset was last observed *)
Definition unchecked_attempt (db : sdb) (a : PaymentAttempt) : bool :=
  bool_decide (pa_State a = AttemptFinalized) &&
  (time_IsZero (pa_CanonicalCheckedAt a) ||
   match sd_operations db !! ai_OperationID (pa_Input a) with
   | None => false
   | Some o =>
       match sd_health db !! (po_ChainID o, po_Asset o) with
       | Some h => bool_decide (hr_State h = "RECOVERING") && match hr_ObservedAt h with Some t => pa_CanonicalCheckedAt a <? t | None => false end
       | None => false
       end
   end).
Definition FinalizedUnchecked (db : sdb) (limit : Z) : res (list PaymentAttempt) := listAttempts db (unchecked_attempt db) limit.

(** ** A cycle *)

Record WorkerCycle := mkWorkerCycle {
  wc_Pending : Z; wc_Applied : Z; wc_FinalityChecks : Z; wc_CanonicalConfirmed : Z; wc_ReorgsRecovered : Z; wc_Deferred : Z }.
Definition noCycle : WorkerCycle := mkWorkerCycle 0 0 0 0 0 0.
Definition count_pending (n : Z) (c : WorkerCycle) : WorkerCycle :=
  mkWorkerCycle n (wc_Applied c) (wc_FinalityChecks c) (wc_CanonicalConfirmed c) (wc_ReorgsRecovered c) (wc_Deferred c).
Definition count_applied (c : WorkerCycle) : WorkerCycle :=
  mkWorkerCycle (wc_Pending c) (wc_Applied c + 1) (wc_FinalityChecks c) (wc_CanonicalConfirmed c) (wc_ReorgsRecovered c) (wc_Deferred c).
Definition count_check (c : WorkerCycle) : WorkerCycle :=
  mkWorkerCycle (wc_Pending c) (wc_Applied c) (wc_FinalityChecks c + 1) (wc_CanonicalConfirmed c) (wc_ReorgsRecovered c) (wc_Deferred c).
Definition count_confirmed (c : WorkerCycle) : WorkerCycle :=
  mkWorkerCycle (wc_Pending c) (wc_Applied c) (wc_FinalityChecks c) (wc_CanonicalConfirmed c + 1) (wc_ReorgsRecovered c) (wc_Deferred c).
Definition count_reorg (c : WorkerCycle) : WorkerCycle :=
  mkWorkerCycle (wc_Pending c) (wc_Applied c) (wc_FinalityChecks c) (wc_CanonicalConfirmed c) (wc_ReorgsRecovered c + 1) (wc_Deferred c).
Definition count_deferred (c : WorkerCycle) : WorkerCycle :=
  mkWorkerCycle (wc_Pending c) (wc_Applied c) (wc_FinalityChecks c) (wc_CanonicalConfirmed c) (wc_ReorgsRecovered c) (wc_Deferred c + 1).

Definition deferredEvidence (e : error) : bool :=
  bool_decide (e = ErrReceiptQuorum) || bool_decide (e = ErrUnsafeFinality) || bool_decide (e = ErrReceiptDisagreement).

(** What happens around one attempt: what others commit before it is looked up and before
    it is applied, what the observers answer, the times and the fate of the transactions *)
Record attempt_world := mkAttemptWorld {
  aw_before : list stx; aw_receipts : list ASCPReceiptEvidence; aw_blocks : list ReorgEvidence; aw_read : time; aw_between : list stx; aw_now : time;
  aw_env : list (tx_env stx); aw_commit : commit_outcome }.

Section Worker.
Context `{Crypto}.
Context (rd : SettleReader).

Definition others (db : sdb) (l : list stx) : sdb := foldl apply_stx db l.

Fixpoint apply_pending (attempts : list PaymentAttempt) (world : nat -> attempt_world) (c : WorkerCycle) (db : sdb) : sdb * WorkerCycle * res unit :=
  match attempts with
  | [] => (db, c, Ok tt)
  | a :: rest =>
      let w := world 0%nat in
      let next := fun n => world (S n) in
      let db := others db (aw_before w) in
      match settle_Expected db (ai_OperationID (pa_Input a)) (ai_Action (pa_Input a)) with
      | Err m => (db, c, Err m)
      | Ok expected =>
          match settle_Read rd expected (aw_receipts w) (aw_read w) with
          | Err m => if deferredEvidence m then apply_pending rest next (count_deferred c) db else (db, c, Err m)
          | Ok result =>
              match settle_Apply (others db (aw_between w)) result (aw_now w) (aw_env w) with
              | (db, Err m) => (db, c, Err m)
              | (db, Ok _) => apply_pending rest next (count_applied c) db
              end
          end
      end
  end.

Fixpoint check_finalized (attempts : list PaymentAttempt) (world : nat -> attempt_world) (c : WorkerCycle) (db : sdb) : sdb * WorkerCycle * res unit :=
  match attempts with
  | [] => (db, c, Ok tt)
  | a :: rest =>
      let w := world 0%nat in
      let next := fun n => world (S n) in
      let c := count_check c in
      let i := pa_Input a in
      match settle_CheckCanonical rd (ai_OperationID i) (ai_Action i) (ai_TransactionHash i) (pa_BlockNumber a) (pa_BlockHash a) (aw_blocks w) (aw_read w) with
      | Err m => if deferredEvidence m then check_finalized rest next (count_deferred c) db else (db, c, Err m)
      | Ok result =>
          let db := others db (aw_between w) in
          if sg_Reorged result then
            match settle_ApplyReorg db result (aw_now w) (aw_env w) with
            | (db, Err m) => (db, c, Err m)
            | (db, Ok _) => check_finalized rest next (count_reorg c) db
            end
          else
            match settle_ConfirmCanonical db result (aw_now w) (aw_commit w) with
            | (db, Err m) => (db, c, Err m)
            | (db, Ok _) => check_finalized rest next (count_confirmed c) db
            end
      end
  end.

Definition RunOnce (batch : Z) (pendingWorld finalizedWorld : nat -> attempt_world) (middle : list stx) (db : sdb) : sdb * WorkerCycle * res unit :=
  match Pending db batch with
  | Err m => (db, noCycle, Err m)
  | Ok pending =>
      match apply_pending pending pendingWorld (count_pending (Z.of_nat (length pending)) noCycle) db with
      | (db, c, Err m) => (db, c, Err m)
      | (db, c, Ok _) =>
          let db := others db middle in
          match FinalizedUnchecked db batch with
          | Err m => (db, c, Err m)
          | Ok finalized => check_finalized finalized finalizedWorld c db
          end
      end
  end.

(** [Run]: a cycle at each tick until one fails; the error ends the worker, unless the
    context is done. *)
Record cycle_world := mkCycleWorld { cw_pending : nat -> attempt_world; cw_middle : list stx; cw_finalized : nat -> attempt_world; cw_done : bool; cw_after : list stx }.
Fixpoint worker_Run (batch : Z) (cycles : list cycle_world) (db : sdb) : sdb * res unit :=
  match cycles with
  | [] => (db, Ok tt)
  | w :: rest =>
      match RunOnce batch (cw_pending w) (cw_finalized w) (cw_middle w) db with
      | (db, _, Err m) => if cw_done w then (db, Ok tt) else (db, Err m)
      | (db, _, Ok _) => if cw_done w then (db, Ok tt) else worker_Run batch rest (others db (cw_after w))
      end
  end.
End Worker.
