(* ===== verification/SettlementTheorems.v ===== *)
(** * What the settlement tables always satisfy

    The books of an operation, its state and its reservation agree in every run of the
    transactions of [SettlementStore]; a reorg of the lock cannot be recorded once the
    operation is settled. *)
From stdpp Require Import base gmap strings list sorting.
From Stdlib Require Import ZArith Lia Ascii.
From S2P Require Import Prelude GoText GoJSON Amounts Crypto Envelope GovAction Reservation Recon DirectoryReader Intake TxRetry Settlement SettlementStore.

Open Scope Z_scope.

(** ** Sums over the ledger *)

Definition zsum (l : list Z) : Z := foldr Z.add 0 l.
Lemma zsum_app l k : zsum (l ++ k) = zsum l + zsum k.
Proof. induction l as [|x l IH]; cbn [zsum foldr app]; [done|]. unfold zsum in *. cbn. lia. Qed.

(** What a transaction of the ledger adds to an account *)
Definition tx_value (account : string) (t : SettleLedger) : Z :=
  zsum (map (fun p => if bool_decide (p.1 = account) then posted p.2 else 0) (sl_Postings t)).
(** The balance of an account in the books of an operation *)
Definition net (l : list SettleLedger) (id account : string) : Z :=
  zsum (map (fun t => if bool_decide (sl_OperationID t = id) then tx_value account t else 0) l).

Lemma net_snoc l t id account : net (l ++ [t]) id account = net l id account + (if bool_decide (sl_OperationID t = id) then tx_value account t else 0).
Proof. unfold net. rewrite map_app, zsum_app. cbn. lia. Qed.

Lemma net_foreign l id account : (forall t, t ∈ l -> sl_OperationID t <> id) -> net l id account = 0.
Proof.
  induction l as [|t l IH]; intros Hno; [done|]. unfold net in *. cbn [map zsum foldr].
  rewrite bool_decide_false by (apply Hno, list_elem_of_here). unfold zsum in IH. rewrite IH; [done|]. intros x Hx. apply Hno. by apply list_elem_of_further.
Qed.

Definition sides (k : LedgerKind) : string * string :=
  match k with ReleaseFinalized => (SellerExpense, Escrow) | RefundFinalized => (Wallet, Escrow) | _ => (Escrow, Wallet) end.
Definition kind_value (k : LedgerKind) (amount : Z) (account : string) : Z :=
  (if bool_decide ((sides k).1 = account) then amount else 0) - (if bool_decide ((sides k).2 = account) then amount else 0).

(** ** The standing transactions of an operation *)

Definition standings (db : sdb) (id : string) : list SettleLedger := List.filter (standing db id) (sd_ledger db).

Record ledger_wf (db : sdb) : Prop := {
  lw_ids : NoDup (map sl_ID (sd_ledger db));
  lw_targets : forall t i, t ∈ sd_ledger db -> sl_ReversalOf t = Some i -> i ∈ map sl_ID (sd_ledger db);
}.

Lemma existsb_false {A} (f : A -> bool) l : existsb f l = false <-> forall x, x ∈ l -> f x = false.
Proof.
  induction l as [|y l IH]; cbn [existsb].
  { split; [by intros _ x Hx%elem_of_nil|done]. }
  rewrite orb_false_iff, IH. split.
  - intros [Hy Hl] x [->|Hx]%elem_of_cons; auto.
  - intros Hl. split; [apply Hl; left|intros x Hx; apply Hl; by right].
Qed.
Lemma existsb_true {A} (f : A -> bool) l : existsb f l = true <-> exists x, x ∈ l /\ f x = true.
Proof.
  rewrite List.existsb_exists. split; intros (x & Hx & Hf); exists x; (split; [|done]); by apply list_elem_of_In.
Qed.

Lemma ids_eq db t u : ledger_wf db -> t ∈ sd_ledger db -> u ∈ sd_ledger db -> sl_ID t = sl_ID u -> t = u.
Proof.
  intros [Hnd _]. revert Hnd. generalize (sd_ledger db). intros l. induction l as [|x l IH]; intros Hnd Ht Hu E.
  { by apply elem_of_nil in Ht. }
  cbn [map] in Hnd. apply NoDup_cons in Hnd as [Hx Hnd].
  assert (Hin : forall y, y ∈ l -> sl_ID y ∈ map sl_ID l) by (intros y Hy; apply list_elem_of_fmap; eauto).
  apply elem_of_cons in Ht as [->|Ht], Hu as [->|Hu]; auto.
  - destruct Hx. rewrite E. auto.
  - destruct Hx. rewrite <- E. auto.
Qed.

Lemma ledger_keys_prop db t : ledger_keys_ok db t = true ->
  sl_ID t ∉ map sl_ID (sd_ledger db) /\ (forall i, sl_ReversalOf t = Some i -> i ∈ map sl_ID (sd_ledger db)) /\
  (forall x, x ∈ sd_ledger db -> ~ (sl_OperationID x = sl_OperationID t /\ sl_Kind x = sl_Kind t /\ sl_EvidenceDigest x = sl_EvidenceDigest t)).
Proof.
  unfold ledger_keys_ok. intros Hk. to_prop. destruct Hk as [[[[_ Hid] Hr] Hu] _]. split_and!.
  - intros (x & Ex & Hx)%list_elem_of_fmap. rewrite existsb_false in Hid. specialize (Hid x Hx). cbn in Hid.
    apply bool_decide_eq_false in Hid. congruence.
  - intros i Ei. rewrite Ei in Hr. to_prop. destruct Hr as [Hr _]. apply existsb_true in Hr as (x & Hx & Hd).
    apply bool_decide_eq_true in Hd. subst i. apply list_elem_of_fmap. eauto.
  - intros x Hx (E1 & E2 & E3). rewrite existsb_false in Hu. specialize (Hu x Hx). cbn in Hu. rewrite !bool_decide_true in Hu by done. done.
Qed.

Lemma insert_ledger_ok db o t db' : insert_ledger db o t = Ok db' ->
  ledger_keys_ok db t = true /\ postings_match db t (posted (po_AmountBaseUnits o)) = true /\ db' = set_ledger db (sd_ledger db ++ [t]).
Proof. unfold insert_ledger. rewrite !check_ok_iff. naive_solver. Qed.

Lemma insert_wf db t : ledger_wf db -> ledger_keys_ok db t = true -> ledger_wf (set_ledger db (sd_ledger db ++ [t])).
Proof.
  intros [Hn Ht] (Hid & Hr & _)%ledger_keys_prop. split; cbn [sd_ledger set_ledger]; rewrite map_app; cbn [map].
  - apply NoDup_app. split_and!; [done| |apply NoDup_singleton]. intros i Hi ->%list_elem_of_singleton. done.
  - intros x i [Hx|Hx]%elem_of_app Ei; rewrite elem_of_app; left; [by eapply Ht|]. apply list_elem_of_singleton in Hx as ->. by apply Hr.
Qed.

Lemma reversed_append db t x :
  reversed (set_ledger db (sd_ledger db ++ [t])) x = reversed db x || bool_decide (sl_ReversalOf t = Some (sl_ID x)).
Proof. unfold reversed. cbn [sd_ledger set_ledger]. rewrite existsb_app. cbn [existsb]. by rewrite orb_false_r. Qed.

Lemma not_reversed_fresh db i : ledger_wf db -> i ∉ map sl_ID (sd_ledger db) ->
  forall x, sl_ID x = i -> reversed db x = false.
Proof.
  intros [_ Ht] Hi x <-. unfold reversed. apply existsb_false. intros y Hy. apply bool_decide_eq_false. intros E. by apply Hi, (Ht y).
Qed.

Lemma filter_ext_in {A} (f g : A -> bool) l : (forall x, x ∈ l -> f x = g x) -> List.filter f l = List.filter g l.
Proof. intros E. apply List.filter_ext_in. intros x Hx. apply E. by apply list_elem_of_In. Qed.
Lemma elem_of_filterb {A} (f : A -> bool) l x : x ∈ List.filter f l <-> x ∈ l /\ f x = true.
Proof. rewrite !list_elem_of_In. apply List.filter_In. Qed.

(** A new transaction that reverses none stands after the others. *)
Lemma standings_post db t id : ledger_wf db -> ledger_keys_ok db t = true -> sl_ReversalOf t = None -> sl_Kind t <> Reversal ->
  standings (set_ledger db (sd_ledger db ++ [t])) id = standings db id ++ (if bool_decide (sl_OperationID t = id) then [t] else []).
Proof.
  intros Hwf Hk Hr Hkind. unfold standings. cbn [sd_ledger set_ledger]. rewrite List.filter_app. f_equal.
  - apply filter_ext_in. intros x Hx. unfold standing. rewrite reversed_append, Hr.
    by rewrite (bool_decide_false (None = _)), orb_false_r by done.
  - apply ledger_keys_prop in Hk as (Hid & _ & _). cbn [List.filter]. unfold standing. rewrite reversed_append, Hr.
    rewrite (not_reversed_fresh db (sl_ID t)) by done. rewrite (bool_decide_false (None = _)) by done. rewrite (bool_decide_false (sl_Kind t = Reversal)) by done.
    cbn. rewrite !andb_true_r. by case_bool_decide.
Qed.

(** A reversal takes its transaction out. *)
Lemma standings_reverse db t s id : ledger_wf db -> ledger_keys_ok db t = true -> s ∈ sd_ledger db -> sl_ReversalOf t = Some (sl_ID s) -> sl_Kind t = Reversal ->
  standings (set_ledger db (sd_ledger db ++ [t])) id = List.filter (fun x => negb (bool_decide (sl_ID x = sl_ID s))) (standings db id).
Proof.
  intros Hwf Hk Hs Hr Hkind. unfold standings. cbn [sd_ledger set_ledger]. rewrite List.filter_app. cbn [List.filter].
  assert (Et : standing (set_ledger db (sd_ledger db ++ [t])) id t = false).
  { unfold standing. rewrite Hkind, (bool_decide_true (Reversal = Reversal)) by done. cbn. by rewrite andb_false_r. }
  rewrite Et, app_nil_r. clear Et.
  assert (E : forall x, standing (set_ledger db (sd_ledger db ++ [t])) id x = standing db id x && negb (bool_decide (sl_ID x = sl_ID s))).
  { intros x. unfold standing. rewrite reversed_append, Hr.
    rewrite (bool_decide_ext (Some (sl_ID s) = Some (sl_ID x)) (sl_ID x = sl_ID s)) by (split; [by intros [= ->]|by intros ->]).
    rewrite negb_orb. by rewrite andb_assoc. }
  revert E. generalize (standing (set_ledger db (sd_ledger db ++ [t])) id). intros f E. clear -E. induction (sd_ledger db) as [|x l IH]; [done|].
  cbn [List.filter]. rewrite E. destruct (standing db id x); cbn; [|done]. destruct (bool_decide (sl_ID x = sl_ID s)); cbn; by rewrite IH.
Qed.

(** ** What a posting and a reversal are worth *)

Lemma two_postings (f : string * string -> string * Z) l a b : map f l = [a; b] -> exists p q, l = [p; q] /\ f p = a /\ f q = b.
Proof. destruct l as [|p [|q [|]]]; cbn; try done. intros [= <- <-]. eauto. Qed.

Lemma post_value db t amount d c v : postings_match db t amount = true -> sl_Postings t = [(d, v); (c, "-" +:+ v)] -> posted v = amount ->
  forall account, tx_value account t = (if bool_decide (d = account) then amount else 0) - (if bool_decide (c = account) then amount else 0).
Proof.
  intros Hm Hp Hv account. unfold postings_match in Hm. unfold tx_value. rewrite Hp in Hm |- *. cbn [map fst snd] in Hm |- *.
  apply andb_true_iff in Hm as [Hs _]. apply Z.eqb_eq in Hs. unfold zsum. cbn [foldr]. rewrite Hv in Hs |- *. repeat case_bool_decide; lia.
Qed.

Lemma reverse_value db t s amount : ledger_wf db -> s ∈ sd_ledger db -> sl_Kind t = Reversal -> sl_ReversalOf t = Some (sl_ID s) ->
  postings_match db t amount = true -> forall account, tx_value account t = - tx_value account s.
Proof.
  intros Hwf Hs Hk Hr Hm account. unfold postings_match in Hm. destruct (map _ (sl_Postings t)) as [|[a1 v1] [|[a2 v2] [|]]] eqn:E; try done.
  rewrite Hk, Hr in Hm. to_prop. destruct Hm as [_ Hm]. destruct (List.find _ (sd_ledger db)) as [x|] eqn:F; [|done].
  apply List.find_some in F as [Hx Ex]. apply bool_decide_eq_true in Ex. apply list_elem_of_In in Hx.
  assert (x = s) as -> by (eapply ids_eq; eauto). apply bool_decide_eq_true in Hm.
  apply two_postings in E as (p & q & Et & Ep & Eq). apply two_postings in Hm as (p' & q' & Es & Ep' & Eq').
  unfold tx_value. rewrite Et, Es. cbn. injection Ep as P1 P2. injection Eq as Q1 Q2. injection Ep' as P1' P2'. injection Eq' as Q1' Q2'.
  rewrite P1, P2, Q1, Q2, P1', Q1'. repeat case_bool_decide; lia.
Qed.

(** ** The books, the state and the reservation of an operation *)

(** What of an operation is on the ledger and not reversed *)
Inductive book := NoBook | LockBook | ReleaseBook | RefundBook.
Definition book_kinds (b : book) : list LedgerKind :=
  match b with
  | NoBook => []
  | LockBook => [LockFinalized]
  | ReleaseBook => [LockFinalized; ReleaseFinalized]
  | RefundBook => [LockFinalized; RefundFinalized]
  end.
Definition book_net (b : book) (amount : Z) (account : string) : Z := zsum (map (fun k => kind_value k amount account) (book_kinds b)).

Definition has_book (b : book) (amount : Z) (l : list SettleLedger) : Prop :=
  map sl_Kind l = book_kinds b /\ Forall (fun t => forall account, tx_value account t = kind_value (sl_Kind t) amount account) l.

Inductive agrees : OperationState -> RState -> book -> Prop :=
| agrees_signed : agrees AuthSigned AuthorizationLive NoBook
| agrees_submitted r : r = AuthorizationLive \/ r = CommittedSafe -> agrees LockSubmitted r NoBook
| agrees_safe : agrees LockedSafe CommittedSafe NoBook
| agrees_locked : agrees LockedFinalized CommittedFinalized LockBook
| agrees_released : agrees ReleasedFinalized Consumed ReleaseBook
| agrees_refunded : agrees RefundedFinalized Restored RefundBook
| agrees_reorged : agrees OpReorgedBack ReorgedBack NoBook
| agrees_pending r : r = AuthorizationLive \/ r = CommittedSafe -> agrees PendingChainRecovery r NoBook
| agrees_recovering : agrees PendingChainRecovery CommittedFinalized LockBook.

Definition lock_final (id : string) (a : PaymentAttempt) : Prop := attempt_of id ASCPReceiptLock a = true /\ pa_State a = AttemptFinalized.

Record op_inv (db : sdb) (id : string) (o : PaymentOperation) (b : book) (r : RState) : Prop := {
  oi_id : po_OperationID o = id;
  oi_row : sd_reservations db !! po_ReservationID o = Some (mkReservationRow id r);
  oi_agrees : agrees (po_State o) r b;
  oi_book : has_book b (posted (po_AmountBaseUnits o)) (standings db id);
  oi_net : forall account, net (sd_ledger db) id account = book_net b (posted (po_AmountBaseUnits o)) account;
  oi_lock : b <> NoBook -> exists a, a ∈ sd_attempts db /\ lock_final id a;
  oi_terminal : po_TerminalAction o = "" \/ r <> AuthorizationLive;
}.

Record settle_inv (db : sdb) : Prop := {
  si_wf : ledger_wf db;
  si_owned : forall t, t ∈ sd_ledger db -> is_Some (sd_operations db !! sl_OperationID t);
  si_ops : forall id o, sd_operations db !! id = Some o -> exists b r, op_inv db id o b r;
}.

(** ** What a transaction leaves alone *)

(** A transaction on the operation [id] changes nothing of another. *)
Record local (id : string) (db db' : sdb) : Prop := {
  lc_self : is_Some (sd_operations db !! id) -> is_Some (sd_operations db' !! id);
  lc_ops : forall j, j <> id -> sd_operations db' !! j = sd_operations db !! j;
  lc_wf : ledger_wf db -> ledger_wf db';
  lc_owned : forall t, t ∈ sd_ledger db' -> t ∈ sd_ledger db \/ sl_OperationID t = id;
  lc_stand : ledger_wf db -> forall j, j <> id -> standings db' j = standings db j;
  lc_net : forall j account, j <> id -> net (sd_ledger db') j account = net (sd_ledger db) j account;
  lc_rows : forall k row, vr_OperationID row <> id -> sd_reservations db !! k = Some row -> sd_reservations db' !! k = Some row;
  lc_locks : forall j a, j <> id -> a ∈ sd_attempts db -> lock_final j a -> a ∈ sd_attempts db';
}.

Lemma local_refl id db : local id db db.
Proof. split; auto. Qed.

Lemma local_trans id d1 d2 d3 : local id d1 d2 -> local id d2 d3 -> local id d1 d3.
Proof.
  intros [a1 a2 a3 a4 a5 a6 a7 a8] [b1 b2 b3 b4 b5 b6 b7 b8]. split; auto.
  - intros j Hj. by rewrite b2, a2.
  - intros t [Ht|Ht]%b4; auto.
  - intros Hwf j Hj. rewrite b5, a5; auto.
  - intros j account Hj. by rewrite b6, a6.
  - intros j a Hj Ha Hl. eauto.
Qed.

Lemma local_inv id db db' o' b r : settle_inv db -> local id db db' -> is_Some (sd_operations db !! id) ->
  sd_operations db' !! id = Some o' -> op_inv db' id o' b r -> settle_inv db'.
Proof.
  intros [Hwf Hown Hops] L Hid Ho' Hinv. split.
  - by apply (lc_wf _ _ _ L).
  - intros t [Ht| ->]%(lc_owned _ _ _ L); [|by rewrite Ho'].
    destruct (decide (sl_OperationID t = id)) as [->|Hne]; [by rewrite Ho'|]. rewrite (lc_ops _ _ _ L) by done. auto.
  - intros j o Hj. destruct (decide (j = id)) as [->|Hne].
    { rewrite Ho' in Hj. injection Hj as <-. eauto. }
    rewrite (lc_ops _ _ _ L) in Hj by done. destruct (Hops j o Hj) as (b' & r' & [I1 I2 I3 I4 I5 I6 I7]). exists b', r'. split; try done.
    + eapply (lc_rows _ _ _ L); [|done]. by cbn.
    + by rewrite (lc_stand _ _ _ L).
    + intros account. by rewrite (lc_net _ _ _ L).
    + intros Hb. destruct (I6 Hb) as (a & Ha & Hl). exists a. split; [|done]. by eapply (lc_locks _ _ _ L).
Qed.

Lemma local_observations id db v : local id db (set_observations db v).
Proof. split; auto. intros [H1 H2]. by split. Qed.
Lemma local_bearers id db v : local id db (set_bearers db v).
Proof. split; auto. intros [H1 H2]. by split. Qed.

Lemma local_operation id db f : local id db (update_operation db id f).
Proof.
  split; auto; cbn [sd_operations update_operation set_operations].
  - intros Hs. apply lookup_alter_is_Some. done.
  - intros j Hj. by rewrite lookup_alter_ne.
  - intros [H1 H2]. by split.
Qed.

Lemma attempt_named_of id act tx a : attempt_named id act tx a = true -> ai_OperationID (pa_Input a) = id.
Proof. unfold attempt_named, attempt_of. intros E. to_prop. by destruct E as [[E _] _]. Qed.

Lemma local_attempt id db act tx f : local id db (update_attempt db id act tx f).
Proof.
  split; auto; [intros [H1 H2]; by split|]. intros j a Hj Ha [Hl _]. cbn [sd_attempts update_attempt set_attempts]. apply list_elem_of_fmap. exists a.
  split; [|done]. destruct (attempt_named id act tx a) eqn:E; [|done]. apply attempt_named_of in E. unfold attempt_of in Hl. to_prop. naive_solver.
Qed.

Lemma local_append id db a : local id db (set_attempts db (sd_attempts db ++ [a])).
Proof. split; auto; [intros [H1 H2]; by split|]. intros j x _ Hx _. cbn. rewrite elem_of_app. auto. Qed.

Lemma update_reservation_ok db k row target db' : sd_reservations db !! k = Some row -> update_reservation db k target = Ok db' ->
  exists admissions active, db' = set_reservations db (<[k := mkReservationRow (vr_OperationID row) target]> (sd_reservations db)) admissions active.
Proof.
  intros Hrow. unfold update_reservation. rewrite Hrow. destruct (_ && _); [|intros [= <-]; eauto].
  destruct (sd_admissions db !! k) as [[|]|]; try done. rewrite check_ok_iff. intros [_ [= <-]]. eauto.
Qed.

Lemma local_reservation id db k r target db' : sd_reservations db !! k = Some (mkReservationRow id r) -> update_reservation db k target = Ok db' -> local id db db'.
Proof.
  intros Hrow (adm & act & ->)%(update_reservation_ok _ _ _ _ _ Hrow). split; auto; [intros [H1 H2]; by split|].
  intros k' row' Hne Hk'. cbn. destruct (decide (k = k')) as [->|Hkk]; [|by rewrite lookup_insert_ne]. rewrite Hrow in Hk'. injection Hk' as <-. done.
Qed.

Lemma standings_elem db id t : t ∈ standings db id -> t ∈ sd_ledger db /\ sl_OperationID t = id.
Proof. unfold standings. intros [Ht Hs]%elem_of_filterb. split; [done|]. unfold standing in Hs. to_prop. by destruct Hs as [[? _] _]. Qed.

Lemma filter_true {A} (f : A -> bool) l : (forall x, x ∈ l -> f x = true) -> List.filter f l = l.
Proof.
  induction l as [|x l IH]; intros Hf; [done|]. cbn [List.filter]. rewrite Hf by apply list_elem_of_here.
  f_equal. apply IH. intros y Hy. apply Hf. by apply list_elem_of_further.
Qed.

(** A posting or a reversal of one of its own transactions is local to the operation. *)
Lemma local_ledger id db t : sl_OperationID t = id -> ledger_keys_ok db t = true ->
  (sl_ReversalOf t = None /\ sl_Kind t <> Reversal) \/ (exists s, s ∈ standings db id /\ sl_ReversalOf t = Some (sl_ID s) /\ sl_Kind t = Reversal) ->
  local id db (set_ledger db (sd_ledger db ++ [t])).
Proof.
  intros Hop Hk Hcase. split; auto.
  - intros Hwf. by apply insert_wf.
  - cbn. intros x [Hx|Hx]%elem_of_app; [by left|]. apply list_elem_of_singleton in Hx as ->. by right.
  - intros Hwf j Hj. destruct Hcase as [[Hr Hkind]|(s & Hs & Hr & Hkind)].
    + rewrite standings_post by done. rewrite bool_decide_false, app_nil_r by congruence. done.
    + pose proof (standings_elem _ _ _ Hs) as [Hs1 Hs2]. rewrite (standings_reverse _ _ s) by done. apply filter_true. intros x [Hx1 Hx2]%standings_elem.
      apply negb_true_iff, bool_decide_eq_false. intros E. assert (x = s) by (eapply ids_eq; eauto). naive_solver.
  - intros j account Hj. cbn [sd_ledger set_ledger]. rewrite net_snoc, bool_decide_false by congruence. lia.
Qed.

(** ** What the books become *)

Lemma kinds_length b l : map sl_Kind l = book_kinds b -> length l = length (book_kinds b).
Proof. intros <-. by rewrite length_map. Qed.

Lemma book_snoc b k b' : book_kinds b' = book_kinds b ++ [k] -> forall amount account, book_net b' amount account = book_net b amount account + kind_value k amount account.
Proof. intros E amount account. unfold book_net. rewrite E, map_app, zsum_app. cbn. lia. Qed.

Section Steps.
Context `{Crypto}.

Lemma postLedger_ok db o kind digest now db' : postLedger db o kind digest now = Ok db' -> kind <> Reversal ->
  exists t, sl_OperationID t = po_OperationID o /\ sl_Kind t = kind /\ sl_ReversalOf t = None /\ ledger_keys_ok db t = true /\
    db' = set_ledger db (sd_ledger db ++ [t]) /\ forall account, tx_value account t = kind_value kind (posted (po_AmountBaseUnits o)) account.
Proof.
  unfold postLedger. intros E Hk. destruct kind; try done; apply insert_ledger_ok in E as (Hkeys & Hm & ->).
  all: match type of Hkeys with ledger_keys_ok _ ?t = true => exists t; split_and!; try done end.
  all: intros account; rewrite (post_value _ _ _ _ _ _ Hm eq_refl eq_refl); done.
Qed.

(** Posting the next step of the operation *)
Lemma post_book db o id b b' kind digest now db' : ledger_wf db -> postLedger db o kind digest now = Ok db' -> kind <> Reversal -> po_OperationID o = id ->
  book_kinds b' = book_kinds b ++ [kind] -> has_book b (posted (po_AmountBaseUnits o)) (standings db id) ->
  (forall account, net (sd_ledger db) id account = book_net b (posted (po_AmountBaseUnits o)) account) ->
  local id db db' /\ has_book b' (posted (po_AmountBaseUnits o)) (standings db' id) /\
  (forall account, net (sd_ledger db') id account = book_net b' (posted (po_AmountBaseUnits o)) account) /\
  db' = set_ledger db (sd_ledger db').
Proof.
  intros Hwf E Hkind <- Eb [Hb1 Hb2] Hn. destruct (postLedger_ok _ _ _ _ _ _ E Hkind) as (t & Ht1 & Ht2 & Ht3 & Hk & -> & Hv). split_and!.
  - apply local_ledger; try done. left. by rewrite Ht2.
  - rewrite standings_post by (try done; congruence). rewrite bool_decide_true by done. split.
    + by rewrite map_app, Hb1, Eb, <- Ht2.
    + apply Forall_app. split; [done|]. constructor; [by rewrite Ht2|done].
  - intros account. cbn [sd_ledger set_ledger]. rewrite net_snoc, bool_decide_true, Hn, Hv by done. by rewrite (book_snoc b kind b').
  - done.
Qed.

Lemma reverse_one_ok db o digest now s db' : reverse_one o digest now db s = Ok db' ->
  exists t, sl_OperationID t = po_OperationID o /\ sl_Kind t = Reversal /\ sl_ReversalOf t = Some (sl_ID s) /\ sl_EvidenceDigest t = digest /\
    ledger_keys_ok db t = true /\ postings_match db t (posted (po_AmountBaseUnits o)) = true /\ db' = set_ledger db (sd_ledger db ++ [t]).
Proof.
  unfold reverse_one. rewrite check_ok_iff, try_ok_iff. intros (_ & postings & _ & (Hk & Hm & ->)%insert_ledger_ok).
  match type of Hk with ledger_keys_ok _ ?t = true => exists t; by split_and! end.
Qed.

(** The two reversals of one piece of evidence collide on the key of the ledger. *)
Lemma reverse_two_fails db o digest now s u l : is_ok (fold_res (reverse_one o digest now) db (s :: u :: l)) = false.
Proof.
  rewrite fold_res_cons. destruct (reverse_one o digest now db s) as [d1|] eqn:E1; [|done]. rewrite fold_res_cons.
  destruct (reverse_one o digest now d1 u) as [d2|] eqn:E2; [|done]. exfalso.
  apply reverse_one_ok in E1 as (t1 & O1 & K1 & R1 & D1 & _ & _ & ->), E2 as (t2 & O2 & K2 & R2 & D2 & Hk & _ & _).
  apply ledger_keys_prop in Hk as (_ & _ & Hu). apply (Hu t1); [|split_and!; congruence]. cbn. apply elem_of_app. right. by apply list_elem_of_singleton.
Qed.

Lemma merge_sort_one {A} (R : A -> A -> Prop) `{forall x y, Decision (R x y)} x : merge_sort R [x] = [x].
Proof. done. Qed.

Lemma reverseLedger_one db o digest only now s db' : reverseLedger db o digest only now = Ok db' ->
  List.filter (fun t => standing db (po_OperationID o) t && match only with Some k => bool_decide (sl_Kind t = k) | None => true end) (sd_ledger db) = [s] ->
  reverse_one o digest now db s = Ok db'.
Proof.
  unfold reverseLedger. intros E F. rewrite F, merge_sort_one, fold_res_cons in E. by destruct (reverse_one o digest now db s).
Qed.

Lemma filter_filter_and {A} (f g : A -> bool) l : List.filter (fun x => f x && g x) l = List.filter g (List.filter f l).
Proof. induction l as [|x l IH]; [done|]. cbn. destruct (f x); cbn; [destruct (g x); by rewrite IH|done]. Qed.

Lemma filter_false {A} (f : A -> bool) l : (forall x, x ∈ l -> f x = false) -> List.filter f l = [].
Proof.
  induction l as [|x l IH]; intros Hf; [done|]. cbn [List.filter]. rewrite Hf by apply list_elem_of_here. apply IH. intros y Hy. apply Hf. by apply list_elem_of_further.
Qed.

Lemma standings_nodup db id : ledger_wf db -> NoDup (standings db id).
Proof.
  intros [Hnd _]. unfold standings. assert (Hl : NoDup (sd_ledger db)) by (by eapply NoDup_fmap_1). revert Hl. clear Hnd.
  induction (sd_ledger db) as [|x l IH]; intros Hl; [constructor|]. apply NoDup_cons in Hl as [Hx Hl]. cbn [List.filter].
  destruct (standing db id x); [|by apply IH]. apply NoDup_cons. split; [|by apply IH]. by intros [? _]%elem_of_filterb.
Qed.

(** Undoing the last step of the operation *)
Lemma reverse_book db o id b b' kind digest only now db' : ledger_wf db -> reverseLedger db o digest only now = Ok db' -> po_OperationID o = id ->
  book_kinds b = book_kinds b' ++ [kind] -> (only = Some kind /\ kind ∉ book_kinds b' \/ (only = None /\ b' = NoBook)) ->
  has_book b (posted (po_AmountBaseUnits o)) (standings db id) ->
  (forall account, net (sd_ledger db) id account = book_net b (posted (po_AmountBaseUnits o)) account) ->
  local id db db' /\ has_book b' (posted (po_AmountBaseUnits o)) (standings db' id) /\
  (forall account, net (sd_ledger db') id account = book_net b' (posted (po_AmountBaseUnits o)) account) /\
  db' = set_ledger db (sd_ledger db').
Proof.
  intros Hwf E <- Eb Hcase [Hb1 Hb2] Hn.
  assert (exists l s, standings db (po_OperationID o) = l ++ [s] /\ map sl_Kind l = book_kinds b' /\ sl_Kind s = kind) as (l & s & Es & El & Ek).
  { rewrite Eb in Hb1. destruct (standings db (po_OperationID o)) as [|x r] using rev_ind; [by destruct (book_kinds b')|].
    rewrite map_app in Hb1. apply app_inj_tail in Hb1 as [H1 H2]. by exists r, x. }
  assert (Hs : s ∈ standings db (po_OperationID o)) by (rewrite Es, elem_of_app; right; by apply list_elem_of_singleton).
  apply (reverseLedger_one _ _ _ _ _ s) in E.
  2: { rewrite filter_filter_and. change (List.filter (standing db (po_OperationID o)) (sd_ledger db)) with (standings db (po_OperationID o)).
       rewrite Es, List.filter_app. destruct Hcase as [[-> Hnot]|[-> ->]].
       - cbn [List.filter]. rewrite bool_decide_true by done. rewrite filter_false; [done|]. intros x Hx. apply bool_decide_eq_false. intros Ex.
         apply Hnot. rewrite <- El, <- Ex. apply list_elem_of_fmap. eauto.
       - destruct l; [done|by cbn in El]. }
  apply reverse_one_ok in E as (t & Ht1 & Ht2 & Ht3 & _ & Hk & Hm & ->). pose proof (standings_elem _ _ _ Hs) as [Hs1 Hs2]. split_and!.
  - apply local_ledger; try done. right. eauto.
  - rewrite (standings_reverse _ _ s) by done. rewrite Es, List.filter_app. cbn [List.filter]. rewrite bool_decide_true by done. cbn [negb]. rewrite app_nil_r.
    assert (El' : List.filter (fun x => negb (bool_decide (sl_ID x = sl_ID s))) l = l).
    { apply filter_true. intros x Hx. apply negb_true_iff, bool_decide_eq_false. intros Ex.
      assert (Hx' : x ∈ standings db (po_OperationID o)) by (rewrite Es, elem_of_app; by left). pose proof (standings_elem _ _ _ Hx') as [Hx1 _].
      assert (x = s) as -> by (eapply ids_eq; eauto). pose proof (standings_nodup db (po_OperationID o) Hwf) as Hnd. rewrite Es in Hnd.
      apply NoDup_app in Hnd as (_ & Hd & _). apply (Hd s Hx). by apply list_elem_of_singleton. }
    rewrite El'. split; [done|]. rewrite Es in Hb2. by apply Forall_app in Hb2 as [? _].
  - intros account. cbn [sd_ledger set_ledger]. rewrite net_snoc, bool_decide_true, Hn by done. rewrite (reverse_value db t s (posted (po_AmountBaseUnits o))) by done.
    rewrite (book_snoc b' kind b) by done. rewrite Forall_forall in Hb2. rewrite (Hb2 s Hs), Ek. lia.
  - done.
Qed.

(** ** Every transaction keeps the invariant *)

Lemma pick_active l : forall best e, foldl pick_attempt best l = Some e ->
  (exists a, (best = Some a \/ a ∈ l) /\ active_attempt (pa_State a) = true) -> active_attempt (pa_State e) = true.
Proof.
  induction l as [|x l IH]; intros best e; cbn [foldl].
  { intros -> (a & [[= ->]|Ha%elem_of_nil] & Hact); done. }
  intros E (a & Ha & Hact). apply (IH _ _ E). destruct best as [y|]; cbn [pick_attempt].
  2: { destruct Ha as [Ha|Ha]; [done|]. apply elem_of_cons in Ha as [->|Ha]; eauto. }
  destruct Ha as [[= ->]|[->|Ha]%elem_of_cons]; [| |eauto].
  - destruct (attempt_before a x) eqn:B; [eauto|]. exists x. split; [by left|]. unfold attempt_before in B. rewrite Hact in B.
    destruct (active_attempt (pa_State x)); done.
  - destruct (attempt_before y x) eqn:B; [|eauto]. exists y. split; [by left|]. unfold attempt_before in B. rewrite Hact in B.
    destruct (active_attempt (pa_State y)); done.
Qed.

Lemma loadAttempt_active db id act e : loadAttempt db id act = Some e ->
  (exists a, a ∈ sd_attempts db /\ attempt_of id act a = true /\ active_attempt (pa_State a) = true) -> active_attempt (pa_State e) = true.
Proof. intros E (a & Ha & Hof & Hact). eapply pick_active; [exact E|]. exists a. split; [right; by apply elem_of_filterb|done]. Qed.

Lemma pick_elem l : forall best e, foldl pick_attempt best l = Some e -> best = Some e \/ e ∈ l.
Proof.
  induction l as [|x l IH]; intros best e; cbn [foldl]; [by left|]. intros [E|E]%IH; [|right; by apply list_elem_of_further].
  destruct best as [y|]; cbn in E; [destruct (attempt_before y x); [by left|]|]; injection E as ->; right; apply list_elem_of_here.
Qed.

Lemma loadAttempt_of db id act e : loadAttempt db id act = Some e -> ai_Action (pa_Input e) = act.
Proof. intros [|[_ Hof]%elem_of_filterb]%pick_elem; [done|]. unfold attempt_of in Hof. to_prop. by destruct Hof. Qed.

Lemma keep_lock db id act tx f a : act <> ASCPReceiptLock -> a ∈ sd_attempts db -> lock_final id a -> a ∈ sd_attempts (update_attempt db id act tx f).
Proof.
  intros Hact Ha [Hl _]. cbn. apply list_elem_of_fmap. exists a. split; [|done]. unfold attempt_of in Hl. to_prop. destruct Hl as [_ Hl].
  unfold attempt_named, attempt_of. rewrite Hl, (bool_decide_false (_ = act)) by congruence. by rewrite andb_false_r.
Qed.

(** The operation of a transaction, with what is known of it *)
Lemma loaded db id o : settle_inv db -> loadOperation db id = Ok o -> sd_operations db !! id = Some o /\ exists b r, op_inv db id o b r.
Proof. unfold loadOperation. intros Hinv E. destruct (sd_operations db !! id) as [o'|] eqn:Ho; [|done]. injection E as ->. split; [done|]. by apply (si_ops _ Hinv). Qed.

(** An operation whose books and reservation stay as they are *)
Lemma op_inv_same db db' id o o' b r : op_inv db id o b r -> agrees (po_State o') r b -> po_OperationID o' = po_OperationID o ->
  po_ReservationID o' = po_ReservationID o -> po_AmountBaseUnits o' = po_AmountBaseUnits o -> (po_TerminalAction o' = "" \/ r <> AuthorizationLive) ->
  sd_reservations db' = sd_reservations db -> sd_ledger db' = sd_ledger db ->
  (b <> NoBook -> forall a, a ∈ sd_attempts db -> lock_final id a -> exists a', a' ∈ sd_attempts db' /\ lock_final id a') -> op_inv db' id o' b r.
Proof.
  intros [I1 I2 I3 I4 I5 I6 I7] Ha E1 E2 E3 Ht Er El Hk. split; rewrite ?E1, ?E2, ?E3, ?Er, ?El; try done.
  - unfold standings, standing, reversed in *. by rewrite El.
  - intros Hb. destruct (I6 Hb) as (a & Hin & Hl). eauto.
Qed.

Lemma agrees_terminal o r b id db : op_inv db id o b r -> po_TerminalAction o <> "" -> r <> AuthorizationLive.
Proof. intros [_ _ _ _ _ _ [?|?]]; done. Qed.

Lemma lock_posted_book db id b amount : has_book b amount (standings db id) -> lock_posted db id = true <-> b <> NoBook.
Proof.
  intros [Hk _]. unfold lock_posted. rewrite existsb_true. split.
  - intros (t & Ht & Hc). to_prop. destruct Hc as [[H1 H2] H3]. intros ->. assert (Hin : t ∈ standings db id).
    { apply elem_of_filterb. split; [done|]. unfold standing. rewrite H1, H2, H3, bool_decide_true by done. done. }
    destruct (standings db id); [by apply elem_of_nil in Hin|done].
  - intros Hb. assert (exists t, t ∈ standings db id /\ sl_Kind t = LockFinalized) as (t & Ht & Hkt).
    { destruct (standings db id) as [|t l]; [by destruct b|]. exists t. split; [apply list_elem_of_here|]. destruct b; cbn in Hk; try done; by injection Hk. }
    apply elem_of_filterb in Ht as [Ht Hs]. exists t. split; [done|]. unfold standing in Hs. to_prop. destruct Hs as [[H1 _] H3].
    done.
Qed.

Lemma agrees_pending_inv r b : agrees PendingChainRecovery r b -> (b = NoBook /\ (r = AuthorizationLive \/ r = CommittedSafe)) \/ (b = LockBook /\ r = CommittedFinalized).
Proof. inversion 1; auto. Qed.

Lemma register_new_inv db o i validated now db' x b r : settle_inv db -> sd_operations db !! ai_OperationID i = Some o -> op_inv db (ai_OperationID i) o b r ->
  (validated = true -> ai_Action i <> ASCPReceiptLock -> known_action (ai_Action i) = true -> po_TerminalAction o <> "") -> (validated = true -> ai_Action i = ASCPReceiptLock -> b = NoBook) ->
  register_new db o i validated now = Ok (db', x) -> settle_inv db'.
Proof.
  intros Hinv Ho Hop Hv1 Hv2. unfold register_new. rewrite !check_ok_iff, try_ok_iff. intros (Hv & Hk & Hst & _ & d & Hbind & [= <- _]).
  set (id := ai_OperationID i) in *. pose proof (oi_id _ _ _ _ _ Hop) as Hid. set (a := mkPaymentAttempt i AttemptSubmitted (pg_time now) 0 0 "" "" 0) in *.
  set (db1 := set_attempts db (sd_attempts db ++ [a])) in *.
  assert (Hkeep : forall y, y ∈ sd_attempts db -> lock_final id y -> exists y', y' ∈ sd_attempts db1 /\ lock_final id y').
  { intros y Hy Hl. exists y. split; [|done]. unfold db1. cbn. rewrite elem_of_app. by left. }
  unfold bind_attempt in Hbind. rewrite Hid in Hbind. case_bool_decide as Hlock.
  - rewrite check_ok_iff in Hbind. destruct Hbind as [_ [= <-]]. eapply (local_inv id db); [done| |by eexists|..].
    + eapply local_trans; [apply local_append|apply local_operation].
    + cbn [sd_operations update_operation set_operations db1 set_attempts]. rewrite lookup_alter_eq, Ho. reflexivity.
    + eapply (op_inv_same db); try done; [|by apply Hop]. cbn. destruct (bool_decide (po_State o = PendingChainRecovery)) eqn:Ep.
      * apply bool_decide_eq_true in Ep. pose proof (Hv2 Hv Hlock) as ->. pose proof (oi_agrees _ _ _ _ _ Hop) as Ha. rewrite Ep in Ha. inversion Ha; subst. by constructor.
      * cbn in Hst. to_prop. destruct Hst as [Est _]. pose proof (oi_agrees _ _ _ _ _ Hop) as Ha. rewrite Est in Ha. inversion Ha; subst. constructor. by left.
  - rewrite check_ok_iff in Hbind. destruct Hbind as [_ [= <-]]. eapply (local_inv id db); [done| |by eexists|..].
    + eapply local_trans; [apply local_append|apply local_operation].
    + cbn [sd_operations update_operation set_operations db1 set_attempts]. rewrite lookup_alter_eq, Ho. reflexivity.
    + pose proof (oi_agrees _ _ _ _ _ Hop) as Ha. destruct (bool_decide (po_State o = PendingChainRecovery)) eqn:Ep.
      * apply bool_decide_eq_true in Ep. cbn in Hv. pose proof (agrees_terminal _ _ _ _ _ Hop (Hv1 Hv Hlock Hk)) as Hr.
        change (lock_posted db1 id) with (lock_posted db id). pose proof (lock_posted_book _ _ _ _ (oi_book _ _ _ _ _ Hop)) as Hlp. rewrite Ep in Ha.
        eapply (op_inv_same db); try done; [|by right]. cbn [po_State with_state with_terminal]. apply agrees_pending_inv in Ha as [[-> Hr2]|[-> ->]].
        -- destruct (lock_posted db id); [by destruct (proj1 Hlp eq_refl)|]. destruct Hr2 as [->| ->]; [done|constructor].
        -- destruct (lock_posted db id); [constructor|]. by assert (false = true) by (by apply Hlp).
      * cbn in Hst. to_prop. destruct Hst as [Est _]. eapply (op_inv_same db); try done. destruct Est as [Est|Est]; rewrite Est in Ha; inversion Ha; subst; by right.
Qed.

Lemma register_inv db i now db' x : settle_inv db -> registerAttemptOnce db i now = Ok (db', x) -> settle_inv db'.
Proof.
  intros Hinv. unfold registerAttemptOnce. rewrite try_ok_iff. intros (o & Hload & E). destruct (loaded _ _ _ Hinv Hload) as (Ho & b & r & Hop).
  destruct (loadAttempt db (ai_OperationID i) (ai_Action i)) as [e|] eqn:El; [|eapply (register_new_inv db o i false); eauto; done].
  case_bool_decide; [by injection E as <- <-|]. rewrite try_ok_iff in E. destruct E as ([] & Hval & E). unfold validateAssetRecoveryRetry in Hval.
  rewrite !check_ok_iff in Hval. destruct Hval as (H1 & H2 & _). to_prop. destruct H1 as [[[[_ Hrev] _] _] _].
  eapply register_new_inv; eauto; intros _.
  - intros Hne Hk. destruct H2 as [?|H2]; [done|]. rewrite H2. by destruct (ai_Action i).
  - intros Hlock. destruct b; [done|..]; exfalso.
    all: destruct (oi_lock _ _ _ _ _ Hop) as (a & Ha & Hof & Hs); [done|]; rewrite Hlock in El;
      apply loadAttempt_active in El; [by rewrite Hrev in El|exists a; by rewrite Hs].
Qed.

(** Tables the invariant does not mention *)
Lemma settle_inv_ext db db' : sd_operations db' = sd_operations db -> sd_ledger db' = sd_ledger db -> sd_reservations db' = sd_reservations db ->
  (forall id a, a ∈ sd_attempts db -> lock_final id a -> exists a', a' ∈ sd_attempts db' /\ lock_final id a') -> settle_inv db -> settle_inv db'.
Proof.
  intros Eo El Er Ha [[W1 W2] Hown Hops]. split.
  - split; rewrite El; done.
  - intros t. rewrite El, Eo. apply Hown.
  - intros id o. rewrite Eo. intros (b & r & Hop)%Hops. exists b, r. eapply (op_inv_same db); try done; [apply Hop|apply Hop|intros _; apply Ha].
Qed.

Lemma agrees_unlocked o r b id db : op_inv db id o b r -> po_State o = LockSubmitted \/ po_State o = LockedSafe -> b = NoBook /\ (r = AuthorizationLive \/ r = CommittedSafe).
Proof. intros Hop Hs. pose proof (oi_agrees _ _ _ _ _ Hop) as Ha. destruct Hs as [Hs|Hs]; rewrite Hs in Ha; inversion Ha; auto. Qed.

Lemma apply_revert_inv db o a r now db' x b rs id : settle_inv db -> sd_operations db !! id = Some o -> op_inv db id o b rs ->
  apply_revert db o a r now = Ok (db', x) -> settle_inv db'.
Proof.
  intros Hinv Ho Hop. unfold apply_revert. rewrite !check_ok_iff. intros (_ & Hst & [= <- _]). pose proof (oi_id _ _ _ _ _ Hop) as ->.
  eapply (local_inv id db); [done| |by eexists|..].
  - eapply local_trans; [apply local_attempt|apply local_operation].
  - cbn [sd_operations update_operation set_operations update_attempt set_attempts]. rewrite lookup_alter_eq, Ho. reflexivity.
  - eapply (op_inv_same db); try done; cbn [po_State with_state po_TerminalAction]; [|apply Hop|].
    + pose proof (oi_agrees _ _ _ _ _ Hop) as Ha. case_bool_decide; to_prop; destruct Hst as [Hst|Hst]; rewrite Hst in Ha; inversion Ha; subst; constructor; auto.
    + intros Hb y Hy Hl. case_bool_decide as Hact; to_prop.
      { by destruct (agrees_unlocked _ _ _ _ _ Hop Hst) as [-> _]. }
      exists y. split; [|done]. by apply keep_lock.
Qed.

Lemma posted_book db o o' id b b' kind digest now db' : po_AmountBaseUnits o' = po_AmountBaseUnits o -> po_OperationID o' = po_OperationID o ->
  ledger_wf db -> postLedger db o' kind digest now = Ok db' -> kind <> Reversal -> po_OperationID o = id ->
  book_kinds b' = book_kinds b ++ [kind] -> has_book b (posted (po_AmountBaseUnits o)) (standings db id) ->
  (forall account, net (sd_ledger db) id account = book_net b (posted (po_AmountBaseUnits o)) account) ->
  local id db db' /\ has_book b' (posted (po_AmountBaseUnits o)) (standings db' id) /\
  (forall account, net (sd_ledger db') id account = book_net b' (posted (po_AmountBaseUnits o)) account) /\
  db' = set_ledger db (sd_ledger db').
Proof.
  intros Ea Eo Hwf E Hk Hid Eb Hb Hn. pose proof (post_book db o' id b b' kind digest now db' Hwf E Hk) as P.
  rewrite Ea, Eo in P. by apply P.
Qed.

Lemma apply_lock_inv db o a row r now db' x b rs id : settle_inv db -> sd_operations db !! id = Some o -> op_inv db id o b rs ->
  a ∈ sd_attempts db -> attempt_named id ASCPReceiptLock (ai_TransactionHash (pa_Input a)) a = true ->
  apply_lock db o a row r now = Ok (db', x) -> settle_inv db'.
Proof.
  intros Hinv Ho Hop Hin Hname. unfold apply_lock. rewrite !check_ok_iff. intros (_ & Hst & E). to_prop. destruct Hst as [Hst _].
  destruct (agrees_unlocked _ _ _ _ _ Hop Hst) as [-> Hrs]. pose proof Hop as [Hid Hrow Hag Hbook Hnet Hlock Hterm]. rewrite Hid in E.
  destruct (sr_Finality r); apply try_ok_iff in E as (d1 & Hset & E); unfold set_reservation in Hset.
  all: pose proof (local_reservation id _ _ _ _ _ Hrow Hset) as L1; destruct (update_reservation_ok _ _ _ _ _ Hrow Hset) as (adm & act & ->).
  - injection E as <- _. eapply (local_inv id db _ _ NoBook CommittedSafe); [done| |by eexists|..].
    + eapply local_trans; [exact L1|]. eapply local_trans; [apply local_bearers|]. eapply local_trans; [apply local_attempt|apply local_operation].
    + cbn [sd_operations update_operation set_operations update_attempt set_attempts consume_bearer set_bearers set_reservations]. rewrite lookup_alter_eq, Ho. reflexivity.
    + split; cbn; try done; [|constructor|by right]. by rewrite lookup_insert_eq.
  - apply try_ok_iff in E as (d2 & Hpost & [= <- _]).
    set (d := update_operation _ _ _) in Hpost. assert (Ld : local id db d).
    { eapply local_trans; [exact L1|]. eapply local_trans; [apply local_bearers|]. eapply local_trans; [apply local_attempt|apply local_operation]. }
    pose proof (fun E1 E2 W => posted_book d o _ id NoBook LockBook _ _ _ _ E1 E2 W Hpost) as P.
    destruct (P eq_refl eq_refl (lc_wf _ _ _ Ld (si_wf _ Hinv)) ltac:(done) Hid eq_refl Hbook Hnet) as (L2 & Hb' & Hn' & Hd2). clear P.
    eapply (local_inv id db _ _ LockBook CommittedFinalized); [done|by eapply local_trans|by eexists|..].
    + rewrite Hd2. unfold d. cbn [sd_operations update_operation set_operations update_attempt set_attempts consume_bearer set_bearers set_reservations set_ledger].
      rewrite lookup_alter_eq, Ho. reflexivity.
    + split; try done; [|constructor| |by right].
      * rewrite Hd2. unfold d. cbn. by rewrite lookup_insert_eq.
      * intros _. rewrite Hd2. unfold d. cbn. eexists. split; [apply list_elem_of_fmap; exists a; split; [reflexivity|done]|].
        rewrite Hname. unfold lock_final, attempt_of in *. cbn. unfold attempt_named, attempt_of in Hname. to_prop. naive_solver.
Qed.

Lemma terminal_plan action target reserved kind : terminal_of action = (target, reserved, kind) ->
  exists b, kind <> Reversal /\ book_kinds b = book_kinds LockBook ++ [kind] /\ agrees target reserved b /\ reserved <> AuthorizationLive /\
    (forall r b', agrees target r b' -> b' = b /\ r = reserved) /\ kind ∉ book_kinds LockBook.
Proof.
  intros E. destruct action; injection E as <- <- <-; [exists ReleaseBook|exists ReleaseBook|exists RefundBook|exists ReleaseBook].
  all: split_and!; try done; [constructor|by inversion 1|]. all: set_solver.
Qed.

Lemma apply_terminal_inv db o a row r now db' x b rs id : settle_inv db -> sd_operations db !! id = Some o -> op_inv db id o b rs ->
  er_Action (sr_Expected r) <> ASCPReceiptLock -> apply_terminal db o a row r now = Ok (db', x) -> settle_inv db'.
Proof.
  intros Hinv Ho Hop Hact. unfold apply_terminal. pose proof Hop as [Hid Hrow Hag Hbook Hnet Hlock Hterm]. rewrite Hid.
  destruct (negb _ || _ || _) eqn:Hc.
  { rewrite !check_ok_iff. intros (_ & _ & [= <- _]). eapply (settle_inv_ext db); try done. intros j y Hy Hl. exists y. split; [|done].
    destruct (decide (j = id)) as [->|Hne]; [by apply keep_lock|]. by apply (lc_locks _ _ _ (local_attempt id db _ _ _) j). }
  rewrite !check_ok_iff. intros (_ & _ & E). to_prop. destruct Hc as [[Hst _] _]. rewrite Hst in Hag. inversion Hag; subst b rs.
  set (act := er_Action (sr_Expected r)) in *. set (tx := ai_TransactionHash (pa_Input a)) in *.
  set (f := resolve AttemptFinalized now (sr_BlockNumber r) (sr_BlockHash r) (sr_EvidenceDigest r)) in *.
  destruct (terminal_of act) as [[target reserved] kind] eqn:Em. destruct (terminal_plan _ _ _ _ Em) as (b' & Hkind & Hb' & Hag' & Hne & _).
  apply try_ok_iff in E as (d1 & Hset & E). unfold set_reservation in Hset.
  assert (Hrow' : sd_reservations (update_attempt db id act tx f) !! po_ReservationID o = Some (mkReservationRow id CommittedFinalized)) by done.
  pose proof (local_reservation id _ _ _ _ _ Hrow' Hset) as L1. destruct (update_reservation_ok _ _ _ _ _ Hrow' Hset) as (adm & ac & ->).
  apply try_ok_iff in E as (d2 & Hpost & [= <- _]). set (d := update_operation _ _ _) in Hpost. assert (Ld : local id db d).
  { eapply local_trans; [apply local_attempt|]. eapply local_trans; [exact L1|apply local_operation]. }
  pose proof (fun E1 E2 W => posted_book d o _ id LockBook b' _ _ _ _ E1 E2 W Hpost) as P.
  destruct (P eq_refl eq_refl (lc_wf _ _ _ Ld (si_wf _ Hinv)) Hkind Hid Hb' Hbook Hnet) as (L2 & Hb2 & Hn2 & Hd2). clear P.
  eapply (local_inv id db _ _ b' reserved); [done|by eapply local_trans|by eexists|..].
  - rewrite Hd2. unfold d. cbn [sd_operations update_operation set_operations update_attempt set_attempts set_reservations set_ledger].
    rewrite lookup_alter_eq, Ho. reflexivity.
  - split; try done; [| |by right].
    + rewrite Hd2. unfold d. cbn. by rewrite lookup_insert_eq.
    + intros _. destruct (Hlock ltac:(done)) as (y & Hy & Hl). exists y. split; [|done]. rewrite Hd2. unfold d. cbn. by apply (keep_lock db).
Qed.

(** With two transactions standing, the lock cannot be reversed. *)
Lemma reverse_all_fails db o digest now s u l : standings db (po_OperationID o) = s :: u :: l -> is_ok (reverseLedger db o digest None now) = false.
Proof.
  intros Es. unfold reverseLedger. rewrite filter_filter_and. change (List.filter (standing db (po_OperationID o)) (sd_ledger db)) with (standings db (po_OperationID o)).
  rewrite Es, filter_true by done. pose proof (merge_sort_Permutation ledger_le (s :: u :: l)) as HP. destruct (merge_sort ledger_le (s :: u :: l)) as [|x [|y k]].
  - by apply Permutation_nil_cons in HP.
  - by apply Permutation_length in HP.
  - apply reverse_two_fails.
Qed.

Lemma reorg_lock_inv db0 observations attempts db o row r now db' x b id : settle_inv db0 -> sd_operations db0 !! id = Some o -> op_inv db0 id o b row ->
  db = set_attempts (set_observations db0 observations) attempts -> local id db0 db -> reorg_lock db o row r now = Ok (db', x) -> settle_inv db'.
Proof.
  intros Hinv Ho Hop Edb L0. assert (Hwf : ledger_wf db) by (by apply (lc_wf _ _ _ L0), Hinv).
  assert (Es0 : standings db id = standings db0 id) by (by rewrite Edb). unfold reorg_lock. rewrite check_ok_iff, try_ok_iff. intros (Hst & d1 & Hrev & E). apply try_ok_iff in E as (d2 & Hset & [= <- _]).
  pose proof Hop as [Hid Hrow Hag Hbook Hnet Hlock Hterm].
  rewrite <- Es0 in Hbook. assert (El : sd_ledger db = sd_ledger db0) by (by rewrite Edb). rewrite <- El in Hnet. assert (b = LockBook) as ->.
  { to_prop. clear Edb. destruct b; [inversion Hag; subst; naive_solver|done|..]; exfalso; destruct Hbook as [Hk _]; rewrite <- Hid in Hk;
      destruct (standings db (po_OperationID o)) as [|s [|u l]] eqn:Es; try done;
      pose proof (reverse_all_fails db o (sg_EvidenceDigest r) now s u l Es) as F; by rewrite Hrev in F. }
  destruct (reverse_book db o id LockBook NoBook LockFinalized _ None _ _ Hwf Hrev Hid eq_refl) as (L1 & Hb & Hn & Hd1); [by right|done|done|].
  unfold set_reservation in Hset. assert (Hrow' : sd_reservations d1 !! po_ReservationID o = Some (mkReservationRow id row)) by (by rewrite Hd1, Edb).
  pose proof (local_reservation id _ _ _ _ _ Hrow' Hset) as L2. destruct (update_reservation_ok _ _ _ _ _ Hrow' Hset) as (adm & ac & ->).
  rewrite Hid. eapply (local_inv id db0 _ _ NoBook ReorgedBack); [done| |by eexists|..].
  - eapply local_trans; [exact L0|]. eapply local_trans; [exact L1|]. eapply local_trans; [exact L2|apply local_operation].
  - rewrite Hd1, Edb. cbn [sd_operations update_operation set_operations set_reservations set_ledger set_attempts set_observations].
    rewrite lookup_alter_eq, Ho. reflexivity.
  - split; try done; [|constructor|by right]. cbn. by rewrite lookup_insert_eq.
Qed.

Lemma reorg_terminal_inv db o row r now db' x b id : settle_inv db -> sd_operations db !! id = Some o -> op_inv db id o b row ->
  reorg_terminal db o row r now = Ok (db', x) -> settle_inv db'.
Proof.
  intros Hinv Ho Hop. unfold reorg_terminal. destruct (terminal_of (sg_Action r)) as [[target reserved] kind] eqn:Em.
  destruct (terminal_plan _ _ _ _ Em) as (b0 & Hkind & Hb0 & Hag' & Hne & Huniq & Hnot). rewrite check_ok_iff, try_ok_iff.
  intros (Hst & d1 & Hrev & E). apply try_ok_iff in E as (d2 & Hset & [= <- _]). pose proof Hop as [Hid Hrow Hag Hbook Hnet Hlock Hterm].
  to_prop. destruct Hst as [Hst _]. rewrite Hst in Hag. destruct (Huniq _ _ Hag) as [-> ->].
  destruct (reverse_book db o id b0 LockBook kind _ (Some kind) _ _ (si_wf _ Hinv) Hrev Hid Hb0) as (L1 & Hb & Hn & Hd1); [by left|done|done|].
  unfold set_reservation in Hset. assert (Hrow' : sd_reservations d1 !! po_ReservationID o = Some (mkReservationRow id reserved)) by (by rewrite Hd1).
  pose proof (local_reservation id _ _ _ _ _ Hrow' Hset) as L2. destruct (update_reservation_ok _ _ _ _ _ Hrow' Hset) as (adm & ac & ->).
  rewrite Hid. eapply (local_inv id db _ _ LockBook CommittedFinalized); [done| |by eexists|..].
  - eapply local_trans; [exact L1|]. eapply local_trans; [exact L2|apply local_operation].
  - rewrite Hd1. cbn [sd_operations update_operation set_operations set_reservations set_ledger]. rewrite lookup_alter_eq, Ho. reflexivity.
  - split; try done; [|constructor| |by right].
    + cbn. by rewrite lookup_insert_eq.
    + intros _. destruct Hlock as (y & Hy & Hl); [by destruct b0|]. exists y. split; [|done]. rewrite Hd1. done.
Qed.

Lemma named_elem db id act tx a : loadAttemptByTransaction db id act tx = Some a -> a ∈ sd_attempts db /\ attempt_named id act tx a = true.
Proof. intros E. apply List.find_some in E as [Hin Hn]. split; [by apply list_elem_of_In|done]. Qed.

Lemma apply_once_inv db r now db' x : settle_inv db -> applyOnce db r now = Ok (db', x) -> settle_inv db'.
Proof.
  intros Hinv. unfold applyOnce. rewrite try_ok_iff. intros (o & Hload & E). destruct (loaded _ _ _ Hinv Hload) as (Ho & b & rs & Hop).
  destruct (loadAttemptByTransaction _ _ _ _) as [a|] eqn:Ea; [|done]. rewrite check_ok_iff in E. destruct E as [Hexp E]. apply bool_decide_eq_true in Hexp.
  apply named_elem in Ea as [Hin Hname]. destruct (observationStageExists _ _ _ _ _); [rewrite check_ok_iff in E; by destruct E as [_ [= <- _]]|].
  rewrite (oi_row _ _ _ _ _ Hop) in E. rewrite check_ok_iff in E. destruct E as [_ E].
  destruct (observationExists _ _); rewrite check_ok_iff in E; destruct E as [_ E]; [by injection E as <- _|]. cbn [vr_State] in E.
  match type of E with context [set_observations db ?v] => set (d := set_observations db v) in E end.
  assert (Hd : settle_inv d) by (eapply (settle_inv_ext db); eauto). assert (Hod : op_inv d (er_OperationID (sr_Expected r)) o b rs).
  { eapply (op_inv_same db); try done; [apply Hop|apply Hop|eauto]. }
  destruct (sr_Success r); cbn [negb] in E; [|by eapply apply_revert_inv].
  case_bool_decide as Hact; [|by eapply apply_terminal_inv]. eapply (apply_lock_inv d); try done.
  assert (ai_TransactionHash (pa_Input a) = er_TransactionHash (sr_Expected r)) as -> by (by rewrite <- Hexp). by rewrite <- Hact.
Qed.

Lemma reorg_once_inv db r now db' x : settle_inv db -> applyReorgOnce db r now = Ok (db', x) -> settle_inv db'.
Proof.
  intros Hinv. unfold applyReorgOnce. rewrite try_ok_iff. intros (o & Hload & E). destruct (loaded _ _ _ Hinv Hload) as (Ho & b & rs & Hop).
  destruct (loadAttemptByTransaction _ _ _ _) as [a|] eqn:Ea; [|done].
  destruct (observationStageExists _ _ _ _ _); rewrite check_ok_iff in E; destruct E as [_ E]; [by injection E as <- _|].
  rewrite (oi_row _ _ _ _ _ Hop) in E. destruct (observationExists _ _); rewrite check_ok_iff in E; destruct E as [_ E]; [by injection E as <- _|]. cbn [vr_State] in E.
  rewrite (oi_id _ _ _ _ _ Hop) in E. match type of E with context [set_observations db ?v] => set (obs := v) in E end.
  assert (Hd : settle_inv (set_observations db obs)) by (eapply (settle_inv_ext db); eauto).
  set (id := sg_OperationID r) in *. case_bool_decide as Hact.
  - eapply (reorg_lock_inv db obs _ _ o rs r now); try done. eapply local_trans; [apply local_observations|apply local_attempt].
  - match type of E with reorg_terminal ?d _ _ _ _ = _ => assert (Hd' : settle_inv d) end.
    { eapply (settle_inv_ext db); try done. intros j y Hy Hl. exists y. split; [|done].
      destruct (decide (j = id)) as [->|Hne]; [by apply keep_lock|]. by apply (lc_locks _ _ _ (local_attempt id (set_observations db obs) _ _ _) j). }
    eapply reorg_terminal_inv; [exact Hd'|exact Ho| |exact E]. eapply (op_inv_same db); try done; [apply Hop|apply Hop|].
    intros _ y Hy Hl. exists y. split; [|done]. by apply keep_lock.
Qed.

Lemma confirm_inv db r now db' x : settle_inv db -> confirm_body db r now = Ok (db', x) -> settle_inv db'.
Proof.
  intros Hinv. unfold confirm_body. destruct (List.find _ _) as [a|]; [|done].
  destruct (stale_check now a); [|rewrite check_ok_iff; by intros [_ [= <- _]]]. intros [= <- _]. eapply (settle_inv_ext db); try done.
  intros j y Hy Hl. cbn. exists (if attempt_named (sg_OperationID r) (sg_Action r) (sg_TransactionHash r) y then check_attempt now y else y).
  split; [apply list_elem_of_fmap; eauto|]. by destruct (attempt_named _ _ _ y).
Qed.

Lemma activate_inv db o : settle_inv db -> settle_inv (activate db o).
Proof.
  intros Hinv. unfold activate. destruct (_ && _ && _) eqn:Hc; [|done]. to_prop. destruct Hc as [[Hf Hnew] Hres].
  unfold fresh_operation in Hf. to_prop. destruct Hf as [[[[Hs _] _] Ht] _]. destruct Hinv as [[W1 W2] Hown Hops].
  assert (Hno : forall t, t ∈ sd_ledger db -> sl_OperationID t <> po_OperationID o).
  { intros t Ht' E. apply Hown in Ht'. rewrite E, Hnew in Ht'. by destruct Ht'. }
  split; cbn.
  - by split.
  - intros t Ht'. apply Hown in Ht'. apply lookup_insert_is_Some. destruct (decide (po_OperationID o = sl_OperationID t)); auto.
  - intros id p Hp. destruct (decide (po_OperationID o = id)) as [<-|Hne].
    + rewrite lookup_insert_eq in Hp. injection Hp as <-. exists NoBook, AuthorizationLive. split; cbn; try done.
      * by rewrite lookup_insert_eq.
      * rewrite Hs. constructor.
      * unfold standings. cbn. rewrite filter_false; [by split|]. intros t Ht'. unfold standing. by rewrite bool_decide_false by (by apply Hno).
      * intros account. exact (net_foreign _ _ account Hno).
      * by left.
    + rewrite lookup_insert_ne in Hp by done. destruct (Hops id p Hp) as (b & r & [I1 I2 I3 I4 I5 I6 I7]). exists b, r. split; try done.
      cbn. rewrite lookup_insert_ne; [done|]. intros E. by rewrite <- E, Hres in I2.
Qed.

Lemma committed_inv {A} (db : sdb) (r : res (sdb * A)) : settle_inv db -> (forall db' x, r = Ok (db', x) -> settle_inv db') -> settle_inv (committed db r).
Proof. intros Hdb Hr. destruct r as [[db' x]|m]; [by eapply Hr|done]. Qed.

Lemma apply_stx_inv db t : settle_inv db -> settle_inv (apply_stx db t).
Proof.
  intros Hinv. destruct t; cbn [apply_stx]; [by apply activate_inv|apply committed_inv; [done|]; intros db' x..|by eapply (settle_inv_ext db); eauto].
  - unfold register_body. rewrite check_ok_iff. intros [_ E]. by eapply register_inv.
  - unfold apply_body. rewrite try_ok_iff. intros (_ & _ & E). rewrite check_ok_iff in E. destruct E as [_ E]. by eapply apply_once_inv.
  - unfold reorg_body. rewrite check_ok_iff. intros [_ E]. by eapply reorg_once_inv.
  - unfold canonical_body. rewrite check_ok_iff. intros [_ E]. by eapply confirm_inv.
Qed.

Lemma settlement_run_inv ts : forall db, settle_inv db -> settle_inv (foldl apply_stx db ts).
Proof. induction ts as [|t ts IH]; intros db Hdb; cbn [foldl]; [done|]. by apply IH, apply_stx_inv. Qed.
End Steps.

(** ** Properties *)

Definition empty_sdb : sdb := mkSdb ∅ [] [] [] ∅ ∅ 0 ∅ ∅ [].
Lemma settlement_empty_inv : settle_inv empty_sdb.
Proof. split; [split; [constructor|]|..]; cbn; intros; set_solver. Qed.

(** What an operation in a state may have on its books: escrow, wallet and seller expense,
    with the state of its reservation *)
Definition state_books (s : OperationState) (n : Z) : list (RState * (Z * Z * Z)) :=
  match s with
  | AuthSigned => [(AuthorizationLive, (0, 0, 0))]
  | LockSubmitted => [(AuthorizationLive, (0, 0, 0)); (CommittedSafe, (0, 0, 0))]
  | LockedSafe => [(CommittedSafe, (0, 0, 0))]
  | LockedFinalized => [(CommittedFinalized, (n, - n, 0))]
  | ReleasedFinalized => [(Consumed, (0, - n, n))]
  | RefundedFinalized => [(Restored, (0, 0, 0))]
  | OpReorgedBack => [(ReorgedBack, (0, 0, 0))]
  | PendingChainRecovery => [(AuthorizationLive, (0, 0, 0)); (CommittedSafe, (0, 0, 0)); (CommittedFinalized, (n, - n, 0))]
  | OpQuarantined => []
  end.
Definition balances (db : sdb) (id : string) : Z * Z * Z := (net (sd_ledger db) id Escrow, net (sd_ledger db) id Wallet, net (sd_ledger db) id SellerExpense).

Lemma books_of_book b n : (book_net b n Escrow, book_net b n Wallet, book_net b n SellerExpense) =
  match b with NoBook => (0, 0, 0) | LockBook => (n, - n, 0) | ReleaseBook => (0, - n, n) | RefundBook => (0, 0, 0) end.
Proof.
  destruct b; unfold book_net, zsum; cbn [book_kinds map foldr]; unfold kind_value; cbn [sides fst snd];
    repeat match goal with |- context [bool_decide ?P] => first [rewrite (bool_decide_true P) by done|rewrite (bool_decide_false P) by done] end; repeat f_equal; lia.
Qed.

Lemma agrees_books s r b n : agrees s r b -> (r, (book_net b n Escrow, book_net b n Wallet, book_net b n SellerExpense)) ∈ state_books s n.
Proof. intros Ha. rewrite books_of_book. inversion Ha as [|? [->| ->]| | | | | |? [->| ->]|]; subst; cbn [state_books]; repeat (apply list_elem_of_here || apply list_elem_of_further). Qed.

Section Properties.
Context `{Crypto}.

(** C23: In every run of the settlement transactions the state of an operation, the state of
    its budget reservation and the balances of its books agree: nothing is booked before the
    lock is final, the amount is in escrow while it is locked, a release moves it to the
    seller's account, a refund and a reorg of the lock leave nothing, and an operation under
    recovery is booked either as locked or not at all. *)
Theorem settlement_books_match (ts : list stx) id o :
  let db := foldl apply_stx empty_sdb ts in
  sd_operations db !! id = Some o ->
  exists row, sd_reservations db !! po_ReservationID o = Some row /\ vr_OperationID row = id /\
    (vr_State row, balances db id) ∈ state_books (po_State o) (posted (po_AmountBaseUnits o)).
Proof.
  intros db Ho. destruct (si_ops _ (settlement_run_inv ts empty_sdb settlement_empty_inv) id o Ho) as (b & r & [_ Hrow Hag _ Hnet _ _]).
  exists (mkReservationRow id r). split_and!; [done..|]. unfold balances. fold db in Hnet. rewrite !Hnet. by apply agrees_books.
Qed.

(** C25: A reorg of the lock never takes effect once the operation was released or refunded:
    whatever the sealed evidence says, the transaction fails or repeats an earlier answer,
    and the tables stay as they are. *)
Theorem lock_reorg_after_settlement ts r now o :
  let db := foldl apply_stx empty_sdb ts in
  sd_operations db !! sg_OperationID r = Some o -> po_State o = ReleasedFinalized \/ po_State o = RefundedFinalized -> sg_Action r = ASCPReceiptLock ->
  apply_stx db (SReorg r now) = db.
Proof.
  intros db Ho Hst Hact. pose proof (settlement_run_inv ts empty_sdb settlement_empty_inv) as Hinv. fold db in Hinv. destruct (si_ops _ Hinv _ _ Ho) as (b & rs & Hop).
  cbn [apply_stx]. unfold reorg_body, committed. destruct (_ && _); [|done]. unfold applyReorgOnce, loadOperation. rewrite Ho.
  destruct (loadAttemptByTransaction _ _ _ _); [|done]. destruct (observationStageExists _ _ _ _ _); [by destruct (bool_decide _)|].
  destruct (_ && _ && _); [|done]. rewrite (oi_row _ _ _ _ _ Hop). destruct (observationExists _ _); [by destruct (bool_decide _)|].
  destruct (observation_fits _ _); [|done]. rewrite (bool_decide_true _ Hact). unfold reorg_lock. cbn [vr_State]. destruct (_ || _); [|done].
  match goal with |- context [reverseLedger ?d] => assert (F : is_ok (reverseLedger d o (sg_EvidenceDigest r) None now) = false) end.
  { destruct Hop as [Hid _ Hag [Hk _] _ _ _]. 
    assert (exists k1 k2, book_kinds b = [k1; k2]) as (k1 & k2 & Eb) by (destruct Hst as [Hst|Hst]; rewrite Hst in Hag; inversion Hag; subst; cbn; eauto).
    rewrite Eb in Hk. destruct (standings db (sg_OperationID r)) as [|s [|u l]] eqn:Es; try done. rewrite <- Hid in Es. apply (reverse_all_fails _ o _ now s u l). exact Es. }
  by destruct (reverseLedger _ _ _ _ _).
Qed.
End Properties.
