(* ===== verification/SettlementRuns.v ===== *)
(** * The reader's quorum and the worker's cycles

    A result of the reader stands for a quorum of distinct observers that agree; and one
    operation whose attempt can no longer be applied ends every cycle of the worker. *)
From stdpp Require Import base gmap strings list sorting.
From Stdlib Require Import ZArith Lia Ascii.
From S2P Require Import Prelude GoText GoJSON Amounts Crypto Envelope GovAction Reservation Recon DirectoryReader Intake TxRetry Settlement SettlementStore SettlementTheorems.

Open Scope Z_scope.

(** ** The reader *)

Lemma read_all {E} (provider : E -> string) head same l : forall ps m ps' m',
  fold_res (read_one provider head same) (ps, m) l = Ok (ps', m') -> NoDup ps ->
  ps' = ps ++ map provider l /\ NoDup ps' /\ m' <= m /\ Forall (fun e => same e = true /\ m' <= head e) l.
Proof.
  induction l as [|e l IH]; intros ps m ps' m'; cbn [map].
  { intros [= <- <-] Hnd. rewrite app_nil_r. split_and!; try done. }
  rewrite fold_res_cons, try_ok_iff. intros ([ps1 m1] & Hone & Hrest) Hnd. unfold read_one in Hone. rewrite !check_ok_iff in Hone.
  destruct Hone as (Hnew & Hsame & [= <- <-]). apply negb_true_iff, bool_decide_eq_false in Hnew. cbn [fst snd] in *.
  apply IH in Hrest as (-> & Hnd' & Hm & Hall).
  2: { apply NoDup_app. split_and!; [done| |apply NoDup_singleton]. intros x Hx ->%list_elem_of_singleton. done. }
  split_and!; [by rewrite <- app_assoc|done|lia|]. constructor; [split; [done|lia]|done].
Qed.

Section Quorum.
Context `{Crypto}.

(** C24: A result the reader seals is the report of at least the configured number of distinct
    observers: all of them give the same block, the same success and the same operation, and
    each of their heads is at least as many blocks past it as its finality requires. *)
Theorem receipt_quorum rd e evidence now r :
  Forall (fun x => is_uint64 (ae_ConfirmedHead x) /\ is_uint64 (ae_BlockNumber x)) evidence ->
  settle_Read rd e evidence now = Ok r ->
  sr_Expected r = e /\ sr_Providers r = map ae_Provider evidence /\ NoDup (sr_Providers r) /\ rd_minimum rd <= Z.of_nat (length (sr_Providers r)) /\
  Forall (fun x => ae_BlockNumber x = sr_BlockNumber r /\ ae_BlockHash x = sr_BlockHash r /\ ae_Success x = sr_Success r /\
                   match sr_Finality r with Finalized => rd_finalizedConfirmations rd | Safe => rd_safeConfirmations rd end <= ae_ConfirmedHead x - sr_BlockNumber r + 1)
         evidence.
Proof.
  intros Htyped. unfold settle_Read. rewrite !check_ok_iff. intros (_ & Hmin & Hr). destruct evidence as [|c rest]; [done|].
  destruct (fold_res _ _ _) as [[providers head]|] eqn:Hf; [|done]. apply read_all in Hf as (-> & Hnd & Hhead & Hall); [|constructor].
  rewrite !check_ok_iff in Hr. destruct Hr as (Hb & Hc & [= <-]). cbn [app] in *. cbn [sealed_result sr_Expected sr_Providers sr_BlockNumber sr_BlockHash sr_Success sr_Finality].
  rewrite <- (length_map ae_Provider) in Hmin. apply Z.leb_le in Hmin.
  to_prop. split_and!; try done. rewrite !Forall_forall in *. intros x Hx. destruct (Hall x Hx) as [Hs Hh].
  destruct (Htyped x Hx) as [Tx Bx]. destruct (Htyped c (list_elem_of_here _ _)) as [Tc Bc]. unfold same_receipt in Hs. to_prop. destruct_and?.
  assert (E : uint64 (head - ae_BlockNumber c + 1) = head - ae_BlockNumber c + 1).
  { unfold uint64, is_uint64, MaxUint64 in *. apply Z.mod_small. lia. }
  rewrite E in *. split_and!; try done; [by apply Bool.eqb_prop|]. destruct (rd_finalizedConfirmations rd <=? head - ae_BlockNumber c + 1) eqn:Ef.
  - apply Z.leb_le in Ef. lia.
  - apply Z.leb_gt in Ef. lia.
Qed.
End Quorum.

(** ** The worker *)

Lemma retry_refused {DB T A} (apply : DB -> T -> DB) exhausted (body : DB -> res (DB * A)) db : is_ok (body db) = false ->
  forall env, Forall (fun e => te_others e = []) env -> exists m, retry_tx apply exhausted body env db = (db, Err m).
Proof.
  intros Hb env. induction 1 as [|e env He _ IH]; cbn [retry_tx]; [eauto|]. rewrite He. cbn [foldl].
  destruct (te_serialization e); [done|]. unfold commit_tx. destruct (body db) as [[? ?]|]; [done|eauto].
Qed.

Section Stalls.
Context `{Crypto}.

(** A success of the lock of an operation that waits for none is refused. *)
Lemma lock_refused db o r now : sd_operations db !! er_OperationID (sr_Expected r) = Some o -> po_OperationID o = er_OperationID (sr_Expected r) ->
  er_Action (sr_Expected r) = ASCPReceiptLock -> po_State o <> LockSubmitted -> po_State o <> LockedSafe -> sr_Success r = true ->
  observationStageExists db (er_OperationID (sr_Expected r)) ASCPReceiptLock (StageOf (sr_Finality r)) (sr_BlockHash r) = None ->
  observationExists db (sr_EvidenceDigest r) = None -> is_ok (applyOnce db r now) = false.
Proof.
  intros Ho Hid Hact H1 H2 Hs Hstage Hobs. unfold applyOnce, loadOperation. rewrite Ho. destruct (loadAttemptByTransaction _ _ _ _) as [a|]; [|done].
  destruct (bool_decide (expectedReceipt o a = _)); [|done]. rewrite Hid, Hact, Hstage. destruct (sd_reservations db !! _) as [row|]; [|done].
  destruct (bool_decide (vr_OperationID row = _)); [|done]. rewrite Hobs. destruct (observation_fits _ _); [|done]. rewrite Hs. cbn [negb].
  rewrite (bool_decide_true (ASCPReceiptLock = _)) by done. unfold apply_lock. destruct (match sr_Finality r with Safe => _ | Finalized => _ end); [|done].
  rewrite (bool_decide_false (po_State o = LockSubmitted)), (bool_decide_false (po_State o = LockedSafe)) by done. done.
Qed.

(** C26: When the oldest pending attempt is the lock of an operation that has left the states in
    which a lock is applied (a release that reverted while the lock was only safe, for one),
    a quorum that reports the lock as successful, at a stage and with a digest that are not
    recorded yet and while nobody else writes, makes the worker stop with an error, and no
    other attempt is looked at: the tables stay as they were. A report that repeats a
    recorded one is answered as a replay, and the worker goes on. *)
Theorem settlement_worker_stalls rd batch ts a rest w ws o e r :
  let db := foldl apply_stx empty_sdb ts in
  let aw := cw_pending w 0%nat in
  Pending db batch = Ok (a :: rest) -> ai_Action (pa_Input a) = ASCPReceiptLock ->
  sd_operations db !! ai_OperationID (pa_Input a) = Some o -> po_State o <> LockSubmitted -> po_State o <> LockedSafe ->
  aw_before aw = [] -> aw_between aw = [] -> Forall (fun x => te_others x = []) (aw_env aw) -> cw_done w = false ->
  settle_Expected db (ai_OperationID (pa_Input a)) (ai_Action (pa_Input a)) = Ok e -> settle_Read rd e (aw_receipts aw) (aw_read aw) = Ok r -> sr_Success r = true ->
  observationStageExists db (ai_OperationID (pa_Input a)) ASCPReceiptLock (StageOf (sr_Finality r)) (sr_BlockHash r) = None ->
  observationExists db (sr_EvidenceDigest r) = None ->
  exists m, worker_Run rd batch (w :: ws) db = (db, Err m).
Proof.
  intros db aw Hp Hact Ho H1 H2 Hb1 Hb2 Henv Hdone He Hr Hs Hstage Hobs.
  pose proof (settlement_run_inv ts empty_sdb settlement_empty_inv) as Hinv. fold db in Hinv. destruct (si_ops _ Hinv _ _ Ho) as (b & rs & Hop). pose proof (oi_id _ _ _ _ _ Hop) as Hid.
  assert (sr_Expected r = e /\ er_OperationID e = ai_OperationID (pa_Input a) /\ er_Action e = ASCPReceiptLock) as (Er & Eid & Ea).
  { split.
    - unfold settle_Read in Hr. rewrite !check_ok_iff in Hr. destruct Hr as (_ & _ & Hr). destruct (aw_receipts aw) as [|c l]; [done|].
      destruct (fold_res _ _ _) as [[? ?]|]; [|done]. rewrite !check_ok_iff in Hr. by destruct Hr as (_ & _ & [= <-]).
    - unfold settle_Expected, loadOperation in He. rewrite check_ok_iff, Ho in He. destruct He as [_ He]. destruct (loadAttempt _ _ _) as [x|] eqn:El; [|done].
      injection He as <-. split; [done|]. cbn. rewrite <- Hact. by eapply loadAttempt_of. }
  assert (Hno : is_ok (applyOnce db r (aw_now aw)) = false) by (eapply lock_refused; rewrite ?Er, ?Eid; eauto).
  assert (exists m, settle_Apply db r (aw_now aw) (aw_env aw) = (db, Err m)) as [m Hm].
  { unfold settle_Apply. destruct (validateSettleResult r); [|eauto]. destruct (fresh_at _ _); [|eauto]. apply retry_refused; [done|]. by apply Forall_take. }
  exists m. cbn [worker_Run]. unfold RunOnce. rewrite Hp. cbn [apply_pending]. fold aw. rewrite Hb1, Hb2. cbn [others foldl]. rewrite He, Hr, Hm. by rewrite Hdone.
Qed.
End Stalls.
