(* ===== verification/SettlementDemo.v ===== *)
(** * Concrete settlement runs

    A payment that is locked and released, and one whose release reverts before its lock is
    final; they show that the hypotheses of the settlement theorems can hold. *)
From stdpp Require Import base gmap strings list sorting.
From Stdlib Require Import ZArith Lia Ascii.
From S2P Require Import Prelude GoText GoJSON Amounts Crypto Envelope GovAction Reservation Recon DirectoryReader Intake TxRetry Settlement SettlementStore SettlementTheorems SettlementRuns.

Open Scope Z_scope.

#[local] Existing Instance ToyCrypto.

Definition sd_now : time := time_of_unix 1750000000.
Definition sd_operation (c : string) : PaymentOperation :=
  mkPaymentOperation (demo_hash c) "org" "agent" (demo_hash c) (demo_hash c) (demo_hash c) (demo_hash c) (demo_hash c) 8453 demo_contract demo_asset demo_buyer
    demo_provider "1000" (time_of_unix 1750100000) AuthSigned "" 0 "" "" "" 0 "" sd_now sd_now.
Definition sd_reader : SettleReader := mkSettleReader 2 5 20.
Definition sd_attempt (c : string) (act : ReceiptAction) (tx : string) : AttemptInput :=
  let h := if bool_decide (act = ASCPReceiptRelease) then demo_hash "d" else "" in mkAttemptInput (demo_hash c) act (demo_hash tx) h h.
Definition sd_seen (block : Z) (hash : string) (head : Z) (success : bool) (provider : string) : ASCPReceiptEvidence :=
  mkASCPReceiptEvidence provider ASCPReceiptLock 8453 "" block (demo_hash hash) head success "" "".
Definition sd_evidence (block : Z) (hash : string) (head : Z) (success : bool) : list ASCPReceiptEvidence :=
  [sd_seen block hash head success "alpha"; sd_seen block hash head success "beta"].

(** The receipt of a registered attempt, as the worker obtains and applies it *)
Definition sd_receipt (ts : list stx) (c : string) (act : ReceiptAction) (evidence : list ASCPReceiptEvidence) : list stx :=
  match settle_Expected (foldl apply_stx empty_sdb ts) (demo_hash c) act with
  | Ok e => match settle_Read sd_reader e evidence sd_now with Ok r => ts ++ [SApply r sd_now] | Err _ => ts end
  | Err _ => ts
  end.
Definition sd_register (ts : list stx) (c : string) (act : ReceiptAction) (tx : string) : list stx := ts ++ [SRegister (sd_attempt c act tx) sd_now].

(** Locked, then released *)
Definition sd_locked : list stx := sd_receipt (sd_register [SActivate (sd_operation "1")] "1" ASCPReceiptLock "5") "1" ASCPReceiptLock (sd_evidence 100 "7" 130 true).
Definition sd_released : list stx := sd_receipt (sd_register sd_locked "1" ASCPReceiptRelease "6") "1" ASCPReceiptRelease (sd_evidence 110 "8" 140 true).

(** The release reverts while the lock is only safe; another payment is registered after it. *)
Definition sd_stuck : list stx :=
  let ts := sd_receipt (sd_register [SActivate (sd_operation "1"); SActivate (sd_operation "2")] "1" ASCPReceiptLock "5") "1" ASCPReceiptLock (sd_evidence 100 "7" 110 true) in
  let ts := sd_receipt (sd_register ts "1" ASCPReceiptRelease "6") "1" ASCPReceiptRelease (sd_evidence 102 "8" 125 false) in
  ts ++ [SRegister (sd_attempt "2" ASCPReceiptLock "9") (sd_now + Second)].

Definition sd_state (ts : list stx) (c : string) : option OperationState := po_State <$> sd_operations (foldl apply_stx empty_sdb ts) !! demo_hash c.

Example sd_states : sd_state sd_locked "1" = Some LockedFinalized /\ sd_state sd_released "1" = Some ReleasedFinalized /\
  sd_state sd_stuck "1" = Some PendingChainRecovery /\ sd_state sd_stuck "2" = Some LockSubmitted.
Proof. vm_compute. done. Qed.
Example sd_balances : balances (foldl apply_stx empty_sdb sd_locked) (demo_hash "1") = (1000, -1000, 0) /\
  balances (foldl apply_stx empty_sdb sd_released) (demo_hash "1") = (0, -1000, 1000).
Proof. vm_compute. done. Qed.

(** ** Witnesses *)

Lemma found {A} (x : option A) (P : A -> Prop) : match x with Some _ => true | None => false end = true -> (forall a, x = Some a -> P a) -> exists a, x = Some a /\ P a.
Proof. destruct x as [a|]; [eauto|done]. Qed.
Lemma answered {A} (x : res A) (P : A -> Prop) : is_ok x = true -> (forall a, x = Ok a -> P a) -> exists a, x = Ok a /\ P a.
Proof. destruct x as [a|]; [eauto|done]. Qed.

#[local] Notation sd_run ts := (foldl apply_stx empty_sdb ts).

Lemma settlement_books_match_witness : exists o, sd_operations (sd_run sd_released) !! demo_hash "1" = Some o /\
  exists row, sd_reservations (sd_run sd_released) !! po_ReservationID o = Some row /\ vr_OperationID row = demo_hash "1" /\
    (vr_State row, balances (sd_run sd_released) (demo_hash "1")) ∈ state_books (po_State o) (posted (po_AmountBaseUnits o)).
Proof. apply found; [vm_compute; reflexivity|]. intros o E. exact (settlement_books_match sd_released (demo_hash "1") o E). Defined.

Definition sd_block (provider : string) : ReorgEvidence := mkReorgEvidence provider 8453 (demo_hash "5") 100 (demo_hash "7") (demo_hash "a") 150.
#[local] Notation sd_reorg := (settle_CheckCanonical sd_reader (demo_hash "1") ASCPReceiptLock (demo_hash "5") 100 (demo_hash "7") [sd_block "alpha"; sd_block "beta"] sd_now).

(** A sealed reorg of the lock of a released operation: the transaction fails. *)
Example sd_reorg_fails : match sd_reorg with Ok r => is_ok (validateReorgResult r) && negb (is_ok (reorg_body r sd_now (sd_run sd_released))) | Err _ => false end = true.
Proof. vm_compute. reflexivity. Qed.

Lemma reorg_names r : sd_reorg = Ok r -> sg_OperationID r = demo_hash "1" /\ sg_Action r = ASCPReceiptLock.
Proof.
  unfold settle_CheckCanonical. rewrite !check_ok_iff. intros (_ & _ & E). destruct (fold_res _ _ _) as [[? ?]|]; [|done]. rewrite check_ok_iff in E.
  by destruct E as [_ [= <-]].
Qed.

Lemma lock_reorg_after_settlement_witness : exists r, sd_reorg = Ok r /\ exists o, sd_operations (sd_run sd_released) !! demo_hash "1" = Some o /\
  apply_stx (sd_run sd_released) (SReorg r sd_now) = sd_run sd_released.
Proof.
  apply answered; [vm_compute; reflexivity|]. intros r Er. apply reorg_names in Er as [Hid Hact]. rewrite <- Hid. apply found; [rewrite Hid; vm_compute; reflexivity|].
  intros o Eo. apply (lock_reorg_after_settlement sd_released r sd_now o Eo); [|exact Hact]. left. rewrite Hid in Eo.
  assert (S : po_State <$> sd_operations (sd_run sd_released) !! demo_hash "1" = Some ReleasedFinalized) by (vm_compute; reflexivity).
  rewrite Eo in S. by injection S.
Defined.

Lemma receipt_quorum_witness : exists e, settle_Expected (sd_run sd_stuck) (demo_hash "2") ASCPReceiptLock = Ok e /\
  exists r, settle_Read sd_reader e (sd_evidence 100 "7" 130 true) sd_now = Ok r /\ NoDup (sr_Providers r) /\ sr_Finality r = Finalized.
Proof.
  apply answered; [vm_compute; reflexivity|]. intros e Ee. assert (Hok : is_ok (settle_Read sd_reader e (sd_evidence 100 "7" 130 true) sd_now) = true).
  { vm_compute in Ee. injection Ee as <-. vm_compute. reflexivity. }
  apply (answered _ _ Hok). intros r Er.
  destruct (receipt_quorum sd_reader e (sd_evidence 100 "7" 130 true) sd_now r) as (_ & _ & Hnd & _ & _); [|done|split; [done|]].
  { repeat constructor; vm_compute; done. }
  vm_compute in Ee. injection Ee as <-. vm_compute in Er. by injection Er as <-.
Defined.

(** Nothing else happens, and the observers report the lock of the first payment as final. *)
Definition sd_quiet : attempt_world := mkAttemptWorld [] (sd_evidence 100 "7" 140 true) [] sd_now [] sd_now [mkTxEnv false Committed []] Committed.
Definition sd_cycle : cycle_world := mkCycleWorld (fun _ => sd_quiet) [] (fun _ => sd_quiet) false [].

Lemma state_of {A B} (f : A -> B) (x : option A) (a : A) (b : B) : f <$> x = Some b -> x = Some a -> f a = b.
Proof. intros H ->. by injection H. Qed.

Lemma settlement_worker_stalls_witness : exists m, worker_Run sd_reader 10 [sd_cycle; sd_cycle] (sd_run sd_stuck) = (sd_run sd_stuck, Err m).
Proof.
  destruct (answered (Pending (sd_run sd_stuck) 10) (fun l => exists a rest, l = a :: rest /\ ai_Action (pa_Input a) = ASCPReceiptLock /\
      ai_OperationID (pa_Input a) = demo_hash "1")) as (l & Ep & a & rest & El & Hact & Hid); [vm_compute; reflexivity|..].
  { intros l El. vm_compute in El. injection El as <-. do 2 eexists. split; [reflexivity|]. vm_compute. split; reflexivity. }
  rewrite El in Ep. clear El l.
  destruct (found (sd_operations (sd_run sd_stuck) !! demo_hash "1") (fun o => po_State o = PendingChainRecovery)) as (o & Eo & Hs); [vm_compute; reflexivity|..].
  { intros o Eo. refine (state_of po_State _ o _ _ Eo). vm_compute. reflexivity. }
  destruct (answered (settle_Expected (sd_run sd_stuck) (demo_hash "1") ASCPReceiptLock) (fun e => exists r, settle_Read sd_reader e (sd_evidence 100 "7" 140 true) sd_now = Ok r /\
      sr_Success r = true /\ observationStageExists (sd_run sd_stuck) (demo_hash "1") ASCPReceiptLock (StageOf (sr_Finality r)) (sr_BlockHash r) = None /\
      observationExists (sd_run sd_stuck) (sr_EvidenceDigest r) = None)) as (e & Ee & r & Er & Hr1 & Hr2 & Hr3); [vm_compute; reflexivity|..].
  { intros e Ee. vm_compute in Ee. injection Ee as <-. eexists. split; [vm_compute; reflexivity|]. vm_compute. repeat split; reflexivity. }
  rewrite <- Hid in Eo, Ee, Hr2. rewrite <- Hact in Ee.
  refine (settlement_worker_stalls sd_reader 10 sd_stuck a rest sd_cycle [sd_cycle] o e r Ep Hact Eo _ _ eq_refl eq_refl _ eq_refl Ee Er Hr1 Hr2 Hr3).
  - rewrite Hs. clear. discriminate.
  - rewrite Hs. clear. discriminate.
  - clear. repeat constructor.
Defined.
