(* ===== verification/Commitment.v ===== *)
(** * Execution commitments ([pkg/executioncommitment/commitment.go])

    The EIP-712 digest every money-moving boundary binds to. The values on the wire are
    those of seller quotes. *)
From stdpp Require Import base gmap strings list.
From Stdlib Require Import ZArith Lia Ascii.
From S2P Require Import Prelude GoText GoJSON Amounts Crypto Envelope GovAction GovActionTheorems SafeTx SellerQuote.

Open Scope Z_scope.

Definition CommitmentTypeString : string :=
  "ExecutionCommitment(bytes32 orgDomain,bytes32 operationId,uint8 rail,uint16 schemeVersion,uint8 protection,address escrowContract,bytes32 purchaseSpecHash,bytes32 quoteHash,bytes32 verificationSpecHash,uint64 declaredWorkTime,uint64 verificationBudgetSeconds,uint64 directoryVersion,bytes32 sellerId,bytes32 resourceId,address payTo,address ackAuthority,uint256 amount,uint256 chainId,address asset,uint64 quoteExpiresAt,uint64 acceptBy,uint64 deliverBy,uint64 settleBy)".

Definition RailEscrowCode : Z := 1.
Definition SchemeVersionV1 : Z := 1.
Definition ProtectionEscrow : Z := 1.
Definition ErrInvalidCommitment : error := "invalid execution commitment".
Definition ErrDomainMismatch : error := "execution commitment domain mismatch".

Record Commitment := mkCommitment {
  cm_OrgDomain : string; cm_OperationID : string; cm_Rail : Z; cm_SchemeVersion : Z; cm_Protection : Z; cm_EscrowContract : string;
  cm_PurchaseSpecHash : string; cm_QuoteHash : string; cm_VerificationSpecHash : string; cm_DeclaredWorkTime : Z; cm_VerificationBudgetSeconds : Z;
  cm_DirectoryVersion : Z; cm_SellerID : string; cm_ResourceID : string; cm_PayTo : string; cm_AckAuthority : string; cm_Amount : string;
  cm_ChainID : string; cm_Asset : string; cm_QuoteExpiresAt : Z; cm_AcceptBy : Z; cm_DeliverBy : Z; cm_SettleBy : Z }.

Definition commitment_hashes (c : Commitment) : list string :=
  [cm_OrgDomain c; cm_OperationID c; cm_PurchaseSpecHash c; cm_QuoteHash c; cm_VerificationSpecHash c; cm_SellerID c; cm_ResourceID c].
Definition commitment_addresses (c : Commitment) : list string := [cm_EscrowContract c; cm_PayTo c; cm_AckAuthority c; cm_Asset c].

Definition Commitment_Validate (c : Commitment) : res unit :=
  check forallb (fun v => is_ok (nonZeroHash v)) (commitment_hashes c) else ErrInvalidCommitment ;;
  check (cm_Rail c =? RailEscrowCode) && (cm_SchemeVersion c =? SchemeVersionV1) && (cm_Protection c =? ProtectionEscrow) else ErrInvalidCommitment ;;
  check negb (cm_DirectoryVersion c =? 0) && negb (cm_DeclaredWorkTime c =? 0) && negb (cm_VerificationBudgetSeconds c =? 0) &&
        negb (cm_QuoteExpiresAt c =? 0) && negb (cm_AcceptBy c =? 0) && negb (cm_DeliverBy c =? 0) && negb (cm_SettleBy c =? 0) &&
        (cm_AcceptBy c <? cm_DeliverBy c) && (cm_DeliverBy c <? cm_SettleBy c) else ErrInvalidCommitment ;;
  check forallb (fun v => is_ok (quote_address v)) (commitment_addresses c) else ErrInvalidCommitment ;;
  check is_ok (quote_uint256 (cm_Amount c) true) else ErrInvalidCommitment ;;
  check is_ok (quote_uint256 (cm_ChainID c) true) else ErrInvalidCommitment ;;
  Ok tt.

Section Digest.
Context `{Crypto}.

Definition commitmentTypeHash : string := keccak256 CommitmentTypeString.

Definition commitment_words (c : Commitment) : list string :=
  [commitmentTypeHash; hex_bytes (cm_OrgDomain c); hex_bytes (cm_OperationID c); be_bytes 32 (cm_Rail c); be_bytes 32 (cm_SchemeVersion c);
   be_bytes 32 (cm_Protection c); address_word (cm_EscrowContract c); hex_bytes (cm_PurchaseSpecHash c); hex_bytes (cm_QuoteHash c);
   hex_bytes (cm_VerificationSpecHash c); be_bytes 32 (cm_DeclaredWorkTime c); be_bytes 32 (cm_VerificationBudgetSeconds c);
   be_bytes 32 (cm_DirectoryVersion c); hex_bytes (cm_SellerID c); hex_bytes (cm_ResourceID c); address_word (cm_PayTo c);
   address_word (cm_AckAuthority c); decimal_word (cm_Amount c); decimal_word (cm_ChainID c); address_word (cm_Asset c);
   be_bytes 32 (cm_QuoteExpiresAt c); be_bytes 32 (cm_AcceptBy c); be_bytes 32 (cm_DeliverBy c); be_bytes 32 (cm_SettleBy c)].

Definition Commitment_StructHash (c : Commitment) : res string :=
  try _ := Commitment_Validate c in Ok (keccak256 (str_concat (commitment_words c))).

Definition commitment_domain (chainID verifyingContract : string) : res string :=
  try chain := quote_uint256 chainID true in
  try _ := quote_address verifyingContract in
  Ok (keccak256 (str_concat [quoteDomainTypeHash; nameHash; versionHash; be_bytes 32 chain; address_word verifyingContract])).

Definition Commitment_Digest (c : Commitment) (escrow domainChainID : string) : res string :=
  try _ := Commitment_Validate c in
  check bool_decide (escrow = cm_EscrowContract c) && bool_decide (domainChainID = cm_ChainID c) else ErrDomainMismatch ;;
  try structHash := Commitment_StructHash c in
  try domain := commitment_domain domainChainID escrow in
  Ok (keccak256 (eip712_prefix +:+ str_concat [domain; structHash])).
End Digest.

(** ** What the digest binds *)

Record commitment_ok (c : Commitment) : Prop := {
  co_hashes : Forall (fun v => gov_hash v false = true) (commitment_hashes c);
  co_addresses : Forall (fun v => gov_address v = true) (commitment_addresses c);
  co_amount : exists n, quote_uint256 (cm_Amount c) true = Ok n;
  co_chain : exists n, quote_uint256 (cm_ChainID c) true = Ok n;
  co_scheme : cm_Rail c = RailEscrowCode /\ cm_SchemeVersion c = SchemeVersionV1 /\ cm_Protection c = ProtectionEscrow;
  co_order : cm_AcceptBy c < cm_DeliverBy c < cm_SettleBy c;
}.

Lemma Commitment_Validate_ok c : Commitment_Validate c = Ok tt -> commitment_ok c.
Proof.
  unfold Commitment_Validate. rewrite !check_ok_iff, !is_ok_inv, !forallb_forall. intros (Hh & Hs & Ht & Had & Ham & Hc & _). to_prop.
  split; try done; try lia; apply Forall_forall; intros v Hv.
  - apply list_elem_of_In, Hh, is_ok_inv in Hv as [b Hv]. by apply nonZeroHash_ok in Hv as [Hv _].
  - apply list_elem_of_In, Had, is_ok_inv in Hv as [b Hv]. by apply quote_address_ok in Hv as [Hv _].
Qed.

(** The Go types of the integer fields that [Validate] does not fix *)
Definition commitment_typed (c : Commitment) : Prop :=
  is_uint64 (cm_DeclaredWorkTime c) /\ is_uint64 (cm_VerificationBudgetSeconds c) /\ is_uint64 (cm_DirectoryVersion c) /\ is_uint64 (cm_QuoteExpiresAt c) /\
  is_uint64 (cm_AcceptBy c) /\ is_uint64 (cm_DeliverBy c) /\ is_uint64 (cm_SettleBy c).

Section Binding.
Context `{Crypto} `{!CryptoLaws}.

Lemma commitment_words_ok c : commitment_ok c -> Forall is_word (commitment_words c).
Proof.
  intros [Hh Ha _ _ _ _]. unfold commitment_hashes, commitment_addresses in *. repeat rewrite Forall_cons in Hh. repeat rewrite Forall_cons in Ha.
  destruct_and!. unfold commitment_words, commitmentTypeHash, decimal_word. rewrite !Forall_cons.
  split_and!; auto using keccak_word, gov_hash_word, gov_addr_word, be_word.
Qed.

Lemma commitment_words_inj c d : commitment_ok c -> commitment_ok d -> commitment_typed c -> commitment_typed d ->
  commitment_words c = commitment_words d -> c = d.
Proof.
  intros [Hh Ha [a1 Ham] [n1 Hc] (R1 & S1 & P1) _] [Hh' Ha' [a2 Ham'] [n2 Hc'] (R2 & S2 & P2) _] (T1 & T2 & T3 & T4 & T5 & T6 & T7) (U1 & U2 & U3 & U4 & U5 & U6 & U7) E.
  unfold commitment_hashes, commitment_addresses in *.
  repeat rewrite Forall_cons in Hh. repeat rewrite Forall_cons in Ha. repeat rewrite Forall_cons in Hh'. repeat rewrite Forall_cons in Ha'.
  destruct_and!. word_by_word E. clear W W2 W3 W4.
  repeat match goal with
  | W : hex_bytes _ = hex_bytes _ |- _ => apply gov_hash_inj in W; [|assumption|assumption]
  | W : be_bytes 32 _ = be_bytes 32 _ |- _ => apply uint64_word in W; [|assumption|assumption]
  | W : address_word _ = address_word _ |- _ => apply gov_addr_inj in W; [|assumption|assumption]
  | W : decimal_word _ = decimal_word _ |- _ => eapply canonical_word_inj in W; [|eassumption|eassumption]
  end.
  destruct c, d. cbn [cm_OrgDomain cm_OperationID cm_Rail cm_SchemeVersion cm_Protection cm_EscrowContract cm_PurchaseSpecHash cm_QuoteHash cm_VerificationSpecHash
    cm_DeclaredWorkTime cm_VerificationBudgetSeconds cm_DirectoryVersion cm_SellerID cm_ResourceID cm_PayTo cm_AckAuthority cm_Amount cm_ChainID cm_Asset
    cm_QuoteExpiresAt cm_AcceptBy cm_DeliverBy cm_SettleBy] in *. clear -R1 S1 P1 R2 S2 P2 W0 W1 W5 W6 W7 W8 W9 W10 W11 W12 W13 W14 W15 W16 W17 W18 W19 W20 W21 W22.
  by subst.
Qed.

(** What is hashed for a commitment: the digest's text, its domain and its struct. *)
Definition commitment_domain_text (c : Commitment) : string :=
  str_concat [quoteDomainTypeHash; nameHash; versionHash; decimal_word (cm_ChainID c); address_word (cm_EscrowContract c)].
Definition commitment_texts (c : Commitment) : list string :=
  [eip712_prefix +:+ str_concat [keccak256 (commitment_domain_text c); keccak256 (str_concat (commitment_words c))];
   commitment_domain_text c; str_concat (commitment_words c)].

Lemma Commitment_Digest_ok c escrow chain h : Commitment_Digest c escrow chain = Ok h ->
  Commitment_Validate c = Ok tt /\ commitment_ok c /\ escrow = cm_EscrowContract c /\ chain = cm_ChainID c /\
  h = keccak256 (eip712_prefix +:+ str_concat [keccak256 (commitment_domain_text c); keccak256 (str_concat (commitment_words c))]).
Proof.
  unfold Commitment_Digest, Commitment_StructHash. intros ([] & Hv & Hd)%try_ok_iff. rewrite check_ok_iff in Hd. destruct Hd as [He Hd]. to_prop. destruct He as [-> ->].
  rewrite Hv in Hd. apply try_ok_iff in Hd as (dom & Hdom & Hd). apply (inj Ok) in Hd as <-. unfold commitment_domain in Hdom.
  apply try_ok_iff in Hdom as (n & Hn & Hdom). apply try_ok_iff in Hdom as (a & _ & Hdom).
  apply (inj Ok) in Hdom as <-. split_and!; try done; [by apply Commitment_Validate_ok|].
  unfold commitment_domain_text, decimal_word. apply quote_uint256_ok in Hn as (_ & -> & _). reflexivity.
Qed.

(** The digest of a commitment determines every field of it, or two texts hashed for
    the commitments collide. *)
Lemma commitment_digest_binds c1 e1 n1 c2 e2 n2 h : commitment_typed c1 -> commitment_typed c2 ->
  Commitment_Digest c1 e1 n1 = Ok h -> Commitment_Digest c2 e2 n2 = Ok h ->
  c1 = c2 \/ collide_in (commitment_texts c1) (commitment_texts c2).
Proof.
  intros T1 T2 (_ & O1 & _ & _ & ->)%Commitment_Digest_ok (_ & O2 & _ & _ & E)%Commitment_Digest_ok.
  apply (keccak_eq_in (commitment_texts c1) (commitment_texts c2)) in E as [E|]; [|by right|unfold commitment_texts; listed..].
  apply str_app_inv_head in E. apply concat_words_inj in E; [|repeat constructor; apply keccak_word..].
  word_by_word E.
  apply (keccak_eq_in (commitment_texts c1) (commitment_texts c2)) in W0 as [Es|]; [|by right|unfold commitment_texts; listed..].
  apply concat_words_inj in Es; [|by apply commitment_words_ok..].
  left. by apply commitment_words_inj.
Qed.
End Binding.
