(* ===== verification/ExecStore.v ===== *)
(** * Execution authorization ([internal/ascpexecauth], [internal/ascpcapacity], the reviews of
      [internal/ascpapproval])

    The digests and dimensions an authorization is bound to, then the boundary's transaction.

    ** Reviews, budget dimensions and snapshots

    What an approver is shown and its digest, the digest of a policy configuration, the
    budget dimensions of a purchase, and the snapshot an execution authorization binds. *)
From stdpp Require Import base gmap strings list sorting.
From Stdlib Require Import ZArith Lia Ascii.
From S2P Require Import Prelude GoText GoJSON Amounts Crypto Envelope Policy Reservation GovAction SafeTx SellerQuote Url PurchaseSpec Intake DirectoryReader TxRetry SettlementStore Commitment.

Open Scope Z_scope.

(** ** Reviews and approvals *)

Definition ApprovalTTL : duration := 24 * Hour.

Inductive ApprovalState := ApRequested | ApApproved | ApRejected | ApExpired | ApCancelled.
#[export] Instance ApprovalState_eq_dec : EqDecision ApprovalState.
Proof. solve_decision. Defined.

Definition ErrSnapshotMismatch : error := "approval review snapshot mismatch".
Definition ErrNotRequested : error := "approval is no longer requested".

Record Review := mkReview {
  rw_CommitmentHash : string; rw_PolicyVersion : string; rw_PolicyHash : string; rw_DirectoryVersion : Z; rw_PayTo : string; rw_AckAuthority : string;
  rw_AmountBaseUnits : string; rw_VerificationSpecHash : string; rw_Protection : string; rw_ChainID : string; rw_Asset : string }.

Record ReviewApproval := mkReviewApproval {
  ap_ApprovalID : string; ap_OrganizationID : string; ap_IntentID : string; ap_State : ApprovalState; ap_ReviewSnapshotHash : string;
  ap_RequestedAt : Z; ap_ExpiresAt : Z; ap_DecidedAt : Z; ap_DecidedBy : string; ap_CancelReason : string }.

Definition positiveDecimal (v : string) : bool :=
  match v with EmptyString => false | String c _ => negb (code c =? 48) && str_all is_digit v end.

Definition review_ok (r : Review) : bool :=
  gov_hash (rw_CommitmentHash r) false && ValidIdentifier (rw_PolicyVersion r) && gov_hash (rw_PolicyHash r) false && negb (rw_DirectoryVersion r =? 0) &&
  gov_address (rw_PayTo r) && gov_address (rw_AckAuthority r) && positiveDecimal (rw_AmountBaseUnits r) && gov_hash (rw_VerificationSpecHash r) false &&
  negb (bool_decide (TrimSpace (rw_Protection r) = "")) && (str_len (rw_Protection r) <=? 64) && positiveDecimal (rw_ChainID r) && gov_address (rw_Asset r).

Definition json_Review (r : Review) : string :=
  json_object [("commitmentHash", Some (json_string (rw_CommitmentHash r))); ("policyVersion", Some (json_string (rw_PolicyVersion r)));
    ("policyHash", Some (json_string (rw_PolicyHash r))); ("directoryVersion", Some (json_int (rw_DirectoryVersion r))); ("payTo", Some (json_string (rw_PayTo r)));
    ("ackAuthority", Some (json_string (rw_AckAuthority r))); ("amountBaseUnits", Some (json_string (rw_AmountBaseUnits r)));
    ("verificationSpecHash", Some (json_string (rw_VerificationSpecHash r))); ("protection", Some (json_string (rw_Protection r)));
    ("chainId", Some (json_string (rw_ChainID r))); ("asset", Some (json_string (rw_Asset r)))].

(** ** Policies as they are stored *)

(** A configuration read from JSON; a list that may be empty is [null] or absent, or [[]] *)
Record StoredPolicy := mkStoredPolicy { sy_config : PolicyConfig; sy_null_categories : bool; sy_null_rails : bool }.

Definition json_list (null : bool) (l : list string) : string := match l with [] => if null then "null" else "[]" | _ => json_array l end.

Definition json_Config (p : StoredPolicy) : string :=
  let c := sy_config p in
  json_object [("version", Some (json_string (cfg_Version c))); ("enabled", Some (json_bool (cfg_Enabled c)));
    ("allowedChainIds", Some (json_array (map json_int (cfg_AllowedChainIDs c)))); ("allowedRails", Some (json_array (map json_string (cfg_AllowedRails c))));
    ("allowedAssets", Some (json_array (map json_string (cfg_AllowedAssets c)))); ("allowedRecipients", Some (json_array (map json_string (cfg_AllowedRecipients c))));
    ("blockedCategories", Some (json_list (sy_null_categories p) (map json_string (cfg_BlockedCategories c))));
    ("approvalRequiredRails", Some (json_list (sy_null_rails p) (map json_string (cfg_ApprovalRequiredRails c))));
    ("perActionLimitAtomic", Some (json_string (cfg_PerActionLimitAtomic c))); ("autoApproveThresholdAtomic", Some (json_string (cfg_AutoApproveThresholdAtomic c)));
    ("taskBudgetAtomic", Some (json_string (cfg_TaskBudgetAtomic c))); ("dailyBudgetAtomic", Some (json_string (cfg_DailyBudgetAtomic c)));
    ("categoryDailyBudgetAtomic", omit_empty (cfg_CategoryDailyBudgetAtomic c)); ("lifetimeBudgetAtomic", omit_empty (cfg_LifetimeBudgetAtomic c));
    ("organizationDailyBudgetAtomic", omit_empty (cfg_OrganizationDailyBudgetAtomic c))].

(** ** Execution authorizations *)

Definition ErrApprovalNotApproved : error := "approval is not approved".
Definition ErrReviewExpired : error := "approval is expired".
Definition ErrApprovalSnapshot : error := "approval snapshot does not match".
Definition ErrAlreadyEvaluated : error := "execution authorization is already evaluated".
Definition ErrRevalidationFailed : error := "execution authorization revalidation failed".
Definition ErrInvalidInput : error := "execution authorization input is invalid".
Definition ReservationTTL : duration := 15 * Minute.

(** [NotEvaluated] is never stored. *)
Inductive ExecState := ValidatedAndReserved | Invalidated.
#[export] Instance ExecState_eq_dec : EqDecision ExecState.
Proof. solve_decision. Defined.

Record ExecInput := mkExecInput {
  ei_AuthorizationID : string; ei_ApprovalID : string; ei_ApprovalSnapshotHash : string; ei_AutoDecisionRef : string; ei_IntentID : string;
  ei_ExecutionSnapshotHash : string; ei_Review : Review; ei_Reservation : ReserveRequest }.

(** ** Budget dimensions *)

Definition BudgetDimensionAgentCategoryDay : string := "agent-category-day".
Definition BudgetDimensionAgentDay : string := "agent-day".
Definition BudgetDimensionAgentTask : string := "agent-task".
Definition BudgetDimensionAgentLifetime : string := "agent-lifetime".
Definition BudgetDimensionOrganizationDay : string := "organization-day".

(** [now.UTC().Format("2006-01-02")], from year 0 on *)
Definition day_text (now : time) : string :=
  let '(year, month, day) := civil (now / Second / 86400) in pad_int 4 year +:+ "-" +:+ pad_int 2 month +:+ "-" +:+ pad_int 2 day.

Definition dimension_le (x y : Dimension) : Prop := String.le (dim_ID x) (dim_ID y).
#[export] Instance dimension_le_dec x y : base.Decision (dimension_le x y).
Proof. unfold dimension_le. apply _. Defined.
#[export] Instance Dimension_eq_dec : EqDecision Dimension.
Proof. solve_decision. Defined.

(** Requests name a dimension once, so the order of [sort.Slice] is the only one. *)
Definition sorted_dimensions (l : list Dimension) : list Dimension := merge_sort dimension_le l.

Definition sameDimensions (left right : list Dimension) : bool :=
  Nat.eqb (length left) (length right) && bool_decide (sorted_dimensions left = sorted_dimensions right).

Definition json_Dimension (d : Dimension) : string :=
  json_object [("ID", Some (json_string (dim_ID d))); ("Limit", Some (json_string (dim_Limit d))); ("Refundable", Some (json_bool (dim_Refundable d)))].

(** A positive integer of at most 256 bits in decimal digits *)
Definition exec_positiveInteger (v : string) : option Z :=
  if positiveDecimal v then match SetString10 v with Some n => if (0 <? n) && fits256 n then Some n else None | None => None end else None.

Definition dimension_step (amount : Z) (seen : gset string) (d : Dimension) : res (gset string) :=
  match exec_positiveInteger (dim_Limit d) with
  | None => Err ErrInvalidInput
  | Some limit =>
      check bool_decide (TrimSpace (dim_ID d) = dim_ID d) && negb (bool_decide (dim_ID d = "")) && (str_len (dim_ID d) <=? 256) else ErrInvalidInput ;;
      check negb (bool_decide (dim_ID d ∈ seen)) else ErrInvalidInput ;;
      check amount <=? limit else ErrInvalidInput ;;
      Ok ({[dim_ID d]} ∪ seen)
  end.
Definition validateReservation (r : ReserveRequest) : res unit :=
  match exec_positiveInteger (rq_Amount r) with
  | None => Err ErrInvalidInput
  | Some amount =>
      check negb (bool_decide (rq_Dimensions r = [])) else ErrInvalidInput ;;
      try _ := fold_res (dimension_step amount) ∅ (rq_Dimensions r) in Ok tt
  end.

Section Hashes.
Context `{Crypto, Unicode}.

Definition ReviewHash (r : Review) : res string :=
  check review_ok r else "approval review is invalid" ;;
  Ok (hex_hash (sha256 ("ASCP_APPROVAL_REVIEW_V1" +:+ newline +:+ json_Review r))).

Definition ConfigHash (p : StoredPolicy) : res string :=
  try _ := policy_Compile (sy_config p) in
  Ok (hex_hash (sha256 ("ASCP_POLICY_CONFIG_V1" +:+ newline +:+ json_Config p))).

Definition BudgetDimensionID (kind : string) (parts : list string) : string :=
  kind +:+ ":" +:+ hex_encode (sha256 ("ASCP_BUDGET_DIMENSION_V1" +:+ newline +:+
    json_object [("kind", Some (json_string kind)); ("parts", Some (json_array (map json_string parts)))])).

Definition or_daily (limit : string) (c : PolicyConfig) : string := if bool_decide (limit = "") then cfg_DailyBudgetAtomic c else limit.

Definition RequiredBudgetDimensions (p : StoredPolicy) (spec : PurchaseSpec) (now : time) : res (list Dimension) :=
  try _ := ConfigHash p in
  let c := sy_config p in
  let day := day_text now in
  let org := ps_OrgID spec in
  let agent := ps_AgentID spec in
  Ok (sorted_dimensions [
    mkDimension (BudgetDimensionID BudgetDimensionAgentCategoryDay [org; agent; ps_Category spec; day]) (or_daily (cfg_CategoryDailyBudgetAtomic c) c) true;
    mkDimension (BudgetDimensionID BudgetDimensionAgentDay [org; agent; day]) (cfg_DailyBudgetAtomic c) true;
    mkDimension (BudgetDimensionID BudgetDimensionAgentTask [org; agent; ps_TaskID spec]) (cfg_TaskBudgetAtomic c) true;
    mkDimension (BudgetDimensionID BudgetDimensionAgentLifetime [org; agent]) (or_daily (cfg_LifetimeBudgetAtomic c) c) false;
    mkDimension (BudgetDimensionID BudgetDimensionOrganizationDay [org; day]) (or_daily (cfg_OrganizationDailyBudgetAtomic c) c) true]).

Definition ExecutionSnapshotHash (i : ExecInput) (organizationID actorID observationDigest : string) : string :=
  let r := ei_Reservation i in
  hex_hash (sha256 (json_object [("version", Some (json_string "ASCP_EXECUTION_SNAPSHOT_V1")); ("organizationId", Some (json_string organizationID));
    ("actorId", Some (json_string actorID)); ("intentId", Some (json_string (ei_IntentID i))); ("approvalId", Some (json_string (ei_ApprovalID i)));
    ("approvalSnapshotHash", Some (json_string (ei_ApprovalSnapshotHash i))); ("autoDecisionRef", omit_empty (ei_AutoDecisionRef i));
    ("policyVersion", Some (json_string (rw_PolicyVersion (ei_Review i)))); ("policyHash", Some (json_string (rw_PolicyHash (ei_Review i))));
    ("directoryVersion", Some (json_int (rw_DirectoryVersion (ei_Review i)))); ("observationDigest", Some (json_string observationDigest));
    ("reservationId", Some (json_string (rq_ReservationID r))); ("amountBaseUnits", Some (json_string (rq_Amount r)));
    ("dimensions", Some (json_list true (map json_Dimension (sorted_dimensions (rq_Dimensions r))))); ("expiresAt", Some (json_int (Unix (rq_ExpiresAt r))))])).

Definition exec_validInput (i : ExecInput) : bool :=
  gov_hash (ei_AuthorizationID i) false && gov_hash (ei_IntentID i) false && gov_hash (ei_ExecutionSnapshotHash i) false &&
  bool_decide (rq_OperationID (ei_Reservation i) = ei_IntentID i) && gov_hash (rq_ReservationID (ei_Reservation i)) false &&
  negb (time_IsZero (rq_ExpiresAt (ei_Reservation i))) &&
  match ReviewHash (ei_Review i) with
  | Err _ => false
  | Ok h =>
      (negb (bool_decide (ei_ApprovalID i = "")) && gov_hash (ei_ApprovalID i) false && gov_hash (ei_ApprovalSnapshotHash i) false &&
       bool_decide (ei_AutoDecisionRef i = "") && bool_decide (h = ei_ApprovalSnapshotHash i)) ||
      (bool_decide (ei_ApprovalID i = "") && bool_decide (ei_ApprovalSnapshotHash i = "") && gov_hash (ei_AutoDecisionRef i) false)
  end.
End Hashes.

(** ** The execution-authorization boundary ([internal/ascpexecauth/postgres.go],
      [local_revalidator.go], [internal/ascpcapacity/postgres.go], migrations 0005 to 0011 and 0030)

    One serializable transaction locks the intent and its approval or automatic decision,
    checks the current state of agent, policy, quote, asset and directory again, reserves
    budget in every dimension, takes one unit of capacity and records the authorization. *)

(** ** Tables *)

Record AgentRow := mkAgentRow { ag_CustomerID : string; ag_Status : string }.

(** What other components keep and this one reads. A policy is kept by its version; its
    JSON may not be a configuration. *)
Record control := mkControl {
  ow_paused : gmap string bool; ow_agents : gmap (string * string) AgentRow; ow_policies : gmap (string * string * string) (option StoredPolicy);
  ow_active : gmap (string * string) string; ow_health : gmap (Z * string) HealthRow; ow_directory : DirectoryTables }.

(** A row of [ascp_policy_decisions]; commitment and review are decoded. *)
Record DecisionRow := mkDecisionRow {
  dr_DecisionID : string; dr_OrganizationID : string; dr_AgentID : string; dr_OperationID : string; dr_Outcome : Outcome; dr_Reason : Reason;
  dr_PolicyVersion : string; dr_PolicyHash : string; dr_CommitmentHash : string; dr_Commitment : Commitment; dr_Review : Review;
  dr_ReviewSnapshotHash : string; dr_ApprovalID : option string; dr_EvaluatedAt : Z }.

Record BudgetRow := mkBudgetRow {
  bw_OperationID : string; bw_Amount : string; bw_State : RState; bw_Dimensions : list Dimension; bw_CreatedAt : time; bw_ExpiresAt : time }.

Record ExecRow := mkExecRow {
  xr_AuthorizationID : string; xr_ApprovalID : string; xr_AutoDecisionRef : string; xr_State : ExecState; xr_SnapshotHash : string;
  xr_ReservationID : option string; xr_Reason : string; xr_EvaluatedAt : time }.

(** Decisions and authorizations are kept by their intent, approvals and reservations by
    their ID, an admission (its reservation, and whether it is active) by its operation. *)
Record odb := mkOdb {
  od_intents : gmap string StoreInput; od_control : control; od_decisions : gmap string DecisionRow; od_approvals : gmap string ReviewApproval;
  od_authorizations : gmap string ExecRow; od_reservations : gmap string BudgetRow; od_admissions : gmap string (string * bool); od_limit : Z; od_count : Z }.

Definition put_authorization (db : odb) (intent : string) (r : ExecRow) : odb :=
  mkOdb (od_intents db) (od_control db) (od_decisions db) (od_approvals db) (<[intent := r]> (od_authorizations db)) (od_reservations db) (od_admissions db) (od_limit db) (od_count db).
Definition put_reservations (db : odb) (v : gmap string BudgetRow) : odb :=
  mkOdb (od_intents db) (od_control db) (od_decisions db) (od_approvals db) (od_authorizations db) v (od_admissions db) (od_limit db) (od_count db).
Definition put_admissions (db : odb) (v : gmap string (string * bool)) (count : Z) : odb :=
  mkOdb (od_intents db) (od_control db) (od_decisions db) (od_approvals db) (od_authorizations db) (od_reservations db) v (od_limit db) count.
Definition put_approvals (db : odb) (v : gmap string ReviewApproval) : odb :=
  mkOdb (od_intents db) (od_control db) (od_decisions db) v (od_authorizations db) (od_reservations db) (od_admissions db) (od_limit db) (od_count db).
Definition put_decision (db : odb) (operation : string) (d : DecisionRow) : odb :=
  mkOdb (od_intents db) (od_control db) (<[operation := d]> (od_decisions db)) (od_approvals db) (od_authorizations db) (od_reservations db) (od_admissions db) (od_limit db) (od_count db).

Definition active_policy (w : control) (org agent : string) : option (string * option StoredPolicy) :=
  match ow_active w !! (org, agent) with
  | Some version => match ow_policies w !! (org, agent, version) with Some p => Some (version, p) | None => None end
  | None => None
  end.

Definition organization_of (db : odb) (operation : string) : option string := (fun i => op_OrganizationID (si_Operation i)) <$> od_intents db !! operation.

(** ** Budgets *)

(** The states the query reads *)
Definition held_state (s : RState) : bool :=
  bool_decide (s = Reserved) || bool_decide (s = AuthorizationLive) || bool_decide (s = CommittedSafe) || bool_decide (s = CommittedFinalized) ||
  bool_decide (s = Consumed) || bool_decide (s = Restored) || bool_decide (s = ReorgedBack).

Record StoredUse := mkStoredUse { su_dimension : string; su_amount : string; su_state : RState; su_refundable : bool }.

(** The join of reservations, intents and dimensions for an organisation *)
Definition row_uses (db : odb) (org : string) (wanted : string -> bool) (r : BudgetRow) : list StoredUse :=
  if bool_decide (organization_of db (bw_OperationID r) = Some org) && held_state (bw_State r)
  then map (fun d => mkStoredUse (dim_ID d) (bw_Amount r) (bw_State r) (dim_Refundable d)) (List.filter (fun d => wanted (dim_ID d)) (bw_Dimensions r))
  else [].
Definition stored_uses (db : odb) (org : string) (wanted : string -> bool) : list StoredUse :=
  concat (map (fun p => row_uses db org wanted p.2) (map_to_list (od_reservations db))).

(** A refundable dimension gets back what was restored. *)
Definition counts (u : StoredUse) : bool := negb (bool_decide (su_state u = Restored) && su_refundable u).
Definition use_amount (dimension : string) (u : StoredUse) : Z :=
  if bool_decide (su_dimension u = dimension) && counts u then default 0 (exec_positiveInteger (su_amount u)) else 0.
Definition in_use (uses : list StoredUse) (dimension : string) : Z := foldr (fun u total => use_amount dimension u + total) 0 uses.

(** The first dimension without room for [amount] *)
Definition over_budget (uses : list StoredUse) (amount : Z) (dimensions : list Dimension) : option string :=
  dim_ID <$> List.find (fun d => default 0 (exec_positiveInteger (dim_Limit d)) - in_use uses (dim_ID d) <? amount) dimensions.

Definition reservation_row (r : ReserveRequest) (now : time) : BudgetRow :=
  mkBudgetRow (rq_OperationID r) (rq_Amount r) Reserved (rq_Dimensions r) (pg_time now) (pg_time (rq_ExpiresAt r)).

(** [inr] names the dimension that has no room *)
Definition reserveBudget (db : odb) (org : string) (r : ReserveRequest) (now : time) : res (odb + string) :=
  let uses := stored_uses db org (includes (rq_Dimensions r)) in
  check forallb (fun u => match exec_positiveInteger (su_amount u) with Some _ => true | None => false end) uses
    else "stored budget reservation amount is invalid" ;;
  match over_budget uses (default 0 (exec_positiveInteger (rq_Amount r))) (rq_Dimensions r) with
  | Some id => Ok (inr id)
  | None =>
      check bool_decide (od_reservations db !! rq_ReservationID r = None) &&
            negb (existsb (fun p => bool_decide (bw_OperationID p.2 = rq_OperationID r)) (map_to_list (od_reservations db))) &&
            (pg_time now <? pg_time (rq_ExpiresAt r)) else "create budget reservation" ;;
      Ok (inl (put_reservations db (<[rq_ReservationID r := reservation_row r now]> (od_reservations db))))
  end.

(** ** Capacity *)

Definition ErrExhausted : error := "ASCP active-operation capacity exhausted".
Definition ErrLimitMismatch : error := "ASCP capacity limit does not match deployment configuration".
Definition ErrCapacityConflict : error := "ASCP capacity admission conflict".

Definition NewPostgresGate (maxActive : Z) : res Z :=
  check (1 <=? maxActive) && (maxActive <=? 100000) else "maximum active operations must be between 1 and 100000" ;; Ok maxActive.

(** [ascp_acquire_capacity] and what [Acquire] makes of its answer *)
Definition Acquire (maxActive : Z) (db : odb) (operation reservation : string) (now : time) : res odb :=
  check negb (bool_decide (operation = "")) && negb (bool_decide (reservation = "")) && negb (time_IsZero now) else ErrCapacityConflict ;;
  check (1 <=? maxActive) && (maxActive <=? 100000) else ErrCapacityConflict ;;
  check od_limit db =? maxActive else ErrLimitMismatch ;;
  match od_reservations db !! reservation with
  | None => Err ErrCapacityConflict
  | Some r =>
      check bool_decide (bw_OperationID r = operation) && bool_decide (bw_State r = Reserved) else ErrCapacityConflict ;;
      check od_count db <? od_limit db else ErrExhausted ;;
      check bool_decide (od_admissions db !! operation = None) && negb (existsb (fun p => bool_decide (p.2.1 = reservation)) (map_to_list (od_admissions db)))
        else ErrCapacityConflict ;;
      Ok (put_admissions db (<[operation := (reservation, true)]> (od_admissions db)) (od_count db + 1))
  end.

(** The update of a reservation's state by another component, with the trigger of
    migration 0030 that gives its capacity back *)
Definition move_reservation (db : odb) (id : string) (target : RState) : res odb :=
  match od_reservations db !! id with
  | None => Ok db
  | Some r =>
      let db' := put_reservations db (<[id := mkBudgetRow (bw_OperationID r) (bw_Amount r) target (bw_Dimensions r) (bw_CreatedAt r) (bw_ExpiresAt r)]> (od_reservations db)) in
      if live_reservation (bw_State r) && terminal_reservation target then
        check bool_decide (od_admissions db !! bw_OperationID r = Some (id, true)) else "terminal reservation lacks exactly one active capacity admission" ;;
        check 0 <? od_count db else "capacity counter underflow" ;;
        Ok (put_admissions db' (<[bw_OperationID r := (id, false)]> (od_admissions db)) (od_count db - 1))
      else Ok db'
  end.

(** ** Checking the current state again *)

Definition reasonIntentBindingChanged : string := "INTENT_BINDING_CHANGED".
Definition reasonAgentInactive : string := "AGENT_INACTIVE".
Definition reasonOrganizationPaused : string := "ORGANIZATION_PAUSED".
Definition reasonPolicyChanged : string := "POLICY_CHANGED".
Definition reasonDirectoryStale : string := "DIRECTORY_OBSERVATION_STALE".
Definition reasonDirectoryChanged : string := "DIRECTORY_CHANGED".
Definition reasonSellerUnavailable : string := "SELLER_UNAVAILABLE".
Definition reasonQuoteExpired : string := "QUOTE_EXPIRED".
Definition reasonSnapshotChanged : string := "EXECUTION_SNAPSHOT_CHANGED".
Definition reasonBudgetDimensions : string := "BUDGET_DIMENSIONS_CHANGED".
Definition reasonPurchaseSpecLegacy : string := "PURCHASE_SPEC_BYTES_UNAVAILABLE".
Definition reasonAssetHealthUnavailable : string := "ASSET_HEALTH_UNAVAILABLE".
Definition reasonAssetUnhealthy : string := "ASSET_UNHEALTHY".
Definition maximumDirectoryAge : duration := 5 * Minute.
Definition maximumAssetHealthAge : duration := Minute.

Definition NewLocalRevalidator (maxDirectoryAge : duration) : res duration :=
  check (0 <? maxDirectoryAge) && (maxDirectoryAge <=? maximumDirectoryAge) else "maximum directory observation age must be in (0, 5m0s]" ;; Ok maxDirectoryAge.

(** [strconv.ParseUint] of a canonical decimal *)
Definition parse_chain (v : string) : res Z :=
  match SetString10 v with Some n => check (0 <=? n) && (n <=? MaxUint64) else "parse stored execution chain" ;; Ok n | None => Err "parse stored execution chain" end.

(** The terms of the quote are those reviewed and reserved. *)
Definition review_matches (version : Z) (q : Quote) (i : ExecInput) : bool :=
  let w := ei_Review i in
  (version =? rw_DirectoryVersion w) && (q_DirectoryVersion q =? version) && bool_decide (q_PayTo q = rw_PayTo w) &&
  bool_decide (q_AckAuthority q = rw_AckAuthority w) && bool_decide (q_AmountBaseUnits q = rw_AmountBaseUnits w) &&
  bool_decide (q_AmountBaseUnits q = rq_Amount (ei_Reservation i)) && bool_decide (q_VerificationSpecHash q = rw_VerificationSpecHash w) &&
  bool_decide (q_ChainID q = rw_ChainID w) && bool_decide (q_Asset q = rw_Asset w) && bool_decide (rw_Protection w = "ESCROW").

(** The directory still offers the quote, under the key that signed it. *)
Definition seller_available (signer : string) (q : Quote) (e : DirectoryEvidence) : bool :=
  de_Active e && negb (de_QuoteKeyRevoked e) && bool_decide (de_QuoteSigningKey e = signer) && negb (de_KeyEpoch e =? 0) &&
  bool_decide (de_PayoutAddress e = q_PayTo q) && bool_decide (de_AckAuthority e = q_AckAuthority q) && bool_decide (de_AmountBaseUnits e = q_AmountBaseUnits q) &&
  bool_decide (de_VerificationSpecHash e = q_VerificationSpecHash q) && (de_DeclaredWorkTime e =? q_DeclaredWorkTime q) &&
  (de_VerificationBudgetSeconds e =? q_VerificationBudgetSeconds q).

Section Boundary.
Context `{Crypto, SafeLib, Unicode, UnicodeUpper, HostNames}.
Context (maxDirectoryAge : duration) (maxActive : Z).

(** Asset health and the directory, for a quote that is still good *)
Definition revalidate_chain (db : odb) (i : ExecInput) (intent : StoreInput) (now : time) : res string :=
  let w := od_control db in
  let q := si_Quote intent in
  let o := si_Operation intent in
  try chain := parse_chain (q_ChainID q) in
  check chain <=? MaxInt64 else "read current asset health" ;;
  match ow_health w !! (chain, q_Asset q) with
  | None => Ok reasonAssetHealthUnavailable
  | Some h =>
      match hr_ObservedAt h with
      | None => Ok reasonAssetHealthUnavailable
      | Some observed =>
          if time_after observed (time_add now Minute) || (Z.min maxDirectoryAge maximumAssetHealthAge <? time_sub now observed) then Ok reasonAssetHealthUnavailable
          else if negb (bool_decide (hr_State h = "NORMAL")) then Ok reasonAssetUnhealthy
          else
            match current_head (ow_directory w) chain (op_DirectoryContract o) with
            | None => Ok reasonDirectoryChanged
            | Some (head, snapshot) =>
                match dt_evidence (ow_directory w) !! (hw_digest head, q_SellerID q, q_ResourceID q) with
                | None => Ok reasonDirectoryChanged
                | Some e =>
                    if time_after (sw_observed_at snapshot) (time_add now Minute) || (maxDirectoryAge <? time_sub now (sw_observed_at snapshot)) then Ok reasonDirectoryStale
                    else if negb (hw_version head =? op_DirectoryVersion o) then Ok reasonDirectoryChanged
                    else if negb (seller_available (op_SellerSigner o) q e) then Ok reasonSellerUnavailable
                    else
                      check negb (sw_block snapshot =? 0) else "stored directory head has zero finalized block" ;;
                      if bool_decide (ei_ExecutionSnapshotHash i = ExecutionSnapshotHash i (op_OrganizationID o) (op_ActorID o) (hw_digest head)) then Ok ""
                      else Ok reasonSnapshotChanged
                end
            end
      end
  end.

(** A reason, empty when nothing has changed *)
Definition Revalidate (db : odb) (i : ExecInput) (now : time) : res string :=
  let w := od_control db in
  match od_intents db !! ei_IntentID i with
  | None => Ok reasonIntentBindingChanged
  | Some intent =>
      let o := si_Operation intent in
      let org := op_OrganizationID o in
      let actor := op_ActorID o in
      match (ow_agents w !! (org, actor) : option AgentRow), (ow_paused w !! org : option bool) with
      | Some agent, Some paused =>
          if negb (bool_decide (ag_Status agent = "ACTIVE")) then Ok reasonAgentInactive
          else if paused then Ok reasonOrganizationPaused
          else
            match active_policy w org actor with
            | None => Ok reasonPolicyChanged
            | Some (_, None) => Err "decode active execution policy"
            | Some (version, Some p) =>
                try policyHash := ConfigHash p in
                if negb (bool_decide (version = rw_PolicyVersion (ei_Review i)) && bool_decide (cfg_Version (sy_config p) = version) &&
                         bool_decide (policyHash = rw_PolicyHash (ei_Review i))) then Ok reasonPolicyChanged
                else
                  let q := si_Quote intent in
                  try _ := Quote_Validate q in
                  if bool_decide (si_PurchaseSpecJSON intent = "") then Ok reasonPurchaseSpecLegacy
                  else
                    try spec := ValidatePersisted (si_PurchaseSpecJSON intent) (si_RequestBody intent) in
                    if negb (bool_decide (ps_OrgID spec = org) && bool_decide (ps_AgentID spec = actor) &&
                             bool_decide (keccakHex (si_PurchaseSpecJSON intent) = op_PurchaseSpecHash o) &&
                             bool_decide (q_PurchaseSpecHash q = op_PurchaseSpecHash o)) then Ok reasonIntentBindingChanged
                    else if negb (review_matches (op_DirectoryVersion o) q i) then Ok reasonIntentBindingChanged
                    else
                      try required := RequiredBudgetDimensions p spec now in
                      if negb (sameDimensions (rq_Dimensions (ei_Reservation i)) required) then Ok reasonBudgetDimensions
                      else if (Unix now <? 0) || (q_QuoteExpiresAt q <=? Unix now) then Ok reasonQuoteExpired
                      else revalidate_chain db i intent now
            end
      | _, _ => Ok reasonAgentInactive
      end
  end.

(** ** The authorization *)

Record ExecAuthorization := mkExecAuthorization { xa_Input : ExecInput; xa_State : ExecState; xa_Reason : string }.

(** The keys and checks of a new row *)
Definition insert_authorization (db : odb) (intent : string) (r : ExecRow) (failure : error) : res odb :=
  check bool_decide (od_authorizations db !! intent = None) &&
        negb (existsb (fun p => bool_decide (xr_AuthorizationID p.2 = xr_AuthorizationID r) ||
                                match xr_ReservationID r with Some id => bool_decide (xr_ReservationID p.2 = Some id) | None => false end)
                      (map_to_list (od_authorizations db))) &&
        (bool_decide (xr_ApprovalID r = "") || bool_decide (is_Some (od_approvals db !! xr_ApprovalID r))) else failure ;;
  Ok (put_authorization db intent r).

Definition invalid_row (i : ExecInput) (reason : string) (now : time) : ExecRow :=
  mkExecRow (ei_AuthorizationID i) (ei_ApprovalID i) (ei_AutoDecisionRef i) Invalidated (ei_ExecutionSnapshotHash i) None reason (pg_time now).
Definition persistInvalid (db : odb) (i : ExecInput) (reason : string) (now : time) (cause : error) : res (odb * (ExecAuthorization * option error)) :=
  try db := insert_authorization db (ei_IntentID i) (invalid_row i reason now) "persist invalid execution authorization" in
  Ok (db, (mkExecAuthorization i Invalidated reason, Some cause)).

Definition with_stored (i : ExecInput) (r : ExecRow) : ExecInput :=
  let q := ei_Reservation i in
  let q := match xr_ReservationID r with Some id => mkReserveRequest id (rq_OperationID q) (rq_Amount q) (rq_Dimensions q) (rq_ExpiresAt q) | None => q end in
  mkExecInput (xr_AuthorizationID r) (xr_ApprovalID r) (ei_ApprovalSnapshotHash i) (xr_AutoDecisionRef r) (ei_IntentID i) (xr_SnapshotHash r) (ei_Review i) q.
Definition loadExisting (db : odb) (i : ExecInput) : option ExecAuthorization :=
  (fun r => mkExecAuthorization (with_stored i r) (xr_State r) (xr_Reason r)) <$> od_authorizations db !! ei_IntentID i.

(** The reservation, the capacity and the authorization of an input that passed *)
Definition reserve_and_record (db : odb) (org : string) (i : ExecInput) (now : time) : res (odb * (ExecAuthorization * option error)) :=
  let r := ei_Reservation i in
  match reserveBudget db org r now with
  | Err e => Err e
  | Ok (inr id) => persistInvalid db i (ErrBudgetExceeded +:+ ": dimension " +:+ id) now ErrBudgetExceeded
  | Ok (inl db) =>
      try db := Acquire maxActive db (ei_IntentID i) (rq_ReservationID r) now in
      let row := mkExecRow (ei_AuthorizationID i) (ei_ApprovalID i) (ei_AutoDecisionRef i) ValidatedAndReserved (ei_ExecutionSnapshotHash i)
                   (Some (rq_ReservationID r)) "" (pg_time now) in
      try db := insert_authorization db (ei_IntentID i) row "create execution authorization" in
      Ok (db, (mkExecAuthorization i ValidatedAndReserved "", None))
  end.

(** The approval or the automatic decision the input names: [Some] is the cause to record *)
Definition decision_cause (db : odb) (org : string) (i : ExecInput) (now : time) : res (option error) :=
  if negb (bool_decide (ei_ApprovalID i = "")) then
    match od_approvals db !! ei_ApprovalID i with
    | Some a =>
        if negb (bool_decide (ap_IntentID a = ei_IntentID i) && bool_decide (ap_OrganizationID a = org) && bool_decide (ap_State a = ApApproved)) then Ok (Some ErrApprovalNotApproved)
        else if negb (bool_decide (ap_ReviewSnapshotHash a = ei_ApprovalSnapshotHash i)) then Ok (Some ErrApprovalSnapshot)
        else if negb (time_before now (time_of_unix (ap_ExpiresAt a))) then Ok (Some ErrReviewExpired)
        else Ok None
    | None => Ok (Some ErrApprovalNotApproved)
    end
  else
    match od_decisions db !! ei_IntentID i with
    | Some d =>
        check bool_decide (dr_DecisionID d = ei_AutoDecisionRef i) && bool_decide (dr_OrganizationID d = org) && bool_decide (dr_Outcome d = AutoApprove) else ErrInvalidInput ;;
        match ReviewHash (ei_Review i) with
        | Ok h => check bool_decide (h = dr_ReviewSnapshotHash d) else ErrInvalidInput ;; Ok None
        | Err _ => Err ErrInvalidInput
        end
    | None => Err ErrInvalidInput
    end.

(** [inl]: the intent was evaluated before, and nothing is written *)
Definition validateAndReserveOnce (db : odb) (i : ExecInput) (now : time) : res (ExecAuthorization + odb * (ExecAuthorization * option error)) :=
  let r := ei_Reservation i in
  check exec_validInput i && time_after (rq_ExpiresAt r) now && negb (time_after (rq_ExpiresAt r) (time_add now ReservationTTL)) else ErrInvalidInput ;;
  try _ := validateReservation r in
  match loadExisting db i with
  | Some current => Ok (inl current)
  | None =>
      match organization_of db (ei_IntentID i) with
      | None => Err ErrInvalidInput
      | Some org =>
          try cause := decision_cause db org i now in
          try done :=
            match cause with
            | Some m => persistInvalid db i m now m
            | None =>
                try reason := Revalidate db i now in
                if bool_decide (TrimSpace reason = "") then reserve_and_record db org i now
                else persistInvalid db i (TrimSpace reason) now ErrRevalidationFailed
            end in
          Ok (inr done)
      end
  end.
End Boundary.
