(* ===== verification/Orchestration.v ===== *)
(** * Policy orchestration ([internal/ascporchestration])

    An accepted operation is evaluated against the active policy once; the decision is kept
    with the commitment and the review it was made on, and with an approval when a person
    has to decide. An approved operation is authorized through the execution boundary. Every
    economic field comes from the tables. *)
From stdpp Require Import base gmap strings list sorting.
From Stdlib Require Import ZArith Lia Ascii.
From S2P Require Import Prelude GoText GoJSON Amounts Crypto Envelope Policy Reservation GovAction SafeTx SellerQuote Url PurchaseSpec Adaptation Intake DirectoryReader TxRetry SettlementStore Commitment ExecStore.

Open Scope Z_scope.

Definition defaultAcceptWindow : duration := 5 * Minute.
Definition maximumAcceptWindow : duration := 15 * Minute.
Definition minimumSettleWindow : duration := 30 * Minute.
Definition maximumSettleWindow : duration := 30 * 24 * Hour.
Definition deliverySafetyBuffer : duration := 2 * Minute.

Definition ErrOrchScope : error := "ASCP orchestration scope is invalid".
Definition ErrOrchNotFound : error := "ASCP orchestration record not found".
Definition ErrPolicyUnavailable : error := "active ASCP policy is unavailable".
Definition ErrOperationExpired : error := "ASCP seller quote is expired".
Definition ErrDecisionDenied : error := "ASCP policy decision denied execution".
Definition ErrApprovalPending : error := "ASCP approval is pending".
Definition ErrApprovalUnavailable : error := "ASCP approval is unavailable".
Definition ErrOrchConflict : error := "ASCP orchestration state conflicts with the request".

Record Identity := mkIdentity { idn_OrganizationID : string; idn_AgentID : string }.
Definition validIdentity (i : Identity) : bool := identifier_pattern (idn_OrganizationID i) && identifier_pattern (idn_AgentID i).
Definition orch_hash (v : string) : bool := gov_hash v false.

Record EvaluationConfig := mkEvaluationConfig {
  ec_EscrowContract : string; ec_AcceptWindow : duration; ec_SettleWindow : duration; ec_Now : time; ec_DecisionID : string; ec_ApprovalID : string }.

(** ** Deadlines *)

Definition wholePositiveSeconds (v : duration) : option Z := if (0 <? v) && (Z.rem v Second =? 0) then Some (v / Second) else None.

Definition checked_add (total : option Z) (v : Z) : option Z :=
  match total with Some t => if MaxInt64 - t <? v then None else Some (t + v) | None => None end.
Definition checkedUnixAdd (values : list Z) : option Z := foldl checked_add (Some 0) values.

Definition or_conflict {A} (x : option A) : res A := match x with Some a => Ok a | None => Err ErrOrchConflict end.

Definition DeliveryDeadlines (now : time) (quoteWork quoteVerification : Z) (acceptWindow settleWindow : duration) : res (Z * Z * Z) :=
  let nowUnix := Unix now in
  try acceptSeconds := or_conflict (wholePositiveSeconds acceptWindow) in
  try settleSeconds := or_conflict (wholePositiveSeconds settleWindow) in
  check (0 <=? nowUnix) && negb (quoteWork =? 0) && negb (quoteVerification =? 0) && (acceptWindow <=? maximumAcceptWindow) &&
        (minimumSettleWindow <=? settleWindow) && (settleWindow <=? maximumSettleWindow) else ErrOrchConflict ;;
  try deliverySeconds := or_conflict (checkedUnixAdd [quoteWork; Z.max quoteVerification 120; deliverySafetyBuffer / Second]) in
  try accept := or_conflict (checkedUnixAdd [nowUnix; acceptSeconds]) in
  try deliver := or_conflict (checkedUnixAdd [nowUnix; deliverySeconds]) in
  try deliver := (if deliver <=? accept then or_conflict (checkedUnixAdd [accept; 1]) else Ok deliver) in
  try settle := or_conflict (checkedUnixAdd [deliver; settleSeconds]) in
  check negb (accept =? 0) && (accept <? deliver) && (deliver <? settle) else ErrOrchConflict ;;
  Ok (accept, deliver, settle).

(** ** What a policy sees of the budget *)

Definition spend_amount (consumed : bool) (dimension : string) (u : StoredUse) : Z :=
  if bool_decide (su_dimension u = dimension) && counts u && Bool.eqb consumed (bool_decide (su_state u = Consumed)) then default 0 (SetString10 (su_amount u)) else 0.
Definition spend_total (uses : list StoredUse) (consumed : bool) (dimension : string) : Z :=
  foldr (fun u total => spend_amount consumed dimension u + total) 0 uses.
Definition spend_amount_ok (u : StoredUse) : bool := match SetString10 (su_amount u) with Some n => (0 <? n) && fits256 n | None => false end.

(** A refusal for an adapted purchase goes to a person. *)
Definition ReasonAdaptationRejected : Reason := "ADAPTATION_REJECTED".
Definition escalateAdaptedRejection (d : Policy.Decision) (adapted : bool) : Policy.Decision :=
  if negb adapted || negb (bool_decide (d_Outcome d = Deny)) then d
  else if bool_decide (d_Reason d = ReasonPerActionLimit) || bool_decide (d_Reason d = ReasonTaskBudget) || bool_decide (d_Reason d = ReasonDailyBudget) ||
          bool_decide (d_Reason d = ReasonRecipientNotAllowed)
  then Policy.mkDecision RequireApproval ReasonAdaptationRejected (d_PolicyVersion d)
  else d.

Definition mustChainID (v : string) : Z := match SetString10 v with Some n => Z.min n MaxUint64 | None => 0 end.

Record operationMaterial := mkMaterial { mt_Intent : StoreInput; mt_Agent : AgentRow; mt_Paused : bool; mt_Policy : option (string * option StoredPolicy) }.

Definition lockOperationMaterial (db : odb) (who : Identity) (operation : string) : res operationMaterial :=
  let w := od_control db in
  let org := idn_OrganizationID who in
  let agent := idn_AgentID who in
  match od_intents db !! operation with
  | None => Err ErrOrchNotFound
  | Some i =>
      check bool_decide (op_OrganizationID (si_Operation i) = org) && bool_decide (op_ActorID (si_Operation i) = agent) else ErrOrchNotFound ;;
      match (ow_agents w !! (org, agent) : option AgentRow), (ow_paused w !! org : option bool) with
      | Some a, Some paused => Ok (mkMaterial i a paused (active_policy w org agent))
      | _, _ => Err ErrOrchNotFound
      end
  end.

(** A decision with the approval it waits for *)
Definition LoadedDecision : Type := DecisionRow * option ReviewApproval.

Section Orchestration.
Context `{Crypto, SafeLib, Unicode, UnicodeUpper, HostNames}.

Definition OrgDomain (organizationID : string) : res string :=
  check identifier_pattern organizationID else ErrOrchScope ;;
  Ok (hex_hash (sha256 ("ASCP_ORG_DOMAIN_V1" +:+ newline +:+ organizationID))).

Definition policySpendSnapshot (db : odb) (who : Identity) (spec : PurchaseSpec) (now : time) : res SpendSnapshot :=
  let org := idn_OrganizationID who in
  let agent := idn_AgentID who in
  let task := BudgetDimensionID BudgetDimensionAgentTask [org; agent; ps_TaskID spec] in
  let daily := BudgetDimensionID BudgetDimensionAgentDay [org; agent; day_text now] in
  let uses := stored_uses db org (fun id => bool_decide (id = task) || bool_decide (id = daily)) in
  check forallb spend_amount_ok uses else "stored ASCP reservation amount is invalid" ;;
  let total consumed id := dec_string (spend_total uses consumed id) in
  Ok (mkSpendSnapshot (total true task) (total false task) (total true daily) (total false daily)).

(** The commitment and the review of an operation *)
Definition commitment_for (who : Identity) (operation orgDomain quoteHash : string) (q : Quote) (cfg : EvaluationConfig) (deadlines : Z * Z * Z) : Commitment :=
  let '(accept, deliver, settle) := deadlines in
  mkCommitment orgDomain operation RailEscrowCode (q_SchemeVersion q) ProtectionEscrow (ec_EscrowContract cfg) (q_PurchaseSpecHash q) quoteHash
    (q_VerificationSpecHash q) (q_DeclaredWorkTime q) (q_VerificationBudgetSeconds q) (q_DirectoryVersion q) (q_SellerID q) (q_ResourceID q) (q_PayTo q)
    (q_AckAuthority q) (q_AmountBaseUnits q) (q_ChainID q) (q_Asset q) (q_QuoteExpiresAt q) accept deliver settle.
Definition review_for (commitmentHash policyHash version : string) (q : Quote) : Review :=
  mkReview commitmentHash version policyHash (q_DirectoryVersion q) (q_PayTo q) (q_AckAuthority q) (q_AmountBaseUnits q) (q_VerificationSpecHash q) "ESCROW"
    (q_ChainID q) (q_Asset q).

(** The policy's answer, overruled when agent, organisation or quote are out *)
Definition policy_answer (who : Identity) (operation : string) (m : operationMaterial) (engine : Engine) (spec : PurchaseSpec) (spend : SpendSnapshot) (now : time) : Policy.Decision :=
  let q := si_Quote (mt_Intent m) in
  let version := e_version engine in
  let d :=
    if negb (bool_decide (ag_Status (mt_Agent m) = "ACTIVE")) then Policy.mkDecision Deny "AGENT_INACTIVE" version
    else if mt_Paused m then Policy.mkDecision Deny "ORGANIZATION_PAUSED" version
    else if (Unix now <? 0) || (q_QuoteExpiresAt q <=? Unix now) then Policy.mkDecision Deny "QUOTE_EXPIRED" version
    else Policy.Evaluate engine (mkPolicyIntent (idn_OrganizationID who) (ag_CustomerID (mt_Agent m)) (idn_AgentID who) (ps_TaskID spec) operation RailEscrow
           (mustChainID (q_ChainID q)) (q_PayTo q) (q_Asset q) (q_AmountBaseUnits q) (q_ResourceID q) (ps_Category spec)) spend in
  escalateAdaptedRejection d (negb (bool_decide (si_AdaptationGrantID (mt_Intent m) = ""))).

Definition deriveDecision (db : odb) (who : Identity) (operation : string) (m : operationMaterial) (cfg : EvaluationConfig) : res LoadedDecision :=
  let now := ec_Now cfg / Second * Second in
  let q := si_Quote (mt_Intent m) in
  let o := si_Operation (mt_Intent m) in
  let raw := si_PurchaseSpecJSON (mt_Intent m) in
  check is_ok (Quote_Validate q) else "stored ASCP quote is invalid" ;;
  check match Quote_Digest q (op_DirectoryContract o) with Ok d => bool_decide (hex_hash d = op_QuoteHash o) | Err _ => false end else "stored ASCP quote digest is invalid" ;;
  match ValidatePersisted raw (si_RequestBody (mt_Intent m)) with
  | Err _ => Err "stored ASCP purchase binding is invalid"
  | Ok spec =>
      check bool_decide (ps_OrgID spec = idn_OrganizationID who) && bool_decide (ps_AgentID spec = idn_AgentID who) &&
            bool_decide (keccakHex raw = op_PurchaseSpecHash o) && bool_decide (q_PurchaseSpecHash q = op_PurchaseSpecHash o) else "stored ASCP purchase binding is invalid" ;;
      match mt_Policy m with
      | Some (version, Some p) =>
          check bool_decide (cfg_Version (sy_config p) = version) else "stored active ASCP policy is invalid" ;;
          try engine := policy_Compile (sy_config p) in
          try policyHash := ConfigHash p in
          try orgDomain := OrgDomain (idn_OrganizationID who) in
          try deadlines := DeliveryDeadlines now (q_DeclaredWorkTime q) (q_VerificationBudgetSeconds q) (ec_AcceptWindow cfg) (ec_SettleWindow cfg) in
          let c := commitment_for who operation orgDomain (op_QuoteHash o) q cfg deadlines in
          try digest := Commitment_Digest c (ec_EscrowContract cfg) (q_ChainID q) in
          let review := review_for (hex_hash digest) policyHash version q in
          try reviewHash := ReviewHash review in
          try spend := policySpendSnapshot db who spec now in
          let d := policy_answer who operation m engine spec spend now in
          let row outcome reason approval :=
            mkDecisionRow (ec_DecisionID cfg) (idn_OrganizationID who) (idn_AgentID who) operation outcome reason version policyHash (hex_hash digest) c review
              reviewHash approval (Unix now) in
          if bool_decide (d_Outcome d = RequireApproval) then
            let quoteExpiry := time_of_unix (int64 (q_QuoteExpiresAt q)) in
            let expiresAt := Z.min (time_add now ApprovalTTL) quoteExpiry in
            if negb (time_after expiresAt now) then Ok (row Deny "QUOTE_EXPIRED" None, None)
            else
              let a := mkReviewApproval (ec_ApprovalID cfg) (idn_OrganizationID who) operation ApRequested reviewHash (Unix now) (Unix expiresAt) 0 "" "" in
              Ok (row (d_Outcome d) (d_Reason d) (Some (ec_ApprovalID cfg)), Some a)
          else Ok (row (d_Outcome d) (d_Reason d) None, None)
      | _ => Err "stored active ASCP policy is invalid"
      end
  end.

(** ** Decisions *)

(** SQLSTATE 23505 *)
Definition ErrUniqueViolation : error := "unique_violation".

Definition decision_binding (d : DecisionRow) : bool :=
  let c := dr_Commitment d in
  match Commitment_Digest c (cm_EscrowContract c) (cm_ChainID c), ReviewHash (dr_Review d) with
  | Ok digest, Ok h =>
      bool_decide (hex_hash digest = dr_CommitmentHash d) && bool_decide (rw_CommitmentHash (dr_Review d) = dr_CommitmentHash d) &&
      bool_decide (rw_PolicyVersion (dr_Review d) = dr_PolicyVersion d) && bool_decide (rw_PolicyHash (dr_Review d) = dr_PolicyHash d) &&
      bool_decide (h = dr_ReviewSnapshotHash d)
  | _, _ => false
  end.

Definition joined_approval (db : odb) (d : DecisionRow) : option ReviewApproval :=
  match dr_ApprovalID d with
  | Some id =>
      (fun a => mkReviewApproval id (dr_OrganizationID d) (dr_OperationID d) (ap_State a) (ap_ReviewSnapshotHash a) (ap_RequestedAt a) (ap_ExpiresAt a)
                  (ap_DecidedAt a) (ap_DecidedBy a) (ap_CancelReason a)) <$> od_approvals db !! id
  | None => None
  end.

(** [Ok None]: no such decision of this agent *)
Definition loadDecision (db : odb) (who : Identity) (operation : string) : res (option LoadedDecision) :=
  match od_decisions db !! operation with
  | None => Ok None
  | Some d =>
      if negb (bool_decide (dr_OrganizationID d = idn_OrganizationID who) && bool_decide (dr_AgentID d = idn_AgentID who)) then Ok None
      else
        check decision_binding d else "durable ASCP policy decision binding is invalid" ;;
        match joined_approval db d with
        | None => Ok (Some (d, None))
        | Some a => check bool_decide (ap_ReviewSnapshotHash a = dr_ReviewSnapshotHash d) else "durable ASCP approval binding is invalid" ;; Ok (Some (d, Some a))
        end
  end.

Definition orch_Decision (db : odb) (who : Identity) (operation : string) : res LoadedDecision :=
  try d := loadDecision db who operation in match d with Some d => Ok d | None => Err ErrOrchNotFound end.

(** The keys of the two inserts *)
Definition insert_approval (db : odb) (a : ReviewApproval) : res odb :=
  check bool_decide (od_approvals db !! ap_ApprovalID a = None) &&
        negb (existsb (fun p => bool_decide (ap_OrganizationID p.2 = ap_OrganizationID a) && bool_decide (ap_IntentID p.2 = ap_IntentID a)) (map_to_list (od_approvals db)))
    else ErrUniqueViolation ;;
  Ok (put_approvals db (<[ap_ApprovalID a := a]> (od_approvals db))).
Definition insert_decision (db : odb) (d : DecisionRow) : res odb :=
  check bool_decide (od_decisions db !! dr_OperationID d = None) &&
        negb (existsb (fun p => bool_decide (dr_DecisionID p.2 = dr_DecisionID d) ||
                                match dr_ApprovalID d with Some id => bool_decide (dr_ApprovalID p.2 = Some id) | None => false end) (map_to_list (od_decisions db)))
    else ErrUniqueViolation ;;
  Ok (put_decision db (dr_OperationID d) d).

(** The decision, and whether it was there before *)
Definition evaluateOnce (db : odb) (who : Identity) (operation : string) (cfg : EvaluationConfig) : res (odb * (LoadedDecision * bool)) :=
  try existing := loadDecision db who operation in
  match existing with
  | Some d => Ok (db, (d, true))
  | None =>
      try m := lockOperationMaterial db who operation in
      check match mt_Policy m with Some (version, _) => negb (bool_decide (version = "")) | None => false end else ErrPolicyUnavailable ;;
      try derived := deriveDecision db who operation m cfg in
      let '(row, approval) := derived in
      try db := match approval with Some a => insert_approval db a | None => Ok db end in
      try db := insert_decision db row in
      Ok (db, ((row, approval), false))
  end.

(** ** Approvals *)

Definition orch_Approval (db : odb) (organizationID approvalID : string) : res ReviewApproval :=
  match od_approvals db !! approvalID with
  | Some a => check bool_decide (ap_OrganizationID a = organizationID) else ErrOrchNotFound ;; Ok a
  | None => Err ErrOrchNotFound
  end.

Definition decided_approval (a : ReviewApproval) (s : ApprovalState) (at_ : Z) (actor : string) : ReviewApproval :=
  mkReviewApproval (ap_ApprovalID a) (ap_OrganizationID a) (ap_IntentID a) s (ap_ReviewSnapshotHash a) (ap_RequestedAt a) (ap_ExpiresAt a) at_ actor (ap_CancelReason a).

(** The two updates: [None] when no row matches *)
Definition decide_row (db : odb) (organizationID approvalID snapshot : string) (approved : bool) (actor : string) (now : time) : option (odb * ReviewApproval) :=
  match od_approvals db !! approvalID with
  | Some a =>
      if bool_decide (ap_OrganizationID a = organizationID) && bool_decide (ap_ReviewSnapshotHash a = snapshot) && bool_decide (ap_State a = ApRequested) &&
         (pg_time now <? time_of_unix (ap_ExpiresAt a))
      then let a := decided_approval a (if approved then ApApproved else ApRejected) (Unix (pg_time now)) actor in Some (put_approvals db (<[approvalID := a]> (od_approvals db)), a)
      else None
  | None => None
  end.
Definition expire_row (db : odb) (organizationID approvalID : string) (now : time) : odb :=
  match od_approvals db !! approvalID with
  | Some a =>
      if bool_decide (ap_OrganizationID a = organizationID) && bool_decide (ap_State a = ApRequested) && (time_of_unix (ap_ExpiresAt a) <=? pg_time now)
      then put_approvals db (<[approvalID := decided_approval a ApExpired (ap_DecidedAt a) (ap_DecidedBy a)]> (od_approvals db)) else db
  | None => db
  end.
End Orchestration.

(** ** The orchestration service ([internal/ascporchestration/orchestration.go] and the
      calls of [postgres.go])

    Each call is a sequence of transactions; other clients commit between any two. *)

(** ** Transactions *)

(** A new intent, a change of what other components keep, a policy evaluation, a decision on
    an approval, its expiry, an authorization, a change of a reservation's state *)
Inductive otx :=
| OIntent (i : StoreInput)
| OControl (w : control)
| OEvaluate (who : Identity) (operation : string) (cfg : EvaluationConfig)
| ODecide (organizationID approvalID snapshot : string) (approved : bool) (actor : string) (now : time)
| OExpire (organizationID approvalID : string) (now : time)
| OAuthorize (i : ExecInput) (now : time)
| OMove (reservation : string) (target : RState).

Record OrchService := mkOrchService {
  os_EscrowContract : string; os_AcceptWindow : duration; os_SettleWindow : duration; os_MaxDirectoryAge : duration; os_MaxActive : Z }.

Definition NewOrchestration (escrow : string) (acceptWindow settleWindow : duration) (maxDirectoryAge : duration) (maxActive : Z) : res OrchService :=
  check gov_address escrow else "durable orchestration store, authorization store, and canonical escrow contract are required" ;;
  let acceptWindow := if acceptWindow =? 0 then defaultAcceptWindow else acceptWindow in
  check (0 <? acceptWindow) && (acceptWindow <=? maximumAcceptWindow) else "acceptance window must be in (0,15m]" ;;
  check (minimumSettleWindow <=? settleWindow) && (settleWindow <=? maximumSettleWindow) else "settlement window must be in [30m,30d]" ;;
  try age := NewLocalRevalidator maxDirectoryAge in
  try active := NewPostgresGate maxActive in
  Ok (mkOrchService escrow acceptWindow settleWindow age active).

Record OrchAuthorization := mkOrchAuthorization {
  oa_AuthorizationID : string; oa_OperationID : string; oa_DecisionID : string; oa_ApprovalID : string; oa_State : ExecState; oa_SnapshotHash : string;
  oa_ReservationID : string; oa_Reason : string }.

(** Go's pair of a value and an error, either of which may be absent *)
Definition answer (A : Type) : Type := option A * option error.

Section Service.
Context `{Crypto, SafeLib, Unicode, UnicodeUpper, HostNames}.
Context (s : OrchService).

Definition authorize_once (db : odb) (i : ExecInput) (now : time) := validateAndReserveOnce (os_MaxDirectoryAge s) (os_MaxActive s) db i now.

Definition apply_otx (db : odb) (t : otx) : odb :=
  match t with
  | OIntent i =>
      let id := op_OperationID (si_Operation i) in
      match od_intents db !! id with
      | Some _ => db
      | None => mkOdb (<[id := i]> (od_intents db)) (od_control db) (od_decisions db) (od_approvals db) (od_authorizations db) (od_reservations db) (od_admissions db)
                  (od_limit db) (od_count db)
      end
  | OControl w => mkOdb (od_intents db) w (od_decisions db) (od_approvals db) (od_authorizations db) (od_reservations db) (od_admissions db) (od_limit db) (od_count db)
  | OEvaluate who operation cfg => match evaluateOnce db who operation cfg with Ok (db', _) => db' | Err _ => db end
  | ODecide org id snapshot approved actor now => match decide_row db org id snapshot approved actor now with Some (db', _) => db' | None => db end
  | OExpire org id now => expire_row db org id now
  | OAuthorize i now => match authorize_once db i now with Ok (inr (db', _)) => db' | _ => db end
  | OMove id target => match move_reservation db id target with Ok db' => db' | Err _ => db end
  end.
#[local] Notation run := (foldl apply_otx).

(** ** Evaluation *)

(** [Evaluate] of the store: three attempts; a key that is taken is answered with the decision
    another client has made *)
Definition store_Evaluate_ok (who : Identity) (operation : string) (cfg : EvaluationConfig) : bool :=
  validIdentity who && orch_hash operation && orch_hash (ec_DecisionID cfg) && orch_hash (ec_ApprovalID cfg) && gov_address (ec_EscrowContract cfg) &&
  (0 <? ec_AcceptWindow cfg) && (minimumSettleWindow <=? ec_SettleWindow cfg).
Fixpoint evaluate_loop (env : list (tx_env otx)) (who : Identity) (operation : string) (cfg : EvaluationConfig) (db : odb) : odb * res (LoadedDecision * bool) :=
  match env with
  | [] => (db, Err "ASCP policy evaluation serialization retries exhausted")
  | e :: env =>
      if te_serialization e then evaluate_loop env who operation cfg (run db (te_others e))
      else
        match commit_tx db (evaluateOnce db who operation cfg) (te_commit e) with
        | (db', Err m) =>
            if bool_decide (m = ErrUniqueViolation) then
              let db' := run db' (te_others e) in
              match orch_Decision db' who operation with
              | Ok d => (db', Ok (d, true))
              | Err m' => (db', Err (if bool_decide (m' = ErrOrchNotFound) then m else m'))
              end
            else (db', Err m)
        | r => r
        end
  end.
Definition store_Evaluate (env : list (tx_env otx)) (who : Identity) (operation : string) (cfg : EvaluationConfig) (db : odb) : odb * res (LoadedDecision * bool) :=
  if store_Evaluate_ok who operation cfg then evaluate_loop (take 3 env) who operation cfg db else (db, Err ErrOrchScope).

(** ** Grants for a refused purchase *)

Definition remaining_budget (budget spent reserved : string) : option Z :=
  match SetString10 budget, SetString10 spent, SetString10 reserved with
  | Some limit, Some x, Some y => if (0 <? limit) && (0 <=? x) && (0 <=? y) then Some (limit - (x + y)) else None
  | _, _, _ => None
  end.
Definition maximum_step (best : option (option Z)) (v : string) : option (option Z) :=
  match best with
  | None => None
  | Some m =>
      match SetString10 v with
      | Some n => if (0 <? n) && bool_decide (dec_string n = v) then Some (Some (match m with Some x => Z.min x n | None => n end)) else None
      | None => None
      end
  end.
Definition adaptationMaximum (original : string) (c : PolicyConfig) (spend : SpendSnapshot) : option string :=
  match remaining_budget (cfg_TaskBudgetAtomic c) (sp_TaskSpentAtomic spend) (sp_TaskReservedAtomic spend),
        remaining_budget (cfg_DailyBudgetAtomic c) (sp_DailySpentAtomic spend) (sp_DailyReservedAtomic spend) with
  | Some task, Some daily =>
      match foldl maximum_step (Some None) [original; cfg_PerActionLimitAtomic c; dec_string task; dec_string daily] with
      | Some (Some m) => Some (dec_string m)
      | _ => None
      end
  | _, _ => None
  end.

(** [SELECT DISTINCT ... ORDER BY seller_id LIMIT 64] *)
Definition approvedAdaptationSellers (t : DirectoryTables) (q : Quote) (contract : string) (recipients : list string) : res (list string) :=
  match SetString10 (q_ChainID q) with
  | Some chain =>
      check (chain <=? MaxInt64) && negb (bool_decide (recipients = [])) else ErrReasonIneligible ;;
      match dt_heads t !! (chain, contract) with
      | None => Ok []
      | Some head =>
          let sellers := omap (fun p => let e := p.2 in
            if bool_decide (p.1.1.1 = hw_digest head) && de_Active e && negb (de_QuoteKeyRevoked e) && bool_decide (de_PayoutAddress e ∈ recipients) then Some (de_SellerID e) else None)
            (map_to_list (dt_evidence t)) in
          Ok (take 64 (merge_sort String.le (elements (list_to_set sellers : gset string))))
      end
  | None => Err ErrReasonIneligible
  end.

Definition reason_class (r : Reason) : option ReasonClass :=
  if bool_decide (r = ReasonPerActionLimit) || bool_decide (r = ReasonTaskBudget) || bool_decide (r = ReasonDailyBudget) then Some ReasonTooExpensive
  else if bool_decide (r = ReasonRecipientNotAllowed) then Some ReasonWrongSeller else None.

(** The request for a refused purchase whose records are in order *)
Definition adaptation_request (db : odb) (who : Identity) (operation : string) (d : DecisionRow) (i : StoreInput) (spec : PurchaseSpec) (p : StoredPolicy) (class : ReasonClass)
    : res IssueRequest :=
  let q := si_Quote i in
  let c := sy_config p in
  try _ := policy_Compile c in
  try spend := policySpendSnapshot db who spec (time_of_unix (dr_EvaluatedAt d)) in
  match adaptationMaximum (q_AmountBaseUnits q) c spend with
  | None => Err ErrReasonIneligible
  | Some maximum =>
      try sellers := (if bool_decide (class = ReasonWrongSeller)
                      then approvedAdaptationSellers (ow_directory (od_control db)) q (op_DirectoryContract (si_Operation i)) (cfg_AllowedRecipients c)
                      else Ok [q_SellerID q]) in
      check negb (bool_decide (sellers = [])) else ErrReasonIneligible ;;
      Ok (mkIssueRequest class operation (idn_OrganizationID who) (idn_AgentID who) (ps_TaskID spec) (ps_Category spec) maximum sellers (dr_EvaluatedAt d))
  end.

Definition AdaptationRequest (db : odb) (who : Identity) (operation : string) : res IssueRequest :=
  check validIdentity who && orch_hash operation else ErrOrchScope ;;
  match od_decisions db !! operation, od_intents db !! operation with
  | Some d, Some i =>
      check bool_decide (dr_OrganizationID d = idn_OrganizationID who) && bool_decide (dr_AgentID d = idn_AgentID who) else ErrOrchNotFound ;;
      match ow_policies (od_control db) !! (dr_OrganizationID d, dr_AgentID d, dr_PolicyVersion d) with
      | None => Err ErrOrchNotFound
      | Some p =>
          check bool_decide (dr_Outcome d = Deny) else ErrReasonIneligible ;;
          match reason_class (dr_Reason d) with
          | None => Err ErrReasonIneligible
          | Some class =>
              let q := si_Quote i in
              check is_ok (Quote_Validate q) else "stored adaptation quote is invalid" ;;
              match ValidatePersisted (si_PurchaseSpecJSON i) (si_RequestBody i) with
              | Err _ => Err "stored adaptation purchase binding is invalid"
              | Ok spec =>
                  check bool_decide (ps_OrgID spec = idn_OrganizationID who) && bool_decide (ps_AgentID spec = idn_AgentID who) &&
                        bool_decide (q_PurchaseSpecHash q = keccakHex (si_PurchaseSpecJSON i)) else "stored adaptation purchase binding is invalid" ;;
                  match p with
                  | None => Err "stored adaptation policy is invalid"
                  | Some p => adaptation_request db who operation d i spec p class
                  end
              end
          end
      end
  | _, _ => Err ErrOrchNotFound
  end.

(** A decision with the grant that was issued for it, if any; [issue] is the grant service *)
Definition attachAdaptation (db : odb) (who : Identity) (d : LoadedDecision) (issue : option (IssueRequest -> res string)) : res (LoadedDecision * string) :=
  match AdaptationRequest db who (dr_OperationID d.1) with
  | Err m => if bool_decide (m = ErrReasonIneligible) then Ok (d, "") else Err m
  | Ok request => match issue with None => Err ErrSignerUnavailable | Some issue => try id := issue request in Ok (d, id) end
  end.

Definition evaluation_config (now : time) (decisionID approvalID : string) : EvaluationConfig :=
  mkEvaluationConfig (os_EscrowContract s) (os_AcceptWindow s) (os_SettleWindow s) now decisionID approvalID.
Definition orch_Evaluate (db : odb) (who : Identity) (operation : string) (now : time) (decisionID approvalID : res string) (env : list (tx_env otx)) (between : list otx)
    (issue : option (IssueRequest -> res string)) : odb * res (LoadedDecision * string) :=
  if validIdentity who && orch_hash operation then
    match decisionID, approvalID with
    | Ok x, Ok y =>
        match store_Evaluate env who operation (evaluation_config now x y) db with
        | (db, Ok (d, _)) => (run db between, attachAdaptation (run db between) who d issue)
        | (db, Err m) => (db, Err m)
        end
    | Err m, _ | _, Err m => (db, Err m)
    end
  else (db, Err ErrOrchScope).

(** ** Approvals *)

(** [DecideApproval]: the update, and when no row matched a second look and the expiry *)
Definition store_DecideApproval (db : odb) (org id snapshot : string) (approved : bool) (actor : string) (now : time) (between between' : list otx) : odb * answer ReviewApproval :=
  match decide_row db org id snapshot approved actor now with
  | Some (db', a) => (db', (Some a, None))
  | None =>
      let db := run db between in
      match orch_Approval db org id with
      | Err m => (db, (None, Some m))
      | Ok current =>
          if negb (bool_decide (ap_ReviewSnapshotHash current = snapshot)) then (db, (Some current, Some ErrSnapshotMismatch))
          else if bool_decide (ap_State current = ApRequested) && (ap_ExpiresAt current <=? Unix now)
          then (expire_row (run db between') org id now, (Some (decided_approval current ApExpired (ap_DecidedAt current) (ap_DecidedBy current)), Some ErrNotRequested))
          else (db, (Some current, Some ErrNotRequested))
      end
  end.
Definition DecideApproval (db : odb) (org id snapshot : string) (approved : bool) (actor : string) (now : time) (between between' : list otx) : odb * answer ReviewApproval :=
  if identifier_pattern org && identifier_pattern actor && orch_hash id && orch_hash snapshot then store_DecideApproval db org id snapshot approved actor now between between'
  else (db, (None, Some ErrOrchScope)).

(** ** Authorization *)

(** Whether the decision allows an authorization at [now] *)
Definition decision_open (d : LoadedDecision) (now : time) : res unit :=
  let '(row, approval) := d in
  check negb (bool_decide (dr_Outcome row = Deny)) else ErrDecisionDenied ;;
  if bool_decide (dr_Outcome row = RequireApproval) then
    match approval with
    | None => Err ErrApprovalUnavailable
    | Some a =>
        check Unix now <? ap_ExpiresAt a else ErrApprovalUnavailable ;;
        check negb (bool_decide (ap_State a = ApRequested)) else ErrApprovalPending ;;
        check bool_decide (ap_State a = ApApproved) else ErrApprovalUnavailable ;;
        Ok tt
    end
  else Ok tt.

(** The window left by the commitment's deadlines *)
Definition delivery_window (c : Commitment) (q : Quote) (now : time) : bool :=
  let n := Unix now in
  let minimum := uint64 (q_DeclaredWorkTime q + (if q_VerificationBudgetSeconds q <? 120 then 120 else q_VerificationBudgetSeconds q)) in
  (0 <=? n) && (n <? cm_AcceptBy c) && (n <? cm_QuoteExpiresAt c) && (n <? cm_DeliverBy c) && (minimum <=? cm_DeliverBy c - n) &&
  (n + minimumSettleWindow / Second <? cm_SettleBy c).

(** The input but for its snapshot hash *)
Definition unsealed_input (d : LoadedDecision) (operation authorizationID reservationID : string) (q : Quote) (dimensions : list Dimension) (expiresAt : time) (snapshot : string) : ExecInput :=
  let r := mkReserveRequest reservationID operation (q_AmountBaseUnits q) dimensions expiresAt in
  match d with
  | (row, Some a) => if bool_decide (dr_Outcome row = RequireApproval)
                     then mkExecInput authorizationID (ap_ApprovalID a) (ap_ReviewSnapshotHash a) "" operation snapshot (dr_Review row) r
                     else mkExecInput authorizationID "" "" (dr_DecisionID row) operation snapshot (dr_Review row) r
  | (row, None) => mkExecInput authorizationID "" "" (dr_DecisionID row) operation snapshot (dr_Review row) r
  end.

Definition AuthorizationInput (db db' : odb) (who : Identity) (operation authorizationID reservationID : string) (now : time) : res ExecInput :=
  try d := orch_Decision db who operation in
  try _ := decision_open d now in
  let w := od_control db' in
  let org := idn_OrganizationID who in
  let agent := idn_AgentID who in
  match od_intents db' !! operation with
  | None => Err ErrOrchConflict
  | Some i =>
      let q := si_Quote i in
      check bool_decide (op_OrganizationID (si_Operation i) = org) && bool_decide (op_ActorID (si_Operation i) = agent) else ErrOrchConflict ;;
      match SetString10 (q_ChainID q) with
      | None => Err "build ASCP authorization input"
      | Some chain =>
          check chain <=? MaxInt64 else "build ASCP authorization input" ;;
          match active_policy w org agent, current_head (ow_directory w) chain (op_DirectoryContract (si_Operation i)) with
          | Some (_, p), Some (head, _) =>
              match p with
              | None => Err ErrOrchConflict
              | Some p =>
                  check delivery_window (dr_Commitment d.1) q now else ErrOperationExpired ;;
                  match ValidatePersisted (si_PurchaseSpecJSON i) (si_RequestBody i) with
                  | Err _ => Err ErrOrchConflict
                  | Ok spec =>
                      try dimensions := RequiredBudgetDimensions p spec now in
                      let expiresAt := Z.min (time_add now ReservationTTL) (time_of_unix (int64 (q_QuoteExpiresAt q))) in
                      check time_after expiresAt now else ErrOperationExpired ;;
                      let input := unsealed_input d operation authorizationID reservationID q dimensions expiresAt in
                      Ok (input (ExecutionSnapshotHash (input "") org agent (hw_digest head)))
                  end
              end
          | _, _ => Err ErrOrchConflict
          end
      end
  end.

Definition orch_Authorization (db : odb) (who : Identity) (operation : string) : res OrchAuthorization :=
  match od_authorizations db !! operation, od_intents db !! operation, od_decisions db !! operation with
  | Some r, Some i, Some d =>
      check bool_decide (op_OrganizationID (si_Operation i) = idn_OrganizationID who) && bool_decide (op_ActorID (si_Operation i) = idn_AgentID who) else ErrOrchNotFound ;;
      Ok (mkOrchAuthorization (xr_AuthorizationID r) operation (dr_DecisionID d) (xr_ApprovalID r) (xr_State r) (xr_SnapshotHash r)
            (default "" (xr_ReservationID r)) (xr_Reason r))
  | _, _, _ => Err ErrOrchNotFound
  end.

(** [ValidateAndReserve]: three attempts at the boundary *)
Fixpoint validate_loop (env : list (tx_env otx)) (i : ExecInput) (now : time) (db : odb) : odb * answer ExecAuthorization :=
  match env with
  | [] => (db, (None, Some "execution authorization serialization retries exhausted"))
  | e :: env =>
      if te_serialization e then validate_loop env i now (run db (te_others e))
      else
        match authorize_once db i now with
        | Err m => (db, (None, Some m))
        | Ok (inl current) => (db, (Some current, Some ErrAlreadyEvaluated))
        | Ok (inr (db', (a, cause))) =>
            match te_commit e with
            | Committed => (db', (Some a, cause))
            | NotCommitted => (db, (None, Some "commit execution authorization"))
            | CommittedUnknown => (db', (None, Some "commit execution authorization"))
            end
        end
  end.
Definition ValidateAndReserve (env : list (tx_env otx)) (i : ExecInput) (now : time) (db : odb) : odb * answer ExecAuthorization := validate_loop (take 3 env) i now db.

Definition authorizationProjection (a : ExecAuthorization) : OrchAuthorization :=
  let i := xa_Input a in
  mkOrchAuthorization (ei_AuthorizationID i) (ei_IntentID i) (ei_AutoDecisionRef i) (ei_ApprovalID i) (xa_State a) (ei_ExecutionSnapshotHash i)
    (rq_ReservationID (ei_Reservation i)) (xa_Reason a).

(** What happens around an authorization: the new IDs, the times, and what others commit *)
Record authorize_world := mkAuthorizeWorld {
  zw_authorizationID : res string; zw_reservationID : res string; zw_inputAt : time; zw_reserveAt : time; zw_first : list otx; zw_decision : list otx; zw_input : list otx;
  zw_env : list (tx_env otx); zw_read : list otx }.

Definition of_res {A} (r : res A) : answer A := match r with Ok a => (Some a, None) | Err m => (None, Some m) end.

Definition orch_Authorize (db : odb) (who : Identity) (operation : string) (w : authorize_world) : odb * answer OrchAuthorization :=
  if negb (validIdentity who && orch_hash operation) then (db, (None, Some ErrOrchScope))
  else
    match orch_Authorization db who operation with
    | Ok existing => (db, (Some existing, None))
    | Err m =>
        if negb (bool_decide (m = ErrOrchNotFound)) then (db, (None, Some m))
        else
          match zw_authorizationID w, zw_reservationID w with
          | Ok authorizationID, Ok reservationID =>
              let db := run db (zw_first w) in
              let db' := run db (zw_decision w) in
              match AuthorizationInput db db' who operation authorizationID reservationID (zw_inputAt w) with
              | Err m => (db', (None, Some m))
              | Ok input =>
                  let (db, created) := ValidateAndReserve (zw_env w) input (zw_reserveAt w) (run db' (zw_input w)) in
                  let db := run db (zw_read w) in
                  match created with
                  | (None, e) => (db, (None, e))
                  | (Some a, e) =>
                      if bool_decide (e = Some ErrAlreadyEvaluated) then (db, of_res (orch_Authorization db who operation))
                      else
                        match orch_Authorization db who operation, e with
                        | Ok stored, _ => (db, (Some stored, e))
                        | Err m, None => (db, (None, Some m))
                        | Err _, Some _ => (db, (Some (authorizationProjection a), e))
                        end
                  end
              end
          | Err m, _ | _, Err m => (db, (None, Some m))
          end
    end.
End Service.
