(* ===== verification/OrchestrationTheorems.v ===== *)
(** * Budgets hold, and what was decided is what is authorized

    First the budgets, then the decisions under the authorizations and the time they have.

    ** Budgets hold

    What an organisation has in use in a budget dimension, and that the transactions of the
    orchestration keep it within the limits that were authorized against. *)
From stdpp Require Import base gmap strings list sorting.
From Stdlib Require Import ZArith Lia Ascii.
From S2P Require Import Prelude GoText GoJSON Amounts Crypto Envelope Policy Reservation GovAction SafeTx SellerQuote Url PurchaseSpec Adaptation Intake DirectoryReader TxRetry SettlementStore Commitment ExecStore Orchestration.

Open Scope Z_scope.

(** ** What is in use *)

Definition dimension_total (db : odb) (org dimension : string) : Z := in_use (stored_uses db org (fun id => bool_decide (id = dimension))) dimension.

(** What one reservation takes from a dimension *)
Definition row_use (db : odb) (org dimension : string) (r : BudgetRow) : Z := in_use (row_uses db org (fun id => bool_decide (id = dimension)) r) dimension.

Lemma in_use_app l k d : in_use (l ++ k) d = in_use l d + in_use k d.
Proof. induction l as [|u l IH]; [done|]. cbn. unfold in_use in *. lia. Qed.

Lemma use_amount_nonneg d u : 0 <= use_amount d u.
Proof.
  unfold use_amount. destruct (_ && _); [|done]. unfold exec_positiveInteger. destruct (positiveDecimal _); [|done].
  destruct (SetString10 _) as [n|]; [|done]. destruct ((0 <? n) && fits256 n) eqn:E; [|done]. to_prop. cbn. lia.
Qed.
Lemma in_use_nonneg l d : 0 <= in_use l d.
Proof. induction l as [|u l IH]; [done|]. cbn. pose proof (use_amount_nonneg d u). unfold in_use in IH. lia. Qed.

(** Reading more dimensions does not change the use of one. *)
Lemma row_uses_wanted db org (p : string -> bool) d r : p d = true -> in_use (row_uses db org p r) d = row_use db org d r.
Proof.
  intros Hp. unfold row_use, row_uses. destruct (_ && _); [|done]. induction (bw_Dimensions r) as [|x l IH]; [done|]. cbn [List.filter].
  destruct (bool_decide_reflect (dim_ID x = d)) as [E|E].
  - rewrite E, Hp. cbn [map]. unfold in_use in *. cbn [foldr]. lia.
  - destruct (p (dim_ID x)); [|done]. cbn [map]. unfold in_use in *. cbn [foldr]. rewrite IH. unfold use_amount at 1. cbn. by rewrite bool_decide_false by done.
Qed.

Lemma stored_uses_sum db org (p : string -> bool) d : p d = true -> in_use (stored_uses db org p) d = map_sum (fun _ r => row_use db org d r) (od_reservations db).
Proof.
  intros Hp. unfold stored_uses, map_sum. rewrite map_fold_foldr. induction (map_to_list (od_reservations db)) as [|[k r] l IH]; [done|].
  cbn [map concat foldr uncurry]. rewrite in_use_app, IH. f_equal. by apply row_uses_wanted.
Qed.
Lemma dimension_total_sum db org d : dimension_total db org d = map_sum (fun _ r => row_use db org d r) (od_reservations db).
Proof. apply stored_uses_sum. by rewrite bool_decide_true. Qed.

(** A row's use depends on its organisation, its state and its dimensions only. *)
Lemma row_use_org db db' org d r : organization_of db (bw_OperationID r) = organization_of db' (bw_OperationID r) -> row_use db org d r = row_use db' org d r.
Proof. unfold row_use, row_uses. by intros ->. Qed.

Definition charged (s : RState) (refundable : bool) : bool := held_state s && negb (bool_decide (s = Restored) && refundable).

Lemma row_use_moved db org d r target : (forall refundable, charged target refundable = true -> charged (bw_State r) refundable = true) ->
  row_use db org d (mkBudgetRow (bw_OperationID r) (bw_Amount r) target (bw_Dimensions r) (bw_CreatedAt r) (bw_ExpiresAt r)) <= row_use db org d r.
Proof.
  intros Hc. unfold row_use, row_uses. cbn [bw_OperationID bw_Amount bw_State bw_Dimensions]. destruct (bool_decide (organization_of _ _ = _)); cbn [andb]; [|done].
  destruct (held_state target) eqn:Et; [|apply in_use_nonneg].
  set (use s x := use_amount d (mkStoredUse (dim_ID x) (bw_Amount r) s (dim_Refundable x))).
  assert (Hx : forall x, use target x <= (if held_state (bw_State r) then use (bw_State r) x else 0)).
  { intros x. subst use. unfold use_amount, counts. cbn. specialize (Hc (dim_Refundable x)). unfold charged in Hc. rewrite Et in Hc. cbn [andb] in Hc.
    destruct (bool_decide (dim_ID x = d)); cbn [andb]; [|by destruct (held_state (bw_State r))]. destruct (negb (bool_decide (target = Restored) && dim_Refundable x)).
    - specialize (Hc eq_refl). apply andb_true_iff in Hc as [-> ->]. done.
    - pose proof (use_amount_nonneg d (mkStoredUse (dim_ID x) (bw_Amount r) (bw_State r) (dim_Refundable x))) as Hn. unfold use_amount, counts in Hn. cbn in Hn.
      destruct (held_state (bw_State r)); [|done]. destruct (negb _); [|done]. unfold exec_positiveInteger. destruct (positiveDecimal _); [|done].
      destruct (SetString10 _) as [n|]; [|done]. destruct ((0 <? n) && fits256 n) eqn:E; [|done]. to_prop. cbn. lia. }
  induction (List.filter _ (bw_Dimensions r)) as [|x l IH]; [by destruct (held_state (bw_State r))|]. specialize (Hx x).
  cbn [map]. destruct (held_state (bw_State r)); cbn [map] in *; unfold in_use in *; cbn [foldr] in *; fold (use target x) in *; [fold (use (bw_State r) x)|]; cbn in *; lia.
Qed.

(** ** What an authorization did *)

(** The tables after an authorization that reserved *)
Definition authorized_row (i : ExecInput) (now : time) : ExecRow :=
  mkExecRow (ei_AuthorizationID i) (ei_ApprovalID i) (ei_AutoDecisionRef i) ValidatedAndReserved (ei_ExecutionSnapshotHash i)
    (Some (rq_ReservationID (ei_Reservation i))) "" (pg_time now).
Definition with_authorization (db : odb) (i : ExecInput) (now : time) : odb :=
  let r := ei_Reservation i in
  put_authorization (put_admissions (put_reservations db (<[rq_ReservationID r := reservation_row r now]> (od_reservations db)))
    (<[ei_IntentID i := (rq_ReservationID r, true)]> (od_admissions db)) (od_count db + 1)) (ei_IntentID i) (authorized_row i now).

Section Boundary.
Context `{Crypto, SafeLib, Unicode, UnicodeUpper, HostNames}.
Context (s : OrchService).

Record authorization_facts (db : odb) (i : ExecInput) (now : time) (org : string) : Prop := {
  af_input : exec_validInput i = true;
  af_reservation : validateReservation (ei_Reservation i) = Ok tt;
  af_fresh : od_authorizations db !! ei_IntentID i = None;
  af_org : organization_of db (ei_IntentID i) = Some org;
  af_decision : decision_cause db org i now = Ok None;
  af_valid : exists reason, Revalidate (os_MaxDirectoryAge s) db i now = Ok reason /\ TrimSpace reason = "";
  af_budget : over_budget (stored_uses db org (includes (rq_Dimensions (ei_Reservation i)))) (default 0 (exec_positiveInteger (rq_Amount (ei_Reservation i))))
                (rq_Dimensions (ei_Reservation i)) = None;
  af_new : od_reservations db !! rq_ReservationID (ei_Reservation i) = None;
  af_capacity : od_count db < od_limit db;
  af_admission : od_admissions db !! ei_IntentID i = None;
}.

Lemma insert_authorization_ok db intent r m db' : insert_authorization db intent r m = Ok db' -> od_authorizations db !! intent = None /\ db' = put_authorization db intent r.
Proof. unfold insert_authorization. rewrite check_ok_iff. intros [Hc [= <-]]. to_prop. by destruct Hc as [[Hc _] _]. Qed.

Lemma persistInvalid_ok db i reason now cause db' x : persistInvalid db i reason now cause = Ok (db', x) ->
  db' = put_authorization db (ei_IntentID i) (invalid_row i reason now) /\ x = (mkExecAuthorization i Invalidated reason, Some cause).
Proof. unfold persistInvalid. rewrite try_ok_iff. intros (d & [_ ->]%insert_authorization_ok & [= <- <-]). done. Qed.

Lemma exec_operation i : exec_validInput i = true -> rq_OperationID (ei_Reservation i) = ei_IntentID i.
Proof. unfold exec_validInput. rewrite !andb_true_iff. intros [[[[_ E] _] _] _]. by to_prop. Qed.

(** A transaction that commits records a refusal or a reservation. *)
Lemma authorize_cases db i now db' x : authorize_once s db i now = Ok (inr (db', x)) -> od_authorizations db !! ei_IntentID i = None /\
  ((exists reason, db' = put_authorization db (ei_IntentID i) (invalid_row i reason now) /\ xa_State x.1 = Invalidated) \/
   (exists org, authorization_facts db i now org /\ db' = with_authorization db i now /\ x = (mkExecAuthorization i ValidatedAndReserved "", None))).
Proof.
  unfold authorize_once, validateAndReserveOnce. rewrite check_ok_iff, try_unit_iff. intros (Hin & Hres & Hx). to_prop.
  destruct Hin as [[Hin _] _]. unfold loadExisting in Hx. destruct (od_authorizations db !! ei_IntentID i) eqn:Hfresh; [done|]. cbn in Hx. split; [done|].
  destruct (organization_of db (ei_IntentID i)) as [org|] eqn:Horg; [|done]. apply try_ok_iff in Hx as (cause & Hcause & Hx).
  apply try_ok_iff in Hx as (y & Hy & [= ->]). destruct cause as [m|]; [left; apply persistInvalid_ok in Hy as [-> ->]; by eexists|].
  apply try_ok_iff in Hy as (reason & Hre & Hy). destruct (bool_decide_reflect (TrimSpace reason = "")) as [Et|Et];
    [|left; apply persistInvalid_ok in Hy as [-> ->]; by eexists].
  unfold reserve_and_record in Hy. destruct (reserveBudget db org _ now) as [[d1|id]|m] eqn:Hb; [|left; apply persistInvalid_ok in Hy as [-> ->]; by eexists|done].
  right. exists org. unfold reserveBudget in Hb. rewrite check_ok_iff in Hb. destruct Hb as [_ Hb]. destruct (over_budget _ _ _) eqn:Hover; [done|].
  rewrite check_ok_iff in Hb. destruct Hb as [Hk [= <-]]. to_prop. destruct Hk as [[Hk Hop] _].
  apply try_ok_iff in Hy as (d2 & Hacq & Hy). unfold Acquire in Hacq. rewrite !check_ok_iff in Hacq. destruct Hacq as (_ & _ & _ & Hacq).
  cbn [od_reservations put_reservations] in Hacq. rewrite lookup_insert_eq in Hacq. rewrite !check_ok_iff in Hacq. destruct Hacq as (_ & Hcap & Hadm & [= <-]).
  to_prop. destruct Hadm as [Hadm _]. apply try_ok_iff in Hy as (d3 & [_ ->]%insert_authorization_ok & [= <- <-]).
  split; [|split; [|done]].
  - split; try done. by eexists.
  - done.
Qed.

(** ** Requests *)

Lemma dimension_fold a l : forall seen out, fold_res (dimension_step a) seen l = Ok out ->
  NoDup (map dim_ID l) /\ (forall d, d ∈ l -> dim_ID d ∉ seen) /\ Forall (fun d => exists n, exec_positiveInteger (dim_Limit d) = Some n /\ a <= n) l.
Proof.
  induction l as [|d l IH]; intros seen out; cbn [map]; [intros _; split_and!; [constructor|set_solver|constructor]|].
  rewrite fold_res_cons. unfold dimension_step at 1. destruct (exec_positiveInteger (dim_Limit d)) as [n|] eqn:El; [|done].
  destruct (bool_decide _ && _ && _); [|done]. destruct (bool_decide_reflect (dim_ID d ∈ seen)) as [|Hs]; [done|]. cbn [negb].
  destruct (Z.leb_spec a n); [|done]. intros (Hn & Hd & Hl)%IH. split_and!.
  - constructor; [|done]. intros (x & Ex & Hx)%list_elem_of_fmap. specialize (Hd x Hx). rewrite <- Ex in Hd. set_solver.
  - intros x [->|Hx]%elem_of_cons; [done|]. specialize (Hd x Hx). set_solver.
  - constructor; eauto.
Qed.

Lemma validateReservation_ok r : validateReservation r = Ok tt -> exists a, exec_positiveInteger (rq_Amount r) = Some a /\
  NoDup (map dim_ID (rq_Dimensions r)) /\ Forall (fun d => exists n, exec_positiveInteger (dim_Limit d) = Some n /\ a <= n) (rq_Dimensions r).
Proof.
  unfold validateReservation. destruct (exec_positiveInteger (rq_Amount r)) as [a|]; [|done]. rewrite check_ok_iff, try_ok_iff.
  intros (_ & out & (Hn & _ & Hl)%dimension_fold & _). eauto.
Qed.

(** A new reservation takes its amount from each of its dimensions, and from no other. *)
Lemma reserved_use db org d r now a : exec_positiveInteger (rq_Amount r) = Some a -> NoDup (map dim_ID (rq_Dimensions r)) ->
  row_use db org d (reservation_row r now) = if bool_decide (organization_of db (rq_OperationID r) = Some org) && bool_decide (d ∈ map dim_ID (rq_Dimensions r)) then a else 0.
Proof.
  intros Ha Hn. unfold row_use, row_uses, reservation_row. cbn [bw_OperationID bw_State bw_Amount bw_Dimensions]. change (held_state Reserved) with true. rewrite andb_true_r.
  destruct (bool_decide (organization_of db _ = _)); cbn [andb]; [|done]. induction (rq_Dimensions r) as [|x l IH]; [done|]. cbn [map] in Hn.
  apply NoDup_cons in Hn as [Hx Hn]. cbn [List.filter]. destruct (bool_decide_reflect (dim_ID x = d)) as [<-|E].
  - rewrite (bool_decide_true (_ ∈ _)) by (cbn; set_solver). cbn [map]. unfold in_use in *. cbn [foldr]. rewrite (IH Hn). rewrite bool_decide_false by done.
    unfold use_amount, counts. cbn [su_dimension su_amount su_state su_refundable]. rewrite bool_decide_true by done. change (bool_decide (Reserved = Restored)) with false.
    cbn [andb negb]. rewrite Ha. cbn. lia.
  - rewrite (IH Hn). cbn [map]. assert (d ∈ dim_ID x :: map dim_ID l <-> d ∈ map dim_ID l) as Hd by (rewrite elem_of_cons; naive_solver). by rewrite (bool_decide_ext _ _ Hd).
Qed.

Lemma includes_elem l id : includes l id = true <-> id ∈ map dim_ID l.
Proof. induction l as [|d l IH]; cbn; [set_solver|]. destruct (bool_decide_reflect (dim_ID d = id)) as [<-|E]; set_solver. Qed.

Lemma over_budget_none uses a l d n : over_budget uses a l = None -> d ∈ l -> exec_positiveInteger (dim_Limit d) = Some n -> in_use uses (dim_ID d) + a <= n.
Proof.
  unfold over_budget. destruct (List.find _ l) as [x|] eqn:E; [done|]. intros _ Hd Hn. apply list_elem_of_In in Hd. pose proof (find_none _ _ E d Hd) as Hf. cbn in Hf.
  rewrite Hn in Hf. cbn in Hf. apply Z.ltb_ge in Hf. lia.
Qed.

(** ** Runs *)

#[local] Notation run := (foldl (apply_otx s)).

(** The largest limit of a dimension that a request of the run names *)
Definition request_limit (d : string) (x : Dimension) (m : Z) : Z := if bool_decide (dim_ID x = d) then Z.max (default 0 (exec_positiveInteger (dim_Limit x))) m else m.
Definition named_limit (d : string) (t : otx) : Z := match t with OAuthorize i _ => foldr (request_limit d) 0 (rq_Dimensions (ei_Reservation i)) | _ => 0 end.
Definition largest_limit (ts : list otx) (d : string) : Z := foldr (fun t m => Z.max (named_limit d t) m) 0 ts.

Lemma request_limit_le d l x n : x ∈ l -> dim_ID x = d -> exec_positiveInteger (dim_Limit x) = Some n -> n <= foldr (request_limit d) 0 l.
Proof.
  intros Hx <- Hn. induction Hx as [x l|x y l _ IH]; cbn; unfold request_limit at 1; [rewrite bool_decide_true, Hn by done; cbn; lia|].
  specialize (IH Hn). destruct (bool_decide _); lia.
Qed.

(** No move charges a dimension again: in particular, no refund is undone. *)
Definition tame_step (db : odb) (t : otx) : Prop :=
  match t with
  | OMove id target => forall r, od_reservations db !! id = Some r -> forall refundable, charged target refundable = true -> charged (bw_State r) refundable = true
  | _ => True
  end.
Fixpoint tame_run (db : odb) (ts : list otx) : Prop := match ts with [] => True | t :: ts => tame_step db t /\ tame_run (apply_otx s db t) ts end.

Record budget_inv (db : odb) (bound : string -> Z) : Prop := {
  bi_known : forall k r, od_reservations db !! k = Some r -> is_Some (od_intents db !! bw_OperationID r);
  bi_total : forall org d, dimension_total db org d <= bound d;
}.

Lemma evaluateOnce_frame db who operation cfg db' x : evaluateOnce db who operation cfg = Ok (db', x) ->
  od_intents db' = od_intents db /\ od_reservations db' = od_reservations db /\ od_authorizations db' = od_authorizations db /\
  od_admissions db' = od_admissions db /\ od_count db' = od_count db /\ od_limit db' = od_limit db /\ od_control db' = od_control db.
Proof.
  unfold evaluateOnce. rewrite try_ok_iff. intros (e & _ & Hx). destruct e as [e|]; [by injection Hx as <- _|]. apply try_ok_iff in Hx as (m & _ & Hx).
  rewrite check_ok_iff in Hx. destruct Hx as [_ Hx]. apply try_ok_iff in Hx as ([row a] & _ & Hx). apply try_ok_iff in Hx as (d1 & Hf1 & Hx).
  apply try_ok_iff in Hx as (d2 & Hf2 & [= <- _]). unfold insert_decision in Hf2. rewrite check_ok_iff in Hf2. destruct Hf2 as [_ [= <-]].
  destruct a as [a|]; [|by injection Hf1 as <-]. unfold insert_approval in Hf1. rewrite check_ok_iff in Hf1. by destruct Hf1 as [_ [= <-]].
Qed.

(** Steps that leave intents and reservations alone *)
Lemma budget_frame db db' bound : od_intents db' = od_intents db -> od_reservations db' = od_reservations db -> budget_inv db bound -> budget_inv db' bound.
Proof.
  intros Ei Er [Hf1 Hf2]. split; [by rewrite Ei, Er|]. intros org d. etransitivity; [|apply (Hf2 org d)]. rewrite !dimension_total_sum, Er.
  apply Z.eq_le_incl, map_sum_ext. intros k r _. apply row_use_org. unfold organization_of. by rewrite Ei.
Qed.

Lemma budget_weaken db (b b' : string -> Z) : (forall d, b d <= b' d) -> budget_inv db b -> budget_inv db b'.
Proof. intros Hle [Hf1 Hf2]. split; [done|]. intros org d. etransitivity; [apply Hf2|apply Hle]. Qed.

Lemma total_insert db db' k org r d (old := od_reservations db) : od_intents db' = od_intents db -> od_reservations db' = <[k := r]> old -> old !! k = None ->
  dimension_total db' org d = row_use db org d r + dimension_total db org d.
Proof.
  intros Ei Er Hk. rewrite !dimension_total_sum, Er, map_sum_insert_new by done.
  assert (forall x, row_use db' org d x = row_use db org d x) as Eu by (intros x; apply row_use_org; unfold organization_of; by rewrite Ei).
  rewrite Eu. f_equal. apply map_sum_ext. intros; apply Eu.
Qed.

Lemma budget_reserved db i now org bound : authorization_facts db i now org -> budget_inv db bound ->
  budget_inv (with_authorization db i now) (fun d => Z.max (bound d) (named_limit d (OAuthorize i now))).
Proof.
  intros F [Hk Ht]. pose proof (exec_operation _ (af_input _ _ _ _ F)) as Hop. pose proof (af_org _ _ _ _ F) as Horg.
  destruct (validateReservation_ok _ (af_reservation _ _ _ _ F)) as (a & Ha & Hn & Hl). rewrite Forall_forall in Hl. split.
  - intros k r. cbn [with_authorization put_authorization put_admissions put_reservations od_reservations od_intents]. rewrite lookup_insert_Some.
    intros [[_ <-]|[_ Hr]]; [|by eapply Hk]. cbn. rewrite Hop. unfold organization_of in Horg. by destruct (od_intents db !! ei_IntentID i).
  - intros o d. rewrite (total_insert db (with_authorization db i now) (rq_ReservationID (ei_Reservation i)) _ (reservation_row (ei_Reservation i) now) _ eq_refl eq_refl (af_new _ _ _ _ F)).
    rewrite (reserved_use _ _ _ _ _ a) by done. rewrite Hop, Horg.
    destruct (bool_decide_reflect (Some org = Some o)) as [[= <-]|]; cbn [andb]; [|specialize (Ht o d); lia].
    destruct (bool_decide_reflect (d ∈ map dim_ID (rq_Dimensions (ei_Reservation i)))) as [Hd|]; [|specialize (Ht org d); lia].
    pose proof (proj2 (includes_elem _ _) Hd) as Hinc. apply list_elem_of_fmap in Hd as (x & -> & Hx). destruct (Hl x Hx) as (n & Hn' & _).
    pose proof (over_budget_none _ _ _ _ _ (af_budget _ _ _ _ F) Hx Hn') as Hover. rewrite Ha in Hover. cbn [from_option id] in Hover.
    rewrite stored_uses_sum, <- dimension_total_sum in Hover by done. pose proof (request_limit_le _ _ x n Hx eq_refl Hn'). cbn [named_limit]. lia.
Qed.

Lemma budget_moved db id target db' bound : move_reservation db id target = Ok db' -> tame_step db (OMove id target) -> budget_inv db bound -> budget_inv db' bound.
Proof.
  unfold move_reservation. destruct (od_reservations db !! id) as [r|] eqn:Er; [|by intros [= <-]]. intros Hm Htame Hinv. specialize (Htame r Er).
  assert (od_intents db' = od_intents db /\ od_reservations db' = <[id := mkBudgetRow (bw_OperationID r) (bw_Amount r) target (bw_Dimensions r) (bw_CreatedAt r) (bw_ExpiresAt r)]> (od_reservations db)) as [Ei Es].
  { destruct (_ && _); [|by injection Hm as <-]. rewrite !check_ok_iff in Hm. by destruct Hm as (_ & _ & [= <-]). }
  destruct Hinv as [Hk Ht]. split.
  - intros k x. rewrite Es, Ei, lookup_insert_Some. intros [[_ <-]|[_ Hx]]; [exact (Hk id r Er)|exact (Hk k x Hx)].
  - intros org d. etransitivity; [|apply (Ht org d)]. rewrite !dimension_total_sum, Es. rewrite (map_sum_insert_upd _ _ _ r) by done.
    assert (forall x, row_use db' org d x = row_use db org d x) as Eu by (intros x; apply row_use_org; unfold organization_of; by rewrite Ei).
    rewrite (map_sum_ext (fun _ x => row_use db' org d x) (fun _ x => row_use db org d x)) by (intros; apply Eu). rewrite !Eu. pose proof (row_use_moved db org d r target Htame).
    lia.
Qed.

Lemma budget_step db t bound : tame_step db t -> budget_inv db bound -> budget_inv (apply_otx s db t) (fun d => Z.max (bound d) (named_limit d t)).
Proof.
  intros Htame Hinv. assert (Hw : budget_inv db (fun d => Z.max (bound d) (named_limit d t))) by (eapply budget_weaken, Hinv; intros; lia).
  destruct t as [i|w|who op cfg|org id snap ok actor now|org id now|i now|id target]; cbn [apply_otx].
  - destruct (od_intents db !! _) eqn:Ei; [done|]. destruct Hw as [Hk Ht]. split.
    + intros k r Hr. cbn. apply (Hk k r) in Hr as [x Hx]. rewrite lookup_insert_ne; [eauto|]. intros E. congruence.
    + intros org d. etransitivity; [|apply (Ht org d)]. rewrite !dimension_total_sum. apply Z.eq_le_incl, map_sum_ext. intros k r Hr. apply row_use_org. unfold organization_of. cbn.
      apply Hk in Hr as [x Hx]. rewrite lookup_insert_ne; [done|]. intros E. congruence.
  - by eapply budget_frame, Hw.
  - destruct (evaluateOnce _ _ _ _) as [[db' x]|] eqn:E; [|done]. apply evaluateOnce_frame in E as (Ei & Er & _). by eapply budget_frame, Hw.
  - unfold decide_row. destruct (od_approvals db !! id); [|done]. destruct (_ && _); [|done]. by eapply budget_frame, Hw.
  - unfold expire_row. destruct (od_approvals db !! id); [|done]. destruct (_ && _); [|done]. by eapply budget_frame, Hw.
  - destruct (authorize_once s db i now) as [[?|[db' x]]|] eqn:E; [done| |done]. apply authorize_cases in E as (_ & [(reason & -> & _)|(org & F & -> & _)]).
    + by eapply budget_frame, Hw.
    + by eapply budget_reserved.
  - destruct (move_reservation _ _ _) as [db'|] eqn:E; [|done]. by eapply budget_moved.
Qed.

Lemma budget_run ts : forall db bound, tame_run db ts -> budget_inv db bound -> budget_inv (run db ts) (fun d => Z.max (bound d) (largest_limit ts d)).
Proof.
  induction ts as [|t ts IH]; intros db bound; cbn [foldl]; [intros _; apply budget_weaken; intros; lia|]. intros [Hf1 Hf2] Hinv.
  eapply budget_weaken; [|apply IH; [exact Hf2|by apply budget_step]]. intros d. cbn beta. change (largest_limit (t :: ts) d) with (Z.max (named_limit d t) (largest_limit ts d)). lia.
Qed.

Definition empty_odb (limit : Z) : odb := mkOdb ∅ (mkControl ∅ ∅ ∅ ∅ ∅ empty_tables) ∅ ∅ ∅ ∅ ∅ limit 0.

(** C21: In any run of the orchestration's transactions, interleaved with any changes of
    policies, agents, directory and reservations, what an organisation has in use in a
    budget dimension is at most the largest limit an authorization of the run was checked
    against, as long as no change of a reservation charges the dimension again (which
    undoing a refund does). *)
Theorem budget_never_exceeded limit ts org d : tame_run (empty_odb limit) ts -> dimension_total (run (empty_odb limit) ts) org d <= largest_limit ts d.
Proof.
  intros Ht. assert (Hf0 : budget_inv (empty_odb limit) (fun _ => 0)) by (split; [done|]; intros; by vm_compute).
  pose proof (bi_total _ _ (budget_run ts _ _ Ht Hf0) org d) as Hb. cbn in Hb. unfold largest_limit in *.
  assert (0 <= foldr (fun t m => Z.max (named_limit d t) m) 0 ts) by (clear; induction ts; cbn; lia). lia.
Qed.
End Boundary.

(** ** What was decided is what is authorized

    Decisions are made on the stored quote and never change; an authorization that reserved
    budget rests on one of them, and on a person's approval of its review where the policy
    asked for it. *)

Section Decisions.
Context `{Crypto, SafeLib, Unicode, UnicodeUpper, HostNames}.
Context (s : OrchService).
#[local] Notation run := (foldl (apply_otx s)).

(** ** What a decision says *)

(** The decision is on the quote of the intent: its commitment has the operation and the
    quote's terms, its review the commitment's digest, and its snapshot is the review's hash. *)
Record decided_on (d : DecisionRow) (i : StoreInput) (q := si_Quote i) (c := dr_Commitment d) (w := dr_Review d) : Prop := {
  do_operation : cm_OperationID c = dr_OperationID d;
  do_terms : cm_PayTo c = q_PayTo q /\ cm_Amount c = q_AmountBaseUnits q /\ cm_Asset c = q_Asset q /\ cm_ChainID c = q_ChainID q /\ cm_QuoteHash c = op_QuoteHash (si_Operation i);
  do_shown : rw_PayTo w = q_PayTo q /\ rw_AmountBaseUnits w = q_AmountBaseUnits q /\ rw_Asset w = q_Asset q /\ rw_ChainID w = q_ChainID q;
  do_digest : exists digest, Commitment_Digest c (cm_EscrowContract c) (cm_ChainID c) = Ok digest /\ dr_CommitmentHash d = hex_hash digest /\ rw_CommitmentHash w = hex_hash digest;
  do_review : ReviewHash w = Ok (dr_ReviewSnapshotHash d);
  do_deadlines : exists now accept settle, dr_EvaluatedAt d = Unix now /\
    DeliveryDeadlines now (q_DeclaredWorkTime q) (q_VerificationBudgetSeconds q) accept settle = Ok (cm_AcceptBy c, cm_DeliverBy c, cm_SettleBy c) /\
    cm_QuoteExpiresAt c = q_QuoteExpiresAt q;
}.

(** The decision was made at [now] on the tables [db], and the agent's active policy, the
    one with the recorded hash, lets the purchase through without a person: the task and
    the category are those of the stored specification, which is the one that was quoted,
    and what the task and the day have used is read from the reservations. *)
Definition auto_permitted (db : odb) (now : time) (d : DecisionRow) (i : StoreInput) : Prop :=
  let org := dr_OrganizationID d in let agent := dr_AgentID d in let q := si_Quote i in let w := od_control db in
  dr_EvaluatedAt d = Unix now /\ Unix now < q_QuoteExpiresAt q /\
  exists p row spec spend a t,
    active_policy w org agent = Some (dr_PolicyVersion d, Some p) /\ ConfigHash p = Ok (dr_PolicyHash d) /\
    ow_agents w !! (org, agent) = Some row /\ ag_Status row = "ACTIVE" /\ ow_paused w !! org = Some false /\
    ValidatePersisted (si_PurchaseSpecJSON i) (si_RequestBody i) = Ok spec /\ keccakHex (si_PurchaseSpecJSON i) = q_PurchaseSpecHash q /\
    ps_OrgID spec = org /\ ps_AgentID spec = agent /\
    policySpendSnapshot db (mkIdentity org agent) spec now = Ok spend /\
    permitted (sy_config p) (mkPolicyIntent org (ag_CustomerID row) agent (ps_TaskID spec) (dr_OperationID d) RailEscrow (mustChainID (q_ChainID q)) (q_PayTo q) (q_Asset q)
      (q_AmountBaseUnits q) (q_ResourceID q) (ps_Category spec)) spend a /\
    RailEscrow ∉ cfg_ApprovalRequiredRails (sy_config p) /\ amount (cfg_AutoApproveThresholdAtomic (sy_config p)) t /\ a <= t.

Lemma escalate_auto d adapted : d_Outcome (escalateAdaptedRejection d adapted) = AutoApprove -> escalateAdaptedRejection d adapted = d.
Proof. unfold escalateAdaptedRejection. destruct (_ || _); [done|]. destruct (_ || _); [|done]. done. Qed.

Lemma policy_answer_auto who operation m cfg engine spec spend now : policy_Compile cfg = Ok engine ->
  d_Outcome (policy_answer who operation m engine spec spend now) = AutoApprove -> let q := si_Quote (mt_Intent m) in
    ag_Status (mt_Agent m) = "ACTIVE" /\ mt_Paused m = false /\ Unix now < q_QuoteExpiresAt q /\ exists a t,
    permitted cfg (mkPolicyIntent (idn_OrganizationID who) (ag_CustomerID (mt_Agent m)) (idn_AgentID who) (ps_TaskID spec) operation RailEscrow (mustChainID (q_ChainID q))
      (q_PayTo q) (q_Asset q) (q_AmountBaseUnits q) (q_ResourceID q) (ps_Category spec)) spend a /\
    RailEscrow ∉ cfg_ApprovalRequiredRails cfg /\ amount (cfg_AutoApproveThresholdAtomic cfg) t /\ a <= t.
Proof.
  intros Hc Ho. unfold policy_answer in Ho. pose proof (escalate_auto _ _ Ho) as E. rewrite E in Ho. clear E.
  destruct (bool_decide_reflect (ag_Status (mt_Agent m) = "ACTIVE")) as [Ha|]; [|done]. cbn [negb] in Ho. destruct (mt_Paused m); [done|].
  destruct (_ || _) eqn:Ew in Ho; [done|]. to_prop. apply (proj2 (policy_decision_exact _ _ _ _ Hc)) in Ho as (a & t & Hp & Hr & Ht & Hle).
  cbv zeta. split_and!; [done|done|lia|]. exists a, t. split_and!; done.
Qed.

(** What an evaluation reads of the tables *)
Lemma material_ok db who operation m : lockOperationMaterial db who operation = Ok m ->
  let w := od_control db in let org := idn_OrganizationID who in let agent := idn_AgentID who in
  od_intents db !! operation = Some (mt_Intent m) /\ ow_agents w !! (org, agent) = Some (mt_Agent m) /\ ow_paused w !! org = Some (mt_Paused m) /\
  mt_Policy m = active_policy w org agent.
Proof.
  unfold lockOperationMaterial. destruct (od_intents db !! operation) as [j|]; [|done]. rewrite check_ok_iff. intros [_ Hm].
  destruct (ow_agents _ !! _); [|done]. destruct (ow_paused _ !! _); [|done]. by injection Hm as <-.
Qed.

Lemma deriveDecision_ok db who operation m cfg row approval :
  lockOperationMaterial db who operation = Ok m -> deriveDecision db who operation m cfg = Ok (row, approval) ->
  decided_on row (mt_Intent m) /\ (dr_Outcome row = AutoApprove -> auto_permitted db (ec_Now cfg / Second * Second) row (mt_Intent m)) /\ dr_OperationID row = operation /\
  dr_OrganizationID row = idn_OrganizationID who /\ dr_AgentID row = idn_AgentID who /\
  match approval with
  | Some a => dr_ApprovalID row = Some (ap_ApprovalID a) /\ ap_IntentID a = operation /\ ap_OrganizationID a = dr_OrganizationID row /\ ap_State a = ApRequested /\
              ap_ReviewSnapshotHash a = dr_ReviewSnapshotHash row /\ dr_Outcome row = RequireApproval
  | None => dr_ApprovalID row = None /\ dr_Outcome row <> RequireApproval
  end.
Proof.
  intros (_ & Hagent & Hpaused & Hpol)%material_ok. unfold deriveDecision. rewrite !check_ok_iff. intros (_ & _ & Hx).
  destruct (ValidatePersisted _ _) as [spec|] eqn:Hspec; [|done]. rewrite check_ok_iff in Hx. destruct Hx as [Hb Hx]. to_prop. destruct Hb as [[[Hb1 Hb2] Hb3] Hb4].
  destruct (mt_Policy m) as [[version [p|]]|]; [|done|done]. rewrite check_ok_iff in Hx. destruct Hx as [_ Hx]. apply try_ok_iff in Hx as (engine & He & Hx).
  apply try_ok_iff in Hx as (ph & Hph & Hx). apply try_ok_iff in Hx as (dom & _ & Hx). apply try_ok_iff in Hx as ([[acc del] set] & Hd & Hx).
  apply try_ok_iff in Hx as (digest & Hdig & Hx). apply try_ok_iff in Hx as (rh & Hrh & Hx). apply try_ok_iff in Hx as (spend & Hspend & Hx). cbn zeta in Hx.
  set (now := ec_Now cfg / Second * Second) in *. set (answer := policy_answer who operation m engine spec spend now) in *.
  pose proof (policy_answer_auto who operation m _ engine spec spend now He) as Hauto. fold answer in Hauto.
  assert (Hon : forall outcome reason a, decided_on (mkDecisionRow (ec_DecisionID cfg) (idn_OrganizationID who) (idn_AgentID who) operation outcome reason version ph (hex_hash digest)
      (commitment_for who operation dom (op_QuoteHash (si_Operation (mt_Intent m))) (si_Quote (mt_Intent m)) cfg (acc, del, set))
      (review_for (hex_hash digest) ph version (si_Quote (mt_Intent m))) rh a (Unix now)) (mt_Intent m)).
  { intros outcome reason a. split; cbn; try done; [by exists digest|]. exists now, (ec_AcceptWindow cfg), (ec_SettleWindow cfg). done. }
  destruct outcomes_distinct as (D1 & D2 & D3). destruct (bool_decide_reflect (d_Outcome answer = RequireApproval)) as [Er|Er].
  - destruct (negb _).
    + injection Hx as <- <-. split_and!; [apply Hon|done..].
    + injection Hx as <- <-. cbn. split_and!; [apply Hon|rewrite Er; congruence|done..].
  - injection Hx as <- <-. cbn. split_and!; [apply Hon| |done..]. intros Ho. destruct (Hauto Ho) as (Hact & Hpause & Hexp & a & t & Hp & Hr & Ht & Hle).
    rewrite Hpause in Hpaused. split; [done|]. split; [done|]. exists p, (mt_Agent m), spec, spend, a, t. cbn. split_and!; try done; first [congruence|by destruct who].
Qed.

(** ** Tables only grow *)

Definition same_approval (a b : ReviewApproval) : Prop :=
  ap_ApprovalID b = ap_ApprovalID a /\ ap_IntentID b = ap_IntentID a /\ ap_OrganizationID b = ap_OrganizationID a /\ ap_ReviewSnapshotHash b = ap_ReviewSnapshotHash a /\
  (ap_State a <> ApRequested -> b = a).

Record grows (db db' : odb) : Prop := {
  gr_intents : forall k i, od_intents db !! k = Some i -> od_intents db' !! k = Some i;
  gr_decisions : forall k d, od_decisions db !! k = Some d -> od_decisions db' !! k = Some d;
  gr_approvals : forall k a, od_approvals db !! k = Some a -> exists b, od_approvals db' !! k = Some b /\ same_approval a b;
  gr_reservations : forall k r, od_reservations db !! k = Some r -> exists b, od_reservations db' !! k = Some b /\ bw_OperationID b = bw_OperationID r /\ bw_Amount b = bw_Amount r;
  gr_authorizations : forall k r, od_authorizations db !! k = Some r -> od_authorizations db' !! k = Some r;
}.

Lemma same_approval_refl a : same_approval a a.
Proof. done. Qed.

#[local] Instance grows_preorder : PreOrder grows.
Proof.
  split.
  - intros db. split; eauto using same_approval_refl.
  - intros x y z [A1 A2 A3 A4 A5] [B1 B2 B3 B4 B5]. split; eauto.
    + intros k a Ha. apply A3 in Ha as (b & Hb & E1 & E2 & E3 & E4 & E5). apply B3 in Hb as (c & Hc & F1 & F2 & F3 & F4 & F5). exists c. split; [done|].
      split_and!; [congruence..|]. intros Hs. pose proof (E5 Hs) as ->. auto.
    + intros k r Hr. apply A4 in Hr as (b & Hb & E1 & E2). apply B4 in Hb as (c & Hc & F1 & F2). exists c. split_and!; [done|congruence..].
Qed.

(** Tables that differ in none of the five *)
Lemma grows_frame db db' : od_intents db' = od_intents db -> od_decisions db' = od_decisions db -> od_approvals db' = od_approvals db ->
  od_reservations db' = od_reservations db -> od_authorizations db' = od_authorizations db -> grows db db'.
Proof. intros E1 E2 E3 E4 E5. split; rewrite ?E1, ?E2, ?E3, ?E4, ?E5; eauto using same_approval_refl. Qed.

Lemma insert_approval_ok db a db' : insert_approval db a = Ok db' -> od_approvals db !! ap_ApprovalID a = None /\ db' = put_approvals db (<[ap_ApprovalID a := a]> (od_approvals db)).
Proof. unfold insert_approval. rewrite check_ok_iff. intros [Hc [= <-]]. to_prop. by destruct Hc. Qed.
Lemma insert_decision_ok db d db' : insert_decision db d = Ok db' -> od_decisions db !! dr_OperationID d = None /\ db' = put_decision db (dr_OperationID d) d.
Proof. unfold insert_decision. rewrite check_ok_iff. intros [Hc [= <-]]. to_prop. by destruct Hc. Qed.

Lemma grows_approval db id a : od_approvals db !! id = None -> grows db (put_approvals db (<[id := a]> (od_approvals db))).
Proof.
  intros Hid. split; cbn; eauto. intros k b Hb. exists b. split; [|done]. rewrite lookup_insert_ne; [done|]. congruence.
Qed.
Lemma grows_approval_move db id a b : od_approvals db !! id = Some a -> ap_State a = ApRequested -> same_approval a b -> grows db (put_approvals db (<[id := b]> (od_approvals db))).
Proof.
  intros Hid Hs Hab. split; cbn; eauto. intros k c Hc. destruct (decide (id = k)) as [<-|Hne].
  - rewrite lookup_insert_eq. exists b. split; [done|]. by assert (c = a) as -> by congruence.
  - exists c. split; [by rewrite lookup_insert_ne|done].
Qed.
Lemma grows_decision db k d : od_decisions db !! k = None -> grows db (put_decision db k d).
Proof. intros Hk. split; cbn; eauto using same_approval_refl. intros j x Hx. rewrite lookup_insert_ne; [done|congruence]. Qed.
Lemma grows_authorization db k r : od_authorizations db !! k = None -> grows db (put_authorization db k r).
Proof. intros Hk. split; cbn; eauto using same_approval_refl. intros j x Hx. rewrite lookup_insert_ne; [done|congruence]. Qed.

(** What an evaluation adds *)
Lemma evaluateOnce_cases db who operation cfg db' x : evaluateOnce db who operation cfg = Ok (db', x) -> db' = db \/
  exists m row approval, lockOperationMaterial db who operation = Ok m /\ deriveDecision db who operation m cfg = Ok (row, approval) /\ x = ((row, approval), false) /\
    od_decisions db !! dr_OperationID row = None /\
    match approval with
    | None => db' = put_decision db (dr_OperationID row) row
    | Some a => od_approvals db !! ap_ApprovalID a = None /\ db' = put_decision (put_approvals db (<[ap_ApprovalID a := a]> (od_approvals db))) (dr_OperationID row) row
    end.
Proof.
  unfold evaluateOnce. rewrite try_ok_iff. intros (e & _ & Hx). destruct e as [e|]; [left; by injection Hx as <- _|right]. apply try_ok_iff in Hx as (m & Hm & Hx).
  rewrite check_ok_iff in Hx. destruct Hx as [_ Hx]. apply try_ok_iff in Hx as ([row a] & Hd & Hx). apply try_ok_iff in Hx as (d1 & E1 & Hx).
  apply try_ok_iff in Hx as (d2 & [E2 ->]%insert_decision_ok & [= <- <-]). exists m, row, a. destruct a as [a|].
  - apply insert_approval_ok in E1 as [E1 ->]. done.
  - by injection E1 as <-.
Qed.

Lemma decided_same a st t actor : ap_State a = ApRequested -> same_approval a (decided_approval a st t actor).
Proof. intros E. by split_and!. Qed.

Lemma grows_step db t : grows db (apply_otx s db t).
Proof.
  destruct t as [i|w|who op cfg|org id snap ok actor now|org id now|i now|id target]; cbn [apply_otx].
  - destruct (od_intents db !! _) eqn:Ei; [done|]. split; cbn; eauto using same_approval_refl. intros k x Hx. rewrite lookup_insert_ne; [done|congruence].
  - by apply grows_frame.
  - destruct (evaluateOnce _ _ _ _) as [[db' x]|] eqn:E; [|done]. apply evaluateOnce_cases in E as [->|(m & row & a & _ & _ & _ & Hd & Ha)]; [done|].
    destruct a as [a|]; [|subst; by apply grows_decision]. destruct Ha as [Ha ->]. etransitivity; [by apply grows_approval|by apply grows_decision].
  - unfold decide_row. destruct (od_approvals db !! id) as [a|] eqn:Ea; [|done]. destruct (_ && _) eqn:Eg; [|done]. to_prop. destruct_and?.
    by eapply grows_approval_move, decided_same.
  - unfold expire_row. destruct (od_approvals db !! id) as [a|] eqn:Ea; [|done]. destruct (_ && _) eqn:Eg; [|done]. to_prop. destruct_and?.
    by eapply grows_approval_move, decided_same.
  - destruct (authorize_once s db i now) as [[?|[db' x]]|] eqn:E; [done| |done]. apply authorize_cases in E as (Hn & [(reason & -> & _)|(org & F & -> & _)]).
    + by apply grows_authorization.
    + pose proof (af_new _ _ _ _ _ F) as Hr. split; cbn; eauto using same_approval_refl.
      * intros k r Hk. exists r. split; [|done]. rewrite lookup_insert_ne; [done|congruence].
      * intros k r Hk. rewrite lookup_insert_ne; [done|congruence].
  - unfold move_reservation. destruct (od_reservations db !! id) as [r|] eqn:Er; [|done]. set (b := mkBudgetRow _ _ _ _ _ _).
    assert (Hb : grows db (put_reservations db (<[id := b]> (od_reservations db)))).
    { split; cbn; eauto using same_approval_refl. intros k x Hx. destruct (decide (id = k)) as [<-|Hne].
      - rewrite lookup_insert_eq. exists b. by assert (x = r) as -> by congruence.
      - exists x. split; [by rewrite lookup_insert_ne|done]. }
    destruct (_ && _); [|done]. destruct (bool_decide _); [|done]. destruct (0 <? _); [|done]. etransitivity; [exact Hb|by apply grows_frame].
Qed.

Lemma grows_run ts : forall db, grows db (run db ts).
Proof. induction ts as [|t ts IH]; intros db; cbn [foldl]; [done|]. etransitivity; [apply grows_step|apply IH]. Qed.

(** ** What an authorization rests on *)

(** A reason that is empty comes from the last check. *)
Ltac not_empty := intros Hre Hempty; injection Hre as <-; vm_compute in Hempty; discriminate.

Lemma Revalidate_matches age db i now reason : Revalidate age db i now = Ok reason -> TrimSpace reason = "" ->
  exists intent, od_intents db !! ei_IntentID i = Some intent /\ review_matches (op_DirectoryVersion (si_Operation intent)) (si_Quote intent) i = true.
Proof.
  unfold Revalidate. destruct (od_intents db !! ei_IntentID i) as [intent|]; [|not_empty]. destruct (_ !! _) as [agent|]; [|not_empty].
  destruct (_ !! _) as [paused|]; [|not_empty]. destruct (negb _); [not_empty|]. destruct paused; [not_empty|].
  destruct (active_policy _ _ _) as [[version [p|]]|]; [|done|not_empty]. destruct (ConfigHash p) as [ph|]; [|done]. destruct (negb _); [not_empty|].
  destruct (Quote_Validate _); [|done]. destruct (bool_decide _); [not_empty|]. destruct (ValidatePersisted _ _) as [spec|]; [|done]. destruct (negb _); [not_empty|].
  destruct (review_matches _ _ i) eqn:Em; [|not_empty]. intros _ _. by exists intent.
Qed.

(** [Past operation db now]: the operation was evaluated at [now] on the tables [db]. *)
Section Past.
Variable Past : string -> odb -> time -> Prop.

Definition permitted_then (d : DecisionRow) (i : StoreInput) : Prop := exists db now, Past (dr_OperationID d) db now /\ auto_permitted db now d i.

Definition rests_on (db : odb) (intent : string) (row : ExecRow) : Prop :=
  exists i d id b, od_intents db !! intent = Some i /\ od_decisions db !! intent = Some d /\ dr_OperationID d = intent /\ decided_on d i /\
    xr_ReservationID row = Some id /\ od_reservations db !! id = Some b /\ bw_OperationID b = intent /\ bw_Amount b = q_AmountBaseUnits (si_Quote i) /\
    ((dr_Outcome d = AutoApprove /\ xr_AutoDecisionRef row = dr_DecisionID d /\ permitted_then d i) \/
     (dr_Outcome d = RequireApproval /\ exists a, dr_ApprovalID d = Some (xr_ApprovalID row) /\ od_approvals db !! xr_ApprovalID row = Some a /\
        ap_State a = ApApproved /\ ap_ReviewSnapshotHash a = dr_ReviewSnapshotHash d)).

Record orch_inv (db : odb) : Prop := {
  on_decisions : forall k d, od_decisions db !! k = Some d -> dr_OperationID d = k /\ exists i, od_intents db !! k = Some i /\ decided_on d i /\
    (dr_Outcome d = AutoApprove -> permitted_then d i);
  on_approvals : forall k a, od_approvals db !! k = Some a -> ap_ApprovalID a = k /\ exists d, od_decisions db !! ap_IntentID a = Some d /\
    dr_ApprovalID d = Some k /\ ap_ReviewSnapshotHash a = dr_ReviewSnapshotHash d /\ dr_Outcome d = RequireApproval;
  on_authorized : forall k row, od_authorizations db !! k = Some row -> xr_State row = ValidatedAndReserved -> rests_on db k row;
}.

Lemma rests_on_grows db db' k row : grows db db' -> rests_on db k row -> rests_on db' k row.
Proof.
  intros [G1 G2 G3 G4 _] (i & d & id & b & Hi & Hd & Hk & Hon & Hid & Hb & Hop & Ham & Hcase). destruct (G4 _ _ Hb) as (b' & Hb' & E1 & E2).
  exists i, d, id, b'. split_and!; eauto; [congruence|congruence|]. destruct Hcase as [?|(Ho & a & Ha1 & Ha2 & Ha3 & Ha4)]; [by left|right]. split; [done|].
  destruct (G3 _ _ Ha2) as (a' & Ha' & _ & _ & _ & _ & E). rewrite E in Ha' by (rewrite Ha3; discriminate). by exists a.
Qed.

(** What the old rows say carries over; the new ones are left to show. *)
Lemma inv_grows db db' : grows db db' -> orch_inv db ->
  (forall k d, od_decisions db' !! k = Some d -> od_decisions db !! k = Some d \/
     (dr_OperationID d = k /\ exists i, od_intents db' !! k = Some i /\ decided_on d i /\ (dr_Outcome d = AutoApprove -> permitted_then d i))) ->
  (forall k a, od_approvals db' !! k = Some a -> (exists b, od_approvals db !! k = Some b /\ same_approval b a) \/
     (ap_ApprovalID a = k /\ exists d, od_decisions db' !! ap_IntentID a = Some d /\ dr_ApprovalID d = Some k /\ ap_ReviewSnapshotHash a = dr_ReviewSnapshotHash d /\ dr_Outcome d = RequireApproval)) ->
  (forall k row, od_authorizations db' !! k = Some row -> od_authorizations db !! k = Some row \/ (xr_State row = ValidatedAndReserved -> rests_on db' k row)) ->
  orch_inv db'.
Proof.
  intros G [I1 I2 I3] N1 N2 N3. pose proof G as [G1 G2 _ _ _]. split.
  - intros k d [Hd|]%N1; [|done]. destruct (I1 _ _ Hd) as (E & i & Hi & Hon). eauto.
  - intros k a [(b & Hb & E1 & E2 & E3 & E4 & _)|]%N2; [|done]. destruct (I2 _ _ Hb) as (E & d & Hd & Hrest). split; [congruence|]. exists d. rewrite E2, E4. eauto.
  - intros k row [Hr|Hr]%N3 Hs; [|by apply Hr]. eapply rests_on_grows; [exact G|]. by apply I3.
Qed.

Lemma inv_unchanged db db' : grows db db' -> od_decisions db' = od_decisions db -> od_approvals db' = od_approvals db -> od_authorizations db' = od_authorizations db ->
  orch_inv db -> orch_inv db'.
Proof.
  intros G E1 E2 E3 I. eapply inv_grows; [exact G|exact I|..]; rewrite ?E1, ?E2, ?E3; [by left| |by left]. intros k a Ha. left. by exists a.
Qed.

Lemma inv_authorized db i now org : authorization_facts s db i now org -> orch_inv db -> rests_on (with_authorization db i now) (ei_IntentID i) (authorized_row i now).
Proof.
  intros F [I1 I2 I3]. destruct (af_valid _ _ _ _ _ F) as (reason & Hre & Het). destruct (Revalidate_matches _ _ _ _ _ Hre Het) as (intent & Hi & Hm).
  pose proof (exec_operation _ (af_input _ _ _ _ _ F)) as Hop. pose proof (af_decision _ _ _ _ _ F) as Hc.
  assert (Ham : rq_Amount (ei_Reservation i) = q_AmountBaseUnits (si_Quote intent)) by (unfold review_matches in Hm; to_prop; destruct_and?; congruence).
  assert (exists d, od_decisions db !! ei_IntentID i = Some d /\
    ((dr_Outcome d = AutoApprove /\ ei_AutoDecisionRef i = dr_DecisionID d) \/
     (dr_Outcome d = RequireApproval /\ exists a, dr_ApprovalID d = Some (ei_ApprovalID i) /\ od_approvals db !! ei_ApprovalID i = Some a /\ ap_State a = ApApproved /\
        ap_ReviewSnapshotHash a = dr_ReviewSnapshotHash d))) as (d & Hd & Hcase).
  { unfold decision_cause in Hc. destruct (negb _).
    - destruct (od_approvals db !! ei_ApprovalID i) as [a|] eqn:Ea; [|done]. destruct (negb _) eqn:Eg; [done|]. to_prop. destruct_and?.
      destruct (I2 _ _ Ea) as (_ & d & Hd & Hid & Hsn & Ho). exists d. split; [congruence|]. right. eauto 10.
    - destruct (od_decisions db !! ei_IntentID i) as [d|]; [|done]. rewrite check_ok_iff in Hc. destruct Hc as [Hc _]. to_prop. destruct_and?. exists d. split; [done|]. left. done. }
  destruct (I1 _ _ Hd) as (Hk & i' & Hi' & Hon & Hauto). assert (i' = intent) as -> by congruence.
  exists intent, d, (rq_ReservationID (ei_Reservation i)), (reservation_row (ei_Reservation i) now). split_and!; try done.
  - cbn. by rewrite lookup_insert_eq.
  - destruct Hcase as [[Ho Hr]|Hcase]; [left|right; exact Hcase]. split_and!; [done|exact Hr|by apply Hauto].
Qed.

(** The evaluations of a step are of its tables. *)
Definition evaluates (db : odb) (t : otx) : Prop := match t with OEvaluate _ op cfg => Past op db (ec_Now cfg / Second * Second) | _ => True end.

Lemma orch_inv_step db t : evaluates db t -> orch_inv db -> orch_inv (apply_otx s db t).
Proof.
  intros Hev I. pose proof (grows_step db t) as G. pose proof I as [I1 I2 I3].
  destruct t as [i|w|who op cfg|org id snap ok actor now|org id now|i now|id target]; cbn [apply_otx] in *.
  - destruct (od_intents db !! _); [done|]. by eapply inv_unchanged.
  - by eapply inv_unchanged.
  - destruct (evaluateOnce _ _ _ _) as [[db' x]|] eqn:E; [|done]. apply evaluateOnce_cases in E as [->|(m & row & a & Hm & Hd & _ & Hn & Ha)]; [done|].
    destruct (deriveDecision_ok _ _ _ _ _ _ _ Hm Hd) as (Hon & Hauto & Hop & Horg & _ & Happ). destruct (material_ok _ _ _ _ Hm) as [Hi _].
    assert (Hthen : dr_Outcome row = AutoApprove -> permitted_then row (mt_Intent m)) by (intros Ho; do 2 eexists; rewrite Hop; split; [exact Hev|by apply Hauto]).
    assert (Eq : od_decisions db' = <[dr_OperationID row := row]> (od_decisions db) /\ od_intents db' = od_intents db /\ od_authorizations db' = od_authorizations db /\
      od_approvals db' = match a with Some a => <[ap_ApprovalID a := a]> (od_approvals db) | None => od_approvals db end).
    { destruct a as [a|]; [destruct Ha as [_ ->]|subst]; done. }
    destruct Eq as (Eqd & Eqi & Eqa & Eqp). eapply inv_grows; [exact G|exact I|..].
    + intros k d. rewrite Eqd, lookup_insert_Some, Eqi, Hop. intros [[<- <-]|[_ Hx]]; [right|by left]. split; [done|]. eauto.
    + intros k b. rewrite Eqp, Eqd. destruct a as [a|]; [|intros Hb; left; by exists b]. destruct Happ as (A1 & A2 & A3 & A4 & A5 & A6).
      rewrite lookup_insert_Some. intros [[<- <-]|[_ Hb]]; [right|left; by exists b]. split; [done|]. exists row. rewrite A2, <- Hop, lookup_insert_eq. done.
    + intros k r. rewrite Eqa. by left.
  - unfold decide_row in *. destruct (od_approvals db !! id) as [a|] eqn:Ea; [|done]. destruct (_ && _) eqn:Eg; [|done]. to_prop. destruct_and?.
    eapply inv_grows; [exact G|exact I|by left| |by left]. intros k b. cbn. rewrite lookup_insert_Some. intros [[<- <-]|[_ Hb]]; left; [exists a|by exists b]. split; [done|]. by apply decided_same.
  - unfold expire_row in *. destruct (od_approvals db !! id) as [a|] eqn:Ea; [|done]. destruct (_ && _) eqn:Eg; [|done]. to_prop. destruct_and?.
    eapply inv_grows; [exact G|exact I|by left| |by left]. intros k b. cbn. rewrite lookup_insert_Some. intros [[<- <-]|[_ Hb]]; left; [exists a|by exists b]. split; [done|]. by apply decided_same.
  - destruct (authorize_once s db i now) as [[?|[db' x]]|] eqn:E; [done| |done]. apply authorize_cases in E as (Hn & [(reason & -> & _)|(org & F & -> & _)]).
    + eapply inv_grows; [exact G|exact I|by left|intros k a Ha; left; by exists a|]. intros k r. cbn. rewrite lookup_insert_Some. intros [[_ <-]|[_ Hr]]; [by right|by left].
    + eapply inv_grows; [exact G|exact I|by left|intros k a Ha; left; by exists a|]. intros k r.
      cbn [with_authorization put_authorization od_authorizations put_admissions put_reservations]. rewrite lookup_insert_Some.
      intros [[<- <-]|[_ Hr]]; [right; intros _|by left]. by eapply inv_authorized.
  - unfold move_reservation in *. destruct (od_reservations db !! id) as [r|]; [|done]. destruct (_ && _); [|by eapply inv_unchanged].
    destruct (bool_decide _); [|done]. destruct (0 <? _); [|done]. by eapply inv_unchanged.
Qed.

Lemma orch_inv_run ts : forall db, (forall ts0 t rest, ts = ts0 ++ t :: rest -> evaluates (run db ts0) t) -> orch_inv db -> orch_inv (run db ts).
Proof.
  induction ts as [|t ts IH]; intros db Hev I; cbn [foldl]; [done|]. apply IH; [|apply orch_inv_step; [exact (Hev [] t ts eq_refl)|done]].
  intros ts0 u rest ->. exact (Hev (t :: ts0) u rest eq_refl).
Qed.
Lemma orch_inv_empty limit : orch_inv (empty_odb limit).
Proof. split; intros k x; cbn; by rewrite lookup_empty. Qed.
End Past.

(** The evaluations of a run *)
Definition evaluated_in (limit : Z) (ts : list otx) (operation : string) (db : odb) (now : time) : Prop :=
  exists ts0 who cfg rest, ts = ts0 ++ OEvaluate who operation cfg :: rest /\ db = run (empty_odb limit) ts0 /\ now = ec_Now cfg / Second * Second.

Lemma orch_inv_reached limit ts : orch_inv (evaluated_in limit ts) (run (empty_odb limit) ts).
Proof. apply orch_inv_run, orch_inv_empty. intros ts0 [] rest ->; try done. by do 4 eexists. Qed.

(** C20: In any run of intents, evaluations, decisions on approvals, authorizations and
    changes by other components, an authorization that reserved budget rests on the one
    decision made for its intent: the commitment of the decision has the intent's quoted
    payee, amount, asset and chain, the reservation has that amount, and either an
    evaluation of the run found that the agent's active policy, the one with the recorded
    hash, let exactly this purchase through without a person, with the task and category of
    the stored specification and with what the task and the day had used at that moment, or
    the approval of the review with this commitment's digest was granted. And the
    authorization never changes afterwards. *)
Theorem authorized_as_decided limit ts intent row (db := run (empty_odb limit) ts) :
  od_authorizations db !! intent = Some row -> xr_State row = ValidatedAndReserved ->
  rests_on (evaluated_in limit ts) db intent row /\ forall ts', od_authorizations (run db ts') !! intent = Some row.
Proof.
  intros Hrow Hs. split; [by apply (on_authorized _ _ (orch_inv_reached limit ts))|]. intros ts'. by apply (gr_authorizations _ _ (grows_run ts' db)).
Qed.

(** ** The time an authorization has *)

Lemma checkedUnixAdd_nonneg l : forall t r, Forall (fun v => 0 <= v) l -> foldl checked_add t l = Some r ->
  exists t0, t = Some t0 /\ r = t0 + foldr Z.add 0 l /\ (t0 <= MaxInt64 -> r <= MaxInt64).
Proof.
  induction l as [|v l IH]; cbn [foldl foldr]; intros t r Hl E; [exists r; split_and!; [done|lia|done]|]. apply Forall_cons in Hl as [Hv Hl].
  destruct (IH _ _ Hl E) as (u & Eu & Er & Hb). destruct t as [t|]; [|done]. cbn in Eu. destruct (MaxInt64 - t <? v) eqn:El; [done|]. injection Eu as <-. exists t. split_and!; [done|lia|intros; apply Hb; lia].
Qed.

(** The acceptance window is at most a quarter of an hour, and delivery is due at its end or
    two minutes after the quoted times of work and verification. *)
Lemma deadlines_bounded now work verification accept settle a d e : 0 <= work -> DeliveryDeadlines now work verification accept settle = Ok (a, d, e) ->
  Unix now < a <= Unix now + 900 /\ d = Z.max (Unix now + (work + Z.max verification 120 + 120)) (a + 1) /\ work + Z.max verification 120 <= MaxInt64.
Proof.
  intros Hw. unfold DeliveryDeadlines, or_conflict, wholePositiveSeconds. change (deliverySafetyBuffer / Second) with 120. set (n := Unix now).
  destruct ((0 <? accept) && _) eqn:Ea; [|done]. destruct (_ && (Z.rem settle Second =? 0)); [|done]. rewrite check_ok_iff. intros [Hc E]. to_prop. destruct_and?.
  assert (Ha : 0 < accept / Second <= 900).
  { pose proof (Z.div_mod accept Second ltac:(done)) as Hd. pose proof (Z.mod_pos_bound accept Second ltac:(done)) as Hm.
    assert (Hr : Z.rem accept Second = accept mod Second) by (apply Z.rem_mod_nonneg; unfold Second; lia). unfold maximumAcceptWindow, Minute, Second in *. lia. }
  destruct (checkedUnixAdd [work; _; _]) as [x|] eqn:Ex; [|done]. destruct (checkedUnixAdd [n; accept / Second]) as [y|] eqn:Ey; [|done].
  destruct (checkedUnixAdd [n; x]) as [z|] eqn:Ez; [|done].
  apply checkedUnixAdd_nonneg in Ex as (? & [= <-] & -> & Hx); [|repeat constructor; lia]. apply checkedUnixAdd_nonneg in Ey as (? & [= <-] & -> & _); [|repeat constructor; lia].
  cbn [foldr] in *. specialize (Hx ltac:(done)). apply checkedUnixAdd_nonneg in Ez as (? & [= <-] & -> & _); [|repeat constructor; lia]. cbn [foldr] in *.
  destruct (_ <=? _) eqn:Ele in E.
  - destruct (checkedUnixAdd [_; 1]) as [u|] eqn:Eu; [|done]. apply checkedUnixAdd_nonneg in Eu as (? & [= <-] & -> & _); [|repeat constructor; lia]. cbn [foldr] in E.
    destruct (checkedUnixAdd _); [|done]. apply check_ok_iff in E as [_ [= <- <- <-]]. lia.
  - destruct (checkedUnixAdd _); [|done]. apply check_ok_iff in E as [_ [= <- <- <-]]. lia.
Qed.

Lemma loadDecision_row db who operation d : orch_Decision db who operation = Ok d -> od_decisions db !! operation = Some d.1.
Proof.
  unfold orch_Decision, loadDecision. destruct (od_decisions db !! operation) as [row|]; [|done]. destruct (negb _); [done|]. destruct (decision_binding row); [|done].
  destruct (joined_approval db row) as [a|]; [destruct (bool_decide _); [|done]|]; by intros [= <-].
Qed.

Lemma AuthorizationInput_ok db db' who operation aid rid now input : AuthorizationInput db db' who operation aid rid now = Ok input ->
  exists d i, od_decisions db !! operation = Some d /\ od_intents db' !! operation = Some i /\ delivery_window (dr_Commitment d) (si_Quote i) now = true.
Proof.
  unfold AuthorizationInput. rewrite try_ok_iff. intros ([row a] & Hd & E). apply try_ok_iff in E as (_ & _ & E). apply loadDecision_row in Hd. cbn [fst] in *.
  destruct (od_intents db' !! operation) as [i|]; [|done]. apply check_ok_iff in E as [_ E]. destruct (SetString10 _); [|done]. apply check_ok_iff in E as [_ E].
  destruct (active_policy _ _ _) as [[? p]|]; [|done]. destruct (current_head _ _ _) as [[]|]; [|done]. destruct p; [|done]. apply check_ok_iff in E as [E _]. eauto.
Qed.

(** C22: In any run, the input for an authorization is only produced before the acceptance
    deadline of the operation's commitment, which is at most a quarter of an hour after the
    evaluation, and at most two minutes after the evaluation or one second past that deadline
    less the quoted times of work and verification, whichever is later; an approval of the
    same decision may be open for a day. *)
Theorem authorization_window limit ts ts' who operation aid rid now input i (db := run (empty_odb limit) ts) (db' := run db ts') (q := si_Quote i) :
  od_intents db !! operation = Some i -> quote_typed q -> AuthorizationInput db db' who operation aid rid now = Ok input ->
  exists d, od_decisions db !! operation = Some d /\ let accept := cm_AcceptBy (dr_Commitment d) in let t := dr_EvaluatedAt d in
    Unix now < accept <= t + 900 /\ Unix now <= Z.max (t + 120) (accept + 1 - (q_DeclaredWorkTime q + Z.max (q_VerificationBudgetSeconds q) 120)).
Proof.
  intros Hi Hq E. apply AuthorizationInput_ok in E as (d & j & Hd & Hj & Hw). exists d. split; [done|].
  assert (Eij : j = i) by (pose proof (gr_intents _ _ (grows_run ts' db) _ _ Hi) as Hx; unfold db' in Hj; rewrite Hj in Hx; by injection Hx). subst j. fold q in Hw.
  destruct (on_decisions _ _ (orch_inv_reached limit ts) _ _ Hd) as (_ & k & Hk & Hon & _). assert (k = i) by (fold db in Hk; rewrite Hk in Hi; by injection Hi). subst k.
  destruct (do_deadlines _ _ Hon) as (t0 & accept & settle & -> & Hdl & _). fold q in Hdl. destruct Hq as (? & ? & Hwork & Hver & ?).
  pose proof (deadlines_bounded _ _ _ _ _ _ _ _ (proj1 Hwork) Hdl) as (Ha & Hdel & Hmax). unfold delivery_window in Hw. to_prop. destruct_and?.
  assert (Em : q_DeclaredWorkTime q + (if q_VerificationBudgetSeconds q <? 120 then 120 else q_VerificationBudgetSeconds q) =
    q_DeclaredWorkTime q + Z.max (q_VerificationBudgetSeconds q) 120) by (destruct (_ <? _) eqn:?; lia).
  rewrite Em, uint64_id in * by (unfold is_uint64, MaxUint64, MaxInt64 in *; lia). lia.
Qed.
End Decisions.
