(* ===== verification/OrchestrationDemo.v ===== *)
(** * Orchestration at work

    A purchase accepted by intake is evaluated, approved and authorized, in the calls of the
    service; the same transactions are the run at which the theorems are applied. *)
From stdpp Require Import base gmap strings list sorting.
From Stdlib Require Import ZArith Lia Ascii.
From S2P Require Import Prelude GoText GoJSON Amounts Crypto Envelope Policy Reservation GovAction SafeTx SellerQuote Url PurchaseSpec PurchaseDemo Adaptation Intake IntakeDemo DirectoryReader TxRetry SettlementStore Commitment ExecStore Orchestration OrchestrationTheorems.

Open Scope Z_scope.
#[local] Existing Instance ToyCrypto.
#[local] Existing Instance ToyUnicode.
#[local] Existing Instance ToyUpper.
#[local] Existing Instance ToyHosts.
#[local] Existing Instance CarriedSigner.

(** ** The tables *)

Definition buyer_agent : Identity := mkIdentity "acme" "agent-7".
Definition bought_id : string := operation_named "p".
Definition no_intent : StoreInput := mkStoreInput (mkOperation "" "" "" "" "" "" 0 "" "" "" 0 false) "" "" (quote_for "c") "" "" "" "".
(** What intake has kept of the purchase *)
Definition stored_intent : StoreInput := match id_intents bought.1 with [r] => nt_Input r | _ => no_intent end.

(** Purchases above [threshold] go to a person. *)
Definition policy_with (threshold : string) : StoredPolicy :=
  mkStoredPolicy (mkPolicyConfig "v1" true [84532] [RailEscrow] [demo_asset] [demo_provider] [] [] "300" threshold "400" "500" "" "" "") false false.
Definition tables_at (observed : Z) : DirectoryTables :=
  mkDirectoryTables {[demo_hash "8" := mkSnapshotRow 84532 demo_contract 1 (demo_hash "9") 50 (demo_hash "e") ["rpc-a"; "rpc-b"] (time_of_unix observed)]}
    {[(demo_hash "8", demo_hash "1", demo_hash "2") := evidence_for]} {[(84532, demo_contract) := mkHeadRow (demo_hash "8") 1 50 (time_of_unix observed)]}.
Definition control_with (threshold : string) : control :=
  mkControl {["acme" := false]} {[("acme", "agent-7") := mkAgentRow "customer-1" "ACTIVE"]} {[("acme", "agent-7", "v1") := Some (policy_with threshold)]}
    {[("acme", "agent-7") := "v1"]} {[(84532, demo_asset) := mkHealthRow "NORMAL" 1 (Some (time_of_unix 1010))]} (tables_at 1010).

Definition demo_service : OrchService := mkOrchService demo_contract (5 * Minute) (30 * Minute) (5 * Minute) 10.
Definition started (threshold : string) : list otx := [OControl (control_with threshold); OIntent stored_intent].
Definition calm : list (tx_env otx) := [mkTxEnv false Committed []].
#[local] Notation run := (foldl (apply_otx demo_service)).

(** ** The calls *)

Definition evaluated (threshold : string) : odb * res (LoadedDecision * string) :=
  orch_Evaluate demo_service (run (empty_odb 10) (started threshold)) buyer_agent bought_id (time_of_unix 1020) (Ok (demo_hash "4")) (Ok (demo_hash "5")) calm [] None.
Definition snapshot_of (r : res (LoadedDecision * string)) : string := match r with Ok (d, _) => dr_ReviewSnapshotHash d.1 | Err e => e end.
Definition outcome_of (r : res (LoadedDecision * string)) : option (Outcome * Reason) := match r with Ok (d, _) => Some (dr_Outcome d.1, dr_Reason d.1) | Err e => None end.
Definition approval_decided (approved : bool) : odb * answer ReviewApproval :=
  let e := evaluated "100" in DecideApproval demo_service e.1 "acme" (demo_hash "5") (snapshot_of e.2) approved "alice" (time_of_unix 1040) [] [].
Definition world_at (now : Z) : authorize_world :=
  mkAuthorizeWorld (Ok (demo_hash "6")) (Ok (demo_hash "7")) (time_of_unix now) (time_of_unix now) [] [] [] calm [].
Definition authorized_from (db : odb) (now : Z) : odb * answer OrchAuthorization := orch_Authorize demo_service db buyer_agent bought_id (world_at now).
Definition verdict (x : odb * answer OrchAuthorization) : option (ExecState * string) * option error := ((fun a => (oa_State a, oa_Reason a)) <$> x.2.1, x.2.2).

(** An approved purchase is authorized once; without its approval, or with a refusal, it is
    not. The approval is open until the quote expires at 2000, and the time for an
    authorization is over at 1142. *)
Example purchase_authorized :
  outcome_of (evaluated "100").2 = Some (RequireApproval, ReasonHumanApprovalThreshold) /\ outcome_of (evaluated "300").2 = Some (AutoApprove, ReasonAllowed) /\
  verdict (authorized_from (evaluated "300").1 1050) = (Some (ValidatedAndReserved, ""), None) /\
  verdict (authorized_from (evaluated "100").1 1050) = (None, Some ErrApprovalPending) /\
  verdict (authorized_from (approval_decided false).1 1050) = (None, Some ErrApprovalUnavailable) /\
  verdict (authorized_from (approval_decided true).1 1050) = (Some (ValidatedAndReserved, ""), None) /\
  verdict (authorized_from (authorized_from (approval_decided true).1 1050).1 9999) = (Some (ValidatedAndReserved, ""), None) /\
  verdict (authorized_from (approval_decided true).1 1142) = (None, Some ErrOperationExpired) /\
  ap_ExpiresAt <$> (approval_decided true).2.1 = Some 2000.
Proof. vm_compute. by split_and!. Qed.

(** The directory is read again between the input and the boundary: the intent is
    invalidated for good. *)
Definition newer_directory : otx :=
  OControl (mkControl {["acme" := false]} {[("acme", "agent-7") := mkAgentRow "customer-1" "ACTIVE"]} {[("acme", "agent-7", "v1") := Some (policy_with "100")]}
    {[("acme", "agent-7") := "v1"]} {[(84532, demo_asset) := mkHealthRow "NORMAL" 1 (Some (time_of_unix 1010))]}
    (mkDirectoryTables {[demo_hash "9" := mkSnapshotRow 84532 demo_contract 1 (demo_hash "9") 51 (demo_hash "f") ["rpc-a"; "rpc-b"] (time_of_unix 1050)]}
       {[(demo_hash "9", demo_hash "1", demo_hash "2") := evidence_for]} {[(84532, demo_contract) := mkHeadRow (demo_hash "9") 1 51 (time_of_unix 1050)]})).
Definition overtaken : odb * answer OrchAuthorization :=
  orch_Authorize demo_service (approval_decided true).1 buyer_agent bought_id
    (mkAuthorizeWorld (Ok (demo_hash "6")) (Ok (demo_hash "7")) (time_of_unix 1050) (time_of_unix 1050) [] [] [newer_directory] calm []).
Example observation_invalidates :
  verdict overtaken = (Some (Invalidated, reasonSnapshotChanged), Some ErrRevalidationFailed) /\
  verdict (authorized_from overtaken.1 1060) = (Some (Invalidated, reasonSnapshotChanged), None).
Proof. vm_compute. by split. Qed.

(** ** The theorems *)

Definition approved_run : list otx :=
  started "100" ++ [OEvaluate buyer_agent bought_id (evaluation_config demo_service (time_of_unix 1020) (demo_hash "4") (demo_hash "5"));
    ODecide "acme" (demo_hash "5") (snapshot_of (evaluated "100").2) true "alice" (time_of_unix 1040)].
Definition no_input : ExecInput :=
  mkExecInput "" "" "" "" "" "" (mkReview "" "" "" 0 "" "" "" "" "" "" "") (mkReserveRequest "" "" "" [] 0).
#[local] Notation approved_db := (run (empty_odb 10) approved_run).
#[local] Notation input_now := (AuthorizationInput approved_db (run approved_db []) buyer_agent bought_id (demo_hash "6") (demo_hash "7") (time_of_unix 1050)).
Definition demo_input : ExecInput := Eval vm_compute in match input_now with Ok i => i | Err _ => no_input end.
Definition spent_run : list otx := approved_run ++ [OAuthorize demo_input (time_of_unix 1050)].
Definition demo_dimension : string := default "" (dim_ID <$> head (rq_Dimensions (ei_Reservation demo_input))).
#[local] Notation spent_db := (run (empty_odb 10) spent_run).

Lemma spent_tame : tame_run demo_service (empty_odb 10) spent_run.
Proof. unfold spent_run, approved_run, started. cbn [app tame_run tame_step]. repeat split. Qed.

Example budget_used : (dimension_total spent_db "acme" demo_dimension, largest_limit spent_run demo_dimension) = (250, 500).
Proof. vm_compute. reflexivity. Qed.

Lemma budget_never_exceeded_witness : dimension_total spent_db "acme" demo_dimension <= largest_limit spent_run demo_dimension.
Proof. exact (budget_never_exceeded demo_service 10 spent_run "acme" demo_dimension spent_tame). Defined.

Definition reserved_row (o : option ExecRow) : bool := match o with Some r => bool_decide (xr_State r = ValidatedAndReserved) | None => false end.
Lemma reserved_row_some o : reserved_row o = true -> exists r, o = Some r /\ xr_State r = ValidatedAndReserved.
Proof. destruct o as [r|]; [|done]. intros Hr. exists r. split; [done|]. by apply bool_decide_eq_true in Hr. Qed.
Lemma spent_reserved : reserved_row (od_authorizations spent_db !! bought_id) = true.
Proof. vm_compute. reflexivity. Qed.

Lemma authorized_as_decided_witness : exists row, od_authorizations spent_db !! bought_id = Some row /\
  rests_on (evaluated_in demo_service 10 spent_run) spent_db bought_id row /\ od_authorizations (run spent_db []) !! bought_id = Some row.
Proof.
  destruct (reserved_row_some _ spent_reserved) as (row & Hrow & Hs). exists row. split; [exact Hrow|].
  destruct (authorized_as_decided demo_service 10 spent_run bought_id row Hrow Hs) as [Hr Hlater]. split; [exact Hr|exact (Hlater [])].
Defined.

Lemma is_ok_some {A} (r : res A) : is_ok r = true -> exists x, r = Ok x.
Proof. destruct r as [x|]; [eauto|done]. Qed.
Lemma approved_input : is_ok input_now = true.
Proof. vm_compute. reflexivity. Qed.
Lemma approved_intent : od_intents approved_db !! bought_id = Some stored_intent.
Proof. vm_compute. reflexivity. Qed.
Lemma stored_typed : quote_typed (si_Quote stored_intent).
Proof. vm_compute. repeat split; discriminate. Qed.

Lemma authorization_window_witness : exists d, od_decisions approved_db !! bought_id = Some d /\
  let accept := cm_AcceptBy (dr_Commitment d) in let t := dr_EvaluatedAt d in let q := si_Quote stored_intent in
  Unix (time_of_unix 1050) < accept <= t + 900 /\ Unix (time_of_unix 1050) <= Z.max (t + 120) (accept + 1 - (q_DeclaredWorkTime q + Z.max (q_VerificationBudgetSeconds q) 120)).
Proof.
  destruct (is_ok_some _ approved_input) as [input Hin].
  exact (authorization_window demo_service 10 approved_run [] buyer_agent bought_id (demo_hash "6") (demo_hash "7") (time_of_unix 1050) input stored_intent
           approved_intent stored_typed Hin).
Defined.
